(* ===== verification/_CoqProject ===== *)
-Q . S2P
Prelude.v
GoStd.v
Errors.v
Labels.v
Driver.v
Lifecycle.v
Etag.v
Settings.v
Store.v
Memory.v
Listing.v
World.v
Mutate.v
Admission.v
Protocol.v
Templates.v
Service.v
Exec.v
Verbs.v
Calls.v
Reconcile.v
Passes.v
Idempotency.v
Sessions.v
Surface.v
Operations.v
Authority.v
PoolSpec.v
ReconcileSpec.v
RestoreSpec.v
LineDiff.v
Chain.v
ChainSpec.v
Sedscript.v
GoNet.v
Egress.v
AddrSpec.v
EgressSpec.v
GoPath.v
Glob.v
ShellSplit.v
PolicyRule.v
Overlay.v
Remote.v
Args.v
GoJson.v
Secrets.v
Kubescope.v
PolicyEngine.v
PolicyEngineSpec.v
PolicyMonotone.v
GoBinary.v
WsFrame.v
WsConn.v
EgressRecord.v
EgressCalls.v
EgressSynth.v
EgressDns.v
EgressTarget.v
EgressUpstream.v
EgressInspect.v
EgressProxy.v
EgressSession.v
Monitor.v
AgentTools.v
Runbook.v
AgentLoop.v
AgentCalls.v
AgentCallsSpec.v
SessionRecord.v
Transcript.v
Undo.v
Branch.v
Recover.v
Compact.v
AgentRun.v
AgentRunSpec.v
Background.v
BackgroundSpec.v
