(* ===== verification/Prelude.v ===== *)
(** * Abhed, verified

    Abhed runs agents and the sandboxes they work in. An agent's run
    (src/internal/agent) takes a prompt and what is queued behind it through rounds
    of requests to a model, and puts each call the model asks for through the
    permission policy (src/internal/policy), a supervisor (src/monitor), the accepted plan and
    a person, runs what is let through and answers it, all on the session's record,
    from which the conversation is rebuilt, forked, undone, recovered and compacted;
    what is recorded or streamed has the stored secrets redacted from it
    (src/internal/secrets).
    Calls are judged on arguments read strictly (src/internal/tools/args.go,
    src/internal/kubescope), and what leaves a sandbox goes through the egress proxy
    (src/internal/egress). The control plane (src/controlplane) decides who may make
    and change a sandbox, records every decision before it acts, and drives the
    sandbox's instance through a driver (src/driver). The kept record is a hash
    chain (src/store/chain.go, src/store/chain, src/store/witness). This
    development is a shallow embedding of these parts in Rocq, and of three pieces
    they lean on, WebSocket connections (src/wsconn), the line diff and the reader
    of sed scripts, with the theorems that make them correct.

    ** How the model is built

    A Go function that only computes is a Rocq function of the same name. A
    stateful one is an action of the monad [M W A := W → A * W] over a [World]:
    the service's own mutable fields ([Shared]: the store, the kick queue, the
    marks of running passes, the graces, the guard), the state of everything
    outside ([E], abstract), and the trace of effects so far. What the program
    only calls (drivers, the clock, randomness, SHA-256, the audit log, the
    guard, the interceptor, the egress proxy, the workspace) is a field of [Env]:
    a parameter about which nothing is assumed. Other goroutines and servers
    act at [others], before every store call and after every driver call; a
    theorem about concurrency says what it assumes of them ([fair_others env B]:
    at most [B] store calls between two of ours; [calm env]: none), the rest
    hold whatever they do. An error is the list of sentinels it wraps and its
    text. Integers are [Z] with Go's wrap-around written out ([wrap64]); times
    and durations are nanoseconds. A map is a [gmap]; where the code ranges over
    one, the model's order is that of [map_to_list], and no theorem depends on
    it. Contexts carry only what the code reads from them (origin, approval).

    Outside the control plane much of the code is pure but for reads of a database,
    of the host's files and of the network. What such a read returns is a parameter,
    or the input of the model: the rows of a table ([ChainDB]), the tokens of a JSON
    text ([RawMessage]), the text forms of an address ([NetipText]; those of
    addresses without a zone hold no bracket, [NetipPlain]), the escapes of a path
    ([PathEscapes]), Unicode beyond ASCII ([Text]), what the shell parser of package
    tools finds in a command ([Reader]), the host's files ([Host]), what a
    connection brings or a dial comes to. A hook of the policy is what it returns
    and the state of its context before and after it.

    The agent's loop is a state ([loop_state] of AgentLoop: the events recorded,
    the session's facts, the count of questions asked so far) and what it consults
    is an interface (policy, judge, approver, hooks, tools, the record's store),
    each field taking the count of questions, so that it may answer differently
    every time; the hooks of the policy are taken for their answers. Calls that run
    concurrently run by a schedule, an argument that
    says when each starts and ends, and the theorems hold for every schedule. A
    run ([run_state] of AgentRun) holds such a state; what other goroutines do
    while it goes on is a list of batches (messages queued and taken back,
    results, children that end, a stop), and the run looks at the next one
    wherever the code reads what they share. An
    event's payload is what reading it as its type gives ([None]: it does not).
    A mutex makes an operation one step; a run of several goroutines is a list of
    such steps, in any order.

    ** The files

    A component's file holds its definitions and then its theorems; where these
    are many or lean on other components they have a file of their own, named
    after it with Spec.

    - this file: integers, the state monad and its triples, shared lemmas and
      tactics;
    - GoStd: the parts of strings, strconv, slices and maps the code uses, on
      byte strings;
    - Errors: sentinels, wrapping, wire codes (sandbox.go, service.go
      [ErrorCode] and [storeErr], guard.go [guardErr], driver.go [Code] and
      [KindOf]);
    - Labels: label rules, selectors, scopes (labels.go, guard.go);
    - Driver: the driver interface, capability gates, request validation, the
      registry, the output budget, the command line (driver/*.go);
    - Lifecycle: the sandbox object, its transitions, conditions, backoff
      (sandbox.go, state.go, restart.go);
    - Etag: entity tags and [If-Match] (etag.go);
    - Settings: the settings registry, ceilings, tiers, and [NoLooser]
      (settings.go, admission.go);
    - Store: the store's interface as the class [Store] and what the control
      plane relies on as the class [StoreLaws] (store.go, audit.go);
    - Memory: the in-memory store, an instance of both (memory.go, the memory
      parts of template.go and audit.go); Listing: its paging;
    - World: [Env], [Shared], [World], the record and ownership (service.go,
      ownership.go); Mutate: the guarded read-modify-write (store.go);
    - Admission: guard and interceptor (guard.go, admission.go); Protocol: the
      automaton every operation's trace follows;
    - Templates (template.go); Service: create, read and change (service.go);
      Exec: one command (service.go); Verbs: snapshot, restore, copies, streams
      (verbs.go);
    - Calls: every caller-made operation as one type [call];
    - Reconcile: one pass (reconcile.go); Passes: the goroutines that make
      passes, as a step relation;
    - Idempotency (idempotency.go); Sessions: session commands and warm pools
      (sessions.go); Surface: [New], the periodic listing, reading the record,
      driver events (service.go, reconcile.go, template.go, verbs.go);
    - Operations, Authority, PoolSpec, ReconcileSpec, RestoreSpec: what the
      operations guarantee;
    - LineDiff: the line diff and its hunks (internal/linediff);
    - Chain: links, their hash, the walker, the export file (store/chain), the
      checks and the export of a chained table and the statements of a witness
      (store/chain.go, audit_chain.go, store/witness); ChainSpec;
    - Sedscript: what a sed script runs and writes
      (internal/sedscript);
    - GoNet: net/netip and the string functions the proxy uses; Egress: addresses,
      targets, the policy and the direct dial (internal/egress addr.go, target.go,
      policy.go, proxy.go); AddrSpec, EgressSpec;
    - GoPath: path/filepath and UTF-8; Glob: the patterns of rules
      (policy.go [globToRegexp], [globsMeet]);
    - ShellSplit: the commands of a shell line (policy/shell.go);
    - PolicyRule: tool names, flag forms, rules (policy/toolname.go, flags.go,
      policy.go); Overlay: a session's rules and an engine's lists (overlay.go);
    - GoJson: encoding/json's literals and validity; Secrets: the forms of a stored
      value, redacting and finding them, a session's redactor
      (internal/secrets/store.go), and a reply redacted as it streams (loop.go
      [fragmentBuffer]);
    - Remote: an ssh call's command and the reads an operator declares
      (policy/remote.go, remote_reads.go, remote_readlist.go);
    - Args: tool arguments (internal/tools/args.go); Kubescope:
      Kubernetes names, scopes and manifests (internal/kubescope);
    - PolicyEngine: the reading of a call, the ordered steps, the offers
      (policy.go [Engine], scope.go, gitscope.go); PolicyEngineSpec,
      PolicyMonotone;
    - GoBinary: encoding/binary; WsFrame: WebSocket frames; WsConn: messages, the close handshake, the writers (wsconn.go);
    - EgressRecord: decisions and their summaries (egress/proxy.go [Event],
      limit.go); EgressCalls: credentials of calls (calltoken.go); EgressSynth:
      synthetic addresses (synth.go); EgressDns: the in-sandbox resolver (dns.go);
      EgressTarget: parsed requests (target.go); EgressUpstream: the corporate
      proxy (upstream.go); EgressInspect: requests inside a tunnel (inspect.go);
      EgressProxy: one connection, from its head to its record (proxy.go);
      EgressSession: the resolver and the proxy together;
    - Monitor: the supervisor's guard and its judges (monitor.go,
      model.go);
    - AgentTools: the tool interfaces and the form a call is judged in; Runbook: plans and their runbooks (agent/planmode.go, runbook.go);
    - AgentLoop: the loop's state, interfaces and checks; AgentCalls: a turn's
      calls, decided, run and answered (agent/loop.go); AgentCallsSpec;
    - SessionRecord: the session's store and recorders
      (agent/event.go); Transcript: the record as
      it stands and the conversation in it (fork.go, rewind.go, recover.go,
      handover.go); Undo (undo.go); Branch: rewinding,
      forking and branching (fork.go, rewind.go); Recover: a record
      left open (recover.go, handover.go); Compact (compact.go);
    - AgentRun: a whole run of the agent around a turn's calls: what starts it,
      its rounds, a request and the reply as it streams, compaction on the way,
      the hand-over of long outputs, and its end (agent/loop.go, background.go,
      offload.go, verify.go); AgentRunSpec;
    - Background: the manager of background subagents and shells, and the threads
      that use it as a step relation (agent/background.go, background_shells.go);
      BackgroundSpec.

    ** What the theorems show

    Decisions on calls: an agent's call is always decided and is allowed exactly
    when nothing in the ordered steps stops it and something approves it
    ([allowed_exactly]); deny rules, plan mode and the confirmation of destructive
    commands hold in every mode ([hard_blocks_stand]); hooks, deny and ask rules
    only tighten ([hooks_only_tighten], [rules_only_tighten]); a session cannot
    shed a pinned deny rule ([overlay_invariant]). What rules match is what runs:
    every command of a line is seen ([commandSegments_sees]), a pattern meets
    another exactly when they share a text ([globsMeet_exact]), an argument has one
    reading ([DecodeArgs_exact], [CanonicalArgs_one_reading],
    [DecodeManifest_one_reading]), and an ssh call is a read only as listed
    ([remote_read_safe]).

    An agent's calls: a call runs only when it was recorded as asked, let through
    and recorded as such ([only_cleared_calls_run]), every request has one
    outcome and every call one answer, whatever is asked, refused, interrupted or
    panics, while the store takes what it is given ([one_outcome_each]), and calls that change
    things run alone and last ([changes_run_alone]). A runbook answers only for
    its own next step and once ([planBind_exact], [each_step_once]), its hash
    names every call in it ([plan_hash_names_calls]), and a supervisor only
    tightens, its absence being no consent ([review_tightens]).

    A run of the agent: every request that goes to the model has each call in it
    answered in its turn ([requests_answered]); a run comes to an end, and while the
    store takes what it is given a run that was not handed over and did not fail
    says how, once and last ([run_ends]); while it does and no message is taken
    back, no message queued is lost, doubled or reordered
    ([queue_settled_in_order]); and what a streaming reply shows, fragment after
    fragment, is the whole reply redacted, of values that are [streamable] and
    fragments that are UTF-8 ([reply_streams_redacted]). Background work never
    takes more slots than there are, and gives each back ([slots_kept]).

    The session's record: steps are numbered without a gap and taken once by any
    number of writers ([record_gapless]); rebuilding a conversation from its
    record gives it back, whatever else the record holds ([Fork_roundtrip]), with
    every call answered in its turn ([Fork_paired]); a rewind to a prompt keeps
    exactly what stood before it and rebuilds to what the loop goes on with
    ([Rewind_resumes]), a branch at a step between turns has its source's
    conversation and undo log ([BranchCopy_keeps]), an undone turn leaves files and
    log as they were ([Undo_restores]), an orphaned record is closed with one
    outcome for each call approved and not answered, one return for each child not
    returned, and nothing then left to close ([Reconcile_closes]), and compaction never parts a
    call from its result ([Compact_paired], [Compact_keeps_first]).

    Secrets: a payload, however it is laid out, is redacted string by string and is
    otherwise what it was ([Redact_keeps_structure]), no value stands in what was put around the labels
    ([replace_covers]), a reply redacted as it streams is the reply redacted whole
    ([stream_redacts_whole], of values as [streamable] and [textual] say, which are
    decided by a boolean check), base64 of any text around a value of twelve bytes
    or more is found to hold it ([base64_found]), and a session never forgets a value ([Fresh_keeps]).

    Egress: the addresses reached unasked are the public ones
    ([AddrRefusal_exact], [dialDirect_checked]); the proxy connects only for an
    open call, to a target its policy allows, at an address it checked
    ([connects_only_where_allowed]), and until it is closing records what it did
    ([request_recorded]); the target it judges is the one it sends on, with
    nothing in its path a server would rewrite ([ParseTarget_sound]); a synthetic address is handled as the name it was
    given for ([synthetic_handled_as_name]); a tunnel is decided as all the
    requests in it ([tunnel_sound]); a grant opens only what it names
    ([Grant_opens_only]); every compiled rule is well formed ([policy_wf]); the
    record of decisions loses none and adds a bounded number of events in every
    interval ([record_loses_nothing], [record_is_bounded]).

    WebSockets: a frame is read exactly as it is written ([readFrame_exact]),
    what one side writes the other reads ([messages_arrive]), and nothing follows
    a close, every frame that went whole being legal while closes are asked for with
    codes and reasons that may be sent ([nothing_after_close]).

    The kept record: the walker and the table's check are exact
    ([walker_verdict], [verifyChainOf_exact]), an export reads back
    ([ExportChain_roundtrip]), and a record that verifies against a head or a
    witness kept elsewhere is, from the position the file says it starts at, the
    one that head was of, or SHA-256 is broken ([export_binds], [witness_binds]).

    Algorithms: the diff ends, replays and is shortest ([EditScript_replays],
    [EditScript_shortest], [Hunks_spec]); a sed script's runs and writes are all
    found ([Parse_roundtrip], [Parse_ends]).

    The record and what is held: whatever the guard, the interceptor, the
    driver, the store and others do, nothing is written and no driver reached
    before the request is on the record and admitted, in every operation on
    sandboxes ([acts_recorded_and_admitted]; templates are the operator's and are
    not guarded), and every slot and credential is given back and every kept
    request answered by one append of its outcome
    ([calls_give_everything_back]); both by the automaton of Protocol.

    Changes: [Mutate] is atomic ([Mutate_atomic]), versions identify content
    ([version_names_content]), and update, start, stop and delete refine the
    pure functions that specify them ([change_refines_spec],
    [apply_patch_spec]); a restore is all or nothing ([restore_all_or_nothing]).

    Authority: a hidden sandbox cannot be told from an absent one
    ([hidden_reads_as_absent]), a create and a change stay in the caller's
    scope ([create_makes_own_sandbox], [change_keeps_scope]), an interceptor
    only tightens ([interceptor_only_tightens]), settings never go below a
    ceiling or a template ([For_respects_ceilings], [Check_accepts_in_force],
    [NoLooser_is_tightening], [fill_from_spec], [TierMeets_order]).

    The reconciler: what one pass may do ([reconcile_pass_spec]), that it leaves
    nothing half-way ([reconcile_settles]), that passes over one sandbox never
    run together and none is lost ([one_pass_at_a_time]); the lifecycle
    ([Transition_spec], [new_incarnation_new_generation], [SetCondition_spec],
    [Backoff_spec]).

    Requests: idempotency keys ([claim_exclusive], [completed_replays],
    [retry_gets_first_response]), pool claims ([claim_takes_a_member_once]),
    execs ([Exec_result_is_real], [output_limit_bounds]), pages
    ([list_pages_complete], [events_pages_complete]), entity tags
    ([CheckIfMatch_ETag], [CheckIfMatch_malformed]), selectors
    ([ParseSelector_never_matches_all]), the registry ([Register_sound]) and
    wire codes ([boundary_error_code], [driver_code_roundtrip]).

    Lemmas and examples record where the code and its words part:
    [stale_restart_recorded_ok], [empty_reserved_label_may_go],
    [text_then_command_refused], [kelvin_label_is_plain], [step_taken_twice],
    [fork_inside_turn_differs], [rewind_to_start_keeps_plan],
    [resumed_child_listed_twice], [nine_encodings_pass],
    [failed_delivery_loses_queue], [front_cut_verifies], [close_not_checked] and
    [cut_short_goes_on].

    ** Bounds and fuel

    The retry loop of [Mutate] runs [mutateRetries] + 1 = 6 times at most, as
    the code's does. Loops that end when their context does ([holdPass],
    [await]) run as many looks as [x_done] of the environment gives, the
    context's own end being the environment's. A pool's listing and the periodic
    listing take fuel and return [None] when it runs out; [list_pages_complete]
    and [events_pages_complete] give fuel that is enough for one collection.
    The version counter is an int64: a theorem about a store asks that it has
    room for the calls made ([room], [has_room]), since past the top of int64 it
    would wrap. The searches of the diff, of [strippedForms], of [globsMeet] and of
    [DecodeArgs] take fuel their own texts bound, and theorems show it is never
    short ([EditScript_replays], [strippedForms_exact], [globsMeet_exact],
    [DecodeArgs_exact]); the pages of a chained table need one round per row and
    one more ([verifyChainOf_exact]). Reading a WebSocket message takes a round
    per frame that arrives ([messages_arrive]); a run of
    concurrent reads takes a round per entry of its schedule, and the theorems
    ask that the schedule starts each read once, in call order, and ends each
    ([schedule_ok]). A run takes a round per turn it has left and two more
    ([run_ends]); its waits and its take of the queue a look per batch to come, and
    one more ([more_enough], [wait_enough]).

    ** What is not modelled

    Of the control plane: the select loops and tickers of [Service.Run] and
    [Pool.Run], the eight slots for concurrent passes and the timer at the end of a
    backoff (they decide only when a pass is asked for); logging; reading the
    configuration file into settings; the drivers.

    Of the kept record: the SQL stores and their migrations, the signing of
    statements, a witness's files. Of the proxy: sockets and the copying of
    streams, certificates and TLS handshakes, the relay. Of WebSockets: the HTTP
    upgrade, deadlines. Of the policy: the shell parser (package tools, the
    parameter [Reader]), reading the scripts a command runs (script.go,
    startupbaseline.go, the parameter [en_readScripts]), the one-second memo of a
    root's spellings. Of the arguments: the names of secrets a call carries. Of the
    supervisor: the rules and drift judges.

    Of the agent: the text of the system prompt, the tools themselves, the work of
    sub-agents (in a run their results arrive in its batches; under the manager
    each ends as it does), how an answer's claims are checked and a suggestion made (arguments of a run),
    images, switching the model in mid-session, memory, pipelines and evaluation; of
    its record, subscriptions
    and checkpoints; of the secrets, the store's file, its lock and the command a
    store may read its values from; whether to compact, which compares floating-point
    numbers. In a fork the suggestion being made is taken to have stopped.

    The HTTP server, the consoles, model clients, OCSF export and the command line
    are not modelled. *)

From Stdlib Require Import ZArith Lia.
From stdpp Require Import base tactics list gmap strings sorting.

(** ** Machine integers

    Go's [int64] (and [int] on the 64-bit targets the program is built for)
    wraps around; the model writes the wrap out. *)

Definition int64_min : Z := (-9223372036854775808)%Z.
Definition int64_max : Z := 9223372036854775807%Z.

Definition wrap64 (z : Z) : Z :=
  ((z + 9223372036854775808) mod 18446744073709551616 - 9223372036854775808)%Z.

Definition in_int64 (z : Z) : Prop := (int64_min <= z <= int64_max)%Z.

Lemma wrap64_id z : in_int64 z → wrap64 z = z.
Proof.
  unfold in_int64, wrap64, int64_min, int64_max. intros H.
  rewrite Z.mod_small; lia.
Qed.

Lemma wrap64_range z : in_int64 (wrap64 z).
Proof.
  unfold in_int64, wrap64, int64_min, int64_max.
  pose proof (Z.mod_pos_bound (z + 9223372036854775808) 18446744073709551616). lia.
Qed.

(** Incrementing a counter that has not reached the top of its type. *)
Lemma wrap64_succ z : (0 <= z < int64_max)%Z → wrap64 (z + 1) = (z + 1)%Z.
Proof. intros H. apply wrap64_id. unfold in_int64, int64_min, int64_max in *. lia. Qed.

(** ** A state monad

    Stateful Go code becomes a function from the world to a result and the
    world after it; an operation that can fail returns a [result] (file
    Errors) and the notations of [go_scope] chain the early returns. *)

Definition M (W A : Type) : Type := W → A * W.

Definition mreturn {W A} (a : A) : M W A := λ w, (a, w).
Definition mthen {W A B} (m : M W A) (k : A → M W B) : M W B :=
  λ w, let '(a, w') := m w in k a w'.
Definition mget {W} : M W W := λ w, (w, w).
Definition mput {W} (w : W) : M W unit := λ _, (tt, w).
Definition mmodify {W} (f : W → W) : M W unit := λ w, (tt, f w).

Declare Scope go_scope.
Delimit Scope go_scope with go.
Notation "'let!' x ':=' m 'in' k" := (mthen m (λ x, k))
  (at level 10, x pattern, m at level 100, k at level 200) : go_scope.
Notation "m ';;;' k" := (mthen m (λ _, k))
  (at level 100, right associativity) : go_scope.

(** ** Hoare triples over the monad *)

Definition triple {W A} (P : W → Prop) (m : M W A) (Q : A → W → Prop) : Prop :=
  ∀ w, P w → Q (m w).1 (m w).2.

Section triples.
Context {W : Type}.
Implicit Types (P : W → Prop).

Lemma triple_ret {A} P (a : A) (Q : A → W → Prop) :
  (∀ w, P w → Q a w) → triple P (mreturn a) Q.
Proof. intros H w Hw. by apply H. Qed.

Lemma triple_bind {A B} P (m : M W A) (k : A → M W B) R Q :
  triple P m R → (∀ a, triple (R a) (k a) Q) → triple P (mthen m k) Q.
Proof.
  intros Hm Hk w Hw. unfold mthen. specialize (Hm w Hw).
  destruct (m w) as [a w'] eqn:E; simpl in *. by apply Hk.
Qed.

Lemma triple_conseq {A} P P' (m : M W A) (Q Q' : A → W → Prop) :
  triple P' m Q' → (∀ w, P w → P' w) → (∀ a w, Q' a w → Q a w) → triple P m Q.
Proof. intros H HP HQ w Hw. apply HQ, H, HP, Hw. Qed.

Lemma triple_get P (Q : W → W → Prop) :
  (∀ w, P w → Q w w) → triple P mget Q.
Proof. intros H w Hw. by apply H. Qed.

Lemma triple_modify P f (Q : unit → W → Prop) :
  (∀ w, P w → Q tt (f w)) → triple P (mmodify f) Q.
Proof. intros H w Hw. by apply H. Qed.

Lemma triple_pure {A} (φ : Prop) P (m : M W A) Q :
  (φ → triple P m Q) → triple (λ w, φ ∧ P w) m Q.
Proof. intros H w [Hφ Hw]. by apply H. Qed.
Lemma triple_exists {A X} (P : X → W → Prop) (m : M W A) Q :
  (∀ x, triple (P x) m Q) → triple (λ w, ∃ x, P x w) m Q.
Proof. intros H w [x Hx]. by apply (H x). Qed.
End triples.

(** [preserves R m]: every run of [m] relates the world before to the world
    after by [R]; for a preorder this composes along [mthen]. *)
Definition preserves {W A} (R : W → W → Prop) (m : M W A) : Prop :=
  ∀ w, R w (m w).2.

Section preserves.
Context {W : Type} (R : W → W → Prop) `{!Reflexive R, !Transitive R}.

Lemma preserves_ret {A} (a : A) : preserves R (mreturn a).
Proof. intros w. reflexivity. Qed.

Lemma preserves_get : preserves R mget.
Proof. intros w. reflexivity. Qed.

Lemma preserves_bind {A B} (m : M W A) (k : A → M W B) :
  preserves R m → (∀ a, preserves R (k a)) → preserves R (mthen m k).
Proof.
  intros Hm Hk w. unfold mthen. specialize (Hm w).
  destruct (m w) as [a w']; simpl in *. etransitivity; [exact Hm | apply Hk].
Qed.
End preserves.

(** [yields m φ]: every result of [m] satisfies [φ]. *)
Definition yields {W A} (m : M W A) (φ : A → Prop) : Prop := ∀ w, φ (m w).1.

Lemma yields_ret {W A} (a : A) (φ : A → Prop) : φ a → yields (W:=W) (mreturn a) φ.
Proof. intros H w. exact H. Qed.

Lemma yields_bind {W A B} (m : M W A) (k : A → M W B) (ψ : A → Prop) (φ : B → Prop) :
  yields m ψ → (∀ a, ψ a → yields (k a) φ) → yields (mthen m k) φ.
Proof.
  intros Hm Hk w. unfold mthen. specialize (Hm w). destruct (m w) as [a w1]; simpl in *. by apply Hk.
Qed.

Lemma yields_any {W A} (m : M W A) : yields m (λ _, True).
Proof. done. Qed.

(** Running a bind. *)
Lemma mthen_run {W A B} (m : M W A) (k : A → M W B) w a w' :
  m w = (a, w') → mthen m k w = k a w'.
Proof. unfold mthen. by intros ->. Qed.

(** ** Generic list lemmas *)

(** The first element a boolean test accepts, as Go's search loops return it. *)
Fixpoint find_first {A} (p : A → bool) (l : list A) : option A :=
  match l with
  | [] => None
  | x :: l => if p x then Some x else find_first p l
  end.

Lemma find_first_Some {A} (p : A → bool) l x :
  find_first p l = Some x → x ∈ l ∧ p x = true.
Proof.
  induction l as [|y l IH]; simpl; [done|].
  destruct (p y) eqn:E; intros; simplify_eq.
  - split; [by left | done].
  - destruct (IH H). split; [by right | done].
Qed.

Lemma find_first_None {A} (p : A → bool) l :
  find_first p l = None → ∀ x, x ∈ l → p x = false.
Proof.
  induction l as [|y l IH]; simpl; intros H x Hx; [by apply elem_of_nil in Hx|].
  destruct (p y) eqn:E; [done|].
  apply elem_of_cons in Hx as [->|Hx]; auto.
Qed.

Lemma find_first_elem {A} (p : A → bool) l x :
  x ∈ l → p x = true → is_Some (find_first p l).
Proof.
  intros Hx Hp. destruct (find_first p l) eqn:E; [eauto|].
  rewrite (find_first_None _ _ E _ Hx) in Hp. done.
Qed.

(** Whether an option holds a value, as Go's [v != nil]. *)
Definition opt_some {A} (o : option A) : bool :=
  match o with Some _ => true | None => false end.

(** ** Automation *)

Create HintDb go.
Create Rewrite HintDb go_rw.

(** Splits the boolean connectives of a hypothesis or goal. *)
Ltac bool_to_prop :=
  repeat match goal with
  | H : _ && _ = true |- _ => apply andb_true_iff in H as [? ?]
  | H : _ || _ = false |- _ => apply orb_false_iff in H as [? ?]
  | H : negb _ = true |- _ => apply negb_true_iff in H
  | H : negb _ = false |- _ => apply negb_false_iff in H
  | H : bool_decide _ = true |- _ => apply bool_decide_eq_true in H
  | H : bool_decide _ = false |- _ => apply bool_decide_eq_false in H
  | H : (_ <? _)%Z = true |- _ => apply Z.ltb_lt in H
  | H : (_ <? _)%Z = false |- _ => apply Z.ltb_ge in H
  | H : (_ <=? _)%Z = true |- _ => apply Z.leb_le in H
  | H : (_ <=? _)%Z = false |- _ => apply Z.leb_gt in H
  | H : (_ =? _)%Z = true |- _ => apply Z.eqb_eq in H
  | H : (_ =? _)%Z = false |- _ => apply Z.eqb_neq in H
  end.

(** Case analysis on every match scrutinee of a hypothesis. *)
Ltac split_match H :=
  repeat (let E := fresh "E" in
          match type of H with
          | context [match ?x with _ => _ end] => destruct x eqn:E
          end; simplify_eq/=).

(** The same for every hypothesis. *)
Ltac split_matches :=
  repeat match goal with
  | H : context [match ?x with _ => _ end] |- _ =>
      let E := fresh "E" in destruct x eqn:E; simplify_eq/=
  end.
