(* ===== verification/GoStd.v ===== *)
(** The parts of Go's standard library the modelled code uses: byte strings
    ([strings], [strconv]) as [string], a list of bytes, with Go's reading of
    white space, and sorted key lists ([slices.Sorted], [maps.Keys]). *)

From Stdlib Require Import ZArith NArith Ascii String Lia OrdersEx.
From stdpp Require Import base tactics list gmap strings sorting.
From S2P Require Import Prelude.

#[local] Open Scope string_scope.
#[local] Arguments String.append : simpl nomatch.

(** ** Bytes *)

Definition bv (c : ascii) : N := N_of_ascii c.

(** [lo <= c && c <= hi] on bytes. *)
Definition in_range (lo hi c : ascii) : bool :=
  (bv lo <=? bv c)%N && (bv c <=? bv hi)%N.

Definition dquote : ascii := "034"%char.
Definition newline : ascii := "010"%char.
Definition tab : ascii := "009"%char.

(** A NUL byte and other bytes are compared with [Ascii.eqb]. *)
Notation "a =c b" := (Ascii.eqb a b) (at level 70, no associativity).

(** ** Strings as lists of bytes *)

Fixpoint bytes (s : string) : list ascii :=
  match s with EmptyString => [] | String c s => c :: bytes s end.

Fixpoint of_bytes (l : list ascii) : string :=
  match l with [] => EmptyString | c :: l => String c (of_bytes l) end.

Definition str_rev (s : string) : string := of_bytes (reverse (bytes s)).

Lemma of_bytes_bytes s : of_bytes (bytes s) = s.
Proof. induction s; simpl; congruence. Qed.
Lemma bytes_length s : length (bytes s) = String.length s.
Proof. induction s; simpl; congruence. Qed.
Lemma bytes_of_bytes l : bytes (of_bytes l) = l.
Proof. induction l; simpl; congruence. Qed.
Lemma bytes_app s t : bytes (s ++ t) = (bytes s ++ bytes t)%list.
Proof. induction s; simpl; congruence. Qed.

Lemma str_app_assoc s t u : (s ++ t) ++ u = s ++ (t ++ u).
Proof. induction s; simpl; congruence. Qed.
Lemma str_app_nil_r s : s ++ "" = s.
Proof. induction s; simpl; congruence. Qed.
Lemma str_length_app s t : String.length (s ++ t) = (String.length s + String.length t)%nat.
Proof. induction s; simpl; congruence. Qed.
Lemma str_app_cons c s t : String c s ++ t = String c (s ++ t).
Proof. done. Qed.

(** [len s], and slicing [s\[n:\]] and [s\[:n\]]. *)
Fixpoint str_drop (n : nat) (s : string) : string :=
  match n, s with
  | S n, String _ s => str_drop n s
  | _, _ => s
  end.

Fixpoint str_take (n : nat) (s : string) : string :=
  match n, s with
  | S n, String c s => String c (str_take n s)
  | _, _ => EmptyString
  end.

Lemma str_take_drop n s : str_take n s ++ str_drop n s = s.
Proof. revert s; induction n as [|n IH]; intros [|c s]; simpl; [done..|]. by rewrite IH. Qed.

(** [s\[i\]]; [None] is the out-of-range panic. *)
Definition str_at (s : string) (i : nat) : option ascii := String.get i s.

(** Every byte of [s] passes [p]. *)
Fixpoint str_forall (p : ascii → bool) (s : string) : bool :=
  match s with EmptyString => true | String c s => p c && str_forall p s end.

Definition str_exists (p : ascii → bool) (s : string) : bool :=
  negb (str_forall (λ c, negb (p c)) s).

Definition str_nonempty (s : string) : bool := negb (String.eqb s "").

Definition last_byte (s : string) : option ascii := last (bytes s).

Lemma str_forall_spec p s : str_forall p s = true ↔ ∀ c, c ∈ bytes s → p c = true.
Proof.
  induction s as [|c s IH]; simpl.
  - split; [intros _ c Hc; by apply elem_of_nil in Hc | done].
  - rewrite andb_true_iff, IH. split.
    + intros [H1 H2] d Hd. apply elem_of_cons in Hd as [->|Hd]; auto.
    + intros H. split; [apply H; by left | intros d Hd; apply H; by right].
Qed.

Lemma str_exists_spec p s : str_exists p s = true ↔ ∃ c, c ∈ bytes s ∧ p c = true.
Proof.
  unfold str_exists. induction s as [|c s IH]; simpl.
  - split; [done | intros (c & Hc & _); by apply elem_of_nil in Hc].
  - destruct (p c) eqn:Hp; simpl.
    + split; [intros _; exists c; split; [by left | done] | done].
    + rewrite IH. split.
      * intros (d & Hd & Hpd). exists d. split; [by right | done].
      * intros (d & Hd & Hpd). apply elem_of_cons in Hd as [->|Hd]; [congruence | eauto].
Qed.

Lemma str_forall_app p s t : str_forall p (s ++ t) = str_forall p s && str_forall p t.
Proof. induction s; simpl; [done | by rewrite IHs, andb_assoc]. Qed.

(** ** Package strings *)

Definition HasPrefix (s p : string) : bool := String.prefix p s.

Definition TrimPrefix (s p : string) : string :=
  if HasPrefix s p then str_drop (String.length p) s else s.

Definition HasSuffix (s p : string) : bool := HasPrefix (str_rev s) (str_rev p).

(** [strings.Cut]: around the first [sep]; [None] when there is none. *)
Fixpoint Cut (s sep : string) : option (string * string) :=
  if HasPrefix s sep then Some ("", str_drop (String.length sep) s)
  else match s with
       | EmptyString => None
       | String c s' =>
           match Cut s' sep with
           | Some (a, b) => Some (String c a, b)
           | None => None
           end
       end.

Definition Contains (s sub : string) : bool :=
  match Cut s sub with Some _ => true | None => false end.

(** [strings.ContainsAny] for a set of ASCII bytes. *)
Definition ContainsAny (s chars : string) : bool :=
  str_exists (λ c, bool_decide (c ∈ bytes chars)) s.

(** [strings.IndexByte]. *)
Fixpoint IndexByte (s : string) (c : ascii) : option nat :=
  match s with
  | EmptyString => None
  | String d s => if c =c d then Some 0 else S <$> IndexByte s c
  end.

(** [strings.Split] on a separator of one byte. *)
Fixpoint Split (s : string) (sep : ascii) : list string :=
  match s with
  | EmptyString => [""]
  | String c s =>
      if c =c sep then "" :: Split s sep
      else match Split s sep with
           | [] => [String c ""]
           | p :: ps => String c p :: ps
           end
  end.

Fixpoint Join (l : list string) (sep : string) : string :=
  match l with
  | [] => ""
  | [x] => x
  | x :: l => x ++ sep ++ Join l sep
  end.

(** [unicode.IsSpace] on UTF-8: the width in bytes of the white-space rune [s]
    starts with, 0 when it starts with none. *)
Definition ascii_space (c : ascii) : bool :=
  in_range "009" "013" c || (c =c " ").
Definition space2 (a b : ascii) : bool :=
  (bv a =? 194)%N && ((bv b =? 133)%N || (bv b =? 160)%N).
Definition space3 (a b c : ascii) : bool :=
  match bv a, bv b with
  | 225%N, 154%N => (bv c =? 128)%N
  | 226%N, 128%N => ((128 <=? bv c)%N && (bv c <=? 138)%N) || (bv c =? 168)%N || (bv c =? 169)%N || (bv c =? 175)%N
  | 226%N, 129%N => (bv c =? 159)%N
  | 227%N, 128%N => (bv c =? 128)%N
  | _, _ => false
  end.
Definition space_width (s : string) : nat :=
  match s with
  | String a r =>
      if ascii_space a then 1
      else match r with
           | String b r =>
               if space2 a b then 2
               else match r with
                    | String c _ => if space3 a b c then 3 else 0
                    | _ => 0
                    end
           | _ => 0
           end
  | _ => 0
  end.
(** The same, read backwards from the end of the string. *)
Definition space_width_rev (s : string) : nat :=
  match s with
  | String c r =>
      if ascii_space c then 1
      else match r with
           | String b r =>
               if space2 b c then 2
               else match r with
                    | String a _ => if space3 a b c then 3 else 0
                    | _ => 0
                    end
           | _ => 0
           end
  | _ => 0
  end.

Fixpoint trim_with (width : string → nat) (skip : nat) (s : string) : string :=
  match s with
  | EmptyString => EmptyString
  | String _ r =>
      match skip with
      | S k => trim_with width k r
      | 0 => match width s with 0 => s | S k => trim_with width k r end
      end
  end.

Definition TrimLeft (s : string) : string := trim_with space_width 0 s.
Definition TrimRight (s : string) : string := str_rev (trim_with space_width_rev 0 (str_rev s)).
Definition TrimSpace (s : string) : string := TrimRight (TrimLeft s).

(** [strings.Fields]; [cur] is the word being read, reversed. *)
Fixpoint fields_go (skip : nat) (cur : list ascii) (s : string) : list string :=
  match s with
  | EmptyString => match cur with [] => [] | _ => [of_bytes (reverse cur)] end
  | String c r =>
      match skip with
      | S k => fields_go k cur r
      | 0 => match space_width s with
             | 0 => fields_go 0 (c :: cur) r
             | S k => match cur with
                      | [] => fields_go k [] r
                      | _ => of_bytes (reverse cur) :: fields_go k [] r
                      end
             end
      end
  end.
Definition Fields (s : string) : list string := fields_go 0 [] s.

(** [strings.ToUpper] as far as comparing with an ASCII word can tell: the
    ASCII letters, and the two runes outside ASCII whose upper case is an
    ASCII letter, [U+0131] and [U+017F]. Other runes map outside ASCII. *)
Definition upper_byte (c : ascii) : ascii :=
  if in_range "a" "z" c then ascii_of_N (bv c - 32) else c.
Fixpoint ToUpper (s : string) : string :=
  match s with
  | EmptyString => EmptyString
  | String a r =>
      match r with
      | String b r' =>
          if (bv a =? 196)%N && (bv b =? 177)%N then String "I" (ToUpper r')
          else if (bv a =? 197)%N && (bv b =? 191)%N then String "S" (ToUpper r')
          else String (upper_byte a) (ToUpper r)
      | _ => String (upper_byte a) EmptyString
      end
  end.

(** ** Package strconv *)

Definition digit_byte (n : N) : ascii := ascii_of_N (48 + n).
Definition digit_value (c : ascii) : option N :=
  if in_range "0" "9" c then Some (bv c - 48)%N else None.

Fixpoint digits_go (fuel : nat) (n : N) (acc : string) : string :=
  match fuel with
  | 0 => acc
  | S fuel =>
      if (n <? 10)%N then String (digit_byte n) acc
      else digits_go fuel (n / 10) (String (digit_byte (n mod 10)) acc)
  end.

(** [strconv.FormatInt(z, 10)] and [strconv.Itoa]. *)
Definition itoaN (n : N) : string := digits_go (S (N.size_nat n)) n "".
Definition Itoa (z : Z) : string :=
  match z with
  | Z0 => "0"
  | Zpos p => itoaN (Npos p)
  | Zneg p => String "-" (itoaN (Npos p))
  end.

Fixpoint parse_digits (acc : N) (s : string) : option N :=
  match s with
  | EmptyString => Some acc
  | String c s =>
      match digit_value c with
      | Some d => parse_digits (acc * 10 + d) s
      | None => None
      end
  end.

(** The sign of a number and the digits after it. *)
Definition split_sign (s : string) : bool * string :=
  match s with
  | String "-" r => (true, r)
  | String "+" r => (false, r)
  | _ => (false, s)
  end.

(** [strconv.ParseInt(s, 10, 64)]: [None] is a syntax or range error. *)
Definition ParseInt (s : string) : option Z :=
  let '(neg, body) := split_sign s in
  if String.eqb body "" then None
  else match parse_digits 0 body with
       | Some n =>
           let z := if neg : bool then (- Z.of_N n)%Z else Z.of_N n in
           if (int64_min <=? z)%Z && (z <=? int64_max)%Z then Some z else None
       | None => None
       end.

(** [strconv.ParseInt] as used with [n, _ := ...]: 0 on a syntax error, the
    nearest int64 on a range error. *)
Definition ParseInt_value (s : string) : Z :=
  let '(neg, body) := split_sign s in
  if String.eqb body "" then 0%Z
  else match parse_digits 0 body with
       | Some n =>
           let z := if neg : bool then (- Z.of_N n)%Z else Z.of_N n in
           Z.max int64_min (Z.min int64_max z)
       | None => 0%Z
       end.

(** Without its leading zeros. *)
Fixpoint TrimLeft0 (s : string) : string :=
  match s with String c r => if Ascii.eqb c "0" then TrimLeft0 r else s | EmptyString => "" end.

(** *** Durations, as [time.Duration.String] *)

(** [n] padded with zeros to [w] digits. *)
Definition pad_digits (w : nat) (s : string) : string :=
  of_bytes (repeat "0"%char (w - String.length s)) ++ s.

(** The fraction [n] of [w] digits without its trailing zeros, "." included. *)
Definition duration_frac (w : nat) (n : Z) : string :=
  let digits := str_rev (TrimLeft0 (str_rev (pad_digits w (Itoa n)))) in
  if String.eqb digits "" then "" else "." ++ digits.

Definition duration_unit (d unit : Z) (w : nat) : string :=
  Itoa (d / unit) ++ duration_frac w (d mod unit).

Definition duration_text (d : Z) : string :=
  let neg := (d <? 0)%Z in
  let u := Z.abs d in
  let body :=
    if (u =? 0)%Z then "0s"
    else if (u <? 1000)%Z then Itoa u ++ "ns"
    else if (u <? 1000000)%Z then duration_unit u 1000 3 ++ of_bytes ["194"%char; "181"%char; "115"%char]
    else if (u <? 1000000000)%Z then duration_unit u 1000000 6 ++ "ms"
    else
      let s := (u / 1000000000)%Z in
      let sec := Itoa (s mod 60) ++ duration_frac 9 (u mod 1000000000) ++ "s" in
      let m := (s / 60)%Z in
      if (m =? 0)%Z then sec
      else if (m / 60 =? 0)%Z then Itoa m ++ "m" ++ sec
      else Itoa (m / 60) ++ "h" ++ Itoa (m mod 60) ++ "m" ++ sec
  in if neg then "-" ++ body else body.

(** [strconv.Quote], the [%q] verb. Bytes of 0x80 and above are kept as they
    are, which is what Go does with a printable rune. *)
Definition hex_digit (n : N) : ascii :=
  if (n <? 10)%N then ascii_of_N (48 + n) else ascii_of_N (87 + n).
Definition quote_byte (c : ascii) : string :=
  match bv c with
  | 34%N => String "\" (String dquote "")
  | 92%N => "\\"
  | 7%N => "\a" | 8%N => "\b" | 12%N => "\f" | 10%N => "\n"
  | 13%N => "\r" | 9%N => "\t" | 11%N => "\v"
  | n => if (n <? 32)%N || (n =? 127)%N
         then "\x" ++ String (hex_digit (n / 16)) (String (hex_digit (n mod 16)) "")
         else String c ""
  end.
Fixpoint quote_body (s : string) : string :=
  match s with EmptyString => "" | String c s => quote_byte c ++ quote_body s end.
Definition Quote (s : string) : string :=
  String dquote (quote_body s ++ String dquote "").

(** [hex.EncodeToString]. *)
Fixpoint hex_encode (l : list ascii) : string :=
  match l with
  | [] => ""
  | c :: l => String (hex_digit (bv c / 16)) (String (hex_digit (bv c mod 16)) (hex_encode l))
  end.

#[global] Arguments String.append : simpl never.

(** ** Sorted strings *)

Definition str_le (a b : string) : Prop := String.leb a b = true.
Definition str_ltb (a b : string) : bool := String.ltb a b.

#[export] Instance str_le_dec : RelDecision str_le.
Proof. intros a b. unfold str_le. apply _. Defined.


Lemma str_compare_refl a : String.compare a a = Eq.
Proof.
  induction a as [|c a IH]; simpl; [done|].
  unfold Ascii.compare. by rewrite N.compare_refl.
Qed.

Lemma ascii_compare_Eq c d : Ascii.compare c d = Eq → c = d.
Proof.
  unfold Ascii.compare. intros H%N.compare_eq_iff.
  rewrite <- (ascii_N_embedding c), <- (ascii_N_embedding d). by rewrite H.
Qed.

Lemma str_compare_lt_trans a b c :
  String.compare a b = Lt → String.compare b c = Lt → String.compare a c = Lt.
Proof.
  revert b c. induction a as [|x a IH]; intros [|y b] [|z c]; simpl; try done.
  destruct (Ascii.compare x y) eqn:E1; try done; intros H1;
    destruct (Ascii.compare y z) eqn:E2; try done; intros H2;
    try apply ascii_compare_Eq in E1 as ->; try apply ascii_compare_Eq in E2 as ->.
  - unfold Ascii.compare. rewrite N.compare_refl. eauto.
  - by rewrite E2.
  - by rewrite E1.
  - unfold Ascii.compare in *. rewrite N.compare_lt_iff in *.
    by rewrite (proj2 (N.compare_lt_iff _ _)) by lia.
Qed.

Definition str_lt (a b : string) : Prop := String.compare a b = Lt.

Lemma str_ltb_lt a b : str_ltb a b = true ↔ str_lt a b.
Proof. unfold str_ltb, str_lt, String.ltb. destruct (String.compare a b); split; congruence. Qed.

Lemma str_le_lt_or_eq a b : str_le a b ↔ str_lt a b ∨ a = b.
Proof.
  unfold str_le, str_lt, String.leb.
  destruct (String.compare a b) eqn:E; split; intros; try done; try tauto.
  - right. by apply String.compare_eq_iff.
  - destruct H as [|<-]; [done|]. by rewrite str_compare_refl in E.
Qed.

Lemma str_lt_irrefl a : ¬ str_lt a a.
Proof. unfold str_lt. by rewrite str_compare_refl. Qed.

#[export] Instance str_lt_trans : Transitive str_lt.
Proof. intros a b c. apply str_compare_lt_trans. Qed.

Lemma str_lt_total a b : str_lt a b ∨ a = b ∨ str_lt b a.
Proof.
  unfold str_lt. rewrite (String.compare_antisym b a).
  destruct (String.compare a b) eqn:E; simpl; auto.
  right; left. by apply String.compare_eq_iff.
Qed.

#[export] Instance str_le_trans : Transitive str_le.
Proof.
  intros a b c. rewrite !str_le_lt_or_eq. intros [H1| ->] [H2| ->]; auto.
  left. by transitivity b.
Qed.
#[export] Instance str_le_total : Total str_le.
Proof. intros a b. apply String.leb_total. Qed.
#[export] Instance str_le_refl : Reflexive str_le.
Proof. intros a. apply str_le_lt_or_eq. by right. Qed.
Lemma str_le_antisym a b : str_le a b → str_le b a → a = b.
Proof. apply String.leb_antisym. Qed.

Lemma str_lt_not_le a b : str_lt a b → ¬ str_le b a.
Proof.
  rewrite str_le_lt_or_eq. intros H [H'| ->].
  - apply (str_lt_irrefl a). by transitivity b.
  - by apply str_lt_irrefl in H.
Qed.

(** [slices.Sort] on strings. *)
Definition sort_strings (l : list string) : list string := merge_sort str_le l.

(** Splitting always gives a piece. *)
Lemma Split_nonempty s sep : Split s sep ≠ [].
Proof. destruct s; simpl; [done|]. case_match; [done|]. by case_match. Qed.

Lemma sort_strings_perm l : sort_strings l ≡ₚ l.
Proof. apply merge_sort_Permutation. Qed.

Lemma sort_strings_sorted l : StronglySorted str_le (sort_strings l).
Proof. apply StronglySorted_merge_sort; apply _. Qed.

(** ** Maps

    A Go [map\[string\]V] is a [gmap]; a nil map and an empty one are the same
    value, as every read of the modelled code treats them (the code guards
    each write to a map that may be nil). [range] visits keys in some order,
    here that of [map_to_list]. *)

Abbreviation strmap := (gmap string string).

(** [m\[k\]] with Go's zero value for an absent key. *)
Definition map_get (m : strmap) (k : string) : string := default "" (m !! k).

(** [maps.Copy(dst, src)]: the entries of [src] win. *)
Definition maps_copy (dst src : strmap) : strmap := src ∪ dst.

(** [slices.Sorted(maps.Keys(m))]. *)
Definition sorted_keys {V} (m : gmap string V) : list string :=
  sort_strings (map_to_list m).*1.

Lemma elem_of_sorted_keys {V} (m : gmap string V) k :
  k ∈ sorted_keys m ↔ is_Some (m !! k).
Proof.
  unfold sorted_keys. rewrite sort_strings_perm, list_elem_of_fmap. split.
  - intros ([k' v] & -> & H%elem_of_map_to_list). eauto.
  - intros [v H%elem_of_map_to_list]. by exists (k, v).
Qed.

(** ** Number round trip *)

Lemma digit_value_byte n : (n < 10)%N → digit_value (digit_byte n) = Some n.
Proof.
  intros H. unfold digit_value, digit_byte, in_range, bv.
  rewrite N_ascii_embedding by lia. simpl.
  rewrite (proj2 (N.leb_le 48 _)) by lia. rewrite (proj2 (N.leb_le _ 57)) by lia.
  simpl. f_equal. lia.
Qed.

Lemma parse_digits_go fuel n rest :
  (n < 2 ^ N.of_nat fuel)%N →
  parse_digits 0 (digits_go fuel n rest) = parse_digits n rest.
Proof.
  revert n rest. induction fuel as [|fuel IH]; intros n rest Hn.
  - simpl. assert (n = 0)%N as -> by (simpl in Hn; lia). done.
  - simpl. destruct (N.ltb_spec n 10) as [Hs|Hs].
    + cbn [parse_digits]. rewrite digit_value_byte by done. f_equal; lia.
    + rewrite IH.
      * cbn [parse_digits]. rewrite digit_value_byte by (apply N.mod_lt; lia).
        pose proof (N.div_mod n 10); f_equal; lia.
      * apply N.Div0.div_lt_upper_bound.
        rewrite Nat2N.inj_succ, N.pow_succ_r' in Hn. lia.
Qed.

Lemma N_size_nat_gt n : (n < 2 ^ N.of_nat (N.size_nat n))%N.
Proof.
  destruct n as [|p]; [done|].
  rewrite <- (Nnat.N2Nat.id (2 ^ _)). simpl N.size_nat.
  induction p; simpl Pos.size_nat; rewrite Nat2N.inj_succ, N.pow_succ_r' in *; lia.
Qed.

Lemma parse_itoaN n : parse_digits 0 (itoaN n) = Some n.
Proof.
  unfold itoaN. rewrite parse_digits_go; [done|].
  rewrite Nat2N.inj_succ, N.pow_succ_r'. pose proof (N_size_nat_gt n). lia.
Qed.

Lemma digits_go_head fuel n acc :
  (n < 2 ^ N.of_nat fuel)%N → fuel ≠ 0 →
  ∃ d r, digits_go fuel n acc = String (digit_byte d) r ∧ (d < 10)%N.
Proof.
  revert n acc. induction fuel as [|fuel IH]; intros n acc Hn Hf; [done|]. simpl.
  destruct (N.ltb_spec n 10); [eauto|].
  destruct fuel as [|fuel].
  - simpl in Hn. lia.
  - apply IH; [|done]. apply N.Div0.div_lt_upper_bound.
    rewrite Nat2N.inj_succ, N.pow_succ_r' in Hn. lia.
Qed.

Lemma itoaN_head n : ∃ d r, itoaN n = String (digit_byte d) r ∧ (d < 10)%N.
Proof.
  apply digits_go_head; [|done].
  rewrite Nat2N.inj_succ, N.pow_succ_r'. pose proof (N_size_nat_gt n). lia.
Qed.

Lemma digit_byte_bv d : (d < 10)%N → bv (digit_byte d) = (48 + d)%N.
Proof. intros H. unfold bv, digit_byte. apply N_ascii_embedding. lia. Qed.

Lemma split_sign_itoaN n : split_sign (itoaN n) = (false, itoaN n).
Proof.
  destruct (itoaN_head n) as (d & r & -> & Hd).
  rewrite <- (ascii_N_embedding (digit_byte d)).
  change (N_of_ascii (digit_byte d)) with (bv (digit_byte d)).
  rewrite digit_byte_bv by done.
  assert (d ∈ [0;1;2;3;4;5;6;7;8;9]%N) as Hd' by (rewrite !elem_of_cons; lia).
  repeat (apply elem_of_cons in Hd' as [->|Hd']; [done|]). by apply elem_of_nil in Hd'.
Qed.

Lemma itoaN_nonempty n : String.eqb (itoaN n) "" = false.
Proof. by destruct (itoaN_head n) as (d & r & -> & _). Qed.

(** Reading back a printed [int64] gives it again. *)
Lemma ParseInt_Itoa z : in_int64 z → ParseInt (Itoa z) = Some z.
Proof.
  intros Hz. unfold in_int64 in Hz. unfold ParseInt. destruct z as [|p|p]; [done|..].
  - simpl Itoa. rewrite split_sign_itoaN, itoaN_nonempty, parse_itoaN. simpl Z.of_N.
    by rewrite !(proj2 (Z.leb_le _ _)) by lia.
  - simpl Itoa. cbn [split_sign]. rewrite itoaN_nonempty, parse_itoaN. simpl Z.of_N. simpl Z.opp.
    by rewrite !(proj2 (Z.leb_le _ _)) by lia.
Qed.

Example duration_minutes : duration_text 90000000000 = "1m30s". Proof. reflexivity. Qed.
Example duration_millis : duration_text 1500000 = "1.5ms". Proof. reflexivity. Qed.
Example duration_hours : duration_text 3600000000000 = "1h0m0s". Proof. reflexivity. Qed.
