(* ===== verification/Errors.v ===== *)
(** Errors of the control plane and of drivers: the sentinels, errors wrapping
    them ([errors.Is]), and the three functions that classify errors at a
    boundary, [ErrorCode] (the wire code), [storeErr] and [guardErr] (what a
    store or a guard may fail with), with the driver package's [Code] and
    [KindOf].

    A Go error is the sentinels it wraps and its text. [fmt.Errorf("%w: ...")]
    adds a sentinel in front, [errors.Join] appends. *)

From Stdlib Require Import ZArith String.
From stdpp Require Import base tactics list gmap strings.
From S2P Require Import Prelude GoStd.

#[local] Open Scope string_scope.

Inductive sentinel : Set :=
(* controlplane/sandbox.go, etag.go, admission.go, guard.go, ownership.go *)
| ErrNotFound | ErrExists | ErrInvalid | ErrInvalidTransition
| ErrVersionMismatch | ErrIdempotencyInFlight | ErrIdempotencyMismatch
| ErrUnavailable | ErrForbidden | ErrApprovalRequired | ErrQuotaExceeded
| ErrPreconditionFailed | ErrDenied | ErrEndedByGuard | ErrNotOwner | ErrOwnershipLost
(* controlplane/reconcile.go, sessions.go *)
| errStale | errUnchanged | errClaimed
(* driver/driver.go, limit.go *)
| DErrUnsupported | DErrNotFound | DErrExists | DErrConflict | DErrInvalid
| DErrUnavailable | DErrVersion | DErrInternal | DErrOutputLimit
(* context *)
| DeadlineExceeded | Canceled.

#[export] Instance sentinel_eq_dec : EqDecision sentinel.
Proof. solve_decision. Defined.

(** The text each sentinel was made with. *)
Definition sentinel_text (s : sentinel) : string :=
  match s with
  | ErrNotFound => "not found"
  | ErrExists => "already exists"
  | ErrInvalid => "invalid"
  | ErrInvalidTransition => "invalid state transition"
  | ErrVersionMismatch => "resource version mismatch"
  | ErrIdempotencyInFlight => "a request with this idempotency key is in progress"
  | ErrIdempotencyMismatch => "idempotency key reused with a different request"
  | ErrUnavailable => "unavailable"
  | ErrForbidden => "forbidden"
  | ErrApprovalRequired => "approval required"
  | ErrQuotaExceeded => "quota exceeded"
  | ErrPreconditionFailed => "precondition failed"
  | ErrDenied => "denied by admission"
  | ErrEndedByGuard => "ended by the guard"
  | ErrNotOwner => "another replica owns this sandbox"
  | ErrOwnershipLost => "ownership lost"
  | errStale => "sandbox changed during reconcile"
  | errUnchanged => "nothing to change"
  | errClaimed => "resource version mismatch: claimed by another session"
  | DErrUnsupported => "unsupported"
  | DErrNotFound => "not_found"
  | DErrExists => "exists"
  | DErrConflict => "conflict"
  | DErrInvalid => "invalid"
  | DErrUnavailable => "unavailable"
  | DErrVersion => "version"
  | DErrInternal => "internal"
  | DErrOutputLimit => "output limit reached"
  | DeadlineExceeded => "context deadline exceeded"
  | Canceled => "context canceled"
  end.

Record error : Type := Err {
  e_is : list sentinel;   (* what [errors.Is] finds *)
  e_text : string         (* [err.Error()] *)
}.

#[export] Instance error_eq_dec : EqDecision error.
Proof. solve_decision. Defined.

Inductive result (A : Type) : Type :=
| Ok (a : A)
| Fail (e : error).
Arguments Ok {A} a.
Arguments Fail {A} e.

Definition is_ok {A} (r : result A) : bool := match r with Ok _ => true | Fail _ => false end.

(** An error as it stands, such as [return errStale]. [errClaimed] wraps
    [ErrVersionMismatch]. *)
Definition errval (k : sentinel) : error :=
  Err (match k with errClaimed => [errClaimed; ErrVersionMismatch] | _ => [k] end) (sentinel_text k).

(** [fmt.Errorf("%w: msg", k)]. *)
Definition errorf (k : sentinel) (msg : string) : error :=
  Err [k] (sentinel_text k ++ ": " ++ msg).

(** [fmt.Errorf("%w: msg%w", k, e)]. *)
Definition errwrap (k : sentinel) (msg : string) (e : error) : error :=
  Err (k :: e_is e) (sentinel_text k ++ ": " ++ msg ++ e_text e).

(** [fmt.Errorf("msg%w", e)]: an error with a prefix to its text. *)
Definition err_prefix (msg : string) (e : error) : error := Err (e_is e) (msg ++ e_text e).

(** An error made with [errors.New] or [fmt.Errorf] that wraps no sentinel. *)
Definition plain (msg : string) : error := Err [] msg.

(** [errors.Join(a, b)] of two errors. *)
Definition errjoin (a b : error) : error :=
  Err (e_is a ++ e_is b) (e_text a ++ String newline (e_text b)).

(** [errors.Is(err, k)]. *)
Definition Is (e : error) (k : sentinel) : bool := bool_decide (k ∈ e_is e).
Definition is_any (e : error) (ks : list sentinel) : bool := existsb (Is e) ks.

(** [driver.Errorf(k, msg)]: the message alone is the text. *)
Definition driver_errorf (k : sentinel) (msg : string) : error := Err [k] msg.

(** Chaining over [result]: the early return on an error. *)
Notation "'let?' x ':=' r 'in' k" :=
  (match r with Ok x => k | Fail e => Fail e end)
  (at level 10, x pattern, r at level 100, k at level 200) : go_scope.
(** Chaining over a check that returns only an error. *)
Definition guard_ok (c : option error) : result unit :=
  match c with None => Ok tt | Some e => Fail e end.
(** Early return inside a monadic handler. *)
Definition mthen_ok {W A B} (m : M W (result A)) (k : A → M W (result B)) : M W (result B) :=
  mthen m (λ r, match r with Ok a => k a | Fail e => mreturn (Fail e) end).
Notation "'let*' x ':=' m 'in' k" := (mthen_ok m (λ x, k))
  (at level 10, x pattern, m at level 100, k at level 200) : go_scope.

(** Runs checks in order and returns the first error, as a loop with an early
    return does. *)
Fixpoint first_error {A} (f : A → option error) (l : list A) : option error :=
  match l with
  | [] => None
  | x :: l => match f x with Some e => Some e | None => first_error f l end
  end.

(** [c1], then [c2]. *)
Definition and_then (c1 c2 : option error) : option error :=
  match c1 with Some e => Some e | None => c2 end.
(** [if b { return e }]. *)
Definition fail_if (b : bool) (e : error) : option error := if b then Some e else None.

(** ** Classification *)

(** [ErrorCode] is the contract's error code for an error; "" for none. *)
Definition ErrorCode (err : option error) : string :=
  match err with
  | None => ""
  | Some e =>
      if Is e ErrDenied then "forbidden"
      else if is_any e [ErrNotFound; DErrNotFound] then "not_found"
      else if Is e ErrApprovalRequired then "approval_required"
      else if Is e ErrQuotaExceeded then "quota_exceeded"
      else if Is e ErrForbidden then "forbidden"
      else if Is e ErrPreconditionFailed then "precondition_failed"
      else if is_any e [ErrInvalidTransition; ErrExists; ErrVersionMismatch;
                        ErrIdempotencyInFlight; DErrConflict; DErrExists] then "conflict"
      else if is_any e [ErrInvalid; ErrIdempotencyMismatch; DErrInvalid; DErrOutputLimit] then "invalid"
      else if Is e DErrUnsupported then "unsupported"
      else if is_any e [ErrUnavailable; DErrUnavailable; DeadlineExceeded] then "unavailable"
      else if Is e ErrEndedByGuard then "forbidden"
      else "internal"
  end.

Definition storeErr (e : error) : error :=
  if is_any e [ErrNotFound; ErrExists; ErrInvalid; ErrVersionMismatch; ErrPreconditionFailed;
               ErrInvalidTransition; ErrUnavailable; ErrDenied]
  then e
  else errwrap ErrUnavailable "the store failed: " e.

Definition guardErr (e : error) : error :=
  if is_any e [ErrForbidden; ErrApprovalRequired; ErrQuotaExceeded; ErrInvalid; ErrNotFound;
               ErrUnavailable; ErrInvalidTransition]
  then e
  else errwrap ErrUnavailable "the guard could not decide: " e.

(** The driver protocol's codes. *)
Definition codes : list sentinel :=
  [DErrUnsupported; DErrNotFound; DErrExists; DErrConflict; DErrInvalid;
   DErrUnavailable; DErrVersion; DErrInternal].

Definition Code (e : error) : string :=
  match find_first (Is e) codes with
  | Some c => sentinel_text c
  | None => sentinel_text DErrInternal
  end.

Definition KindOf (code : string) : sentinel :=
  match find_first (λ c, String.eqb (sentinel_text c) code) codes with
  | Some c => c
  | None => DErrInternal
  end.

(** ** Lemmas *)

Lemma first_error_None {A} (f : A → option error) l :
  first_error f l = None ↔ ∀ x, x ∈ l → f x = None.
Proof.
  induction l as [|x l IH]; simpl.
  - split; [intros _ x Hx; by apply elem_of_nil in Hx | done].
  - destruct (f x) eqn:E.
    + split; [done | intros H; rewrite (H x) in E by left; done].
    + rewrite IH. split; intros H y Hy.
      * apply elem_of_cons in Hy as [->|]; auto.
      * apply H. by right.
Qed.

Lemma first_error_map_None {V} (f : string * V → option error) (m : gmap string V) :
  first_error f (map_to_list m) = None ↔ ∀ k v, m !! k = Some v → f (k, v) = None.
Proof.
  rewrite first_error_None. split.
  - intros H k v Hk. apply H. by apply elem_of_map_to_list.
  - intros H [k v] Hk%elem_of_map_to_list. by apply H.
Qed.

Lemma first_error_Some {A} (f : A → option error) l e :
  first_error f l = Some e → ∃ x, x ∈ l ∧ f x = Some e.
Proof.
  induction l as [|x l IH]; simpl; [done|]. destruct (f x) eqn:E; intros; simplify_eq.
  - exists x. split; [by left | done].
  - destruct (IH H) as (y & Hy & ?). exists y. split; [by right | done].
Qed.

Lemma and_then_None c1 c2 : and_then c1 c2 = None ↔ c1 = None ∧ c2 = None.
Proof. destruct c1; simpl; naive_solver. Qed.

Lemma fail_if_None b e : fail_if b e = None ↔ b = false.
Proof. destruct b; simpl; naive_solver. Qed.

Lemma Is_elem e k : Is e k = true ↔ k ∈ e_is e.
Proof. apply bool_decide_eq_true. Qed.

Lemma is_any_spec e ks : is_any e ks = true ↔ ∃ k, k ∈ ks ∧ k ∈ e_is e.
Proof.
  unfold is_any. rewrite existsb_exists. split; intros (k & Hk & H); exists k.
  - split; [by apply list_elem_of_In | by apply Is_elem].
  - split; [by apply list_elem_of_In | by apply Is_elem].
Qed.

Lemma Is_errorf k k' msg : Is (errorf k msg) k' = bool_decide (k' = k).
Proof. unfold Is; simpl. apply bool_decide_ext. by rewrite list_elem_of_singleton. Qed.

Lemma Is_errwrap k msg e k' : Is (errwrap k msg e) k' = bool_decide (k' = k) || Is e k'.
Proof.
  unfold Is; simpl. rewrite <- bool_decide_or. apply bool_decide_ext.
  by rewrite elem_of_cons.
Qed.

(** Classifying twice is classifying once. *)
Lemma storeErr_known e :
  is_any (storeErr e) [ErrNotFound; ErrExists; ErrInvalid; ErrVersionMismatch;
    ErrPreconditionFailed; ErrInvalidTransition; ErrUnavailable; ErrDenied] = true.
Proof.
  unfold storeErr. case_match; [done|]. apply is_any_spec.
  exists ErrUnavailable. simpl. set_solver.
Qed.

Lemma guardErr_known e :
  is_any (guardErr e) [ErrForbidden; ErrApprovalRequired; ErrQuotaExceeded; ErrInvalid;
    ErrNotFound; ErrUnavailable; ErrInvalidTransition] = true.
Proof.
  unfold guardErr. case_match; [done|]. apply is_any_spec.
  exists ErrUnavailable. simpl. set_solver.
Qed.

#[export] Hint Rewrite Is_errorf Is_errwrap : go_rw.

(** ** Properties *)

(** A store fault or a guard that fails in its own way is never read as
    success or as an internal error: whatever the error, the code on the wire
    after [storeErr] or [guardErr] is one of the contract's. An error neither
    knows reads as "unavailable" unless it wraps a sentinel with a code of its
    own. *)
Theorem boundary_error_code (e : error) :
  ErrorCode (Some (storeErr e)) ∈
    ["forbidden"; "not_found"; "approval_required"; "quota_exceeded"; "precondition_failed";
     "conflict"; "invalid"; "unsupported"; "unavailable"] ∧
  ErrorCode (Some (guardErr e)) ∈
    ["forbidden"; "not_found"; "approval_required"; "quota_exceeded"; "precondition_failed";
     "conflict"; "invalid"; "unsupported"; "unavailable"].
Proof.
  split; [pose proof (storeErr_known e) as H | pose proof (guardErr_known e) as H];
    revert H; [generalize (storeErr e) as x | generalize (guardErr e) as x];
    intros x H; unfold ErrorCode, is_any in *; simpl in *;
    repeat case_match; simpl in *; try (rewrite !elem_of_cons; tauto);
    repeat match goal with H : (_ || _)%bool = false |- _ => apply orb_false_iff in H as [? ?] end;
    repeat match goal with H : Is x _ = _ |- _ => rewrite H in * end; simpl in *; congruence.
Qed.

(** A driver's wire code names the sentinel it came from. *)
Theorem driver_code_roundtrip (k : sentinel) (msg : string) :
  k ∈ codes → KindOf (Code (driver_errorf k msg)) = k.
Proof.
  intros Hk. unfold codes in Hk.
  repeat (apply elem_of_cons in Hk as [->|Hk]; [reflexivity|]).
  by apply elem_of_nil in Hk.
Qed.

Lemma driver_code_roundtrip_witness :
  DErrConflict ∈ codes ∧ KindOf (Code (driver_errorf DErrConflict "busy")) = DErrConflict.
Proof.
  split; [by repeat constructor | apply (driver_code_roundtrip DErrConflict "busy"); by repeat constructor].
Defined.
