(* ===== verification/Labels.v ===== *)
(** Labels and selectors (controlplane/labels.go), and the two scope checks of
    controlplane/guard.go that read labels. *)

From Stdlib Require Import ZArith NArith Ascii String Lia.
From stdpp Require Import base tactics list gmap strings.
From S2P Require Import Prelude GoStd Errors.

#[local] Open Scope string_scope.
#[local] Open Scope go_scope.

(** ** Definitions *)

(** Label keys under this prefix are set only by the server. *)
Definition ReservedPrefix : string := "abhed.dev/".
Definition MaxLabels : nat := 64.

Definition alnum (c : ascii) : bool :=
  in_range "a" "z" c || in_range "A" "Z" c || in_range "0" "9" c.

(** [value_at i n c]: byte [c] may stand at index [i] of a value of [n] bytes. *)
Definition value_at (i n : nat) (c : ascii) : bool :=
  alnum c || (((c =c ".") || (c =c "_") || (c =c "-")) && negb (i =? 0)%nat && negb (S i =? n)%nat).

Fixpoint value_bytes (i n : nat) (v : string) : bool :=
  match v with
  | EmptyString => true
  | String c v => value_at i n c && value_bytes (S i) n v
  end.

(** Up to 63 of [A-Za-z0-9._-], starting and ending alphanumeric. *)
Definition validValue (v : string) : bool :=
  (String.length v <=? 63)%nat && value_bytes 0 (String.length v) v.

(** One part of a DNS subdomain. *)
Definition valid_part (part : string) : bool :=
  match str_at part 0, last_byte part with
  | Some first, Some final =>
      (String.length part <=? 63)%nat && negb (first =c "-") && negb (final =c "-")
      && str_forall (λ c, in_range "a" "z" c || in_range "0" "9" c || (c =c "-")) part
  | _, _ => false
  end.

Definition validPrefix (p : string) : bool :=
  str_nonempty p && (String.length p <=? 253)%nat && forallb valid_part (Split p ".").

Definition validKey (k : string) : option error :=
  match Cut k "/" with
  | Some (prefix, rest) =>
      and_then (fail_if (negb (validPrefix prefix)) (errorf ErrInvalid ("label key prefix " ++ Quote prefix)))
               (fail_if (negb (str_nonempty rest) || negb (validValue rest))
                        (errorf ErrInvalid ("label key " ++ Quote k)))
  | None =>
      fail_if (negb (str_nonempty k) || negb (validValue k)) (errorf ErrInvalid ("label key " ++ Quote k))
  end.

(** The checks of one entry of [ValidateLabels]. *)
Definition validate_label (reserved : bool) (kv : string * string) : option error :=
  let '(k, v) := kv in
  and_then (validKey k)
    (and_then (fail_if (negb reserved && HasPrefix k ReservedPrefix)
                       (errorf ErrInvalid ("label " ++ Quote k ++ " is reserved")))
              (fail_if (negb (validValue v))
                       (errorf ErrInvalid ("label " ++ k ++ " has value " ++ Quote v)))).

Definition ValidateLabels (labels : strmap) (reserved : bool) : option error :=
  and_then (fail_if (MaxLabels <? size labels)%nat
              (errorf ErrInvalid (Itoa (Z.of_nat (size labels)) ++ " labels, at most " ++ Itoa (Z.of_nat MaxLabels))))
           (first_error (validate_label reserved) (map_to_list labels)).

(** How a requirement compares a label; [OpOther] is any other text, which
    [Operator], a string type, can hold. *)
Inductive Operator : Set :=
| OpEquals | OpNotEquals | OpIn | OpNotIn | OpExists | OpDoesNotExist | OpOther (s : string).

Record Requirement : Set := { Key : string; Op : Operator; Values : list string }.

(** [r.Values\[0\]]. On an empty list it panics; [parse_requirement_wf] shows
    that no parsed requirement has one. *)
Definition value0 (r : Requirement) : string := default "" (Values r !! 0).

Definition str_elem (v : string) (l : list string) : bool := bool_decide (v ∈ l).

Definition requirement_Matches (r : Requirement) (labels : strmap) : bool :=
  match Op r, labels !! Key r with
  | OpEquals, Some v => String.eqb v (value0 r)
  | OpEquals, None => false
  | OpNotEquals, Some v => negb (String.eqb v (value0 r))
  | OpNotEquals, None => true
  | OpIn, Some v => str_elem v (Values r)
  | OpIn, None => false
  | OpNotIn, Some v => negb (str_elem v (Values r))
  | OpNotIn, None => true
  | OpExists, Some _ => true
  | OpExists, None => false
  | OpDoesNotExist, Some _ => false
  | OpDoesNotExist, None => true
  | OpOther _, _ => false
  end.

Definition Selector : Set := list Requirement.

(** Every requirement holds; the empty selector matches everything. *)
Definition selector_Matches (s : Selector) (labels : strmap) : bool :=
  forallb (λ r, requirement_Matches r labels) s.

(** Splits on commas outside parentheses; [cur] is the clause read so far,
    reversed. The depth goes negative after an unmatched closing one. *)
Fixpoint split_clauses (depth : Z) (cur : list ascii) (s : string) : list string :=
  match s with
  | EmptyString => [of_bytes (reverse cur)]
  | String c s =>
      if c =c "(" then split_clauses (depth + 1) (c :: cur) s
      else if c =c ")" then split_clauses (depth - 1) (c :: cur) s
      else if (c =c ",") && (depth =? 0)%Z then of_bytes (reverse cur) :: split_clauses depth [] s
      else split_clauses depth (c :: cur) s
  end.
Definition splitClauses (s : string) : list string := split_clauses 0 [] s.

(** The values of an [in] or [notin] list, each trimmed and checked. *)
Fixpoint parse_values (vs : list string) : result (list string) :=
  match vs with
  | [] => Ok []
  | v :: vs =>
      let v := TrimSpace v in
      if validValue v then
        let? rest := parse_values vs in Ok (v :: rest)
      else Fail (plain ("value " ++ Quote v))
  end.

(** A requirement, or the error its key is refused with. *)
Definition keyed (r : Requirement) : result Requirement :=
  match validKey (Key r) with None => Ok r | Some e => Fail e end.

(** [k in (a,b)]: [open] is where the parenthesis stands. *)
Definition parse_set (c : string) (open : nat) : result Requirement :=
  let head := Fields (str_take open c) in
  let body := str_drop (S open) c in
  let inner := str_take (pred (String.length body)) body in
  match head with
  | [k; opword] =>
      if negb (HasSuffix body ")") || ContainsAny inner "()" then Fail (plain ("cannot read " ++ Quote c))
      else
        let parse op :=
          if String.eqb (TrimSpace inner) "" then Fail (plain (opword ++ " with no values"))
          else let? vals := parse_values (Split inner ",") in
               keyed {| Key := k; Op := op; Values := vals |} in
        if String.eqb opword "in" then parse OpIn
        else if String.eqb opword "notin" then parse OpNotIn
        else Fail (plain ("unknown operator " ++ Quote opword))
  | _ => Fail (plain ("cannot read " ++ Quote c))
  end.

(** The three separators in the order they are tried. *)
Definition separators : list (string * Operator) :=
  [("!=", OpNotEquals); ("==", OpEquals); ("=", OpEquals)].

Fixpoint parse_compare (c : string) (seps : list (string * Operator)) : option (result Requirement) :=
  match seps with
  | [] => None
  | (sep, op) :: seps =>
      match Cut c sep with
      | Some (k, v) =>
          let k := TrimSpace k in
          let v := TrimSpace v in
          Some (if negb (validValue v) || ContainsAny v "=!" then Fail (plain ("value " ++ Quote v))
                else keyed {| Key := k; Op := op; Values := [v] |})
      | None => parse_compare c seps
      end
  end.

Definition parseRequirement (c : string) : result Requirement :=
  if String.eqb c "" then Fail (plain "empty requirement")
  else if HasPrefix c "!" && negb (Contains c "=") then
    keyed {| Key := TrimSpace (str_drop 1 c); Op := OpDoesNotExist; Values := [] |}
  else match IndexByte c "(" with
  | Some open => parse_set c open
  | None =>
      match parse_compare c separators with
      | Some r => r
      | None =>
          if ContainsAny c (String " " (String tab "")) then Fail (plain ("cannot read " ++ Quote c))
          else keyed {| Key := c; Op := OpExists; Values := [] |}
      end
  end.

Fixpoint parse_clauses (s : string) (cs : list string) : result Selector :=
  match cs with
  | [] => Ok []
  | c :: cs =>
      match parseRequirement (TrimSpace c) with
      | Fail e => Fail (errwrap ErrInvalid ("selector " ++ Quote s ++ ": ") e)
      | Ok r => let? rest := parse_clauses s cs in Ok (r :: rest)
      end
  end.

Definition ParseSelector (s : string) : result Selector :=
  if String.eqb (TrimSpace s) "" then Ok []
  else parse_clauses s (splitClauses s).

(** ** Scopes (controlplane/guard.go) *)

(** [labels] carry every label of [scope]; an empty value matches nothing. *)
Definition scoped (scope labels : strmap) : bool :=
  forallb (λ '(k, v), str_nonempty v && String.eqb (map_get labels k) v) (map_to_list scope).

(** A scope is made of reserved labels with values. *)
Definition checkScope (scope : strmap) : option error :=
  and_then
    (first_error (λ '(k, v), fail_if (negb (HasPrefix k ReservedPrefix) || negb (str_nonempty v))
        (errorf ErrForbidden ("caller scope " ++ k ++ "=" ++ Quote v ++ " is not a reserved label with a value")))
       (map_to_list scope))
    (ValidateLabels scope true).

(** ** Lemmas *)

(** What [ValidateLabels] accepts. *)
Definition labels_ok (reserved : bool) (m : strmap) : Prop :=
  (size m ≤ MaxLabels)%nat ∧
  ∀ k v, m !! k = Some v →
    validKey k = None ∧ validValue v = true ∧ (reserved = false → HasPrefix k ReservedPrefix = false).

Lemma validate_label_None reserved k v :
  validate_label reserved (k, v) = None ↔
  validKey k = None ∧ validValue v = true ∧ (reserved = false → HasPrefix k ReservedPrefix = false).
Proof.
  unfold validate_label. rewrite !and_then_None, !fail_if_None, negb_false_iff.
  destruct reserved; simpl; naive_solver.
Qed.

Lemma ValidateLabels_None reserved m :
  ValidateLabels m reserved = None ↔ labels_ok reserved m.
Proof.
  unfold ValidateLabels, labels_ok.
  rewrite and_then_None, fail_if_None, Nat.ltb_ge, first_error_map_None.
  setoid_rewrite validate_label_None. done.
Qed.

Lemma labels_ok_subseteq reserved m m' : m' ⊆ m → labels_ok reserved m → labels_ok reserved m'.
Proof.
  intros Hsub [Hs Hm]. split.
  - etransitivity; [|done]. by apply map_subseteq_size.
  - intros k v Hk. apply Hm. by eapply lookup_weaken.
Qed.

Lemma scoped_spec scope labels :
  scoped scope labels = true ↔
  ∀ k v, scope !! k = Some v → v ≠ "" ∧ labels !! k = Some v.
Proof.
  unfold scoped. rewrite forallb_forall. split.
  - intros H k v Hk. specialize (H (k, v)). simpl in H.
    rewrite andb_true_iff, String.eqb_eq in H.
    unfold str_nonempty, map_get in H.
    rewrite negb_true_iff, String.eqb_neq in H.
    destruct H as [Hne Hl]; [by apply list_elem_of_In, elem_of_map_to_list|].
    split; [done|]. destruct (labels !! k); simpl in *; congruence.
  - intros H [k v] Hk%list_elem_of_In%elem_of_map_to_list.
    destruct (H k v Hk) as [Hne Hl]. unfold str_nonempty, map_get. rewrite Hl. simpl.
    rewrite String.eqb_refl, andb_true_r. by apply negb_true_iff, String.eqb_neq.
Qed.

(** A requirement as [parseRequirement] builds it. *)
Definition requirement_wf (r : Requirement) : Prop :=
  validKey (Key r) = None ∧ Forall (λ v, validValue v = true) (Values r) ∧
  match Op r with
  | OpEquals | OpNotEquals => ∃ v, Values r = [v]
  | OpIn | OpNotIn => Values r ≠ []
  | OpExists | OpDoesNotExist => Values r = []
  | OpOther _ => False
  end.

Lemma keyed_Ok r r' : keyed r = Ok r' → r' = r ∧ validKey (Key r) = None.
Proof. unfold keyed. destruct (validKey (Key r)) eqn:E; naive_solver. Qed.

Lemma parse_values_Ok vs vals :
  parse_values vs = Ok vals → Forall (λ v, validValue v = true) vals ∧ length vals = length vs.
Proof.
  revert vals. induction vs as [|v vs IH]; intros vals; simpl; [naive_solver|].
  destruct (validValue (TrimSpace v)) eqn:Ev; [|done].
  destruct (parse_values vs) as [rest|]; [|done]. intros; simplify_eq.
  destruct (IH _ eq_refl). split; [by constructor | simpl; congruence].
Qed.

Lemma parse_set_wf c open r : parse_set c open = Ok r → requirement_wf r.
Proof.
  unfold parse_set. intros H. split_match H;
    match goal with H : keyed _ = Ok _ |- _ => apply keyed_Ok in H as [-> Hk] end;
    match goal with H : parse_values _ = Ok _ |- _ => apply parse_values_Ok in H as [Hv Hl] end;
    (split; [done|]; split; [done|]; simpl; intros ->;
     match goal with H : length [] = length (Split ?s ?d) |- _ =>
       pose proof (Split_nonempty s d); by destruct (Split s d) end).
Qed.

Lemma parse_compare_wf c seps r :
  Forall (λ '(_, op), op = OpEquals ∨ op = OpNotEquals) seps →
  parse_compare c seps = Some (Ok r) → requirement_wf r.
Proof.
  induction 1 as [|[sep op] seps Hop _ IH]; simpl; [done|].
  destruct (Cut c sep) as [[k v]|]; [|done]. intros H. split_match H.
  apply keyed_Ok in H as [-> Hk]. bool_to_prop.
  split; [done|]. split; [by repeat constructor|].
  destruct Hop as [-> | ->]; simpl; eauto.
Qed.

Lemma parse_requirement_wf c r : parseRequirement c = Ok r → requirement_wf r.
Proof.
  unfold parseRequirement. intros H. case_match; [done|]. case_match.
  { apply keyed_Ok in H as [-> Hk]. repeat split; [done | constructor]. }
  case_match; [by eapply parse_set_wf|].
  destruct (parse_compare c separators) as [r'|] eqn:E.
  - subst. eapply (parse_compare_wf c separators); [|done].
    unfold separators. repeat apply Forall_cons_2; simpl; auto.
  - case_match; [done|]. apply keyed_Ok in H as [-> Hk]. repeat split; [done | constructor].
Qed.

Lemma parse_clauses_wf s cs sel :
  parse_clauses s cs = Ok sel → Forall requirement_wf sel ∧ length sel = length cs.
Proof.
  revert sel. induction cs as [|c cs IH]; intros sel; simpl; [naive_solver|].
  destruct (parseRequirement (TrimSpace c)) eqn:E; [|done].
  destruct (parse_clauses s cs) as [rest|]; [|done]. intros; simplify_eq.
  destruct (IH _ eq_refl). split; [|simpl; congruence].
  constructor; [by eapply parse_requirement_wf | done].
Qed.

Lemma split_clauses_nonempty d cur s : split_clauses d cur s ≠ [].
Proof. revert d cur. induction s; intros; simpl; [done|]. repeat case_match; auto. Qed.

#[export] Hint Resolve parse_requirement_wf parse_set_wf : go.

(** ** Properties *)

(** [ParseSelector] never turns text it cannot read into a selector that
    matches everything: any non-blank text it accepts gives at least one
    requirement, and every requirement it builds has a valid label key, valid
    values and the number of values its operator reads, so [Matches] never
    indexes an empty list and never meets an unknown operator. *)
Theorem ParseSelector_never_matches_all (s : string) (sel : Selector) :
  TrimSpace s ≠ "" → ParseSelector s = Ok sel → sel ≠ [] ∧ Forall requirement_wf sel.
Proof.
  intros Hs. unfold ParseSelector. rewrite (proj2 (String.eqb_neq _ _) Hs).
  intros [Hwf Hlen]%parse_clauses_wf. split; [|done]. intros ->.
  pose proof (split_clauses_nonempty 0 [] s) as Hne.
  unfold splitClauses in Hlen. by destruct (split_clauses 0 [] s).
Qed.

Lemma ParseSelector_never_matches_all_witness :
  [{| Key := "app"; Op := OpIn; Values := ["web"; "db"] |};
   {| Key := "tier"; Op := OpNotEquals; Values := ["old"] |}] ≠ [] ∧
  Forall requirement_wf [{| Key := "app"; Op := OpIn; Values := ["web"; "db"] |};
   {| Key := "tier"; Op := OpNotEquals; Values := ["old"] |}].
Proof.
  apply (ParseSelector_never_matches_all "app in (web, db), tier!=old"); [discriminate | reflexivity].
Defined.
