(* ===== verification/Driver.v ===== *)
(** The driver package (driver/driver.go, line.go, limit.go, registry.go): what
    the control plane and the code that runs a sandbox tell each other, the
    capability gates in front of a driver's optional methods, the registry, and
    the output budget a command's writers share.

    A driver itself (a container engine, a hypervisor) is code outside the
    model: a record of operations over an abstract state [E] of the outside
    world. *)

From Stdlib Require Import ZArith NArith Ascii String Lia.
From stdpp Require Import base tactics list gmap strings.
From S2P Require Import Prelude GoStd Errors.

#[local] Open Scope string_scope.
#[local] Open Scope go_scope.

(** ** Data *)

(** An optional thing a driver can do; [CapOther] is any other text, and
    [CapNone] the empty string. *)
Inductive Capability : Set :=
| CapAttach | CapCopy | CapForward | CapSnapshot | CapCommand | CapNone | CapOther (s : string).

#[export] Instance Capability_eq_dec : EqDecision Capability.
Proof. solve_decision. Defined.

Definition capability_text (c : Capability) : string :=
  match c with
  | CapAttach => "attach" | CapCopy => "copy" | CapForward => "forward"
  | CapSnapshot => "snapshot" | CapCommand => "command" | CapNone => "" | CapOther s => s
  end.

Record Info : Set := { i_name : string; i_version : string; i_capabilities : list Capability }.

Definition Has (i : Info) (c : Capability) : bool := bool_decide (c ∈ i_capabilities i).

Record Egress : Set := { eg_socket : string; eg_port : Z; eg_dns_socket : string; eg_dns_credential : string }.

Record Spec : Set := {
  sp_id : string; sp_generation : Z; sp_template : string; sp_policy_rev : string;
  sp_workspace : string; sp_write_protected : list string; sp_egress : option Egress;
  sp_min_tier : string; sp_labels : strmap; sp_config : strmap
}.

Inductive Phase : Set := PhaseRunning | PhaseStopped | PhaseExited | PhaseFailed | PhaseOther (s : string).

#[export] Instance Phase_eq_dec : EqDecision Phase.
Proof. solve_decision. Defined.

Definition phase_text (p : Phase) : string :=
  match p with
  | PhaseRunning => "running" | PhaseStopped => "stopped" | PhaseExited => "exited"
  | PhaseFailed => "failed" | PhaseOther s => s
  end.

Record Status : Set := {
  st_id : string; st_phase : Phase; st_tier : string;
  st_backend : string; st_message : string; st_caveat : string
}.

Record DExecRequest : Set := {
  dx_argv : list string; dx_command : string; dx_cwd : string; dx_env : list string; dx_stdin : bool
}.

Record SnapshotRef : Set := {
  sr_id : string; sr_name : string; sr_generation : Z; sr_digest : string;
  sr_bytes : Z; sr_image : string; sr_created_at : Z
}.

Record CommandRequest : Set := { cr_command : string; cr_shell : bool; cr_cwd : string }.

(** What a driver's [Exec] leaves behind: its exit code or error, the writes
    the command made to its two streams, in order, and, when the call's context
    had ended by then, whether it was its deadline ([ctx.Err()]) and the cause
    ([context.Cause]). *)
Record ExecOut : Type := { xo_result : result Z; xo_writes : list string; xo_ctx : option (bool * error) }.

(** ** Validation *)

Definition Validate (r : DExecRequest) : option error :=
  fail_if (Bool.eqb (match dx_argv r with [] => true | _ => false end) (String.eqb (dx_command r) ""))
          (driver_errorf DErrInvalid "exactly one of argv and command must be set").

(** A driver name is [a-z][a-z0-9-]{0,31}. *)
Definition ValidName (s : string) : bool :=
  match s with
  | EmptyString => false
  | String c r =>
      (String.length s <=? 32)%nat && in_range "a" "z" c
      && str_forall (λ c, in_range "a" "z" c || in_range "0" "9" c || (c =c "-")) r
  end.

Section line.
(** [syntax.Quote] of mvdan.cc/sh, a third-party package: the quoted word, or
    [None] for a word it does not print. *)
Context (syntax_Quote : string → option string).

(** [strings.ReplaceAll(a, "'", `'\''`)]. *)
Fixpoint escape_single (a : string) : string :=
  match a with
  | EmptyString => EmptyString
  | String c a => (if c =c "'" then "'\''" else String c "") ++ escape_single a
  end.

Definition quote_word (a : string) : string :=
  match syntax_Quote a with
  | Some q => q
  | None => "'" ++ escape_single a ++ "'"
  end.

Fixpoint quote_words (i : Z) (argv : list string) : result (list string) :=
  match argv with
  | [] => Ok []
  | a :: argv =>
      match IndexByte a "000" with
      | Some _ => Fail (driver_errorf DErrInvalid ("argv[" ++ Itoa i ++ "] cannot be quoted: it holds a NUL byte"))
      | None => let? rest := quote_words (i + 1) argv in Ok (quote_word a :: rest)
      end
  end.

Definition QuoteArgv (argv : list string) : result string :=
  let? parts := quote_words 0 argv in Ok (Join parts " ").

Definition Line (r : DExecRequest) : result string :=
  if str_nonempty (dx_command r) then Ok (dx_command r) else QuoteArgv (dx_argv r).
End line.

(** ** The driver interface *)

Record Copier (E : Type) : Type := {
  cp_in : string → string → M E (option error);
  cp_out : string → string → M E (list string * option error)
}.
Arguments cp_in {E} _ _ _. Arguments cp_out {E} _ _ _.

Record Snapshotter (E : Type) : Type := {
  sn_snapshot : string → string → M E (result SnapshotRef);
  sn_restore : string → SnapshotRef → M E (option error)
}.
Arguments sn_snapshot {E} _ _ _. Arguments sn_restore {E} _ _ _.

(** The optional methods are [Some] when the driver's type implements them. *)
Record Driver (E : Type) : Type := {
  d_info : Info;
  d_create : Spec → M E (result Status);
  d_start : string → M E (result Status);
  d_stop : string → Z → M E (result Status);
  d_delete : string → M E (option error);
  d_status : string → M E (result Status);
  d_exec : string → DExecRequest → Z → M E ExecOut;
  d_attacher : option (string → M E (result Z));
  d_copier : option (Copier E);
  d_forwarder : option (string → Z → M E (option error));
  d_snapshotter : option (Snapshotter E);
  d_commander : option (string → CommandRequest → M E (option error));
  d_config_checker : option (strmap → option error)
}.
Arguments d_info {E}. Arguments d_create {E}. Arguments d_start {E}. Arguments d_stop {E}.
Arguments d_delete {E}. Arguments d_status {E}. Arguments d_exec {E}. Arguments d_attacher {E}.
Arguments d_copier {E}. Arguments d_forwarder {E}. Arguments d_snapshotter {E}.
Arguments d_commander {E}. Arguments d_config_checker {E}.

Section driver.
Context {E : Type}.
Implicit Types (d : Driver E).

Definition implements d (c : Capability) : bool :=
  match c with
  | CapAttach => opt_some (d_attacher d)
  | CapCopy => opt_some (d_copier d)
  | CapForward => opt_some (d_forwarder d)
  | CapSnapshot => opt_some (d_snapshotter d)
  | CapCommand => opt_some (d_commander d)
  | CapNone | CapOther _ => false
  end.

Definition known_capability (c : Capability) : bool :=
  match c with CapNone | CapOther _ => false | _ => true end.

(** The loop over the declared capabilities; [seen] are those read so far. *)
Fixpoint check_capabilities (d : Driver E) (seen cs : list Capability) : option error :=
  match cs with
  | [] => None
  | c :: cs =>
      if bool_decide (c ∈ seen) then
        Some (driver_errorf DErrInvalid
          ("driver " ++ i_name (d_info d) ++ " declares " ++ capability_text c ++ " twice"))
      else if negb (known_capability c) then
        Some (driver_errorf DErrInvalid
          ("driver " ++ i_name (d_info d) ++ " declares unknown capability " ++ Quote (capability_text c)))
      else if negb (implements d c) then
        Some (driver_errorf DErrInvalid
          ("driver " ++ i_name (d_info d) ++ " declares " ++ capability_text c ++ " but does not implement it"))
      else check_capabilities d (c :: seen) cs
  end.

(** Refuses a driver whose declared capabilities do not match it. *)
Definition checkDriver d : option error :=
  if negb (ValidName (i_name (d_info d))) then
    Some (driver_errorf DErrInvalid ("driver name " ++ Quote (i_name (d_info d)) ++ " is not valid"))
  else check_capabilities d [] (i_capabilities (d_info d)).

Definition unsupported d (c : Capability) : error :=
  driver_errorf DErrUnsupported
    ("driver " ++ i_name (d_info d) ++ " does not support " ++ capability_text c).

(** Each gate: the optional method runs only when it is both implemented and declared. *)
Definition Attach d (id : string) : M E (result Z) :=
  match d_attacher d with
  | Some attach => if Has (d_info d) CapAttach then attach id
                   else mreturn (Fail (unsupported d CapAttach))
  | None => mreturn (Fail (unsupported d CapAttach))
  end.

Definition driver_CopyIn d (id dst : string) : M E (option error) :=
  match d_copier d with
  | Some c => if Has (d_info d) CapCopy then cp_in c id dst
              else mreturn (Some (unsupported d CapCopy))
  | None => mreturn (Some (unsupported d CapCopy))
  end.

Definition driver_CopyOut d (id src : string) : M E (list string * option error) :=
  match d_copier d with
  | Some c => if Has (d_info d) CapCopy then cp_out c id src
              else mreturn ([], Some (unsupported d CapCopy))
  | None => mreturn ([], Some (unsupported d CapCopy))
  end.

Definition Forward d (id : string) (port : Z) : M E (option error) :=
  match d_forwarder d with
  | Some forward =>
      if negb (Has (d_info d) CapForward) then mreturn (Some (unsupported d CapForward))
      else if (port <? 1)%Z || (65535 <? port)%Z then
        mreturn (Some (driver_errorf DErrInvalid ("port " ++ Itoa port ++ " is out of range")))
      else forward id port
  | None => mreturn (Some (unsupported d CapForward))
  end.

Definition driver_Command d (id : string) (req : CommandRequest) : M E (option error) :=
  match d_commander d with
  | Some command =>
      if negb (Has (d_info d) CapCommand) then mreturn (Some (unsupported d CapCommand))
      else if negb (Bool.eqb (cr_shell req) (String.eqb (cr_command req) "")) then
        mreturn (Some (driver_errorf DErrInvalid "exactly one of a command and a shell must be asked for"))
      else command id req
  | None => mreturn (Some (unsupported d CapCommand))
  end.

Definition driver_Snapshot d (id name : string) : M E (result SnapshotRef) :=
  match d_snapshotter d with
  | Some s => if Has (d_info d) CapSnapshot then sn_snapshot s id name
              else mreturn (Fail (unsupported d CapSnapshot))
  | None => mreturn (Fail (unsupported d CapSnapshot))
  end.

Definition driver_Restore d (id : string) (ref : SnapshotRef) : M E (option error) :=
  match d_snapshotter d with
  | Some s => if Has (d_info d) CapSnapshot then sn_restore s id ref
              else mreturn (Some (unsupported d CapSnapshot))
  | None => mreturn (Some (unsupported d CapSnapshot))
  end.

(** *** The registry *)

Abbreviation Registry := (gmap string (Driver E)).

(** Adds a driver under its own name; a nil driver is [None]. *)
Definition Register (od : option (Driver E)) (r : Registry) : result Registry :=
  match od with
  | None => Fail (driver_errorf DErrInvalid "nil driver")
  | Some d =>
      match checkDriver d with
      | Some e => Fail e
      | None =>
          let name := i_name (d_info d) in
          match r !! name with
          | Some _ => Fail (driver_errorf DErrExists ("driver " ++ name ++ " is already registered"))
          | None => Ok (<[name := d]> r)
          end
      end
  end.

Definition registry_Get (r : Registry) (name : string) : result (Driver E) :=
  match r !! name with
  | Some d => Ok d
  | None => Fail (driver_errorf DErrNotFound ("no driver named " ++ Quote name ++ " is registered"))
  end.

Definition Names (r : Registry) : list string := sorted_keys r.
End driver.

(** ** The output budget *)

(** [left] bytes remain; [exceeded] once a write was refused. *)
Record OutputLimit : Set := { ol_left : Z; ol_exceeded : bool }.

Definition NewOutputLimit (n : Z) : OutputLimit := {| ol_left := n; ol_exceeded := false |}.

(** One write of [p] through the budget: the budget after it, the bytes that
    reach the wrapped writer, and whether [OnExceed] runs. A write the budget
    refuses outright reaches the writer with nothing. The slice [p\[:n\]] of a
    negative budget panics; a budget made with [n >= 0] never goes below zero. *)
Definition limited_Write (l : OutputLimit) (p : string) : OutputLimit * string * bool :=
  if ol_exceeded l then (l, "", false)
  else
    let n := Z.of_nat (String.length p) in
    if (ol_left l <? n)%Z then
      ({| ol_left := 0; ol_exceeded := true |}, str_take (Z.to_nat (ol_left l)) p, true)
    else ({| ol_left := ol_left l - n; ol_exceeded := false |}, p, false).

(** A sequence of writes: what came through, and how often [OnExceed] ran. *)
Fixpoint limited_writes (l : OutputLimit) (ps : list string) : OutputLimit * list string * nat :=
  match ps with
  | [] => (l, [], 0)
  | p :: ps =>
      let '(l1, out, over) := limited_Write l p in
      let '(l2, outs, n) := limited_writes l1 ps in
      (l2, out :: outs, (if over : bool then 1 else 0) + n)
  end.

(** ** Lemmas and properties *)

Fixpoint total_length (l : list string) : Z :=
  match l with [] => 0%Z | s :: l => (Z.of_nat (String.length s) + total_length l)%Z end.

Lemma length_str_take n s : String.length (str_take n s) = Nat.min n (String.length s).
Proof. revert s. induction n; intros [|c s]; simpl; auto. Qed.

Lemma limited_writes_exceeded l ps :
  ol_exceeded l = true →
  limited_writes l ps = (l, replicate (List.length ps) "", 0).
Proof.
  intros He. induction ps as [|p ps IH]; simpl; [done|].
  unfold limited_Write. by rewrite He, IH.
Qed.

(** The budget bounds the whole call: over any sequence of writes, the bytes
    that come through are at most the budget, they are exactly the budget when
    it was exceeded and everything written otherwise, [OnExceed] runs once if
    the budget was exceeded and never otherwise. *)
Theorem output_limit_bounds (n : Z) (ps : list string) :
  (0 <= n)%Z →
  let '(l, outs, calls) := limited_writes (NewOutputLimit n) ps in
  (ol_exceeded l = (n <? total_length ps)%Z) ∧
  total_length outs = Z.min n (total_length ps) ∧
  calls = (if ol_exceeded l then 1 else 0).
Proof.
  unfold NewOutputLimit. revert n. induction ps as [|p ps IH]; intros n Hn.
  { simpl. split; [symmetry; apply Z.ltb_ge; lia|]. split; [lia | done]. }
  cbn [limited_writes total_length]. unfold limited_Write. cbn [ol_exceeded ol_left].
  assert (Hps : (0 <= total_length ps)%Z) by (clear; induction ps; simpl; lia).
  destruct (Z.ltb_spec n (Z.of_nat (String.length p))) as [Hlt|Hge].
  - rewrite limited_writes_exceeded by done. cbn [ol_exceeded total_length].
    split; [symmetry; apply Z.ltb_lt; lia|]. split; [|done].
    assert (total_length (replicate (List.length ps) "") = 0%Z) as -> by (clear; induction ps; simpl; lia).
    rewrite length_str_take. lia.
  - specialize (IH (n - Z.of_nat (String.length p))%Z ltac:(lia)).
    destruct (limited_writes _ ps) as [[l outs] calls]. destruct IH as (-> & Ht & ->).
    cbn [total_length]. split; [|split; [lia | simpl; by case_match]].
    destruct (Z.ltb_spec (n - Z.of_nat (String.length p)) (total_length ps)), (Z.ltb_spec n (Z.of_nat (String.length p) + total_length ps));
      try done; lia.
Qed.

Lemma output_limit_bounds_witness :
  let '(l, outs, calls) := limited_writes (NewOutputLimit 5) ["abc"; "defg"; "h"] in
  (ol_exceeded l = (5 <? total_length ["abc"; "defg"; "h"])%Z) ∧
  total_length outs = Z.min 5 (total_length ["abc"; "defg"; "h"]) ∧
  calls = (if ol_exceeded l then 1 else 0).
Proof. apply (output_limit_bounds 5 ["abc"; "defg"; "h"]). lia. Defined.

Section driver_props.
Context {E : Type}.

Lemma check_capabilities_None (d : Driver E) seen cs :
  check_capabilities d seen cs = None →
  NoDup cs ∧ (∀ c, c ∈ cs → (c ∉ seen) ∧ implements d c = true).
Proof.
  revert seen. induction cs as [|c cs IH]; intros seen; simpl.
  { intros _. split; [constructor|]. intros c Hc. by apply elem_of_nil in Hc. }
  repeat (case_match; [done|]). bool_to_prop. intros Hc%IH. destruct Hc as [Hnd Hall].
  split.
  - constructor; [|done]. intros Hin. destruct (Hall c Hin) as [Hn _]. apply Hn. by left.
  - intros c' [->|Hin]%elem_of_cons; [done|]. destruct (Hall c' Hin) as [Hn ?].
    split; [|done]. intros ?. apply Hn. by right.
Qed.

(** A registered driver does what it declares: for every driver [Register]
    accepts, the name is valid, each declared capability is one the package
    knows, declared once and implemented, the registry maps its name to it
    and keeps every other driver. *)
Theorem Register_sound (d : Driver E) (r r' : gmap string (Driver E)) :
  Register (Some d) r = Ok r' →
  ValidName (i_name (d_info d)) = true ∧
  NoDup (i_capabilities (d_info d)) ∧
  (∀ c, Has (d_info d) c = true → implements d c = true) ∧
  r !! i_name (d_info d) = None ∧
  registry_Get r' (i_name (d_info d)) = Ok d ∧
  ∀ n, n ≠ i_name (d_info d) → r' !! n = r !! n.
Proof.
  unfold Register, checkDriver. intros H. split_matches.
  match goal with H : check_capabilities _ _ _ = None |- _ =>
    apply check_capabilities_None in H as [Hnd Hall] end.
  bool_to_prop. repeat split; try done.
  - intros c Hc%bool_decide_eq_true. by apply Hall.
  - unfold registry_Get. by rewrite lookup_insert_eq.
  - intros n Hn. by rewrite lookup_insert_ne.
Qed.
End driver_props.

(** A driver over the unit state for examples: it declares and implements copy. *)
Definition example_driver : Driver unit := {|
  d_info := {| i_name := "demo"; i_version := "1"; i_capabilities := [CapCopy] |};
  d_create := λ _, mreturn (Fail (errval DErrUnsupported));
  d_start := λ _, mreturn (Fail (errval DErrUnsupported));
  d_stop := λ _ _, mreturn (Fail (errval DErrUnsupported));
  d_delete := λ _, mreturn None;
  d_status := λ _, mreturn (Fail (errval DErrNotFound));
  d_exec := λ _ _ _, mreturn {| xo_result := Ok 0%Z; xo_writes := []; xo_ctx := None |};
  d_attacher := None;
  d_copier := Some {| cp_in := λ _ _, mreturn None; cp_out := λ _ _, mreturn ([], None) |};
  d_forwarder := None; d_snapshotter := None; d_commander := None; d_config_checker := None
|}.

Lemma Register_sound_witness :
  ValidName "demo" = true ∧ NoDup [CapCopy] ∧
  (∀ c, Has (d_info example_driver) c = true → implements example_driver c = true) ∧
  (∅ : gmap string (Driver unit)) !! "demo" = None ∧
  registry_Get {["demo" := example_driver]} "demo" = Ok example_driver ∧
  ∀ n, n ≠ "demo" → ({["demo" := example_driver]} : gmap string (Driver unit)) !! n = (∅ : gmap string (Driver unit)) !! n.
Proof. apply (Register_sound example_driver ∅ {["demo" := example_driver]}). reflexivity. Defined.
