(* ===== verification/Lifecycle.v ===== *)
(** The sandbox object (controlplane/sandbox.go), its lifecycle
    (controlplane/state.go) and the restart policy's two decisions
    (controlplane/restart.go).

    A method that changes its receiver and may refuse is a function from the
    sandbox to a [result]; the callers discard the receiver on an error.
    Times are nanoseconds since Go's zero time, durations nanoseconds. *)

From Stdlib Require Import ZArith NArith Ascii String Lia.
From stdpp Require Import base tactics list gmap strings relations.
From S2P Require Import Prelude GoStd Errors Labels Driver.

#[local] Open Scope string_scope.
#[local] Open Scope go_scope.

(** ** Data *)

(** [StateOther] is any other text: [State] is a string type. *)
Inductive state : Set :=
| StateProvisioning | StateReady | StateStopping | StateStopped
| StateStarting | StateCompleted | StateError | StateDeleting
| StateOther (s : string).

#[export] Instance state_eq_dec : EqDecision state.
Proof. solve_decision. Defined.

Definition state_text (s : state) : string :=
  match s with
  | StateProvisioning => "Provisioning" | StateReady => "Ready" | StateStopping => "Stopping"
  | StateStopped => "Stopped" | StateStarting => "Starting" | StateCompleted => "Completed"
  | StateError => "Error" | StateDeleting => "Deleting" | StateOther s => s
  end.

Definition States : list state :=
  [StateProvisioning; StateReady; StateStopping; StateStopped;
   StateStarting; StateCompleted; StateError; StateDeleting].

Inductive ConditionStatus : Set :=
| ConditionTrue | ConditionFalse | ConditionUnknown | ConditionOther (s : string).

#[export] Instance ConditionStatus_eq_dec : EqDecision ConditionStatus.
Proof. solve_decision. Defined.

Definition status_text (s : ConditionStatus) : string :=
  match s with
  | ConditionTrue => "True" | ConditionFalse => "False" | ConditionUnknown => "Unknown"
  | ConditionOther s => s
  end.

Definition CondDriverReady : string := "DriverReady".
Definition CondPolicyApplied : string := "PolicyApplied".
Definition CondIsolationVerified : string := "IsolationVerified".
Definition CondDeleteFailed : string := "DeleteFailed".
Definition CondRestartScheduled : string := "RestartScheduled".

Record Condition : Set := {
  c_Type : string; c_Status : ConditionStatus; c_Reason : string; c_Message : string;
  c_ObservedGeneration : Z; c_LastTransition : Z
}.

#[export] Instance Condition_eq_dec : EqDecision Condition.
Proof. solve_decision. Defined.

Record Sandbox : Type := MkSandbox {
  ID : string; Generation : Z; ResourceVersion : Z; Template : string; PolicyRev : string;
  DriverName : string; State : state; Conditions : list Condition; Labels : strmap;
  Owner : string; Tier : string; Settings : strmap; Restarts : Z; NextRestart : option Z;
  CreatedAt : Z; UpdatedAt : Z
}.

#[export] Instance Sandbox_eq_dec : EqDecision Sandbox.
Proof. solve_decision. Defined.

(** Field updates. *)
Definition with_state (s : Sandbox) (g : Z) (st : state) (now : Z) : Sandbox :=
  match s with MkSandbox i _ rv t p d _ c l o ti se r n ca _ =>
    MkSandbox i g rv t p d st c l o ti se r n ca now end.
Definition with_version (s : Sandbox) (rv : Z) : Sandbox :=
  match s with MkSandbox i g _ t p d st c l o ti se r n ca u =>
    MkSandbox i g rv t p d st c l o ti se r n ca u end.
Definition with_template (s : Sandbox) (g : Z) (t : string) : Sandbox :=
  match s with MkSandbox i _ rv _ p d st c l o ti se r n ca u =>
    MkSandbox i g rv t p d st c l o ti se r n ca u end.
Definition with_conditions (s : Sandbox) (c : list Condition) : Sandbox :=
  match s with MkSandbox i g rv t p d st _ l o ti se r n ca u =>
    MkSandbox i g rv t p d st c l o ti se r n ca u end.
Definition with_labels (s : Sandbox) (l : strmap) : Sandbox :=
  match s with MkSandbox i g rv t p d st c _ o ti se r n ca u =>
    MkSandbox i g rv t p d st c l o ti se r n ca u end.
Definition with_settings (s : Sandbox) (se : strmap) : Sandbox :=
  match s with MkSandbox i g rv t p d st c l o ti _ r n ca u =>
    MkSandbox i g rv t p d st c l o ti se r n ca u end.
Definition with_tier (s : Sandbox) (ti : string) : Sandbox :=
  match s with MkSandbox i g rv t p d st c l o _ se r n ca u =>
    MkSandbox i g rv t p d st c l o ti se r n ca u end.
Definition with_restarts (s : Sandbox) (r : Z) (n : option Z) : Sandbox :=
  match s with MkSandbox i g rv t p d st c l o ti se _ _ ca u =>
    MkSandbox i g rv t p d st c l o ti se r n ca u end.
Definition with_updated (s : Sandbox) (u : Z) : Sandbox :=
  match s with MkSandbox i g rv t p d st c l o ti se r n ca _ =>
    MkSandbox i g rv t p d st c l o ti se r n ca u end.

(** The zero [Sandbox{}]. *)
Definition zero_sandbox : Sandbox :=
  MkSandbox "" 0 0 "" "" "" (StateOther "") [] ∅ "" "" ∅ 0 None 0 0.

(** ** The lifecycle *)

(** The whole lifecycle: a move not listed is refused. *)
Definition transitions (s : state) : option (list state) :=
  match s with
  | StateProvisioning => Some [StateReady; StateError; StateDeleting]
  | StateReady => Some [StateStopping; StateCompleted; StateError; StateDeleting]
  | StateStopping => Some [StateStopped; StateError; StateDeleting]
  | StateStopped => Some [StateStarting; StateDeleting]
  | StateStarting => Some [StateReady; StateError; StateDeleting]
  | StateCompleted => Some [StateStarting; StateDeleting]
  | StateError => Some [StateStarting; StateDeleting]
  | StateDeleting => Some []
  | StateOther _ => None
  end.

Definition Valid (s : state) : bool := opt_some (transitions s).

Definition CanTransition (from to : state) : bool :=
  existsb (λ t, bool_decide (t = to)) (default [] (transitions from)).

Definition AcceptsWork (s : state) : bool := bool_decide (s = StateReady).

Definition Transition (s : Sandbox) (to : state) (now : Z) : result Sandbox :=
  if negb (CanTransition (State s) to) then
    Fail (errorf ErrInvalidTransition (state_text (State s) ++ " to " ++ state_text to))
  else
    let g := if bool_decide (to = StateStarting) then wrap64 (Generation s + 1) else Generation s in
    Ok (with_state s g to now).

Definition CanRestore (s : state) : bool :=
  bool_decide (s = StateStopped) || bool_decide (s = StateCompleted) || bool_decide (s = StateError).

Definition sandbox_Restore (s : Sandbox) (now : Z) : result Sandbox :=
  if negb (CanRestore (State s)) then
    Fail (errorf ErrInvalidTransition
      ("a sandbox in " ++ state_text (State s) ++ " cannot be restored; stop it first"))
  else Transition s StateStarting now.

(** ** Conditions *)

Definition get_Condition (s : Sandbox) (t : string) : option Condition :=
  find_first (λ c, String.eqb (c_Type c) t) (Conditions s).

(** [c] replacing the first condition of its type, or after the last. *)
Fixpoint put_condition (c : Condition) (now : Z) (cs : list Condition) : list Condition :=
  match cs with
  | [] => [{| c_Type := c_Type c; c_Status := c_Status c; c_Reason := c_Reason c;
              c_Message := c_Message c; c_ObservedGeneration := c_ObservedGeneration c;
              c_LastTransition := now |}]
  | old :: cs =>
      if negb (String.eqb (c_Type old) (c_Type c)) then old :: put_condition c now cs
      else {| c_Type := c_Type c; c_Status := c_Status c; c_Reason := c_Reason c;
              c_Message := c_Message c; c_ObservedGeneration := c_ObservedGeneration c;
              c_LastTransition := if bool_decide (c_Status old = c_Status c) then c_LastTransition old else now |}
           :: cs
  end.

Definition SetCondition (s : Sandbox) (c : Condition) (now : Z) : result Sandbox :=
  if String.eqb (c_Type c) "" then Fail (errorf ErrInvalid "condition without a type")
  else match c_Status c with
       | ConditionOther st => Fail (errorf ErrInvalid ("condition status " ++ Quote st))
       | _ =>
           let c := if (c_ObservedGeneration c =? 0)%Z
                    then {| c_Type := c_Type c; c_Status := c_Status c; c_Reason := c_Reason c;
                            c_Message := c_Message c; c_ObservedGeneration := Generation s;
                            c_LastTransition := c_LastTransition c |}
                    else c in
           Ok (with_conditions s (put_condition c now (Conditions s)))
       end.

(** A condition as the callers write it, with the zero observed generation and time. *)
Definition condition (t : string) (st : ConditionStatus) (reason msg : string) : Condition :=
  {| c_Type := t; c_Status := st; c_Reason := reason; c_Message := msg;
     c_ObservedGeneration := 0; c_LastTransition := 0 |}.

(** ** Making a sandbox *)

Definition printable (c : ascii) : bool := in_range "033" "126" c.

Definition validTemplate (t : string) : option error :=
  if String.eqb t "" then Some (errorf ErrInvalid "a sandbox needs a template")
  else if (253 <? String.length t)%nat then
    Some (errorf ErrInvalid "a template name is at most 253 characters")
  else fail_if (negb (str_forall printable t)) (errorf ErrInvalid ("template name " ++ Quote t)).

Definition idPrefix : string := "sbx_".

(** [rnd] is what [rand.Read] of 8 bytes gave. *)
Definition NewID (rnd : result (list ascii)) : result string :=
  let? b := rnd in Ok (idPrefix ++ hex_encode b).

Definition ValidID (id : string) : bool :=
  (String.length id =? String.length idPrefix + 16)%nat
  && String.eqb (str_take (String.length idPrefix) id) idPrefix
  && str_forall (λ c, in_range "0" "9" c || in_range "a" "f" c) (str_drop (String.length idPrefix) id).

Definition NewSandbox (rnd : result (list ascii)) (owner template driverName : string)
    (labels : strmap) (now : Z) : result Sandbox :=
  if negb (ValidName driverName) then Fail (errorf ErrInvalid ("driver name " ++ Quote driverName))
  else match validTemplate template with Some e => Fail e | None =>
  if String.eqb owner "" then Fail (errorf ErrInvalid "a sandbox needs an owner")
  else match ValidateLabels labels false with Some e => Fail e | None =>
  let? id := NewID rnd in
  Ok (MkSandbox id 1 0 template "" driverName StateProvisioning [] labels owner "" ∅ 0 None now now)
  end end.

Definition SetTemplate (s : Sandbox) (t : string) : result Sandbox :=
  match validTemplate t with
  | Some e => Fail e
  | None => Ok (if String.eqb t (Template s) then s else with_template s (wrap64 (Generation s + 1)) t)
  end.

(** ** The restart policy *)

Definition RestartNever : string := "never".
Definition RestartOnFailure : string := "on-failure".
Definition RestartAlways : string := "always".

Definition second : Z := 1000000000.
Definition MaxBackoff : Z := (3600 * second)%Z.
Definition StableAfter : Z := (600 * second)%Z.

Definition RestartDue (policy : string) (s : state) : bool :=
  if String.eqb policy RestartAlways then bool_decide (s = StateError) || bool_decide (s = StateCompleted)
  else if String.eqb policy RestartOnFailure then bool_decide (s = StateError)
  else false.

(** The doubling loop, [n] rounds of it. *)
Fixpoint backoff_loop (n : nat) (d : Z) : Z :=
  match n with
  | 0 => Z.min d MaxBackoff
  | S n => if (MaxBackoff / 2 <=? d)%Z then MaxBackoff else backoff_loop n (wrap64 (d * 2))
  end.

Definition Backoff (base : Z) (n : Z) : Z :=
  backoff_loop (Z.to_nat n) (if (base <=? 0)%Z then second else base).

(** ** Lemmas *)

Lemma CanTransition_spec from to :
  CanTransition from to = true ↔ to ∈ default [] (transitions from).
Proof.
  unfold CanTransition. rewrite existsb_exists. split.
  - intros (t & Ht & ->%bool_decide_eq_true). by apply list_elem_of_In.
  - intros H. exists to. split; [by apply list_elem_of_In | by apply bool_decide_eq_true].
Qed.

Lemma Transition_Ok s to now s' :
  Transition s to now = Ok s' →
  CanTransition (State s) to = true ∧ State s' = to ∧ UpdatedAt s' = now ∧
  Generation s' = (if bool_decide (to = StateStarting) then wrap64 (Generation s + 1) else Generation s) ∧
  s' = with_state s (Generation s') to now.
Proof.
  unfold Transition. destruct (CanTransition (State s) to); simpl; [|done].
  intros; simplify_eq. destruct s; simpl. done.
Qed.

Lemma Transition_refused s to now :
  CanTransition (State s) to = false →
  ∃ msg, Transition s to now = Fail (errorf ErrInvalidTransition msg).
Proof. unfold Transition. intros ->. simpl. eauto. Qed.

(** The types of the conditions. *)
Definition condition_types (cs : list Condition) : list string := c_Type <$> cs.

Lemma put_condition_types c now cs t :
  t ∈ condition_types (put_condition c now cs) ↔ t = c_Type c ∨ t ∈ condition_types cs.
Proof.
  unfold condition_types. induction cs as [|old cs IH]; simpl.
  - by rewrite list_elem_of_singleton, elem_of_nil; split; [left | intros [|[]]].
  - destruct (String.eqb_spec (c_Type old) (c_Type c)); simpl; rewrite !elem_of_cons; [|rewrite IH]; intuition congruence.
Qed.

Lemma put_condition_NoDup c now cs :
  NoDup (condition_types cs) → NoDup (condition_types (put_condition c now cs)).
Proof.
  unfold condition_types. induction cs as [|old cs IH]; simpl.
  - intros _. apply NoDup_singleton.
  - rewrite NoDup_cons. intros [Hn Hd].
    destruct (String.eqb_spec (c_Type old) (c_Type c)); simpl; rewrite NoDup_cons.
    + split; congruence.
    + split; [|by apply IH]. intros [?|?]%put_condition_types; auto.
Qed.

Lemma find_put_condition_other c now cs t :
  t ≠ c_Type c →
  find_first (λ x, String.eqb (c_Type x) t) (put_condition c now cs) =
  find_first (λ x, String.eqb (c_Type x) t) cs.
Proof.
  intros Hne. induction cs as [|old cs IH]; simpl.
  - by rewrite (proj2 (String.eqb_neq _ _)) by congruence.
  - destruct (String.eqb_spec (c_Type old) (c_Type c)); simpl; [|by rewrite IH].
    by rewrite !(proj2 (String.eqb_neq _ _)) by congruence.
Qed.

Lemma find_put_condition_same c now cs :
  ∃ c', find_first (λ x, String.eqb (c_Type x) (c_Type c)) (put_condition c now cs) = Some c' ∧
    c_Type c' = c_Type c ∧ c_Status c' = c_Status c ∧ c_Reason c' = c_Reason c ∧ c_Message c' = c_Message c ∧
    c_LastTransition c' =
      match find_first (λ x, String.eqb (c_Type x) (c_Type c)) cs with
      | Some old => if bool_decide (c_Status old = c_Status c) then c_LastTransition old else now
      | None => now
      end.
Proof.
  induction cs as [|old cs IH]; simpl.
  - rewrite String.eqb_refl. eauto 10.
  - destruct (String.eqb_spec (c_Type old) (c_Type c)) as [e|n]; simpl.
    + rewrite String.eqb_refl. eauto 10.
    + rewrite (proj2 (String.eqb_neq _ _)) by done. done.
Qed.

Lemma SetCondition_Ok s c now s' :
  SetCondition s c now = Ok s' →
  ∃ c', c_Type c' = c_Type c ∧ c_Status c' = c_Status c ∧ c_Reason c' = c_Reason c ∧
    c_Message c' = c_Message c ∧
    s' = with_conditions s (put_condition c' now (Conditions s)).
Proof.
  unfold SetCondition. case_match; [done|]. intros Hs.
  destruct (c_Status c) eqn:Es; simplify_eq; eexists; (split_and!; [..|reflexivity]); case_match; simpl; done.
Qed.

(** The condition set is the one read back. *)
Lemma SetCondition_get s c now s' :
  SetCondition s c now = Ok s' →
  ∃ c', get_Condition s' (c_Type c) = Some c' ∧ c_Status c' = c_Status c ∧
     c_Reason c' = c_Reason c ∧ c_Message c' = c_Message c ∧
     c_LastTransition c' = match get_Condition s (c_Type c) with
                           | Some old => if bool_decide (c_Status old = c_Status c) then c_LastTransition old else now
                           | None => now
                           end.
Proof.
  intros (c' & Ht & Hs & Hr & Hm & ->)%SetCondition_Ok. unfold get_Condition.
  destruct (find_put_condition_same c' now (Conditions s)) as (x & Hf & _ & Hxs & Hxr & Hxm & Hxl).
  assert (Hc : ∀ cs, Conditions (with_conditions s cs) = cs) by (by destruct s).
  rewrite !Hc, <- Ht. exists x. rewrite Hxs, Hxr, Hxm, Hxl, Hs. done.
Qed.

Lemma SetCondition_frame s c now s' :
  SetCondition s c now = Ok s' →
  ID s' = ID s ∧ Generation s' = Generation s ∧ State s' = State s ∧ Labels s' = Labels s ∧
  Settings s' = Settings s ∧ Owner s' = Owner s ∧ Tier s' = Tier s ∧ Restarts s' = Restarts s ∧
  NextRestart s' = NextRestart s ∧ ResourceVersion s' = ResourceVersion s.
Proof. intros (c' & _ & _ & _ & _ & ->)%SetCondition_Ok. by destruct s. Qed.

(** Setting a well-formed condition never fails. *)
Lemma SetCondition_condition s t st reason msg now :
  t ≠ "" → (∀ x, st ≠ ConditionOther x) →
  is_ok (SetCondition s (condition t st reason msg) now) = true.
Proof.
  intros Ht Hst. unfold SetCondition. simpl. rewrite (proj2 (String.eqb_neq _ _)) by done.
  destruct st; try done. by destruct (Hst s0).
Qed.

(** *** The lifecycle as a step relation *)

(** One change the control plane makes to a sandbox object: a transition, a
    template change, or anything that leaves its state and generation alone
    (labels, settings, conditions, restart bookkeeping). *)
Inductive lifecycle_step (s s' : Sandbox) : Prop :=
| step_transition to now : Transition s to now = Ok s' → lifecycle_step s s'
| step_template t : SetTemplate s t = Ok s' → lifecycle_step s s'
| step_other : State s' = State s → Generation s' = Generation s → lifecycle_step s s'.

(** A sandbox whose instance does not run and is not on its way up. *)
Definition down (s : state) : bool := CanRestore s || bool_decide (s = StateDeleting).

Lemma SetTemplate_Ok s t s' :
  SetTemplate s t = Ok s' →
  State s' = State s ∧ (s' = s ∨ Generation s' = wrap64 (Generation s + 1)).
Proof.
  unfold SetTemplate. case_match; [done|]. intros; simplify_eq.
  case_match; [auto|]. destruct s; simpl; auto.
Qed.

Lemma lifecycle_step_generation s s' :
  lifecycle_step s s' → (0 <= Generation s < int64_max)%Z →
  (Generation s <= Generation s' <= Generation s + 1)%Z ∧
  (down (State s) = true → down (State s') = true ∨ (Generation s < Generation s')%Z).
Proof.
  intros Hstep Hg. destruct Hstep as [to now H|t H|Hs Hgen].
  - apply Transition_Ok in H as (Hc & -> & _ & -> & _).
    apply CanTransition_spec in Hc.
    case_bool_decide; subst; rewrite ?wrap64_succ by lia; (split; [lia|]); [intros _; right; lia|].
    unfold down, CanRestore. destruct (State s); simpl in *; try done; intros _; left;
      repeat (apply elem_of_cons in Hc as [->|Hc]; [done|]); by apply elem_of_nil in Hc.
  - apply SetTemplate_Ok in H as [-> [->| ->]]; rewrite ?wrap64_succ by lia; split; [lia|auto|lia|auto].
  - rewrite Hs, Hgen. split; [lia | auto].
Qed.

Lemma lifecycle_run n s s' :
  nsteps lifecycle_step n s s' → (0 <= Generation s)%Z → (Generation s + Z.of_nat n <= int64_max)%Z →
  (Generation s <= Generation s' <= Generation s + Z.of_nat n)%Z ∧
  (down (State s) = true → down (State s') = true ∨ (Generation s < Generation s')%Z).
Proof.
  intros H. induction H as [s|n s s1 s' Hstep _ IH]; intros Hg Hb; [split; [lia | auto]|].
  destruct (lifecycle_step_generation _ _ Hstep) as [Hg1 Hd1]; [lia|].
  destruct IH as [Hg2 Hd2]; [lia..|]. split; [lia|].
  intros Hd. destruct (Hd1 Hd) as [Hd'|?]; [|right; lia].
  destruct (Hd2 Hd'); [auto | right; lia].
Qed.

(** ** Properties *)

(** The lifecycle's shape: a transition is made exactly when the table lists
    it, otherwise the object is refused with [ErrInvalidTransition]; it moves
    to the state asked for and touches nothing but state, update time and, for
    a start, the generation; [Deleting] is final, and every other state can
    move to it; only [Ready] takes work. *)
Theorem Transition_spec (s : Sandbox) (to : state) (now : Z) :
  (CanTransition (State s) to = true →
     Transition s to now = Ok (with_state s
       (if bool_decide (to = StateStarting) then wrap64 (Generation s + 1) else Generation s) to now)) ∧
  (CanTransition (State s) to = false →
     ∃ msg, Transition s to now = Fail (errorf ErrInvalidTransition msg)) ∧
  CanTransition StateDeleting to = false ∧
  CanTransition to StateDeleting = (Valid to && negb (bool_decide (to = StateDeleting))) ∧
  (AcceptsWork to = true ↔ to = StateReady).
Proof.
  split_and!.
  - unfold Transition. by intros ->.
  - apply Transition_refused.
  - done.
  - by destruct to.
  - apply bool_decide_eq_true.
Qed.

Lemma Transition_spec_witness :
  Transition (with_state zero_sandbox 4 StateStopped 0) StateStarting 9 =
    Ok (with_state (with_state zero_sandbox 4 StateStopped 0) 5 StateStarting 9).
Proof. apply (Transition_spec (with_state zero_sandbox 4 StateStopped 0) StateStarting 9). reflexivity. Defined.

(** Nothing bound to one incarnation survives into the next: whatever sequence
    of changes takes a sandbox from a state in which its instance is down
    (stopped, completed, failed or being deleted) to one that accepts work,
    its generation went up on the way. Along any run the generation never goes
    down. *)
Theorem new_incarnation_new_generation (n : nat) (s s' : Sandbox) :
  nsteps lifecycle_step n s s' →
  (0 <= Generation s)%Z → (Generation s + Z.of_nat n <= int64_max)%Z →
  down (State s) = true → AcceptsWork (State s') = true →
  (Generation s < Generation s')%Z.
Proof.
  intros Hrun Hg Hb Hd Hw. destruct (lifecycle_run _ _ _ Hrun Hg Hb) as [_ H].
  destruct (H Hd) as [Hd'|?]; [|done].
  apply bool_decide_eq_true in Hw. rewrite Hw in Hd'. done.
Qed.

Lemma new_incarnation_new_generation_witness :
  let s0 := with_state zero_sandbox 7 StateStopped 0 in
  let s2 := with_state zero_sandbox 8 StateReady 2 in
  (Generation s0 < Generation s2)%Z.
Proof.
  apply (new_incarnation_new_generation 2 (with_state zero_sandbox 7 StateStopped 0) (with_state zero_sandbox 8 StateReady 2));
    [|by vm_compute..].
  apply (nsteps_l _ _ _ (with_state zero_sandbox 8 StateStarting 1)).
  - by apply (step_transition _ _ StateStarting 1).
  - apply nsteps_once. by apply (step_transition _ _ StateReady 2).
Defined.

(** Backoff never overflows: for any base the settings can give, the delay is
    the base doubled [n] times, held to an hour. *)
Theorem Backoff_spec (base n : Z) :
  (0 < base <= int64_max)%Z → (0 <= n)%Z →
  Backoff base n = Z.min (base * 2 ^ n) MaxBackoff.
Proof.
  intros Hb Hn. unfold Backoff. rewrite (proj2 (Z.leb_gt _ _)) by lia.
  rewrite <- (Z2Nat.id n) at 2 by done. generalize (Z.to_nat n) as k. clear Hn n.
  intros k. revert base Hb. induction k as [|k IH]; intros base Hb; cbn [backoff_loop].
  - f_equal. simpl. lia.
  - unfold MaxBackoff, second in *. change (3600 * 1000000000 / 2)%Z with 1800000000000%Z.
    rewrite Nat2Z.inj_succ, Z.pow_succ_r by lia.
    assert (0 < 2 ^ Z.of_nat k)%Z by (apply Z.pow_pos_nonneg; lia).
    destruct (Z.leb_spec 1800000000000 base); [nia|].
    assert (Hw : wrap64 (base * 2) = (base * 2)%Z)
      by (apply wrap64_id; unfold in_int64, int64_min, int64_max in *; lia).
    rewrite Hw, IH by (unfold int64_max in *; lia). f_equal. lia.
Qed.

Lemma Backoff_spec_witness : Backoff (10 * second) 4 = (160 * second)%Z ∧ Backoff (10 * second) 60 = MaxBackoff.
Proof.
  split; [rewrite (Backoff_spec (10 * second) 4) | rewrite (Backoff_spec (10 * second) 60)];
    try reflexivity; unfold second, int64_max; lia.
Defined.

(** [SetCondition] keeps one condition per type: setting a condition makes it
    the one read back under its type, with the time of its status's last
    change (the old time while the status stays the same), leaves every other
    type as it was, and never stores a second condition of a type. *)
Theorem SetCondition_spec (s s' : Sandbox) (c : Condition) (now : Z) :
  SetCondition s c now = Ok s' →
  (∃ c', get_Condition s' (c_Type c) = Some c' ∧ c_Status c' = c_Status c ∧
     c_Reason c' = c_Reason c ∧ c_Message c' = c_Message c ∧
     c_LastTransition c' = match get_Condition s (c_Type c) with
                           | Some old => if bool_decide (c_Status old = c_Status c) then c_LastTransition old else now
                           | None => now
                           end) ∧
  (∀ t, t ≠ c_Type c → get_Condition s' t = get_Condition s t) ∧
  (NoDup (condition_types (Conditions s)) → NoDup (condition_types (Conditions s'))).
Proof.
  intros H. split; [by eapply SetCondition_get|]. apply SetCondition_Ok in H as (c' & Ht & _ & _ & _ & ->).
  unfold get_Condition. assert (Hc : ∀ cs, Conditions (with_conditions s cs) = cs) by (by destruct s). rewrite !Hc, <- Ht. split.
  - intros t Hne. by apply find_put_condition_other.
  - apply put_condition_NoDup.
Qed.

Lemma SetCondition_spec_witness :
  let cond r g t := {| c_Type := "A"; c_Status := ConditionTrue; c_Reason := r; c_Message := "";
                       c_ObservedGeneration := g; c_LastTransition := t |} in
  let s := with_conditions (with_state zero_sandbox 3 StateReady 0) [cond "First" 1%Z 5%Z] in
  let s' := with_conditions (with_state zero_sandbox 3 StateReady 0) [cond "Again" 3%Z 5%Z] in
  SetCondition s (condition "A" ConditionTrue "Again" "") 9 = Ok s' ∧
  ∃ c', get_Condition s' "A" = Some c' ∧ c_LastTransition c' = 5%Z.
Proof.
  intros cond s s'. split; [reflexivity|].
  destruct (SetCondition_spec s s' (condition "A" ConditionTrue "Again" "") 9 eq_refl)
    as [(c' & Hg & _ & _ & _ & Hl) _].
  exists c'. split; [exact Hg | exact Hl].
Defined.
