(* ===== verification/Etag.v ===== *)
(** Entity tags and [If-Match] (controlplane/etag.go). *)

From Stdlib Require Import ZArith NArith Ascii String Lia.
From stdpp Require Import base tactics list gmap strings.
From S2P Require Import Prelude GoStd Errors.

#[local] Open Scope string_scope.

(** ** Definitions *)

Definition ETag (rv : Z) : string := String dquote (Itoa rv ++ String dquote "").

(** One tag of the header: the version it names, or why it is refused. *)
Definition parse_tag (tag : string) : result Z :=
  if HasPrefix tag "W/" then
    Fail (errorf ErrInvalid ("If-Match needs a strong entity tag, not " ++ tag))
  else
    let bad := Fail (errorf ErrInvalid ("If-Match entity tag " ++ Quote tag)) in
    match str_at tag 0, last_byte tag with
    | Some first, Some final =>
        if (String.length tag <? 3)%nat || negb (first =c dquote) || negb (final =c dquote) then bad
        else match ParseInt (str_take (String.length tag - 2) (str_drop 1 tag)) with
             | Some rv => if (rv <? 1)%Z then bad else Ok rv
             | None => bad
             end
    | _, _ => bad
    end.

Fixpoint match_tags (current : Z) (matched : bool) (tags : list string) : result bool :=
  match tags with
  | [] => Ok matched
  | tag :: tags =>
      match parse_tag (TrimSpace tag) with
      | Fail e => Fail e
      | Ok rv => match_tags current (matched || (rv =? current)%Z) tags
      end
  end.

Definition CheckIfMatch (header : string) (current : Z) : option error :=
  let header := TrimSpace header in
  if String.eqb header "" then None
  else if String.eqb header "*" then None
  else match match_tags current false (Split header ",") with
       | Fail e => Some e
       | Ok true => None
       | Ok false => Some (errorf ErrPreconditionFailed ("the sandbox is at " ++ ETag current))
       end.

(** ** Lemmas *)

Lemma app_cons_str c s t : String c s ++ t = String c (s ++ t).
Proof. reflexivity. Qed.

Lemma space_width_plain c s : (bv c < 128)%N → ascii_space c = false → space_width (String c s) = 0.
Proof.
  intros Hc Hs. unfold space_width. rewrite Hs. destruct s as [|b s]; [done|].
  assert (space2 c b = false) as ->.
  { unfold space2. destruct (N.eqb_spec (bv c) 194); [lia | done]. }
  destruct s as [|d s]; [done|].
  assert (space3 c b d = false) as ->; [|done].
  unfold space3. destruct (bv c) as [|p]; [done|].
  do 8 (destruct p as [p|p|]; try done; try lia).
Qed.

Lemma space_width_rev_plain c s : (bv c < 128)%N → ascii_space c = false → space_width_rev (String c s) = 0.
Proof.
  intros Hc Hs. unfold space_width_rev. rewrite Hs. destruct s as [|b s]; [done|].
  assert (space2 b c = false) as ->.
  { unfold space2. destruct (N.eqb_spec (bv c) 133), (N.eqb_spec (bv c) 160); try lia; by rewrite andb_false_r. }
  destruct s as [|d s]; [done|].
  assert (space3 d b c = false) as ->; [|done].
  unfold space3. repeat case_match; try done;
    repeat match goal with
    | |- context [(?x <=? bv c)%N] => destruct (N.leb_spec x (bv c)); try lia
    | |- context [(bv c =? ?x)%N] => destruct (N.eqb_spec (bv c) x); try lia
    end; done.
Qed.

Lemma trim_with_stop width s : width s = 0 → trim_with width 0 s = s.
Proof. destruct s; simpl; [done|]. by intros ->. Qed.

Lemma str_rev_snoc s c : str_rev (s ++ String c "") = String c (str_rev s).
Proof. unfold str_rev. rewrite bytes_app, reverse_app. done. Qed.

Lemma str_rev_involutive s : str_rev (str_rev s) = s.
Proof. unfold str_rev. by rewrite bytes_of_bytes, reverse_involutive, of_bytes_bytes. Qed.

(** A string that starts and ends with plain ASCII bytes is not trimmed. *)
Lemma TrimSpace_plain c s d :
  (bv c < 128)%N → ascii_space c = false → (bv d < 128)%N → ascii_space d = false →
  TrimSpace (String c (s ++ String d "")) = String c (s ++ String d "").
Proof.
  intros. unfold TrimSpace, TrimLeft. rewrite trim_with_stop by by apply space_width_plain.
  unfold TrimRight. rewrite <- app_cons_str, str_rev_snoc.
  rewrite trim_with_stop by by apply space_width_rev_plain.
  rewrite <- str_rev_snoc. apply str_rev_involutive.
Qed.

Lemma Split_absent s sep : (∀ c, c ∈ bytes s → (c =c sep) = false) → Split s sep = [s].
Proof.
  induction s as [|c s IH]; simpl; intros H; [done|].
  rewrite (H c) by by left. rewrite IH; [done|]. intros d Hd. apply H. by right.
Qed.

Lemma digits_go_bytes fuel n acc c :
  c ∈ bytes (digits_go fuel n acc) → c ∈ bytes acc ∨ ∃ d, (d < 10)%N ∧ c = digit_byte d.
Proof.
  revert n acc. induction fuel as [|fuel IH]; intros n acc; simpl; [auto|].
  destruct (N.ltb_spec n 10); simpl.
  - intros [->|?]%elem_of_cons; eauto.
  - intros [Hin|?]%IH; [|auto]. apply elem_of_cons in Hin as [->|?]; [|auto].
    right. eexists. split; [|done]. apply N.mod_lt. lia.
Qed.

Lemma itoaN_bytes n c : c ∈ bytes (itoaN n) → ∃ d, (d < 10)%N ∧ c = digit_byte d.
Proof. intros [Hc|?]%digits_go_bytes; [by apply elem_of_nil in Hc | done]. Qed.

Lemma digit_byte_neq d x : (d < 10)%N → (bv x < 48 ∨ 57 < bv x)%N → (digit_byte d =c x) = false.
Proof.
  intros Hd Hx. apply Ascii.eqb_neq. intros <-. rewrite digit_byte_bv in Hx by done. lia.
Qed.

Lemma last_snoc_str s c : last_byte (s ++ String c "") = Some c.
Proof. unfold last_byte. rewrite bytes_app. simpl. apply last_snoc. Qed.

Lemma length_app_str s t : String.length (s ++ t) = (String.length s + String.length t)%nat.
Proof. induction s; [done|]. rewrite app_cons_str. simpl. by rewrite IHs. Qed.

Lemma str_take_app s t : str_take (String.length s) (s ++ t) = s.
Proof. induction s as [|c s IH]; [by destruct t|]. rewrite app_cons_str. simpl. by rewrite IH. Qed.

(** The tag of a version reads back as that version. *)
Lemma parse_tag_ETag v : (1 <= v <= int64_max)%Z → parse_tag (ETag v) = Ok v.
Proof.
  intros Hv. unfold parse_tag, ETag.
  change (HasPrefix (String dquote (Itoa v ++ String dquote "")) "W/") with false. cbn match.
  change (str_at (String dquote _) 0) with (Some dquote). cbn match.
  rewrite <- app_cons_str, last_snoc_str.
  rewrite length_app_str. cbn [String.length str_drop]. rewrite app_cons_str. cbn [str_drop].
  assert (HI : String.length (Itoa v) ≠ 0).
  { destruct v as [|p|p]; try lia. simpl. destruct (itoaN_head (Npos p)) as (d & r & -> & _). done. }
  rewrite (proj2 (Nat.ltb_ge _ _)) by lia. simpl.
  replace (String.length (Itoa v) + 1 - 1) with (String.length (Itoa v)) by lia.
  rewrite str_take_app, ParseInt_Itoa by (unfold in_int64, int64_min; lia).
  by rewrite (proj2 (Z.ltb_ge _ _)) by lia.
Qed.

Lemma parse_tag_Invalid tag e : parse_tag tag = Fail e → Is e ErrInvalid = true.
Proof.
  unfold parse_tag. destruct (HasPrefix tag "W/"); [by intros [= <-]|].
  destruct (str_at tag 0); [|by intros [= <-]]. destruct (last_byte tag); [|by intros [= <-]].
  destruct (_ || _ || _); [by intros [= <-]|].
  destruct (ParseInt _) as [rv|]; [|by intros [= <-]].
  destruct (rv <? 1)%Z; [by intros [= <-] | done].
Qed.

Lemma ETag_trim v : TrimSpace (ETag v) = ETag v.
Proof. unfold ETag. by apply TrimSpace_plain. Qed.

Lemma ETag_split v : (1 <= v)%Z → Split (ETag v) "," = [ETag v].
Proof.
  intros Hv. apply Split_absent. unfold ETag. intros c. simpl. rewrite bytes_app. simpl.
  rewrite elem_of_cons, elem_of_app, list_elem_of_singleton.
  intros [->|[Hc| ->]]; [done| |done]. destruct v as [|p|p]; try lia.
  apply itoaN_bytes in Hc as (d & Hd & ->). apply digit_byte_neq; [done|]. left. done.
Qed.

(** A header that is one entity tag compares its version. *)
Lemma CheckIfMatch_tag v current :
  (1 <= v <= int64_max)%Z →
  CheckIfMatch (ETag v) current =
    (if (v =? current)%Z then None
     else Some (errorf ErrPreconditionFailed ("the sandbox is at " ++ ETag current))).
Proof.
  intros Hv. unfold CheckIfMatch. rewrite ETag_trim. change (ETag v =? "") with false.
  assert ((ETag v =? "*") = false) as ->.
  { unfold ETag. by apply String.eqb_neq. }
  rewrite ETag_split by lia. cbn [match_tags]. rewrite ETag_trim, parse_tag_ETag by done.
  simpl. by destruct (v =? current)%Z.
Qed.

(** ** Properties *)

(** The [If-Match] round trip: sending back the entity tag of a version is
    accepted exactly when the object is still at that version, and refused
    with [ErrPreconditionFailed] (412) when it is not. A header that is blank
    or [*] always passes. *)
Theorem CheckIfMatch_ETag (v current : Z) :
  (1 <= v <= int64_max)%Z →
  CheckIfMatch (ETag v) current =
    (if (v =? current)%Z then None
     else Some (errorf ErrPreconditionFailed ("the sandbox is at " ++ ETag current))) ∧
  CheckIfMatch "" current = None ∧ CheckIfMatch " * " current = None.
Proof.
  intros Hv. split; [by apply CheckIfMatch_tag|done].
Qed.

Lemma CheckIfMatch_ETag_witness :
  CheckIfMatch (ETag 12) 12 = None ∧
  CheckIfMatch (ETag 12) 13 = Some (errorf ErrPreconditionFailed ("the sandbox is at " ++ ETag 13)).
Proof.
  split; [destruct (CheckIfMatch_ETag 12 12) as [H _] | destruct (CheckIfMatch_ETag 12 13) as [H _]];
    first [exact H | unfold int64_max; lia].
Defined.

(** A weak or malformed tag anywhere in the header refuses the whole header
    with [ErrInvalid], whatever the other tags name: [If-Match] never passes
    on a tag it could not read. *)
Theorem CheckIfMatch_malformed (header : string) (current : Z) (tag : string) (e : error) :
  TrimSpace header ≠ "" → TrimSpace header ≠ "*" →
  tag ∈ Split (TrimSpace header) "," → parse_tag (TrimSpace tag) = Fail e →
  ∃ e', CheckIfMatch header current = Some e' ∧ Is e' ErrInvalid = true.
Proof.
  intros H1 H2 Hin Hbad. unfold CheckIfMatch.
  rewrite (proj2 (String.eqb_neq _ _) H1), (proj2 (String.eqb_neq _ _) H2).
  assert (Htags : ∀ b tags, tag ∈ tags → ∃ e', match_tags current b tags = Fail e' ∧ Is e' ErrInvalid = true).
  { intros b tags. revert b. induction tags as [|t tags IH]; intros b Ht; [by apply elem_of_nil in Ht|].
    simpl. destruct (parse_tag (TrimSpace t)) as [rv|e'] eqn:E.
    - apply elem_of_cons in Ht as [->|Ht]; [congruence | auto].
    - exists e'. split; [done|]. by eapply parse_tag_Invalid. }
  destruct (Htags false _ Hin) as (e' & -> & He'). eauto.
Qed.

Lemma CheckIfMatch_malformed_witness :
  ∃ e', CheckIfMatch (ETag 12 ++ ", W/" ++ ETag 12) 12 = Some e' ∧ Is e' ErrInvalid = true.
Proof.
  eapply (CheckIfMatch_malformed _ 12 (" W/" ++ ETag 12));
    [discriminate | discriminate | vm_compute; right; left; reflexivity | reflexivity].
Defined.
