(* ===== verification/Settings.v ===== *)
(** The settings registry (controlplane/settings.go) and the rule that a change
    may only tighten (controlplane/admission.go, [NoLooser]).

    Each setting ranks its values, a higher rank being tighter. The resolved
    registry holds a global value per key and which keys are ceilings. Reading
    the configuration file into values ([SettingsFromConfig]) is left out: it
    only collects values and ceilings from package config. *)

From Stdlib Require Import ZArith NArith Ascii String Lia.
From stdpp Require Import base tactics list gmap strings.
From S2P Require Import Prelude GoStd Errors Lifecycle.

#[local] Open Scope string_scope.
#[local] Open Scope go_scope.

(** ** Definitions *)

Inductive SettingScope : Set := ScopeGlobal | ScopeSandbox.

#[export] Instance SettingScope_eq_dec : EqDecision SettingScope.
Proof. solve_decision. Defined.

Definition SetExecTimeout : string := "exec.timeout_seconds".
Definition SetExecOutput : string := "exec.output_bytes".
Definition SetRestartPolicy : string := "restart.policy".
Definition SetMaxRestarts : string := "restart.max_restarts".
Definition SetRestartBackoff : string := "restart.backoff_seconds".
Definition SetMinTier : string := "isolation.min_tier".
Definition SetMutationsPerMin : string := "rate.mutations_per_minute".
Definition SetExecPerMin : string := "rate.exec_per_minute".
Definition SetReconcileInterval : string := "reconcile.interval_seconds".
Definition SetCPUs : string := "resources.cpus".
Definition SetMemoryMB : string := "resources.memory_mb".
Definition SetSSHIdle : string := "ssh.idle_timeout_seconds".
Definition SetSSHMaxSession : string := "ssh.max_session_seconds".

(** The pattern [^[0-9]{1,4}(\.[0-9]{1,3})?$]: the digits before the point and
    those after it, none when there is no point. *)
Definition all_digits (lo hi : nat) (s : string) : bool :=
  (lo <=? String.length s)%nat && (String.length s <=? hi)%nat && str_forall (in_range "0" "9") s.

Definition cpus_parts (v : string) : option (string * string) :=
  match Cut v "." with
  | None => if all_digits 1 4 v then Some (v, "") else None
  | Some (w, f) => if all_digits 1 4 w && all_digits 1 3 f then Some (w, f) else None
  end.

(** Thousandths of a CPU. [ParseFloat], times 1000, rounded is the exact
    decimal value for the at most seven digits the pattern admits. *)
Definition MilliCPUs (v : string) : option Z :=
  match cpus_parts v with
  | None => None
  | Some (w, f) =>
      match parse_digits 0 w, parse_digits 0 (str_take 3 (f ++ "000")) with
      | Some w, Some f =>
          let m := (Z.of_N w * 1000 + Z.of_N f)%Z in
          if (10 <=? m)%Z && (m <=? 1024 * 1000)%Z then Some m else None
      | _, _ => None
      end
  end.

(** An unset size: looser than any value. *)
Definition unboundedRank : Z := int64_min.

Record Setting : Type := {
  set_Key : string; set_Scope : SettingScope; set_Config : string; set_Default : string;
  set_Doc : string; set_Strict : bool; set_rank : string → result Z
}.

Definition intRank (lo hi : Z) (lowerTighter : bool) (v : string) : result Z :=
  let bad := Fail (plain ("a whole number from " ++ Itoa lo ++ " to " ++ Itoa hi)) in
  match ParseInt v with
  | None => bad
  | Some n => if (n <? lo)%Z || (hi <? n)%Z then bad else if lowerTighter then Ok (- n)%Z else Ok n
  end.

Definition enumRank (ranks : list (string * Z)) (says : string) (v : string) : result Z :=
  match find_first (λ r, String.eqb (fst r) v) ranks with
  | Some (_, r) => Ok r
  | None => Fail (plain says)
  end.

(** [sandbox.Tier.Strength] (internal/sandbox/sandbox.go). *)
Definition Strength (tier : string) : Z :=
  if String.eqb tier "process" || String.eqb tier "fence" then 1
  else if String.eqb tier "container" then 2
  else if String.eqb tier "vm" then 3
  else 0.

Definition TierMicroVM : string := "microvm".

Definition tierRanks : list (string * Z) :=
  [("none", Strength "none"); ("process", Strength "process"); ("fence", Strength "fence");
   ("container", Strength "container"); ("vm", Strength "vm"); (TierMicroVM, (Strength "vm" + 1)%Z)].

Definition tier_rank (t : string) : option Z := snd <$> find_first (λ r, String.eqb (fst r) t) tierRanks.

(** [tier] is at least as strong as [min]: an unknown tier meets nothing, an
    empty minimum is met by anything. *)
Definition TierMeets (tier min : string) : bool :=
  if String.eqb min "" then true
  else match tier_rank tier, tier_rank min with
       | Some have, Some need => (need <=? have)%Z
       | _, _ => false
       end.

Definition Registry : list Setting := [
  {| set_Key := SetExecTimeout; set_Scope := ScopeSandbox; set_Config := "control_plane.exec_timeout_seconds";
     set_Default := "600"; set_Doc := "longest one :exec may run"; set_Strict := false;
     set_rank := intRank 1 86400 true |};
  {| set_Key := SetExecOutput; set_Scope := ScopeSandbox; set_Config := "control_plane.exec_output_bytes";
     set_Default := "16777216"; set_Doc := "most output one :exec may write, stdout and stderr together";
     set_Strict := false; set_rank := intRank 1024 1073741824 true |};
  {| set_Key := SetRestartPolicy; set_Scope := ScopeSandbox; set_Config := "control_plane.restart_policy";
     set_Default := RestartNever;
     set_Doc := "when a sandbox that ended is started again: never, on-failure or always"; set_Strict := false;
     set_rank := enumRank [(RestartAlways, 0%Z); (RestartOnFailure, 1%Z); (RestartNever, 2%Z)]
                   "never, on-failure or always" |};
  {| set_Key := SetMaxRestarts; set_Scope := ScopeSandbox; set_Config := "control_plane.max_restarts";
     set_Default := "5"; set_Doc := "restarts the policy makes before it gives up"; set_Strict := false;
     set_rank := intRank 0 1000 true |};
  {| set_Key := SetRestartBackoff; set_Scope := ScopeSandbox; set_Config := "control_plane.restart_backoff_seconds";
     set_Default := "10"; set_Doc := "delay before the first restart; each next one doubles, up to an hour";
     set_Strict := false; set_rank := intRank 1 3600 false |};
  {| set_Key := SetMinTier; set_Scope := ScopeSandbox; set_Config := "sandbox.min_tier";
     set_Default := ""; set_Doc := "weakest isolation a sandbox may run under"; set_Strict := true;
     set_rank := λ v, if String.eqb v "" then Ok 0%Z
                      else enumRank tierRanks "none, process, fence, container, vm or microvm" v |};
  {| set_Key := SetCPUs; set_Scope := ScopeSandbox; set_Config := "control_plane.sandbox_cpus";
     set_Default := ""; set_Doc := "CPUs a sandbox may use, such as 0.5 or 2; unset leaves it to the driver";
     set_Strict := false;
     set_rank := λ v, if String.eqb v "" then Ok unboundedRank
                      else match MilliCPUs v with
                           | Some m => Ok (- m)%Z
                           | None => Fail (plain "a number of CPUs from 0.01 to 1024, at most three decimals")
                           end |};
  {| set_Key := SetMemoryMB; set_Scope := ScopeSandbox; set_Config := "control_plane.sandbox_memory_mb";
     set_Default := ""; set_Doc := "memory a sandbox may use, in MiB; unset leaves it to the driver";
     set_Strict := false;
     set_rank := λ v, if String.eqb v "" then Ok unboundedRank else intRank 16 4194304 true v |};
  {| set_Key := SetSSHIdle; set_Scope := ScopeSandbox; set_Config := "control_plane.ssh.idle_timeout_seconds";
     set_Default := "3600"; set_Doc := "an SSH connection with no traffic for this long is closed";
     set_Strict := false; set_rank := intRank 1 604800 true |};
  {| set_Key := SetSSHMaxSession; set_Scope := ScopeSandbox; set_Config := "control_plane.ssh.max_session_seconds";
     set_Default := "43200";
     set_Doc := "longest an SSH connection stays open; its commands are bounded by this, not exec.timeout_seconds";
     set_Strict := false; set_rank := intRank 1 604800 true |};
  {| set_Key := SetMutationsPerMin; set_Scope := ScopeGlobal; set_Config := "control_plane.mutations_per_minute";
     set_Default := "120"; set_Doc := "changes to sandboxes one caller may make a minute"; set_Strict := false;
     set_rank := intRank 1 100000 true |};
  {| set_Key := SetExecPerMin; set_Scope := ScopeGlobal; set_Config := "control_plane.exec_per_minute";
     set_Default := "60"; set_Doc := ":exec calls one caller may make a minute"; set_Strict := false;
     set_rank := intRank 1 100000 true |};
  {| set_Key := SetReconcileInterval; set_Scope := ScopeGlobal; set_Config := "control_plane.reconcile_seconds";
     set_Default := "10"; set_Doc := "how often every sandbox is checked against its driver"; set_Strict := false;
     set_rank := intRank 1 3600 true |}
].

Definition lookup_setting (key : string) : option Setting :=
  find_first (λ s, String.eqb (set_Key s) key) Registry.

(** The registry resolved against one configuration. *)
Record SettingsT : Type := { sg_global : strmap; sg_ceiling : gmap string bool; sg_source : strmap }.

(** [m\[k\]] on a map to bool. *)
Definition bool_get (m : gmap string bool) (k : string) : bool := default false (m !! k).

(** One round of the loop over the registry. *)
Definition resolve (values : strmap) (ceilings : gmap string bool) (st : SettingsT) (def : Setting) : result SettingsT :=
  let k := set_Key def in
  let v := map_get values k in
  let from_default := String.eqb v "" in
  let v := if from_default then set_Default def else v in
  let source := if from_default then "default" else "configured" in
  match set_rank def v with
  | Fail e => Fail (errwrap ErrInvalid (k ++ " (" ++ set_Config def ++ ") is " ++ Quote v ++ "; use ") e)
  | Ok _ =>
      let capped := bool_get ceilings k in
      let strict := set_Strict def && opt_some (values !! k) && str_nonempty v in
      Ok {| sg_global := <[k := v]> (sg_global st);
            sg_ceiling := if capped || strict then <[k := true]> (sg_ceiling st) else sg_ceiling st;
            sg_source := <[k := if capped then "managed" else source]> (sg_source st) |}
  end.

Fixpoint resolve_all (values : strmap) (ceilings : gmap string bool) (st : SettingsT) (defs : list Setting) : result SettingsT :=
  match defs with
  | [] => Ok st
  | def :: defs => let? st := resolve values ceilings st def in resolve_all values ceilings st defs
  end.

Definition NewSettings (values : strmap) (ceilings : gmap string bool) : result SettingsT :=
  match first_error (λ kv, fail_if (negb (opt_some (lookup_setting (fst kv))))
          (errorf ErrInvalid ("unknown setting " ++ Quote (fst kv)))) (map_to_list values) with
  | Some e => Fail e
  | None => resolve_all values ceilings {| sg_global := ∅; sg_ceiling := ∅; sg_source := ∅ |} Registry
  end.

(** The rank of a value, 0 where Go ignores the error. *)
Definition rank_or_0 (def : Setting) (v : string) : Z :=
  match set_rank def v with Ok r => r | Fail _ => 0%Z end.

(** The checks of one entry of [Check]. *)
Definition check_setting (st : SettingsT) (kv : string * string) : option error :=
  let '(k, v) := kv in
  match lookup_setting k with
  | None => Some (errorf ErrInvalid ("unknown setting " ++ Quote k))
  | Some def =>
      if negb (bool_decide (set_Scope def = ScopeSandbox)) then
        Some (errorf ErrInvalid (k ++ " is set for the whole server, not per sandbox"))
      else match set_rank def v with
           | Fail e => Some (errwrap ErrInvalid (k ++ " is " ++ Quote v ++ "; use ") e)
           | Ok r =>
               let g := map_get (sg_global st) k in
               fail_if (bool_get (sg_ceiling st) k && (r <? rank_or_0 def g)%Z)
                 (errorf ErrInvalid (k ++ "=" ++ Quote v ++ " is looser than this server allows (" ++ Quote g ++ ")"))
           end
  end.

Definition CheckSettings (st : SettingsT) (sb : strmap) : option error :=
  first_error (check_setting st) (map_to_list sb).

(** The value in force for one setting. *)
Definition in_force (st : SettingsT) (sb : strmap) (def : Setting) : string :=
  let v := map_get (sg_global st) (set_Key def) in
  match sb !! set_Key def with
  | Some own =>
      if bool_decide (set_Scope def = ScopeSandbox) then
        match set_rank def own with
        | Ok r => if negb (bool_get (sg_ceiling st) (set_Key def)) || (rank_or_0 def v <=? r)%Z then own else v
        | Fail _ => v
        end
      else v
  | None => v
  end.

(** The settings in force for a sandbox with [sb] set. *)
Definition For (st : SettingsT) (sb : strmap) : strmap :=
  foldl (λ out def, <[set_Key def := in_force st sb def]> out) ∅ Registry.

Definition Int (v : strmap) (key : string) : Z := ParseInt_value (map_get v key).

Definition Seconds (v : strmap) (key : string) : Z := wrap64 (Int v key * second).

Record SettingInfo : Type := {
  si_Key : string; si_Scope : SettingScope; si_Config : string; si_Value : string;
  si_Source : string; si_Ceiling : bool; si_Doc : string
}.

Definition settings_List (st : SettingsT) : list SettingInfo :=
  (λ def, {| si_Key := set_Key def; si_Scope := set_Scope def; si_Config := set_Config def;
             si_Value := map_get (sg_global st) (set_Key def); si_Source := map_get (sg_source st) (set_Key def);
             si_Ceiling := bool_get (sg_ceiling st) (set_Key def); si_Doc := set_Doc def |}) <$> Registry.

(** Refuses [after] when a setting it puts in force for a sandbox is looser
    than what [before] put in force. *)
Definition no_looser_key (was now : strmap) (k : string) : option error :=
  match lookup_setting k with
  | None => None
  | Some def =>
      if negb (bool_decide (set_Scope def = ScopeSandbox)) then None
      else
        let bad := Some (errorf ErrInvalid
          (k ++ "=" ++ Quote (map_get now k) ++ " is looser than " ++ Quote (map_get was k))) in
        match set_rank def (map_get was k), set_rank def (map_get now k) with
        | _, Fail _ => bad
        | Ok rb, Ok ra => if (ra <? rb)%Z then bad else None
        | Fail _, Ok _ => None
        end
  end.

Definition NoLooser (st : SettingsT) (before after : strmap) : option error :=
  let was := For st before in
  let now := For st after in
  first_error (no_looser_key was now) (sorted_keys now).

(** ** Lemmas *)

Lemma Registry_keys_NoDup : NoDup (set_Key <$> Registry).
Proof. apply (bool_decide_unpack _). vm_compute. done. Qed.

Lemma lookup_setting_Some k def : lookup_setting k = Some def → def ∈ Registry ∧ set_Key def = k.
Proof. intros [Hin Hk]%find_first_Some. apply String.eqb_eq in Hk. done. Qed.

Lemma find_first_keys defs def :
  NoDup (set_Key <$> defs) → def ∈ defs →
  find_first (λ s, String.eqb (set_Key s) (set_Key def)) defs = Some def.
Proof.
  induction defs as [|d defs IH]; simpl; [intros _ H; by apply elem_of_nil in H|].
  intros [Hn Hd]%NoDup_cons [->|Hin]%elem_of_cons.
  - by rewrite String.eqb_refl.
  - destruct (String.eqb_spec (set_Key d) (set_Key def)) as [e|]; [|auto].
    exfalso. apply Hn. rewrite e. by apply list_elem_of_fmap_2.
Qed.

Lemma lookup_setting_elem def : def ∈ Registry → lookup_setting (set_Key def) = Some def.
Proof. apply find_first_keys, Registry_keys_NoDup. Qed.

Lemma foldl_insert_lookup (f : Setting → string) defs (m : strmap) k :
  NoDup (set_Key <$> defs) →
  foldl (λ out def, <[set_Key def := f def]> out) m defs !! k =
    match find_first (λ s, String.eqb (set_Key s) k) defs with
    | Some def => Some (f def)
    | None => m !! k
    end.
Proof.
  revert m. induction defs as [|d defs IH]; intros m; simpl; [done|].
  intros [Hn Hd]%NoDup_cons. rewrite IH by done.
  destruct (String.eqb_spec (set_Key d) k) as [e|ne].
  - destruct (find_first _ defs) as [x|] eqn:E.
    + apply find_first_Some in E as [Hx Hk%String.eqb_eq].
      exfalso. apply Hn. rewrite e, <- Hk. by apply list_elem_of_fmap_2.
    + rewrite e. by rewrite lookup_insert_eq.
  - case_match; [done|]. by rewrite lookup_insert_ne.
Qed.

Lemma For_lookup st sb k : For st sb !! k = in_force st sb <$> lookup_setting k.
Proof.
  unfold For. rewrite foldl_insert_lookup by apply Registry_keys_NoDup.
  unfold lookup_setting. by destruct (find_first _ _).
Qed.

Lemma For_get st sb def : def ∈ Registry → map_get (For st sb) (set_Key def) = in_force st sb def.
Proof. intros H. unfold map_get. by rewrite For_lookup, lookup_setting_elem. Qed.

(** *** Resolved settings *)

(** Every setting has a global value it takes. *)
Definition settings_wf (st : SettingsT) : Prop :=
  ∀ def, def ∈ Registry → is_ok (set_rank def (map_get (sg_global st) (set_Key def))) = true.

Lemma resolve_all_global values ceilings defs st st' :
  NoDup (set_Key <$> defs) → resolve_all values ceilings st defs = Ok st' →
  (∀ def, def ∈ defs → is_ok (set_rank def (map_get (sg_global st') (set_Key def))) = true) ∧
  (∀ k, k ∉ set_Key <$> defs → sg_global st' !! k = sg_global st !! k).
Proof.
  revert st. induction defs as [|d defs IH]; intros st; simpl.
  { intros _ [= ->]. split; [intros def H; by apply elem_of_nil in H | done]. }
  intros [Hn Hd]%NoDup_cons. destruct (resolve values ceilings st d) as [st1|] eqn:E; [|done].
  intros [H1 H2]%IH; [|done].
  unfold resolve in E. destruct (set_rank d _) eqn:Er in E; simplify_eq.
  split.
  - intros def [->|Hin]%elem_of_cons; [|by apply H1].
    unfold map_get. rewrite H2 by done. simpl. rewrite lookup_insert_eq. simpl. by rewrite Er.
  - intros k Hk. rewrite not_elem_of_cons in Hk. destruct Hk as [Hk Hk'].
    rewrite H2 by done. simpl. by rewrite lookup_insert_ne.
Qed.

Lemma NewSettings_wf values ceilings st : NewSettings values ceilings = Ok st → settings_wf st.
Proof.
  unfold NewSettings. case_match; [done|]. intros [H' _]%resolve_all_global; [done|].
  apply Registry_keys_NoDup.
Qed.

Lemma in_force_ok st sb def :
  settings_wf st → def ∈ Registry → is_ok (set_rank def (in_force st sb def)) = true.
Proof.
  intros Hwf Hin. specialize (Hwf def Hin). unfold in_force.
  destruct (sb !! set_Key def) as [own|]; [|done].
  case_bool_decide; [|done]. destruct (set_rank def own) eqn:E; [|done].
  destruct (_ || _); [by rewrite E | done].
Qed.

Lemma in_force_ceiling st sb def :
  settings_wf st → def ∈ Registry → bool_get (sg_ceiling st) (set_Key def) = true →
  (rank_or_0 def (map_get (sg_global st) (set_Key def)) <= rank_or_0 def (in_force st sb def))%Z.
Proof.
  intros Hwf Hin Hc. unfold in_force. destruct (sb !! set_Key def) as [own|]; [|done].
  case_bool_decide; [|done]. destruct (set_rank def own) eqn:E; [|done].
  rewrite Hc. simpl. case_match; [|done].
  unfold rank_or_0 at 2. rewrite E. by apply Z.leb_le.
Qed.

(** What [NoLooser] accepts, for well-formed settings. *)
Definition tighter (st : SettingsT) (before after : strmap) : Prop :=
  ∀ def, def ∈ Registry → set_Scope def = ScopeSandbox →
    (rank_or_0 def (in_force st before def) <= rank_or_0 def (in_force st after def))%Z.

Lemma NoLooser_None st before after :
  settings_wf st → NoLooser st before after = None ↔ tighter st before after.
Proof.
  intros Hwf. unfold NoLooser. rewrite first_error_None.
  assert (Hkey : ∀ def, def ∈ Registry → set_Scope def = ScopeSandbox →
            no_looser_key (For st before) (For st after) (set_Key def) = None ↔
            (rank_or_0 def (in_force st before def) <= rank_or_0 def (in_force st after def))%Z).
  { intros def Hin Hs. unfold no_looser_key. rewrite lookup_setting_elem by done.
    rewrite bool_decide_true by done. simpl. rewrite !For_get by done.
    pose proof (in_force_ok st before def Hwf Hin) as Hb.
    pose proof (in_force_ok st after def Hwf Hin) as Ha.
    unfold rank_or_0. destruct (set_rank def (in_force st before def)), (set_rank def (in_force st after def)); try done.
    destruct (Z.ltb_spec a0 a); split; try done; lia. }
  split.
  - intros H def Hin Hs. apply Hkey; [done..|]. apply H, elem_of_sorted_keys.
    rewrite For_lookup, lookup_setting_elem by done. simpl. eauto.
  - intros H k _. destruct (lookup_setting k) as [def|] eqn:E; [|by unfold no_looser_key; rewrite E].
    apply lookup_setting_Some in E as [Hin <-].
    destruct (decide (set_Scope def = ScopeSandbox)); [by apply Hkey, H|].
    unfold no_looser_key. rewrite lookup_setting_elem, bool_decide_false by done. done.
Qed.

Lemma CheckSettings_None st sb :
  CheckSettings st sb = None ↔ ∀ k v, sb !! k = Some v → check_setting st (k, v) = None.
Proof. apply first_error_map_None. Qed.

Lemma tier_rank_bound t r : tier_rank t = Some r → (r <= 4)%Z.
Proof.
  unfold tier_rank. rewrite fmap_Some. intros ([n x] & [Hin _]%find_first_Some & ->).
  change tierRanks with [("none", 0%Z); ("process", 1%Z); ("fence", 1%Z); ("container", 2%Z); ("vm", 3%Z); ("microvm", 4%Z)] in Hin.
  repeat (apply elem_of_cons in Hin as [[= _ ->]|Hin]; [done|]). by apply elem_of_nil in Hin.
Qed.

#[export] Hint Resolve NewSettings_wf in_force_ok in_force_ceiling : go.

(** ** Properties *)

(** Ceilings hold whatever a sandbox has stored. For any resolved registry and
    any per-sandbox settings, including ones stored before a ceiling was
    tightened, every setting in force is a value the setting takes, and where
    the key is a ceiling it is at least as tight as the server's value. *)
Theorem For_respects_ceilings (values : strmap) (ceilings : gmap string bool) (st : SettingsT) (sb : strmap) (def : Setting) :
  NewSettings values ceilings = Ok st → def ∈ Registry →
  ∃ v r, For st sb !! set_Key def = Some v ∧ set_rank def v = Ok r ∧
    (bool_get (sg_ceiling st) (set_Key def) = true →
       (rank_or_0 def (map_get (sg_global st) (set_Key def)) <= r)%Z).
Proof.
  intros Hst%NewSettings_wf Hin. exists (in_force st sb def).
  rewrite For_lookup, lookup_setting_elem by done. simpl.
  pose proof (in_force_ok st sb def Hst Hin) as Hok.
  pose proof (in_force_ceiling st sb def Hst Hin) as Hc. unfold rank_or_0 at 2 in Hc.
  destruct (set_rank def (in_force st sb def)) as [r|]; [|done]. eauto.
Qed.

(** A server capped at a container, asked for a bare process. *)
Definition capped_settings : SettingsT :=
  match NewSettings {[SetMinTier := "container"]} ∅ with
  | Ok st => st
  | Fail _ => {| sg_global := ∅; sg_ceiling := ∅; sg_source := ∅ |}
  end.

Lemma For_respects_ceilings_witness :
  ∃ def, lookup_setting SetMinTier = Some def ∧
  For capped_settings {[SetMinTier := "process"]} !! SetMinTier = Some "container" ∧
  ∃ v r, For capped_settings {[SetMinTier := "process"]} !! set_Key def = Some v ∧ set_rank def v = Ok r ∧
    (bool_get (sg_ceiling capped_settings) (set_Key def) = true →
       (rank_or_0 def (map_get (sg_global capped_settings) (set_Key def)) <= r)%Z).
Proof.
  eexists. split; [reflexivity|]. split; [vm_compute; reflexivity|].
  apply (For_respects_ceilings {[SetMinTier := "container"]} ∅ capped_settings).
  - vm_compute. reflexivity.
  - unfold Registry. do 5 right. left.
Defined.

(** A sandbox gets what it was allowed to set: settings [Check] accepts are,
    key by key, the settings in force, and none of them is looser than a
    ceiling. *)
Theorem Check_accepts_in_force (st : SettingsT) (sb : strmap) (k v : string) :
  CheckSettings st sb = None → sb !! k = Some v →
  For st sb !! k = Some v ∧
  ∃ def r, lookup_setting k = Some def ∧ set_Scope def = ScopeSandbox ∧ set_rank def v = Ok r ∧
    (bool_get (sg_ceiling st) k = true → (rank_or_0 def (map_get (sg_global st) k) <= r)%Z).
Proof.
  rewrite CheckSettings_None. intros Hc Hk. specialize (Hc k v Hk). unfold check_setting in Hc.
  rewrite For_lookup. destruct (lookup_setting k) as [def|] eqn:El; [|done].
  apply lookup_setting_Some in El as [Hin <-].
  case_bool_decide as Hs; [|done]. simpl in Hc. destruct (set_rank def v) as [r|] eqn:Er; [|done].
  rewrite fail_if_None in Hc. simpl. unfold in_force. rewrite Hk, bool_decide_true, Er by done.
  destruct (bool_get (sg_ceiling st) (set_Key def)) eqn:Ec; simpl in *.
  - apply Z.ltb_ge in Hc. rewrite (proj2 (Z.leb_le _ _)) by done. eauto 10.
  - split; [done|]. exists def, r. split_and!; done.
Qed.

Lemma Check_accepts_in_force_witness :
  For capped_settings {[SetMinTier := "vm"]} !! SetMinTier = Some "vm" ∧
  ∃ def r, lookup_setting SetMinTier = Some def ∧ set_Scope def = ScopeSandbox ∧ set_rank def "vm" = Ok r ∧
    (bool_get (sg_ceiling capped_settings) SetMinTier = true →
       (rank_or_0 def (map_get (sg_global capped_settings) SetMinTier) <= r)%Z).
Proof.
  apply (Check_accepts_in_force capped_settings {[SetMinTier := "vm"]} SetMinTier "vm");
    vm_compute; reflexivity.
Defined.

(** [NoLooser] is the tightening order itself: over resolved settings it
    accepts exactly the changes under which every sandbox setting in force
    ranks at least as tight as before. So it is reflexive and transitive: a
    chain of accepted changes never ends up looser than where it began. *)
Theorem NoLooser_is_tightening (values : strmap) (ceilings : gmap string bool) (st : SettingsT) (a b c : strmap) :
  NewSettings values ceilings = Ok st →
  (NoLooser st a b = None ↔ tighter st a b) ∧
  NoLooser st a a = None ∧
  (NoLooser st a b = None → NoLooser st b c = None → NoLooser st a c = None).
Proof.
  intros Hst%NewSettings_wf. rewrite !NoLooser_None by done. split_and!.
  - done.
  - intros def _ _. done.
  - intros Hab Hbc def Hin Hs. etransitivity; [by apply Hab | by apply Hbc].
Qed.

Lemma NoLooser_is_tightening_witness :
  NoLooser capped_settings {[SetExecTimeout := "60"]} {[SetExecTimeout := "30"]} = None ∧
  NoLooser capped_settings {[SetExecTimeout := "60"]} {[SetExecTimeout := "15"]} = None ∧
  NoLooser capped_settings {[SetExecTimeout := "60"]} {[SetExecTimeout := "61"]} ≠ None.
Proof.
  split; [vm_compute; reflexivity|]. split; [|vm_compute; discriminate].
  apply (NoLooser_is_tightening {[SetMinTier := "container"]} ∅ capped_settings
           {[SetExecTimeout := "60"]} {[SetExecTimeout := "30"]} {[SetExecTimeout := "15"]});
    vm_compute; reflexivity.
Defined.

(** Meeting an isolation tier is an order: an instance that meets a minimum
    meets every minimum that one meets, an unknown tier meets no minimum, and
    nothing known is stronger than the microvm tier. *)
Theorem TierMeets_order (t m1 m2 : string) :
  m1 ≠ "" →
  (TierMeets t m1 = true → TierMeets m1 m2 = true → TierMeets t m2 = true) ∧
  (tier_rank t = None → TierMeets t m1 = false) ∧
  (tier_rank t ≠ None → TierMeets TierMicroVM t = true).
Proof.
  intros Hm1. unfold TierMeets. rewrite (proj2 (String.eqb_neq m1 "") Hm1). split_and!.
  - destruct (String.eqb m2 ""); [done|].
    destruct (tier_rank t), (tier_rank m1), (tier_rank m2); try done.
    rewrite !Z.leb_le. lia.
  - by intros ->.
  - intros Ht. destruct (String.eqb t ""); [done|].
    change (tier_rank TierMicroVM) with (Some 4%Z).
    destruct (tier_rank t) as [r|] eqn:E; [|done].
    apply Z.leb_le. by eapply tier_rank_bound.
Qed.

Lemma TierMeets_order_witness : TierMeets "vm" "process" = true.
Proof.
  destruct (TierMeets_order "vm" "container" "process") as (H & _ & _); [discriminate|].
  apply H; reflexivity.
Defined.
