(* ===== verification/Store.v ===== *)
(** The store's contract (controlplane/store.go): list options, the records a
    store keeps, the operations every store has, and the laws the control
    plane relies on. The laws describe a store as a versioned map: what is in
    it ([view]) and the highest resource version it ever assigned ([top]).

    [Store] and [TemplateStore] are the interfaces; file Memory implements
    them and discharges the laws. *)

From Stdlib Require Import ZArith NArith Ascii String Lia.
From stdpp Require Import base tactics list gmap strings relations.
From S2P Require Import Prelude GoStd Errors Labels Driver Lifecycle.

#[local] Open Scope string_scope.
#[local] Open Scope go_scope.

(** ** Data *)

Record ListOptions : Type := {
  lo_Selector : Selector; lo_State : state; lo_Owner : string; lo_Labels : strmap;
  lo_Limit : Z; lo_After : string
}.

Definition no_state : state := StateOther "".

Definition DefaultLimit : Z := 100.
Definition MaxLimit : Z := 1000.

Definition PageSize (limit : Z) : Z :=
  if (limit <=? 0)%Z then DefaultLimit else if (MaxLimit <? limit)%Z then MaxLimit else limit.

(** [o.Matches(s)]: the filters, not the paging. *)
Definition options_Matches (o : ListOptions) (s : Sandbox) : bool :=
  (bool_decide (lo_State o = no_state) || bool_decide (State s = lo_State o))
  && (String.eqb (lo_Owner o) "" || String.eqb (Owner s) (lo_Owner o))
  && (bool_decide (size (lo_Labels o) = 0) || scoped (lo_Labels o) (Labels s))
  && selector_Matches (lo_Selector o) (Labels s).

Inductive IdemState : Set := IdemPending | IdemDone.

#[export] Instance IdemState_eq_dec : EqDecision IdemState.
Proof. solve_decision. Defined.

Record IdemRecord : Type := MkIdem {
  ir_Scope : string; ir_Key : string; ir_RequestHash : string; ir_State : IdemState;
  ir_Status : Z; ir_Body : string; ir_ExpiresAt : Z; ir_Token : string
}.

(** One mutation as the record keeps it (controlplane/audit.go). *)
Record AuditEvent : Type := MkEvent {
  ev_Seq : Z; ev_At : Z; ev_Principal : string; ev_Action : string; ev_SandboxID : string;
  ev_Generation : Z; ev_Outcome : string; ev_Code : string; ev_Detail : strmap
}.

Definition OutcomeRequested : string := "requested".
Definition OutcomeOK : string := "ok".
Definition OutcomeFailed : string := "failed".
Definition SystemPrincipal : string := "system:reconciler".

(** A named set of defaults (controlplane/template.go). *)
Record TemplateT : Type := MkTemplate {
  tp_Name : string; tp_Description : string; tp_Driver : string; tp_Labels : strmap;
  tp_Settings : strmap; tp_Owner : string; tp_ResourceVersion : Z; tp_CreatedAt : Z
}.

Record TemplateListOptions : Type := { to_Selector : Selector; to_Limit : Z; to_After : string }.

(** What never changes after create; every store applies it to an update. *)
Definition CheckImmutable (cur next : Sandbox) : option error :=
  if negb (String.eqb (Owner next) (Owner cur)) then Some (errorf ErrInvalid "owner cannot change")
  else if negb (String.eqb (DriverName next) (DriverName cur)) then Some (errorf ErrInvalid "driver cannot change")
  else if negb (CreatedAt next =? CreatedAt cur)%Z then Some (errorf ErrInvalid "created_at cannot change")
  else if (Generation next <? Generation cur)%Z then Some (errorf ErrInvalid "generation cannot go down")
  else None.

(** ** The interfaces *)

Class TemplateStore (S : Type) : Type := {
  ts_Create : TemplateT → M S (result TemplateT);
  ts_Get : string → M S (result TemplateT);
  ts_List : TemplateListOptions → M S (result (list TemplateT * string));
  ts_Delete : string → Z → M S (option error)
}.

Class Store (S : Type) : Type := {
  st_Create : Sandbox → M S (result Sandbox);
  st_Get : string → M S (result Sandbox);
  st_List : ListOptions → M S (result (list Sandbox * string));
  st_Update : Sandbox → Z → M S (result Sandbox);
  st_Delete : string → Z → M S (option error);
  (* the idempotency records *)
  st_Claim : IdemRecord → Z → M S (result (IdemRecord * bool));
  st_Renew : string → string → string → Z → M S (option error);
  st_Complete : string → string → string → Z → string → Z → M S (option error);
  st_Release : string → string → string → M S (option error);
  (* [Some] when the store also keeps templates *)
  st_templates : option (TemplateStore S)
}.

(** What another client of the store may do to it: one of its operations. *)
Inductive store_step {S} `{!Store S} (s : S) : S → Prop :=
| by_Create sb : store_step s (st_Create sb s).2
| by_Get id : store_step s (st_Get id s).2
| by_List o : store_step s (st_List o s).2
| by_Update sb v : store_step s (st_Update sb v s).2
| by_Delete id v : store_step s (st_Delete id v s).2
| by_Claim r now : store_step s (st_Claim r now s).2
| by_Renew a b c e : store_step s (st_Renew a b c e s).2
| by_Complete a b c n t e : store_step s (st_Complete a b c n t e s).2
| by_Release a b c : store_step s (st_Release a b c s).2
| by_template ts t : st_templates = Some ts → store_step s (ts_Create t s).2
| by_template_Get ts n : st_templates = Some ts → store_step s (ts_Get n s).2
| by_template_List ts o : st_templates = Some ts → store_step s (ts_List o s).2
| by_template_Delete ts n v : st_templates = Some ts → store_step s (ts_Delete n v s).2.

(** The laws. [st_ok] is the store's own invariant; a step is counted against
    the room its version counter has left, since the counter is an int64. *)
Class StoreLaws (S : Type) `{!Store S} : Type := {
  st_ok : S → Prop;
  view : S → gmap string Sandbox;
  top : S → Z;
  view_id s id sb : st_ok s → view s !! id = Some sb → ID sb = id;
  view_valid s id sb : st_ok s → view s !! id = Some sb → ValidID id = true ∧ Valid (State sb) = true;
  view_top s id sb : st_ok s → view s !! id = Some sb → (1 <= ResourceVersion sb <= top s)%Z;
  step_ok s s' : st_ok s → (top s < int64_max)%Z → store_step s s' → st_ok s';
  step_top s s' : st_ok s → (top s < int64_max)%Z → store_step s s' → (top s <= top s' <= top s + 1)%Z;
  (* an entry a step leaves in place is the entry that was there, unless it
     was written, and then its version is new *)
  step_entry s s' id sb : st_ok s → (top s < int64_max)%Z → store_step s s' →
    view s' !! id = Some sb → view s !! id = Some sb ∨ (top s < ResourceVersion sb)%Z;
  Get_spec s id : st_ok s →
    view (st_Get id s).2 = view s ∧
    match (st_Get id s).1 with
    | Ok sb => view s !! id = Some sb
    | Fail e => Is e ErrNotFound = true → view s !! id = None
    end;
  Create_spec s sb : st_ok s → (top s < int64_max)%Z →
    match (st_Create sb s).1 with
    | Ok out => view s !! ID sb = None ∧ ValidID (ID sb) = true ∧ Valid (State sb) = true ∧ (top s < ResourceVersion out)%Z ∧
        out = with_version sb (ResourceVersion out) ∧
        view (st_Create sb s).2 = <[ID sb := out]> (view s)
    | Fail _ => view (st_Create sb s).2 = view s
    end;
  Update_spec s sb expect : st_ok s → (top s < int64_max)%Z →
    match (st_Update sb expect s).1 with
    | Ok out => ∃ cur, view s !! ID sb = Some cur ∧ ResourceVersion cur = expect ∧
        CheckImmutable cur sb = None ∧ Valid (State sb) = true ∧ (top s < ResourceVersion out)%Z ∧
        out = with_version sb (ResourceVersion out) ∧
        view (st_Update sb expect s).2 = <[ID sb := out]> (view s)
    | Fail e => view (st_Update sb expect s).2 = view s
    end;
  Delete_spec s id expect : st_ok s →
    match (st_Delete id expect s).1 with
    | None => ∃ cur, view s !! id = Some cur ∧ ResourceVersion cur = expect ∧
        view (st_Delete id expect s).2 = delete id (view s)
    | Some _ => view (st_Delete id expect s).2 = view s
    end;
  List_spec s o : st_ok s → view (st_List o s).2 = view s
}.

(** ** Lemmas *)

Lemma PageSize_bounds limit : (1 <= PageSize limit <= MaxLimit)%Z.
Proof. unfold PageSize, DefaultLimit, MaxLimit. repeat case_match; bool_to_prop; lia. Qed.

Lemma CheckImmutable_None cur next :
  CheckImmutable cur next = None ↔
  Owner next = Owner cur ∧ DriverName next = DriverName cur ∧ CreatedAt next = CreatedAt cur ∧
  (Generation cur <= Generation next)%Z.
Proof.
  unfold CheckImmutable.
  destruct (String.eqb_spec (Owner next) (Owner cur)); simpl; [|naive_solver].
  destruct (String.eqb_spec (DriverName next) (DriverName cur)); simpl; [|naive_solver].
  destruct (Z.eqb_spec (CreatedAt next) (CreatedAt cur)); simpl; [|naive_solver].
  destruct (Z.ltb_spec (Generation next) (Generation cur)); simpl; naive_solver lia.
Qed.

Section laws.
Context {S : Type} `{!Store S, !StoreLaws S}.

Lemma steps_ok n (s s' : S) :
  st_ok s → (top s + Z.of_nat n <= int64_max)%Z → nsteps store_step n s s' →
  st_ok s' ∧ (top s <= top s' <= top s + Z.of_nat n)%Z.
Proof.
  intros Hok Hb H. revert Hok Hb. induction H as [s|n s s1 s' H1 _ IH]; intros Hok Hb; [split; [done | lia]|].
  pose proof (step_top s s1 Hok ltac:(lia) H1). destruct IH; [|lia|split; [done | lia]].
  by eapply step_ok; [..|exact H1]; [|lia].
Qed.

Lemma steps_entry n (s s' : S) id sb :
  st_ok s → (top s + Z.of_nat n <= int64_max)%Z → nsteps store_step n s s' →
  view s' !! id = Some sb → view s !! id = Some sb ∨ (top s < ResourceVersion sb)%Z.
Proof.
  intros Hok Hb H. revert Hok Hb. induction H as [s|n s s1 s' H1 Hn IH]; intros Hok Hb Hv; [auto|].
  pose proof (step_top s s1 Hok ltac:(lia) H1) as Ht.
  pose proof (step_ok s s1 Hok ltac:(lia) H1) as Hok1.
  destruct IH as [Hv1|?]; [done|lia|done| |right; lia].
  by eapply step_entry; [..|exact H1|]; [|lia|].
Qed.

(** A resource version names one content of an object for good: whatever
    other clients do in between, an object read again at the version it was
    read at before is the same object. *)
Lemma version_identifies n (s s' : S) id a b :
  st_ok s → (top s + Z.of_nat n <= int64_max)%Z → nsteps store_step n s s' →
  view s !! id = Some a → view s' !! id = Some b → ResourceVersion a = ResourceVersion b → a = b.
Proof.
  intros Hok Hb Hn Ha Hv Hr. destruct (steps_entry n s s' id b Hok Hb Hn Hv) as [H|H]; [congruence|].
  pose proof (view_top s id a Hok Ha). lia.
Qed.
End laws.
