(* ===== verification/Memory.v ===== *)
(** The in-memory store (controlplane/memory.go, the memory parts of
    template.go and audit.go): its state, every operation, and the proof that
    it meets the store's contract.

    Each operation runs under the store's mutex, so it is one step. [Clone]
    keeps callers from sharing maps with the store; the model's values are
    never shared. *)

From Stdlib Require Import ZArith NArith Ascii String Lia Sorted.
From stdpp Require Import base tactics list gmap strings relations.
From S2P Require Import Prelude GoStd Errors Labels Driver Lifecycle Store.

#[local] Open Scope string_scope.
#[local] Open Scope go_scope.

(** ** Definitions *)

Record Memory : Type := MkMemory {
  m_rv : Z; m_sandboxes : gmap string Sandbox; m_idem : gmap (string * string) IdemRecord;
  m_swept : Z; m_audit : list AuditEvent; m_templates : gmap string TemplateT; m_auditSeq : Z
}.

Definition NewMemory : Memory := MkMemory 0 ∅ ∅ 0 [] ∅ 0.

(** Field updates. *)
Definition put_sandboxes (m : Memory) (rv : Z) (s : gmap string Sandbox) : Memory :=
  match m with MkMemory _ _ i w a t q => MkMemory rv s i w a t q end.
Definition put_idem (m : Memory) (i : gmap (string * string) IdemRecord) (swept : Z) : Memory :=
  match m with MkMemory rv s _ _ a t q => MkMemory rv s i swept a t q end.
Definition put_audit (m : Memory) (a : list AuditEvent) (q : Z) : Memory :=
  match m with MkMemory rv s i w _ t _ => MkMemory rv s i w a t q end.
Definition put_templates (m : Memory) (rv : Z) (t : gmap string TemplateT) : Memory :=
  match m with MkMemory _ s i w a _ q => MkMemory rv s i w a t q end.

Definition memory_Create (s : Sandbox) : M Memory (result Sandbox) := λ m,
  if negb (ValidID (ID s)) then (Fail (errorf ErrInvalid ("sandbox id " ++ Quote (ID s))), m)
  else if negb (Valid (State s)) then (Fail (errorf ErrInvalid ("state " ++ Quote (state_text (State s)))), m)
  else match m_sandboxes m !! ID s with
       | Some _ => (Fail (errorf ErrExists ("sandbox " ++ ID s)), m)
       | None =>
           let rv := wrap64 (m_rv m + 1) in
           let s := with_version s rv in
           (Ok s, put_sandboxes m rv (<[ID s := s]> (m_sandboxes m)))
       end.

Definition memory_Get (id : string) : M Memory (result Sandbox) := λ m,
  match m_sandboxes m !! id with
  | Some s => (Ok s, m)
  | None => (Fail (errorf ErrNotFound ("sandbox " ++ id)), m)
  end.

(** The paging loop over the sorted ids: [out] is what was collected, newest
    last, [size] the page size. *)
Fixpoint list_loop (all : gmap string Sandbox) (o : ListOptions) (size : Z) (out : list Sandbox) (ids : list string)
    : list Sandbox * string :=
  match ids with
  | [] => (out, "")
  | id :: ids =>
      match all !! id with
      | None => list_loop all o size out ids
      | Some s =>
          if negb (options_Matches o s) then list_loop all o size out ids
          else if (Z.of_nat (length out) =? size)%Z then (out, default "" (ID <$> last out))
          else list_loop all o size (out ++ [s])%list ids
      end
  end.

Definition ids_after (all : gmap string Sandbox) (after : string) : list string :=
  sort_strings (filter (λ id, str_ltb after id = true) (map_to_list all).*1).

Definition memory_List (o : ListOptions) : M Memory (result (list Sandbox * string)) := λ m,
  (Ok (list_loop (m_sandboxes m) o (PageSize (lo_Limit o)) [] (ids_after (m_sandboxes m) (lo_After o))), m).

Definition memory_Update (s : Sandbox) (expect : Z) : M Memory (result Sandbox) := λ m,
  if negb (Valid (State s)) then (Fail (errorf ErrInvalid ("state " ++ Quote (state_text (State s)))), m)
  else match m_sandboxes m !! ID s with
       | None => (Fail (errorf ErrNotFound ("sandbox " ++ ID s)), m)
       | Some cur =>
           if negb (ResourceVersion cur =? expect)%Z then
             (Fail (errorf ErrVersionMismatch ("sandbox " ++ ID s ++ " is at " ++ Itoa (ResourceVersion cur)
                    ++ ", not " ++ Itoa expect)), m)
           else match CheckImmutable cur s with
                | Some e => (Fail e, m)
                | None =>
                    let rv := wrap64 (m_rv m + 1) in
                    let s := with_version s rv in
                    (Ok s, put_sandboxes m rv (<[ID s := s]> (m_sandboxes m)))
                end
       end.

Definition memory_Delete (id : string) (expect : Z) : M Memory (option error) := λ m,
  match m_sandboxes m !! id with
  | None => (Some (errorf ErrNotFound ("sandbox " ++ id)), m)
  | Some cur =>
      if negb (ResourceVersion cur =? expect)%Z then
        (Some (errorf ErrVersionMismatch ("sandbox " ++ id ++ " is at " ++ Itoa (ResourceVersion cur)
               ++ ", not " ++ Itoa expect)), m)
      else (None, put_sandboxes m (m_rv m) (delete id (m_sandboxes m)))
  end.

(** Records past their expiry are dropped, at most once a minute. *)
Definition sweep (now : Z) (m : Memory) : Memory :=
  if (60 * second <? now - m_swept m)%Z then
    put_idem m (filter (λ kr, (now < ir_ExpiresAt kr.2)%Z) (m_idem m)) now
  else m.

Definition idem_set (m : Memory) (k : string * string) (r : IdemRecord) : Memory :=
  put_idem m (<[k := r]> (m_idem m)) (m_swept m).

Definition with_idem (r : IdemRecord) (st : IdemState) (status : Z) (body : string) (expires : Z) (token : string) : IdemRecord :=
  MkIdem (ir_Scope r) (ir_Key r) (ir_RequestHash r) st status body expires token.

Definition memory_Claim (rec : IdemRecord) (now : Z) : M Memory (result (IdemRecord * bool)) := λ m,
  let m := sweep now m in
  let k := (ir_Scope rec, ir_Key rec) in
  let claim :=
    let rec := with_idem rec IdemPending 0 "" (ir_ExpiresAt rec) (ir_Token rec) in
    (Ok (rec, true), idem_set m k rec) in
  match m_idem m !! k with
  | Some cur =>
      if (now <? ir_ExpiresAt cur)%Z
      then (Ok (with_idem cur (ir_State cur) (ir_Status cur) (ir_Body cur) (ir_ExpiresAt cur) "", false), m)
      else claim
  | None => claim
  end.

(** The pending record [token] holds, if any. *)
Definition held (m : Memory) (scope key token : string) : option IdemRecord :=
  match m_idem m !! (scope, key) with
  | Some cur => if bool_decide (ir_State cur = IdemPending) && str_nonempty token && String.eqb (ir_Token cur) token
                then Some cur else None
  | None => None
  end.

Definition no_pending (key : string) : error :=
  errorf ErrNotFound ("no pending request for idempotency key " ++ Quote key).

Definition memory_Renew (scope key token : string) (expires : Z) : M Memory (option error) := λ m,
  match held m scope key token with
  | None => (Some (no_pending key), m)
  | Some cur =>
      (None, idem_set m (scope, key)
               (with_idem cur (ir_State cur) (ir_Status cur) (ir_Body cur) expires (ir_Token cur)))
  end.

Definition memory_Complete (scope key token : string) (status : Z) (body : string) (expires : Z) : M Memory (option error) := λ m,
  match held m scope key token with
  | None => (Some (no_pending key), m)
  | Some cur => (None, idem_set m (scope, key) (with_idem cur IdemDone status body expires (ir_Token cur)))
  end.

Definition memory_Release (scope key token : string) : M Memory (option error) := λ m,
  match held m scope key token with
  | None => (None, m)
  | Some _ => (None, put_idem m (delete (scope, key) (m_idem m)) (m_swept m))
  end.

(** *** The record (controlplane/audit.go) *)

Definition with_seq (ev : AuditEvent) (seq : Z) : AuditEvent :=
  match ev with MkEvent _ at_ p a s g o c d => MkEvent seq at_ p a s g o c d end.

Definition memory_Append (ev : AuditEvent) : M Memory (option error) := λ m,
  let seq := wrap64 (m_auditSeq m + 1) in
  (None, put_audit m (m_audit m ++ [with_seq ev seq])%list seq).

Definition AuditFor (id : string) (m : Memory) : list AuditEvent :=
  filter (λ ev, ev_SandboxID ev = id) (m_audit m).

(** *** Templates (controlplane/template.go) *)

(** The name pattern, a letter or digit then up to 62 of [A-Za-z0-9._-]. *)
Definition ValidTemplateName (n : string) : bool :=
  match n with
  | EmptyString => false
  | String c r =>
      alnum c && (String.length r <=? 62)%nat
      && str_forall (λ c, alnum c || (c =c ".") || (c =c "_") || (c =c "-")) r
  end.

Fixpoint page_templates (o : TemplateListOptions) (size : Z) (out : list TemplateT) (all : list TemplateT)
    : list TemplateT * string :=
  match all with
  | [] => (out, "")
  | t :: all =>
      if negb (str_ltb (to_After o) (tp_Name t)) || negb (selector_Matches (to_Selector o) (tp_Labels t))
      then page_templates o size out all
      else if (Z.of_nat (length out) =? size)%Z then (out, default "" (tp_Name <$> last out))
      else page_templates o size (out ++ [t])%list all
  end.

Definition PageTemplates (all : list TemplateT) (o : TemplateListOptions) : list TemplateT * string :=
  page_templates o (PageSize (to_Limit o)) [] all.

Definition template_with_version (t : TemplateT) (rv : Z) : TemplateT :=
  match t with MkTemplate n d dr l s o _ c => MkTemplate n d dr l s o rv c end.

Definition memory_CreateTemplate (t : TemplateT) : M Memory (result TemplateT) := λ m,
  if negb (ValidTemplateName (tp_Name t)) then (Fail (errorf ErrInvalid ("template name " ++ Quote (tp_Name t))), m)
  else match m_templates m !! tp_Name t with
       | Some _ => (Fail (errorf ErrExists ("template " ++ tp_Name t)), m)
       | None =>
           let rv := wrap64 (m_rv m + 1) in
           let t := template_with_version t rv in
           (Ok t, put_templates m rv (<[tp_Name t := t]> (m_templates m)))
       end.

Definition memory_GetTemplate (name : string) : M Memory (result TemplateT) := λ m,
  match m_templates m !! name with
  | Some t => (Ok t, m)
  | None => (Fail (errorf ErrNotFound ("template " ++ name)), m)
  end.

Definition memory_ListTemplates (o : TemplateListOptions) : M Memory (result (list TemplateT * string)) := λ m,
  (Ok (PageTemplates (omap (λ n, m_templates m !! n) (sorted_keys (m_templates m))) o), m).

Definition memory_DeleteTemplate (name : string) (expect : Z) : M Memory (option error) := λ m,
  match m_templates m !! name with
  | None => (Some (errorf ErrNotFound ("template " ++ name)), m)
  | Some t =>
      if negb (tp_ResourceVersion t =? expect)%Z then
        (Some (errorf ErrVersionMismatch ("template " ++ name ++ " is at " ++ Itoa (tp_ResourceVersion t)
               ++ ", not " ++ Itoa expect)), m)
      else (None, put_templates m (m_rv m) (delete name (m_templates m)))
  end.

#[export] Instance memory_templates : TemplateStore Memory := {
  ts_Create := memory_CreateTemplate; ts_Get := memory_GetTemplate;
  ts_List := memory_ListTemplates; ts_Delete := memory_DeleteTemplate
}.

#[export] Instance memory_store : Store Memory := {
  st_Create := memory_Create; st_Get := memory_Get; st_List := memory_List;
  st_Update := memory_Update; st_Delete := memory_Delete;
  st_Claim := memory_Claim; st_Renew := memory_Renew;
  st_Complete := memory_Complete; st_Release := memory_Release;
  st_templates := Some memory_templates
}.

(** ** The invariant *)

(** Each sandbox is stored under its own id, in a known state, at a version
    the counter has reached. *)
Definition memory_ok (m : Memory) : Prop :=
  (0 <= m_rv m)%Z ∧
  ∀ id sb, m_sandboxes m !! id = Some sb →
    ID sb = id ∧ ValidID id = true ∧ Valid (State sb) = true ∧ (1 <= ResourceVersion sb <= m_rv m)%Z.

(** What an operation may do to the sandboxes and the counter. *)
Inductive memory_change (m m' : Memory) : Prop :=
| change_none : m_sandboxes m' = m_sandboxes m → m_rv m' = m_rv m → memory_change m m'
| change_rv : m_sandboxes m' = m_sandboxes m → m_rv m' = wrap64 (m_rv m + 1) → memory_change m m'
| change_put sb : ValidID (ID sb) = true ∨ is_Some (m_sandboxes m !! ID sb) → Valid (State sb) = true → ResourceVersion sb = wrap64 (m_rv m + 1) →
    m_sandboxes m' = <[ID sb := sb]> (m_sandboxes m) → m_rv m' = wrap64 (m_rv m + 1) → memory_change m m'
| change_delete id : m_sandboxes m' = delete id (m_sandboxes m) → m_rv m' = m_rv m → memory_change m m'.

Lemma with_version_fields s v :
  ID (with_version s v) = ID s ∧ State (with_version s v) = State s ∧ ResourceVersion (with_version s v) = v.
Proof. by destruct s. Qed.

Lemma put_sandboxes_fields m rv s :
  m_sandboxes (put_sandboxes m rv s) = s ∧ m_rv (put_sandboxes m rv s) = rv.
Proof. by destruct m. Qed.
Lemma put_idem_fields m i w :
  m_sandboxes (put_idem m i w) = m_sandboxes m ∧ m_rv (put_idem m i w) = m_rv m ∧ m_idem (put_idem m i w) = i.
Proof. by destruct m. Qed.
Lemma put_templates_fields m rv t :
  m_sandboxes (put_templates m rv t) = m_sandboxes m ∧ m_rv (put_templates m rv t) = rv.
Proof. by destruct m. Qed.
Lemma sweep_fields now m : m_sandboxes (sweep now m) = m_sandboxes m ∧ m_rv (sweep now m) = m_rv m.
Proof. unfold sweep. case_match; [|done]. destruct (put_idem_fields m (filter (λ kr, (now < ir_ExpiresAt kr.2)%Z) (m_idem m)) now) as (?&?&?). done. Qed.

Lemma idem_only m m' : m_sandboxes m' = m_sandboxes m → m_rv m' = m_rv m → memory_change m m'.
Proof. intros. by apply change_none. Qed.

#[local] Hint Resolve change_none idem_only : go.

Lemma store_step_change m m' : store_step m m' → memory_change m m'.
Proof.
  destruct 1 as [sb|id|o|sb v|id v|r now|a b c e|a b c n t e|a b c|ts t Hts|ts t Hts|ts t Hts|ts t v Hts]; simpl.
  - unfold memory_Create. repeat case_match; try by apply change_none.
    simpl. destruct (put_sandboxes_fields m (wrap64 (m_rv m + 1)) (<[ID (with_version sb (wrap64 (m_rv m + 1))) := with_version sb (wrap64 (m_rv m + 1))]> (m_sandboxes m))).
    destruct (with_version_fields sb (wrap64 (m_rv m + 1))) as (Hi & Hs & ?). bool_to_prop.
    eapply change_put; [by left; rewrite Hi|by rewrite Hs|done..].
  - unfold memory_Get. case_match; by apply change_none.
  - by apply change_none.
  - unfold memory_Update. repeat case_match; try by apply change_none.
    simpl. destruct (put_sandboxes_fields m (wrap64 (m_rv m + 1)) (<[ID (with_version sb (wrap64 (m_rv m + 1))) := with_version sb (wrap64 (m_rv m + 1))]> (m_sandboxes m))).
    destruct (with_version_fields sb (wrap64 (m_rv m + 1))) as (Hi & Hs & ?). bool_to_prop.
    eapply change_put; [right; rewrite Hi; eauto|by rewrite Hs|done..].
  - unfold memory_Delete. repeat case_match; try by apply change_none. simpl.
    destruct (put_sandboxes_fields m (m_rv m) (delete id (m_sandboxes m))). by eapply change_delete.
  - unfold memory_Claim. destruct (sweep_fields now m) as [H1 H2].
    destruct (m_idem (sweep now m) !! _) as [cur|]; [case_match|]; simpl; unfold idem_set; apply change_none;
      try match goal with |- context [put_idem ?x ?y ?z] => destruct (put_idem_fields x y z) as (? & ? & ?) end; congruence.
  - unfold memory_Renew. case_match; simpl; [|by apply change_none]. unfold idem_set.
    match goal with |- context [put_idem ?x ?y ?z] => destruct (put_idem_fields x y z) as (? & ? & ?) end. by apply change_none.
  - unfold memory_Complete. case_match; simpl; [|by apply change_none]. unfold idem_set.
    match goal with |- context [put_idem ?x ?y ?z] => destruct (put_idem_fields x y z) as (? & ? & ?) end. by apply change_none.
  - unfold memory_Release. case_match; simpl; [|by apply change_none].
    match goal with |- context [put_idem ?x ?y ?z] => destruct (put_idem_fields x y z) as (? & ? & ?) end. by apply change_none.
  - injection Hts as <-. simpl. unfold memory_CreateTemplate. repeat case_match; try by apply change_none. simpl.
    match goal with |- context [put_templates ?x ?y ?z] => destruct (put_templates_fields x y z) as (? & ?) end. by apply change_rv.
  - injection Hts as <-. simpl. unfold memory_GetTemplate. case_match; by apply change_none.
  - injection Hts as <-. by apply change_none.
  - injection Hts as <-. simpl. unfold memory_DeleteTemplate. repeat case_match; try by apply change_none. simpl.
    match goal with |- context [put_templates ?x ?y ?z] => destruct (put_templates_fields x y z) as (? & ?) end. by apply change_none.
Qed.

Lemma memory_change_ok m m' :
  memory_ok m → (m_rv m < int64_max)%Z → memory_change m m' →
  memory_ok m' ∧ (m_rv m <= m_rv m' <= m_rv m + 1)%Z ∧
  ∀ id sb, m_sandboxes m' !! id = Some sb → m_sandboxes m !! id = Some sb ∨ (m_rv m < ResourceVersion sb)%Z.
Proof.
  intros [Hr Hs] Hb Hc. pose proof (wrap64_succ (m_rv m) ltac:(lia)) as Hw.
  assert (Hold : ∀ id sb, m_sandboxes m !! id = Some sb →
    ID sb = id ∧ ValidID id = true ∧ Valid (State sb) = true ∧ (1 <= ResourceVersion sb <= m_rv m + 1)%Z)
    by (intros id sb Hl; destruct (Hs id sb Hl) as (?&?&?&?); split_and!; [done|done|done|lia|lia]).
  unfold memory_ok. destruct Hc as [Hv Hm|Hv Hm|sb Hid Hval Hrv Hv Hm|id Hv Hm];
    rewrite ?Hm, ?Hv, ?Hw; try rewrite Hw in Hrv.
  - split_and!; [done|done|lia|lia|]. intros id sb ?. by left.
  - split_and!; [lia|done|lia|lia|]. intros id sb ?. by left.
  - split_and!; [lia| |lia|lia|]; intros id' sb' [[<- <-]|[? ?]]%lookup_insert_Some; auto.
    + split_and!; [done| |done|lia|lia]. destruct Hid as [?|[old Ho]]; [done|]. by destruct (Hs _ _ Ho) as (_&?&_).
    + right. lia.
  - split_and!; [lia| |lia|lia|]; intros id' sb' [? ?]%lookup_delete_Some; auto.
Qed.

Lemma NewMemory_ok : memory_ok NewMemory.
Proof. split; [done|]. intros id sb H. simpl in H. by apply lookup_empty_Some in H. Qed.

Lemma memory_Create_run m sb :
  match (memory_Create sb m).1 with
  | Ok out => m_sandboxes m !! ID sb = None ∧ ValidID (ID sb) = true ∧ Valid (State sb) = true ∧
      out = with_version sb (wrap64 (m_rv m + 1)) ∧
      m_sandboxes (memory_Create sb m).2 = <[ID sb := out]> (m_sandboxes m)
  | Fail _ => (memory_Create sb m).2 = m
  end.
Proof.
  unfold memory_Create. destruct (ValidID (ID sb)), (Valid (State sb)); simpl; try done.
  destruct (m_sandboxes m !! ID sb) eqn:E; simpl; [done|].
  destruct (with_version_fields sb (wrap64 (m_rv m + 1))) as (-> & _ & _). by destruct m.
Qed.

Lemma memory_Update_run m sb expect :
  match (memory_Update sb expect m).1 with
  | Ok out => ∃ cur, m_sandboxes m !! ID sb = Some cur ∧ ResourceVersion cur = expect ∧
      CheckImmutable cur sb = None ∧ Valid (State sb) = true ∧
      out = with_version sb (wrap64 (m_rv m + 1)) ∧
      m_sandboxes (memory_Update sb expect m).2 = <[ID sb := out]> (m_sandboxes m)
  | Fail _ => (memory_Update sb expect m).2 = m
  end.
Proof.
  unfold memory_Update. destruct (Valid (State sb)); simpl; [|done].
  destruct (m_sandboxes m !! ID sb) as [cur|] eqn:E; simpl; [|done].
  destruct (Z.eqb_spec (ResourceVersion cur) expect); simpl; [|done].
  destruct (CheckImmutable cur sb) eqn:Ei; simpl; [done|]. exists cur.
  destruct (with_version_fields sb (wrap64 (m_rv m + 1))) as (-> & _ & _). by destruct m.
Qed.

Lemma memory_Delete_run m id expect :
  match (memory_Delete id expect m).1 with
  | None => ∃ cur, m_sandboxes m !! id = Some cur ∧ ResourceVersion cur = expect ∧
      m_sandboxes (memory_Delete id expect m).2 = delete id (m_sandboxes m)
  | Some _ => (memory_Delete id expect m).2 = m
  end.
Proof.
  unfold memory_Delete. destruct (m_sandboxes m !! id) as [cur|] eqn:E; simpl; [|done].
  destruct (Z.eqb_spec (ResourceVersion cur) expect); simpl; [|done]. exists cur. by destruct m.
Qed.

(** The memory store meets the contract. *)
#[export] Instance memory_laws : StoreLaws Memory.
Proof.
  refine {| st_ok := memory_ok; view := m_sandboxes; top := m_rv |}.
  - intros s id sb [_ H] Hl. by destruct (H id sb Hl).
  - intros s id sb [_ H] Hl. by destruct (H id sb Hl) as (_ & ? & ? & _).
  - intros s id sb [_ H] Hl. by destruct (H id sb Hl) as (_ & _ & _ & ?).
  - intros s s' Ho Hb Hs%store_step_change. by destruct (memory_change_ok s s' Ho Hb Hs).
  - intros s s' Ho Hb Hs%store_step_change. by destruct (memory_change_ok s s' Ho Hb Hs) as (_ & ? & _).
  - intros s s' id sb Ho Hb Hs%store_step_change. destruct (memory_change_ok s s' Ho Hb Hs) as (_ & _ & H). apply H.
  - intros s id _. simpl. unfold memory_Get. destruct (m_sandboxes s !! id) eqn:E; simpl; by rewrite ?E.
  - intros s sb [Hr _] Hb. simpl. pose proof (memory_Create_run s sb) as H.
    destruct (memory_Create sb s).1 as [out|]; [|by rewrite H].
    destruct H as (Hn & ? & ? & -> & Hv). rewrite wrap64_succ in * by lia.
    destruct (with_version_fields sb (m_rv s + 1)) as (_ & _ & ->). split_and!; [done|done|done|lia|done|done].
  - intros s sb expect [Hr _] Hb. simpl. pose proof (memory_Update_run s sb expect) as H.
    destruct (memory_Update sb expect s).1 as [out|]; [|by rewrite H].
    destruct H as (cur & ? & ? & ? & ? & -> & Hv). rewrite wrap64_succ in * by lia. exists cur.
    destruct (with_version_fields sb (m_rv s + 1)) as (_ & _ & ->). split_and!; try done; lia.
  - intros s id expect _. simpl. pose proof (memory_Delete_run s id expect) as H.
    destruct (memory_Delete id expect s).1; [by rewrite H|]. destruct H as (cur & ? & ? & ?). by exists cur.
  - done.
Defined.
