(* ===== verification/Listing.v ===== *)
(** Reading a collection page by page (controlplane/store.go, memory.go): a
    client that follows the tokens of [List] sees everything that matches
    exactly once, in order. *)

From Stdlib Require Import ZArith NArith Ascii String Lia.
From stdpp Require Import base tactics list gmap strings relations sorting.
From S2P Require Import Prelude GoStd Errors Labels Driver Lifecycle Etag Settings Store Memory.

#[local] Open Scope string_scope.
#[local] Open Scope go_scope.

(** The same listing from another token. *)
Definition from_token (o : ListOptions) (after : string) : ListOptions :=
  {| lo_Selector := lo_Selector o; lo_State := lo_State o; lo_Owner := lo_Owner o; lo_Labels := lo_Labels o;
     lo_Limit := lo_Limit o; lo_After := after |}.

(** What a client that follows the tokens reads: at most [n] pages after the
    first; [None] says there were more. *)
Fixpoint read_pages (n : nat) (o : ListOptions) (m : Memory) : option (list (list Sandbox)) :=
  match (memory_List o m).1 with
  | Fail _ => None
  | Ok (items, next) =>
      if String.eqb next "" then Some [items]
      else match n with
           | 0%nat => None
           | Datatypes.S n => match read_pages n (from_token o next) m with
                              | Some pages => Some (items :: pages)
                              | None => None
                              end
           end
  end.

(** ** Strictly sorted lists *)

Section sorted.
Context {A : Type} (key : A → string).

Definition ascending (l : list A) : Prop := StronglySorted (λ a b, str_lt (key a) (key b)) l.

Lemma filter_all (P : A → Prop) `{!∀ a, Decision (P a)} l : Forall P l → filter P l = l.
Proof. induction 1 as [|y l Hy Hl IH]; [done|]. by rewrite filter_cons_True, IH. Qed.

(** After the [k]th element come the elements with a greater key. *)
Lemma ascending_drop l k x :
  ascending l → l !! k = Some x → filter (λ a, str_ltb (key x) (key a) = true) l = drop (Datatypes.S k) l.
Proof.
  intros Hs. revert k. induction Hs as [|y l Hs IH Hy]; intros k Hk; [done|].
  destruct k as [|k]; simpl in Hk.
  - injection Hk as ->. rewrite filter_cons_False by (rewrite str_ltb_lt; apply str_lt_irrefl). simpl. rewrite drop_0.
    apply filter_all. rewrite Forall_forall in Hy |- *. intros a Ha. by apply str_ltb_lt, Hy.
  - rewrite filter_cons_False; [by apply IH|]. rewrite str_ltb_lt. intros Hlt. rewrite Forall_forall in Hy.
    apply (str_lt_irrefl (key x)). etransitivity; [exact Hlt|]. apply Hy. by eapply list_elem_of_lookup_2.
Qed.

Lemma ascending_NoDup l : ascending l → NoDup l.
Proof.
  induction 1 as [|y l Hs IH Hy]; constructor; [|done]. rewrite Forall_forall in Hy.
  intros Hin. by apply (str_lt_irrefl (key y)), Hy.
Qed.

Lemma ascending_filter l (P : A → Prop) `{!∀ a, Decision (P a)} : ascending l → ascending (filter P l).
Proof.
  induction 1 as [|y l Hs IH Hy]; [constructor|]. rewrite filter_cons. case_decide; [|done]. constructor; [done|].
  rewrite Forall_forall in *. intros a [_ Ha]%list_elem_of_filter. auto.
Qed.
End sorted.

Lemma omap_length {A B} (f : A → option B) (l : list A) : (length (omap f l) <= length l)%nat.
Proof. induction l as [|x l IH]; simpl; [done|]. destruct (f x); simpl; [apply le_n_S, IH|apply Nat.le_le_succ_r, IH]. Qed.

(** ** One page *)

Section page.
Context (all : gmap string Sandbox).

Definition chosen (o : ListOptions) (id : string) : option Sandbox :=
  s ← all !! id; if options_Matches o s then Some s else None.

Lemma list_loop_spec o size ids out :
  (Z.of_nat (length out) <= size)%Z →
  let rest := omap (chosen o) ids in
  let k := (Z.to_nat size - length out)%nat in
  list_loop all o size out ids =
    (out ++ take k rest, if (length rest <=? k)%nat then "" else default "" (ID <$> last (out ++ take k rest)))%list.
Proof.
  revert out. induction ids as [|id ids IH]; intros out Hout rest k; simpl.
  - subst rest. simpl. by rewrite take_nil, app_nil_r.
  - assert (Hr : rest = match chosen o id with Some s => s :: omap (chosen o) ids | None => omap (chosen o) ids end) by done.
    clearbody rest. unfold chosen in Hr at 1. destruct (all !! id) as [s|]; simpl in Hr; [|subst rest; by apply IH].
    destruct (options_Matches o s); simpl; subst rest; [|by apply IH].
    destruct (Z.eqb_spec (Z.of_nat (length out)) size) as [He|Hne].
    + assert (k = 0)%nat as -> by (subst k; lia). simpl. by rewrite app_nil_r.
    + rewrite IH by (rewrite length_app; simpl; lia). rewrite length_app. simpl.
      assert (k = Datatypes.S (Z.to_nat size - (length out + 1)))%nat as -> by (subst k; lia). simpl.
      by rewrite <- app_assoc.
Qed.

Hypothesis Hids : ∀ id sb, all !! id = Some sb → ID sb = id ∧ ValidID id = true.

(** Everything that matches after a token, in order. *)
Definition matching (o : ListOptions) : list Sandbox := omap (chosen o) (ids_after all (lo_After o)).

Lemma elem_of_ids_after after id : id ∈ ids_after all after ↔ is_Some (all !! id) ∧ str_lt after id.
Proof.
  unfold ids_after. rewrite sort_strings_perm, list_elem_of_filter, str_ltb_lt, list_elem_of_fmap. split.
  - intros [H ([id' v] & -> & Hv%elem_of_map_to_list)]. eauto.
  - intros [[v Hv%elem_of_map_to_list] H]. split; [done|]. by exists (id, v).
Qed.

Lemma elem_of_matching o sb :
  sb ∈ matching o ↔ all !! ID sb = Some sb ∧ options_Matches o sb = true ∧ str_lt (lo_After o) (ID sb).
Proof.
  unfold matching. rewrite list_elem_of_omap. unfold chosen. split.
  - intros (id & Hin & Hc). apply elem_of_ids_after in Hin as [_ Hlt]. destruct (all !! id) as [s|] eqn:Hl; [|done]. simpl in Hc.
    destruct (options_Matches o s) eqn:Hm; [|done]. injection Hc as ->. by destruct (Hids _ _ Hl) as [-> _].
  - intros (Hl & Hm & Hlt). exists (ID sb). rewrite elem_of_ids_after, Hl. simpl. rewrite Hm. eauto.
Qed.

Lemma matching_ascending o : ascending ID (matching o).
Proof.
  unfold matching. assert (Hs : ascending id (ids_after all (lo_After o))).
  { unfold ascending, ids_after. set (l := filter _ _).
    assert (Hnd : NoDup (sort_strings l)).
    { rewrite sort_strings_perm. apply NoDup_filter, NoDup_fst_map_to_list. }
    pose proof (sort_strings_sorted l) as H. revert Hnd. induction H as [|y r H IH Hy]; [constructor|].
    intros [Hny Hnd]%NoDup_cons. constructor; [by apply IH|]. rewrite Forall_forall in *. intros a Ha.
    destruct (proj1 (str_le_lt_or_eq y a) (Hy a Ha)) as [?| ->]; done. }
  induction Hs as [|y r Hs IH Hy]; simpl; [constructor|]. destruct (chosen o y) as [s|] eqn:Hc; [|done].
  constructor; [done|]. rewrite Forall_forall in Hy. apply Forall_forall. intros a (z & Hz & Hcz)%list_elem_of_omap.
  assert (Hid : ∀ i x, chosen o i = Some x → ID x = i).
  { intros i x. unfold chosen. destruct (all !! i) as [x'|] eqn:Hl; simpl; [|done].
    destruct (options_Matches o x'); [|done]. intros [= <-]. by destruct (Hids _ _ Hl). }
  rewrite (Hid y s Hc), (Hid z a Hcz). by apply (Hy z Hz).
Qed.

(** What follows a token is what matches with a greater id. *)
Lemma matching_from o after :
  str_lt (lo_After o) after →
  matching (from_token o after) = filter (λ s, str_ltb after (ID s) = true) (matching o).
Proof.
  intros Hlt. apply (StronglySorted_unique_strong (λ a b, str_lt (ID a) (ID b))).
  - intros a b _ _ H1 H2. destruct (str_lt_irrefl (ID a)). by etransitivity.
  - apply matching_ascending.
  - apply ascending_filter, matching_ascending.
  - apply NoDup_Permutation.
    + apply (ascending_NoDup ID), matching_ascending.
    + apply NoDup_filter, (ascending_NoDup ID), matching_ascending.
    + intros s. rewrite list_elem_of_filter, !elem_of_matching, str_ltb_lt. simpl. unfold options_Matches. simpl.
      split; [|tauto]. intros (H1 & H2 & H3). split_and!; [done..|]. by etransitivity.
Qed.
End page.

(** ** Following the tokens *)

Lemma read_pages_spec m n o :
  memory_ok m → (length (matching (m_sandboxes m) o) <= n)%nat →
  ∃ pages, read_pages n o m = Some pages ∧ concat pages = matching (m_sandboxes m) o ∧
    Forall (λ p, Z.of_nat (length p) <= PageSize (lo_Limit o))%Z pages.
Proof.
  intros [_ Hok]. assert (Hids : ∀ id sb, m_sandboxes m !! id = Some sb → ID sb = id ∧ ValidID id = true)
    by (intros id sb H; by destruct (Hok id sb H) as (? & ? & _)).
  pose proof (PageSize_bounds (lo_Limit o)) as Hsize.
  revert o Hsize. induction n as [n IH] using lt_wf_ind. intros o Hsize Hn.
  set (size := PageSize (lo_Limit o)) in *. set (L := matching (m_sandboxes m) o) in *.
  assert (Hpage : memory_List o m = (Ok (take (Z.to_nat size) L,
    if (length L <=? Z.to_nat size)%nat then "" else default "" (ID <$> last (take (Z.to_nat size) L))), m)).
  { unfold memory_List. fold size. pose proof (list_loop_spec (m_sandboxes m) o size (ids_after (m_sandboxes m) (lo_After o)) [] ltac:(simpl; lia)) as H.
    cbn zeta in H. rewrite Nat.sub_0_r in H. simpl in H. by rewrite H. }
  assert (Hlen : (Z.of_nat (length (take (Z.to_nat size) L)) <= size)%Z) by (rewrite length_take; lia).
  destruct (Nat.leb_spec (length L) (Z.to_nat size)) as [Hle|Hgt].
  - exists [take (Z.to_nat size) L]. assert (read_pages n o m = Some [take (Z.to_nat size) L]) as -> by (destruct n; cbn [read_pages]; by rewrite Hpage).
    split_and!; [done|simpl; rewrite app_nil_r; by apply take_ge|by repeat constructor].
  - destruct (lookup_lt_is_Some_2 L (Z.to_nat size - 1)) as [x Hx]; [lia|].
    assert (Hlast : last (take (Z.to_nat size) L) = Some x).
    { rewrite last_lookup, length_take, Nat.min_l by lia. rewrite lookup_take_lt by lia. by rewrite Nat.sub_1_r in Hx. }
    assert (Hin : x ∈ L) by (by eapply list_elem_of_lookup_2). apply elem_of_matching in Hin as (Hl & _ & Hlt); [|done].
    rewrite Hlast in Hpage. simpl in Hpage.
    assert (Hne : (ID x =? "")%string = false) by (apply String.eqb_neq; intros He; destruct (Hids _ _ Hl) as [_ Hv]; by rewrite He in Hv).
    destruct n as [|n]; [lia|].
    assert (Hrest : matching (m_sandboxes m) (from_token o (ID x)) = drop (Z.to_nat size) L).
    { rewrite (matching_from _ Hids o (ID x) Hlt). fold L. rewrite (ascending_drop ID L (Z.to_nat size - 1) x); [f_equal; lia| |done].
      by apply matching_ascending. }
    destruct (IH n ltac:(lia) (from_token o (ID x)) Hsize) as (pages & Hp & Hc & Hf).
    { rewrite Hrest, length_drop. lia. }
    exists (take (Z.to_nat size) L :: pages). cbn [read_pages]. rewrite Hpage. cbn [fst]. rewrite Hne, Hp. simpl. rewrite Hc, Hrest, take_drop.
    split_and!; [done..|]. by constructor.
Qed.

(** ** Properties *)

(** A client that follows the page tokens of a listing, starting after any
    token, with any limit, gets to the end of it and sees every sandbox that
    matches and whose id comes after the token, exactly once, in the order of
    the ids; no page is longer than the limit allows. *)
Theorem list_pages_complete (m : Memory) (o : ListOptions) :
  memory_ok m →
  ∃ pages, read_pages (size (m_sandboxes m)) o m = Some pages ∧
    StronglySorted str_lt (ID <$> concat pages) ∧
    (∀ sb, sb ∈ concat pages ↔
       m_sandboxes m !! ID sb = Some sb ∧ options_Matches o sb = true ∧ str_lt (lo_After o) (ID sb)) ∧
    Forall (λ p, Z.of_nat (length p) <= PageSize (lo_Limit o))%Z pages.
Proof.
  intros Hm. destruct (read_pages_spec m (size (m_sandboxes m)) o Hm) as (pages & Hp & Hc & Hf).
  { unfold matching, ids_after. etransitivity; [apply omap_length|]. rewrite sort_strings_perm.
    etransitivity; [apply length_filter|]. by rewrite length_fmap, length_map_to_list. }
  assert (Hids : ∀ id sb, m_sandboxes m !! id = Some sb → ID sb = id ∧ ValidID id = true)
    by (intros id sb H; by destruct (proj2 Hm id sb H) as (? & ? & _)).
  exists pages. rewrite Hc. split_and!; [done| |by apply elem_of_matching|done].
  pose proof (matching_ascending _ Hids o) as H. clear Hc. induction H as [|y l Hs IH Hy]; [constructor|]. rewrite fmap_cons.
  constructor; [done|]. rewrite Forall_fmap. exact Hy.
Qed.

Definition three_sandboxes : Memory :=
  let sb id := MkSandbox id 1 1 "base" "" "process" StateStopped [] ∅ "alice" "" ∅ 0 None 1 1 in
  MkMemory 1 {["sbx_00000000000000aa" := sb "sbx_00000000000000aa"; "sbx_00000000000000bb" := sb "sbx_00000000000000bb";
               "sbx_00000000000000cc" := sb "sbx_00000000000000cc"]} ∅ 0 [] ∅ 0.
Definition two_at_a_time : ListOptions :=
  {| lo_Selector := []; lo_State := no_state; lo_Owner := ""; lo_Labels := ∅; lo_Limit := 2; lo_After := "" |}.

Lemma list_pages_complete_witness :
  option_map (map (map ID)) (read_pages 3 two_at_a_time three_sandboxes) =
    Some [["sbx_00000000000000aa"; "sbx_00000000000000bb"]; ["sbx_00000000000000cc"]] ∧
  ∃ pages, read_pages 3 two_at_a_time three_sandboxes = Some pages ∧ StronglySorted str_lt (map ID (concat pages)).
Proof.
  split; [vm_compute; reflexivity|].
  destruct (list_pages_complete three_sandboxes two_at_a_time) as (pages & Hp & Hs & _).
  2: { assert (Hn : size (m_sandboxes three_sandboxes) = 3) by (vm_compute; reflexivity).
       rewrite Hn in Hp. exists pages. split; [exact Hp|exact Hs]. }
  split; [by vm_compute|]. intros id sb.
  revert id sb. change (map_Forall (λ id sb, ID sb = id ∧ ValidID id = true ∧ Valid (State sb) = true ∧
    (1 <= ResourceVersion sb <= 1)%Z) (m_sandboxes three_sandboxes)).
  apply (bool_decide_unpack _). vm_compute. exact I.
Defined.
