(* ===== verification/World.v ===== *)
(** The world a service call runs in: the shared state of the service
    (controlplane/service.go, [Service]), what it is built from ([Config]) and
    the parties it talks to, as functions over a state of their own; the
    record, the redactor and ownership (service.go, ownership.go); and the
    protocol every caller-made operation follows, as an automaton over the
    effects a run leaves in its trace.

    Concurrency: other calls, other replicas and the reconciler run between
    any two store calls of an operation. [x_others] is what they did; the
    theorems assume of it only what any client of the store may do. *)

From Stdlib Require Import ZArith NArith Ascii String Lia.
From stdpp Require Import base tactics list gmap strings relations.
From S2P Require Import Prelude GoStd Errors Labels Driver Lifecycle Etag Settings Store.

#[local] Open Scope string_scope.
#[local] Open Scope go_scope.

(** ** Requests *)

Record Caller : Type := MkCaller { Principal : string; Admin : bool; Scope : strmap }.

Definition may (c : Caller) (s : Sandbox) : bool :=
  scoped (Scope c) (Labels s) && (Admin c || (str_nonempty (Principal c) && String.eqb (Owner s) (Principal c))).

(** What a request's context carries to the guard. *)
Record Ctx : Type := MkCtx { ctx_approval : string; ctx_origin : string }.

Definition Background : Ctx := MkCtx "" "".
Definition OriginSession : string := "session".

Definition WithOrigin (x : Ctx) (origin : string) : Ctx := MkCtx (ctx_approval x) origin.
Definition OriginOf (x : Ctx) : string := ctx_origin x.
Definition WithApproval (x : Ctx) (id : string) : Ctx :=
  let id := TrimSpace id in
  if String.eqb id "" then x else MkCtx id (ctx_origin x).
Definition ApprovalOf (x : Ctx) : string := ctx_approval x.

Record ExecRequest : Type := MkExec {
  ex_Argv : list string; ex_Command : string; ex_Cwd : string; ex_Env : list string; ex_Stdin : bool
}.

(** One operation as a guard sees it. *)
Record Admission : Type := MkAdmission {
  ad_Action : string; ad_Caller : Caller; ad_Sandbox : Sandbox; ad_Next : option Sandbox;
  ad_Exec : option ExecRequest; ad_Grace : Z; ad_Approval : string; ad_Origin : string
}.

(** What a guard answers: an error or an admission, the release it may hand
    back with either (named by a number), and the next object as the guard
    left it. *)
Record GuardAnswer : Type := { ga_err : option error; ga_release : option nat; ga_next : option Sandbox }.

(** One call as an interceptor sees it. *)
Record AdmissionRequest : Type := MkAdmReq {
  ar_Operation : string; ar_Caller : Caller; ar_SandboxID : string; ar_Old : option Sandbox;
  ar_Object : Sandbox; ar_Command : string; ar_Stdin : bool; ar_Cwd : string; ar_EnvNames : list string
}.

Record AdmissionDecision : Type := {
  dc_Hook : string; dc_Phase : string; dc_Decision : string; dc_Reason : string;
  dc_Patched : list string; dc_FailOpen : bool
}.

Record AdmissionResult : Type := { res_Object : Sandbox; res_Decisions : list AdmissionDecision }.

(** ** The trace *)

(** What an operation does that others can see. *)
Inductive effect : Type :=
| EvAudit (ev : AuditEvent) (kept : bool)           (* an append to the record *)
| EvStore (what id : string)                        (* a call that may write the store *)
| EvDriver (what id : string)                       (* a call that reaches a driver *)
| EvGuard (admitted : bool) (release : option nat)   (* the guard answered *)
| EvRelease (token : nat)                           (* a guard's release ran *)
| EvCredential (token : nat) | EvRevoke (token : nat) (* an egress credential's life *)
| EvKick (id : string).

(** ** The parties *)

Section world.
Context {S E : Type}.

(** The egress proxy; a credential is named by a number, and ended once. *)
Record EgressProxy : Type := {
  eg_For : string → bool;
  eg_Open : string → M E (result Egress);
  eg_Call : string → M E (result (list string * nat));
  eg_end : nat → E → E;
  eg_Close : string → M E (option error)
}.

Record Interceptor : Type := {
  in_Admit : AdmissionRequest → M E (AdmissionResult * option error);
  in_Committed : AdmissionRequest → Sandbox → option error → M E (list AdmissionDecision)
}.

Abbreviation Guard := (Admission → M E GuardAnswer).

(** The service's mutable state, which other goroutines change too. *)
Record Shared : Type := MkShared {
  sh_store : S; sh_kicks : list string; sh_inflight : gset string; sh_again : gset string;
  sh_graces : gmap string Z; sh_running : bool; sh_guard : option Guard
}.

(** [Config], with the parties the service calls. [x_done] is how many more
    times a waiting call may look before its context ends, and [ctx.Err()] then. *)
Record Env : Type := MkEnv {
  c_drivers : gmap string (Driver E);
  c_settings : SettingsT;
  c_default_driver : string;
  c_workspace : string → M E (result string);
  c_release_workspace : option (string → M E (option error));
  c_write_protected : list string;
  c_egress : option EgressProxy;
  c_redact : option (string → string);
  c_interceptor : option Interceptor;
  c_owns : option (string → M E (result bool));
  c_node : string;
  x_now : M E Z;
  x_rand : nat → M E (result (list ascii));
  x_append : AuditEvent → M E (option error);
  x_audit_for : option (string → M E (result (list AuditEvent)));
  x_sha256 : string → list ascii;
  x_release : nat → E → E;
  x_done : M E (nat * error);
  x_others : Shared → M E Shared
}.

Record World : Type := MkWorld { w_sh : Shared; w_ext : E; w_trace : list effect }.

Definition with_sh (w : World) (sh : Shared) : World := MkWorld sh (w_ext w) (w_trace w).

Definition put_store (sh : Shared) (s : S) : Shared :=
  match sh with MkShared _ k i a g r gd => MkShared s k i a g r gd end.
Definition put_kicks (sh : Shared) (k : list string) : Shared :=
  match sh with MkShared s _ i a g r gd => MkShared s k i a g r gd end.
Definition put_marks (sh : Shared) (i a : gset string) : Shared :=
  match sh with MkShared s k _ _ g r gd => MkShared s k i a g r gd end.
Definition put_graces (sh : Shared) (g : gmap string Z) : Shared :=
  match sh with MkShared s k i a _ r gd => MkShared s k i a g r gd end.
Definition put_running (sh : Shared) (r : bool) : Shared :=
  match sh with MkShared s k i a g _ gd => MkShared s k i a g r gd end.
Definition put_guard (sh : Shared) (gd : option Guard) : Shared :=
  match sh with MkShared s k i a g r _ => MkShared s k i a g r gd end.

(** ** Steps of the world *)

Definition emit (e : effect) : M World unit := λ w,
  (tt, MkWorld (w_sh w) (w_ext w) (w_trace w ++ [e])%list).

Definition ext {A} (m : M E A) : M World A := λ w,
  let '(a, e) := m (w_ext w) in (a, MkWorld (w_sh w) e (w_trace w)).

Definition shared : M World Shared := λ w, (w_sh w, w).
Definition set_shared (f : Shared → Shared) : M World unit := λ w, (tt, with_sh w (f (w_sh w))).

Context (env : Env).

(** Everyone else. *)
Definition others : M World unit := λ w,
  let '(sh, e) := x_others env (w_sh w) (w_ext w) in (tt, MkWorld sh e (w_trace w)).

(** One store call; others ran before it. *)
Definition on_store {A} (m : M S A) : M World A :=
  others ;;;
  (λ w, let '(a, s) := m (sh_store (w_sh w)) in (a, with_sh w (put_store (w_sh w) s))).

Definition writes {A} (what id : string) (m : M S A) : M World A :=
  let! a := on_store m in emit (EvStore what id) ;;; mreturn a.

Definition now : M World Z := ext (x_now env).

(** One driver call. *)
Definition drives {A} (what id : string) (m : M E A) : M World A :=
  emit (EvDriver what id) ;;; let! a := ext m in others ;;; mreturn a.

(** ** The record (service.go) *)

(** [record] writes [ev]; an event that cannot be kept is [ErrUnavailable]. *)
Definition record (ev : AuditEvent) : M World (option error) :=
  let! at_ := (if (ev_At ev =? 0)%Z then now else mreturn (ev_At ev)) in
  let detail := if str_nonempty (c_node env) then <["node" := c_node env]> (ev_Detail ev) else ev_Detail ev in
  let ev := MkEvent (ev_Seq ev) at_ (ev_Principal ev) (ev_Action ev) (ev_SandboxID ev) (ev_Generation ev)
              (ev_Outcome ev) (ev_Code ev) detail in
  let! err := ext (x_append env ev) in
  emit (EvAudit ev (negb (opt_some err))) ;;;
  mreturn (match err with
           | Some _ => Some (errorf ErrUnavailable "the record cannot be written")
           | None => None
           end).

Definition hex_of_sum (text : string) : string := "sha256:" ++ hex_encode (x_sha256 env text).

Definition redact (text : string) : string :=
  match c_redact env with Some f => f text | None => hex_of_sum text end.

Definition maxReason : nat := 512.

Definition reason (r : string) : string :=
  let r := redact r in
  if (maxReason <? String.length r)%nat then str_take maxReason r else r.

Definition requested (ev : AuditEvent) : AuditEvent :=
  MkEvent (ev_Seq ev) (ev_At ev) (ev_Principal ev) (ev_Action ev) (ev_SandboxID ev) (ev_Generation ev)
    OutcomeRequested (ev_Code ev) (ev_Detail ev).

(** The event [outcome] records. *)
Definition outcome_event (ev : AuditEvent) (err : option error) : AuditEvent :=
  let detail :=
    match err with
    | Some e =>
        if Is e ErrOwnershipLost then <["reason" := sentinel_text ErrOwnershipLost]> (ev_Detail ev)
        else if Is e ErrEndedByGuard then <["reason" := reason (e_text e)]> (ev_Detail ev)
        else if Is e ErrForbidden && negb (String.eqb (e_text e) (sentinel_text ErrForbidden))
        then <["reason" := reason (TrimPrefix (e_text e) (sentinel_text ErrForbidden ++ ": "))]> (ev_Detail ev)
        else ev_Detail ev
    | None => ev_Detail ev
    end in
  MkEvent (ev_Seq ev) 0 (ev_Principal ev) (ev_Action ev) (ev_SandboxID ev) (ev_Generation ev)
    (if opt_some err then OutcomeFailed else OutcomeOK)
    (if opt_some err then ErrorCode err else ev_Code ev) detail.

Definition outcome (ev : AuditEvent) (err : option error) : M World unit :=
  let! _ := record (outcome_event ev err) in mreturn tt.

(** ** Ownership (ownership.go) *)

Definition owned (id : string) : M World (option error) :=
  match c_owns env with
  | None => mreturn None
  | Some owns =>
      let! r := ext (owns id) in
      mreturn (match r with
               | Fail e => Some (errwrap ErrUnavailable ("ownership of sandbox " ++ id ++ " cannot be read: ") e)
               | Ok true => None
               | Ok false => Some (Err [ErrUnavailable; ErrNotOwner]
                   (sentinel_text ErrUnavailable ++ ": " ++ sentinel_text ErrNotOwner ++ ": " ++ id))
               end)
  end.

(** ** The reconciler's queue (reconcile.go) *)

Definition kick_capacity : nat := 256.

Definition Kick (id : string) : M World unit :=
  set_shared (λ sh, if (length (sh_kicks sh) <? kick_capacity)%nat
                    then put_kicks sh (sh_kicks sh ++ [id])%list else sh) ;;;
  emit (EvKick id).

End world.

Arguments Shared : clear implicits.
Arguments Env : clear implicits.
Arguments World : clear implicits.
Arguments EgressProxy : clear implicits.
Arguments Interceptor : clear implicits.

(** ** A small environment for examples: nobody else is about, the record
    always keeps, nothing optional is configured. *)

Definition calm_env {S} (drivers : gmap string (Driver unit)) (settings : SettingsT) : Env S unit :=
  MkEnv drivers settings "process" (λ id, mreturn (Ok ("/ws/" ++ id))) None [] None (Some (λ t, t)) None None ""
    (mreturn 100%Z) (λ n, mreturn (Ok (repeat "a"%char n))) (λ _, mreturn None) None (λ _, []) (λ _ e, e)
    (mreturn (0%nat, errval Canceled)) (λ sh, mreturn sh).

Definition start_world {S E} (s : S) (e : E) : World S E :=
  MkWorld (MkShared s [] ∅ ∅ ∅ true None) e [].

(** ** Nobody else about *)

(** Nobody else writes the store. *)
Definition calm {S E} (env : Env S E) : Prop := ∀ sh e, sh_store (x_others env sh e).1 = sh_store sh.

Section calm.
Context {S E : Type} (env : Env S E).
Hypothesis Hcalm : calm env.
Abbreviation W := (World S E).
Abbreviation store_of w := (sh_store (w_sh w)).

Lemma on_store_calm {A} (m : M S A) w :
  (on_store env m w).1 = (m (store_of w)).1 ∧ store_of (on_store env m w).2 = (m (store_of w)).2.
Proof.
  unfold on_store, others, mthen. pose proof (Hcalm (w_sh w) (w_ext w)) as H.
  destruct (x_others env (w_sh w) (w_ext w)) as [sh e]. simpl in *. rewrite H.
  destruct (m (store_of w)) as [a s]. simpl. by destruct sh.
Qed.

Lemma writes_calm {A} what id (m : M S A) w :
  (writes env what id m w).1 = (m (store_of w)).1 ∧ store_of (writes env what id m w).2 = (m (store_of w)).2.
Proof.
  destruct (on_store_calm m w) as [H1 H2]. unfold writes, mthen. destruct (on_store env m w) as [a w1]. done.
Qed.
End calm.
