(* ===== verification/Mutate.v ===== *)
(** [Mutate] (controlplane/store.go): the control plane's only way to change a
    stored sandbox. It reads, lets the caller's function change a copy, and
    writes guarded by the version it read. The theorems say that what it
    commits is one atomic read-modify-write, whatever other clients do in
    between.

    The function it is given captures variables of its caller and may run more
    than once, so it passes their values [a] along. *)

From Stdlib Require Import ZArith NArith Ascii String Lia.
From stdpp Require Import base tactics list gmap strings relations.
From S2P Require Import Prelude GoStd Errors Labels Driver Lifecycle Etag Settings Store Memory World.

#[local] Open Scope string_scope.
#[local] Open Scope go_scope.

Definition mutateRetries : nat := 5.

(** An If-Match header that names a version. *)
Definition pinned (ifMatch : string) : bool :=
  negb (String.eqb (TrimSpace ifMatch) "") && negb (String.eqb (TrimSpace ifMatch) "*").

Section mutate.
Context {S E : Type} `{!Store S} (env : Env S E) {A : Type}.
Implicit Types (fn : Sandbox → A → M (World S E) (result Sandbox * A)).

(** The retry loop, [more] more attempts after this one. *)
Fixpoint mutate_loop (more : nat) (id ifMatch : string) fn (a : A) : M (World S E) (result Sandbox * A) :=
  let! r := on_store env (st_Get id) in
  match r with
  | Fail e => mreturn (Fail e, a)
  | Ok cur =>
  match CheckIfMatch ifMatch (ResourceVersion cur) with
  | Some e => mreturn (Fail e, a)
  | None =>
  let! (r, a) := fn cur a in
  match r with
  | Fail e => mreturn (Fail e, a)
  | Ok next =>
  let! u := writes env "Update" id (st_Update next (ResourceVersion cur)) in
  match u with
  | Ok out => mreturn (Ok out, a)
  | Fail e =>
      if negb (Is e ErrVersionMismatch) then mreturn (Fail e, a)
      else if pinned ifMatch then mreturn (Fail (errorf ErrPreconditionFailed (e_text e)), a)
      else match more with
           | 0%nat => mreturn (Fail e, a)
           | Datatypes.S more => mutate_loop more id ifMatch fn a
           end
  end end end end.

Definition Mutate (id ifMatch : string) fn (a : A) : M (World S E) (result Sandbox * A) :=
  mutate_loop mutateRetries id ifMatch fn a.
End mutate.

(** ** What is assumed of everyone else *)

(** Between two of our store calls others make at most [B] calls of their own. *)
Definition fair_others {S E} `{!Store S} (env : Env S E) (B : nat) : Prop :=
  ∀ sh e, ∃ n, (n ≤ B)%nat ∧ nsteps store_step n (sh_store sh) (sh_store (x_others env sh e).1).

(** A run that makes no store call of its own and lets nobody else make one. *)
Definition store_quiet {S E R} (m : M (World S E) R) : Prop :=
  ∀ w, sh_store (w_sh (m w).2) = sh_store (w_sh w).

(** The version counter is far enough from the top of int64 for [k] calls. *)
Definition room {S E} `{!Store S, !StoreLaws S} (k : nat) (w : World S E) : Prop :=
  st_ok (sh_store (w_sh w)) ∧ (top (sh_store (w_sh w)) + Z.of_nat k <= int64_max)%Z.

(** ** Lemmas *)

Section lemmas.
Context {S E : Type} `{!Store S, !StoreLaws S} (env : Env S E) (B : nat).
Hypothesis Hothers : fair_others env B.
Implicit Types (w : World S E).

Abbreviation store_of w := (sh_store (w_sh w)).

(** One store call: others ran [n] steps to reach the store it acts on. *)
Lemma on_store_run {R} (m : M S R) w :
  ∃ s n, (n ≤ B)%nat ∧ nsteps store_step n (store_of w) s ∧
    (on_store env m w).1 = (m s).1 ∧ store_of (on_store env m w).2 = (m s).2.
Proof.
  unfold on_store, others, mthen. destruct (x_others env (w_sh w) (w_ext w)) as [sh e] eqn:Ho. simpl.
  destruct (Hothers (w_sh w) (w_ext w)) as (n & Hn & Hs). rewrite Ho in Hs. simpl in Hs.
  destruct (m (sh_store sh)) as [a s] eqn:Hm. simpl.
  exists (sh_store sh), n. rewrite Hm. simpl. destruct sh; simpl. done.
Qed.

Lemma writes_run {R} what id (m : M S R) w :
  ∃ s n, (n ≤ B)%nat ∧ nsteps store_step n (store_of w) s ∧
    (writes env what id m w).1 = (m s).1 ∧ store_of (writes env what id m w).2 = (m s).2.
Proof.
  destruct (on_store_run m w) as (s & n & Hn & Hs & H1 & H2). exists s, n. split_and!; [done|done| |];
  unfold writes, mthen; destruct (on_store env m w) as [a w1]; simpl in *; congruence.
Qed.

Lemma steps_room k w (s : S) n :
  room (k + B) w → (n ≤ B)%nat → nsteps store_step n (store_of w) s →
  st_ok s ∧ (top (store_of w) <= top s)%Z ∧ (top s + Z.of_nat k <= int64_max)%Z.
Proof.
  intros [Hok Hr] Hn Hs. destruct (steps_ok n _ _ Hok ltac:(lia) Hs) as [? ?]. split_and!; [done|lia|lia].
Qed.

(** Our own calls are store steps. *)
Lemma Get_room k s id :
  st_ok s → (top s + Z.of_nat (1 + k) <= int64_max)%Z →
  st_ok (st_Get id s).2 ∧ (top (st_Get id s).2 + Z.of_nat k <= int64_max)%Z.
Proof.
  intros Hok Hr. split; [eapply step_ok; [done|lia|apply by_Get]|].
  pose proof (step_top s _ Hok ltac:(lia) (by_Get s id)). lia.
Qed.

Lemma Update_room k s sb v :
  st_ok s → (top s + Z.of_nat (1 + k) <= int64_max)%Z →
  st_ok (st_Update sb v s).2 ∧ (top (st_Update sb v s).2 + Z.of_nat k <= int64_max)%Z.
Proof.
  intros Hok Hr. split; [eapply step_ok; [done|lia|apply by_Update]|].
  pose proof (step_top s _ Hok ltac:(lia) (by_Update s sb v)). lia.
Qed.

(** What a successful [Mutate] did: [cur] was stored under [id] when the
    write happened, [fn] made [next] of it, and the write put [next] there at
    a new version; nothing else changed. *)
Definition committed_write (id ifMatch : string) {A} (I : A → Prop) (fn : Sandbox → A → M (World S E) (result Sandbox * A))
    (out : Sandbox) (a' : A) (s' : S) : Prop :=
  ∃ cur next a1 w1 s,
    I a1 ∧ (fn cur a1 w1).1 = (Ok next, a') ∧
    CheckIfMatch ifMatch (ResourceVersion cur) = None ∧
    CheckImmutable cur next = None ∧ Valid (State next) = true ∧
    out = with_version next (ResourceVersion out) ∧
    st_ok s ∧ view s !! id = Some cur ∧ (top s < ResourceVersion out)%Z ∧ view s' = <[id := out]> (view s).

Context {A : Type} (I : A → Prop) (fn : Sandbox → A → M (World S E) (result Sandbox * A)).
Hypothesis fn_keeps_I : ∀ sb a w, I a → I (fn sb a w).1.2.
Hypothesis fn_quiet : ∀ sb a, store_quiet (fn sb a).
Hypothesis fn_keeps_id : ∀ sb a w next a', ValidID (ID sb) = true → (fn sb a w).1 = (Ok next, a') → ID next = ID sb.

(** One read: the object read, and room for what follows. *)
Lemma read_run k id w r0 w0 :
  room (B + (1 + k)) w → on_store env (st_Get id) w = (r0, w0) →
  st_ok (store_of w0) ∧ (top (store_of w0) <= top (store_of w) + Z.of_nat (B + 1))%Z ∧
  (top (store_of w0) + Z.of_nat k <= int64_max)%Z ∧
  match r0 with Ok cur => view (store_of w0) !! id = Some cur ∧ ID cur = id ∧ ValidID id = true | Fail _ => True end.
Proof.
  intros [Hok Hroom] Hrun. destruct (on_store_run (st_Get id) w) as (s0 & n0 & Hn0 & Hs0 & Hr0 & Hw0).
  rewrite Hrun in Hr0, Hw0. simpl in Hr0, Hw0.
  destruct (steps_ok n0 _ _ Hok ltac:(lia) Hs0) as [Hok0 [_ Ht0]].
  destruct (Get_room k s0 id Hok0 ltac:(lia)) as [Hok1 Ht1].
  pose proof (step_top s0 _ Hok0 ltac:(lia) (by_Get s0 id)) as [_ Ht2].
  pose proof (Get_spec s0 id Hok0) as [Hv0 Hg0]. rewrite <- Hr0 in Hg0. rewrite Hw0.
  split_and!; [done|lia|lia|]. destruct r0 as [cur|]; [|done].
  rewrite Hv0. split_and!; [done|by eapply view_id; [|exact Hg0]|by destruct (view_valid s0 id cur Hok0 Hg0)].
Qed.

(** One guarded write of a copy of what was read at the same version. *)
Lemma update_run k id cur next w u w' :
  room (B + (1 + k)) w → view (store_of w) !! id = Some cur → ID next = id →
  writes env "Update" id (st_Update next (ResourceVersion cur)) w = (u, w') →
  st_ok (store_of w') ∧ (top (store_of w') <= top (store_of w) + Z.of_nat (B + 1))%Z ∧
  match u with
  | Ok out => CheckImmutable cur next = None ∧ Valid (State next) = true ∧
      out = with_version next (ResourceVersion out) ∧
      ∃ s, st_ok s ∧ view s !! id = Some cur ∧ (top s < ResourceVersion out)%Z ∧ view (store_of w') = <[id := out]> (view s)
  | Fail _ => True
  end.
Proof.
  intros [Hok Hroom] Hcur Hid Hrun.
  destruct (writes_run "Update" id (st_Update next (ResourceVersion cur)) w) as (s & n & Hn & Hs & Hr & Hw).
  rewrite Hrun in Hr, Hw. simpl in Hr, Hw.
  destruct (steps_ok n _ _ Hok ltac:(lia) Hs) as [Hok1 [_ Ht1]].
  pose proof (Update_room 0 s next (ResourceVersion cur) Hok1 ltac:(lia)) as [Hok2 _].
  pose proof (step_top s _ Hok1 ltac:(lia) (by_Update s next (ResourceVersion cur))) as [_ Ht2].
  pose proof (Update_spec s next (ResourceVersion cur) Hok1 ltac:(lia)) as Hu. rewrite <- Hr in Hu. rewrite Hw.
  split_and!; [done|lia|]. destruct u as [out|]; [|done].
  destruct Hu as (c & Hl & Hrv & Him & Hval & Htop & Hout & Hvw). rewrite Hid in Hl, Hvw.
  assert (cur = c) as <- by (eapply (version_identifies n (store_of w) s id); [done|lia|done..|congruence]).
  split_and!; [done..|]. by exists s.
Qed.

Lemma mutate_loop_commits more id ifMatch a w out a' w' :
  I a → room ((2 * B + 2) * Datatypes.S more) w →
  mutate_loop env more id ifMatch fn a w = ((Ok out, a'), w') →
  committed_write id ifMatch I fn out a' (store_of w').
Proof.
  revert a w. induction more as [|more IH]; intros a w Ha Hroom Hrun; simpl in Hrun;
    unfold mthen at 1 in Hrun; destruct (on_store env (st_Get id) w) as [r0 w0] eqn:E0.
  all: destruct r0 as [cur|]; [|done].
  all: destruct (CheckIfMatch ifMatch (ResourceVersion cur)) eqn:Eif; [done|].
  all: unfold mthen at 1 in Hrun; destruct (fn cur a w0) as [[r1 a1] w1] eqn:E1.
  all: destruct r1 as [next|]; [|done].
  all: unfold mthen at 1 in Hrun;
       destruct (writes env "Update" id (st_Update next (ResourceVersion cur)) w1) as [r2 w2] eqn:E2.
  all: pose proof (fn_quiet cur a w0) as Hq; rewrite E1 in Hq; simpl in Hq.
  all: destruct Hroom as [Hok Hroom].
  all: destruct (read_run (B + 1) id w (Ok cur) w0 ltac:(split; [done|lia]) E0) as (Hok0 & Ht0 & Hr0 & Hcur & Hcid & Hval).
  all: rewrite <- Hcid in Hval; pose proof (fn_keeps_id cur a w0 next a1 Hval ltac:(by rewrite E1)) as Hid.
  all: rewrite <- Hq in Hok0, Ht0, Hr0, Hcur; rewrite Hcid in Hid.
  all: destruct (update_run 0 id cur next w1 r2 w2 ltac:(split; [done|lia]) Hcur Hid E2) as (Hok2 & Ht2 & Hu).
  all: destruct r2 as [out2|e2].
  1,3: unfold mreturn in Hrun; simplify_eq/=; destruct Hu as (? & ? & ? & s & ? & ? & ? & ?);
    exists cur, next, a, w0, s; rewrite E1; done.
  all: destruct (negb (Is e2 ErrVersionMismatch)); [done|].
  all: destruct (pinned ifMatch); [done|].
  - done.
  - apply (IH _ _) in Hrun; [done| |split; [done|lia]]. pose proof (fn_keeps_I cur a w0 Ha) as HI. by rewrite E1 in HI.
Qed.
End lemmas.

(** Store writes in a trace. *)
Definition is_write (e : effect) : bool := match e with EvStore _ _ => true | _ => false end.
Definition write_count (tr : list effect) : nat := length (filter (λ e, is_write e = true) tr).

Lemma write_count_app a b : write_count (a ++ b) = (write_count a + write_count b)%nat.
Proof. unfold write_count. by rewrite filter_app, length_app. Qed.

Lemma on_store_trace {S E R} (env : Env S E) (m : M S R) w : w_trace (on_store env m w).2 = w_trace w.
Proof.
  unfold on_store, others, mthen. destruct (x_others env (w_sh w) (w_ext w)). simpl.
  by destruct (m (sh_store s)).
Qed.

Lemma writes_trace {S E R} (env : Env S E) what id (m : M S R) w :
  w_trace (writes env what id m w).2 = (w_trace w ++ [EvStore what id])%list.
Proof.
  unfold writes, mthen. pose proof (on_store_trace env m w) as H.
  destruct (on_store env m w) as [a w1]. simpl in *. by rewrite H.
Qed.

Lemma mutate_loop_writes {S E A} `{!Store S} (env : Env S E) (fn : Sandbox → A → M (World S E) (result Sandbox * A))
    more id ifMatch a w :
  (∀ sb a w, write_count (w_trace (fn sb a w).2) = write_count (w_trace w)) →
  (write_count (w_trace (mutate_loop env more id ifMatch fn a w).2) <= write_count (w_trace w) + Datatypes.S more)%nat.
Proof.
  intros Hfn. revert a w. induction more as [|more IH]; intros a w; simpl; unfold mthen at 1;
    pose proof (on_store_trace env (st_Get id) w) as H0; destruct (on_store env (st_Get id) w) as [r0 w0]; simpl in H0.
  all: destruct r0 as [cur|]; [|simpl; rewrite H0; lia].
  all: destruct (CheckIfMatch ifMatch (ResourceVersion cur)); [simpl; rewrite H0; lia|].
  all: unfold mthen at 1; pose proof (Hfn cur a w0) as H1; destruct (fn cur a w0) as [[r1 a1] w1]; simpl in H1.
  all: destruct r1 as [next|]; [|simpl; rewrite H1, H0; lia].
  all: unfold mthen at 1; pose proof (writes_trace env "Update" id (st_Update next (ResourceVersion cur)) w1) as H2;
       destruct (writes env "Update" id (st_Update next (ResourceVersion cur)) w1) as [r2 w2]; simpl in H2.
  all: assert (H3 : write_count (w_trace w2) = (write_count (w_trace w) + 1)%nat)
         by (rewrite H2, write_count_app, H1, H0; reflexivity).
  all: destruct r2 as [out|e]; [simpl; lia|].
  all: destruct (negb (Is e ErrVersionMismatch)); [simpl; lia|].
  all: destruct (pinned ifMatch); [simpl; lia|].
  - simpl. lia.
  - specialize (IH a1 w2). lia.
Qed.

(** ** Properties *)

(** C17: A lost update is impossible. Whatever other clients of the store do
    between its calls (at most [B] calls each time), a [Mutate] that succeeds
    is one atomic read-modify-write: the object it returns is what [fn] made
    of the object stored under the id at the instant of the write, with only a
    new, never used resource version added; every other object is as it was;
    and the write kept the owner, the driver, the creation time and a
    generation that does not go down. With an If-Match header, the object
    written over is the one whose version the header names. It makes at most
    six writes. *)
Theorem Mutate_atomic {S E A : Type} `{!Store S, !StoreLaws S} (env : Env S E) (B : nat)
    (fn : Sandbox → A → M (World S E) (result Sandbox * A)) (id ifMatch : string) (a a' : A)
    (w w' : World S E) (out : Sandbox) :
  fair_others env B →
  (∀ sb a, store_quiet (fn sb a)) →
  (∀ sb a w next a', ValidID (ID sb) = true → (fn sb a w).1 = (Ok next, a') → ID next = ID sb) →
  (∀ sb a w, write_count (w_trace (fn sb a w).2) = write_count (w_trace w)) →
  room ((2 * B + 2) * 6) w →
  Mutate env id ifMatch fn a w = ((Ok out, a'), w') →
  (∃ cur next a1 w1 s,
    (fn cur a1 w1).1 = (Ok next, a') ∧
    CheckIfMatch ifMatch (ResourceVersion cur) = None ∧
    Owner next = Owner cur ∧ DriverName next = DriverName cur ∧ CreatedAt next = CreatedAt cur ∧
    (Generation cur <= Generation next)%Z ∧
    out = with_version next (ResourceVersion out) ∧
    view s !! id = Some cur ∧ (top s < ResourceVersion out)%Z ∧
    view (sh_store (w_sh w')) = <[id := out]> (view s)) ∧
  (write_count (w_trace w') <= write_count (w_trace w) + 6)%nat.
Proof.
  intros Ho Hq Hid Hw Hroom Hrun. split.
  - destruct (mutate_loop_commits env B Ho (λ _, True) fn ltac:(done) Hq Hid _ _ _ _ _ _ _ _ I Hroom Hrun)
      as (cur & next & a1 & w1 & s & _ & ? & ? & (? & ? & ? & ?)%CheckImmutable_None & ? & ? & ? & ? & ? & ?).
    by exists cur, next, a1, w1, s.
  - pose proof (mutate_loop_writes env fn mutateRetries id ifMatch a w Hw) as H.
    unfold Mutate in Hrun. rewrite Hrun in H. exact H.
Qed.

(** A store whose only sandbox is [sb]. *)
Definition one_sandbox (sb : Sandbox) : Memory := MkMemory (ResourceVersion sb) {[ID sb := sb]} ∅ 0 [] ∅ 0.

Lemma one_sandbox_ok sb : ValidID (ID sb) = true → Valid (State sb) = true → (1 <= ResourceVersion sb)%Z → memory_ok (one_sandbox sb).
Proof.
  intros Hi Hv Hr. split; simpl; [lia|]. intros id s [<- <-]%lookup_singleton_Some. split_and!; [done|done|done|lia|lia].
Qed.

Definition demo_sandbox : Sandbox :=
  MkSandbox "sbx_0123456789abcdef" 3 7 "base" "" "process" StateStopped [] {["team" := "a"]} "alice" "" ∅ 0 None 1 1.

Definition start_fn (sb : Sandbox) (a : unit) : M (World Memory unit) (result Sandbox * unit) :=
  mreturn (Transition sb StateStarting 50, a).

Lemma calm_fair {S} `{!Store S} drivers settings : fair_others (calm_env (S:=S) drivers settings) 0.
Proof. intros sh e. exists 0%nat. split; [done|apply nsteps_O]. Qed.

Lemma Mutate_atomic_witness :
  let w := start_world (one_sandbox demo_sandbox) tt in
  let run := Mutate (calm_env ∅ capped_settings) (ID demo_sandbox) (ETag 7) start_fn tt w in
  let out := with_version (with_state demo_sandbox 4 StateStarting 50) 8 in
  run.1.1 = Ok out ∧ (write_count (w_trace run.2) <= 6)%nat ∧
  ∃ s : Memory, view s !! "sbx_0123456789abcdef" = Some demo_sandbox.
Proof.
  intros w run out. assert (Hrun : run.1.1 = Ok out) by (vm_compute; reflexivity).
  destruct (Mutate_atomic (calm_env ∅ capped_settings) 0 start_fn (ID demo_sandbox) (ETag 7) tt tt w run.2 out)
    as [(cur & next & a1 & w1 & s & Hn & Hif & _ & _ & _ & _ & _ & Hv & _) Hc].
  - apply calm_fair.
  - done.
  - intros sb [] w0 next [] _ Hn. simpl in Hn. injection Hn as Hn.
    apply Transition_Ok in Hn as (_ & _ & _ & _ & ->). by destruct sb.
  - done.
  - split; [apply one_sandbox_ok; [reflexivity|reflexivity|by vm_compute]|by vm_compute].
  - vm_compute. reflexivity.
  - split_and!; [exact Hrun|exact Hc|].
    exists (one_sandbox demo_sandbox). reflexivity.
Defined.

(** A resource version names one content of an object for good (there is no
    ABA): whatever other clients of a store do in between, an object that is
    read again at the version it was read at before is the same object. *)
Theorem version_names_content {S} `{!Store S, !StoreLaws S} (n : nat) (s s' : S) (id : string) (a b : Sandbox) :
  st_ok s → (top s + Z.of_nat n <= int64_max)%Z → nsteps store_step n s s' →
  view s !! id = Some a → view s' !! id = Some b → ResourceVersion a = ResourceVersion b → a = b.
Proof. apply version_identifies. Qed.

Lemma version_names_content_witness :
  let s := one_sandbox demo_sandbox in
  let s' := (st_Create (MkSandbox "sbx_fedcba9876543210" 1 0 "" "" "process" StateStopped [] ∅ "bob" "" ∅ 0 None 1 1) s).2 in
  size (view s') = 2%nat ∧ default zero_sandbox (view s' !! ID demo_sandbox) = demo_sandbox.
Proof.
  intros s s'. split; [vm_compute; reflexivity|]. symmetry.
  apply (version_names_content 1 s s' (ID demo_sandbox) demo_sandbox (default zero_sandbox (view s' !! ID demo_sandbox))).
  - apply one_sandbox_ok; [reflexivity|reflexivity|by vm_compute].
  - by vm_compute.
  - apply nsteps_once, by_Create.
  - reflexivity.
  - vm_compute. reflexivity.
  - vm_compute. reflexivity.
Defined.
