(* ===== verification/Admission.v ===== *)
(** Admission (controlplane/guard.go, controlplane/admission.go): asking the
    installed guard, asking the interceptor, and checking that what an
    interceptor admitted is no more than it may change.

    The guard and the interceptor are not under src/controlplane: they are
    parameters (a guard of the shared state, an interceptor of [Env]), and
    nothing is assumed of what they answer. *)

From Stdlib Require Import ZArith NArith Ascii String Lia.
From stdpp Require Import base tactics list gmap strings relations.
From S2P Require Import Prelude GoStd Errors Labels Driver Lifecycle Etag Settings Store Memory World Mutate.

#[local] Open Scope string_scope.
#[local] Open Scope go_scope.

(** ** Operations and phases *)

Definition OpCreate : string := "create".
Definition OpUpdate : string := "update".
Definition OpStart : string := "start".
Definition OpStop : string := "stop".
Definition OpDelete : string := "delete".
Definition OpExec : string := "exec".

(** What [strings.Cut] puts before the separator: all of it when there is none. *)
Definition cut_before (s sep : string) : string := match Cut s sep with Some (k, _) => k | None => s end.

Definition envNames (env : list string) : list string := (λ kv, cut_before kv "=") <$> env.

(** ** JSON as a comparison

    [checkAdmitted] compares two objects as the JSON [json.Marshal] makes of
    them. JSON text keeps a valid UTF-8 string as it is and writes one escape
    for every byte that is not part of one; a time outside the years 0 to 9999
    cannot be written. *)

Definition cont (lo hi : N) (o : option ascii) : bool :=
  match o with Some c => (lo <=? bv c)%N && (bv c <=? hi)%N | None => false end.

(** The width of the UTF-8 sequence at the head; 0 for an invalid byte. *)
Definition utf8_width (s : string) : nat :=
  match s with
  | EmptyString => 0
  | String c _ =>
      let b := bv c in
      let c1 := cont 128 191 (str_at s 1) in
      let c2 := cont 128 191 (str_at s 2) in
      let c3 := cont 128 191 (str_at s 3) in
      if (b <? 128)%N then 1
      else if (b <? 194)%N then 0
      else if (b <? 224)%N then (if c1 then 2 else 0)
      else if (b =? 224)%N then (if cont 160 191 (str_at s 1) && c2 then 3 else 0)
      else if (b =? 237)%N then (if cont 128 159 (str_at s 1) && c2 then 3 else 0)
      else if (b <? 240)%N then (if c1 && c2 then 3 else 0)
      else if (b =? 240)%N then (if cont 144 191 (str_at s 1) && c2 && c3 then 4 else 0)
      else if (b <? 244)%N then (if c1 && c2 && c3 then 4 else 0)
      else if (b =? 244)%N then (if cont 128 143 (str_at s 1) && c2 && c3 then 4 else 0)
      else 0
  end%nat.

(** The text as JSON tells it apart: [None] for an invalid byte. *)
Fixpoint json_go (skip : nat) (s : string) : list (option ascii) :=
  match s with
  | EmptyString => []
  | String c r =>
      match skip with
      | Datatypes.S k => Some c :: json_go k r
      | O => match utf8_width s with
             | O => None :: json_go O r
             | Datatypes.S k => Some c :: json_go k r
             end
      end
  end.

Definition json_text (s : string) : list (option ascii) := json_go 0 s.

Definition json_time (t : Z) : bool := (-31622400 * second <=? t)%Z && (t <? 315537897600 * second)%Z.

Definition json_condition (c : Condition) :=
  (json_text (c_Type c), json_text (status_text (c_Status c)), json_text (c_Reason c), json_text (c_Message c),
   c_ObservedGeneration c, c_LastTransition c).

(** A sandbox without its labels and settings, as JSON tells it apart. *)
Definition json_rest (s : Sandbox) :=
  (json_text (ID s), Generation s, ResourceVersion s, json_text (Template s), json_text (PolicyRev s),
   json_text (DriverName s), json_text (state_text (State s)), json_condition <$> Conditions s,
   json_text (Owner s), json_text (Tier s), Restarts s, NextRestart s, CreatedAt s, UpdatedAt s).

Definition json_marshals (s : Sandbox) : bool :=
  forallb (λ c, json_time (c_LastTransition c)) (Conditions s)
  && match NextRestart s with Some t => json_time t | None => true end
  && json_time (CreatedAt s) && json_time (UpdatedAt s).

(** ** checkAdmitted *)

Definition checkAdmitted (st : SettingsT) (op : string) (inn out : Sandbox) : option error :=
  if negb (json_marshals inn && json_marshals out && bool_decide (json_rest inn = json_rest out)) then
    Some (errorf ErrInvalid "an interceptor may change only labels and settings")
  else if String.eqb op OpExec
          && (negb (bool_decide (Labels inn = Labels out)) || negb (bool_decide (Settings inn = Settings out))) then
    Some (errorf ErrInvalid "an exec cannot be patched")
  else
    and_then
      (first_error (λ '(k, v), fail_if (HasPrefix k ReservedPrefix && negb (String.eqb (map_get (Labels out) k) v))
          (errorf ErrInvalid ("label " ++ Quote k ++ " is reserved")))
         (map_to_list (Labels inn)))
    (and_then
      (first_error (λ '(k, v), fail_if (negb (opt_some (Labels inn !! k)) && HasPrefix k ReservedPrefix)
          (errorf ErrInvalid ("label " ++ Quote k ++ " is reserved")))
         (map_to_list (Labels out)))
    (and_then (ValidateLabels (Labels out) true)
    (and_then (CheckSettings st (Settings out))
       (NoLooser st (Settings inn) (Settings out))))).

(** ** The guard and the interceptor *)

Section admission.
Context {S E : Type} (env : Env S E).

(** Runs what a guard handed back; a nil release is nothing to run. *)
Definition release (r : option nat) : M (World S E) unit :=
  match r with
  | None => mreturn tt
  | Some t => ext (λ e, (tt, x_release env t e)) ;;; emit (EvRelease t)
  end.

Definition SetGuard (og : option (Admission → M E GuardAnswer)) : M (World S E) (option error) :=
  match og with
  | None => mreturn (Some (plain "control plane: a nil guard"))
  | Some g =>
      let! sh := shared in
      match sh_guard sh with
      | Some _ => mreturn (Some (plain "control plane: a guard is already installed"))
      | None => set_shared (λ sh, put_guard sh (Some g)) ;;; mreturn None
      end
  end.

Definition with_context (x : Ctx) (a : Admission) : Admission :=
  MkAdmission (ad_Action a) (ad_Caller a) (ad_Sandbox a) (ad_Next a) (ad_Exec a) (ad_Grace a)
    (ApprovalOf x) (OriginOf x).

(** [guardAdmit]: the release to run when the operation has ended, and the
    next object as the guard left it. *)
Definition guardAdmit (x : Ctx) (a : Admission) : M (World S E) (result (option nat * option Sandbox)) :=
  let! sh := shared in
  match sh_guard sh with
  | None => emit (EvGuard true None) ;;; mreturn (Ok (None, ad_Next a))
  | Some g =>
      let! ans := ext (g (with_context x a)) in
      emit (EvGuard (negb (opt_some (ga_err ans))) (ga_release ans)) ;;;
      match ga_err ans with
      | Some e => release (ga_release ans) ;;; mreturn (Fail (guardErr e))
      | None => mreturn (Ok (ga_release ans,
                  match ad_Next a with Some next => Some (default next (ga_next ans)) | None => None end))
      end
  end.

(** One decision as the record keeps it. *)
Definition decision_event (req : AdmissionRequest) (d : AdmissionDecision) : AuditEvent :=
  let failed := String.eqb (dc_Decision d) "deny" || String.eqb (dc_Decision d) "error" in
  let detail : strmap :=
    <["operation" := ar_Operation req]> (<["hook" := dc_Hook d]> (<["phase" := dc_Phase d]>
      {["decision" := dc_Decision d]})) in
  let detail := if str_nonempty (dc_Reason d) then <["reason" := reason env (dc_Reason d)]> detail else detail in
  let detail := if (0 <? length (dc_Patched d))%nat then <["patched" := Join (dc_Patched d) ","]> detail else detail in
  let detail := if dc_FailOpen d then <["fail_open" := "true"]> detail else detail in
  MkEvent 0 0 (Principal (ar_Caller req)) "admission" (ar_SandboxID req) (Generation (ar_Object req))
    (if failed then OutcomeFailed else OutcomeOK)
    (if String.eqb (dc_Decision d) "error" then "unavailable" else if failed then "forbidden" else "") detail.

Fixpoint recordDecisions (req : AdmissionRequest) (ds : list AdmissionDecision) : M (World S E) (option error) :=
  match ds with
  | [] => mreturn None
  | d :: ds =>
      let! err := record env (decision_event req d) in
      match err with Some e => mreturn (Some e) | None => recordDecisions req ds end
  end.

Definition patch_denied (e : error) : AdmissionDecision :=
  {| dc_Hook := "abhed"; dc_Phase := "patch"; dc_Decision := "deny"; dc_Reason := e_text e;
     dc_Patched := []; dc_FailOpen := false |}.

(** [admit] (its Go name): the object to commit. *)
Definition svc_admit (req : AdmissionRequest) : M (World S E) (result Sandbox) :=
  match c_interceptor env with
  | None => mreturn (Ok (ar_Object req))
  | Some ic =>
      let! (res, err) := ext (in_Admit ic req) in
      let! rerr := recordDecisions req (res_Decisions res) in
      match rerr with Some e => mreturn (Fail e) | None =>
      match err with
      | Some e =>
          mreturn (Fail (if Is e ErrDenied || Is e ErrUnavailable then e
                         else errwrap ErrUnavailable "admission failed: " e))
      | None =>
          match checkAdmitted (c_settings env) (ar_Operation req) (ar_Object req) (res_Object res) with
          | Some e => let! _ := recordDecisions req [patch_denied e] in mreturn (Fail (errwrap ErrDenied "" e))
          | None => mreturn (Ok (res_Object res))
          end
      end end
  end.

Definition svc_committed (req : AdmissionRequest) (out : Sandbox) (err : option error) : M (World S E) unit :=
  match c_interceptor env with
  | None => mreturn tt
  | Some ic =>
      let! ds := ext (in_Committed ic req out err) in
      let! _ := recordDecisions req ds in mreturn tt
  end.
End admission.

(** ** Lemmas *)

Lemma reserved_kept_None inn out :
  first_error (λ '(k, v), fail_if (HasPrefix k ReservedPrefix && negb (String.eqb (map_get out k) v))
     (errorf ErrInvalid ("label " ++ Quote k ++ " is reserved"))) (map_to_list (inn : strmap)) = None ↔
  ∀ k v, HasPrefix k ReservedPrefix = true → inn !! k = Some v → map_get out k = v.
Proof.
  rewrite (first_error_map_None (λ '(k, v), fail_if (HasPrefix k ReservedPrefix && negb (String.eqb (map_get out k) v)) _)).
  setoid_rewrite fail_if_None. split.
  - intros H k v Hp Hk. specialize (H k v Hk). rewrite Hp in H. simpl in H.
    by apply negb_false_iff, String.eqb_eq in H.
  - intros H k v Hk. destruct (HasPrefix k ReservedPrefix) eqn:Hp; [simpl|done].
    by apply negb_false_iff, String.eqb_eq, H.
Qed.

Lemma reserved_new_None inn out :
  first_error (λ '(k, v), fail_if (negb (opt_some (inn !! k)) && HasPrefix k ReservedPrefix)
     (errorf ErrInvalid ("label " ++ Quote k ++ " is reserved"))) (map_to_list (out : strmap)) = None ↔
  ∀ k, HasPrefix k ReservedPrefix = true → is_Some (out !! k) → is_Some ((inn : strmap) !! k).
Proof.
  rewrite (first_error_map_None (λ '(k, v), fail_if (negb (opt_some (inn !! k)) && HasPrefix k ReservedPrefix) _)).
  setoid_rewrite fail_if_None. split.
  - intros H k Hp [v Hk]. specialize (H k v Hk). rewrite Hp, andb_true_r in H.
    destruct (inn !! k); [eauto|done].
  - intros H k v Hk. destruct (HasPrefix k ReservedPrefix) eqn:Hp; [|apply andb_false_r].
    destruct (H k Hp ltac:(eauto)) as [x ->]. done.
Qed.

(** What [checkAdmitted] accepts. *)
Definition admitted_change (st : SettingsT) (op : string) (inn out : Sandbox) : Prop :=
  json_rest inn = json_rest out ∧
  (op = OpExec → Labels inn = Labels out ∧ Settings inn = Settings out) ∧
  (∀ k, HasPrefix k ReservedPrefix = true → map_get (Labels out) k = map_get (Labels inn) k) ∧
  labels_ok true (Labels out) ∧
  CheckSettings st (Settings out) = None ∧
  NoLooser st (Settings inn) (Settings out) = None.

Lemma checkAdmitted_None st op inn out :
  checkAdmitted st op inn out = None → admitted_change st op inn out.
Proof.
  unfold checkAdmitted. intros H.
  destruct (json_marshals inn && json_marshals out && bool_decide (json_rest inn = json_rest out)) eqn:Ej; [|discriminate H].
  apply andb_true_iff in Ej as [_ Ej%bool_decide_eq_true]. cbn [negb] in H.
  destruct (String.eqb op OpExec && _) eqn:Ex; [discriminate H|].
  apply and_then_None in H as [Hk [Hn [Hl%ValidateLabels_None [Hs Hlo]%and_then_None]%and_then_None]%and_then_None].
  pose proof (proj1 (reserved_kept_None _ _) Hk) as Hk'. pose proof (proj1 (reserved_new_None _ _) Hn) as Hn'.
  split_and!; [done| | |done..].
  - intros ->. rewrite String.eqb_refl in Ex. cbn [andb] in Ex. clear - Ex. bool_to_prop. by split.
  - intros k Hp. unfold map_get at 2. destruct (Labels inn !! k) as [v|] eqn:E; [exact (Hk' k v Hp E)|]; cbn [default].
    unfold map_get. destruct (Labels out !! k) as [v|] eqn:E'; [|reflexivity].
    destruct (Hn' k Hp ltac:(eauto)) as [x Hx]. rewrite E in Hx. discriminate Hx.
Qed.
