(* ===== verification/Protocol.v ===== *)
(** The protocol of a caller-made operation, as an automaton over the effects
    of a run: the request is on the record before anything else; the guard is
    asked only then; the store and the driver are touched only while the
    request is open and admitted, and only under its sandbox's id; the outcome
    is recorded once; every release a guard handed back and every credential
    the egress proxy issued is given back, once.

    [at_proto g p w] says the trace of [w] brings the automaton to [p]; [g] is
    whether touching anything needs the guard's admission. The triples below
    say what each step of the world does to [p]; the files that model the
    operations compose them. *)

From Stdlib Require Import ZArith NArith Ascii String Lia.
From stdpp Require Import base tactics list gmap strings relations.
From S2P Require Import Prelude GoStd Errors Labels Driver Lifecycle Etag Settings Store Memory World Mutate.
From S2P Require Import Admission.

#[local] Open Scope string_scope.
#[local] Open Scope go_scope.

(** ** The automaton *)

Abbreviation request := (string * string * string)%type.

Record protocol : Type := Proto {
  p_open : option request;      (* principal, action and sandbox of the open request *)
  p_admitted : bool;
  p_holds : list nat;           (* releases not yet run *)
  p_creds : list nat            (* credentials not yet ended *)
}.

Definition idle : protocol := Proto None false [] [].

Definition ev_key (ev : AuditEvent) : request := (ev_Principal ev, ev_Action ev, ev_SandboxID ev).

Definition hold (r : option nat) (l : list nat) : list nat := match r with Some t => t :: l | None => l end.

(** Takes one [t] out. *)
Fixpoint give_back (t : nat) (l : list nat) : option (list nat) :=
  match l with
  | [] => None
  | u :: l => if Nat.eqb t u then Some l else match give_back t l with Some r => Some (u :: r) | None => None end
  end.

Definition proto_step (g : bool) (p : protocol) (e : effect) : option protocol :=
  let 'Proto o a h c := p in
  match e with
  | EvAudit ev kept =>
      if String.eqb (ev_Outcome ev) OutcomeRequested then
        match o with
        | Some _ => None
        | None => Some (if kept then Proto (Some (ev_key ev)) false h c else p)
        end
      else if bool_decide (o = Some (ev_key ev)) then Some (Proto None false h c)
      else if String.eqb (ev_Action ev) "admission" then Some p
      else None
  | EvStore _ id | EvDriver _ id =>
      match o with
      | Some k => if String.eqb id k.2 && (a || negb g) then Some p else None
      | None => None
      end
  | EvGuard ok r => match o with Some k => Some (Proto o (a || ok) (hold r h) c) | None => None end
  | EvRelease t => match give_back t h with Some h => Some (Proto o a h c) | None => None end
  | EvCredential t => Some (Proto o a h (t :: c))
  | EvRevoke t => match give_back t c with Some c => Some (Proto o a h c) | None => None end
  | EvKick _ => Some p
  end.

Fixpoint proto_run (g : bool) (p : protocol) (tr : list effect) : option protocol :=
  match tr with
  | [] => Some p
  | e :: tr => match proto_step g p e with Some p => proto_run g p tr | None => None end
  end.

Definition at_proto {S E} (g : bool) (p : protocol) (w : World S E) : Prop :=
  proto_run g idle (w_trace w) = Some p.

(** ** Triples of the steps *)

Lemma proto_run_app g p tr e :
  proto_run g p (tr ++ [e]) = match proto_run g p tr with Some q => proto_step g q e | None => None end.
Proof.
  revert p. induction tr as [|x tr IH]; intros p; simpl.
  - by destruct (proto_step g p e).
  - destruct (proto_step g p x); [apply IH|done].
Qed.

Lemma give_back_head t l : give_back t (t :: l) = Some l.
Proof. simpl. by rewrite Nat.eqb_refl. Qed.

(** A run that leaves no effect. *)
Definition silent {S E A} (m : M (World S E) A) : Prop := ∀ w, w_trace (m w).2 = w_trace w.

Section triples.
Context {S E : Type} (env : Env S E) (g : bool).
Implicit Types (p : protocol) (w : World S E).

Abbreviation at_ := (at_proto (S:=S) (E:=E) g).

Lemma emit_triple p p' e : proto_step g p e = Some p' → triple (at_ p) (emit e) (λ _, at_ p').
Proof. intros H w Hw. unfold at_proto in *. simpl. by rewrite proto_run_app, Hw. Qed.

Lemma silent_triple {A} p (m : M (World S E) A) : silent m → triple (at_ p) m (λ _, at_ p).
Proof. intros H w Hw. unfold at_proto. by rewrite H. Qed.

Lemma silent_ext {A} (m : M E A) : silent (S:=S) (ext m).
Proof. intros w. unfold ext. by destruct (m (w_ext w)). Qed.
Lemma silent_shared : silent (S:=S) (E:=E) shared.
Proof. done. Qed.
Lemma silent_set_shared f : silent (S:=S) (E:=E) (set_shared f).
Proof. done. Qed.
Lemma silent_others : silent (others env).
Proof. intros w. unfold others. by destruct (x_others env (w_sh w) (w_ext w)). Qed.
Lemma silent_on_store {A} (m : M S A) : silent (on_store env m).
Proof. intros w. apply on_store_trace. Qed.
Lemma silent_now : silent (now env).
Proof. apply silent_ext. Qed.
Lemma silent_ret {A} (a : A) : silent (S:=S) (E:=E) (mreturn a).
Proof. done. Qed.
Lemma silent_bind {A B} (m : M (World S E) A) (k : A → M (World S E) B) :
  silent m → (∀ a, silent (k a)) → silent (mthen m k).
Proof. intros Hm Hk w. unfold mthen. specialize (Hm w). destruct (m w) as [a w1]; simpl in *. by rewrite Hk. Qed.

Lemma silent_owned id : silent (owned env id).
Proof.
  unfold owned. destruct (c_owns env); [|apply silent_ret].
  apply silent_bind; [apply silent_ext|]. intros ?. apply silent_ret.
Qed.

(** A test or an early return. *)
Lemma triple_any {A} p (a : A) (Q : A → World S E → Prop) : (∀ w, at_ p w → Q a w) → triple (at_ p) (mreturn a) Q.
Proof. apply triple_ret. Qed.

Lemma record_run ev :
  ∀ w, ∃ at_ev detail kept,
    w_trace (record env ev w).2 = (w_trace w ++ [EvAudit (MkEvent (ev_Seq ev) at_ev (ev_Principal ev) (ev_Action ev)
      (ev_SandboxID ev) (ev_Generation ev) (ev_Outcome ev) (ev_Code ev) detail) kept])%list ∧
    (record env ev w).1 = (if kept then None else Some (errorf ErrUnavailable "the record cannot be written")).
Proof.
  intros w. unfold record, mthen.
  set (t := (if (ev_At ev =? 0)%Z then now env else mreturn (ev_At ev))).
  assert (Ht : silent t).
  { subst t. destruct (ev_At ev =? 0)%Z; [apply silent_now|apply silent_ret]. }
  specialize (Ht w). destruct (t w) as [at_ev w1]. simpl in Ht.
  match goal with |- context [ext ?m w1] => pose proof (silent_ext m w1) as Hx; destruct (ext m w1) as [err w2] end.
  simpl in *. eexists _, _, _. split; [by rewrite Hx, Ht|]. by destruct err.
Qed.

Lemma record_requested_triple a h c ev :
  triple (at_ (Proto None a h c)) (record env (requested ev))
    (λ r, at_ (match r with None => Proto (Some (ev_key ev)) false h c | Some _ => Proto None a h c end)).
Proof.
  intros w Hw. destruct (record_run (requested ev) w) as (t & d & kept & Htr & Hr).
  unfold at_proto in *. rewrite Htr, Hr, proto_run_app, Hw. destruct kept; reflexivity.
Qed.

(** An event that is neither a request nor the open request's outcome. *)
Lemma record_side_triple p ev :
  ev_Outcome ev ≠ OutcomeRequested → ev_Action ev = "admission" → (∀ k, p_open p = Some k → k ≠ ev_key ev) →
  triple (at_ p) (record env ev) (λ _, at_ p).
Proof.
  intros Ho Ha Hk w Hw. destruct (record_run ev w) as (t & d & kept & Htr & _).
  unfold at_proto in *. rewrite Htr, proto_run_app, Hw. destruct p as [o a h c]. simpl.
  rewrite (proj2 (String.eqb_neq _ _)) by done.
  rewrite bool_decide_eq_false_2. { by rewrite Ha. }
  intros ->. by apply (Hk _ eq_refl).
Qed.

Lemma outcome_triple k a h c ev err :
  k = ev_key ev → triple (at_ (Proto (Some k) a h c)) (outcome env ev err) (λ _, at_ (Proto None false h c)).
Proof.
  intros -> w Hw. unfold outcome, mthen. destruct (record_run (outcome_event env ev err) w) as (t & d & kept & Htr & _).
  destruct (record env (outcome_event env ev err) w) as [r w1]. simpl in *.
  unfold at_proto in *. rewrite Htr, proto_run_app, Hw. simpl. destruct err; simpl.
  all: rewrite bool_decide_eq_true_2 by reflexivity; reflexivity.
Qed.

Definition request_id (k : request) : string := k.2.

Lemma writes_triple {A} k a h c what id (m : M S A) :
  id = request_id k → a || negb g = true →
  triple (at_ (Proto (Some k) a h c)) (writes env what id m) (λ _, at_ (Proto (Some k) a h c)).
Proof.
  intros -> Ha w Hw. unfold at_proto in *. rewrite writes_trace, proto_run_app, Hw. simpl. by rewrite String.eqb_refl, Ha.
Qed.

Lemma drives_triple {A} k a h c what id (m : M E A) :
  id = request_id k → a || negb g = true →
  triple (at_ (Proto (Some k) a h c)) (drives env what id m) (λ _, at_ (Proto (Some k) a h c)).
Proof.
  intros -> Ha. unfold drives. eapply triple_bind.
  - apply (emit_triple _ (Proto (Some k) a h c)). simpl. by rewrite String.eqb_refl, Ha.
  - cbn beta. intros ?; cbn beta; apply silent_triple, silent_bind; [apply silent_ext|]. intros r.
    apply silent_bind; [apply silent_others|]. intros ?; cbn beta; apply silent_ret.
Qed.

Lemma Kick_triple p id : triple (at_ p) (Kick id) (λ _, at_ p).
Proof.
  unfold Kick. eapply triple_bind; [apply silent_triple, silent_set_shared|]. intros ?; cbn beta.
  apply emit_triple. by destruct p.
Qed.

Lemma release_triple o a r h c :
  triple (at_ (Proto o a (hold r h) c)) (release env r) (λ _, at_ (Proto o a h c)).
Proof.
  destruct r as [t|]; simpl; [|by apply triple_ret].
  eapply triple_bind; [apply silent_triple, silent_ext|]. intros ?; cbn beta.
  apply emit_triple. simpl. by rewrite Nat.eqb_refl.
Qed.

Lemma guardAdmit_triple k h c x ad :
  triple (at_ (Proto (Some k) false h c)) (guardAdmit env x ad)
    (λ r, at_ (match r with
               | Ok (rel, _) => Proto (Some k) true (hold rel h) c
               | Fail _ => Proto (Some k) false h c
               end)).
Proof.
  unfold guardAdmit. eapply triple_bind; [apply silent_triple, silent_shared|]. intros sh.
  destruct (sh_guard sh) as [gd|].
  - eapply triple_bind; [apply silent_triple, silent_ext|]. intros ans.
    eapply triple_bind; [eapply emit_triple; reflexivity|]. intros ?; cbn beta.
    destruct (ga_err ans); simpl.
    + eapply triple_bind; [apply release_triple|]. intros ?. by apply triple_ret.
    + by apply triple_ret.
  - eapply triple_bind; [eapply emit_triple; reflexivity|]. intros ?. by apply triple_ret.
Qed.

Lemma recordDecisions_triple p req ds :
  (∀ k, p_open p = Some k → k.1.2 ≠ "admission") →
  triple (at_ p) (recordDecisions env req ds) (λ _, at_ p).
Proof.
  intros Hk. induction ds as [|d ds IH]; simpl; [by apply triple_ret|].
  eapply triple_bind; [apply record_side_triple|].
  - unfold decision_event. simpl. by case_match.
  - done.
  - intros k Ho ->. by apply (Hk _ Ho).
  - intros [e|]; [by apply triple_ret|exact IH].
Qed.

Lemma admit_triple p req :
  (∀ k, p_open p = Some k → k.1.2 ≠ "admission") →
  triple (at_ p) (svc_admit env req) (λ _, at_ p).
Proof.
  intros Hk. unfold svc_admit. destruct (c_interceptor env) as [ic|]; [|by apply triple_ret].
  eapply triple_bind; [apply silent_triple, silent_ext|]. intros [res err].
  eapply triple_bind; [by apply recordDecisions_triple|]. intros [e|]; [by apply triple_ret|].
  destruct err; [by apply triple_ret|]. destruct (checkAdmitted _ _ _ _); [|by apply triple_ret].
  eapply triple_bind; [by apply recordDecisions_triple|]. intros ?. by apply triple_ret.
Qed.

Lemma committed_triple p req out err :
  (∀ k, p_open p = Some k → k.1.2 ≠ "admission") →
  triple (at_ p) (svc_committed env req out err) (λ _, at_ p).
Proof.
  intros Hk. unfold svc_committed. destruct (c_interceptor env) as [ic|]; [|by apply triple_ret].
  eapply triple_bind; [apply silent_triple, silent_ext|]. intros ds.
  eapply triple_bind; [by apply recordDecisions_triple|]. intros ?. by apply triple_ret.
Qed.

Lemma mutate_triple `{!Store S} {A} k a h c id ifMatch (fn : Sandbox → A → M (World S E) (result Sandbox * A)) x :
  id = request_id k → a || negb g = true →
  (∀ sb x, triple (at_ (Proto (Some k) a h c)) (fn sb x) (λ _, at_ (Proto (Some k) a h c))) →
  triple (at_ (Proto (Some k) a h c)) (Mutate env id ifMatch fn x) (λ _, at_ (Proto (Some k) a h c)).
Proof.
  intros Hid Ha Hfn. unfold Mutate. generalize mutateRetries as n. intros n. revert x.
  induction n as [|n IH]; intros x; simpl.
  all: eapply triple_bind; [apply silent_triple, silent_on_store|]; intros [cur|]; [|by apply triple_ret].
  all: destruct (CheckIfMatch _ _); [by apply triple_ret|].
  all: eapply triple_bind; [apply Hfn|]; intros [[next|] x']; [|by apply triple_ret].
  all: eapply triple_bind; [by apply writes_triple|]; intros [out|e]; [by apply triple_ret|].
  all: destruct (negb (Is e _)); [by apply triple_ret|]; destruct (pinned _); [by apply triple_ret|].
  - by apply triple_ret.
  - apply IH.
Qed.
End triples.

#[export] Hint Resolve silent_ext silent_shared silent_set_shared silent_others silent_on_store silent_now silent_ret
  silent_owned : go.
