(* ===== verification/Templates.v ===== *)
(** Templates as the service serves them (controlplane/template.go): who may
    change them, the checks, the four operations, and filling a create from
    the template it names. *)

From Stdlib Require Import ZArith NArith Ascii String Lia.
From stdpp Require Import base tactics list gmap strings relations.
From S2P Require Import Prelude GoStd Errors Labels Driver Lifecycle Etag Settings Store Memory World Mutate.
From S2P Require Import Admission Protocol.

#[local] Open Scope string_scope.
#[local] Open Scope go_scope.

(** The body of a create (controlplane/service.go). *)
Record CreateRequest : Type := MkCreate {
  cq_Template : string; cq_Driver : string; cq_Labels : strmap; cq_Settings : strmap
}.

Definition template_owned (t : TemplateT) (owner : string) (created : Z) : TemplateT :=
  match t with MkTemplate n d dr l s _ _ _ => MkTemplate n d dr l s owner 0 created end.

Definition mayWriteTemplates (c : Caller) : option error :=
  fail_if (negb (Admin c) || negb (bool_decide (Scope c = ∅)))
    (errorf ErrForbidden "only an administrator of this server changes templates").

Section templates.
Context {S E : Type} `{!Store S} (env : Env S E).
Abbreviation W := (World S E).

Definition templates : result (TemplateStore S) :=
  match st_templates with
  | Some ts => Ok ts
  | None => Fail (errorf DErrUnsupported "this server's store keeps no templates")
  end.

Definition checkTemplate (t : TemplateT) : option error :=
  if negb (ValidTemplateName (tp_Name t)) then
    Some (errorf ErrInvalid ("a template name is 1 to 63 letters, digits, '.', '_' or '-', starting with a letter or digit"))
  else if (1024 <? String.length (tp_Description t))%nat then
    Some (errorf ErrInvalid "a description is at most 1024 bytes")
  else
    and_then
      (fail_if (str_nonempty (tp_Driver t) && negb (is_ok (registry_Get (c_drivers env) (tp_Driver t))))
         (errorf ErrInvalid ("no driver named " ++ Quote (tp_Driver t))))
    (and_then (ValidateLabels (tp_Labels t) false)
       (CheckSettings (c_settings env) (tp_Settings t))).

Definition template_event (c : Caller) (action : string) (detail : strmap) : AuditEvent :=
  MkEvent 0 0 (Principal c) action "" 0 "" "" detail.

Definition svc_CreateTemplate (c : Caller) (t : TemplateT) : M W (result TemplateT) :=
  match templates with Fail e => mreturn (Fail e) | Ok ts =>
  match mayWriteTemplates c with Some e => mreturn (Fail e) | None =>
  match checkTemplate t with Some e => mreturn (Fail e) | None =>
  let! at_ := now env in
  let t := template_owned t (Principal c) at_ in
  let ev := template_event c "template.create"
              (<["template" := tp_Name t]> {["driver" := tp_Driver t]}) in
  let! re := record env (requested ev) in
  match re with Some e => mreturn (Fail e) | None =>
  let! out := writes env "CreateTemplate" "" (ts_Create t) in
  let out := match out with Ok t => Ok t | Fail e => Fail (storeErr e) end in
  outcome env ev (match out with Ok _ => None | Fail e => Some e end) ;;;
  mreturn out
  end end end end.

Definition svc_GetTemplate (name : string) : M W (result TemplateT) :=
  match templates with Fail e => mreturn (Fail e) | Ok ts =>
  let! r := on_store env (ts_Get name) in
  mreturn (match r with Ok t => Ok t | Fail e => Fail (storeErr e) end)
  end.

Definition svc_ListTemplates (o : TemplateListOptions) : M W (result (list TemplateT * string)) :=
  match templates with Fail e => mreturn (Fail e) | Ok ts =>
  let! r := on_store env (ts_List o) in
  mreturn (match r with Ok x => Ok x | Fail e => Fail (storeErr e) end)
  end.

Definition svc_DeleteTemplate (c : Caller) (name ifMatch : string) : M W (option error) :=
  match templates with Fail e => mreturn (Some e) | Ok ts =>
  match mayWriteTemplates c with Some e => mreturn (Some e) | None =>
  let! cur := on_store env (ts_Get name) in
  match cur with Fail e => mreturn (Some (storeErr e)) | Ok cur =>
  match CheckIfMatch ifMatch (tp_ResourceVersion cur) with Some e => mreturn (Some e) | None =>
  let ev := template_event c "template.delete" {["template" := name]} in
  let! re := record env (requested ev) in
  match re with Some e => mreturn (Some e) | None =>
  let! err := writes env "DeleteTemplate" "" (ts_Delete name (tp_ResourceVersion cur)) in
  let err := match err with
             | None => None
             | Some e => Some (if Is e ErrVersionMismatch
                               then errorf ErrPreconditionFailed "the template changed while it was being removed"
                               else storeErr e)
             end in
  outcome env ev err ;;; mreturn err
  end end end end end.

(** One of the request's settings against the template's. *)
Definition template_floor (t : TemplateT) (kv : string * string) : option error :=
  let '(k, v) := kv in
  match tp_Settings t !! k with
  | None => None
  | Some was =>
      match NoLooser (c_settings env) {[k := was]} {[k := v]} with
      | Some e => Some (Err (e_is e) (e_text e ++ " (template " ++ tp_Name t ++ " sets it)"))
      | None => None
      end
  end.

(** What a template makes of a create that names it. *)
Definition fill_from (t : TemplateT) (req : CreateRequest) : result CreateRequest :=
  if str_nonempty (tp_Driver t) && str_nonempty (cq_Driver req) && negb (String.eqb (cq_Driver req) (tp_Driver t)) then
    Fail (errorf ErrInvalid ("template " ++ tp_Name t ++ " runs on driver " ++ Quote (tp_Driver t) ++ ", not "
          ++ Quote (cq_Driver req)))
  else
    let drv := if str_nonempty (tp_Driver t) then tp_Driver t else cq_Driver req in
    match first_error (template_floor t) (map_to_list (cq_Settings req)) with
    | Some e => Fail e
    | None => Ok (MkCreate (cq_Template req) drv (maps_copy (tp_Labels t) (cq_Labels req))
                    (maps_copy (tp_Settings t) (cq_Settings req)))
    end.

Definition applyTemplate (req : CreateRequest) : M W (result CreateRequest) :=
  match st_templates with
  | None => mreturn (Ok req)
  | Some ts =>
      if negb (ValidTemplateName (cq_Template req)) then mreturn (Ok req)
      else
        let! r := on_store env (ts_Get (cq_Template req)) in
        mreturn (match r with
                 | Fail e => if Is e ErrNotFound then Ok req else Fail (storeErr e)
                 | Ok t => fill_from t req
                 end)
  end.

(** ** Lemmas *)

Lemma silent_applyTemplate req : silent (applyTemplate req).
Proof.
  unfold applyTemplate. destruct st_templates; [|apply silent_ret]. case_match; [apply silent_ret|].
  apply silent_bind; [apply silent_on_store|]. intros ?. apply silent_ret.
Qed.

Lemma template_floor_None t k v :
  template_floor t (k, v) = None ↔
  ∀ was, tp_Settings t !! k = Some was → NoLooser (c_settings env) {[k := was]} {[k := v]} = None.
Proof.
  unfold template_floor. destruct (tp_Settings t !! k) as [was|].
  - destruct (NoLooser _ _ _) eqn:Hn; split.
    + intros H. discriminate H.
    + intros H. specialize (H was eq_refl). rewrite Hn in H. discriminate H.
    + intros _ was' H. injection H as <-. exact Hn.
    + intros _. reflexivity.
  - split; [intros _ was H; discriminate H | intros _; reflexivity].
Qed.

Lemma CreateTemplate_triple c t :
  triple (at_proto false idle) (svc_CreateTemplate c t) (λ _, at_proto false idle).
Proof.
  unfold svc_CreateTemplate. destruct templates; [|by apply triple_ret].
  destruct (mayWriteTemplates c); [by apply triple_ret|]. destruct (checkTemplate t); [by apply triple_ret|].
  eapply triple_bind; [apply silent_triple, silent_now|]. intros n. cbn beta.
  eapply triple_bind; [apply record_requested_triple|]. intros [e|]; [by apply triple_ret|].
  eapply triple_bind; [by apply writes_triple|]. intros out.
  eapply triple_bind; [by apply outcome_triple|]. intros ?. by apply triple_ret.
Qed.

Lemma DeleteTemplate_triple c name ifMatch :
  triple (at_proto false idle) (svc_DeleteTemplate c name ifMatch) (λ _, at_proto false idle).
Proof.
  unfold svc_DeleteTemplate. destruct templates; [|by apply triple_ret].
  destruct (mayWriteTemplates c); [by apply triple_ret|].
  eapply triple_bind; [apply silent_triple, silent_on_store|]. intros [cur|]; [|by apply triple_ret].
  destruct (CheckIfMatch _ _); [by apply triple_ret|].
  eapply triple_bind; [apply record_requested_triple|]. intros [e|]; [by apply triple_ret|].
  eapply triple_bind; [by apply writes_triple|]. intros out.
  eapply triple_bind; [by apply outcome_triple|]. intros ?. by apply triple_ret.
Qed.
End templates.

(** ** Properties *)

(** A template is a floor. What a create that names it becomes runs on the
    template's driver when it has one (a create that asks for another is
    refused), takes each label and setting from the request where the request
    has it and from the template otherwise, and no setting the template has is
    looser in the result than the template's. *)
Theorem fill_from_spec {S E} (env : Env S E) (values : strmap) (ceilings : gmap string bool) (t : TemplateT)
    (req out : CreateRequest) (k : string) :
  NewSettings values ceilings = Ok (c_settings env) →
  fill_from env t req = Ok out →
  (tp_Driver t ≠ "" → cq_Driver out = tp_Driver t ∧ (cq_Driver req = "" ∨ cq_Driver req = tp_Driver t)) ∧
  (tp_Driver t = "" → cq_Driver out = cq_Driver req) ∧
  cq_Template out = cq_Template req ∧
  cq_Labels out !! k = match cq_Labels req !! k with Some v => Some v | None => tp_Labels t !! k end ∧
  cq_Settings out !! k = match cq_Settings req !! k with Some v => Some v | None => tp_Settings t !! k end ∧
  (∀ was v, tp_Settings t !! k = Some was → cq_Settings out !! k = Some v →
     NoLooser (c_settings env) {[k := was]} {[k := v]} = None).
Proof.
  intros Hst%NewSettings_wf. unfold fill_from.
  destruct (str_nonempty (tp_Driver t) && str_nonempty (cq_Driver req) && negb (String.eqb (cq_Driver req) (tp_Driver t)))
    eqn:Hd; [discriminate|].
  destruct (first_error (template_floor env t) (map_to_list (cq_Settings req))) eqn:Hf; [discriminate|].
  intros [= <-]. cbn [cq_Driver cq_Template cq_Labels cq_Settings].
  pose proof (proj1 (first_error_map_None (template_floor env t) (cq_Settings req)) Hf) as Hfloor.
  assert (Hlook : ∀ (a b : strmap), maps_copy a b !! k = match b !! k with Some v => Some v | None => a !! k end).
  { intros a b. unfold maps_copy. rewrite lookup_union. destruct (b !! k), (a !! k); reflexivity. }
  rewrite !Hlook. split_and!; try reflexivity.
  - intros Hne. unfold str_nonempty in *. destruct (String.eqb_spec (tp_Driver t) ""); [done|]. simpl in *.
    split; [reflexivity|]. destruct (String.eqb_spec (cq_Driver req) ""); [by left|]. simpl in Hd. right.
    by apply negb_false_iff, String.eqb_eq in Hd.
  - intros ->. reflexivity.
  - intros was v Hw Hv. destruct (cq_Settings req !! k) as [v'|] eqn:Hk.
    + injection Hv as ->. pose proof (proj1 (template_floor_None env t k v) (Hfloor k v Hk)) as H. exact (H was Hw).
    + rewrite Hw in Hv. injection Hv as ->. apply NoLooser_None; [exact Hst|]. intros def _ _. lia.
Qed.

Lemma fill_from_spec_witness :
  let env := calm_env (S:=Memory) ∅ capped_settings in
  let t := MkTemplate "small" "" "" ∅ {[SetExecTimeout := "60"]} "root" 1 0 in
  let req := MkCreate "small" "" ∅ {[SetExecTimeout := "30"]} in
  ∃ out, fill_from env t req = Ok out ∧ NoLooser (c_settings env) {[SetExecTimeout := "60"]} {[SetExecTimeout := "30"]} = None.
Proof.
  intros env t req. eexists. split; [vm_compute; reflexivity|].
  match goal with |- _ => pose (out := MkCreate "small" "" ∅ {[SetExecTimeout := "30"]}) end.
  apply (fill_from_spec env {[SetMinTier := "container"]} ∅ t req out SetExecTimeout); vm_compute; reflexivity.
Defined.
