(* ===== verification/Service.v ===== *)
(** The service's operations (controlplane/service.go): create, get, list,
    update, start, stop, delete and exec, each the whole handler: checks,
    record, guard, interceptor, store, outcome. *)

From Stdlib Require Import ZArith NArith Ascii String Lia.
From stdpp Require Import base tactics list gmap strings relations.
From S2P Require Import Prelude GoStd Errors Labels Driver Lifecycle Etag Settings Store Memory World Mutate.
From S2P Require Import Admission Protocol Templates.

#[local] Open Scope string_scope.
#[local] Open Scope go_scope.

(** ** Names (controlplane/sessions.go, guard.go) *)

Definition LabelSession : string := ReservedPrefix ++ "session".
Definition LabelSessionUser : string := ReservedPrefix ++ "session-user".
Definition LabelPool : string := ReservedPrefix ++ "pool".

(** ** Small parts *)

Definition with_generation (ev : AuditEvent) (g : Z) : AuditEvent :=
  match ev with MkEvent s t p a i _ o c d => MkEvent s t p a i g o c d end.
Definition with_detail (ev : AuditEvent) (d : strmap) : AuditEvent :=
  match ev with MkEvent s t p a i g o c _ => MkEvent s t p a i g o c d end.

(** What a result says of how the call ended. *)
Definition err_of {A} (r : result A) : option error := match r with Ok _ => None | Fail e => Some e end.
Definition or_zero (r : result Sandbox) : Sandbox := match r with Ok s => s | Fail _ => zero_sandbox end.

(** The size in force as the driver keys it (controlplane/reconcile.go). *)
Definition resourceConfig (vals : strmap) : strmap :=
  let put key as_ (m : strmap) := if str_nonempty (map_get vals key) then <[as_ := map_get vals key]> m else m in
  put SetCPUs "cpus" (put SetMemoryMB "memory_mb" ∅).

(** The first proxy variable a client tried to set. *)
Definition proxyVariable (env : list string) : option string :=
  match find_first (λ kv, bool_decide (ToUpper (cut_before kv "=") ∈
      ["HTTP_PROXY"; "HTTPS_PROXY"; "ALL_PROXY"; "NO_PROXY"])) env with
  | Some kv => Some (cut_before kv "=")
  | None => None
  end.

(** A JSON merge patch: [None] removes the key. *)
Record Patch : Type := MkPatch {
  pt_Labels : option (gmap string (option string)); pt_ClearLabels : bool; pt_Template : option string;
  pt_Settings : option (gmap string (option string)); pt_ClearSettings : bool
}.

Section service.
Context {S E : Type} `{!Store S} (env : Env S E).
Abbreviation W := (World S E).

Definition checkConfig (sb : Sandbox) : option error :=
  match registry_Get (c_drivers env) (DriverName sb) with
  | Fail _ => Some (errorf ErrUnavailable ("driver " ++ DriverName sb ++ " is not registered"))
  | Ok d =>
      match d_config_checker d with
      | None => None
      | Some check =>
          match check (resourceConfig (For (c_settings env) (Settings sb))) with
          | Some e => Some (errwrap ErrInvalid "" e)
          | None => None
          end
      end
  end.

(** ** Create *)

(** A session's labels, as a create's record names them. *)
Definition session_detail (labels detail : strmap) : strmap :=
  foldl (λ (d : strmap) k, match labels !! k with Some v => <[TrimPrefix k ReservedPrefix := v]> d | None => d end)
    detail [LabelSession; LabelSessionUser; LabelPool].

(** The sandbox a create proposes, before anything is recorded. *)
Definition propose (c : Caller) (req : CreateRequest) : M W (result Sandbox) :=
  let name := if String.eqb (cq_Driver req) "" then c_default_driver env else cq_Driver req in
  match registry_Get (c_drivers env) name with
  | Fail _ => mreturn (Fail (errorf ErrInvalid ("no driver named " ++ Quote name)))
  | Ok _ =>
  match CheckSettings (c_settings env) (cq_Settings req) with Some e => mreturn (Fail e) | None =>
  match checkScope (Scope c) with Some e => mreturn (Fail e) | None =>
  let! at_ := now env in
  let! rnd := ext (x_rand env 8) in
  match NewSandbox rnd (Principal c) (cq_Template req) name (cq_Labels req) at_ with
  | Fail e => mreturn (Fail e)
  | Ok sb =>
      let sb := with_settings sb (cq_Settings req) in
      if bool_decide (Scope c = ∅) then mreturn (Ok sb)
      else
        let sb := with_labels sb (maps_copy (Labels sb) (Scope c)) in
        mreturn (match ValidateLabels (Labels sb) true with Some e => Fail e | None => Ok sb end)
  end end end end.

(** What the guard and then the interceptor make of it: the release to run
    and the object to store. A refusal has already run the release. *)
Definition admit_create (x : Ctx) (c : Caller) (sb : Sandbox) : M W (result (option nat * Sandbox)) :=
  let! g := guardAdmit env x (MkAdmission OpCreate c zero_sandbox (Some sb) None 0 "" "") in
  match g with Fail e => mreturn (Fail e) | Ok (rel, next) =>
  (* the guard may only have tightened settings *)
  let sb := with_settings sb (Settings (default sb next)) in
  match CheckSettings (c_settings env) (Settings sb) with
  | Some e => release env rel ;;; mreturn (Fail e)
  | None =>
  let! a := svc_admit env (MkAdmReq OpCreate c (ID sb) None sb "" false "" []) in
  match a with Fail e => release env rel ;;; mreturn (Fail e) | Ok sb =>
  match checkConfig sb with
  | Some e => release env rel ;;; mreturn (Fail e)
  | None => mreturn (Ok (rel, sb))
  end end end end.

Definition svc_Create (x : Ctx) (c : Caller) (req : CreateRequest) : M W (result Sandbox) :=
  let* req := applyTemplate env req in
  let* sb := propose c req in
  let ev := MkEvent 0 0 (Principal c) "create" (ID sb) (Generation sb) "" ""
              (session_detail (Labels sb) (<["template" := Template sb]> {["driver" := DriverName sb]})) in
  let! re := record env (requested ev) in
  match re with Some e => mreturn (Fail e) | None =>
  let id := ID sb in
  let! a := admit_create x c sb in
  match a with
  | Fail e => outcome env ev (Some e) ;;; mreturn (Fail e)
  | Ok (rel, sb) =>
      let! out := writes env "Create" id (st_Create sb) in
      release env rel ;;;
      outcome env ev (err_of out) ;;;
      svc_committed env (MkAdmReq OpCreate c id None sb "" false "" []) (or_zero out) (err_of out) ;;;
      match out with
      | Fail e => mreturn (Fail (storeErr e))
      | Ok out => Kick (ID out) ;;; mreturn (Ok out)
      end
  end end.

(** ** Reading *)

Definition svc_Get (c : Caller) (id : string) : M W (result Sandbox) :=
  let! r := on_store env (st_Get id) in
  mreturn (match r with
           | Fail e => Fail (storeErr e)
           | Ok sb => if negb (may c sb) then Fail (errorf ErrNotFound ("sandbox " ++ id)) else Ok sb
           end).

Definition list_options (o : ListOptions) (owner : string) (labels : strmap) : ListOptions :=
  {| lo_Selector := lo_Selector o; lo_State := lo_State o; lo_Owner := owner; lo_Labels := labels;
     lo_Limit := lo_Limit o; lo_After := lo_After o |}.

Definition svc_List (c : Caller) (o : ListOptions) : M W (result (list Sandbox * string)) :=
  if negb (Admin c) && String.eqb (Principal c) "" then mreturn (Ok ([], ""))
  else
    let owner := if Admin c then lo_Owner o else Principal c in
    let scope_bad := if bool_decide (Scope c = ∅) then None else checkScope (Scope c) in
    match scope_bad with Some e => mreturn (Fail e) | None =>
    let labels := if bool_decide (Scope c = ∅) then lo_Labels o else Scope c in
    let! r := on_store env (st_List (list_options o owner labels)) in
    mreturn (match r with Ok x => Ok x | Fail e => Fail (storeErr e) end)
    end.

(** ** Changing *)

(** The function [mutate] puts to [Mutate], with the admission request it
    builds and whether the last object was admitted. *)
Definition mutate_fn (c : Caller) (id : string) (fn : Sandbox → M W (result Sandbox))
    (sb : Sandbox) (st : AdmissionRequest * bool) : M W (result Sandbox * (AdmissionRequest * bool)) :=
  let '(iadm, admitted) := st in
  if negb (may c sb) then mreturn (Fail (errorf ErrNotFound ("sandbox " ++ id)), (iadm, admitted))
  else
    let! r := fn sb in
    match r with Fail e => mreturn (Fail e, (iadm, admitted)) | Ok sb' =>
    let iadm := MkAdmReq (ar_Operation iadm) (ar_Caller iadm) (ar_SandboxID iadm) (Some sb) sb' "" false "" [] in
    let! a := svc_admit env iadm in
    match a with Fail e => mreturn (Fail e, (iadm, admitted)) | Ok next =>
    mreturn (Ok next, (MkAdmReq (ar_Operation iadm) (ar_Caller iadm) (ar_SandboxID iadm) (Some sb) next "" false "" [],
                       true))
    end end.

Definition svc_mutate (x : Ctx) (c : Caller) (id ifMatch action : string) (detail : strmap) (grace : Z)
    (fn : Sandbox → M W (result Sandbox)) : M W (result Sandbox) :=
  let* cur := svc_Get c id in
  match CheckIfMatch ifMatch (ResourceVersion cur) with Some e => mreturn (Fail e) | None =>
  let! oe := owned env id in
  match oe with Some e => mreturn (Fail e) | None =>
  let ev := MkEvent 0 0 (Principal c) action id (Generation cur) "" "" detail in
  let! re := record env (requested ev) in
  match re with Some e => mreturn (Fail e) | None =>
  (* what the guard judges is what the patch makes of the object now *)
  let! next := (if String.eqb action OpUpdate
                then let! r := fn cur in mreturn (match r with Ok n => Ok (Some n) | Fail e => Fail e end)
                else mreturn (Ok None)) in
  match next with Fail e => outcome env ev (Some e) ;;; mreturn (Fail e) | Ok next =>
  let! g := guardAdmit env x (MkAdmission action c cur next None grace "" "") in
  match g with Fail e => outcome env ev (Some e) ;;; mreturn (Fail e) | Ok (rel, _) =>
  let! (out, (iadm, admitted)) :=
    Mutate env id ifMatch (mutate_fn c id fn) (MkAdmReq action c id None zero_sandbox "" false "" [], false) in
  let ev := match out with Ok out => with_generation ev (Generation out) | Fail _ => ev end in
  outcome env ev (err_of out) ;;;
  (if admitted : bool then svc_committed env iadm (or_zero out) (err_of out) else mreturn tt) ;;;
  release env rel ;;;
  mreturn (match out with Ok out => Ok out | Fail e => Fail (storeErr e) end)
  end end end end end.

(** *** Update *)

Definition reserved_keys (m : strmap) : strmap := filter (λ kv, HasPrefix kv.1 ReservedPrefix = true) m.

(** The keys a merge patch sets and the keys it removes. *)
Definition patch_sets (p : gmap string (option string)) : strmap := omap id p.
Definition patch_removes (p : gmap string (option string)) (m : strmap) : strmap :=
  filter (λ kv, p !! kv.1 ≠ Some None) m.

(** What a patch makes of an object at time [at_]. *)
Definition apply_patch (p : Patch) (sb : Sandbox) (at_ : Z) : result Sandbox :=
  if bool_decide (State sb = StateDeleting) then
    Fail (errorf ErrInvalidTransition ("sandbox " ++ ID sb ++ " is being deleted"))
  else
    let pl := default ∅ (pt_Labels p) in
    let labels := if pt_ClearLabels p then reserved_keys (Labels sb) else Labels sb in
    match first_error (λ '(k, _), fail_if (HasPrefix k ReservedPrefix) (errorf ErrInvalid ("label " ++ Quote k ++ " is reserved")))
            (map_to_list pl) with
    | Some e => Fail e
    | None =>
    let labels := patch_removes pl labels in
    let set := patch_sets pl in
    match ValidateLabels set false with Some e => Fail e | None =>
    let labels := maps_copy labels set in
    match ValidateLabels labels true with Some e => Fail e | None =>
    let ps := default ∅ (pt_Settings p) in
    let settings := maps_copy (patch_removes ps (if pt_ClearSettings p then ∅ else Settings sb)) (patch_sets ps) in
    match CheckSettings (c_settings env) settings with Some e => Fail e | None =>
    let? sb := match pt_Template p with Some t => SetTemplate sb t | None => Ok sb end in
    Ok (with_updated (with_settings (with_labels sb labels) settings) at_)
    end end end end.

Definition svc_Update (x : Ctx) (c : Caller) (id ifMatch : string) (p : Patch) : M W (result Sandbox) :=
  let detail : strmap := match pt_Template p with Some t => {["template" := t]} | None => ∅ end in
  let detail := if opt_some (pt_Labels p) || pt_ClearLabels p then <["labels" := "changed"]> detail else detail in
  let detail := if opt_some (pt_Settings p) || pt_ClearSettings p then <["settings" := "changed"]> detail else detail in
  svc_mutate x c id ifMatch OpUpdate detail 0
    (λ sb, let! at_ := now env in mreturn (apply_patch p sb at_)).

(** *** Start, stop, delete *)

Definition start_change (sb : Sandbox) : M W (result Sandbox) :=
  let! at_ := now env in
  mreturn (match Transition sb StateStarting at_ with Ok sb => Ok (with_restarts sb 0 None) | Fail e => Fail e end).

Definition move_to (to : state) (sb : Sandbox) : M W (result Sandbox) :=
  let! at_ := now env in mreturn (Transition sb to at_).

Definition svc_Start (x : Ctx) (c : Caller) (id ifMatch : string) : M W (result Sandbox) :=
  let* out := svc_mutate x c id ifMatch OpStart ∅ 0 start_change in
  Kick id ;;; mreturn (Ok out).

Definition svc_Stop (x : Ctx) (c : Caller) (id ifMatch : string) (grace : Z) : M W (result Sandbox) :=
  if (grace <? 0)%Z || (3600 * second <? grace)%Z then
    mreturn (Fail (errorf ErrInvalid "grace_seconds must be from 0 to 3600"))
  else
    let* out := svc_mutate x c id ifMatch OpStop {["grace_seconds" := Itoa (grace / second)]} grace (move_to StateStopping) in
    set_shared (λ sh, put_graces sh (<[id := grace]> (sh_graces sh))) ;;;
    Kick id ;;; mreturn (Ok out).

Definition svc_Delete (x : Ctx) (c : Caller) (id ifMatch : string) : M W (result Sandbox) :=
  let* cur := svc_Get c id in
  if bool_decide (State cur = StateDeleting) then
    match CheckIfMatch ifMatch (ResourceVersion cur) with
    | Some e => mreturn (Fail e)
    | None => Kick id ;;; mreturn (Ok cur)
    end
  else
    let* out := svc_mutate x c id ifMatch OpDelete ∅ 0 (move_to StateDeleting) in
    Kick id ;;; mreturn (Ok out).

End service.

(** ** The protocol of the operations *)

Section service_protocol.
Context {S E : Type} `{!Store S} (env : Env S E).
Abbreviation W := (World S E).
Abbreviation at_ := (at_proto (S:=S) (E:=E) true).

Lemma silent_svc_Get c id : silent (svc_Get env c id).
Proof. apply silent_bind; [apply silent_on_store|]. intros ?. apply silent_ret. Qed.

Lemma silent_propose c req : silent (propose env c req).
Proof.
  unfold propose. destruct (registry_Get _ _); [|apply silent_ret].
  destruct (CheckSettings _ _); [apply silent_ret|]. destruct (checkScope _); [apply silent_ret|].
  apply silent_bind; [apply silent_now|]. intros t. apply silent_bind; [apply silent_ext|]. intros rnd.
  destruct (NewSandbox _ _ _ _ _ _); [|apply silent_ret]. case_bool_decide; apply silent_ret.
Qed.

Lemma silent_start_change sb : silent (start_change env sb).
Proof. apply silent_bind; [apply silent_now|]. intros ?. apply silent_ret. Qed.
Lemma silent_move_to to sb : silent (move_to env to sb).
Proof. apply silent_bind; [apply silent_now|]. intros ?. apply silent_ret. Qed.

Lemma mutate_fn_triple k a h cr c id fn sb st :
  k.1.2 ≠ "admission" → (∀ sb, silent (fn sb)) →
  triple (at_ (Proto (Some k) a h cr)) (mutate_fn env c id fn sb st) (λ _, at_ (Proto (Some k) a h cr)).
Proof.
  intros Hk Hfn. unfold mutate_fn. destruct st as [iadm admitted].
  destruct (negb _); [by apply triple_ret|].
  eapply triple_bind; [apply silent_triple, Hfn|]. intros [sb'|e]; [|by apply triple_ret]. cbn beta zeta.
  eapply triple_bind; [apply admit_triple; by intros ? [= <-]|]. intros [next|e]; by apply triple_ret.
Qed.

(** After the request is recorded, [svc_mutate] closes it. *)
Lemma mutate_op_triple x c id ifMatch action detail grace fn :
  action ≠ "admission" → (∀ sb, silent (fn sb)) →
  triple (at_ idle) (svc_mutate env x c id ifMatch action detail grace fn) (λ _, at_ idle).
Proof.
  intros Ha Hfn. unfold svc_mutate.
  eapply triple_bind; [apply silent_triple, silent_svc_Get|]. intros [cur|e]; [|by apply triple_ret]. cbn beta.
  destruct (CheckIfMatch _ _); [by apply triple_ret|].
  eapply triple_bind; [apply silent_triple, silent_owned|]. intros [e|]; [by apply triple_ret|]. cbn beta.
  eapply triple_bind; [apply record_requested_triple|]. intros [e|]; [by apply triple_ret|]. cbn beta iota zeta.
  set (k := ev_key _).
  eapply (triple_bind _ _ _ (λ _, at_ (Proto (Some k) false [] []))).
  { apply silent_triple. destruct (String.eqb action OpUpdate); [|apply silent_ret].
    apply silent_bind; [apply Hfn|]. intros ?. apply silent_ret. }
  intros [next|e]; cbn beta.
  2: { eapply triple_bind; [by apply outcome_triple|]. intros ?. by apply triple_ret. }
  eapply triple_bind; [apply guardAdmit_triple|]. intros [[rel nx]|e]; cbn beta iota.
  2: { eapply triple_bind; [by apply outcome_triple|]. intros ?. by apply triple_ret. }
  eapply triple_bind; [apply mutate_triple; [done|done|]; intros sb st; by apply mutate_fn_triple|].
  intros [out [iadm admitted]]. cbn beta.
  eapply triple_bind; [apply outcome_triple; by destruct out|]. intros ?. cbn beta.
  eapply (triple_bind _ _ _ (λ _, at_ (Proto None false (hold rel []) []))).
  { destruct admitted; [by apply committed_triple|by apply triple_ret]. }
  intros ?. cbn beta. eapply triple_bind; [apply release_triple|]. intros ?. by apply triple_ret.
Qed.

Lemma admit_create_triple k x c sb :
  k.1.2 ≠ "admission" →
  triple (at_ (Proto (Some k) false [] [])) (admit_create env x c sb)
    (λ r w, match r with
            | Ok (rel, _) => at_ (Proto (Some k) true (hold rel []) []) w
            | Fail _ => ∃ a, at_ (Proto (Some k) a [] []) w
            end).
Proof.
  intros Hk. unfold admit_create.
  eapply triple_bind; [apply guardAdmit_triple|]. intros [[rel next]|e]; cbn beta iota zeta.
  2: { apply triple_ret. eauto. }
  destruct (CheckSettings _ _).
  { eapply triple_bind; [apply release_triple|]. intros ?. apply triple_ret. eauto. }
  eapply triple_bind; [apply admit_triple; by intros ? [= <-]|]. intros [sb'|e]; cbn beta.
  2: { eapply triple_bind; [apply release_triple|]. intros ?. apply triple_ret. eauto. }
  destruct (checkConfig _ _).
  - eapply triple_bind; [apply release_triple|]. intros ?. apply triple_ret. eauto.
  - by apply triple_ret.
Qed.

Lemma Create_triple x c req :
  triple (at_ idle) (svc_Create env x c req) (λ _, at_ idle).
Proof.
  unfold svc_Create.
  eapply triple_bind; [apply silent_triple, silent_applyTemplate|]. intros [req'|e]; [|by apply triple_ret]. cbn beta.
  eapply triple_bind; [apply silent_triple, silent_propose|]. intros [sb|e]; [|by apply triple_ret]. cbn beta zeta.
  eapply triple_bind; [apply record_requested_triple|]. intros [e|]; [by apply triple_ret|]. cbn beta iota.
  eapply triple_bind; [by apply admit_create_triple|]. intros [[rel sb']|e]; cbn beta iota.
  - eapply triple_bind; [by apply writes_triple|]. intros out. cbn beta.
    eapply triple_bind; [apply release_triple|]. intros ?. cbn beta.
    eapply triple_bind; [by apply outcome_triple|]. intros ?. cbn beta.
    eapply triple_bind; [by apply committed_triple|]. intros ?. cbn beta.
    destruct out; [|by apply triple_ret].
    eapply triple_bind; [apply Kick_triple|]. intros ?. by apply triple_ret.
  - apply triple_exists. intros a. eapply triple_bind; [by apply outcome_triple|]. intros ?. by apply triple_ret.
Qed.

Lemma Update_triple x c id ifMatch p : triple (at_ idle) (svc_Update env x c id ifMatch p) (λ _, at_ idle).
Proof.
  apply mutate_op_triple; [done|]. intros sb. apply silent_bind; [apply silent_now|]. intros ?. apply silent_ret.
Qed.

Lemma Start_triple x c id ifMatch : triple (at_ idle) (svc_Start env x c id ifMatch) (λ _, at_ idle).
Proof.
  eapply triple_bind; [apply mutate_op_triple; [done|apply silent_start_change]|].
  intros [out|e]; [|by apply triple_ret]. cbn beta.
  eapply triple_bind; [apply Kick_triple|]. intros ?. by apply triple_ret.
Qed.

Lemma Stop_triple x c id ifMatch grace : triple (at_ idle) (svc_Stop env x c id ifMatch grace) (λ _, at_ idle).
Proof.
  unfold svc_Stop. destruct (_ || _); [by apply triple_ret|].
  eapply triple_bind; [apply mutate_op_triple; [done|apply silent_move_to]|].
  intros [out|e]; [|by apply triple_ret]. cbn beta.
  eapply triple_bind; [apply silent_triple, silent_set_shared|]. intros ?. cbn beta.
  eapply triple_bind; [apply Kick_triple|]. intros ?. by apply triple_ret.
Qed.

Lemma Delete_triple x c id ifMatch : triple (at_ idle) (svc_Delete env x c id ifMatch) (λ _, at_ idle).
Proof.
  unfold svc_Delete.
  eapply triple_bind; [apply silent_triple, silent_svc_Get|]. intros [cur|e]; [|by apply triple_ret]. cbn beta.
  case_bool_decide.
  - destruct (CheckIfMatch _ _); [by apply triple_ret|].
    eapply triple_bind; [apply Kick_triple|]. intros ?. by apply triple_ret.
  - eapply triple_bind; [apply mutate_op_triple; [done|apply silent_move_to]|].
    intros [out|e]; [|by apply triple_ret]. cbn beta.
    eapply triple_bind; [apply Kick_triple|]. intros ?. by apply triple_ret.
Qed.
End service_protocol.
