(* ===== verification/Exec.v ===== *)
(** Running one command (controlplane/service.go, [Exec]): the whole handler,
    with its egress credential, screen, guard slot, output bound and timeout. *)

From Stdlib Require Import ZArith NArith Ascii String Lia.
From stdpp Require Import base tactics list gmap strings relations.
From S2P Require Import Prelude GoStd Errors Labels Driver Lifecycle Etag Settings Store Memory World Mutate.
From S2P Require Import Admission Protocol Templates Service.

#[local] Open Scope string_scope.
#[local] Open Scope go_scope.

(** Where an exec's streams go and what its caller adds; the functions are the
    caller's. *)
Record ExecIO (E : Type) : Type := MkExecIO {
  eio_Stdin : bool;
  eio_Started : option (Sandbox → M E unit);
  eio_Screen : option (string → M E (option error));
  eio_Refused : option (M E (option error));
  eio_Timeout : Z
}.
Arguments eio_Stdin {E}. Arguments eio_Started {E}. Arguments eio_Screen {E}.
Arguments eio_Refused {E}. Arguments eio_Timeout {E}.

(** How an exec ended: the output bound, then the context, then the driver. *)
Definition exec_error (limit timeout : Z) (o : ExecOut) : option error :=
  if ol_exceeded (limited_writes (NewOutputLimit limit) (xo_writes o)).1.1 then
    Some (errorf DErrOutputLimit ("the command wrote more than " ++ Itoa limit ++ " bytes and was stopped"))
  else
    match xo_result o, xo_ctx o with
    | Ok _, None => None
    | Ok _, Some (_, cause) => Some cause
    | Fail _, Some (true, _) =>
        Some (errorf DeadlineExceeded ("the command ran past " ++ duration_text timeout ++ " and was stopped"))
    | Fail _, Some (false, cause) => Some cause
    | Fail e, None => Some e
    end.

(** The first entry that is not NAME=value, counted from 1. *)
Fixpoint bad_env (i : nat) (env : list string) : option nat :=
  match env with
  | [] => None
  | kv :: env =>
      match Cut kv "=" with
      | Some (String _ _, _) => bad_env (Datatypes.S i) env
      | _ => Some i
      end
  end.

Section exec.
Context {S E : Type} `{!Store S} (env : Env S E).
(** The shell quoting of the mvdan.cc/sh package. *)
Variable syntax_Quote : string → option string.
Abbreviation W := (World S E).

Definition ask (m : option (M E (option error))) : M W (option error) :=
  match m with Some m => ext m | None => mreturn None end.

(** The command's credential for its sandbox's egress proxy, if its driver
    gets one here: the number that ends it and the variables that carry it. *)
Definition credential (sb : Sandbox) (id : string) (req : ExecRequest) : M W (result (option nat * list string)) :=
  match c_egress env with
  | None => mreturn (Ok (None, []))
  | Some eg =>
      if negb (eg_For eg (DriverName sb)) then mreturn (Ok (None, []))
      else match proxyVariable (ex_Env req) with
           | Some k => mreturn (Fail (errorf ErrInvalid (k ++ " is the sandbox's own under the egress allowlist")))
           | None =>
               let! r := ext (eg_Call eg id) in
               match r with
               | Fail e => mreturn (Fail (errwrap ErrUnavailable "an egress credential: " e))
               | Ok (vars, tok) => emit (EvCredential tok) ;;; mreturn (Ok (Some tok, vars))
               end
           end
  end.

Definition end_credential (cred : option nat) : M W unit :=
  match cred with
  | Some tok =>
      ext (λ e, (tt, match c_egress env with Some eg => eg_end eg tok e | None => e end)) ;;; emit (EvRevoke tok)
  | None => mreturn tt
  end.

(** The admitted command: run it, record how it ended. *)
Definition exec_admitted (c : Caller) (id : string) (sb : Sandbox) (d : Driver E) (dreq : DExecRequest)
    (eio : ExecIO E) (ev : AuditEvent) (adm : AdmissionRequest) : M W (result Z) :=
  let vals := For (c_settings env) (Settings sb) in
  let own := (0 <? eio_Timeout eio)%Z in
  let timeout := if own then eio_Timeout eio else Seconds vals SetExecTimeout in
  let ev := if own then with_detail ev (<["timeout_seconds" := Itoa (timeout / second)]> (ev_Detail ev)) else ev in
  match eio_Started eio with Some f => ext (f sb) | None => mreturn tt end ;;;
  let! o := drives env "Exec" id (d_exec d id dreq timeout) in
  let! err := match exec_error (Int vals SetExecOutput) timeout o with
              | Some e => mreturn (Some e)
              | None => ask (eio_Refused eio)
              end in
  let ev := match err, xo_result o with
            | None, Ok code => with_detail ev (<["exit_code" := Itoa code]> (ev_Detail ev))
            | _, _ => ev
            end in
  outcome env ev err ;;;
  svc_committed env adm sb err ;;;
  mreturn (match err, xo_result o with
           | Some e, _ => Fail e
           | None, Ok code => Ok code
           | None, Fail e => Fail e
           end).

(** The recorded command: screen, guard, interceptor, then the run. *)
Definition exec_recorded (x : Ctx) (c : Caller) (id : string) (sb : Sandbox) (d : Driver E) (req : ExecRequest)
    (dreq : DExecRequest) (eio : ExecIO E) (command : string) (ev : AuditEvent) : M W (result Z) :=
  let! serr := ask (match eio_Screen eio with Some f => Some (f command) | None => None end) in
  match serr with Some e => outcome env ev (Some e) ;;; mreturn (Fail e) | None =>
  let! g := guardAdmit env x (MkAdmission OpExec c sb None (Some req) 0 "" "") in
  match g with Fail e => outcome env ev (Some e) ;;; mreturn (Fail e) | Ok (rel, _) =>
  let adm := MkAdmReq OpExec c id (Some sb) sb (map_get (ev_Detail ev) "command") (dx_stdin dreq) (ex_Cwd req)
               (envNames (ex_Env req)) in
  let! a := svc_admit env adm in
  match a with
  | Fail e => outcome env ev (Some e) ;;; release env rel ;;; mreturn (Fail e)
  | Ok _ =>
      let! r := exec_admitted c id sb d dreq eio ev adm in
      release env rel ;;; mreturn r
  end end end.

Definition svc_Exec (x : Ctx) (c : Caller) (id ifMatch : string) (req : ExecRequest) (eio : ExecIO E)
    : M W (Sandbox * result Z) :=
  let dreq vars := {| dx_argv := ex_Argv req; dx_command := ex_Command req; dx_cwd := ex_Cwd req;
                      dx_env := (ex_Env req ++ vars)%list; dx_stdin := eio_Stdin eio |} in
  match Validate (dreq []) with Some e => mreturn (zero_sandbox, Fail (errwrap ErrInvalid "" e)) | None =>
  match bad_env 1 (ex_Env req) with
  | Some i => mreturn (zero_sandbox, Fail (errorf ErrInvalid ("env entry " ++ Itoa (Z.of_nat i) ++ " is not NAME=value")))
  | None =>
  let! r := svc_Get env c id in
  match r with Fail e => mreturn (zero_sandbox, Fail e) | Ok sb =>
  match CheckIfMatch ifMatch (ResourceVersion sb) with Some e => mreturn (sb, Fail e) | None =>
  if negb (AcceptsWork (State sb)) then
    mreturn (sb, Fail (errorf ErrInvalidTransition
      ("sandbox " ++ id ++ " is " ++ state_text (State sb) ++ "; only Ready takes exec")))
  else
  match registry_Get (c_drivers env) (DriverName sb) with
  | Fail _ => mreturn (sb, Fail (errorf ErrUnavailable ("driver " ++ DriverName sb ++ " is not registered")))
  | Ok d =>
  let! cr := credential sb id req in
  match cr with Fail e => mreturn (sb, Fail e) | Ok (cred, vars) =>
  let! r :=
    match Line syntax_Quote (dreq vars) with
    | Fail e => mreturn (Fail (errwrap ErrInvalid "" e))
    | Ok command =>
        let! oe := owned env id in
        match oe with Some e => mreturn (Fail e) | None =>
        let ev := MkEvent 0 0 (Principal c) OpExec id (Generation sb) "" "" {["command" := redact env command]} in
        let! re := record env (requested ev) in
        match re with
        | Some e => mreturn (Fail e)
        | None => exec_recorded x c id sb d req (dreq vars) eio command ev
        end end
    end in
  end_credential cred ;;; mreturn (sb, r)
  end end end end end end.
End exec.

(** ** The protocol of an exec *)

Section exec_protocol.
Context {S E : Type} `{!Store S} (env : Env S E) (syntax_Quote : string → option string).
Abbreviation at_ := (at_proto (S:=S) (E:=E) true).

Lemma silent_ask m : silent (S:=S) (E:=E) (ask m).
Proof. destruct m; [apply silent_ext|apply silent_ret]. Qed.

Lemma silent_Get c id : silent (svc_Get env c id).
Proof. apply silent_bind; [apply silent_on_store|]. intros ?. apply silent_ret. Qed.

Lemma exec_admitted_triple k h cr c id sb d dreq eio ev adm :
  k = ev_key ev → id = request_id k → k.1.2 ≠ "admission" →
  triple (at_ (Proto (Some k) true h cr)) (exec_admitted env c id sb d dreq eio ev adm)
    (λ _, at_ (Proto None false h cr)).
Proof.
  intros Hk Hid Ha. unfold exec_admitted.
  eapply triple_bind.
  { apply silent_triple. destruct (eio_Started eio); [apply silent_ext|apply silent_ret]. }
  intros ?. cbn beta. eapply triple_bind; [by apply drives_triple|]. intros o. cbn beta.
  eapply (triple_bind _ _ _ (λ _, at_ (Proto (Some k) true h cr))).
  { apply silent_triple. destruct (exec_error _ _ _); [apply silent_ret|apply silent_ask]. }
  intros err. eapply triple_bind.
  { apply outcome_triple. rewrite Hk. destruct err, (xo_result o), (0 <? eio_Timeout eio)%Z; by destruct ev. }
  intros ?. cbn beta. eapply triple_bind; [by apply committed_triple|]. intros ?. by apply triple_ret.
Qed.

Lemma exec_recorded_triple k cr x c id sb d req dreq eio command ev :
  k = ev_key ev → id = request_id k → k.1.2 ≠ "admission" →
  triple (at_ (Proto (Some k) false [] cr)) (exec_recorded env x c id sb d req dreq eio command ev)
    (λ _, at_ (Proto None false [] cr)).
Proof.
  intros Hk Hid Ha. unfold exec_recorded.
  eapply triple_bind; [apply silent_triple, silent_ask|]. intros [e|]; cbn beta.
  { eapply triple_bind; [by apply outcome_triple|]. intros ?. by apply triple_ret. }
  eapply triple_bind; [apply guardAdmit_triple|]. intros [[rel next]|e]; cbn beta iota.
  2: { eapply triple_bind; [by apply outcome_triple|]. intros ?. by apply triple_ret. }
  eapply triple_bind; [apply admit_triple; by intros ? [= <-]|]. intros [ok|e]; cbn beta.
  - eapply triple_bind; [by apply exec_admitted_triple|]. intros r. cbn beta.
    eapply triple_bind; [apply release_triple|]. intros ?. by apply triple_ret.
  - eapply triple_bind; [by apply outcome_triple|]. intros ?. cbn beta.
    eapply triple_bind; [apply release_triple|]. intros ?. by apply triple_ret.
Qed.

Lemma credential_triple sb id req :
  triple (at_ idle) (credential env sb id req)
    (λ r, at_ (Proto None false [] (match r with Ok (cred, _) => hold cred [] | Fail _ => [] end))).
Proof.
  unfold credential. destruct (c_egress env) as [eg|]; [|by apply triple_ret].
  destruct (negb _); [by apply triple_ret|]. destruct (proxyVariable _); [by apply triple_ret|].
  eapply triple_bind; [apply silent_triple, silent_ext|]. intros [[vars tok]|e]; [|by apply triple_ret].
  eapply triple_bind; [by eapply emit_triple|]. intros ?. by apply triple_ret.
Qed.

Lemma end_credential_triple cred :
  triple (at_ (Proto None false [] (hold cred []))) (end_credential env cred) (λ _, at_ idle).
Proof.
  destruct cred as [tok|]; simpl; [|by apply triple_ret].
  eapply triple_bind; [apply silent_triple, silent_ext|]. intros ?. apply emit_triple. simpl. by rewrite Nat.eqb_refl.
Qed.

Lemma Exec_triple x c id ifMatch req eio :
  triple (at_ idle) (svc_Exec env syntax_Quote x c id ifMatch req eio) (λ _, at_ idle).
Proof.
  unfold svc_Exec. destruct (Validate _); [by apply triple_ret|]. destruct (bad_env _ _); [by apply triple_ret|].
  eapply triple_bind; [apply silent_triple, silent_Get|]. intros [sb|e]; [|by apply triple_ret]. cbn beta.
  destruct (CheckIfMatch _ _); [by apply triple_ret|]. destruct (negb _); [by apply triple_ret|].
  destruct (registry_Get _ _) as [d|]; [|by apply triple_ret].
  eapply triple_bind; [apply credential_triple|]. intros [[cred vars]|e]; [|by apply triple_ret]. cbn beta iota.
  eapply (triple_bind _ _ _ (λ _, at_ (Proto None false [] (hold cred [])))).
  - destruct (Line _ _) as [command|]; [|by apply triple_ret].
    eapply triple_bind; [apply silent_triple, silent_owned|]. intros [e|]; [by apply triple_ret|]. cbn beta.
    eapply triple_bind; [apply record_requested_triple|]. intros [e|]; [by apply triple_ret|]. cbn beta iota.
    by apply exec_recorded_triple.
  - intros r. cbn beta. eapply triple_bind; [apply end_credential_triple|]. intros ?. by apply triple_ret.
Qed.
End exec_protocol.

(** ** Properties *)

Lemma exec_error_None limit timeout o :
  exec_error limit timeout o = None ↔
  ol_exceeded (limited_writes (NewOutputLimit limit) (xo_writes o)).1.1 = false ∧
  (∃ code, xo_result o = Ok code) ∧ xo_ctx o = None.
Proof.
  unfold exec_error. destruct (ol_exceeded _); [split; [discriminate|by intros [? _]]|].
  destruct (xo_result o) as [code|e], (xo_ctx o) as [[[] cause]|]; split; try discriminate;
    try (intros (_ & [? H] & H2); discriminate); intros _; eauto.
Qed.

Lemma limited_writes_fits limit ps :
  ol_exceeded (limited_writes (NewOutputLimit limit) ps).1.1 = false → (0 <= limit)%Z → (total_length ps <= limit)%Z.
Proof.
  unfold NewOutputLimit. revert limit. induction ps as [|p ps IH]; intros limit; simpl; [lia|].
  destruct (Z.ltb_spec limit (Z.of_nat (String.length p))).
  - unfold limited_Write. simpl. rewrite (proj2 (Z.ltb_lt _ _)) by done.
    destruct (limited_writes {| ol_left := 0; ol_exceeded := true |} ps) as [[l2 outs] n] eqn:El. simpl.
    rewrite limited_writes_exceeded in El by done. simplify_eq. simpl. discriminate.
  - unfold limited_Write. simpl. rewrite (proj2 (Z.ltb_ge _ _)) by lia.
    destruct (limited_writes {| ol_left := limit - Z.of_nat (String.length p); ol_exceeded := false |} ps) as [[l2 outs] n] eqn:El.
    simpl. intros Hx Hl. specialize (IH (limit - Z.of_nat (String.length p))%Z). rewrite El in IH. simpl in IH.
    specialize (IH Hx). lia.
Qed.

Section exec_result.
Context {S E : Type} `{!Store S} (env : Env S E) (syntax_Quote : string → option string).
Abbreviation W := (World S E).

(** The driver ran the command to its end: no error, its context alive, and
    everything it wrote within the bound. *)
Definition ran (d : Driver E) (id : string) (sb : Sandbox) (code : Z) : Prop :=
  ∃ dreq timeout e o, (d_exec d id dreq timeout e).1 = o ∧ xo_result o = Ok code ∧ xo_ctx o = None ∧
    ol_exceeded (limited_writes (NewOutputLimit (Int (For (c_settings env) (Settings sb)) SetExecOutput)) (xo_writes o)).1.1
      = false.

Lemma drives_yields {A} what id (m : M E A) : yields (drives (S:=S) env what id m) (λ a, ∃ e, (m e).1 = a).
Proof.
  intros w. unfold drives, mthen, ext, emit, others. simpl. destruct (m (w_ext w)) as [a e] eqn:Em. simpl.
  destruct (x_others env (w_sh w) e). simpl. exists (w_ext w). by rewrite Em.
Qed.

Lemma exec_admitted_yields c id sb d dreq eio ev adm :
  yields (exec_admitted env c id sb d dreq eio ev adm) (λ r, ∀ code, r = Ok code → ran d id sb code).
Proof.
  unfold exec_admitted. eapply yields_bind; [apply yields_any|]. intros _ _.
  eapply yields_bind; [apply drives_yields|]. intros o [e Ho].
  set (xe := exec_error _ _ o). eapply (yields_bind _ _ (λ err, err = None → xe = None)).
  { destruct xe; [by apply yields_ret|]. by intros w. }
  intros err Herr. eapply yields_bind; [apply yields_any|]. intros _ _.
  eapply yields_bind; [apply yields_any|]. intros _ _. apply yields_ret.
  intros code Hc. destruct err as [e'|]; [discriminate|].
  specialize (Herr eq_refl). apply exec_error_None in Herr as (Hl & [code' Hr] & Hx). rewrite Hr in Hc. injection Hc as ->.
  eexists _, _, e, o. rewrite Hx, Hr. split_and!; [exact Ho|done|done|exact Hl].
Qed.

Lemma exec_recorded_yields x c id sb d req dreq eio command ev :
  yields (exec_recorded env x c id sb d req dreq eio command ev) (λ r, ∀ code, r = Ok code → ran d id sb code).
Proof.
  unfold exec_recorded. eapply yields_bind; [apply yields_any|]. intros [e|] _.
  { eapply yields_bind; [apply yields_any|]. intros _ _. by apply yields_ret. }
  eapply yields_bind; [apply yields_any|]. intros [[rel next]|e] _.
  2: { eapply yields_bind; [apply yields_any|]. intros _ _. by apply yields_ret. }
  eapply yields_bind; [apply yields_any|]. intros [ok|e] _.
  - eapply yields_bind; [apply exec_admitted_yields|]. intros r Hr.
    eapply yields_bind; [apply yields_any|]. intros _ _. by apply yields_ret.
  - eapply yields_bind; [apply yields_any|]. intros _ _.
    eapply yields_bind; [apply yields_any|]. intros _ _. by apply yields_ret.
Qed.

Lemma Exec_yields x c id ifMatch req eio :
  yields (svc_Exec env syntax_Quote x c id ifMatch req eio) (λ r, ∀ code, r.2 = Ok code →
    may c r.1 = true ∧ State r.1 = StateReady ∧ CheckIfMatch ifMatch (ResourceVersion r.1) = None ∧
    ∃ d, registry_Get (c_drivers env) (DriverName r.1) = Ok d ∧ ran d id r.1 code).
Proof.
  unfold svc_Exec. destruct (Validate _); [by apply yields_ret|]. destruct (bad_env _ _); [by apply yields_ret|].
  eapply (yields_bind _ _ (λ r, ∀ sb, r = Ok sb → may c sb = true)).
  { unfold svc_Get. eapply yields_bind; [apply yields_any|]. intros [cur|e] _; apply yields_ret; [|done].
    intros sb. destruct (may c cur) eqn:Hm; simpl; [by intros [= <-]|discriminate]. }
  intros [sb|e] Hmay; [|by apply yields_ret]. specialize (Hmay sb eq_refl).
  destruct (CheckIfMatch _ _) eqn:Hif; [by apply yields_ret|].
  destruct (AcceptsWork (State sb)) eqn:Hready; simpl; [|by apply yields_ret].
  apply bool_decide_eq_true in Hready.
  destruct (registry_Get _ _) as [d|] eqn:Hd; [|by apply yields_ret].
  eapply yields_bind; [apply yields_any|]. intros [[cred vars]|e] _; [|by apply yields_ret].
  eapply (yields_bind _ _ (λ r, ∀ code, r = Ok code → ran d id sb code)).
  { destruct (Line _ _) as [command|]; [|by apply yields_ret].
    eapply yields_bind; [apply yields_any|]. intros [e|] _; [by apply yields_ret|].
    eapply yields_bind; [apply yields_any|]. intros [e|] _; [by apply yields_ret|]. apply exec_recorded_yields. }
  intros r Hr. eapply yields_bind; [apply yields_any|]. intros _ _. apply yields_ret. simpl.
  intros code ->. split_and!; [done..|]. exists d. split; [done|]. by apply Hr.
Qed.
End exec_result.

(** A result comes back only with a real exit code. When an exec answers an
    exit code, the sandbox was Ready, the caller may act on it, its version
    matched, and the registered driver ran the command: the driver itself
    returned that code without an error, before the timeout and before anyone
    ended it, and everything the command wrote is within the output bound in
    force. *)
Theorem Exec_result_is_real {S E} `{!Store S} (env : Env S E) (syntax_Quote : string → option string) (x : Ctx)
    (c : Caller) (id ifMatch : string) (req : ExecRequest) (eio : ExecIO E) (w : World S E) (sb : Sandbox) (code : Z) :
  (svc_Exec env syntax_Quote x c id ifMatch req eio w).1 = (sb, Ok code) →
  may c sb = true ∧ State sb = StateReady ∧ CheckIfMatch ifMatch (ResourceVersion sb) = None ∧
  ∃ d dreq timeout e o, registry_Get (c_drivers env) (DriverName sb) = Ok d ∧
    (d_exec d id dreq timeout e).1 = o ∧ xo_result o = Ok code ∧ xo_ctx o = None ∧
    ((0 <= Int (For (c_settings env) (Settings sb)) SetExecOutput)%Z →
     (total_length (xo_writes o) <= Int (For (c_settings env) (Settings sb)) SetExecOutput)%Z).
Proof.
  intros H. pose proof (Exec_yields env syntax_Quote x c id ifMatch req eio w code) as Hy. rewrite H in Hy. simpl in Hy.
  destruct (Hy eq_refl) as (Hm & Hs & Hif & d & Hd & dreq & timeout & e & o & Ho & Hr & Hx & Hl).
  split_and!; [done..|]. exists d, dreq, timeout, e, o. split_and!; [done..|]. by apply limited_writes_fits.
Qed.

Definition ready_sandbox : Sandbox :=
  MkSandbox "sbx_0123456789abcdef" 3 7 "base" "" "demo" StateReady [] ∅ "alice" "" ∅ 0 None 1 1.

Lemma Exec_result_is_real_witness :
  let env := calm_env (S:=Memory) {["demo" := example_driver]} capped_settings in
  let req := MkExec ["ls"] "" "" [] false in
  let run := svc_Exec env (λ _, None) Background (MkCaller "alice" false ∅) (ID ready_sandbox) "" req
               (MkExecIO unit false None None None 0) (start_world (one_sandbox ready_sandbox) tt) in
  run.1 = (ready_sandbox, Ok 0%Z) ∧ may (MkCaller "alice" false ∅) ready_sandbox = true.
Proof.
  intros env req run. assert (Hrun : run.1 = (ready_sandbox, Ok 0%Z)) by (vm_compute; reflexivity).
  split; [exact Hrun|].
  destruct (Exec_result_is_real env (λ _, None) Background (MkCaller "alice" false ∅) (ID ready_sandbox) "" req
    (MkExecIO unit false None None None 0) (start_world (one_sandbox ready_sandbox) tt) ready_sandbox 0 Hrun) as [H _].
  exact H.
Defined.
