(* ===== verification/Verbs.v ===== *)
(** The verbs that reach a driver's optional capabilities
    (controlplane/verbs.go): snapshot, restore, copies and streams, with the
    hold that keeps the reconciler off a sandbox while a restore replaces its
    files (controlplane/reconcile.go). *)

From Stdlib Require Import ZArith NArith Ascii String Lia.
From stdpp Require Import base tactics list gmap strings relations.
From S2P Require Import Prelude GoStd Errors Labels Driver Lifecycle Etag Settings Store Memory World Mutate.
From S2P Require Import Admission Protocol Templates Service Exec.

#[local] Open Scope string_scope.
#[local] Open Scope go_scope.

(** No control character in what a caller names. Every rune under 0x20 or
    equal to 0x7f is one byte, so the bytes are looked at. *)
Definition plainText (what v : string) : option error :=
  fail_if (str_exists (λ c, (bv c <? 32)%N || (bv c =? 127)%N) v)
    (errorf ErrInvalid ("the " ++ what ++ " holds a control character")).

(** [errors.Join] of two errors that may be nil. *)
Definition join_opt (a b : option error) : option error :=
  match a, b with
  | Some a, Some b => Some (errjoin a b)
  | Some a, None => Some a
  | None, b => b
  end.

Definition settled (st : state) : bool := bool_decide (st = StateReady) || CanRestore st.

(** A request to [Stream]; [rs_Cause] is [context.Cause] once it has run. *)
Record StreamRequest (E : Type) : Type := MkStream {
  rs_Action : string; rs_Capability : Capability; rs_Detail : strmap;
  rs_Screen : option (M E (option error)); rs_Cause : M E (option error)
}.
Arguments rs_Action {E}. Arguments rs_Capability {E}. Arguments rs_Detail {E}.
Arguments rs_Screen {E}. Arguments rs_Cause {E}.

Section verbs.
Context {S E : Type} `{!Store S} (env : Env S E).
Abbreviation W := (World S E).

(** ** The hold *)

Definition unhold (id : string) (kick : bool) : M W unit :=
  let! sh := shared in
  let again := bool_decide (id ∈ sh_again sh) in
  set_shared (λ sh, put_marks sh (sh_inflight sh ∖ {[id]}) (sh_again sh ∖ {[id]})) ;;;
  if again || kick then Kick id else mreturn tt.

(** Looks until no pass over [id] runs, at most [n] more times. *)
Fixpoint hold_loop (n : nat) (ended : error) (id : string) : M W (option error) :=
  let! sh := shared in
  if negb (bool_decide (id ∈ sh_inflight sh)) then
    set_shared (λ sh, put_marks sh ({[id]} ∪ sh_inflight sh) (sh_again sh)) ;;; mreturn None
  else match n with
       | 0%nat => mreturn (Some ended)
       | Datatypes.S n => others env ;;; hold_loop n ended id
       end.

Definition holdPass (id : string) : M W (option error) :=
  let! (n, ended) := ext (x_done env) in hold_loop n ended id.

(** ** Common parts *)

Definition capable (sb : Sandbox) (c : Capability) : result (Driver E) :=
  match registry_Get (c_drivers env) (DriverName sb) with
  | Fail _ => Fail (errorf ErrUnavailable ("driver " ++ DriverName sb ++ " is not registered"))
  | Ok d =>
      if negb (bool_decide (c = CapNone)) && negb (Has (d_info d) c) then
        Fail (driver_errorf DErrUnsupported ("driver " ++ DriverName sb ++ " does not support " ++ capability_text c))
      else Ok d
  end.

Definition prepare (c : Caller) (id ifMatch verb : string) (ok : state → bool) (cap : Capability)
    : M W (Sandbox * result (Driver E)) :=
  let! r := svc_Get env c id in
  match r with Fail e => mreturn (zero_sandbox, Fail e) | Ok sb =>
  match CheckIfMatch ifMatch (ResourceVersion sb) with Some e => mreturn (sb, Fail e) | None =>
  if negb (ok (State sb)) then
    mreturn (sb, Fail (errorf ErrInvalidTransition
      ("sandbox " ++ id ++ " is " ++ state_text (State sb) ++ "; :" ++ verb ++ " cannot run now")))
  else
  match capable sb cap with Fail e => mreturn (sb, Fail e) | Ok d =>
  let! oe := owned env id in
  mreturn (sb, match oe with Some e => Fail e | None => Ok d end)
  end end end.

(** The guard, then the interceptor, about a verb as the operation it amounts
    to. A refusal has released what it held and recorded its outcome. *)
Definition admitVerb (x : Ctx) (ev : AuditEvent) (c : Caller) (sb : Sandbox) (op command : string)
    : M W (result (option nat * AdmissionRequest)) :=
  let is_exec := String.eqb op OpExec in
  let adm := MkAdmReq op c (ID sb) (Some sb) sb (if is_exec then redact env command else "") false "" [] in
  let! g := guardAdmit env x (MkAdmission op c sb None
              (if is_exec then Some (MkExec [] command "" [] false) else None) 0 "" "") in
  match g with
  | Fail e => outcome env ev (Some e) ;;; mreturn (Fail e)
  | Ok (rel, _) =>
      let! a := svc_admit env adm in
      match a with
      | Fail e => release env rel ;;; outcome env ev (Some e) ;;; mreturn (Fail e)
      | Ok next => mreturn (Ok (rel, MkAdmReq op c (ID sb) (Some sb) next (ar_Command adm) false "" []))
      end
  end.

Definition verb_event (c : Caller) (action id : string) (sb : Sandbox) (detail : strmap) : AuditEvent :=
  MkEvent 0 0 (Principal c) action id (Generation sb) "" "" detail.

(** ** Snapshot *)

Definition svc_Snapshot (x : Ctx) (c : Caller) (id ifMatch name : string) : M W (Sandbox * result SnapshotRef) :=
  match plainText "snapshot name" name with Some e => mreturn (zero_sandbox, Fail e) | None =>
  let! (sb, rd) := prepare c id ifMatch "snapshot" settled CapSnapshot in
  match rd with Fail e => mreturn (sb, Fail e) | Ok d =>
  let ev := verb_event c "snapshot" id sb {["name" := name]} in
  let! re := record env (requested ev) in
  match re with Some e => mreturn (sb, Fail e) | None =>
  let! a := admitVerb x ev c sb OpExec (":snapshot " ++ name) in
  match a with Fail e => mreturn (sb, Fail e) | Ok (rel, adm) =>
  let! ref := drives env "Snapshot" id (driver_Snapshot d id name) in
  let ev := match ref with
            | Ok r => with_detail ev (<["snapshot_id" := sr_id r]> (<["digest" := sr_digest r]> (ev_Detail ev)))
            | Fail _ => ev
            end in
  outcome env ev (err_of ref) ;;;
  svc_committed env adm sb (err_of ref) ;;;
  release env rel ;;;
  mreturn (sb, ref)
  end end end end.

(** ** Restore *)

Definition restore_change (adm : AdmissionRequest) (cur : Sandbox) (a : unit) : M W (result Sandbox * unit) :=
  let! at_ := now env in
  mreturn (match sandbox_Restore cur at_ with
           | Ok cur => Ok (with_settings (with_labels (with_restarts cur 0 None) (Labels (ar_Object adm)))
                             (Settings (ar_Object adm)))
           | Fail e => Fail e
           end, a).

(** Back to the state before, under the generation that did not run. *)
Definition restore_undo (sb : Sandbox) (cur : Sandbox) (a : unit) : M W (result Sandbox * unit) :=
  let! at_ := now env in
  mreturn (Ok (with_updated (with_settings (with_labels (with_restarts (with_state cur (Generation cur) (State sb) at_)
                 (Restarts sb) (NextRestart sb)) (Labels sb)) (Settings sb)) at_), a).

(** The files: put in by the driver, or everything put back. *)
Definition restore_files (id : string) (d : Driver E) (sb out : Sandbox) (ref : SnapshotRef) : M W (result Sandbox) :=
  let! derr := drives env "Restore" id (driver_Restore d id ref) in
  match derr with
  | None => mreturn (Ok out)
  | Some e =>
      let! (r, _) := Mutate env id (ETag (ResourceVersion out)) (restore_undo sb) tt in
      mreturn (Fail (match r with Fail re => errjoin e (storeErr re) | Ok _ => e end))
  end.

Definition svc_Restore (x : Ctx) (c : Caller) (id ifMatch : string) (ref : SnapshotRef) : M W (result Sandbox) :=
  match join_opt (plainText "snapshot id" (sr_id ref)) (plainText "snapshot digest" (sr_digest ref)) with
  | Some e => mreturn (Fail e) | None =>
  let! (sb, rd) := prepare c id ifMatch "restore" CanRestore CapSnapshot in
  match rd with Fail e => mreturn (Fail e) | Ok d =>
  if String.eqb (sr_id ref) "" || String.eqb (sr_digest ref) "" then
    mreturn (Fail (errorf ErrInvalid "snapshot must carry its id and digest"))
  else
  let ev := verb_event c "restore" id sb (<["snapshot_id" := sr_id ref]> {["digest" := sr_digest ref]}) in
  let! re := record env (requested ev) in
  match re with Some e => mreturn (Fail e) | None =>
  let! a := admitVerb x ev c sb OpStart "" in
  match a with Fail e => mreturn (Fail e) | Ok (rel, adm) =>
  let! he := holdPass id in
  match he with
  | Some e => outcome env ev (Some e) ;;; release env rel ;;; mreturn (Fail e)
  | None =>
  let! (out, _) := Mutate env id (ETag (ResourceVersion sb)) (restore_change adm) tt in
  let! res := match out with
              | Fail e => mreturn (Fail (storeErr e))
              | Ok out => restore_files id d sb out ref
              end in
  let ev := match res with Ok out => with_generation ev (Generation out) | Fail _ => ev end in
  outcome env ev (err_of res) ;;;
  svc_committed env adm (or_zero res) (err_of res) ;;;
  unhold id true ;;;
  release env rel ;;;
  mreturn res
  end end end end end.

(** ** Copies *)

Definition svc_CopyIn (x : Ctx) (c : Caller) (id dst : string) : M W (Sandbox * option error) :=
  match plainText "path" dst with Some e => mreturn (zero_sandbox, Some e) | None =>
  let! (sb, rd) := prepare c id "" "cp" AcceptsWork CapCopy in
  match rd with Fail e => mreturn (sb, Some e) | Ok d =>
  let ev := verb_event c "cp" id sb (<["direction" := "in"]> {["path" := redact env dst]}) in
  let! re := record env (requested ev) in
  match re with Some e => mreturn (sb, Some e) | None =>
  let! a := admitVerb x ev c sb OpExec (":cp in " ++ dst) in
  match a with Fail e => mreturn (sb, Some e) | Ok (rel, adm) =>
  let! err := drives env "CopyIn" id (driver_CopyIn d id dst) in
  outcome env ev err ;;; svc_committed env adm sb err ;;; release env rel ;;;
  mreturn (sb, err)
  end end end end.

(** What a copy out sent, and how it ended: the output bound comes first. *)
Definition copy_error (limit : Z) (writes : list string) (err : option error) : option error :=
  if ol_exceeded (limited_writes (NewOutputLimit limit) writes).1.1
  then Some (errorf DErrOutputLimit ("the copy was larger than " ++ Itoa limit ++ " bytes and was stopped"))
  else err.

(** [started] runs once: at the first write the driver makes, or after a copy
    that succeeded with nothing to write. *)
Definition svc_CopyOut (x : Ctx) (c : Caller) (id src : string) (started : option (Sandbox → M E unit))
    : M W (Sandbox * list string * option error) :=
  match plainText "path" src with Some e => mreturn (zero_sandbox, [], Some e) | None =>
  let! (sb, rd) := prepare c id "" "cp" AcceptsWork CapCopy in
  match rd with Fail e => mreturn (sb, [], Some e) | Ok d =>
  let ev := verb_event c "cp" id sb (<["direction" := "out"]> {["path" := redact env src]}) in
  let! re := record env (requested ev) in
  match re with Some e => mreturn (sb, [], Some e) | None =>
  let! a := admitVerb x ev c sb OpExec (":cp out " ++ src) in
  match a with Fail e => mreturn (sb, [], Some e) | Ok (rel, adm) =>
  let limit := Int (For (c_settings env) (Settings sb)) SetExecOutput in
  let! (chunks, derr) := drives env "CopyOut" id (driver_CopyOut d id src) in
  let begun := negb (bool_decide (chunks = [])) || negb (opt_some derr) in
  (match started with Some f => if begun then ext (f sb) else mreturn tt | None => mreturn tt end) ;;;
  let err := copy_error limit chunks derr in
  outcome env ev err ;;; svc_committed env adm sb err ;;; release env rel ;;;
  mreturn (sb, (limited_writes (NewOutputLimit limit) chunks).1.2, err)
  end end end end.

(** ** Streams *)

(** The command a guard and an interceptor are shown for a stream. *)
Definition stream_command (action : string) (detail : strmap) : string :=
  foldl (λ cmd k, cmd ++ " " ++ k ++ "=" ++ map_get detail k) (":" ++ action) (sorted_keys detail).

Definition svc_Stream (x : Ctx) (c : Caller) (id : string) (req : StreamRequest E)
    (fn : Driver E → Sandbox → M W (strmap * option error)) : M W (Sandbox * option error) :=
  let! (sb, rd) := prepare c id "" (rs_Action req) AcceptsWork (rs_Capability req) in
  match rd with Fail e => mreturn (sb, Some e) | Ok d =>
  let ev := verb_event c (rs_Action req) id sb (rs_Detail req) in
  let! re := record env (requested ev) in
  match re with Some e => mreturn (sb, Some e) | None =>
  let! serr := ask (rs_Screen req) in
  match serr with Some e => outcome env ev (Some e) ;;; mreturn (sb, Some e) | None =>
  let! a := admitVerb x ev c sb OpExec (stream_command (rs_Action req) (rs_Detail req)) in
  match a with Fail e => mreturn (sb, Some e) | Ok (rel, adm) =>
  let! (more, err) := fn d sb in
  let! cause := ext (rs_Cause req) in
  let err := match cause with
             | Some ca => if opt_some err || Is ca ErrEndedByGuard then Some ca else err
             | None => err
             end in
  let ev := with_detail ev (maps_copy (ev_Detail ev) more) in
  outcome env ev err ;;; svc_committed env adm sb err ;;; release env rel ;;;
  mreturn (sb, err)
  end end end end.

Definition svc_UseDriver (x : Ctx) (c : Caller) (id action : string) (cap : Capability) (detail : strmap)
    (cause : M E (option error)) (fn : Driver E → Sandbox → M W (option error)) : M W (Sandbox * option error) :=
  svc_Stream x c id (MkStream E action cap detail None cause)
    (λ d sb, let! err := fn d sb in mreturn (∅, err)).

(** ** Notes and reads *)

Definition svc_Note (c : Caller) (sb : Sandbox) (action outc : string) (detail : strmap) (redacted : list string)
    : M W (option error) :=
  let d := foldl (λ (d : strmap) k, match d !! k with Some v => <[k := redact env v]> d | None => d end) detail redacted in
  record env (MkEvent 0 0 (Principal c) action (ID sb) (Generation sb)
                (if String.eqb outc "" then OutcomeOK else outc) "" d).

Definition svc_Current (id : string) : M W (result (Z * bool)) :=
  let! r := on_store env (st_Get id) in
  mreturn (match r with Fail e => Fail (storeErr e) | Ok sb => Ok (Generation sb, AcceptsWork (State sb)) end).
End verbs.

(** ** The protocol of the verbs *)

Section verbs_protocol.
Context {S E : Type} `{!Store S} (env : Env S E).
Abbreviation W := (World S E).
Abbreviation at_ := (at_proto (S:=S) (E:=E) true).

Lemma silent_prepare c id ifMatch verb ok cap : silent (prepare env c id ifMatch verb ok cap).
Proof.
  apply silent_bind; [apply silent_svc_Get|]. intros [sb|]; [|apply silent_ret].
  destruct (CheckIfMatch _ _); [apply silent_ret|]. destruct (negb _); [apply silent_ret|].
  destruct (capable _ _ _); [|apply silent_ret].
  apply silent_bind; [apply silent_owned|]. intros ?. apply silent_ret.
Qed.

Lemma silent_holdPass id : silent (holdPass env id).
Proof.
  apply silent_bind; [apply silent_ext|]. intros [n ended]. induction n as [|n IH]; simpl.
  - apply silent_bind; [apply silent_shared|]. intros sh. destruct (negb _); apply silent_ret || idtac.
    apply silent_bind; [apply silent_set_shared|]. intros ?. apply silent_ret.
  - apply silent_bind; [apply silent_shared|]. intros sh. destruct (negb _).
    + apply silent_bind; [apply silent_set_shared|]. intros ?. apply silent_ret.
    + apply silent_bind; [apply silent_others|]. intros ?. exact IH.
Qed.

Lemma unhold_triple p id kick : triple (at_ p) (unhold id kick) (λ _, at_ p).
Proof.
  unfold unhold. eapply triple_bind; [apply silent_triple, silent_shared|]. intros sh. cbn beta zeta.
  eapply triple_bind; [apply silent_triple, silent_set_shared|]. intros ?. cbn beta.
  destruct (_ || _); [apply Kick_triple|by apply triple_ret].
Qed.

Lemma admitVerb_triple k x ev c sb op command :
  k = ev_key ev → k.1.2 ≠ "admission" →
  triple (at_ (Proto (Some k) false [] [])) (admitVerb env x ev c sb op command)
    (λ r, at_ (match r with Ok (rel, _) => Proto (Some k) true (hold rel []) [] | Fail _ => idle end)).
Proof.
  intros Hk Ha. unfold admitVerb.
  eapply triple_bind; [apply guardAdmit_triple|]. intros [[rel next]|e]; cbn beta iota.
  2: { eapply triple_bind; [by apply outcome_triple|]. intros ?. by apply triple_ret. }
  eapply triple_bind; [apply admit_triple; by intros ? [= <-]|]. intros [nx|e]; cbn beta; [by apply triple_ret|].
  eapply triple_bind; [apply release_triple|]. intros ?. cbn beta.
  eapply triple_bind; [by apply outcome_triple|]. intros ?. by apply triple_ret.
Qed.

(** The end every verb has: outcome, post-commit, release. *)
Lemma verb_end_triple {A} k rel ev err adm out (a : A) :
  k = ev_key ev →
  triple (at_ (Proto (Some k) true (hold rel []) []))
    (outcome env ev err ;;; svc_committed env adm out err ;;; release env rel ;;; mreturn a) (λ _, at_ idle).
Proof.
  intros Hk. eapply triple_bind; [by apply outcome_triple|]. intros ?. cbn beta.
  eapply triple_bind; [by apply committed_triple|]. intros ?. cbn beta.
  eapply triple_bind; [apply release_triple|]. intros ?. by apply triple_ret.
Qed.

Lemma Snapshot_triple x c id ifMatch name : triple (at_ idle) (svc_Snapshot env x c id ifMatch name) (λ _, at_ idle).
Proof.
  unfold svc_Snapshot. destruct (plainText _ _); [by apply triple_ret|].
  eapply triple_bind; [apply silent_triple, silent_prepare|]. intros [sb [d|e]]; [|by apply triple_ret]. cbn beta zeta.
  eapply triple_bind; [apply record_requested_triple|]. intros [e|]; [by apply triple_ret|]. cbn beta iota.
  eapply triple_bind; [by apply admitVerb_triple|]. intros [[rel adm]|e]; [|by apply triple_ret]. cbn beta iota.
  eapply triple_bind; [by apply drives_triple|]. intros ref. cbn beta. apply verb_end_triple. by destruct ref.
Qed.

Lemma CopyIn_triple x c id dst : triple (at_ idle) (svc_CopyIn env x c id dst) (λ _, at_ idle).
Proof.
  unfold svc_CopyIn. destruct (plainText _ _); [by apply triple_ret|].
  eapply triple_bind; [apply silent_triple, silent_prepare|]. intros [sb [d|e]]; [|by apply triple_ret]. cbn beta zeta.
  eapply triple_bind; [apply record_requested_triple|]. intros [e|]; [by apply triple_ret|]. cbn beta iota.
  eapply triple_bind; [by apply admitVerb_triple|]. intros [[rel adm]|e]; [|by apply triple_ret]. cbn beta iota.
  eapply triple_bind; [by apply drives_triple|]. intros err. cbn beta. by apply verb_end_triple.
Qed.

Lemma CopyOut_triple x c id src started : triple (at_ idle) (svc_CopyOut env x c id src started) (λ _, at_ idle).
Proof.
  unfold svc_CopyOut. destruct (plainText _ _); [by apply triple_ret|].
  eapply triple_bind; [apply silent_triple, silent_prepare|]. intros [sb [d|e]]; [|by apply triple_ret]. cbn beta zeta.
  eapply triple_bind; [apply record_requested_triple|]. intros [e|]; [by apply triple_ret|]. cbn beta iota.
  eapply triple_bind; [by apply admitVerb_triple|]. intros [[rel adm]|e]; [|by apply triple_ret]. cbn beta iota.
  eapply triple_bind; [by apply drives_triple|]. intros [chunks derr]. cbn beta zeta.
  eapply triple_bind; [apply silent_triple; destruct started; [case_match|]; auto using silent_ext, silent_ret|].
  intros ?. cbn beta. by apply verb_end_triple.
Qed.

(** What [fn] may do inside a stream: anything that leaves the request open. *)
Lemma Stream_triple x c id req fn :
  rs_Action req ≠ "admission" →
  (∀ k d sb, request_id k = id → ∀ h, triple (at_ (Proto (Some k) true h [])) (fn d sb) (λ _, at_ (Proto (Some k) true h []))) →
  triple (at_ idle) (svc_Stream env x c id req fn) (λ _, at_ idle).
Proof.
  intros Ha Hfn. unfold svc_Stream.
  eapply triple_bind; [apply silent_triple, silent_prepare|]. intros [sb [d|e]]; [|by apply triple_ret]. cbn beta zeta.
  eapply triple_bind; [apply record_requested_triple|]. intros [e|]; [by apply triple_ret|]. cbn beta iota.
  eapply triple_bind; [apply silent_triple, silent_ask|]. intros [e|]; cbn beta.
  { eapply triple_bind; [by apply outcome_triple|]. intros ?. by apply triple_ret. }
  eapply triple_bind; [by apply admitVerb_triple|]. intros [[rel adm]|e]; [|by apply triple_ret]. cbn beta iota.
  eapply triple_bind; [by apply Hfn|]. intros [more err]. cbn beta.
  eapply triple_bind; [apply silent_triple, silent_ext|]. intros cause. cbn beta zeta. by apply verb_end_triple.
Qed.

Lemma restore_files_triple k h id d sb out ref :
  id = request_id k →
  triple (at_ (Proto (Some k) true h [])) (restore_files env id d sb out ref) (λ _, at_ (Proto (Some k) true h [])).
Proof.
  intros Hid. unfold restore_files.
  eapply triple_bind; [by apply drives_triple|]. intros [e|]; [|by apply triple_ret]. cbn beta.
  eapply triple_bind; [apply mutate_triple; [done|done|]|].
  - intros cur a. apply silent_triple, silent_bind; [apply silent_now|]. intros ?. apply silent_ret.
  - intros [r a]. by apply triple_ret.
Qed.

Lemma Restore_triple x c id ifMatch ref : triple (at_ idle) (svc_Restore env x c id ifMatch ref) (λ _, at_ idle).
Proof.
  unfold svc_Restore. destruct (join_opt _ _); [by apply triple_ret|].
  eapply triple_bind; [apply silent_triple, silent_prepare|]. intros [sb [d|e]]; [|by apply triple_ret]. cbn beta zeta.
  destruct (_ || _); [by apply triple_ret|].
  eapply triple_bind; [apply record_requested_triple|]. intros [e|]; [by apply triple_ret|]. cbn beta iota.
  eapply triple_bind; [by apply admitVerb_triple|]. intros [[rel adm]|e]; [|by apply triple_ret]. cbn beta iota.
  eapply triple_bind; [apply silent_triple, silent_holdPass|]. intros [e|]; cbn beta.
  { eapply triple_bind; [by apply outcome_triple|]. intros ?. cbn beta.
    eapply triple_bind; [apply release_triple|]. intros ?. by apply triple_ret. }
  eapply triple_bind; [apply mutate_triple; [done|done|]|].
  { intros cur a. apply silent_triple, silent_bind; [apply silent_now|]. intros ?. apply silent_ret. }
  intros [out a]. cbn beta.
  set (k := ev_key _). eapply (triple_bind _ _ _ (λ _, at_ (Proto (Some k) true (hold rel []) []))).
  { destruct out; [by apply restore_files_triple|by apply triple_ret]. }
  intros res. cbn beta zeta. eapply triple_bind; [apply outcome_triple; by destruct res|]. intros ?. cbn beta.
  eapply triple_bind; [by apply committed_triple|]. intros ?. cbn beta.
  eapply triple_bind; [apply unhold_triple|]. intros ?. cbn beta.
  eapply triple_bind; [apply release_triple|]. intros ?. by apply triple_ret.
Qed.
End verbs_protocol.
