(* ===== verification/Calls.v ===== *)
(** Every caller-made operation as one type, and what holds of all of them:
    the record comes first, the guard's slots and the egress credentials are
    given back, every request's outcome is recorded once. The proofs are those
    of the automaton in file Protocol; here its runs are read back as facts
    about traces. *)

From Stdlib Require Import ZArith NArith Ascii String Lia.
From stdpp Require Import base tactics list gmap strings relations.
From S2P Require Import Prelude GoStd Errors Labels Driver Lifecycle Etag Settings Store Memory World Mutate.
From S2P Require Import Admission Protocol Templates Service Exec Verbs.

#[local] Open Scope string_scope.
#[local] Open Scope go_scope.

(** ** The calls *)

Section calls.
Context {S E : Type} `{!Store S} (env : Env S E) (syntax_Quote : string → option string).
Abbreviation W := (World S E).

(** A stream's function is the caller's; here it acts through the driver. *)
Inductive call : Type :=
| CallCreate (x : Ctx) (c : Caller) (req : CreateRequest)
| CallUpdate (x : Ctx) (c : Caller) (id ifMatch : string) (p : Patch)
| CallStart (x : Ctx) (c : Caller) (id ifMatch : string)
| CallStop (x : Ctx) (c : Caller) (id ifMatch : string) (grace : Z)
| CallDelete (x : Ctx) (c : Caller) (id ifMatch : string)
| CallExec (x : Ctx) (c : Caller) (id ifMatch : string) (req : ExecRequest) (eio : ExecIO E)
| CallSnapshot (x : Ctx) (c : Caller) (id ifMatch name : string)
| CallRestore (x : Ctx) (c : Caller) (id ifMatch : string) (ref : SnapshotRef)
| CallCopyIn (x : Ctx) (c : Caller) (id dst : string)
| CallCopyOut (x : Ctx) (c : Caller) (id src : string) (started : option (Sandbox → M E unit))
| CallStream (x : Ctx) (c : Caller) (id : string) (req : StreamRequest E)
    (fn : Driver E → Sandbox → M E (strmap * option error)).

(** How a call ended. *)
Definition run_call (k : call) : M W (option error) :=
  match k with
  | CallCreate x c req => let! r := svc_Create env x c req in mreturn (err_of r)
  | CallUpdate x c id im p => let! r := svc_Update env x c id im p in mreturn (err_of r)
  | CallStart x c id im => let! r := svc_Start env x c id im in mreturn (err_of r)
  | CallStop x c id im g => let! r := svc_Stop env x c id im g in mreturn (err_of r)
  | CallDelete x c id im => let! r := svc_Delete env x c id im in mreturn (err_of r)
  | CallExec x c id im req eio => let! (_, r) := svc_Exec env syntax_Quote x c id im req eio in mreturn (err_of r)
  | CallSnapshot x c id im n => let! (_, r) := svc_Snapshot env x c id im n in mreturn (err_of r)
  | CallRestore x c id im ref => let! r := svc_Restore env x c id im ref in mreturn (err_of r)
  | CallCopyIn x c id dst => let! (_, e) := svc_CopyIn env x c id dst in mreturn e
  | CallCopyOut x c id src st => let! (_, _, e) := svc_CopyOut env x c id src st in mreturn e
  | CallStream x c id req fn =>
      let! (_, e) := svc_Stream env x c id req (λ d sb, drives env (rs_Action req) id (fn d sb)) in mreturn e
  end.

(** A stream's action is not the one decisions are recorded under. *)
Definition call_ok (k : call) : bool :=
  match k with CallStream _ _ _ req _ => negb (String.eqb (rs_Action req) "admission") | _ => true end.

Definition run_calls (ks : list call) : M W unit := foldr (λ k rest, run_call k ;;; rest) (mreturn tt) ks.

Lemma call_triple k :
  call_ok k = true → triple (at_proto true idle) (run_call k) (λ _, at_proto true idle).
Proof.
  intros Hok. destruct k; simpl in *; (eapply triple_bind; [|intros ?; cbn beta]).
  1: apply Create_triple.
  2: apply Update_triple.
  3: apply Start_triple.
  4: apply Stop_triple.
  5: apply Delete_triple.
  6: apply Exec_triple.
  7: apply Snapshot_triple.
  8: apply Restore_triple.
  9: apply CopyIn_triple.
  10: apply CopyOut_triple.
  11: { apply Stream_triple.
        - by apply negb_true_iff, String.eqb_neq in Hok.
        - intros k d sb Hk h. by apply drives_triple. }
  all: repeat match goal with p : _ * _ |- _ => destruct p end; by apply triple_ret.
Qed.

Lemma calls_triple ks :
  forallb call_ok ks = true → triple (at_proto true idle) (run_calls ks) (λ _, at_proto true idle).
Proof.
  induction ks as [|k ks IH]; simpl; intros Hok; [by apply triple_ret|].
  apply andb_true_iff in Hok as [Hk Hks].
  eapply triple_bind; [by apply call_triple|]. intros ?. cbn beta. by apply IH.
Qed.
End calls.
Arguments call : clear implicits.

(** ** Reading a run of the automaton back *)

Definition is_request (ev : AuditEvent) : bool := String.eqb (ev_Outcome ev) OutcomeRequested.

(** The sandbox an effect touches. *)
Definition touches (e : effect) : option string :=
  match e with EvStore _ id | EvDriver _ id => Some id | _ => None end.

(** The request is on the record in [tr] and, after it, the guard admitted. *)
Definition recorded_then_admitted (id : string) (tr : list effect) : Prop :=
  ∃ t0 ev t1 r t2, tr = (t0 ++ EvAudit ev true :: t1 ++ EvGuard true r :: t2)%list ∧
    is_request ev = true ∧ ev_SandboxID ev = id.

Definition recorded (id : string) (tr : list effect) : Prop :=
  ∃ t0 ev t1, tr = (t0 ++ EvAudit ev true :: t1)%list ∧ is_request ev = true ∧ ev_SandboxID ev = id.

Lemma recorded_snoc id tr e : recorded id tr → recorded id (tr ++ [e]).
Proof.
  intros (t0 & ev & t1 & -> & ?). exists t0, ev, (t1 ++ [e])%list. by rewrite <- app_assoc.
Qed.
Lemma recorded_then_admitted_snoc id tr e : recorded_then_admitted id tr → recorded_then_admitted id (tr ++ [e]).
Proof.
  intros (t0 & ev & t1 & r & t2 & -> & ?). exists t0, ev, t1, r, (t2 ++ [e])%list.
  by rewrite <- app_assoc, app_comm_cons, <- app_assoc.
Qed.
Lemma recorded_admit id tr r : recorded id tr → recorded_then_admitted id (tr ++ [EvGuard true r]).
Proof.
  intros (t0 & ev & t1 & -> & ?). exists t0, ev, t1, r, []. by rewrite <- app_assoc.
Qed.

(** What the automaton's state says of the trace that led to it. *)
Lemma proto_run_history tr p :
  proto_run true idle tr = Some p →
  ∀ k, p_open p = Some k → recorded k.2 tr ∧ (p_admitted p = true → recorded_then_admitted k.2 tr).
Proof.
  revert p. induction tr as [|e tr IH] using rev_ind; intros p Hrun k Hk; [simpl in Hrun; by simplify_eq|].
  rewrite proto_run_app in Hrun. destruct (proto_run true idle tr) as [q|] eqn:Eq; [|done].
  destruct q as [o a h cr].
  assert (Hsame : ∀ p, p_open p = o → (p_admitted p = true → a = true) → p_open p = Some k →
            recorded k.2 (tr ++ [e]) ∧ (p_admitted p = true → recorded_then_admitted k.2 (tr ++ [e]))).
  { intros p' Ho Ha Hp. destruct (IH _ eq_refl k ltac:(simpl; congruence)) as [Hr Hra].
    split; [by apply recorded_snoc|]. intros ?. apply recorded_then_admitted_snoc, Hra. by apply Ha. }
  destruct e as [ev kept|what id|what id|ok r|t|t|t|id]; simpl in Hrun.
  - destruct (String.eqb (ev_Outcome ev) OutcomeRequested) eqn:Ereq.
    + destruct o; [done|]. destruct kept; simplify_eq/=.
      split; [|done]. by exists tr, ev, [].
    + case_bool_decide; [by simplify_eq/=|]. destruct (String.eqb (ev_Action ev) "admission"); [|done].
      simplify_eq/=. by apply (Hsame (Proto (Some k) a h cr)).
  - destruct o as [k'|]; [|done]. destruct (_ && _); [|done]. simplify_eq/=. by apply (Hsame (Proto (Some k) a h cr)).
  - destruct o as [k'|]; [|done]. destruct (_ && _); [|done]. simplify_eq/=. by apply (Hsame (Proto (Some k) a h cr)).
  - destruct o as [k'|]; [|done]. simplify_eq/=.
    destruct (IH _ eq_refl k eq_refl) as [Hr Hra]. split; [by apply recorded_snoc|].
    destruct a; simpl; [intros _; by apply recorded_then_admitted_snoc, Hra|]. intros ->. by apply recorded_admit.
  - destruct (give_back t h); [|done]. simplify_eq/=. by apply (Hsame (Proto (Some k) a h cr)).
  - simplify_eq/=. by apply (Hsame (Proto (Some k) a h cr)).
  - destruct (give_back t cr); [|done]. simplify_eq/=. by apply (Hsame (Proto (Some k) a h cr)).
  - simplify_eq/=. by apply (Hsame (Proto (Some k) a h cr)).
Qed.

Lemma proto_run_split g p tr1 tr2 :
  proto_run g p (tr1 ++ tr2) = match proto_run g p tr1 with Some q => proto_run g q tr2 | None => None end.
Proof. revert p. induction tr1 as [|e tr1 IH]; intros p; simpl; [done|]. destruct (proto_step g p e); auto. Qed.

Lemma touch_after_request tr1 e tr2 p id :
  proto_run true idle (tr1 ++ e :: tr2) = Some p → touches e = Some id → recorded_then_admitted id tr1.
Proof.
  rewrite proto_run_split. destruct (proto_run true idle tr1) as [[o a h cr]|] eqn:E1; [|done]. cbn [proto_run].
  destruct (proto_step true (Proto o a h cr) e) eqn:Es; [|done]. intros _ Ht.
  pose proof (proto_run_history tr1 _ E1) as Hh. simpl in Hh.
  destruct e; simpl in Ht; simplify_eq; simpl in Es; (destruct o as [k|]; [|done]);
    destruct (String.eqb_spec id k.2) as [->|]; simpl in Es; try done; rewrite orb_false_r in Es;
    destruct a; try done; by apply (Hh k).
Qed.

(** How often a number occurs. *)
Definition count (t : nat) (l : list nat) : nat := length (filter (λ u, u = t) l).

Definition handed (tr : list effect) : list nat :=
  omap (λ e, match e with EvGuard _ r => r | _ => None end) tr.
Definition released (tr : list effect) : list nat :=
  omap (λ e, match e with EvRelease t => Some t | _ => None end) tr.
Definition issued (tr : list effect) : list nat :=
  omap (λ e, match e with EvCredential t => Some t | _ => None end) tr.
Definition revoked (tr : list effect) : list nat :=
  omap (λ e, match e with EvRevoke t => Some t | _ => None end) tr.
(** The requests the record kept, and the outcomes put to it; an interceptor's
    decisions, recorded in between, are neither. *)
Definition decision (ev : AuditEvent) : bool := String.eqb (ev_Action ev) "admission".
Definition requests (tr : list effect) : list request :=
  omap (λ e, match e with
             | EvAudit ev true => if is_request ev && negb (decision ev) then Some (ev_key ev) else None
             | _ => None end) tr.
Definition outcomes (tr : list effect) : list request :=
  omap (λ e, match e with
             | EvAudit ev _ => if is_request ev || decision ev then None else Some (ev_key ev)
             | _ => None end) tr.

Lemma give_back_perm t l r : give_back t l = Some r → l ≡ₚ t :: r.
Proof.
  revert r. induction l as [|u l IH]; intros r; simpl; [done|].
  destruct (Nat.eqb_spec t u) as [->|]; [by intros [= ->]|].
  destruct (give_back t l) eqn:E; [|done]. intros [= <-]. rewrite (IH _ eq_refl). apply Permutation_swap.
Qed.

Lemma proto_run_balance g tr p :
  proto_run g idle tr = Some p →
  handed tr ≡ₚ released tr ++ p_holds p ∧ issued tr ≡ₚ revoked tr ++ p_creds p.
Proof.
  revert p. induction tr as [|e tr IH] using rev_ind; intros p Hrun; [simpl in Hrun; by simplify_eq|].
  rewrite proto_run_app in Hrun. destruct (proto_run g idle tr) as [[o a h cr]|] eqn:Eq; [|done].
  destruct (IH _ eq_refl) as [Hh Hc]. unfold handed, released, issued, revoked in *. rewrite !omap_app. simpl in *.
  destruct e as [ev kept|what id|what id|ok r|t|t|t|id]; simpl in *; rewrite ?app_nil_r.
  - destruct (String.eqb (ev_Outcome ev) OutcomeRequested).
    + destruct o; [done|]. destruct kept; simplify_eq/=; done.
    + case_bool_decide; [by simplify_eq/=|]. destruct (String.eqb (ev_Action ev) "admission"); by simplify_eq/=.
  - destruct o; [|done]. destruct (_ && _); by simplify_eq/=.
  - destruct o; [|done]. destruct (_ && _); by simplify_eq/=.
  - destruct o; [|done]. simplify_eq/=. split; [|done]. destruct r; simpl; rewrite ?app_nil_r; [|done].
    rewrite Hh, <- app_assoc. apply Permutation_app_head. symmetry. apply Permutation_cons_append.
  - destruct (give_back t h) as [h'|] eqn:Eg; [|done]. simplify_eq/=. split; [|done].
    rewrite Hh, (give_back_perm _ _ _ Eg). by rewrite <- app_assoc.
  - simplify_eq/=. split; [done|].
    rewrite Hc, <- app_assoc. apply Permutation_app_head. symmetry. apply Permutation_cons_append.
  - destruct (give_back t cr) as [c'|] eqn:Eg; [|done]. simplify_eq/=. split; [done|].
    rewrite Hc, (give_back_perm _ _ _ Eg). by rewrite <- app_assoc.
  - by simplify_eq/=.
Qed.

Definition open_request (p : protocol) : list request :=
  match p_open p with Some k => if String.eqb k.1.2 "admission" then [] else [k] | None => [] end.

Lemma proto_run_outcomes g tr p :
  proto_run g idle tr = Some p → requests tr = (outcomes tr ++ open_request p)%list.
Proof.
  revert p. induction tr as [|e tr IH] using rev_ind; intros p Hrun; [simpl in Hrun; by simplify_eq|].
  rewrite proto_run_app in Hrun. destruct (proto_run g idle tr) as [[o a h cr]|] eqn:Eq; [|done].
  specialize (IH _ eq_refl). unfold requests, outcomes in *. rewrite !omap_app, IH. clear IH. simpl in *.
  destruct e as [ev kept|what id|what id|ok r|t|t|t|id]; simpl in *; rewrite ?app_nil_r.
  - unfold is_request, decision. destruct (String.eqb (ev_Outcome ev) OutcomeRequested) eqn:Er; simpl.
    + destruct o as [k|]; [done|]. unfold open_request. destruct kept; simplify_eq/=; rewrite ?app_nil_r; [|done].
      destruct (String.eqb (ev_Action ev) "admission"); done.
    + destruct kept; simpl; rewrite ?app_nil_r.
      all: destruct (decide (o = Some (ev_key ev))) as [->|Hne].
      all: rewrite ?bool_decide_eq_true_2, ?bool_decide_eq_false_2 in Hrun by done.
      all: destruct (String.eqb (ev_Action ev) "admission") eqn:Ea; try done; simplify_eq/=;
        unfold open_request; simpl; rewrite ?Ea, ?app_nil_r; done.
  - destruct o; [|done]. destruct (_ && _); by simplify_eq/=.
  - destruct o; [|done]. destruct (_ && _); by simplify_eq/=.
  - destruct o; [|done]. by simplify_eq/=.
  - destruct (give_back t h); [|done]. by simplify_eq/=.
  - by simplify_eq/=.
  - destruct (give_back t cr); [|done]. by simplify_eq/=.
  - by simplify_eq/=.
Qed.

(** ** Properties *)

(** C1: Nothing is done to a sandbox off the record. In any of the sandbox calls
    (create, update, start, stop, delete, exec, snapshot, restore, a copy in or out, a
    stream), whatever the store, the driver, the guard and the interceptor answer, and
    whatever others do meanwhile: when the store is written or a driver is reached,
    the request is already on the record, kept, under the very sandbox that is
    touched, and after that the guard admitted it. A call whose request the
    record could not keep touches nothing. Templates are written on a recorded request
    with no guard asked, and a command's process outlives its call: neither is one of
    these calls. *)
Theorem acts_recorded_and_admitted {S E} `{!Store S} (env : Env S E) (syntax_Quote : string → option string)
    (k : call E) (w : World S E) (tr1 tr2 : list effect) (e : effect) (id : string) :
  call_ok k = true → w_trace w = [] →
  w_trace (run_call env syntax_Quote k w).2 = (tr1 ++ e :: tr2)%list →
  touches e = Some id →
  recorded_then_admitted id tr1.
Proof.
  intros Hok Hw Htr. pose proof (call_triple env syntax_Quote k Hok w) as H.
  unfold at_proto in H. rewrite Hw, Htr in H. by eapply touch_after_request, H.
Qed.

(** A guard that admits everything and hands back the slot 7. *)
Definition slot_guard : Admission → M unit GuardAnswer :=
  λ _, mreturn {| ga_err := None; ga_release := Some 7%nat; ga_next := None |}.

Definition demo_world : World Memory unit :=
  let w := start_world (one_sandbox demo_sandbox) tt in with_sh w (put_guard (w_sh w) (Some slot_guard)).

Definition demo_start : call unit :=
  CallStart Background (MkCaller "alice" false ∅) (ID demo_sandbox) (ETag 7).

Definition demo_env : Env Memory unit := calm_env ∅ capped_settings.

Lemma acts_recorded_and_admitted_witness :
  ∃ tr1 tr2, w_trace (run_call demo_env (λ _, None) demo_start demo_world).2 =
    (tr1 ++ EvStore "Update" (ID demo_sandbox) :: tr2)%list ∧ recorded_then_admitted (ID demo_sandbox) tr1.
Proof.
  pose (tr := w_trace (run_call demo_env (λ _, None) demo_start demo_world).2).
  exists (take 2 tr), (drop 3 tr). split; [vm_compute; reflexivity|].
  apply (acts_recorded_and_admitted demo_env (λ _, None) demo_start demo_world (take 2 tr) (drop 3 tr)
           (EvStore "Update" (ID demo_sandbox)) (ID demo_sandbox)); vm_compute; reflexivity.
Defined.

(** C16: Nothing is held past the end of a call. After any sequence of sandbox calls
    (those of [call]; [Command], whose process holds its slot and credential after it
    returns, is not one), from a fresh trace: every release a guard handed back has run
    exactly once, even one handed back with a refusal; every egress credential issued
    has been ended exactly once; and every request the record kept has had its outcome
    put to the record exactly once, in order, whether the record then kept it or not. *)
Theorem calls_give_everything_back {S E} `{!Store S} (env : Env S E) (syntax_Quote : string → option string)
    (ks : list (call E)) (w : World S E) :
  forallb call_ok ks = true → w_trace w = [] →
  let tr := w_trace (run_calls env syntax_Quote ks w).2 in
  handed tr ≡ₚ released tr ∧ issued tr ≡ₚ revoked tr ∧ requests tr = outcomes tr.
Proof.
  intros Hok Hw tr. pose proof (calls_triple env syntax_Quote ks Hok w) as H.
  unfold at_proto in H. rewrite Hw in H. specialize (H eq_refl). fold tr in H.
  destruct (proto_run_balance true tr _ H) as [Hh Hc]. rewrite app_nil_r in Hh, Hc.
  pose proof (proto_run_outcomes true tr _ H) as Ho. rewrite app_nil_r in Ho. done.
Qed.

Lemma calls_give_everything_back_witness :
  let tr := w_trace (run_calls demo_env (λ _, None) [demo_start; demo_start] demo_world).2 in
  handed tr = [7] ∧ released tr = [7] ∧ length (requests tr) = 1 ∧ requests tr = outcomes tr.
Proof.
  intros tr. split_and!; [vm_compute; reflexivity..|].
  apply (calls_give_everything_back demo_env (λ _, None) [demo_start; demo_start] demo_world); reflexivity.
Defined.
