(* ===== verification/Reconcile.v ===== *)
(** The reconciler (controlplane/reconcile.go): its marks and queue, one pass
    over a sandbox, and what each state's pass does. *)

From Stdlib Require Import ZArith NArith Ascii String Lia.
From stdpp Require Import base tactics list gmap strings relations.
From S2P Require Import Prelude GoStd Errors Labels Driver Lifecycle Etag Settings Store Memory World Mutate.
From S2P Require Import Admission Protocol Templates Service Exec Verbs.

#[local] Open Scope string_scope.
#[local] Open Scope go_scope.

Definition defaultGrace : Z := (10 * second)%Z.
Definition no_status : Status :=
  {| st_id := ""; st_phase := PhaseOther ""; st_tier := ""; st_backend := ""; st_message := ""; st_caveat := "" |}.

Section reconcile.
Context {S E : Type} `{!Store S} (env : Env S E).
(** [time.Format(time.RFC3339)] of a time, used in one message. *)
Variable rfc3339 : Z → string.
Abbreviation W := (World S E).

Definition Running : M W bool := let! sh := shared in mreturn (sh_running sh).

Definition probe_options : ListOptions :=
  {| lo_Selector := []; lo_State := no_state; lo_Owner := ""; lo_Labels := ∅; lo_Limit := 1; lo_After := "" |}.

Definition svc_Ready : M W (option error) :=
  let! run := Running in
  if negb run then mreturn (Some (errorf ErrUnavailable "the reconciler is not running"))
  else
    let! r := on_store env (st_List probe_options) in
    mreturn (match r with Ok _ => None | Fail _ => Some (errorf ErrUnavailable "the store does not answer") end).

(** ** Marks *)

(** A dispatch starts a pass unless one runs, which it asks for one more. The
    goroutine it starts is not part of the caller's run. *)
Definition dispatch (id : string) : M W bool :=
  let! sh := shared in
  if bool_decide (id ∈ sh_inflight sh) then
    set_shared (λ sh, put_marks sh (sh_inflight sh) ({[id]} ∪ sh_again sh)) ;;; mreturn false
  else set_shared (λ sh, put_marks sh ({[id]} ∪ sh_inflight sh) (sh_again sh)) ;;; mreturn true.

(** Clears the mark, or keeps it when another pass was asked for. *)
Definition pass_done (id : string) : M W bool :=
  let! sh := shared in
  if bool_decide (id ∈ sh_again sh) then
    set_shared (λ sh, put_marks sh (sh_inflight sh) (sh_again sh ∖ {[id]})) ;;; mreturn true
  else set_shared (λ sh, put_marks sh (sh_inflight sh ∖ {[id]}) (sh_again sh)) ;;; mreturn false.

Definition forget (id : string) : M W unit :=
  set_shared (λ sh, put_marks sh (sh_inflight sh ∖ {[id]}) (sh_again sh ∖ {[id]})).

(** ** Writing what a pass found *)

(** [fn]'s change, only while the sandbox is in the state and generation the
    pass acted on. *)
Definition guarded_fn {A} (sb : Sandbox) (fn : Sandbox → A → result Sandbox * A) (cur : Sandbox) (a : A)
    : M W (result Sandbox * A) :=
  mreturn (if negb (bool_decide (State cur = State sb)) || negb (Generation cur =? Generation sb)%Z
           then (Fail (errval errStale), a)
           else fn cur a).

Definition guarded {A} (sb : Sandbox) (fn : Sandbox → A → result Sandbox * A) (a : A) : M W (result Sandbox * A) :=
  let! (r, a) := Mutate env (ID sb) "" (guarded_fn sb fn) a in
  mreturn (match r with
           | Fail e => if is_any e [errStale; errUnchanged; ErrNotFound] then Ok sb else Fail e
           | Ok out => Ok out
           end, a).

(** A change that captures nothing. *)
Definition guarded1 (sb : Sandbox) (fn : Sandbox → result Sandbox) : M W (result Sandbox) :=
  let! (r, _) := guarded sb (λ cur (a : unit), (fn cur, a)) tt in mreturn r.

Definition note (sb : Sandbox) (from : state) (reason : string) : M W unit :=
  if bool_decide (State sb = from) then mreturn tt
  else
    let! _ := record env (MkEvent 0 0 SystemPrincipal "reconcile" (ID sb) (Generation sb) OutcomeOK ""
      (<["from" := state_text from]> (<["to" := state_text (State sb)]> {["reason" := reason]}))) in
    mreturn tt.

(** The end of a pass that wrote: the note, and another pass for a failure. *)
Definition after_pass (sb out : Sandbox) (reason : string) : M W (option error) :=
  note out (State sb) reason ;;;
  (if bool_decide (State out = StateError) then Kick (ID sb) else mreturn tt) ;;;
  mreturn None.

Definition verifiedTier (cur : Sandbox) (st : Status) (now : Z) : result Sandbox :=
  let msg := "tier " ++ st_tier st ++ (if str_nonempty (st_caveat st) then " (" ++ st_caveat st ++ ")" else "") in
  SetCondition (with_tier cur (st_tier st)) (condition CondIsolationVerified ConditionTrue "TierMeetsPolicy" msg) now.

(** What [settle] writes: the reason it notes is the captured variable. *)
Definition settle_change (st : Status) (err : option error) (weak : bool) (minTier : string) (now : Z)
    (cur : Sandbox) (reason : string) : result Sandbox * string :=
  match err with
  | Some e =>
      (let? cur := Transition cur StateError now in
       SetCondition cur (condition CondDriverReady ConditionFalse (Code e) (e_text e)) now, Code e)
  | None =>
      if weak then
        (let? cur := Transition (with_tier cur (st_tier st)) StateError now in
         SetCondition cur (condition CondIsolationVerified ConditionFalse "WeakerThanRequired"
           ("the driver reports " ++ Quote (st_tier st) ++ ", weaker than the required " ++ Quote minTier)) now,
         "WeakerThanRequired")
      else
        (let? cur := Transition cur StateReady now in
         let? cur := SetCondition cur (condition CondDriverReady ConditionTrue reason "") now in
         verifiedTier cur st now, reason)
  end.

Definition min_tier (sb : Sandbox) : string := map_get (For (c_settings env) (Settings sb)) SetMinTier.

(** How a create or start went. *)
Definition settle (sb : Sandbox) (st : Status) (err : option error) : M W (option error) :=
  let! at_ := now env in
  let err := match err with
             | None => if bool_decide (st_phase st = PhaseRunning) then None
                       else Some (driver_errorf DErrUnavailable
                              ("the driver reports the instance " ++ phase_text (st_phase st) ++ ", not running"))
             | Some e => Some e
             end in
  let weak := negb (opt_some err) && negb (TierMeets (st_tier st) (min_tier sb)) in
  (* not left running weaker than asked: stopped before it is recorded *)
  (if weak then
     match registry_Get (c_drivers env) (DriverName sb) with
     | Ok d => let! _ := drives env "Stop" (ID sb) (d_stop d (ID sb) 0) in mreturn tt
     | Fail _ => mreturn tt
     end
   else mreturn tt) ;;;
  let! (out, reason) := guarded sb (settle_change st err weak (min_tier sb) at_) "Started" in
  match out with
  | Fail e => mreturn (Some e)
  | Ok out => after_pass sb out reason
  end.

Definition observe_change (to : state) (status : ConditionStatus) (reason msg : string) (now : Z) (cur : Sandbox)
    : result Sandbox :=
  let? cur := (if bool_decide (State cur = to) then Ok cur else Transition cur to now) in
  SetCondition cur (condition CondDriverReady status reason msg) now.

Definition observe (sb : Sandbox) (to : state) (status : ConditionStatus) (reason msg : string) : M W (option error) :=
  let! at_ := now env in
  let! out := guarded1 sb (observe_change to status reason msg at_) in
  match out with
  | Fail e => mreturn (Some e)
  | Ok out => after_pass sb out reason
  end.

(** ** A Ready sandbox against what its driver reports *)

Definition watch_change (st : Status) (now : Z) (cur : Sandbox) : result Sandbox :=
  let ready := match get_Condition cur CondDriverReady with
               | Some c => bool_decide (c_Status c = ConditionTrue) | None => false end in
  let? cur' := (if ready then Ok cur else SetCondition cur (condition CondDriverReady ConditionTrue "Running" "") now) in
  let moved := negb (String.eqb (Tier cur') (st_tier st)) in
  let? cur'' := (if moved then verifiedTier cur' st now else Ok cur') in
  let stable := match get_Condition cur'' CondDriverReady with
                | Some c => (0 <? Restarts cur'')%Z && bool_decide (c_Status c = ConditionTrue)
                            && (StableAfter <=? now - c_LastTransition c)%Z
                | None => false end in
  let cur3 := if stable then with_restarts cur'' 0 (NextRestart cur'') else cur'' in
  if negb (negb ready || moved || stable) then Fail (errval errUnchanged)
  else Ok (with_updated cur3 now).

Definition watch (sb : Sandbox) (r : result Status) : M W (option error) :=
  match r with
  | Fail e =>
      if Is e DErrNotFound then observe sb StateError ConditionFalse "InstanceLost" (e_text e)
      else match get_Condition sb CondDriverReady with
           | Some {| c_Status := ConditionUnknown |} => mreturn (Some e)
           | _ =>
               let! oe := observe sb StateReady ConditionUnknown "StatusFailed" (e_text e) in
               mreturn (match oe with Some oe => Some oe | None => Some e end)
           end
  | Ok st =>
      match st_phase st with
      | PhaseExited => observe sb StateCompleted ConditionFalse "Exited" (st_message st)
      | PhaseFailed => observe sb StateError ConditionFalse "Failed" (st_message st)
      | PhaseRunning =>
          if negb (TierMeets (st_tier st) (min_tier sb)) then settle sb st None
          else
            let! at_ := now env in
            let! r := guarded1 sb (watch_change st at_) in
            mreturn (err_of r)
      | p => observe sb StateError ConditionFalse "StoppedOutsideControlPlane"
               ("the driver reports the instance " ++ phase_text p)
      end
  end.

(** ** The restart policy *)

Definition limit_change (limit now : Z) (cur : Sandbox) : result Sandbox :=
  let told := match get_Condition cur CondRestartScheduled with
              | Some c => bool_decide (c_Status c = ConditionFalse) && String.eqb (c_Reason c) "LimitReached"
                          && negb (opt_some (NextRestart cur))
              | None => false end in
  if told then Fail (errval errUnchanged)
  else SetCondition (with_restarts cur (Restarts cur) None)
         (condition CondRestartScheduled ConditionFalse "LimitReached"
            ("restarted " ++ Itoa (Restarts cur) ++ " times; restart.max_restarts is " ++ Itoa limit)) now.

Definition schedule_change (at_ now : Z) (cur : Sandbox) : result Sandbox :=
  SetCondition (with_restarts cur (Restarts cur) (Some at_))
    (condition CondRestartScheduled ConditionTrue "Backoff" ("restarting at " ++ rfc3339 at_)) now.

Definition restart_change (now : Z) (cur : Sandbox) : result Sandbox :=
  let? cur := Transition cur StateStarting now in
  SetCondition (with_restarts cur (wrap64 (Restarts cur + 1)) None)
    (condition CondRestartScheduled ConditionFalse "Restarted" "") now.

(** The timer that kicks the sandbox when its backoff is over is not modelled:
    a kick only asks for a pass, and the periodic pass asks too. *)
Definition restart (sb : Sandbox) : M W (option error) :=
  let vals := For (c_settings env) (Settings sb) in
  let! at_ := now env in
  let policy := map_get vals SetRestartPolicy in
  if negb (RestartDue policy (State sb)) then
    match NextRestart sb with
    | None => mreturn None
    | Some _ =>
        let! r := guarded1 sb (λ cur, Ok (with_restarts cur (Restarts cur) None)) in mreturn (err_of r)
    end
  else if (Int vals SetMaxRestarts <=? Restarts sb)%Z then
    let! r := guarded1 sb (limit_change (Int vals SetMaxRestarts) at_) in mreturn (err_of r)
  else
    match NextRestart sb with
    | None =>
        let due := (at_ + Backoff (Seconds vals SetRestartBackoff) (Restarts sb))%Z in
        let! r := guarded1 sb (schedule_change due at_) in mreturn (err_of r)
    | Some due =>
        if (at_ <? due)%Z then mreturn None
        else
          let ev := MkEvent 0 0 SystemPrincipal "restart" (ID sb) (Generation sb) "" ""
            (<["policy" := policy]> (<["restarts" := Itoa (wrap64 (Restarts sb + 1))]> {["from" := state_text (State sb)]})) in
          let! re := record env (requested ev) in
          match re with Some e => mreturn (Some e) | None =>
          let! r := guarded1 sb (restart_change at_) in
          let ev := with_generation ev (Generation (or_zero r)) in
          outcome env ev (err_of r) ;;;
          match r with
          | Fail e => mreturn (Some e)
          | Ok out => (if bool_decide (State out = StateStarting) then Kick (ID sb) else mreturn tt) ;;; mreturn None
          end end
    end.

(** ** Removal *)

Definition delete_failed_change (e : error) (now : Z) (cur : Sandbox) : result Sandbox :=
  let told := match get_Condition cur CondDeleteFailed with
              | Some c => bool_decide (c_Status c = ConditionTrue) && String.eqb (c_Message c) (e_text e)
              | None => false end in
  if told then Fail (errval errUnchanged)
  else SetCondition cur (condition CondDeleteFailed ConditionTrue (Code e) (e_text e)) now.

Definition ignoring (k : sentinel) (e : option error) : option error :=
  match e with Some e' => if Is e' k then None else e | None => None end.

(** Frees what the instance held: the instance, its workspace, its proxy. *)
Definition tear_down (sb : Sandbox) (rd : result (Driver E)) : M W (option error) :=
  let! err := match rd with
              | Fail e => mreturn (Some e)
              | Ok d => let! e := drives env "Delete" (ID sb) (d_delete d (ID sb)) in mreturn (ignoring DErrNotFound e)
              end in
  match err with Some e => mreturn (Some e) | None =>
  let! err := match c_release_workspace env with Some f => ext (f (ID sb)) | None => mreturn None end in
  match err with Some e => mreturn (Some e) | None =>
  match c_egress env with
  | Some eg => if eg_For eg (DriverName sb) then ext (eg_Close eg (ID sb)) else mreturn None
  | None => mreturn None
  end end end.

Definition remove (sb : Sandbox) (rd : result (Driver E)) : M W (option error) :=
  let! err := tear_down sb rd in
  match err with
  | Some e =>
      let! at_ := now env in
      let! r := guarded1 sb (delete_failed_change e at_) in
      mreturn (match r with Fail we => Some we | Ok _ => Some e end)
  | None =>
      let! derr := writes env "Delete" (ID sb) (st_Delete (ID sb) (ResourceVersion sb)) in
      match derr with
      | Some e =>
          if Is e ErrNotFound then mreturn None
          else if Is e ErrVersionMismatch then Kick (ID sb) ;;; mreturn None
          else mreturn (Some e)
      | None =>
          let! _ := record env (MkEvent 0 0 SystemPrincipal "reconcile" (ID sb) (Generation sb) OutcomeOK ""
            (<["from" := state_text StateDeleting]> {["to" := "removed"]})) in
          mreturn None
      end
  end.

(** ** One pass *)

(** What the driver is asked to build. *)
Definition svc_spec (sb : Sandbox) : M W (result Spec) :=
  let! ws := ext (c_workspace env (ID sb)) in
  match ws with Fail e => mreturn (Fail (errwrap DErrUnavailable "the sandbox's workspace: " e)) | Ok ws =>
  let vals := For (c_settings env) (Settings sb) in
  let minTier := map_get vals SetMinTier in
  let minTier := if String.eqb minTier "none" then "" else minTier in
  let spec eg := {| sp_id := ID sb; sp_generation := Generation sb; sp_template := Template sb;
    sp_policy_rev := PolicyRev sb; sp_workspace := ws; sp_write_protected := c_write_protected env;
    sp_egress := eg; sp_min_tier := minTier; sp_labels := Labels sb; sp_config := resourceConfig vals |} in
  match c_egress env with
  | None => mreturn (Ok (spec None))
  | Some eg =>
      if negb (eg_For eg (DriverName sb)) then mreturn (Ok (spec None))
      else
        (* without its proxy the sandbox is not built *)
        let! r := ext (eg_Open eg (ID sb)) in
        mreturn (match r with
                 | Fail e => Fail (errwrap DErrUnavailable "the sandbox's egress proxy: " e)
                 | Ok e => Ok (spec (Some e))
                 end)
  end end.

(** Builds a new instance, or takes the one a server before this one built. *)
Definition build (d : Driver E) (id : string) (spec : Spec) : M W (result Status) :=
  let! r := drives env "Create" id (d_create d spec) in
  match r with
  | Fail e =>
      if Is e DErrExists then
        let! st := drives env "Status" id (d_status d id) in
        match st with
        | Ok s => if bool_decide (st_phase s = PhaseRunning) then mreturn (Ok s)
                  else drives env "Start" id (d_start d id)
        | Fail e => mreturn (Fail e)
        end
      else mreturn (Fail e)
  | Ok s => mreturn (Ok s)
  end.

(** Starts the instance, building it again when the driver no longer has it. *)
Definition start_again (d : Driver E) (id : string) (spec : Spec) : M W (result Status) :=
  let! r := drives env "Start" id (d_start d id) in
  match r with
  | Fail e => if Is e DErrNotFound then drives env "Create" id (d_create d spec) else mreturn (Fail e)
  | Ok s => mreturn (Ok s)
  end.

Definition settle_result (sb : Sandbox) (r : result Status) : M W (option error) :=
  match r with Ok st => settle sb st None | Fail e => settle sb no_status (Some e) end.

(** The grace a stop asked for, taken out of the table. *)
Definition take_grace (id : string) : M W Z :=
  let! sh := shared in
  let grace := default defaultGrace (sh_graces sh !! id) in
  set_shared (λ sh, put_graces sh (delete id (sh_graces sh))) ;;; mreturn grace.

Definition driver_missing (sb : Sandbox) (e : error) : M W (option error) :=
  observe sb StateError ConditionFalse "DriverMissing" (e_text e).

Definition pass_on (sb : Sandbox) : M W (option error) :=
  let id := ID sb in
  let rd := registry_Get (c_drivers env) (DriverName sb) in
  match State sb with
  | StateProvisioning | StateStarting =>
      match rd with
      | Fail _ => settle sb no_status (Some (errorf DErrUnavailable ("driver " ++ DriverName sb ++ " is not registered")))
      | Ok d =>
          let! spec := svc_spec sb in
          match spec with
          | Fail e => settle sb no_status (Some e)
          | Ok spec =>
              let! r := (if bool_decide (State sb = StateProvisioning) then build d id spec else start_again d id spec) in
              settle_result sb r
          end
      end
  | StateStopping =>
      match rd with
      | Fail e => driver_missing sb e
      | Ok d =>
          let! grace := take_grace id in
          let! r := drives env "Stop" id (d_stop d id grace) in
          match r with
          | Fail e => if Is e DErrNotFound then observe sb StateStopped ConditionFalse "Stopped" ""
                      else observe sb StateError ConditionFalse (Code e) (e_text e)
          | Ok _ => observe sb StateStopped ConditionFalse "Stopped" ""
          end
      end
  | StateDeleting => remove sb rd
  | StateReady =>
      match rd with
      | Fail e => driver_missing sb e
      | Ok d => let! st := drives env "Status" id (d_status d id) in watch sb st
      end
  | StateError | StateCompleted => restart sb
  | StateStopped | StateOther _ => mreturn None
  end.

Definition reconcile (id : string) : M W (option error) :=
  let! r := on_store env (st_Get id) in
  match r with
  | Fail e => mreturn (if Is e ErrNotFound then None else Some e)
  | Ok sb =>
      match c_owns env with
      | None => pass_on sb
      | Some owns =>
          let! mine := ext (owns id) in
          match mine with
          | Fail e => mreturn (Some e)
          | Ok false => mreturn None
          | Ok true => pass_on sb
          end
      end
  end.

(** One pass now, unless one runs. *)
Definition svc_Reconcile (id : string) : M W (option error) :=
  let! sh := shared in
  if bool_decide (id ∈ sh_inflight sh) then mreturn None
  else
    set_shared (λ sh, put_marks sh ({[id]} ∪ sh_inflight sh) (sh_again sh)) ;;;
    let! err := reconcile id in
    unhold id false ;;; mreturn err.

(** The passes a dispatched goroutine makes, at most [n] of them. *)
Fixpoint passes (n : nat) (id : string) : M W bool :=
  match n with
  | 0%nat => mreturn false
  | Datatypes.S n =>
      let! _ := reconcile id in
      let! more := pass_done id in
      if more then passes n id else mreturn true
  end.
End reconcile.
