(* ===== verification/Passes.v ===== *)
(** Who works on a sandbox (controlplane/reconcile.go: dispatch, done, forget,
    Reconcile, hold and unhold). The goroutines that hold a sandbox's pass mark
    are a list of ids next to the world; every step of theirs on the marks is
    atomic, under the service's mutex, and the steps interleave in any order. *)

From Stdlib Require Import ZArith NArith Ascii String Lia.
From stdpp Require Import base tactics list gmap strings relations.
From S2P Require Import Prelude GoStd Errors Labels Driver Lifecycle Etag Settings Store Memory World Mutate.
From S2P Require Import Admission Protocol Templates Service Exec Verbs Reconcile.

#[local] Open Scope string_scope.
#[local] Open Scope go_scope.

Section passes.
Context {S E : Type} `{!Store S} (env : Env S E).
Abbreviation W := (World S E).
Abbreviation inflight w := (sh_inflight (w_sh w)).
Abbreviation again w := (sh_again (w_sh w)).

(** [ws]: the sandboxes some goroutine works on, one entry per goroutine. *)
Inductive pass_step : list string * W → list string * W → Prop :=
| ps_dispatch id ws w :
    pass_step (ws, w) (if (dispatch id w).1 then id :: ws else ws, (dispatch id w).2)
| ps_done id ws1 ws2 w :
    pass_step (ws1 ++ id :: ws2, w)%list (if (pass_done id w).1 then ws1 ++ id :: ws2 else ws1 ++ ws2, (pass_done id w).2)%list
| ps_forget id ws1 ws2 w : pass_step (ws1 ++ id :: ws2, w)%list (ws1 ++ ws2, (forget id w).2)%list
| ps_look id ended ws w :      (* one look of a hold, or of [Reconcile] *)
    pass_step (ws, w) (if opt_some (hold_loop env 0 ended id w).1 then ws else id :: ws, (hold_loop env 0 ended id w).2)
| ps_unhold id kick ws1 ws2 w : pass_step (ws1 ++ id :: ws2, w)%list (ws1 ++ ws2, (unhold id kick w).2)%list
| ps_other ws w w' :           (* whatever does not touch the marks *)
    inflight w' = inflight w → again w' = again w → pass_step (ws, w) (ws, w').

(** [Reconcile] is one look, the pass, and the end of the hold. *)
Lemma svc_Reconcile_looks rfc3339 ended id w :
  svc_Reconcile env rfc3339 id w =
    (let '(r, w1) := hold_loop env 0 ended id w in
     match r with
     | Some _ => (None, w1)
     | None => (let! err := reconcile env rfc3339 id in unhold id false ;;; mreturn err) w1
     end).
Proof.
  unfold svc_Reconcile. cbn [hold_loop]. unfold mthen, shared, set_shared, mreturn.
  destruct (bool_decide (id ∈ inflight w)); reflexivity.
Qed.

(** ** The marks after each step *)

Definition marks (w : W) (i a : gset string) : Prop := inflight w = i ∧ again w = a.

Lemma Kick_marks id w : marks (Kick id w).2 (inflight w) (again w).
Proof. unfold marks, Kick, mthen, set_shared, emit. simpl. case_match; simpl; by destruct (w_sh w). Qed.

Lemma dispatch_marks id w :
  if (dispatch id w).1
  then id ∉ inflight w ∧ marks (dispatch id w).2 ({[id]} ∪ inflight w) (again w)
  else id ∈ inflight w ∧ marks (dispatch id w).2 (inflight w) ({[id]} ∪ again w).
Proof. unfold dispatch, mthen, shared, set_shared, marks. case_bool_decide; simpl; by destruct (w_sh w). Qed.

Lemma pass_done_marks id w :
  if (pass_done id w).1
  then id ∈ again w ∧ marks (pass_done id w).2 (inflight w) (again w ∖ {[id]})
  else id ∉ again w ∧ marks (pass_done id w).2 (inflight w ∖ {[id]}) (again w).
Proof. unfold pass_done, mthen, shared, set_shared, marks. case_bool_decide; simpl; by destruct (w_sh w). Qed.

Lemma forget_marks id w : marks (forget id w).2 (inflight w ∖ {[id]}) (again w ∖ {[id]}).
Proof. unfold forget, set_shared, marks. simpl. by destruct (w_sh w). Qed.

Lemma hold_loop_marks ended id w :
  if opt_some (hold_loop env 0 ended id w).1
  then marks (hold_loop env 0 ended id w).2 (inflight w) (again w)
  else id ∉ inflight w ∧ marks (hold_loop env 0 ended id w).2 ({[id]} ∪ inflight w) (again w).
Proof. cbn [hold_loop]. unfold mthen, shared, set_shared, marks. case_bool_decide; simpl; [done|by destruct (w_sh w)]. Qed.

Lemma unhold_marks id kick w :
  marks (unhold id kick w).2 (inflight w ∖ {[id]}) (again w ∖ {[id]}) ∧
  w_trace (unhold id kick w).2 = (w_trace w ++ if bool_decide (id ∈ again w) || kick then [EvKick id] else [])%list.
Proof.
  unfold unhold, mthen, shared, set_shared. simpl. set (w1 := with_sh w _).
  assert (H1 : marks w1 (inflight w ∖ {[id]}) (again w ∖ {[id]})) by (unfold marks; simpl; by destruct (w_sh w)).
  destruct (_ || kick); [|split; [done|by rewrite app_nil_r]].
  destruct (Kick_marks id w1) as [K1 K2], H1 as [M1 M2]. split; [split; congruence|].
  unfold Kick, mthen, set_shared, emit. simpl. done.
Qed.

(** ** The invariant *)

(** The goroutines' ids are the marked ones, each once. *)
Definition exclusive (ws : list string) (w : W) : Prop :=
  NoDup ws ∧ (∀ id, id ∈ ws ↔ id ∈ inflight w) ∧ again w ⊆ inflight w.

Lemma exclusive_start id ws w w' :
  exclusive ws w → id ∉ inflight w → marks w' ({[id]} ∪ inflight w) (again w) → exclusive (id :: ws) w'.
Proof.
  intros (Hn & Hi & Ha) Hid [M1 M2]. unfold exclusive. rewrite M1, M2. split_and!.
  - constructor; [by rewrite Hi|done].
  - intros x. rewrite elem_of_cons, Hi. set_solver.
  - set_solver.
Qed.

Lemma exclusive_end id ws1 ws2 w w' a :
  exclusive (ws1 ++ id :: ws2)%list w → marks w' (inflight w ∖ {[id]}) a → a ⊆ again w → id ∉ a →
  exclusive (ws1 ++ ws2)%list w'.
Proof.
  intros (Hn & Hi & Ha) [M1 M2] Hs Hid. unfold exclusive. rewrite M1, M2.
  rewrite <- Permutation_middle in Hn. apply NoDup_cons in Hn as [Hx Hn]. split_and!; [done| |].
  - intros x. specialize (Hi x). rewrite <- Permutation_middle, elem_of_cons in Hi.
    rewrite elem_of_difference, elem_of_singleton, <- Hi. split; [|tauto]. intros H. split; [tauto|]. intros ->. done.
  - set_solver.
Qed.

Lemma pass_step_exclusive ws w ws' w' : pass_step (ws, w) (ws', w') → exclusive ws w → exclusive ws' w'.
Proof.
  intros Hstep Hex. remember (ws, w) as st. remember (ws', w') as st'.
  destruct Hstep as [id l x|id l1 l2 x|id l1 l2 x|id ended l x|id kick l1 l2 x|l x x' H1 H2]; simplify_eq.
  - pose proof (dispatch_marks id w) as H. destruct (dispatch id w).1.
    + destruct H. by eapply exclusive_start.
    + destruct H as [Hid [M1 M2]], Hex as (Hn & Hi & Ha). unfold exclusive. rewrite M1, M2. split_and!; [done..|]. set_solver.
  - pose proof (pass_done_marks id w) as H. destruct (pass_done id w).1; destruct H as [Hid HM].
    + destruct HM as [M1 M2], Hex as (Hn & Hi & Ha). unfold exclusive. rewrite M1, M2. split_and!; [done..|]. set_solver.
    + by eapply exclusive_end.
  - eapply exclusive_end; [done|apply forget_marks|set_solver..].
  - pose proof (hold_loop_marks ended id w) as H. destruct (opt_some _).
    + destruct H as [M1 M2]. unfold exclusive. by rewrite M1, M2.
    + destruct H. by eapply exclusive_start.
  - eapply exclusive_end; [done|apply unhold_marks|set_solver..].
  - unfold exclusive. by rewrite H1, H2.
Qed.
End passes.

(** ** Properties *)

(** Two passes over one sandbox never run together, nor a pass and a restore.
    However the goroutines' steps interleave, starting with no marks, at every
    moment at most one goroutine works on each sandbox, and the marks name
    exactly the sandboxes worked on. And no request for a pass is lost: one
    that comes while a goroutine works is kept, and when that goroutine is
    done it makes another pass, or, if it was a hold, kicks one. *)
Theorem one_pass_at_a_time {S E} `{!Store S} (env : Env S E) (w0 w : World S E) (ws : list string) (id : string) :
  sh_inflight (w_sh w0) = ∅ → sh_again (w_sh w0) = ∅ → rtc (pass_step env) ([], w0) (ws, w) →
  NoDup ws ∧ (id ∈ ws ↔ id ∈ sh_inflight (w_sh w)) ∧
  (id ∈ ws → (dispatch id w).1 = false ∧ id ∈ sh_again (w_sh (dispatch id w).2)) ∧
  (id ∉ ws → (dispatch id w).1 = true) ∧
  (id ∈ sh_again (w_sh w) → id ∈ ws ∧ (pass_done id w).1 = true ∧
     ∀ kick, w_trace (unhold id kick w).2 = (w_trace w ++ [EvKick id])%list).
Proof.
  intros Hi0 Ha0 Hrun. assert (Hex : exclusive ws w).
  { remember ([], w0) as st. remember (ws, w) as st'.
    assert (H0 : exclusive st.1 st.2) by (subst st; unfold exclusive; simpl; rewrite Hi0, Ha0; split_and!; [constructor|set_solver..]).
    assert (H : exclusive st'.1 st'.2); [|by subst].
    clear - Hrun H0. induction Hrun as [|[l x] [l1 x1] st' Hs _ IH]; [done|]. by eapply IH, pass_step_exclusive. }
  destruct Hex as (Hn & Hi & Ha). pose proof (dispatch_marks id w) as Hd. pose proof (pass_done_marks id w) as Hp.
  split_and!; [done|apply Hi| | |].
  - intros Hin%Hi. destruct (dispatch id w).1; destruct Hd as [Hd [M1 M2]]; [done|]. split; [done|]. rewrite M2. set_solver.
  - intros Hin. rewrite Hi in Hin. destruct (dispatch id w).1; [done|]. by destruct Hd.
  - intros Hag. split_and!; [by apply Hi, Ha| |].
    + destruct (pass_done id w).1; [done|]. by destruct Hp.
    + intros kick. destruct (unhold_marks id kick w) as [_ ->]. by rewrite bool_decide_eq_true_2.
Qed.

Lemma one_pass_at_a_time_witness :
  let w0 := start_world NewMemory tt in
  let w2 := (dispatch "sbx_1" (dispatch "sbx_1" w0).2).2 in
  NoDup ["sbx_1"] ∧ (pass_done "sbx_1" w2).1 = true.
Proof.
  intros w0 w2.
  destruct (one_pass_at_a_time (calm_env ∅ capped_settings) w0 w2 ["sbx_1"] "sbx_1") as (H1 & _ & _ & _ & H5).
  - reflexivity.
  - reflexivity.
  - eapply rtc_l; [apply (ps_dispatch _ "sbx_1" [])|]. eapply rtc_l; [|apply rtc_refl].
    apply (ps_dispatch _ "sbx_1" ["sbx_1"]).
  - split; [exact H1|]. apply H5. vm_compute. reflexivity.
Defined.
