(* ===== verification/Idempotency.v ===== *)
(** Idempotency keys (controlplane/idempotency.go): the claim, the renewal of
    its lease while the request runs, and the replay. *)

From Stdlib Require Import ZArith NArith Ascii String Lia.
From stdpp Require Import base tactics list gmap strings relations.
From S2P Require Import Prelude GoStd Errors Labels Driver Lifecycle Etag Settings Store Memory World Mutate.
From S2P Require Import Admission Protocol.

#[local] Open Scope string_scope.
#[local] Open Scope go_scope.

Definition IdempotencyTTL : Z := (24 * 3600 * second)%Z.
Definition PendingLease : Z := (5 * 60 * second)%Z.

Record Response : Type := MkResponse { rp_Status : Z; rp_Body : string }.

Definition ValidKey (key : string) : bool :=
  str_nonempty key && (String.length key <=? 255)%nat && str_forall printable key.

(** The space a key is valid in; the principal is length-prefixed. *)
Definition idem_Scope (principal method path : string) : string :=
  Itoa (Z.of_nat (String.length principal)) ++ ":" ++ principal ++ " " ++ method ++ " " ++ path.

Section idempotency.
Context {S E : Type} `{!Store S} (env : Env S E).
Abbreviation W := (World S E).

(** One tick of the renewer: whether it goes on. *)
Definition renew_tick (scope key token : string) : M W bool :=
  let! t := now env in
  let! err := on_store env (st_Renew scope key token (t + PendingLease)) in
  mreturn (match err with Some e => negb (Is e ErrNotFound) | None => true end).

(** The request, cut where the renewer ticks: [segs] is what it does before
    each tick, [fin] what it does after the last. *)
Fixpoint run_renewed (alive : bool) (scope key token : string) (segs : list (M W unit)) (fin : M W (result Response))
    : M W (result Response) :=
  match segs with
  | [] => fin
  | seg :: segs =>
      seg ;;;
      let! alive := (if alive then renew_tick scope key token else mreturn false) in
      run_renewed alive scope key token segs fin
  end.

Fixpoint run_plain (segs : list (M W unit)) (fin : M W (result Response)) : M W (result Response) :=
  match segs with [] => fin | seg :: segs => seg ;;; run_plain segs fin end.

(** The request after its claim. *)
Definition run_claimed (scope key token : string) (segs : list (M W unit)) (fin : M W (result Response))
    : M W (Response * bool * option error) :=
  let none := MkResponse 0 "" in
  let! r := run_renewed true scope key token segs fin in
  match r with
  | Fail e =>
      let! rerr := on_store env (st_Release scope key token) in
      mreturn (none, false, Some (match rerr with Some re => errjoin e re | None => e end))
  | Ok resp =>
      let! t := now env in
      let! err := on_store env (st_Complete scope key token (rp_Status resp) (rp_Body resp) (t + IdempotencyTTL)) in
      mreturn (resp, false, err)
  end.

(** [Do]: the response, whether it was replayed, and the error. *)
Definition Do (principal method path key body : string) (segs : list (M W unit)) (fin : M W (result Response))
    : M W (Response * bool * option error) :=
  let none := MkResponse 0 "" in
  if String.eqb key "" then
    let! r := run_plain segs fin in
    mreturn (match r with Ok resp => (resp, false, None) | Fail e => (none, false, Some e) end)
  else if negb (ValidKey key) then
    mreturn (none, false, Some (errorf ErrInvalid "Idempotency-Key must be 1 to 255 printable ASCII characters"))
  else
    let hash := hex_encode (x_sha256 env body) in
    let scope := idem_Scope principal method path in
    let! rnd := ext (x_rand env 16) in
    match rnd with
    | Fail e => mreturn (none, false, Some e)
    | Ok tok =>
    let token := hex_encode tok in
    let! t := now env in
    let! claim := on_store env (st_Claim (MkIdem scope key hash IdemPending 0 "" (t + PendingLease) token) t) in
    match claim with
    | Fail e => mreturn (none, false, Some e)
    | Ok (cur, claimed) =>
    if negb claimed then
      mreturn (if negb (String.eqb (ir_RequestHash cur) hash) then (none, false, Some (errval ErrIdempotencyMismatch))
               else if negb (bool_decide (ir_State cur = IdemDone)) then (none, false, Some (errval ErrIdempotencyInFlight))
               else (MkResponse (ir_Status cur) (ir_Body cur), true, None))
    else run_claimed scope key token segs fin
    end end.
End idempotency.

(** ** The records of the in-memory store *)

(** A step of anyone who does not know the token [tok], before [deadline]. *)
Inductive stranger_step (tok : string) (deadline : Z) (m : Memory) : Memory → Prop :=
| stranger_Claim r now : (now < deadline)%Z → stranger_step tok deadline m (memory_Claim r now m).2
| stranger_Renew a b c e : c ≠ tok → stranger_step tok deadline m (memory_Renew a b c e m).2
| stranger_Complete a b c n t e : c ≠ tok → stranger_step tok deadline m (memory_Complete a b c n t e m).2
| stranger_Release a b c : c ≠ tok → stranger_step tok deadline m (memory_Release a b c m).2
| stranger_Create sb : stranger_step tok deadline m (memory_Create sb m).2
| stranger_Update sb v : stranger_step tok deadline m (memory_Update sb v m).2
| stranger_Delete id v : stranger_step tok deadline m (memory_Delete id v m).2.

(** A step of anyone at all, before [deadline]. *)
Inductive any_step (deadline : Z) (m : Memory) : Memory → Prop :=
| any_stranger tok m' : stranger_step tok deadline m m' → any_step deadline m m'.

Definition idem_at (m : Memory) (k : string * string) : option IdemRecord := m_idem m !! k.

Lemma idem_put_sandboxes m rv s k : idem_at (put_sandboxes m rv s) k = idem_at m k.
Proof. by destruct m. Qed.

Lemma idem_put_idem m i w k : idem_at (put_idem m i w) k = i !! k.
Proof. by destruct m. Qed.

(** Sweeping keeps what has not expired. *)
Lemma sweep_keeps now m k c :
  idem_at m k = Some c → (now < ir_ExpiresAt c)%Z → idem_at (sweep now m) k = Some c.
Proof.
  intros Hk Hn. unfold sweep. case_match; [|done]. rewrite idem_put_idem. by apply map_lookup_filter_Some.
Qed.

(** A claim before the record expires finds it, and changes no live record. *)
Lemma Claim_live r now m c :
  idem_at m (ir_Scope r, ir_Key r) = Some c → (now < ir_ExpiresAt c)%Z →
  memory_Claim r now m =
    (Ok (with_idem c (ir_State c) (ir_Status c) (ir_Body c) (ir_ExpiresAt c) "", false), sweep now m).
Proof.
  intros Hk Hn. unfold memory_Claim. pose proof (sweep_keeps now m _ c Hk Hn) as Hs. unfold idem_at in Hs.
  rewrite Hs, (proj2 (Z.ltb_lt _ _) Hn). done.
Qed.

Lemma Claim_keeps r now m k c :
  idem_at m k = Some c → (now < ir_ExpiresAt c)%Z → idem_at (memory_Claim r now m).2 k = Some c.
Proof.
  intros Hk Hn. destruct (decide (k = (ir_Scope r, ir_Key r))) as [->|Hne].
  - rewrite (Claim_live r now m c Hk Hn). by apply sweep_keeps.
  - pose proof (sweep_keeps now m k c Hk Hn) as Hs. unfold memory_Claim.
    destruct (m_idem (sweep now m) !! (ir_Scope r, ir_Key r)) as [cur|]; [destruct (now <? ir_ExpiresAt cur)%Z; [done|]|];
      simpl; unfold idem_set; rewrite idem_put_idem, lookup_insert_ne; done.
Qed.

Lemma held_Some m scope key token c :
  held m scope key token = Some c → idem_at m (scope, key) = Some c ∧ ir_State c = IdemPending ∧ ir_Token c = token ∧ token ≠ "".
Proof.
  unfold held, idem_at. destruct (m_idem m !! (scope, key)) as [cur|]; [|done].
  destruct (bool_decide (ir_State cur = IdemPending)) eqn:Hs; simpl; [|done].
  destruct (str_nonempty token) eqn:Ht; simpl; [|done].
  destruct (String.eqb_spec (ir_Token cur) token); [|done]. intros [= ->]. apply bool_decide_eq_true in Hs.
  split_and!; [done..|]. intros ->. done.
Qed.

(** What a write of the record's holder leaves: nothing else's. *)
Lemma held_other m scope key token c k c' :
  held m scope key token = Some c → idem_at m k = Some c' → ir_State c' = IdemDone ∨ ir_Token c' ≠ token → k ≠ (scope, key).
Proof.
  intros (H1 & H2 & H3 & _)%held_Some Hk Hc ->. rewrite Hk in H1. injection H1 as ->. destruct Hc as [Hc|Hc]; congruence.
Qed.

(** Nobody without its token touches a live record, and nobody at all a
    completed one. *)
Lemma stranger_keeps tok deadline m m' k c :
  stranger_step tok deadline m m' → idem_at m k = Some c → (deadline <= ir_ExpiresAt c)%Z →
  ir_State c = IdemDone ∨ ir_Token c = tok → idem_at m' k = Some c.
Proof.
  intros Hstep Hk Hd Hc.
  assert (Hheld : ∀ a b t c0, held m a b t = Some c0 → t ≠ tok → k ≠ (a, b)).
  { intros a b t c0 Hh Ht. eapply held_other; [done..|]. destruct Hc as [?| ->]; auto. }
  destruct Hstep as [r now Hn|a b t e Ht|a b t n x e Ht|a b t Ht|sb|sb v|id v].
  - apply Claim_keeps; [done|lia].
  - unfold memory_Renew. destruct (held m a b t) as [c0|] eqn:Hh; [|done]. simpl. unfold idem_set.
    rewrite idem_put_idem, lookup_insert_ne; [done|]. specialize (Hheld _ _ _ _ Hh Ht). congruence.
  - unfold memory_Complete. destruct (held m a b t) as [c0|] eqn:Hh; [|done]. simpl. unfold idem_set.
    rewrite idem_put_idem, lookup_insert_ne; [done|]. specialize (Hheld _ _ _ _ Hh Ht). congruence.
  - unfold memory_Release. destruct (held m a b t) as [c0|] eqn:Hh; [|done]. simpl.
    rewrite idem_put_idem, lookup_delete_ne; [done|]. specialize (Hheld _ _ _ _ Hh Ht). congruence.
  - unfold memory_Create. repeat case_match; simpl; rewrite ?idem_put_sandboxes; done.
  - unfold memory_Update. repeat case_match; simpl; rewrite ?idem_put_sandboxes; done.
  - unfold memory_Delete. repeat case_match; simpl; rewrite ?idem_put_sandboxes; done.
Qed.

Lemma strangers_keep tok deadline m m' k c :
  rtc (stranger_step tok deadline) m m' → idem_at m k = Some c → (deadline <= ir_ExpiresAt c)%Z →
  ir_State c = IdemDone ∨ ir_Token c = tok → idem_at m' k = Some c.
Proof. induction 1 as [|m m1 m' Hs _ IH]; [done|]. intros. apply IH; [|done..]. by eapply stranger_keeps. Qed.

Lemma anyone_keeps deadline m m' k c :
  rtc (any_step deadline) m m' → idem_at m k = Some c → (deadline <= ir_ExpiresAt c)%Z → ir_State c = IdemDone →
  idem_at m' k = Some c.
Proof. induction 1 as [|m m1 m' [tok m1' Hs] _ IH]; [done|]. intros. apply IH; [|done..]. eapply stranger_keeps; eauto. Qed.

(** The claim that is won. *)
Lemma Claim_won r now m cur m1 :
  memory_Claim r now m = (Ok (cur, true), m1) →
  cur = with_idem r IdemPending 0 "" (ir_ExpiresAt r) (ir_Token r) ∧ idem_at m1 (ir_Scope r, ir_Key r) = Some cur.
Proof.
  unfold memory_Claim. destruct (m_idem (sweep now m) !! (ir_Scope r, ir_Key r)) as [c|];
    [destruct (now <? ir_ExpiresAt c)%Z; [done|]|]; intros [= <- <-]; unfold idem_set; rewrite idem_put_idem, lookup_insert_eq; done.
Qed.

Lemma Complete_done scope key token status body expires m m1 :
  memory_Complete scope key token status body expires m = (None, m1) →
  ∃ c, idem_at m (scope, key) = Some c ∧
    idem_at m1 (scope, key) = Some (with_idem c IdemDone status body expires (ir_Token c)).
Proof.
  unfold memory_Complete. destruct (held m scope key token) as [c|] eqn:Hh; [|done]. intros [= <-].
  exists c. unfold idem_set. rewrite idem_put_idem, lookup_insert_eq. by apply held_Some in Hh as [? _].
Qed.

(** ** A request and its retry *)

Section retry.
Context {E : Type} (env : Env Memory E).
Hypothesis Hcalm : calm env.
Abbreviation W := (World Memory E).
Abbreviation store_of w := (sh_store (w_sh w)).

(** A request that leaves the record of [k] alone. *)
Definition keeps_record {A} (k : string * string) (m : M W A) : Prop :=
  ∀ w, idem_at (store_of (m w).2) k = idem_at (store_of w) k.

Lemma calm_store_run {A} (m : M Memory A) w a w1 :
  on_store env m w = (a, w1) → m (store_of w) = (a, store_of w1).
Proof.
  intros H. destruct (on_store_calm env Hcalm m w) as [H1 H2]. rewrite H in H1, H2. simpl in *. subst a.
  rewrite H2. by destruct (m (store_of w)).
Qed.

Lemma quiet_ext_run {A} (m : M E A) w a w1 : ext (S:=Memory) m w = (a, w1) → store_of w1 = store_of w ∧ a = (m (w_ext w)).1.
Proof. unfold ext. destruct (m (w_ext w)). by intros [= <- <-]. Qed.

(** With a live record, the request itself never runs. *)
Lemma Do_live principal method path key body segs fin w c :
  key ≠ "" → ValidKey key = true →
  idem_at (store_of w) (idem_Scope principal method path, key) = Some c →
  (∀ e, (x_now env e).1 < ir_ExpiresAt c)%Z →
  (∃ e, (Do env principal method path key body segs fin w).1 = (MkResponse 0 "", false, Some e) ∧
        (x_rand env 16 (w_ext w)).1 = Fail e) ∨
  (Do env principal method path key body segs fin w).1 =
    if negb (String.eqb (ir_RequestHash c) (hex_encode (x_sha256 env body))) then (MkResponse 0 "", false, Some (errval ErrIdempotencyMismatch))
    else if negb (bool_decide (ir_State c = IdemDone)) then (MkResponse 0 "", false, Some (errval ErrIdempotencyInFlight))
    else (MkResponse (ir_Status c) (ir_Body c), true, None).
Proof.
  intros Hk Hv Hat Hclock. destruct (Do env principal method path key body segs fin w) as [out w'] eqn:Hrun. cbn [fst].
  revert Hrun. unfold Do. apply String.eqb_neq in Hk. rewrite Hk, Hv. cbn [negb]. cbn zeta. unfold mthen at 1.
  destruct (ext (x_rand env 16) w) as [r w1] eqn:Hr. apply quiet_ext_run in Hr as [Hw1 Hr].
  destruct r as [tok|e]; [intros Hrun; right|intros [= <- <-]; left; by exists e]. revert Hrun.
  unfold mthen at 1. destruct (now env w1) as [t w2] eqn:Ht. apply quiet_ext_run in Ht as [Hw2 ->].
  unfold mthen at 1. match goal with |- context [on_store env ?m w2] => destruct (on_store env m w2) as [cl w3] eqn:Hc end.
  apply calm_store_run in Hc. cbn [st_Claim memory_store] in Hc.
  rewrite (Claim_live _ _ _ c) in Hc; [|cbn [ir_Scope ir_Key]; by rewrite Hw2, Hw1|apply Hclock].
  injection Hc as <- _. cbn [negb]. unfold mreturn. by intros [= <- _].
Qed.

(** A request that ran and answered leaves its response in its record. *)
Lemma Do_ran principal method path key body fin w resp w' :
  key ≠ "" → ValidKey key = true →
  keeps_record (idem_Scope principal method path, key) fin →
  Do env principal method path key body [] fin w = ((resp, false, None), w') →
  ∃ c t, idem_at (store_of w') (idem_Scope principal method path, key) = Some c ∧
    ir_RequestHash c = hex_encode (x_sha256 env body) ∧ ir_State c = IdemDone ∧
    ir_Status c = rp_Status resp ∧ ir_Body c = rp_Body resp ∧
    ir_ExpiresAt c = (t + IdempotencyTTL)%Z ∧ ∃ e, (x_now env e).1 = t.
Proof.
  intros Hk Hv Hkeep. unfold Do. apply String.eqb_neq in Hk. rewrite Hk, Hv. cbn [negb]. cbn zeta.
  unfold mthen at 1. destruct (ext (x_rand env 16) w) as [r w1]. destruct r as [tok|e]; [|discriminate].
  unfold mthen at 1. destruct (now env w1) as [t w2].
  unfold mthen at 1. match goal with |- context [on_store env ?m w2] => destruct (on_store env m w2) as [cl w3] eqn:Hc end. apply calm_store_run in Hc.
  destruct cl as [[cur claimed]|e]; [|discriminate]. destruct claimed; cbn [negb].
  2: { destruct (negb _); [discriminate|]. destruct (negb _); discriminate. }
  apply Claim_won in Hc as [Hcur Hat]. cbn [ir_Scope ir_Key] in Hat.
  unfold run_claimed, mthen at 1. cbn [run_renewed]. specialize (Hkeep w3). destruct (fin w3) as [res w4]. cbn [snd] in Hkeep.
  destruct res as [rp|e]; [|unfold mthen; match goal with |- context [on_store env ?m w4] => destruct (on_store env m w4) as [[re|] w5] end; discriminate].
  unfold mthen at 1. destruct (now env w4) as [t' w5] eqn:Ht. apply quiet_ext_run in Ht as [Hw5 Ht].
  unfold mthen. match goal with |- context [on_store env ?m w5] => destruct (on_store env m w5) as [err w6] eqn:Hd end. apply calm_store_run in Hd. unfold mreturn.
  intros [= <- -> <-]. cbn [st_Complete memory_store] in Hd. apply Complete_done in Hd as (c & Hc1 & Hc2).
  rewrite Hw5, Hkeep, Hat in Hc1. injection Hc1 as <-. eexists _, t'. rewrite Hc2. split; [done|]. rewrite Hcur.
  split_and!; try done. by exists (w_ext w4).
Qed.
End retry.

(** ** Properties *)

(** An idempotency key is claimed once. From the moment a claim is won to the
    end of its lease, whatever others do to the store (other claims, of this
    key or not, sweeps, renewals, completions and releases with tokens that
    are not the winner's, changes of sandboxes), every further claim of the key
    finds the winner's pending record, without its token, and is not won. *)
Theorem claim_exclusive (rec rec2 cur : IdemRecord) (now now2 : Z) (m m1 m2 : Memory) :
  memory_Claim rec now m = (Ok (cur, true), m1) →
  rtc (stranger_step (ir_Token rec) (ir_ExpiresAt rec)) m1 m2 →
  (now2 < ir_ExpiresAt rec)%Z → ir_Scope rec2 = ir_Scope rec → ir_Key rec2 = ir_Key rec →
  (memory_Claim rec2 now2 m2).1 =
    Ok (MkIdem (ir_Scope rec) (ir_Key rec) (ir_RequestHash rec) IdemPending 0 "" (ir_ExpiresAt rec) "", false).
Proof.
  intros Hc Hs Hn Hsc Hk. apply Claim_won in Hc as [-> Hat].
  eapply strangers_keep in Hat; [|exact Hs|simpl; lia|by right].
  erewrite Claim_live; [|rewrite Hsc, Hk; exact Hat|done]. done.
Qed.

Definition demo_claim (tok : string) : IdemRecord := MkIdem "5:alice POST /x" "k1" "h1" IdemPending 0 "" 300 tok.

Lemma claim_exclusive_witness :
  (memory_Claim (demo_claim "t1") 10 NewMemory).1 = Ok (demo_claim "t1", true) ∧
  (memory_Claim (demo_claim "t2") 200 (memory_Release "5:alice POST /x" "k1" "t2" (memory_Claim (demo_claim "t1") 10 NewMemory).2).2).1
    = Ok (demo_claim "", false).
Proof.
  split; [vm_compute; reflexivity|].
  apply (claim_exclusive (demo_claim "t1") (demo_claim "t2") (demo_claim "t1") 10 200 NewMemory
    (memory_Claim (demo_claim "t1") 10 NewMemory).2); [vm_compute; reflexivity| |by vm_compute|reflexivity..].
  apply rtc_once, stranger_Release. discriminate.
Defined.

(** A completed request is replayed to everyone. Once its holder completed the
    record, whatever anyone does to the store before the record expires, a
    claim of the key is not won and gives the status and body of the one run,
    with the hash of the request that ran. *)
Theorem completed_replays (scope key token body : string) (status expires now2 : Z) (c rec2 : IdemRecord) (m m1 m2 : Memory) :
  idem_at m (scope, key) = Some c → ir_Scope c = scope → ir_Key c = key →
  memory_Complete scope key token status body expires m = (None, m1) →
  rtc (any_step expires) m1 m2 →
  (now2 < expires)%Z → ir_Scope rec2 = scope → ir_Key rec2 = key →
  (memory_Claim rec2 now2 m2).1 =
    Ok (MkIdem scope key (ir_RequestHash c) IdemDone status body expires "", false).
Proof.
  intros Hat Hs1 Hk1 Hc Hs Hn Hsc Hk. apply Complete_done in Hc as (c' & Hat' & Hat2). rewrite Hat in Hat'. injection Hat' as <-.
  eapply anyone_keeps in Hat2; [|exact Hs|simpl; lia|done].
  erewrite Claim_live; [|rewrite Hsc, Hk; exact Hat2|done]. unfold with_idem. simpl. by rewrite Hs1, Hk1.
Qed.

Lemma completed_replays_witness :
  let m := (memory_Claim (demo_claim "t1") 10 NewMemory).2 in
  let m1 := (memory_Complete "5:alice POST /x" "k1" "t1" 201 "made" 9000 m).2 in
  (memory_Claim (demo_claim "t2") 400 m1).1 = Ok (MkIdem "5:alice POST /x" "k1" "h1" IdemDone 201 "made" 9000 "", false).
Proof.
  intros m m1. apply (completed_replays "5:alice POST /x" "k1" "t1" "made" 201 9000 400 (demo_claim "t1") (demo_claim "t2") m m1 m1);
    [vm_compute; reflexivity|reflexivity|reflexivity|vm_compute; reflexivity|apply rtc_refl|by vm_compute|reflexivity..].
Defined.

(** A retry gets the first response and does not run again. When a request
    with an idempotency key answered, the same request made again within a day
    (by the server's clock) gives the response of the first, marked as a
    replay, whatever it would have done itself; with another body it is
    refused as a mismatch. The one other outcome is that no random token can
    be read, and then nothing is done either. *)
Theorem retry_gets_first_response {E} (env : Env Memory E) (principal method path key body body2 : string)
    (fin : M (World Memory E) (result Response)) (segs2 : list (M (World Memory E) unit))
    (fin2 : M (World Memory E) (result Response)) (t0 : Z) (resp : Response) (w w1 : World Memory E) :
  calm env → (∀ e, t0 <= (x_now env e).1 < t0 + IdempotencyTTL)%Z →
  key ≠ "" → ValidKey key = true → keeps_record (idem_Scope principal method path, key) fin →
  Do env principal method path key body [] fin w = ((resp, false, None), w1) →
  let again := (Do env principal method path key body2 segs2 fin2 w1).1 in
  (∃ e, (x_rand env 16 (w_ext w1)).1 = Fail e ∧ again = (MkResponse 0 "", false, Some e)) ∨
  (hex_encode (x_sha256 env body2) = hex_encode (x_sha256 env body) ∧ again = (resp, true, None)) ∨
  (hex_encode (x_sha256 env body2) ≠ hex_encode (x_sha256 env body) ∧
     again = (MkResponse 0 "", false, Some (errval ErrIdempotencyMismatch))).
Proof.
  intros Hcalm Hclock Hk Hv Hkeep Hrun again.
  destruct (Do_ran env Hcalm _ _ _ _ _ _ _ _ _ Hk Hv Hkeep Hrun) as (c & t & Hat & Hh & Hst & Hs & Hb & He & e & Ht).
  destruct (Do_live env Hcalm principal method path key body2 segs2 fin2 w1 c Hk Hv Hat) as [(x & H1 & H2)|H].
  - intros e'. rewrite He, <- Ht. pose proof (Hclock e). pose proof (Hclock e'). lia.
  - left. by exists x.
  - right. unfold again. rewrite H, Hh, Hst, Hs, Hb. rewrite bool_decide_eq_true_2 by done.
    destruct (String.eqb_spec (hex_encode (x_sha256 env body)) (hex_encode (x_sha256 env body2))) as [Heq|Hne]; cbn [negb].
    + left. split; [done|]. by destruct resp.
    + right. split; [congruence|done].
Qed.

Definition made (w : World Memory unit) : result Response * World Memory unit := (Ok (MkResponse 201 "made"), w).

Lemma retry_gets_first_response_witness :
  let env := calm_env ∅ capped_settings in
  let w1 := (Do env "alice" "POST" "/x" "k1" "{}" [] made (start_world NewMemory tt)).2 in
  (Do env "alice" "POST" "/x" "k1" "{}" [] (λ w, (Fail (errval Canceled), w)) w1).1 = (MkResponse 201 "made", true, None).
Proof.
  intros env w1.
  destruct (retry_gets_first_response env "alice" "POST" "/x" "k1" "{}" "{}" made [] (λ w, (Fail (errval Canceled), w)) 0
    (MkResponse 201 "made") (start_world NewMemory tt) w1) as [(e & He & _)|[[_ H]|[H _]]].
  - intros sh e. reflexivity.
  - intros []. by vm_compute.
  - discriminate.
  - reflexivity.
  - intros w. reflexivity.
  - vm_compute. reflexivity.
  - discriminate He.
  - exact H.
  - destruct H. reflexivity.
Defined.
