(* ===== verification/Sessions.v ===== *)
(** Sessions and warm pools (controlplane/sessions.go): the commands a session
    runs, waiting for a sandbox to settle, and pools of Ready sandboxes that
    sessions claim. *)

From Stdlib Require Import ZArith NArith Ascii String Lia.
From stdpp Require Import base tactics list gmap strings relations.
From S2P Require Import Prelude GoStd Errors Labels Driver Lifecycle Etag Settings Store Memory World Mutate.
From S2P Require Import Admission Protocol Templates Service Exec Verbs Reconcile.

#[local] Open Scope string_scope.
#[local] Open Scope go_scope.

Definition SessionsPrincipal : string := "system:sessions".
Definition MaxPoolSize : Z := 16.
Definition defaultPoolBackoff : Z := (600 * second)%Z.

Record PoolConfig : Type := MkPool {
  pc_Key : string; pc_Size : Z; pc_Create : CreateRequest; pc_Scope : strmap; pc_Interval : Z; pc_MaxBackoff : Z
}.

Definition pool_labels (p : PoolConfig) : strmap := <[LabelPool := pc_Key p]> (pc_Scope p).
Definition pool_caller (p : PoolConfig) : Caller := MkCaller SessionsPrincipal false (pool_labels p).

(** What one fill found of the members made before it. *)
Record fillResult : Type := MkFill { fr_failed : Z; fr_pending : Z }.

(** [errors.Join] of a list. *)
Definition join_errors (l : list error) : option error :=
  match l with [] => None | e :: l => Some (foldl errjoin e l) end.

(** How long [Run] waits after its [failures]th failing fill. *)
Definition pool_wait (p : PoolConfig) (failures : Z) : Z :=
  Z.min (wrap64 (Z.shiftl (pc_Interval p) (Z.min (failures - 1) 16))) (pc_MaxBackoff p).

(** The member a claim makes of [sb]: out of the pool, under the session's
    labels, as a new generation. *)
Definition claimed (p : PoolConfig) (labels : strmap) (now : Z) (sb : Sandbox) : result Sandbox :=
  if negb (bool_decide (State sb = StateReady)) || negb (String.eqb (Owner sb) SessionsPrincipal)
     || negb (scoped (pool_labels p) (Labels sb))
  then Fail (errval errClaimed)
  else Ok (with_labels (with_state sb (wrap64 (Generation sb + 1)) (State sb) now)
             (maps_copy (delete LabelPool (Labels sb)) labels)).

Section sessions.
Context {S E : Type} `{!Store S} (env : Env S E) (rfc3339 : Z → string).
Abbreviation W := (World S E).

(** [UserLabel]. *)
Definition UserLabel (tenant user : string) : string :=
  "u-" ++ hex_encode (take 16 (x_sha256 env (tenant ++ String "000"%char user))).

(** ** Waiting *)

(** [await]: looks, and makes the reconciler's pass itself, until [done] says
    so or the context, which ends after [n] more looks. *)
Fixpoint await_loop {A} (n : nat) (ended : error) (id : string) (done : result Sandbox → A → result bool * A) (a : A)
    : M W (option error * A) :=
  let! r := on_store env (st_Get id) in
  let '(d, a) := done r a in
  match d with
  | Fail e => mreturn (Some e, a)
  | Ok true => mreturn (None, a)
  | Ok false =>
      let! _ := svc_Reconcile env rfc3339 id in
      match n with
      | 0%nat => mreturn (Some (errwrap ErrUnavailable ("sandbox " ++ id ++ " did not settle: ") ended), a)
      | Datatypes.S n => await_loop n ended id done a
      end
  end.

Definition await {A} (id : string) (done : result Sandbox → A → result bool * A) (a : A) : M W (option error * A) :=
  let! (n, ended) := ext (x_done env) in await_loop n ended id done a.

Definition wait_why (sb : Sandbox) : string :=
  match get_Condition sb CondDriverReady, get_Condition sb CondIsolationVerified with
  | Some c, iso =>
      if str_nonempty (c_Message c) then ": " ++ c_Message c
      else match iso with
           | Some i => if bool_decide (c_Status i = ConditionFalse) then ": " ++ c_Message i else ""
           | None => ""
           end
  | None, Some i => if bool_decide (c_Status i = ConditionFalse) then ": " ++ c_Message i else ""
  | None, None => ""
  end.

(** The sandbox is the one seen last that the caller may see. *)
Definition ready_done (c : Caller) (id : string) (r : result Sandbox) (out : Sandbox) : result bool * Sandbox :=
  match r with
  | Fail e => (Fail (storeErr e), out)
  | Ok sb =>
      if negb (may c sb) then (Fail (errorf ErrNotFound ("sandbox " ++ id)), out)
      else (match State sb with
            | StateReady => Ok true
            | StateProvisioning | StateStarting => Ok false
            | st => Fail (errorf ErrUnavailable ("sandbox " ++ id ++ " is " ++ state_text st ++ wait_why sb))
            end, sb)
  end.

Definition WaitReady (c : Caller) (id : string) : M W (Sandbox * option error) :=
  let! (e, sb) := await id (ready_done c id) zero_sandbox in mreturn (sb, e).

Definition settle_done (r : result Sandbox) (a : unit) : result bool * unit :=
  (match r with
   | Fail e => Fail (storeErr e)
   | Ok sb => Ok (negb (bool_decide (State sb ∈ [StateProvisioning; StateStarting; StateStopping])))
   end, a).

Definition Settle (id : string) : M W (option error) := let! (e, _) := await id settle_done tt in mreturn e.

Definition stop_done (r : result Sandbox) (a : unit) : result bool * unit :=
  (match r with
   | Fail e => Fail (storeErr e)
   | Ok sb => Ok (bool_decide (State sb = StateStopped) || bool_decide (State sb = StateError))
   end, a).

Definition StopNow (x : Ctx) (c : Caller) (id : string) (grace : Z) : M W (option error) :=
  let! r := svc_Stop env x c id "" grace in
  match r with
  | Fail e => mreturn (Some e)
  | Ok _ => let! (e, _) := await id stop_done tt in mreturn e
  end.

Definition delete_done (id : string) (r : result Sandbox) (a : unit) : result bool * unit :=
  (match r with
   | Fail e => if Is e ErrNotFound then Ok true else Fail (storeErr e)
   | Ok sb =>
       match get_Condition sb CondDeleteFailed with
       | Some c => if bool_decide (c_Status c = ConditionTrue)
                   then Fail (errorf ErrUnavailable ("deleting sandbox " ++ id ++ ": " ++ c_Message c)) else Ok false
       | None => Ok false
       end
   end, a).

Definition DeleteNow (x : Ctx) (c : Caller) (id : string) : M W (option error) :=
  let! r := svc_Delete env x c id "" in
  match r with
  | Fail e => mreturn (if Is e ErrNotFound then None else Some e)
  | Ok _ => let! (e, _) := await id (delete_done id) tt in mreturn e
  end.

(** ** A session's command *)

(** The process handed out: it holds the guard's slot and its credential until
    the caller ends its context ([command_ended]). *)
Record Process : Type := MkProcess { pr_release : option nat; pr_cred : option nat; pr_event : AuditEvent }.

Definition svc_Command (x : Ctx) (c : Caller) (id : string) (req : CommandRequest) : M W (Sandbox * result Process) :=
  if negb (Bool.eqb (cr_shell req) (String.eqb (cr_command req) "")) then
    mreturn (zero_sandbox, Fail (errorf ErrInvalid "exactly one of a command and a shell"))
  else
  let! r := svc_Get env c id in
  match r with Fail e => mreturn (zero_sandbox, Fail e) | Ok sb =>
  if negb (AcceptsWork (State sb)) then
    mreturn (sb, Fail (errorf ErrInvalidTransition
      ("sandbox " ++ id ++ " is " ++ state_text (State sb) ++ "; only Ready runs commands")))
  else
  match registry_Get (c_drivers env) (DriverName sb) with
  | Fail _ => mreturn (sb, Fail (errorf ErrUnavailable ("driver " ++ DriverName sb ++ " is not registered")))
  | Ok d =>
  if negb (Has (d_info d) CapCommand) then
    mreturn (sb, Fail (driver_errorf DErrUnsupported ("driver " ++ DriverName sb ++ " cannot run a session's commands")))
  else
  let egress := match c_egress env with Some eg => eg_For eg (DriverName sb) | None => false end in
  if egress && negb (opt_some (d_commander d)) then
    mreturn (sb, Fail (driver_errorf DErrUnsupported
      ("driver " ++ DriverName sb ++ " cannot pass a session's command its egress credential")))
  else
  let line := if cr_shell req then ":shell" else cr_command req in
  let ev := MkEvent 0 0 (Principal c) OpExec id (Generation sb) "" ""
              (<["command" := redact env line]> {["via" := "session"]}) in
  let! oe := owned env id in
  match oe with Some e => mreturn (sb, Fail e) | None =>
  let! re := record env (requested ev) in
  match re with Some e => mreturn (sb, Fail e) | None =>
  let! g := guardAdmit env x (MkAdmission OpExec c sb None (Some (MkExec [] line (cr_cwd req) [] (cr_shell req))) 0 "" "") in
  match g with Fail e => outcome env ev (Some e) ;;; mreturn (sb, Fail e) | Ok (rel, _) =>
  let adm := MkAdmReq OpExec c id (Some sb) sb (map_get (ev_Detail ev) "command") (cr_shell req) (cr_cwd req) [] in
  let! a := svc_admit env adm in
  match a with Fail e => release env rel ;;; outcome env ev (Some e) ;;; mreturn (sb, Fail e) | Ok _ =>
  let! derr := drives env "Command" id (driver_Command d id req) in
  let! cr := match derr, c_egress env with
             | None, Some eg =>
                 if egress then
                   let! r := ext (eg_Call eg id) in
                   match r with
                   | Fail e => mreturn (Fail (errwrap ErrUnavailable "an egress credential: " e))
                   | Ok (_, tok) => emit (EvCredential tok) ;;; mreturn (Ok (Some tok))
                   end
                 else mreturn (Ok None)
             | None, None => mreturn (Ok None)
             | Some e, _ => mreturn (Fail e)
             end in
  outcome env ev (err_of cr) ;;;
  svc_committed env adm sb (err_of cr) ;;;
  match cr with
  | Fail e => release env rel ;;; mreturn (sb, Fail e)
  | Ok cred => mreturn (sb, Ok (MkProcess rel cred ev))
  end
  end end end end end end.

(** What runs once the process's context has ended, with the cause. *)
Definition command_ended (pr : Process) (cause : error) : M W unit :=
  end_credential env (pr_cred pr) ;;;
  release env (pr_release pr) ;;;
  if Is cause ErrEndedByGuard then
    let ev := pr_event pr in
    let! _ := record env (MkEvent (ev_Seq ev) (ev_At ev) (ev_Principal ev) "exec.ended" (ev_SandboxID ev) (ev_Generation ev)
                OutcomeFailed (ErrorCode (Some cause)) (<["reason" := reason env (e_text cause)]> (ev_Detail ev))) in
    mreturn tt
  else mreturn tt.

(** ** Pools *)

Definition NewPool (cfg : PoolConfig) : result PoolConfig :=
  if negb (validValue (pc_Key cfg)) || String.eqb (pc_Key cfg) "" then
    Fail (errorf ErrInvalid ("pool key " ++ Quote (pc_Key cfg) ++ " is not a label value"))
  else if (pc_Size cfg <? 1)%Z || (MaxPoolSize <? pc_Size cfg)%Z then
    Fail (errorf ErrInvalid ("a warm pool holds 1 to " ++ Itoa MaxPoolSize ++ " sandboxes, not " ++ Itoa (pc_Size cfg)))
  else if negb (bool_decide (cq_Labels (pc_Create cfg) = ∅)) then
    Fail (errorf ErrInvalid "pool members carry no labels of their own")
  else match checkScope (pc_Scope cfg) with Some e => Fail e | None =>
  if opt_some (pc_Scope cfg !! LabelPool) then
    Fail (errorf ErrInvalid ("a pool's scope cannot set " ++ LabelPool))
  else match CheckSettings (c_settings env) (cq_Settings (pc_Create cfg)) with Some e => Fail e | None =>
  let interval := if (pc_Interval cfg <=? 0)%Z then Seconds (For (c_settings env) ∅) SetReconcileInterval
                  else pc_Interval cfg in
  let backoff := if (pc_MaxBackoff cfg <=? 0)%Z then defaultPoolBackoff else pc_MaxBackoff cfg in
  Ok (MkPool (pc_Key cfg) (pc_Size cfg) (pc_Create cfg) (pc_Scope cfg) interval (Z.max backoff interval))
  end end.

Definition member_options (p : PoolConfig) (after : string) : ListOptions :=
  {| lo_Selector := []; lo_State := no_state; lo_Owner := SessionsPrincipal; lo_Labels := pool_labels p;
     lo_Limit := MaxLimit; lo_After := after |}.

(** The pages of the pool's unclaimed sandboxes. [n] is fuel: [None] says a
    store kept answering with a next page more than [n] times. *)
Fixpoint members_loop (n : nat) (p : PoolConfig) (after : string) (out : list Sandbox)
    : M W (option (result (list Sandbox))) :=
  let! r := on_store env (st_List (member_options p after)) in
  match r with
  | Fail e => mreturn (Some (Fail (storeErr e)))
  | Ok (items, next) =>
      let out := (out ++ items)%list in
      if String.eqb next "" then mreturn (Some (Ok out))
      else match n with
           | 0%nat => mreturn None
           | Datatypes.S n => members_loop n p next out
           end
  end.

Definition Members (n : nat) (p : PoolConfig) : M W (option (result (list Sandbox))) := members_loop n p "" [].

(** Runs [k] on the members, if the fuel lasts. *)
Definition with_members {A} (n : nat) (p : PoolConfig) (k : result (list Sandbox) → M W A) : M W (option A) :=
  let! ms := Members n p in
  match ms with
  | None => mreturn None
  | Some ms => let! a := k ms in mreturn (Some a)
  end.

(** ** Claiming a member *)

Definition claim_fn (p : PoolConfig) (labels : strmap) (sb : Sandbox) (st : AdmissionRequest * bool)
    : M W (result Sandbox * (AdmissionRequest * bool)) :=
  let '(iadm, admitted) := st in
  let! at_ := now env in
  match claimed p labels at_ sb with
  | Fail e => mreturn (Fail e, (iadm, admitted))
  | Ok sb' =>
      let iadm := MkAdmReq (ar_Operation iadm) (ar_Caller iadm) (ar_SandboxID iadm) (Some sb) sb' "" false "" [] in
      let! a := svc_admit env iadm in
      match a with
      | Fail e => mreturn (Fail e, (iadm, admitted))
      | Ok adm => mreturn (Ok adm, (MkAdmReq (ar_Operation iadm) (ar_Caller iadm) (ar_SandboxID iadm) (Some sb) adm
                                      "" false "" [], true))
      end
  end.

(** The detail a claim is recorded with. *)
Definition claim_detail (p : PoolConfig) (labels : strmap) : strmap :=
  foldl (λ (d : strmap) '(k, v), <[TrimPrefix k ReservedPrefix := v]> d) {["pool" := pc_Key p]} (map_to_list labels).

Definition pool_claim (p : PoolConfig) (x : Ctx) (c : Caller) (m : Sandbox) (labels : strmap) : M W (result Sandbox) :=
  let! oe := owned env (ID m) in
  match oe with Some e => mreturn (Fail e) | None =>
  let ev := MkEvent 0 0 (Principal c) "claim" (ID m) (Generation m) "" "" (claim_detail p labels) in
  let! re := record env (requested ev) in
  match re with Some e => mreturn (Fail e) | None =>
  let! at_ := now env in
  match claimed p labels at_ m with Fail e => outcome env ev (Some e) ;;; mreturn (Fail e) | Ok next =>
  let! g := guardAdmit env x (MkAdmission OpUpdate c m (Some next) None 0 "" "") in
  match g with Fail e => outcome env ev (Some e) ;;; mreturn (Fail e) | Ok (rel, _) =>
  let! (out, (iadm, admitted)) :=
    Mutate env (ID m) "" (claim_fn p labels) (MkAdmReq OpUpdate c (ID m) None zero_sandbox "" false "" [], false) in
  let out := match out with Fail e => Fail (if Is e ErrNotFound then errval errClaimed else e) | Ok out => Ok out end in
  let ev := match out with Ok out => with_generation ev (Generation out) | Fail _ => ev end in
  outcome env ev (err_of out) ;;;
  (if admitted : bool then svc_committed env iadm (or_zero out) (err_of out) else mreturn tt) ;;;
  release env rel ;;;
  mreturn (match out with
           | Ok out => Ok out
           | Fail e => Fail (if Is e errClaimed || Is e ErrVersionMismatch then errval errClaimed else storeErr e)
           end)
  end end end end.

(** What a claim may set: the server's own labels, outside the pool's scope. *)
Definition check_claim_label (p : PoolConfig) (kv : string * string) : option error :=
  let k := kv.1 in
  and_then
    (fail_if (negb (HasPrefix k ReservedPrefix) || String.eqb k LabelPool)
       (errorf ErrInvalid ("a claim sets only the server's own labels, not " ++ Quote k)))
    (fail_if (opt_some (pc_Scope p !! k))
       (errorf ErrInvalid ("a claim cannot change the pool's scope label " ++ Quote k))).

Fixpoint claim_first (p : PoolConfig) (x : Ctx) (c : Caller) (labels : strmap) (ms : list Sandbox)
    : M W (result (option Sandbox)) :=
  match ms with
  | [] => mreturn (Ok None)
  | m :: ms =>
      if negb (bool_decide (State m = StateReady)) then claim_first p x c labels ms
      else
        let! r := pool_claim p x c m labels in
        match r with
        | Ok out => mreturn (Ok (Some out))
        | Fail e => if Is e errClaimed then claim_first p x c labels ms else mreturn (Fail e)
        end
  end.

(** One Ready member for [c]; [Ok None] when there is none. *)
Definition pool_Claim (n : nat) (p : PoolConfig) (x : Ctx) (c : Caller) (labels : strmap)
    : M W (option (result (option Sandbox))) :=
  let x := WithOrigin x OriginSession in
  match and_then (ValidateLabels labels true) (first_error (check_claim_label p) (map_to_list labels)) with
  | Some e => mreturn (Some (Fail e))
  | None =>
      with_members n p (λ ms,
        match ms with Fail e => mreturn (Fail e) | Ok ms => claim_first p x c labels ms end)
  end.

(** ** Filling *)

(** What a fill does with the members there are: how many count, what it
    found, and the errors of the deletes it asked for. *)
Fixpoint fill_members (p : PoolConfig) (x : Ctx) (ms : list Sandbox) (live : Z) (res : fillResult) (errs : list error)
    : M W (Z * fillResult * list error) :=
  match ms with
  | [] => mreturn (live, res, errs)
  | m :: ms =>
      match State m with
      | StateReady => fill_members p x ms (live + 1) res errs
      | StateProvisioning | StateStarting =>
          fill_members p x ms (live + 1) (MkFill (fr_failed res) (fr_pending res + 1)) errs
      | StateDeleting => fill_members p x ms live res errs
      | st =>
          let res := if bool_decide (st = StateError) then MkFill (fr_failed res + 1) (fr_pending res) else res in
          let! r := svc_Delete env x (pool_caller p) (ID m) "" in
          let errs := match r with
                      | Fail e => if Is e ErrNotFound then errs else (errs ++ [e])%list
                      | Ok _ => errs
                      end in
          fill_members p x ms live res errs
      end
  end.

(** Creates [n] more members, up to the first that fails. *)
Fixpoint fill_create (n : nat) (p : PoolConfig) (x : Ctx) (res : fillResult) (errs : list error)
    : M W (fillResult * list error) :=
  match n with
  | 0%nat => mreturn (res, errs)
  | Datatypes.S n =>
      let req := MkCreate (cq_Template (pc_Create p)) (cq_Driver (pc_Create p)) ∅ (cq_Settings (pc_Create p)) in
      let! r := svc_Create env x (pool_caller p) req in
      match r with
      | Fail e => mreturn (res, (errs ++ [e])%list)
      | Ok _ => fill_create n p x (MkFill (fr_failed res) (fr_pending res + 1)) errs
      end
  end.

Definition pool_fill (n : nat) (p : PoolConfig) (x : Ctx) : M W (option (fillResult * option error)) :=
  let x := WithOrigin x OriginSession in
  with_members n p (λ ms,
    match ms with
    | Fail e => mreturn (MkFill 0 0, Some e)
    | Ok ms =>
        let! (live, res, errs) := fill_members p x ms 0 (MkFill 0 0) [] in
        let! (res, errs) := fill_create (Z.to_nat (pc_Size p - live)) p x res errs in
        mreturn (res, join_errors errs)
    end).

Fixpoint drain_members (p : PoolConfig) (x : Ctx) (ms : list Sandbox) (errs : list error) : M W (list error) :=
  match ms with
  | [] => mreturn errs
  | m :: ms =>
      let! e := DeleteNow x (pool_caller p) (ID m) in
      drain_members p x ms (match e with Some e => (errs ++ [e])%list | None => errs end)
  end.

Definition Drain (n : nat) (p : PoolConfig) (x : Ctx) : M W (option (option error)) :=
  let x := WithOrigin x OriginSession in
  with_members n p (λ ms,
    match ms with
    | Fail e => mreturn (Some e)
    | Ok ms => let! errs := drain_members p x ms [] in mreturn (join_errors errs)
    end).

(** [Run]'s count of failing fills after one more, and the wait it then takes;
    0 is waiting for a claim or the interval. *)
Definition run_step (p : PoolConfig) (failures : Z) (res : fillResult) (err : option error) : Z * Z :=
  let failures :=
    if opt_some err || (0 <? fr_failed res)%Z then (failures + 1)%Z
    else if (0 <? failures)%Z && (fr_pending res =? 0)%Z then 0%Z else failures in
  (failures, if (0 <? failures)%Z then pool_wait p failures else 0%Z).
End sessions.

(** ** The protocol of a claim and of a session's command *)

Section sessions_protocol.
Context {S E : Type} `{!Store S} (env : Env S E).
Abbreviation W := (World S E).
Abbreviation at_ := (at_proto (S:=S) (E:=E) true).

Lemma claim_fn_triple k a h cr p labels sb st :
  k.1.2 ≠ "admission" →
  triple (at_ (Proto (Some k) a h cr)) (claim_fn env p labels sb st) (λ _, at_ (Proto (Some k) a h cr)).
Proof.
  intros Hk. unfold claim_fn. destruct st as [iadm admitted].
  eapply triple_bind; [apply silent_triple, silent_now|]. intros t. cbn beta.
  destruct (claimed _ _ _ _); [|by apply triple_ret].
  eapply triple_bind; [apply admit_triple; by intros ? [= <-]|]. intros [next|e]; by apply triple_ret.
Qed.

Lemma pool_claim_triple p x c m labels : triple (at_ idle) (pool_claim env p x c m labels) (λ _, at_ idle).
Proof.
  unfold pool_claim.
  eapply triple_bind; [apply silent_triple, silent_owned|]. intros [e|]; [by apply triple_ret|]. cbn beta zeta.
  eapply triple_bind; [apply record_requested_triple|]. intros [e|]; [by apply triple_ret|]. cbn beta iota.
  set (k := ev_key _).
  eapply triple_bind; [apply silent_triple, silent_now|]. intros t. cbn beta.
  destruct (claimed _ _ _ _) as [next|e].
  2: { eapply triple_bind; [by apply outcome_triple|]. intros ?. by apply triple_ret. }
  eapply triple_bind; [apply guardAdmit_triple|]. intros [[rel nx]|e]; cbn beta iota.
  2: { eapply triple_bind; [by apply outcome_triple|]. intros ?. by apply triple_ret. }
  eapply triple_bind; [apply mutate_triple; [done|done|]; intros sb st; by apply claim_fn_triple|].
  intros [out [iadm admitted]]. cbn beta zeta.
  eapply triple_bind; [apply outcome_triple; by destruct out|]. intros ?. cbn beta.
  eapply (triple_bind _ _ _ (λ _, at_ (Proto None false (hold rel []) []))).
  { destruct admitted; [by apply committed_triple|by apply triple_ret]. }
  intros ?. cbn beta. eapply triple_bind; [apply release_triple|]. intros ?. by apply triple_ret.
Qed.

(** A command handed out still holds its slot and its credential. *)
Definition holds_of (r : result Process) : protocol :=
  match r with Ok pr => Proto None false (hold (pr_release pr) []) (hold (pr_cred pr) []) | Fail _ => idle end.

Lemma Command_triple x c id req : triple (at_ idle) (svc_Command env x c id req) (λ r, at_ (holds_of r.2)).
Proof.
  unfold svc_Command. destruct (negb _); [by apply triple_ret|].
  eapply triple_bind; [apply silent_triple, silent_svc_Get|]. intros [sb|e]; [|by apply triple_ret]. cbn beta zeta.
  destruct (negb (AcceptsWork _)); [by apply triple_ret|]. destruct (registry_Get _ _) as [d|]; [|by apply triple_ret].
  destruct (negb (Has _ _)); [by apply triple_ret|]. set (eg := match c_egress env with Some _ => _ | None => _ end).
  destruct (eg && _); [by apply triple_ret|].
  eapply triple_bind; [apply silent_triple, silent_owned|]. intros [e|]; [by apply triple_ret|]. cbn beta.
  eapply triple_bind; [apply record_requested_triple|]. intros [e|]; [by apply triple_ret|]. cbn beta iota.
  set (k := ev_key _).
  eapply triple_bind; [apply guardAdmit_triple|]. intros [[rel nx]|e]; cbn beta iota.
  2: { eapply triple_bind; [by apply outcome_triple|]. intros ?. by apply triple_ret. }
  eapply triple_bind; [apply admit_triple; by intros ? [= <-]|]. intros [ok|e]; cbn beta.
  2: { eapply triple_bind; [apply release_triple|]. intros ?. cbn beta.
       eapply triple_bind; [by apply outcome_triple|]. intros ?. by apply triple_ret. }
  eapply triple_bind; [by apply drives_triple|]. intros derr. cbn beta.
  eapply (triple_bind _ _ _ (λ cr, at_ (Proto (Some k) true (hold rel []) (match cr with Ok cred => hold cred [] | Fail _ => [] end)))).
  { destruct derr; [by apply triple_ret|]. destruct (c_egress env); [|by apply triple_ret].
    destruct eg; [|by apply triple_ret].
    eapply triple_bind; [apply silent_triple, silent_ext|]. intros [[vars tok]|e']; [|by apply triple_ret]. cbn beta.
    eapply triple_bind; [by eapply emit_triple|]. intros ?. by apply triple_ret. }
  intros cr. cbn beta.
  eapply triple_bind; [by apply outcome_triple|]. intros ?. cbn beta.
  eapply triple_bind; [by apply committed_triple|]. intros ?. cbn beta.
  destruct cr as [cred|e]; [by apply triple_ret|].
  eapply triple_bind; [apply release_triple|]. intros ?. by apply triple_ret.
Qed.
End sessions_protocol.
