(* ===== verification/Surface.v ===== *)
(** The rest of the service's surface: building it (controlplane/service.go,
    [New]), the periodic pass over every sandbox (reconcile.go, [all]), reading
    the record back page by page (template.go, [Events]) and recording a
    driver's own events (verbs.go, [DriverRecorder]). *)

From Stdlib Require Import ZArith NArith Ascii String Lia.
From stdpp Require Import base tactics list gmap strings relations sorting.
From S2P Require Import Prelude GoStd Errors Labels Driver Lifecycle Etag Settings Store Memory World Mutate.
From S2P Require Import Admission Protocol Templates Service Exec Verbs Reconcile.

#[local] Open Scope string_scope.
#[local] Open Scope go_scope.

(** What [New] is given; [None] is a nil field. *)
Record RawConfig (S E : Type) : Type := MkRaw {
  rc_store : option S;
  rc_append : option (AuditEvent → M E (option error));
  rc_drivers : option (gmap string (Driver E));
  rc_settings : option SettingsT;
  rc_workspace : option (string → M E (result string));
  rc_rest : Env S E    (* the fields [New] passes on as they are *)
}.
Arguments rc_store {S E}. Arguments rc_append {S E}. Arguments rc_drivers {S E}.
Arguments rc_settings {S E}. Arguments rc_workspace {S E}. Arguments rc_rest {S E}.

Section surface.
Context {S E : Type} `{!Store S}.
Abbreviation W := (World S E).

Definition New (rc : RawConfig S E) : result (Env S E * Shared S E) :=
  match rc_store rc with None => Fail (plain "control plane: no store") | Some st =>
  match rc_append rc with None => Fail (plain "control plane: no audit log") | Some append =>
  match rc_drivers rc with None => Fail (plain "control plane: no drivers") | Some drivers =>
  match rc_settings rc with None => Fail (plain "control plane: no settings") | Some settings =>
  match rc_workspace rc with None => Fail (plain "control plane: no workspace") | Some workspace =>
  let r := rc_rest rc in
  let dflt := if String.eqb (c_default_driver r) "" then "process" else c_default_driver r in
  Ok (MkEnv drivers settings dflt workspace (c_release_workspace r) (c_write_protected r) (c_egress r) (c_redact r)
        (c_interceptor r) (c_owns r) (c_node r) (x_now r) (x_rand r) append (x_audit_for r) (x_sha256 r) (x_release r)
        (x_done r) (x_others r),
      MkShared st [] ∅ ∅ ∅ false None)
  end end end end end.

Context (env : Env S E).

(** ** The periodic pass *)

Definition all_options (after : string) : ListOptions :=
  {| lo_Selector := []; lo_State := no_state; lo_Owner := ""; lo_Labels := ∅; lo_Limit := MaxLimit; lo_After := after |}.

(** Dispatches every sandbox of a page that may need work; the ids a pass was
    started for. *)
Fixpoint dispatch_page (items : list Sandbox) : M W (list string) :=
  match items with
  | [] => mreturn []
  | sb :: items =>
      if bool_decide (State sb = StateStopped) then dispatch_page items
      else
        let! started := dispatch (ID sb) in
        let! rest := dispatch_page items in
        mreturn (if started : bool then ID sb :: rest else rest)
  end.

(** [n] is fuel for the pages; [None] says it ran out. A list that fails ends
    the round. *)
Fixpoint svc_all (n : nat) (after : string) : M W (option (list string)) :=
  let! r := on_store env (st_List (all_options after)) in
  match r with
  | Fail _ => mreturn (Some [])
  | Ok (items, next) =>
      let! ids := dispatch_page items in
      if String.eqb next "" then mreturn (Some ids)
      else match n with
           | 0%nat => mreturn None
           | Datatypes.S n =>
               let! rest := svc_all n next in
               mreturn (match rest with Some rest => Some (ids ++ rest)%list | None => None end)
           end
  end.

(** ** Reading the record *)

Record EventsOptions : Type := { eo_After : Z; eo_Limit : Z }.

Fixpoint events_loop (after : Z) (size : Z) (out : list AuditEvent) (all : list AuditEvent) : list AuditEvent * Z :=
  match all with
  | [] => (out, 0%Z)
  | ev :: all =>
      if (ev_Seq ev <=? after)%Z then events_loop after size out all
      else if (Z.of_nat (length out) =? size)%Z then (out, default 0%Z (ev_Seq <$> last out))
      else events_loop after size (out ++ [ev])%list all
  end.

Definition svc_Events (c : Caller) (id : string) (o : EventsOptions) : M W (result (list AuditEvent * Z)) :=
  let* _ := svc_Get env c id in
  match x_audit_for env with
  | None => mreturn (Fail (errorf DErrUnsupported "this server's record cannot be read back"))
  | Some read =>
      let! r := ext (read id) in
      mreturn (match r with
               | Fail e => Fail (storeErr e)
               | Ok all => Ok (events_loop (eo_After o) (PageSize (eo_Limit o)) [] all)
               end)
  end.
End surface.

(** ** A driver's events *)

(** A payload value: the Go types [toInt64] reads, or any other with the text
    [fmt.Sprint] gives it. A float is its integer part and its text. *)
Inductive payload : Type :=
| PInt64 (n : Z) | PInt (n : Z) | PFloat (whole : Z) (text : string) | PString (s : string) | POther (text : string).

Definition DriverPrincipal : string := "system:driver".

Definition toInt64 (v : payload) : Z :=
  match v with
  | PInt64 n | PInt n => n
  | PFloat n _ => n
  | PString s => ParseInt_value s
  | POther _ => 0
  end.

Definition payload_text (v : payload) : string :=
  match v with
  | PInt64 n | PInt n => Itoa n
  | PFloat _ t => t
  | PString s => s
  | POther t => t
  end.

Definition driver_event (at_ : Z) (event : string) (p : gmap string payload) : AuditEvent :=
  MkEvent 0 at_ DriverPrincipal event
    (match p !! "sandbox_id" with Some (PString s) => s | _ => "" end)
    (match p !! "generation" with Some v => toInt64 v | None => 0%Z end)
    OutcomeOK "" (payload_text <$> delete "sandbox_id" (delete "generation" p)).

Definition DriverRecorder {E} (append : AuditEvent → M E (option error)) (now : M E Z)
    (event : string) (p : gmap string payload) : M E (option error) :=
  let! at_ := now in append (driver_event at_ event p).

(** ** Reading the record page by page *)

(** What a client that asks again after the last sequence number reads: at most
    [n] pages after the first. *)
Fixpoint read_events (n : nat) (after limit : Z) (all : list AuditEvent) : option (list AuditEvent) :=
  let '(items, next) := events_loop after (PageSize limit) [] all in
  if (next =? 0)%Z then Some items
  else match n with
       | 0%nat => None
       | Datatypes.S n => match read_events n next limit all with
                          | Some rest => Some (items ++ rest)%list
                          | None => None
                          end
       end.

(** The events after a sequence number. *)
Definition events_after (after : Z) (all : list AuditEvent) : list AuditEvent :=
  filter (λ ev, (after < ev_Seq ev)%Z) all.

Definition in_sequence (all : list AuditEvent) : Prop := StronglySorted (λ a b, ev_Seq a < ev_Seq b)%Z all.

Lemma events_loop_spec after size all out :
  (Z.of_nat (length out) <= size)%Z →
  let rest := events_after after all in
  let k := (Z.to_nat size - length out)%nat in
  events_loop after size out all =
    (out ++ take k rest, if (length rest <=? k)%nat then 0%Z else default 0%Z (ev_Seq <$> last (out ++ take k rest)))%list.
Proof.
  revert out. induction all as [|ev all IH]; intros out Hout; cbn zeta; cbn [events_loop].
  - change (events_after after []) with (@nil AuditEvent). by rewrite take_nil, app_nil_r.
  - unfold events_after. rewrite filter_cons. destruct (Z.leb_spec (ev_Seq ev) after) as [Hle|Hgt].
    + rewrite decide_False by lia. by apply IH.
    + rewrite decide_True by lia. destruct (Z.eqb_spec (Z.of_nat (length out)) size) as [He|Hne].
      * assert (Z.to_nat size - length out = 0)%nat as -> by lia. simpl. by rewrite app_nil_r.
      * rewrite IH by (rewrite length_app; simpl; lia). unfold events_after. rewrite length_app. simpl.
        assert (Z.to_nat size - length out = Datatypes.S (Z.to_nat size - (length out + 1)))%nat as -> by lia. simpl.
        by rewrite <- app_assoc.
Qed.

Lemma filter_agree {A} (P Q : A → Prop) `{!∀ x, Decision (P x), !∀ x, Decision (Q x)} (l : list A) :
  (∀ x, x ∈ l → P x ↔ Q x) → filter P l = filter Q l.
Proof.
  induction l as [|x l IH]; intros Hpq; [done|]. rewrite !filter_cons, IH by (intros y Hy; apply Hpq; by right).
  destruct (Hpq x ltac:(by left)). destruct (decide (P x)), (decide (Q x)); tauto.
Qed.

Lemma events_after_drop after all k ev :
  in_sequence all → events_after after all !! k = Some ev →
  events_after (ev_Seq ev) all = drop (Datatypes.S k) (events_after after all).
Proof.
  intros Hs. revert k. induction Hs as [|x all Hs IH Hx]; intros k Hk; [done|]. rewrite Forall_forall in Hx.
  unfold events_after in *. rewrite !filter_cons. rewrite filter_cons in Hk. destruct (decide (after < ev_Seq x)%Z) as [Hlt|Hnlt].
  - destruct k as [|k]; simpl in Hk.
    + injection Hk as ->. rewrite decide_False by lia. simpl. rewrite drop_0.
      apply filter_agree. intros y Hy. specialize (Hx y Hy). lia.
    + assert (Hin : ev ∈ all) by (apply list_elem_of_lookup_2 in Hk; by apply list_elem_of_filter in Hk as [_ ?]).
      specialize (Hx ev Hin). rewrite decide_False by lia. simpl. by apply IH.
  - assert (Hin : ev ∈ all) by (apply list_elem_of_lookup_2 in Hk; by apply list_elem_of_filter in Hk as [_ ?]).
    specialize (Hx ev Hin). rewrite decide_False by lia. by apply IH.
Qed.

(** ** Properties *)

(** A client that reads the record page by page gets all of it. For a record
    in the order of its sequence numbers, which start at 1, asking again after
    the last number seen ends, and gives exactly the events after the number
    it started from, in order, whatever the limit. *)
Theorem events_pages_complete (all : list AuditEvent) (after limit : Z) :
  in_sequence all → Forall (λ ev, 1 <= ev_Seq ev)%Z all →
  read_events (length all) after limit all = Some (events_after after all).
Proof.
  intros Hs Hpos. pose proof (PageSize_bounds limit) as Hsize.
  assert (Hlen : (length (events_after after all) <= length all)%nat) by apply length_filter.
  revert after Hlen. induction (length all) as [n IH] using lt_wf_ind. intros after Hlen.
  pose proof (events_loop_spec after (PageSize limit) all [] ltac:(simpl; lia)) as Hp. cbn zeta in Hp. simpl in Hp.
  rewrite Nat.sub_0_r in Hp. set (L := events_after after all) in *.
  destruct (Nat.leb_spec (length L) (Z.to_nat (PageSize limit))) as [Hle|Hgt].
  { destruct n; cbn [read_events]; rewrite Hp; simpl; by rewrite take_ge. }
  destruct (lookup_lt_is_Some_2 L (Z.to_nat (PageSize limit) - 1)) as [x Hx]; [lia|].
  assert (Hlast : last (take (Z.to_nat (PageSize limit)) L) = Some x).
  { rewrite last_lookup, length_take, Nat.min_l by lia. rewrite lookup_take_lt by lia. by rewrite Nat.sub_1_r in Hx. }
  rewrite Hlast in Hp. simpl in Hp. destruct n as [|n]; [lia|]. cbn [read_events]. rewrite Hp.
  assert (Hin : x ∈ all) by (apply list_elem_of_lookup_2 in Hx; by apply list_elem_of_filter in Hx as [_ ?]).
  rewrite Forall_forall in Hpos. specialize (Hpos x Hin). rewrite (proj2 (Z.eqb_neq _ _)) by lia.
  pose proof (events_after_drop after all _ x Hs Hx) as Hd. fold L in Hd.
  assert (Hn : Datatypes.S (Z.to_nat (PageSize limit) - 1) = Z.to_nat (PageSize limit)) by lia. rewrite Hn in Hd.
  rewrite (IH n ltac:(lia) (ev_Seq x)); [|rewrite Hd, length_drop; lia]. by rewrite Hd, take_drop.
Qed.

Lemma events_pages_complete_witness :
  let ev n := MkEvent n 5 "alice" "start" "sbx_1" 1 OutcomeOK "" ∅ in
  read_events 3 1 1 [ev 1%Z; ev 2%Z; ev 3%Z] = Some [ev 2%Z; ev 3%Z].
Proof.
  intros ev. apply (events_pages_complete [ev 1%Z; ev 2%Z; ev 3%Z] 1 1).
  - repeat (constructor; [|by repeat constructor]). constructor.
  - repeat constructor; simpl; lia.
Defined.
