(* ===== verification/Operations.v ===== *)
(** What the operations that change a stored sandbox commit
    (controlplane/service.go: update, start, stop, delete): one general lemma
    about [mutate], and from it what each operation may have done, whatever
    the guard and the interceptor answer and whatever others do meanwhile. *)

From Stdlib Require Import ZArith NArith Ascii String Lia.
From stdpp Require Import base tactics list gmap strings relations.
From S2P Require Import Prelude GoStd Errors Labels Driver Lifecycle Etag Settings Store Memory World Mutate.
From S2P Require Import Admission Protocol Templates Service Exec Verbs Calls.

#[local] Open Scope string_scope.
#[local] Open Scope go_scope.

(** ** JSON text tells ASCII strings apart *)

Definition ascii_only (s : string) : bool := str_forall (λ c, (bv c <? 128)%N) s.

Lemma json_go_ascii s : ascii_only s = true → json_go 0 s = Some <$> bytes s.
Proof.
  unfold ascii_only. induction s as [|c s IH]; [done|]. simpl. intros [Hc Hs]%andb_true_iff.
  rewrite Hc. by rewrite IH.
Qed.

Lemma json_go_inv k s l : json_go k s = Some <$> l → bytes s = l.
Proof.
  revert k l. induction s as [|c s IH]; intros k l; cbn [json_go bytes]; [by destruct l|].
  destruct k as [|k]; [destruct (utf8_width (String c s)) as [|k]; [by destruct l|]|];
    (destruct l as [|x l]; simpl; [done|]; intros [= -> H]; f_equal; by eapply IH).
Qed.

Lemma bytes_inj s t : bytes s = bytes t → s = t.
Proof. revert t. induction s as [|c s IH]; intros [|d t]; simpl; try done. intros [= -> H]. f_equal. auto. Qed.

Lemma json_text_inj s t : ascii_only s = true → json_text s = json_text t → s = t.
Proof.
  intros Hs H. unfold json_text in H. rewrite (json_go_ascii s Hs) in H.
  symmetry in H. apply json_go_inv in H. by apply bytes_inj.
Qed.

Lemma ascii_only_ext (p : ascii → bool) s :
  (∀ c, p c = true → (bv c <? 128)%N = true) → str_forall p s = true → ascii_only s = true.
Proof.
  intros Hp. unfold ascii_only. induction s as [|c s IH]; simpl; [done|].
  intros [Hc Hs]%andb_true_iff. rewrite Hp by done. by apply IH.
Qed.

Lemma ascii_only_app a b : ascii_only (a ++ b) = ascii_only a && ascii_only b.
Proof. unfold ascii_only. induction a as [|c a IH]; simpl; [done|]. by rewrite IH, andb_assoc. Qed.

Lemma ValidID_ascii id : ValidID id = true → ascii_only id = true.
Proof.
  unfold ValidID. intros [[_ Hp]%andb_true_iff Hr]%andb_true_iff. apply String.eqb_eq in Hp.
  rewrite <- (str_take_drop (String.length idPrefix) id), ascii_only_app, Hp. simpl.
  eapply ascii_only_ext; [|exact Hr]. intros c. unfold in_range. rewrite orb_true_iff, !andb_true_iff, !N.leb_le, N.ltb_lt.
  unfold bv. simpl. lia.
Qed.

Lemma state_text_inj a b : Valid a = true → Valid b = true → json_text (state_text a) = json_text (state_text b) → a = b.
Proof. by destruct a, b. Qed.

(** ** Steps that leave the store alone *)

Section quiet.
Context {S E : Type} (env : Env S E).

Lemma quiet_ret {A} (a : A) : store_quiet (S:=S) (E:=E) (mreturn a).
Proof. done. Qed.
Lemma quiet_ext {A} (m : M E A) : store_quiet (S:=S) (ext m).
Proof. intros w. unfold ext. by destruct (m (w_ext w)). Qed.
Lemma quiet_emit e : store_quiet (S:=S) (E:=E) (emit e).
Proof. done. Qed.
Lemma quiet_shared : store_quiet (S:=S) (E:=E) shared.
Proof. done. Qed.
Lemma quiet_bind {A B} (m : M (World S E) A) (k : A → M (World S E) B) :
  store_quiet m → (∀ a, store_quiet (k a)) → store_quiet (mthen m k).
Proof. intros Hm Hk w. unfold mthen. specialize (Hm w). destruct (m w) as [a w1]; simpl in *. by rewrite Hk. Qed.

Lemma quiet_record ev : store_quiet (record env ev).
Proof.
  apply quiet_bind; [case_match; [apply quiet_ext|apply quiet_ret]|]. intros t.
  apply quiet_bind; [apply quiet_ext|]. intros e. apply quiet_bind; [apply quiet_emit|]. intros ?. apply quiet_ret.
Qed.
Lemma quiet_outcome ev err : store_quiet (outcome env ev err).
Proof. apply quiet_bind; [apply quiet_record|]. intros ?. apply quiet_ret. Qed.
Lemma quiet_owned id : store_quiet (owned env id).
Proof. unfold owned. destruct (c_owns env); [|apply quiet_ret]. apply quiet_bind; [apply quiet_ext|]. intros ?. apply quiet_ret. Qed.
Lemma quiet_Kick id : store_quiet (S:=S) (E:=E) (Kick id).
Proof. intros w. unfold Kick, mthen, emit, set_shared. simpl. case_match; by destruct (w_sh w). Qed.
Lemma quiet_release r : store_quiet (release env r).
Proof. destruct r; [|apply quiet_ret]. apply quiet_bind; [apply quiet_ext|]. intros ?. apply quiet_emit. Qed.
Lemma quiet_guardAdmit x a : store_quiet (guardAdmit env x a).
Proof.
  apply quiet_bind; [apply quiet_shared|]. intros sh. destruct (sh_guard sh).
  - apply quiet_bind; [apply quiet_ext|]. intros ans. apply quiet_bind; [apply quiet_emit|]. intros ?.
    destruct (ga_err ans); [|apply quiet_ret]. apply quiet_bind; [apply quiet_release|]. intros ?. apply quiet_ret.
  - apply quiet_bind; [apply quiet_emit|]. intros ?. apply quiet_ret.
Qed.
Lemma quiet_recordDecisions req ds : store_quiet (recordDecisions env req ds).
Proof.
  induction ds as [|d ds IH]; [apply quiet_ret|]. apply quiet_bind; [apply quiet_record|].
  intros [e|]; [apply quiet_ret|exact IH].
Qed.
Lemma quiet_admit req : store_quiet (svc_admit env req).
Proof.
  unfold svc_admit. destruct (c_interceptor env); [|apply quiet_ret].
  apply quiet_bind; [apply quiet_ext|]. intros [res err].
  apply quiet_bind; [apply quiet_recordDecisions|]. intros [e|]; [apply quiet_ret|].
  destruct err; [apply quiet_ret|]. destruct (checkAdmitted _ _ _ _); [|apply quiet_ret].
  apply quiet_bind; [apply quiet_recordDecisions|]. intros ?. apply quiet_ret.
Qed.
Lemma quiet_committed req out err : store_quiet (svc_committed env req out err).
Proof.
  unfold svc_committed. destruct (c_interceptor env); [|apply quiet_ret].
  apply quiet_bind; [apply quiet_ext|]. intros ds. apply quiet_bind; [apply quiet_recordDecisions|]. intros ?. apply quiet_ret.
Qed.
Lemma quiet_mutate_fn c id fn sb st : (∀ sb, store_quiet (fn sb)) → store_quiet (mutate_fn env c id fn sb st).
Proof.
  intros Hfn. unfold mutate_fn. destruct st as [iadm admitted]. destruct (negb _); [apply quiet_ret|].
  apply quiet_bind; [apply Hfn|]. intros [sb'|e]; [|apply quiet_ret].
  apply quiet_bind; [apply quiet_admit|]. intros [next|e]; apply quiet_ret.
Qed.
End quiet.

#[export] Hint Resolve quiet_ret quiet_ext quiet_emit quiet_shared quiet_record quiet_outcome quiet_owned quiet_Kick
  quiet_release quiet_guardAdmit quiet_recordDecisions quiet_admit quiet_committed : go.

(** ** What an interceptor may make of an object *)

Definition tightened {S E} (env : Env S E) (op : string) (inn out : Sandbox) : Prop :=
  match c_interceptor env with
  | None => out = inn
  | Some _ => admitted_change (c_settings env) op inn out
  end.

Lemma svc_admit_sound {S E} (env : Env S E) req w next :
  (svc_admit env req w).1 = Ok next → tightened env (ar_Operation req) (ar_Object req) next.
Proof.
  unfold svc_admit, tightened. destruct (c_interceptor env) as [ic|]; [|by intros [= <-]].
  unfold mthen. destruct (ext (in_Admit ic req) w) as [[res err] w1].
  destruct (recordDecisions env req (res_Decisions res) w1) as [[e|] w2]; [done|].
  destruct err; [done|]. destruct (checkAdmitted _ _ _ _) eqn:Hc.
  - destruct (recordDecisions env req _ w2). discriminate.
  - intros [= <-]. by apply checkAdmitted_None.
Qed.

Lemma tightened_fields {S E} (env : Env S E) op inn out :
  tightened env op inn out → ValidID (ID inn) = true →
  ID out = ID inn ∧ Generation out = Generation inn ∧ Restarts out = Restarts inn ∧ NextRestart out = NextRestart inn ∧
  (Valid (State inn) = true → Valid (State out) = true → State out = State inn) ∧
  (∀ k, HasPrefix k ReservedPrefix = true → map_get (Labels out) k = map_get (Labels inn) k).
Proof.
  unfold tightened. destruct (c_interceptor env); [|by intros ->].
  intros (Hj & _ & Hl & _) Hid. unfold json_rest in Hj. injection Hj as Hi Hg _ _ _ _ Hs _ _ _ Hr Hn _ _.
  split_and!; [|congruence..| |done].
  - symmetry. by apply json_text_inj; [apply ValidID_ascii|].
  - intros Hv1 Hv2. symmetry. by apply state_text_inj.
Qed.

(** An interceptor only tightens. Whatever it answers, an object that [admit]
    lets through differs from the one proposed in labels and settings only: the
    id, generation, state and restart bookkeeping are the same, no reserved
    label reads differently, the labels fit the label rules, the settings fit
    the registry and none is looser than before; and for an exec nothing
    differs at all. With no interceptor the object is the one proposed. *)
Theorem interceptor_only_tightens {S E} (env : Env S E) (req : AdmissionRequest) (next : Sandbox) (w w' : World S E) :
  svc_admit env req w = (Ok next, w') → ValidID (ID (ar_Object req)) = true →
  let inn := ar_Object req in
  ID next = ID inn ∧ Generation next = Generation inn ∧
  Restarts next = Restarts inn ∧ NextRestart next = NextRestart inn ∧
  (Valid (State inn) = true → Valid (State next) = true → State next = State inn) ∧
  (∀ k, HasPrefix k ReservedPrefix = true → map_get (Labels next) k = map_get (Labels inn) k) ∧
  (c_interceptor env = None → next = inn) ∧
  (c_interceptor env ≠ None →
     labels_ok true (Labels next) ∧ CheckSettings (c_settings env) (Lifecycle.Settings next) = None ∧
     NoLooser (c_settings env) (Lifecycle.Settings inn) (Lifecycle.Settings next) = None ∧
     (ar_Operation req = OpExec → Labels next = Labels inn ∧ Lifecycle.Settings next = Lifecycle.Settings inn)).
Proof.
  intros Hrun Hid inn. pose proof (svc_admit_sound env req w next) as Ht. rewrite Hrun in Ht. specialize (Ht eq_refl).
  destruct (tightened_fields _ _ _ _ Ht Hid) as (H1 & H2 & H3 & H4 & H5 & H6).
  do 6 (split; [assumption|]). unfold tightened in Ht. destruct (c_interceptor env) as [ic|].
  - split; [discriminate|]. intros _. destruct Ht as (_ & Hx & _ & Hl & Hs & Hn). do 3 (split; [assumption|]).
    intros Hop. destruct (Hx Hop) as [Hxl Hxs]. by split.
  - split; [intros _; exact Ht|]. intros Hne. by destruct Hne.
Qed.

(** An interceptor that adds a label and asks for a stronger tier. *)
Definition patched_sandbox : Sandbox :=
  with_settings (with_labels demo_sandbox {["team" := "a"; "checked" := "yes"]}) {[SetMinTier := "vm"]}.
Definition patching : Interceptor unit :=
  {| in_Admit := λ _, mreturn ({| res_Object := patched_sandbox; res_Decisions := [] |}, None);
     in_Committed := λ _ _ _, mreturn [] |}.
Definition patching_env : Env Memory unit :=
  match demo_env with
  | MkEnv dr st dd wk rw wp eg rd _ ow nd nw rn ap au sha rl dn oth =>
      MkEnv dr st dd wk rw wp eg rd (Some patching) ow nd nw rn ap au sha rl dn oth
  end.
Definition patch_request : AdmissionRequest :=
  MkAdmReq OpUpdate (MkCaller "alice" false ∅) (ID demo_sandbox) (Some demo_sandbox) demo_sandbox "" false "" [].

Lemma interceptor_only_tightens_witness :
  (svc_admit patching_env patch_request demo_world).1 = Ok patched_sandbox ∧ Generation patched_sandbox = 3%Z.
Proof.
  assert (Hrun : svc_admit patching_env patch_request demo_world =
    (Ok patched_sandbox, (svc_admit patching_env patch_request demo_world).2)) by (vm_compute; reflexivity).
  split; [rewrite Hrun; reflexivity|].
  apply (interceptor_only_tightens patching_env patch_request patched_sandbox demo_world _ Hrun). reflexivity.
Defined.

(** One exception to "reserved labels do not change": one whose value is empty
    may be dropped, since its absence reads the same. *)
Lemma empty_reserved_label_may_go :
  let inn := with_labels demo_sandbox {["abhed.dev/session" := ""]} in
  let out := with_labels demo_sandbox ∅ in
  HasPrefix "abhed.dev/session" ReservedPrefix = true ∧
  checkAdmitted capped_settings OpUpdate inn out = None ∧ Labels out ≠ Labels inn.
Proof. split_and!; [reflexivity|vm_compute; reflexivity|discriminate]. Qed.

(** ** What [mutate] commits *)

(** The object [cur] stored under [id] when the write happened, which the
    caller may act on; [mid], what [fn] made of it; [next], what the
    interceptor made of that; and the write of [next]. *)
Definition changed {S E} `{!Store S, !StoreLaws S} (env : Env S E) (c : Caller) (id ifMatch op : string)
    (fn : Sandbox → M (World S E) (result Sandbox)) (out : Sandbox) (s' : S) (cur next mid : Sandbox) : Prop :=
  may c cur = true ∧ CheckIfMatch ifMatch (ResourceVersion cur) = None ∧
  (∃ w1, (fn cur w1).1 = Ok mid) ∧ tightened env op mid next ∧
  CheckImmutable cur next = None ∧ Valid (State next) = true ∧ Valid (State cur) = true ∧ ValidID id = true ∧ ID cur = id ∧
  out = with_version next (ResourceVersion out) ∧
  ∃ s, st_ok s ∧ view s !! id = Some cur ∧ (top s < ResourceVersion out)%Z ∧ view s' = <[id := out]> (view s).

Section changes.
Context {S E : Type} `{!Store S, !StoreLaws S} (env : Env S E) (B : nat).
Hypothesis Hothers : fair_others env B.
Abbreviation W := (World S E).
Abbreviation store_of w := (sh_store (w_sh w)).

Lemma mutate_fn_Ok c id fn sb st w next st' :
  (mutate_fn env c id fn sb st w).1 = (Ok next, st') →
  may c sb = true ∧ ∃ mid w1, (fn sb w1).1 = Ok mid ∧ tightened env (ar_Operation st.1) mid next.
Proof.
  unfold mutate_fn. destruct st as [iadm admitted]. destruct (may c sb); simpl; [|done].
  unfold mthen at 1. destruct (fn sb w) as [[mid|e] w1] eqn:Ef; [|done]. unfold mthen at 1.
  destruct (svc_admit env _ w1) as [[nx|e] w2] eqn:Ea; [|done]. simpl. intros [= <- _]. split; [done|].
  exists mid, w. rewrite Ef. split; [done|].
  match type of Ea with svc_admit _ ?req _ = _ => apply (svc_admit_sound env req w1 nx) end. by rewrite Ea.
Qed.

(** The admission request the function passes along keeps its operation. *)
Lemma mutate_fn_op c id fn sb st w :
  ar_Operation (mutate_fn env c id fn sb st w).1.2.1 = ar_Operation st.1.
Proof.
  unfold mutate_fn. destruct st as [iadm admitted]. destruct (negb _); [done|].
  unfold mthen at 1. destruct (fn sb w) as [[mid|e] w1]; [|done]. unfold mthen at 1.
  destruct (svc_admit env _ w1) as [[nx|e] w2]; done.
Qed.

(** Predicates of the store, and the steps that keep them. *)
Definition on (P : S → Prop) (w : W) : Prop := P (store_of w).

Lemma quiet_triple {A} (P : S → Prop) (m : M W A) : store_quiet m → triple (on P) m (λ _, on P).
Proof. intros H w Hw. unfold on in *. by rewrite H. Qed.

(** A quiet step, with what its result says. *)
Lemma quiet_triple_pure {A} (P : S → Prop) (m : M W A) (φ : A → Prop) :
  store_quiet m → (∀ w, φ (m w).1) → triple (on P) m (λ a w, φ a ∧ on P w).
Proof. intros H Hp w Hw. split; [apply Hp|]. unfold on in *. by rewrite H. Qed.

Lemma triple_True {A} (P : W → Prop) (m : M W A) (Q : A → W → Prop) : (∀ a w, Q a w) → triple P m Q.
Proof. intros H w _. apply H. Qed.

Definition has_room (k : nat) (s : S) : Prop := st_ok s ∧ (top s + Z.of_nat k <= int64_max)%Z.

Lemma svc_Get_triple c id k :
  triple (on (has_room (B + (1 + k)))) (svc_Get env c id) (λ r w, match r with Ok _ => on (has_room k) w | Fail _ => True end).
Proof.
  intros w Hroom. unfold svc_Get, mthen. destruct (on_store env (st_Get id) w) as [r0 w0] eqn:E0.
  destruct (read_run env B Hothers k id w r0 w0 Hroom E0) as (Hok & _ & Hr & _).
  destruct r0 as [cur|e]; simpl; [|done]. by destruct (negb (may c cur)).
Qed.

(** What [Mutate] with [mutate_fn] leaves. *)
Lemma mutate_changed_triple c id ifMatch op fn st0 :
  (∀ sb, store_quiet (fn sb)) → (∀ sb w mid, (fn sb w).1 = Ok mid → ID mid = ID sb) →
  ar_Operation st0.1 = op →
  triple (on (has_room ((2 * B + 2) * 6))) (Mutate env id ifMatch (mutate_fn env c id fn) st0)
    (λ r w, match r.1 with
            | Ok out => ∃ cur next mid, changed env c id ifMatch op fn out (store_of w) cur next mid
            | Fail _ => True end).
Proof.
  intros Hq Hkeep Hop w Hroom.
  destruct (Mutate env id ifMatch (mutate_fn env c id fn) st0 w) as [[[out|e] st'] w'] eqn:Em; [|done]. simpl.
  pose (I := λ st : AdmissionRequest * bool, ar_Operation st.1 = op).
  assert (HI : ∀ sb st w, I st → I (mutate_fn env c id fn sb st w).1.2)
    by (intros sb st w1 Hst; unfold I; rewrite mutate_fn_op; exact Hst).
  assert (HQ : ∀ sb st, store_quiet (mutate_fn env c id fn sb st)) by (intros; by apply quiet_mutate_fn).
  assert (HK : ∀ sb st w next st', ValidID (ID sb) = true → (mutate_fn env c id fn sb st w).1 = (Ok next, st') →
            ID next = ID sb).
  { intros sb st w1 next st1 Hid Hn. apply mutate_fn_Ok in Hn as (_ & mid & w2 & Hm & Ht).
    apply Hkeep in Hm. rewrite <- Hm in Hid |- *. by destruct (tightened_fields _ _ _ _ Ht Hid). }
  destruct (mutate_loop_commits env B Hothers I (mutate_fn env c id fn) HI HQ HK _ _ _ _ _ _ _ _ Hop Hroom Em)
    as (cur & next & a1 & w1 & s & Ha & Hfn & Hif & Him & Hval & Hout & Hok & Hcur & Htop & Hview).
  apply mutate_fn_Ok in Hfn as (Hmay & mid & w2 & Hm & Ht). unfold I in Ha. rewrite Ha in Ht. exists cur, next, mid.
  destruct (view_valid s id cur Hok Hcur) as [Hvid Hvs]. pose proof (view_id s id cur Hok Hcur) as Hci.
  unfold changed. split_and!; eauto 10.
Qed.

Lemma svc_mutate_triple x c id ifMatch action detail grace fn :
  (∀ sb, store_quiet (fn sb)) → (∀ sb w mid, (fn sb w).1 = Ok mid → ID mid = ID sb) →
  triple (on (has_room (B + (1 + (2 * B + 2) * 6)))) (svc_mutate env x c id ifMatch action detail grace fn)
    (λ r w, match r with
            | Ok out => ∃ cur next mid, changed env c id ifMatch action fn out (store_of w) cur next mid
            | Fail _ => True end).
Proof.
  intros Hq Hkeep. unfold svc_mutate, mthen_ok.
  eapply triple_bind; [apply svc_Get_triple|]. intros [cur|e]; [|by apply triple_ret].
  destruct (CheckIfMatch _ _); [by apply triple_ret|].
  eapply triple_bind; [apply quiet_triple, quiet_owned|]. intros [e|]; [by apply triple_ret|]. cbn beta.
  eapply triple_bind; [apply quiet_triple, quiet_record|]. intros [e|]; [by apply triple_ret|]. cbn beta.
  eapply triple_bind.
  { apply quiet_triple. destruct (String.eqb action OpUpdate); [|apply quiet_ret].
    apply quiet_bind; [apply Hq|]. intros ?. apply quiet_ret. }
  intros [next|e]; cbn beta.
  2: { eapply triple_bind; [apply quiet_triple, quiet_outcome|]. intros ?. by apply triple_ret. }
  eapply triple_bind; [apply quiet_triple, quiet_guardAdmit|]. intros [[rel nx]|e]; cbn beta.
  2: { eapply triple_bind; [apply quiet_triple, quiet_outcome|]. intros ?. by apply triple_ret. }
  eapply triple_bind; [by apply mutate_changed_triple|]. intros [[out|e] [iadm admitted]]; cbn [fst].
  2: { eapply triple_bind; [by apply (triple_True _ _ (λ _ _, True))|]. intros ?. cbn beta.
       eapply triple_bind; [by apply (triple_True _ _ (λ _ _, True))|]. intros ?. cbn beta.
       eapply triple_bind; [by apply (triple_True _ _ (λ _ _, True))|]. intros ?. by apply triple_ret. }
  eapply triple_bind; [apply (quiet_triple (λ s, ∃ cur next mid, changed env c id ifMatch action fn out s cur next mid)), quiet_outcome|].
  intros ?. cbn beta. eapply triple_bind.
  { apply quiet_triple. destruct admitted; [apply quiet_committed|apply quiet_ret]. }
  intros ?. cbn beta. eapply triple_bind; [apply quiet_triple, quiet_release|]. intros ?. by apply triple_ret.
Qed.
End changes.

(** ** The changes a client makes, and their specification *)

Inductive change : Type := ChUpdate (p : Patch) | ChStart | ChStop (grace : Z) | ChDelete.

Definition change_op (ch : change) : string :=
  match ch with ChUpdate _ => OpUpdate | ChStart => OpStart | ChStop _ => OpStop | ChDelete => OpDelete end.

(** What a change is meant to make of an object, at time [now]. *)
Definition spec_change {S E} (env : Env S E) (ch : change) (cur : Sandbox) (now : Z) : result Sandbox :=
  match ch with
  | ChUpdate p => apply_patch env p cur now
  | ChStart => let? s := Transition cur StateStarting now in Ok (with_restarts s 0 None)
  | ChStop _ => Transition cur StateStopping now
  | ChDelete => Transition cur StateDeleting now
  end%go.

Definition run_change {S E} `{!Store S} (env : Env S E) (x : Ctx) (c : Caller) (id ifMatch : string) (ch : change)
    : M (World S E) (result Sandbox) :=
  match ch with
  | ChUpdate p => svc_Update env x c id ifMatch p
  | ChStart => svc_Start env x c id ifMatch
  | ChStop grace => svc_Stop env x c id ifMatch grace
  | ChDelete => svc_Delete env x c id ifMatch
  end.

Lemma with_restarts_fields s r n :
  ID (with_restarts s r n) = ID s ∧ State (with_restarts s r n) = State s ∧ Restarts (with_restarts s r n) = r ∧
  NextRestart (with_restarts s r n) = n ∧ Generation (with_restarts s r n) = Generation s ∧
  Labels (with_restarts s r n) = Labels s.
Proof. by destruct s. Qed.

Lemma with_state_fields s g st t :
  ID (with_state s g st t) = ID s ∧ State (with_state s g st t) = st ∧ Generation (with_state s g st t) = g ∧
  Labels (with_state s g st t) = Labels s.
Proof. by destruct s. Qed.

Lemma apply_patch_fields {S E} (env : Env S E) p sb t mid :
  apply_patch env p sb t = Ok mid →
  ID mid = ID sb ∧ State mid = State sb ∧ State sb ≠ StateDeleting ∧
  labels_ok true (Labels mid) ∧ CheckSettings (c_settings env) (Settings mid) = None ∧
  (∀ k, HasPrefix k ReservedPrefix = true → default ∅ (pt_Labels p) !! k = None) ∧
  Labels mid = maps_copy (patch_removes (default ∅ (pt_Labels p))
                 (if pt_ClearLabels p then reserved_keys (Labels sb) else Labels sb)) (patch_sets (default ∅ (pt_Labels p))) ∧
  Settings mid = maps_copy (patch_removes (default ∅ (pt_Settings p)) (if pt_ClearSettings p then ∅ else Settings sb))
                   (patch_sets (default ∅ (pt_Settings p))) ∧
  Generation mid = match pt_Template p with
                   | Some n => if String.eqb n (Template sb) then Generation sb else wrap64 (Generation sb + 1)
                   | None => Generation sb end.
Proof.
  unfold apply_patch. case_bool_decide as Hdel; [discriminate|].
  destruct (first_error _ _) eqn:Hres; [discriminate|].
  destruct (ValidateLabels (patch_sets _) false); [discriminate|].
  destruct (ValidateLabels _ true) eqn:Hlab; [discriminate|]. destruct (CheckSettings _ _) eqn:Hset; [discriminate|].
  destruct (match pt_Template p with Some n => SetTemplate sb n | None => Ok sb end) as [s1|] eqn:Ht; [|discriminate].
  intros [= <-]. apply ValidateLabels_None in Hlab.
  pose proof (proj1 (first_error_map_None (λ '(k, _), fail_if (HasPrefix k ReservedPrefix) _) _) Hres) as Hres'.
  assert (Hs1 : ID s1 = ID sb ∧ State s1 = State sb ∧ Generation s1 = match pt_Template p with
             | Some n => if String.eqb n (Template sb) then Generation sb else wrap64 (Generation sb + 1)
             | None => Generation sb end).
  { destruct (pt_Template p) as [n|]; [|by injection Ht as <-]. unfold SetTemplate in Ht.
    destruct (validTemplate n); [discriminate|]. injection Ht as <-.
    destruct (String.eqb n (Template sb)); by destruct sb. }
  destruct Hs1 as (Hi & Hst & Hg). rewrite <- Hi, <- Hst, <- Hg. rewrite <- Hst in Hdel. split_and!; try (by destruct s1).
  intros k Hk. destruct (default ∅ (pt_Labels p) !! k) as [v|] eqn:E1; [|reflexivity].
  specialize (Hres' k v E1). cbn beta iota in Hres'. rewrite Hk in Hres'. discriminate.
Qed.

(** A specified change keeps the id and leaves a known state. *)
Lemma spec_change_fields {S E} (env : Env S E) ch cur t mid :
  spec_change env ch cur t = Ok mid → ID mid = ID cur ∧ (Valid (State cur) = true → Valid (State mid) = true).
Proof.
  destruct ch as [p| |g|]; cbn [spec_change]; intros H.
  - apply apply_patch_fields in H as (Hi & -> & _). done.
  - destruct (Transition cur StateStarting t) as [s|] eqn:E1; [|discriminate]. injection H as <-.
    apply Transition_Ok in E1 as (_ & Hs & _ & _ & He). destruct (with_restarts_fields s 0 None) as (-> & -> & _).
    rewrite Hs. split; [rewrite He; by destruct cur|done].
  - apply Transition_Ok in H as (_ & Hs & _ & _ & He). rewrite Hs. split; [rewrite He; by destruct cur|done].
  - apply Transition_Ok in H as (_ & Hs & _ & _ & He). rewrite Hs. split; [rewrite He; by destruct cur|done].
Qed.

Section refinement.
Context {S E : Type} `{!Store S, !StoreLaws S} (env : Env S E) (B : nat).
Hypothesis Hothers : fair_others env B.
Abbreviation W := (World S E).
Abbreviation store_of w := (sh_store (w_sh w)).

(** The function each operation puts to [mutate]. *)
Definition change_fn (ch : change) (sb : Sandbox) : M W (result Sandbox) :=
  match ch with
  | ChUpdate p => let! at_ := now env in mreturn (apply_patch env p sb at_)
  | ChStart => start_change env sb
  | ChStop _ => move_to env StateStopping sb
  | ChDelete => move_to env StateDeleting sb
  end.

Lemma change_fn_quiet ch sb : store_quiet (change_fn ch sb).
Proof. destruct ch; (apply quiet_bind; [apply quiet_ext|intros ?; apply quiet_ret]). Qed.

Lemma change_fn_spec ch sb w mid :
  (change_fn ch sb w).1 = Ok mid → ∃ t, spec_change env ch sb t = Ok mid.
Proof.
  destruct ch as [p| |g|]; cbn [change_fn spec_change]; unfold start_change, move_to, mthen;
    destruct (now env w) as [t w1]; simpl; intros H; exists t; done.
Qed.

(** What a change committed. *)
Definition change_done (ch : change) (c : Caller) (id ifMatch : string) (out : Sandbox) (s' : S) : Prop :=
  ∃ s cur mid t,
    view s !! id = Some cur ∧ view s' = <[id := out]> (view s) ∧ (top s < ResourceVersion out)%Z ∧
    may c cur = true ∧ CheckIfMatch ifMatch (ResourceVersion cur) = None ∧
    spec_change env ch cur t = Ok mid ∧
    State out = State mid ∧ Generation out = Generation mid ∧ Restarts out = Restarts mid ∧
    ID out = id ∧ Owner out = Owner cur ∧ DriverName out = DriverName cur ∧ CreatedAt out = CreatedAt cur ∧
    (∀ k, HasPrefix k ReservedPrefix = true → map_get (Labels out) k = map_get (Labels mid) k) ∧
    (c_interceptor env = None → out = with_version mid (ResourceVersion out)).

Lemma changed_done ch c id ifMatch out s' cur next mid :
  changed env c id ifMatch (change_op ch) (change_fn ch) out s' cur next mid →
  change_done ch c id ifMatch out s'.
Proof.
  intros (Hmay & Hif & [w1 Hfn] & Ht & Him & Hvn & Hvc & Hid & Hci & Hout & s & Hok & Hcur & Htop & Hview).
  apply change_fn_spec in Hfn as [t Hspec]. destruct (spec_change_fields env ch cur t mid Hspec) as [Hmid Hvm].
  apply CheckImmutable_None in Him as (Ho & Hd & Hc & _).
  destruct (tightened_fields _ _ _ _ Ht) as (Hi & Hg & Hr & _ & Hst & Hl); [congruence|].
  pose proof (with_version_fields next (ResourceVersion out)) as (Hv1 & Hv2 & _). rewrite <- Hout in Hv1, Hv2.
  assert (Hf : Generation out = Generation next ∧ Restarts out = Restarts next ∧ Owner out = Owner next ∧
    DriverName out = DriverName next ∧ CreatedAt out = CreatedAt next ∧ Labels out = Labels next)
    by (rewrite Hout; by destruct next).
  destruct Hf as (Hf1 & Hf2 & Hf3 & Hf4 & Hf5 & Hf6).
  exists s, cur, mid, t. rewrite Hv1, Hv2, Hf1, Hf2, Hf3, Hf4, Hf5, Hf6. split_and!; try congruence; try done.
  - by apply Hst; [apply Hvm|].
  - intros Hnone. unfold tightened in Ht. rewrite Hnone in Ht. by rewrite Ht in Hout.
Qed.

Lemma run_change_triple x c id ifMatch ch :
  triple (on (has_room (2 * (B + 1) + (2 * B + 2) * 6))) (run_change env x c id ifMatch ch)
    (λ r w, match r with
            | Ok out => change_done ch c id ifMatch out (store_of w) ∨
                (ch = ChDelete ∧ State out = StateDeleting ∧ may c out = true)
            | Fail _ => True end).
Proof.
  assert (Hless : ∀ k k' (w : W), (k ≤ k')%nat → on (has_room k') w → on (has_room k) w)
    by (intros k k' w Hk [? ?]; split; [done|lia]).
  assert (Hm : ∀ ch x detail grace, triple (on (has_room (2 * (B + 1) + (2 * B + 2) * 6)))
            (svc_mutate env x c id ifMatch (change_op ch) detail grace (change_fn ch))
            (λ r w, match r with Ok out => change_done ch c id ifMatch out (store_of w) | Fail _ => True end)).
  { intros ch' x' detail grace. eapply triple_conseq.
    - apply (svc_mutate_triple env B Hothers); [apply change_fn_quiet|].
      intros sb w mid [t Hs]%change_fn_spec. by destruct (spec_change_fields env ch' sb t mid Hs).
    - intros w. apply Hless. lia.
    - intros [out|e] w; [|done]. intros (cur & next & mid & Hc). by eapply changed_done. }
  destruct ch as [p| |grace|]; cbn [run_change].
  - eapply triple_conseq; [apply (Hm (ChUpdate p))|done|]. intros [out|e] w; [by left|done].
  - eapply triple_bind; [apply (Hm ChStart)|]. intros [out|e]; [|by apply triple_ret].
    eapply triple_bind; [apply (quiet_triple (λ s, change_done ChStart c id ifMatch out s)), quiet_Kick|].
    intros ?. apply triple_ret. intros w Hw. by left.
  - unfold svc_Stop. destruct (_ || _); [by apply triple_ret|].
    eapply triple_bind; [apply (Hm (ChStop grace))|]. intros [out|e]; [|by apply triple_ret].
    eapply triple_bind; [apply (quiet_triple (λ s, change_done (ChStop grace) c id ifMatch out s))|].
    { intros w. by destruct w as [[] ? ?]. }
    intros ?. cbn beta. eapply triple_bind; [apply (quiet_triple (λ s, change_done (ChStop grace) c id ifMatch out s)), quiet_Kick|].
    intros ?. apply triple_ret. intros w Hw. by left.
  - unfold svc_Delete.
    eapply (triple_bind _ _ _ (λ r w, match r with Ok sb => on (has_room (B + (1 + (2 * B + 2) * 6))) w ∧ may c sb = true | Fail _ => True end)).
    { intros w Hw. pose proof (svc_Get_triple env B Hothers c id (B + (1 + (2 * B + 2) * 6)) w) as Hg.
      specialize (Hg ltac:(eapply Hless; [|exact Hw]; lia)). unfold svc_Get, mthen in *.
      destruct (on_store env (st_Get id) w) as [[cur|e] w0]; simpl in *; [|done].
      destruct (may c cur) eqn:Hmay; simpl in *; done. }
    intros [cur|e]; [|by apply triple_ret]. case_bool_decide as Hdel.
    + destruct (CheckIfMatch _ _); [by apply triple_ret|].
      intros w [_ Hmay]. right. done.
    + apply triple_conseq with (P' := on (has_room (B + (1 + (2 * B + 2) * 6)))) (Q' := λ r w,
        match r with Ok out => change_done ChDelete c id ifMatch out (store_of w) | Fail _ => True end).
      * eapply triple_bind; [eapply triple_conseq; [apply (svc_mutate_triple env B Hothers) with (fn := change_fn ChDelete); [apply change_fn_quiet|]|done|]|].
        -- intros sb w mid [t Hs]%change_fn_spec. by destruct (spec_change_fields env ChDelete sb t mid Hs).
        -- intros r w Hr. exact Hr.
        -- intros [out|e]; [|by apply triple_ret].
           eapply triple_bind; [apply (quiet_triple (λ s, ∃ cur next mid, changed env c id ifMatch OpDelete (change_fn ChDelete) out s cur next mid)), quiet_Kick|].
           intros ?. apply triple_ret. intros w (cur' & next & mid & Hc). by eapply changed_done.
      * by intros w [? _].
      * intros [out|e] w; [by left|done].
Qed.
End refinement.

(** ** What a merge patch does, key by key *)

Lemma patch_lookup (p : gmap string (option string)) (m : strmap) k :
  maps_copy (patch_removes p m) (patch_sets p) !! k = match p !! k with Some o => o | None => m !! k end.
Proof.
  unfold maps_copy, patch_removes, patch_sets. rewrite lookup_union, lookup_omap.
  destruct (p !! k) as [[v|]|] eqn:Hp; simpl.
  - by rewrite union_Some_l.
  - rewrite (left_id_L None union). apply map_lookup_filter_None. right. intros x Hx Hne. simpl in Hne. congruence.
  - rewrite (left_id_L None union). destruct (m !! k) as [v|] eqn:Hm.
    + apply map_lookup_filter_Some. split; [done|]. simpl. congruence.
    + apply map_lookup_filter_None. by left.
Qed.

Lemma reserved_keys_lookup m k :
  reserved_keys m !! k = if HasPrefix k ReservedPrefix then m !! k else None.
Proof.
  unfold reserved_keys. destruct (HasPrefix k ReservedPrefix) eqn:Hp.
  - destruct (m !! k) eqn:Hm.
    + by apply map_lookup_filter_Some.
    + apply map_lookup_filter_None. by left.
  - apply map_lookup_filter_None. right. intros x _. simpl. by rewrite Hp.
Qed.

(** Every specified change leaves the reserved labels as they are. *)
Lemma spec_change_reserved {S E} (env : Env S E) ch cur t mid k :
  spec_change env ch cur t = Ok mid → HasPrefix k ReservedPrefix = true → Labels mid !! k = Labels cur !! k.
Proof.
  destruct ch as [p| |g|]; cbn [spec_change]; intros H Hk.
  - apply apply_patch_fields in H as (_ & _ & _ & _ & _ & Hn & -> & _). rewrite patch_lookup, (Hn k Hk).
    destruct (pt_ClearLabels p); [|done]. by rewrite reserved_keys_lookup, Hk.
  - destruct (Transition cur StateStarting t) as [s|] eqn:E1; [|discriminate]. injection H as <-.
    apply Transition_Ok in E1 as (_ & _ & _ & _ & He). rewrite He. by destruct cur.
  - apply Transition_Ok in H as (_ & _ & _ & _ & ->). by destruct cur.
  - apply Transition_Ok in H as (_ & _ & _ & _ & ->). by destruct cur.
Qed.

Lemma scoped_map_get scope l l' :
  (∀ k v, scope !! k = Some v → map_get l' k = map_get l k) → scoped scope l = true → scoped scope l' = true.
Proof.
  rewrite !scoped_spec. intros Hsame Hs k v Hk. destruct (Hs k v Hk) as [Hne Hl]. split; [done|].
  specialize (Hsame k v Hk). unfold map_get in Hsame. rewrite Hl in Hsame. simpl in Hsame.
  destruct (l' !! k); simpl in Hsame; congruence.
Qed.

Lemma checkScope_reserved scope k v :
  checkScope scope = None → scope !! k = Some v → HasPrefix k ReservedPrefix = true.
Proof.
  unfold checkScope. rewrite and_then_None. intros [H _] Hk.
  pose proof (proj1 (first_error_map_None (λ '(k, v), fail_if (negb (HasPrefix k ReservedPrefix) || negb (str_nonempty v)) _) _) H k v Hk) as H1.
  cbn beta iota in H1. apply fail_if_None in H1. by bool_to_prop.
Qed.

(** ** Properties *)

(** C9: The operations do what they are specified to do, atomically. When an
    update, start, stop or delete succeeds, there was an instant at which the
    store held an object [cur] under the id that the caller may act on and
    whose version its If-Match allows; the object now stored is [spec_change]
    of exactly that object in state, generation and restart count, under a new
    version; nothing else in the store changed; its owner, driver and creation
    time are those of [cur]; and unless an interceptor is installed (which may
    tighten settings and change unreserved labels) it is [spec_change] of it
    in every field. This holds whatever the guard and the interceptor answer
    and whatever other clients do in between. A delete of an object already
    being deleted returns it. *)
Theorem change_refines_spec {S E : Type} `{!Store S, !StoreLaws S} (env : Env S E) (B : nat) (x : Ctx) (c : Caller)
    (id ifMatch : string) (ch : change) (w w' : World S E) (out : Sandbox) :
  fair_others env B → room (2 * (B + 1) + (2 * B + 2) * 6) w →
  run_change env x c id ifMatch ch w = (Ok out, w') →
  change_done env ch c id ifMatch out (sh_store (w_sh w')) ∨
  (ch = ChDelete ∧ State out = StateDeleting ∧ may c out = true).
Proof.
  intros Ho Hr Hrun. pose proof (run_change_triple env B Ho x c id ifMatch ch w Hr) as H. by rewrite Hrun in H.
Qed.

Lemma change_refines_spec_witness :
  let w := demo_world in
  let c := MkCaller "alice" false ∅ in
  let out := with_version (with_restarts (with_state demo_sandbox 4 StateStarting 100) 0 None) 8 in
  (run_change demo_env Background c (ID demo_sandbox) (ETag 7) ChStart w).1 = Ok out ∧
  change_done demo_env ChStart c (ID demo_sandbox) (ETag 7) out
    (sh_store (w_sh (run_change demo_env Background c (ID demo_sandbox) (ETag 7) ChStart w).2)).
Proof.
  intros w c out.
  assert (Hrun : run_change demo_env Background c (ID demo_sandbox) (ETag 7) ChStart w =
    (Ok out, (run_change demo_env Background c (ID demo_sandbox) (ETag 7) ChStart w).2)) by (vm_compute; reflexivity).
  split; [by rewrite Hrun|].
  destruct (change_refines_spec demo_env 0 Background c (ID demo_sandbox) (ETag 7) ChStart w
              (run_change demo_env Background c (ID demo_sandbox) (ETag 7) ChStart w).2 out)
    as [H|[H _]]; [apply calm_fair| |exact Hrun|exact H|discriminate H].
  split; [apply one_sandbox_ok; [reflexivity|reflexivity|by vm_compute]|by vm_compute].
Defined.

(** No change moves a sandbox out of its caller's reach, or into a scope. For
    a caller whose scope is one the control plane accepts, what an update,
    start, stop or delete leaves stored carries every reserved label exactly
    as it was, and the caller may still act on it, even when an interceptor
    rewrote its labels. *)
Theorem change_keeps_scope {S E : Type} `{!Store S, !StoreLaws S} (env : Env S E) (B : nat) (x : Ctx) (c : Caller)
    (id ifMatch : string) (ch : change) (w w' : World S E) (out : Sandbox) :
  fair_others env B → room (2 * (B + 1) + (2 * B + 2) * 6) w →
  checkScope (Scope c) = None →
  run_change env x c id ifMatch ch w = (Ok out, w') →
  may c out = true ∧
  (change_done env ch c id ifMatch out (sh_store (w_sh w')) →
   ∃ s cur, view s !! id = Some cur ∧ may c cur = true ∧
     ∀ k, HasPrefix k ReservedPrefix = true → map_get (Labels out) k = map_get (Labels cur) k).
Proof.
  intros Ho Hr Hsc Hrun. pose proof (run_change_triple env B Ho x c id ifMatch ch w Hr) as H. rewrite Hrun in H.
  cbn beta iota in H.
  assert (Hkey : change_done env ch c id ifMatch out (sh_store (w_sh w')) →
    ∃ s cur, view s !! id = Some cur ∧ may c cur = true ∧ Owner out = Owner cur ∧
     ∀ k, HasPrefix k ReservedPrefix = true → map_get (Labels out) k = map_get (Labels cur) k).
  { intros (s & cur & mid & t & Hcur & _ & _ & Hmay & _ & Hspec & _ & _ & _ & _ & Howner & _ & _ & Hl & _).
    exists s, cur. split_and!; [done..|]. intros k Hk. rewrite (Hl k Hk). unfold map_get.
    by rewrite (spec_change_reserved env ch cur t mid k Hspec Hk). }
  split.
  - destruct H as [Hd|(_ & _ & Hm)]; [|done].
    destruct (Hkey Hd) as (s & cur & _ & Hmay & Howner & Hl). unfold may in *. rewrite Howner.
    apply andb_true_iff in Hmay as [Hs Ha]. rewrite Ha, andb_true_r.
    eapply scoped_map_get; [|exact Hs]. intros k v Hk. apply Hl. by eapply checkScope_reserved.
  - intros Hd. destruct (Hkey Hd) as (s & cur & ? & ? & _ & ?). by exists s, cur.
Qed.

Lemma change_keeps_scope_witness :
  let c := MkCaller "alice" false ∅ in
  let run := run_change demo_env Background c (ID demo_sandbox) (ETag 7) ChStart demo_world in
  ∃ out, run.1 = Ok out ∧ may c out = true.
Proof.
  intros c run. eexists. split; [vm_compute; reflexivity|].
  apply (change_keeps_scope demo_env 0 Background c (ID demo_sandbox) (ETag 7) ChStart demo_world run.2).
  - apply calm_fair.
  - split; [apply one_sandbox_ok; [reflexivity|reflexivity|by vm_compute]|by vm_compute].
  - reflexivity.
  - vm_compute. reflexivity.
Defined.

(** What a merge patch does, key by key: a label or setting it names takes
    the value it gives or goes; one it does not name stays, unless cleared (a
    clear never touches a reserved label); it never names a reserved label. The
    result fits the label rules and the settings registry, the object was not
    being deleted and stays in its state, and the generation goes up exactly
    when the template changes. *)
Theorem apply_patch_spec {S E : Type} (env : Env S E) (p : Patch) (sb mid : Sandbox) (t : Z) (k : string) :
  apply_patch env p sb t = Ok mid →
  (Labels mid !! k = match default ∅ (pt_Labels p) !! k with
                     | Some o => o
                     | None => if pt_ClearLabels p && negb (HasPrefix k ReservedPrefix) then None else Labels sb !! k
                     end) ∧
  (Settings mid !! k = match default ∅ (pt_Settings p) !! k with
                       | Some o => o
                       | None => if pt_ClearSettings p then None else Settings sb !! k
                       end) ∧
  (HasPrefix k ReservedPrefix = true → Labels mid !! k = Labels sb !! k) ∧
  labels_ok true (Labels mid) ∧ CheckSettings (c_settings env) (Settings mid) = None ∧
  State sb ≠ StateDeleting ∧ State mid = State sb ∧
  Generation mid = match pt_Template p with
                   | Some n => if String.eqb n (Template sb) then Generation sb else wrap64 (Generation sb + 1)
                   | None => Generation sb end.
Proof.
  intros H. pose proof (spec_change_reserved env (ChUpdate p) sb t mid k H) as Hres.
  apply apply_patch_fields in H as (_ & Hst & Hdel & Hok & Hset & _ & Hl & Hs & Hg).
  split_and!; try done.
  - rewrite Hl, patch_lookup. destruct (default ∅ (pt_Labels p) !! k); [done|].
    destruct (pt_ClearLabels p); simpl; [|done]. rewrite reserved_keys_lookup. by destruct (HasPrefix k ReservedPrefix).
  - rewrite Hs, patch_lookup. destruct (default ∅ (pt_Settings p) !! k); [done|]. by destruct (pt_ClearSettings p).
Qed.

Lemma apply_patch_spec_witness :
  let p := MkPatch (Some {["team" := None; "tier" := Some "gold"]}) false None None false in
  ∃ mid, apply_patch demo_env p demo_sandbox 9 = Ok mid ∧ Labels mid !! "team" = None ∧ State mid = StateStopped.
Proof.
  intros p. eexists. split; [vm_compute; reflexivity|].
  match goal with |- Labels ?m !! _ = _ ∧ _ => pose (mid := m) end.
  destruct (apply_patch_spec demo_env p demo_sandbox mid 9 "team") as (H1 & _ & _ & _ & _ & _ & H7 & _);
    [vm_compute; reflexivity|].
  split; [exact H1|exact H7].
Defined.
