(* ===== verification/Authority.v ===== *)
(** Who may see and do what (controlplane/service.go, verbs.go): a caller
    cannot tell a sandbox it may not see from one that is not there; a create
    makes a sandbox of its caller's own, inside its scope and the server's
    ceilings; an exec's result is a real one. *)

From Stdlib Require Import ZArith NArith Ascii String Lia.
From stdpp Require Import base tactics list gmap strings relations.
From S2P Require Import Prelude GoStd Errors Labels Driver Lifecycle Etag Settings Store Memory World Mutate.
From S2P Require Import Admission Protocol Templates Service Exec Verbs Calls Operations.

#[local] Open Scope string_scope.
#[local] Open Scope go_scope.

(** ** What a call looks at before it reads the sandbox *)

(** The caller and the sandbox a call names. *)
Definition call_target {E} (k : call E) : option (Caller * string) :=
  match k with
  | CallCreate _ _ _ => None
  | CallUpdate _ c id _ _ | CallStart _ c id _ | CallStop _ c id _ _ | CallDelete _ c id _
  | CallExec _ c id _ _ _ | CallSnapshot _ c id _ _ | CallRestore _ c id _ _ | CallCopyIn _ c id _
  | CallCopyOut _ c id _ _ | CallStream _ c id _ _ => Some (c, id)
  end.

(** What is wrong with the request itself. *)
Definition early_error {E} (k : call E) : option error :=
  match k with
  | CallStop _ _ _ _ grace =>
      fail_if ((grace <? 0)%Z || (3600 * second <? grace)%Z) (errorf ErrInvalid "grace_seconds must be from 0 to 3600")
  | CallExec _ _ _ _ req eio =>
      match Validate {| dx_argv := ex_Argv req; dx_command := ex_Command req; dx_cwd := ex_Cwd req;
                        dx_env := ex_Env req ++ []; dx_stdin := eio_Stdin eio |}%list with
      | Some e => Some (errwrap ErrInvalid "" e)
      | None => match bad_env 1 (ex_Env req) with
                | Some i => Some (errorf ErrInvalid ("env entry " ++ Itoa (Z.of_nat i) ++ " is not NAME=value"))
                | None => None
                end
      end
  | CallSnapshot _ _ _ _ name => plainText "snapshot name" name
  | CallRestore _ _ _ _ ref => join_opt (plainText "snapshot id" (sr_id ref)) (plainText "snapshot digest" (sr_digest ref))
  | CallCopyIn _ _ _ p | CallCopyOut _ _ _ p _ => plainText "path" p
  | _ => None
  end.

Section hidden.
Context {E : Type} (env : Env Memory E) (syntax_Quote : string → option string).
Abbreviation W := (World Memory E).

(** Absent, or there but not the caller's to see. *)
Definition hidden (c : Caller) (id : string) (m : Memory) : Prop :=
  match m_sandboxes m !! id with Some sb => may c sb = false | None => True end.

(** The store as the call's read finds it. *)
Definition store_seen (w : W) : Memory := sh_store (w_sh (others env w).2).

Lemma Get_hidden c id w :
  hidden c id (store_seen w) →
  ∃ w1, svc_Get env c id w = (Fail (errorf ErrNotFound ("sandbox " ++ id)), w1) ∧ w_trace w1 = w_trace w.
Proof.
  intros Hh. pose proof (silent_svc_Get env c id w) as Htr.
  destruct (svc_Get env c id w) as [r w1] eqn:Hrun. exists w1. split; [|exact Htr]. f_equal.
  unfold svc_Get, on_store, mthen, store_seen, hidden in *.
  destruct (others env w) as [[] w0]. simpl in *. unfold memory_Get in Hrun.
  destruct (m_sandboxes (sh_store (w_sh w0)) !! id) as [sb|]; simpl in Hrun.
  - rewrite Hh in Hrun. simpl in Hrun. by injection Hrun as <- _.
  - injection Hrun as <- _. done.
Qed.

Lemma prepare_hidden c id ifMatch verb ok cap w w1 e :
  svc_Get env c id w = (Fail e, w1) → prepare env c id ifMatch verb ok cap w = ((zero_sandbox, Fail e), w1).
Proof. intros H. unfold prepare, mthen. by rewrite H. Qed.
End hidden.

(** ** What a create makes *)

Section create.
Context {S E : Type} `{!Store S, !StoreLaws S} (env : Env S E) (B : nat).
Hypothesis Hothers : fair_others env B.
Abbreviation W := (World S E).
Abbreviation store_of w := (sh_store (w_sh w)).

Lemma NewSandbox_Ok rnd owner template drv labels t sb :
  NewSandbox rnd owner template drv labels t = Ok sb →
  owner ≠ "" ∧ labels_ok false labels ∧ Owner sb = owner ∧ Template sb = template ∧ DriverName sb = drv ∧
  State sb = StateProvisioning ∧ Generation sb = 1%Z ∧ Labels sb = labels.
Proof.
  unfold NewSandbox. destruct (negb (ValidName drv)); [discriminate|]. destruct (validTemplate template); [discriminate|].
  destruct (String.eqb_spec owner ""); [discriminate|]. destruct (ValidateLabels labels false) eqn:Hl; [discriminate|].
  destruct (NewID rnd); [|discriminate]. intros [= <-]. apply ValidateLabels_None in Hl. done.
Qed.

(** The reserved labels a new sandbox carries are its caller's scope. *)
Definition stamped (c : Caller) (l : strmap) : Prop :=
  ∀ k, HasPrefix k ReservedPrefix = true → map_get l k = map_get (Scope c) k.

Lemma stamped_scope (req : CreateRequest) c :
  labels_ok false (cq_Labels req) → stamped c (maps_copy (cq_Labels req) (Scope c)).
Proof.
  intros [_ Hl] k Hk. unfold map_get, maps_copy. rewrite lookup_union.
  assert (cq_Labels req !! k = None) as ->.
  { destruct (cq_Labels req !! k) as [v|] eqn:Hv; [|done]. destruct (Hl k v Hv) as (_ & _ & H).
    rewrite H in Hk by done. done. }
  by destruct (Scope c !! k).
Qed.

(** What [propose] proposes. *)
Lemma propose_Ok c req w sb :
  (propose env c req w).1 = Ok sb →
  checkScope (Scope c) = None ∧ Principal c ≠ "" ∧ Owner sb = Principal c ∧ Template sb = cq_Template req ∧
  State sb = StateProvisioning ∧ Generation sb = 1%Z ∧ stamped c (Labels sb).
Proof.
  unfold propose. set (name := if String.eqb _ "" then _ else _).
  destruct (registry_Get _ _); [|discriminate]. destruct (CheckSettings _ _); [discriminate|].
  destruct (checkScope _) eqn:Hs; [discriminate|].
  unfold mthen. destruct (now env w) as [t w1]. destruct (ext _ w1) as [rnd w2].
  destruct (NewSandbox _ _ _ _ _ _) as [s0|] eqn:Hn; [|discriminate].
  apply NewSandbox_Ok in Hn as (Hp & Hl & Ho & Ht & Hd & Hst & Hg & Hlab).
  pose proof (stamped_scope req c Hl) as Hstamp.
  case_bool_decide as Hsc.
  - intros [= <-]. destruct s0; simpl in *; subst. split_and!; try done.
    intros k Hk. rewrite <- (Hstamp k Hk), Hsc. unfold maps_copy. by rewrite (left_id_L ∅ (∪)).
  - destruct (ValidateLabels _ true); [discriminate|]. intros [= <-]. destruct s0; simpl in *; subst. done.
Qed.

Lemma admit_create_Ok x c sb w rel sb' :
  (admit_create env x c sb w).1 = Ok (rel, sb') →
  CheckSettings (c_settings env) (Settings sb') = None ∧ checkConfig env sb' = None ∧
  ∃ s0, tightened env OpCreate (with_settings sb s0) sb'.
Proof.
  unfold admit_create, mthen. destruct (guardAdmit env x _ w) as [[[r next]|e] w1]; [|discriminate].
  destruct (CheckSettings _ _) eqn:Hc1; [by destruct (release env r w1)|].
  set (sb0 := with_settings sb _) in *.
  destruct (svc_admit env _ w1) as [[sb1|e] w2] eqn:Ha; [|by destruct (release env r w2)].
  destruct (checkConfig env sb1) eqn:Hcfg; [by destruct (release env r w2)|].
  intros [= <- <-].
  assert (Ht : tightened env OpCreate sb0 sb1).
  { match type of Ha with svc_admit _ ?req _ = _ => apply (svc_admit_sound env req w1 sb1) end. by rewrite Ha. }
  split_and!; [|done|by eexists]. unfold tightened in Ht. destruct (c_interceptor env); [|by rewrite Ht].
  by destruct Ht as (_ & _ & _ & _ & ? & _).
Qed.

(** What a create leaves stored. *)
Definition created (c : Caller) (out : Sandbox) (s' : S) : Prop :=
  ∃ s, view s !! ID out = None ∧ view s' = <[ID out := out]> (view s) ∧ (top s < ResourceVersion out)%Z ∧
    ValidID (ID out) = true ∧ State out = StateProvisioning ∧ Generation out = 1%Z ∧
    json_text (Owner out) = json_text (Principal c) ∧ Principal c ≠ "" ∧
    stamped c (Labels out) ∧ scoped (Scope c) (Labels out) = true ∧
    CheckSettings (c_settings env) (Settings out) = None ∧ checkConfig env out = None.

Lemma stamped_scoped c l : checkScope (Scope c) = None → stamped c l → scoped (Scope c) l = true.
Proof.
  intros Hs Hl. apply scoped_spec. intros k v Hk.
  assert (Hne : v ≠ "").
  { unfold checkScope in Hs. apply and_then_None in Hs as [H _].
    pose proof (proj1 (first_error_map_None (λ '(k, v), fail_if (negb (HasPrefix k ReservedPrefix) || negb (str_nonempty v)) _) _) H k v Hk) as H1.
    cbn beta iota in H1. apply fail_if_None in H1. bool_to_prop. intros ->. done. }
  split; [done|]. specialize (Hl k ltac:(by eapply checkScope_reserved)). unfold map_get in Hl. rewrite Hk in Hl. simpl in Hl.
  destruct (l !! k); simpl in Hl; congruence.
Qed.

Lemma write_created c sb sb' w out w' id :
  on (has_room (B + 1)) w →
  checkScope (Scope c) = None → Principal c ≠ "" → Owner sb = Principal c → State sb = StateProvisioning →
  Generation sb = 1%Z → stamped c (Labels sb) →
  CheckSettings (c_settings env) (Settings sb') = None → checkConfig env sb' = None →
  (∃ s0, tightened env OpCreate (with_settings sb s0) sb') →
  writes env "Create" id (st_Create sb') w = (Ok out, w') → created c out (store_of w').
Proof.
  intros [Hok Hroom] Hsc Hp Ho Hst Hg Hl Hset Hcfg [s0 Ht] Hrun.
  destruct (writes_run env B Hothers "Create" id (st_Create sb') w) as (s & n & Hn & Hs & Hr & Hw).
  rewrite Hrun in Hr, Hw. simpl in Hr, Hw.
  destruct (steps_ok n _ _ Hok ltac:(lia) Hs) as [Hok1 [_ Ht1]].
  pose proof (Create_spec s sb' Hok1 ltac:(lia)) as Hc. rewrite <- Hr in Hc.
  destruct Hc as (Hnone & Hvid & Hvst & Htop & Hout & Hview).
  assert (Hf : ID out = ID sb' ∧ State out = State sb' ∧ Generation out = Generation sb' ∧ Owner out = Owner sb' ∧
            Labels out = Labels sb' ∧ Settings out = Settings sb' ∧ checkConfig env out = checkConfig env sb')
    by (rewrite Hout; by destruct sb').
  destruct Hf as (Hf1 & Hf2 & Hf3 & Hf4 & Hf5 & Hf6 & Hf7).
  assert (Hj : State sb' = StateProvisioning ∧ Generation sb' = 1%Z ∧ json_text (Owner sb') = json_text (Principal c) ∧
               stamped c (Labels sb')).
  { unfold tightened in Ht. destruct (c_interceptor env).
    - destruct Ht as (Hj & _ & Hlab & _). unfold json_rest in Hj.
      injection Hj as _ Hg' _ _ _ _ Hs' _ Ho' _ _ _ _ _.
      assert (He : State (with_settings sb s0) = StateProvisioning ∧ Generation (with_settings sb s0) = 1%Z ∧
                   Owner (with_settings sb s0) = Principal c ∧ Labels (with_settings sb s0) = Labels sb) by (by destruct sb).
      destruct He as (He1 & He2 & He3 & He4). rewrite He1, He2, He3, He4 in *. split_and!; [|done|done|].
      + symmetry. by apply state_text_inj.
      + intros k Hk. rewrite (Hlab k Hk). by apply Hl.
    - rewrite Ht. destruct sb; simpl in *; subst. done. }
  destruct Hj as (Hj1 & Hj2 & Hj3 & Hj4).
  exists s. rewrite Hf1, Hf2, Hf3, Hf4, Hf5, Hf6, Hf7, Hw. split_and!; try done. by apply stamped_scoped.
Qed.
Lemma on_store_triple {A} k (m : M S A) :
  (∀ s, store_step s (m s).2) → triple (on (has_room (B + (1 + k)))) (on_store env m) (λ _, on (has_room k)).
Proof.
  intros Hm w [Hok Hroom]. destruct (on_store_run env B Hothers m w) as (s & n & Hn & Hs & _ & Hw).
  destruct (steps_ok n _ _ Hok ltac:(lia) Hs) as [Hok1 [_ Ht]]. unfold on. rewrite Hw.
  split; [eapply step_ok; [done|lia|apply Hm]|].
  pose proof (step_top s _ Hok1 ltac:(lia) (Hm s)). lia.
Qed.

Lemma applyTemplate_triple k req :
  triple (on (has_room (B + (1 + k)))) (applyTemplate env req) (λ _, on (has_room k)).
Proof.
  assert (Hless : ∀ w : W, on (has_room (B + (1 + k))) w → on (has_room k) w) by (intros w [? ?]; split; [done|lia]).
  unfold applyTemplate. destruct (st_templates (S:=S)) as [ts|] eqn:Hts; [|by apply triple_ret].
  destruct (negb _); [by apply triple_ret|].
  eapply triple_bind; [apply on_store_triple; intros s; by eapply by_template_Get|]. intros r. by apply triple_ret.
Qed.

Lemma quiet_admit_create x c sb : store_quiet (admit_create env x c sb).
Proof.
  apply quiet_bind; [apply quiet_guardAdmit|]. intros [[rel next]|e]; [|apply quiet_ret]. cbn beta iota zeta.
  destruct (CheckSettings _ _); [apply quiet_bind; [apply quiet_release|intros ?; apply quiet_ret]|].
  apply quiet_bind; [apply quiet_admit|].
  intros [sb'|e]; cbn beta iota; [|apply quiet_bind; [apply quiet_release|intros ?; apply quiet_ret]].
  destruct (checkConfig _ _); [apply quiet_bind; [apply quiet_release|intros ?; apply quiet_ret]|apply quiet_ret].
Qed.

Lemma quiet_propose c req : store_quiet (propose env c req).
Proof.
  unfold propose. destruct (registry_Get _ _); [|apply quiet_ret]. destruct (CheckSettings _ _); [apply quiet_ret|].
  destruct (checkScope _); [apply quiet_ret|].
  apply quiet_bind; [apply quiet_ext|]. intros t. apply quiet_bind; [apply quiet_ext|]. intros rnd.
  destruct (NewSandbox _ _ _ _ _ _); [|apply quiet_ret]. case_bool_decide; apply quiet_ret.
Qed.

Lemma Create_created x c req :
  triple (on (has_room (2 * (B + 1)))) (svc_Create env x c req)
    (λ r w, match r with Ok out => created c out (store_of w) | Fail _ => True end).
Proof.
  unfold svc_Create, mthen_ok. replace (2 * (B + 1))%nat with (B + (1 + (B + 1)))%nat by lia.
  eapply triple_bind; [apply applyTemplate_triple|]. intros [req'|e]; [|by apply triple_ret]. cbn beta.
  eapply triple_bind.
  { apply (quiet_triple_pure _ _ (λ r, ∀ sb, r = Ok sb → checkScope (Scope c) = None ∧ Principal c ≠ "" ∧
      Owner sb = Principal c ∧ Template sb = cq_Template req' ∧ State sb = StateProvisioning ∧ Generation sb = 1%Z ∧
      stamped c (Labels sb))); [apply quiet_propose|].
    intros w sb Hsb. by eapply propose_Ok. }
  intros [sb|e]; [|by apply triple_ret]. cbn beta. apply triple_pure. intros Hp.
  destruct (Hp sb eq_refl) as (Hsc & Hpr & Ho & _ & Hst & Hg & Hl). cbn zeta.
  eapply triple_bind; [apply quiet_triple, quiet_record|]. intros [e|]; [by apply triple_ret|]. cbn beta.
  eapply triple_bind.
  { apply (quiet_triple_pure _ _ (λ r, ∀ rel sb', r = Ok (rel, sb') → CheckSettings (c_settings env) (Settings sb') = None ∧
      checkConfig env sb' = None ∧ ∃ s0, tightened env OpCreate (with_settings sb s0) sb')); [apply quiet_admit_create|].
    intros w rel sb' Hr. by eapply admit_create_Ok. }
  intros [[rel sb']|e]; cbn beta; apply triple_pure; intros Ha.
  2: { eapply triple_bind; [apply quiet_triple, quiet_outcome|]. intros ?. by apply triple_ret. }
  destruct (Ha rel sb' eq_refl) as (Hset & Hcfg & Ht).
  eapply (triple_bind _ _ _ (λ r, on (λ s, match r with Ok out => created c out s | Fail _ => True end))).
  { intros w Hw. destruct (writes env "Create" (ID sb) (st_Create sb') w) as [[out|e] w'] eqn:Hrun; simpl; [|done].
    by eapply write_created. }
  intros out. cbn beta. eapply triple_bind; [apply quiet_triple, quiet_release|]. intros ?. cbn beta.
  eapply triple_bind; [apply quiet_triple, quiet_outcome|]. intros ?. cbn beta.
  eapply triple_bind; [apply quiet_triple, quiet_committed|]. intros ?. cbn beta.
  destruct out as [out|e]; [|by apply triple_ret].
  eapply triple_bind; [apply quiet_triple, quiet_Kick|]. intros ?. by apply triple_ret.
Qed.
End create.

(** ** Properties *)

(** A sandbox a caller may not see reads as no sandbox. Whatever the call,
    it ends with byte for byte the error it ends with for an id that does not
    exist (what is wrong with the request itself comes first), and it leaves
    no trace: nothing on the record, no guard or interceptor asked, no driver
    reached, no store written. *)
Theorem hidden_reads_as_absent {E} (env : Env Memory E) (syntax_Quote : string → option string) (k : call E)
    (c : Caller) (id : string) (w : World Memory E) :
  call_target k = Some (c, id) → hidden c id (store_seen env w) →
  (run_call env syntax_Quote k w).1 = Some (default (errorf ErrNotFound ("sandbox " ++ id)) (early_error k)) ∧
  w_trace (run_call env syntax_Quote k w).2 = w_trace w.
Proof.
  intros Ht Hh. destruct (Get_hidden env c id w Hh) as (w1 & Hget & Htr).
  destruct k; simpl in Ht; simplify_eq.
  - unfold run_call, svc_Update, svc_mutate, mthen_ok, mthen. by rewrite Hget.
  - unfold run_call, svc_Start, svc_mutate, mthen_ok, mthen. by rewrite Hget.
  - unfold run_call, svc_Stop, early_error, fail_if. destruct (_ || _); [done|].
    unfold svc_mutate, mthen_ok, mthen. by rewrite Hget.
  - unfold run_call, svc_Delete, mthen_ok, mthen. by rewrite Hget.
  - unfold run_call, svc_Exec, early_error. destruct (Validate _); [done|]. destruct (bad_env _ _); [done|].
    unfold mthen. by rewrite Hget.
  - unfold run_call, svc_Snapshot, early_error. destruct (plainText _ _); [done|].
    unfold mthen. by rewrite (prepare_hidden env c id _ _ _ _ w w1 _ Hget).
  - unfold run_call, svc_Restore, early_error. destruct (join_opt _ _); [done|].
    unfold mthen. by rewrite (prepare_hidden env c id _ _ _ _ w w1 _ Hget).
  - unfold run_call, svc_CopyIn, early_error. destruct (plainText _ _); [done|].
    unfold mthen. by rewrite (prepare_hidden env c id _ _ _ _ w w1 _ Hget).
  - unfold run_call, svc_CopyOut, early_error. destruct (plainText _ _); [done|].
    unfold mthen. by rewrite (prepare_hidden env c id _ _ _ _ w w1 _ Hget).
  - unfold run_call, svc_Stream, mthen. by rewrite (prepare_hidden env c id _ _ _ _ w w1 _ Hget).
Qed.

Lemma hidden_reads_as_absent_witness :
  let mallory := MkCaller "mallory" false ∅ in
  let stop := CallStop Background mallory (ID demo_sandbox) "" 0 : call unit in
  let run := run_call demo_env (λ _, None) stop demo_world in
  run.1 = Some (errorf ErrNotFound "sandbox sbx_0123456789abcdef") ∧ w_trace run.2 = [].
Proof.
  intros mallory stop run.
  apply (hidden_reads_as_absent demo_env (λ _, None) stop mallory (ID demo_sandbox) demo_world); [reflexivity|].
  vm_compute. reflexivity.
Defined.

(** A create makes a sandbox of its caller's own, and only that. When it
    succeeds the store holds one new object and nothing else changed: it is
    Provisioning, of generation 1, owned by the caller; the reserved labels it
    carries are exactly the caller's scope; its settings pass the registry's
    ceilings and its driver accepts its size, whatever the template, the guard
    and the interceptor made of the request. *)
Theorem create_makes_own_sandbox {S E : Type} `{!Store S, !StoreLaws S} (env : Env S E) (B : nat) (x : Ctx) (c : Caller)
    (req : CreateRequest) (w w' : World S E) (out : Sandbox) :
  fair_others env B → room (2 * (B + 1)) w →
  svc_Create env x c req w = (Ok out, w') → created env c out (sh_store (w_sh w')).
Proof.
  intros Ho Hr Hrun. pose proof (Create_created env B Ho x c req w Hr) as H. by rewrite Hrun in H.
Qed.

(** A server with one driver, and a caller confined to a workspace. *)
Definition driver_env : Env Memory unit := calm_env {["demo" := example_driver]} capped_settings.
Definition bob : Caller := MkCaller "bob" false {["abhed.dev/workspace" := "blue"]}.

Lemma create_makes_own_sandbox_witness :
  let req := MkCreate "base" "demo" {["team" := "a"]} {[SetExecTimeout := "30"]} in
  let run := svc_Create driver_env Background bob req (start_world NewMemory tt) in
  ∃ out, run.1 = Ok out ∧ created driver_env bob out (sh_store (w_sh run.2)).
Proof.
  intros req run. eexists. split; [vm_compute; reflexivity|].
  apply (create_makes_own_sandbox driver_env 0 Background bob req (start_world NewMemory tt) run.2).
  - apply calm_fair.
  - split; [apply NewMemory_ok|by vm_compute].
  - vm_compute. reflexivity.
Defined.
