(* ===== verification/PoolSpec.v ===== *)
(** What a claim of a warm pool's member does (controlplane/sessions.go):
    the member it hands out was a Ready member of the pool, and is no member
    any more. *)

From Stdlib Require Import ZArith NArith Ascii String Lia.
From stdpp Require Import base tactics list gmap strings relations.
From S2P Require Import Prelude GoStd Errors Labels Driver Lifecycle Etag Settings Store Memory World Mutate.
From S2P Require Import Admission Protocol Templates Service Exec Verbs Calls Reconcile Sessions Operations.

#[local] Open Scope string_scope.
#[local] Open Scope go_scope.

(** A Ready member of the pool nobody claimed. *)
Definition unclaimed (p : PoolConfig) (sb : Sandbox) : Prop :=
  State sb = StateReady ∧ Owner sb = SessionsPrincipal ∧ scoped (pool_labels p) (Labels sb) = true.

(** What a claim of [id] left: [out] written over the member [cur]. *)
Definition claim_done {S E} `{!Store S, !StoreLaws S} (env : Env S E) (p : PoolConfig) (labels : strmap) (id : string)
    (out : Sandbox) (s' : S) : Prop :=
  ∃ s cur, view s !! id = Some cur ∧ view s' = <[id := out]> (view s) ∧ (top s < ResourceVersion out)%Z ∧
    unclaimed p cur ∧ State out = StateReady ∧ Owner out = Owner cur ∧ Generation out = wrap64 (Generation cur + 1) ∧
    (∀ k v, labels !! k = Some v → HasPrefix k ReservedPrefix = true → map_get (Labels out) k = v) ∧
    (labels !! LabelPool = None → map_get (Labels out) LabelPool = "").

Lemma claimed_Ok p labels t sb mid :
  claimed p labels t sb = Ok mid →
  unclaimed p sb ∧ ID mid = ID sb ∧ State mid = StateReady ∧ Generation mid = wrap64 (Generation sb + 1) ∧
  Labels mid = maps_copy (delete LabelPool (Labels sb)) labels.
Proof.
  unfold claimed. case_bool_decide as Hs; [|discriminate]. destruct (String.eqb_spec (Owner sb) SessionsPrincipal); [|discriminate].
  destruct (scoped (pool_labels p) (Labels sb)) eqn:Hsc; [|discriminate]. intros [= <-]. split; [done|].
  destruct sb; simpl in *. by subst.
Qed.

Lemma unclaimed_label p sb : unclaimed p sb → Labels sb !! LabelPool = Some (pc_Key p) ∧ pc_Key p ≠ "".
Proof.
  intros (_ & _ & Hs). rewrite scoped_spec in Hs. destruct (Hs LabelPool (pc_Key p)); [|done].
  unfold pool_labels. by rewrite lookup_insert_eq.
Qed.

Section claims.
Context {S E : Type} `{!Store S, !StoreLaws S} (env : Env S E) (B : nat).
Hypothesis Hothers : fair_others env B.
Abbreviation W := (World S E).
Abbreviation store_of w := (sh_store (w_sh w)).

Lemma quiet_claim_fn p labels sb st : store_quiet (claim_fn env p labels sb st).
Proof.
  unfold claim_fn. destruct st as [iadm admitted]. apply quiet_bind; [apply quiet_ext|]. intros t.
  destruct (claimed p labels t sb); [|apply quiet_ret]. apply quiet_bind; [apply quiet_admit|]. intros [next|e]; apply quiet_ret.
Qed.

Lemma claim_fn_op p labels sb st w :
  ar_Operation (claim_fn env p labels sb st w).1.2.1 = ar_Operation st.1.
Proof.
  unfold claim_fn. destruct st as [iadm admitted]. unfold mthen at 1. destruct (now env w) as [t w1].
  destruct (claimed p labels t sb) as [mid|e]; [|done]. unfold mthen. destruct (svc_admit env _ w1) as [[nx|e] w2]; done.
Qed.

Lemma claim_fn_Ok p labels sb st w next st' :
  (claim_fn env p labels sb st w).1 = (Ok next, st') →
  ∃ t mid, claimed p labels t sb = Ok mid ∧ tightened env (ar_Operation st.1) mid next.
Proof.
  unfold claim_fn. destruct st as [iadm admitted]. unfold mthen at 1. destruct (now env w) as [t w1].
  destruct (claimed p labels t sb) as [mid|e] eqn:Hc; [|done]. cbn zeta. unfold mthen at 1.
  match goal with |- context [svc_admit env ?req w1] => destruct (svc_admit env req w1) as [[nx|e] w2] eqn:Ha;
    [pose proof (svc_admit_sound env req w1 nx) as Hs|] end; [|done].
  rewrite Ha in Hs. simpl. intros [= <- _]. exists t, mid. split; [done|]. by apply Hs.
Qed.

Lemma claim_changed p labels id st0 :
  triple (on (has_room ((2 * B + 2) * 6))) (Mutate env id "" (claim_fn env p labels) st0)
    (λ r w, match r.1 with Ok out => claim_done env p labels id out (store_of w) | Fail _ => True end).
Proof.
  intros w Hroom.
  destruct (Mutate env id "" (claim_fn env p labels) st0 w) as [[[out|e] st'] w'] eqn:Em; [|done]. simpl.
  pose (I := λ st : AdmissionRequest * bool, ar_Operation st.1 = ar_Operation st0.1).
  assert (HI : ∀ sb st w, I st → I (claim_fn env p labels sb st w).1.2)
    by (intros sb st w1 Hst; unfold I; rewrite claim_fn_op; exact Hst).
  assert (HK : ∀ sb st w next st', ValidID (ID sb) = true → (claim_fn env p labels sb st w).1 = (Ok next, st') → ID next = ID sb).
  { intros sb st w1 next st1 Hid Hn. apply claim_fn_Ok in Hn as (t & mid & Hc & Ht).
    apply claimed_Ok in Hc as (_ & Hm & _). rewrite <- Hm in Hid |- *. by destruct (tightened_fields _ _ _ _ Ht Hid). }
  destruct (mutate_loop_commits env B Hothers I (claim_fn env p labels) HI (quiet_claim_fn p labels) HK mutateRetries id "" st0 w out st' w' eq_refl Hroom Em)
    as (cur & next & a1 & w1 & s & _ & Hfn & _ & Him & Hval & Hout & Hok & Hcur & Htop & Hview).
  apply claim_fn_Ok in Hfn as (t & mid & Hc & Ht). apply claimed_Ok in Hc as (Hun & Hmi & Hms & Hmg & Hml).
  destruct (view_valid s id cur Hok Hcur) as [Hvid Hvs]. pose proof (view_id s id cur Hok Hcur) as Hci.
  destruct (tightened_fields _ _ _ _ Ht) as (_ & Hg & _ & _ & Hst & Hl); [congruence|].
  apply CheckImmutable_None in Him as (Ho & _).
  assert (Hf : State out = State next ∧ Owner out = Owner next ∧ Generation out = Generation next ∧ Labels out = Labels next)
    by (rewrite Hout; by destruct next).
  destruct Hf as (F1 & F2 & F3 & F4).
  exists s, cur. rewrite F1, F2, F3, F4, Hg, Hmg, Ho. do 4 (split; [done|]).
  split; [rewrite Hst; [done| |done]; by rewrite Hms|]. do 2 (split; [congruence|]). split.
  - intros k v Hk Hp. rewrite Hl by done. rewrite Hml. unfold map_get, maps_copy. by rewrite (lookup_union_Some_l _ _ _ _ Hk).
  - intros Hn. rewrite Hl by done. rewrite Hml. unfold map_get, maps_copy.
    rewrite lookup_union_r by done. by rewrite lookup_delete_eq.
Qed.

Lemma pool_claim_done p x c m labels :
  triple (on (has_room ((2 * B + 2) * 6))) (pool_claim env p x c m labels)
    (λ r w, match r with Ok out => claim_done env p labels (ID m) out (store_of w) | Fail _ => True end).
Proof.
  unfold pool_claim.
  eapply triple_bind; [apply quiet_triple, quiet_owned|]. intros [e|]; [by apply triple_ret|]. cbn beta zeta.
  eapply triple_bind; [apply quiet_triple, quiet_record|]. intros [e|]; [by apply triple_ret|]. cbn beta iota.
  eapply triple_bind; [apply quiet_triple, quiet_ext|]. intros t. cbn beta.
  destruct (claimed _ _ _ _) as [next|e].
  2: { eapply triple_bind; [apply quiet_triple, quiet_outcome|]. intros ?. by apply triple_ret. }
  eapply triple_bind; [apply quiet_triple, quiet_guardAdmit|]. intros [[rel nx]|e]; cbn beta iota.
  2: { eapply triple_bind; [apply quiet_triple, quiet_outcome|]. intros ?. by apply triple_ret. }
  eapply triple_bind; [apply claim_changed|]. intros [[out|e] [iadm admitted]]; cbn [fst].
  2: { eapply triple_bind; [by apply (triple_True _ _ (λ _ _, True))|]. intros ?. cbn beta.
       eapply triple_bind; [by apply (triple_True _ _ (λ _ _, True))|]. intros ?. cbn beta.
       eapply triple_bind; [by apply (triple_True _ _ (λ _ _, True))|]. intros ?. by apply triple_ret. }
  eapply triple_bind; [apply (quiet_triple (λ s, claim_done env p labels (ID m) out s)), quiet_outcome|].
  intros ?. cbn beta. eapply triple_bind.
  { apply quiet_triple. destruct admitted; [apply quiet_committed|apply quiet_ret]. }
  intros ?. cbn beta. eapply triple_bind; [apply quiet_triple, quiet_release|]. intros ?. by apply triple_ret.
Qed.
End claims.

(** ** Properties *)

(** A claim hands out a member once. Whatever the guard and the interceptor
    answer, whatever others do meanwhile, and however stale the list the member
    was picked from: a claim that succeeds wrote, in one step, over the stored
    object of that id, which at that moment was Ready, of the pool, and not
    claimed; it is Ready still, under a new generation and the session's
    labels. What it wrote is no member of the pool any more, so nobody can
    claim it again. *)
Theorem claim_takes_a_member_once {S E} `{!Store S, !StoreLaws S} (env : Env S E) (B : nat) (p : PoolConfig) (x : Ctx)
    (c : Caller) (m out : Sandbox) (labels : strmap) (w w' : World S E) :
  fair_others env B → has_room ((2 * B + 2) * 6) (sh_store (w_sh w)) →
  labels !! LabelPool = None →
  pool_claim env p x c m labels w = (Ok out, w') →
  claim_done env p labels (ID m) out (sh_store (w_sh w')) ∧
  ∀ p' labels' t, pc_Key p' = pc_Key p → claimed p' labels' t out = Fail (errval errClaimed).
Proof.
  intros Ho Hroom Hlab Hrun. pose proof (pool_claim_done env B Ho p x c m labels w Hroom) as H. rewrite Hrun in H.
  split; [exact H|]. destruct H as (s & cur & _ & _ & _ & Hun & _ & _ & _ & _ & Hno). specialize (Hno Hlab).
  intros p' labels' t Hk. unfold claimed. destruct (scoped (pool_labels p') (Labels out)) eqn:Hs; [|by rewrite orb_true_r].
  rewrite scoped_spec in Hs. destruct (Hs LabelPool (pc_Key p')) as [Hne Hl]; [unfold pool_labels; by rewrite lookup_insert_eq|].
  unfold map_get in Hno. rewrite Hl in Hno. done.
Qed.

Definition demo_pool : PoolConfig := MkPool "p1" 2 (MkCreate "" "" ∅ ∅) ∅ (60 * second) (600 * second).
Definition demo_member : Sandbox :=
  MkSandbox "sbx_0123456789abcdef" 3 7 "base" "" "process" StateReady [] {[LabelPool := "p1"]} SessionsPrincipal "" ∅ 0 None 1 1.

Lemma claim_takes_a_member_once_witness :
  let env := calm_env ∅ capped_settings in
  let w := start_world (one_sandbox demo_member) tt in
  let c := MkCaller "alice" false ∅ in
  let labels : strmap := {["abhed.dev/session" := "s1"]} in
  let out := MkSandbox "sbx_0123456789abcdef" 4 8 "base" "" "process" StateReady [] labels SessionsPrincipal "" ∅ 0 None 1 100 in
  (pool_claim env demo_pool Background c demo_member labels w).1 = Ok out ∧
  claimed demo_pool labels 200 out = Fail (errval errClaimed).
Proof.
  intros env w c labels out.
  assert (Hrun : pool_claim env demo_pool Background c demo_member labels w =
    (Ok out, (pool_claim env demo_pool Background c demo_member labels w).2)) by (vm_compute; reflexivity).
  split; [by rewrite Hrun|].
  apply (claim_takes_a_member_once env 0 demo_pool Background c demo_member out labels w
    (pool_claim env demo_pool Background c demo_member labels w).2).
  - apply calm_fair.
  - split; [apply one_sandbox_ok; [reflexivity|reflexivity|by vm_compute]|by vm_compute].
  - vm_compute. reflexivity.
  - exact Hrun.
  - reflexivity.
Defined.
