(* ===== verification/ReconcileSpec.v ===== *)
(** What one pass of the reconciler may do to the store, nobody else writing
    meanwhile (controlplane/reconcile.go): leave it, move the one sandbox along
    the lifecycle, or remove it. *)

From Stdlib Require Import ZArith NArith Ascii String Lia.
From stdpp Require Import base tactics list gmap strings relations.
From S2P Require Import Prelude GoStd Errors Labels Driver Lifecycle Etag Settings Store Memory World Mutate.
From S2P Require Import Admission Protocol Templates Service Exec Verbs Operations Reconcile.

#[local] Open Scope string_scope.
#[local] Open Scope go_scope.

(** What a client decided about a sandbox, which the reconciler never changes. *)
Definition spec_of (s : Sandbox) :=
  (ID s, Template s, PolicyRev s, DriverName s, Labels s, Owner s, Settings s, CreatedAt s).

(** What the driver said of an instance, when asked to create it, to start it
    or for its status. *)
Definition reported {E} (d : Driver E) (id : string) (st : Status) : Prop :=
  ∃ e, (d_status d id e).1 = Ok st ∨ (d_start d id e).1 = Ok st ∨ ∃ spec, (d_create d spec e).1 = Ok st.

(** A restart is due at time [t]: the policy asks for one, the limit is not
    reached, and the scheduled backoff is over. *)
Definition restart_due {S E} (env : Env S E) (sb : Sandbox) (t : Z) : Prop :=
  let vals := For (c_settings env) (Lifecycle.Settings sb) in
  RestartDue (map_get vals SetRestartPolicy) (State sb) = true ∧
  (Restarts sb < Int vals SetMaxRestarts)%Z ∧
  ∃ due, NextRestart sb = Some due ∧ (due <= t)%Z.

(** Its instance runs at a tier its driver reported and the settings accept,
    and the object says so. *)
Definition verified {S E} (env : Env S E) (sb next : Sandbox) : Prop :=
  ∃ d st, registry_Get (c_drivers env) (DriverName sb) = Ok d ∧ reported d (ID sb) st ∧ st_phase st = PhaseRunning ∧
    Tier next = st_tier st ∧ TierMeets (Tier next) (min_tier env sb) = true ∧
    ∃ c, get_Condition next CondIsolationVerified = Some c ∧ c_Status c = ConditionTrue.

(** The states a pass moves to: a stop and a removal are for a client to ask. *)
Definition pass_reaches (s : state) : bool :=
  match s with StateReady | StateStopped | StateCompleted | StateError | StateStarting => true | _ => false end.

(** What a pass may make of [sb]. It never asks for a stop or a removal, and
    never changes what a client decided. *)
Record moves {S E} (env : Env S E) (sb next : Sandbox) : Prop := {
  mv_spec : spec_of next = spec_of sb;
  mv_state : State next = State sb ∨
    (CanTransition (State sb) (State next) = true ∧
     pass_reaches (State next) = true);
  mv_restart :
    (Generation next = Generation sb ∧ (Restarts next = Restarts sb ∨ (Restarts next = 0%Z ∧ State sb = StateReady)) ∧
       (State next = StateStarting → State sb = StateStarting)) ∨
    (State next = StateStarting ∧ Generation next = wrap64 (Generation sb + 1) ∧
       Restarts next = wrap64 (Restarts sb + 1) ∧ NextRestart next = None ∧
       ∃ e, restart_due env sb (x_now env e).1);
  mv_ready : State next = StateReady → (State sb = StateReady ∧ Tier next = Tier sb) ∨ verified env sb next
}.

(** ** What each change makes of the object *)

Section changes.
Context {S E : Type} (env : Env S E).

(** Everything a condition does not touch. *)
Definition core (s : Sandbox) := (spec_of s, State s, Generation s, Restarts s, Tier s, NextRestart s).

Lemma SetCondition_core s c now s' : SetCondition s c now = Ok s' → core s' = core s.
Proof. intros (c' & _ & _ & _ & _ & ->)%SetCondition_Ok. by destruct s. Qed.

Lemma Transition_core s to now s' :
  Transition s to now = Ok s' →
  CanTransition (State s) to = true ∧
  core s' = (spec_of s, to, if bool_decide (to = StateStarting) then wrap64 (Generation s + 1) else Generation s,
             Restarts s, Tier s, NextRestart s).
Proof. intros (Hc & Hs & _ & Hg & He)%Transition_Ok. split; [done|]. rewrite <- Hg. rewrite He. by destruct s. Qed.

Lemma Transition_core_other s to now s' :
  Transition s to now = Ok s' → to ≠ StateStarting →
  CanTransition (State s) to = true ∧ core s' = (spec_of s, to, Generation s, Restarts s, Tier s, NextRestart s).
Proof. intros H Hne. apply Transition_core in H. by rewrite bool_decide_eq_false_2 in H. Qed.

Lemma with_restarts_core s r n : core (with_restarts s r n) = (spec_of s, State s, Generation s, r, Tier s, n).
Proof. by destruct s. Qed.

Lemma with_tier_core s t : core (with_tier s t) = (spec_of s, State s, Generation s, Restarts s, t, NextRestart s).
Proof. by destruct s. Qed.

Lemma core_fields s a b c d e f :
  core s = (a, b, c, d, e, f) →
  spec_of s = a ∧ State s = b ∧ Generation s = c ∧ Restarts s = d ∧ Tier s = e ∧ NextRestart s = f.
Proof. unfold core. intros H. split_and!; congruence. Qed.

(** A change of conditions only. *)
Lemma moves_core sb next : core next = core sb → moves env sb next.
Proof.
  unfold core. intros H. assert (spec_of next = spec_of sb) by congruence. assert (State next = State sb) as Hs by congruence.
  assert (Generation next = Generation sb) by congruence. assert (Restarts next = Restarts sb) by congruence.
  assert (Tier next = Tier sb) by congruence. split; rewrite ?Hs; auto.
Qed.

(** The same object with another restart bookkeeping. *)
Lemma moves_next sb next n : core next = core (with_restarts sb (Restarts sb) n) → moves env sb next.
Proof.
  intros H. rewrite with_restarts_core in H. unfold core in H. assert (spec_of next = spec_of sb) by congruence.
  assert (State next = State sb) as Hs by congruence.
  assert (Generation next = Generation sb) by congruence.
  assert (Restarts next = Restarts sb) by congruence.
  assert (Tier next = Tier sb) by congruence.
  split; rewrite ?Hs; auto.
Qed.

(** A move to a state that is neither [Ready] nor [Starting]. *)
Lemma moves_down sb next to :
  CanTransition (State sb) to = true → to = StateStopped ∨ to = StateCompleted ∨ to = StateError →
  spec_of next = spec_of sb → State next = to → Generation next = Generation sb → Restarts next = Restarts sb →
  moves env sb next.
Proof.
  intros Hc Hto Hsp Hs Hg Hr. destruct Hto as [->|[->| ->]]; (split; rewrite ?Hs;
    [done|by right|left; split_and!; [done|by left|discriminate]|discriminate]).
Qed.

Lemma mt_get s t : get_Condition (with_updated s t) CondIsolationVerified = get_Condition s CondIsolationVerified.
Proof. by destruct s. Qed.

Lemma verifiedTier_core s st now s' :
  verifiedTier s st now = Ok s' →
  core s' = (spec_of s, State s, Generation s, Restarts s, st_tier st, NextRestart s) ∧
  ∃ c, get_Condition s' CondIsolationVerified = Some c ∧ c_Status c = ConditionTrue.
Proof.
  intros H. split.
  - apply SetCondition_core in H. rewrite H. by destruct s.
  - apply SetCondition_get in H as (c & Hc & Hs & _). by exists c.
Qed.

(** The failure of a start, and a start weaker than required. *)
Lemma error_moves sb ti c t next :
  (let? cur := Transition (with_tier sb ti) StateError t in SetCondition cur c t) = Ok next → moves env sb next.
Proof.
  destruct (Transition (with_tier sb ti) StateError t) as [s|] eqn:Ht; [|discriminate].
  intros H%SetCondition_core. apply Transition_core_other in Ht as [Hc Ht]; [|done]. rewrite Ht in H.
  destruct (core_fields _ _ _ _ _ _ _ (with_tier_core sb ti)) as (Hs & Hst & Hg & Hr & _).
  apply core_fields in H as (H1 & H2 & H3 & H4 & _).
  apply (moves_down sb next StateError); [by rewrite <- Hst|auto|congruence..].
Qed.

(** A start that went well, at the tier the settings ask for. *)
Lemma settle_moves_ready sb st mt t a next d :
  registry_Get (c_drivers env) (DriverName sb) = Ok d → reported d (ID sb) st → st_phase st = PhaseRunning →
  TierMeets (st_tier st) (min_tier env sb) = true →
  (settle_change st None false mt t sb a).1 = Ok next → moves env sb next.
Proof.
  intros Hd Hrep Hph Htm. unfold settle_change. cbn [fst].
  destruct (Transition sb StateReady t) as [s1|] eqn:Ht; [|discriminate]. cbn beta iota.
  destruct (SetCondition s1 _ t) as [s2|] eqn:Hs; [|discriminate]. cbn beta iota. intros H.
  apply Transition_core_other in Ht as [Hc Ht]; [|done]. apply SetCondition_core in Hs. rewrite Ht in Hs.
  apply core_fields in Hs as (H1 & H2 & H3 & H4 & _).
  apply verifiedTier_core in H as [H Hcond]. apply core_fields in H as (E1 & E2 & E3 & E4 & E5 & _).
  split.
  - congruence.
  - right. rewrite E2, H2. done.
  - left. rewrite E2, H2. split_and!; [congruence|left; congruence|discriminate].
  - intros _. right. exists d, st. rewrite E5. split_and!; first [assumption|reflexivity].
Qed.

Lemma settle_moves sb st err weak mt t a next :
  (err = None → weak = negb (TierMeets (st_tier st) (min_tier env sb))) →
  (err = None → st_phase st = PhaseRunning ∧ ∃ d, registry_Get (c_drivers env) (DriverName sb) = Ok d ∧ reported d (ID sb) st) →
  (settle_change st err weak mt t sb a).1 = Ok next → moves env sb next.
Proof.
  intros Hw Hd. destruct err as [e|].
  - unfold settle_change. cbn [fst]. intros H. apply (error_moves sb (Tier sb) (condition CondDriverReady ConditionFalse (Code e) (e_text e)) t).
    by destruct sb.
  - destruct (Hd eq_refl) as (Hph & d & Hg & Hrep). specialize (Hw eq_refl). destruct weak.
    + unfold settle_change. cbn [fst]. apply error_moves.
    + apply negb_sym, symmetry in Hw. by apply (settle_moves_ready sb st mt t a next d).
Qed.

Lemma observe_moves sb to status reason msg t next :
  to = StateStopped ∨ to = StateCompleted ∨ to = StateError ∨ State sb = to →
  observe_change to status reason msg t sb = Ok next → moves env sb next.
Proof.
  intros Hto. unfold observe_change. case_bool_decide as Hs.
  - cbn beta iota. intros H%SetCondition_core. by apply moves_core.
  - destruct (Transition sb to t) as [s1|] eqn:Ht; [|discriminate]. cbn beta iota. intros H%SetCondition_core.
    apply Transition_core_other in Ht as [Hc Ht]; [|destruct Hto as [->|[->|[->|Hto]]]; [done..|by destruct Hs]]. rewrite Ht in H.
    apply core_fields in H as (H1 & H2 & H3 & H4 & _). apply (moves_down sb next to); [done|tauto|done..].
Qed.

(** What a running report of a [Ready] sandbox changes. *)
Lemma watch_moves sb st t next d :
  State sb = StateReady → registry_Get (c_drivers env) (DriverName sb) = Ok d → reported d (ID sb) st →
  st_phase st = PhaseRunning → TierMeets (st_tier st) (min_tier env sb) = true →
  watch_change st t sb = Ok next → moves env sb next.
Proof.
  intros Hst Hd Hrep Hph Htm. unfold watch_change.
  set (ready := match get_Condition sb CondDriverReady with Some _ => _ | None => _ end).
  destruct (if ready then Ok sb else _) as [s1|] eqn:H1; [|discriminate]. cbn beta iota zeta.
  assert (core s1 = core sb) as Hc1.
  { destruct ready; [by injection H1 as <-|]. by apply SetCondition_core in H1. }
  apply core_fields in Hc1 as (E1 & E2 & E3 & E4 & E5 & _).
  destruct (if negb (Tier s1 =? st_tier st)%string then verifiedTier s1 st t else Ok s1) as [s2|] eqn:H2; [|discriminate].
  cbn beta iota zeta. set (stable := match get_Condition s2 CondDriverReady with Some _ => _ | None => _ end).
  destruct (negb (negb ready || _ || stable)); [discriminate|]. intros [= <-].
  assert (spec_of s2 = spec_of sb ∧ State s2 = State sb ∧ Generation s2 = Generation sb ∧ Restarts s2 = Restarts sb ∧
    (Tier s2 = Tier sb ∨ (Tier s2 = st_tier st ∧ ∃ c, get_Condition s2 CondIsolationVerified = Some c ∧ c_Status c = ConditionTrue)))
    as (F1 & F2 & F3 & F4 & F5).
  { destruct (negb _); [|injection H2 as <-; auto 10].
    apply verifiedTier_core in H2 as [H2 Hcond]. apply core_fields in H2 as (? & ? & ? & ? & ? & _).
    split_and!; [congruence..|]. right. done. }
  assert (∀ r n, get_Condition (with_updated (with_restarts s2 r n) t) CondIsolationVerified = get_Condition s2 CondIsolationVerified)
    as Hcond by (by destruct s2).
  assert (∃ r n, with_updated (if stable then with_restarts s2 0 (NextRestart s2) else s2) t =
    with_updated (with_restarts s2 r n) t ∧ (r = Restarts s2 ∨ r = 0%Z)) as (r & n & -> & Hr).
  { destruct stable; [by exists 0%Z, (NextRestart s2); auto|]. exists (Restarts s2), (NextRestart s2). split; [by destruct s2|auto]. }
  specialize (Hcond r n). set (nx := with_updated (with_restarts s2 r n) t) in *.
  assert (spec_of nx = spec_of s2 ∧ State nx = State s2 ∧ Generation nx = Generation s2 ∧ Restarts nx = r ∧ Tier nx = Tier s2)
    as (G1 & G2 & G3 & G4 & G5) by (unfold nx; clear; destruct s2; split_and!; reflexivity).
  clearbody nx. split.
  - congruence.
  - left. congruence.
  - left. split_and!; [congruence|destruct Hr as [Hr|Hr]; [left|right]; split_and?; congruence|congruence].
  - intros _. destruct F5 as [F5|[F5 F6]]; [left; split; congruence|right].
    exists d, st. rewrite G5, F5, Hcond. split_and!; first [assumption|reflexivity].
Qed.

Lemma limit_moves sb limit t next : limit_change limit t sb = Ok next → moves env sb next.
Proof.
  unfold limit_change. destruct (match get_Condition sb CondRestartScheduled with Some _ => _ | None => _ end); [discriminate|].
  intros H%SetCondition_core. by eapply moves_next.
Qed.

Lemma schedule_moves (rfc3339 : Z → string) sb at_ t next : schedule_change rfc3339 at_ t sb = Ok next → moves env sb next.
Proof. unfold schedule_change. intros H%SetCondition_core. by eapply moves_next. Qed.

Lemma delete_failed_moves sb e t next : delete_failed_change e t sb = Ok next → moves env sb next.
Proof.
  unfold delete_failed_change. destruct (match get_Condition sb CondDeleteFailed with Some _ => _ | None => _ end); [discriminate|].
  intros H%SetCondition_core. by apply moves_core.
Qed.

Lemma restart_moves sb t next :
  (∃ e, restart_due env sb (x_now env e).1) → restart_change t sb = Ok next → moves env sb next.
Proof.
  intros Hdue. unfold restart_change. destruct (Transition sb StateStarting t) as [s1|] eqn:Ht; [|discriminate].
  cbn beta iota. intros H%SetCondition_core. apply Transition_core in Ht as [Hc Ht].
  rewrite bool_decide_eq_true_2 in Ht by done. apply core_fields in Ht as (E1 & E2 & E3 & E4 & E5 & _).
  rewrite with_restarts_core in H. apply core_fields in H as (F1 & F2 & F3 & F4 & F5 & F6).
  split; rewrite ?F2, ?E2; [congruence|by right| |discriminate].
  right. split_and!; [done|congruence|congruence|done|done].
Qed.

End changes.

Section spec.
Context {S E : Type} `{!Store S, !StoreLaws S} (env : Env S E) (rfc3339 : Z → string).
Hypothesis Hcalm : calm env.
Abbreviation W := (World S E).
Abbreviation store_of w := (sh_store (w_sh w)).

(** The store holds [V] and has room for [k] more calls. *)
Definition held_at (V : gmap string Sandbox) (k : nat) (s : S) : Prop := view s = V ∧ has_room k s.

Lemma read_calm V k id :
  triple (on (held_at V (1 + k))) (on_store env (st_Get id))
    (λ r w, match r with Ok sb => V !! id = Some sb | Fail _ => True end ∧ on (held_at V k) w).
Proof.
  intros w [Hv [Hok Hr]]. destruct (on_store_calm env Hcalm (st_Get id) w) as [H1 H2].
  pose proof (Get_spec (store_of w) id Hok) as [Hg1 Hg2]. rewrite <- H1 in Hg2. rewrite Hv in Hg2.
  destruct (Get_room k (store_of w) id Hok ltac:(lia)) as [Hok' Hr'].
  split; [by destruct (on_store env (st_Get id) w).1|]. split; [unfold on; rewrite H2; congruence|]. unfold on. rewrite H2. by split.
Qed.

Lemma update_calm V k tag next v :
  triple (on (held_at V (1 + k))) (writes env "Update" tag (st_Update next v))
    (λ r w, match r with
            | Ok out => (∃ cur, V !! ID next = Some cur ∧ CheckImmutable cur next = None) ∧ Valid (State next) = true ∧
                out = with_version next (ResourceVersion out) ∧ on (held_at (<[ID next := out]> V) k) w
            | Fail _ => on (held_at V k) w
            end).
Proof.
  intros w [Hv [Hok Hr]]. destruct (writes_calm env Hcalm "Update" tag (st_Update next v) w) as [H1 H2].
  pose proof (Update_spec (store_of w) next v Hok ltac:(lia)) as Hu. rewrite <- H1, <- H2 in Hu.
  destruct (Update_room k (store_of w) next v Hok ltac:(lia)) as [Hok' Hr']. rewrite <- H2 in Hok', Hr'.
  destruct (writes env "Update" tag (st_Update next v) w).1 as [out|e].
  - destruct Hu as (cur & Hl & _ & Him & Hval & _ & Hout & Hview). rewrite Hv in Hl, Hview.
    split_and!; [by exists cur|done|done|]. by split.
  - by split; [congruence|].
Qed.

Lemma held_less V k k' (w : W) : (k ≤ k')%nat → on (held_at V k') w → on (held_at V k) w.
Proof. intros Hk [? [? ?]]. by split; [|split; [|lia]]. Qed.

(** One attempt of the retry loop. *)
Lemma mutate_loop_eq {A} n id ifMatch (fn : Sandbox → A → M W (result Sandbox * A)) a :
  mutate_loop env n id ifMatch fn a =
  (let! r := on_store env (st_Get id) in
   match r with Fail e => mreturn (Fail e, a) | Ok cur =>
   match CheckIfMatch ifMatch (ResourceVersion cur) with Some e => mreturn (Fail e, a) | None =>
   let! (r, a) := fn cur a in
   match r with Fail e => mreturn (Fail e, a) | Ok next =>
   let! u := writes env "Update" id (st_Update next (ResourceVersion cur)) in
   match u with
   | Ok out => mreturn (Ok out, a)
   | Fail e =>
       if negb (Is e ErrVersionMismatch) then mreturn (Fail e, a)
       else if pinned ifMatch then mreturn (Fail (errorf ErrPreconditionFailed (e_text e)), a)
       else match n with
            | 0%nat => mreturn (Fail e, a)
            | Datatypes.S n => mutate_loop env n id ifMatch fn a
            end
   end end end end).
Proof. by destruct n. Qed.

(** [Mutate] with nobody else about: [fn] sees the stored object [sb]. *)
Lemma mutate_calm {A} V k id ifMatch sb (I : A → Prop) (φ : Sandbox → A → Prop)
    (fn : Sandbox → A → M W (result Sandbox * A)) a :
  V !! id = Some sb →
  (∀ a, store_quiet (fn sb a)) →
  (∀ a, I a → yields (fn sb a) (λ r, I r.2 ∧ match r.1 with Ok next => ID next = id ∧ φ next r.2 | Fail _ => True end)) →
  I a →
  triple (on (held_at V (12 + k))) (Mutate env id ifMatch fn a)
    (λ r w, match r.1 with
            | Ok out => ∃ next, φ next r.2 ∧ CheckImmutable sb next = None ∧ Valid (State next) = true ∧
                out = with_version next (ResourceVersion out) ∧ on (held_at (<[id := out]> V) k) w
            | Fail _ => on (held_at V k) w
            end).
Proof.
  intros Hsb Hq Hy. unfold Mutate, mutateRetries.
  assert (H : ∀ n a, I a → triple (on (held_at V (2 * (1 + n) + k))) (mutate_loop env n id ifMatch fn a)
    (λ r w, match r.1 with
            | Ok out => ∃ next, φ next r.2 ∧ CheckImmutable sb next = None ∧ Valid (State next) = true ∧
                out = with_version next (ResourceVersion out) ∧ on (held_at (<[id := out]> V) k) w
            | Fail _ => on (held_at V k) w
            end)); [|apply (H 5%nat)].
  clear a. intros n. induction n as [n IH] using lt_wf_ind. intros a Ha. rewrite mutate_loop_eq.
  eapply triple_bind;
    [eapply triple_conseq; [apply (read_calm V (2 * n + 1 + k) id)|intros w; apply held_less; lia|intros ? ? H; exact H]|].
  intros r; apply triple_pure; intros Hr; destruct r as [cur|e]; [|apply triple_ret; intros w; apply held_less; lia].
  rewrite Hsb in Hr; injection Hr as <-.
  destruct (CheckIfMatch _ _); [apply triple_ret; intros w; apply held_less; lia|].
  eapply triple_bind; [apply (quiet_triple_pure _ _ _ (Hq a) (Hy a Ha))|].
  intros [r a']; cbn beta; apply triple_pure; intros [Ha' Hr]; cbn [fst snd] in *.
  destruct r as [next|e]; [|apply triple_ret; intros w; apply held_less; lia]. destruct Hr as [Hid Hphi].
  eapply triple_bind;
    [eapply triple_conseq; [apply (update_calm V (2 * n + k) id next (ResourceVersion sb))|intros w; apply held_less; lia|intros ? ? H; exact H]|].
  intros [out|e]; cbn beta.
  - intros w ((cur & Hl & Him) & Hval & Hout & Hh). cbn [fst snd mreturn]. rewrite Hid in *.
    assert (cur = sb) as -> by congruence. exists next. split_and!; [done..|]. eapply held_less; [|exact Hh]; lia.
  - destruct (negb (Is e ErrVersionMismatch)); [apply triple_ret; intros w; apply held_less; lia|].
    destruct (pinned ifMatch); [apply triple_ret; intros w; apply held_less; lia|].
    destruct n as [|n]; [apply triple_ret; intros w; apply held_less; lia|].
    eapply triple_conseq; [apply (IH n ltac:(lia) a' Ha')|intros w; apply held_less; lia|intros ? ? H; exact H].
Qed.
(** Every resource of the removed sandbox was given back first: the driver
    deleted the instance, or never had it. *)
Definition torn_down (sb : Sandbox) : Prop :=
  ∃ d e, registry_Get (c_drivers env) (DriverName sb) = Ok d ∧ ignoring DErrNotFound (d_delete d (ID sb) e).1 = None.

(** How a pass over [sb] leaves a store that held [V]. *)
Definition passed (V : gmap string Sandbox) (sb : Sandbox) (s : S) : Prop :=
  view s = V ∨
  (∃ next out, moves env sb next ∧ out = with_version next (ResourceVersion out) ∧ Valid (State out) = true ∧
     view s = <[ID sb := out]> V) ∨
  (State sb = StateDeleting ∧ torn_down sb ∧ view s = delete (ID sb) V).

Lemma held_passed V sb k (w : W) : on (held_at V k) w → on (passed V sb) w.
Proof. intros [? _]. by left. Qed.

Lemma guarded_calm {A} V sb (fn : Sandbox → A → result Sandbox * A) a :
  V !! ID sb = Some sb → (∀ a next, (fn sb a).1 = Ok next → moves env sb next) →
  triple (on (held_at V 12)) (guarded env sb fn a) (λ _, on (passed V sb)).
Proof.
  intros Hsb Hfn. unfold guarded. eapply triple_bind.
  { apply (mutate_calm V 0 (ID sb) "" sb (λ _, True) (λ next _, moves env sb next) (guarded_fn sb fn));
      [done|done| |done].
    intros a' _ w. unfold guarded_fn, mreturn. cbn [fst]. split; [done|].
    destruct (_ || _); [done|]. destruct (fn sb a').1 as [next|] eqn:Hn; [|done].
    apply Hfn in Hn. split; [|done]. pose proof (mv_spec _ _ _ Hn) as Hs. unfold spec_of in Hs. congruence. }
  intros [[out|e] a']; cbn [fst snd]; apply triple_ret; intros w.
  - intros (next & Hm & _ & Hval & Hout & Hv & _). right. left. exists next, out. split_and!; [done|done| |done].
    rewrite Hout. by destruct next.
  - apply held_passed.
Qed.

Lemma guarded1_calm V sb (fn : Sandbox → result Sandbox) :
  V !! ID sb = Some sb → (∀ next, fn sb = Ok next → moves env sb next) →
  triple (on (held_at V 12)) (guarded1 env sb fn) (λ _, on (passed V sb)).
Proof.
  intros Hsb Hfn. unfold guarded1. eapply triple_bind; [apply (guarded_calm V sb (λ cur (a : unit), (fn cur, a)) tt); [done|intros a' next H; by apply Hfn]|].
  intros [r u]. by apply triple_ret.
Qed.

Lemma quiet_note sb from reason : store_quiet (note env sb from reason).
Proof. unfold note. case_bool_decide; [apply quiet_ret|]. apply quiet_bind; [apply quiet_record|]. intros ?. apply quiet_ret. Qed.

Lemma quiet_after_pass sb out reason : store_quiet (after_pass env sb out reason).
Proof.
  unfold after_pass. apply quiet_bind; [apply quiet_note|]. intros ?.
  apply quiet_bind; [case_bool_decide; [apply quiet_Kick|apply quiet_ret]|]. intros ?. apply quiet_ret.
Qed.

(** A driver call, nobody else about, leaves the store; its result is one the
    driver gives. *)
Lemma drives_calm {A} (P : S → Prop) what id (m : M E A) :
  triple (on P) (drives env what id m) (λ a w, (∃ e, (m e).1 = a) ∧ on P w).
Proof.
  intros w Hw. unfold drives, mthen, emit, ext, others. simpl. destruct (m (w_ext w)) as [a e] eqn:Em. simpl.
  pose proof (Hcalm (w_sh w) e) as H. destruct (x_others env (w_sh w) e) as [sh e2]. simpl in *.
  split; [exists (w_ext w); by rewrite Em|]. unfold on in *. simpl. by rewrite H.
Qed.

Lemma now_calm (P : S → Prop) : triple (on P) (now env) (λ t w, (∃ e, (x_now env e).1 = t) ∧ on P w).
Proof. apply quiet_triple_pure; [apply quiet_ext|]. intros w. exists (w_ext w). unfold now, ext. by destruct (x_now env (w_ext w)). Qed.

(** Steps after the write. *)
Lemma then_quiet {A B} (P : S → Prop) (m : M W A) (k : A → M W B) (Q : W → Prop) :
  triple Q m (λ _, on P) → (∀ a, store_quiet (k a)) → triple Q (mthen m k) (λ _, on P).
Proof. intros Hm Hk. eapply triple_bind; [exact Hm|]. intros a. by apply quiet_triple. Qed.

Lemma settle_calm V sb st err :
  V !! ID sb = Some sb →
  (err = None → ∃ d, registry_Get (c_drivers env) (DriverName sb) = Ok d ∧ reported d (ID sb) st) →
  triple (on (held_at V 12)) (settle env sb st err) (λ _, on (passed V sb)).
Proof.
  intros Hsb Hd. unfold settle. eapply triple_bind; [apply now_calm|]. intros t. cbn beta. apply triple_pure. intros _.
  cbn zeta. set (err' := match err with None => _ | Some e => Some e end).
  set (weak := negb (opt_some err') && _). eapply triple_bind.
  { instantiate (1 := λ _, on (held_at V 12)). destruct weak; [|by apply triple_ret].
    destruct (registry_Get _ _); [|by apply triple_ret]. eapply triple_bind; [apply drives_calm|]. intros ?. cbn beta.
    apply triple_pure. intros _. by apply triple_ret. }
  intros []. cbn beta. apply then_quiet.
  - apply guarded_calm; [done|]. intros a next. apply settle_moves.
    + unfold weak. intros ->. reflexivity.
    + subst err'. destruct err as [e|]; [discriminate|]. case_bool_decide as Hph; [|discriminate]. intros _. auto.
  - intros [[out|e] r]; cbn beta iota; [apply quiet_after_pass|apply quiet_ret].
Qed.

Lemma observe_calm V sb to status reason msg :
  V !! ID sb = Some sb → to = StateStopped ∨ to = StateCompleted ∨ to = StateError ∨ State sb = to →
  triple (on (held_at V 12)) (observe env sb to status reason msg) (λ _, on (passed V sb)).
Proof.
  intros Hsb Hto. unfold observe. eapply triple_bind; [apply now_calm|]. intros t. cbn beta. apply triple_pure. intros _.
  apply then_quiet; [apply guarded1_calm; [done|]; intros next; by apply observe_moves|].
  intros [out|e]; cbn beta iota; [apply quiet_after_pass|apply quiet_ret].
Qed.

Lemma watch_calm V sb d r :
  V !! ID sb = Some sb → State sb = StateReady → registry_Get (c_drivers env) (DriverName sb) = Ok d →
  (∀ st, r = Ok st → reported d (ID sb) st) →
  triple (on (held_at V 12)) (watch env sb r) (λ _, on (passed V sb)).
Proof.
  intros Hsb Hs Hd Hr. unfold watch. destruct r as [st|e].
  - specialize (Hr st eq_refl). destruct (st_phase st) eqn:Hph.
    all: try (apply observe_calm; [done|auto]).
    destruct (TierMeets _ _) eqn:Htm; cbn [negb].
    + eapply triple_bind; [apply now_calm|]. intros t. cbn beta. apply triple_pure. intros _.
      apply then_quiet; [|intros ?; apply quiet_ret]. apply guarded1_calm; [done|]. intros next.
      by apply (watch_moves env sb st t next d).
    + apply settle_calm; [done|]. eauto.
  - destruct (Is e DErrNotFound); [apply observe_calm; [done|auto]|].
    assert (triple (on (held_at V 12)) (let! oe := observe env sb StateReady ConditionUnknown "StatusFailed" (e_text e) in
              mreturn (match oe with Some oe => Some oe | None => Some e end)) (λ _, on (passed V sb))).
    { apply then_quiet; [apply observe_calm; auto|intros ?; apply quiet_ret]. }
    destruct (get_Condition sb CondDriverReady) as [[? [] ? ? ? ?]|]; try done.
    apply triple_ret. intros w. apply held_passed.
Qed.

Lemma restart_calm V sb :
  V !! ID sb = Some sb → triple (on (held_at V 12)) (restart env rfc3339 sb) (λ _, on (passed V sb)).
Proof.
  intros Hsb. unfold restart. cbn zeta. eapply triple_bind; [apply now_calm|]. intros t. cbn beta. apply triple_pure. intros Ht.
  destruct (RestartDue _ _) eqn:Hdue; cbn [negb].
  2: { destruct (NextRestart sb); [|apply triple_ret; intros w; apply held_passed].
       apply then_quiet; [|intros ?; apply quiet_ret]. apply guarded1_calm; [done|]. intros next [= <-].
       by eapply moves_next. }
  destruct (Int _ _ <=? Restarts sb)%Z eqn:Hmax.
  { apply then_quiet; [|intros ?; apply quiet_ret]. apply guarded1_calm; [done|]. intros next. apply limit_moves. }
  destruct (NextRestart sb) as [due|] eqn:Hn.
  2: { apply then_quiet; [|intros ?; apply quiet_ret]. apply guarded1_calm; [done|]. intros next. apply schedule_moves. }
  destruct (t <? due)%Z eqn:Hlt; [apply triple_ret; intros w; apply held_passed|].
  eapply triple_bind; [apply quiet_triple, quiet_record|]. intros [e|]; [apply triple_ret; intros w; apply held_passed|].
  cbn beta iota. apply then_quiet.
  - apply guarded1_calm; [done|]. intros next. apply restart_moves. destruct Ht as [e He]. exists e. rewrite He.
    unfold restart_due. bool_to_prop. split_and!; [done|lia|]. exists due. split; [done|lia].
  - intros r. apply quiet_bind; [apply quiet_outcome|]. intros ?.
    destruct r; [|apply quiet_ret]. apply quiet_bind; [case_bool_decide; [apply quiet_Kick|apply quiet_ret]|]. intros ?. apply quiet_ret.
Qed.

Lemma tear_down_calm (P : S → Prop) sb :
  triple (on P) (tear_down env sb (registry_Get (c_drivers env) (DriverName sb)))
    (λ r w, (r = None → torn_down sb) ∧ on P w).
Proof.
  unfold tear_down. eapply (triple_bind _ _ _ (λ r w, (r = None → torn_down sb) ∧ on P w)).
  { destruct (registry_Get _ _) as [d|e] eqn:Hd; [|apply triple_ret; by intros w Hw].
    eapply triple_bind; [apply drives_calm|]. intros r. cbn beta. apply triple_pure. intros [e He]. apply triple_ret.
    intros w Hw. split; [|done]. intros Hn. exists d, e. by rewrite He. }
  intros [e|]; cbn beta; apply triple_pure; intros Ht; [by apply triple_ret|].
  eapply (triple_bind _ _ _ (λ _, on P)).
  { apply quiet_triple. destruct (c_release_workspace env); [apply quiet_ext|apply quiet_ret]. }
  intros [e|]; [by apply triple_ret|]. eapply triple_conseq with (P' := on P); [|auto|].
  { apply (quiet_triple P). destruct (c_egress env) as [eg|]; [|apply quiet_ret].
    destruct (eg_For eg _); [apply quiet_ext|apply quiet_ret]. }
  intros r w Hw. by split; [intros _; apply Ht|].
Qed.

Lemma remove_calm V sb :
  V !! ID sb = Some sb → State sb = StateDeleting →
  triple (on (held_at V 12)) (remove env sb (registry_Get (c_drivers env) (DriverName sb))) (λ _, on (passed V sb)).
Proof.
  intros Hsb Hst. unfold remove. eapply triple_bind; [apply tear_down_calm|]. intros [e|]; cbn beta; apply triple_pure; intros Ht.
  { eapply triple_bind; [apply now_calm|]. intros t. cbn beta. apply triple_pure. intros _.
    apply then_quiet; [|intros ?; apply quiet_ret]. apply guarded1_calm; [done|]. intros next. apply delete_failed_moves. }
  specialize (Ht eq_refl). apply then_quiet.
  - intros w [Hv [Hok _]]. destruct (writes_calm env Hcalm "Delete" (ID sb) (st_Delete (ID sb) (ResourceVersion sb)) w) as [_ H2].
    pose proof (Delete_spec (store_of w) (ID sb) (ResourceVersion sb) Hok) as H. unfold on, passed. rewrite H2.
    destruct (st_Delete _ _ (store_of w)).1 as [e|].
    + left. congruence.
    + destruct H as (cur & _ & _ & ->). rewrite Hv. auto.
  - intros [e|].
    + destruct (Is e ErrNotFound); [apply quiet_ret|]. destruct (Is e ErrVersionMismatch); [|apply quiet_ret].
      apply quiet_bind; [apply quiet_Kick|]. intros ?. apply quiet_ret.
    + apply quiet_bind; [apply quiet_record|]. intros ?. apply quiet_ret.
Qed.

(** What comes back from building or starting is the driver's own report. *)
Lemma build_calm (P : S → Prop) d id spec :
  triple (on P) (build env d id spec) (λ r w, (∀ st, r = Ok st → reported d id st) ∧ on P w).
Proof.
  unfold build. eapply triple_bind; [apply drives_calm|]. intros [st|e]; cbn beta; apply triple_pure; intros [x Hx].
  { apply triple_ret. intros w Hw. split; [|done]. intros st' [= <-]. exists x. eauto. }
  destruct (Is e DErrExists); [|by apply triple_ret].
  eapply triple_bind; [apply drives_calm|]. intros [st|e2]; cbn beta; apply triple_pure; intros [y Hy]; [|by apply triple_ret].
  case_bool_decide.
  - apply triple_ret. intros w Hw. split; [|done]. intros st' [= <-]. exists y. eauto.
  - eapply triple_conseq; [apply (drives_calm P)|auto|]. intros r w [[z Hz] Hw]. split; [|done].
    intros st' ->. exists z. eauto.
Qed.

Lemma start_again_calm (P : S → Prop) d id spec :
  triple (on P) (start_again env d id spec) (λ r w, (∀ st, r = Ok st → reported d id st) ∧ on P w).
Proof.
  unfold start_again. eapply triple_bind; [apply drives_calm|]. intros [st|e]; cbn beta; apply triple_pure; intros [x Hx].
  { apply triple_ret. intros w Hw. split; [|done]. intros st' [= <-]. exists x. eauto. }
  destruct (Is e DErrNotFound); [|by apply triple_ret].
  eapply triple_conseq; [apply (drives_calm P)|auto|]. intros r w [[z Hz] Hw]. split; [|done].
  intros st' ->. exists z. eauto 6.
Qed.

Lemma quiet_svc_spec sb : store_quiet (svc_spec env sb).
Proof.
  unfold svc_spec. apply quiet_bind; [apply quiet_ext|]. intros [ws|e]; [|apply quiet_ret].
  destruct (c_egress env) as [eg|]; [|apply quiet_ret]. destruct (negb _); [apply quiet_ret|].
  apply quiet_bind; [apply quiet_ext|]. intros ?. apply quiet_ret.
Qed.

Lemma quiet_take_grace id : store_quiet (S:=S) (E:=E) (take_grace id).
Proof. intros w. unfold take_grace, mthen, shared, set_shared. simpl. by destruct (w_sh w). Qed.

Lemma settle_failed_calm V sb e :
  V !! ID sb = Some sb → triple (on (held_at V 12)) (settle env sb no_status (Some e)) (λ _, on (passed V sb)).
Proof. intros Hsb. by apply settle_calm. Qed.

Lemma settle_result_calm V sb d r :
  V !! ID sb = Some sb → registry_Get (c_drivers env) (DriverName sb) = Ok d → (∀ st, r = Ok st → reported d (ID sb) st) →
  triple (on (held_at V 12)) (settle_result env sb r) (λ _, on (passed V sb)).
Proof.
  intros Hsb Hd Hr. destruct r as [st|e]; [|by apply settle_failed_calm]. apply settle_calm; [done|]. eauto.
Qed.

Lemma bring_up_calm V sb :
  V !! ID sb = Some sb → State sb = StateProvisioning ∨ State sb = StateStarting →
  triple (on (held_at V 12)) (pass_on env rfc3339 sb) (λ _, on (passed V sb)).
Proof.
  intros Hsb Hs. unfold pass_on. cbn zeta.
  assert (H : triple (on (held_at V 12)) (match registry_Get (c_drivers env) (DriverName sb) with
      | Fail _ => settle env sb no_status (Some (errorf DErrUnavailable ("driver " ++ DriverName sb ++ " is not registered")))
      | Ok d => let! spec := svc_spec env sb in
          match spec with
          | Fail e => settle env sb no_status (Some e)
          | Ok spec =>
              let! r := (if bool_decide (State sb = StateProvisioning) then build env d (ID sb) spec else start_again env d (ID sb) spec) in
              settle_result env sb r
          end
      end) (λ _, on (passed V sb))); [|by destruct Hs as [Hs|Hs]; rewrite Hs in H |- *].
  destruct (registry_Get _ _) as [d|e] eqn:Hd; [|by apply settle_failed_calm].
  eapply triple_bind; [apply quiet_triple, quiet_svc_spec|]. intros [spec|e]; [|by apply settle_failed_calm]. cbn beta iota.
  eapply (triple_bind _ _ _ (λ r w, (∀ st, r = Ok st → reported d (ID sb) st) ∧ on (held_at V 12) w)).
  { case_bool_decide; [apply build_calm|apply start_again_calm]. }
  intros r. apply triple_pure. intros Hr. by apply (settle_result_calm V sb d).
Qed.

Lemma pass_on_calm V sb :
  V !! ID sb = Some sb → triple (on (held_at V 12)) (pass_on env rfc3339 sb) (λ _, on (passed V sb)).
Proof.
  intros Hsb. destruct (State sb) eqn:Hs; [by apply bring_up_calm; auto| | | |by apply bring_up_calm; auto| | | |].
  all: unfold pass_on; cbn zeta; rewrite Hs.
  - destruct (registry_Get _ _) as [d|e] eqn:Hd; [|by apply observe_calm; auto].
    eapply triple_bind; [apply drives_calm|]. intros r. cbn beta. apply triple_pure. intros [x Hx].
    apply (watch_calm V sb d); [done..|]. intros st ->. exists x. auto.
  - destruct (registry_Get _ _) as [d|e] eqn:Hd; [|by apply observe_calm; auto].
    eapply triple_bind; [apply quiet_triple, quiet_take_grace|]. intros grace. cbn beta.
    eapply triple_bind; [apply drives_calm|]. intros r. cbn beta. apply triple_pure. intros _.
    destruct r as [st|e]; [|destruct (Is e DErrNotFound)]; apply observe_calm; auto.
  - apply triple_ret. intros w. apply held_passed.
  - by apply restart_calm.
  - by apply restart_calm.
  - by apply remove_calm.
  - apply triple_ret. intros w. apply held_passed.
Qed.

End spec.

(** ** A pass settles what is on its way *)

(** The states a start and a stop end in. *)
Definition settles (from to : state) : Prop :=
  match from with
  | StateProvisioning | StateStarting => to = StateReady ∨ to = StateError
  | StateStopping => to = StateStopped ∨ to = StateError
  | _ => False
  end.

Section settling.
Context {E : Type} (env : Env Memory E) (rfc3339 : Z → string).
Hypothesis Hcalm : calm env.
Abbreviation W := (World Memory E).
Implicit Types (V : gmap string Sandbox).

Definition holds V (m : Memory) : Prop := m_sandboxes m = V.

(** The pass wrote [sb]'s object, in a state that settles it. *)
Definition pass_settled V (sb : Sandbox) (m : Memory) : Prop :=
  ∃ out, settles (State sb) (State out) ∧ m_sandboxes m = <[ID sb := out]> V.

Lemma CheckImmutable_moves sb next :
  moves env sb next → Generation next = Generation sb → CheckImmutable sb next = None.
Proof.
  intros H Hg. apply CheckImmutable_None. pose proof (mv_spec _ _ _ H) as Hs. unfold spec_of in Hs.
  injection Hs as _ _ _ Hd _ Ho _ Hc. split_and!; [done..|lia].
Qed.

Lemma memory_update_commits m sb next :
  m_sandboxes m !! ID sb = Some sb → ID next = ID sb → Valid (State next) = true → CheckImmutable sb next = None →
  ∃ v, memory_Update next (ResourceVersion sb) m =
    (Ok (with_version next v), put_sandboxes m v (<[ID sb := with_version next v]> (m_sandboxes m))).
Proof.
  intros Hl Hid Hval Him. exists (wrap64 (m_rv m + 1)). unfold memory_Update. rewrite Hval, Hid, Hl. cbn [negb].
  rewrite Z.eqb_refl. cbn [negb]. rewrite Him, <- Hid. by destruct next.
Qed.

(** Nobody else about, a change that is allowed is committed. *)
Lemma guarded_commits {A} V sb (fn : Sandbox → A → result Sandbox * A) a next :
  V !! ID sb = Some sb → (fn sb a).1 = Ok next → ID next = ID sb → Valid (State next) = true →
  CheckImmutable sb next = None → settles (State sb) (State next) →
  triple (on (holds V)) (guarded env sb fn a) (λ _, on (pass_settled V sb)).
Proof.
  intros Hsb Hfn Hid Hval Him Hset w Hw. unfold on, holds in Hw. unfold guarded, Mutate, mutateRetries.
  rewrite mutate_loop_eq. unfold mthen.
  destruct (on_store_calm env Hcalm (st_Get (ID sb)) w) as [G1 G2]. destruct (on_store env (st_Get (ID sb)) w) as [r w1].
  simpl in G1, G2. unfold memory_Get in G1, G2. rewrite Hw, Hsb in G1, G2. simpl in G1, G2. rewrite G1.
  change (CheckIfMatch "" (ResourceVersion sb)) with (@None error). cbn beta iota.
  unfold guarded_fn, mreturn. rewrite bool_decide_eq_true_2, Z.eqb_refl by done. cbn [negb orb].
  destruct (fn sb a) as [rn a']. cbn [fst] in Hfn. rewrite Hfn. cbn beta iota.
  destruct (writes_calm env Hcalm "Update" (ID sb) (st_Update next (ResourceVersion sb)) w1) as [U1 U2].
  destruct (memory_update_commits (sh_store (w_sh w1)) sb next) as [v Hv]; [by rewrite G2, Hw|done..|].
  destruct (writes env "Update" (ID sb) (st_Update next (ResourceVersion sb)) w1) as [u w2].
  cbn [fst snd st_Update memory_store] in U1, U2. rewrite Hv in U1, U2. cbn [fst snd] in U1, U2. rewrite U1.
  cbn [fst snd]. exists (with_version next v). unfold on. rewrite U2, G2, <- Hw.
  split; [by destruct next|]. by destruct (sh_store (w_sh w)).
Qed.

(** Conditions the reconciler sets are well-formed. *)
Lemma set_ok {A} s t st reason msg now (k : Sandbox → result A) :
  t ≠ "" → (∀ x, st ≠ ConditionOther x) →
  ∃ s', SetCondition s (condition t st reason msg) now = Ok s' ∧
    (let? c := SetCondition s (condition t st reason msg) now in k c) = k s'.
Proof.
  intros Ht Hst. pose proof (SetCondition_condition s t st reason msg now Ht Hst) as H.
  destruct (SetCondition s _ now) as [s'|]; [|done]. by exists s'.
Qed.

Lemma Transition_runs s to now : CanTransition (State s) to = true → ∃ s', Transition s to now = Ok s' ∧ State s' = to.
Proof. intros H. unfold Transition. rewrite H. cbn [negb]. eexists. split; [done|]. by destruct s. Qed.

(** From a state on its way up, [settle] always has something to write. *)
Lemma settle_change_runs sb st err weak mt t a :
  State sb = StateProvisioning ∨ State sb = StateStarting →
  ∃ next, (settle_change st err weak mt t sb a).1 = Ok next ∧ (State next = StateReady ∨ State next = StateError).
Proof.
  intros Hs. assert (He : ∀ ti, CanTransition (State (with_tier sb ti)) StateError = true)
    by (intros ti; destruct Hs as [Hs|Hs]; destruct sb; simpl in *; by rewrite Hs).
  assert (Hr : CanTransition (State sb) StateReady = true) by (destruct Hs as [-> | ->]; done).
  assert (Herr : ∀ ti c s m, c ≠ "" → ∃ next,
    (let? cur := Transition (with_tier sb ti) StateError t in SetCondition cur (condition c ConditionFalse s m) t) = Ok next ∧
    State next = StateError).
  { intros ti c s m Hc. destruct (Transition_runs (with_tier sb ti) StateError t (He ti)) as (s1 & -> & Hs1). cbn beta iota.
    destruct (set_ok s1 c ConditionFalse s m t Ok Hc ltac:(done)) as (s2 & H2 & _). exists s2. split; [done|].
    apply SetCondition_core, core_fields in H2 as (_ & H2 & _). congruence. }
  unfold settle_change. destruct err as [e|]; [|destruct weak].
  - destruct (Herr (Tier sb) CondDriverReady (Code e) (e_text e) ltac:(done)) as (next & Hn & Hst). exists next.
    split; [|auto]. rewrite <- Hn. cbn [fst]. by destruct sb.
  - cbn [fst]. edestruct Herr as (next & Hn & Hst); [|exists next; split; [exact Hn|auto]]. done.
  - cbn [fst]. destruct (Transition_runs sb StateReady t Hr) as (s1 & -> & Hs1). cbn beta iota.
    edestruct (set_ok s1 CondDriverReady ConditionTrue a "" t (λ c, verifiedTier c st t)) as (s2 & H2 & ->); [done..|].
    unfold verifiedTier. match goal with |- ∃ _, SetCondition ?s (condition _ _ ?r ?m) _ = _ ∧ _ =>
      destruct (set_ok s CondIsolationVerified ConditionTrue r m t Ok ltac:(done) ltac:(done)) as (s3 & H3 & _) end.
    exists s3. split; [exact H3|left].
    apply SetCondition_core, core_fields in H2 as (_ & H2 & _). apply SetCondition_core, core_fields in H3 as (_ & H3 & _).
    rewrite H3. destruct s2; simpl in *. congruence.
Qed.

Lemma observe_change_runs sb to status reason msg t :
  CanTransition (State sb) to = true → (∀ x, status ≠ ConditionOther x) →
  ∃ next, observe_change to status reason msg t sb = Ok next ∧ State next = to.
Proof.
  intros Hc Hst. unfold observe_change.
  assert (∃ s1, (if bool_decide (State sb = to) then Ok sb else Transition sb to t) = Ok s1 ∧ State s1 = to) as (s1 & -> & Hs1).
  { case_bool_decide; [by exists sb|by apply Transition_runs]. }
  cbn beta iota. destruct (set_ok s1 CondDriverReady status reason msg t Ok ltac:(done) Hst) as (s2 & H2 & _).
  exists s2. split; [done|]. apply SetCondition_core, core_fields in H2 as (_ & H2 & _). congruence.
Qed.

(** A change that moves to a state that settles the sandbox is committed. *)
Lemma guarded_settles {A} V sb (fn : Sandbox → A → result Sandbox * A) a next :
  V !! ID sb = Some sb → (fn sb a).1 = Ok next → moves env sb next → settles (State sb) (State next) →
  triple (on (holds V)) (guarded env sb fn a) (λ _, on (pass_settled V sb)).
Proof.
  intros Hsb Hfn Hm Hset. pose proof (mv_spec _ _ _ Hm) as Hs. unfold spec_of in Hs. injection Hs as Hid _ _ _ _ _ _ _.
  assert (Hg : Generation next = Generation sb).
  { destruct (mv_restart _ _ _ Hm) as [[Hg _]|[Hst _]]; [done|]. rewrite Hst in Hset.
    destruct (State sb); simpl in Hset; try done; by destruct Hset. }
  apply (guarded_commits V sb fn a next); [done..| |by apply CheckImmutable_moves|done].
  destruct (State sb); simpl in Hset; try done; by destruct Hset as [-> | ->].
Qed.

Lemma settle_settles V sb st err :
  V !! ID sb = Some sb → State sb = StateProvisioning ∨ State sb = StateStarting →
  (err = None → ∃ d, registry_Get (c_drivers env) (DriverName sb) = Ok d ∧ reported d (ID sb) st) →
  triple (on (holds V)) (settle env sb st err) (λ _, on (pass_settled V sb)).
Proof.
  intros Hsb Hs Hd. unfold settle. eapply triple_bind; [by apply now_calm|]. intros t. cbn beta. apply triple_pure. intros _.
  cbn zeta. set (err' := match err with None => _ | Some e => Some e end).
  set (weak := negb (opt_some err') && _). eapply triple_bind.
  { instantiate (1 := λ _, on (holds V)). destruct weak; [|by apply triple_ret].
    destruct (registry_Get _ _); [|by apply triple_ret]. eapply triple_bind; [by apply drives_calm|]. intros ?. cbn beta.
    apply triple_pure. intros _. by apply triple_ret. }
  intros []. cbn beta. apply then_quiet.
  - destruct (settle_change_runs sb st err' weak (min_tier env sb) t "Started" Hs) as (next & Hn & Hst).
    apply (guarded_settles V sb _ "Started" next); [done|exact Hn| |by destruct Hs as [-> | ->]].
    apply (settle_moves env sb st err' weak (min_tier env sb) t "Started" next); [| |exact Hn].
    + unfold weak. intros ->. reflexivity.
    + subst err'. destruct err as [e|]; [discriminate|]. case_bool_decide as Hph; [|discriminate]. intros _. auto.
  - intros [[out|e] r]; cbn beta iota; [by apply quiet_after_pass|apply quiet_ret].
Qed.

Lemma observe_settles V sb to status reason msg :
  V !! ID sb = Some sb → State sb = StateStopping → to = StateStopped ∨ to = StateError →
  (∀ x, status ≠ ConditionOther x) →
  triple (on (holds V)) (observe env sb to status reason msg) (λ _, on (pass_settled V sb)).
Proof.
  intros Hsb Hs Hto Hst. unfold observe. eapply triple_bind; [by apply now_calm|]. intros t. cbn beta. apply triple_pure. intros _.
  assert (Hc : CanTransition (State sb) to = true) by (rewrite Hs; by destruct Hto as [-> | ->]).
  destruct (observe_change_runs sb to status reason msg t Hc Hst) as (next & Hn & Hns).
  apply then_quiet; [|intros [out|e]; cbn beta iota; [by apply quiet_after_pass|apply quiet_ret]].
  unfold guarded1. eapply (triple_bind _ _ _ (λ _, on (pass_settled V sb))); [|intros [r u]; by apply triple_ret].
  apply (guarded_settles V sb (λ cur (a : unit), (observe_change to status reason msg t cur, a)) tt next); [done|exact Hn| |].
  - apply (observe_moves env sb to status reason msg t next); [tauto|exact Hn].
  - rewrite Hs, Hns. done.
Qed.

Lemma pass_on_settles V sb :
  V !! ID sb = Some sb → State sb = StateProvisioning ∨ State sb = StateStarting ∨ State sb = StateStopping →
  triple (on (holds V)) (pass_on env rfc3339 sb) (λ _, on (pass_settled V sb)).
Proof.
  intros Hsb Hs. assert (Hup : State sb = StateProvisioning ∨ State sb = StateStarting →
    triple (on (holds V)) (match registry_Get (c_drivers env) (DriverName sb) with
      | Fail _ => settle env sb no_status (Some (errorf DErrUnavailable ("driver " ++ DriverName sb ++ " is not registered")))
      | Ok d => let! spec := svc_spec env sb in
          match spec with
          | Fail e => settle env sb no_status (Some e)
          | Ok spec =>
              let! r := (if bool_decide (State sb = StateProvisioning) then build env d (ID sb) spec else start_again env d (ID sb) spec) in
              settle_result env sb r
          end
      end) (λ _, on (pass_settled V sb))).
  { intros Hu. destruct (registry_Get _ _) as [d|e] eqn:Hd; [|by apply settle_settles].
    eapply triple_bind; [apply quiet_triple, quiet_svc_spec|]. intros [spec|e]; cbn beta iota; [|by apply settle_settles].
    eapply (triple_bind _ _ _ (λ r w, (∀ st, r = Ok st → reported d (ID sb) st) ∧ on (holds V) w)).
    { case_bool_decide; [by apply build_calm|by apply start_again_calm]. }
    intros [st|e]; apply triple_pure; intros Hr; apply settle_settles; eauto. discriminate. }
  unfold pass_on. cbn zeta. destruct Hs as [Hs|[Hs|Hs]]; rewrite Hs in Hup |- *; [by apply Hup; left|by apply Hup; right|].
  destruct (registry_Get _ _) as [d|e] eqn:Hd; [|by apply observe_settles; auto].
  eapply triple_bind; [apply quiet_triple, quiet_take_grace|]. intros grace. cbn beta.
  eapply triple_bind; [by apply drives_calm|]. intros r. cbn beta. apply triple_pure. intros _.
  destruct r as [st|e]; [|destruct (Is e DErrNotFound)]; apply observe_settles; auto.
Qed.

End settling.

(** ** Properties *)

(** C10: What one pass of the reconciler may do, nobody else writing meanwhile and
    whatever the driver answers: nothing; write the one sandbox it looks at;
    or remove it. What it writes keeps everything a client decided, follows
    the lifecycle, never asks for a stop or a removal, and counts a restart
    (with a new generation) only when the policy has one due. A sandbox comes
    to [Ready], or changes the tier it is [Ready] at, only on the driver's own
    report of a running instance at a tier the settings accept. It is removed
    only from [Deleting], after its driver deleted the instance or said it has
    none. *)
Theorem reconcile_pass_spec {S E} `{!Store S, !StoreLaws S} (env : Env S E) (rfc3339 : Z → string) (id : string)
    (w : World S E) :
  calm env → st_ok (sh_store (w_sh w)) → (top (sh_store (w_sh w)) + 13 <= int64_max)%Z →
  let s := sh_store (w_sh w) in
  let s' := sh_store (w_sh (reconcile env rfc3339 id w).2) in
  view s' = view s ∨ ∃ sb, view s !! id = Some sb ∧ passed env (view s) sb s'.
Proof.
  intros Hcalm Hok Hroom s s'.
  assert (H : triple (on (held_at (view s) 13)) (reconcile env rfc3339 id)
    (λ _, on (λ s', view s' = view s ∨ ∃ sb, view s !! id = Some sb ∧ passed env (view s) sb s'))).
  2: { apply (H w). split; [done|split; [done|exact Hroom]]. }
  unfold reconcile. eapply triple_bind; [apply (read_calm env Hcalm (view s) 12 id)|].
  intros [sb|e]; apply triple_pure; intros Hsb; [|apply triple_ret; intros w' [Hv _]; by left].
  assert (ID sb = id) as <- by (by eapply view_id).
  assert (Hpass : triple (on (held_at (view s) 12)) (pass_on env rfc3339 sb)
    (λ _, on (λ s', view s' = view s ∨ ∃ sb0, view s !! ID sb = Some sb0 ∧ passed env (view s) sb0 s'))).
  { eapply triple_conseq; [by apply pass_on_calm|auto|]. intros r w' Hp. right. by exists sb. }
  destruct (c_owns env) as [owns|]; [|exact Hpass].
  eapply triple_bind; [apply quiet_triple, quiet_ext|].
  intros [[|]|e]; cbn beta iota; [exact Hpass|apply triple_ret; intros w' [Hv _]; by left..].
Qed.

(** C39: A pass leaves nothing half-way: with the in-memory store, nobody else
    writing meanwhile, a pass over a sandbox this server runs that is being
    provisioned or started ends with it [Ready] or [Error], and one that is
    being stopped ends [Stopped] or [Error], whatever the driver answers and
    whether or not it is registered at all. No other sandbox is touched. *)
Theorem reconcile_settles {E} (env : Env Memory E) (rfc3339 : Z → string) (sb : Sandbox) (w : World Memory E) :
  calm env → c_owns env = None → m_sandboxes (sh_store (w_sh w)) !! ID sb = Some sb →
  State sb = StateProvisioning ∨ State sb = StateStarting ∨ State sb = StateStopping →
  pass_settled (m_sandboxes (sh_store (w_sh w))) sb (sh_store (w_sh (reconcile env rfc3339 (ID sb) w).2)).
Proof.
  intros Hcalm Hown Hsb Hs. unfold reconcile, mthen. rewrite Hown.
  destruct (on_store_calm env Hcalm (st_Get (ID sb)) w) as [G1 G2]. destruct (on_store env (st_Get (ID sb)) w) as [r w1].
  cbn [fst snd st_Get memory_store] in G1, G2. unfold memory_Get in G1, G2. rewrite Hsb in G1, G2. cbn [fst snd] in G1, G2.
  rewrite G1. apply (pass_on_settles env rfc3339 Hcalm (m_sandboxes (sh_store (w_sh w))) sb Hsb Hs w1). unfold on, holds. by rewrite G2.
Qed.

(** A driver whose instances run, in a container. *)
Definition running_status (id : string) : Status :=
  {| st_id := id; st_phase := PhaseRunning; st_tier := "container"; st_backend := "demo"; st_message := ""; st_caveat := "" |}.
Definition running_driver : Driver unit := {|
  d_info := {| i_name := "process"; i_version := "1"; i_capabilities := [] |};
  d_create := λ sp, mreturn (Ok (running_status (sp_id sp)));
  d_start := λ id, mreturn (Ok (running_status id));
  d_stop := λ id _, mreturn (Ok (running_status id));
  d_delete := λ _, mreturn None;
  d_status := λ id, mreturn (Ok (running_status id));
  d_exec := λ _ _ _, mreturn {| xo_result := Ok 0%Z; xo_writes := []; xo_ctx := None |};
  d_attacher := None; d_copier := None; d_forwarder := None; d_snapshotter := None; d_commander := None;
  d_config_checker := None
|}.

Definition running_env : Env Memory unit := calm_env {["process" := running_driver]} capped_settings.
Definition fresh_sandbox : Sandbox := with_state demo_sandbox 1 StateProvisioning 1.
Definition fresh_world : World Memory unit := start_world (one_sandbox fresh_sandbox) tt.

Lemma reconcile_pass_spec_witness :
  let s' := sh_store (w_sh (reconcile running_env (λ _, "") (ID fresh_sandbox) fresh_world).2) in
  (∃ out, m_sandboxes s' !! ID fresh_sandbox = Some out ∧ State out = StateReady ∧ Tier out = "container") ∧
  (view s' = view (one_sandbox fresh_sandbox) ∨
   ∃ sb, view (one_sandbox fresh_sandbox) !! ID fresh_sandbox = Some sb ∧ passed running_env (view (one_sandbox fresh_sandbox)) sb s').
Proof.
  split; [eexists; split_and!; vm_compute; reflexivity|].
  apply (reconcile_pass_spec running_env (λ _, "") (ID fresh_sandbox) fresh_world).
  - intros sh e. reflexivity.
  - apply one_sandbox_ok; [reflexivity|reflexivity|by vm_compute].
  - by vm_compute.
Defined.

Lemma reconcile_settles_witness :
  pass_settled {[ID fresh_sandbox := fresh_sandbox]} fresh_sandbox
    (sh_store (w_sh (reconcile running_env (λ _, "") (ID fresh_sandbox) fresh_world).2)).
Proof.
  apply (reconcile_settles running_env (λ _, "") fresh_sandbox fresh_world); [intros sh e; reflexivity|reflexivity|reflexivity|by left].
Defined.

(** ** A divergence: a restart that did not happen is recorded as one *)

(** A failed sandbox whose restart is due. *)
Definition failed_sandbox : Sandbox :=
  with_settings (with_restarts (with_state demo_sandbox 3 StateError 1) 0 (Some 50%Z)) {[SetRestartPolicy := RestartOnFailure]}.

(** [guarded] takes a sandbox that is gone (or moved on) for no error, so
    [restart] records the outcome "ok" though it restarted nothing. *)
Lemma stale_restart_recorded_ok :
  let w := (restart running_env (λ _, "") failed_sandbox (start_world NewMemory tt)).2 in
  ∃ before ev, w_trace w = (before ++ [EvAudit ev true])%list ∧ ev_Action ev = "restart" ∧ ev_Outcome ev = OutcomeOK ∧
    sh_store (w_sh w) = NewMemory.
Proof.
  eexists [_], _. split; [vm_compute; reflexivity|]. split_and!; vm_compute; reflexivity.
Qed.
