(* ===== verification/RestoreSpec.v ===== *)
(** What a restore leaves (controlplane/verbs.go, [Restore]): the snapshot's
    files under a new generation, or the sandbox as it was. Over the in-memory
    store, nobody else writing meanwhile. *)

From Stdlib Require Import ZArith NArith Ascii String Lia.
From stdpp Require Import base tactics list gmap strings relations.
From S2P Require Import Prelude GoStd Errors Labels Driver Lifecycle Etag Settings Store Memory World Mutate.
From S2P Require Import Admission Protocol Templates Service Exec Verbs Calls Operations Reconcile.
From S2P Require Import ReconcileSpec.

#[local] Open Scope string_scope.
#[local] Open Scope go_scope.

(** Everything of [sb] but its generation, version and update time. *)
Definition as_before (sb cur : Sandbox) : Prop :=
  cur = with_updated (with_version (with_state sb (Generation cur) (State sb) (UpdatedAt cur)) (ResourceVersion cur)) (UpdatedAt cur).

(** A restore that went through: the driver put the files in, and the sandbox
    starts as a new generation with its restarts counted from zero. *)
Definition restored {E} (env : Env Memory E) (d : Driver E) (ref : SnapshotRef) (sb out : Sandbox) : Prop :=
  State out = StateStarting ∧ Generation out = (Generation sb + 1)%Z ∧ Restarts out = 0%Z ∧ NextRestart out = None ∧
  ID out = ID sb ∧ Owner out = Owner sb ∧ DriverName out = DriverName sb ∧ Template out = Template sb ∧
  registry_Get (c_drivers env) (DriverName sb) = Ok d ∧ ∃ e, (driver_Restore d (ID sb) ref e).1 = None.

Lemma CheckImmutable_Is cur next e : CheckImmutable cur next = Some e → Is e ErrVersionMismatch = false.
Proof.
  unfold CheckImmutable. destruct (negb _); [intros [= <-]; by rewrite Is_errorf|].
  destruct (negb _); [intros [= <-]; by rewrite Is_errorf|]. destruct (negb _); [intros [= <-]; by rewrite Is_errorf|].
  destruct (_ <? _)%Z; [intros [= <-]; by rewrite Is_errorf|discriminate].
Qed.

Section restore.
Context {E : Type} (env : Env Memory E).
Hypothesis Hcalm : calm env.
Abbreviation W := (World Memory E).
Abbreviation store_of w := (sh_store (w_sh w)).

(** The memory after [out] is written over [id] in [m]. *)
Definition wrote (m : Memory) (id : string) (out : Sandbox) : Memory :=
  put_sandboxes m (wrap64 (m_rv m + 1)) (<[id := out]> (m_sandboxes m)).

(** [Mutate] with nobody else about: one attempt, which fails only when the
    header, the function or the store's checks refuse. *)
Lemma Mutate_memory {A} m id ifMatch (fn : Sandbox → A → M W (result Sandbox * A)) a cur :
  m_sandboxes m !! id = Some cur → store_quiet (fn cur a) →
  yields (fn cur a) (λ r, match r.1 with Ok next => ID next = id | Fail _ => True end) →
  triple (on (eq m)) (Mutate env id ifMatch fn a)
    (λ r w, match r.1 with
            | Ok out => ∃ w1 next, (fn cur a w1).1.1 = Ok next ∧ CheckImmutable cur next = None ∧
                out = with_version next (wrap64 (m_rv m + 1)) ∧ on (eq (wrote m id out)) w
            | Fail e => on (eq m) w ∧
                ((∀ w1, ∃ next, (fn cur a w1).1.1 = Ok next ∧ CheckImmutable cur next = None ∧ Valid (State next) = true) →
                 CheckIfMatch ifMatch (ResourceVersion cur) ≠ None)
            end).
Proof.
  intros Hcur Hq Hy w Hw. unfold on in Hw. unfold Mutate, mutateRetries. rewrite mutate_loop_eq. unfold mthen.
  destruct (on_store_calm env Hcalm (st_Get id) w) as [G1 G2]. destruct (on_store env (st_Get id) w) as [r w1].
  cbn [fst snd st_Get memory_store] in G1, G2. unfold memory_Get in G1, G2. rewrite <- Hw, Hcur in G1, G2.
  cbn [fst snd] in G1, G2. rewrite G1. cbn beta iota.
  destruct (CheckIfMatch ifMatch (ResourceVersion cur)) eqn:Hif; [by split|].
  specialize (Hq w1). specialize (Hy w1). destruct (fn cur a w1) as [[rn a'] w2] eqn:Hfn. cbn [fst snd] in Hq, Hy.
  destruct rn as [next|e].
  2: { split; [unfold on; cbn [snd mreturn]; congruence|]. intros Hall. destruct (Hall w1) as (next & Hn & _).
       rewrite Hfn in Hn. discriminate Hn. }
  destruct (writes_calm env Hcalm "Update" id (st_Update next (ResourceVersion cur)) w2) as [U1 U2].
  destruct (writes env "Update" id (st_Update next (ResourceVersion cur)) w2) as [u w3].
  cbn [fst snd st_Update memory_store] in U1, U2. rewrite Hq, G2 in U1, U2. unfold memory_Update in U1, U2.
  rewrite Hy, Hcur in U1, U2. rewrite Z.eqb_refl in U1, U2. cbn [negb] in U1, U2.
  destruct (Valid (State next)) eqn:Hval; cbn [negb] in U1, U2.
  2: { cbn [fst snd] in U1, U2. rewrite U1. cbn beta iota. rewrite Is_errorf, bool_decide_eq_false_2 by done. cbn [negb].
       split; [unfold on; cbn [snd mreturn]; congruence|]. intros Hall. destruct (Hall w1) as (nx & Hn & _ & Hv).
       rewrite Hfn in Hn. injection Hn as ->. congruence. }
  destruct (CheckImmutable cur next) as [e|] eqn:Him; cbn [fst snd] in U1, U2; rewrite U1; cbn beta iota.
  - rewrite (CheckImmutable_Is _ _ _ Him). cbn [negb].
    split; [unfold on; cbn [snd mreturn]; congruence|]. intros Hall. destruct (Hall w1) as (nx & Hn & Hc & _).
    rewrite Hfn in Hn. injection Hn as ->. congruence.
  - exists w1, next. rewrite Hfn. split_and!; [done|done|done|]. unfold on, wrote. cbn [snd mreturn].
    rewrite U2. by destruct next; simpl in Hy; subst.
Qed.

Lemma others_calm : store_quiet (others env).
Proof.
  intros w. unfold others. pose proof (Hcalm (w_sh w) (w_ext w)) as H. by destruct (x_others env (w_sh w) (w_ext w)).
Qed.

Lemma quiet_hold_loop n ended id : store_quiet (hold_loop env n ended id).
Proof.
  induction n as [|n IH]; cbn [hold_loop]; (apply quiet_bind; [apply quiet_shared|]; intros sh;
    destruct (negb _); [intros w; unfold set_shared, mthen; simpl; by destruct (w_sh w)|]).
  - apply quiet_ret.
  - apply quiet_bind; [apply others_calm|]. intros ?. exact IH.
Qed.

Lemma quiet_holdPass id : store_quiet (holdPass env id).
Proof. unfold holdPass. apply quiet_bind; [apply quiet_ext|]. intros [n ended]. apply quiet_hold_loop. Qed.

Lemma quiet_unhold id kick : store_quiet (S:=Memory) (E:=E) (unhold id kick).
Proof.
  unfold unhold. apply quiet_bind; [apply quiet_shared|]. intros sh. apply quiet_bind.
  - intros w. unfold set_shared. simpl. by destruct (w_sh w).
  - intros ?. destruct (_ || _); [apply quiet_Kick|apply quiet_ret].
Qed.

Lemma quiet_admitVerb x ev c sb op command : store_quiet (admitVerb env x ev c sb op command).
Proof.
  unfold admitVerb. cbn zeta. apply quiet_bind; [apply quiet_guardAdmit|]. intros [[rel nx]|e].
  - apply quiet_bind; [apply quiet_admit|]. intros [next|e]; [apply quiet_ret|].
    apply quiet_bind; [apply quiet_release|]. intros ?. apply quiet_bind; [apply quiet_outcome|]. intros ?. apply quiet_ret.
  - apply quiet_bind; [apply quiet_outcome|]. intros ?. apply quiet_ret.
Qed.

Ltac refused := cbn [fst snd mreturn]; split; [intros ? ?; discriminate|assumption].

(** Checked before anything is recorded: the sandbox may be restored. *)
Lemma prepare_calm m c id ifMatch verb ok cap :
  triple (on (eq m)) (prepare env c id ifMatch verb ok cap)
    (λ r w, (∀ d, r.2 = Ok d → m_sandboxes m !! id = Some r.1 ∧ ok (State r.1) = true ∧ capable env r.1 cap = Ok d) ∧ on (eq m) w).
Proof.
  intros w Hw. unfold on in Hw. unfold prepare, svc_Get, mthen.
  destruct (on_store_calm env Hcalm (st_Get id) w) as [G1 G2]. destruct (on_store env (st_Get id) w) as [r w1].
  cbn [fst snd st_Get memory_store] in G1, G2. unfold memory_Get in G1, G2. rewrite <- Hw in G1, G2.
  assert (Hw1 : on (eq m) w1) by (unfold on; destruct (m_sandboxes m !! id); simpl in G2; congruence).
  destruct (m_sandboxes m !! id) as [sb|]; cbn [fst] in G1; rewrite G1; cbn beta iota; [|refused].
  destruct (negb (may c sb)); [refused|]. cbn [mreturn].
  destruct (CheckIfMatch ifMatch _); [refused|]. destruct (ok (State sb)) eqn:Hok; cbn [negb]; [|refused].
  destruct (capable env sb cap) as [d|e] eqn:Hcap; [|refused].
  pose proof (quiet_owned env id w1) as Hq. destruct (owned env id w1) as [oe w2]. cbn [snd] in Hq. cbn [fst snd mreturn].
  split; [|unfold on in *; cbn [snd]; congruence]. destruct oe; [discriminate|]. intros d' [= <-]. split_and!; [done|done|exact Hcap].
Qed.

Lemma capable_registry sb cap d : capable env sb cap = Ok d → registry_Get (c_drivers env) (DriverName sb) = Ok d.
Proof. unfold capable. destruct (registry_Get _ _) as [d'|]; [|discriminate]. destruct (_ && _); [discriminate|]. by intros [= ->]. Qed.

(** What the move to [Starting] makes of [sb]. *)
Lemma restore_change_Ok adm sb a w next :
  (restore_change env adm sb a w).1.1 = Ok next →
  ∃ t, next = with_settings (with_labels (with_restarts (with_state sb (wrap64 (Generation sb + 1)) StateStarting t) 0 None)
                (Labels (ar_Object adm))) (Lifecycle.Settings (ar_Object adm)).
Proof.
  unfold restore_change, mthen. destruct (now env w) as [t w1]. simpl. unfold sandbox_Restore.
  destruct (negb (CanRestore _)); [discriminate|]. unfold Transition. destruct (negb _); [discriminate|].
  rewrite bool_decide_eq_true_2 by done. intros [= <-]. by exists t.
Qed.

Definition started_as (adm : AdmissionRequest) (sb out : Sandbox) (t v : Z) : Prop :=
  out = with_version (with_settings (with_labels (with_restarts
    (with_state sb (wrap64 (Generation sb + 1)) StateStarting t) 0 None) (Labels (ar_Object adm))) (Lifecycle.Settings (ar_Object adm))) v.

(** How a restore ends, from a store that was [m]. *)
Definition restore_ends (m : Memory) (id : string) (ref : SnapshotRef) (r : result Sandbox) (m' : Memory) : Prop :=
  match r with
  | Ok out => m_sandboxes m' = <[id := out]> (m_sandboxes m) ∧
      ∃ d sb, m_sandboxes m !! id = Some sb ∧ restored env d ref sb out
  | Fail _ => m_sandboxes m' = m_sandboxes m ∨
      ∃ sb cur, m_sandboxes m !! id = Some sb ∧ m_sandboxes m' = <[id := cur]> (m_sandboxes m) ∧
        as_before sb cur ∧ Generation cur = (Generation sb + 1)%Z
  end.

Lemma wrote_fields m id out :
  m_sandboxes (wrote m id out) = <[id := out]> (m_sandboxes m) ∧ m_rv (wrote m id out) = wrap64 (m_rv m + 1).
Proof. apply put_sandboxes_fields. Qed.

Lemma quiet_restore_undo sb out a : store_quiet (restore_undo env sb out a).
Proof. apply quiet_bind; [apply quiet_ext|]. intros t. apply quiet_ret. Qed.

Lemma restore_files_calm m id d sb out ref adm t :
  m_sandboxes m !! id = Some sb → ID sb = id → Valid (State sb) = true → (0 <= Generation sb < int64_max)%Z →
  (0 <= m_rv m)%Z → (m_rv m + 2 <= int64_max)%Z → registry_Get (c_drivers env) (DriverName sb) = Ok d →
  started_as adm sb out t (m_rv m + 1) →
  triple (on (eq (wrote m id out))) (restore_files env id d sb out ref) (λ r, on (restore_ends m id ref r)).
Proof.
  intros Hsb Hid Hval Hg Hrv Hmax Hd Hout. unfold restore_files.
  assert (Hgen : Generation out = (Generation sb + 1)%Z) by (rewrite Hout; destruct sb; simpl in *; by rewrite wrap64_succ).
  destruct (wrote_fields m id out) as [Hw1 Hw2].
  eapply triple_bind; [by apply drives_calm|]. intros [e|]; cbn beta; apply triple_pure; intros [x Hx].
  2: { apply triple_ret. intros w Hw. unfold on in *. rewrite <- Hw. split; [done|]. exists d, sb. split; [done|].
       unfold restored. rewrite Hgen, Hid. rewrite Hout. destruct sb; simpl in *. split_and!; try done. by exists x. }
  eapply triple_bind.
  { apply (Mutate_memory (wrote m id out) id (ETag (ResourceVersion out)) (restore_undo env sb) tt out).
    - by rewrite Hw1, lookup_insert_eq.
    - apply quiet_restore_undo.
    - eapply yields_bind; [apply yields_any|]. intros t' _. apply yields_ret. cbn [fst]. rewrite Hout. by destruct sb. }
  assert (Hrvo : ResourceVersion out = (m_rv m + 1)%Z) by (rewrite Hout; by destruct sb).
  intros [[out2|e2] a]; cbn [fst]; apply triple_ret; intros w.
  - intros (w1 & next & Hn & _ & Ho2 & Hw). unfold on in *. rewrite <- Hw. right. exists sb, out2.
    destruct (wrote_fields (wrote m id out) id out2) as [-> _]. rewrite Hw1, insert_insert_eq.
    unfold restore_undo, mthen in Hn. destruct (now env w1) as [t' w2]. simpl in Hn. injection Hn as <-.
    split_and!; [done|done| |]; rewrite Ho2, ?Hout; destruct sb; simpl in *; [done|by rewrite wrap64_succ].
  - intros [_ Hno]. exfalso. apply Hno.
    + intros w1. unfold restore_undo, mthen. destruct (now env w1) as [t' w2]. cbn [fst mreturn]. eexists. split; [reflexivity|].
      split; [|by destruct out; destruct sb]. apply CheckImmutable_None. rewrite Hout. destruct sb; simpl. split_and!; try done; lia.
    + rewrite CheckIfMatch_tag; rewrite Hrvo; [by rewrite Z.eqb_refl|lia].
Qed.
Lemma Restore_calm m x c id ifMatch ref :
  memory_ok m → (m_rv m + 2 <= int64_max)%Z →
  (∀ sb, m_sandboxes m !! id = Some sb → 0 <= Generation sb < int64_max)%Z →
  triple (on (eq m)) (svc_Restore env x c id ifMatch ref) (λ r, on (restore_ends m id ref r)).
Proof.
  intros Hok Hmax Hgen. assert (Hsame : ∀ e (w : W), on (eq m) w → on (restore_ends m id ref (Fail e)) w)
    by (intros e w Hw; unfold on in *; rewrite <- Hw; by left).
  unfold svc_Restore. destruct (join_opt _ _) as [e|]; [apply triple_ret, Hsame|].
  eapply triple_bind; [apply prepare_calm|]. intros [sb rd]. apply triple_pure. cbn [fst snd]. intros Hprep.
  destruct rd as [d|e]; [|apply triple_ret, Hsame]. destruct (Hprep d eq_refl) as (Hsb & Hres & Hcap).
  destruct (_ || _); [apply triple_ret, Hsame|]. cbn zeta.
  eapply triple_bind; [apply quiet_triple, quiet_record|]. intros [e|]; [apply triple_ret, Hsame|]. cbn beta iota.
  eapply triple_bind; [apply quiet_triple, quiet_admitVerb|]. intros [[rel adm]|e]; [|apply triple_ret, Hsame]. cbn beta iota.
  eapply triple_bind; [apply quiet_triple, quiet_holdPass|]. intros [e|]; cbn beta iota.
  { eapply triple_bind; [apply quiet_triple, quiet_outcome|]. intros ?. cbn beta.
    eapply triple_bind; [apply quiet_triple, quiet_release|]. intros ?. apply triple_ret, Hsame. }
  destruct Hok as [Hrv Hall]. destruct (Hall id sb Hsb) as (Hid & _ & Hval & _).
  eapply triple_bind.
  { apply (Mutate_memory m id (ETag (ResourceVersion sb)) (restore_change env adm) tt sb); [done| |].
    - apply quiet_bind; [apply quiet_ext|]. intros t. apply quiet_ret.
    - intros w. destruct (restore_change env adm sb tt w).1.1 as [next|] eqn:Hn; [|done].
      apply restore_change_Ok in Hn as [t ->]. rewrite <- Hid. by destruct sb. }
  intros [out u]. cbn [fst]. eapply (triple_bind _ _ _ (λ r, on (restore_ends m id ref r))).
  { destruct out as [out|e]; [|apply triple_ret; intros w [Hw _]; by apply Hsame].
    apply triple_exists. intros w1. apply triple_exists. intros next. apply triple_pure. intros Hn. apply triple_pure. intros _.
    apply triple_pure. intros Hout. apply restore_change_Ok in Hn as [t Hn]. rewrite wrap64_succ in Hout by lia.
    apply (restore_files_calm m id d sb out ref adm t); auto; [by eapply capable_registry|].
    unfold started_as. rewrite Hout, Hn. reflexivity. }
  intros res. cbn beta zeta.
  eapply triple_bind; [apply quiet_triple, quiet_outcome|]. intros ?. cbn beta.
  eapply triple_bind; [apply quiet_triple, quiet_committed|]. intros ?. cbn beta.
  eapply triple_bind; [apply quiet_triple, quiet_unhold|]. intros ?. cbn beta.
  eapply triple_bind; [apply quiet_triple, quiet_release|]. intros ?. by apply triple_ret.
Qed.
End restore.

(** ** Properties *)

(** C38: A restore is all or nothing. Over the in-memory store, nobody else writing
    meanwhile, and whatever the guard, the interceptor and the driver answer: a
    restore that succeeds leaves the sandbox Starting under the next
    generation, its restarts counted from zero, after its driver put the files
    in; one that fails leaves the store as it was, or leaves the sandbox as it
    was before but for the generation that did not run. No other sandbox is
    touched. *)
Theorem restore_all_or_nothing {E} (env : Env Memory E) (x : Ctx) (c : Caller) (id ifMatch : string) (ref : SnapshotRef)
    (w : World Memory E) :
  calm env → memory_ok (sh_store (w_sh w)) → (m_rv (sh_store (w_sh w)) + 2 <= int64_max)%Z →
  (∀ sb, m_sandboxes (sh_store (w_sh w)) !! id = Some sb → 0 <= Generation sb < int64_max)%Z →
  let run := svc_Restore env x c id ifMatch ref w in
  restore_ends env (sh_store (w_sh w)) id ref run.1 (sh_store (w_sh run.2)).
Proof. intros Hcalm Hok Hmax Hgen run. by apply (Restore_calm env Hcalm _ x c id ifMatch ref Hok Hmax Hgen w). Qed.

(** A driver that keeps snapshots and fails every restore. *)
Definition snapshot_driver : Driver unit := {|
  d_info := {| i_name := "process"; i_version := "1"; i_capabilities := [CapSnapshot] |};
  d_create := d_create running_driver; d_start := d_start running_driver; d_stop := d_stop running_driver;
  d_delete := d_delete running_driver; d_status := d_status running_driver; d_exec := d_exec running_driver;
  d_attacher := None; d_copier := None; d_forwarder := None;
  d_snapshotter := Some {| sn_snapshot := λ _ _, mreturn (Fail (errval DErrUnsupported));
                           sn_restore := λ _ _, mreturn (Some (errval DErrUnavailable)) |};
  d_commander := None; d_config_checker := None
|}.
Definition snapshot_env : Env Memory unit := calm_env {["process" := snapshot_driver]} capped_settings.

Lemma restore_all_or_nothing_witness :
  let w := start_world (one_sandbox demo_sandbox) tt in
  let ref := {| sr_id := "s1"; sr_name := "n"; sr_generation := 3; sr_digest := "sha256:00"; sr_bytes := 0; sr_image := ""; sr_created_at := 0 |} in
  let run := svc_Restore snapshot_env Background (MkCaller "alice" false ∅) (ID demo_sandbox) "" ref w in
  write_count (w_trace run.2) = 2%nat ∧
  restore_ends snapshot_env (one_sandbox demo_sandbox) (ID demo_sandbox) ref run.1 (sh_store (w_sh run.2)).
Proof.
  intros w ref run. split; [vm_compute; reflexivity|].
  apply (restore_all_or_nothing snapshot_env Background (MkCaller "alice" false ∅) (ID demo_sandbox) "" ref w).
  - intros sh e. reflexivity.
  - apply one_sandbox_ok; [reflexivity|reflexivity|by vm_compute].
  - by vm_compute.
  - intros sb Hsb. change (({[ID demo_sandbox := demo_sandbox]} : gmap string Sandbox) !! ID demo_sandbox = Some sb) in Hsb.
    apply lookup_singleton_Some in Hsb as [_ <-]. by vm_compute.
Defined.
