(* ===== verification/LineDiff.v ===== *)
(** Comparing two texts line by line (src/internal/linediff/linediff.go): the
    lines of a text, Myers' search for the shortest edit script, its walk back,
    and the hunks an edit script changes.

    An index out of range panics in Go and is [None] here, as is a loop that
    runs out of its fuel; the theorems show that neither happens. Line counts
    are Go ints, far below 2^62, so sums of a few of them do not wrap. *)

From Stdlib Require Import ZArith Ascii String Lia Bool.
From stdpp Require Import base tactics list option strings.
From S2P Require Import Prelude.
From S2P Require Import GoStd.

#[local] Open Scope string_scope.
#[local] Open Scope Z_scope.

(** ** Lines *)

(** [strings.SplitAfter] on a separator of one byte. *)
Fixpoint SplitAfter (s : string) (sep : ascii) : list string :=
  match s with
  | EmptyString => [""]
  | String c s =>
      if c =c sep then String c "" :: SplitAfter s sep
      else match SplitAfter s sep with
           | [] => [String c ""]
           | p :: ps => String c p :: ps
           end
  end.

Definition SplitLines (s : string) : list string :=
  if String.eqb s "" then []
  else
    let lines := SplitAfter s newline in
    match last lines with
    | Some l => if String.eqb l "" then take (length lines - 1) lines else lines
    | None => lines
    end.

(** ** Slices, indexed as Go indexes them *)

Definition zlen {A} (l : list A) : Z := Z.of_nat (length l).

Definition at_index {A} (l : list A) (i : Z) : option A :=
  if 0 <=? i then l !! Z.to_nat i else None.

Definition set_index {A} (l : list A) (i : Z) (x : A) : option (list A) :=
  if (0 <=? i) && (i <? zlen l) then Some (<[Z.to_nat i := x]> l) else None.

(** [l\[lo:hi\]]. *)
Definition slice {A} (l : list A) (lo hi : Z) : option (list A) :=
  if (0 <=? lo) && (lo <=? hi) && (hi <=? zlen l)
  then Some (take (Z.to_nat (hi - lo)) (drop (Z.to_nat lo) l)) else None.

(** ** Edit scripts

    One op per line of the diff, the bytes [' '], ['-'] and ['+']. *)

Inductive op : Set :=
  | Kept
  | Removed
  | Added.

#[export] Instance op_eq_dec : EqDecision op.
Proof. solve_decision. Defined.

Definition MaxEditDistance : Z := 1000.

Section search.
Context (a b : list string).

Definition replaceAll : list op :=
  (replicate (length a) Removed ++ replicate (length b) Added)%list.

(** [for x < n && y < m && a\[x\] == b\[y\] { x, y = x+1, y+1 }]. *)
Fixpoint slide (fuel : nat) (x y : Z) : option (Z * Z) :=
  if (x <? zlen a) && (y <? zlen b) then
    l ← at_index a x;
    r ← at_index b y;
    if String.eqb l r then
      match fuel with
      | O => None
      | Datatypes.S fuel => slide fuel (x + 1) (y + 1)
      end
    else Some (x, y)
  else Some (x, y).

(** [k == -d || (k != d && at(k-1) < at(k+1))]: whether round [d] comes to
    diagonal [k] from the diagonal above it. *)
Definition from_above (at_ : Z → option Z) (d k : Z) : option bool :=
  if k =? - d then Some true
  else if k =? d then Some false
  else
    l ← at_ (k - 1);
    r ← at_ (k + 1);
    Some (l <? r).

(** The diagonals of round [d] from [k] on; the flag is [break search]. *)
Fixpoint diagonals (fuel : nat) (off d k : Z) (v : list Z) : option (list Z * bool) :=
  if k <=? d then
    match fuel with
    | O => None
    | Datatypes.S fuel =>
        let at_ k := at_index v (off + k) in
        l ← at_ (k - 1);
        above ← from_above at_ d k;
        x0 ← (if (above : bool) then at_ (k + 1) else Some (l + 1));
        '(x, y) ← slide (length a) x0 (x0 - k);
        v ← set_index v (off + k) x;
        if (zlen a <=? x) && (zlen b <=? y) then Some (v, true)
        else diagonals fuel off d (k + 2) v
    end
  else Some (v, false).

(** The rounds: the trace of [v] as each began, and the round that reached the
    end, if one did. *)
Fixpoint rounds (fuel : nat) (limit d : Z) (v : list Z) (trace : list (list Z))
    : option (list (list Z) * option Z) :=
  if d <=? limit then
    match fuel with
    | O => None
    | Datatypes.S fuel =>
        let off := limit + 1 in
        row ← slice v (off - d - 1) (off + d + 2);
        let trace := (trace ++ [row])%list in
        '(v, hit) ← diagonals (Datatypes.S (Z.to_nat d)) off d (- d) v;
        if (hit : bool) then Some (trace, Some d)
        else rounds fuel limit (d + 1) v trace
    end
  else Some (trace, None).

(** [for x > prevX && y > prevY { ops = append(ops, ' '); x, y = x-1, y-1 }]. *)
Fixpoint back_kept (fuel : nat) (prevX prevY x y : Z) (ops : list op)
    : option (Z * Z * list op) :=
  if (prevX <? x) && (prevY <? y) then
    match fuel with
    | O => None
    | Datatypes.S fuel => back_kept fuel prevX prevY (x - 1) (y - 1) (ops ++ [Kept])
    end
  else Some (x, y, ops).

(** The walk back, one round at a time, in reverse. *)
Fixpoint walk_back (fuel : nat) (trace : list (list Z)) (d x y : Z) (ops : list op)
    : option (Z * Z * list op) :=
  if 0 <? d then
    match fuel with
    | O => None
    | Datatypes.S fuel =>
        prev ← at_index trace d;
        let at_ k := at_index prev (k + d + 1) in
        let k := x - y in
        above ← from_above at_ d k;
        let prevK := if (above : bool) then k + 1 else k - 1 in
        prevX ← at_ prevK;
        let prevY := prevX - prevK in
        '(x, y, ops) ← back_kept (length a) prevX prevY x y ops;
        if x =? prevX then walk_back fuel trace (d - 1) x (y - 1) (ops ++ [Added])
        else walk_back fuel trace (d - 1) (x - 1) y (ops ++ [Removed])
    end
  else Some (x, y, ops).

Definition shortestEdit : option (list op) :=
  let n := zlen a in
  let m := zlen b in
  if (n =? 0) || (m =? 0) then Some replaceAll
  else
    let limit := Z.min (n + m) MaxEditDistance in
    let v := replicate (Z.to_nat (2 * limit + 3)) 0 in
    '(trace, found) ← rounds (Datatypes.S (Z.to_nat limit)) limit 0 v [];
    match found with
    | None => Some replaceAll
    | Some d =>
        '(x, y, ops) ← walk_back (Z.to_nat d) trace d n m [];
        '(_, _, ops) ← back_kept (length a) 0 0 x y ops;
        Some (reverse ops)
    end.

End search.

(** How many leading lines agree; the loop over [pre]. *)
Fixpoint common_prefix (a b : list string) : nat :=
  match a, b with
  | x :: a, y :: b => if String.eqb x y then Datatypes.S (common_prefix a b) else 0
  | _, _ => 0
  end%nat.

(** The loop over [suf], which stops short of the common prefix. *)
Definition common_suffix (pre : nat) (a b : list string) : nat :=
  common_prefix (reverse (drop pre a)) (reverse (drop pre b)).

(** [l\[pre:len(l)-suf\]]. *)
Definition middle (pre suf : nat) (l : list string) : list string :=
  take (length l - suf - pre) (drop pre l).

Definition EditScript (a b : list string) : option (list op) :=
  let pre := common_prefix a b in
  let suf := common_suffix pre a b in
  ops ← shortestEdit (middle pre suf a) (middle pre suf b);
  Some (replicate pre Kept ++ ops ++ replicate suf Kept)%list.

(** ** Hunks *)

Record Hunk : Set := MkHunk {
  OldStart : Z; OldCount : Z;
  NewStart : Z; NewCount : Z
}.

(** The inner loop: one run of changed lines, and the ops after it. *)
Fixpoint hunk_run (ops : list op) (h : Hunk) (ai bi : Z) : Hunk * Z * Z * list op :=
  match ops with
  | Removed :: ops =>
      hunk_run ops (MkHunk (OldStart h) (OldCount h + 1) (NewStart h) (NewCount h)) (ai + 1) bi
  | Added :: ops =>
      hunk_run ops (MkHunk (OldStart h) (OldCount h) (NewStart h) (NewCount h + 1)) ai (bi + 1)
  | _ => (h, ai, bi, ops)
  end.

Fixpoint hunks_from (fuel : nat) (ops : list op) (ai bi : Z) (out : list Hunk)
    : option (list Hunk) :=
  match ops with
  | [] => Some out
  | o :: rest =>
      match fuel with
      | O => None
      | Datatypes.S fuel =>
          match o with
          | Kept => hunks_from fuel rest (ai + 1) (bi + 1) out
          | _ =>
              let '(h, ai, bi, ops) := hunk_run ops (MkHunk ai 0 bi 0) ai bi in
              hunks_from fuel ops ai bi (out ++ [h])
          end
      end
  end.

Definition Hunks (a b : list string) : option (list Hunk) :=
  ops ← EditScript a b;
  hunks_from (length ops) ops 0 0 [].

Definition TakeNew (a b : list string) (h : Hunk) : option string :=
  a1 ← slice a 0 (OldStart h);
  b1 ← slice b (NewStart h) (NewStart h + NewCount h);
  a2 ← slice a (OldStart h + OldCount h) (zlen a);
  Some (Join a1 "" ++ Join b1 "" ++ Join a2 "").

Definition TakeOld (a b : list string) (h : Hunk) : option string :=
  b1 ← slice b 0 (NewStart h);
  a1 ← slice a (OldStart h) (OldStart h + OldCount h);
  b2 ← slice b (NewStart h + NewCount h) (zlen b);
  Some (Join b1 "" ++ Join a1 "" ++ Join b2 "").

(** * Theorems

    What the line comparison of LineDiff promises: the script it returns turns
    the first list into the second with the fewest changed lines (against a
    reference edit distance), every loop ends with no index out of range, and
    the hunks are exactly the changed runs. *)

#[local] Close Scope string_scope.
#[local] Close Scope Z_scope.
#[local] Open Scope Z_scope.

(** ** What a script means, and the reference distance *)

(** [ops] read as a diff of [a] and [b]: kept lines agree, removed lines are
    [a]'s, added ones [b]'s, and both are used up. *)
Fixpoint replays (ops : list op) (a b : list string) : bool :=
  match ops, a, b with
  | [], [], [] => true
  | Kept :: ops, x :: a, y :: b => String.eqb x y && replays ops a b
  | Removed :: ops, _ :: a, b => replays ops a b
  | Added :: ops, a, _ :: b => replays ops a b
  | _, _, _ => false
  end.

(** The changed lines of a script. *)
Fixpoint edits (ops : list op) : nat :=
  match ops with
  | [] => 0
  | Kept :: ops => edits ops
  | _ :: ops => Datatypes.S (edits ops)
  end%nat.

(** The least number of lines to remove and add, by trying every first op. *)
Fixpoint distance (a : list string) : list string → nat :=
  fix inner (b : list string) : nat :=
    match a, b with
    | [], _ => length b
    | _, [] => length a
    | x :: a', y :: b' =>
        let change := Nat.min (Datatypes.S (distance a' b)) (Datatypes.S (inner b')) in
        if String.eqb x y then Nat.min (distance a' b') change else change
    end.

Lemma replays_app ops1 ops2 a1 b1 a2 b2 :
  replays ops1 a1 b1 = true → replays ops2 a2 b2 = true →
  replays (ops1 ++ ops2) (a1 ++ a2) (b1 ++ b2) = true.
Proof.
  revert a1 b1. induction ops1 as [|[] ops1 IH]; intros [|x a1] [|y b1] H1 H2; simpl in *;
    try discriminate; auto.
  - apply andb_true_iff in H1 as [-> ?]. simpl. auto.
  - by apply (IH a1 []).
  - by apply (IH a1 (y :: b1)).
  - by apply (IH [] b1).
  - by apply (IH (x :: a1) b1).
Qed.

Lemma edits_app ops1 ops2 : edits (ops1 ++ ops2) = (edits ops1 + edits ops2)%nat.
Proof. induction ops1 as [|[] ops1 IH]; simpl; lia. Qed.

Lemma edits_kept j : edits (replicate j Kept) = 0%nat.
Proof. by induction j. Qed.

Lemma replays_kept l : replays (replicate (length l) Kept) l l = true.
Proof. induction l; simpl; [done|]. by rewrite String.eqb_refl. Qed.

Lemma edits_reverse ops : edits (reverse ops) = edits ops.
Proof.
  induction ops as [|o ops IH]; [done|].
  rewrite reverse_cons, edits_app, IH. destruct o; simpl; lia.
Qed.

Lemma replays_reverse ops a b :
  replays ops a b = true → replays (reverse ops) (reverse a) (reverse b) = true.
Proof.
  revert a b. induction ops as [|[] ops IH]; intros [|x a] [|y b] H; simpl in *;
    try discriminate; auto; rewrite ?reverse_cons in *.
  - apply andb_true_iff in H as [Hxy H]. apply replays_app; [auto|]. simpl. by rewrite Hxy.
  - rewrite <- (app_nil_r (reverse [])). apply replays_app; auto.
  - rewrite <- (app_nil_r (reverse b ++ [y])).
    apply replays_app; [|done]. rewrite <- reverse_cons. by apply IH.
  - rewrite <- (app_nil_r (reverse [])). apply replays_app; auto.
  - rewrite <- (app_nil_r (reverse a ++ [x])).
    apply replays_app; [|done]. rewrite <- reverse_cons. by apply IH.
Qed.

Lemma distance_nil_l b : distance [] b = length b.
Proof. by destruct b. Qed.

Lemma distance_nil_r a : distance a [] = length a.
Proof. by destruct a. Qed.

Lemma distance_cons x a y b :
  distance (x :: a) (y :: b) =
    let change := Nat.min (Datatypes.S (distance a (y :: b))) (Datatypes.S (distance (x :: a) b)) in
    if String.eqb x y then Nat.min (distance a b) change else change.
Proof. done. Qed.

#[local] Arguments distance : simpl never.

(** [distance] is a lower bound, and it is reached. *)
Lemma distance_le ops a b : replays ops a b = true → (distance a b <= edits ops)%nat.
Proof.
  revert a b. induction ops as [|[] ops IH]; intros [|x a] [|y b] H; simpl in H;
    try discriminate; try done; rewrite ?distance_cons, ?distance_nil_l, ?distance_nil_r; simpl.
  - apply andb_true_iff in H as [-> H]. specialize (IH _ _ H). lia.
  - specialize (IH _ _ H). rewrite distance_nil_r in IH. lia.
  - specialize (IH _ _ H). destruct (String.eqb x y); lia.
  - specialize (IH _ _ H). rewrite distance_nil_l in IH. lia.
  - specialize (IH _ _ H). destruct (String.eqb x y); lia.
Qed.

Lemma replays_removed a : replays (replicate (length a) Removed) a [] = true.
Proof. by induction a. Qed.
Lemma replays_added b : replays (replicate (length b) Added) [] b = true.
Proof. by induction b. Qed.
Lemma edits_removed j : edits (replicate j Removed) = j.
Proof. induction j; simpl; lia. Qed.
Lemma edits_added j : edits (replicate j Added) = j.
Proof. induction j; simpl; lia. Qed.

Lemma distance_reached a b : ∃ ops, replays ops a b = true ∧ edits ops = distance a b.
Proof.
  revert b. induction a as [|x a IHa]; intros b.
  { rewrite distance_nil_l. exists (replicate (length b) Added). split; [apply replays_added | apply edits_added]. }
  induction b as [|y b IHb].
  { exists (replicate (length (x :: a)) Removed). split; [apply replays_removed | apply edits_removed]. }
  rewrite distance_cons. simpl.
  destruct (IHa (y :: b)) as (o1 & H1 & E1), IHb as (o2 & H2 & E2), (IHa b) as (o3 & H3 & E3).
  assert (∃ ops, replays ops (x :: a) (y :: b) = true ∧ edits ops =
    Nat.min (Datatypes.S (distance a (y :: b))) (Datatypes.S (distance (x :: a) b))) as (o & H & E).
  { destruct (Nat.min_spec (Datatypes.S (distance a (y :: b))) (Datatypes.S (distance (x :: a) b)))
      as [[_ ->] | [_ ->]].
    - exists (Removed :: o1). simpl. split; [done | by rewrite E1].
    - exists (Added :: o2). simpl. split; [done | by rewrite E2]. }
  destruct (String.eqb x y) eqn:Exy; [|by exists o].
  destruct (Nat.min_spec (distance a b)
    (Nat.min (Datatypes.S (distance a (y :: b))) (Datatypes.S (distance (x :: a) b))))
    as [[_ Hm] | [_ Hm]]; simpl in *; rewrite Hm.
  - exists (Kept :: o3). simpl. by rewrite Exy, H3, E3.
  - by exists o.
Qed.

(** Lines both sides share at either end cost nothing and help nobody. *)
Lemma drop_old ops x a b : replays ops (x :: a) b = true →
  ∃ ops', replays ops' a b = true ∧ (edits ops' <= Datatypes.S (edits ops))%nat.
Proof.
  revert b. induction ops as [|[] ops IH]; intros [|y b] H; simpl in *; try discriminate.
  - apply andb_true_iff in H as [_ H]. by exists (Added :: ops).
  - exists ops. split; [done | lia].
  - exists ops. split; [done | lia].
  - destruct (IH _ H) as (o & Ho & E). exists (Added :: o). simpl. split; [done | lia].
Qed.

Lemma drop_new ops a y b : replays ops a (y :: b) = true →
  ∃ ops', replays ops' a b = true ∧ (edits ops' <= Datatypes.S (edits ops))%nat.
Proof.
  revert a. induction ops as [|[] ops IH]; intros [|x a] H; simpl in *; try discriminate.
  - apply andb_true_iff in H as [_ H]. by exists (Removed :: ops).
  - destruct (IH _ H) as (o & Ho & E). exists (Removed :: o). simpl. split; [done | lia].
  - exists ops. split; [done | lia].
  - exists ops. split; [done | lia].
Qed.

Lemma distance_le_intro a b a' b' :
  (∀ ops, replays ops a b = true →
     ∃ ops', replays ops' a' b' = true ∧ (edits ops' <= edits ops)%nat) →
  (distance a' b' <= distance a b)%nat.
Proof.
  intros H. destruct (distance_reached a b) as (ops & Hr & <-).
  destruct (H _ Hr) as (ops' & Hr' & E). pose proof (distance_le _ _ _ Hr'). lia.
Qed.

Lemma distance_same x a b : distance (x :: a) (x :: b) = distance a b.
Proof.
  apply Nat.le_antisymm; apply distance_le_intro; intros ops H.
  - exists (Kept :: ops). simpl. by rewrite String.eqb_refl.
  - destruct ops as [|[] ops]; simpl in H; try discriminate.
    + apply andb_true_iff in H as [_ H]. by exists ops.
    + by apply drop_new in H.
    + by apply drop_old in H.
Qed.

Lemma distance_prefix p a b : distance (p ++ a) (p ++ b) = distance a b.
Proof. induction p as [|x p IH]; [done|]. simpl. by rewrite distance_same. Qed.

Lemma distance_reverse a b : distance (reverse a) (reverse b) = distance a b.
Proof.
  apply Nat.le_antisymm; apply distance_le_intro; intros ops H;
    exists (reverse ops); rewrite edits_reverse; split; try done.
  - by apply replays_reverse.
  - apply replays_reverse in H. by rewrite !reverse_involutive in H.
Qed.

Lemma distance_trim p s a b : distance (p ++ a ++ s) (p ++ b ++ s) = distance a b.
Proof.
  rewrite distance_prefix, <- distance_reverse, !reverse_app, distance_prefix.
  apply distance_reverse.
Qed.

Lemma common_prefix_spec a b :
  take (common_prefix a b) a = take (common_prefix a b) b ∧
  (common_prefix a b <= length a)%nat ∧ (common_prefix a b <= length b)%nat.
Proof.
  revert b. induction a as [|x a IH]; intros [|y b]; simpl; try (repeat split; lia || done).
  destruct (String.eqb_spec x y) as [->|]; simpl; [|repeat split; lia].
  destruct (IH b) as (E & ? & ?). rewrite E. repeat split; lia.
Qed.

(** Cutting [n] elements off the end of a list, from its reverse. *)
Lemma reverse_split {A} n (l : list A) : (n <= length l)%nat →
  l = (take (length l - n) l ++ reverse (take n (reverse l)))%list.
Proof.
  intros Hn. rewrite take_reverse, reverse_involutive. by rewrite take_drop.
Qed.

Lemma trim_split a b :
  let pre := common_prefix a b in
  let suf := common_suffix pre a b in
  ∃ p s, length p = pre ∧ length s = suf ∧
    a = (p ++ middle pre suf a ++ s)%list ∧ b = (p ++ middle pre suf b ++ s)%list.
Proof.
  intros pre suf. destruct (common_prefix_spec a b) as (E & Ha & Hb). fold pre in E, Ha, Hb.
  destruct (common_prefix_spec (reverse (drop pre a)) (reverse (drop pre b))) as (Es & Hsa & Hsb).
  fold (common_suffix pre a b) in Es, Hsa, Hsb. fold suf in Es, Hsa, Hsb.
  rewrite !length_reverse in Hsa, Hsb.
  exists (take pre a), (reverse (take suf (reverse (drop pre a)))). repeat split.
  - rewrite length_take. lia.
  - rewrite length_reverse, length_take, length_reverse. lia.
  - rewrite <- (take_drop pre a) at 1. f_equal. rewrite (reverse_split suf (drop pre a)) at 1 by done.
    unfold middle. rewrite length_drop. do 2 f_equal. lia.
  - rewrite E, Es. rewrite <- (take_drop pre b) at 1. f_equal.
    rewrite (reverse_split suf (drop pre b)) at 1 by done.
    unfold middle. rewrite length_drop. do 2 f_equal. lia.
Qed.

(** ** Slices *)

Lemma at_index_Some {A} (l : list A) i :
  0 <= i < zlen l → ∃ x, at_index l i = Some x.
Proof.
  intros Hi. unfold at_index, zlen in *. rewrite (proj2 (Z.leb_le 0 i)) by lia.
  apply lookup_lt_is_Some_2. lia.
Qed.

Lemma at_index_lt {A} (l : list A) i x : at_index l i = Some x → 0 <= i < zlen l.
Proof.
  unfold at_index, zlen. destruct (Z.leb_spec 0 i); [|done].
  intros H1%lookup_lt_Some. lia.
Qed.

Lemma set_index_Some {A} (l : list A) i x : 0 <= i < zlen l →
  ∃ l', set_index l i x = Some l' ∧ zlen l' = zlen l ∧
    at_index l' i = Some x ∧ (∀ j, j ≠ i → at_index l' j = at_index l j).
Proof.
  intros Hi. unfold set_index, at_index, zlen in *.
  rewrite (proj2 (Z.leb_le 0 i)), (proj2 (Z.ltb_lt i _)) by lia. simpl.
  eexists. split; [done|]. rewrite length_insert. repeat split.
  - apply list_lookup_insert_eq. lia.
  - intros j Hj. destruct (Z.leb_spec 0 j); [|done]. apply list_lookup_insert_ne. lia.
Qed.

Lemma slice_Some {A} (l : list A) lo hi : 0 <= lo <= hi → hi <= zlen l →
  ∃ r, slice l lo hi = Some r ∧ zlen r = hi - lo ∧
    (∀ i, 0 <= i < hi - lo → at_index r i = at_index l (lo + i)).
Proof.
  intros Hl Hh. unfold slice.
  rewrite (proj2 (Z.leb_le 0 lo)), (proj2 (Z.leb_le lo hi)), (proj2 (Z.leb_le hi _)) by lia.
  simpl. eexists. split; [done|]. unfold zlen, at_index in *. split.
  - rewrite length_take, length_drop. lia.
  - intros i Hi. rewrite !(proj2 (Z.leb_le 0 _)) by lia.
    rewrite lookup_take_lt by lia. rewrite lookup_drop. f_equal. lia.
Qed.

(** What is left of a list from position [x] on. *)
Definition from {A} (x : Z) (l : list A) : list A := drop (Z.to_nat x) l.

Lemma from_cons {A} (l : list A) x e : at_index l x = Some e → from x l = e :: from (x + 1) l.
Proof.
  intros H. pose proof (at_index_lt _ _ _ H) as Hx. unfold at_index, from in *.
  rewrite (proj2 (Z.leb_le 0 x)) in H by lia.
  rewrite (drop_S _ _ _ H). f_equal. f_equal. lia.
Qed.

Lemma from_end {A} (l : list A) : from (zlen l) l = [].
Proof. unfold from, zlen. rewrite drop_ge; [done | lia]. Qed.

(** ** The furthest points

    [row d k] is what the code's [v] holds for diagonal [k] as round [d] begins:
    the furthest line of [a] a script with [d - 1] changes reaches on it. *)

Section search.
Context (a b : list string).
Abbreviation n := (zlen a).
Abbreviation m := (zlen b).

Definition same_at (x y : Z) : Prop :=
  ∃ l, at_index a x = Some l ∧ at_index b y = Some l.

Definition stuck (x y : Z) : Prop := ¬ (x < n ∧ y < m ∧ same_at x y).

(** From [(x, y)] a slide goes down the diagonal to [x'] and no further. *)
Definition slid (x y x' : Z) : Prop :=
  x <= x' ∧ (x < x' → x' <= n ∧ x' + (y - x) <= m) ∧
  (∀ i, x <= i < x' → same_at i (i + (y - x))) ∧ stuck x' (x' + (y - x)).

Lemma slide_ok fuel x y : 0 <= x → 0 <= y → n - x <= Z.of_nat fuel →
  ∃ x', slide a b fuel x y = Some (x', x' + (y - x)) ∧ slid x y x'.
Proof.
  revert x y. induction fuel as [|fuel IH]; intros x y Hx Hy Hf; simpl;
    destruct (Z.ltb_spec x n), (Z.ltb_spec y m); try lia; simpl;
    try (exists x; split; [do 2 f_equal; lia|]; repeat split; unfold stuck; lia).
  destruct (at_index_Some a x) as [l El]; [lia|].
  destruct (at_index_Some b y) as [r Er]; [lia|]. rewrite El, Er. simpl.
  destruct (String.eqb_spec l r) as [->|Hne].
  - destruct (IH (x + 1) (y + 1)) as (x' & E & H1 & H2 & H3 & H4); try lia.
    exists x'. rewrite E. replace (y + 1 - (x + 1)) with (y - x) in * by lia.
    split; [done|]. repeat split; try lia; [|done].
    intros i Hi. destruct (Z.eq_dec i x) as [->|]; [|apply H3; lia].
    exists r. by replace (x + (y - x)) with y by lia.
  - exists x. split; [do 2 f_equal; lia|]. repeat split; try lia.
    replace (x + (y - x)) with y by lia. intros (_ & _ & l' & E1 & E2). congruence.
Qed.

Definition snake (k x : Z) : Z :=
  match slide a b (length a) x (x - k) with Some (x', _) => x' | None => x end.

Lemma snake_slide k x : 0 <= x → k <= x →
  slide a b (length a) x (x - k) = Some (snake k x, snake k x - k) ∧
  slid x (x - k) (snake k x).
Proof.
  intros Hx Hk. unfold snake.
  destruct (slide_ok (length a) x (x - k)) as (x' & E & H); [lia..| unfold zlen; lia |].
  rewrite E. split; [|done]. do 2 f_equal. lia.
Qed.

Definition above (row : Z → Z) (d k : Z) : bool :=
  (k =? - d) || (negb (k =? d) && (row (k - 1) <? row (k + 1))).

Definition start (row : Z → Z) (d k : Z) : Z :=
  if above row d k then row (k + 1) else row (k - 1) + 1.

Fixpoint row (d : nat) : Z → Z :=
  match d with
  | O => λ _, 0
  | Datatypes.S d => λ k, snake k (start (row d) (Z.of_nat d) k)
  end.

(** The diagonals round [d] visits, and those it reads. *)
Definition visits (d : nat) (k : Z) : Prop :=
  ∃ i, 0 <= i <= Z.of_nat d ∧ k = 2 * i - Z.of_nat d.

Definition reads (d : nat) (k : Z) : Prop :=
  match d with O => k = 1 | Datatypes.S d => visits d k end.

Lemma reads_above d k : visits d k → above (row d) (Z.of_nat d) k = true → reads d (k + 1).
Proof.
  intros (i & Hi & ->) Ha. destruct d as [|d]; [simpl; lia|].
  exists i. split; [|lia]. unfold above in Ha.
  destruct (Z.eqb_spec (2 * i - Z.of_nat (Datatypes.S d)) (- Z.of_nat (Datatypes.S d))); [lia|].
  destruct (Z.eqb_spec (2 * i - Z.of_nat (Datatypes.S d)) (Z.of_nat (Datatypes.S d))); [done|]. lia.
Qed.

Lemma reads_left d k : visits d k → above (row d) (Z.of_nat d) k = false → reads d (k - 1).
Proof.
  intros (i & Hi & ->) Ha. unfold above in Ha.
  destruct (Z.eqb_spec (2 * i - Z.of_nat d) (- Z.of_nat d)); [done|].
  destruct d as [|d]; [simpl; lia|]. exists (i - 1). lia.
Qed.

Lemma reads_inside d k : visits d k → k ≠ - Z.of_nat d → k ≠ Z.of_nat d →
  reads d (k - 1) ∧ reads d (k + 1).
Proof.
  intros (i & Hi & ->) H1 H2. destruct d as [|d]; [simpl; lia|]. split; [exists (i - 1) | exists i]; lia.
Qed.

(** Every point reached lies in the first quadrant. *)
Definition quadrant (d : nat) (k : Z) : Prop :=
  0 <= row d k ∧ k - 1 <= row d k ∧ (d ≠ O → k <= row d k).

Lemma start_of_quadrant d k : (∀ k, reads d k → quadrant d k) → visits d k →
  0 <= start (row d) (Z.of_nat d) k ∧ k <= start (row d) (Z.of_nat d) k.
Proof.
  intros Hq Hk. unfold start. destruct (above _ _ _) eqn:Ha.
  - destruct (Hq _ (reads_above _ _ Hk Ha)) as (? & ? & ?). lia.
  - destruct (Hq _ (reads_left _ _ Hk Ha)) as (? & ? & ?).
    destruct d; [|lia]. pose proof (reads_left _ _ Hk Ha). destruct Hk as (i & ? & ?). simpl in *. lia.
Qed.

Lemma row_quadrant d k : reads d k → quadrant d k.
Proof.
  revert k. induction d as [|d IH]; intros k Hk; [unfold quadrant; simpl in *; lia|].
  destruct (start_of_quadrant d k IH Hk) as [H0 H1]. unfold quadrant. simpl.
  destruct (snake_slide k _ H0 H1) as (_ & ? & _). lia.
Qed.

Lemma start_quadrant d k : visits d k →
  0 <= start (row d) (Z.of_nat d) k ∧ k <= start (row d) (Z.of_nat d) k.
Proof. apply start_of_quadrant. intros k'. apply row_quadrant. Qed.

Lemma row_slid d k : visits d k →
  slid (start (row d) (Z.of_nat d) k) (start (row d) (Z.of_nat d) k - k) (row (Datatypes.S d) k).
Proof. intros Hk. destruct (start_quadrant d k Hk). by apply snake_slide. Qed.

(** A round goes at least as far as one more change takes the round before. *)
Lemma row_removed d k : visits d k → row (Datatypes.S d) k + 1 <= row (Datatypes.S (Datatypes.S d)) (k + 1).
Proof.
  intros Hk. assert (visits (Datatypes.S d) (k + 1)) as Hv.
  { destruct Hk as (i & ? & ->). exists (i + 1). lia. }
  destruct (row_slid _ _ Hv) as (Hle & _).
  enough (row (Datatypes.S d) k + 1 <= start (row (Datatypes.S d)) (Z.of_nat (Datatypes.S d)) (k + 1)) by lia.
  unfold start, above. replace (k + 1 - 1) with k by lia.
  destruct (Z.eqb_spec (k + 1) (- Z.of_nat (Datatypes.S d))) as [E|].
  { destruct Hk as (i & ? & ->). lia. }
  cbn [orb andb negb]. destruct (Z.eqb_spec (k + 1) (Z.of_nat (Datatypes.S d))); cbn [orb andb negb]; [lia|].
  destruct (Z.ltb_spec (row (Datatypes.S d) k) (row (Datatypes.S d) (k + 1 + 1))); lia.
Qed.

Lemma row_added d k : visits d k → row (Datatypes.S d) k <= row (Datatypes.S (Datatypes.S d)) (k - 1).
Proof.
  intros Hk. assert (visits (Datatypes.S d) (k - 1)) as Hv.
  { destruct Hk as (i & ? & ->). exists i. lia. }
  destruct (row_slid _ _ Hv) as (Hle & _).
  enough (row (Datatypes.S d) k <= start (row (Datatypes.S d)) (Z.of_nat (Datatypes.S d)) (k - 1)) by lia.
  unfold start, above. replace (k - 1 + 1) with k by lia.
  destruct (Z.eqb_spec (k - 1) (- Z.of_nat (Datatypes.S d))); cbn [orb andb negb]; [lia|].
  destruct (Z.eqb_spec (k - 1) (Z.of_nat (Datatypes.S d))) as [E|]; cbn [orb andb negb].
  { destruct Hk as (i & ? & ->). lia. }
  destruct (Z.ltb_spec (row (Datatypes.S d) (k - 1 - 1)) (row (Datatypes.S d) k)); lia.
Qed.

Lemma visits_removed d k : visits d k → visits (Datatypes.S d) (k + 1).
Proof. intros (i & ? & ->). exists (i + 1). lia. Qed.
Lemma visits_added d k : visits d k → visits (Datatypes.S d) (k - 1).
Proof. intros (i & ? & ->). exists i. lia. Qed.

(** ** The first point past both ends is the end itself *)

Definition ends (d : nat) (k : Z) : Prop :=
  n <= row (Datatypes.S d) k ∧ m <= row (Datatypes.S d) k - k.

(** One step back from a point no slide led to. *)
Lemma unslid_pred d k : visits (Datatypes.S d) k →
  (∃ k', visits d k' ∧ k' = k + 1 ∧
     start (row (Datatypes.S d)) (Z.of_nat (Datatypes.S d)) k = row (Datatypes.S d) k') ∨
  (∃ k', visits d k' ∧ k' = k - 1 ∧
     start (row (Datatypes.S d)) (Z.of_nat (Datatypes.S d)) k = row (Datatypes.S d) k' + 1).
Proof.
  intros Hk. unfold start. destruct (above _ _ _) eqn:Ha.
  - left. exists (k + 1). split; [|done]. apply (reads_above (Datatypes.S d)); done.
  - right. exists (k - 1). split; [|done]. apply (reads_left (Datatypes.S d)); done.
Qed.

Lemma visits_0 k : visits 0 k → k = 0.
Proof. intros (i & ? & ->). lia. Qed.

(** A point [j] lines below the end of [b] was level with it [j] rounds ago. *)
Lemma over_new d k (j : nat) : 0 < n → 0 < m → visits d k →
  row (Datatypes.S d) k - k = m + Z.of_nat j →
  (j <= d)%nat ∧ visits (d - j) (k + Z.of_nat j) ∧
  row (Datatypes.S d) k <= row (Datatypes.S (d - j)) (k + Z.of_nat j).
Proof.
  intros Hn Hm. revert k j. induction d as [|d IH]; intros k j Hk Hy;
    (destruct j as [|j]; [rewrite Nat.sub_0_r, Z.add_0_r; repeat split; [lia | done | lia] |]);
    destruct (row_slid _ _ Hk) as (Hle & Hin & _).
  { pose proof (visits_0 _ Hk). subst k. change (start (row 0) (Z.of_nat 0) 0) with 0 in *. lia. }
  assert (row (Datatypes.S (Datatypes.S d)) k =
          start (row (Datatypes.S d)) (Z.of_nat (Datatypes.S d)) k) as Heq by lia.
  destruct (unslid_pred _ _ Hk) as [(k' & Hv & -> & E) | (k' & Hv & -> & E)]; rewrite E in Heq.
  - destruct (IH (k + 1) j Hv) as (? & ? & ?); [lia|].
    replace (Datatypes.S d - Datatypes.S j)%nat with (d - j)%nat by lia.
    replace (k + Z.of_nat (Datatypes.S j)) with (k + 1 + Z.of_nat j) by lia. repeat split; [lia | done | lia].
  - destruct (IH (k - 1) (Datatypes.S j) Hv) as (? & Hv' & ?); [lia|].
    pose proof (row_removed _ _ Hv'). apply visits_removed in Hv'.
    replace (Datatypes.S d - Datatypes.S j)%nat with (Datatypes.S (d - Datatypes.S j)) by lia.
    replace (k + Z.of_nat (Datatypes.S j)) with (k - 1 + Z.of_nat (Datatypes.S j) + 1) by lia.
    repeat split; [lia | done | lia].
Qed.

(** The same past the end of [a]. *)
Lemma over_old d k (j : nat) : 0 < n → 0 < m → visits d k →
  row (Datatypes.S d) k = n + Z.of_nat j →
  (j <= d)%nat ∧ visits (d - j) (k - Z.of_nat j) ∧ n <= row (Datatypes.S (d - j)) (k - Z.of_nat j).
Proof.
  intros Hn Hm. revert k j. induction d as [|d IH]; intros k j Hk Hy;
    (destruct j as [|j]; [rewrite Nat.sub_0_r, Z.sub_0_r; repeat split; [lia | done | lia] |]);
    destruct (row_slid _ _ Hk) as (Hle & Hin & _).
  { pose proof (visits_0 _ Hk). subst k. change (start (row 0) (Z.of_nat 0) 0) with 0 in *. lia. }
  assert (row (Datatypes.S (Datatypes.S d)) k =
          start (row (Datatypes.S d)) (Z.of_nat (Datatypes.S d)) k) as Heq by lia.
  destruct (unslid_pred _ _ Hk) as [(k' & Hv & -> & E) | (k' & Hv & -> & E)]; rewrite E in Heq.
  - destruct (IH (k + 1) (Datatypes.S j) Hv) as (? & Hv' & ?); [lia|].
    pose proof (row_added _ _ Hv'). apply visits_added in Hv'.
    replace (Datatypes.S d - Datatypes.S j)%nat with (Datatypes.S (d - Datatypes.S j)) by lia.
    replace (k - Z.of_nat (Datatypes.S j)) with (k + 1 - Z.of_nat (Datatypes.S j) - 1) by lia.
    repeat split; [lia | done | lia].
  - destruct (IH (k - 1) j Hv) as (? & ? & ?); [lia|].
    replace (Datatypes.S d - Datatypes.S j)%nat with (d - j)%nat by lia.
    replace (k - Z.of_nat (Datatypes.S j)) with (k - 1 - Z.of_nat j) by lia. repeat split; [lia | done | lia].
Qed.

Lemma ends_corner d k : 0 < n → 0 < m → visits d k → ends d k →
  (∀ d' k', (d' < d)%nat → visits d' k' → ¬ ends d' k') →
  row (Datatypes.S d) k = n ∧ k = n - m.
Proof.
  intros Hn Hm Hk [H1 H2] Hfirst.
  assert (row (Datatypes.S d) k = n) as Hx.
  { destruct (Z.eq_dec (row (Datatypes.S d) k) n) as [|Hne]; [done|]. exfalso.
    destruct (over_old d k (Z.to_nat (row (Datatypes.S d) k - n))) as (? & Hv & ?); try done; [lia|].
    refine (Hfirst _ _ _ Hv _); [lia|]. split; lia. }
  split; [done|].
  destruct (Z.eq_dec (row (Datatypes.S d) k - k) m) as [|Hne]; [lia|]. exfalso.
  destruct (over_new d k (Z.to_nat (row (Datatypes.S d) k - k - m))) as (? & Hv & ?); try done; [lia|].
  refine (Hfirst _ _ _ Hv _); [lia|]. split; lia.
Qed.

(** ** No script is ahead of the furthest points *)

Lemma from_inv {A} (l : list A) x : 0 <= x <= zlen l →
  match from x l with
  | [] => x = zlen l
  | e :: r => at_index l x = Some e ∧ r = from (x + 1) l ∧ x < zlen l
  end.
Proof.
  intros Hx. destruct (Z.eq_dec x (zlen l)) as [->|Hne].
  - by rewrite from_end.
  - destruct (at_index_Some l x) as [e He]; [lia|]. rewrite (from_cons _ _ _ He). repeat split; [done | lia].
Qed.

Lemma script_behind ops x y e : 0 <= x <= n → 0 <= y <= m →
  visits e (x - y) → x <= row (Datatypes.S e) (x - y) →
  replays ops (from x a) (from y b) = true →
  visits (e + edits ops) (n - m) ∧ n <= row (Datatypes.S (e + edits ops)) (n - m).
Proof.
  revert x y e. induction ops as [|o ops IH]; intros x y e Hx Hy Hv Hr H;
    pose proof (from_inv a x Hx) as Fa; pose proof (from_inv b y Hy) as Fb;
    destruct (from x a) as [|l ra], (from y b) as [|r rb];
    try (destruct o; simpl in H; discriminate H); try discriminate H;
    try (destruct Fa as (El & -> & ?)); try (destruct Fb as (Er & -> & ?)).
  - simpl. rewrite Nat.add_0_r. subst x y. done.
  - destruct o; try discriminate H. simpl in H |- *. subst x.
    pose proof (row_added _ _ Hv). apply visits_added in Hv.
    rewrite <- Nat.add_succ_comm.
    replace (n - y - 1) with (n - (y + 1)) in * by lia.
    apply (IH n (y + 1) (Datatypes.S e)); try lia; [done|]. by rewrite from_end.
  - destruct o; try discriminate H. simpl in H |- *. subst y.
    pose proof (row_removed _ _ Hv). apply visits_removed in Hv.
    rewrite <- Nat.add_succ_comm.
    replace (x - m + 1) with (x + 1 - m) in * by lia.
    apply (IH (x + 1) m (Datatypes.S e)); try lia; [done|]. by rewrite from_end.
  - destruct o; simpl in H |- *.
    + apply andb_true_iff in H as [->%String.eqb_eq H].
      replace (x - y) with (x + 1 - (y + 1)) in * by lia.
      apply (IH (x + 1) (y + 1) e); try lia; try done.
      destruct (row_slid _ _ Hv) as (_ & _ & _ & Hstuck).
      destruct (Z.eq_dec x (row (Datatypes.S e) (x + 1 - (y + 1)))) as [E|]; [|lia].
      exfalso. apply Hstuck. rewrite <- E.
      replace (x + (start (row e) (Z.of_nat e) (x + 1 - (y + 1)) - (x + 1 - (y + 1)) -
        start (row e) (Z.of_nat e) (x + 1 - (y + 1)))) with y by lia.
      repeat split; [lia | lia |]. by exists r.
    + rewrite <- (from_cons _ _ _ Er) in H.
      pose proof (row_removed _ _ Hv). apply visits_removed in Hv.
      rewrite <- Nat.add_succ_comm.
      replace (x - y + 1) with (x + 1 - y) in * by lia.
      apply (IH (x + 1) y (Datatypes.S e)); try lia; done.
    + rewrite <- (from_cons _ _ _ El) in H.
      pose proof (row_added _ _ Hv). apply visits_added in Hv.
      rewrite <- Nat.add_succ_comm.
      replace (x - y - 1) with (x - (y + 1)) in * by lia.
      apply (IH x (y + 1) (Datatypes.S e)); try lia; done.
Qed.

(** A script with [e] changes ends the search by round [e]. *)
Lemma script_ends ops : replays ops a b = true → visits (edits ops) (n - m) ∧ ends (edits ops) (n - m).
Proof.
  intros H. destruct (script_behind ops 0 0 0) as [Hv Hr]; try (unfold zlen; lia); try done.
  - exists 0. lia.
  - assert (visits 0 0) as Hv by (exists 0; lia). destruct (row_slid _ _ Hv) as (Hle & _).
    pose proof (start_quadrant _ _ Hv). change (0 - 0) with 0. lia.
  - split; [done|]. split; simpl Nat.add in *; lia.
Qed.

(** ** The array holds the furthest points *)

Definition holds (at_ : Z → option Z) (d : nat) : Prop :=
  ∀ k, reads d k → at_ k = Some (row d k).

Lemma from_above_ok at_ d k : holds at_ d → visits d k →
  from_above at_ (Z.of_nat d) k = Some (above (row d) (Z.of_nat d) k).
Proof.
  intros Hat Hk. unfold from_above, above.
  destruct (Z.eqb_spec k (- Z.of_nat d)); [done|].
  destruct (Z.eqb_spec k (Z.of_nat d)); [done|].
  destruct (reads_inside d k) as [H1 H2]; [done..|]. by rewrite (Hat _ H1), (Hat _ H2).
Qed.

Lemma reads_ne_visits d k k' : reads d k → visits d k' → k ≠ k'.
Proof. destruct d; simpl; intros H (i & ? & ->); [lia|]. destruct H as (j & ? & ->). lia. Qed.

Section rounds.
Context (limit : Z).

Definition in_v (v : list Z) (k : Z) : option Z := at_index v (limit + 1 + k).

(** Round [d] about to visit diagonal [k]. *)
Definition at_diagonal (d : nat) (k : Z) (v : list Z) : Prop :=
  zlen v = 2 * limit + 3 ∧ holds (in_v v) d ∧
  (∀ k', visits d k' → k' < k → in_v v k' = Some (row (Datatypes.S d) k')).

Lemma at_diagonal_set d k v x : Z.of_nat d <= limit → visits d k → x = row (Datatypes.S d) k →
  at_diagonal d k v →
  ∃ v', set_index v (limit + 1 + k) x = Some v' ∧ at_diagonal d (k + 2) v'.
Proof.
  intros Hd Hk -> (Hlen & Hold & Hnew).
  destruct (set_index_Some v (limit + 1 + k) (row (Datatypes.S d) k)) as (v' & E & Hl & Hx & Ho).
  { destruct Hk as (i & ? & ->). lia. }
  exists v'. split; [done|]. split; [congruence|]. split.
  - intros k' Hk'. pose proof (reads_ne_visits _ _ _ Hk' Hk). unfold in_v. rewrite Ho by lia. by apply Hold.
  - intros k' Hk' Hlt. destruct (Z.eq_dec k' k) as [->|]; [done|].
    unfold in_v. rewrite Ho by lia. apply Hnew; [done|].
    destruct Hk as (i & ? & ->), Hk' as (j & ? & ->). lia.
Qed.

Lemma diagonals_ok fuel d i v : Z.of_nat d <= limit → 0 <= i →
  Z.of_nat d + 1 - i <= Z.of_nat fuel →
  at_diagonal d (2 * i - Z.of_nat d) v →
  ∃ v' hit, diagonals a b fuel (limit + 1) (Z.of_nat d) (2 * i - Z.of_nat d) v = Some (v', hit) ∧
    if (hit : bool) then ∃ k, visits d k ∧ ends d k
    else at_diagonal d (Z.of_nat d + 1) v' ∧
         (∀ k, visits d k → 2 * i - Z.of_nat d <= k → ¬ ends d k).
Proof.
  intros Hd. revert i v. induction fuel as [|fuel IH]; intros i v Hi Hf Hv;
    simpl; destruct (Z.leb_spec (2 * i - Z.of_nat d) (Z.of_nat d)) as [Hle|Hgt]; try lia.
  1, 3: exists v, false; split; [done|]; split;
    [ destruct Hv as (? & ? & Hnew); repeat split; try done;
      intros k' Hk' _; apply Hnew; [done | destruct Hk' as (j & ? & ->); lia]
    | intros k (j & ? & ->); lia ].
  assert (visits d (2 * i - Z.of_nat d)) as Hk by (exists i; lia).
  set (k := 2 * i - Z.of_nat d) in *.
  pose proof Hv as (Hlen & Hold & _).
  destruct (at_index_Some v (limit + 1 + (k - 1))) as [l El]; [lia|]. rewrite El. simpl.
  rewrite (from_above_ok (λ k, at_index v (limit + 1 + k)) d k Hold Hk). simpl.
  assert ((if above (row d) (Z.of_nat d) k then at_index v (limit + 1 + (k + 1)) else Some (l + 1)) =
          Some (start (row d) (Z.of_nat d) k)) as ->.
  { unfold start. destruct (above _ _ _) eqn:Ha.
    - apply (Hold _ (reads_above _ _ Hk Ha)).
    - pose proof (Hold _ (reads_left _ _ Hk Ha)) as E. unfold in_v in E. congruence. }
  simpl. destruct (start_quadrant _ _ Hk) as [H0 H1].
  destruct (snake_slide k _ H0 H1) as [-> _]. simpl.
  change (snake k (start (row d) (Z.of_nat d) k)) with (row (Datatypes.S d) k).
  destruct (at_diagonal_set d k v _ Hd Hk eq_refl Hv) as (v' & -> & Hv').
  cbn [mbind option_bind].
  destruct (Z.leb_spec n (row (Datatypes.S d) k)) as [Hx|Hx];
    destruct (Z.leb_spec m (row (Datatypes.S d) k - k)) as [Hy|Hy]; cbn [andb].
  { exists v', true. split; [done|]. by exists k. }
  all: replace (k + 2) with (2 * (i + 1) - Z.of_nat d) in * by lia;
    destruct (IH (i + 1) v') as (v'' & hit & E & H); [lia | lia | done |];
    exists v'', hit; (split; [done|]); destruct hit; [done|];
    destruct H as [Hd' Hno]; (split; [done|]); intros k' Hk' Hge [He1 He2];
    (destruct (Z.eq_dec k' k) as [->|]; [lia|]);
    apply (Hno k' Hk'); [destruct Hk' as (j & ? & ->); lia | done].
Qed.

Definition at_round (d : nat) (v : list Z) : Prop :=
  zlen v = 2 * limit + 3 ∧ holds (in_v v) d.

(** The first [d] rows of the trace, each cut to what its round reads. *)
Definition traced (d : nat) (trace : list (list Z)) : Prop :=
  zlen trace = Z.of_nat d ∧
  ∀ j : nat, (j < d)%nat → ∃ prev, at_index trace (Z.of_nat j) = Some prev ∧
    holds (λ k, at_index prev (k + Z.of_nat j + 1)) j.

Definition none_before (d : nat) : Prop :=
  ∀ d' k', (d' < d)%nat → visits d' k' → ¬ ends d' k'.

Lemma traced_next d v trace : Z.of_nat d <= limit → at_round d v → traced d trace →
  ∃ r, slice v (limit + 1 - Z.of_nat d - 1) (limit + 1 + Z.of_nat d + 2) = Some r ∧
    traced (Datatypes.S d) (trace ++ [r]).
Proof.
  intros Hd [Hlen Hold] [Hn Ht].
  destruct (slice_Some v (limit + 1 - Z.of_nat d - 1) (limit + 1 + Z.of_nat d + 2))
    as (r & E & Hr & Hat); [lia | lia |].
  exists r. split; [done|]. split.
  { unfold zlen in *. rewrite length_app. simpl. lia. }
  intros j Hj. unfold zlen in Hn. destruct (decide (j = d)) as [->|].
  - exists r. split.
    { unfold at_index. rewrite (proj2 (Z.leb_le 0 _)) by lia. rewrite Nat2Z.id.
      rewrite lookup_app_r by lia. by replace (d - length trace)%nat with O by lia. }
    intros k Hk. rewrite Hat.
    + rewrite <- (Hold k Hk). unfold in_v. f_equal. lia.
    + destruct d; simpl in Hk; [lia|]. destruct Hk as (i & ? & ->). lia.
  - destruct (Ht j) as (prev & Ej & Hp); [lia|]. exists prev. split; [|done].
    rewrite <- Ej. unfold at_index. rewrite (proj2 (Z.leb_le 0 _)) by lia.
    apply lookup_app_l. lia.
Qed.

Lemma rounds_ok fuel d v trace : 0 <= limit → Z.of_nat d <= limit + 1 →
  limit + 1 - Z.of_nat d <= Z.of_nat fuel → at_round d v → traced d trace → none_before d →
  ∃ trace' found, rounds a b fuel limit (Z.of_nat d) v trace = Some (trace', found) ∧
    match found with
    | None => none_before (Datatypes.S (Z.to_nat limit))
    | Some z => ∃ d', z = Z.of_nat d' ∧ traced (Datatypes.S d') trace' ∧
        (∃ k, visits d' k ∧ ends d' k) ∧ none_before d'
    end.
Proof.
  intros Hl. revert d v trace. induction fuel as [|fuel IH]; intros d v trace Hd Hf Hv Ht Hno; cbn [rounds];
    destruct (Z.leb_spec (Z.of_nat d) limit) as [Hle|Hgt]; try lia.
  1, 3: exists trace, None; split; [done|]; intros d' k' Hlt; apply Hno; lia.
  destruct (traced_next d v trace Hle Hv Ht) as (r & -> & Ht'). cbn [mbind option_bind].
  destruct (diagonals_ok (Datatypes.S (Z.to_nat (Z.of_nat d))) d 0 v Hle) as (v' & hit & E & H); [lia | lia | |].
  { destruct Hv as [Hlen Hold]. repeat split; try done. intros k' (j & ? & ->). lia. }
  replace (2 * 0 - Z.of_nat d) with (- Z.of_nat d) in * by lia. rewrite E. cbn [mbind option_bind].
  destruct hit.
  { exists (trace ++ [r])%list, (Some (Z.of_nat d)). split; [done|]. by exists d. }
  destruct H as [(Hlen & _ & Hnew) Hnone].
  replace (Z.of_nat d + 1) with (Z.of_nat (Datatypes.S d)) by lia.
  apply IH; [lia | lia | | done |].
  - split; [done|]. intros k Hk. apply Hnew; [done|]. destruct Hk as (i & ? & ->). lia.
  - intros d' k' Hlt Hk'. destruct (decide (d' = d)) as [->|]; [|apply Hno; [lia | done]].
    apply Hnone; [done|]. destruct Hk' as (j & ? & ->). lia.
Qed.

End rounds.

(** ** The walk back *)

Lemma back_kept_ok fuel px py x0 x y ops : x0 <= x → px <= x0 → py <= y - (x - x0) →
  (x0 = px ∨ y - (x - x0) = py) → x - x0 <= Z.of_nat fuel →
  back_kept fuel px py x y ops =
    Some (x0, y - (x - x0), (ops ++ replicate (Z.to_nat (x - x0)) Kept)%list).
Proof.
  revert x y ops. induction fuel as [|fuel IH]; intros x y ops Hx Hpx Hpy Hor Hf; simpl;
    destruct (Z.eq_dec x0 x) as [->|]; try lia;
    try (replace ((px <? x) && (py <? y)) with false
           by (symmetry; apply andb_false_iff; lia);
         rewrite Z.sub_diag, Z.sub_0_r; simpl; by rewrite app_nil_r).
  rewrite (proj2 (Z.ltb_lt px x)), (proj2 (Z.ltb_lt py y)) by lia. cbn [andb].
  rewrite IH by lia. rewrite <- app_assoc.
  replace (y - 1 - (x - 1 - x0)) with (y - (x - x0)) by lia.
  by replace (Z.to_nat (x - x0)) with (Datatypes.S (Z.to_nat (x - 1 - x0))) by lia.
Qed.

Lemma replays_slide j x y r : 0 <= x → 0 <= y →
  (∀ i, x <= i < x + Z.of_nat j → same_at i (i + (y - x))) →
  replays r (from (x + Z.of_nat j) a) (from (y + Z.of_nat j) b) = true →
  replays (replicate j Kept ++ r) (from x a) (from y b) = true.
Proof.
  revert x y. induction j as [|j IH]; intros x y Hx Hy Hs Hr.
  { by rewrite !Z.add_0_r in Hr. }
  destruct (Hs x) as (l & E1 & E2); [lia|]. replace (x + (y - x)) with y in E2 by lia.
  rewrite (from_cons _ _ _ E1), (from_cons _ _ _ E2). simpl. rewrite String.eqb_refl.
  apply IH; [lia | lia | |].
  - intros i Hi. replace (y + 1 - (x + 1)) with (y - x) by lia. apply Hs. lia.
  - replace (x + 1 + Z.of_nat j) with (x + Z.of_nat (Datatypes.S j)) by lia.
    by replace (y + 1 + Z.of_nat j) with (y + Z.of_nat (Datatypes.S j)) by lia.
Qed.

(** Where the walk stands: a point the search reached, with a script for what
    lies past it. *)
Definition walking (d : nat) (x y : Z) (ops : list op) : Prop :=
  0 <= x <= n ∧ 0 <= y <= m ∧ visits d (x - y) ∧ x = row (Datatypes.S d) (x - y) ∧
  replays (reverse ops) (from x a) (from y b) = true.

(** The slide that led to the point, undone. *)
Lemma walking_slide d x y ops x0 : walking d x y ops →
  x0 = start (row d) (Z.of_nat d) (x - y) →
  0 <= x0 <= x ∧ 0 <= y - (x - x0) ∧
  replays (reverse (ops ++ replicate (Z.to_nat (x - x0)) Kept)%list)
    (from x0 a) (from (y - (x - x0)) b) = true.
Proof.
  intros (Hx & Hy & Hv & Hr & Hrep) ->. destruct (start_quadrant _ _ Hv) as [H0 H1].
  destruct (row_slid _ _ Hv) as (Hle & _ & Hs & _). rewrite <- Hr in *.
  split; [lia|]. split; [lia|].
  rewrite reverse_app, reverse_replicate. apply replays_slide; [lia | lia | |].
  - intros i Hi. replace (i + (y - (x - start (row d) (Z.of_nat d) (x - y)) -
      start (row d) (Z.of_nat d) (x - y))) with
      (i + (start (row d) (Z.of_nat d) (x - y) - (x - y) - start (row d) (Z.of_nat d) (x - y))) by lia.
    apply Hs. lia.
  - rewrite Z2Nat.id by lia.
    replace (start (row d) (Z.of_nat d) (x - y) + (x - start (row d) (Z.of_nat d) (x - y))) with x by lia.
    by replace (y - (x - start (row d) (Z.of_nat d) (x - y)) +
      (x - start (row d) (Z.of_nat d) (x - y))) with y by lia.
Qed.

Lemma walking_added d x y ops : 0 <= x <= n → 1 <= y <= m → visits d (x - (y - 1)) →
  x = row (Datatypes.S d) (x - (y - 1)) →
  replays (reverse ops) (from x a) (from y b) = true → walking d x (y - 1) (ops ++ [Added]).
Proof.
  intros Hx Hy Hv Hr Hrep. repeat split; try lia; try done.
  destruct (at_index_Some b (y - 1)) as [e He]; [lia|].
  rewrite reverse_app, (from_cons _ _ _ He). simpl. by replace (y - 1 + 1) with y by lia.
Qed.

Lemma walking_removed d x y ops : 1 <= x <= n → 0 <= y <= m → visits d (x - 1 - y) →
  x - 1 = row (Datatypes.S d) (x - 1 - y) →
  replays (reverse ops) (from x a) (from y b) = true → walking d (x - 1) y (ops ++ [Removed]).
Proof.
  intros Hx Hy Hv Hr Hrep. repeat split; try lia; try done.
  destruct (at_index_Some a (x - 1)) as [e He]; [lia|].
  rewrite reverse_app, (from_cons _ _ _ He). simpl. by replace (x - 1 + 1) with x by lia.
Qed.

Lemma walk_back_ok d D trace x y ops : (d <= D)%nat → traced (Datatypes.S D) trace →
  walking d x y ops →
  ∃ x' y' ops', walk_back a d trace (Z.of_nat d) x y ops = Some (x', y', ops') ∧
    walking 0 x' y' ops' ∧ edits ops' = (edits ops + d)%nat.
Proof.
  revert x y ops. induction d as [|d IH]; intros x y ops Hd Ht Hw.
  { exists x, y, ops. by rewrite Nat.add_0_r. }
  pose proof (walking_slide _ _ _ _ _ Hw eq_refl) as (Hx0 & Hy0 & Hrep).
  destruct Hw as (Hx & Hy & Hv & Hr & _). destruct Ht as [Hlen Ht].
  destruct (Ht (Datatypes.S d)) as (prev & Hprev & Hold); [lia|].
  cbn [walk_back]. rewrite (proj2 (Z.ltb_lt 0 _)) by lia. rewrite Hprev. cbn [mbind option_bind].
  rewrite (from_above_ok _ _ _ Hold Hv). cbn [mbind option_bind].
  set (k := x - y) in *.
  assert (∀ c, edits (ops ++ replicate c Kept) = edits ops) as Hedits.
  { intros c. rewrite edits_app, edits_kept. lia. }
  unfold start in *. destruct (above (row (Datatypes.S d)) (Z.of_nat (Datatypes.S d)) k) eqn:Ha.
  - pose proof (reads_above _ _ Hv Ha) as Hk'. rewrite (Hold _ Hk'). cbn [mbind option_bind].
    destruct (row_quadrant _ _ Hk') as (Hq & _ & Hq').
    rewrite (back_kept_ok _ _ _ (row (Datatypes.S d) (k + 1))) by (unfold zlen in *; lia).
    cbn [mbind option_bind]. rewrite Z.eqb_refl.
    replace (Z.of_nat (Datatypes.S d) - 1) with (Z.of_nat d) by lia.
    set (x0 := row (Datatypes.S d) (k + 1)) in *.
    destruct (IH x0 (y - (x - x0) - 1) (ops ++ replicate (Z.to_nat (x - x0)) Kept ++ [Added])%list)
      as (x' & y' & ops' & E & Hw' & Hed); [lia | done | |].
    + assert (x0 - (y - (x - x0) - 1) = k + 1) as Hk by lia.
      rewrite app_assoc. apply walking_added; rewrite ?Hk; solve [done | lia].
    + rewrite <- app_assoc. exists x', y', ops'. split; [done|]. split; [done|].
      rewrite Hed, app_assoc, edits_app, Hedits. simpl. lia.
  - pose proof (reads_left _ _ Hv Ha) as Hk'. rewrite (Hold _ Hk'). cbn [mbind option_bind].
    destruct (row_quadrant _ _ Hk') as (Hq & _ & Hq').
    rewrite (back_kept_ok _ _ _ (row (Datatypes.S d) (k - 1) + 1)) by (unfold zlen in *; lia).
    cbn [mbind option_bind]. rewrite (proj2 (Z.eqb_neq _ _)) by lia.
    replace (Z.of_nat (Datatypes.S d) - 1) with (Z.of_nat d) by lia.
    set (x0 := row (Datatypes.S d) (k - 1) + 1) in *.
    destruct (IH (x0 - 1) (y - (x - x0)) (ops ++ replicate (Z.to_nat (x - x0)) Kept ++ [Removed])%list)
      as (x' & y' & ops' & E & Hw' & Hed); [lia | done | |].
    + assert (x0 - 1 - (y - (x - x0)) = k - 1) as Hk by lia.
      rewrite app_assoc. apply walking_removed; rewrite ?Hk; solve [done | lia].
    + rewrite <- app_assoc. exists x', y', ops'. split; [done|]. split; [done|].
      rewrite Hed, app_assoc, edits_app, Hedits. simpl. lia.
Qed.

(** ** The script found *)

Definition best (ops : list op) : Prop :=
  replays ops a b = true ∧
  (Z.of_nat (distance a b) <= MaxEditDistance → edits ops = distance a b).

Lemma replaceAll_replays :
  replays (replaceAll a b) a b = true ∧ edits (replaceAll a b) = (length a + length b)%nat.
Proof.
  unfold replaceAll. split.
  - rewrite <- (app_nil_r a) at 2. apply (replays_app _ _ a [] [] b);
      [apply replays_removed | apply replays_added].
  - by rewrite edits_app, edits_removed, edits_added.
Qed.

Lemma at_round_0 limit : 0 <= limit → at_round limit 0 (replicate (Z.to_nat (2 * limit + 3)) 0).
Proof.
  intros Hl. split; [unfold zlen; rewrite length_replicate; lia|].
  intros k Hk. simpl in Hk. subst k. unfold in_v, at_index.
  rewrite (proj2 (Z.leb_le 0 _)) by lia. apply lookup_replicate_2. lia.
Qed.

Lemma walk_ok d k trace : 0 < n → 0 < m → visits d k → ends d k → none_before d →
  traced (Datatypes.S d) trace →
  ∃ x y ops ops', walk_back a (Z.to_nat (Z.of_nat d)) trace (Z.of_nat d) n m [] = Some (x, y, ops) ∧
    back_kept (length a) 0 0 x y ops = Some (0, 0, ops') ∧
    replays (reverse ops') a b = true ∧ edits ops' = d.
Proof.
  intros Hn Hm Hk He Hno Ht.
  destruct (ends_corner _ _ Hn Hm Hk He Hno) as [Hx ->].
  destruct (walk_back_ok d d trace n m []) as (x & y & ops & E & Hw & Hed); [lia | done | |].
  { split; [lia|]. split; [lia|]. split; [done|]. split; [done|]. by rewrite !from_end. }
  rewrite Nat2Z.id. exists x, y, ops.
  destruct (walking_slide _ _ _ _ _ Hw eq_refl) as (? & ? & Hrep).
  destruct Hw as (? & ? & Hv & _). pose proof (visits_0 _ Hv) as Hxy.
  change (start (row 0) (Z.of_nat 0) (x - y)) with
    (if above (row 0) (Z.of_nat 0) (x - y) then 0 else 0 + 1) in *.
  rewrite Hxy in *. change (if above (row 0) (Z.of_nat 0) 0 then 0 else 0 + 1) with 0 in *.
  eexists. split; [done|]. rewrite (back_kept_ok _ _ _ 0) by (unfold zlen in *; lia).
  replace (y - (x - 0)) with 0 in * by lia. split; [done|]. split; [done|].
  by rewrite edits_app, edits_kept, Hed, Nat.add_0_r.
Qed.

Lemma shortestEdit_ok : ∃ ops, shortestEdit a b = Some ops ∧ best ops.
Proof.
  destruct replaceAll_replays as [Hall Eall]. unfold shortestEdit, best.
  destruct (Z.eqb_spec n 0) as [Hn|Hn]; [|destruct (Z.eqb_spec m 0) as [Hm|Hm]]; cbn [orb].
  1, 2: exists (replaceAll a b); (split; [done|]); split; [done|]; intros _; rewrite Eall.
  { destruct a; [by rewrite distance_nil_l | done]. }
  { destruct b; [rewrite distance_nil_r; simpl; lia | done]. }
  set (limit := Z.min (n + m) MaxEditDistance).
  assert (0 <= limit) as Hl by (unfold limit, MaxEditDistance, zlen in *; lia).
  destruct (rounds_ok limit (Datatypes.S (Z.to_nat limit)) 0 (replicate (Z.to_nat (2 * limit + 3)) 0) [])
    as (trace & found & E & H); [lia | lia | lia | by apply at_round_0 | |  |].
  { split; [done | intros j Hj; lia]. }
  { intros d' k' Hd'. lia. }
  change (Z.of_nat 0) with 0 in E. rewrite E. cbn [mbind option_bind].
  pose proof (distance_le _ _ _ Hall) as Hmax. rewrite Eall in Hmax.
  destruct (distance_reached a b) as (o & Ho & Eo).
  destruct (script_ends _ Ho) as [Hov Hoe]. rewrite Eo in *.
  destruct found as [z|].
  - destruct H as (d & -> & Ht & (k & Hk & He) & Hno).
    destruct (walk_ok d k trace) as (x & y & ops & ops' & -> & E2 & Hrep & Hed);
      [unfold zlen in *; lia | unfold zlen in *; lia | done..|].
    cbn [mbind option_bind]. rewrite E2. cbn [mbind option_bind].
    exists (reverse ops'). split; [done|]. split; [done|]. intros _.
    rewrite edits_reverse, Hed. apply Nat.le_antisymm.
    + destruct (decide (distance a b < d)%nat) as [Hlt|]; [|lia].
      by destruct (Hno _ _ Hlt Hov).
    + pose proof (distance_le _ _ _ Hrep) as Hle. rewrite edits_reverse in Hle. lia.
  - exists (replaceAll a b). split; [done|]. split; [done|]. intros Hsmall. exfalso.
    refine (H _ _ _ Hov Hoe). unfold limit, MaxEditDistance, zlen in *. lia.
Qed.

End search.

(** ** Hunks *)

(** [hs] are the changed runs between [a] and [b], whose first lines are
    numbered [ai] and [bi]: equal lines around them, something in each of them,
    at least one equal line between two of them. *)
Inductive aligned : Z → Z → list Hunk → list string → list string → Prop :=
  | aligned_same ai bi same : aligned ai bi [] same same
  | aligned_hunk ai bi same old new h hs a b :
      h = MkHunk (ai + zlen same) (zlen old) (bi + zlen same) (zlen new) →
      0 < zlen old + zlen new →
      match hs with
      | [] => True
      | h' :: _ => OldStart h + OldCount h < OldStart h'
      end →
      aligned (ai + zlen same + zlen old) (bi + zlen same + zlen new) hs a b →
      aligned ai bi (h :: hs) (same ++ old ++ a)%list (same ++ new ++ b)%list.

Lemma zlen_app {A} (l1 l2 : list A) : zlen (l1 ++ l2) = zlen l1 + zlen l2.
Proof. unfold zlen. rewrite length_app. lia. Qed.

Lemma zlen_cons {A} (x : A) l : zlen (x :: l) = 1 + zlen l.
Proof. unfold zlen. simpl. lia. Qed.

Lemma zlen_nonneg {A} (l : list A) : 0 <= zlen l.
Proof. unfold zlen. lia. Qed.

Lemma aligned_kept ai bi hs x a b :
  aligned (ai + 1) (bi + 1) hs a b → aligned ai bi hs (x :: a) (x :: b).
Proof.
  inversion 1 as [? ? same | ? ? same old new h hs' a' b' Hh Hne Hgap Hrest]; subst.
  - apply aligned_same.
  - change (x :: same ++ old ++ a')%list with ((x :: same) ++ old ++ a')%list.
    change (x :: same ++ new ++ b')%list with ((x :: same) ++ new ++ b')%list.
    apply aligned_hunk; try done; rewrite zlen_cons.
    + f_equal; lia.
    + replace (ai + (1 + zlen same) + zlen old) with (ai + 1 + zlen same + zlen old) by lia.
      by replace (bi + (1 + zlen same) + zlen new) with (bi + 1 + zlen same + zlen new) by lia.
Qed.

Lemma aligned_start ai bi h hs a b : aligned ai bi (h :: hs) a b → ai <= OldStart h.
Proof. inversion 1; subst. simpl. pose proof (zlen_nonneg same). lia. Qed.

Lemma aligned_nil ai bi hs a b : aligned ai bi hs a b → a = [] → b = [] → hs = [].
Proof.
  intros [|? ? same old new h hs' a' b' _ Hne _ _] E1 E2; [done|]. exfalso.
  apply app_eq_nil in E1 as [_ [-> _]%app_eq_nil]. apply app_eq_nil in E2 as [_ [-> _]%app_eq_nil].
  unfold zlen in Hne. simpl in Hne. lia.
Qed.

Lemma hunk_run_ok ops h ai bi a b : replays ops a b = true →
  ∃ old new a' b' ops', a = (old ++ a')%list ∧ b = (new ++ b')%list ∧
    hunk_run ops h ai bi =
      (MkHunk (OldStart h) (OldCount h + zlen old) (NewStart h) (NewCount h + zlen new),
       ai + zlen old, bi + zlen new, ops') ∧
    replays ops' a' b' = true ∧ (length ops' + length old + length new = length ops)%nat ∧
    match ops' with [] | Kept :: _ => True | _ => False end ∧
    match ops with [] | Kept :: _ => True | _ => 0 < zlen old + zlen new end.
Proof.
  revert h ai bi a b. induction ops as [|o ops IH]; intros h ai bi a b H.
  { exists [], [], a, b, []. destruct h. unfold zlen. simpl. by rewrite !Z.add_0_r. }
  destruct o; simpl in H.
  - exists [], [], a, b, (Kept :: ops). destruct h. unfold zlen. simpl. by rewrite !Z.add_0_r, !Nat.add_0_r.
  - destruct a as [|x a]; [done|].
    destruct (IH (MkHunk (OldStart h) (OldCount h + 1) (NewStart h) (NewCount h)) (ai + 1) bi _ _ H)
      as (old & new & a' & b' & ops' & -> & -> & E & Hr & Hl & Hk & _).
    pose proof (zlen_nonneg old). pose proof (zlen_nonneg new).
    exists (x :: old), new, a', b', ops'. simpl. rewrite E, zlen_cons. simpl.
    rewrite <- !Z.add_assoc. repeat split; [done | lia | done | rewrite ?zlen_cons; lia].
  - destruct b as [|y b]; [by destruct a|]. assert (replays ops a b = true) as H' by (by destruct a).
    destruct (IH (MkHunk (OldStart h) (OldCount h) (NewStart h) (NewCount h + 1)) ai (bi + 1) _ _ H')
      as (old & new & a' & b' & ops' & -> & -> & E & Hr & Hl & Hk & _).
    pose proof (zlen_nonneg old). pose proof (zlen_nonneg new).
    exists old, (y :: new), a', b', ops'. simpl. rewrite E, zlen_cons. simpl.
    rewrite <- !Z.add_assoc. repeat split; [done | lia | done | rewrite ?zlen_cons; lia].
Qed.

Lemma hunks_from_ok fuel ops ai bi out a b : (length ops <= fuel)%nat → replays ops a b = true →
  ∃ hs, hunks_from fuel ops ai bi out = Some (out ++ hs)%list ∧ aligned ai bi hs a b ∧
    match ops, hs with Kept :: _, h :: _ => ai < OldStart h | _, _ => True end.
Proof.
  revert ops ai bi out a b. induction fuel as [|fuel IH]; intros [|o ops] ai bi out a b Hf H;
    simpl in Hf; try lia.
  1, 2: destruct a, b; try discriminate H; exists []; simpl; rewrite app_nil_r;
    repeat split; apply aligned_same.
  destruct (decide (o = Kept)) as [->|Ho].
  - destruct a as [|x a], b as [|y b]; try discriminate H. simpl in H.
    apply andb_true_iff in H as [->%String.eqb_eq H].
    destruct (IH ops (ai + 1) (bi + 1) out a b) as (hs & E & Ha & _); [lia | done |].
    exists hs. simpl. split; [done|]. split; [by apply aligned_kept|].
    destruct hs as [|h hs]; [done|]. apply aligned_start in Ha. lia.
  - destruct (hunk_run_ok (o :: ops) (MkHunk ai 0 bi 0) ai bi a b H)
      as (old & new & a' & b' & ops' & -> & -> & E & Hr & Hl & Hk & Hne).
    assert (0 < zlen old + zlen new) as Hpos by (destruct o; done).
    set (h := MkHunk ai (zlen old) bi (zlen new)).
    destruct (IH ops' (ai + zlen old) (bi + zlen new) (out ++ [h])%list a' b')
      as (hs & E' & Ha & Hgap); [unfold zlen in *; simpl in Hl; lia | done |].
    exists (h :: hs). split; [|split; [|by destruct o]].
    + cbn [hunks_from]. rewrite <- app_assoc in E'. rewrite E. simpl in E |- *. by destruct o.
    + apply (aligned_hunk ai bi [] old new h hs a' b'); try done.
      * unfold h. f_equal; unfold zlen; simpl; lia.
      * destruct hs as [|h' hs]; [done|]. simpl.
        destruct ops' as [|[] ops']; try done.
        destruct a', b'; try discriminate Hr. by discriminate (aligned_nil _ _ _ _ _ Ha eq_refl eq_refl).
      * unfold zlen at 1 3. simpl. by rewrite !Z.add_0_r.
Qed.

(** ** Accepting and undoing one hunk *)

(** A hunk after lines of one side have come or gone. *)
Definition shift_old (d : Z) (h : Hunk) : Hunk :=
  MkHunk (OldStart h + d) (OldCount h) (NewStart h) (NewCount h).
Definition shift_new (d : Z) (h : Hunk) : Hunk :=
  MkHunk (OldStart h) (OldCount h) (NewStart h + d) (NewCount h).

Lemma aligned_shift d e ai bi hs a b : aligned ai bi hs a b →
  aligned (ai + d) (bi + e) (map (shift_new e) (map (shift_old d) hs)) a b.
Proof.
  induction 1 as [|ai bi same old new h hs a b Hh Hne Hgap _ IH]; simpl; [constructor|].
  apply aligned_hunk; subst h; unfold shift_old, shift_new; simpl in *.
  - f_equal; lia.
  - done.
  - destruct hs as [|h' hs]; simpl in *; [done | lia].
  - replace (ai + d + zlen same + zlen old) with (ai + zlen same + zlen old + d) by lia.
    by replace (bi + e + zlen same + zlen new) with (bi + zlen same + zlen new + e) by lia.
Qed.

Lemma shift_zero hs : map (shift_new 0) hs = hs ∧ map (shift_old 0) hs = hs.
Proof.
  split; (induction hs as [|[] hs IH]; simpl; [done|]); rewrite IH; f_equal;
    unfold shift_new, shift_old; simpl; f_equal; lia.
Qed.

Lemma aligned_prefix ai bi same hs a b :
  aligned (ai + zlen same) (bi + zlen same) hs a b → aligned ai bi hs (same ++ a) (same ++ b).
Proof.
  revert ai bi. induction same as [|x same IH]; intros ai bi H; simpl.
  - unfold zlen in H. simpl in H. by rewrite !Z.add_0_r in H.
  - apply aligned_kept, IH. rewrite zlen_cons in H. by rewrite <- !Z.add_assoc.
Qed.

(** Where one hunk lies, and what is left of the others once it is taken. *)
Lemma aligned_middle ai bi hs1 h hs2 a b : aligned ai bi (hs1 ++ h :: hs2) a b →
  ∃ a1 old a2 b1 new b2,
    a = (a1 ++ old ++ a2)%list ∧ b = (b1 ++ new ++ b2)%list ∧
    h = MkHunk (ai + zlen a1) (zlen old) (bi + zlen b1) (zlen new) ∧
    aligned ai bi (hs1 ++ map (shift_old (NewCount h - OldCount h)) hs2) (a1 ++ new ++ a2) b ∧
    aligned ai bi (hs1 ++ map (shift_new (OldCount h - NewCount h)) hs2) a (b1 ++ old ++ b2).
Proof.
  revert ai bi a b. induction hs1 as [|h1 hs1 IH]; intros ai bi a b; simpl;
    inversion 1 as [|? ? same old new ? ? a' b' -> Hne Hgap Hrest]; subst.
  - exists same, old, a', same, new, b'. do 3 (split; [done|]). simpl. split.
    + rewrite (app_assoc same new a'), (app_assoc same new b'). apply aligned_prefix.
      apply (aligned_shift (zlen new - zlen old) 0) in Hrest. rewrite (proj1 (shift_zero _)) in Hrest.
      rewrite zlen_app. replace (ai + (zlen same + zlen new)) with
        (ai + zlen same + zlen old + (zlen new - zlen old)) by lia.
      by replace (bi + (zlen same + zlen new)) with (bi + zlen same + zlen new + 0) by lia.
    + rewrite (app_assoc same old a'), (app_assoc same old b'). apply aligned_prefix.
      apply (aligned_shift 0 (zlen old - zlen new)) in Hrest. rewrite (proj2 (shift_zero _)) in Hrest.
      rewrite zlen_app. replace (ai + (zlen same + zlen old)) with (ai + zlen same + zlen old + 0) by lia.
      by replace (bi + (zlen same + zlen old)) with
        (bi + zlen same + zlen new + (zlen old - zlen new)) by lia.
  - destruct (IH _ _ _ _ Hrest) as (a1 & o & a2 & b1 & w & b2 & -> & -> & -> & H1 & H2).
    exists (same ++ old ++ a1)%list, o, a2, (same ++ new ++ b1)%list, w, b2.
    rewrite !zlen_app. rewrite <- !app_assoc. do 2 (split; [done|]).
    split; [f_equal; lia|]. split; (apply aligned_hunk; [done | done | | done]);
      destruct hs1 as [|h2 hs1]; try done; destruct hs2 as [|h2 hs2]; try done; simpl in *.
    all: inversion Hrest as [|? ? ? ? ? ? ? ? ? Eh ? Hg ?]; subst; simpl in *.
    all: pose proof (zlen_nonneg w); pose proof (zlen_nonneg o); lia.
Qed.

Lemma slice_middle {A} (l1 l2 l3 : list A) :
  slice (l1 ++ l2 ++ l3) (zlen l1) (zlen l1 + zlen l2) = Some l2.
Proof.
  unfold slice, zlen. rewrite !length_app.
  rewrite (proj2 (Z.leb_le 0 _)), (proj2 (Z.leb_le (Z.of_nat (length l1)) _)),
    (proj2 (Z.leb_le _ (Z.of_nat (length l1 + _)))) by lia. cbn [andb]. f_equal.
  rewrite Nat2Z.id, drop_app_length.
  replace (Z.to_nat (Z.of_nat (length l1) + Z.of_nat (length l2) - Z.of_nat (length l1)))
    with (length l2) by lia. apply take_app_length.
Qed.

Lemma slice_start {A} (l1 l2 : list A) : slice (l1 ++ l2) 0 (zlen l1) = Some l1.
Proof. apply (slice_middle [] l1 l2). Qed.

Lemma slice_rest {A} (l1 l2 : list A) : slice (l1 ++ l2) (zlen l1) (zlen (l1 ++ l2)) = Some l2.
Proof. rewrite zlen_app. pose proof (slice_middle l1 l2 []) as H. by rewrite app_nil_r in H. Qed.

Lemma slice_past {A} (l1 l2 l3 : list A) (i : Z) : i = zlen l1 + zlen l2 →
  slice (l1 ++ l2 ++ l3) i (zlen (l1 ++ l2 ++ l3)) = Some l3.
Proof. intros ->. rewrite <- zlen_app, app_assoc. apply slice_rest. Qed.

Lemma Join_app l1 l2 : Join (l1 ++ l2) "" = String.append (Join l1 "") (Join l2 "").
Proof.
  assert (∀ x l, Join (x :: l) "" = String.append x (Join l "")) as Hc.
  { intros x [|y l]; [|done]. simpl. by rewrite str_app_nil_r. }
  induction l1 as [|x l1 IH]; [done|]. change ((x :: l1) ++ l2)%list with (x :: (l1 ++ l2))%list.
  rewrite !Hc, IH. by rewrite str_app_assoc.
Qed.

(** ** Lines of a text *)

(** A line: some bytes without a newline, then a newline, or not on the last. *)
Definition line_of (terminated : bool) (l : string) : Prop :=
  ∃ s, str_forall (λ c, negb (c =c newline)) s = true ∧
    if terminated then l = String.append s (String newline "") else l = s ∧ s ≠ ""%string.

Inductive lines_of : list string → Prop :=
  | lines_none : lines_of []
  | lines_last l : line_of false l → lines_of [l]
  | lines_more l ls : line_of true l → lines_of ls → lines_of (l :: ls).

(** [SplitAfter] gives terminated lines and what is left, which may be empty. *)
Inductive pieces_of : list string → Prop :=
  | pieces_last s : str_forall (λ c, negb (c =c newline)) s = true → pieces_of [s]
  | pieces_more l ls : line_of true l → pieces_of ls → pieces_of (l :: ls).

Lemma SplitAfter_pieces s : pieces_of (SplitAfter s newline) ∧ Join (SplitAfter s newline) "" = s.
Proof.
  induction s as [|c s [IH1 IH2]]; simpl; [split; [by constructor | done]|].
  destruct (Ascii.eqb_spec c newline) as [->|Hc].
  - split; [constructor; [by exists ""%string | done]|]. change (String newline "" :: SplitAfter s newline)
      with ([String newline ""] ++ SplitAfter s newline)%list. by rewrite Join_app, IH2.
  - destruct IH1 as [p Hp | p ls (q & Hq & ->) Hls].
    + split; [|simpl in *; by rewrite IH2]. constructor. simpl.
      rewrite Hp. apply Ascii.eqb_neq in Hc. by rewrite Hc.
    + split.
      * constructor; [|done]. exists (String c q). simpl. rewrite Hq.
        apply Ascii.eqb_neq in Hc. by rewrite Hc.
      * change (?x :: ls)%list with ([x] ++ ls)%list in IH2 |- *.
        change (String c (String.append q (String newline "")) :: ls)%list with
          ([String c (String.append q (String newline ""))] ++ ls)%list.
        rewrite Join_app in *. simpl in *. by rewrite str_app_cons, IH2.
Qed.

Lemma SplitLines_spec_pieces ls : pieces_of ls →
  ∃ l, last ls = Some l ∧
    lines_of (if String.eqb l "" then take (length ls - 1) ls else ls) ∧
    Join (if String.eqb l "" then take (length ls - 1) ls else ls) "" = Join ls "".
Proof.
  induction 1 as [s Hs | l ls Hl Hls (l' & El & IH1 & IH2)].
  - exists s. split; [done|]. destruct (String.eqb_spec s "") as [->|Hne]; simpl.
    + split; [constructor | done].
    + split; [|done]. constructor. by exists s.
  - exists l'. split; [by rewrite last_cons, El|].
    assert (length ls ≠ O) as Hn by (destruct ls; [done | simpl; lia]).
    change (l :: ls)%list with ([l] ++ ls)%list. rewrite (Join_app [l] ls), <- IH2.
    destruct (String.eqb l' "").
    + replace (length ([l] ++ ls)%list - 1)%nat with (Datatypes.S (length ls - 1)) by (simpl; lia).
      change (take (Datatypes.S (length ls - 1)) ([l] ++ ls)%list) with ([l] ++ take (length ls - 1) ls)%list.
      rewrite Join_app. split; [by constructor | done].
    + rewrite Join_app. split; [by constructor | done].
Qed.

(** ** No change, no hunk *)

Lemma distance_self a : distance a a = O.
Proof. pose proof (distance_le _ _ _ (replays_kept a)) as H. rewrite edits_kept in H. lia. Qed.

Lemma hunks_from_kept fuel ops ai bi out : (length ops <= fuel)%nat → edits ops = O →
  hunks_from fuel ops ai bi out = Some out.
Proof.
  revert ops ai bi. induction fuel as [|fuel IH]; intros [|[] ops] ai bi Hf He; simpl in *;
    try done; try lia. apply IH; [lia | done].
Qed.

(** ** Theorems *)

(** The lines of a text, each with its terminator, put together again give the
    text; only the last may lack its newline, and none is empty. *)
Theorem SplitLines_lines (s : string) :
  lines_of (SplitLines s) ∧ Join (SplitLines s) "" = s.
Proof.
  unfold SplitLines. destruct (String.eqb_spec s "") as [->|Hs]; [split; [constructor | done]|].
  destruct (SplitAfter_pieces s) as [Hp Hj].
  destruct (SplitLines_spec_pieces _ Hp) as (l & -> & H1 & H2).
  rewrite Hj in H2. destruct (String.eqb l ""); done.
Qed.

Lemma EditScript_best a b : ∃ ops, EditScript a b = Some ops ∧ best a b ops.
Proof.
  unfold EditScript. destruct (trim_split a b) as (p & s & Hp & Hs & Ha & Hb).
  set (a0 := middle _ _ a) in *. set (b0 := middle _ _ b) in *.
  destruct (shortestEdit_ok a0 b0) as (ops & -> & Hr & He). cbn [mbind option_bind].
  rewrite <- Hs, <- Hp. eexists. split; [done|]. split.
  - rewrite Ha, Hb. repeat apply replays_app; try done; apply replays_kept.
  - rewrite Ha, Hb, distance_trim, !edits_app, !edits_kept. lia.
Qed.

(** C40: The edit script always exists (no loop runs out, no index is out of range),
    and read as a diff it turns the first list into the second. *)
Theorem EditScript_replays (a b : list string) :
  ∃ ops, EditScript a b = Some ops ∧ replays ops a b = true.
Proof. destruct (EditScript_best a b) as (ops & E & Hr & _). by exists ops. Qed.

(** While the texts are no more than [MaxEditDistance] changes apart, the script
    changes exactly as many lines as the reference distance: Myers' search finds
    a shortest script, the common ends trimmed or not. *)
Theorem EditScript_shortest (a b : list string) :
  Z.of_nat (distance a b) <= MaxEditDistance →
  option_map edits (EditScript a b) = Some (distance a b).
Proof.
  intros H. destruct (EditScript_best a b) as (ops & -> & _ & He). simpl. by rewrite He.
Qed.

(** The hunks are the changed runs in order, with an equal line between any two;
    there are none exactly when the lists are equal. Accepting one hunk, or
    undoing it, gives the text in which exactly the other hunks remain. *)
Theorem Hunks_spec (a b : list string) :
  ∃ hs, Hunks a b = Some hs ∧ aligned 0 0 hs a b ∧ (hs = [] ↔ a = b) ∧
    ∀ hs1 h hs2, hs = (hs1 ++ h :: hs2)%list →
      (∃ a', TakeNew a b h = Some (Join a' "") ∧
         aligned 0 0 (hs1 ++ map (shift_old (NewCount h - OldCount h)) hs2) a' b) ∧
      (∃ b', TakeOld a b h = Some (Join b' "") ∧
         aligned 0 0 (hs1 ++ map (shift_new (OldCount h - NewCount h)) hs2) a b').
Proof.
  destruct (EditScript_best a b) as (ops & E & Hr & He). unfold Hunks. rewrite E. cbn [mbind option_bind].
  destruct (hunks_from_ok (length ops) ops 0 0 [] a b) as (hs & Eh & Ha & _); [done..|].
  rewrite Eh. exists hs. do 2 (split; [done|]). split.
  - split; [intros ->; by inversion Ha|]. intros ->.
    rewrite hunks_from_kept in Eh; [by injection Eh as <- | done |].
    rewrite He; rewrite distance_self; done.
  - intros hs1 h hs2 ->.
    destruct (aligned_middle _ _ _ _ _ _ _ Ha) as (a1 & old & a2 & b1 & new & b2 & -> & -> & -> & H1 & H2).
    split; eexists; (split; [|done]); unfold TakeNew, TakeOld;
      cbn [OldStart OldCount NewStart NewCount]; rewrite !Z.add_0_l.
    + by rewrite slice_start, slice_middle, slice_past, !Join_app by done.
    + by rewrite slice_start, slice_middle, slice_past, !Join_app by done.
Qed.

(** ** The theorems on concrete texts *)

Definition before : list string := SplitLines "one
two
three
four
five".
Definition after : list string := SplitLines "one
2
three
3.5
four
five
".

Lemma EditScript_shortest_witness :
  distance before after = 5%nat ∧ option_map edits (EditScript before after) = Some (distance before after).
Proof. split; [reflexivity|]. apply (EditScript_shortest before after). vm_compute. discriminate. Defined.

Example Hunks_before_after :
  Hunks before after = Some [MkHunk 1 1 1 1; MkHunk 3 0 3 1; MkHunk 4 1 5 1] ∧
  TakeNew before after (MkHunk 1 1 1 1) = Some "one
2
three
four
five"%string.
Proof. split; reflexivity. Qed.
