(* ===== verification/Chain.v ===== *)
(** Hash-chained records (src/store/chain/chain.go and export.go): links, the
    walker that checks them as they are read, and the check of an exported file
    on its own.

    SHA-256 is a parameter. A line of an export is what [json.Unmarshal] makes
    of it, and the file's scanner gives the lines and its error. *)

From Stdlib Require Import ZArith Ascii String Lia.
From stdpp Require Import base tactics list option gmap strings sorting.
From S2P Require Import Prelude.
From S2P Require Import GoStd.
From S2P Require Import Errors.

#[local] Open Scope string_scope.
#[local] Open Scope Z_scope.

Definition Genesis : string := of_bytes (replicate 64 "0"%char).

(** Where one chain stands. *)
Record Head : Type := MkHead {
  hd_Chain : string; hd_Tenant : string; hd_Scope : string;
  hd_Pos : Z; hd_Hash : string
}.

(** What a check of positions [rg_From] to [rg_To] found. *)
Record Range : Type := MkRange {
  rg_From : Z; rg_To : Z;
  rg_Before : string; rg_Hash : string;
  rg_FirstBad : Z; rg_Reason : string
}.

Definition range_OK (r : Range) : bool := (rg_FirstBad r =? 0) && String.eqb (rg_Reason r) "".

Record Link : Type := MkLink {
  lk_Pos : Z; lk_Prev : string; lk_Hash : string; lk_Row : string
}.

#[export] Instance Link_eq_dec : EqDecision Link.
Proof. solve_decision. Defined.

(** [w.seen] is kept as the calls made to it, the last one first. *)
Record Walker : Type := MkWalker {
  wk_r : Range; wk_want : Z; wk_prev : string;
  wk_seen : list (Z * string)
}.

Definition NewWalker (from : Z) (before : string) : Walker :=
  let from := if from <? 1 then 1 else from in
  MkWalker (MkRange from 0 before before 0 "") from before [].

Definition set_bad (pos : Z) (why : string) (r : Range) : Range :=
  MkRange (rg_From r) (rg_To r) (rg_Before r) (rg_Hash r) pos why.
Definition set_to (to : Z) (r : Range) : Range :=
  MkRange (rg_From r) to (rg_Before r) (rg_Hash r) (rg_FirstBad r) (rg_Reason r).

Definition walker_fail (pos : Z) (why : string) (w : Walker) : Walker :=
  MkWalker (set_bad pos why (wk_r w)) (wk_want w) (wk_prev w) (wk_seen w).

Definition missing_text (want found : Z) : string :=
  "position " ++ Itoa want ++ " is missing or out of order (found " ++ Itoa found ++ ")".
Definition unlinked_text (pos : Z) : string :=
  "position " ++ Itoa pos ++
  " does not link to the one before it: a link was removed, added or reordered".
Definition changed_text (pos : Z) : string :=
  "position " ++ Itoa pos ++ " does not match its hash: it was changed".
Definition cut_text (last to : Z) : string :=
  "the chain ends at position " ++ Itoa last ++ ", before " ++ Itoa to ++ ": links were cut from its end".

Section hashed.
Context (sha256 : string → list ascii).

(** What a link's hash covers, and the hash. *)
Definition covered (prev row : string) : string := prev ++ String newline row.
Definition LinkHash (prev row : string) : string := hex_encode (sha256 (covered prev row)).

Definition Next (w : Walker) (l : Link) : bool * Walker :=
  if negb (range_OK (wk_r w)) then (false, w)
  else if negb (lk_Pos l =? wk_want w) then
    (false, walker_fail (wk_want w) (missing_text (wk_want w) (lk_Pos l)) w)
  else if negb (String.eqb (lk_Prev l) (wk_prev w)) then
    (false, walker_fail (lk_Pos l) (unlinked_text (lk_Pos l)) w)
  else if negb (String.eqb (LinkHash (lk_Prev l) (lk_Row l)) (lk_Hash l)) then
    (false, walker_fail (lk_Pos l) (changed_text (lk_Pos l)) w)
  else
    let r := wk_r w in
    (true, MkWalker (MkRange (rg_From r) (lk_Pos l) (rg_Before r) (lk_Hash l) (rg_FirstBad r) (rg_Reason r))
       (wrap64 (wk_want w + 1)) (lk_Hash l) ((lk_Pos l, lk_Hash l) :: wk_seen w)).

Definition Done (w : Walker) (to : Z) : Range :=
  let r := wk_r w in
  let r :=
    if range_OK r && (0 <? to) && (wk_want w <=? to)
    then set_bad (wk_want w) (cut_text (wrap64 (wk_want w - 1)) to) r else r in
  let r := if rg_To r =? 0 then set_to (wrap64 (wk_want w - 1)) r else r in
  if 0 <? to then set_to to r else r.

(** ** Exports *)

Definition ExportVersion : Z := 1.

(** [eh_ExportedAt] is the time as it is written. *)
Record Header : Type := MkHeader {
  eh_V : Z; eh_Chain : string; eh_Tenant : string; eh_Scope : string;
  eh_From : Z; eh_Before : string; eh_PreChain : Z; eh_ExportedAt : string
}.

(** A value written as one line. *)
Inductive export_value : Type :=
  | header_line (h : Header)
  | link_line (l : Link)
  | trailer_line (h : Head).

(** The lines written so far, and the first error; [write] is the outcome of
    marshalling a value and writing its bytes. *)
Record Writer : Type := MkWriter { wr_out : list export_value; wr_err : option error }.

Definition write_line (write : export_value → option error) (e : Writer) (v : export_value) : Writer :=
  match wr_err e with
  | Some _ => e
  | None =>
      match write v with
      | Some err => MkWriter (wr_out e) (Some err)
      | None => MkWriter (wr_out e ++ [v]) None
      end
  end.

Definition NewWriter (write : export_value → option error) (h : Header) : Writer :=
  write_line write (MkWriter [] None)
    (header_line (MkHeader ExportVersion (eh_Chain h) (eh_Tenant h) (eh_Scope h) (eh_From h)
       (if String.eqb (eh_Before h) "" then Genesis else eh_Before h) (eh_PreChain h) (eh_ExportedAt h))).

Definition WriteLink (write : export_value → option error) (e : Writer) (l : Link) : Writer :=
  write_line write e (link_line l).

(** [flush] is [bufio.Writer.Flush]. *)
Definition CloseWriter (write : export_value → option error) (flush : option error)
    (e : Writer) (head : Head) : Writer :=
  let e := write_line write e (trailer_line head) in
  match wr_err e with Some _ => e | None => MkWriter (wr_out e) flush end.

(** One line as [VerifyExport] decodes it: the probe for a trailer (its [head]
    and [pos], when present), and the line as a link. *)
Record export_line : Type := MkExportLine {
  xl_probe : result (option Head * option Z);
  xl_link : result Link
}.

Record ExportReport : Type := MkReport {
  xr_Header : Header; xr_Range : Range; xr_Links : Z;
  xr_Head : option Head; xr_Notes : list string
}.

Definition unreadable_text (line : Z) (e : error) : string :=
  "line " ++ Itoa line ++ " cannot be read: " ++ e_text e.
Definition follows_text (line : Z) : string :=
  "line " ++ Itoa line ++ " follows the trailer: lines were added".

(** The loop over the lines after the header. *)
Fixpoint export_lines (lines : list export_line) (line : Z) (w : Walker)
    (head : option Head) (links : Z) : Walker * option Head * Z :=
  match lines with
  | [] => (w, head, links)
  | x :: lines =>
      let line := wrap64 (line + 1) in
      match head with
      | Some h => (walker_fail (wrap64 (hd_Pos h + 1)) (follows_text line) w, head, links)
      | None =>
          match xl_probe x with
          | Fail e => (walker_fail (wk_want w) (unreadable_text line e) w, head, links)
          | Ok (Some h, None) => export_lines lines line w (Some h) links
          | Ok _ =>
              match xl_link x with
              | Fail e => (walker_fail (wk_want w) (unreadable_text line e) w, head, links)
              | Ok l => export_lines lines line (snd (Next w l)) head (wrap64 (links + 1))
              end
          end
      end
  end.

Definition held_map (seen : list (Z * string)) : gmap Z string :=
  foldr (λ x m, <[x.1 := x.2]> m) ∅ seen.

Definition sorted_positions (heads : gmap Z string) : list Z :=
  merge_sort Z.le (map_to_list heads).*1.

(** The loop over the heads kept elsewhere. *)
Fixpoint check_heads (heads held : gmap Z string) (ps : list Z) (r : Range) : Range :=
  match ps with
  | [] => r
  | pos :: ps =>
      if negb (range_OK r) then r
      else
        let want := default "" (heads !! pos) in
        check_heads heads held ps
          match held !! pos with
          | None =>
              set_bad pos ("a head kept elsewhere is at position " ++ Itoa pos ++
                ", which the file does not hold: links were cut") r
          | Some got =>
              if String.eqb got want then r
              else set_bad pos ("position " ++ Itoa pos ++
                " is not the head kept elsewhere: the chain was rewritten") r
          end
  end.

(** The trailer against the range the links gave; [walked] is the last position
    that held. *)
Definition check_trailer (head : option Head) (walked : Z) (r : Range) : Range :=
  let r :=
    match head with
    | Some h =>
        if range_OK r && (0 <? hd_Pos h) && negb (String.eqb (hd_Hash h) (rg_Hash r))
        then set_bad (hd_Pos h) ("position " ++ Itoa (hd_Pos h) ++
               " is not the head the trailer holds: the file was rewritten") r
        else r
    | None => r
    end in
  let r :=
    match head with
    | Some h =>
        if range_OK r && (hd_Pos h <? walked)
        then set_bad (wrap64 (hd_Pos h + 1)) "the file holds links past the trailer's head" r
        else r
    | None => r
    end in
  match head with
  | None =>
      if range_OK r
      then set_bad (wrap64 (walked + 1)) "the file has no trailer: lines were cut from its end" r
      else r
  | Some _ => r
  end.

(** [first] is the first line as a header, [None] when there is no line; [rest]
    the other lines, and [scan_err] the scanner's error at the end of them. *)
Definition VerifyExport (first : option (result Header)) (rest : list export_line)
    (scan_err : option error) (heads : gmap Z string) : result (ExportReport * gmap Z string) :=
  match first with
  | None => Fail (default (plain "the file is empty") scan_err)
  | Some (Fail _) => Fail (plain "the file is not a chain export: its first line is no header")
  | Some (Ok h) =>
      if eh_V h =? 0 then Fail (plain "the file is not a chain export: its first line is no header")
      else if ExportVersion <? eh_V h then
        Fail (plain ("the export is version " ++ Itoa (eh_V h) ++ "; this build reads up to " ++ Itoa ExportVersion))
      else
        let '(w, head, links) := export_lines rest 1 (NewWalker (eh_From h) (eh_Before h)) None 0 in
        match scan_err with
        | Some e => Fail e
        | None =>
            let held := held_map (wk_seen w) in
            let walked := rg_To (wk_r w) in
            let to := match head with Some hd => hd_Pos hd | None => 0 end in
            let r := check_trailer head walked (Done w to) in
            let r := check_heads heads held (sorted_positions heads) r in
            let notes :=
              if 0 <? eh_PreChain h
              then [Itoa (eh_PreChain h) ++ " row(s) from before the chain are not covered"] else [] in
            Ok (MkReport h r links head notes, held)
        end
  end.

End hashed.

(** * The chained tables of a store

    The chained tables of the Postgres store (src/store/chain.go,
    src/store/audit_chain.go) and the witness's heads
    (src/store/witness/witness.go).

    The database is a parameter: what each query gives. A page of a walk is the
    rows it gives and, after them, the error that ended it, if one did. The
    signatures of the witness and the way a time is written are parameters. *)

#[local] Close Scope string_scope.
#[local] Close Scope Z_scope.
#[local] Open Scope string_scope.
#[local] Open Scope Z_scope.
#[local] Open Scope go_scope.

(** The queries on one table and key. *)
Record ChainDB : Type := MkChainDB {
  db_begin : option error;                              (* BeginTx and SET LOCAL timezone *)
  db_links : Z → Z → Z → list Link * option error;      (* from, to, limit *)
  db_hashAt : Z → result (option string);
  db_unchained : result (Z * Z * Z);                    (* unchained, pre-chain, chained *)
  db_head : result (Z * string)
}.

Record chainTable : Type := MkChainTable { ct_name : string; ct_key : string; ct_kind : string }.

Definition eventsChain : chainTable := MkChainTable "events" "session_id" "postgres/events".
Definition auditChain : chainTable := MkChainTable "sandbox_audit" "tenant_id" "postgres/sandbox_audit".

Definition chainPage : Z := 5000.

Record ChainReport : Type := MkChainReport {
  cr_Session : string; cr_Rows : Z; cr_Head : string;
  cr_FirstBad : Z; cr_Reason : string;
  cr_Unchained : Z; cr_PreChain : Z
}.

Definition report_OK (r : ChainReport) : bool := (cr_FirstBad r =? 0) && String.eqb (cr_Reason r) "".

Definition report_reason (why : string) (r : ChainReport) : ChainReport :=
  MkChainReport (cr_Session r) (cr_Rows r) (cr_Head r) (cr_FirstBad r) why (cr_Unchained r) (cr_PreChain r).

(** ** Walking a chain *)

Section walk.
Context {S : Type} (fn : S → Link → S * bool) (page : Z) (db : ChainDB).

(** The rows of one page: the state, the next position, how many were read and
    whether to go on. *)
Fixpoint walk_rows (rows : list Link) (s : S) (lo n : Z) : S * Z * Z * bool :=
  match rows with
  | [] => (s, lo, n, true)
  | l :: rows =>
      let '(s, more) := fn s l in
      let lo := wrap64 (lk_Pos l + 1) in
      if (more : bool) then walk_rows rows s lo (n + 1) else (s, lo, n + 1, false)
  end.

Fixpoint walk_pages (fuel : nat) (lo to : Z) (s : S) : option (S * option error) :=
  match fuel with
  | O => None
  | Datatypes.S fuel =>
      let '(rows, err) := db_links db lo to page in
      let '(s, lo, n, more) := walk_rows rows s lo 0 in
      match more, err with
      | true, Some e => Some (s, Some e)
      | _, _ =>
          if negb more || (n <? page) || (to <? lo) || (lo <=? 0) then Some (s, None)
          else walk_pages fuel lo to s
      end
  end.

Definition walk (fuel : nat) (from to : Z) (s : S) : option (S * option error) :=
  match db_begin db with
  | Some e => Some (s, Some e)
  | None => walk_pages fuel from (if to <=? 0 then int64_max else to) s
  end.

End walk.

Section store.
Context (sha256 : string → list ascii) (page : Z).

(** [w.Next] as the walk's callback. *)
Definition next_link (w : Walker) (l : Link) : Walker * bool :=
  let '(ok, w) := Next sha256 w l in (w, ok).

Definition missing_before (pos : Z) : string :=
  "position " ++ Itoa pos ++ ", which the range links to, is missing".

(** What [verifyRange] starts from: the hash the range links to. *)
Definition range_before (db : ChainDB) (from : Z) : result (option string) :=
  if 1 <? from then db_hashAt db (from - 1) else Ok (Some Genesis).

Definition verifyRange (fuel : nat) (db : ChainDB) (from to : Z) : option (result Range) :=
  let from := if from <? 1 then 1 else from in
  match range_before db from with
  | Fail e => Some (Fail e)
  | Ok None => Some (Ok (MkRange from to "" "" (from - 1) (missing_before (from - 1))))
  | Ok (Some before) =>
      '(w, err) ← walk next_link page db fuel from to (NewWalker from before);
      Some match err with Some e => Fail e | None => Ok (Done w to) end
  end.

Definition second_row_text (n : Z) : string :=
  Itoa n ++ " row(s) claim a chain position another holds".
Definition trigger_off_text (n : Z) : string :=
  Itoa n ++ " row(s) carry no chain and were not there when it began: they were written with its trigger off".

Definition verifyChainOf (fuel : nat) (db : ChainDB) (key : string) : option (result ChainReport) :=
  rg ← verifyRange fuel db 1 0;
  Some
    (let? rg := rg in
     let rows := if range_OK rg then rg_To rg else wrap64 (rg_FirstBad rg - 1) in
     let? (unchained, pre, chained) := db_unchained db in
     let r := MkChainReport key rows (rg_Hash rg) (rg_FirstBad rg) (rg_Reason rg) unchained pre in
     let r := if report_OK r && negb (chained =? cr_Rows r)
              then report_reason (second_row_text (chained - cr_Rows r)) r else r in
     let r := if report_OK r && (pre <? unchained)
              then report_reason (trigger_off_text (unchained - pre)) r else r in
     Ok r).

Definition VerifyChain (fuel : nat) (db : ChainDB) (sessionID : string) : option (result ChainReport) :=
  r ← verifyChainOf fuel db sessionID;
  Some match r with
       | Ok r => Ok r
       | Fail e => Fail (err_prefix ("verify the chain of " ++ sessionID ++ ": ") e)
       end.

Definition VerifyAuditChain (fuel : nat) (db : ChainDB) (tenant : string) : option (result ChainReport) :=
  r ← verifyChainOf fuel db tenant;
  Some match r with
       | Ok r => Ok (MkChainReport "sandbox_audit" (cr_Rows r) (cr_Head r) (cr_FirstBad r) (cr_Reason r)
                       (cr_Unchained r) (cr_PreChain r))
       | Fail e => Fail (err_prefix "verify the audit chain: " e)
       end.

Definition ChainHashAt (db : ChainDB) (sessionID : string) (pos : Z) : result (option string) :=
  match db_hashAt db pos with
  | Fail e => Fail (err_prefix ("read the chain of " ++ sessionID ++ ": ") e)
  | Ok h => Ok h
  end.

(** ** The chain as a source *)

(** [pgChain.scoped]. *)
Definition source_scoped (t : chainTable) (tenant scope : string) : option error :=
  fail_if (String.eqb (ct_key t) "tenant_id" && negb (String.eqb scope tenant))
    (plain ("the " ++ ct_name t ++ " chain of tenant " ++ Quote scope ++
            " is not this store's (" ++ Quote tenant ++ ")")).

Definition source_Head (t : chainTable) (tenant : string) (db : ChainDB) (scope : string) : result Head :=
  let? _ := guard_ok (source_scoped t tenant scope) in
  let? (pos, h) := db_head db in
  Ok (MkHead (ct_kind t) tenant scope pos h).

Definition source_VerifyRange (fuel : nat) (t : chainTable) (tenant : string) (db : ChainDB)
    (scope : string) (from to : Z) : option (result Range) :=
  match source_scoped t tenant scope with
  | Some e => Some (Fail e)
  | None => verifyRange fuel db from to
  end.

Definition source_Links {S} (fuel : nat) (t : chainTable) (tenant : string) (db : ChainDB)
    (scope : string) (from to : Z) (fn : S → Link → S * bool) (s : S) : option (S * option error) :=
  match source_scoped t tenant scope with
  | Some e => Some (s, Some e)
  | None => walk fn page db fuel (if from <? 1 then 1 else from) to s
  end.

(** The export's callback: write a link, and stop at the first error. *)
Definition export_link (write : export_value → option error) (ew : Writer) (l : Link) : Writer * bool :=
  let ew := WriteLink write ew l in (ew, negb (opt_some (wr_err ew))).

(** [ExportChain]: what it returns, and the writer it leaves. *)
Definition ExportChain (fuel : nat) (db : ChainDB) (tenant sessionID now : string)
    (write : export_value → option error) (flush : option error) (unverified : bool)
    : option (result ChainReport * option Writer) :=
  r ← VerifyChain fuel db sessionID;
  match r with
  | Fail e => Some (Fail e, None)
  | Ok r =>
      if negb (report_OK r) && negb unverified then
        Some (Fail (plain ("the chain of " ++ sessionID ++ " does not verify: " ++ cr_Reason r)), None)
      else
        match db_head db with
        | Fail e => Some (Fail e, None)
        | Ok (pos, h) =>
            let ew := NewWriter write (MkHeader 0 (ct_kind eventsChain) tenant sessionID 1 ""
                                         (cr_Unchained r) now) in
            '(ew, err) ← walk (export_link write) page db fuel 1 pos ew;
            match err, wr_err ew with
            | Some e, _ | None, Some e => Some (Fail e, Some ew)
            | None, None =>
                let ew := CloseWriter write flush ew (MkHead (ct_kind eventsChain) tenant sessionID pos h) in
                Some (match wr_err ew with Some e => Fail e | None => Ok r end, Some ew)
            end
        end
  end.

End store.

(** ** The witness *)

(** A statement; [st_At] is its time as RFC 3339 writes it. *)
Record Statement : Type := MkStatement {
  st_V : Z; st_Store : string; st_Host : string; st_Tenant : string; st_Session : string;
  st_Lines : Z; st_Seq : Z; st_Hash : string; st_At : string; st_Key : string; st_Sig : string
}.

Record Problem : Type := MkProblem { pb_Statement : Statement; pb_Reason : string; pb_Removed : bool }.

Section witness.
(** [Statement.Verify], and the installation's public key in base64 ([None]
    when its length is not a key's). *)
Context (st_Verify : Statement → option error).

Definition unsigned_text (s : Statement) : string :=
  "a head of " ++ st_Session s ++ " sent " ++ st_At s ++
  " is not signed by this installation's key: it was not sent by this installation".
Definition gone_text (s : Statement) : string :=
  "the witness holds line " ++ Itoa (st_Lines s) ++ " of " ++ st_Session s ++ ", sent " ++ st_At s ++
  ", and the record no longer has it: lines were cut or an older copy was put back".
Definition rewritten_text (s : Statement) : string :=
  "line " ++ Itoa (st_Lines s) ++ " of " ++ st_Session s ++ " is not the one the witness was given " ++
  st_At s ++ ": the record was rewritten".

Fixpoint check_statements (want store tenant : string)
    (hashAt : string → Z → result (option string))
    (removed : option (string → Z → string → result (string * bool)))
    (stmts : list Statement) (out : list Problem) : list Problem * option error :=
  match stmts with
  | [] => (out, None)
  | s :: stmts =>
      let go := check_statements want store tenant hashAt removed stmts in
      if negb (String.eqb (st_Store s) store) || negb (String.eqb (st_Tenant s) tenant) then go out
      else if negb (String.eqb (st_Key s) want) || opt_some (st_Verify s) then
        go (out ++ [MkProblem s (unsigned_text s) false])%list
      else
        match hashAt (st_Session s) (st_Lines s) with
        | Fail e => (out, Some e)
        | Ok None =>
            match removed with
            | None => go (out ++ [MkProblem s (gone_text s) false])%list
            | Some removed =>
                match removed (st_Session s) (st_Lines s) (st_Hash s) with
                | Fail e => (out, Some e)
                | Ok (why, gone) =>
                    if negb (String.eqb why "") then go (out ++ [MkProblem s why gone])%list
                    else go (out ++ [MkProblem s (gone_text s) false])%list
                end
            end
        | Ok (Some h) =>
            if String.eqb h (st_Hash s) then go out
            else go (out ++ [MkProblem s (rewritten_text s) false])%list
        end
  end.

Definition CheckWitness (stmts : list Statement) (key : option string) (store tenant : string)
    (hashAt : string → Z → result (option string))
    (removed : option (string → Z → string → result (string * bool))) : list Problem * option error :=
  match key with
  | None => ([], Some (plain "witness: no installation key to check the statements against"))
  | Some want => check_statements want store tenant hashAt removed stmts []
  end.

(** [Read]: each line as a statement, if it is one; the scanner's error last. *)
Fixpoint read_statements (n : Z) (lines : list (result Statement)) (out : list Statement)
    (bad : list error) : list Statement * list error :=
  match lines with
  | [] => (out, bad)
  | x :: lines =>
      match x with
      | Fail e => read_statements (n + 1) lines out
                    (bad ++ [err_prefix ("line " ++ Itoa n ++ ": not a statement: ") e])%list
      | Ok s =>
          match st_Verify s with
          | Some e => read_statements (n + 1) lines out
                        (bad ++ [err_prefix ("line " ++ Itoa n ++ ": ") e])%list
          | None => read_statements (n + 1) lines (out ++ [s])%list bad
          end
      end
  end.

Definition ReadStatements (lines : list (result Statement)) (scan_err : option error)
    : list Statement * list error :=
  let '(out, bad) := read_statements 1 lines [] [] in
  (out, match scan_err with Some e => (bad ++ [e])%list | None => bad end).

End witness.

(** Counts the problems no recorded removal accounts for. *)
Definition Failed (problems : list Problem) : Z :=
  Z.of_nat (length (List.filter (λ p, negb (pb_Removed p)) problems)).
