(* ===== verification/ChainSpec.v ===== *)
(** What the hash chain promises: the walker's verdict is exactly whether the
    links hold, a head kept elsewhere binds every link before it (or whoever
    changed one found two texts with one SHA-256), an export of a chain that
    holds verifies, and the store's check accounts for every row. *)

From Stdlib Require Import ZArith Ascii String Lia Bool.
From stdpp Require Import base tactics list option gmap strings sorting.
From S2P Require Import Prelude.
From S2P Require Import GoStd.
From S2P Require Import Errors.
From S2P Require Import Chain.

#[local] Open Scope Z_scope.

(** ** Text and hashes *)

Definition no_newline (s : string) : bool := str_forall (λ c, negb (c =c newline)) s.

Lemma hex_encode_no_newline l : no_newline (hex_encode l) = true.
Proof.
  unfold no_newline. induction l as [|c l IH]; [done|]. simpl. rewrite IH, andb_true_r.
  assert (∀ n, (n < 16)%N → negb (hex_digit n =c newline) = true) as H.
  { intros n Hn. apply negb_true_iff, Ascii.eqb_neq. unfold hex_digit. intros E.
    destruct (n <? 10)%N; apply (f_equal N_of_ascii) in E; rewrite N_ascii_embedding in E by lia;
      change (N_of_ascii newline) with 10%N in E; lia. }
  assert (bv c < 256)%N as Hc by (unfold bv; apply N_ascii_bounded).
  rewrite (H (bv c / 16)%N), (H (bv c mod 16)%N); [done | |].
  - apply N.mod_lt. lia.
  - apply N.Div0.div_lt_upper_bound. lia.
Qed.

(** The hashed text tells the hash before it from the row. *)
Lemma covered_inj p r p' r' : no_newline p = true → no_newline p' = true →
  covered p r = covered p' r' → p = p' ∧ r = r'.
Proof.
  unfold covered, no_newline. revert p'.
  induction p as [|c p IH]; intros [|c' p']; simpl; rewrite ?str_app_cons.
  - intros _ _ H. split; [done|]. by injection H.
  - intros _ [Hc _]%andb_true_iff H. exfalso. injection H as H _. rewrite <- H in Hc. done.
  - intros [Hc _]%andb_true_iff _ H. exfalso. injection H as H _. rewrite H in Hc. done.
  - intros [_ Hp]%andb_true_iff [_ Hp']%andb_true_iff H. injection H as -> H.
    destruct (IH p' Hp Hp' H) as [-> ->]. done.
Qed.

Lemma Genesis_no_newline : no_newline Genesis = true.
Proof. reflexivity. Qed.

Section hashed.
Context (sha256 : string → list ascii).

(** ** Links that hold *)

Definition good (want : Z) (prev : string) (l : Link) : bool :=
  (lk_Pos l =? want) && String.eqb (lk_Prev l) prev &&
  String.eqb (LinkHash sha256 (lk_Prev l) (lk_Row l)) (lk_Hash l).

(** [l] is a chain from position [want] on, whose first link names [prev]. *)
Fixpoint intact (want : Z) (prev : string) (l : list Link) : bool :=
  match l with
  | [] => true
  | k :: l => good want prev k && intact (want + 1) (lk_Hash k) l
  end.

(** The hash a chain ends with. *)
Definition last_hash (prev : string) (l : list Link) : string :=
  match last l with Some k => lk_Hash k | None => prev end.

Lemma last_hash_cons prev k l : last_hash prev (k :: l) = last_hash (lk_Hash k) l.
Proof. unfold last_hash. rewrite last_cons. by destruct (last l). Qed.

Lemma last_hash_snoc prev l k : last_hash prev (l ++ [k]) = lk_Hash k.
Proof. unfold last_hash. by rewrite last_snoc. Qed.

Lemma intact_app want prev l1 l2 :
  intact want prev (l1 ++ l2) =
    intact want prev l1 && intact (want + Z.of_nat (length l1)) (last_hash prev l1) l2.
Proof.
  revert want prev. induction l1 as [|k l1 IH]; intros want prev; simpl app.
  { simpl. by rewrite Z.add_0_r. }
  cbn [intact length]. rewrite last_hash_cons, IH, andb_assoc.
  by replace (want + 1 + Z.of_nat (length l1)) with (want + Z.of_nat (Datatypes.S (length l1))) by lia.
Qed.

Lemma good_inv want prev k : good want prev k = true →
  lk_Pos k = want ∧ lk_Prev k = prev ∧ lk_Hash k = LinkHash sha256 (lk_Prev k) (lk_Row k).
Proof.
  unfold good. rewrite !andb_true_iff. intros [[H1%Z.eqb_eq H2%String.eqb_eq] H3%String.eqb_eq]. auto.
Qed.

Lemma intact_lookup want prev l i k : intact want prev l = true → l !! i = Some k →
  lk_Pos k = want + Z.of_nat i.
Proof.
  revert want prev i. induction l as [|k' l IH]; intros want prev [|i] H Hk; simpl in *; try discriminate.
  - injection Hk as ->. apply andb_true_iff in H as [H _]. apply good_inv in H as (-> & _). lia.
  - apply andb_true_iff in H as [_ H]. rewrite (IH _ _ _ H Hk). lia.
Qed.

Lemma last_hash_no_newline want prev l : no_newline prev = true → intact want prev l = true →
  no_newline (last_hash prev l) = true.
Proof.
  intros Hp. destruct l as [|k l _] using rev_ind; [done|].
  rewrite intact_app, last_hash_snoc. intros [_ H]%andb_true_iff. simpl in H.
  apply andb_true_iff in H as [H _]. apply good_inv in H as (_ & _ & ->). apply hex_encode_no_newline.
Qed.

(** Two links at one place whose hashes agree though what they cover does not. *)
Definition collision (l l' : list Link) : Prop :=
  ∃ i k k', l !! i = Some k ∧ l' !! i = Some k' ∧
    covered (lk_Prev k) (lk_Row k) ≠ covered (lk_Prev k') (lk_Row k') ∧
    LinkHash sha256 (lk_Prev k) (lk_Row k) = LinkHash sha256 (lk_Prev k') (lk_Row k').

(** The last hash binds the whole chain. *)
Lemma head_binds want prev prev' l l' :
  no_newline prev = true → no_newline prev' = true →
  intact want prev l = true → intact want prev' l' = true →
  length l = length l' → last_hash prev l = last_hash prev' l' →
  (l = l' ∧ prev = prev') ∨ collision l l'.
Proof.
  intros Hp Hp'. revert l'. induction l as [|k l IH] using rev_ind; intros l' Hi Hi' Hlen Hlast.
  { destruct l'; [|done]. left. done. }
  destruct l' as [|k' l' _] using rev_ind; [rewrite length_app in Hlen; simpl in Hlen; lia|].
  rewrite !length_app in Hlen. rewrite !last_hash_snoc in Hlast.
  rewrite intact_app in Hi, Hi'. apply andb_true_iff in Hi as [Hi Hk], Hi' as [Hi' Hk'].
  simpl in Hk, Hk'. rewrite andb_true_r in Hk, Hk'.
  apply good_inv in Hk as (Pk & Vk & Hk), Hk' as (Pk' & Vk' & Hk').
  assert (length l = length l') as Hll by (simpl in Hlen; lia).
  assert (l !! length l = None ∧ l' !! length l = None) as [Hn Hn'].
  { split; apply lookup_ge_None_2; lia. }
  destruct (decide (covered (lk_Prev k) (lk_Row k) = covered (lk_Prev k') (lk_Row k'))) as [Hc|Hc].
  - apply covered_inj in Hc as [Hprev Hrow].
    2, 3: rewrite ?Vk, ?Vk'; eapply last_hash_no_newline; eassumption.
    destruct (IH l' Hi Hi' Hll) as [[-> ->] | Hcol]; [congruence | |].
    + left. split; [|done]. do 2 f_equal. destruct k, k'; simpl in *. congruence.
    + right. destruct Hcol as (i & x & x' & Hx & Hx' & H). exists i, x, x'.
      rewrite (lookup_app_l_Some _ _ _ _ Hx), (lookup_app_l_Some _ _ _ _ Hx'). auto.
  - right. exists (length l), k, k'. rewrite !lookup_app_r by lia. rewrite <- Hll, Nat.sub_diag.
    split; [done|]. split; [done|]. split; [done|]. congruence.
Qed.

(** ** The walker *)

Definition walk_all (w : Walker) (l : list Link) : Walker :=
  fold_left (λ w l, snd (Next sha256 w l)) l w.

(** The walker once links [p] from position [from] on have held. *)
Definition stood (from : Z) (before : string) (p : list Link) : Walker :=
  MkWalker
    (MkRange from (if decide (p = []) then 0 else from + Z.of_nat (length p) - 1)
       before (last_hash before p) 0 "")
    (from + Z.of_nat (length p)) (last_hash before p)
    (reverse (map (λ k, (lk_Pos k, lk_Hash k)) p)).

Lemma NewWalker_stood from before : 1 <= from → NewWalker from before = stood from before [].
Proof.
  intros Hf. unfold NewWalker, stood. rewrite (proj2 (Z.ltb_ge from 1)) by lia. simpl.
  by rewrite Z.add_0_r.
Qed.

Lemma set_bad_not_OK pos why r : why ≠ ""%string → range_OK (set_bad pos why r) = false.
Proof.
  intros H. unfold range_OK. simpl. apply andb_false_iff. right. by apply String.eqb_neq.
Qed.

Lemma Next_stood from before p k : 1 <= from → from + Z.of_nat (length p) < int64_max →
  if good (from + Z.of_nat (length p)) (last_hash before p) k
  then Next sha256 (stood from before p) k = (true, stood from before (p ++ [k]))
  else ∃ pos why, why ≠ ""%string ∧ rg_FirstBad (wk_r (walker_fail pos why (stood from before p))) = pos ∧
         pos = from + Z.of_nat (length p) ∧
         Next sha256 (stood from before p) k = (false, walker_fail pos why (stood from before p)).
Proof.
  intros Hf Hmax. unfold Next, good. simpl.
  destruct (Z.eqb_spec (lk_Pos k) (from + Z.of_nat (length p))) as [Ep|Ep]; cbn [negb andb].
  2: { eexists _, _. split; [|split; [|split; [|done]]]; done. }
  destruct (String.eqb_spec (lk_Prev k) (last_hash before p)) as [Ev|Ev]; cbn [negb andb].
  2: { eexists _, _. split; [|split; [|split; [|done]]]; done. }
  destruct (String.eqb_spec (LinkHash sha256 (lk_Prev k) (lk_Row k)) (lk_Hash k)) as [Eh|Eh]; cbn [negb].
  2: { eexists _, _. split; [|split; [|split; [|done]]]; done. }
  f_equal. unfold stood. rewrite last_hash_snoc, length_app, map_app, reverse_app. simpl.
  rewrite decide_False by (destruct p; done). rewrite Ep.
  assert (wrap64 (from + Z.of_nat (length p) + 1) = from + Z.of_nat (length p + 1)) as ->.
  { rewrite wrap64_succ by lia. lia. }
  f_equal; f_equal; lia.
Qed.

Lemma walk_all_app w l1 l2 : walk_all w (l1 ++ l2) = walk_all (walk_all w l1) l2.
Proof. apply fold_left_app. Qed.

Lemma walk_stood from before p : 1 <= from → from + Z.of_nat (length p) <= int64_max →
  intact from before p = true → walk_all (stood from before []) p = stood from before p.
Proof.
  intros Hf. induction p as [|k p IH] using rev_ind; intros Hmax Hi; [done|].
  rewrite length_app in Hmax. simpl in Hmax.
  rewrite intact_app in Hi. apply andb_true_iff in Hi as [Hi Hk]. simpl in Hk. rewrite andb_true_r in Hk.
  rewrite walk_all_app, IH by (done || lia). simpl.
  pose proof (Next_stood from before p k Hf ltac:(lia)) as H. rewrite Hk in H. by rewrite H.
Qed.

Lemma walk_stuck w l : range_OK (wk_r w) = false → walk_all w l = w.
Proof.
  intros Hw. induction l as [|k l IH]; [done|]. simpl. unfold Next. by rewrite Hw.
Qed.

(** The longest part of a list of links that holds. *)
Lemma intact_split want prev l : ∃ p r, l = (p ++ r)%list ∧ intact want prev p = true ∧
  match r with [] => True | k :: _ => good (want + Z.of_nat (length p)) (last_hash prev p) k = false end.
Proof.
  revert want prev. induction l as [|k l IH]; intros want prev; [by exists [], []|].
  destruct (good want prev k) eqn:Hk.
  - destruct (IH (want + 1) (lk_Hash k)) as (p & r & -> & Hp & Hr).
    exists (k :: p), r. simpl. rewrite Hk, Hp. split; [done|]. split; [done|].
    rewrite last_hash_cons. destruct r as [|k' r]; [done|].
    by replace (want + Z.of_nat (Datatypes.S (length p))) with (want + 1 + Z.of_nat (length p)) by lia.
  - exists [], (k :: l). simpl. rewrite Z.add_0_r. done.
Qed.

(** What reading links leaves the walker with. *)
Lemma walk_all_cases from before l : 1 <= from → from + Z.of_nat (length l) <= int64_max →
  (intact from before l = true ∧ walk_all (NewWalker from before) l = stood from before l) ∨
  ∃ p k r why, l = (p ++ k :: r)%list ∧ intact from before p = true ∧
    good (from + Z.of_nat (length p)) (last_hash before p) k = false ∧ why ≠ ""%string ∧
    walk_all (NewWalker from before) l =
      walker_fail (from + Z.of_nat (length p)) why (stood from before p).
Proof.
  intros Hf Hmax. rewrite NewWalker_stood by done.
  destruct (intact_split from before l) as (p & [|k r] & -> & Hp & Hr).
  { left. rewrite app_nil_r in *. split; [done|]. by apply walk_stood. }
  right. rewrite length_app in Hmax. simpl in Hmax.
  pose proof (Next_stood from before p k Hf ltac:(lia)) as H. rewrite Hr in H.
  destruct H as (pos & why & Hw & _ & -> & H). exists p, k, r, why. do 4 (split; [done|]).
  rewrite walk_all_app, walk_stood by (done || lia). simpl. rewrite H. simpl.
  apply walk_stuck. simpl. by apply set_bad_not_OK.
Qed.

Lemma cut_text_nonempty a b : cut_text a b ≠ ""%string.
Proof. done. Qed.

Lemma Done_OK w to :
  range_OK (Done w to) = range_OK (wk_r w) && negb ((0 <? to) && (wk_want w <=? to)).
Proof.
  unfold Done. assert (∀ t r, range_OK (set_to t r) = range_OK r) as Hset by done.
  rewrite <- !andb_assoc. destruct (range_OK (wk_r w)) eqn:Hok; cbn [andb].
  - destruct ((0 <? to) && (wk_want w <=? to)) eqn:E; cbn [negb];
      destruct (_ =? 0), (0 <? to); rewrite ?Hset, ?set_bad_not_OK; done.
  - destruct (_ =? 0), (0 <? to); rewrite ?Hset; done.
Qed.

Lemma Done_Hash w to : rg_Hash (Done w to) = rg_Hash (wk_r w).
Proof. unfold Done. destruct (_ && _ && _), (rg_To _ =? 0), (0 <? to); done. Qed.

Lemma Done_FirstBad w to : range_OK (wk_r w) = false → rg_FirstBad (Done w to) = rg_FirstBad (wk_r w).
Proof. unfold Done. intros ->. cbn [andb]. destruct (_ =? 0), (0 <? to); done. Qed.

Lemma stood_OK from before p : range_OK (wk_r (stood from before p)) = true.
Proof. done. Qed.

(** The walker's verdict on links from position [from] to [to] (0 for the last)
    is exact: it is OK when every link names the one before it, carries its own
    hash and sits at the next position, and the links reach [to]; the range then
    ends at the last hash, and otherwise it names the first position that fails. *)
Theorem walker_verdict (from to : Z) (before : string) (l : list Link) :
  1 <= from → 0 <= to → from + Z.of_nat (length l) <= int64_max →
  let r := Done (walk_all (NewWalker from before) l) to in
  (range_OK r = true ↔
     intact from before l = true ∧ (0 < to → to < from + Z.of_nat (length l))) ∧
  (intact from before l = true → rg_Hash r = last_hash before l) ∧
  (intact from before l = false → ∃ p k rest, l = (p ++ k :: rest)%list ∧
     intact from before p = true ∧ intact from before (p ++ [k]) = false ∧
     rg_FirstBad r = from + Z.of_nat (length p) ∧ rg_Hash r = last_hash before p).
Proof.
  intros Hf Hto Hmax. cbv zeta. rewrite Done_OK, Done_Hash.
  destruct (walk_all_cases from before l Hf Hmax) as [(Hi & ->) | (p & k & r & why & -> & Hp & Hk & Hw & ->)].
  - rewrite Hi, stood_OK. cbn [andb stood wk_want wk_r rg_Hash]. split; [|done].
    rewrite negb_true_iff, andb_false_iff, Z.ltb_ge, Z.leb_gt. intuition lia.
  - assert (intact from before (p ++ k :: r) = false ∧ intact from before (p ++ [k]) = false) as [-> E].
    { rewrite !intact_app. simpl. by rewrite Hk, Hp. }
    assert (range_OK (wk_r (walker_fail (from + Z.of_nat (length p)) why (stood from before p))) = false) as Hbad
      by (by apply set_bad_not_OK).
    rewrite Done_FirstBad, Hbad by done. cbn [andb]. split; [intuition discriminate|].
    split; [discriminate|]. intros _. by exists p, k, r.
Qed.

(** ** Exports *)

(** The links of a file: its lines up to the trailer, or to one no link. *)
Fixpoint file_links (lines : list export_line) : list Link :=
  match lines with
  | [] => []
  | x :: lines =>
      match xl_probe x with
      | Fail _ | Ok (Some _, None) => []
      | Ok _ => match xl_link x with Ok l => l :: file_links lines | Fail _ => [] end
      end
  end.

Lemma file_links_length lines : (length (file_links lines) <= length lines)%nat.
Proof.
  induction lines as [|[[[[h|] [p|]]|e] [l|e']] lines IH]; simpl; lia.
Qed.

Lemma walker_fail_not_OK pos why w : why ≠ ""%string → range_OK (wk_r (walker_fail pos why w)) = false.
Proof. apply set_bad_not_OK. Qed.

Lemma export_lines_OK lines line w links w' head' n :
  export_lines sha256 lines line w None links = (w', head', n) → range_OK (wk_r w') = true →
  w' = walk_all w (file_links lines).
Proof.
  revert line w links. induction lines as [|x lines IH]; intros line w links H Hok; simpl in *.
  { by injection H as <- <- <-. }
  assert (∀ pos t e, range_OK (wk_r (walker_fail pos (unreadable_text t e) w)) = false) as Hun
    by (intros; by apply walker_fail_not_OK).
  destruct (xl_probe x) as [[[h|] [p|]]|e]; [| | | |].
  2: { destruct lines as [|y lines]; simpl in H; injection H as <- <- <-; [done|].
       exfalso. revert Hok. by rewrite walker_fail_not_OK. }
  1, 2, 3: destruct (xl_link x) as [l|e]; [by apply IH in H |];
    exfalso; injection H as <- <- <-; by rewrite Hun in Hok.
  exfalso. injection H as <- <- <-. by rewrite Hun in Hok.
Qed.

Lemma check_heads_OK heads held ps r : range_OK (check_heads heads held ps r) = true →
  range_OK r = true ∧ ∀ pos, pos ∈ ps → held !! pos = Some (default ""%string (heads !! pos)).
Proof.
  revert r. induction ps as [|pos ps IH]; intros r H; simpl in H.
  { split; [done|]. intros pos Hp. by apply elem_of_nil in Hp. }
  destruct (range_OK r) eqn:Hr; cbn [negb] in H; [|congruence].
  apply IH in H as [H Hps]. destruct (held !! pos) as [got|] eqn:Hg;
    [|by rewrite set_bad_not_OK in H].
  destruct (String.eqb_spec got (default "" (heads !! pos))) as [->|]; [|by rewrite set_bad_not_OK in H].
  split; [done|]. intros p [->|Hp]%elem_of_cons; auto.
Qed.

Lemma check_trailer_OK head walked r : range_OK (check_trailer head walked r) = true → range_OK r = true.
Proof.
  unfold check_trailer. destruct head as [h|].
  - destruct (range_OK r) eqn:E; [done|]. cbn [andb]. rewrite E. cbn [andb]. congruence.
  - destruct (range_OK r) eqn:E; [done|]. congruence.
Qed.

Lemma elem_of_sorted_positions heads pos : pos ∈ sorted_positions heads ↔ is_Some (heads !! pos).
Proof.
  unfold sorted_positions. rewrite merge_sort_Permutation, list_elem_of_fmap. split.
  - intros ([p h] & -> & H%elem_of_map_to_list). by exists h.
  - intros [h H]. exists (pos, h). by rewrite elem_of_map_to_list.
Qed.

Lemma held_map_elem seen pos h : held_map seen !! pos = Some h → (pos, h) ∈ seen.
Proof.
  induction seen as [|[p g] seen IH]; simpl; [by rewrite lookup_empty|].
  destruct (decide (p = pos)) as [->|Hne].
  - rewrite lookup_insert_eq. intros [= ->]. by left.
  - rewrite lookup_insert_ne by done. intros H. right. auto.
Qed.

(** What a file that verifies holds. *)
Lemma VerifyExport_OK hdr rest heads rep held : 1 <= eh_From hdr →
  eh_From hdr + Z.of_nat (length rest) <= int64_max →
  VerifyExport sha256 (Some (Ok hdr)) rest None heads = Ok (rep, held) →
  range_OK (xr_Range rep) = true →
  intact (eh_From hdr) (eh_Before hdr) (file_links rest) = true ∧
  ∀ pos h, heads !! pos = Some h → ∃ i k, file_links rest !! i = Some k ∧
    pos = eh_From hdr + Z.of_nat i ∧ lk_Hash k = h.
Proof.
  intros Hf Hlen. unfold VerifyExport.
  destruct (eh_V hdr =? 0); [done|]. destruct (ExportVersion <? eh_V hdr); [done|].
  destruct (export_lines _ _ _ _ _ _) as [[w head] links] eqn:E. intros [= <- <-] Hok. simpl in Hok.
  apply check_heads_OK in Hok as [Hok Hheads]. apply check_trailer_OK in Hok.
  rewrite Done_OK in Hok. apply andb_true_iff in Hok as [Hok _].
  pose proof (export_lines_OK _ _ _ _ _ _ _ E Hok) as Ew. subst w. clear E.
  pose proof (file_links_length rest) as Hle.
  destruct (walk_all_cases (eh_From hdr) (eh_Before hdr) (file_links rest)) as [(Hi & Hw) | (p & k & r & why & _ & _ & _ & Hne & Hw)];
    [lia | lia | | by rewrite Hw, walker_fail_not_OK in Hok].
  split; [done|]. intros pos h Hh. rewrite Hw in Hheads.
  specialize (Hheads pos (proj2 (elem_of_sorted_positions _ _) (mk_is_Some _ _ Hh))).
  rewrite Hh in Hheads. apply held_map_elem in Hheads. simpl in Hheads.
  rewrite elem_of_reverse, list_elem_of_fmap in Hheads. destruct Hheads as (k & [= -> ->] & Hk).
  apply list_elem_of_lookup in Hk as [i Hi']. exists i, k. split; [done|]. split; [|done].
  by rewrite (intact_lookup _ _ _ _ _ Hi Hi').
Qed.

(** C29: A file that verifies against a head kept elsewhere, the head of a chain [L]
    at the time, holds the links of [L] from the position it says it starts at on,
    every field of them, and links to the hash of the one before; or two links at one
    place of the two have a hash in common though their text differs: to change, drop,
    add or reorder a link from there on takes a SHA-256 collision. The position is 1 or
    more, and the hash it says it links to holds no newline. *)
Theorem export_binds (hdr : Header) (rest : list export_line) (heads held : gmap Z string)
    (rep : ExportReport) (L : list Link) :
  intact 1 Genesis L = true → L ≠ [] →
  heads !! Z.of_nat (length L) = Some (last_hash Genesis L) →
  1 <= eh_From hdr → no_newline (eh_Before hdr) = true →
  eh_From hdr + Z.of_nat (length rest) <= int64_max →
  VerifyExport sha256 (Some (Ok hdr)) rest None heads = Ok (rep, held) →
  range_OK (xr_Range rep) = true →
  let cut := Z.to_nat (eh_From hdr - 1) in
  let kept := take (length L - cut) (file_links rest) in
  (cut < length L)%nat ∧ (kept = drop cut L ∧ eh_Before hdr = last_hash Genesis (take cut L) ∨ collision (drop cut L) kept).
Proof.
  intros HL Hne Hhead Hfrom Hnl Hlen Hv Hok cut kept.
  destruct (VerifyExport_OK _ _ _ _ _ Hfrom Hlen Hv Hok) as [Hi Hheads].
  destruct (Hheads _ _ Hhead) as (i & k & Hk & Hpos & Hhash).
  assert (length L = (cut + Datatypes.S i)%nat ∧ eh_From hdr = 1 + Z.of_nat cut) as [Hll Hfc] by (unfold cut; lia).
  split; [lia|]. assert (kept = take i (file_links rest) ++ [k])%list as Htake.
  { unfold kept. rewrite Hll. replace (cut + Datatypes.S i - cut)%nat with (Datatypes.S i) by lia. by apply take_S_r. }
  assert (length kept = Datatypes.S i) as Hlt.
  { rewrite Htake, length_app, length_take_le; [simpl; lia|]. apply lookup_lt_Some in Hk. lia. }
  pose proof HL as HL'. rewrite <- (take_drop cut L), intact_app in HL'. apply andb_true_iff in HL' as [HLt HLd].
  rewrite length_take_le in HLd by lia. rewrite <- Hfc in HLd.
  assert (last_hash Genesis L = last_hash (last_hash Genesis (take cut L)) (drop cut L)) as Hlast.
  { rewrite <- (take_drop cut L) at 1. unfold last_hash at 1 2. rewrite last_app.
    destruct (last (drop cut L)) eqn:E; [done|]. apply last_None, (f_equal length) in E. rewrite length_drop in E. simpl in E. lia. }
  destruct (head_binds (eh_From hdr) (last_hash Genesis (take cut L)) (eh_Before hdr) (drop cut L) kept)
    as [[H1 H2] | Hcol]; try done.
  - by eapply last_hash_no_newline.
  - rewrite <- (take_drop (length L - cut) (file_links rest)), intact_app in Hi.
    by apply andb_true_iff in Hi as [Hi _].
  - rewrite length_drop. lia.
  - rewrite <- Hlast, Htake, last_hash_snoc. done.
  - left. by rewrite H1, H2.
  - by right.
Qed.

(** ** Walking a table *)

(** What the database's queries give, for a table whose chained rows are [L] in
    the queries' order. *)
Record serves (db : ChainDB) (L : list Link) (unchained pre : Z) : Prop := MkServes {
  sv_begin : db_begin db = None;
  sv_links : ∀ lo to limit, db_links db lo to limit =
    (take (Z.to_nat limit) (filter (λ k, lo <= lk_Pos k ∧ lk_Pos k <= to) L), None);
  sv_order : StronglySorted Z.le (map lk_Pos L);
  sv_int64 : ∀ k, k ∈ L → lk_Pos k < int64_max;
  sv_unchained : db_unchained db = Ok (unchained, pre, Z.of_nat (length L));
  sv_hashAt : ∀ pos, db_hashAt db pos = Ok (lk_Hash <$> find_first (λ k, lk_Pos k =? pos) L);
  sv_head : db_head db = Ok match last L with Some k => (lk_Pos k, lk_Hash k) | None => (0, ""%string) end
}.

(** A callback run over links until it says stop. *)
Fixpoint feed {S} (fn : S → Link → S * bool) (s : S) (l : list Link) : S * bool :=
  match l with
  | [] => (s, true)
  | k :: l => let '(s, more) := fn s k in if (more : bool) then feed fn s l else (s, false)
  end.

Lemma feed_app {S} (fn : S → Link → S * bool) s l1 l2 :
  feed fn s (l1 ++ l2) =
    let '(s, more) := feed fn s l1 in if (more : bool) then feed fn s l2 else (s, false).
Proof.
  revert s. induction l1 as [|k l1 IH]; intros s; [done|]. simpl.
  destruct (fn s k) as [s' []]; [apply IH | done].
Qed.

Lemma walk_rows_feed {S} (fn : S → Link → S * bool) rows s lo n :
  ∃ lo' n', walk_rows fn rows s lo n = ((feed fn s rows).1, lo', n', (feed fn s rows).2) ∧
    ((feed fn s rows).2 = true → n' = n + Z.of_nat (length rows) ∧
       lo' = match last rows with Some k => wrap64 (lk_Pos k + 1) | None => lo end).
Proof.
  revert s lo n. induction rows as [|k rows IH]; intros s lo n; simpl.
  { exists lo, n. split; [done|]. intros _. split; [lia | done]. }
  destruct (fn s k) as [s' []]; simpl.
  - destruct (IH s' (wrap64 (lk_Pos k + 1)) (n + 1)) as (lo' & n' & -> & H).
    exists lo', n'. split; [done|]. intros Hm. destruct (H Hm) as [-> ->]. split; [lia|].
    destruct rows as [|k2 rows]; [done|]. rewrite !last_cons. by destruct (last rows).
  - eexists _, _. split; [done | discriminate].
Qed.

Definition between (lo to : Z) (L : list Link) : list Link :=
  filter (λ k, lo <= lk_Pos k ∧ lk_Pos k <= to) L.

Lemma between_narrow lo lo' to L : lo <= lo' →
  between lo' to L = filter (λ k, lo' <= lk_Pos k) (between lo to L).
Proof.
  intros Hlo. unfold between. induction L as [|k L IH]; [done|]. rewrite !filter_cons.
  destruct (decide (lo <= lk_Pos k ∧ lk_Pos k <= to)) as [H1|H1],
    (decide (lo' <= lk_Pos k ∧ lk_Pos k <= to)) as [H2|H2]; try lia; rewrite ?filter_cons.
  - rewrite decide_True by lia. by f_equal.
  - rewrite decide_False by lia. done.
  - done.
Qed.

Lemma between_sublist lo to L : between lo to L `sublist_of` L.
Proof. apply sublist_filter. Qed.

Lemma filter_nothing (P : Link → Prop) `{∀ k, Decision (P k)} (l : list Link) : (∀ k, k ∈ l → ¬ P k) → filter P l = [].
Proof.
  induction l as [|k l IH]; intros Hl; [done|]. rewrite filter_cons_False by (apply Hl; by left).
  apply IH. intros k' Hk'. apply Hl. by right.
Qed.

Lemma filter_everything (P : Link → Prop) `{∀ k, Decision (P k)} (l : list Link) : (∀ k, k ∈ l → P k) → filter P l = l.
Proof.
  induction l as [|k l IH]; intros Hl; [done|]. rewrite filter_cons_True by (apply Hl; by left).
  f_equal. apply IH. intros k' Hk'. apply Hl. by right.
Qed.

Lemma sorted_sublist (R : Z → Z → Prop) (l1 l2 : list Link) : l1 `sublist_of` l2 →
  StronglySorted R (map lk_Pos l2) → StronglySorted R (map lk_Pos l1).
Proof.
  induction 1 as [|k l1 l2 Hs IH|k l1 l2 Hs IH]; simpl; [done | |]; inversion 1 as [|? ? Hl Hf]; subst.
  - constructor; [auto|]. rewrite Forall_map in *. rewrite Forall_forall in *.
    intros x Hx. apply Hf. by apply (elem_of_sublist l1 l2).
  - auto.
Qed.

Lemma sorted_app (R : Z → Z → Prop) (l1 l2 : list Link) k k' :
  StronglySorted R (map lk_Pos (l1 ++ l2)) → k ∈ l1 → k' ∈ l2 → R (lk_Pos k) (lk_Pos k').
Proof.
  induction l1 as [|x l1 IH]; intros H Hk Hk'; [by apply elem_of_nil in Hk|].
  simpl in H. inversion H as [|? ? Hl Hf]; subst.
  apply elem_of_cons in Hk as [->|Hk]; [|auto].
  rewrite Forall_map, Forall_forall in Hf. apply Hf. apply elem_of_app. by right.
Qed.

Section pages.
Context {S : Type} (fn : S → Link → S * bool) (page : Z) (db : ChainDB) (L : list Link) (to : Z).
Context (unchained pre : Z) (Hserves : serves db L unchained pre) (Hpage : 0 < page).

(** What is left past a full page. *)
Lemma between_next lo p rows k : 1 <= lo → between lo to L = (rows ++ p)%list → last rows = Some k →
  between (lk_Pos k + 1) to L `sublist_of` p ∧
  (StronglySorted Z.lt (map lk_Pos L) → between (lk_Pos k + 1) to L = p).
Proof.
  intros Hlo E Hk. apply last_Some in Hk as [rows' ->].
  assert (k ∈ between lo to L) as Hkin by (rewrite E; apply elem_of_app; left; apply elem_of_app; right; by left).
  pose proof (sorted_sublist Z.le _ _ (between_sublist lo to L) (sv_order _ _ _ _ Hserves)) as Hs.
  apply list_elem_of_filter in Hkin as [? _].
  rewrite (between_narrow lo) by lia. rewrite E in *. rewrite filter_app.
  rewrite (filter_nothing _ (rows' ++ [k])).
  2: { intros x Hx Hlt. apply elem_of_app in Hx as [Hx|Hx]; [|apply list_elem_of_singleton in Hx as ->; lia].
       rewrite <- app_assoc in Hs. pose proof (sorted_app _ _ _ x k Hs Hx ltac:(by left)). lia. }
  simpl. split; [apply sublist_filter|].
  intros Hlt. pose proof (sorted_sublist Z.lt _ _ (between_sublist lo to L) Hlt) as Hs'. rewrite E in Hs'.
  apply filter_everything. intros x Hx.
  pose proof (sorted_app _ _ _ k x Hs' ltac:(apply elem_of_app; right; by left) Hx). lia.
Qed.

Lemma walk_pages_feed fuel lo s : 1 <= lo → to <= int64_max → (length (between lo to L) < fuel)%nat →
  ∃ W, W `sublist_of` between lo to L ∧
    walk_pages fn page db fuel lo to s = Some ((feed fn s W).1, None) ∧
    (StronglySorted Z.lt (map lk_Pos L) → feed fn s W = feed fn s (between lo to L)).
Proof.
  intros Hlo Hto. revert lo s Hlo. induction fuel as [|fuel IH]; intros lo s Hlo Hf; [lia|].
  cbn [walk_pages]. rewrite (sv_links _ _ _ _ Hserves). fold (between lo to L).
  pose proof (take_drop (Z.to_nat page) (between lo to L)) as E.
  set (rows := take (Z.to_nat page) (between lo to L)) in *.
  set (rest := drop (Z.to_nat page) (between lo to L)) in *.
  assert (rows `sublist_of` between lo to L) as Hrows by apply sublist_take.
  destruct (walk_rows_feed fn rows s lo 0) as (lo' & n & -> & Hn).
  destruct (feed fn s rows) as [s1 more] eqn:Efeed. cbn [fst snd] in *. destruct more; cbn [negb orb].
  2: { exists rows. rewrite Efeed. split; [done|]. split; [done|]. intros _.
       by rewrite <- E, feed_app, Efeed. }
  destruct (Hn eq_refl) as [-> Elo]. clear Hn.
  destruct (Z.ltb_spec (0 + Z.of_nat (length rows)) page) as [Hshort|Hfull]; cbn [orb].
  { exists rows. rewrite Efeed. split; [done|]. split; [done|]. intros _.
    assert (rest = []) as Hrest by (apply drop_ge; unfold rows in Hshort; rewrite length_take in Hshort; lia).
    by rewrite <- E, Hrest, app_nil_r, Efeed. }
  destruct (last rows) as [k|] eqn:Hk; [|apply last_None in Hk; rewrite Hk in Hfull; simpl in Hfull; lia].
  assert (k ∈ between lo to L) as Hkin.
  { rewrite <- E. apply elem_of_app. left. apply last_Some in Hk as [r ->].
    apply elem_of_app. right. by left. }
  apply list_elem_of_filter in Hkin as [Hkr HkL]. pose proof (sv_int64 _ _ _ _ Hserves _ HkL) as Hk64.
  rewrite wrap64_succ in Elo by lia. subst lo'.
  destruct (between_next lo rest rows k Hlo (eq_sym E) Hk) as [Hsub Hstrict].
  rewrite (proj2 (Z.leb_gt (lk_Pos k + 1) 0)) by lia.
  destruct (Z.ltb_spec to (lk_Pos k + 1)) as [Hend|Hmore]; cbn [orb].
  - exists rows. rewrite Efeed. split; [done|]. split; [done|]. intros Hlt.
    rewrite <- E, feed_app, Efeed, <- (Hstrict Hlt).
    unfold between. rewrite filter_nothing; [done | intros x _; lia].
  - pose proof (sublist_length _ _ Hsub) as Hlen.
    assert (length rows + length rest = length (between lo to L))%nat by (by rewrite <- E, length_app).
    destruct (IH (lk_Pos k + 1) s1) as (W & HW & -> & HWs); [lia | lia |].
    exists (rows ++ W)%list. rewrite feed_app, Efeed. split; [|split; [done|]].
    + rewrite <- E. apply sublist_app; [done | by trans (between (lk_Pos k + 1) to L)].
    + intros Hlt. by rewrite (HWs Hlt), (Hstrict Hlt), <- E, feed_app, Efeed.
Qed.

End pages.

(** ** The check of a chained table *)

Lemma Next_fst w k : (Next sha256 w k).1 = false → range_OK (wk_r (Next sha256 w k).2) = false.
Proof.
  unfold Next. destruct (range_OK (wk_r w)) eqn:Hw; cbn [negb]; [|intros _; done].
  destruct (negb (lk_Pos k =? wk_want w)); [intros _; by apply walker_fail_not_OK|].
  destruct (negb (String.eqb (lk_Prev k) (wk_prev w))); [intros _; by apply walker_fail_not_OK|].
  destruct (negb (String.eqb _ (lk_Hash k))); [intros _; by apply walker_fail_not_OK | done].
Qed.

Lemma feed_next w l : (feed (next_link sha256) w l).1 = walk_all w l.
Proof.
  revert w. induction l as [|k l IH]; intros w; [done|]. simpl. unfold next_link at 1.
  pose proof (Next_fst w k) as Hk. destruct (Next sha256 w k) as [[] w'] eqn:E; simpl in *; [apply IH|].
  by rewrite walk_stuck by auto.
Qed.

Lemma intact_sorted want prev l : intact want prev l = true → StronglySorted Z.lt (map lk_Pos l).
Proof.
  revert want prev. induction l as [|k l IH]; intros want prev H; [constructor|].
  pose proof H as H0. simpl in H. apply andb_true_iff in H as [Hk Hl].
  apply good_inv in Hk as (Hp & _). simpl. constructor; [by apply (IH _ _ Hl)|].
  rewrite Forall_map, Forall_forall. intros x Hx. apply list_elem_of_lookup in Hx as [i Hi].
  pose proof (intact_lookup _ _ _ _ _ Hl Hi). lia.
Qed.

Lemma between_all lo to l : (∀ k, k ∈ l → lo <= lk_Pos k ∧ lk_Pos k <= to) → between lo to l = l.
Proof. intros H. by apply filter_everything. Qed.

Lemma sublist_full {A} (l1 l2 : list A) : l1 `sublist_of` l2 → length l1 = length l2 → l1 = l2.
Proof.
  induction 1 as [|x l1 l2 Hs IH|x l1 l2 Hs IH]; simpl; intros Hl; [done | f_equal; auto |].
  pose proof (sublist_length _ _ Hs). lia.
Qed.

(** The walk of a whole table by the walker. *)
Lemma verifyRange_whole page fuel db L unchained pre : serves db L unchained pre → 0 < page →
  (length L < fuel)%nat →
  ∃ W, W `sublist_of` L ∧
    verifyRange sha256 page fuel db 1 0 = Some (Ok (Done (walk_all (NewWalker 1 Genesis) W) 0)) ∧
    (intact 1 Genesis L = true → walk_all (NewWalker 1 Genesis) W = walk_all (NewWalker 1 Genesis) L).
Proof.
  intros Hs Hpage Hfuel. unfold verifyRange, range_before, walk.
  rewrite (sv_begin _ _ _ _ Hs). change (0 <=? 0) with true. cbv zeta. change (1 <? 1) with false. cbv beta iota zeta.
  change (1 <? 1) with false. cbv iota.
  pose proof (sublist_length _ _ (between_sublist 1 int64_max L)) as Hb.
  destruct (walk_pages_feed (next_link sha256) page db L int64_max unchained pre Hs Hpage fuel 1
    (NewWalker 1 Genesis)) as (W & HW & -> & Hfeed); [lia | lia | lia |].
  cbn [mbind option_bind]. rewrite feed_next. exists W. split; [|split; [done|]].
  - trans (between 1 int64_max L); [done | apply between_sublist].
  - intros Hi. specialize (Hfeed (intact_sorted _ _ _ Hi)).
    rewrite <- feed_next, Hfeed, feed_next, between_all; [done|].
    intros k Hk. pose proof (sv_int64 _ _ _ _ Hs _ Hk). apply list_elem_of_lookup in Hk as [i Hk].
    pose proof (intact_lookup _ _ _ _ _ Hi Hk). lia.
Qed.

Lemma Done_stood p : Z.of_nat (length p) < int64_max → Done (stood 1 Genesis p) 0 =
  MkRange 1 (Z.of_nat (length p)) Genesis (last_hash Genesis p) 0 "".
Proof.
  intros Hmax. unfold Done. cbn [Z.ltb Z.compare andb]. rewrite andb_false_r. cbn [andb stood wk_r wk_want rg_To].
  destruct (decide (p = [])) as [->|Hp]; [reflexivity|].
  destruct (Z.eqb_spec (1 + Z.of_nat (length p) - 1) 0) as [E|E]; [destruct p; [done | simpl in E; lia]|].
  f_equal. lia.
Qed.

Lemma app_nonempty s c t : String.append s (String c t) ≠ ""%string.
Proof. by destruct s. Qed.

Lemma report_reason_not_OK why r : why ≠ ""%string → report_OK (report_reason why r) = false.
Proof. intros H. unfold report_OK. simpl. apply andb_false_iff. right. by apply String.eqb_neq. Qed.

Lemma verifyChainOf_report (page : Z) (fuel : nat) (db : ChainDB) (L : list Link)
    (unchained pre : Z) (key : string) :
  serves db L unchained pre → 0 < page → (length L < fuel)%nat →
  1 + Z.of_nat (length L) <= int64_max →
  ∃ r, verifyChainOf sha256 page fuel db key = Some (Ok r) ∧
    (report_OK r = true ↔ intact 1 Genesis L = true ∧ unchained <= pre) ∧
    (report_OK r = true → cr_Rows r = Z.of_nat (length L) ∧ cr_Head r = last_hash Genesis L).
Proof.
  intros Hs Hpage Hfuel Hmax.
  destruct (verifyRange_whole page fuel db L unchained pre Hs Hpage Hfuel) as (W & HW & E & Hall).
  pose proof (sublist_length _ _ HW) as HWl.
  unfold verifyChainOf. rewrite E. cbn [mbind option_bind]. rewrite (sv_unchained _ _ _ _ Hs).
  eexists. split; [done|].
  destruct (walk_all_cases 1 Genesis W) as [(Hi & Hw) | (p & k & r & why & HWe & Hp & Hk & Hne & Hw)]; [lia | lia | |].
  - rewrite Hw in *. rewrite Done_stood by lia.
    change (range_OK (MkRange 1 (Z.of_nat (length W)) Genesis (last_hash Genesis W) 0 "")) with true.
    cbn [rg_To rg_Hash rg_FirstBad rg_Reason].
    cbn [report_OK cr_FirstBad cr_Reason Z.eqb String.eqb andb cr_Rows].
    destruct (Z.eqb_spec (Z.of_nat (length L)) (Z.of_nat (length W))) as [El|El]; cbn [negb].
    + pose proof (sublist_full _ _ HW ltac:(lia)) as ->.
      cbn [report_OK cr_FirstBad cr_Reason Z.eqb String.eqb andb].
      destruct (Z.ltb_spec pre unchained) as [Hlt|Hge].
      * rewrite report_reason_not_OK by apply app_nonempty. split; [split; [done | intros [_ ?]; lia] | done].
      * cbn [report_OK cr_FirstBad cr_Reason Z.eqb String.eqb andb cr_Rows cr_Head]. split; [done|]. done.
    + rewrite report_reason_not_OK by apply app_nonempty. cbn [andb]. rewrite report_reason_not_OK by apply app_nonempty.
      split; [|done]. split; [done|]. intros [HL _]. exfalso.
      specialize (Hall HL).
      rewrite NewWalker_stood, walk_stood in Hall by (done || lia).
      apply (f_equal wk_want) in Hall. simpl in Hall. lia.
  - assert (range_OK (wk_r (walker_fail (1 + Z.of_nat (length p)) why (stood 1 Genesis p))) = false) as Hbad
      by (by apply walker_fail_not_OK).
    rewrite Hw in *. rewrite Done_OK, Hbad. cbn [andb].
    assert (∀ s, report_OK (MkChainReport key s (rg_Hash (Done (walker_fail (1 + Z.of_nat (length p)) why (stood 1 Genesis p)) 0))
      (rg_FirstBad (Done (walker_fail (1 + Z.of_nat (length p)) why (stood 1 Genesis p)) 0))
      (rg_Reason (Done (walker_fail (1 + Z.of_nat (length p)) why (stood 1 Genesis p)) 0)) unchained pre) = false) as Hrep.
    { intros s. pose proof (Done_OK (walker_fail (1 + Z.of_nat (length p)) why (stood 1 Genesis p)) 0) as HD.
      rewrite Hbad in HD. apply HD. }
    rewrite Hrep. cbn [andb]. rewrite Hrep. cbn [andb]. rewrite Hrep.
    split; [|done]. split; [done|]. intros [HL _]. exfalso.
    specialize (Hall HL). rewrite NewWalker_stood, walk_stood in Hall by (done || lia).
    rewrite Hall in Hbad. done.
Qed.

(** C30: The store's check of a chained table is exact: with the walk, its page size
    whatever it is, and the count of rows taken together, it is OK just when the
    table's chained rows are one chain from the first position on, none
    duplicated, missing, edited or out of order, and no row lacks a link but
    those from before the chain; it then reports their number and last hash. *)
Theorem verifyChainOf_exact (page : Z) (fuel : nat) (db : ChainDB) (L : list Link)
    (unchained pre : Z) (key : string) :
  serves db L unchained pre → 0 < page → (length L < fuel)%nat →
  1 + Z.of_nat (length L) <= int64_max →
  ∃ r, verifyChainOf sha256 page fuel db key = Some (Ok r) ∧
    (report_OK r = true ↔ intact 1 Genesis L = true ∧ unchained <= pre) ∧
    (report_OK r = true → cr_Rows r = Z.of_nat (length L) ∧ cr_Head r = last_hash Genesis L).
Proof. apply verifyChainOf_report. Qed.

(** ** An export of a chain that holds *)

(** A written line read back: [encoding/json] gives a value of valid UTF-8 back
    as it was; the probe sees a link's position and a trailer's head. *)
Definition decode_line (v : export_value) : export_line :=
  match v with
  | link_line l => MkExportLine (Ok (None, Some (lk_Pos l))) (Ok l)
  | trailer_line h => MkExportLine (Ok (Some h, None)) (Ok (MkLink 0 "" "" ""))
  | header_line _ => MkExportLine (Ok (None, None)) (Ok (MkLink 0 "" "" ""))
  end.

Lemma export_lines_written L h line w links : ∃ n,
  export_lines sha256 (map decode_line (map link_line L ++ [trailer_line h])) line w None links =
    (walk_all w L, Some h, n).
Proof.
  revert line w links. induction L as [|k L IH]; intros line w links; [by exists links|]. simpl. apply IH.
Qed.

Lemma file_links_written L h : file_links (map decode_line (map link_line L ++ [trailer_line h])) = L.
Proof. induction L as [|k L IH]; [done|]. simpl. by rewrite IH. Qed.

Lemma held_map_stood before p i k : intact 1 before p = true → p !! i = Some k →
  held_map (wk_seen (stood 1 before p)) !! lk_Pos k = Some (lk_Hash k).
Proof.
  simpl. revert i k. induction p as [|x p IH] using rev_ind; intros i k Hi Hk; [done|].
  pose proof (intact_lookup _ _ _ _ _ Hi Hk) as Hpos.
  rewrite map_app, reverse_app. simpl.
  apply lookup_app_Some in Hk as [Hk | [Hge Hk]].
  - assert (intact 1 before (p ++ [x]) = true → lk_Pos x = 1 + Z.of_nat (length p)) as Hx.
    { intros H. apply (intact_lookup _ _ _ _ _ H). rewrite lookup_app_r by lia. by rewrite Nat.sub_diag. }
    rewrite intact_app in Hi. pose proof Hi as [Hp _]%andb_true_iff.
    rewrite <- intact_app in Hi. specialize (Hx Hi).
    apply lookup_lt_Some in Hk as Hlt. rewrite lookup_insert_ne by lia. by apply (IH i).
  - destruct (i - length p)%nat; [|done]. injection Hk as ->. apply lookup_insert_eq.
Qed.

Lemma check_heads_good heads held ps r : range_OK r = true →
  (∀ pos, pos ∈ ps → held !! pos = heads !! pos ∧ is_Some (heads !! pos)) →
  check_heads heads held ps r = r.
Proof.
  intros Hr. induction ps as [|pos ps IH]; intros H; [done|]. simpl. rewrite Hr. cbn [negb].
  destruct (H pos) as [-> [h ->]]; [by left|]. simpl. rewrite String.eqb_refl.
  apply IH. intros p Hp. apply H. by right.
Qed.

(** The head a store gives for a chain of [L]. *)
Definition head_of (tenant id : string) (L : list Link) : Head :=
  MkHead (ct_kind eventsChain) tenant id
    match last L with Some k => lk_Pos k | None => 0 end
    match last L with Some k => lk_Hash k | None => "" end.

Lemma VerifyExport_written hdr tenant id L heads :
  eh_V hdr = ExportVersion → eh_From hdr = 1 → eh_Before hdr = Genesis →
  intact 1 Genesis L = true → 1 + Z.of_nat (length L) <= int64_max →
  (∀ pos h, heads !! pos = Some h → ∃ i k, L !! i = Some k ∧ lk_Pos k = pos ∧ lk_Hash k = h) →
  ∃ rep held, VerifyExport sha256 (Some (Ok hdr))
      (map decode_line (map link_line L ++ [trailer_line (head_of tenant id L)])) None heads = Ok (rep, held) ∧
    range_OK (xr_Range rep) = true ∧ rg_Hash (xr_Range rep) = last_hash Genesis L.
Proof.
  intros HV Hf Hb Hi Hmax Hheads. unfold VerifyExport. rewrite HV, Hf, Hb.
  change (ExportVersion =? 0) with false. change (ExportVersion <? ExportVersion) with false. cbv iota.
  destruct (export_lines_written L (head_of tenant id L) 1 (NewWalker 1 Genesis) 0) as (n & ->).
  rewrite NewWalker_stood, walk_stood by (done || lia).
  eexists _, _. split; [done|]. cbn [xr_Range].
  set (w := stood 1 Genesis L). set (hd := head_of tenant id L).
  assert (hd_Pos hd = Z.of_nat (length L) ∧ (0 < hd_Pos hd → hd_Hash hd = last_hash Genesis L)) as [Hpos Hhash].
  { unfold hd, head_of, last_hash. simpl. destruct (last L) as [k|] eqn:E.
    - split; [|done]. apply last_Some in E as [L' ->].
      rewrite (intact_lookup 1 Genesis (L' ++ [k]) (length L') k Hi); [rewrite length_app; simpl; lia|].
      rewrite lookup_app_r by lia. by rewrite Nat.sub_diag.
    - apply last_None in E as ->. split; [done | lia]. }
  assert (range_OK (Done w (hd_Pos hd)) = true) as HD.
  { rewrite Done_OK. unfold w. cbn [stood wk_r wk_want]. apply andb_true_iff. split; [done|].
    apply negb_true_iff, andb_false_iff. right. lia. }
  assert (rg_Hash (Done w (hd_Pos hd)) = last_hash Genesis L) as HH by (by rewrite Done_Hash).
  assert (check_trailer (Some hd) (rg_To (wk_r w)) (Done w (hd_Pos hd)) = Done w (hd_Pos hd)) as HT.
  { unfold check_trailer. rewrite HD, HH. cbn [andb].
    assert ((0 <? hd_Pos hd) && negb (String.eqb (hd_Hash hd) (last_hash Genesis L)) = false) as ->.
    { destruct (Z.ltb_spec 0 (hd_Pos hd)); [|done]. rewrite Hhash by done. by rewrite String.eqb_refl. }
    rewrite HD. cbn [andb]. rewrite (proj2 (Z.ltb_ge (hd_Pos hd) _)); [done|].
    rewrite Hpos. unfold w. cbn [stood wk_r rg_To]. case_decide; lia. }
  rewrite HT, check_heads_good; [done | done |].
  intros pos [h Hh]%elem_of_sorted_positions. split; [|by exists h].
  destruct (Hheads _ _ Hh) as (i & k & Hk & <- & <-). rewrite Hh. by apply (held_map_stood Genesis L i k).
Qed.

Lemma feed_export L ew : wr_err ew = None →
  feed (export_link (λ _, None)) ew L = (MkWriter (wr_out ew ++ map link_line L) None, true).
Proof.
  revert ew. induction L as [|k L IH]; intros [out err] Hw; simpl in Hw; subst err; simpl.
  { by rewrite app_nil_r. }
  rewrite IH by done. simpl. by rewrite <- app_assoc.
Qed.

(** The walk an export makes of a table that holds one chain. *)
Lemma walk_table page fuel db L unchained pre ew : serves db L unchained pre → 0 < page →
  (length L < fuel)%nat → 1 + Z.of_nat (length L) <= int64_max → intact 1 Genesis L = true →
  wr_err ew = None →
  ∃ pos h, match last L with Some k => (lk_Pos k, lk_Hash k) | None => (0, ""%string) end = (pos, h) ∧
    (∀ tenant id, head_of tenant id L = MkHead (ct_kind eventsChain) tenant id pos h) ∧
    walk (export_link (λ _, None)) page db fuel 1 pos ew =
      Some (MkWriter (wr_out ew ++ map link_line L) None, None).
Proof.
  intros Hs Hpage Hfuel Hmax Hi Hew. unfold walk, head_of. rewrite (sv_begin _ _ _ _ Hs).
  set (pos := match last L with Some k => lk_Pos k | None => 0 end).
  exists pos, match last L with Some k => lk_Hash k | None => ""%string end.
  split; [unfold pos; by destruct (last L)|]. split; [done|].
  set (to := if pos <=? 0 then int64_max else pos).
  assert (∀ i k, L !! i = Some k → lk_Pos k = 1 + Z.of_nat i) as Hposn
    by (intros i k Hk; by apply (intact_lookup 1 Genesis L)).
  assert (to <= int64_max ∧ ∀ k, k ∈ L → 1 <= lk_Pos k ∧ lk_Pos k <= to) as [Hto Hall].
  { unfold to, pos. destruct (last L) as [k|] eqn:E.
    - apply last_Some in E as [L' ->]. rewrite length_app in *. simpl in *.
      rewrite (Hposn (length L') k) by (rewrite lookup_app_r by lia; by rewrite Nat.sub_diag).
      rewrite (proj2 (Z.leb_gt _ 0)) by lia. split; [lia|]. intros k' [i Hk]%list_elem_of_lookup.
      rewrite (Hposn _ _ Hk). apply lookup_lt_Some in Hk. rewrite length_app in Hk. simpl in Hk. lia.
    - apply last_None in E as ->. simpl. split; [lia|]. intros k Hk. by apply elem_of_nil in Hk. }
  pose proof (sublist_length _ _ (between_sublist 1 to L)) as Hb.
  destruct (walk_pages_feed (export_link (λ _, None)) page db L to unchained pre Hs Hpage fuel 1 ew)
    as (W & _ & -> & HW); [lia | lia | lia |].
  by rewrite (HW (intact_sorted _ _ _ Hi)), between_all, feed_export.
Qed.

(** The export of a chain that holds is a file that verifies with nothing but
    itself, whatever heads of that chain were kept elsewhere, and its links are
    the table's, byte for byte. *)
Theorem ExportChain_roundtrip (page : Z) (fuel : nat) (db : ChainDB) (L : list Link)
    (unchained pre : Z) (tenant id now : string) (unverified : bool) :
  serves db L unchained pre → 0 < page → (length L < fuel)%nat →
  1 + Z.of_nat (length L) <= int64_max → intact 1 Genesis L = true → unchained <= pre →
  ∃ r hdr lines,
    ExportChain sha256 page fuel db tenant id now (λ _, None) None unverified =
      Some (Ok r, Some (MkWriter (header_line hdr :: lines) None)) ∧
    file_links (map decode_line lines) = L ∧
    ∀ heads, (∀ pos h, heads !! pos = Some h → ∃ i k, L !! i = Some k ∧ lk_Pos k = pos ∧ lk_Hash k = h) →
      ∃ rep held, VerifyExport sha256 (Some (Ok hdr)) (map decode_line lines) None heads = Ok (rep, held) ∧
        range_OK (xr_Range rep) = true ∧ rg_Hash (xr_Range rep) = last_hash Genesis L.
Proof.
  intros Hs Hpage Hfuel Hmax Hi Hun.
  destruct (verifyChainOf_report page fuel db L unchained pre id Hs Hpage Hfuel Hmax)
    as (r & E & Hr & _). pose proof (proj2 Hr (conj Hi Hun)) as Hok.
  unfold ExportChain, VerifyChain. rewrite E. cbn [mbind option_bind]. rewrite Hok. cbn [negb andb].
  rewrite (sv_head _ _ _ _ Hs). destruct (walk_table page fuel db L unchained pre
    (NewWriter (λ _, None) (MkHeader 0 (ct_kind eventsChain) tenant id 1 "" (cr_Unchained r) now))
    Hs Hpage Hfuel Hmax Hi eq_refl) as (pos & h & Eh & Hhead & Hwalk). rewrite Eh.
  cbv beta iota zeta. rewrite Hwalk. cbn [mbind option_bind wr_err]. exists r. eexists _, _. split; [done|].
  rewrite <- Hhead. split; [apply file_links_written|]. intros heads Hheads.
  by apply VerifyExport_written.
Qed.

(** ** The witness *)

Lemma check_statements_none verify want store tenant hashAt removed stmts out :
  check_statements verify want store tenant hashAt removed stmts out = ([], None) →
  out = [] ∧ ∀ s, s ∈ stmts → st_Store s = store → st_Tenant s = tenant →
    st_Key s = want ∧ verify s = None ∧ hashAt (st_Session s) (st_Lines s) = Ok (Some (st_Hash s)).
Proof.
  revert out. induction stmts as [|s stmts IH]; intros out H; simpl in H.
  { injection H as ->. split; [done|]. intros s Hs. by apply elem_of_nil in Hs. }
  assert (∀ x, check_statements verify want store tenant hashAt removed stmts (out ++ [x]) ≠ ([], None)) as Hadd.
  { intros x Hx. apply IH in Hx as [Hx _]. by destruct out. }
  destruct (String.eqb_spec (st_Store s) store) as [Es|Es],
    (String.eqb_spec (st_Tenant s) tenant) as [Et|Et]; cbn [negb orb] in H.
  2, 3, 4: apply IH in H as [-> H]; split; [done|]; intros x [->|Hx]%elem_of_cons; [congruence | by apply H].
  destruct (String.eqb_spec (st_Key s) want) as [Ek|Ek]; cbn [negb orb] in H; [|by apply Hadd in H].
  destruct (verify s) eqn:Ev; cbn [opt_some] in H; [by apply Hadd in H|].
  destruct (hashAt (st_Session s) (st_Lines s)) as [[h|]|e] eqn:Eh; [| |by injection H].
  - destruct (String.eqb_spec h (st_Hash s)) as [->|]; [|by apply Hadd in H].
    apply IH in H as [-> H]. split; [done|]. intros x [->|Hx]%elem_of_cons; [done | by apply H].
  - destruct removed as [removed|]; [|by apply Hadd in H].
    destruct (removed _ _ _) as [[why gone]|e]; [|by injection H].
    destruct (negb (String.eqb why "")); by apply Hadd in H.
Qed.

(** The record as a witness keeps it: when the witness's heads all check out
    against a table whose chain verifies, and one of them is the head the chain
    [L0] had when it was sent, the table still starts with every link of [L0], or
    a SHA-256 collision was found. The owner of the database can rewrite the
    table and the chain; not that head. *)
Theorem witness_binds (verify : Statement → option error) (key store tenant : string)
    (removed : option (string → Z → string → result (string * bool)))
    (dbs : string → ChainDB) (stmts : list Statement) (s : Statement)
    (page : Z) (fuel : nat) (L L0 : list Link) (unchained pre : Z) (r : ChainReport) :
  serves (dbs (st_Session s)) L unchained pre → 0 < page → (length L < fuel)%nat →
  1 + Z.of_nat (length L) <= int64_max →
  verifyChainOf sha256 page fuel (dbs (st_Session s)) (st_Session s) = Some (Ok r) → report_OK r = true →
  CheckWitness verify stmts (Some key) store tenant (λ id pos, ChainHashAt (dbs id) id pos) removed = ([], None) →
  s ∈ stmts → st_Store s = store → st_Tenant s = tenant →
  intact 1 Genesis L0 = true → L0 ≠ [] →
  st_Lines s = Z.of_nat (length L0) → st_Hash s = last_hash Genesis L0 →
  take (length L0) L = L0 ∨ collision L0 (take (length L0) L).
Proof.
  intros Hs Hpage Hfuel Hmax Hv Hok Hw Hin Est Etn Hi0 Hne Hlines Hhash.
  destruct (verifyChainOf_report page fuel _ L unchained pre (st_Session s) Hs Hpage Hfuel Hmax)
    as (r' & E & [Hr _] & _). rewrite E in Hv. injection Hv as ->. destruct (Hr Hok) as [Hi _].
  apply check_statements_none in Hw as [_ Hw]. destruct (Hw s Hin Est Etn) as (_ & _ & Hat).
  unfold ChainHashAt in Hat. rewrite (sv_hashAt _ _ _ _ Hs) in Hat.
  destruct (find_first _ L) as [k|] eqn:Hk; [|done]. injection Hat as Hat.
  apply find_first_Some in Hk as [HkL Hpos%Z.eqb_eq].
  apply list_elem_of_split in HkL as (l1 & l2 & ->).
  rewrite (intact_lookup 1 Genesis _ (length l1) k Hi) in Hpos
    by (rewrite lookup_app_r by lia; by rewrite Nat.sub_diag).
  assert (length L0 = Datatypes.S (length l1)) as Hlen by lia.
  assert (take (length L0) (l1 ++ k :: l2) = l1 ++ [k])%list as Htake.
  { rewrite Hlen. rewrite take_app_ge by lia. f_equal.
    by replace (Datatypes.S (length l1) - length l1)%nat with 1%nat by lia. }
  rewrite Htake. destruct (head_binds 1 Genesis Genesis L0 (l1 ++ [k])) as [[H1 _] | H1]; try done.
  - change (k :: l2) with ([k] ++ l2)%list in Hi. rewrite app_assoc, intact_app in Hi.
    by apply andb_true_iff in Hi as [Hi _].
  - rewrite length_app. simpl. lia.
  - rewrite last_hash_snoc. congruence.
  - left. done.
  - by right.
Qed.

End hashed.

(** ** The theorems on a concrete chain

    The hash is any function; the bytes themselves will do. *)

(** The database that holds [L]. *)
Definition serving (L : list Link) (unchained pre : Z) : ChainDB :=
  MkChainDB None
    (λ lo to limit, (take (Z.to_nat limit) (filter (λ k, lo <= lk_Pos k ∧ lk_Pos k <= to) L), None))
    (λ pos, Ok (lk_Hash <$> find_first (λ k, lk_Pos k =? pos) L))
    (Ok (unchained, pre, Z.of_nat (length L)))
    (Ok match last L with Some k => (lk_Pos k, lk_Hash k) | None => (0, ""%string) end).

Definition next_row (l : list Link) (row : string) : list Link :=
  let prev := last_hash Genesis l in
  (l ++ [MkLink (1 + Z.of_nat (length l)) prev (LinkHash bytes prev row) row])%list.

Definition two_rows : list Link := next_row (next_row [] "{}") "{a}".

Lemma two_rows_intact : intact bytes 1 Genesis two_rows = true.
Proof. vm_compute. reflexivity. Qed.

Lemma two_rows_served : serves (serving two_rows 3 3) two_rows 3 3.
Proof.
  constructor; try done.
  - change (map lk_Pos two_rows) with [1; 2]. repeat constructor; lia.
  - intros k Hk. change two_rows with (next_row (next_row [] "{}") "{a}") in Hk.
    unfold next_row in Hk. simpl app in Hk. rewrite !elem_of_cons, elem_of_nil in Hk.
    unfold int64_max. destruct Hk as [-> | [-> | []]]; simpl; lia.
Qed.

Lemma walker_verdict_witness :
  range_OK (Done (walk_all bytes (NewWalker 1 Genesis) two_rows) 2) = true.
Proof.
  destruct (walker_verdict bytes 1 2 Genesis two_rows) as [[_ H] _]; [lia | lia | vm_compute; discriminate |].
  apply H. split; [exact two_rows_intact | intros _; reflexivity].
Defined.

Definition two_rows_head : gmap Z string := {[ 2 := last_hash Genesis two_rows ]}.
Definition two_rows_file : list export_line :=
  map decode_line (map link_line two_rows ++ [trailer_line (head_of "t" "s" two_rows)]).
Definition two_rows_header : Header := MkHeader 1 "postgres/events" "t" "s" 1 Genesis 3 "now".

Lemma export_binds_witness :
  match VerifyExport bytes (Some (Ok two_rows_header)) two_rows_file None two_rows_head with
  | Ok (rep, held) =>
      (0 < 2)%nat ∧ (take 2 (file_links two_rows_file) = two_rows ∧ eh_Before two_rows_header = Genesis ∨
      collision bytes two_rows (take 2 (file_links two_rows_file)))
  | Fail _ => False
  end.
Proof.
  destruct (VerifyExport bytes (Some (Ok two_rows_header)) two_rows_file None two_rows_head)
    as [[rep held]|e] eqn:E; [|vm_compute in E; discriminate E].
  assert (range_OK (xr_Range rep) = true) as Hok
    by (vm_compute in E; injection E as <- _; reflexivity).
  apply (export_binds bytes two_rows_header two_rows_file two_rows_head held rep two_rows);
    [exact two_rows_intact | discriminate | | vm_compute; discriminate | reflexivity | vm_compute; discriminate | exact E | exact Hok].
  unfold two_rows_head. change (Z.of_nat (length two_rows)) with 2. by rewrite lookup_singleton_eq.
Defined.

(** A file cut at its front: it says it starts at 2, and verifies against the head. *)
Example front_cut_verifies :
  let hdr := MkHeader 1 "postgres/events" "t" "s" 2 (last_hash Genesis (take 1 two_rows)) 3 "now" in
  let file := map decode_line (map link_line (drop 1 two_rows) ++ [trailer_line (head_of "t" "s" two_rows)]) in
  match VerifyExport bytes (Some (Ok hdr)) file None two_rows_head with
  | Ok (rep, _) => range_OK (xr_Range rep) = true
  | Fail _ => False
  end.
Proof. vm_compute. reflexivity. Qed.

Lemma verifyChainOf_exact_witness : ∃ r,
  verifyChainOf bytes 1 3 (serving two_rows 3 3) "s" = Some (Ok r) ∧ report_OK r = true.
Proof.
  destruct (verifyChainOf_exact bytes 1 3 (serving two_rows 3 3) two_rows 3 3 "s") as (r & E & [_ H] & _);
    [exact two_rows_served | lia | simpl; lia | vm_compute; discriminate |].
  exists r. split; [exact E|]. apply H. split; [exact two_rows_intact | lia].
Defined.

Lemma ExportChain_roundtrip_witness : ∃ r hdr lines,
  ExportChain bytes 1 3 (serving two_rows 3 3) "t" "s" "now" (λ _, None) None false =
    Some (Ok r, Some (MkWriter (header_line hdr :: lines) None)) ∧
  file_links (map decode_line lines) = two_rows.
Proof.
  destruct (ExportChain_roundtrip bytes 1 3 (serving two_rows 3 3) two_rows 3 3 "t" "s" "now" false)
    as (r & hdr & lines & H1 & H2 & _);
    [exact two_rows_served | lia | simpl; lia | vm_compute; discriminate | exact two_rows_intact | lia |].
  exists r, hdr, lines. split; [exact H1 | exact H2].
Defined.

(** A statement sent when the chain held one row. *)
Definition one_row : list Link := next_row [] "{}".
Definition one_row_head : Statement :=
  MkStatement 1 "postgres" "h" "t" "s" 1 0 (last_hash Genesis one_row) "now" "key" "sig".

Lemma witness_binds_witness :
  take 1 two_rows = one_row ∨ collision bytes one_row (take 1 two_rows).
Proof.
  destruct (verifyChainOf bytes 1 3 (serving two_rows 3 3) "s") as [[r|e]|] eqn:E;
    [|vm_compute in E; discriminate E..].
  assert (report_OK r = true) as Hok by (vm_compute in E; injection E as <-; reflexivity).
  apply (witness_binds bytes (λ _, None) "key" "postgres" "t" None (λ _, serving two_rows 3 3)
    [one_row_head] one_row_head 1 3 two_rows one_row 3 3 r);
    [exact two_rows_served | lia | simpl; lia | vm_compute; discriminate | exact E | exact Hok
    | vm_compute; reflexivity | by left | reflexivity | reflexivity | vm_compute; reflexivity
    | discriminate | reflexivity | reflexivity].
Defined.
