(* ===== verification/Sedscript.v ===== *)
(** Reading a sed script far enough to tell whether it only edits text
    (src/internal/sedscript/sedscript.go).

    The parser's state, a string and an index into it, is what is left to read:
    every operation of it reads the string from the index on. *)

From Stdlib Require Import ZArith NArith Ascii String Lia Bool.
From stdpp Require Import base tactics list option strings.
From S2P Require Import Prelude.
From S2P Require Import GoStd.
From S2P Require Import Errors.

#[local] Open Scope string_scope.

(** What a parsed sed script does beyond editing its input. *)
Record Script : Type := MkScript {
  Runs : list string; RunsInput : bool;
  Writes : bool; Files : list string
}.

Definition Inert (s : Script) : bool :=
  (length (Runs s) =? 0)%nat && negb (RunsInput s) && negb (Writes s).

Definition no_effect : Script := MkScript [] false false [].

Definition add_run (t : string) (s : Script) : Script :=
  MkScript (Runs s ++ [t])%list (RunsInput s) (Writes s) (Files s).
Definition runs_input (s : Script) : Script :=
  MkScript (Runs s) true (Writes s) (Files s).
Definition add_file (f : string) (s : Script) : Script :=
  MkScript (Runs s) (RunsInput s) true (Files s ++ [f])%list.

Definition errSyntax : error := plain "sed script not understood".

(** [strings.IndexByte(set, c) >= 0]. *)
Definition in_set (set : string) (c : ascii) : bool := opt_some (IndexByte set c).

Definition backslash : ascii := "\"%char.
Definition blanks : string := String " " (String tab "").
Definition newline_str : string := String newline "".

(** ** The parser's operations *)

Fixpoint skip (set p : string) : string :=
  match p with
  | String c p' => if in_set set c then skip set p' else p
  | EmptyString => p
  end.

Fixpoint toEOL (p : string) : string * string :=
  match p with
  | EmptyString => ("", "")
  | String c p' =>
      if c =c newline then ("", p)
      else let '(t, rest) := toEOL p' in (String c t, rest)
  end.

Fixpoint label_name (p : string) : string :=
  match p with
  | String c p' =>
      if in_set (blanks ++ ";" ++ newline_str ++ "}#") c then p else label_name p'
  | EmptyString => p
  end.

Definition label (p : string) : string := label_name (skip blanks p).

Fixpoint text (p : string) : string :=
  match p with
  | EmptyString => ""
  | String c p' =>
      if c =c backslash then
        match p' with
        | String _ p'' => text p''
        | EmptyString => ""
        end
      else if c =c newline then p' else text p'
  end.

(** Past the next unescaped delimiter; [None] when there is none. *)
Fixpoint until (d : ascii) (p : string) : option string :=
  match p with
  | EmptyString => None
  | String c p' =>
      match p' with
      | String _ p'' =>
          if c =c backslash then until d p''
          else if c =c d then Some p' else until d p'
      | EmptyString => if c =c d then Some p' else None
      end
  end.

Definition digit (c : ascii) : bool := in_range "0" "9" c.

Fixpoint skip_while (f : ascii → bool) (p : string) : string :=
  match p with
  | String c p' => if f c then skip_while f p' else p
  | EmptyString => p
  end.

(** [addr1]; [None] is [errSyntax]. *)
Definition addr1 (p : string) : option string :=
  match p with
  | EmptyString => Some p
  | String c p' =>
      if digit c then Some (skip_while (λ c, digit c || (c =c "~")) p)
      else if c =c "$" then Some p'
      else if (c =c "/") || (c =c backslash) then
        d_rest ← (if c =c backslash
                  then match p' with EmptyString => None | String d p'' => Some (d, p'') end
                  else Some ("/"%char, p'));
        rest ← until (fst d_rest) (snd d_rest);
        Some (skip_while (λ c, (c =c "I") || (c =c "M")) rest)
      else Some p
  end.

Definition address (p : string) : option string :=
  p ← addr1 p;
  let p := skip blanks p in
  match p with
  | String "," p =>
      let p := skip blanks p in
      addr1 match p with
            | String c p' => if (c =c "+") || (c =c "~") then p' else p
            | EmptyString => p
            end
  | _ => Some p
  end.

(** [p.skip(" \t")], then [for !p.end() && p.peek() == '!' { p.i++; p.skip(" \t") }]:
    blanks and bangs in any order, as the loop only stops at neither. *)
Definition skip_bangs (p : string) : string := skip (blanks ++ "!") p.

(** The loop over the flags of [s]. *)
Fixpoint subst_flags (p : string) (s : Script) : string * Script :=
  match p with
  | EmptyString => (p, s)
  | String f p' =>
      if f =c "w" then
        let '(t, rest) := toEOL p' in (rest, add_file (TrimSpace t) s)
      else if f =c "e" then subst_flags p' (runs_input s)
      else if in_set "gpiImM0123456789" f then subst_flags p' s
      else (p, s)
  end.

(** The delimiter of [s] and [y], and the two parts it ends. *)
Definition two_parts (p : string) : option string :=
  match p with
  | EmptyString => None
  | String d p' => if in_set (newline_str ++ "\") d then None else p ← until d p'; until d p
  end.

(** One command after its first byte [c]. *)
Definition command (c : ascii) (p : string) (s : Script) : option (string * Script) :=
  if c =c "{" then Some (p, s)
  else if in_set "=dDgGhHnNpPxzF" c then Some (p, s)
  else if in_set "lLqQ" c then Some (skip_while digit (skip blanks p), s)
  else if in_set ":btTv" c then Some (label p, s)
  else if in_set "aic" c then Some (text p, s)
  else if in_set "rR" c then Some (snd (toEOL p), s)
  else if c =c "e" then
    let '(t, rest) := toEOL p in
    let t := TrimSpace t in
    Some (rest, if negb (String.eqb t "") then add_run t s else runs_input s)
  else if in_set "wW" c then
    let '(t, rest) := toEOL p in Some (rest, add_file (TrimSpace t) s)
  else if c =c "s" then
    p ← two_parts p; Some (subst_flags p s)
  else if c =c "y" then
    p ← two_parts p; Some (p, s)
  else None.

(** What may follow command [c]. *)
Definition ends_well (c : ascii) (p : string) : bool :=
  match skip blanks p with
  | EmptyString => true
  | String e _ => in_set (";" ++ newline_str ++ "}#") e || (c =c "{") || in_set ":btTv" c
  end.

(** The loop of [Parse]; the outcome is the script so far and the error. *)
Fixpoint parse_loop (fuel : nat) (p : string) (s : Script) : option (Script * option error) :=
  match fuel with
  | O => None
  | Datatypes.S fuel =>
      match skip (blanks ++ newline_str ++ ";") p with
      | EmptyString => Some (s, None)
      | String c0 p' as p =>
          if c0 =c "}" then parse_loop fuel p' s
          else if c0 =c "#" then parse_loop fuel (snd (toEOL p)) s
          else
            match address p with
            | None => Some (s, Some errSyntax)
            | Some p =>
                match skip_bangs p with
                | EmptyString => Some (s, Some errSyntax)
                | String c p =>
                    match command c p s with
                    | None => Some (s, Some errSyntax)
                    | Some (p, s) =>
                        if ends_well c p then parse_loop fuel (skip blanks p) s
                        else Some (s, Some errSyntax)
                    end
                end
            end
      end
  end.

Definition Parse (src : string) : option (Script * option error) :=
  parse_loop (Datatypes.S (String.length src)) src no_effect.

(** ** Scripts on a command line *)

(** What a short option cluster says: nothing more, a script attached, a script
    or a number as the next word, or a script file. *)
Inductive cluster : Type :=
  | cluster_done
  | cluster_script (e : string)
  | cluster_next_script
  | cluster_next_skipped
  | cluster_file.

Fixpoint read_cluster (a : string) : cluster :=
  match a with
  | EmptyString => cluster_done
  | String c rest =>
      if c =c "e" then (if String.eqb rest "" then cluster_next_script else cluster_script rest)
      else if c =c "f" then cluster_file
      else if c =c "i" then cluster_done
      else if c =c "l" then (if String.eqb rest "" then cluster_next_skipped else cluster_done)
      else read_cluster rest
  end.

(** [first] is [None] while [haveFirst] is false. *)
Definition scripts_end (exprs : list string) (first : option string) : string * bool :=
  if (0 <? length exprs)%nat then (Join exprs newline_str, true)
  else (default "" first, opt_some first).

Definition set_first (first : option string) (a : string) : option string :=
  match first with None => Some a | Some _ => first end.

Fixpoint scripts_loop (args : list string) (exprs : list string) (first : option string) : string * bool :=
  match args with
  | [] => scripts_end exprs first
  | a :: args =>
      let next_script :=
        match args with
        | [] => ("", false)
        | e :: args => scripts_loop args (exprs ++ [e])%list first
        end in
      let next_skipped :=
        match args with
        | [] => scripts_end exprs first
        | _ :: args => scripts_loop args exprs first
        end in
      if String.eqb a "--" then
        scripts_end exprs
          match args with
          | x :: _ => if (length exprs =? 0)%nat then set_first first x else first
          | [] => first
          end
      else if String.eqb a "-e" || String.eqb a "--expression" then next_script
      else if HasPrefix a "--expression=" then
        scripts_loop args (exprs ++ [TrimPrefix a "--expression="])%list first
      else if String.eqb a "-f" || String.eqb a "--file" || HasPrefix a "--file=" then ("", false)
      else if String.eqb a "-l" || String.eqb a "--line-length" then next_skipped
      else if HasPrefix a "--" then scripts_loop args exprs first
      else if HasPrefix a "-" && (1 <? String.length a)%nat then
        match read_cluster (str_drop 1 a) with
        | cluster_done => scripts_loop args exprs first
        | cluster_script e => scripts_loop args (exprs ++ [e])%list first
        | cluster_next_script => next_script
        | cluster_next_skipped => next_skipped
        | cluster_file => ("", false)
        end
      else scripts_loop args exprs (set_first first a)
  end.

Definition Scripts (args : list string) : string * bool := scripts_loop args [] None.

(** * Theorems

    What the sed-script reader promises: it always ends, and on a script written
    from structured commands it finds exactly the commands run and the files
    written, none missed whatever text surrounds them. *)

(** ** Structured scripts

    A part of a regular expression, of a replacement or of inserted text: a byte
    as it stands, or one after a backslash. *)
Inductive item : Type :=
  | Plain (c : ascii)
  | Escaped (c : ascii).

Inductive addr : Type :=
  | ALine (first : ascii) (more : string)          (* 12, 0~2 *)
  | ALast                                          (* $ *)
  | ARegex (d : option ascii) (re : list item) (flags : string).   (* /re/I, \%re%M *)

Record range : Type := MkRange {
  ra_first : addr;
  ra_second : option (string * string * option ascii * addr)  (* blanks, blanks, + or ~, address *)
}.

Inductive body : Type :=
  | Open                                           (* { *)
  | Simple (c : ascii)                             (* p, d, ... *)
  | Numbered (c : ascii) (gap digits : string)     (* l 40, q *)
  | Labelled (c : ascii) (gap name : string)       (* b end *)
  | Inserted (c : ascii) (txt : list item)         (* a text *)
  | ReadFile (c : ascii) (name : string)           (* r file *)
  | Execute (cmd : string)                         (* e cmd *)
  | WriteFile (c : ascii) (name : string)          (* w file *)
  | Substitute (d : ascii) (re rep : list item) (flags : string) (file : option string)
  | Translate (d : ascii) (from to : list item).

(** One element of a script, after the blanks, newlines and semicolons [sep]. *)
Inductive element : Type :=
  | Close (sep : string)                                        (* } *)
  | Comment (sep txt : string)                                  (* # text *)
  | Command (sep : string) (r : option range) (bang : string) (b : body).

Definition print_item (i : item) : string :=
  match i with Plain c => String c "" | Escaped c => String backslash (String c "") end.
Fixpoint print_items (l : list item) : string :=
  match l with [] => "" | i :: l => print_item i ++ print_items l end.

Definition print_addr (a : addr) : string :=
  match a with
  | ALine d more => String d more
  | ALast => "$"
  | ARegex None re flags => "/" ++ print_items re ++ "/" ++ flags
  | ARegex (Some d) re flags => String backslash (String d (print_items re ++ String d flags))
  end.

Definition print_range (r : option range) : string :=
  match r with
  | None => ""
  | Some r =>
      print_addr (ra_first r) ++
      match ra_second r with
      | None => ""
      | Some (g1, g2, rel, a) =>
          g1 ++ "," ++ g2 ++ match rel with Some c => String c "" | None => "" end ++ print_addr a
      end
  end.

Definition body_letter (b : body) : ascii :=
  match b with
  | Open => "{" | Execute _ => "e" | Substitute _ _ _ _ _ => "s" | Translate _ _ _ => "y"
  | Simple c | Numbered c _ _ | Labelled c _ _ | Inserted c _ | ReadFile c _ | WriteFile c _ => c
  end%char.

Definition print_parts (d : ascii) (p q : list item) : string :=
  String d (print_items p ++ String d (print_items q ++ String d "")).

Definition print_rest (b : body) : string :=
  match b with
  | Open | Simple _ => ""
  | Numbered _ gap digits => gap ++ digits
  | Labelled _ gap name => gap ++ name
  | Inserted _ txt => print_items txt
  | ReadFile _ name | WriteFile _ name => name
  | Execute cmd => cmd
  | Substitute d re rep flags file =>
      print_parts d re rep ++ flags ++ match file with Some f => "w" ++ f | None => "" end
  | Translate d p q => print_parts d p q
  end.

Definition print_element (e : element) : string :=
  match e with
  | Close sep => sep ++ "}"
  | Comment sep txt => sep ++ "#" ++ txt
  | Command sep r bang b => sep ++ print_range r ++ bang ++ String (body_letter b) (print_rest b)
  end.

Fixpoint print_script (l : list element) : string :=
  match l with [] => "" | e :: l => print_element e ++ print_script l end.

(** What each command does beyond editing its input. *)
Definition body_effect (b : body) (s : Script) : Script :=
  match b with
  | Execute cmd =>
      let t := TrimSpace cmd in if String.eqb t "" then runs_input s else add_run t s
  | WriteFile _ name => add_file (TrimSpace name) s
  | Substitute _ _ _ flags file =>
      let s := if str_exists (λ c, c =c "e") flags then runs_input s else s in
      match file with Some f => add_file (TrimSpace f) s | None => s end
  | _ => s
  end.

Definition element_effect (e : element) (s : Script) : Script :=
  match e with Command _ _ _ b => body_effect b s | _ => s end.

Definition script_effect (l : list element) : Script :=
  fold_left (λ s e, element_effect e s) l no_effect.

(** ** Well-formed scripts *)

Definition all_in (set s : string) : bool := str_forall (in_set set) s.
Definition none_in (set s : string) : bool := str_forall (λ c, negb (in_set set c)) s.
Definition one_line (s : string) : bool := str_forall (λ c, negb (c =c newline)) s.

(** No plain delimiter or backslash. *)
Definition item_ok (d : ascii) (i : item) : bool :=
  match i with Plain c => negb (c =c d) && negb (c =c backslash) | Escaped _ => true end.
Definition items_ok (d : ascii) (l : list item) : bool := forallb (item_ok d) l.

Definition delimiter_ok (d : ascii) : bool := negb (in_set (newline_str ++ "\") d).

Definition addr_ok (a : addr) : bool :=
  match a with
  | ALine d more => digit d && str_forall (λ c, digit c || (c =c "~")) more
  | ALast => true
  | ARegex None re flags => items_ok "/" re && all_in "IM" flags
  | ARegex (Some d) re flags => negb (d =c backslash) && items_ok d re && all_in "IM" flags
  end.

Definition range_ok (r : option range) : bool :=
  match r with
  | None => true
  | Some r =>
      addr_ok (ra_first r) &&
      match ra_second r with
      | None => true
      | Some (g1, g2, rel, a) =>
          all_in blanks g1 && all_in blanks g2 && addr_ok a &&
          match rel with Some c => (c =c "+") || (c =c "~") | None => true end
      end
  end.

Definition body_ok (b : body) : bool :=
  match b with
  | Open => true
  | Simple c => in_set "=dDgGhHnNpPxzF" c
  | Numbered c gap digits => in_set "lLqQ" c && all_in blanks gap && str_forall digit digits
  | Labelled c gap name =>
      in_set ":btTv" c && all_in blanks gap && none_in (blanks ++ ";" ++ newline_str ++ "}#") name
  | Inserted c txt => in_set "aic" c && items_ok newline txt
  | ReadFile c name => in_set "rR" c && one_line name
  | Execute cmd => one_line cmd
  | WriteFile c name => in_set "wW" c && one_line name
  | Substitute d re rep flags file =>
      delimiter_ok d && items_ok d re && items_ok d rep &&
      all_in "egpiImM0123456789" flags && match file with Some f => one_line f | None => true end
  | Translate d p q => delimiter_ok d && items_ok d p && items_ok d q
  end.

(** The first byte past the blanks is the end of a command, or there is none. *)
Definition terminated (p : string) : bool :=
  match skip blanks p with
  | EmptyString => true
  | String e _ => in_set (";" ++ newline_str ++ "}#") e
  end.

Definition at_eol (p : string) : bool :=
  match p with EmptyString => true | String c _ => c =c newline end.

(** What the text after a command must be. The code takes the newline that ends
    inserted text with it, and then wants a terminator once more. *)
Definition follows (b : body) (p : string) : bool :=
  match b with
  | Open => true
  | Simple _ | Numbered _ _ _ | Translate _ _ _ | Substitute _ _ _ _ None => terminated p
  | Labelled _ _ name =>
      if String.eqb name "" then terminated p
      else match p with
           | EmptyString => true
           | String c _ => in_set (blanks ++ ";" ++ newline_str ++ "}#") c
           end
  | Inserted _ _ =>
      match p with EmptyString => true | String c p => (c =c newline) && terminated p end
  | ReadFile _ _ | Execute _ | WriteFile _ _ | Substitute _ _ _ _ (Some _) => at_eol p
  end.

Definition separators : string := blanks ++ newline_str ++ ";".

Fixpoint script_ok (l : list element) : bool :=
  match l with
  | [] => true
  | Close sep :: l => all_in separators sep && script_ok l
  | Comment sep txt :: l =>
      all_in separators sep && one_line txt && at_eol (print_script l) && script_ok l
  | Command sep r bang b :: l =>
      all_in separators sep && range_ok r && all_in (blanks ++ "!") bang && body_ok b &&
      follows b (print_script l) && script_ok l
  end.

(** ** Reading what was printed *)

Lemma in_set_elem set c : in_set set c = true ↔ c ∈ bytes set.
Proof.
  unfold in_set. induction set as [|d set IH]; simpl; [by rewrite elem_of_nil|].
  rewrite elem_of_cons. destruct (Ascii.eqb_spec c d) as [->|Hne]; simpl; [tauto|].
  destruct (IndexByte set c); simpl in *; tauto.
Qed.

(** A property checked on every byte of a set. *)
Lemma in_set_check set (f : ascii → bool) c :
  str_forall f set = true → in_set set c = true → f c = true.
Proof. intros Hf Hc. apply in_set_elem in Hc. by apply (proj1 (str_forall_spec f set) Hf). Qed.

Definition head_is (f : ascii → bool) (p : string) : bool :=
  match p with EmptyString => true | String c _ => f c end.

Lemma skip_app set g p : all_in set g = true → skip set (g ++ p) = skip set p.
Proof.
  unfold all_in. induction g as [|c g IH]; [done|]. simpl. intros [Hc Hg]%andb_true_iff.
  rewrite ?str_app_cons. simpl. rewrite Hc. auto.
Qed.

Lemma skip_stop set p : head_is (λ c, negb (in_set set c)) p = true → skip set p = p.
Proof. destruct p as [|c p]; [done|]. simpl. by destruct (in_set set c). Qed.

Lemma skip_twice set1 set2 p : str_forall (in_set set2) set1 = true → skip set2 (skip set1 p) = skip set2 p.
Proof.
  intros Hs. induction p as [|c p IH]; [done|]. simpl.
  destruct (in_set set1 c) eqn:Hc; [|done]. rewrite IH. simpl.
  by rewrite (in_set_check set1 (in_set set2) c Hs Hc).
Qed.

Lemma skip_head set p : head_is (λ c, negb (in_set set c)) (skip set p) = true.
Proof.
  induction p as [|c p IH]; [done|]. simpl. destruct (in_set set c) eqn:E; [done|]. simpl. by rewrite E.
Qed.

Lemma skip_while_app f g p : str_forall f g = true → head_is (λ c, negb (f c)) p = true →
  skip_while f (g ++ p) = p.
Proof.
  intros Hg Hp. induction g as [|c g IH]; simpl in *.
  - change ("" ++ p) with p. destruct p as [|c p]; [done|]. simpl in *. by destruct (f c).
  - apply andb_true_iff in Hg as [Hc Hg]. rewrite ?str_app_cons. simpl. rewrite Hc. auto.
Qed.

Lemma until_cons d c p : d ≠ backslash →
  until d (String c p) =
    if c =c backslash then match p with String _ p' => until d p' | EmptyString => None end
    else if c =c d then Some p else until d p.
Proof.
  intros Hd. destruct p as [|c' p]; simpl; destruct (Ascii.eqb_spec c backslash) as [->|]; try done.
  apply not_eq_sym, Ascii.eqb_neq in Hd. by rewrite Hd.
Qed.

Lemma until_items d l p : d ≠ backslash → items_ok d l = true →
  until d (print_items l ++ String d p) = Some p.
Proof.
  intros Hd. induction l as [|i l IH]; intros Hl; cbn [print_items].
  - change ("" ++ String d p) with (String d p). rewrite until_cons by done.
    apply Ascii.eqb_neq in Hd. by rewrite Hd, Ascii.eqb_refl.
  - apply andb_true_iff in Hl as [Hi Hl]. rewrite str_app_assoc. destruct i as [c|c]; cbn [print_item].
    + rewrite str_app_cons, until_cons by done. change ("" ++ ?q) with q.
      apply andb_true_iff in Hi as [H1%negb_true_iff H2%negb_true_iff]. rewrite H1, H2. auto.
    + rewrite str_app_cons, until_cons by done. rewrite Ascii.eqb_refl.
      change (String c "" ++ ?q) with (String c q). auto.
Qed.

Lemma text_items l p : items_ok newline l = true → at_eol p = true →
  text (print_items l ++ p) = match p with String _ p' => p' | EmptyString => "" end.
Proof.
  intros Hl Hp. induction l as [|i l IH]; simpl in *.
  - change ("" ++ p) with p. destruct p as [|c p]; [done|]. simpl in *.
    apply Ascii.eqb_eq in Hp as ->. done.
  - apply andb_true_iff in Hl as [Hi Hl]. rewrite str_app_assoc. destruct i as [c|c]; simpl in *.
    + change (String c "" ++ ?q) with (String c q). simpl.
      apply andb_true_iff in Hi as [H1%negb_true_iff H2%negb_true_iff]. rewrite H1, H2. auto.
    + change (String backslash (String c "") ++ ?q) with (String backslash (String c q)). simpl. auto.
Qed.

Lemma toEOL_line t p : one_line t = true → at_eol p = true → toEOL (t ++ p) = (t, p).
Proof.
  intros Ht Hp. unfold one_line in Ht. induction t as [|c t IH]; simpl in *.
  - change ("" ++ p) with p. destruct p as [|c p]; [done|]. simpl in *. by rewrite Hp.
  - apply andb_true_iff in Ht as [Hc%negb_true_iff Ht]. rewrite ?str_app_cons. simpl.
    by rewrite Hc, IH.
Qed.

Definition label_ends : string := blanks ++ ";" ++ newline_str ++ "}#".

Lemma label_name_app name p : none_in label_ends name = true → head_is (in_set label_ends) p = true →
  label_name (name ++ p) = p.
Proof.
  unfold none_in. intros Hn Hp. induction name as [|c name IH].
  - change ("" ++ p) with p. destruct p as [|c p]; [done|]. simpl in *. fold label_ends. by rewrite Hp.
  - simpl in Hn. apply andb_true_iff in Hn as [Hc%negb_true_iff Hn]. rewrite str_app_cons. simpl.
    fold label_ends. rewrite Hc. auto.
Qed.

(** A skip of blanks is undone by the skip of separators that comes next. *)
Lemma skip_separators p : skip separators (skip blanks p) = skip separators p.
Proof. apply skip_twice. reflexivity. Qed.

Lemma terminated_label p : terminated p = true → label_name (skip blanks p) = skip blanks p.
Proof.
  unfold terminated. intros H. pose proof (label_name_app "" (skip blanks p) eq_refl) as E.
  apply E. destruct (skip blanks p) as [|c q]; [done|]. simpl.
  apply (in_set_check (";" ++ newline_str ++ "}#") (in_set label_ends)); [reflexivity | done].
Qed.

Lemma label_read gap name p : all_in blanks gap = true → none_in label_ends name = true →
  follows (Labelled ":" gap name) p = true →
  skip separators (label (gap ++ name ++ p)) = skip separators p.
Proof.
  intros Hg Hn Hf. unfold label. rewrite skip_app by done. simpl in Hf.
  destruct (String.eqb_spec name "") as [->|Hne].
  - change ("" ++ p) with p. by rewrite terminated_label, skip_separators.
  - rewrite (skip_stop blanks).
    + rewrite label_name_app; [done | done |]. by destruct p.
    + destruct name as [|c name]; [done|]. simpl. unfold none_in in Hn. simpl in Hn.
      apply andb_true_iff in Hn as [Hc _]. apply negb_true_iff in Hc. apply negb_true_iff.
      destruct (in_set blanks c) eqn:E; [|done].
      rewrite (in_set_check blanks (in_set label_ends) c) in Hc; [done | reflexivity | done].
Qed.

Lemma two_parts_read d p q rest : delimiter_ok d = true → items_ok d p = true → items_ok d q = true →
  two_parts (print_parts d p q ++ rest) = Some rest.
Proof.
  intros Hd Hp Hq. unfold two_parts, print_parts. rewrite str_app_cons.
  assert (d ≠ backslash) as Hb by (intros ->; done).
  apply negb_true_iff in Hd. rewrite Hd.
  rewrite str_app_assoc, str_app_cons, until_items by done. cbn [mbind option_bind].
  rewrite str_app_assoc, str_app_cons. change ("" ++ rest) with rest. by apply until_items.
Qed.

Lemma subst_flags_read flags p s : all_in "egpiImM0123456789" flags = true →
  subst_flags (flags ++ p) s =
    subst_flags p (if str_exists (λ c, c =c "e") flags then runs_input s else s).
Proof.
  unfold all_in. revert s. induction flags as [|c flags IH]; intros s; [done|].
  simpl str_forall. intros [Hc Hf]%andb_true_iff. rewrite str_app_cons. cbn [subst_flags].
  assert ((c =c "w") = false) as -> by (by apply (in_set_check "egpiImM0123456789" (λ c, negb (c =c "w"))) in Hc as ?%negb_true_iff).
  destruct (Ascii.eqb_spec c "e") as [->|Hne].
  - rewrite IH by done. change (str_exists _ (String "e" flags)) with true. cbv iota.
    by destruct (str_exists _ flags).
  - assert (in_set "gpiImM0123456789" c = true) as ->.
    { apply in_set_elem in Hc. apply in_set_elem. simpl in Hc. apply elem_of_cons in Hc as [->|Hc]; done. }
    rewrite IH by done. unfold str_exists. simpl. apply Ascii.eqb_neq in Hne. by rewrite Hne.
Qed.

Lemma subst_flags_stop p s : terminated p = true → subst_flags p s = (p, s).
Proof.
  destruct p as [|c p]; [done|]. intros H. unfold terminated in H. simpl in *.
  assert (∀ f : ascii → bool, str_forall f (blanks ++ ";" ++ newline_str ++ "}#") = true → f c = true) as Hc.
  { intros f Hf. destruct (in_set blanks c) eqn:E.
    - apply (in_set_check blanks f); [|done]. revert Hf. rewrite str_forall_app. by intros [? _]%andb_true_iff.
    - rewrite str_forall_app in Hf. apply andb_true_iff in Hf as [_ Hf]. by apply (in_set_check _ f c Hf). }
  rewrite (proj1 (negb_true_iff _) (Hc (λ c, negb (c =c "w")) eq_refl)).
  rewrite (proj1 (negb_true_iff _) (Hc (λ c, negb (c =c "e")) eq_refl)).
  by rewrite (proj1 (negb_true_iff _) (Hc (λ c, negb (in_set "gpiImM0123456789" c)) eq_refl)).
Qed.

Lemma terminated_ends c p : terminated p = true → ends_well c p = true.
Proof. unfold terminated, ends_well. destruct (skip blanks p); [done|]. by intros ->. Qed.

Lemma at_eol_terminated p : at_eol p = true → terminated p = true.
Proof. destruct p as [|c p]; [done|]. simpl. intros ->%Ascii.eqb_eq. done. Qed.

(** Case analysis on the bytes of a concrete set. *)
Ltac byte_cases H :=
  apply in_set_elem in H; cbn [bytes] in H;
  repeat (apply elem_of_cons in H as [->|H]; [|]); [.. | by apply elem_of_nil in H].

Lemma terminated_skip p : terminated (skip blanks p) = terminated p.
Proof. unfold terminated. by rewrite skip_twice. Qed.

Lemma terminated_head (f : ascii → bool) p : str_forall f (blanks ++ ";" ++ newline_str ++ "}#") = true →
  terminated p = true → head_is f p = true.
Proof.
  intros Hf. destruct p as [|c p]; [done|]. unfold terminated. simpl.
  rewrite str_forall_app in Hf. apply andb_true_iff in Hf as [H1 H2].
  destruct (in_set blanks c) eqn:E; intros H; [by apply (in_set_check blanks) | by apply (in_set_check _ f c H2)].
Qed.

Lemma number_read gap digits p : all_in blanks gap = true → str_forall digit digits = true →
  terminated p = true →
  terminated (skip_while digit (skip blanks (gap ++ digits ++ p))) = true ∧
  skip separators (skip_while digit (skip blanks (gap ++ digits ++ p))) = skip separators p.
Proof.
  intros Hg Hd Ht. rewrite skip_app by done.
  assert (∀ q, terminated q = true → head_is (λ c, negb (digit c)) q = true) as Hh
    by (intros q; by apply terminated_head).
  destruct digits as [|d digits].
  - change ("" ++ p) with p. rewrite <- (terminated_skip p) in Ht.
    pose proof (skip_while_app digit "" (skip blanks p) eq_refl (Hh _ Ht)) as E.
    change ("" ++ skip blanks p) with (skip blanks p) in E. rewrite E. split; [done | apply skip_separators].
  - rewrite (skip_stop blanks); [rewrite skip_while_app by auto; done|].
    simpl in *. apply andb_true_iff in Hd as [Hd _].
    destruct (in_set blanks d) eqn:E; [|done]. by byte_cases E.
Qed.

(** Reading one command back: what it does, and where the next one starts. *)
Lemma command_read b p s : body_ok b = true → follows b p = true →
  ∃ p', command (body_letter b) (print_rest b ++ p) s = Some (p', body_effect b s) ∧
    ends_well (body_letter b) p' = true ∧ skip separators p' = skip separators p.
Proof.
  intros Hb Hf. destruct b as [|c|c gap digits|c gap name|c txt|c name|cmd|c name|d re rep flags file|d q1 q2];
    simpl in Hb; rewrite ?andb_true_iff in Hb; cbn [body_letter print_rest body_effect].
  - exists p. split; [done|]. split; [|done]. unfold ends_well.
    destruct (skip blanks p); [done|]. by rewrite orb_true_r.
  - exists p. split; [by byte_cases Hb|]. split; [by apply terminated_ends | done].
  - destruct Hb as [[Hc Hg] Hd]. rewrite str_app_assoc.
    destruct (number_read gap digits p Hg Hd Hf) as [Ht Hs].
    exists (skip_while digit (skip blanks (gap ++ digits ++ p))).
    split; [|split; [apply terminated_ends, Ht | exact Hs]]. by byte_cases Hc.
  - destruct Hb as [[Hc Hg] Hn]. rewrite str_app_assoc. exists (label (gap ++ name ++ p)).
    split; [by byte_cases Hc|]. split; [|apply (label_read gap name p Hg Hn Hf)].
    unfold ends_well. destruct (skip blanks _); [done|]. by rewrite Hc, orb_true_r.
  - destruct Hb as [Hc Ht]. exists (match p with String _ p' => p' | EmptyString => "" end).
    assert (at_eol p = true) as Hp by (destruct p as [|e p]; [done|]; simpl in *; by destruct (e =c newline)).
    split; [|destruct p as [|e p]; [done|]; simpl in Hf; apply andb_true_iff in Hf as [->%Ascii.eqb_eq Hf]].
    + byte_cases Hc; cbn; by rewrite text_items.
    + split; [by apply terminated_ends | done].
  - destruct Hb as [Hc Hn]. exists p. split; [|split; [by apply terminated_ends, at_eol_terminated | done]].
    byte_cases Hc; cbn; by rewrite toEOL_line.
  - exists p. split; [|split; [by apply terminated_ends, at_eol_terminated | done]].
    cbn. rewrite toEOL_line by done. by destruct (String.eqb (TrimSpace cmd) "").
  - destruct Hb as [Hc Hn]. exists p. split; [|split; [by apply terminated_ends, at_eol_terminated | done]].
    byte_cases Hc; cbn; by rewrite toEOL_line.
  - destruct Hb as [[[[Hd Hre] Hrep] Hfl] Hfile]. exists p.
    split; [|split; [apply terminated_ends; destruct file; auto using at_eol_terminated | done]].
    assert (∀ q, command "s" q s = (q ← two_parts q; Some (subst_flags q s))) as -> by done.
    rewrite str_app_assoc, two_parts_read by done. cbn [mbind option_bind].
    rewrite str_app_assoc, subst_flags_read by done. destruct file as [f|].
    + change (("w" ++ f) ++ p) with (String "w" (f ++ p)). cbn [subst_flags].
      rewrite Ascii.eqb_refl. by rewrite toEOL_line.
    + change ("" ++ p) with p. by rewrite subst_flags_stop.
  - destruct Hb as [[Hd H1] H2]. exists p. split; [|split; [by apply terminated_ends | done]].
    assert (∀ q, command "y" q s = (q ← two_parts q; Some (q, s))) as -> by done. rewrite two_parts_read by done. done.
Qed.

(** ** Addresses *)

Definition letters : string := "{=dDgGhHnNpPxzFlLqQ:btTvaicrRewWsy".

Lemma body_letter_in b : body_ok b = true → in_set letters (body_letter b) = true.
Proof.
  intros Hb. destruct b; simpl in Hb; rewrite ?andb_true_iff in Hb; try done;
    repeat match goal with H : _ ∧ _ |- _ => destruct H end;
    match goal with H : in_set ?s ?c = true |- _ =>
      by apply (in_set_check s (in_set letters)) in H end.
Qed.

(** A command letter, after blanks and bangs. *)
Definition at_command (q : string) : Prop :=
  ∃ c rest, skip_bangs q = String c rest ∧ in_set letters c = true.

Lemma at_command_bang bang c rest : all_in (blanks ++ "!") bang = true → in_set letters c = true →
  skip_bangs (bang ++ String c rest) = String c rest ∧ at_command (bang ++ String c rest).
Proof.
  intros Hb Hc. unfold at_command, skip_bangs. rewrite skip_app by done.
  assert (skip (blanks ++ "!") (String c rest) = String c rest) as ->.
  { apply skip_stop. simpl. apply (in_set_check letters (λ c, negb (in_set (blanks ++ "!") c))); done. }
  split; [done | by exists c, rest].
Qed.

Lemma at_command_head (f : ascii → bool) q :
  str_forall f (blanks ++ "!") = true → str_forall f letters = true → at_command q → head_is f q = true.
Proof.
  intros H1 H2 (c & rest & E & Hc). destruct q as [|d q]; [done|]. unfold skip_bangs in E. simpl in E |- *.
  destruct (in_set (blanks ++ "!") d) eqn:Ed; [by apply (in_set_check _ f d H1)|].
  injection E as -> ->. by apply (in_set_check letters f).
Qed.

Lemma at_command_skip q : at_command q → at_command (skip blanks q) ∧ skip_bangs (skip blanks q) = skip_bangs q.
Proof.
  unfold at_command, skip_bangs. rewrite skip_twice by done. auto.
Qed.

Lemma addr1_none q : head_is (λ c, negb (digit c || (c =c "$") || (c =c "/") || (c =c backslash))) q = true →
  addr1 q = Some q.
Proof.
  destruct q as [|c q]; [done|]. unfold addr1, head_is.
  by destruct (digit c), (c =c "$"), (c =c "/"), (c =c backslash).
Qed.

Definition addr_stop (c : ascii) : bool :=
  negb (digit c || (c =c "~") || (c =c "I") || (c =c "M")).

Lemma head_is_impl (f g : ascii → bool) p : (∀ c, f c = true → g c = true) → head_is f p = true → head_is g p = true.
Proof. intros H. destruct p as [|c p]; [done | apply H]. Qed.

Lemma addr1_read a q : addr_ok a = true → head_is addr_stop q = true → addr1 (print_addr a ++ q) = Some q.
Proof.
  intros Ha Hq.
  assert (∀ flags, all_in "IM" flags = true →
    skip_while (λ c, (c =c "I") || (c =c "M")) (flags ++ q) = q) as Hflags.
  { intros flags Hf. apply skip_while_app.
    - apply str_forall_spec. intros c Hc. apply (in_set_check "IM" (λ c, (c =c "I") || (c =c "M")) c eq_refl).
      by apply (proj1 (str_forall_spec _ _) Hf).
    - apply (head_is_impl addr_stop); [|done]. intros c. unfold addr_stop.
      by destruct (digit c), (c =c "~"), (c =c "I"), (c =c "M"). }
  destruct a as [d more| |[d|] re flags]; simpl in Ha; cbn [print_addr].
  - apply andb_true_iff in Ha as [Hd Hm]. rewrite str_app_cons. unfold addr1. rewrite Hd. f_equal.
    rewrite <- str_app_cons. apply skip_while_app.
    + simpl. by rewrite Hd.
    + apply (head_is_impl addr_stop); [|done]. intros c. unfold addr_stop.
      by destruct (digit c), (c =c "~"), (c =c "I"), (c =c "M").
  - done.
  - rewrite !andb_true_iff in Ha. destruct Ha as [[Hd Hre] Hf].
    assert (d ≠ backslash) as Hb by (intros ->; done).
    rewrite !str_app_cons, str_app_assoc, str_app_cons. unfold addr1. simpl.
    rewrite until_items by done. simpl. by rewrite Hflags.
  - apply andb_true_iff in Ha as [Hre Hf].
    rewrite str_app_assoc. change ("/" ++ ?x) with (String "/" x) at 1.
    rewrite str_app_assoc. unfold addr1. simpl.
    change ("/" ++ flags) with (String "/" flags). rewrite str_app_cons, until_items by done. simpl.
    by rewrite Hflags.
Qed.

Lemma print_addr_head a q (f : ascii → bool) : addr_ok a = true →
  str_forall f "0123456789$/\" = true → ∃ c rest, print_addr a ++ q = String c rest ∧ f c = true.
Proof.
  intros Ha Hf. destruct a as [d more| |[d|] re flags]; cbn [print_addr]; simpl in Ha.
  - apply andb_true_iff in Ha as [Hd _]. exists d, (more ++ q). split; [done|].
    apply (in_set_check "0123456789$/\" f); [done|].
    revert Hd. clear. destruct d as [[] [] [] [] [] [] [] []]; done.
  - exists "$"%char, q. split; [done|]. by apply (in_set_check "0123456789$/\" f).
  - eexists backslash, _. split; [done|]. by apply (in_set_check "0123456789$/\" f).
  - eexists "/"%char, _. split; [done|]. by apply (in_set_check "0123456789$/\" f).
Qed.

Lemma blanks_head (f : ascii → bool) g c q : all_in blanks g = true → str_forall f blanks = true → f c = true →
  head_is f (g ++ String c q) = true.
Proof.
  intros Hg Hf Hc. destruct g as [|d g]; [done|]. simpl in Hg |- *.
  apply andb_true_iff in Hg as [Hd _]. by apply (in_set_check blanks f).
Qed.

(** An address or a range read back; the blanks after it may be gone. *)
Lemma address_read r q : range_ok r = true → at_command q →
  ∃ q', address (print_range r ++ q) = Some q' ∧ skip_bangs q' = skip_bangs q.
Proof.
  intros Hr Hq. pose proof (at_command_skip _ Hq) as [Hq' Es].
  assert (∀ p, at_command p → match p with
      | String "," p => addr1 match skip blanks p with
            | String c p' => if (c =c "+") || (c =c "~") then p' else skip blanks p
            | EmptyString => skip blanks p end
      | _ => Some p end = Some p) as Hnocomma.
  { intros p Hp. pose proof (at_command_head (λ c, negb (c =c ",")) p eq_refl eq_refl Hp) as Hh.
    destruct p as [|c p]; [done|]. simpl in Hh. destruct c as [[] [] [] [] [] [] [] []]; done. }
  assert (head_is addr_stop q = true) as Hstop by (by apply at_command_head).
  destruct r as [[a second]|]; simpl in Hr.
  2: { exists (skip blanks q). split; [|done]. change (print_range None ++ q) with q.
       unfold address. rewrite addr1_none by (by apply at_command_head). apply (Hnocomma _ Hq'). }
  apply andb_true_iff in Hr as [Ha Hr].
  destruct second as [[[[g1 g2] rel] a2]|]; cbn [print_range ra_first ra_second].
  - rewrite !andb_true_iff in Hr. destruct Hr as [[[Hg1 Hg2] Ha2] Hrel]. exists q. split; [|done].
    rewrite !str_app_assoc. unfold address.
    rewrite addr1_read by (done || by apply blanks_head). cbn [mbind option_bind].
    rewrite skip_app by done. change (skip blanks ("," ++ ?x)) with (String "," x).
    cbv beta iota zeta. rewrite skip_app by done.
    destruct rel as [c|].
    + assert (skip blanks (String c "" ++ print_addr a2 ++ q) = String c (print_addr a2 ++ q)) as ->.
      { apply skip_stop. simpl. apply orb_true_iff in Hrel as [->%Ascii.eqb_eq | ->%Ascii.eqb_eq]; done. }
      rewrite Hrel. by apply addr1_read.
    + change ("" ++ ?x) with x.
      destruct (print_addr_head a2 q (λ c, negb (in_set blanks c) && negb ((c =c "+") || (c =c "~"))) Ha2 eq_refl)
        as (c & rest & E & [Hc1 Hc2]%andb_true_iff).
      rewrite skip_stop by (rewrite E; done). rewrite E.
      apply negb_true_iff in Hc2. rewrite Hc2, <- E. by apply addr1_read.
  - exists (skip blanks q). split; [|done]. rewrite str_app_assoc. change ("" ++ q) with q.
    unfold address. rewrite addr1_read by done. apply (Hnocomma _ Hq').
Qed.

(** ** Whole scripts *)

Lemma parse_loop_skip fuel p p' s : skip separators p = skip separators p' →
  parse_loop (Datatypes.S fuel) p s = parse_loop (Datatypes.S fuel) p' s.
Proof. intros E. cbn [parse_loop]. fold separators. by rewrite E. Qed.

(** A command of a script is met at its address, its bang or its letter. *)
Lemma command_start sep r q : all_in separators sep = true → range_ok r = true → at_command q →
  ∃ c rest q', skip separators (sep ++ print_range r ++ q) = String c rest ∧
    (c =c "}") = false ∧ (c =c "#") = false ∧
    String c rest = print_range r ++ q' ∧ at_command q' ∧ skip_bangs q' = skip_bangs q.
Proof.
  intros Hs Hr Hq. rewrite skip_app by done. destruct r as [[a second]|].
  - simpl in Hr. apply andb_true_iff in Hr as [Ha _]. cbn [print_range ra_first ra_second].
    rewrite str_app_assoc.
    destruct (print_addr_head a (match second with
        | None => ""
        | Some (g1, g2, rel, a2) =>
            g1 ++ "," ++ g2 ++ match rel with Some c => String c "" | None => "" end ++ print_addr a2
        end ++ q) (λ c, negb (in_set separators c) && (negb (c =c "}") && negb (c =c "#"))) Ha eq_refl)
      as (c & rest & E & [Hc [H1%negb_true_iff H2%negb_true_iff]%andb_true_iff]%andb_true_iff).
    exists c, rest, q. rewrite E. split; [by apply skip_stop|]. do 2 (split; [done|]).
    split; [|done]. rewrite str_app_assoc. by rewrite E.
  - change (print_range None ++ q) with q. destruct (at_command_skip q Hq) as [Hq' E].
    assert (head_is (λ c, negb (in_set separators c)) (skip blanks q) = true) as Hh.
    { pose proof (skip_head blanks q) as H1.
      pose proof (at_command_head (λ c, in_set blanks c || negb (in_set separators c)) _ eq_refl eq_refl Hq') as H2.
      destruct (skip blanks q) as [|c x]; [done|]. simpl in *. by destruct (in_set blanks c). }
    rewrite <- skip_separators, skip_stop by done.
    pose proof (at_command_head (λ c, negb (c =c "}")) _ eq_refl eq_refl Hq') as H1.
    pose proof (at_command_head (λ c, negb (c =c "#")) _ eq_refl eq_refl Hq') as H2.
    destruct (skip blanks q) as [|c rest] eqn:Eq.
    { destruct Hq' as (? & ? & Hx & _). discriminate Hx. }
    exists c, rest, (String c rest). simpl in H1, H2. apply negb_true_iff in H1, H2. done.
Qed.

Lemma parse_command fuel sep r bang b p s :
  all_in separators sep = true → range_ok r = true → all_in (blanks ++ "!") bang = true →
  body_ok b = true → follows b p = true →
  parse_loop (Datatypes.S (Datatypes.S fuel)) (print_element (Command sep r bang b) ++ p) s =
    parse_loop (Datatypes.S fuel) p (body_effect b s).
Proof.
  intros Hs Hr Hbang Hb Hf. cbn [print_element]. rewrite !str_app_assoc, str_app_cons.
  destruct (at_command_bang bang (body_letter b) (print_rest b ++ p) Hbang (body_letter_in b Hb)) as [Eb Hq].
  destruct (command_start sep r _ Hs Hr Hq) as (c & rest & q' & E & E1 & E2 & Er & Hq' & Eq).
  cbn [parse_loop]. fold separators. rewrite E, E1, E2. rewrite Er.
  destruct (address_read r q' Hr Hq') as (q'' & -> & Eq'').
  rewrite Eq'', Eq, Eb.
  destruct (command_read b p s Hb Hf) as (p' & -> & -> & Ep). fold (parse_loop (Datatypes.S fuel)).
  apply (parse_loop_skip fuel (skip blanks p') p). by rewrite skip_separators.
Qed.

Lemma parse_script l fuel s : script_ok l = true → (length l < fuel)%nat →
  parse_loop fuel (print_script l) s = Some (fold_left (λ s e, element_effect e s) l s, None).
Proof.
  revert fuel s. induction l as [|e l IH]; intros fuel s Hl Hf; destruct fuel as [|fuel]; simpl in Hf; try lia.
  { done. }
  cbn [print_script fold_left]. destruct e as [sep|sep txt|sep r bang b]; simpl in Hl.
  - apply andb_true_iff in Hl as [Hs Hl]. cbn [print_element parse_loop]. fold separators.
    rewrite str_app_assoc, skip_app by done.
    change (skip separators ("}" ++ print_script l)) with (String "}" (print_script l)).
    cbv beta iota zeta. rewrite Ascii.eqb_refl. apply IH; [done | lia].
  - rewrite !andb_true_iff in Hl. destruct Hl as [[[Hs Ht] He] Hl].
    cbn [print_element parse_loop]. fold separators.
    rewrite !str_app_assoc, skip_app by done.
    change (skip separators ("#" ++ txt ++ print_script l)) with (String "#" (txt ++ print_script l)).
    cbv beta iota zeta. change ("#"%char =c "}") with false. rewrite Ascii.eqb_refl. cbv iota.
    assert (toEOL (String "#" (txt ++ print_script l)) = (String "#" txt, print_script l)) as ->
      by (simpl; by rewrite toEOL_line).
    apply IH; [done | lia].
  - rewrite !andb_true_iff in Hl. destruct Hl as [[[[[Hs Hr] Hbang] Hb] Hfo] Hl].
    destruct fuel as [|fuel]; [lia|]. rewrite parse_command by done. apply IH; [done | lia].
Qed.

Lemma print_element_length e : (1 <= String.length (print_element e))%nat.
Proof.
  destruct e as [sep|sep txt|sep r bang b]; cbn [print_element]; rewrite ?str_length_app; simpl; lia.
Qed.

Lemma print_script_length l : (length l <= String.length (print_script l))%nat.
Proof.
  induction l as [|e l IH]; [done|]. simpl. rewrite str_length_app.
  pose proof (print_element_length e). lia.
Qed.

(** An element that neither runs a command nor writes a file. *)
Definition harmless (e : element) : bool :=
  match e with
  | Command _ _ _ (Execute _) | Command _ _ _ (WriteFile _ _) => false
  | Command _ _ _ (Substitute _ _ _ flags file) =>
      negb (str_exists (λ c, c =c "e") flags) && negb (opt_some file)
  | _ => true
  end.

Lemma Inert_add_run t s : Inert (add_run t s) = false.
Proof. unfold Inert, add_run. simpl. rewrite length_app. simpl. by rewrite Nat.add_comm. Qed.
Lemma Inert_runs_input s : Inert (runs_input s) = false.
Proof. unfold Inert, runs_input. simpl. by rewrite andb_false_r. Qed.
Lemma Inert_add_file f s : Inert (add_file f s) = false.
Proof. unfold Inert, add_file. simpl. by rewrite andb_false_r. Qed.

Lemma Inert_effect e s : Inert (element_effect e s) = harmless e && Inert s.
Proof.
  destruct e as [| |sep r bang []]; try done; simpl.
  - destruct (String.eqb _ ""); [apply Inert_runs_input | apply Inert_add_run].
  - apply Inert_add_file.
  - destruct file as [f|]; simpl; [by rewrite andb_false_r, Inert_add_file|]. rewrite andb_true_r.
    destruct (str_exists _ flags); [apply Inert_runs_input | done].
Qed.

Lemma Inert_script l : Inert (script_effect l) = forallb harmless l.
Proof.
  unfold script_effect. rewrite <- (andb_true_r (forallb harmless l)).
  change true with (Inert no_effect). generalize no_effect.
  induction l as [|e l IH]; intros s; [done|]. simpl. rewrite IH, Inert_effect.
  by destruct (harmless e), (forallb harmless l), (Inert s).
Qed.

(** A script written from structured commands is read back to exactly what those
    commands do: every command run and every file written is found, whatever
    text, expression, delimiter, address or comment stands around them, and
    nothing else is; the script is inert just when it has no such command. *)
Theorem Parse_roundtrip (l : list element) : script_ok l = true →
  Parse (print_script l) = Some (script_effect l, None) ∧
  Inert (script_effect l) = forallb harmless l.
Proof.
  intros Hl. split; [|apply Inert_script].
  apply parse_script; [done|]. pose proof (print_script_length l). lia.
Qed.

(** ** The reader always ends *)

Lemma skip_length set p : (String.length (skip set p) <= String.length p)%nat.
Proof. induction p as [|c p IH]; simpl; [lia|]. destruct (in_set set c); simpl; lia. Qed.

Lemma skip_while_length f p : (String.length (skip_while f p) <= String.length p)%nat.
Proof. induction p as [|c p IH]; simpl; [lia|]. destruct (f c); simpl; lia. Qed.

Lemma toEOL_length p : (String.length (snd (toEOL p)) <= String.length p)%nat.
Proof.
  induction p as [|c p IH]; simpl; [lia|]. destruct (c =c newline); simpl; [lia|].
  destruct (toEOL p). simpl in *. lia.
Qed.

Lemma label_length p : (String.length (label p) <= String.length p)%nat.
Proof.
  unfold label. pose proof (skip_length blanks p). revert H. generalize (skip blanks p). intros q.
  assert (String.length (label_name q) <= String.length q)%nat; [|lia].
  induction q as [|c q IH]; simpl; [lia|]. destruct (in_set _ c); simpl; lia.
Qed.

(** Induction on strings two bytes at a time. *)
Lemma string_two_ind (P : string → Prop) : P "" → (∀ c, P (String c "")) →
  (∀ c d p, P p → P (String d p) → P (String c (String d p))) → ∀ p, P p.
Proof.
  intros H0 H1 H2 p. assert (P p ∧ ∀ c, P (String c p)) as [H _]; [|done].
  induction p as [|d p [IH1 IH2]]; [auto|]. split; [apply IH2|]. intros c. apply H2; auto.
Qed.

Lemma text_length p : (String.length (text p) <= String.length p)%nat.
Proof.
  induction p as [|c|c d p IH1 IH2] using string_two_ind.
  - simpl. lia.
  - simpl. destruct (c =c backslash), (c =c newline); simpl; lia.
  - change (text (String c (String d p))) with
      (if c =c backslash then text p else if c =c newline then String d p else text (String d p)).
    simpl String.length in *. destruct (c =c backslash); [lia|]. destruct (c =c newline); simpl String.length; lia.
Qed.

Lemma until_length d p q : until d p = Some q → (String.length q < String.length p)%nat.
Proof.
  revert q. induction p as [|c|c e p IH1 IH2] using string_two_ind; intros q.
  - done.
  - simpl. destruct (c =c d); [|done]. intros [= <-]. simpl. lia.
  - change (until d (String c (String e p))) with
      (if c =c backslash then until d p else if c =c d then Some (String e p) else until d (String e p)).
    simpl String.length in *. destruct (c =c backslash); [intros H%IH1; lia|].
    destruct (c =c d); [intros [= <-]; simpl; lia | intros H%IH2; lia].
Qed.

Lemma addr1_length p q : addr1 p = Some q → (String.length q <= String.length p)%nat.
Proof.
  unfold addr1. destruct p as [|c p]; [by intros [= <-]|].
  destruct (digit c) eqn:Ed;
    [intros [= <-]; exact (skip_while_length (λ c, digit c || (c =c "~")) (String c p))|].
  destruct (c =c "$"); [intros [= <-]; simpl; lia|].
  destruct ((c =c "/") || (c =c backslash)); [|by intros [= <-]].
  assert (∀ d r q, (String.length r <= String.length p)%nat →
    (rest ← until d r; Some (skip_while (λ c, (c =c "I") || (c =c "M")) rest)) = Some q →
    (String.length q <= String.length (String c p))%nat) as Hu.
  { intros d r q' Hr. destruct (until d r) as [rest|] eqn:E; [|done]. cbn [mbind option_bind]. intros [= <-].
    apply until_length in E. pose proof (skip_while_length (λ c, (c =c "I") || (c =c "M")) rest).
    simpl String.length. lia. }
  destruct (c =c backslash); cbn [mbind option_bind].
  - destruct p as [|d p]; [done|]. cbn [mbind option_bind fst snd]. apply Hu. simpl. lia.
  - cbn [fst snd]. by apply Hu.
Qed.

Lemma address_length p q : address p = Some q → (String.length q <= String.length p)%nat.
Proof.
  unfold address. destruct (addr1 p) as [p1|] eqn:E1; [|done]. cbn [mbind option_bind].
  apply addr1_length in E1. pose proof (skip_length blanks p1) as Hs.
  destruct (skip blanks p1) as [|c p2]; [intros [= <-]; lia|].
  intros H. assert (Some (String c p2) = Some q ∨ addr1 match skip blanks p2 with
            | String c p' => if (c =c "+") || (c =c "~") then p' else skip blanks p2
            | EmptyString => skip blanks p2 end = Some q) as [[= <-] | H'].
  { destruct c as [[] [] [] [] [] [] [] []]; auto. }
  - lia.
  - apply addr1_length in H'. pose proof (skip_length blanks p2). simpl String.length in *.
    destruct (skip blanks p2) as [|e p3]; [lia|]. destruct ((e =c "+") || (e =c "~")); simpl in *; lia.
Qed.

Lemma subst_flags_length p s : (String.length (fst (subst_flags p s)) <= String.length p)%nat.
Proof.
  revert s. induction p as [|c p IH]; intros s; simpl; [lia|].
  destruct (c =c "w").
  { pose proof (toEOL_length p). destruct (toEOL p). simpl in *. lia. }
  destruct (c =c "e"); [specialize (IH (runs_input s)); lia|].
  destruct (in_set _ c); [specialize (IH s); lia | simpl; lia].
Qed.

Lemma two_parts_length p q : two_parts p = Some q → (String.length q <= String.length p)%nat.
Proof.
  unfold two_parts. destruct p as [|d p]; [done|]. destruct (in_set _ d); [done|].
  destruct (until d p) as [p1|] eqn:E; [|done]. cbn [mbind option_bind]. intros H.
  apply until_length in E, H. simpl. lia.
Qed.

Lemma command_length c p s q s' : command c p s = Some (q, s') → (String.length q <= String.length p)%nat.
Proof.
  unfold command. pose proof (toEOL_length p). destruct (toEOL p) as [t rest]. cbn [snd] in *.
  repeat match goal with
  | |- (if ?b then _ else _) = _ → _ => destruct b
  | |- Some _ = Some _ → _ => intros [= <- _]
  end; try lia; try done.
  - pose proof (skip_while_length digit (skip blanks p)). pose proof (skip_length blanks p). lia.
  - apply label_length.
  - apply text_length.
  - destruct (two_parts p) as [p1|] eqn:E; [|done]. cbn [mbind option_bind]. intros [= E'].
    apply two_parts_length in E. pose proof (subst_flags_length p1 s). rewrite E' in *. simpl in *. lia.
  - destruct (two_parts p) as [p1|] eqn:E; [|done]. cbn [mbind option_bind]. intros [= <- _].
    by apply two_parts_length in E.
Qed.

Lemma parse_loop_ends fuel p s : (String.length p < fuel)%nat → is_Some (parse_loop fuel p s).
Proof.
  revert p s. induction fuel as [|fuel IH]; intros p s Hf; [lia|]. cbn [parse_loop].
  pose proof (skip_length (blanks ++ newline_str ++ ";") p) as Hs.
  destruct (skip _ p) as [|c0 p0]; [by eexists|]. simpl String.length in Hs.
  destruct (c0 =c "}"); [apply IH; lia|].
  destruct (c0 =c "#") eqn:Ec.
  { apply IH. apply Ascii.eqb_eq in Ec as ->.
    assert (snd (toEOL (String "#" p0)) = snd (toEOL p0)) as -> by (simpl; by destruct (toEOL p0)).
    pose proof (toEOL_length p0). lia. }
  destruct (address (String c0 p0)) as [p1|] eqn:E1; [|by eexists].
  apply address_length in E1. simpl String.length in E1.
  pose proof (skip_length (blanks ++ "!") p1) as Hb. unfold skip_bangs.
  destruct (skip (blanks ++ "!") p1) as [|c p2]; [by eexists|]. simpl String.length in Hb.
  destruct (command c p2 s) as [[p3 s3]|] eqn:E2; [|by eexists].
  apply command_length in E2. pose proof (skip_length blanks p3).
  destruct (ends_well c p3); [apply IH; lia | by eexists].
Qed.

(** On any script at all the reader ends, with an answer or with the error. *)
Theorem Parse_ends (src : string) : ∃ s e, Parse src = Some (s, e).
Proof.
  destruct (parse_loop_ends (Datatypes.S (String.length src)) src no_effect) as [[s e] H]; [lia|].
  by exists s, e.
Qed.

(** ** Concrete scripts *)

(** [/a\/b/,$!{s|x|e y|gw out;b end e x] and so on: an [e] that is text, and two
    that are commands. *)
Definition sample_script : list element :=
  [ Command "" (Some (MkRange (ARegex None [Plain "a"; Escaped "/"; Plain "b"] "I")
       (Some ("", " ", Some "+"%char, ALine "2" "0")))) " ! " Open;
    Command "" None "" (Substitute "|" [Plain "x"; Escaped "|"] [Plain "e"; Plain " "] "g2" (Some " out"));
    Command newline_str (Some (MkRange ALast None)) "" (Labelled "b" " " "end");
    Command " " None "" (Execute " rm -rf x");
    Comment newline_str " e date";
    Close newline_str;
    Command ";" None "" (Translate "/" [Plain "a"] [Escaped "/"]);
    Command ";" None "" (Substitute "," [] [] "e" None) ].

Lemma Parse_roundtrip_witness :
  Parse (print_script sample_script) = Some (MkScript ["rm -rf x"] true true ["out"], None).
Proof.
  destruct (Parse_roundtrip sample_script) as [E _]; [vm_compute; reflexivity|].
  rewrite E. vm_compute. reflexivity.
Defined.

(** The text of [i] takes the newline that ends it, so a command on the next line
    is where a terminator is wanted: the script is refused, though GNU sed reads
    it as two commands that only edit text. *)
Example text_then_command_refused :
  Parse ("1i hello" ++ newline_str ++ "2d") = Some (no_effect, Some errSyntax).
Proof. reflexivity. Qed.
