(* ===== verification/GoNet.v ===== *)
(** More of Go's standard library: the string functions the egress code uses,
    [net.SplitHostPort], and addresses and prefixes of [net/netip] as numbers.
    The text forms of addresses stay parameters of the files that use them. *)

From Stdlib Require Import ZArith NArith Ascii String Lia.
From stdpp Require Import base tactics list option strings.
From S2P Require Import Prelude.
From S2P Require Import GoStd.

#[local] Open Scope string_scope.
#[local] Open Scope Z_scope.

(** ** Package strings *)

Definition TrimSuffix (s suf : string) : string :=
  if HasSuffix s suf then str_take (String.length s - String.length suf) s else s.

Definition CutPrefix (s p : string) : option string :=
  if HasPrefix s p then Some (str_drop (String.length p) s) else None.

Definition CutSuffix (s suf : string) : option string :=
  if HasSuffix s suf then Some (str_take (String.length s - String.length suf) s) else None.

Definition byte_in (set : string) (c : ascii) : bool := bool_decide (c ∈ bytes set).

Fixpoint trim_left_set (set s : string) : string :=
  match s with
  | String c s' => if byte_in set c then trim_left_set set s' else s
  | EmptyString => s
  end.

(** [strings.Trim] for a set of ASCII bytes. *)
Definition Trim (s set : string) : string :=
  str_rev (trim_left_set set (str_rev (trim_left_set set s))).

(** [strings.ToLower] as far as comparing with ASCII can tell: the ASCII
    letters, and the two runes outside ASCII whose lower case is an ASCII
    letter, [U+0130] and [U+212A]. Other runes map outside ASCII. *)
Definition lower_byte (c : ascii) : ascii :=
  if in_range "A" "Z" c then ascii_of_N (bv c + 32) else c.
Fixpoint ToLower (s : string) : string :=
  match s with
  | EmptyString => EmptyString
  | String a r =>
      match r with
      | String b r' =>
          if (bv a =? 196)%N && (bv b =? 176)%N then String "i" (ToLower r')
          else
            match r' with
            | String c r'' =>
                if (bv a =? 226)%N && (bv b =? 132)%N && (bv c =? 170)%N then String "k" (ToLower r'')
                else String (lower_byte a) (ToLower r)
            | EmptyString => String (lower_byte a) (ToLower r)
            end
      | EmptyString => String (lower_byte a) EmptyString
      end
  end.

(** [strings.EqualFold] against an ASCII text: the ASCII letters, and the two
    runes outside ASCII that fold to one, [U+017F] and [U+212A]. *)
Fixpoint fold_ascii (s : string) : string :=
  match s with
  | EmptyString => EmptyString
  | String a r =>
      match r with
      | String b r' =>
          if (bv a =? 197)%N && (bv b =? 191)%N then String "s" (fold_ascii r')
          else
            match r' with
            | String c r'' =>
                if (bv a =? 226)%N && (bv b =? 132)%N && (bv c =? 170)%N then String "k" (fold_ascii r'')
                else String (lower_byte a) (fold_ascii r)
            | EmptyString => String (lower_byte a) (fold_ascii r)
            end
      | EmptyString => String (lower_byte a) EmptyString
      end
  end.
Definition EqualFold (s t : string) : bool := String.eqb (fold_ascii s) (fold_ascii t).

Fixpoint last_index (s : string) (c : ascii) : option nat :=
  match s with
  | EmptyString => None
  | String d s =>
      match last_index s c with
      | Some i => Some (Datatypes.S i)
      | None => if c =c d then Some O else None
      end
  end.

(** [net.SplitHostPort]; [None] is any of its errors. *)
Definition SplitHostPort (a : string) : option (string * string) :=
  i ← last_index a ":";
  let rest :=
    match a with
    | String "[" _ =>
        match IndexByte a "]" with
        | Some close =>
            if (close + 1 =? i)%nat then Some (str_take (close - 1) (str_drop 1 a), 1%nat, (close + 1)%nat)
            else None
        | None => None
        end
    | _ =>
        let host := str_take i a in
        match IndexByte host ":" with Some _ => None | None => Some (host, O, O) end
    end in
  '(host, j, k) ← rest;
  if opt_some (IndexByte (str_drop j a) "[") || opt_some (IndexByte (str_drop k a) "]") then None
  else Some (host, str_drop (i + 1) a).

(** ** Package net/netip *)

(** An address: none, IPv4 as 32 bits, or IPv6 as 128 bits and its zone. *)
Inductive Addr : Type :=
  | NoAddr
  | V4 (n : Z)
  | V6 (n : Z) (zone : string).

#[export] Instance Addr_eq_dec : EqDecision Addr.
Proof. solve_decision. Defined.

Definition addr_wf (a : Addr) : Prop :=
  match a with
  | NoAddr => True
  | V4 n => 0 <= n < 2 ^ 32
  | V6 n _ => 0 <= n < 2 ^ 128
  end.

Definition IsValid (a : Addr) : bool := match a with NoAddr => false | _ => true end.
Definition Zone (a : Addr) : string := match a with V6 _ z => z | _ => "" end.

(** [::ffff:0:0/96]: the 32 bits above an embedded IPv4 address. *)
Definition is_4in6 (n : Z) : bool := Z.shiftr n 32 =? 0xffff.
Definition Is4In6 (a : Addr) : bool := match a with V6 n _ => is_4in6 n | _ => false end.
Definition Unmap (a : Addr) : Addr :=
  match a with V6 n _ => if is_4in6 n then V4 (Z.land n 0xffffffff) else a | _ => a end.
Definition BitLen (a : Addr) : Z := match a with NoAddr => 0 | V4 _ => 32 | V6 _ _ => 128 end.

(** [ip.v4(i)] and [ip.v6u16(i)]. *)
Definition v4_byte (n i : Z) : Z := Z.land (Z.shiftr n (8 * (3 - i))) 0xff.
Definition v6_u16 (n i : Z) : Z := Z.land (Z.shiftr n (16 * (7 - i))) 0xffff.

(** The predicates, on an address that is not IPv4 mapped into IPv6. *)
Definition IsLoopback (a : Addr) : bool :=
  match a with V4 n => v4_byte n 0 =? 127 | V6 n _ => n =? 1 | NoAddr => false end.
Definition IsPrivate (a : Addr) : bool :=
  match a with
  | V4 n => (v4_byte n 0 =? 10) || ((v4_byte n 0 =? 172) && (Z.land (v4_byte n 1) 0xf0 =? 16)) ||
            ((v4_byte n 0 =? 192) && (v4_byte n 1 =? 168))
  | V6 n _ => Z.land (v6_u16 n 0) 0xfe00 =? 0xfc00
  | NoAddr => false
  end.
Definition IsLinkLocalUnicast (a : Addr) : bool :=
  match a with
  | V4 n => (v4_byte n 0 =? 169) && (v4_byte n 1 =? 254)
  | V6 n _ => Z.land (v6_u16 n 0) 0xffc0 =? 0xfe80
  | NoAddr => false
  end.
Definition IsLinkLocalMulticast (a : Addr) : bool :=
  match a with
  | V4 n => (v4_byte n 0 =? 224) && (v4_byte n 1 =? 0) && (v4_byte n 2 =? 0)
  | V6 n _ => Z.land (v6_u16 n 0) 0xff0f =? 0xff02
  | NoAddr => false
  end.
Definition IsInterfaceLocalMulticast (a : Addr) : bool :=
  match a with V6 n _ => Z.land (v6_u16 n 0) 0xff0f =? 0xff01 | _ => false end.
Definition IsMulticast (a : Addr) : bool :=
  match a with
  | V4 n => Z.land (v4_byte n 0) 0xf0 =? 0xe0
  | V6 n _ => Z.land (Z.shiftr n 120) 0xff =? 0xff
  | NoAddr => false
  end.
Definition IsUnspecified (a : Addr) : bool :=
  match a with V4 n => n =? 0 | V6 n z => (n =? 0) && String.eqb z "" | NoAddr => false end.
Definition IsGlobalUnicast (a : Addr) : bool :=
  match a with
  | NoAddr => false
  | V4 n =>
      negb (n =? 0) && negb (n =? 0xffffffff) &&
      negb (IsLoopback a) && negb (IsMulticast a) && negb (IsLinkLocalUnicast a)
  | V6 n z =>
      negb ((n =? 0) && String.eqb z "") &&
      negb (IsLoopback a) && negb (IsMulticast a) && negb (IsLinkLocalUnicast a)
  end.

Record Prefix : Type := MkPrefix { pf_addr : Addr; pf_bits : Z }.

(** [netip.Prefix.Contains]: a prefix never matches an address of the other
    family, nor one with a zone. *)
Definition PrefixContains (p : Prefix) (a : Addr) : bool :=
  match pf_addr p, a with
  | V4 n, V4 m => Z.shiftr (Z.lxor n m) (32 - pf_bits p) =? 0
  | V6 n _, V6 m z => String.eqb z "" && (Z.shiftr (Z.lxor n m) (128 - pf_bits p) =? 0)
  | _, _ => false
  end.

(** [Prefix.Masked]: the bits past the prefix cleared. *)
Definition Masked (p : Prefix) : Prefix :=
  let clear n width := Z.shiftl (Z.shiftr n (width - pf_bits p)) (width - pf_bits p) in
  match pf_addr p with
  | V4 n => MkPrefix (V4 (clear n 32)) (pf_bits p)
  | V6 n z => MkPrefix (V6 (clear n 128) z) (pf_bits p)
  | NoAddr => p
  end.
