(* ===== verification/Egress.v ===== *)
(** The egress policy (src/internal/egress/policy.go, addr.go, the parts of
    target.go that name hosts, ports and paths, and the checks of proxy.go's and
    own.go's dials).

    The text forms of addresses, [netip.ParseAddr], [Addr.String] and
    [netip.ParsePrefix], are parameters. A policy's compiled rules and the ones
    granted since are its state; a grant is one atomic step. *)

From Stdlib Require Import ZArith NArith Ascii String Lia.
From stdpp Require Import base tactics list option strings.
From S2P Require Import Prelude.
From S2P Require Import GoStd.
From S2P Require Import Errors.
From S2P Require Import GoNet.

#[local] Open Scope string_scope.
#[local] Open Scope Z_scope.
#[local] Open Scope go_scope.

(** ** Addresses *)

(** The entries of [blockedPrefixes], in its order. *)
Definition blockedPrefixes : list Prefix :=
  [ MkPrefix (V4 0x00000000) 8; MkPrefix (V4 0x64400000) 10; MkPrefix (V4 0xc0000000) 24;
    MkPrefix (V4 0xc0000200) 24; MkPrefix (V4 0xc6120000) 15; MkPrefix (V4 0xc6336400) 24;
    MkPrefix (V4 0xcb007100) 24; MkPrefix (V4 0xf0000000) 4;
    MkPrefix (V6 0x0064ff9b000000000000000000000000 "") 96;
    MkPrefix (V6 0x0064ff9b000100000000000000000000 "") 48;
    MkPrefix (V6 0x01000000000000000000000000000000 "") 64;
    MkPrefix (V6 0x20010000000000000000000000000000 "") 32;
    MkPrefix (V6 0x20010db8000000000000000000000000 "") 32;
    MkPrefix (V6 0x20020000000000000000000000000000 "") 16;
    MkPrefix (V6 0xfec00000000000000000000000000000 "") 10;
    MkPrefix (V4 0xa9fea9fe) 32;
    MkPrefix (V6 0xfd000ec2000000000000000000000254 "") 128;
    MkPrefix (V6 0x00000000000000000000000000000000 "") 96;
    MkPrefix (V6 0x0000000000000000ffff000000000000 "") 96;
    MkPrefix (V4 0xc0586300) 24;
    MkPrefix (V6 0x20010010000000000000000000000000 "") 28;
    MkPrefix (V6 0x20010020000000000000000000000000 "") 28;
    MkPrefix (V6 0x3fff0000000000000000000000000000 "") 20;
    MkPrefix (V6 0x5f000000000000000000000000000000 "") 16 ].

Definition AddrRefusal (a : Addr) : string :=
  let a := Unmap a in
  if negb (IsValid a) then "not an address"
  else if IsLoopback a then "a loopback address"
  else if IsPrivate a then "a private address"
  else if IsLinkLocalUnicast a || IsLinkLocalMulticast a then "a link-local address"
  else if IsUnspecified a then "an unspecified address"
  else if IsMulticast a || IsInterfaceLocalMulticast a then "a multicast address"
  else if negb (IsGlobalUnicast a) then "not a public unicast address"
  else if existsb (λ p, PrefixContains p a) blockedPrefixes then "a reserved or internal address"
  else "".

Definition named (l : list Prefix) (a : Addr) : bool := existsb (λ p, PrefixContains p a) l.

(** ** Paths and ports *)

Definition errSemicolon : error := plain "the path has a ; (a path parameter), which is refused".
Definition errHostForm : error := plain "not a host name or address".

Definition control (c : ascii) : bool := (bv c <? 32)%N || (bv c =? 127)%N.

(** The segments of a path from the first on; the last may be empty. *)
Fixpoint segments_plain (segs : list string) : bool :=
  match segs with
  | [] => true
  | [seg] => String.eqb seg "" || negb (String.eqb (Trim seg ". ") "")
  | seg :: segs => negb (String.eqb seg "") && negb (String.eqb (Trim seg ". ") "") && segments_plain segs
  end.

Definition plainPath (p : string) : option error :=
  if negb (HasPrefix p "/") then Some (plain "the path must start with /")
  else if Contains p ";" then Some errSemicolon
  else if ContainsAny p "\" || str_exists control p then
    Some (plain "the path has a backslash or control character")
  else if String.eqb p "/" then None
  else fail_if (negb (segments_plain (Split (str_drop 1 p) "/")))
         (plain "the path has an empty, . or .. segment").

Definition decimal : string := "0123456789".

Definition parsePort (p : string) : result Z :=
  let bad := Fail (plain "the port must be a number from 1 to 65535, written plainly") in
  match ParseInt p with
  | Some n =>
      if (n <? 1) || (65535 <? n) || negb (String.eqb (Trim p decimal) "") || negb (String.eqb (Itoa n) p)
      then bad else Ok n
  | None => bad
  end.

Definition host_byte (c : ascii) : bool :=
  in_range "a" "z" c || in_range "0" "9" c || (c =c "-") || (c =c "_").

(** The check of one label of a host. *)
Definition label_error (l : string) : option error :=
  if String.eqb l "" || (63 <? String.length l)%nat then
    Some (plain "the host has an empty or over-long part")
  else fail_if (negb (str_forall host_byte l))
    (plain "the host has a character other than a-z, 0-9, - or _ (write an international name in its xn-- form)").

(** ** Rules *)

(** One entry of egress.rules. *)
Record Rule : Type := MkRule {
  er_Host : string; er_Ports : list Z; er_Methods : list string; er_Paths : list string;
  er_Decision : string; er_AllowIPs : list string
}.

(** A compiled rule; each path comes with whether it is a prefix. *)
Record rule : Type := mkrule {
  ru_name : string; ru_host : string; ru_wildcard : bool;
  ru_ports : list Z; ru_methods : list string;
  ru_paths : list string; ru_prefix : list bool;
  ru_allow : bool; ru_allowIPs : list Prefix
}.

Definition defaultPorts : list Z := [80; 443].

Definition upper_letters : string := "ABCDEFGHIJKLMNOPQRSTUVWXYZ".

(** The compiled path and whether it is a prefix. *)
Definition compile_path (p0 : string) : result (string * bool) :=
  if negb (HasPrefix p0 "/") then Fail (plain ("path " ++ Quote p0 ++ " must start with /"))
  else
    let '(p, pre) := match CutSuffix p0 "/*" with Some s => (s ++ "/", true) | None => (p0, false) end in
    if Contains p "*" then Fail (plain ("path " ++ Quote p ++ ": * is allowed only as a final /*"))
    else match plainPath p with
         | Some e => Fail (err_prefix ("path " ++ Quote p ++ ": ") e)
         | None => Ok (p, pre)
         end.

(** A loop that compiles each element and stops at the first error. *)
Fixpoint map_result {A B} (f : A → result B) (l : list A) : result (list B) :=
  match l with
  | [] => Ok []
  | x :: l => let? y := f x in let? ys := map_result f l in Ok (y :: ys)
  end.

Definition compile_port (p : Z) : result Z :=
  if (p <? 1) || (65535 <? p) then Fail (plain ("port " ++ Itoa p ++ " is not 1 to 65535")) else Ok p.

Definition compile_method (m : string) : result string :=
  if String.eqb m "" || negb (String.eqb (Trim m upper_letters) "")
  then Fail (plain ("method " ++ Quote m ++ " is not an upper-case method name such as GET")) else Ok m.

Section netip.
Context (ParseAddr : string → option Addr) (AddrString : Addr → string).
Context (ParsePrefix : string → option Prefix).

(** One spelling of a host. *)
Definition CanonicalHost (host : string) : result string :=
  let h := ToLower (TrimSuffix host ".") in
  if String.eqb h "" || (253 <? String.length h)%nat then Fail errHostForm
  else
    match ParseAddr h with
    | Some a =>
        if negb (String.eqb (Zone a) "") then Fail (plain "an address with a zone is not reached")
        else if Is4In6 a then
          Fail (plain ("write the address as " ++ AddrString (Unmap a) ++ ", not as IPv6"))
        else Ok (AddrString a)
    | None =>
        let labels := Split h "." in
        match first_error label_error labels with
        | Some e => Fail e
        | None =>
            let last := default "" (last labels) in
            if HasPrefix last "0x" || String.eqb (Trim last decimal) "" then
              Fail (plain "a host that ends in a number must be an IPv4 address written as four decimal numbers")
            else Ok h
        end
    end.

(** A rule's host: its compiled form and whether it is a wildcard. *)
Definition compile_host (host : string) : result (string * bool) :=
  let h := TrimSuffix (ToLower (TrimSpace host)) "." in
  match CutPrefix h "*." with
  | Some rest =>
      if negb (Contains rest ".") then
        Fail (plain ("host " ++ Quote host ++ " is too wide: a wildcard needs at least two labels after *., as in *.example.com"))
      else
        let bad := Fail (plain ("host " ++ Quote host ++ " is not a name or *.name")) in
        match CanonicalHost rest with
        | Fail _ => bad
        | Ok c =>
            if negb (String.eqb c rest) then bad
            else match ParseAddr rest with
                 | Some _ => Fail (plain ("host " ++ Quote host ++ " puts a wildcard on an address"))
                 | None => Ok ("." ++ rest, true)
                 end
        end
  | None =>
      match CanonicalHost (Trim h "[]") with
      | Fail e => Fail (err_prefix ("host " ++ Quote host ++ ": ") e)
      | Ok c => Ok (c, false)
      end
  end.

Definition compile_allow_ip (s : string) : result Prefix :=
  match ParsePrefix s with
  | Some p => Ok (Masked p)
  | None =>
      match ParseAddr s with
      | Some a =>
          if negb (String.eqb (Zone a) "") then
            Fail (plain ("allow_ips entry " ++ Quote s ++ " is not an address or prefix"))
          else Ok (Masked (MkPrefix (Unmap a) (BitLen (Unmap a))))
      | None => Fail (plain ("allow_ips entry " ++ Quote s ++ " is not an address or prefix"))
      end
  end.

Definition compileRule (r : Rule) : result rule :=
  let? allow :=
    if String.eqb (er_Decision r) "allow" then Ok true
    else if String.eqb (er_Decision r) "deny" then Ok false
    else Fail (plain ("decision is " ++ Quote (er_Decision r) ++ "; use allow or deny")) in
  let? (host, wildcard) := compile_host (er_Host r) in
  let? ports := map_result compile_port (er_Ports r) in
  let? methods := map_result compile_method (er_Methods r) in
  let? paths := map_result compile_path (er_Paths r) in
  let? ips := map_result compile_allow_ip (er_AllowIPs r) in
  Ok (mkrule "" host wildcard (match ports with [] => defaultPorts | _ => ports end) methods
        (map fst paths) (map snd paths) allow ips).

Definition set_name (n : string) (r : rule) : rule :=
  mkrule n (ru_host r) (ru_wildcard r) (ru_ports r) (ru_methods r) (ru_paths r) (ru_prefix r)
    (ru_allow r) (ru_allowIPs r).

(** ** Policies *)

Record Config : Type := MkConfig {
  cf_Rules : list Rule; cf_Default : string; cf_Mode : string;
  cf_RecordPaths : option bool; cf_IdleSeconds : Z; cf_InspectTLS : bool
}.

(** [pl_granted] is what the policy's [granted] points to; none is empty. *)
Record Policy : Type := MkPolicy {
  pl_rules : list rule; pl_granted : list rule;
  pl_defaultAllow : bool; pl_audit : bool; pl_hidePaths : bool; pl_inspect : bool;
  pl_idle : Z
}.

Definition second : Z := 1000000000.
Definition DefaultIdle : Z := 300 * second.

Fixpoint compile_rules (i : Z) (rs : list Rule) : result (list rule) :=
  match rs with
  | [] => Ok []
  | r :: rs =>
      match compileRule r with
      | Fail e => Fail (err_prefix ("egress.rules[" ++ Itoa i ++ "]: ") e)
      | Ok cr =>
          let? rest := compile_rules (i + 1) rs in
          Ok (set_name ("rules[" ++ Itoa i ++ "] " ++ er_Host r) cr :: rest)
      end
  end.

Definition compile_choice (what value no yes : string) : result bool :=
  if String.eqb value "" || String.eqb value no then Ok false
  else if String.eqb value yes then Ok true
  else Fail (plain ("egress." ++ what ++ " is " ++ Quote value ++ "; use " ++
         no ++ " or " ++ yes)).

Definition Compile (c : Config) : result Policy :=
  let? defaultAllow := compile_choice "default" (cf_Default c) "deny" "allow" in
  let? audit := compile_choice "mode" (cf_Mode c) "enforce" "audit" in
  if cf_IdleSeconds c <? 0 then
    Fail (plain ("egress.idle_seconds is " ++ Itoa (cf_IdleSeconds c) ++
      "; use a number of seconds, or leave it out for " ++ duration_text DefaultIdle))
  else
    let idle := if cf_IdleSeconds c =? 0 then DefaultIdle else wrap64 (cf_IdleSeconds c * second) in
    let? rules := compile_rules 0 (cf_Rules c) in
    Ok (MkPolicy rules [] defaultAllow audit
          (match cf_RecordPaths c with Some b => negb b | None => false end) (cf_InspectTLS c) idle).

Definition all_rules (p : Policy) : list rule := (pl_rules p ++ pl_granted p)%list.

Definition grant_rule (name : string) (h : string) : result rule :=
  let? r := compileRule (MkRule h [443] [] [] "allow" []) in
  if ru_wildcard r then Fail (plain ("a granted host is exact, not " ++ Quote h))
  else Ok (set_name (name ++ " " ++ h) r).

Definition Grant (name : string) (hosts : list string) (p : Policy) : result Policy :=
  let? add := map_result (grant_rule name) hosts in
  Ok (MkPolicy (pl_rules p) (pl_granted p ++ add) (pl_defaultAllow p) (pl_audit p)
        (pl_hidePaths p) (pl_inspect p) (pl_idle p)).

End netip.

(** ** Decisions *)

Inductive Decision : Set :=
  | Allow
  | Deny
  | WouldDeny.

#[export] Instance Decision_eq_dec : EqDecision Decision.
Proof. solve_decision. Defined.

Record Request : Type := MkRequest {
  rq_Host : string; rq_Port : Z; rq_Tunnel : bool; rq_Method : string; rq_Path : string
}.

Record Verdict : Type := MkVerdict {
  vd_Decision : Decision; vd_Rule : string; vd_Reason : string;
  vd_AllowIPs : list Prefix; vd_Exact : bool
}.

Definition Allowed (v : Verdict) : bool := negb (bool_decide (vd_Decision v = Deny)).

Definition HostMatches (ruleHost : string) (wildcard : bool) (host : string) : bool :=
  if wildcard then (String.length ruleHost <? String.length host)%nat && HasSuffix host ruleHost
  else String.eqb host ruleHost.

Definition contains_port (l : list Z) (p : Z) : bool := bool_decide (p ∈ l).
Definition contains_str (l : list string) (s : string) : bool := bool_decide (s ∈ l).

Definition narrowed (ru : rule) : bool :=
  (0 <? length (ru_methods ru))%nat || (0 <? length (ru_paths ru))%nat.

Definition path_matches (path p : string) (prefix : bool) : bool :=
  String.eqb path p || (prefix && (HasPrefix path p || String.eqb (path ++ "/") p)).

Fixpoint paths_match (path : string) (ps : list string) (prefixes : list bool) : bool :=
  match ps, prefixes with
  | p :: ps, pre :: prefixes => path_matches path p pre || paths_match path ps prefixes
  | _, _ => false
  end.

Definition matches (ru : rule) (r : Request) : bool :=
  if negb (HostMatches (ru_host ru) (ru_wildcard ru) (rq_Host r)) || negb (contains_port (ru_ports ru) (rq_Port r))
  then false
  else if rq_Tunnel r then negb (narrowed ru) || negb (ru_allow ru)
  else if (0 <? length (ru_methods ru))%nat && negb (contains_str (ru_methods ru) (rq_Method r)) then false
  else if (length (ru_paths ru) =? 0)%nat then true
  else paths_match (rq_Path r) (ru_paths ru) (ru_prefix ru).

Definition deny (p : Policy) (name why : string) : Verdict :=
  if pl_audit p then MkVerdict WouldDeny name (why ++ "; let through in audit mode") [] false
  else MkVerdict Deny name why [] false.

Definition with_ips (ips : list Prefix) (v : Verdict) : Verdict :=
  if bool_decide (vd_Decision v = WouldDeny)
  then MkVerdict (vd_Decision v) (vd_Rule v) (vd_Reason v) ips (vd_Exact v) else v.

(** The loop over the rules: the first deny rule that matches, and the allow
    rules that do. *)
Fixpoint matching_rules (rs : list rule) (r : Request) (denied : string) (allowedBy : list rule)
    : string * list rule :=
  match rs with
  | [] => (denied, allowedBy)
  | ru :: rs =>
      if negb (matches ru r) then matching_rules rs r denied allowedBy
      else if negb (ru_allow ru) then
        matching_rules rs r (if String.eqb denied "" then ru_name ru else denied) allowedBy
      else matching_rules rs r denied (allowedBy ++ [ru])%list
  end.

Definition Decide (p : Policy) (r : Request) : Verdict :=
  if negb (rq_Tunnel r) && Contains (rq_Path r) ";" then
    MkVerdict Deny "path" (e_text errSemicolon) [] false
  else
    let '(denied, allowedBy) := matching_rules (all_rules p) r "" [] in
    let ips := flat_map ru_allowIPs allowedBy in
    let exact := existsb (λ ru, negb (ru_wildcard ru)) allowedBy in
    if negb (String.eqb denied "") then with_ips ips (deny p denied "a deny rule matches")
    else
      match allowedBy with
      | ru :: _ => MkVerdict Allow (ru_name ru) "an allow rule matches" ips exact
      | [] =>
          if pl_defaultAllow p
          then MkVerdict Allow "default" "no rule matches and the default is allow" [] false
          else deny p "default" "no rule allows it"
      end.

(** The loop of [DecideHost]. *)
Fixpoint host_matching (rs : list rule) (r : Request) (allowed denied : string) (ips : list Prefix)
    (exact : bool) : string * string * list Prefix * bool :=
  match rs with
  | [] => (allowed, denied, ips, exact)
  | ru :: rs =>
      if negb (HostMatches (ru_host ru) (ru_wildcard ru) (rq_Host r)) || negb (contains_port (ru_ports ru) (rq_Port r))
      then host_matching rs r allowed denied ips exact
      else if negb (ru_allow ru) && negb (narrowed ru) && String.eqb denied "" then
        host_matching rs r allowed (ru_name ru) ips exact
      else if ru_allow ru then
        host_matching rs r (if String.eqb allowed "" then ru_name ru else allowed) denied
          (ips ++ ru_allowIPs ru) (exact || negb (ru_wildcard ru))
      else host_matching rs r allowed denied ips exact
  end.

Definition DecideHost (p : Policy) (r : Request) : Verdict :=
  let '(allowed, denied, ips, exact) := host_matching (all_rules p) r "" "" [] false in
  if negb (String.eqb denied "") then with_ips ips (deny p denied "a deny rule matches")
  else if negb (String.eqb allowed "") then
    MkVerdict Allow allowed "an allow rule names the host; each request inside is decided" ips exact
  else if pl_defaultAllow p
  then MkVerdict Allow "default" "no rule matches and the default is allow" [] false
  else deny p "default" "no rule allows it".

Definition DecideName (p : Policy) (name : string) : Verdict :=
  match find_first (λ ru, ru_allow ru && HostMatches (ru_host ru) (ru_wildcard ru) name) (all_rules p) with
  | Some ru => MkVerdict Allow (ru_name ru) "an allow rule names this host" [] false
  | None =>
      if pl_defaultAllow p
      then MkVerdict Allow "default" "no rule names this host and the default is allow" [] false
      else deny p "default" "no allow rule names this host"
  end.

(** ** What a policy says of itself *)

Definition Rules (p : Policy) : Z := Z.of_nat (length (all_rules p)).

Definition PathDenies (p : Policy) : list string :=
  map ru_name (List.filter (λ ru, negb (ru_allow ru) && (0 <? length (ru_paths ru))%nat) (all_rules p)).

Definition Granted (p : Policy) (host : string) : bool :=
  existsb (λ r, HostMatches (ru_host r) false host) (pl_granted p).

Definition Idle (p : Policy) : Z := if pl_idle p =? 0 then DefaultIdle else pl_idle p.

Definition add_host (out : list string) (ru : rule) : list string :=
  if negb (ru_allow ru) then out
  else
    let h := if ru_wildcard ru then "*" ++ ru_host ru else ru_host ru in
    if contains_str out h then out else (out ++ [h])%list.

Definition AllowedHosts (p : Policy) : list string := fold_left add_host (all_rules p) [].

(** ** Dialling what a verdict allows *)

Record refusal : Type := MkRefusal { rf_host : string; rf_addr : Addr; rf_why : string; rf_msg : string }.

(** [refusal.Error]. *)
Definition refusal_Error (AddrString : Addr → string) (e : refusal) : string :=
  if negb (String.eqb (rf_msg e) "") then rf_msg e
  else if negb (String.eqb (rf_host e) (AddrString (rf_addr e))) then
    rf_host e ++ " resolves to " ++ AddrString (rf_addr e) ++ ", " ++ rf_why e ++ ", which no rule names in allow_ips"
  else AddrString (rf_addr e) ++ " is " ++ rf_why e ++ ", which no rule names in allow_ips".

(** The proxy's own address and port. *)
Definition self (own : Addr * Z) (a : Addr) (port : Z) : bool :=
  (port =? snd own) && (bool_decide (a = fst own) || IsLoopback a || IsUnspecified a).

(** The check of one address of [dial] and [dialDirect]. *)
Definition check_addr (own : Addr * Z) (host : string) (port : Z) (ips : list Prefix) (a : Addr) : option refusal :=
  let a := Unmap a in
  if self own a port then Some (MkRefusal host a "this proxy itself" "")
  else if named ips a then None
  else let why := AddrRefusal a in
       if negb (String.eqb why "") then Some (MkRefusal host a why "") else None.

Fixpoint first_refusal (own : Addr * Z) (host : string) (port : Z) (ips : list Prefix) (l : list Addr) : option refusal :=
  match l with
  | [] => None
  | a :: l => match check_addr own host port ips a with Some r => Some r | None => first_refusal own host port ips l end
  end.

(** The connections tried in turn: the addresses dialled, in order, up to the
    first that connects; [connects] is the network. *)
Fixpoint dial_each (connects : Addr → bool) (l : list Addr) : list Addr * option Addr :=
  match l with
  | [] => ([], None)
  | a :: l =>
      let a := Unmap a in
      if connects a then ([a], Some a)
      else let '(tried, c) := dial_each connects l in (a :: tried, c)
  end.

Inductive dial_result : Type :=
  | no_address
  | resolve_failed (e : error)
  | dial_refused (r : refusal)
  | dialled (tried : list Addr) (connected : option Addr).

Definition dialDirect (own : Addr * Z) (resolve : string → result (list Addr)) (connects : Addr → bool)
    (host : string) (port : Z) (v : Verdict) : dial_result :=
  match resolve host with
  | Fail e => resolve_failed e
  | Ok [] => no_address
  | Ok addrs =>
      match first_refusal own host port (vd_AllowIPs v) addrs with
      | Some r => dial_refused r
      | None => let '(tried, c) := dial_each connects addrs in dialled tried c
      end
  end.
