(* ===== verification/AddrSpec.v ===== *)
(** Which addresses the egress proxy reaches: [AddrRefusal] against one table of
    address intervals, and the addresses a checked dial connects to. *)

From Stdlib Require Import ZArith NArith Ascii String Lia Bool.
From stdpp Require Import base tactics list option strings.
From S2P Require Import Prelude.
From S2P Require Import GoStd.
From S2P Require Import Errors.
From S2P Require Import GoNet.
From S2P Require Import Egress.

#[local] Open Scope Z_scope.

(** ** Bits as intervals *)

Lemma shiftr_interval n k c : 0 <= k → (Z.shiftr n k =? c) = (c * 2 ^ k <=? n) && (n <? (c + 1) * 2 ^ k).
Proof.
  intros Hk. rewrite Z.shiftr_div_pow2 by done.
  assert (0 < 2 ^ k) as H2 by lia. pose proof (Z.div_mod n (2 ^ k) ltac:(lia)) as E.
  pose proof (Z.mod_pos_bound n (2 ^ k) H2) as Hm.
  apply eq_true_iff_eq. rewrite andb_true_iff, Z.eqb_eq, Z.leb_le, Z.ltb_lt. nia.
Qed.

Lemma land_ones_small n k : 0 <= k → 0 <= n < 2 ^ k → Z.land n (Z.ones k) = n.
Proof. intros Hk Hn. rewrite Z.land_ones by done. by apply Z.mod_small. Qed.

(** A mask of high bits keeps the quotient. *)
Lemma land_high u w k : 0 <= k → Z.land u (Z.shiftl (Z.ones w) k) = Z.shiftl (Z.land (Z.shiftr u k) (Z.ones w)) k.
Proof.
  intros Hk. apply Z.bits_inj'. intros i Hi. rewrite Z.land_spec.
  destruct (Z.ltb_spec i k).
  - rewrite !Z.shiftl_spec_low by done. by rewrite andb_false_r.
  - rewrite !Z.shiftl_spec by done. rewrite Z.land_spec, Z.shiftr_spec by lia.
    by replace (i - k + k) with i by lia.
Qed.

Lemma land_high_eqb u w k c : 0 <= k → 0 <= w → 0 <= u < 2 ^ (w + k) →
  (Z.land u (Z.shiftl (Z.ones w) k) =? Z.shiftl c k) = (Z.shiftr u k =? c).
Proof.
  intros Hk Hw Hu. rewrite land_high by done. rewrite land_ones_small; [|done|].
  - rewrite !Z.shiftl_mul_pow2 by done. assert (0 < 2 ^ k) by lia.
    apply eq_true_iff_eq. rewrite !Z.eqb_eq. nia.
  - rewrite Z.shiftr_div_pow2 by done. rewrite Z.pow_add_r in Hu by done.
    split; [apply Z.div_pos; lia | apply Z.div_lt_upper_bound; lia].
Qed.

(** A prefix as the interval it covers. *)
Lemma contains_interval n m k : 0 <= k → Z.shiftl (Z.shiftr n k) k = n →
  (Z.shiftr (Z.lxor n m) k =? 0) = (n <=? m) && (m <? n + 2 ^ k).
Proof.
  intros Hk Hn. rewrite Z.shiftr_lxor.
  assert ((Z.lxor (Z.shiftr n k) (Z.shiftr m k) =? 0) = (Z.shiftr m k =? Z.shiftr n k)) as ->.
  { apply eq_true_iff_eq. rewrite !Z.eqb_eq, Z.lxor_eq_0_iff. split; congruence. }
  rewrite shiftr_interval by done. rewrite Z.shiftl_mul_pow2 in Hn by done.
  rewrite Z.mul_add_distr_r, Hn, Z.mul_1_l. done.
Qed.

Lemma v4_first n : 0 <= n < 2 ^ 32 → v4_byte n 0 = Z.shiftr n 24.
Proof.
  intros Hn. unfold v4_byte. change 0xff with (Z.ones 8). apply land_ones_small; [done|].
  change (8 * (3 - 0)) with 24. rewrite Z.shiftr_div_pow2 by done.
  split; [apply Z.div_pos; lia | apply Z.div_lt_upper_bound; lia].
Qed.

Lemma v6_first n : 0 <= n < 2 ^ 128 → v6_u16 n 0 = Z.shiftr n 112.
Proof.
  intros Hn. unfold v6_u16. change 0xffff with (Z.ones 16). apply land_ones_small; [done|].
  change (16 * (7 - 0)) with 112. rewrite Z.shiftr_div_pow2 by done.
  split; [apply Z.div_pos; lia | apply Z.div_lt_upper_bound; lia].
Qed.

(** Two bytes of an address read one after the other are one prefix. *)
Lemma two_bytes n h k x y : 0 <= k → 0 <= y < 256 → h = Z.shiftr n (k + 8) →
  (h =? x) && (Z.land (Z.shiftr n k) 0xff =? y) = (Z.shiftr n k =? x * 256 + y).
Proof.
  intros Hk Hy ->. rewrite <- Z.shiftr_shiftr by done. set (u := Z.shiftr n k).
  change 0xff with (Z.ones 8). rewrite Z.land_ones, Z.shiftr_div_pow2 by done. change (2 ^ 8) with 256.
  pose proof (Z.div_mod u 256 ltac:(lia)). pose proof (Z.mod_pos_bound u 256 ltac:(lia)).
  apply eq_true_iff_eq. rewrite andb_true_iff, !Z.eqb_eq. lia.
Qed.

(** ** The table *)

(** First and last address of each range that is not reached unless a rule
    names it. *)
Definition internal4 : list (Z * Z) :=
  [ (0x00000000, 0x00ffffff);      (* 0.0.0.0/8, "this network" *)
    (0x0a000000, 0x0affffff);      (* 10.0.0.0/8 *)
    (0x64400000, 0x647fffff);      (* 100.64.0.0/10 *)
    (0x7f000000, 0x7fffffff);      (* 127.0.0.0/8 *)
    (0xa9fe0000, 0xa9feffff);      (* 169.254.0.0/16, the metadata service in it *)
    (0xac100000, 0xac1fffff);      (* 172.16.0.0/12 *)
    (0xc0000000, 0xc00000ff);      (* 192.0.0.0/24 *)
    (0xc0000200, 0xc00002ff);      (* 192.0.2.0/24 *)
    (0xc0586300, 0xc05863ff);      (* 192.88.99.0/24 *)
    (0xc0a80000, 0xc0a8ffff);      (* 192.168.0.0/16 *)
    (0xc6120000, 0xc613ffff);      (* 198.18.0.0/15 *)
    (0xc6336400, 0xc63364ff);      (* 198.51.100.0/24 *)
    (0xcb007100, 0xcb0071ff);      (* 203.0.113.0/24 *)
    (0xe0000000, 0xffffffff) ].    (* multicast, reserved and broadcast *)

Definition internal6 : list (Z * Z) :=
  [ (0x00000000000000000000000000000000, 0x000000000000000000000000ffffffff);
    (0x0000000000000000ffff000000000000, 0x0000000000000000ffff0000ffffffff);
    (0x0064ff9b000000000000000000000000, 0x0064ff9b0000000000000000ffffffff);
    (0x0064ff9b000100000000000000000000, 0x0064ff9b0001ffffffffffffffffffff);
    (0x01000000000000000000000000000000, 0x0100000000000000ffffffffffffffff);
    (0x20010000000000000000000000000000, 0x20010000ffffffffffffffffffffffff);
    (0x20010010000000000000000000000000, 0x2001001fffffffffffffffffffffffff);
    (0x20010020000000000000000000000000, 0x2001002fffffffffffffffffffffffff);
    (0x20010db8000000000000000000000000, 0x20010db8ffffffffffffffffffffffff);
    (0x20020000000000000000000000000000, 0x2002ffffffffffffffffffffffffffff);
    (0x3fff0000000000000000000000000000, 0x3fff0fffffffffffffffffffffffffff);
    (0x5f000000000000000000000000000000, 0x5f00ffffffffffffffffffffffffffff);
    (0xfc000000000000000000000000000000, 0xfdffffffffffffffffffffffffffffff);
    (0xfe800000000000000000000000000000, 0xfebfffffffffffffffffffffffffffff);
    (0xfec00000000000000000000000000000, 0xfeffffffffffffffffffffffffffffff);
    (0xff000000000000000000000000000000, 0xffffffffffffffffffffffffffffffff) ].

Definition within (l : list (Z * Z)) (n : Z) : bool :=
  existsb (λ r, (r.1 <=? n) && (n <=? r.2)) l.

(** An address on the public internet, as the table sees it. *)
Definition public (a : Addr) : bool :=
  match Unmap a with
  | NoAddr => false
  | V4 n => negb (within internal4 n)
  | V6 n _ => negb (within internal6 n)
  end.

(** Every test of [AddrRefusal], once the address is not a mapped one. *)
Definition refused (a : Addr) : bool :=
  negb (IsValid a) || IsLoopback a || IsPrivate a || IsLinkLocalUnicast a || IsLinkLocalMulticast a ||
  IsUnspecified a || IsMulticast a || IsInterfaceLocalMulticast a || negb (IsGlobalUnicast a) ||
  existsb (λ p, PrefixContains p a) blockedPrefixes.

Lemma AddrRefusal_refused a : String.eqb (AddrRefusal a) "" = negb (refused (Unmap a)).
Proof.
  unfold AddrRefusal, refused. set (b := Unmap a).
  destruct (IsValid b); cbn [negb orb]; [|done].
  destruct (IsLoopback b); cbn [orb]; [done|]. destruct (IsPrivate b); cbn [orb]; [done|].
  destruct (IsLinkLocalUnicast b); cbn [orb]; [done|]. destruct (IsLinkLocalMulticast b); cbn [orb]; [done|].
  destruct (IsUnspecified b); cbn [orb]; [done|]. destruct (IsMulticast b); cbn [orb]; [done|].
  destruct (IsInterfaceLocalMulticast b); cbn [orb]; [done|]. destruct (IsGlobalUnicast b); cbn [orb negb]; [|done].
  by destruct (existsb _ _).
Qed.

(** The tests on an IPv4 address, each as an interval. *)
Definition iv (lo hi n : Z) : bool := (lo <=? n) && (n <=? hi).

Lemma shiftr_iv n k c : 0 <= k → (Z.shiftr n k =? c) = iv (c * 2 ^ k) ((c + 1) * 2 ^ k - 1) n.
Proof.
  intros Hk. rewrite shiftr_interval by done. unfold iv. f_equal.
  apply eq_true_iff_eq. rewrite Z.ltb_lt, Z.leb_le. lia.
Qed.

Lemma contains_iv n m k : 0 <= k → Z.shiftl (Z.shiftr n k) k = n →
  (Z.shiftr (Z.lxor n m) k =? 0) = iv n (n + 2 ^ k - 1) m.
Proof.
  intros Hk Hn. rewrite contains_interval by done. unfold iv. f_equal.
  apply eq_true_iff_eq. rewrite Z.ltb_lt, Z.leb_le. lia.
Qed.

Lemma eqb_iv n c : (n =? c) = iv c c n.
Proof. unfold iv. apply eq_true_iff_eq. rewrite andb_true_iff, Z.eqb_eq, !Z.leb_le. lia. Qed.

Section V4.
Context (n : Z) (Hn : 0 <= n < 2 ^ 32).

Lemma byte0_iv x : (v4_byte n 0 =? x) = iv (x * 2 ^ 24) ((x + 1) * 2 ^ 24 - 1) n.
Proof. by rewrite v4_first, shiftr_iv. Qed.

Lemma byte01_iv x y : 0 <= y < 256 →
  (v4_byte n 0 =? x) && (v4_byte n 1 =? y) = iv ((x * 256 + y) * 2 ^ 16) ((x * 256 + y + 1) * 2 ^ 16 - 1) n.
Proof.
  intros Hy. rewrite v4_first by done. unfold v4_byte. change (8 * (3 - 1)) with 16.
  by rewrite (two_bytes n _ 16), shiftr_iv.
Qed.

Lemma private172_iv :
  (v4_byte n 0 =? 172) && (Z.land (v4_byte n 1) 0xf0 =? 16) = iv 0xac100000 0xac1fffff n.
Proof.
  assert (0 <= v4_byte n 1 < 2 ^ 8) as Hb.
  { unfold v4_byte. change 0xff with (Z.ones 8). rewrite Z.land_ones by done.
    apply Z.mod_pos_bound. lia. }
  change 0xf0 with (Z.shiftl (Z.ones 4) 4). change 16 with (Z.shiftl 1 4).
  rewrite (land_high_eqb _ 4 4 1), v4_first by done. unfold v4_byte. change (8 * (3 - 1)) with 16.
  rewrite Z.shiftr_land, Z.shiftr_shiftr by done. change (16 + 4) with 20. change (Z.shiftr 0xff 4) with (Z.ones 4).
  replace (Z.shiftr n 24) with (Z.shiftr (Z.shiftr n 20) 4) by (by rewrite Z.shiftr_shiftr).
  rewrite Z.land_ones, (Z.shiftr_div_pow2 (Z.shiftr n 20) 4) by done.
  assert (∀ u, (u / 2 ^ 4 =? 172) && (u mod 2 ^ 4 =? 1) = (u =? 172 * 16 + 1)) as ->.
  { intros u. change (2 ^ 4) with 16.
    pose proof (Z.div_mod u 16 ltac:(lia)). pose proof (Z.mod_pos_bound u 16 ltac:(lia)).
    apply eq_true_iff_eq. rewrite andb_true_iff, !Z.eqb_eq. lia. }
  by rewrite shiftr_iv.
Qed.

Lemma multicast4_iv : IsMulticast (V4 n) = iv 0xe0000000 0xefffffff n.
Proof.
  cbn [IsMulticast]. rewrite v4_first by done.
  change 0xf0 with (Z.shiftl (Z.ones 4) 4). change 0xe0 with (Z.shiftl 14 4).
  assert (0 <= Z.shiftr n 24 < 2 ^ (4 + 4)) as Hu.
  { rewrite Z.shiftr_div_pow2 by done. split; [apply Z.div_pos; lia | apply Z.div_lt_upper_bound; lia]. }
  rewrite (land_high_eqb _ 4 4 14) by done. by rewrite Z.shiftr_shiftr, shiftr_iv.
Qed.

Lemma linklocal_multicast4 : IsLinkLocalMulticast (V4 n) = true → IsMulticast (V4 n) = true.
Proof. cbn [IsLinkLocalMulticast IsMulticast]. rewrite !andb_true_iff. intros [[->%Z.eqb_eq _] _]. done. Qed.

Lemma blocked4 : existsb (λ p, PrefixContains p (V4 n)) blockedPrefixes =
  existsb (λ r, iv r.1 r.2 n)
    [(0x00000000, 0x00ffffff); (0x64400000, 0x647fffff); (0xc0000000, 0xc00000ff);
     (0xc0000200, 0xc00002ff); (0xc6120000, 0xc613ffff); (0xc6336400, 0xc63364ff);
     (0xcb007100, 0xcb0071ff); (0xf0000000, 0xffffffff); (0xa9fea9fe, 0xa9fea9fe);
     (0xc0586300, 0xc05863ff)].
Proof.
  unfold blockedPrefixes. cbn [existsb PrefixContains pf_addr pf_bits fst snd orb].
  by rewrite !contains_iv by done.
Qed.

Lemma refused_V4 : refused (V4 n) = within internal4 n.
Proof.
  unfold refused. cbn [IsValid negb IsLoopback IsPrivate IsLinkLocalUnicast IsUnspecified
    IsInterfaceLocalMulticast IsGlobalUnicast orb]. rewrite blocked4, multicast4_iv.
  pose proof linklocal_multicast4 as Hll. rewrite multicast4_iv in Hll.
  rewrite private172_iv, !byte01_iv, !byte0_iv by done. rewrite !eqb_iv.
  unfold within, internal4. cbn [existsb fst snd].
  apply eq_true_iff_eq. unfold iv in *. destruct (IsLinkLocalMulticast (V4 n)).
  - specialize (Hll eq_refl). lia.
  - clear Hll. lia.
Qed.
End V4.

Section V6.
Context (n : Z) (Hn : 0 <= n < 2 ^ 128).

Lemma u16_first : v6_u16 n 0 = Z.shiftr n 112 ∧ 0 <= Z.shiftr n 112 < 2 ^ 16.
Proof.
  split; [by apply v6_first|]. rewrite Z.shiftr_div_pow2 by done.
  split; [apply Z.div_pos; lia | apply Z.div_lt_upper_bound; lia].
Qed.

(** A test of the first 16 bits under a mask of the high ones. *)
Lemma masked_iv w k c : 0 <= k → 0 <= w → w + k = 16 →
  (Z.land (v6_u16 n 0) (Z.shiftl (Z.ones w) k) =? Z.shiftl c k) =
  iv (c * 2 ^ (112 + k)) ((c + 1) * 2 ^ (112 + k) - 1) n.
Proof.
  intros Hk Hw E. destruct u16_first as [-> Hu]. rewrite land_high_eqb by (done || by rewrite E).
  rewrite Z.shiftr_shiftr by done. apply shiftr_iv. lia.
Qed.

Lemma private6_iv : IsPrivate (V6 n "") = iv 0xfc000000000000000000000000000000 0xfdffffffffffffffffffffffffffffff n.
Proof.
  cbn [IsPrivate]. change 0xfe00 with (Z.shiftl (Z.ones 7) 9). change 0xfc00 with (Z.shiftl 126 9).
  by rewrite masked_iv.
Qed.

Lemma linklocal6_iv : IsLinkLocalUnicast (V6 n "") = iv 0xfe800000000000000000000000000000 0xfebfffffffffffffffffffffffffffff n.
Proof.
  cbn [IsLinkLocalUnicast]. change 0xffc0 with (Z.shiftl (Z.ones 10) 6). change 0xfe80 with (Z.shiftl 0x3fa 6).
  by rewrite masked_iv.
Qed.

Lemma multicast6_iv : IsMulticast (V6 n "") = iv 0xff000000000000000000000000000000 0xffffffffffffffffffffffffffffffff n.
Proof.
  cbn [IsMulticast]. change (Z.land (Z.shiftr n 120) 0xff) with (Z.land (Z.shiftr n 120) (Z.ones 8)).
  rewrite land_ones_small, shiftr_iv; [done | done | done |].
  rewrite Z.shiftr_div_pow2 by done. split; [apply Z.div_pos; lia | apply Z.div_lt_upper_bound; lia].
Qed.

(** The scoped multicast tests only hold of multicast addresses. *)
Lemma scoped_multicast6 c : 0xff00 <= c < 0x10000 → (Z.land (v6_u16 n 0) 0xff0f =? c) = true →
  IsMulticast (V6 n "") = true.
Proof.
  intros Hc E%Z.eqb_eq. destruct u16_first as [Eu Hu]. rewrite Eu in E. cbn [IsMulticast].
  apply (f_equal (λ u, Z.shiftr u 8)) in E. rewrite Z.shiftr_land, Z.shiftr_shiftr in E by done.
  change (112 + 8) with 120 in E. change (Z.shiftr 0xff0f 8) with 0xff in E.
  apply Z.eqb_eq. rewrite E, Z.shiftr_div_pow2 by done. change (2 ^ 8) with 256.
  symmetry. apply (Z.div_unique_pos c 256 255 (c - 0xff00)); lia.
Qed.

Definition blocked6_ranges : list (Z * Z) :=
    [(0x0064ff9b000000000000000000000000, 0x0064ff9b0000000000000000ffffffff);
     (0x0064ff9b000100000000000000000000, 0x0064ff9b0001ffffffffffffffffffff);
     (0x01000000000000000000000000000000, 0x0100000000000000ffffffffffffffff);
     (0x20010000000000000000000000000000, 0x20010000ffffffffffffffffffffffff);
     (0x20010db8000000000000000000000000, 0x20010db8ffffffffffffffffffffffff);
     (0x20020000000000000000000000000000, 0x2002ffffffffffffffffffffffffffff);
     (0xfec00000000000000000000000000000, 0xfeffffffffffffffffffffffffffffff);
     (0xfd000ec2000000000000000000000254, 0xfd000ec2000000000000000000000254);
     (0x00000000000000000000000000000000, 0x000000000000000000000000ffffffff);
     (0x0000000000000000ffff000000000000, 0x0000000000000000ffff0000ffffffff);
     (0x20010010000000000000000000000000, 0x2001001fffffffffffffffffffffffff);
     (0x20010020000000000000000000000000, 0x2001002fffffffffffffffffffffffff);
     (0x3fff0000000000000000000000000000, 0x3fff0fffffffffffffffffffffffffff);
     (0x5f000000000000000000000000000000, 0x5f00ffffffffffffffffffffffffffff)].

Lemma blocked6 : existsb (λ p, PrefixContains p (V6 n "")) blockedPrefixes = within blocked6_ranges n.
Proof.
  unfold blockedPrefixes, within, blocked6_ranges.
  cbn [existsb PrefixContains pf_addr pf_bits fst snd orb String.eqb andb].
  by rewrite !contains_iv by done.
Qed.

(** Ranges inside ranges. *)
Definition ranges_in (l1 l2 : list (Z * Z)) : bool :=
  forallb (λ r, existsb (λ s, (s.1 <=? r.1) && (r.2 <=? s.2)) l2) l1.

Lemma within_in l1 l2 k : ranges_in l1 l2 = true → within l1 k = true → within l2 k = true.
Proof.
  unfold ranges_in, within. rewrite forallb_forall, !existsb_exists. intros Hin (r & Hr & H).
  apply Hin in Hr. apply existsb_exists in Hr as (s & Hs & H').
  exists s. split; [done|]. lia.
Qed.

(** The tests other than the list of prefixes. *)
Definition tested6_ranges : list (Z * Z) :=
  [(1, 1); (0xfc000000000000000000000000000000, 0xfdffffffffffffffffffffffffffffff);
   (0xfe800000000000000000000000000000, 0xfebfffffffffffffffffffffffffffff); (0, 0);
   (0xff000000000000000000000000000000, 0xffffffffffffffffffffffffffffffff)].

Lemma refused_V6 : refused (V6 n "") = within internal6 n.
Proof.
  assert (refused (V6 n "") = within (tested6_ranges ++ blocked6_ranges) n) as ->.
  { unfold refused. rewrite blocked6.
    assert (IsLinkLocalMulticast (V6 n "") = true → IsMulticast (V6 n "") = true) as Hll
      by (apply scoped_multicast6; lia).
    assert (IsInterfaceLocalMulticast (V6 n "") = true → IsMulticast (V6 n "") = true) as Hil
      by (apply scoped_multicast6; lia).
    unfold IsGlobalUnicast. rewrite private6_iv, linklocal6_iv, multicast6_iv in *.
    cbn [IsValid negb IsLoopback IsUnspecified String.eqb orb]. rewrite !andb_true_r, !eqb_iv.
    unfold within, tested6_ranges at 1. rewrite existsb_app. cbn [existsb fst snd]. fold (iv 1 1 n).
    fold (iv 0 0 n). fold (iv 0xfc000000000000000000000000000000 0xfdffffffffffffffffffffffffffffff n).
    fold (iv 0xfe800000000000000000000000000000 0xfebfffffffffffffffffffffffffffff n).
    fold (iv 0xff000000000000000000000000000000 0xffffffffffffffffffffffffffffffff n).
    destruct (IsLinkLocalMulticast (V6 n "")), (IsInterfaceLocalMulticast (V6 n ""));
      try specialize (Hll eq_refl); try specialize (Hil eq_refl);
      repeat match goal with |- context [iv ?a ?b n] => destruct (iv a b n) end; try done;
      by destruct (existsb _ _). }
  apply eq_true_iff_eq. split; apply within_in; reflexivity.
Qed.
End V6.

Lemma Unmap_cases a : addr_wf a → Zone a = ""%string →
  Unmap a = NoAddr ∨ (∃ n, Unmap a = V4 n ∧ 0 <= n < 2 ^ 32) ∨ (∃ n, Unmap a = V6 n "" ∧ 0 <= n < 2 ^ 128).
Proof.
  destruct a as [|n|n z]; cbn [addr_wf Zone Unmap]; intros Hw Hz; [by left | |].
  - right. left. exists n. split; [done | exact Hw].
  - subst z. right. destruct (is_4in6 n); [left | right; exists n; split; [done | exact Hw]].
    eexists. split; [done|]. change 0xffffffff with (Z.ones 32). rewrite Z.land_ones by done.
    by apply Z.mod_pos_bound.
Qed.

Lemma Unmap_twice a : Unmap (Unmap a) = Unmap a.
Proof.
  destruct a as [|k|k z]; cbn [Unmap]; [reflexivity..|].
  destruct (is_4in6 k) eqn:E4; cbn [Unmap]; [reflexivity|]. by rewrite E4.
Qed.

Lemma AddrRefusal_public a : addr_wf a → Zone a = ""%string →
  String.eqb (AddrRefusal a) "" = public a.
Proof.
  intros Hw Hz. rewrite AddrRefusal_refused. unfold public.
  destruct (Unmap_cases a Hw Hz) as [-> | [(n & -> & Hn) | (n & -> & Hn)]];
    [done | by rewrite refused_V4 | by rewrite refused_V6].
Qed.

(** The proxy reaches, with no rule naming it, exactly the addresses outside the
    table of internal ranges, IPv4 mapped into IPv6 read as IPv4: the tests of
    [net/netip] and the code's list of prefixes leave no gap and no overlap of
    consequence, whatever the address. *)
Theorem AddrRefusal_exact (a : Addr) : addr_wf a → Zone a = ""%string →
  (AddrRefusal a = ""%string ↔ public a = true).
Proof.
  intros Hw Hz. rewrite <- (AddrRefusal_public a Hw Hz). by rewrite String.eqb_eq.
Qed.

(** ** Dialling *)

Lemma first_refusal_None own host port ips l : first_refusal own host port ips l = None →
  ∀ a, a ∈ l → check_addr own host port ips a = None.
Proof.
  induction l as [|x l IH]; simpl; intros H a Ha; [by apply elem_of_nil in Ha|].
  destruct (check_addr own host port ips x) eqn:E; [done|].
  apply elem_of_cons in Ha as [->|Ha]; auto.
Qed.

Lemma dial_each_tried connects l a : a ∈ (dial_each connects l).1 → ∃ b, b ∈ l ∧ a = Unmap b.
Proof.
  induction l as [|x l IH]; simpl; intros H; [by apply elem_of_nil in H|].
  destruct (connects (Unmap x)); simpl in H.
  - apply list_elem_of_singleton in H as ->. exists x. split; [by left | done].
  - destruct (dial_each connects l) as [tried c]. simpl in *.
    apply elem_of_cons in H as [->|H]; [exists x; split; [by left | done]|].
    destruct (IH H) as (b & Hb & ->). exists b. split; [by right | done].
Qed.

(** Every address a direct dial connects to, or tries, is one the name resolved
    to and was checked: it is on the public internet or a rule that allowed the
    request names it, and it is not the proxy itself; if one address of the name
    fails the check, none is tried. *)
Theorem dialDirect_checked (own : Addr * Z) (resolve : string → result (list Addr)) (connects : Addr → bool)
    (host : string) (port : Z) (v : Verdict) (addrs tried : list Addr) (c : option Addr) :
  resolve host = Ok addrs → Forall addr_wf addrs → Forall (λ a, Zone a = ""%string) addrs →
  dialDirect own resolve connects host port v = dialled tried c →
  (∀ b, b ∈ addrs → (public b = true ∨ named (vd_AllowIPs v) (Unmap b) = true) ∧
                    self own (Unmap b) port = false) ∧
  ∀ a, a ∈ tried → ∃ b, b ∈ addrs ∧ a = Unmap b.
Proof.
  intros Hres Hwf Hz H. rewrite Forall_forall in Hwf, Hz. unfold dialDirect in H. rewrite Hres in H.
  destruct addrs as [|x addrs]; [done|].
  destruct (first_refusal own host port (vd_AllowIPs v) (x :: addrs)) eqn:Er; [done|].
  destruct (dial_each connects (x :: addrs)) as [tr c'] eqn:Ed. injection H as -> ->. split.
  - intros b Hb. pose proof (first_refusal_None _ _ _ _ _ Er b Hb) as Hc. unfold check_addr in Hc.
    destruct (self own (Unmap b) port); [done|]. split; [|done].
    destruct (named (vd_AllowIPs v) (Unmap b)); [by right|]. left.
    destruct (negb (String.eqb (AddrRefusal (Unmap b)) "")) eqn:En; [done|].
    apply negb_false_iff in En. rewrite <- (AddrRefusal_public b (Hwf _ Hb) (Hz _ Hb)).
    rewrite AddrRefusal_refused in *.
    by rewrite Unmap_twice in En.
  - intros a Ha. apply (dial_each_tried connects). by rewrite Ed.
Qed.

(** ** Concrete addresses *)

Lemma AddrRefusal_exact_witness :
  AddrRefusal (V6 0xffffa9fea9fe "") ≠ ""%string ∧
  (AddrRefusal (V4 0x08080808) = ""%string ↔ public (V4 0x08080808) = true).
Proof.
  split; [discriminate|]. apply (AddrRefusal_exact (V4 0x08080808)); [simpl; lia | reflexivity].
Defined.

Definition two_addresses : list Addr := [V4 0x08080808; V4 0x0a000001].
Definition ten_allowed : Verdict := MkVerdict Allow "rules[0] x" "an allow rule matches" [MkPrefix (V4 0x0a000000) 8] true.

Lemma dialDirect_checked_witness :
  dialDirect (V4 0x7f000001, 8080) (λ _, Ok two_addresses) (λ _, false) "x.test" 443 ten_allowed =
    dialled two_addresses None ∧
  (public (V4 0x0a000001) = true ∨ named (vd_AllowIPs ten_allowed) (V4 0x0a000001) = true).
Proof.
  split; [reflexivity|].
  destruct (dialDirect_checked (V4 0x7f000001, 8080) (λ _, Ok two_addresses) (λ _, false) "x.test" 443
    ten_allowed two_addresses two_addresses None) as [H _];
    [reflexivity | repeat constructor; simpl; lia | repeat constructor | reflexivity |].
  apply (H (V4 0x0a000001)). right. left.
Defined.
