(* ===== verification/EgressSpec.v ===== *)
(** What the egress policy promises: a compiled policy is well formed and stays
    so, a tunnel never lets through what a request inside it would be refused,
    and a grant opens exactly the hosts it names. *)

From Stdlib Require Import ZArith NArith Ascii String Lia Bool.
From stdpp Require Import base tactics list option strings.
From S2P Require Import Prelude.
From S2P Require Import GoStd.
From S2P Require Import Errors.
From S2P Require Import GoNet.
From S2P Require Import Egress.

#[local] Open Scope string_scope.
#[local] Open Scope Z_scope.

(** ** The decision, without its reasons *)

Definition denies (rs : list rule) (r : Request) : bool := existsb (λ ru, matches ru r && negb (ru_allow ru)) rs.
Definition allows (rs : list rule) (r : Request) : bool := existsb (λ ru, matches ru r && ru_allow ru) rs.

(** A path parameter, which no rule can allow. *)
Definition parameterised (r : Request) : bool := negb (rq_Tunnel r) && Contains (rq_Path r) ";".

Definition refusal_kind (p : Policy) : Decision := if pl_audit p then WouldDeny else Deny.

Definition decision (p : Policy) (r : Request) : Decision :=
  if parameterised r then Deny
  else if denies (all_rules p) r then refusal_kind p
  else if allows (all_rules p) r || pl_defaultAllow p then Allow
  else refusal_kind p.

(** Every rule has a name, which a compiled one always does. *)
Definition rules_named (p : Policy) : Prop := Forall (λ ru, ru_name ru ≠ "") (all_rules p).

Lemma matching_spec rs r denied ab : Forall (λ ru, ru_name ru ≠ "") rs →
  let '(denied', ab') := matching_rules rs r denied ab in
  String.eqb denied' "" = String.eqb denied "" && negb (denies rs r) ∧
  ab' = (ab ++ List.filter (λ ru, matches ru r && ru_allow ru) rs)%list.
Proof.
  revert denied ab. induction rs as [|ru rs IH]; intros denied ab H; simpl.
  { by rewrite andb_true_r, app_nil_r. }
  inversion H as [|? ? Hn Hrs]; subst. unfold denies. simpl. fold (denies rs r).
  destruct (matches ru r); cbn [negb andb orb]; [|by apply IH].
  destruct (ru_allow ru); cbn [negb orb].
  - specialize (IH denied (ab ++ [ru])%list Hrs). destruct (matching_rules _ _ _ _) as [d l].
    by rewrite <- app_assoc in IH.
  - specialize (IH (if String.eqb denied "" then ru_name ru else denied) ab Hrs).
    destruct (matching_rules _ _ _ _) as [d l]. destruct IH as [-> ->]. split; [|done].
    rewrite andb_false_r. destruct (String.eqb_spec denied "") as [->|Hd].
    + apply String.eqb_neq in Hn. by rewrite Hn.
    + apply String.eqb_neq in Hd. by rewrite Hd.
Qed.

Lemma allows_filter rs r :
  allows rs r = match List.filter (λ ru, matches ru r && ru_allow ru) rs with [] => false | _ => true end.
Proof.
  induction rs as [|ru rs IH]; [done|]. unfold allows. simpl. fold (allows rs r).
  by destruct (matches ru r && ru_allow ru).
Qed.

Lemma deny_decision p n w : vd_Decision (deny p n w) = refusal_kind p.
Proof. unfold deny, refusal_kind. by destruct (pl_audit p). Qed.

Lemma with_ips_decision ips v : vd_Decision (with_ips ips v) = vd_Decision v.
Proof. unfold with_ips. by case_bool_decide. Qed.

Lemma Decide_decision p r : rules_named p → vd_Decision (Decide p r) = decision p r.
Proof.
  intros Hn. unfold Decide, decision, parameterised.
  destruct (negb (rq_Tunnel r) && Contains (rq_Path r) ";"); [done|].
  pose proof (matching_spec (all_rules p) r "" [] Hn) as Hm.
  destruct (matching_rules _ _ _ _) as [d ab]. destruct Hm as [-> ->]. cbn [String.eqb andb negb].
  rewrite negb_involutive. destruct (denies (all_rules p) r).
  { by rewrite with_ips_decision, deny_decision. }
  rewrite allows_filter. simpl app.
  destruct (List.filter _ _); [|done]. cbn [orb]. destruct (pl_defaultAllow p); [done | apply deny_decision].
Qed.

Lemma Allowed_decision p r : rules_named p →
  Allowed (Decide p r) = negb (bool_decide (decision p r = Deny)).
Proof. intros Hn. unfold Allowed. by rewrite Decide_decision. Qed.

(** ** Tunnels and the requests inside them *)

Definition on_host (ru : rule) (r : Request) : bool :=
  HostMatches (ru_host ru) (ru_wildcard ru) (rq_Host r) && contains_port (ru_ports ru) (rq_Port r).

Lemma matches_on_host ru r : matches ru r = true → on_host ru r = true.
Proof. unfold matches, on_host. by destruct (HostMatches _ _ _), (contains_port _ _). Qed.

Lemma matches_tunnel ru host port m path :
  matches ru (MkRequest host port true m path) =
  on_host ru (MkRequest host port true m path) && (negb (narrowed ru) || negb (ru_allow ru)).
Proof. unfold matches, on_host. simpl. by destruct (HostMatches _ _ _), (contains_port _ _). Qed.

Lemma matches_broad ru r : narrowed ru = false → on_host ru r = true → matches ru r = true.
Proof.
  unfold narrowed, matches, on_host. rewrite orb_false_iff. intros [Hm Hp] Ho. apply andb_true_iff in Ho as [-> ->].
  rewrite Hm. cbn [negb orb andb]. apply Nat.ltb_ge in Hp.
  replace (length (ru_paths ru) =? 0)%nat with true by (symmetry; apply Nat.eqb_eq; lia).
  destruct (rq_Tunnel r); [|done]. unfold narrowed. rewrite Hm.
  by replace (0 <? length (ru_paths ru))%nat with false by (symmetry; apply Nat.ltb_ge; lia).
Qed.

Definition host_allows (rs : list rule) (r : Request) : bool := existsb (λ ru, on_host ru r && ru_allow ru) rs.
Definition host_denies (rs : list rule) (r : Request) : bool :=
  existsb (λ ru, on_host ru r && negb (ru_allow ru) && negb (narrowed ru)) rs.

Lemma host_matching_spec rs r allowed denied ips exact : Forall (λ ru, ru_name ru ≠ "") rs →
  let '(allowed', denied', _, _) := host_matching rs r allowed denied ips exact in
  String.eqb denied' "" = String.eqb denied "" && negb (host_denies rs r) ∧
  String.eqb allowed' "" = String.eqb allowed "" && negb (host_allows rs r).
Proof.
  revert allowed denied ips exact. induction rs as [|ru rs IH]; intros allowed denied ips exact H; simpl.
  { by rewrite !andb_true_r. }
  inversion H as [|? ? Hn Hrs]; subst. apply String.eqb_neq in Hn.
  unfold host_denies, host_allows. simpl. fold (host_denies rs r) (host_allows rs r).
  rewrite <- negb_andb. fold (on_host ru r).
  destruct (on_host ru r); cbn [negb andb orb]; [|by apply IH].
  destruct (ru_allow ru); cbn [negb andb orb].
  - specialize (IH (if String.eqb allowed "" then ru_name ru else allowed) denied
      (ips ++ ru_allowIPs ru)%list (exact || negb (ru_wildcard ru)) Hrs).
    destruct (host_matching _ _ _ _ _ _) as [[[a d] i] e]. destruct IH as [-> ->]. split; [done|].
    rewrite andb_false_r. destruct (String.eqb allowed "") eqn:E; [by rewrite Hn | by rewrite E].
  - destruct (narrowed ru); cbn [negb andb orb]; [by apply IH|].
    destruct (String.eqb denied "") eqn:E; cbn [andb].
    + specialize (IH allowed (ru_name ru) ips exact Hrs).
      destruct (host_matching _ _ _ _ _ _) as [[[a d] i] e]. destruct IH as [-> ->]. by rewrite Hn.
    + specialize (IH allowed denied ips exact Hrs).
      destruct (host_matching _ _ _ _ _ _) as [[[a d] i] e]. destruct IH as [-> ->]. by rewrite E.
Qed.

Lemma DecideHost_decision p r : rules_named p →
  vd_Decision (DecideHost p r) =
    if host_denies (all_rules p) r then refusal_kind p
    else if host_allows (all_rules p) r || pl_defaultAllow p then Allow else refusal_kind p.
Proof.
  intros Hn. unfold DecideHost. pose proof (host_matching_spec (all_rules p) r "" "" [] false Hn) as H.
  destruct (host_matching _ _ _ _ _ _) as [[[a d] i] e]. destruct H as [-> ->]. cbn [String.eqb andb].
  rewrite !negb_involutive. destruct (host_denies _ r); [by rewrite with_ips_decision, deny_decision|].
  destruct (host_allows _ r); cbn [orb]; [done|].
  destruct (pl_defaultAllow p); [done | apply deny_decision].
Qed.

(** A tunnel the proxy does not look inside is let open only when every plain
    request to that host and port would be, whatever its method and path (a path
    with a [;] apart, refused before any rule); and the tunnel it will look inside
    is refused only when every such request would be. In enforce mode. *)
Theorem tunnel_sound (p : Policy) (host : string) (port : Z) (method path : string) :
  rules_named p → pl_audit p = false → Contains path ";" = false →
  (Allowed (Decide p (MkRequest host port true "CONNECT" "")) = true →
     Allowed (Decide p (MkRequest host port false method path)) = true) ∧
  (Allowed (DecideHost p (MkRequest host port true "CONNECT" "")) = false →
     Allowed (Decide p (MkRequest host port false method path)) = false).
Proof.
  intros Hn Ha Hs. set (t := MkRequest host port true "CONNECT" ""). set (q := MkRequest host port false method path).
  assert (∀ ru, on_host ru q = on_host ru t) as Hh by done.
  rewrite !Allowed_decision by done. unfold Allowed. rewrite DecideHost_decision by done.
  unfold decision, refusal_kind. rewrite Ha.
  change (parameterised t) with false. unfold parameterised. change (rq_Path q) with path. rewrite Hs.
  change (negb (rq_Tunnel q) && false) with false. cbv iota. split.
  - assert (denies (all_rules p) q = true → denies (all_rules p) t = true) as Hd.
    { unfold denies. rewrite !existsb_exists. intros (ru & Hru & [Hm Hal]%andb_true_iff).
      exists ru. split; [done|]. unfold t. rewrite matches_tunnel, Hal, orb_true_r.
      apply matches_on_host in Hm. fold t. by rewrite <- Hh, Hm. }
    assert (allows (all_rules p) t = true → allows (all_rules p) q = true) as Hal.
    { unfold allows. rewrite !existsb_exists. intros (ru & Hru & [Hm Hal]%andb_true_iff).
      exists ru. split; [done|]. rewrite Hal. unfold t in Hm. rewrite matches_tunnel in Hm. fold t in Hm.
      apply andb_true_iff in Hm as [Ho Hnar]. rewrite Hal, orb_false_r in Hnar.
      rewrite matches_broad; [done | by apply negb_true_iff | by rewrite Hh]. }
    destruct (denies (all_rules p) t) eqn:Edt; [done|].
    destruct (denies (all_rules p) q) eqn:Edq; [by specialize (Hd eq_refl)|].
    destruct (allows (all_rules p) t); cbn [orb]; [by rewrite Hal|].
    destruct (pl_defaultAllow p); [by rewrite orb_true_r | done].
  - assert (host_denies (all_rules p) t = true → denies (all_rules p) q = true) as Hd.
    { unfold host_denies, denies. rewrite !existsb_exists.
      intros (ru & Hru & [[Ho Hal]%andb_true_iff Hnar%negb_true_iff]%andb_true_iff).
      exists ru. split; [done|]. rewrite matches_broad; done. }
    assert (allows (all_rules p) q = true → host_allows (all_rules p) t = true) as Hal.
    { unfold host_allows, allows. rewrite !existsb_exists. intros (ru & Hru & [Hm Hal]%andb_true_iff).
      exists ru. split; [done|]. apply matches_on_host in Hm. by rewrite <- Hh, Hm, Hal. }
    destruct (host_denies (all_rules p) t); [by rewrite Hd|].
    destruct (denies (all_rules p) q); [done|].
    destruct (allows (all_rules p) q); [by rewrite Hal|]. cbn [orb].
    destruct (host_allows _ t), (pl_defaultAllow p); done.
Qed.

(** ** Grants *)

Section grants.
Context (ParseAddr : string → option Addr) (AddrString : Addr → string).
Context (ParsePrefix : string → option Prefix).
Abbreviation compile_host := (compile_host ParseAddr AddrString).
Abbreviation Grant := (Grant ParseAddr AddrString ParsePrefix).

(** What a granted host compiles to. *)
Lemma grant_rule_Ok name h r : grant_rule ParseAddr AddrString ParsePrefix name h = Ok r →
  ∃ c, compile_host h = Ok (c, false) ∧
    r = mkrule ((name ++ " ") ++ h) c false [443] [] [] [] true [].
Proof.
  unfold grant_rule, compileRule. cbn [er_Decision er_Host er_Ports er_Methods er_Paths er_AllowIPs].
  change (String.eqb "allow" "allow") with true. cbv iota.
  destruct (compile_host h) as [[c w]|e] eqn:E; [|done]. cbn.
  destruct w; [done|]. intros [= <-]. exists c. split; [done|].
  unfold set_name. simpl. by rewrite str_app_assoc.
Qed.

Lemma map_result_Forall2 {A B} (f : A → result B) l out : map_result f l = Ok out →
  Forall2 (λ x y, f x = Ok y) l out.
Proof.
  revert out. induction l as [|x l IH]; intros out; simpl; [intros [= <-]; constructor|].
  destruct (f x) eqn:E; [|done]. destruct (map_result f l); [|done]. intros [= <-]. by constructor; auto.
Qed.

Lemma granted_name name h : (name ++ " ") ++ h ≠ "".
Proof. destruct name; done. Qed.

(** The rules a grant adds. *)
Definition granted_rule (hosts : list string) (ru : rule) : Prop :=
  ru_name ru ≠ "" ∧ ∃ h, h ∈ hosts ∧ compile_host h = Ok (ru_host ru, false) ∧
    ru_wildcard ru = false ∧ ru_ports ru = [443] ∧ ru_methods ru = [] ∧ ru_paths ru = [] ∧
    ru_prefix ru = [] ∧ ru_allow ru = true ∧ ru_allowIPs ru = [].

Lemma Grant_Ok name hosts p p' : Grant name hosts p = Ok p' →
  ∃ add, p' = MkPolicy (pl_rules p) (pl_granted p ++ add)%list (pl_defaultAllow p) (pl_audit p)
    (pl_hidePaths p) (pl_inspect p) (pl_idle p) ∧ Forall (granted_rule hosts) add.
Proof.
  unfold Egress.Grant. destruct (map_result _ hosts) as [add|e] eqn:E; [|done]. intros [= <-].
  exists add. split; [done|]. apply map_result_Forall2 in E. apply Forall_forall. intros ru Hru.
  apply list_elem_of_lookup in Hru as [i Hi]. destruct (Forall2_lookup_r _ _ _ _ _ E Hi) as (h & Hh & Hr).
  apply grant_rule_Ok in Hr as (c & Hc & ->). split; [apply granted_name|].
  exists h. apply list_elem_of_lookup_2 in Hh. done.
Qed.

Lemma granted_matches hosts ru r : granted_rule hosts ru → matches ru r = true →
  rq_Port r = 443 ∧ ∃ h, h ∈ hosts ∧ compile_host h = Ok (rq_Host r, false).
Proof.
  intros (_ & h & Hh & Hc & Hw & Hp & _) Hm%matches_on_host. unfold on_host, HostMatches in Hm.
  rewrite Hw, Hp in Hm. apply andb_true_iff in Hm as [Heq%String.eqb_eq Hport].
  unfold contains_port in Hport. apply bool_decide_eq_true, list_elem_of_singleton in Hport.
  split; [done|]. exists h. by rewrite Heq.
Qed.

(** Granting hosts refuses nothing that was allowed, and whatever it newly
    allows is port 443 of one of those hosts, exactly as it compiles, with no
    deny rule against it: a grant never reaches past an administrator's deny,
    never widens to another port, and never to a name below the host. A grant
    with one host that is no exact name adds none. *)
Theorem Grant_opens_only (name : string) (hosts : list string) (p p' : Policy) (r : Request) :
  rules_named p → Grant name hosts p = Ok p' →
  rules_named p' ∧ (Allowed (Decide p r) = true → Allowed (Decide p' r) = true) ∧
  (Allowed (Decide p r) = false → Allowed (Decide p' r) = true →
     rq_Port r = 443 ∧ (∃ h, h ∈ hosts ∧ compile_host h = Ok (rq_Host r, false)) ∧
     denies (all_rules p) r = false).
Proof.
  intros Hn Hg. destruct (Grant_Ok _ _ _ _ Hg) as (add & Ep & Hadd). rewrite Forall_forall in Hadd.
  assert (all_rules p' = (all_rules p ++ add)%list) as Er.
  { subst p'. unfold all_rules. cbn [pl_rules pl_granted]. by rewrite app_assoc. }
  assert (rules_named p') as Hn'.
  { unfold rules_named. rewrite Er. apply Forall_app. split; [done|].
    apply Forall_forall. intros ru Hru. by destruct (Hadd ru Hru). }
  assert (denies (all_rules p') r = denies (all_rules p) r) as Ed.
  { rewrite Er. unfold denies. rewrite existsb_app.
    replace (existsb _ add) with false; [by rewrite orb_false_r|]. symmetry.
    apply not_true_iff_false. rewrite existsb_exists. intros (ru & Hru & H).
    apply list_elem_of_In in Hru. destruct (Hadd ru Hru) as (_ & h & _ & _ & _ & _ & _ & _ & _ & Ha & _).
    by rewrite Ha, andb_false_r in H. }
  assert (allows (all_rules p') r = allows (all_rules p) r || allows add r) as Ea.
  { rewrite Er. unfold allows. by rewrite existsb_app. }
  split; [done|]. rewrite !Allowed_decision by done. unfold decision. rewrite Ed, Ea.
  replace (refusal_kind p') with (refusal_kind p) by (by subst p').
  replace (pl_defaultAllow p') with (pl_defaultAllow p) by (by subst p').
  destruct (parameterised r); [by split|]. destruct (denies (all_rules p) r); [by split; [|intros ->]|].
  split.
  - by destruct (allows (all_rules p) r), (allows add r), (pl_defaultAllow p).
  - destruct (allows (all_rules p) r); cbn [orb]; [done|].
    destruct (allows add r) eqn:Eadd; cbn [orb].
    + intros _ _. unfold allows in Eadd. apply existsb_exists in Eadd as (ru & Hru%list_elem_of_In & [Hm _]%andb_true_iff).
      destruct (granted_matches hosts ru r (Hadd ru Hru) Hm) as [Hp Hh]. done.
    + by intros ->.
Qed.
End grants.

(** ** Concrete policies *)

(** A deny rule on one path, an allow rule on the whole host. *)
Definition docs_policy : Policy :=
  MkPolicy [ mkrule "rules[0] a.test" "a.test" false [80; 443] [] [] [] true [];
             mkrule "rules[1] a.test" "a.test" false [80] [] ["/private/"] [true] false [] ]
    [] false false false false DefaultIdle.

Lemma tunnel_sound_witness :
  Allowed (Decide docs_policy (MkRequest "a.test" 80 true "CONNECT" "")) = false ∧
  Allowed (DecideHost docs_policy (MkRequest "a.test" 80 true "CONNECT" "")) = true ∧
  Allowed (Decide docs_policy (MkRequest "a.test" 443 false "GET" "/private/x")) = true.
Proof.
  split; [reflexivity|]. split; [reflexivity|].
  apply (tunnel_sound docs_policy "a.test" 443 "GET" "/private/x").
  - repeat constructor; discriminate.
  - reflexivity.
  - reflexivity.
  - reflexivity.
Defined.

Lemma Grant_opens_only_witness :
  ∃ p', Grant (λ _, None) (λ _, "") (λ _, None) "registry" ["Registry.NPMjs.org."] docs_policy = Ok p' ∧
    Allowed (Decide p' (MkRequest "registry.npmjs.org" 443 true "CONNECT" "")) = true ∧
    denies (all_rules docs_policy) (MkRequest "registry.npmjs.org" 443 true "CONNECT" "") = false.
Proof.
  eexists. split; [vm_compute; reflexivity|]. split; [vm_compute; reflexivity|].
  refine (proj2 (proj2 (proj2 (proj2 (Grant_opens_only (λ _, None) (λ _, "") (λ _, None) "registry"
    ["Registry.NPMjs.org."] docs_policy _ (MkRequest "registry.npmjs.org" 443 true "CONNECT" "") _ _)) _ _))).
  - repeat constructor; discriminate.
  - vm_compute. reflexivity.
  - vm_compute. reflexivity.
  - vm_compute. reflexivity.
Defined.

(** * Theorems

    A compiled egress policy is well formed, and stays so whatever is granted:
    every rule has a name, ports in range, plain paths and one spelling of its
    host, so that a request's canonical host can be compared with it byte by
    byte. *)

(** What the text forms of addresses promise: an address that parsed prints in
    lower case, without a trailing dot, in at most 253 bytes, and parses back
    to itself. *)
Class NetipText (ParseAddr : string → option Addr) (AddrString : Addr → string) : Prop := {
  printed_reparses s a : ParseAddr s = Some a → Zone a = "" → Is4In6 a = false →
    ParseAddr (AddrString a) = Some a;
  printed_form s a : ParseAddr s = Some a → Zone a = "" → Is4In6 a = false →
    ToLower (AddrString a) = AddrString a ∧ HasSuffix (AddrString a) "." = false ∧
    AddrString a ≠ "" ∧ (String.length (AddrString a) ≤ 253)%nat
}.

(** ** Strings *)

Lemma prefix_app p s : HasPrefix s p = true ↔ ∃ t, s = p ++ t.
Proof.
  unfold HasPrefix. revert s. induction p as [|c p IH]; intros s.
  - split; [by exists s | by destruct s].
  - destruct s as [|d s]; simpl.
    + split; [done | by intros (t & ?)].
    + destruct (ascii_dec c d) as [->|Hd].
      * rewrite IH. split; intros (t & Ht); exists t; [by rewrite Ht | by injection Ht].
      * split; [done|]. intros (t & Ht). by injection Ht as ->.
Qed.

Lemma str_rev_app s t : str_rev (s ++ t) = str_rev t ++ str_rev s.
Proof.
  unfold str_rev. rewrite bytes_app, reverse_app.
  generalize (reverse (bytes t)). intros l. induction l as [|c l IH]; [done|]. simpl. by rewrite IH.
Qed.
Lemma str_rev_rev s : str_rev (str_rev s) = s.
Proof. unfold str_rev. by rewrite bytes_of_bytes, reverse_involutive, of_bytes_bytes. Qed.

Lemma suffix_app s p : HasSuffix s p = true ↔ ∃ t, s = t ++ p.
Proof.
  unfold HasSuffix. rewrite prefix_app. split; intros (t & Ht).
  - exists (str_rev t). rewrite <- (str_rev_rev s), Ht, str_rev_app. by rewrite str_rev_rev.
  - exists (str_rev t). by rewrite Ht, str_rev_app.
Qed.

Lemma Split_snoc t c : Split (t ++ String c "") c = (Split t c ++ [""])%list.
Proof.
  induction t as [|d t IH].
  - change ("" ++ String c "") with (String c ""). cbn [Split]. by rewrite Ascii.eqb_refl.
  - rewrite str_app_cons. cbn [Split]. rewrite IH. destruct (d =c c); [done|].
    destruct (Split t c) eqn:E; [by apply Split_nonempty in E | done].
Qed.

Lemma Split_forall (p : ascii → bool) s c :
  Forall (λ l, str_forall p l = true) (Split s c) → str_forall (λ d, p d || (d =c c)) s = true.
Proof.
  induction s as [|d s IH]; [done|]. cbn [Split str_forall]. destruct (d =c c).
  - intros H. rewrite orb_true_r. apply IH. by inversion H.
  - rewrite orb_false_r. destruct (Split s c) as [|l ls].
    + intros H. inversion H as [|? ? Hd _]; subst. simpl in Hd.
      rewrite andb_true_r in Hd. rewrite Hd. by apply IH.
    + intros H. inversion H as [|? ? Hd Hl]; subst. simpl in Hd. apply andb_true_iff in Hd as [-> Hs].
      apply IH. by constructor.
Qed.

Lemma first_error_Forall {A} (f : A → option error) l : first_error f l = None ↔ Forall (λ x, f x = None) l.
Proof. by rewrite first_error_None, Forall_forall. Qed.

(** Bytes [ToLower] keeps. *)
Definition lower_ascii (c : ascii) : bool := (bv c <? 128)%N && negb (in_range "A" "Z" c).

Lemma ToLower_cons a r : (bv a < 128)%N → ToLower (String a r) = String (lower_byte a) (ToLower r).
Proof.
  intros Ha. destruct r as [|b [|c r]]; [done| |]; simpl;
    rewrite (proj2 (N.eqb_neq (bv a) 196)) by lia; cbn [andb]; [done|].
  by rewrite (proj2 (N.eqb_neq (bv a) 226)) by lia.
Qed.

Lemma ToLower_fixed s : str_forall lower_ascii s = true → ToLower s = s.
Proof.
  induction s as [|a r IH]; [done|]. cbn [str_forall]. intros [Ha Hr]%andb_true_iff.
  unfold lower_ascii in Ha. apply andb_true_iff in Ha as [Hlt%N.ltb_lt Hup%negb_true_iff].
  rewrite ToLower_cons, IH by done. unfold lower_byte. by rewrite Hup.
Qed.

Lemma host_byte_lower c : host_byte c || (c =c ".") = true → lower_ascii c = true.
Proof. destruct c as [[] [] [] [] [] [] [] []]; vm_compute; congruence. Qed.

Lemma trim_left_set_nil set s : trim_left_set set s = "" ↔ str_forall (byte_in set) s = true.
Proof. induction s as [|c s IH]; simpl; [done|]. by destruct (byte_in set c). Qed.

Lemma str_forall_rev p s : str_forall p (str_rev s) = str_forall p s.
Proof.
  apply eq_true_iff_eq. rewrite !str_forall_spec. unfold str_rev. rewrite bytes_of_bytes.
  split; intros H c Hc; apply H; by rewrite ?elem_of_reverse in *.
Qed.

Lemma trim_left_idem set s : str_forall (byte_in set) (trim_left_set set s) = str_forall (byte_in set) s.
Proof. induction s as [|c s IH]; simpl; [done|]. destruct (byte_in set c) eqn:E; [done|]. simpl. by rewrite E. Qed.

(** [Trim s set == ""]: every byte of [s] is in the set. *)
Lemma Trim_empty s set : String.eqb (Trim s set) "" = str_forall (byte_in set) s.
Proof.
  apply eq_true_iff_eq. rewrite String.eqb_eq. unfold Trim. split.
  - intros H. apply (f_equal str_rev) in H. rewrite str_rev_rev in H. change (str_rev "") with "" in H.
    apply trim_left_set_nil in H. by rewrite str_forall_rev, trim_left_idem in H.
  - intros H%trim_left_set_nil. by rewrite H.
Qed.

(** ** One spelling of a host *)

Section netip.
Context (ParseAddr : string → option Addr) (AddrString : Addr → string).
Context (ParsePrefix : string → option Prefix).
Context {TextLaws : NetipText ParseAddr AddrString}.
Abbreviation CanonicalHost := (CanonicalHost ParseAddr AddrString).

Lemma TrimSuffix_none s p : HasSuffix s p = false → TrimSuffix s p = s.
Proof. unfold TrimSuffix. by intros ->. Qed.

(** The one spelling is its own. *)
Lemma CanonicalHost_idem host c : CanonicalHost host = Ok c → CanonicalHost c = Ok c.
Proof.
  unfold Egress.CanonicalHost. set (h := ToLower (TrimSuffix host ".")).
  destruct (String.eqb h "" || (253 <? String.length h)%nat) eqn:Hlen; [done|].
  destruct (ParseAddr h) as [a|] eqn:Ha.
  - destruct (String.eqb_spec (Zone a) "") as [Hz|]; [|done]. cbn [negb].
    destruct (Is4In6 a) eqn:H4; [done|]. intros [= <-].
    destruct (printed_form h a Ha Hz H4) as (Hl & Hs & Hne & Hn).
    rewrite TrimSuffix_none, Hl by done. rewrite (proj2 (String.eqb_neq _ _) Hne).
    rewrite (proj2 (Nat.ltb_ge 253 _)) by done. cbn [orb].
    rewrite (printed_reparses h a Ha Hz H4), Hz, H4. done.
  - destruct (first_error label_error (Split h ".")) eqn:Hl; [done|].
    destruct (HasPrefix _ "0x" || _) eqn:Hlast; [done|]. intros [= <-].
    apply first_error_Forall in Hl.
    assert (HasSuffix h "." = false) as Hdot.
    { apply not_true_iff_false. intros (t & Ht)%suffix_app. rewrite Ht, Split_snoc in Hl.
      apply Forall_app in Hl as [_ Hl]. inversion Hl as [|? ? Hbad]; subst. done. }
    assert (ToLower h = h) as Hlow.
    { apply ToLower_fixed. assert (str_forall (λ d, host_byte d || (d =c ".")) h = true) as Hb.
      { apply Split_forall. eapply Forall_impl; [exact Hl|]. intros l. unfold label_error, fail_if.
        destruct (String.eqb l "" || _); [done|]. destruct (str_forall host_byte l); cbn; congruence. }
      rewrite str_forall_spec in Hb. apply str_forall_spec. intros c Hc. apply host_byte_lower. by apply Hb. }
    rewrite TrimSuffix_none by done. rewrite !Hlow, Hlen, Ha.
    rewrite (proj2 (first_error_Forall _ _) Hl). by rewrite Hlast.
Qed.

(** ** Rules *)

Definition host_wf (host : string) (wildcard : bool) : Prop :=
  if wildcard
  then ∃ rest, host = "." ++ rest ∧ CanonicalHost rest = Ok rest ∧ ParseAddr rest = None ∧ Contains rest "." = true
  else CanonicalHost host = Ok host.

Definition path_wf (p : string) (pre : bool) : Prop :=
  plainPath p = None ∧ Contains p "*" = false ∧ (pre = true → HasSuffix p "/" = true).

Record rule_wf (ru : rule) : Prop := {
  rw_host : host_wf (ru_host ru) (ru_wildcard ru);
  rw_ports : ru_ports ru ≠ [] ∧ Forall (λ p, 1 <= p <= 65535) (ru_ports ru);
  rw_methods : Forall (λ m, m ≠ "" ∧ str_forall (byte_in upper_letters) m = true) (ru_methods ru);
  rw_paths : Forall2 path_wf (ru_paths ru) (ru_prefix ru);
  rw_ips : Forall (λ p, Masked p = p) (ru_allowIPs ru)
}.

Lemma compile_host_wf host c w : compile_host ParseAddr AddrString host = Ok (c, w) → host_wf c w.
Proof.
  unfold compile_host. set (h := TrimSuffix _ "."). destruct (CutPrefix h "*.") as [rest|].
  - destruct (Contains rest ".") eqn:Hc; cbn [negb]; [|done].
    destruct (CanonicalHost rest) as [c'|] eqn:E; [|done].
    destruct (String.eqb_spec c' rest) as [->|]; cbn [negb]; [|done].
    destruct (ParseAddr rest) eqn:Ha; [done|]. intros [= <- <-]. by exists rest.
  - destruct (CanonicalHost (Trim h "[]")) as [c'|] eqn:E; [|done]. intros [= <- <-].
    by apply CanonicalHost_idem in E.
Qed.

Lemma map_result_Forall {A B} (f : A → result B) (P : B → Prop) l out :
  (∀ x y, f x = Ok y → P y) → map_result f l = Ok out → Forall P out.
Proof.
  intros Hf H%map_result_Forall2. induction H; constructor; eauto.
Qed.

Lemma compile_port_wf x y : compile_port x = Ok y → 1 <= y <= 65535.
Proof. unfold compile_port. destruct (_ || _) eqn:E; [done|]. intros [= <-]. lia. Qed.

Lemma compile_method_wf x y : compile_method x = Ok y → y ≠ "" ∧ str_forall (byte_in upper_letters) y = true.
Proof.
  unfold compile_method. rewrite Trim_empty. destruct (String.eqb_spec x ""); [done|]. cbn [orb].
  destruct (str_forall _ x) eqn:E; cbn [negb]; [|done]. by intros [= <-].
Qed.

Lemma compile_path_wf x y : compile_path x = Ok y → path_wf y.1 y.2.
Proof.
  unfold compile_path. destruct (HasPrefix x "/"); cbn [negb]; [|done].
  destruct (match CutSuffix x "/*" with Some s => _ | None => _ end) as [p pre] eqn:E.
  destruct (Contains p "*") eqn:Hc; [done|]. destruct (plainPath p) eqn:Hp; [done|]. intros [= <-].
  split; [done|]. split; [done|]. cbn [fst snd]. intros ->.
  destruct (CutSuffix x "/*") as [s|]; [|done]. injection E as <-. apply suffix_app. by exists s.
Qed.

Lemma shift_clear_idem n k : Z.shiftl (Z.shiftr (Z.shiftl (Z.shiftr n k) k) k) k = Z.shiftl (Z.shiftr n k) k.
Proof.
  destruct (Z.le_gt_cases 0 k).
  - by rewrite Z.shiftr_shiftl_l, Z.sub_diag, Z.shiftl_0_r by done.
  - assert (∀ m, Z.shiftl (Z.shiftr m k) k = m) as Hm; [|by rewrite !Hm].
    intros m. replace k with (- - k) by lia. rewrite Z.shiftr_opp_r, Z.shiftl_opp_r.
    by rewrite Z.shiftr_shiftl_l, Z.sub_diag, Z.shiftl_0_r by lia.
Qed.

Lemma Masked_idem p : Masked (Masked p) = Masked p.
Proof. unfold Masked. destruct p as [[|n|n z] b]; cbn [pf_addr pf_bits]; by rewrite ?shift_clear_idem. Qed.

Lemma compile_allow_ip_wf x y : compile_allow_ip ParseAddr ParsePrefix x = Ok y → Masked y = y.
Proof.
  unfold compile_allow_ip. destruct (ParsePrefix x); [intros [= <-]; apply Masked_idem|].
  destruct (ParseAddr x) as [a|]; [|done]. destruct (negb _); [done|]. intros [= <-]. apply Masked_idem.
Qed.

Lemma set_name_wf n ru : rule_wf ru → rule_wf (set_name n ru).
Proof. by intros []. Qed.

Lemma compileRule_wf r ru : compileRule ParseAddr AddrString ParsePrefix r = Ok ru → rule_wf ru.
Proof.
  unfold compileRule. destruct (if String.eqb _ "allow" then _ else _) as [al|]; [|done].
  destruct (compile_host ParseAddr AddrString (er_Host r)) as [[h w]|] eqn:Eh; [|done].
  destruct (map_result compile_port _) as [ports|] eqn:Ep; [|done].
  destruct (map_result compile_method _) as [methods|] eqn:Em; [|done].
  destruct (map_result compile_path _) as [paths|] eqn:Epa; [|done].
  destruct (map_result (compile_allow_ip _ _) _) as [ips|] eqn:Ei; [|done]. intros [= <-].
  pose proof (map_result_Forall _ _ _ _ compile_port_wf Ep) as Hp. split; simpl.
  - by eapply compile_host_wf.
  - destruct ports; [|done]. split; [done|]. repeat constructor; lia.
  - by eapply map_result_Forall, Em; apply compile_method_wf.
  - pose proof (map_result_Forall _ _ _ _ compile_path_wf Epa) as H. clear -H.
    induction H; constructor; auto.
  - eapply map_result_Forall, Ei. apply compile_allow_ip_wf.
Qed.

(** ** Policies *)

(** What a policy is once compiled and after any grants. *)
Inductive policy_reach (c : Config) : Policy → Prop :=
  | reach_compile p : Compile ParseAddr AddrString ParsePrefix c = Ok p → policy_reach c p
  | reach_grant p name hosts p' : policy_reach c p →
      Grant ParseAddr AddrString ParsePrefix name hosts p = Ok p' → policy_reach c p'.

Lemma compile_rules_wf i rs out : compile_rules ParseAddr AddrString ParsePrefix i rs = Ok out →
  Forall (λ ru, rule_wf ru ∧ ru_name ru ≠ "") out ∧ length out = length rs.
Proof.
  revert i out. induction rs as [|r rs IH]; intros i out; simpl; [by intros [= <-]|].
  destruct (compileRule _ _ _ r) as [ru|] eqn:Er; [|done].
  destruct (compile_rules _ _ _ (i + 1) rs) as [rest|] eqn:Ec; [|done]. intros [= <-].
  destruct (IH _ _ Ec) as [Hf Hl]. split; [|by simpl; rewrite Hl]. constructor; [|done].
  split; [by eapply set_name_wf, compileRule_wf | done].
Qed.

Lemma Compile_wf c p : Compile ParseAddr AddrString ParsePrefix c = Ok p →
  Forall (λ ru, rule_wf ru ∧ ru_name ru ≠ "") (pl_rules p) ∧ pl_granted p = [].
Proof.
  unfold Compile. destruct (compile_choice "default" _ _ _); [|done].
  destruct (compile_choice "mode" _ _ _); [|done]. destruct (_ <? 0); [done|].
  destruct (compile_rules _ _ _ 0 _) as [rs|] eqn:E; [|done]. intros [= <-]. simpl.
  apply compile_rules_wf in E as [H _]. done.
Qed.

(** Every rule of a policy, compiled and granted, is well formed and named, and
    what was granted is exact, allows, and covers port 443 alone, without
    narrowing by method or path: whatever the configuration and whatever hosts
    are granted, in any order. The paths a request's path is compared with are
    plain ones, the ports are port numbers, and a host is compared in its one
    spelling; a wildcard covers at least two labels and no address. *)
Theorem policy_wf (c : Config) (p : Policy) : policy_reach c p →
  Forall (λ ru, rule_wf ru ∧ ru_name ru ≠ "") (all_rules p) ∧
  Forall (λ ru, ru_wildcard ru = false ∧ ru_allow ru = true ∧ ru_ports ru = [443] ∧ narrowed ru = false)
    (pl_granted p).
Proof.
  induction 1 as [p H | p name hosts p' _ [IH1 IH2] H].
  - destruct (Compile_wf _ _ H) as [Hr Hg]. unfold all_rules. rewrite Hg, app_nil_r. done.
  - destruct (Grant_Ok _ _ _ _ _ _ _ H) as (add & -> & Hadd). unfold all_rules in *. simpl.
    apply Forall_app in IH1 as [Hr Hg]. split; repeat (apply Forall_app_2; [done|]).
    + eapply Forall_impl; [exact Hadd|]. intros ru (Hn & h & _ & Hc & Hw & Hp & Hm & Hpa & Hpr & _ & Hi).
      split; [|done].
      split; rewrite ?Hw, ?Hp, ?Hm, ?Hpa, ?Hpr, ?Hi; [by eapply compile_host_wf | | by constructor..].
      split; [done|]. repeat constructor; lia.
    + eapply Forall_impl; [exact Hadd|]. intros ru (_ & h & _ & _ & Hw & Hp & Hm & Hpa & _ & Ha & _).
      unfold narrowed. by rewrite Hw, Ha, Hp, Hm, Hpa.
Qed.
End netip.

(** ** A concrete reader of addresses: one address in two spellings *)

Definition parse_two (s : string) : option Addr :=
  if String.eqb s "2606:4700::1111" || String.eqb s "2606:4700:0::1111"
  then Some (V6 0x26064700000000000000000000001111 "") else None.
Definition print_two (a : Addr) : string := "2606:4700::1111".

#[export] Instance two_text : NetipText parse_two print_two.
Proof.
  split; intros s a H _ _; unfold parse_two in H; destruct (_ || _) in H; try discriminate; injection H as <-.
  - reflexivity.
  - split; [reflexivity|]. split; [reflexivity|]. split; [discriminate|]. simpl. lia.
Qed.

Definition two_rules : Config :=
  MkConfig [ MkRule "[2606:4700:0::1111]" [] ["GET"] ["/v1/*"] "allow" [];
             MkRule "*.Example.COM." [8443] [] [] "deny" [] ] "" "audit" None 30 false.

Lemma policy_wf_witness : ∃ p, policy_reach parse_two print_two (λ _, None) two_rules p ∧
  map ru_host (all_rules p) = ["2606:4700::1111"; ".example.com"; "registry.test"] ∧
  Forall (λ ru, rule_wf parse_two print_two ru ∧ ru_name ru ≠ "") (all_rules p).
Proof.
  eexists. match goal with |- ?A ∧ _ => assert A as H end.
  { eapply (reach_grant _ _ _ _ _ "pkg" ["registry.test"]).
    - apply reach_compile. vm_compute. reflexivity.
    - vm_compute. reflexivity. }
  split; [exact H|]. split; [vm_compute; reflexivity|].
  exact (proj1 (policy_wf parse_two print_two (λ _, None) two_rules _ H)).
Defined.
