(* ===== verification/GoPath.v ===== *)
(** More of Go's standard library: packages [path] and [path/filepath] on Unix,
    and the decoding of UTF-8. *)

From Stdlib Require Import ZArith NArith Ascii String Lia Bool.
From stdpp Require Import base tactics list option strings.
From S2P Require Import Prelude.
From S2P Require Import GoStd.
From S2P Require Import GoNet.

#[local] Open Scope string_scope.

(** ** Paths *)

Fixpoint trim_trailing (c : ascii) (l : list ascii) : list ascii :=
  match l with
  | d :: l' => if d =c c then trim_trailing c l' else l
  | [] => []
  end.

(** The bytes before the first [c] of a reversed string: what follows its last. *)
Fixpoint before (c : ascii) (l : list ascii) : list ascii :=
  match l with
  | d :: l' => if d =c c then [] else d :: before c l'
  | [] => []
  end.

(** [path.Base]. *)
Definition Base (p : string) : string :=
  if String.eqb p "" then "."
  else
    match before "/" (trim_trailing "/" (reverse (bytes p))) with
    | [] => "/"
    | l => of_bytes (reverse l)
    end.

Definition IsAbs (p : string) : bool := HasPrefix p "/".

(** The elements [Clean] keeps, the last one first. *)
Fixpoint clean_segs (rooted : bool) (segs out : list string) : list string :=
  match segs with
  | [] => out
  | s :: segs =>
      if String.eqb s "" || String.eqb s "." then clean_segs rooted segs out
      else if String.eqb s ".." then
        match out with
        | t :: out' =>
            if String.eqb t ".." then clean_segs rooted segs (".." :: out)
            else clean_segs rooted segs out'
        | [] => clean_segs rooted segs (if rooted then [] else [".."])
        end
      else clean_segs rooted segs (s :: out)
  end.

(** [path.Clean] and, on Unix, [filepath.Clean]. *)
Definition Clean (p : string) : string :=
  let segs := Join (reverse (clean_segs (IsAbs p) (Split p "/") [])) "/" in
  if IsAbs p then "/" ++ segs
  else if String.eqb segs "" then "." else segs.

(** [filepath.Join] of two elements. *)
Definition JoinPath (a b : string) : string :=
  match String.eqb a "", String.eqb b "" with
  | true, true => ""
  | true, false => Clean b
  | false, true => Clean a
  | false, false => Clean (a ++ "/" ++ b)
  end.

Fixpoint strip_common (a b : list string) : list string * list string :=
  match a, b with
  | x :: a', y :: b' => if String.eqb x y then strip_common a' b' else (a, b)
  | _, _ => (a, b)
  end.

(** The elements of a cleaned path. *)
Definition elements (p : string) : list string :=
  List.filter (λ s, negb (String.eqb s "")) (Split p "/").

(** [filepath.Rel]; [None] is its error. *)
Definition Rel (basepath targpath : string) : option string :=
  let base := Clean basepath in
  let targ := Clean targpath in
  if String.eqb targ base then Some "."
  else
    let base := if String.eqb base "." then "" else base in
    if negb (Bool.eqb (IsAbs base) (IsAbs targ)) then None
    else
      let '(b, t) := strip_common (elements base) (elements targ) in
      if String.eqb (default "" (head b)) ".." then None
      else Some (Join (map (λ _, "..") b ++ t)%list "/").

(** [filepath.IsLocal]. *)
Definition IsLocal (p : string) : bool :=
  if IsAbs p || String.eqb p "" then false
  else
    let p := if existsb (λ s, String.eqb s "." || String.eqb s "..") (Split p "/") then Clean p else p in
    negb (String.eqb p ".." || HasPrefix p "../").

Example base_bin : Base "/usr/bin/curl" = "curl". Proof. reflexivity. Qed.
Example base_slash : Base "//" = "/". Proof. reflexivity. Qed.
Example clean_dots : Clean "/a/./b//../../../c/" = "/c". Proof. reflexivity. Qed.
Example clean_up : Clean "../a/../../b" = "../../b". Proof. reflexivity. Qed.
Example rel_up : Rel "/w/core" "/w/other/f" = Some "../other/f". Proof. reflexivity. Qed.
Example rel_in : Rel "/w" "/w/core/f" = Some "core/f". Proof. reflexivity. Qed.

(** ** UTF-8 *)

Definition RuneError : N := 65533.

Definition cont_range (lo hi : N) (c : ascii) : bool := ((lo <=? bv c) && (bv c <=? hi))%N.
Definition cont (c : ascii) : bool := cont_range 128 191 c.
Definition low6 (c : ascii) : N := N.land (bv c) 63.

(** The range the second byte must be in, by the first of three or of four. *)
Definition second3 (a : N) : N * N :=
  (if a =? 224 then (160, 191) else if a =? 237 then (128, 159) else (128, 191))%N.
Definition second4 (a : N) : N * N :=
  (if a =? 240 then (144, 191) else if a =? 244 then (128, 143) else (128, 191))%N.

(** [utf8.DecodeRuneInString]: the rune [s] starts with and its width, [None]
    when its first byte starts none. *)
Definition decode_rune (s : string) : option (N * nat) :=
  match s with
  | EmptyString => None
  | String c s =>
      let a := bv c in
      if (a <? 128)%N then Some (a, 1%nat)
      else if ((194 <=? a) && (a <=? 223))%N then
        match s with
        | String b _ => if cont b then Some (N.lor (N.shiftl (N.land a 31) 6) (low6 b), 2%nat) else None
        | _ => None
        end
      else if ((224 <=? a) && (a <=? 239))%N then
        match s with
        | String b (String d _) =>
            if cont_range (fst (second3 a)) (snd (second3 a)) b && cont d
            then Some (N.lor (N.shiftl (N.land a 15) 12) (N.lor (N.shiftl (low6 b) 6) (low6 d)), 3%nat)
            else None
        | _ => None
        end
      else if ((240 <=? a) && (a <=? 244))%N then
        match s with
        | String b (String d (String e _)) =>
            if cont_range (fst (second4 a)) (snd (second4 a)) b && cont d && cont e
            then Some (N.lor (N.shiftl (N.land a 7) 18)
                         (N.lor (N.shiftl (low6 b) 12) (N.lor (N.shiftl (low6 d) 6) (low6 e))), 4%nat)
            else None
        | _ => None
        end
      else None
  end.

(** The runes of [s] as [range] gives them: a byte that starts none is
    [RuneError]. [skip] bytes belong to the rune before. *)
Fixpoint runes_go (skip : nat) (s : string) : list N :=
  match s with
  | EmptyString => []
  | String _ s' =>
      match skip with
      | S k => runes_go k s'
      | 0 =>
          match decode_rune s with
          | Some (r, w) => r :: runes_go (pred w) s'
          | None => RuneError :: runes_go 0 s'
          end
      end
  end.
Definition runes (s : string) : list N := runes_go 0 s.

(** From the first byte of [s] that starts no rune on; [None] when [s] is
    valid UTF-8. *)
Fixpoint invalid_from (skip : nat) (s : string) : option string :=
  match s with
  | EmptyString => None
  | String _ s' =>
      match skip with
      | S k => invalid_from k s'
      | 0 =>
          match decode_rune s with
          | Some (_, w) => invalid_from (pred w) s'
          | None => Some s
          end
      end
  end.

Definition hasNonASCII (s : string) : bool := str_exists (λ c, (128 <=? bv c)%N) s.

Lemma runes_ascii s : hasNonASCII s = false → runes s = map bv (bytes s).
Proof.
  unfold hasNonASCII, str_exists. rewrite negb_false_iff. unfold runes.
  induction s as [|c s IH]; [done|]. cbn [str_forall]. intros [Hc Hs]%andb_true_iff.
  apply negb_true_iff, N.leb_gt in Hc. cbn [runes_go decode_rune bytes map].
  rewrite (proj2 (N.ltb_lt _ _) Hc). cbn [Nat.pred]. by rewrite IH.
Qed.

Lemma invalid_ascii s : hasNonASCII s = false → invalid_from 0 s = None.
Proof.
  unfold hasNonASCII, str_exists. rewrite negb_false_iff.
  induction s as [|c s IH]; [done|]. cbn [str_forall]. intros [Hc Hs]%andb_true_iff.
  apply negb_true_iff, N.leb_gt in Hc. cbn [invalid_from decode_rune].
  rewrite (proj2 (N.ltb_lt _ _) Hc). by apply IH.
Qed.
