(* ===== verification/Glob.v ===== *)
(** The patterns of permission rules (src/internal/policy/policy.go:
    [globToRegexp], [globsMeet]): what a glob matches, and whether two globs
    have a string in common.

    The regular expression built from a glob is its list of tokens; package
    [regexp] reads both it and the text as runes. *)

From Stdlib Require Import ZArith NArith Ascii String Lia Bool.
From stdpp Require Import base tactics list option strings gmap.
From S2P Require Import Prelude.
From S2P Require Import GoStd.
From S2P Require Import Errors.
From S2P Require Import GoNet.
From S2P Require Import GoPath.

#[local] Open Scope string_scope.

Inductive token : Set :=
  | Star
  | AnyRune
  | Lit (r : N).

#[export] Instance token_eq_dec : EqDecision token.
Proof. solve_decision. Defined.

Definition token_of (r : N) : token :=
  if (r =? 42)%N then Star else if (r =? 63)%N then AnyRune else Lit r.

Definition regexp : Type := list token.

(** The text of the expression [globToRegexp] writes. *)
Definition escaped_byte (c : ascii) : string :=
  if c =c "*" then ".*"
  else if c =c "?" then "."
  else if byte_in ".+()|^${}[]\" c then String "\" (String c "")
  else String c "".
Fixpoint glob_body (s : string) : string :=
  match s with EmptyString => "" | String c s => escaped_byte c ++ glob_body s end.
Definition glob_source (glob : string) : string := "(?s)^" ++ glob_body glob ++ "$".

(** [regexp.Compile] of it refuses only text that is not UTF-8. *)
Definition globToRegexp (glob : string) : result regexp :=
  match invalid_from 0 (glob_source glob) with
  | Some rest => Fail (plain ("error parsing regexp: invalid UTF-8: `" ++ rest ++ "`"))
  | None => Ok (map token_of (runes glob))
  end.

(** Matching whole texts; [same] compares a literal with a rune. *)
Fixpoint glob_match (same : N → N → bool) (ts : regexp) (s : list N) : bool :=
  match ts with
  | [] => match s with [] => true | _ => false end
  | Star :: ts =>
      (fix star (s : list N) : bool :=
         glob_match same ts s || match s with [] => false | _ :: s => star s end) s
  | AnyRune :: ts => match s with [] => false | _ :: s => glob_match same ts s end
  | Lit r :: ts => match s with [] => false | x :: s => same r x && glob_match same ts s end
  end.

Definition MatchString (re : regexp) (s : string) : bool := glob_match N.eqb re (runes s).

(** ** Whether two globs meet *)

Section meet.
Context (a b : list ascii).
#[local] Open Scope nat_scope.

Definition star_at (l : list ascii) (i : nat) : bool :=
  match l !! i with Some c => c =c "*" | None => false end.

(** Two bytes that match a common one. *)
Definition bytes_meet (x y : ascii) : bool := (x =c y) || (x =c "?") || (y =c "?").

(** The closure [meet]; [seen] is its memo. *)
Fixpoint meet (fuel : nat) (seen : gmap (nat * nat) bool) (i j : nat) : option (bool * gmap (nat * nat) bool) :=
  match fuel with
  | 0 => None
  | S fuel =>
      if (i =? length a) && (j =? length b) then Some (true, seen)
      else
        match seen !! (i, j) with
        | Some done => Some (done, seen)
        | None =>
            let seen := <[(i, j) := false]> seen in
            '(ok, seen) ←
              (if star_at a i then
                 '(ok, seen) ← meet fuel seen (i + 1) j;
                 if (ok : bool) then Some (true, seen)
                 else if j <? length b then meet fuel seen i (j + 1) else Some (false, seen)
               else if star_at b j then
                 '(ok, seen) ← meet fuel seen i (j + 1);
                 if (ok : bool) then Some (true, seen)
                 else if i <? length a then meet fuel seen (i + 1) j else Some (false, seen)
               else
                 match a !! i, b !! j with
                 | Some x, Some y => if bytes_meet x y then meet fuel seen (i + 1) (j + 1) else Some (false, seen)
                 | _, _ => Some (false, seen)
                 end);
            Some (ok, <[(i, j) := ok]> seen)
        end
  end.

Definition globs_meet : option bool := fst <$> meet (length a + length b + 1) ∅ 0 0.
End meet.

Definition globsMeet (a b : string) : option bool := globs_meet (bytes a) (bytes b).

Example meets : globsMeet "*/secrets" "prod/*" = Some true. Proof. vm_compute. reflexivity. Qed.
Example apart : globsMeet "dev/*" "prod/*" = Some false. Proof. vm_compute. reflexivity. Qed.
Example glob_line : MatchString (map token_of (runes "rm -rf *")) "rm -rf /tmp" = true. Proof. reflexivity. Qed.

(** * Theorems

    What globs mean: the matcher against the language of a pattern, and
    [globsMeet] against the texts two patterns share. *)

#[local] Close Scope string_scope.

(** ** The language of a pattern *)

Inductive glob_lang (same : N → N → bool) : regexp → list N → Prop :=
  | lang_nil : glob_lang same [] []
  | lang_star_end ts s : glob_lang same ts s → glob_lang same (Star :: ts) s
  | lang_star_more ts r s : glob_lang same (Star :: ts) s → glob_lang same (Star :: ts) (r :: s)
  | lang_any ts r s : glob_lang same ts s → glob_lang same (AnyRune :: ts) (r :: s)
  | lang_lit ts l r s : same l r = true → glob_lang same ts s → glob_lang same (Lit l :: ts) (r :: s).
#[global] Hint Constructors glob_lang : core.

Lemma glob_match_lang same ts s : glob_match same ts s = true ↔ glob_lang same ts s.
Proof.
  revert s. induction ts as [|[| |l] ts IH]; intros s; cbn [glob_match].
  - destruct s; split; try done; by inversion 1.
  - set (star := fix star (s : list N) : bool := _). induction s as [|r s IHs].
    + simpl. rewrite orb_false_r, IH. split; [eauto | by inversion 1].
    + change (star (r :: s)) with (glob_match same ts (r :: s) || star s).
      rewrite orb_true_iff, IH, IHs. split; [intros []; eauto|]. inversion 1; subst; eauto.
  - destruct s as [|r s]; [split; [done | inversion 1]|]. rewrite IH. split; [eauto | by inversion 1].
  - destruct s as [|r s]; [split; [done | inversion 1]|]. rewrite andb_true_iff, IH.
    split; [intros []; eauto | by inversion 1].
Qed.

(** The decomposition of a star: what it takes, and the rest. *)
Lemma lang_star_app same ts u s : glob_lang same ts s → glob_lang same (Star :: ts) (u ++ s).
Proof. intros H. induction u; simpl; eauto. Qed.

(** ** Patterns with a text in common *)

Definition common (a b : regexp) : Prop := ∃ s, glob_lang N.eqb a s ∧ glob_lang N.eqb b s.

Lemma common_sym a b : common a b ↔ common b a.
Proof. unfold common. naive_solver. Qed.

(** Two tokens, neither a star, that match one rune. *)
Definition tokens_meet (x y : token) : Prop :=
  match x, y with
  | Star, _ | _, Star => False
  | Lit l, Lit r => l = r
  | _, _ => True
  end.

Lemma common_nil b : common [] b ↔ b = [] ∨ ∃ b', b = Star :: b' ∧ common [] b'.
Proof.
  split.
  - intros (s & Ha & Hb). inversion Ha; subst. inversion Hb; subst; [by left|].
    right. eexists. split; [done|]. exists []. eauto.
  - intros [->|(b' & -> & s & Ha & Hb)]; [exists []; eauto|]. exists s. eauto.
Qed.

Lemma common_star_cons a t b : common (Star :: a) (t :: b) ↔ common a (t :: b) ∨ common (Star :: a) b.
Proof.
  split.
  - intros (s & Ha & Hb). revert Ha Hb. induction s as [|r s IH]; intros Ha Hb.
    + left. exists []. by inversion Ha.
    + inversion Ha as [|? ? Ha'|? ? ? Ha'| |]; subst; [left; exists (r :: s); eauto|].
      inversion Hb as [|? ? Hb'|? ? ? Hb'|? ? ? Hb'|? ? ? ? Hl Hb']; subst.
      * right. exists (r :: s). eauto.
      * by apply IH.
      * right. exists s. eauto.
      * right. exists s. eauto.
  - intros [(s & Ha & Hb)|(s & Ha & Hb)]; [exists s; eauto|].
    destruct t as [| |l]; [exists s; eauto | exists (0%N :: s); eauto | exists (l :: s)].
    split; [eauto|]. constructor; [apply N.eqb_refl | done].
Qed.

Lemma common_star_nil a : common (Star :: a) [] ↔ common a [].
Proof. rewrite !(common_sym _ []), common_nil. naive_solver. Qed.

Lemma common_heads x a y b : x ≠ Star → y ≠ Star →
  common (x :: a) (y :: b) ↔ tokens_meet x y ∧ common a b.
Proof.
  intros Hx Hy. split.
  - intros (s & Ha & Hb). inversion Ha; subst; try done; inversion Hb; subst; try done;
      simpl; (split; [try done | eexists; eauto]).
    match goal with H1 : N.eqb _ ?r = true, H2 : N.eqb _ ?r = true |- _ =>
      apply N.eqb_eq in H1, H2; congruence end.
  - intros [Ht (s & Ha & Hb)]. destruct x as [| |l], y as [| |r]; try done; simpl in Ht.
    + exists (0%N :: s). eauto.
    + exists (r :: s). split; [eauto|]. constructor; [apply N.eqb_refl | done].
    + exists (l :: s). split; [|eauto]. constructor; [apply N.eqb_refl | done].
    + subst. exists (r :: s). split; constructor; (apply N.eqb_refl || done).
Qed.

(** ** The memoised search *)

Section meet.
Context (a b : list ascii).
Let ta : regexp := map (λ c, token_of (bv c)) a.
Let tb : regexp := map (λ c, token_of (bv c)) b.
#[local] Open Scope nat_scope.

(** What is asked at positions [i] and [j]. *)
Definition meets_at (p : nat * nat) : Prop := common (drop p.1 ta) (drop p.2 tb).

(** The memo is right, but for the pairs still being searched, [P]. *)
Definition memo_ok (P : nat * nat → Prop) (seen : gmap (nat * nat) bool) : Prop :=
  ∀ p v, seen !! p = Some v → P p ∨ (v = true ↔ meets_at p).

Lemma token_star c : (c =c "*") = true ↔ token_of (bv c) = Star.
Proof. destruct c as [[] [] [] [] [] [] [] []]; by vm_compute. Qed.

Lemma bytes_meet_tokens x y : (x =c "*") = false → (y =c "*") = false →
  bytes_meet x y = true ↔ tokens_meet (token_of (bv x)) (token_of (bv y)).
Proof.
  intros Hx Hy. unfold bytes_meet, token_of.
  assert (∀ c, (c =c "*") = (bv c =? 42)%N) as Hs by (intros [[] [] [] [] [] [] [] []]; by vm_compute).
  assert (∀ c, (c =c "?") = (bv c =? 63)%N) as Hq by (intros [[] [] [] [] [] [] [] []]; by vm_compute).
  rewrite Hs in Hx. rewrite Hs in Hy. rewrite Hx, Hy, (Hq x), (Hq y).
  destruct (bv x =? 63)%N; [by rewrite orb_true_r; destruct (bv y =? 63)%N|].
  destruct (bv y =? 63)%N; [by rewrite orb_true_r|]. cbn [tokens_meet].
  rewrite !orb_false_r, Ascii.eqb_eq. split; [by intros ->|]. intros H.
  apply (f_equal ascii_of_N) in H. unfold bv in H. by rewrite !ascii_N_embedding in H.
Qed.

Lemma drop_token_a i c : a !! i = Some c → drop i ta = token_of (bv c) :: drop (i + 1) ta.
Proof.
  intros H. rewrite Nat.add_1_r. apply drop_S. unfold ta. by rewrite list_lookup_fmap, H.
Qed.
Lemma drop_token_b j c : b !! j = Some c → drop j tb = token_of (bv c) :: drop (j + 1) tb.
Proof.
  intros H. rewrite Nat.add_1_r. apply drop_S. unfold tb. by rewrite list_lookup_fmap, H.
Qed.
Lemma drop_end_a i : length a ≤ i → drop i ta = [].
Proof. intros H. apply drop_ge. unfold ta. by rewrite length_map. Qed.
Lemma drop_end_b j : length b ≤ j → drop j tb = [].
Proof. intros H. apply drop_ge. unfold tb. by rewrite length_map. Qed.

Lemma memo_ok_start P seen i j : memo_ok P seen →
  memo_ok (λ p, P p ∨ p = (i, j)) (<[(i, j) := false]> seen).
Proof.
  intros H p v. destruct (decide (p = (i, j))) as [->|Hp]; [by auto|].
  rewrite lookup_insert_ne by done. intros Hl. destruct (H p v Hl); auto.
Qed.

Lemma memo_ok_done P seen i j ok : memo_ok (λ p, P p ∨ p = (i, j)) seen → (ok = true ↔ meets_at (i, j)) →
  memo_ok P (<[(i, j) := ok]> seen).
Proof.
  intros H Hok p v. destruct (decide (p = (i, j))) as [->|Hp].
  - rewrite lookup_insert_eq. intros [= <-]. by right.
  - rewrite lookup_insert_ne by done. intros Hl. destruct (H p v Hl) as [[|]|]; auto; done.
Qed.

(** What one call gives: the answer, and a memo as right as before. *)
Definition meet_post (P : nat * nat → Prop) (i j : nat) (r : option (bool * gmap (nat * nat) bool)) : Prop :=
  ∃ ok seen, r = Some (ok, seen) ∧ (ok = true ↔ meets_at (i, j)) ∧ memo_ok P seen.

(** Two searches, the second only when the first fails and there is one. *)
Lemma meet_either fuel P i j i1 j1 i2 j2 seen (more : bool) :
  (∀ seen, memo_ok P seen → meet_post P i1 j1 (meet a b fuel seen i1 j1)) →
  (more = true → ∀ seen, memo_ok P seen → meet_post P i2 j2 (meet a b fuel seen i2 j2)) →
  (meets_at (i, j) ↔ meets_at (i1, j1) ∨ (more = true ∧ meets_at (i2, j2))) →
  memo_ok P seen →
  meet_post P i j
    ('(ok, seen) ← meet a b fuel seen i1 j1;
     if (ok : bool) then Some (true, seen) else if more then meet a b fuel seen i2 j2 else Some (false, seen)).
Proof.
  intros H1 H2 Hm Hs. destruct (H1 seen Hs) as (ok & seen' & -> & Hok & Hs'). simpl.
  destruct ok.
  - exists true, seen'. split; [done|]. split; [|done]. rewrite Hm. tauto.
  - destruct more.
    + destruct (H2 eq_refl seen' Hs') as (ok2 & s2 & -> & Hok2 & Hs2).
      exists ok2, s2. split; [done|]. split; [|done]. rewrite Hm, Hok2.
      split; [tauto|]. intros [H|[_ H]]; [by apply Hok in H | done].
    + exists false, seen'. split; [done|]. split; [|done]. rewrite Hm. split; [done|].
      intros [H|[H _]]; [by apply Hok in H | done].
Qed.

Lemma meets_at_end i j : length a ≤ i → length b ≤ j → meets_at (i, j).
Proof. intros Hi Hj. unfold meets_at. simpl. rewrite drop_end_a, drop_end_b by done. exists []. auto. Qed.

(** A star in [a], against what is left of [b]. *)
Lemma meets_star_a i j : star_at a i = true →
  meets_at (i, j) ↔ meets_at (i + 1, j) ∨ ((j <? length b) = true ∧ meets_at (i, j + 1)).
Proof.
  unfold star_at, meets_at. simpl. destruct (a !! i) as [c|] eqn:E; [|done]. intros Hc%token_star.
  rewrite (drop_token_a _ _ E), Hc. destruct (b !! j) as [d|] eqn:Eb.
  - apply lookup_lt_Some in Eb as Hl. apply Nat.ltb_lt in Hl. rewrite Hl, (drop_token_b _ _ Eb), common_star_cons. tauto.
  - apply lookup_ge_None in Eb. rewrite (drop_end_b j Eb), common_star_nil.
    rewrite (proj2 (Nat.ltb_ge _ _) Eb). naive_solver.
Qed.

Lemma meets_star_b i j : star_at b j = true →
  meets_at (i, j) ↔ meets_at (i, j + 1) ∨ ((i <? length a) = true ∧ meets_at (i + 1, j)).
Proof.
  unfold star_at, meets_at. simpl. destruct (b !! j) as [c|] eqn:E; [|done]. intros Hc%token_star.
  rewrite (drop_token_b _ _ E), Hc. rewrite !(common_sym (drop _ ta)).
  destruct (a !! i) as [d|] eqn:Ea.
  - apply lookup_lt_Some in Ea as Hl. apply Nat.ltb_lt in Hl. rewrite Hl, (drop_token_a _ _ Ea), common_star_cons. tauto.
  - apply lookup_ge_None in Ea. rewrite (drop_end_a i Ea), common_star_nil.
    rewrite (proj2 (Nat.ltb_ge _ _) Ea). naive_solver.
Qed.

Lemma meets_heads i j x y : a !! i = Some x → b !! j = Some y → star_at a i = false → star_at b j = false →
  meets_at (i, j) ↔ bytes_meet x y = true ∧ meets_at (i + 1, j + 1).
Proof.
  unfold star_at, meets_at. simpl. intros Ea Eb. rewrite Ea, Eb. intros Hx Hy.
  rewrite (drop_token_a _ _ Ea), (drop_token_b _ _ Eb), common_heads, bytes_meet_tokens; try done.
  - intros Hs%token_star. congruence.
  - intros Hs%token_star. congruence.
Qed.

(** One side used up, and no star left to match nothing. *)
Lemma meets_apart i j : star_at a i = false → star_at b j = false →
  (a !! i = None ∨ b !! j = None) → (i =? length a) && (j =? length b) = false →
  i ≤ length a → j ≤ length b → ¬ meets_at (i, j).
Proof.
  unfold star_at, meets_at. simpl. intros Ha Hb Hn Hne Hi Hj.
  destruct (a !! i) as [x|] eqn:Ea, (b !! j) as [y|] eqn:Eb; [naive_solver | | |].
  - apply lookup_ge_None in Eb. rewrite (drop_token_a _ _ Ea), (drop_end_b j Eb), common_sym, common_nil.
    intros [|(b' & [= Hs _] & _)]; [done|]. apply token_star in Hs. congruence.
  - apply lookup_ge_None in Ea. rewrite (drop_token_b _ _ Eb), (drop_end_a i Ea), common_nil.
    intros [|(b' & [= Hs _] & _)]; [done|]. apply token_star in Hs. congruence.
  - apply lookup_ge_None in Ea, Eb. apply andb_false_iff in Hne as [H|H]; apply Nat.eqb_neq in H; lia.
Qed.

Lemma meet_correct fuel : ∀ P seen i j, i ≤ length a → j ≤ length b →
  (length a - i) + (length b - j) < fuel → (∀ p, P p → p.1 + p.2 < i + j) → memo_ok P seen →
  meet_post P i j (meet a b fuel seen i j).
Proof.
  induction fuel as [|fuel IH]; intros P seen i j Hi Hj Hf HP Hs; [lia|]. cbn [meet].
  destruct ((i =? length a) && (j =? length b)) eqn:Eend.
  { apply andb_true_iff in Eend as [->%Nat.eqb_eq ->%Nat.eqb_eq].
    exists true, seen. split; [done|]. split; [|done]. split; [|done]. intros _. by apply meets_at_end. }
  destruct (seen !! (i, j)) as [v|] eqn:Em.
  { exists v, seen. split; [done|]. split; [|done].
    destruct (Hs _ _ Em) as [Hbad|]; [|done]. apply HP in Hbad. simpl in Hbad. lia. }
  set (Q := λ p, P p ∨ p = (i, j)).
  assert (∀ k l, i + j < k + l → ∀ p, Q p → p.1 + p.2 < k + l) as HQ.
  { intros k l Hkl p [Hp| ->]; [|done]. apply HP in Hp. lia. }
  pose proof (memo_ok_start P seen i j Hs) as Hs'. fold Q in Hs'. set (seen' := <[(i, j) := false]> seen) in *.
  assert (meet_post Q i j
    (if star_at a i then
       '(ok, seen) ← meet a b fuel seen' (i + 1) j;
       if (ok : bool) then Some (true, seen)
       else if j <? length b then meet a b fuel seen i (j + 1) else Some (false, seen)
     else if star_at b j then
       '(ok, seen) ← meet a b fuel seen' i (j + 1);
       if (ok : bool) then Some (true, seen)
       else if i <? length a then meet a b fuel seen (i + 1) j else Some (false, seen)
     else match a !! i, b !! j with
          | Some x, Some y => if bytes_meet x y then meet a b fuel seen' (i + 1) (j + 1) else Some (false, seen')
          | _, _ => Some (false, seen')
          end)) as Hbody; [|destruct Hbody as (ok & s2 & -> & Hok & Hs2); simpl;
    exists ok, (<[(i, j) := ok]> s2); split; [done|]; split; [done|]; by apply memo_ok_done].
  destruct (star_at a i) eqn:Sa; [|destruct (star_at b j) eqn:Sb].
  - assert (i < length a) as Hlt.
    { unfold star_at in Sa. destruct (a !! i) eqn:E; [by apply lookup_lt_Some in E | done]. }
    apply (meet_either fuel Q i j (i + 1) j i (j + 1)); [| |by apply meets_star_a | done].
    + intros s Hm. apply IH; [lia | lia | lia | apply HQ; lia | done].
    + intros Hm%Nat.ltb_lt s Hms. apply IH; [lia | lia | lia | apply HQ; lia | done].
  - assert (j < length b) as Hlt.
    { unfold star_at in Sb. destruct (b !! j) eqn:E; [by apply lookup_lt_Some in E | done]. }
    apply (meet_either fuel Q i j i (j + 1) (i + 1) j); [| |by apply meets_star_b | done].
    + intros s Hm. apply IH; [lia | lia | lia | apply HQ; lia | done].
    + intros Hm%Nat.ltb_lt s Hms. apply IH; [lia | lia | lia | apply HQ; lia | done].
  - assert (∀ P', (a !! i = None ∨ b !! j = None) → memo_ok P' seen' → meet_post P' i j (Some (false, seen'))) as Hno.
    { intros P' Hn Hm. exists false, seen'. split; [done|]. split; [|done]. split; [done|].
      intros H. exfalso. by apply (meets_apart i j) in H. }
    destruct (a !! i) as [x|] eqn:Ea; [|by apply Hno; auto]. destruct (b !! j) as [y|] eqn:Eb; [|by apply Hno; auto].
    pose proof (meets_heads i j x y Ea Eb Sa Sb) as Hh.
    apply lookup_lt_Some in Ea, Eb. destruct (bytes_meet x y).
    + destruct (IH Q seen' (i + 1) (j + 1)) as (ok & s2 & -> & Hok & Hm); [lia | lia | lia | apply HQ; lia | done |].
      exists ok, s2. split; [done|]. split; [|done]. rewrite Hh, Hok. tauto.
    + exists false, seen'. split; [done|]. split; [|done]. rewrite Hh. split; [done | by intros []].
Qed.

Lemma globs_meet_common : ∃ ok, globs_meet a b = Some ok ∧ (ok = true ↔ common ta tb).
Proof.
  unfold globs_meet. destruct (meet_correct (length a + length b + 1) (λ _, False) ∅ 0 0) as (ok & s & -> & Hok & _);
    [lia | lia | lia | done | intros p v Hl; by rewrite lookup_empty in Hl |].
  exists ok. split; [done|]. by rewrite Hok.
Qed.
End meet.

Lemma globToRegexp_ascii glob : hasNonASCII glob = false →
  globToRegexp glob = Ok (map (λ c, token_of (bv c)) (bytes glob)).
Proof.
  intros H. unfold globToRegexp. rewrite invalid_ascii; [by rewrite runes_ascii, map_map by done|].
  unfold hasNonASCII, str_exists in *. rewrite negb_false_iff in *. unfold glob_source.
  rewrite !str_forall_app. rewrite andb_true_r. cbn [str_forall]. simpl.
  induction glob as [|c glob IH]; [done|]. cbn [str_forall] in H. apply andb_true_iff in H as [Hc Hg].
  cbn [glob_body]. rewrite str_forall_app, IH by done. rewrite andb_true_r.
  unfold escaped_byte. destruct (c =c "*"); [done|]. destruct (c =c "?"); [done|].
  destruct (byte_in _ c); cbn [str_forall]; by rewrite Hc.
Qed.

(** Asked of two ASCII patterns, [globsMeet] always answers, and answers yes
    exactly when some text matches both as the rules match texts. So a deny or
    ask rule holds for a call that names its targets by a pattern exactly when
    the two cover a target in common. *)
Theorem globsMeet_exact (a b : string) (ra rb : regexp) :
  hasNonASCII a = false → hasNonASCII b = false → globToRegexp a = Ok ra → globToRegexp b = Ok rb →
  ∃ ok, globsMeet a b = Some ok ∧
    (ok = true ↔ ∃ s, glob_match N.eqb ra s = true ∧ glob_match N.eqb rb s = true).
Proof.
  intros Ha Hb. rewrite !globToRegexp_ascii by done. intros [= <-] [= <-].
  destruct (globs_meet_common (bytes a) (bytes b)) as (ok & Hm & Hok).
  exists ok. split; [done|]. rewrite Hok. unfold common. by setoid_rewrite glob_match_lang.
Qed.

Lemma globsMeet_exact_witness :
  ∃ ok, globsMeet "prod-*/?/secrets" "*-eu/*/secrets" = Some ok ∧
    (ok = true ↔ ∃ s, glob_match N.eqb (map (λ c, token_of (bv c)) (bytes "prod-*/?/secrets")) s = true ∧
                      glob_match N.eqb (map (λ c, token_of (bv c)) (bytes "*-eu/*/secrets")) s = true).
Proof.
  apply (globsMeet_exact "prod-*/?/secrets" "*-eu/*/secrets"); vm_compute; reflexivity.
Defined.
