(* ===== verification/ShellSplit.v ===== *)
(** The split of a shell line into the commands rules see
    (src/internal/policy/shell.go).

    What Go asks of Unicode beyond ASCII, its case mappings and NFC, is the
    parameter [Text]; whether the system folds the case of command names is
    [tx_folds]. *)

From Stdlib Require Import ZArith NArith Ascii String Lia.
From stdpp Require Import base tactics list option strings gmap.
From S2P Require Import Prelude.
From S2P Require Import GoStd.
From S2P Require Import GoNet.
From S2P Require Import GoPath.

#[local] Open Scope string_scope.
#[local] Open Scope nat_scope.

Record Text : Type := MkText {
  tx_lower : string → string;          (* strings.ToLower *)
  tx_upper : string → string;          (* strings.ToUpper *)
  tx_nfc : string → string;            (* norm.NFC.String *)
  tx_fold : N → N → bool;              (* runes equal under (?i) *)
  tx_folds : bool                      (* tools.FoldsCommandNames *)
}.

(** [tools.CommandName]. *)
Definition CommandName (tx : Text) (w : string) : string := if tx_folds tx then tx_lower tx w else w.

Definition newline_s : string := String newline "".
Definition cr_s : string := String "013" "".

Definition hasShellControl (command : string) : bool :=
  ContainsAny command (";&|`<>()" ++ newline_s ++ cr_s) || Contains command "${".

Definition maxSplitBytes : Z := 64 * 1024.
Definition maxSegments : Z := 1024.
Definition maxFormsPerPart : nat := 16.

(** [strings.TrimRight] for a set of ASCII bytes. *)
Definition trim_right_set (set s : string) : string := str_rev (trim_left_set set (str_rev s)).

(** ** Splitting on control characters *)

(** An odd run of backslashes just before; [pre] is what comes before, the
    last byte first. *)
Fixpoint escaped (pre : list ascii) : bool :=
  match pre with
  | c :: pre => if c =c "\" then negb (escaped pre) else false
  | [] => false
  end.

Definition next_is (c : ascii) (s : string) : bool :=
  match s with String d _ => d =c c | EmptyString => false end.
Definition prev_in (set : string) (pre : list ascii) : bool :=
  match pre with c :: _ => byte_in set c | [] => false end.

(** Whether the byte [c], after [pre] and before [s], ends a part. *)
Definition ends_part (escapes : bool) (pre : list ascii) (c : ascii) (s : string) : bool :=
  if (c =c "&") || (c =c "|") then
    if prev_in "<>" pre then false
    else negb ((c =c "&") && next_is ">" s)
  else if c =c ";" then negb (escapes && escaped pre)
  else byte_in ("`()" ++ newline_s ++ cr_s) c.

Fixpoint split_control (escapes : bool) (pre cur : list ascii) (s : string) : list string :=
  match s with
  | EmptyString => [of_bytes (reverse cur)]
  | String c s =>
      if ends_part escapes pre c s
      then of_bytes (reverse cur) :: split_control escapes (c :: pre) [] s
      else split_control escapes (c :: pre) (c :: cur) s
  end.

Definition splitControl (command : string) (escapes : bool) : list string :=
  split_control escapes [] [] command.

(** ** Words before a command *)

Definition word_in (l : list string) (w : string) : bool := bool_decide (w ∈ l).

Definition shellPrefixWords : list string :=
  ["{"; "}"; "!"; "if"; "then"; "else"; "elif"; "fi"; "do"; "done"; "while"; "until"].

Definition wrapperWords (name : string) : option nat :=
  if String.eqb name "timeout" then Some 1
  else if word_in ["env"; "command"; "exec"; "nohup"; "nice"; "builtin"; "sudo"; "doas"; "coproc";
                   "time"; "xargs"; "setsid"; "stdbuf"; "ionice"] name then Some 0
  else None.

Definition findRunners : list string := ["-exec"; "-execdir"; "-ok"; "-okdir"].

(** Whether a word is a redirection, and whether it is the operator alone. *)
Definition isRedirection (word : string) : bool * bool :=
  let w := trim_left_set "0123456789" word in
  let w := if HasPrefix w "&>" then str_drop 1 w else w in
  let op := trim_left_set "<>&|" w in
  if String.eqb op w || (3 <? String.length w - String.length op) then (false, false)
  else (true, String.eqb op "").

Definition assignment_byte (first : bool) (c : ascii) : bool :=
  (c =c "_") || in_range "A" "Z" c || in_range "a" "z" c || (negb first && in_range "0" "9" c).

Definition isAssignment (word : string) : bool :=
  match IndexByte word "=" with
  | None | Some 0 => false
  | Some eq =>
      match str_take eq word with
      | String c r => assignment_byte true c && str_forall (assignment_byte false) r
      | EmptyString => false
      end
  end.

(** ** The commands a part may run *)

Section forms.
Context (tx : Text) (fields : list string).

(** The maps of [strippedForms] and its [findScanned]. *)
Record scan : Type := MkScan {
  sc_visited : gset nat; sc_starts : gset nat; sc_options : gset (nat * nat); sc_found : nat
}.

(** The calls: [from i], [wrapperOptions i skip], and the loop over [j] of the
    [find] at [i]. *)
Inductive task : Type :=
  | From (i : nat)
  | Options (i skip : nat)
  | Scan (i j : nat).

Definition visit (i : nat) (s : scan) : scan :=
  MkScan ({[i]} ∪ sc_visited s) (sc_starts s) (sc_options s) (sc_found s).
Definition start (i : nat) (s : scan) : scan :=
  MkScan (sc_visited s) ({[i]} ∪ sc_starts s) (sc_options s) (sc_found s).
Definition option_seen (i skip : nat) (s : scan) : scan :=
  MkScan (sc_visited s) (sc_starts s) ({[(i, skip)]} ∪ sc_options s) (sc_found s).
Definition scanned (i : nat) (s : scan) : scan :=
  MkScan (sc_visited s) (sc_starts s) (sc_options s) (Nat.min (sc_found s) (i + 1)).

Definition runner_at (j : nat) : bool :=
  match fields !! j with Some w => word_in findRunners w | None => false end.

(** What a word is to [from]. *)
Inductive role : Type :=
  | passed (next : nat)
  | wraps (skip : nat)
  | command_word (find : bool).

Definition role_of (i : nat) (w : string) : role :=
  if word_in shellPrefixWords w || isAssignment w then passed (i + 1)
  else
    let '(redirect, bare) := isRedirection w in
    if redirect then passed (if bare : bool then i + 2 else i + 1)
    else
      let name := CommandName tx (Base w) in
      match wrapperWords name with
      | Some skip => wraps skip
      | None => command_word (String.eqb name "find")
      end.

Fixpoint run (fuel : nat) (t : task) (s : scan) : option scan :=
  match fuel with
  | 0 => None
  | S fuel =>
      match t with
      | From i =>
          match fields !! i with
          | None => Some s
          | Some w =>
              if bool_decide (i ∈ sc_visited s) then Some s
              else
                let s := visit i s in
                match role_of i w with
                | passed next => run fuel (From next) s
                | wraps skip => run fuel (Options (i + 1) skip) s
                | command_word find =>
                    let s := start i s in
                    if find : bool then run fuel (Scan i (i + 1)) s else Some s
                end
          end
      | Options i skip =>
          if bool_decide ((i, skip) ∈ sc_options s) then Some s
          else
            let s := option_seen i skip s in
            match fields !! i with
            | Some w =>
                if String.eqb w "--" then run fuel (From (i + 1 + skip)) s
                else if HasPrefix w "-" then
                  s ← run fuel (Options (i + 1) skip) s; run fuel (Options (i + 2) skip) s
                else run fuel (From (i + skip)) s
            | None => run fuel (From (i + skip)) s
            end
      | Scan i j =>
          if j <? sc_found s then
            s ← (if runner_at j then run fuel (From (j + 1)) s else Some s);
            run fuel (Scan i (j + 1)) s
          else Some (scanned i s)
      end
  end.

Definition no_scan : scan := MkScan ∅ ∅ ∅ (length fields).
Definition scan_fuel : nat := 3 * (length fields + 2) + 3.

(** The forms from each start on, in order. *)
Definition forms_at (starts : gset nat) : list string :=
  map (λ i, Join (drop i fields) " ") (List.filter (λ i, bool_decide (i ∈ starts)) (seq 0 (length fields))).

Definition stripped_fields : option (list string * bool) :=
  s ← run scan_fuel (From 0) no_scan;
  Some (if maxFormsPerPart <? size (sc_starts s) then ([], false) else (forms_at (sc_starts s), true)).
End forms.

Definition strippedForms (tx : Text) (segment : string) : option (list string * bool) :=
  stripped_fields tx (Fields segment).

(** ** The commands of a line *)

(** [add]: [seen] holds exactly what [out] does. *)
Definition add_part (s : string) (out : list string) : list string :=
  let s := TrimSpace s in
  if String.eqb s "" || bool_decide (s ∈ out) then out else (out ++ [s])%list.

Definition trim_part (p : string) : string :=
  TrimSpace (trim_right_set "<>" (TrimSpace (TrimSuffix (TrimSpace p) "$"))).

Fixpoint add_parts (tx : Text) (parts : list string) (out : list string) : option (list string * bool) :=
  match parts with
  | [] => Some (out, true)
  | p :: parts =>
      let p := trim_part p in
      let out := add_part p out in
      '(forms, whole) ← strippedForms tx p;
      let out := fold_left (λ out f, add_part f out) forms out in
      if negb whole || (maxSegments <? Z.of_nat (length out))%Z then Some (out, false)
      else add_parts tx parts out
  end.

Definition commandSegments (tx : Text) (command : string) : option (list string * bool) :=
  if (maxSplitBytes <? Z.of_nat (String.length command))%Z then Some ([command], false)
  else add_parts tx (splitControl command false ++ splitControl command true)%list [command].

(** ** Programs named by a path *)

Definition base_name (s : string) : option string :=
  let '(first, rest) :=
    match Cut (trim_left_set (String " " (String tab "")) s) " " with
    | Some (a, b) => (a, b)
    | None => (trim_left_set (String " " (String tab "")) s, "")
    end in
  if negb (Contains first "/") || HasSuffix first "/" then None
  else Some (if String.eqb rest "" then Base first else Base first ++ " " ++ rest).

(** [seen] and [out]. *)
Fixpoint add_base_names (subjects : list string) (seen : gset string) (out : list string) : list string :=
  match subjects with
  | [] => out
  | s :: subjects =>
      match base_name s with
      | Some b =>
          if bool_decide (b ∈ seen) then add_base_names subjects seen out
          else add_base_names subjects ({[b]} ∪ seen) (out ++ [b])%list
      | None => add_base_names subjects seen out
      end
  end.

Definition withBaseNames (subjects : list string) : list string :=
  add_base_names subjects (list_to_set subjects) subjects.

(** ** Examples *)

Definition ascii_text : Text := MkText ToLower ToUpper (λ s, s) N.eqb false.

Example split_chain : splitControl "git status && curl x 2>&1 | sh" false =
  ["git status "; ""; " curl x 2>&1 "; " sh"]. Proof. reflexivity. Qed.
Example stripped_sudo : strippedForms ascii_text "FOO=1 sudo -u root rm -rf x" =
  Some (["root rm -rf x"; "rm -rf x"], true). Proof. vm_compute. reflexivity. Qed.
Example stripped_find : strippedForms ascii_text "find . -exec rm {} +" =
  Some (["find . -exec rm {} +"; "rm {} +"], true). Proof. vm_compute. reflexivity. Qed.
Example based : withBaseNames ["/usr/bin/curl x"; "ls"] = ["/usr/bin/curl x"; "ls"; "curl x"].
Proof. vm_compute. reflexivity. Qed.

(** * Theorems

    What the split of a shell line finds: [strippedForms] finds exactly the
    commands a part may run, however keywords, assignments, redirections,
    wrappers, their options and [find]'s actions come before them. *)

Section forms.
Context (tx : Text) (fields : list string).
Abbreviation n := (length fields).
Abbreviation role_at := (role_of tx).
Abbreviation run := (run tx fields).

(** ** Where a command may start, as a relation *)

(** [may_from i]: what precedes word [i] may be read as coming before a command.
    [may_options i skip]: word [i] may be an option of a wrapper that also takes
    [skip] positional words. An option is read both as a flag and as taking the
    next word. *)
Inductive may_from : nat → Prop :=
  | from_first : may_from 0
  | from_passed i w next : may_from i → fields !! i = Some w → role_at i w = passed next → may_from next
  | from_find i w j : may_from i → fields !! i = Some w → role_at i w = command_word true →
      i < j → runner_at fields j = true → may_from (j + 1)
  | from_ended i w skip : may_options i skip → fields !! i = Some w → w = "--" → may_from (i + 1 + skip)
  | from_options i skip : may_options i skip →
      (∀ w, fields !! i = Some w → HasPrefix w "-" = false) → may_from (i + skip)
with may_options : nat → nat → Prop :=
  | options_first i w skip : may_from i → fields !! i = Some w → role_at i w = wraps skip → may_options (i + 1) skip
  | options_flag i w skip : may_options i skip → fields !! i = Some w → w ≠ "--" → HasPrefix w "-" = true →
      may_options (i + 1) skip
  | options_value i w skip : may_options i skip → fields !! i = Some w → w ≠ "--" → HasPrefix w "-" = true →
      may_options (i + 2) skip.

Definition command_at (i : nat) : Prop :=
  may_from i ∧ ∃ w find, fields !! i = Some w ∧ role_at i w = command_word find.

(** ** The search *)

(** [From i] past the end, or done. *)
Definition from_done (s : scan) (i : nat) : Prop := n ≤ i ∨ i ∈ sc_visited s.
Definition options_done (s : scan) (p : nat * nat) : Prop := p ∈ sc_options s.

(** All that follows from word [i] is done. *)
Definition from_closed (s : scan) (i : nat) : Prop :=
  ∀ w, fields !! i = Some w →
    match role_at i w with
    | passed next => from_done s next
    | wraps skip => options_done s (i + 1, skip)
    | command_word find =>
        i ∈ sc_starts s ∧ (find = true → ∀ j, i < j → runner_at fields j = true → from_done s (j + 1))
    end.

Definition options_closed (s : scan) (p : nat * nat) : Prop :=
  let '(i, skip) := p in
  match fields !! i with
  | Some w =>
      if String.eqb w "--" then from_done s (i + 1 + skip)
      else if HasPrefix w "-" then options_done s (i + 1, skip) ∧ options_done s (i + 2, skip)
      else from_done s (i + skip)
  | None => from_done s (i + skip)
  end.

(** The runners a [find] has passed on are done. *)
Definition found_ok (s : scan) : Prop :=
  sc_found s ≤ n ∧ ∀ j, sc_found s ≤ j → runner_at fields j = true → from_done s (j + 1).

Definition later (s s' : scan) : Prop :=
  sc_visited s ⊆ sc_visited s' ∧ sc_starts s ⊆ sc_starts s' ∧ sc_options s ⊆ sc_options s'.

#[local] Instance later_refl : Reflexive later.
Proof. by repeat split. Qed.
#[local] Instance later_trans : Transitive later.
Proof. intros s1 s2 s3 (A & B & C) (D & E & F). repeat split; etrans; eauto. Qed.

Lemma from_done_later s s' i : later s s' → from_done s i → from_done s' i.
Proof. unfold from_done. intros (H & _). set_solver. Qed.
Lemma options_done_later s s' p : later s s' → options_done s p → options_done s' p.
Proof. unfold options_done. intros (_ & _ & H). set_solver. Qed.

Lemma from_closed_later s s' i : later s s' → from_closed s i → from_closed s' i.
Proof.
  intros Hl H w Hw. specialize (H w Hw). destruct (role_at i w).
  - by eapply from_done_later.
  - by eapply options_done_later.
  - destruct H as [Hs Hj]. split; [by apply Hl|]. intros Hf j Hij Hr. by eapply from_done_later; eauto.
Qed.
Lemma options_closed_later s s' p : later s s' → options_closed s p → options_closed s' p.
Proof.
  intros Hl. destruct p as [i skip]. simpl. destruct (fields !! i); [|by apply from_done_later].
  destruct (String.eqb _ _); [by apply from_done_later|]. destruct (HasPrefix _ _); [|by apply from_done_later].
  intros []. split; by eapply options_done_later.
Qed.

(** What the maps hold is where the relation may go. *)
Definition sound (s : scan) : Prop :=
  (∀ i, i ∈ sc_visited s → may_from i) ∧ (∀ i, i ∈ sc_starts s → command_at i) ∧
  (∀ i skip, (i, skip) ∈ sc_options s → may_options i skip).

(** Everything newly entered between [s] and [s'] is closed in [s']. *)
Definition closed_since (s s' : scan) : Prop :=
  (∀ i, i ∈ sc_visited s' → i ∉ sc_visited s → from_closed s' i) ∧
  (∀ p, p ∈ sc_options s' → p ∉ sc_options s → options_closed s' p).

Lemma closed_since_refl s : closed_since s s.
Proof. by split. Qed.

Lemma closed_since_trans s1 s2 s3 : later s1 s2 → later s2 s3 →
  closed_since s1 s2 → closed_since s2 s3 → closed_since s1 s3.
Proof.
  intros H12 H23 [A B] [C D]. split.
  - intros i Hi Hn. destruct (decide (i ∈ sc_visited s2)); [|by apply C].
    eapply from_closed_later; eauto.
  - intros p Hp Hn. destruct (decide (p ∈ sc_options s2)); [|by apply D].
    eapply options_closed_later; eauto.
Qed.

(** What each call needs, asks for, and how deep it goes. *)
Definition target (t : task) : Prop :=
  match t with
  | From i => may_from i
  | Options i skip => may_options i skip
  | Scan i j => i < j ∧ ∃ w, may_from i ∧ fields !! i = Some w ∧ role_at i w = command_word true
  end.

Definition ready (s : scan) (t : task) : Prop :=
  match t with
  | From _ => True
  | Options i skip => i ≤ n + 1
  | Scan i j => i < j ∧ ∀ k, i < k → k < j → runner_at fields k = true → from_done s (k + 1)
  end.

Definition asked (s : scan) (t : task) : Prop :=
  match t with
  | From i => from_done s i
  | Options i skip => options_done s (i, skip)
  | Scan i j => ∀ k, i < k → runner_at fields k = true → from_done s (k + 1)
  end.

Definition depth (t : task) : nat :=
  match t with
  | From i => 3 * (n + 2 - i)
  | Options i _ => 3 * (n + 2 - i) + 1
  | Scan _ j => 3 * (n + 2 - j) + 2
  end.

Record run_post (s : scan) (t : task) (s' : scan) : Prop := {
  rp_later : later s s';
  rp_asked : asked s' t;
  rp_closed : closed_since s s';
  rp_found : found_ok s';
  rp_sound : sound s'
}.

Lemma run_post_trans s t s1 t' s2 : run_post s t s1 → run_post s1 t' s2 → asked s2 t → run_post s t s2.
Proof.
  intros [] [] H. split; [by etrans | done | by eapply closed_since_trans | done | done].
Qed.

(** A word entered before the call on what follows it. *)
Lemma post_visit i w s s1 t s' : fields !! i = Some w → i ∉ sc_visited s →
  later (visit i s) s1 → sc_visited s1 = sc_visited (visit i s) → sc_options s1 = sc_options s →
  run_post s1 t s' → (asked s' t → from_closed s' i) → run_post s (From i) s'.
Proof.
  intros Hw Hi Hl Hv Ho [Hl' Ha [Hc1 Hc2] Hf Hs] Hcl.
  assert (i ∈ sc_visited s') as Hin by (apply Hl'; rewrite Hv; simpl; set_solver).
  split; try done.
  - transitivity s1; [|done]. transitivity (visit i s); [|done]. unfold visit. repeat split; simpl; set_solver.
  - by right.
  - split.
    + intros k Hk Hn. destruct (decide (k = i)) as [->|]; [by apply Hcl|].
      apply Hc1; [done|]. rewrite Hv. simpl. set_solver.
    + intros p Hp Hn. apply Hc2; [done|]. by rewrite Ho.
Qed.

Lemma sound_visit i s : may_from i → sound s → sound (visit i s).
Proof.
  intros Hi (A & B & C). split; [|by split]. simpl.
  intros k [->%elem_of_singleton|Hk]%elem_of_union; auto.
Qed.
Lemma sound_start i w f s : may_from i → fields !! i = Some w → role_at i w = command_word f →
  sound s → sound (start i s).
Proof.
  intros Hi Hw Hr (A & B & C). split; [done|]. split; [|done]. simpl.
  intros k [->%elem_of_singleton|Hk]%elem_of_union; [by split; eauto | by apply B].
Qed.
Lemma sound_option i skip s : may_options i skip → sound s → sound (option_seen i skip s).
Proof.
  intros Hi (A & B & C). split; [done|]. split; [done|]. simpl.
  intros k sk [Hk%elem_of_singleton|Hk]%elem_of_union; [by injection Hk as -> -> | by apply C].
Qed.

Lemma found_later s s' : later s s' → sc_found s = sc_found s' → found_ok s → found_ok s'.
Proof. intros Hl Hf [Hn H]. split; [lia|]. intros j Hj Hr. eapply from_done_later; [done|]. apply H; [lia | done]. Qed.

Lemma role_next i w next : role_at i w = passed next → i < next.
Proof.
  unfold role_of. destruct (_ || _); [intros [= <-]; lia|]. destruct (isRedirection w) as [[|] [|]].
  - intros [= <-]. lia.
  - intros [= <-]. lia.
  - by destruct (wrapperWords _).
  - by destruct (wrapperWords _).
Qed.

Lemma dash_prefix : HasPrefix "--" "-" = true. Proof. reflexivity. Qed.

Lemma run_correct fuel : ∀ t s, depth t < fuel → target t → ready s t → found_ok s → sound s →
  ∃ s', run fuel t s = Some s' ∧ run_post s t s'.
Proof.
  induction fuel as [|fuel IH]; intros t s Hd Ht Hr Hf Hs; [lia|].
  destruct t as [i|i skip|i j]; cbn [ShellSplit.run]; simpl in Hd, Ht, Hr.
  - destruct (fields !! i) as [w|] eqn:Hw.
    2:{ exists s. split; [done|]. apply lookup_ge_None in Hw. split; try done; by left. }
    pose proof (lookup_lt_Some _ _ _ Hw) as Hlt.
    case_bool_decide as Hv.
    { exists s. split; [done|]. split; try done. by right. }
    assert (later s (visit i s)) as Hlv by (unfold visit; repeat split; simpl; set_solver).
    assert (found_ok (visit i s)) as Hfv by (eapply found_later; [done | done | done]).
    pose proof (sound_visit i s Ht Hs) as Hsv.
    destruct (role_at i w) as [next|skip|find] eqn:Er.
    + pose proof (role_next _ _ _ Er).
      destruct (IH (From next) (visit i s)) as (s' & -> & Hp); [simpl; lia | by eapply from_passed | done | done | done|].
      exists s'. split; [done|]. eapply post_visit; [done | done | reflexivity | done | done | exact Hp|].
      intros Ha w' Hw'. simplify_eq. by rewrite Er.
    + destruct (IH (Options (i + 1) skip) (visit i s)) as (s' & -> & Hp);
        [simpl; lia | by eapply options_first | simpl; lia | done | done|].
      exists s'. split; [done|]. eapply post_visit; [done | done | reflexivity | done | done | exact Hp|].
      intros Ha w' Hw'. simplify_eq. by rewrite Er.
    + assert (later (visit i s) (start i (visit i s))) as Hls by (unfold start; repeat split; simpl; set_solver).
      assert (found_ok (start i (visit i s))) as Hfs by (eapply found_later; [done | done | done]).
      pose proof (sound_start i w find _ Ht Hw Er Hsv) as Hss.
      destruct find.
      * destruct (IH (Scan i (i + 1)) (start i (visit i s))) as (s' & -> & Hp);
          [simpl; lia | split; [lia | eauto] | split; [lia | intros; lia] | done | done|].
        exists s'. split; [done|]. eapply post_visit; [done | done | exact Hls | done | done | exact Hp|].
        intros Ha w' Hw'. simplify_eq. rewrite Er. split; [apply Hp; simpl; set_solver|].
        intros _ k Hk Hrun. by apply Ha.
      * exists (start i (visit i s)). split; [done|].
        eapply (post_visit i w s (start i (visit i s)) (From n)); [done | done | exact Hls | done | done | |].
        -- split; try done. by left.
        -- intros _ w' Hw'. simplify_eq. rewrite Er. split; [simpl; set_solver | done].
  - case_bool_decide as Hv; [exists s; split; [done|]; by split|].
    set (s1 := option_seen i skip s).
    assert (later s s1) as Hl1 by (unfold s1, option_seen; repeat split; simpl; set_solver).
    assert (found_ok s1) as Hf1 by (eapply found_later; [done | done | done]).
    pose proof (sound_option i skip s Ht Hs) as Hs1. fold s1 in Hs1.
    assert (∀ t s', run_post s1 t s' → (asked s' t → options_closed s' (i, skip)) → run_post s (Options i skip) s') as Hwrap.
    { intros t s' [Hl' Ha [Hc1 Hc2] Hf' Hs'] Hcl.
      assert (options_done s' (i, skip)) as Hdone by (apply Hl'; simpl; set_solver).
      split; try done; [by etrans|]. split; [intros k Hk Hn; by apply Hc1|].
      intros p Hp Hn. destruct (decide (p = (i, skip))) as [->|]; [by apply Hcl|].
      apply Hc2; [done|]. simpl. set_solver. }
    destruct (fields !! i) as [w|] eqn:Hw.
    + pose proof (lookup_lt_Some _ _ _ Hw) as Hlt. destruct (String.eqb w "--") eqn:Edd.
      * apply String.eqb_eq in Edd as ->.
        destruct (IH (From (i + 1 + skip)) s1) as (s' & -> & Hp); [simpl; lia | by eapply from_ended | done | done | done|].
        exists s'. split; [done|]. eapply Hwrap; [done|]. simpl. rewrite Hw. done.
      * destruct (HasPrefix w "-") eqn:Edash.
        -- apply String.eqb_neq in Edd.
           destruct (IH (Options (i + 1) skip) s1) as (s2 & -> & Hp2);
             [simpl; lia | by eapply options_flag | simpl; lia | done | done|]. simpl.
           destruct (IH (Options (i + 2) skip) s2) as (s3 & -> & Hp3);
             [simpl; lia | by eapply options_value | simpl; lia | exact (rp_found _ _ _ Hp2) | exact (rp_sound _ _ _ Hp2)|].
           exists s3. split; [done|].
           assert (options_done s3 (i + 1, skip)) as Hd1 by exact (options_done_later _ _ _ (rp_later _ _ _ Hp3) (rp_asked _ _ _ Hp2)).
           eapply Hwrap; [eapply run_post_trans; [exact Hp2 | exact Hp3 | done]|].
           intros _. simpl. rewrite Hw. apply String.eqb_neq in Edd. rewrite Edd, Edash. split; [done | exact (rp_asked _ _ _ Hp3)].
        -- destruct (IH (From (i + skip)) s1) as (s' & -> & Hp);
             [simpl; lia | eapply from_options; [done|]; intros w' Hw'; rewrite Hw in Hw'; by simplify_eq | done | done | done|].
           exists s'. split; [done|]. eapply Hwrap; [done|]. simpl. by rewrite Hw, Edd, Edash.
    + destruct (IH (From (i + skip)) s1) as (s' & -> & Hp);
        [simpl; lia | eapply from_options; [done|]; intros w' Hw'; rewrite Hw in Hw'; by simplify_eq | done | done | done|].
      exists s'. split; [done|]. eapply Hwrap; [done|]. simpl. by rewrite Hw.
  - destruct Hr as [Hij Hr]. destruct Ht as (_ & w & Hfrom & Hw & Er). destruct (j <? sc_found s) eqn:Ej.
    2:{ exists (scanned i s). split; [done|]. apply Nat.ltb_ge in Ej.
        assert (later s (scanned i s)) as Hl by done.
        assert (∀ k, i < k → runner_at fields k = true → from_done s (k + 1)) as Hall.
        { intros k Hk Hrk. destruct (decide (k < j)); [by apply Hr|]. apply Hf; [lia | done]. }
        split; try done. destruct Hf as [Hn Hf]. split; [simpl; lia|].
        intros k Hk Hrk. simpl in Hk. destruct (decide (i < k)); [by apply Hall | apply Hf; [lia | done]]. }
    apply Nat.ltb_lt in Ej. pose proof (proj1 Hf) as Hn.
    assert (∃ s1, (if runner_at fields j then run fuel (From (j + 1)) s else Some s) = Some s1 ∧
      later s s1 ∧ closed_since s s1 ∧ found_ok s1 ∧ sound s1 ∧ (runner_at fields j = true → from_done s1 (j + 1)))
      as (s1 & -> & Hl1 & Hc1 & Hf1 & Hs1 & Hj1).
    { destruct (runner_at fields j) eqn:Erun; [|by exists s].
      destruct (IH (From (j + 1)) s) as (s1 & -> & [Hl Ha Hc Hf' Hs']); [simpl; lia | by eapply from_find | done | done | done|].
      by exists s1. }
    simpl. destruct (IH (Scan i (j + 1)) s1) as (s2 & -> & [Hl2 Ha2 Hc2 Hf2 Hs2]).
    + simpl. lia.
    + split; [lia | eauto].
    + split; [lia|]. intros k Hk Hkj Hrk. destruct (decide (k = j)) as [->|]; [by apply Hj1|].
      eapply from_done_later; [done|]. apply Hr; [lia | lia | done].
    + done.
    + done.
    + exists s2. split; [done|]. split; [by etrans | done | by eapply closed_since_trans | done | done].
Qed.

(** ** What the search ends with *)

Scheme may_from_both := Induction for may_from Sort Prop
  with may_options_both := Induction for may_options Sort Prop.
Combined Scheme may_both from may_from_both, may_options_both.

(** A closed search has everything the relation reaches. *)
Lemma closed_complete s : from_done s 0 →
  (∀ i, i ∈ sc_visited s → from_closed s i) → (∀ p, p ∈ sc_options s → options_closed s p) →
  (∀ i, may_from i → from_done s i) ∧ (∀ i skip, may_options i skip → options_done s (i, skip)).
Proof.
  intros H0 Hf Ho.
  assert (∀ i w, fields !! i = Some w → from_done s i → i ∈ sc_visited s) as Hin.
  { intros i w Hw [Hge|]; [|done]. apply lookup_lt_Some in Hw. lia. }
  enough ((∀ i (m : may_from i), from_done s i) ∧ (∀ i skip (m : may_options i skip), options_done s (i, skip))) as [];
    [by split|].
  apply may_both; try done.
  - intros i w next _ Hd Hw Hr. specialize (Hf _ (Hin _ _ Hw Hd) _ Hw). by rewrite Hr in Hf.
  - intros i w j _ Hd Hw Hr Hij Hrun. specialize (Hf _ (Hin _ _ Hw Hd) _ Hw). rewrite Hr in Hf.
    by apply Hf.
  - intros i w skip _ Hd Hw ->. specialize (Ho _ Hd). simpl in Ho. by rewrite Hw in Ho.
  - intros i skip _ Hd Hn. specialize (Ho _ Hd). simpl in Ho. destruct (fields !! i) as [w|]; [|done].
    specialize (Hn w eq_refl). destruct (String.eqb w "--") eqn:E; [|by rewrite Hn in Ho].
    apply String.eqb_eq in E. by rewrite E in Hn.
  - intros i w skip _ Hd Hw Hr. specialize (Hf _ (Hin _ _ Hw Hd) _ Hw). by rewrite Hr in Hf.
  - intros i w skip _ Hd Hw Hn Hp. specialize (Ho _ Hd). simpl in Ho. apply String.eqb_neq in Hn.
    rewrite Hw, Hn, Hp in Ho. by apply Ho.
  - intros i w skip _ Hd Hw Hn Hp. specialize (Ho _ Hd). simpl in Ho. apply String.eqb_neq in Hn.
    rewrite Hw, Hn, Hp in Ho. by apply Ho.
Qed.

Lemma search_exact : ∃ s, run (scan_fuel fields) (From 0) (no_scan fields) = Some s ∧
  ∀ i, i ∈ sc_starts s ↔ command_at i.
Proof.
  assert (found_ok (no_scan fields)) as Hf.
  { split; [done|]. simpl. intros j Hj Hr. unfold runner_at in Hr.
    destruct (fields !! j) eqn:E; [apply lookup_lt_Some in E; lia | done]. }
  destruct (run_correct (scan_fuel fields) (From 0) (no_scan fields)) as (s & Hrun & [Hl Ha [Hc1 Hc2] _ Hs]).
  - unfold scan_fuel. simpl. lia.
  - constructor.
  - done.
  - done.
  - by repeat split.
  - exists s. split; [done|]. intros i. split; [by apply Hs|]. intros (Hi & w & find & Hw & Hr).
    destruct (closed_complete s Ha) as [Hall _]; [intros; apply Hc1; set_solver | intros; apply Hc2; set_solver|].
    destruct (Hall i Hi) as [Hge|Hv]; [apply lookup_lt_Some in Hw; lia|].
    specialize (Hc1 i Hv). assert (from_closed s i) as Hcl by (apply Hc1; simpl; set_solver).
    specialize (Hcl _ Hw). rewrite Hr in Hcl. by apply Hcl.
Qed.
End forms.

(** The forms [strippedForms] gives, when it does not give up, are exactly the
    rest of the part from each word where a command may start, and it always
    ends: a command is found behind any mix of keywords, assignments,
    redirections, wrappers such as [sudo] with options that may or may not take
    a value, and actions of [find], although each word is visited once. *)
Theorem strippedForms_exact (tx : Text) (segment : string) :
  ∃ forms whole, strippedForms tx segment = Some (forms, whole) ∧
    (whole = false → forms = []) ∧
    (whole = true → ∀ f, f ∈ forms ↔
       ∃ i, command_at tx (Fields segment) i ∧ f = Join (drop i (Fields segment)) " ").
Proof.
  unfold strippedForms, stripped_fields.
  destruct (search_exact tx (Fields segment)) as (s & -> & Hs). simpl.
  destruct (maxFormsPerPart <? size (sc_starts s)).
  - by exists [], false.
  - exists (forms_at (Fields segment) (sc_starts s)), true. split; [done|]. split; [done|]. intros _ f.
    unfold forms_at. rewrite list_elem_of_In, in_map_iff. split.
    + intros (i & <- & Hi). apply filter_In in Hi as [_ Hi]. apply bool_decide_eq_true in Hi.
      exists i. split; [by apply Hs | done].
    + intros (i & Hi & ->). exists i. split; [done|]. apply filter_In. split.
      * destruct Hi as (_ & w & find & Hw & _). apply lookup_lt_Some in Hw. apply in_seq. lia.
      * by apply bool_decide_eq_true, Hs.
Qed.

(** ** The whole line *)

Lemma add_part_keeps s out x : x ∈ out → x ∈ add_part s out.
Proof. unfold add_part. destruct (_ || _); [done|]. intros H. apply elem_of_app. by left. Qed.

Lemma add_part_has s out : TrimSpace s = "" ∨ TrimSpace s ∈ add_part s out.
Proof.
  unfold add_part. destruct (String.eqb_spec (TrimSpace s) ""); [by left|]. right. cbn [orb].
  case_bool_decide; [done|]. apply elem_of_app. right. by apply list_elem_of_singleton.
Qed.

Lemma add_forms_keeps forms out x : x ∈ out → x ∈ fold_left (λ out f, add_part f out) forms out.
Proof. revert out. induction forms as [|f forms IH]; simpl; intros out H; [done|]. by apply IH, add_part_keeps. Qed.

Lemma add_forms_has forms out f : f ∈ forms →
  TrimSpace f = "" ∨ TrimSpace f ∈ fold_left (λ out f, add_part f out) forms out.
Proof.
  revert out. induction forms as [|g forms IH]; simpl; intros out H; [by apply elem_of_nil in H|].
  apply elem_of_cons in H as [->|H]; [|by apply IH].
  destruct (add_part_has g out) as [|Hg]; [by left|]. right. by apply add_forms_keeps.
Qed.

(** A command of a part of the line, from word [i] on. *)
Definition part_command (tx : Text) (parts : list string) (f : string) : Prop :=
  ∃ p i, p ∈ parts ∧ command_at tx (Fields (trim_part p)) i ∧ f = Join (drop i (Fields (trim_part p))) " ".

Lemma add_parts_sees tx parts out : ∃ out' complete, add_parts tx parts out = Some (out', complete) ∧
  (∀ x, x ∈ out → x ∈ out') ∧
  (complete = true → ∀ f, part_command tx parts f → TrimSpace f = "" ∨ TrimSpace f ∈ out').
Proof.
  revert out. induction parts as [|p parts IH]; intros out; cbn [add_parts].
  { exists out, true. split; [done|]. split; [done|]. intros _ f (q & i & Hq & _). by apply elem_of_nil in Hq. }
  destruct (strippedForms_exact tx (trim_part p)) as (forms & whole & -> & Hno & Hyes). cbn [mbind option_bind].
  set (out1 := fold_left _ forms _).
  assert (∀ x, x ∈ out → x ∈ out1) as Hk by (intros x Hx; by apply add_forms_keeps, add_part_keeps).
  destruct (negb whole || (maxSegments <? Z.of_nat (length out1))%Z) eqn:Ew.
  - exists out1, false. by split.
  - apply orb_false_iff in Ew as [->%negb_false_iff _]. destruct (IH out1) as (out2 & c & -> & Hk2 & Hc).
    exists out2, c. split; [done|]. split; [auto|]. intros ->. intros f (q & i & Hq & Hcmd & ->).
    apply elem_of_cons in Hq as [->|Hq].
    + destruct (add_forms_has forms (add_part (trim_part p) out) (Join (drop i (Fields (trim_part p))) " "))
        as [|Hin]; [apply (Hyes eq_refl); exists i; by split | by left | right; by apply Hk2].
    + apply Hc; [done|]. exists q, i. by split.
Qed.

(** ** The parts of a line

    A byte that ends a part, with what is before it and behind: a line's end, a
    backquote, a parenthesis; a semicolon, unless the reading takes one behind an odd
    run of backslashes as a word; an ampersand or a bar that is not of a redirection. *)

Definition odd_backslashes (before : string) : Prop :=
  ∃ b n, before = b ++ of_bytes (replicate (2 * n + 1) "\"%char) ∧ last_byte b ≠ Some "\"%char.
Definition separates (escapes : bool) (before : string) (c : ascii) (behind : string) : Prop :=
  c ∈ ["`"; "("; ")"; newline; "013"]%char ∨
  c = ";"%char ∧ (escapes = true → ¬ odd_backslashes before) ∨
  (c = "&"%char ∨ c = "|"%char) ∧ last_byte before ≠ Some ">"%char ∧ last_byte before ≠ Some "<"%char ∧
    (c = "&"%char → ∀ t, behind ≠ String ">" t).

(** [p] is a part of the line: such a byte or an end of the line on either side, and
    none inside. *)
Definition part_of (escapes : bool) (before p behind : string) : Prop :=
  (before = "" ∨ ∃ b c, before = b ++ String c "" ∧ separates escapes b c (p ++ behind)) ∧
  (behind = "" ∨ ∃ c b, behind = String c b ∧ separates escapes (before ++ p) c b) ∧
  ∀ a c b, p = a ++ String c b → ¬ separates escapes (before ++ a) c (b ++ behind).

Lemma of_bytes_app a b : of_bytes (a ++ b)%list = of_bytes a ++ of_bytes b.
Proof. rewrite <- (of_bytes_bytes (of_bytes a ++ of_bytes b)), bytes_app, !bytes_of_bytes. done. Qed.
Lemma escaped_run k b : head b ≠ Some "\"%char → escaped (replicate k "\"%char ++ b)%list = Nat.odd k.
Proof.
  intros Hb. induction k as [|k IH].
  - destruct b as [|c b]; [done|]. cbn [replicate app escaped]. destruct (Ascii.eqb_spec c "\"%char) as [->|]; [|done]. by destruct Hb.
  - cbn [replicate app escaped]. rewrite Ascii.eqb_refl, IH, Nat.odd_succ, <- Nat.negb_odd. done.
Qed.
Lemma run_of l : ∃ k b, l = (replicate k "\"%char ++ b)%list ∧ head b ≠ Some "\"%char.
Proof.
  induction l as [|c l (k & b & -> & Hb)]; [by exists 0, []|]. destruct (Ascii.eqb_spec c "\"%char) as [->|Hc]; [by exists (S k), b|].
  eexists 0, (c :: _). split; [done|]. cbn. congruence.
Qed.
Lemma escaped_odd before : escaped (reverse (bytes before)) = true ↔ odd_backslashes before.
Proof.
  split.
  - destruct (run_of (reverse (bytes before))) as (k & b & E & Hb). rewrite E, escaped_run by done. intros [n ->]%Nat.odd_spec.
    exists (of_bytes (reverse b)), n. apply (f_equal reverse) in E. rewrite reverse_involutive, reverse_app, reverse_replicate in E.
    split; [rewrite <- (of_bytes_bytes before), E; apply of_bytes_app|]. unfold last_byte. by rewrite bytes_of_bytes, last_reverse.
  - intros (b & n & -> & Hb). rewrite bytes_app, bytes_of_bytes, reverse_app, reverse_replicate, escaped_run.
    + apply Nat.odd_spec. by exists n.
    + by rewrite head_reverse.
Qed.

Lemma prev_in_spec before : prev_in "<>" (reverse (bytes before)) = true ↔ last_byte before = Some "<"%char ∨ last_byte before = Some ">"%char.
Proof.
  unfold last_byte. rewrite <- head_reverse. destruct (reverse (bytes before)) as [|c l]; cbn [prev_in head]; [naive_solver|].
  unfold byte_in. rewrite bool_decide_eq_true. cbn [bytes list_ascii_of_string]. rewrite !elem_of_cons, elem_of_nil. naive_solver.
Qed.
Lemma next_is_spec d s : next_is d s = true ↔ ∃ t, s = String d t.
Proof. destruct s as [|c s]; cbn [next_is]; [naive_solver|]. destruct (Ascii.eqb_spec c d) as [->|]; naive_solver. Qed.
Lemma ends_part_spec escapes before c behind : ends_part escapes (reverse (bytes before)) c behind = true ↔ separates escapes before c behind.
Proof.
  unfold ends_part, separates. set (controls := ["`"; "("; ")"; newline; "013"]%char).
  assert (Hp : prev_in "<>" (reverse (bytes before)) = false ↔ last_byte before ≠ Some ">"%char ∧ last_byte before ≠ Some "<"%char).
  { rewrite <- not_true_iff_false, prev_in_spec. tauto. }
  assert (Hn : next_is ">" behind = false ↔ ∀ t, behind ≠ String ">" t).
  { rewrite <- not_true_iff_false, next_is_spec. split; [intros H t E; apply H; by exists t|intros H [t E]; by apply (H t)]. }
  assert (Hout : ∀ d, bool_decide (d ∈ controls) = false → d ∈ controls → False) by (by intros d H%bool_decide_eq_false_1).
  destruct (Ascii.eqb_spec c "&"%char) as [->|Ha]; [|destruct (Ascii.eqb_spec c "|"%char) as [->|Hb]; [|destruct (Ascii.eqb_spec c ";"%char) as [->|Hs]]]; cbn [orb andb].
  - split.
    + destruct (prev_in _ _); [done|]. intros H%negb_true_iff. destruct (proj1 Hp eq_refl). right; right. split_and!; [by left|done|done|]. intros _. by apply Hn.
    + intros [H|[[H _]|(_ & H1 & H2 & H3)]]; [by destruct (Hout "&"%char)|done|]. rewrite (proj2 Hp) by done. by rewrite (proj2 Hn) by (by apply H3).
  - split.
    + destruct (prev_in _ _); [done|]. intros _. destruct (proj1 Hp eq_refl). right; right. split_and!; [by right|done|done|done].
    + intros [H|[[H _]|(_ & H1 & H2 & _)]]; [by destruct (Hout "|"%char)|done|]. by rewrite (proj2 Hp).
  - rewrite negb_true_iff, andb_false_iff, <- escaped_odd. split.
    + intros H. right; left. split; [done|]. intros He. destruct H as [H|H]; congruence.
    + intros [H|[[_ H]|[[H|H] _]]]; [by destruct (Hout ";"%char)| |done|done]. destruct escapes; [right|by left]. apply not_true_iff_false. by apply H.
  - unfold byte_in. rewrite bool_decide_eq_true. change (bytes ("`()" ++ newline_s ++ cr_s)) with controls. split; [by left|].
    intros [H|[[H _]|[[H|H] _]]]; done.
Qed.

(** The split of a line holds each part of it. *)
Lemma split_cons escapes a : ∀ before cur c t, separates escapes (before ++ a) c t →
  ∀ x, x ∈ split_control escapes (reverse (bytes (before ++ a ++ String c ""))) [] t →
    x ∈ split_control escapes (reverse (bytes before)) cur (a ++ String c t).
Proof.
  induction a as [|d a IH]; intros before cur c t Hs x Hx.
  - rewrite str_app_nil_r in Hs. change ("" ++ String c t) with (String c t). cbn [split_control]. rewrite (proj2 (ends_part_spec _ _ _ _)) by done.
    right. by rewrite bytes_app, reverse_app in Hx.
  - rewrite str_app_cons. cbn [split_control]. assert (E : (d :: reverse (bytes before))%list = reverse (bytes (before ++ String d ""))) by (by rewrite bytes_app, reverse_app).
    rewrite E. assert (Hx' : ∀ cur', x ∈ split_control escapes (reverse (bytes (before ++ String d ""))) cur' (a ++ String c t)).
    { intros cur'. apply IH; rewrite str_app_assoc; [exact Hs|exact Hx]. }
    destruct (ends_part _ _ _ _); [right|]; apply Hx'.
Qed.
Lemma split_front escapes p : ∀ before cur behind,
  (behind = "" ∨ ∃ c b, behind = String c b ∧ separates escapes (before ++ p) c b) →
  (∀ a c b, p = a ++ String c b → ¬ separates escapes (before ++ a) c (b ++ behind)) →
  of_bytes (reverse cur) ++ p ∈ split_control escapes (reverse (bytes before)) cur (p ++ behind).
Proof.
  induction p as [|d p IH]; intros before cur behind Hb Hp.
  - rewrite str_app_nil_r in *. change ("" ++ behind) with behind. destruct Hb as [->|(c & b & -> & Hs)]; [by left|].
    cbn [split_control]. rewrite (proj2 (ends_part_spec _ _ _ _)) by done. by left.
  - rewrite str_app_cons. cbn [split_control]. destruct (ends_part _ _ d _) eqn:E.
    { apply ends_part_spec in E. destruct (Hp "" d p eq_refl). by rewrite str_app_nil_r. }
    assert (Er : (d :: reverse (bytes before))%list = reverse (bytes (before ++ String d ""))) by (by rewrite bytes_app, reverse_app).
    rewrite Er. assert (Ec : of_bytes (reverse cur) ++ String d p = of_bytes (reverse (d :: cur)) ++ p).
    { rewrite reverse_cons, of_bytes_app, str_app_assoc. done. }
    rewrite Ec. apply IH.
    + destruct Hb as [->|(c & b & -> & Hs)]; [by left|right]. exists c, b. split; [done|]. by rewrite str_app_assoc.
    + intros a c b -> Hs. apply (Hp (String d a) c b eq_refl). by rewrite str_app_assoc in Hs.
Qed.
Lemma splitControl_has escapes before p behind : part_of escapes before p behind → p ∈ splitControl (before ++ p ++ behind) escapes.
Proof.
  intros (Hf & Hb & Hp). unfold splitControl. destruct Hf as [->|(a & c & -> & Hs)].
  - exact (split_front escapes p "" [] behind Hb Hp).
  - rewrite str_app_assoc. apply (split_cons escapes a "" [] c (p ++ behind)); [exact Hs|]. exact (split_front escapes p (a ++ String c "") [] behind Hb Hp).
Qed.

