(* ===== verification/PolicyRule.v ===== *)
(** Permission rules (src/internal/policy: toolname.go, flags.go and the rule
    half of policy.go): the names a rule's tool may be written by, parsing a
    rule, and what it matches. *)

From Stdlib Require Import ZArith NArith Ascii String Lia.
From stdpp Require Import base tactics list option strings gmap.
From S2P Require Import Prelude.
From S2P Require Import GoStd.
From S2P Require Import Errors.
From S2P Require Import GoNet.
From S2P Require Import GoPath.
From S2P Require Import Glob.
From S2P Require Import ShellSplit.

#[local] Open Scope string_scope.
#[local] Open Scope nat_scope.
#[local] Open Scope go_scope.

(** ** Tool names *)

Definition builtinTools : list string :=
  ["bash"; "read"; "write"; "edit"; "glob"; "grep"; "todo"; "ask_user"; "memory_write"; "exit_plan";
   "tool_search"; "task"; "tasks"; "task_status"; "task_cancel"; "recall"; "shell_output"; "shell_kill";
   "web_search"; "web_fetch"; "search"; "skill"; "result"; "k8s_get"; "k8s_apply"; "k8s_login"; "ssh";
   "ssh_connect"; "ssh_put"; "ssh_get"; "secret"; "delete"; "mkdir"; "rename"; "forge_pr"].

Definition BuiltinTool (name : string) : bool := word_in builtinTools name.

Definition BuiltinTools : list string := sort_strings builtinTools.

(** Lowers an ASCII name; [None] for a name with any other byte. *)
Definition asciiLower (name : string) : option string :=
  if hasNonASCII name then None else Some (ToLower name).

Definition ReservedToolName (name : string) : bool :=
  match asciiLower name with Some lower => BuiltinTool lower | None => false end.

Definition CanonicalTool (name : string) : string :=
  match asciiLower name with
  | Some lower => if BuiltinTool lower then lower else name
  | None => name
  end.

(** The form of an MCP server's name: 1 to 64 letters, digits, [_] and [-]. *)
Definition mcp_byte (c : ascii) : bool :=
  in_range "A" "Z" c || in_range "a" "z" c || in_range "0" "9" c || (c =c "_") || (c =c "-").
Definition mcpServerName (s : string) : bool :=
  (1 <=? String.length s) && (String.length s <=? 64) && str_forall mcp_byte s.

Definition MCPServerWildcard (tool : string) : option string :=
  match CutPrefix tool "mcp__" with
  | None => None
  | Some server =>
      if negb (HasSuffix server "__*") then None
      else
        let server := TrimSuffix server "__*" in
        if mcpServerName server then Some ("mcp__" ++ server ++ "__") else None
  end.

Definition familiarTools : list (string * string) :=
  [("multiedit", "edit"); ("webfetch", "web_fetch"); ("websearch", "web_search"); ("todowrite", "todo");
   ("ls", "glob"); ("notebookedit", "edit"); ("shell", "bash")].

Definition familiar (lower : string) : option string :=
  snd <$> find_first (λ p, String.eqb (fst p) lower) familiarTools.

Definition FamiliarName (tx : Text) (name : string) : bool := opt_some (familiar (tx_lower tx name)).

(** One row of the table from the one before; [left] is the entry to the left. *)
Fixpoint next_row (x : ascii) (b : list ascii) (prev : list nat) (left : nat) : list nat :=
  match b, prev with
  | y :: b, diag :: ((up :: _) as prev) =>
      let cost := if x =c y then 0 else 1 in
      let here := Nat.min (up + 1) (Nat.min (left + 1) (diag + cost)) in
      here :: next_row x b prev here
  | _, _ => []
  end.

Fixpoint edit_rows (a b : list ascii) (i : nat) (prev : list nat) : list nat :=
  match a with
  | [] => prev
  | x :: a => edit_rows a b (i + 1) (i :: next_row x b prev i)
  end.

Definition editDistance (a b : string) : nat :=
  default 0 (last (edit_rows (bytes a) (bytes b) 1 (seq 0 (String.length b + 1)))).

Definition closer (lower : string) (best : string * nat) (name : string) : string * nat :=
  let d := editDistance lower name in if d <? snd best then (name, d) else best.

Definition SuggestTool (tx : Text) (name : string) : string :=
  let lower := tx_lower tx name in
  match familiar lower with
  | Some t => t
  | None =>
      let limit := if 5 <=? String.length lower then 2 else 1 in
      fst (fold_left (closer lower) BuiltinTools ("", limit + 1))
  end.

(** ** A glob's flags *)

(** The program and words before the flags, the flags, and the rest. *)
Record flagForm : Type := MkFlagForm {
  ff_prefix : list string; ff_short : gset ascii; ff_long : gset string; ff_rest : regexp
}.

Definition alnum (c : ascii) : bool := in_range "A" "Z" c || in_range "a" "z" c || in_range "0" "9" c.

(** A cluster of short flags, and its letters. *)
Definition shortCluster (w : string) : option (gset ascii) :=
  match w with
  | String c r =>
      if (c =c "-") && negb (String.eqb r "") && str_forall alnum r then Some (list_to_set (bytes r)) else None
  | EmptyString => None
  end.

Definition longFlag (w : string) : bool :=
  (2 <? String.length w) && HasPrefix w "--" && negb (Contains w "=").

(** The literal words up to the first flag; [None] at a wildcard. *)
Fixpoint flag_prefix (fields : list string) : option (list string * list string) :=
  match fields with
  | [] => Some ([], [])
  | w :: rest =>
      if ContainsAny w "*?" then None
      else if HasPrefix w "-" then Some ([], fields)
      else '(p, r) ← flag_prefix rest; Some (w :: p, r)
  end.

Fixpoint flag_words (fields : list string) (short : gset ascii) (long : gset string)
    : gset ascii * gset string * list string :=
  match fields with
  | [] => (short, long, [])
  | w :: rest =>
      match shortCluster w with
      | Some cs => flag_words rest (cs ∪ short) long
      | None => if longFlag w then flag_words rest short ({[w]} ∪ long) else (short, long, fields)
      end
  end.

Section rules.
Context (tx : Text).

Definition parseFlagForm (glob : string) : option flagForm :=
  '(prefix, fields) ← flag_prefix (Fields glob);
  match prefix with
  | [] => None
  | p :: ps =>
      let '(short, long, rest) := flag_words fields ∅ ∅ in
      if size short + size long =? 0 then None
      else
        match globToRegexp (Join rest " ") with
        | Fail _ => None
        | Ok re => Some (MkFlagForm (CommandName tx p :: ps) short long re)
        end
  end.

(** The flags and operands of a command's words. *)
Fixpoint command_flags (fields : list string) (ended : bool) (short : gset ascii) (long : gset string)
    (operands : list string) : gset ascii * gset string * list string :=
  match fields with
  | [] => (short, long, operands)
  | w :: rest =>
      if ended then command_flags rest ended short long (operands ++ [w])%list
      else if String.eqb w "--" then command_flags rest true short long operands
      else
        match shortCluster w with
        | Some cs => command_flags rest ended (cs ∪ short) long operands
        | None =>
            if longFlag w then command_flags rest ended short ({[w]} ∪ long) operands
            else command_flags rest ended short long (operands ++ [w])%list
        end
  end.

Definition flag_matches (f : flagForm) (command : string) : bool :=
  let fields := Fields command in
  match fields, ff_prefix f with
  | w :: _, p :: ps =>
      if (length fields <? length (ff_prefix f)) || negb (String.eqb (CommandName tx (Base w)) p) then false
      else if negb (bool_decide (take (length ps) (drop 1 fields) = ps)) then false
      else
        let '(short, long, operands) := command_flags (drop (length (ff_prefix f)) fields) false ∅ ∅ [] in
        bool_decide (ff_short f ⊆ short) && bool_decide (ff_long f ⊆ long) &&
        MatchString (ff_rest f) (Join operands " ")
  | _, _ => false
  end.

(** ** Rules *)

Record Rule : Type := MkRule {
  pr_raw : string; pr_tool : string;
  pr_pattern : option regexp;      (* [None]: any argument *)
  pr_glob : string;
  pr_folded : option regexp;
  pr_caseless : option regexp;
  pr_nfc : option regexp;
  pr_flags : option flagForm;
  pr_session : bool; pr_layer : string
}.

(** [strings.IndexAny], for a set of ASCII bytes. *)
Fixpoint IndexAny (s set : string) : option nat :=
  match s with
  | EmptyString => None
  | String c s => if byte_in set c then Some 0 else S <$> IndexAny s set
  end.

Definition blank_tab : string := String " " (String tab "").

Definition lowerLiteralPrefix (glob : string) : string :=
  let stop := default (String.length glob) (IndexAny glob ("*?" ++ blank_tab)) in
  tx_lower tx (str_take stop glob) ++ str_drop stop glob.

(** The compiled fields of a rule with a pattern. *)
Definition compile_glob (glob : string) : result (regexp * option regexp * option regexp * option regexp) :=
  let? re := globToRegexp glob in
  let caseless := if String.eqb (tx_lower tx glob) (tx_upper tx glob) then None else Some re in
  let? nfc := if hasNonASCII glob
              then match globToRegexp (tx_nfc tx glob) with Ok r => Ok (Some r) | Fail e => Fail e end
              else Ok None in
  let lowered := lowerLiteralPrefix glob in
  let? folded := if String.eqb lowered glob then Ok None
                 else match globToRegexp lowered with Ok r => Ok (Some r) | Fail e => Fail e end in
  Ok (re, caseless, nfc, folded).

Definition rule_error (s msg : string) : error := plain ("rule " ++ Quote s ++ ": " ++ msg).

Definition ParseRule (s : string) : result Rule :=
  let s := TrimSpace s in
  if String.eqb s "" then Fail (plain "empty rule")
  else
    let open := IndexByte s "(" in
    if opt_some open && negb (HasSuffix s ")") then
      Fail (rule_error s "missing the closing parenthesis (a rule is a tool name, optionally followed by a pattern in parentheses, e.g. bash(go test*))")
    else
      match open with
      | Some 0 => Fail (rule_error s "no tool name before the pattern")
      | Some i =>
          let tool := str_take i s in
          let glob := str_take (String.length s - 1 - (i + 1)) (str_drop (i + 1) s) in
          match compile_glob glob with
          | Fail e => Fail (err_prefix ("rule " ++ Quote s ++ ": ") e)
          | Ok (re, caseless, nfc, folded) =>
              Ok (MkRule s (CanonicalTool (TrimSpace tool)) (Some re) glob folded caseless nfc
                    (parseFlagForm glob) false "")
          end
      | None =>
          if HasSuffix s ")" then Fail (rule_error s "closing parenthesis with no opening one")
          else Ok (MkRule s (CanonicalTool (TrimSpace s)) None "" None None None None false "")
      end.

Definition with_session (r : Rule) : Rule :=
  MkRule (pr_raw r) (pr_tool r) (pr_pattern r) (pr_glob r) (pr_folded r) (pr_caseless r) (pr_nfc r)
    (pr_flags r) true (pr_layer r).
Definition with_layer (layer : string) (r : Rule) : Rule :=
  MkRule (pr_raw r) (pr_tool r) (pr_pattern r) (pr_glob r) (pr_folded r) (pr_caseless r) (pr_nfc r)
    (pr_flags r) (pr_session r) layer.

Definition ForTool (r : Rule) (tool : string) : bool :=
  String.eqb (pr_tool r) tool || String.eqb (pr_tool r) "*" ||
  match MCPServerWildcard (pr_tool r) with
  | Some prefix => HasPrefix tool prefix && (String.length prefix <? String.length tool)
  | None => false
  end.

Definition Canonical_rule (r : Rule) : string :=
  match pr_pattern r with
  | None => pr_tool r
  | Some _ => pr_tool r ++ "(" ++ pr_glob r ++ ")"
  end.

Definition foldName (command : string) : string :=
  let rest := trim_left_set blank_tab command in
  let start := String.length command - String.length rest in
  let stop := default (String.length rest) (IndexAny rest (blank_tab ++ newline_s)) in
  str_take start command ++ CommandName tx (str_take stop rest) ++ str_drop stop rest.

Definition Matches (r : Rule) (tool subject : string) : bool :=
  if negb (ForTool r tool) then false
  else
    match pr_pattern r with
    | None => true
    | Some pattern =>
        MatchString pattern subject ||
        (String.eqb tool "bash" && tx_folds tx &&
         (let lowered := foldName subject in
          (negb (String.eqb lowered subject) || opt_some (pr_folded r)) &&
          MatchString (default pattern (pr_folded r)) lowered))
    end.

Definition matchesEverything (r : Rule) : bool :=
  negb (opt_some (pr_pattern r)) || String.eqb (pr_glob r) "*".

Definition NeverAllows (rule : string) : bool :=
  match ParseRule rule with
  | Ok r => String.eqb (pr_tool r) "bash" && hasShellControl (pr_glob r)
  | Fail _ => false
  end.

Definition matchesAny (r : Rule) (tool : string) (subjects : list string) : bool :=
  existsb (Matches r tool) subjects.

(** In NFC on both sides too; without a pattern the rule matched above. *)
Definition matchesPathAny (r : Rule) (tool : string) (subjects : list string) : bool :=
  matchesAny r tool subjects ||
  (ForTool r tool &&
   existsb (λ s,
     (hasNonASCII s || opt_some (pr_nfc r)) &&
     match pr_nfc r, pr_pattern r with
     | Some re, _ | None, Some re => MatchString re (tx_nfc tx s)
     | None, None => false
     end) subjects).

Definition MatchFolded (re : regexp) (s : string) : bool := glob_match (tx_fold tx) re (runes s).

Definition matchesCaselessAny (r : Rule) (tool : string) (subjects : list string) : bool :=
  match pr_caseless r with
  | None => false
  | Some re =>
      ForTool r tool &&
      existsb (λ s, MatchFolded re s || (hasNonASCII s && MatchFolded re (tx_nfc tx s))) subjects
  end.

Definition matchesFlagsAny (r : Rule) (tool : string) (subjects : list string) : bool :=
  match pr_flags r with
  | None => false
  | Some f => String.eqb tool "bash" && ForTool r tool && existsb (flag_matches f) subjects
  end.

(** [pathFoldsCase]; [at_] is [tools.FoldsCaseAt], of the disk. *)
Fixpoint first_abs_folds (at_ : string → bool) (subjects : list string) : bool :=
  match subjects with
  | [] => false
  | s :: subjects => if IsAbs s then at_ s else first_abs_folds at_ subjects
  end.
Definition pathFoldsCase (at_ : string → bool) (subjects : list string) : bool :=
  tx_folds tx || first_abs_folds at_ subjects.

(** How a reason names the rule. *)
Definition named_rule (r : Rule) : string :=
  if pr_session r then "session rule " ++ pr_raw r
  else if negb (String.eqb (pr_layer r) "") then pr_layer r ++ " rule " ++ pr_raw r
  else "rule " ++ pr_raw r.

(** A deny or ask rule with a pattern is for the tool. *)
Definition patterned (rules : list Rule) (tool : string) : bool :=
  existsb (λ r, ForTool r tool && opt_some (pr_pattern r)) rules.

Definition IsBroad (pattern : string) : bool :=
  match ParseRule pattern with
  | Fail _ => false
  | Ok r =>
      String.eqb (pr_tool r) "*" || negb (opt_some (pr_pattern r)) ||
      String.eqb (Trim (pr_glob r) "*/") ""
  end.
End rules.

(** ** Examples *)

Definition rule_is (s tool glob : string) : bool :=
  match ParseRule ascii_text s with
  | Ok r => String.eqb (pr_tool r) tool && String.eqb (pr_glob r) glob
  | Fail _ => false
  end.
Example parse_bash : rule_is " Bash(rm -rf *) " "bash" "rm -rf *" = true. Proof. vm_compute. reflexivity. Qed.
Example deny_moved_flags :
  match ParseRule ascii_text "bash(rm -rf *)" with
  | Ok r => matchesFlagsAny ascii_text r "bash" ["/bin/rm x -f -r"]
  | Fail _ => false
  end = true. Proof. vm_compute. reflexivity. Qed.
Example suggest_edit : SuggestTool ascii_text "Wirte" = "write". Proof. vm_compute. reflexivity. Qed.
Example kitten : editDistance "kitten" "sitting" = 3. Proof. vm_compute. reflexivity. Qed.
