(* ===== verification/Overlay.v ===== *)
(** The rules a person adds for a session (src/internal/policy/overlay.go) and
    the rule lists of an engine (the rule half of policy.go's [Engine]).

    The overlay's lock makes each operation one atomic step. *)

From Stdlib Require Import ZArith NArith Ascii String Lia.
From stdpp Require Import base tactics list option strings relations.
From S2P Require Import Prelude.
From S2P Require Import GoStd.
From S2P Require Import Errors.
From S2P Require Import ShellSplit.
From S2P Require Import PolicyRule.

#[local] Open Scope string_scope.
#[local] Open Scope nat_scope.
#[local] Open Scope go_scope.

Definition ListAllow : string := "allow".
Definition ListAsk : string := "ask".
Definition ListDeny : string := "deny".

Record Overlay : Type := MkOverlay {
  ov_deny : list Rule; ov_ask : list Rule; ov_allow : list Rule;
  ov_pinned : list Rule; ov_why : list string
}.

Definition no_overlay : Overlay := MkOverlay [] [] [] [] [].

(** Which list a name is. *)
Inductive rule_list : Set := deny_list | ask_list | allow_list.

Definition overlay_list (name : string) : result rule_list :=
  if String.eqb name ListAllow then Ok allow_list
  else if String.eqb name ListAsk then Ok ask_list
  else if String.eqb name ListDeny then Ok deny_list
  else Fail (plain ("unknown rule list " ++ Quote name ++ ": want allow, ask or deny")).

Definition get_list (l : rule_list) (o : Overlay) : list Rule :=
  match l with deny_list => ov_deny o | ask_list => ov_ask o | allow_list => ov_allow o end.
Definition set_list (l : rule_list) (rs : list Rule) (o : Overlay) : Overlay :=
  match l with
  | deny_list => MkOverlay rs (ov_ask o) (ov_allow o) (ov_pinned o) (ov_why o)
  | ask_list => MkOverlay (ov_deny o) rs (ov_allow o) (ov_pinned o) (ov_why o)
  | allow_list => MkOverlay (ov_deny o) (ov_ask o) rs (ov_pinned o) (ov_why o)
  end.

Section overlay.
Context (tx : Text).

(** [Add]: whether the rule was added, and the overlay after. *)
Definition Add (name pattern : string) (o : Overlay) : result bool * Overlay :=
  match ParseRule tx pattern with
  | Fail e => (Fail e, o)
  | Ok r =>
      let r := with_session r in
      match overlay_list name with
      | Fail e => (Fail e, o)
      | Ok l =>
          if existsb (λ have, String.eqb (Canonical_rule have) (Canonical_rule r)) (get_list l o)
          then (Ok false, o)
          else (Ok true, set_list l (get_list l o ++ [r])%list o)
      end
  end.

Definition canonical_of (pattern : string) : string :=
  match ParseRule tx pattern with Ok r => Canonical_rule r | Fail _ => pattern end.

Definition Remove (name pattern : string) (o : Overlay) : result bool * Overlay :=
  let pattern := TrimSpace pattern in
  let canonical := canonical_of pattern in
  match overlay_list name with
  | Fail e => (Fail e, o)
  | Ok l =>
      let kept := List.filter (λ r, negb (String.eqb (pr_raw r) pattern || String.eqb (Canonical_rule r) canonical))
                    (get_list l o) in
      (Ok (negb (length kept =? length (get_list l o))), set_list l kept o)
  end.

Definition Clear (o : Overlay) : Overlay := MkOverlay [] [] [] (ov_pinned o) (ov_why o).

Fixpoint parse_rules (patterns : list string) : result (list Rule) :=
  match patterns with
  | [] => Ok []
  | p :: ps => let? r := ParseRule tx p in let? rs := parse_rules ps in Ok (r :: rs)
  end.

Definition Pin (why : string) (patterns : list string) (o : Overlay) : option error * Overlay :=
  match parse_rules patterns with
  | Fail e => (Some e, o)
  | Ok rs =>
      (None, MkOverlay (ov_deny o) (ov_ask o) (ov_allow o) (ov_pinned o ++ map with_session rs)%list
               (ov_why o ++ map (λ _, why) rs)%list)
  end.

Definition rawOf (rules : list Rule) : list string := map pr_raw rules.

Definition SessionRules (o : Overlay) : list string * list string * list string :=
  (rawOf (ov_deny o), rawOf (ov_ask o), rawOf (ov_allow o)).

Definition PinnedRules (o : Overlay) : list string * list string := (rawOf (ov_pinned o), ov_why o).

(** The overlay's rules: deny, ask and allow. *)
Definition snapshot (o : Overlay) : list Rule * list Rule * list Rule :=
  ((ov_pinned o ++ ov_deny o)%list, ov_ask o, ov_allow o).

(** ** The engine's lists *)

Record RuleLists : Type := MkLists { rl_deny : list Rule; rl_ask : list Rule; rl_allow : list Rule }.

(** [Engine.rules]: the configured rules followed by the session's. *)
Definition engine_rules (l : RuleLists) (o : Overlay) : RuleLists :=
  let '(sd, sa, sl) := snapshot o in
  if length sd + length sa + length sl =? 0 then l
  else MkLists (rl_deny l ++ sd)%list (rl_ask l ++ sa)%list (rl_allow l ++ sl)%list.

(** [addAll]: the rules before one that does not parse are kept. *)
Fixpoint addAll (dst : list Rule) (patterns : list string) : option error * list Rule :=
  match patterns with
  | [] => (None, dst)
  | p :: ps =>
      match ParseRule tx p with
      | Fail e => (Some e, dst)
      | Ok r => addAll (dst ++ [r])%list ps
      end
  end.

Fixpoint parse_layer (layer : string) (patterns : list string) : result (list Rule) :=
  match patterns with
  | [] => Ok []
  | p :: ps =>
      match ParseRule tx p with
      | Fail e => Fail (err_prefix ("policy layer " ++ layer ++ ": ") e)
      | Ok r => let? rs := parse_layer layer ps in Ok (with_layer layer r :: rs)
      end
  end.

Definition AddLayer (layer : string) (deny ask allow : list string) (l : RuleLists) : option error * RuleLists :=
  if String.eqb (TrimSpace layer) "" then (Some (plain "a policy layer needs a name"), l)
  else
    match (let? d := parse_layer layer deny in let? a := parse_layer layer ask in
           let? w := parse_layer layer allow in Ok (d, a, w)) with
    | Fail e => (Some e, l)
    | Ok (d, a, w) => (None, MkLists (rl_deny l ++ d)%list (rl_ask l ++ a)%list (rl_allow l ++ w)%list)
    end.
End overlay.

(** ** What the overlay keeps *)

(** The steps of a session. *)
Inductive overlay_step (tx : Text) : Overlay → Overlay → Prop :=
  | step_add name pattern o : overlay_step tx o (snd (Add tx name pattern o))
  | step_remove name pattern o : overlay_step tx o (snd (Remove tx name pattern o))
  | step_clear o : overlay_step tx o (Clear o)
  | step_pin why patterns o : overlay_step tx o (snd (Pin tx why patterns o)).

Record overlay_ok (o : Overlay) : Prop := {
  ok_distinct l : NoDup (map Canonical_rule (get_list l o));
  ok_session : Forall (λ r, pr_session r = true) (ov_pinned o ++ ov_deny o ++ ov_ask o ++ ov_allow o);
  ok_why : length (ov_why o) = length (ov_pinned o)
}.

Lemma session_lists o : Forall (λ r, pr_session r = true) (ov_pinned o ++ ov_deny o ++ ov_ask o ++ ov_allow o) ↔
  Forall (λ r, pr_session r = true) (ov_pinned o) ∧ ∀ l, Forall (λ r, pr_session r = true) (get_list l o).
Proof.
  rewrite !Forall_app. split.
  - intros (? & ? & ? & ?). split; [done|]. by intros [].
  - intros [Hp H]. split; [done|]. split; [apply (H deny_list)|]. split; [apply (H ask_list) | apply (H allow_list)].
Qed.

Lemma get_set_list l l' rs o : get_list l (set_list l' rs o) = if (match l, l' with
  deny_list, deny_list | ask_list, ask_list | allow_list, allow_list => true | _, _ => false end)
  then rs else get_list l o.
Proof. by destruct l, l'. Qed.

(** Replacing a list by one as good keeps the overlay good. *)
Lemma set_list_ok l rs o : overlay_ok o → NoDup (map Canonical_rule rs) →
  Forall (λ r, pr_session r = true) rs → overlay_ok (set_list l rs o).
Proof.
  intros [Hd Hs Hw] Hn Hf. apply session_lists in Hs as [Hp Hs]. split.
  - intros l'. rewrite get_set_list. by destruct l', l.
  - apply session_lists. split; [by destruct l|]. intros l'. rewrite get_set_list. by destruct l', l.
  - by destruct l.
Qed.

Lemma overlay_step_ok tx o o' : overlay_step tx o o' → overlay_ok o → overlay_ok o'.
Proof.
  intros H Hok. pose proof Hok as [Hd Hs Hw]. apply session_lists in Hs as [Hp Hs].
  destruct H as [name pattern o|name pattern o|o|why patterns o].
  - unfold Add. destruct (ParseRule tx pattern) as [r|]; [|done]. destruct (overlay_list name) as [l|]; [|done].
    destruct (existsb _ _) eqn:E; [done|]. apply set_list_ok; [done| |].
    + rewrite map_app. apply NoDup_app. split; [done|]. split; [|apply NoDup_singleton].
      intros x Hx%list_elem_of_fmap Hy. apply list_elem_of_singleton in Hy as ->.
      destruct Hx as (h & Heq & Hh). apply not_true_iff_false in E. apply E. apply existsb_exists.
      exists h. split; [by apply list_elem_of_In | by apply String.eqb_eq].
    + apply Forall_app. split; [done|]. by repeat constructor.
  - unfold Remove. destruct (overlay_list name) as [l|]; [|done]. simpl. apply set_list_ok; [done| |].
    + specialize (Hd l). induction (get_list l o) as [|r rs IH]; [done|]. simpl in Hd |- *.
      apply NoDup_cons in Hd as [Hr Hd]. destruct (negb _); [|by apply IH]. simpl. apply NoDup_cons.
      split; [|by apply IH]. intros (h & Heq & Hh%list_elem_of_In%filter_In)%list_elem_of_fmap.
      apply Hr, list_elem_of_fmap. exists h. split; [done|]. by apply list_elem_of_In, Hh.
    + specialize (Hs l). apply Forall_forall. intros r [Hr _]%list_elem_of_In%filter_In.
      rewrite Forall_forall in Hs. by apply Hs, list_elem_of_In.
  - split; simpl; [intros []; constructor | by rewrite app_nil_r | done].
  - unfold Pin. destruct (parse_rules tx patterns) as [rs|]; [|done]. split; simpl; [intros l; specialize (Hd l); by destruct l| |].
    + pose proof (proj2 (session_lists o) (conj Hp Hs)) as Ho. rewrite <- app_assoc, Forall_app in *.
      destruct Ho as [? Ho]. split; [done|]. apply Forall_app. split; [|done].
      apply Forall_map, Forall_forall. by intros.
    + by rewrite !length_app, !length_map, Hw.
Qed.

Definition overlay_steps (tx : Text) : Overlay → Overlay → Prop := rtc (overlay_step tx).

Lemma pinned_grow tx o o' : overlay_step tx o o' → ∃ more, ov_pinned o' = (ov_pinned o ++ more)%list.
Proof.
  intros [name pattern|name pattern| |why patterns]; clear o'; try (exists []; by rewrite app_nil_r).
  - exists []. rewrite app_nil_r. unfold Add. destruct (ParseRule _ _); [|done].
    destruct (overlay_list name) as [l|]; [|done]. destruct (existsb _ _); [done|]. by destruct l.
  - exists []. rewrite app_nil_r. unfold Remove. destruct (overlay_list name) as [l|]; [|done]. by destruct l.
  - unfold Pin. destruct (parse_rules _ _) as [rs|]; [by eexists|]. exists []. by rewrite app_nil_r.
Qed.

(** Whatever a session adds, removes, clears and pins, in any order: no list
    holds one rule twice under two spellings, every rule is marked as the
    session's, each pinned rule keeps its reason, and a pinned deny rule stays
    for good, in the deny rules of every decision after. *)
Theorem overlay_invariant (tx : Text) (o o' : Overlay) (conf : RuleLists) :
  overlay_ok o → overlay_steps tx o o' →
  overlay_ok o' ∧ ∀ r, r ∈ ov_pinned o → r ∈ ov_pinned o' ∧ r ∈ rl_deny (engine_rules conf o').
Proof.
  intros Hok Hsteps.
  assert (overlay_ok o' ∧ ∀ r, r ∈ ov_pinned o → r ∈ ov_pinned o') as [Hok' Hpin].
  { induction Hsteps as [|o o1 o' Hstep _ IH]; [done|]. destruct IH as [IH1 IH2]; [by eapply overlay_step_ok|].
    split; [done|]. intros r Hr. apply IH2. destruct (pinned_grow tx o o1 Hstep) as (more & ->).
    apply elem_of_app. by left. }
  split; [done|]. intros r Hr. split; [by apply Hpin|]. unfold engine_rules. simpl.
  destruct (_ =? 0) eqn:E.
  - apply Nat.eqb_eq in E. rewrite length_app in E. specialize (Hpin r Hr).
    destruct (ov_pinned o'); [by apply elem_of_nil in Hpin | simpl in E; lia].
  - simpl. rewrite !elem_of_app. auto.
Qed.

Definition pinned_overlay : Overlay := snd (Pin ascii_text "read-only folder" ["write(vendor/**)"] no_overlay).
Definition later_overlay : Overlay :=
  Clear (snd (Add ascii_text "deny" "Bash(rm *)" (snd (Add ascii_text "deny" "bash(rm *)" pinned_overlay)))).

Lemma overlay_invariant_witness :
  length (ov_pinned pinned_overlay) = 1 ∧
  overlay_ok later_overlay ∧ ∀ r, r ∈ ov_pinned pinned_overlay → r ∈ ov_pinned later_overlay ∧
    r ∈ rl_deny (engine_rules (MkLists [] [] []) later_overlay).
Proof.
  split; [reflexivity|]. apply (overlay_invariant ascii_text pinned_overlay later_overlay (MkLists [] [] [])).
  - split; [intros [] | |]; repeat constructor.
  - eapply rtc_l; [apply (step_add ascii_text "deny" "bash(rm *)")|].
    eapply rtc_l; [apply (step_add ascii_text "deny" "Bash(rm *)")|].
    eapply rtc_l; [apply step_clear|]. apply rtc_refl.
Defined.
