(* ===== verification/Remote.v ===== *)
(** How a shell line is read for the rules, local or over ssh
    (src/internal/policy/remote.go, and the reads an ssh call may make, of
    remote_reads.go and remote_readlist.go).

    The reading of a line by the shell's own grammar is package tools'; here it
    is a parameter, [reader], and what it found a [Canonical]. *)

From Stdlib Require Import ZArith NArith Ascii String Lia Bool.
From stdpp Require Import base tactics list option strings gmap.
From S2P Require Import Prelude.
From S2P Require Import GoStd.
From S2P Require Import Errors.
From S2P Require Import GoNet.
From S2P Require Import GoPath.
From S2P Require Import Glob.
From S2P Require Import ShellSplit.
From S2P Require Import PolicyRule.

#[local] Open Scope string_scope.
#[local] Open Scope nat_scope.
#[local] Open Scope go_scope.

(** What a bash parser found in a command (tools.Canonical). *)
Record Canonical : Type := MkCanonical {
  cn_Text : string; cn_Joined : bool; cn_Reworded : bool; cn_Hidden : bool;
  cn_IFS : string; cn_IFSSplit : bool; cn_IFSCause : string;
  cn_Commands : list string;
  cn_ProgramHidden : bool; cn_Opaque : string; cn_Incomplete : bool; cn_Unparsed : bool;
  cn_Writes : list string; cn_WriteHidden : string;
  cn_GitRunsOrWrites : string;
  cn_Destructive : (string → bool) → option string     (* with the git extensions opted in *)
}.

(** The zero value. *)
Definition no_canonical : Canonical :=
  MkCanonical "" false false false "" false "" [] false "" false false [] "" "" (λ _, None).

(** How a bash subject is read. *)
Inductive readAs : Set := asCommand | asTyped | asLine.

(** What the parser asked of a line, and the line split on changed separators. *)
Record Reader : Type := MkReader {
  rd_canonical : readAs → string → Canonical;
  rd_IFSSplitText : string → string → string
}.

Section shell.
Context (tx : Text) (reader : Reader).

Record shell_read : Type := MkShellRead {
  sr_canon : Canonical; sr_subjects : list string; sr_allow : list string;
  sr_narrow : bool; sr_complete : bool
}.

(** The segments of one more text, added when there is one. *)
Definition more_segments (extra : option string) (subjects : list string) (complete : bool)
    : option (list string * bool) :=
  match extra with
  | None => Some (subjects, complete)
  | Some text =>
      '(more, whole) ← commandSegments tx text;
      Some ((subjects ++ more)%list, complete && whole)
  end.

Definition shellRead (command : string) (how : readAs) : option shell_read :=
  let canon := rd_canonical reader how command in
  '(subjects, complete) ← commandSegments tx command;
  '(subjects, complete) ←
    more_segments (if String.eqb (cn_Text canon) command then None else Some (cn_Text canon)) subjects complete;
  '(subjects, complete) ←
    more_segments (if String.eqb (cn_IFS canon) "" then None
                   else Some (rd_IFSSplitText reader (cn_Text canon) (cn_IFS canon))) subjects complete;
  let subjects := (subjects ++ cn_Commands canon)%list in
  let joined := cn_Joined canon && negb (cn_Reworded canon) in
  let text := if joined then cn_Text canon else command in
  Some (MkShellRead canon subjects [text] (negb (cn_Reworded canon) && negb (hasShellControl text)) complete).

(** An ssh call's command read for the rules. *)
Record remoteRead : Type := MkRemoteRead {
  rr_host : string; rr_command : string; rr_canon : Canonical;
  rr_commands : list string; rr_subjects : list string; rr_allow : list string;
  rr_narrow : bool; rr_complete : bool; rr_stdin : bool; rr_quotedOnly : bool
}.

(** A backslash inside single quotes; [quoted] is whether the text before is
    in one, and an unclosed quote counts. *)
Fixpoint backslash_quoted (quoted : bool) (s : string) : bool :=
  match s with
  | EmptyString => false
  | String c s =>
      if c =c "'" then backslash_quoted (negb quoted) s
      else if quoted && (c =c "\") then true
      else backslash_quoted quoted s
  end.
Definition backslashInSingleQuotes (s : string) : bool := backslash_quoted false s.

(** The text with what each pair of single quotes holds dropped; an unclosed
    quote keeps the rest, so the length is enough fuel. *)
Fixpoint without_quoted (fuel : nat) (s : string) : string :=
  match fuel with
  | 0 => s
  | S fuel =>
      match IndexByte s "'" with
      | None => s
      | Some i =>
          match IndexByte (str_drop (i + 1) s) "'" with
          | None => s
          | Some j => str_take i s ++ "''" ++ without_quoted fuel (str_drop (i + j + 2) s)
          end
      end
  end.
Definition withoutSingleQuoted (s : string) : string := without_quoted (String.length s) s.

Definition add_new (s : string) (l : list string) : list string :=
  if bool_decide (s ∈ l) then l else (l ++ [s])%list.

Definition readRemote (host command : string) (stdin : bool) : option remoteRead :=
  sr ← shellRead command asCommand;
  let canon := sr_canon sr in
  let cmds := withBaseNames (sr_subjects sr) in
  let parsed := negb (cn_Unparsed canon) && negb (cn_Incomplete canon) && String.eqb (cn_Opaque canon) "" &&
                negb (cn_ProgramHidden canon) in
  let subjects := fold_left (λ l c, add_new (host ++ "/" ++ c) (add_new c l)) cmds [host ++ "/" ++ command] in
  Some (MkRemoteRead host command canon cmds subjects (map (λ a, host ++ "/" ++ a) (sr_allow sr))
          (sr_narrow sr && parsed) (sr_complete sr) stdin
          (negb (sr_narrow sr) && parsed && negb (cn_Reworded canon) &&
           negb (hasShellControl (withoutSingleQuoted command)) && negb (backslashInSingleQuotes command))).

Definition forms_match (rr : remoteRead) (f : option flagForm) : bool :=
  match f with
  | Some f => existsb (flag_matches tx f) (rr_commands rr)
  | None => false
  end.

Definition matchesRemoteFlags (r : Rule) (rr : remoteRead) : bool :=
  if negb (opt_some (pr_pattern r)) || negb (ForTool r "ssh") then false
  else if forms_match rr (pr_flags r) then true
  else
    match Cut (pr_glob r) "/" with
    | None => false
    | Some (h, rest) =>
        if String.eqb h "" || ContainsAny h blank_tab then false
        else
          match globToRegexp h with
          | Fail _ => false
          | Ok re => MatchString re (rr_host rr) && forms_match rr (parseFlagForm tx rest)
          end
    end.
End shell.

(** ** Words as the shell splits them *)

Record words_state : Type := MkWords {
  ws_words : list string; ws_word : list ascii; ws_in : bool;
  ws_start : bool; ws_risky : bool; ws_dollar : bool; ws_glob : bool
}.

Definition flush_word (s : words_state) : words_state :=
  MkWords (if ws_in s then (ws_words s ++ [of_bytes (reverse (ws_word s))])%list else ws_words s)
    (if ws_in s then [] else ws_word s) false true false (ws_dollar s) (ws_glob s || ws_risky s).

(** A byte of the word, with what else it sets. *)
Definition put_byte (c : ascii) (in_ start risky dollar : bool) (s : words_state) : words_state :=
  MkWords (ws_words s) (c :: ws_word s) in_ start risky (ws_dollar s || dollar) (ws_glob s).

Definition open_quote (s : words_state) : words_state :=
  MkWords (ws_words s) (ws_word s) true false (ws_risky s) (ws_dollar s) (ws_glob s).

Definition put_plain (c : ascii) (s : words_state) : words_state :=
  let risky := ws_risky s ||
    (byte_in "*?[" c && (ws_start s || match last (ws_word s) with Some d => d =c "-" | None => false end)) in
  put_byte c true false risky (c =c "$") s.

Fixpoint shell_words (quote : option ascii) (s : string) (st : words_state) : words_state :=
  match s with
  | EmptyString => flush_word st
  | String c r =>
      match quote with
      | Some q =>
          if c =c q then shell_words None r st
          else if q =c "'" then shell_words quote r (put_byte c (ws_in st) (ws_start st) (ws_risky st) false st)
          else
            let kept := shell_words quote r (put_byte c (ws_in st) (ws_start st) (ws_risky st) (c =c "$") st) in
            match r with
            | String d r' =>
                if c =c "\" then shell_words quote r' (put_byte d (ws_in st) (ws_start st) (ws_risky st) false st)
                else kept
            | EmptyString => kept
            end
      | None =>
          if (c =c " ") || (c =c tab) then shell_words None r (flush_word st)
          else if (c =c "'") || (c =c dquote) then shell_words (Some c) r (open_quote st)
          else
            let kept := shell_words None r (put_plain c st) in
            match r with
            | String d r' =>
                if c =c "\" then shell_words None r' (put_byte d true false (ws_risky st) false st) else kept
            | EmptyString => kept
            end
      end
  end.

(** The words, whether a [$] is outside single quotes, and whether an unquoted
    glob could expand to an option. *)
Definition shellWords (s : string) : list string * bool * bool :=
  let st := shell_words None s (MkWords [] [] false true false false false) in
  (ws_words st, ws_dollar st, ws_glob st).

(** ** How a program on the read-only list may be called *)

Record opts : Type := MkOpts { op_flags : list string; op_values : list string }.

Definition o (flags values : string) : opts := MkOpts (Fields flags) (Fields values).

Record readSpec : Type := MkReadSpec {
  rs_reader : bool;
  rs_operandSet : option (list string);
  rs_quotedValues : bool;
  rs_verbs : option (list (string * opts));
  rs_opts : opts;
  rs_objects : option (list string);
  rs_actions : list string;
  rs_words : list string;
  rs_operands : string;
  rs_oneDash : bool;
  rs_badValue : string → bool;
  rs_noGlue : bool
}.

Definition form (op : opts) : readSpec :=
  MkReadSpec false None false None op None [] [] "" false (λ _, false) false.
Definition verb_form (verbs : list (string * opts)) : readSpec :=
  MkReadSpec false None false (Some verbs) (MkOpts [] []) None [] [] "" false (λ _, false) false.
Definition verbsWith (op : opts) (verbs : list string) : list (string * opts) := map (λ v, (v, op)) verbs.

Definition reads_contents (s : readSpec) : readSpec :=
  MkReadSpec true (rs_operandSet s) (rs_quotedValues s) (rs_verbs s) (rs_opts s) (rs_objects s) (rs_actions s)
    (rs_words s) (rs_operands s) (rs_oneDash s) (rs_badValue s) (rs_noGlue s).
Definition with_operandSet (l : list string) (s : readSpec) : readSpec :=
  MkReadSpec (rs_reader s) (Some l) (rs_quotedValues s) (rs_verbs s) (rs_opts s) (rs_objects s) (rs_actions s)
    (rs_words s) (rs_operands s) (rs_oneDash s) (rs_badValue s) (rs_noGlue s).
Definition quoted_values (s : readSpec) : readSpec :=
  MkReadSpec (rs_reader s) (rs_operandSet s) true (rs_verbs s) (rs_opts s) (rs_objects s) (rs_actions s)
    (rs_words s) (rs_operands s) (rs_oneDash s) (rs_badValue s) (rs_noGlue s).
Definition with_objects (l : list string) (s : readSpec) : readSpec :=
  MkReadSpec (rs_reader s) (rs_operandSet s) (rs_quotedValues s) (rs_verbs s) (rs_opts s) (Some l) (rs_actions s)
    (rs_words s) (rs_operands s) (rs_oneDash s) (rs_badValue s) (rs_noGlue s).
Definition with_actions (l : list string) (s : readSpec) : readSpec :=
  MkReadSpec (rs_reader s) (rs_operandSet s) (rs_quotedValues s) (rs_verbs s) (rs_opts s) (rs_objects s) l
    (rs_words s) (rs_operands s) (rs_oneDash s) (rs_badValue s) (rs_noGlue s).
Definition with_words (l : list string) (s : readSpec) : readSpec :=
  MkReadSpec (rs_reader s) (rs_operandSet s) (rs_quotedValues s) (rs_verbs s) (rs_opts s) (rs_objects s) (rs_actions s)
    l (rs_operands s) (rs_oneDash s) (rs_badValue s) (rs_noGlue s).
Definition with_operands (k : string) (s : readSpec) : readSpec :=
  MkReadSpec (rs_reader s) (rs_operandSet s) (rs_quotedValues s) (rs_verbs s) (rs_opts s) (rs_objects s) (rs_actions s)
    (rs_words s) k (rs_oneDash s) (rs_badValue s) (rs_noGlue s).
Definition one_dash (s : readSpec) : readSpec :=
  MkReadSpec (rs_reader s) (rs_operandSet s) (rs_quotedValues s) (rs_verbs s) (rs_opts s) (rs_objects s) (rs_actions s)
    (rs_words s) (rs_operands s) true (rs_badValue s) (rs_noGlue s).
Definition with_badValue (f : string → bool) (s : readSpec) : readSpec :=
  MkReadSpec (rs_reader s) (rs_operandSet s) (rs_quotedValues s) (rs_verbs s) (rs_opts s) (rs_objects s) (rs_actions s)
    (rs_words s) (rs_operands s) (rs_oneDash s) f (rs_noGlue s).
Definition no_glue (s : readSpec) : readSpec :=
  MkReadSpec (rs_reader s) (rs_operandSet s) (rs_quotedValues s) (rs_verbs s) (rs_opts s) (rs_objects s) (rs_actions s)
    (rs_words s) (rs_operands s) (rs_oneDash s) (rs_badValue s) true.

Section read_call.
Context (spec : readSpec) (skip : string → bool).

Definition value_option (op : opts) (w : string) : bool := word_in (op_values op) w.

(** [optionOK]: whether the option is one the form may use, and how many of the
    words after it, [next], are its value. *)
Definition optionOK (op : opts) (w0 : string) (next : list string) : bool * nat :=
  let w := if rs_oneDash spec && HasPrefix w0 "--" then str_drop 1 w0 else w0 in
  let cut := Cut w "=" in
  if skip w then
    match cut with
    | Some (name, _) => (value_option op name && negb (ContainsAny name "*?"), 0)
    | None => (false, 0)
    end
  else if word_in (op_flags op) w then (true, 0)
  else if value_option op w then
    match next with
    | v :: _ => if skip v || negb (HasPrefix v "-") then (negb (rs_badValue spec v), 1) else (true, 0)
    | [] => (true, 0)
    end
  else
    match (if HasPrefix w "--" then cut else None) with
    | Some (name, v) => (value_option op name && negb (rs_badValue spec v), 0)
    | None =>
        if negb (rs_noGlue spec) && (2 <? String.length w) && negb (HasPrefix w "--") &&
           value_option op (str_take 2 w)
        then (negb (rs_badValue spec (str_drop 2 w)), 0)
        else (false, 0)
    end.

Definition forbidden_word (w : string) : bool :=
  word_in (rs_words spec) w || (rs_oneDash spec && HasPrefix w "--" && word_in (rs_words spec) (str_drop 1 w)).

(** The loop over the words: the operands, in order; [values] words are the
    value of the option before. *)
Fixpoint call_operands (op : opts) (args : list string) (values : nat) (ended : bool) (operands : list string)
    : option (list string) :=
  match args with
  | [] => Some operands
  | w :: rest =>
      match values with
      | S k => call_operands op rest k ended operands
      | 0 =>
          if forbidden_word w then None
          else if negb ended && String.eqb w "--" then call_operands op rest 0 true operands
          else if negb ended && HasPrefix w "-" && negb (String.eqb w "-") then
            if opt_some (rs_objects spec) && (0 <? length operands) then None
            else
              let '(ok, value) := optionOK op w rest in
              if (ok : bool) then call_operands op rest value ended operands else None
          else call_operands op rest 0 ended (operands ++ [w])%list
      end
  end.

Definition operands_ok (operands : list string) : bool :=
  match rs_operandSet spec with
  | Some l => forallb (λ w, skip w || word_in l w) operands
  | None => true
  end &&
  (if String.eqb (rs_operands spec) "none" then forallb skip operands
   else if String.eqb (rs_operands spec) "+" then forallb (λ w, skip w || HasPrefix w "+") operands
   else true) &&
  match rs_objects spec with
  | None => true
  | Some objects =>
      match operands with
      | [] => false
      | x :: rest =>
          negb (skip x) && word_in objects x &&
          match rest with
          | [] => true
          | y :: _ => skip y || word_in (rs_actions spec) y
          end
      end
  end.

Definition readCallOK (args : list string) : bool :=
  match
    match rs_verbs spec with
    | None => Some (rs_opts spec, args)
    | Some verbs =>
        match args with
        | [] => None
        | v :: rest =>
            if skip v then None
            else '(_, op) ← find_first (λ p, String.eqb (fst p) v) verbs; Some (op, rest)
        end
    end
  with
  | None => false
  | Some (op, args) =>
      match call_operands op args 0 false [] with
      | None => false
      | Some operands => operands_ok operands
      end
  end.
End read_call.

(** ** The list *)

Definition grep_form := reads_contents (form (o "-i --ignore-case -v --invert-match -n --line-number -c --count -l --files-with-matches -L --files-without-match -r --recursive -R --dereference-recursive -w --word-regexp -x --line-regexp -o --only-matching -q --quiet --silent -s --no-messages -h --no-filename -H --with-filename -E --extended-regexp -F --fixed-strings -G --basic-regexp -P --perl-regexp -a --text -I -z --null-data -Z --null -b --byte-offset -T --initial-tab -U --binary --line-buffered --color=never --color=always -rn -ri -rl -rni -rin -ril -in -ni -iv -vi -nH -Hn -Ei -iE -Fi -iF -Ev -vE -cv -lr -rw -iw -wi" "-e --regexp -f --file -m --max-count -A --after-context -B --before-context -C --context --include --exclude --exclude-dir --label -d --directories -D --devices --binary-files")).

Definition contentReads : list (string * readSpec) :=
  [ ("cat", reads_contents (form (o "-A --show-all -b --number-nonblank -e -E --show-ends -n --number -s --squeeze-blank -t -T --show-tabs -u -v --show-nonprinting" "")));
    ("head", reads_contents (form (o "-q --quiet --silent -v --verbose -z --zero-terminated" "-c --bytes -n --lines")));
    ("tail", reads_contents (form (o "-f -F --follow --follow=name --follow=descriptor --retry -q --quiet --silent -v --verbose -z --zero-terminated" "-c --bytes -n --lines -s --sleep-interval --max-unchanged-stats --pid")));
    ("cut", reads_contents (form (o "-s --only-delimited -z --zero-terminated --complement" "-b --bytes -c --characters -d --delimiter -f --fields --output-delimiter")));
    ("cmp", reads_contents (form (o "-b --print-bytes -l --verbose -s --quiet --silent -bl -lb" "-i --ignore-initial -n --bytes")));
    ("diff", reads_contents (form (o "-u -c -r -N -q -s -y -w -b -B -i -a -t -p -E -Z --unified --context --recursive --new-file --brief --report-identical-files --side-by-side --ignore-all-space --ignore-space-change --ignore-blank-lines --ignore-case --text --expand-tabs --show-c-function --suppress-common-lines --strip-trailing-cr --color=never --color=always -ru -ur -Nru -Naur -urN -rq -qr -rN" "-U -C -x --exclude -I --ignore-matching-lines -W --width --label -S --starting-file --from-file --to-file")));
    ("zcat", reads_contents (form (o "-f --force -q --quiet -v --verbose -l --list" "")));
    ("grep", grep_form);
    ("egrep", grep_form);
    ("fgrep", grep_form) ].

Definition listingReads : list (string * readSpec) :=
  [ ("ls", form (o "-a --all -A --almost-all -l -h --human-readable -t -r --reverse -S -1 -d --directory -i --inode -s --size -F --classify -R --recursive -n --numeric-uid-gid -g -o -G --no-group -L --dereference -H -p -Q --quote-name -U -X -v -x -C -m -Z --context --full-time --group-directories-first --si --color=never --color=always --color=auto -la -al -lh -hl -lah -alh -lha -hal -lt -tl -ltr -lrt -rtl -lS -lSh -ld -dl -lA -Al -lai -lR -1a -a1 -ls -sl -lth -latr -lart -ltrh" "-I --ignore --hide --sort --time --time-style -w --width --block-size --format --indicator-style --quoting-style -T --tabsize"));
    ("stat", form (o "-L --dereference -f --file-system -t --terse" "-c --format --printf"));
    ("df", form (o "-a --all -h --human-readable -H --si -i --inodes -k -l --local -P --portability -T --print-type --total -hT -Th -hl -lh -ih -hi -Ph" "-t --type -x --exclude-type -B --block-size --output"));
    ("free", form (o "-b --bytes -k --kibi -m --mebi -g --gibi --tebi --pebi --kilo --mega --giga --tera -h --human -w --wide -t --total -l --lowhi -v --committed --si -hw -wh -ht -th" "-s --seconds -c --count"));
    ("uptime", with_operands "none" (form (o "-p --pretty -s --since" "")));
    ("uname", with_operands "none" (form (o "-a --all -s --kernel-name -n --nodename -r --kernel-release -v --kernel-version -m --machine -p --processor -i --hardware-platform -o --operating-system -sr -rs -srm -mrs -snrvm" "")));
    ("id", form (o "-u --user -g --group -G --groups -n --name -r --real -z --zero -un -nu -gn -ng -Gn -nG -ur -ru" ""));
    ("whoami", with_operands "none" (form (o "" "")));
    ("groups", form (o "" ""));
    ("nproc", with_operands "none" (form (o "--all" "--ignore"))) ].

Definition processReads : list (string * readSpec) :=
  [ ("ps", with_operandSet ["aux"; "auxf"; "auxww"; "auxw"; "axu"; "ax"; "axf"; "faux"; "aux"; "axjf"; "axo"; "uax"; "f"] (form (o "-e -A -a -d -N -f -F -l -H -w -ww -j -L -T -y -Z -M --forest --no-headers --headers -ef -eF -ely -elf -eLf -efH -eo -ejH -aux" "-o --format -O -p --pid -q --quick-pid -u --user -U -C -G --group -g --sort -t --tty --ppid -s --sid --cols --columns --rows --width")));
    ("pgrep", form (o "-l --list-name -a --list-full -c --count -f --full -n --newest -o --oldest -v --inverse -x --exact -i --ignore-case -w --lightweight -fl -lf -fa -af -ia -ai" "-u --euid -U --uid -g --pgroup -G --group -P --parent -s --session -t --terminal -d --delimiter"));
    ("netstat", with_operands "none" (form (o "-t --tcp -u --udp -w --raw -x --unix -l --listening -n --numeric -p --program -a --all -r --route -i --interfaces -s --statistics -e --extend -o --timers -W --wide -4 -6 -tulpn -tlnp -tunlp -tulnp -lntp -lnp -ltnp -ltn -tln -anp -an -ant -antp -atn -rn -nr -ie -ia -su -st" "")));
    ("lsblk", form (o "-a --all -b --bytes -d --nodeps -f --fs -l --list -m --perms -n --noheadings -p --paths -r --raw -J --json -O --output-all -t --topology -S --scsi -s --inverse -z --zoned -fp -pf -no -nd -dn" "-o --output -e --exclude -I --include -x --sort"));
    ("lscpu", form (o "-a --all -b --online -c --offline -e --extended -p --parse -x --hex -y --physical -J --json" ""));
    ("lsmem", form (o "-a --all -b --bytes -J --json -n --noheadings -P --pairs -r --raw --summary" "-o --output --split"));
    ("lsmod", with_operands "none" (form (o "" "")));
    ("lspci", with_operands "none" (form (o "-v -vv -vvv -n -nn -k -t -m -mm -D -b -nnk -knn -vnn -nnv -tv -vt" "-s -d")));
    ("w", form (o "-h --no-header -s --short -f --from -o --old-style -i --ip-addr -u" ""));
    ("who", form (o "-a --all -b --boot -d --dead -H --heading -l --login --lookup -m -q --count -r --runlevel -s --short -t --time -u --users -T -w --mesg --message --writable" ""));
    ("getent", form (o "-i --no-idn" ""));
    ("vmstat", form (o "-a --active -f --forks -m --slabs -n --one-header -s --stats -d --disk -D --disk-sum -t --timestamp -w --wide" "-S --unit -p --partition -c --count")) ].

Definition sums_form := form (o "-b --binary -t --text --tag -z --zero" "").

Definition pathReads : list (string * readSpec) :=
  [ ("basename", form (o "-a --multiple -z --zero" "-s --suffix"));
    ("dirname", form (o "-z --zero" ""));
    ("realpath", form (o "-e --canonicalize-existing -m --canonicalize-missing -L --logical -P --physical -q --quiet -s --strip --no-symlinks -z --zero" "--relative-to --relative-base"));
    ("readlink", form (o "-f --canonicalize -e --canonicalize-existing -m --canonicalize-missing -n --no-newline -q --quiet -s --silent -v --verbose -z --zero" ""));
    ("file", form (o "-b --brief -L --dereference -h --no-dereference -i --mime --mime-type --mime-encoding -k --keep-going -s --special-files -E -N --no-pad -0 --print0 -r --raw" "-F --separator -e --exclude"));
    ("wc", form (o "-c --bytes -m --chars -l --lines -L --max-line-length -w --words" "--total"));
    ("du", form (o "-a --all -b --bytes -c --total -h --human-readable -k -m -s --summarize -x --one-file-system -L --dereference -P --no-dereference -l --count-links -S --separate-dirs -0 --null --apparent-size --si --inodes -sh -hs -ah -ha -sch -csh -hc -ch -sk -sm -xsh" "-d --max-depth -t --threshold --time-style -B --block-size --exclude"));
    ("md5sum", sums_form);
    ("sha1sum", sums_form);
    ("sha224sum", sums_form);
    ("sha256sum", sums_form);
    ("sha384sum", sums_form);
    ("sha512sum", sums_form);
    ("b2sum", sums_form);
    ("cksum", form (o "--base64 --raw --tag --untagged -z --zero" "-a --algorithm -l --length"));
    ("findmnt", form (o "-l --list -n --noheadings -J --json -r --raw -a --ascii -D --df -b --bytes -u --notruncate -s --fstab -m --mtab -k --kernel -A --all -f --first-only -v --nofsroot" "-o --output -t --types -T --target -S --source -O --options -M --mountpoint"));
    ("lsusb", form (o "-v --verbose -t --tree" "-s -d")) ].

Definition textReads : list (string * readSpec) :=
  [ ("rg", form (o "-n --line-number -N --no-line-number -i --ignore-case -S --smart-case -s --case-sensitive -w --word-regexp -x --line-regexp -v --invert-match -l --files-with-matches --files-without-match -c --count --count-matches -F --fixed-strings -H --with-filename --no-filename --no-heading --heading --hidden --no-ignore -u -uu -L --follow --files -o --only-matching --json --column --vimgrep -U --multiline -P --pcre2 -q --quiet --sort-files --stats --trim -a --text" "-e --regexp -g --glob --iglob -t --type -T --type-not -A --after-context -B --before-context -C --context -m --max-count -d --max-depth --max-filesize -E --encoding --sort --sortr"));
    ("sort", form (o "-n --numeric-sort -r --reverse -u --unique -h --human-numeric-sort -V --version-sort -f --ignore-case -b --ignore-leading-blanks -M --month-sort -g --general-numeric-sort -s --stable -z --zero-terminated -c --check -C -d --dictionary-order -i --ignore-nonprinting -R --random-sort" "-k --key -t --field-separator -S --buffer-size --parallel"));
    ("date", with_operands "+" (form (o "-u --utc --universal -R --rfc-email -I -Idate -Ihours -Iminutes -Iseconds -Ins --iso-8601 --iso-8601=date --iso-8601=hours --iso-8601=minutes --iso-8601=seconds --iso-8601=ns --rfc-3339=date --rfc-3339=seconds --rfc-3339=ns" "-d --date -r --reference")));
    ("hostname", with_operands "none" (form (o "-f -s -i -I -d -a -A --fqdn --long --short --ip-address --all-ip-addresses --domain --alias --all-fqdns" ""))) ].

Definition logReads : list (string * readSpec) :=
  [ ("dmesg", form (o "-T --ctime -H --human -k --kernel -u --userspace -x --decode -t --notime -w --follow -W --follow-new -P --nopager -r --raw -J --json -e --reltime -d --show-delta -S --syslog -L --color" "-l --level -f --facility --since --until --time-format"));
    ("journalctl", form (o "-b --boot -k --dmesg --no-pager -r --reverse -x --catalog -f --follow -q --quiet -a --all --no-hostname --utc -N --fields --system --user --list-boots --disk-usage --header --show-cursor --no-full -l --full -m --merge" "-u --unit --user-unit -n --lines -p --priority -S --since -U --until -o --output --output-fields -g --grep -t --identifier -F --field -D --directory --file --cursor --after-cursor -T --exclude-identifier"));
    ("systemctl", verb_form (verbsWith (o "--no-pager -l --full -a --all --value --no-legend --plain -q --quiet --user --system -r --recursive --reverse --before --after" "-n --lines -o --output -p --property -t --type --state") ["status"; "show"; "cat"; "is-active"; "is-enabled"; "is-failed"; "list-units"; "list-unit-files"; "list-timers"; "list-sockets"; "list-dependencies"]));
    ("hostnamectl", verb_form (verbsWith (o "--static --transient --pretty" "") ["status"]));
    ("timedatectl", verb_form (verbsWith (o "-a --all --value" "-p --property") ["status"; "show"])) ].

Definition netReads : list (string * readSpec) :=
  [ ("ip", no_glue (with_words ["netns"; "exec"; "vrf"] (with_actions ["show"; "list"; "ls"; "lst"; "get"] (with_objects ["addr"; "address"; "a"; "link"; "l"; "route"; "r"; "neigh"; "neighbour"; "n"; "rule"; "maddr"] (form (o "-4 -6 -0 -o -oneline -br -brief -s -stats -statistics -d -details -j -json -p -pretty -c -color -h -human -iec -r -resolve" "-f -family"))))));
    ("openssl", no_glue (one_dash (verb_form [("x509", o "-noout -text -enddate -startdate -dates -subject -issuer -serial -fingerprint -sha1 -sha256 -md5 -purpose -hash -subject_hash -issuer_hash -email -ocsp_uri -pubkey -modulus -ext_all" "-in -inform -checkend -nameopt -ext -certopt -dateopt");
     ("s_client", o "-showcerts -verify_return_error -brief -tls1_2 -tls1_3 -no_ign_eof -quiet -status -crlf" "-connect -servername -CAfile -CApath -verify -alpn -starttls -proxy -host -port");
     ("verify", o "-verbose -show_chain -crl_check -crl_check_all -partial_chain -x509_strict" "-CAfile -CApath -untrusted -purpose -CRLfile");
     ("version", o "-a -v -b -o -f -p -d" "")]))) ].

Definition docker := [("ps", o "-a --all -q --quiet --no-trunc -l --latest -s --size" "-n --last -f --filter --format");
     ("images", o "-a --all -q --quiet --no-trunc --digests" "-f --filter --format");
     ("inspect", o "-s --size" "-f --format --type");
     ("logs", o "-f --follow -t --timestamps --details" "-n --tail --since --until");
     ("version", o "" "-f --format");
     ("info", o "" "-f --format")].

Definition packageReads : list (string * readSpec) :=
  [ ("docker", verb_form docker);
    ("podman", verb_form docker);
    ("apt", verb_form [("list", o "--installed --upgradable -a --all-versions" "");
     ("show", o "-a --all-versions" "");
     ("policy", o "" "");
     ("search", o "--names-only --full" "")]);
    ("apt-cache", verb_form (verbsWith (o "--names-only --full --installed --recurse -i --important" "") ["policy"; "show"; "search"; "depends"; "rdepends"]));
    ("dpkg", form (o "-l --list -s --status -L --listfiles -S --search -p --print-avail --get-selections" ""));
    ("dpkg-query", quoted_values (form (o "-l --list -W --show -s --status -L --listfiles -S --search" "-f --showformat")));
    ("rpm", with_badValue (λ v, Contains v ":expand" || Contains v "%(") (quoted_values (form (o "-q -qa -qi -ql -qf -qc -qd -qR -qai --query --all --info --list --file --requires --provides --whatprovides --whatrequires --changelog --last" "--queryformat --qf")))) ].

Definition knownReads : list (string * readSpec) :=
  (contentReads ++ listingReads ++ processReads ++ pathReads ++ textReads ++ logReads ++ netReads ++ packageReads)%list.

Definition spec_of (program : string) : option readSpec :=
  snd <$> find_first (λ p, String.eqb (fst p) program) knownReads.

(** ** Programs that run what they are given *)

Definition commandRunners : list string :=
  ["sh"; "bash"; "dash"; "zsh"; "ksh"; "ksh93"; "mksh"; "pdksh"; "ash"; "csh"; "tcsh"; "fish"; "rc"; "es"; "yash";
   "busybox"; "toybox"; "source"; "."; "eval"; "exec"; "command"; "builtin"; "su"; "runuser"; "sudo"; "doas";
   "pkexec"; "sg"; "newgrp"; "chroot"; "flock"; "systemd-run"; "systemd-nspawn"; "machinectl"; "script"; "unshare";
   "nsenter"; "taskset"; "chrt"; "numactl"; "cgexec"; "firejail"; "strace"; "ltrace"; "gdb"; "perf"; "valgrind";
   "at"; "batch"; "tmux"; "screen"; "watch"; "timeout"; "nohup"; "setsid"; "nice"; "ionice"; "stdbuf"; "env"; "time";
   "xargs"; "parallel"; "ssh"; "docker"; "podman"; "kubectl"; "crictl"; "lxc-attach"; "expect"; "dbus-run-session";
   "sed"; "gsed"; "ed"; "ex"; "vi"; "vim"; "nvim"; "emacs"; "tar"; "gtar"; "rsync"; "zip"; "less"; "more"; "man";
   "python"; "perl"; "ruby"; "node"; "nodejs"; "deno"; "bun"; "php"; "lua"; "luajit"; "tclsh"; "wish"; "awk"; "gawk";
   "mawk"; "nawk"; "r"; "rscript"; "osascript"; "pwsh"; "powershell"; "make"; "gdb-multiarch"; "java"; "go"; "cargo";
   "npm"; "npx"; "pnpm"; "yarn"; "pip"; "socat"; "nc"; "ncat"; "netcat"; "sqlite3"; "psql"; "mysql"; "mariadb";
   "redis-cli"; "mongo"; "mongosh"; "ftp"; "sftp"; "scp"; "git"; "find"; "crontab"; "nginx"; "setpriv"; "prlimit";
   "capsh"; "setarch"; "linux32"; "linux64"; "run-parts"; "start-stop-daemon"; "sshpass"; "m4"; "dc"; "bc"; "julia";
   "ansible"; "ansible-playbook"; "ansible-console"; "ansible-pull"; "runcon"; "bwrap"; "fakeroot"; "fakechroot";
   "chpst"; "proot"; "unbuffer"; "daemonize"; "daemon"; "nsjail"; "minijail0"; "sandbox"; "systemd-cat";
   "systemd-inhibit"; "unshare-net"; "faketime"; "torsocks"; "proxychains"; "proxychains4"; "ionice-wrapper";
   "chronic"; "ifne"; "vipe"; "lockf"; "su-exec"; "gosu"; "s6-setuidgid"; "dropbearmulti"; "emacsclient"; "groovy";
   "scala"; "kotlin"; "elixir"; "erl"; "guile"; "racket"; "sbcl"; "ocaml"; "ghci"; "runghc"; "swift"; "dotnet";
   "mono"; "qjs"; "jjs"; "jshell"; "nix-shell"; "nix"; "flatpak"; "snap"; "toolbox"; "distrobox"; "lxc"; "lxc-exec";
   "tini"; "dumb-init"; "catatonit"; "s6-svscan"; "virsh"; "incus"; "ctr"; "nerdctl"; "runc"; "crun"; "oc"; "helm"].

Section reads.
Context (tx : Text) (reader : Reader).

Definition rawProgram (command : string) : string :=
  match Fields command with
  | [] => ""
  | w :: _ => CommandName tx (Base w)
  end.

Definition programName (command : string) : string :=
  let name := rawProgram command in
  let trimmed := trim_right_set "0123456789." name in
  if String.eqb trimmed "" then name else trimmed.

Definition runsCommands (name : string) : bool :=
  let name := tx_lower tx name in
  opt_some (wrapperWords name) || (HasPrefix name "ld" && Contains name ".so") || word_in commandRunners name.

Definition runsCommandsIn (command : string) : bool :=
  runsCommands (rawProgram command) || runsCommands (programName command).

(** The program's form takes query formats in single quotes. *)
Definition quoted_format (command : string) : bool :=
  match spec_of (rawProgram command) with Some s => rs_quotedValues s | None => false end.

Definition has_wildcard (w : string) : bool := ContainsAny w "*?".
Definition no_skip (w : string) : bool := false.

Definition reads_error (p msg : string) : error := plain ("ssh.read_commands: " ++ Quote p ++ msg).

(** An entry that runs another command or writes a file. *)
Definition does_more (canon : Canonical) : bool :=
  (1 <? length (cn_Commands canon)) || (0 <? length (cn_Writes canon)) || negb (String.eqb (cn_WriteHidden canon) "").

Definition ParseRemoteRead (p : string) : result Rule :=
  let s := TrimSpace p in
  if String.eqb s "" then Fail (plain "ssh.read_commands: an entry is empty")
  else
    let canon := rd_canonical reader asCommand s in
    let quoted := quoted_format s && negb (hasShellControl (withoutSingleQuoted s)) && negb (backslashInSingleQuotes s) in
    if (hasShellControl s && negb quoted) || cn_Reworded canon || cn_Unparsed canon || cn_Incomplete canon then
      Fail (reads_error p (" is not one simple command (write an exact command or a pattern such as " ++
        Quote "systemctl status *" ++ "; no ; & | < > ( ) ` ${ or newline)"))
    else
      let program := default "" (head (Fields s)) in
      if ContainsAny program "*?$" || isAssignment program then
        Fail (reads_error p (" must start with the program it runs, written out (such as " ++ Quote "df -h" ++ ")"))
      else
        let name := rawProgram s in
        let words := drop 1 (fst (fst (shellWords s))) in
        let refused :=
          match has_wildcard s, spec_of name with
          | true, None => Some (" has a wildcard, and " ++ name ++ " is not on the list of programs a wildcard may name; declare the exact command instead")
          | true, Some spec =>
              if readCallOK spec has_wildcard words then None
              else Some (" is not a read form of " ++ name ++ " (see docs/ops/infrastructure.md#ssh); declare the exact command instead")
          | false, Some spec =>
              if readCallOK spec no_skip words then None
              else Some (" is not a read form of " ++ name ++ ": it uses a verb or option the list does not hold as a read (see docs/ops/infrastructure.md#ssh)")
          | false, None =>
              if runsCommandsIn s then Some (" runs " ++ name ++ ", which runs what it is given, so it is not a read")
              else None
          end in
        match refused with
        | Some why => Fail (reads_error p why)
        | None =>
            match cn_Destructive canon (λ _, false) with
            | Some what => Fail (reads_error p (" is not a read (" ++ what ++ ")"))
            | None =>
                if does_more canon then
                  Fail (reads_error p " runs another command or writes a file, so no call is a read by it")
                else
                  match globToRegexp s with
                  | Fail e => Fail (err_prefix ("ssh.read_commands: " ++ Quote p ++ ": ") e)
                  | Ok re => Ok (MkRule s "ssh" (Some re) s None None None None false "")
                  end
            end
        end.

(** A call a wildcard entry may approve. *)
Definition wildcardReadOK (text : string) : bool :=
  match spec_of (rawProgram text) with
  | None => false
  | Some spec =>
      let '(words, dollar, glob) := shellWords text in
      if (length words =? 0) || dollar || glob || backslashInSingleQuotes text then false
      else readCallOK spec no_skip (drop 1 words)
  end.

(** [remoteReadRule]: the entry the call's command is a read by, or [""]. *)
Definition remoteReadRule (reads : list Rule) (extensions : string → bool) (rr : remoteRead) : option string :=
  let canon := rr_canon rr in
  if (length reads =? 0) || negb (rr_complete rr) || cn_Hidden canon || cn_IFSSplit canon then Some ""
  else if negb (rr_narrow rr) && negb (rr_quotedOnly rr && quoted_format (rr_command rr)) then Some ""
  else if rr_stdin rr || does_more canon then Some ""
  else if opt_some (cn_Destructive canon extensions) then Some ""
  else if negb (String.eqb (cn_GitRunsOrWrites canon) "") then Some ""
  else
    let text := match rr_allow rr with [a] => TrimPrefix a (rr_host rr ++ "/") | _ => rr_command rr end in
    '(forms, whole) ← strippedForms tx text;
    let plain_call := whole && bool_decide (forms = [Join (Fields text) " "]) in
    Some match find_first (λ r,
           match pr_pattern r with Some re => MatchString re text | None => false end &&
           (negb (has_wildcard (pr_glob r)) || (plain_call && wildcardReadOK text))) reads with
         | Some r => pr_raw r
         | None => ""
         end.

Fixpoint AllowRemoteReads (patterns : list string) (reads : list Rule) : option error * list Rule :=
  match patterns with
  | [] => (None, reads)
  | p :: ps =>
      match ParseRemoteRead p with
      | Fail e => (Some e, reads)
      | Ok r => AllowRemoteReads ps (reads ++ [r])%list
      end
  end.
End reads.

(** ** Examples *)

Definition quoted_line : string := "grep -e 'a b' \$x -*.go".
Example words_quoted : shellWords quoted_line = (["grep"; "-e"; "a b"; "$x"; "-*.go"], false, true).
Proof. vm_compute. reflexivity. Qed.
Example read_df : wildcardReadOK ascii_text "df -h /" = true. Proof. vm_compute. reflexivity. Qed.
Example write_sort : wildcardReadOK ascii_text "sort -o out f" = false. Proof. vm_compute. reflexivity. Qed.

(** * Theorems

    What an ssh call that runs as a read may be: no option the list lacks, no
    runner in front, nothing written and no secret given. *)

#[local] Close Scope string_scope.
#[local] Close Scope nat_scope.
#[local] Close Scope go_scope.
#[local] Open Scope string_scope.
#[local] Open Scope nat_scope.

(** An option the form lists: as written, with its value after [=], or with a
    short one's value glued on. *)
Definition listed (spec : readSpec) (op : opts) (w : string) : Prop :=
  let w := if rs_oneDash spec && HasPrefix w "--" then str_drop 1 w else w in
  w ∈ op_flags op ∨ w ∈ op_values op ∨
  (∃ name v, Cut w "=" = Some (name, v) ∧ name ∈ op_values op ∧ rs_badValue spec v = false) ∨
  (rs_noGlue spec = false ∧ str_take 2 w ∈ op_values op ∧ rs_badValue spec (str_drop 2 w) = false).

Lemma word_in_elem l w : word_in l w = true ↔ w ∈ l.
Proof. unfold word_in. by rewrite bool_decide_eq_true. Qed.

(** An option a call may have is listed, and a word taken as its value is no option. *)
Lemma optionOK_listed spec op w next value : optionOK spec no_skip op w next = (true, value) →
  listed spec op w ∧ (value = 0 ∨ value = 1 ∧ ∃ v rest, next = v :: rest ∧ HasPrefix v "-" = false).
Proof.
  unfold optionOK, listed, value_option. 
  set (w' := if rs_oneDash spec && HasPrefix w "--" then str_drop 1 w else w).
  change (no_skip w') with false. clearbody w'. cbn iota zeta.
  destruct (word_in (op_flags op) w') eqn:Ef.
  { intros [= <-]. apply word_in_elem in Ef. auto. }
  destruct (word_in (op_values op) w') eqn:Ev.
  { apply word_in_elem in Ev. destruct next as [|v rest]; [intros [= <-]; auto|].
    change (no_skip v) with false. cbn [orb].
    destruct (HasPrefix v "-") eqn:Ed; cbn [negb]; [intros [= <-]; auto|]. intros [= _ <-].
    split; [auto|]. right. split; [done|]. by exists v, rest. }
  destruct (if HasPrefix w' "--" then Cut w' "=" else None) as [[name v]|] eqn:Ec.
  - intros [= Hb <-]. apply andb_true_iff in Hb as [Hn%word_in_elem Hv%negb_true_iff].
    destruct (HasPrefix w' "--"); [|done]. split; [|auto]. right. right. left. by exists name, v.
  - destruct (_ && word_in _ (str_take 2 w')) eqn:Eg; [|done]. intros [= Hb%negb_true_iff <-].
    rewrite !andb_true_iff in Eg. destruct Eg as [[[Hg%negb_true_iff _] _] Hn%word_in_elem].
    split; [|auto]. do 3 right. done.
Qed.

(** Before the first [--], a word that starts with [-] is listed, or is [-]. *)
Lemma call_operands_listed spec op args values ended operands out :
  call_operands spec no_skip op args values ended operands = Some out →
  (∀ k v, args !! k = Some v → k < values → HasPrefix v "-" = false) → ended = false →
  ∀ pre w post, args = (pre ++ w :: post)%list → "--" ∉ pre → w ≠ "--" → HasPrefix w "-" = true →
  w = "-" ∨ listed spec op w.
Proof.
  revert values operands. induction args as [|x args IH]; intros values operands H Hval -> pre w post Heq Hpre Hw Hd.
  { by destruct pre. }
  simpl in H. destruct values as [|k].
  - destruct (forbidden_word spec x); [done|].
    destruct (String.eqb x "--") eqn:Ex.
    { apply String.eqb_eq in Ex as ->. destruct pre as [|y pre]; simplify_eq/=. exfalso. apply Hpre. by left. }
    cbn [negb andb] in H.
    destruct (HasPrefix x "-" && negb (String.eqb x "-")) eqn:Eo.
    + destruct (opt_some _ && _); [done|].
      destruct (optionOK spec no_skip op x args) as [ok value] eqn:Eok. destruct ok; [|done].
      apply optionOK_listed in Eok as [Hl Hv].
      destruct pre as [|y pre]; simplify_eq/=; [by right|].
      eapply (IH value); [exact H | | done | reflexivity | | done | done].
      * intros k v Hk Hlt. destruct Hv as [->|(-> & v' & rest & Heq' & Hp)]; [lia|].
        assert (k = 0) as -> by lia. rewrite Heq' in Hk. by simplify_eq/=.
      * intros Hin. apply Hpre. by right.
    + destruct pre as [|y pre]; simplify_eq/=.
      * left. rewrite Hd in Eo. cbn [andb] in Eo. apply negb_false_iff in Eo. by apply String.eqb_eq.
      * eapply (IH 0); [exact H | intros; lia | done | reflexivity | | done | done].
        intros Hin. apply Hpre. by right.
  - assert (HasPrefix x "-" = false) as Hx by (apply (Hval 0); [done | lia]).
    destruct pre as [|y pre]; simplify_eq/=; [congruence|].
    eapply (IH k); [exact H | | done | reflexivity | | done | done].
    + intros j v Hj Hlt. apply (Hval (S j)); [done | lia].
    + intros Hin. apply Hpre. by right.
Qed.

(** The options of a form: a program with verbs has those of the verb first. *)
Definition form_options (spec : readSpec) (args : list string) (op : opts) (rest : list string) : Prop :=
  match rs_verbs spec with
  | None => op = rs_opts spec ∧ rest = args
  | Some verbs => ∃ v, args = v :: rest ∧ (v, op) ∈ verbs
  end.

Lemma readCallOK_listed spec args : readCallOK spec no_skip args = true →
  ∃ op rest, form_options spec args op rest ∧
    ∀ pre w post, rest = (pre ++ w :: post)%list → "--" ∉ pre → w ≠ "--" → HasPrefix w "-" = true →
      w = "-" ∨ listed spec op w.
Proof.
  unfold readCallOK, form_options. destruct (rs_verbs spec) as [verbs|].
  - destruct args as [|v rest]; [done|]. cbn [no_skip].
    destruct (find_first _ verbs) as [[v' op]|] eqn:Ef; [|done]. simpl.
    apply find_first_Some in Ef as [Hin Hv%String.eqb_eq]. simpl in Hv. subst v'.
    destruct (call_operands _ _ _ _ _ _ _) as [ops|] eqn:Ec; [|done]. intros _.
    exists op, rest. split; [by exists v|].
    eapply call_operands_listed; [exact Ec | intros; lia | done].
  - destruct (call_operands _ _ _ _ _ _ _) as [ops|] eqn:Ec; [|done]. intros _.
    exists (rs_opts spec), args. split; [done|].
    eapply call_operands_listed; [exact Ec | intros; lia | done].
Qed.

(** The text a read entry is matched against. *)
Definition read_text (rr : remoteRead) : string :=
  match rr_allow rr with [a] => TrimPrefix a (rr_host rr ++ "/") | _ => rr_command rr end.

(** C34: An ssh call is taken as a read only by an entry that matches it whole; then
    the line was read in full, hides no words, runs no second command, writes no
    file, is not destructive, and is given no stored secret. If the entry has a
    wildcard, the call is also one plain command with no runner, keyword or
    assignment in front, its program is on the list, none of its words is
    expanded, and every option before a [--] is one the program's form lists:
    whatever the wildcard stood for. *)
Theorem remote_read_safe (tx : Text) (reads : list Rule) (ext : string → bool) (rr : remoteRead) (raw : string) :
  remoteReadRule tx reads ext rr = Some raw → raw ≠ "" →
  (rr_complete rr = true ∧ cn_Hidden (rr_canon rr) = false ∧ rr_stdin rr = false ∧
   does_more (rr_canon rr) = false ∧ cn_Destructive (rr_canon rr) ext = None) ∧
  ∃ r, r ∈ reads ∧ raw = pr_raw r ∧
    (∃ re, pr_pattern r = Some re ∧ MatchString re (read_text rr) = true) ∧
    (has_wildcard (pr_glob r) = true →
       strippedForms tx (read_text rr) = Some ([Join (Fields (read_text rr)) " "], true) ∧
       ∃ spec words op args, spec_of (rawProgram tx (read_text rr)) = Some spec ∧
         shellWords (read_text rr) = (words, false, false) ∧ form_options spec (drop 1 words) op args ∧
         ∀ pre w post, args = (pre ++ w :: post)%list → "--" ∉ pre → w ≠ "--" → HasPrefix w "-" = true →
           w = "-" ∨ listed spec op w).
Proof.
  unfold remoteReadRule. fold (read_text rr).
  destruct ((length reads =? 0) || negb (rr_complete rr) || cn_Hidden (rr_canon rr) || cn_IFSSplit (rr_canon rr)) eqn:E1;
    [intros [= <-]; done|].
  destruct (negb (rr_narrow rr) && _); [intros [= <-]; done|].
  destruct (rr_stdin rr || does_more (rr_canon rr)) eqn:E3; [intros [= <-]; done|].
  destruct (cn_Destructive (rr_canon rr) ext) eqn:E4; [intros [= <-]; done|]. cbn [opt_some].
  destruct (negb (String.eqb (cn_GitRunsOrWrites _) "")); [intros [= <-]; done|].
  apply orb_false_iff in E1 as [[[_ Hc%negb_false_iff]%orb_false_iff Hh]%orb_false_iff _].
  apply orb_false_iff in E3 as [Hs Hm].
  destruct (strippedForms tx (read_text rr)) as [[forms whole]|] eqn:Ef; [|done]. cbn [mbind option_bind].
  destruct (find_first _ reads) as [r|] eqn:Er; [|intros [= <-]; done]. intros [= <-] _.
  split; [done|]. apply find_first_Some in Er as [Hin Hr]. exists r. split; [done|]. split; [done|].
  apply andb_true_iff in Hr as [Hmatch Hr].
  split; [destruct (pr_pattern r) as [re|]; [by exists re | done]|]. intros Hw. rewrite Hw in Hr. cbn [negb orb] in Hr.
  apply andb_true_iff in Hr as [[-> Hforms%bool_decide_eq_true]%andb_true_iff Hread]. split; [by subst|].
  unfold wildcardReadOK in Hread. destruct (spec_of _) as [spec|] eqn:Es; [|done].
  destruct (shellWords (read_text rr)) as [[words dollar] glob] eqn:Ew.
  destruct ((length words =? 0) || dollar || glob || _) eqn:Eb; [done|].
  rewrite !orb_false_iff in Eb. destruct Eb as [[[_ ->] ->] _].
  apply readCallOK_listed in Hread as (op & args & Hform & Hall). by exists spec, words, op, args.
Qed.

(** ** A concrete call *)

Definition plain_reader : Reader :=
  MkReader (λ _ s, MkCanonical s false false false "" false "" [s] false "" false false [] "" "" (λ _, None))
    (λ t _, t).
Definition df_reads : list Rule := snd (AllowRemoteReads ascii_text plain_reader ["df *"] []).
Definition df_call : remoteRead :=
  match readRemote ascii_text plain_reader "db1" "df -h /var" false with
  | Some rr => rr
  | None => MkRemoteRead "" "" no_canonical [] [] [] false false false false
  end.

Lemma remote_read_safe_witness :
  remoteReadRule ascii_text df_reads (λ _, false) df_call = Some "df *" ∧ does_more (rr_canon df_call) = false.
Proof.
  assert (remoteReadRule ascii_text df_reads (λ _, false) df_call = Some "df *") as H by (vm_compute; reflexivity).
  split; [exact H|].
  exact (proj1 (proj2 (proj2 (proj2 (proj1 (remote_read_safe ascii_text df_reads (λ _, false) df_call "df *" H ltac:(discriminate))))))).
Defined.
