(* ===== verification/Args.v ===== *)
(** Tool arguments (src/internal/tools/args.go): decoded strictly, each key once
    however it is spelled, and the one encoding policy, approver, record and
    tool all read.

    [json.Decoder] is the language's: a text is the tokens it gives and what it
    ends with. Field order is the order of the text; a Go map has none, and no
    result below depends on it. *)

From Stdlib Require Import ZArith NArith Ascii String Lia.
From stdpp Require Import base tactics list option strings sorting.
From S2P Require Import Prelude.
From S2P Require Import GoStd.
From S2P Require Import Errors.
From S2P Require Import GoNet.
From S2P Require Import GoPath.
From S2P Require Import ShellSplit.

#[local] Open Scope string_scope.
#[local] Open Scope nat_scope.
#[local] Open Scope go_scope.

(** ** JSON *)

Inductive leaf : Set := LNull | LBool (b : bool) | LNum (literal : string) | LStr (s : string).

Inductive json : Type :=
  | JLeaf (l : leaf)
  | JArr (items : list json)
  | JObj (members : list (string * json)).

Abbreviation JNull := (JLeaf LNull).
Abbreviation JStr s := (JLeaf (LStr s)).

(** A type assertion to [string]. *)
Definition as_string (v : json) : option string := match v with JStr s => Some s | _ => None end.

Definition object : Type := list (string * json).

Definition field (m : object) (k : string) : option json := snd <$> find_first (λ p, String.eqb (fst p) k) m.

Inductive token : Set := OpenObj | CloseObj | OpenArr | CloseArr | Leaf (l : leaf).

(** An argument text as [json.Decoder] reads it: whether it is only blanks, its
    tokens, and the error after them ([None]: the end of the text). *)
Record RawMessage : Type := MkRaw { rw_blank : bool; rw_tokens : list token; rw_end : option error }.

(** ** Runes back to text *)

Definition chr (n : N) : ascii := ascii_of_N n.
Definition tail_byte (r : N) (shift : N) : ascii := chr (N.lor 128 (N.land (N.shiftr r shift) 63)).

(** [utf8.AppendRune]. *)
Definition encode_rune (r : N) : string :=
  if (r <? 128)%N then String (chr r) ""
  else if (r <? 2048)%N then of_bytes [chr (N.lor 192 (N.shiftr r 6)); tail_byte r 0]
  else if (r <? 65536)%N then of_bytes [chr (N.lor 224 (N.shiftr r 12)); tail_byte r 6; tail_byte r 0]
  else of_bytes [chr (N.lor 240 (N.shiftr r 18)); tail_byte r 12; tail_byte r 6; tail_byte r 0].
Definition of_runes (l : list N) : string := fold_right (λ r s, encode_rune r ++ s) "" l.

Section args.
Context (tx : Text).

(** Two keys [FoldKey] makes one of. *)
Fixpoint runes_alike (a b : list N) : bool :=
  match a, b with
  | [], [] => true
  | x :: a, y :: b => tx_fold tx x y && runes_alike a b
  | _, _ => false
  end.
Definition FoldKey (k : string) : list N := runes k.
Definition same_fold (a b : string) : bool := runes_alike (FoldKey a) (FoldKey b).

Definition Lookup (m : object) (name : string) : option json :=
  match field m name with
  | Some v => Some v
  | None => snd <$> find_first (λ p, same_fold (fst p) name) m
  end.

Definition clipKey (k : string) : string :=
  let r := runes k in
  if 64 <? length r then of_runes (take 64 r) ++ "…" else k.

(** ** Strict decoding *)

Definition maxArgsDepth : nat := 1000.

Definition io_EOF : error := plain "EOF".
Definition bad_token : error := plain "invalid character".
Definition malformed (e : error) : error := err_prefix "malformed arguments: " e.

(** What [strictValue] reads from the tokens left: the value, and what is left
    after it. [stop] is the decoder's error at the end of the tokens. A token the
    decoder's own grammar refuses, such as a [\]] in an object, is its error. *)
Section strict.
Context (stop : error).

Fixpoint strictValue (fuel depth : nat) (toks : list token) {struct fuel} : option (result (json * list token)) :=
  match fuel with
  | 0 => None
  | S fuel =>
      if maxArgsDepth <? depth then Some (Fail (plain "nested too deeply"))
      else
        match toks with
        | [] => Some (Fail stop)
        | Leaf l :: toks => Some (Ok (JLeaf l, toks))
        | OpenObj :: toks => strict_members fuel depth [] toks
        | OpenArr :: toks => strict_items fuel depth [] toks
        | (CloseObj | CloseArr) :: _ => Some (Fail (plain "unexpected delimiter"))
        end
  end
with strict_members (fuel depth : nat) (m : object) (toks : list token) {struct fuel}
    : option (result (json * list token)) :=
  match fuel with
  | 0 => None
  | S fuel =>
      match toks with
      | [] => Some (Fail stop)
      | CloseObj :: toks => Some (Ok (JObj m, toks))
      | Leaf (LStr k) :: toks =>
          if opt_some (field m k) then Some (Fail (plain ("duplicate key " ++ Quote (clipKey k))))
          else
            match find_first (λ p, same_fold (fst p) k) m with
            | Some (prev, _) =>
                Some (Fail (plain ("keys " ++ Quote (clipKey prev) ++ " and " ++ Quote (clipKey k) ++ " differ only in case")))
            | None =>
                match strictValue fuel (depth + 1) toks with
                | None => None
                | Some (Fail e) => Some (Fail e)
                | Some (Ok (v, toks)) => strict_members fuel depth (m ++ [(k, v)])%list toks
                end
            end
      | _ :: _ => Some (Fail bad_token)
      end
  end
with strict_items (fuel depth : nat) (a : list json) (toks : list token) {struct fuel}
    : option (result (json * list token)) :=
  match fuel with
  | 0 => None
  | S fuel =>
      match toks with
      | [] => Some (Fail stop)
      | CloseArr :: toks => Some (Ok (JArr a, toks))
      | CloseObj :: _ => Some (Fail bad_token)
      | _ =>
          match strictValue fuel (depth + 1) toks with
          | None => None
          | Some (Fail e) => Some (Fail e)
          | Some (Ok (v, toks)) => strict_items fuel depth (a ++ [v])%list toks
          end
      end
  end.
End strict.

Definition jsonKind (v : json) : string :=
  match v with
  | JArr _ => "a list"
  | JStr _ => "a string"
  | JLeaf (LBool _) => "a boolean"
  | _ => "a number"
  end.

Definition strict_fuel (toks : list token) : nat := 2 * length toks + 1.

Definition DecodeArgs (raw : RawMessage) : option (result object) :=
  if rw_blank raw then Some (Ok [])
  else
    r ← strictValue (default io_EOF (rw_end raw)) (strict_fuel (rw_tokens raw)) 0 (rw_tokens raw);
    Some match r with
         | Fail e => Fail (malformed e)
         | Ok (v, rest) =>
             if negb (length rest =? 0) || opt_some (rw_end raw) then
               Fail (malformed (plain "data after the arguments object"))
             else
               match v with
               | JNull => Ok []
               | JObj m => Ok m
               | v => Fail (malformed (plain ("the arguments must be a JSON object, not " ++ jsonKind v)))
               end
         end.

(** With the fuel it never runs out of ([Args.DecodeArgs_exact]). *)
Definition decode_args (raw : RawMessage) : result object := default (Fail io_EOF) (DecodeArgs raw).

(** ** The encoding *)

Definition hex4 (n : N) : string :=
  of_bytes [hex_digit (N.shiftr n 12); hex_digit (N.land (N.shiftr n 8) 15);
            hex_digit (N.land (N.shiftr n 4) 15); hex_digit (N.land n 15)].

(** The byte [c] of rune [r], escaped, and the rest; a rune of more bytes is
    its first, as it is. *)
Definition json_byte (html : bool) (c : ascii) (r : N) (rest : string) : string :=
  if (r =? 34)%N || (r =? 92)%N then String "\" (String c rest)
  else if (r =? 8)%N then "\b" ++ rest
  else if (r =? 12)%N then "\f" ++ rest
  else if (r =? 10)%N then "\n" ++ rest
  else if (r =? 13)%N then "\r" ++ rest
  else if (r =? 9)%N then "\t" ++ rest
  else if (r <? 32)%N || (html && byte_in "<>&" c) then "\u" ++ hex4 r ++ rest
  else String c rest.

(** A string as [encoding/json] writes it: [html] escapes [<], [>] and [&]. *)
Fixpoint json_string_body (html : bool) (skip : nat) (s : string) : string :=
  match s with
  | EmptyString => ""
  | String c s' =>
      match skip with
      | S k => String c (json_string_body html k s')
      | 0 =>
          match decode_rune s with
          | None => "\ufffd" ++ json_string_body html 0 s'
          | Some (r, w) =>
              let rest := json_string_body html (pred w) s' in
              match s' with
              | String _ (String _ s2) =>
                  if (r =? 8232)%N || (r =? 8233)%N then "\u" ++ hex4 r ++ json_string_body html 0 s2
                  else json_byte html c r rest
              | _ => json_byte html c r rest
              end
          end
      end
  end.
Definition json_quote (html : bool) (s : string) : string :=
  String dquote (json_string_body html 0 s ++ String dquote "").

Definition key_le (a b : string * string) : Prop := str_le (fst a) (fst b).
#[local] Instance key_le_dec a b : Decision (key_le a b).
Proof. unfold key_le, str_le. apply _. Defined.

(** [json.Marshal]: map keys sorted. *)
Fixpoint Marshal (html : bool) (v : json) : string :=
  match v with
  | JNull => "null"
  | JLeaf (LBool b) => if b then "true" else "false"
  | JLeaf (LNum n) => n
  | JStr s => json_quote html s
  | JArr l => "[" ++ Join (map (Marshal html) l) "," ++ "]"
  | JObj m =>
      let fields := map (λ p, let '(k, v) := p in (k, Marshal html v)) m in
      "{" ++ Join (map (λ p, json_quote html (fst p) ++ ":" ++ snd p) (merge_sort key_le fields)) "," ++ "}"
  end.

(** ** One encoding *)

Definition SubjectKeys : list string :=
  ["command"; "path"; "pattern"; "action"; "resource"; "host"; "namespace"; "name"; "url"].

(** What [CanonicalArgs] asks of a tool and its schema. *)
Record ToolSchema : Type := MkSchema {
  ts_name : string;
  ts_fixed : bool;                 (* tools.FixedArgs *)
  ts_props : list string;          (* the schema's properties *)
  ts_closed : bool;                (* additionalProperties: false *)
  ts_type : string → string        (* schemaType *)
}.

Definition foldsToAny (k : string) (names : list string) : bool := existsb (λ n, same_fold k n) names.

Definition arguments_list (t : ToolSchema) : string := Join (sort_strings (ts_props t)) ", ".
Definition not_argument (t : ToolSchema) (k : string) : error :=
  malformed (plain (Quote (clipKey k) ++ " is not an argument of " ++ ts_name t ++ " (arguments: " ++ arguments_list t ++ ")")).

(** The loop over the keys: those kept, and those dropped. *)
Fixpoint check_keys (t : ToolSchema) (m : object) : result (object * list string) :=
  match m with
  | [] => Ok ([], [])
  | (k, v) :: m =>
      if word_in (ts_props t) k then let? (kept, dropped) := check_keys t m in Ok ((k, v) :: kept, dropped)
      else if foldsToAny k (ts_props t) then
        Fail (malformed (plain (Quote (clipKey k) ++ " must be spelled exactly as in the schema (arguments: " ++
          arguments_list t ++ ")")))
      else if (ts_fixed t || negb (length (ts_props t) =? 0)) && foldsToAny k SubjectKeys then Fail (not_argument t k)
      else if ts_fixed t then let? (kept, dropped) := check_keys t m in Ok (kept, k :: dropped)
      else if ts_closed t then Fail (not_argument t k)
      else let? (kept, dropped) := check_keys t m in Ok ((k, v) :: kept, dropped)
  end.

(** A subject argument the schema says is text. *)
Definition subject_typed (t : ToolSchema) (m : object) (k : string) : bool :=
  match field m k with
  | None | Some JNull | Some (JStr _) => true
  | Some _ => negb (String.eqb (ts_type t k) "string")
  end.

Definition CanonicalArgs (t : ToolSchema) (raw : RawMessage) : option (result (object * list string)) :=
  d ← DecodeArgs raw;
  Some (let? m := d in
        let? (m, dropped) := check_keys t m in
        match find_first (λ k, negb (subject_typed t m k)) SubjectKeys with
        | Some k => Fail (malformed (plain (Quote k ++ " must be a string")))
        | None => Ok (m, sort_strings dropped)
        end).

(** The text that is judged, approved, kept and run. *)
Definition canonical_text (m : object) : string := Marshal false (JObj m).
End args.

(** ** Examples *)

Example marshal_sorted :
  Marshal true (JObj [("b", JArr [JNull; JStr "x<y"]); ("a", JLeaf (LNum "1e3"))]) =
  "{" ++ json_quote true "a" ++ ":1e3," ++ json_quote true "b" ++ ":[null," ++ String dquote "x\u003cy" ++ String dquote "]}".
Proof. vm_compute. reflexivity. Qed.

Definition case_text : Text := MkText ToLower ToUpper (λ s, s)
  (λ a b, N.eqb (if (a <? 97)%N && (64 <? a)%N then a + 32 else a) (if (b <? 97)%N && (64 <? b)%N then b + 32 else b)) false.

Example marshal_line_separator :
  json_quote false (encode_rune 8232 ++ "é" ++ of_bytes ["255"%char]) =
  String dquote ("\u2028é\ufffd" ++ String dquote "").
Proof. vm_compute. reflexivity. Qed.
Example decode_clash :
  DecodeArgs case_text (MkRaw false
    [OpenObj; Leaf (LStr "path"); Leaf (LStr "a"); Leaf (LStr "Path"); Leaf (LStr "b"); CloseObj] None) =
  Some (Fail (malformed (plain ("keys " ++ Quote "path" ++ " and " ++ Quote "Path" ++ " differ only in case")))).
Proof. vm_compute. reflexivity. Qed.

(** * Theorems

    Decoding arguments strictly accepts exactly the objects that name each key
    once, and the canonical encoding leaves one reading of each argument. *)

(** The tokens a value is written with. *)
Fixpoint tokens_of (v : json) : list token :=
  match v with
  | JLeaf l => [Leaf l]
  | JArr l => OpenArr :: flat_map tokens_of l ++ [CloseArr]
  | JObj m => OpenObj :: flat_map (λ p, let '(k, v) := p in Leaf (LStr k) :: tokens_of v) m ++ [CloseObj]
  end%list.
Definition item_tokens (l : list json) : list token := flat_map tokens_of l.
Definition member_tokens (m : object) : list token :=
  flat_map (λ p, let '(k, v) := p in Leaf (LStr k) :: tokens_of v)%list m.

Section strict.
Context (tx : Text).

(** No later key is an earlier one, in any case. *)
Definition keys_once (ks : list string) : Prop :=
  ∀ i j a b, i < j → ks !! i = Some a → ks !! j = Some b → a ≠ b ∧ same_fold tx a b = false.

(** A value read at [depth]: not too deep, each key once. *)
Inductive strict_at : nat → json → Prop :=
  | strict_leaf d l : d ≤ maxArgsDepth → strict_at d (JLeaf l)
  | strict_arr d l : d ≤ maxArgsDepth → Forall (strict_at (d + 1)) l → strict_at d (JArr l)
  | strict_obj d (m : object) : d ≤ maxArgsDepth → keys_once m.*1 → Forall (strict_at (d + 1)) m.*2 →
      strict_at d (JObj m).

Lemma find_first_none_iff {A} (f : A → bool) l : find_first f l = None ↔ ∀ x, x ∈ l → f x = false.
Proof.
  split; [apply find_first_None|]. induction l as [|y l IH]; intros H; [done|]. simpl.
  rewrite (H y) by (by left). apply IH. intros x Hx. apply H. by right.
Qed.

Lemma field_None (m : object) k : opt_some (field m k) = false ↔ k ∉ m.*1.
Proof.
  unfold field. destruct (find_first _ m) as [[k' v]|] eqn:E; simpl.
  - split; [done|]. intros Hk. destruct Hk. apply find_first_Some in E as (Hin & Hk%String.eqb_eq). simpl in Hk. subst k'.
    by apply (list_elem_of_fmap_2 fst) in Hin.
  - split; [|done]. intros _ ([k' v] & -> & Hin)%list_elem_of_fmap.
    pose proof (proj1 (find_first_none_iff _ _) E (k', v) Hin) as H. simpl in H. by rewrite String.eqb_refl in H.
Qed.

Lemma keys_once_snoc ks k : keys_once (ks ++ [k])%list ↔
  keys_once ks ∧ ∀ a, a ∈ ks → a ≠ k ∧ same_fold tx a k = false.
Proof.
  split.
  - intros H. split.
    + intros i j a b Hij Ha Hb. apply (H i j a b Hij); by apply lookup_app_l_Some.
    + intros a [i Hi]%list_elem_of_lookup. pose proof (lookup_lt_Some _ _ _ Hi).
      apply (H i (length ks) a k); [done | by apply lookup_app_l_Some | by apply list_lookup_middle].
  - intros [H Hk] i j a b Hij Ha Hb. apply lookup_app_Some in Hb as [Hb | [Hl Hb]].
    + apply (H i j a b Hij); [|done]. apply lookup_lt_Some in Hb. rewrite lookup_app_l in Ha; [done | lia].
    + apply list_lookup_singleton_Some in Hb as [Hj <-]. apply Hk, list_elem_of_lookup. exists i.
      rewrite lookup_app_l in Ha; [done | lia].
Qed.

(** The check of a new key. *)
Lemma key_check (m : object) k : keys_once m.*1 →
  (opt_some (field m k) = false ∧ find_first (λ p, same_fold tx (fst p) k) m = None) ↔ keys_once (m.*1 ++ [k])%list.
Proof.
  intros Hm. rewrite keys_once_snoc, field_None, find_first_none_iff. split.
  - intros [Hn Hf]. split; [done|]. intros a Ha. split; [by intros ->|].
    apply list_elem_of_fmap in Ha as ([a' v] & -> & Ha). by apply (Hf (a', v)).
  - intros [_ H]. split; [intros Hk; by destruct (H k Hk)|]. intros [a v] Ha. simpl.
    apply (H a). by apply (list_elem_of_fmap_2 fst) in Ha.
Qed.

Context (stop : error).

(** ** What is read is what the tokens write *)

(** One step of each reader. *)
Lemma strictValue_S fuel depth toks : strictValue tx stop (S fuel) depth toks =
    if maxArgsDepth <? depth then Some (Fail (plain "nested too deeply"))
    else
      match toks with
      | [] => Some (Fail stop)
      | Leaf l :: toks => Some (Ok (JLeaf l, toks))
      | OpenObj :: toks => strict_members tx stop fuel depth [] toks
      | OpenArr :: toks => strict_items tx stop fuel depth [] toks
      | (CloseObj | CloseArr) :: _ => Some (Fail (plain "unexpected delimiter"))
      end.
Proof. reflexivity. Qed.
Lemma strict_members_S fuel depth (m : object) toks : strict_members tx stop (S fuel) depth m toks =
    match toks with
    | [] => Some (Fail stop)
    | CloseObj :: toks => Some (Ok (JObj m, toks))
    | Leaf (LStr k) :: toks =>
        if opt_some (field m k) then Some (Fail (plain ("duplicate key " ++ Quote (clipKey k))))
        else
          match find_first (λ p, same_fold tx (fst p) k) m with
          | Some (prev, _) =>
              Some (Fail (plain ("keys " ++ Quote (clipKey prev) ++ " and " ++ Quote (clipKey k) ++ " differ only in case")))
          | None =>
              match strictValue tx stop fuel (depth + 1) toks with
              | None => None
              | Some (Fail e) => Some (Fail e)
              | Some (Ok (v, toks)) => strict_members tx stop fuel depth (m ++ [(k, v)])%list toks
              end
          end
    | _ :: _ => Some (Fail bad_token)
    end.
Proof. reflexivity. Qed.
Lemma strict_items_S fuel depth a toks : strict_items tx stop (S fuel) depth a toks =
    match toks with
    | [] => Some (Fail stop)
    | CloseArr :: toks => Some (Ok (JArr a, toks))
    | CloseObj :: _ => Some (Fail bad_token)
    | _ =>
        match strictValue tx stop fuel (depth + 1) toks with
        | None => None
        | Some (Fail e) => Some (Fail e)
        | Some (Ok (v, toks)) => strict_items tx stop fuel depth (a ++ [v])%list toks
        end
    end.
Proof. reflexivity. Qed.

Definition value_ok (fuel : nat) : Prop := ∀ d toks, 2 * length toks + 1 ≤ fuel →
  ∃ r, strictValue tx stop fuel d toks = Some r ∧
    ∀ v rest, r = Ok (v, rest) → toks = (tokens_of v ++ rest)%list ∧ strict_at d v.

Lemma members_ok fuel0 fuel d (m : object) toks : (∀ f, f < fuel0 → value_ok f) → fuel ≤ fuel0 →
  2 * length toks + 2 ≤ fuel → d ≤ maxArgsDepth → keys_once m.*1 → Forall (strict_at (d + 1)) m.*2 →
  ∃ r, strict_members tx stop fuel d m toks = Some r ∧
    ∀ v rest, r = Ok (v, rest) → ∃ m', v = JObj (m ++ m') ∧
      toks = (member_tokens m' ++ CloseObj :: rest)%list ∧ strict_at d v.
Proof.
  intros IH. revert m toks. induction fuel as [|fuel IHf]; intros m toks Hle Hf Hd Hm Hs; [lia|].
  rewrite strict_members_S. destruct toks as [|t toks]; [by eexists|]. simpl in Hf.
  destruct t as [| | | |[|b|n|k]]; try by eexists.
  { eexists. split; [done|]. intros v rest [= <- <-]. exists []. rewrite app_nil_r. split; [done|]. split; [done|].
    by constructor. }
  destruct (opt_some (field m k)) eqn:E1; [by eexists|].
  destruct (find_first _ m) as [[prev w]|] eqn:E2; [by eexists|].
  destruct (IH fuel ltac:(lia) (d + 1) toks ltac:(lia)) as (r & -> & Hr).
  destruct r as [[v toks']|e]; [|by eexists]. destruct (Hr v toks' eq_refl) as [-> Hv].
  rewrite length_app in Hf.
  destruct (IHf (m ++ [(k, v)])%list toks') as (r & -> & Hr'); [lia | lia | done | | |].
  { rewrite fmap_app. by apply key_check. }
  { rewrite fmap_app, Forall_app. split; [done|]. by constructor. }
  eexists. split; [done|]. intros v' rest H. destruct (Hr' v' rest H) as (m' & -> & -> & Hst).
  exists ((k, v) :: m'). rewrite <- app_assoc in Hst |- *. split; [done|]. split; [|done].
  simpl. by rewrite <- app_assoc.
Qed.

Lemma items_ok fuel0 fuel d (a : list json) toks : (∀ f, f < fuel0 → value_ok f) → fuel ≤ fuel0 →
  2 * length toks + 2 ≤ fuel → d ≤ maxArgsDepth → Forall (strict_at (d + 1)) a →
  ∃ r, strict_items tx stop fuel d a toks = Some r ∧
    ∀ v rest, r = Ok (v, rest) → ∃ a', v = JArr (a ++ a') ∧
      toks = (item_tokens a' ++ CloseArr :: rest)%list ∧ strict_at d v.
Proof.
  intros IH. revert a toks. induction fuel as [|fuel IHf]; intros a toks Hle Hf Hd Hs; [lia|].
  rewrite strict_items_S. destruct toks as [|t toks]; [by eexists|].
  assert (∃ r, match strictValue tx stop fuel (d + 1) (t :: toks) with
      | None => None | Some (Fail e) => Some (Fail e)
      | Some (Ok (v, toks)) => strict_items tx stop fuel d (a ++ [v])%list toks end = Some r ∧
      ∀ v rest, r = Ok (v, rest) → ∃ a', v = JArr (a ++ a') ∧
        t :: toks = (item_tokens a' ++ CloseArr :: rest)%list ∧ strict_at d v) as Hitem.
  { destruct (IH fuel ltac:(lia) (d + 1) (t :: toks) ltac:(lia)) as (r & -> & Hr).
    destruct r as [[v toks']|e]; [|by eexists]. destruct (Hr v toks' eq_refl) as [Heq Hv].
    assert (0 < length (tokens_of v)) as Hpos by (by destruct v; simpl; lia).
    rewrite Heq, length_app in Hf.
    destruct (IHf (a ++ [v])%list toks') as (r & -> & Hr'); [lia | lia | done | |].
    { rewrite Forall_app. split; [done|]. by constructor. }
    eexists. split; [done|]. intros v' rest H. destruct (Hr' v' rest H) as (a' & -> & -> & Hst).
    exists (v :: a'). rewrite <- app_assoc in Hst |- *. split; [done|]. split; [|done].
    rewrite Heq. simpl. by rewrite <- app_assoc. }
  destruct t; try exact Hitem; [by eexists|].
  eexists. split; [done|]. intros v rest [= <- <-]. exists []. rewrite app_nil_r. split; [done|]. split; [done|].
  by constructor.
Qed.

Lemma strictValue_ok fuel : value_ok fuel.
Proof.
  induction fuel as [fuel IH] using lt_wf_ind. intros d toks Hf. destruct fuel as [|fuel]; [lia|].
  rewrite strictValue_S. destruct (maxArgsDepth <? d) eqn:Ed; [by eexists|]. apply Nat.ltb_ge in Ed.
  destruct toks as [|t toks]; [by eexists|]. simpl in Hf. destruct t as [| | | |l]; try by eexists.
  - destruct (members_ok (S fuel) fuel d [] toks) as (r & -> & Hr); [done | lia | lia | done | | constructor|].
    { intros i j a b _ Ha. simpl in Ha. by rewrite lookup_nil in Ha. }
    eexists. split; [done|]. intros v rest H. destruct (Hr v rest H) as (m' & -> & -> & Hst). split; [|done].
    simpl. by rewrite <- app_assoc.
  - destruct (items_ok (S fuel) fuel d [] toks) as (r & -> & Hr); [done | lia | lia | done | constructor|].
    eexists. split; [done|]. intros v rest H. destruct (Hr v rest H) as (a' & -> & -> & Hst). split; [|done].
    simpl. by rewrite <- app_assoc.
  - eexists. split; [done|]. intros v rest [= <- <-]. split; [done|]. by constructor.
Qed.

(** ** What strict tokens write is read *)

Lemma json_nested_ind (P : json → Prop) : (∀ l, P (JLeaf l)) → (∀ l, Forall P l → P (JArr l)) →
  (∀ m : object, Forall P m.*2 → P (JObj m)) → ∀ v, P v.
Proof.
  intros Hl Ha Ho. fix go 1. intros [l|l|m]; [apply Hl | apply Ha | apply Ho].
  - induction l; constructor; [apply go | done].
  - induction m as [|[k v] m IH]; constructor; [apply go | done].
Qed.

Definition value_read (v : json) : Prop := ∀ fuel d rest, 2 * length (tokens_of v ++ rest)%list + 1 ≤ fuel →
  strict_at d v → strictValue tx stop fuel d (tokens_of v ++ rest)%list = Some (Ok (v, rest)).

Lemma keys_once_l (a b : list string) : keys_once (a ++ b)%list → keys_once a.
Proof. intros H i j x y Hij Hx Hy. apply (H i j x y Hij); by apply lookup_app_l_Some. Qed.

Lemma members_read fuel (d : nat) (m m' : object) rest : Forall value_read m'.*2 →
  2 * length (member_tokens m' ++ CloseObj :: rest)%list + 2 ≤ fuel →
  keys_once (m ++ m')%list.*1 → Forall (strict_at (d + 1)) m'.*2 →
  strict_members tx stop fuel d m (member_tokens m' ++ CloseObj :: rest)%list = Some (Ok (JObj (m ++ m')%list, rest)).
Proof.
  revert m fuel. induction m' as [|[k v] m' IH]; intros m fuel Hr Hf Hk Hs; (destruct fuel as [|fuel]; [lia|]).
  { simpl. by rewrite app_nil_r. }
  simpl in Hr, Hs. apply Forall_cons in Hr as [Hv Hr]. apply Forall_cons in Hs as [Hsv Hs].
  simpl in Hf |- *. rewrite <- !app_assoc in *. rewrite fmap_app in Hk. simpl in Hk.
  assert (keys_once (m.*1 ++ [k])%list) as Hmk.
  { rewrite (cons_middle k), app_assoc in Hk. by apply keys_once_l in Hk. }
  pose proof (proj1 (keys_once_snoc _ _) Hmk) as [Hm _].
  apply (key_check m k Hm) in Hmk as [-> ->].
  rewrite length_app in Hf. change (flat_map _ m') with (member_tokens m').
  rewrite Hv; [|rewrite length_app; lia | done].
  rewrite IH; [|done | lia | | done].
  - by rewrite <- app_assoc.
  - by rewrite <- app_assoc, fmap_app.
Qed.

Lemma items_read fuel d (a a' : list json) rest : Forall value_read a' →
  2 * length (item_tokens a' ++ CloseArr :: rest)%list + 2 ≤ fuel → Forall (strict_at (d + 1)) a' →
  strict_items tx stop fuel d a (item_tokens a' ++ CloseArr :: rest)%list = Some (Ok (JArr (a ++ a')%list, rest)).
Proof.
  revert a fuel. induction a' as [|v a' IH]; intros a fuel Hr Hf Hs; (destruct fuel as [|fuel]; [lia|]).
  { simpl. by rewrite app_nil_r. }
  apply Forall_cons in Hr as [Hv Hr]. apply Forall_cons in Hs as [Hsv Hs].
  cbn [item_tokens flat_map] in Hf |- *. change (flat_map tokens_of a') with (item_tokens a') in *.
  rewrite <- app_assoc in *. rewrite length_app in Hf.
  assert (0 < length (tokens_of v)) as Hpos by (by destruct v; simpl; lia).
  assert (strict_items tx stop (S fuel) d a (tokens_of v ++ item_tokens a' ++ CloseArr :: rest)%list =
    match strictValue tx stop fuel (d + 1) (tokens_of v ++ item_tokens a' ++ CloseArr :: rest)%list with
    | None => None | Some (Fail e) => Some (Fail e)
    | Some (Ok (v, toks)) => strict_items tx stop fuel d (a ++ [v])%list toks end) as ->.
  { rewrite strict_items_S. by destruct v. }
  rewrite Hv; [|rewrite length_app; lia | done]. rewrite IH; [|done | lia | done]. by rewrite <- app_assoc.
Qed.

Lemma strict_depth d v : strict_at d v → (maxArgsDepth <? d) = false.
Proof. intros []; by apply Nat.ltb_ge. Qed.

Lemma strictValue_read v : value_read v.
Proof.
  induction v as [l|l IH|m IH] using json_nested_ind; intros fuel d rest Hf Hs;
    (destruct fuel as [|fuel]; [lia|]); rewrite strictValue_S;
    (rewrite (strict_depth d _ Hs)).
  - done.
  - inversion Hs; subst. simpl in Hf |- *. rewrite <- app_assoc in *. cbn [app] in Hf. by apply (items_read fuel d []); [|unfold item_tokens; lia|].
  - inversion Hs; subst. simpl in Hf |- *. rewrite <- app_assoc in *. cbn [app] in Hf. by apply (members_read fuel d []); [|unfold member_tokens; lia | |].
Qed.
End strict.

(** Decoding ends on every text, and accepts a text exactly when it is blank,
    [null], or one object with nothing after it that names each key once however
    it is cased, at every depth, and nests no deeper than the bound; the object
    returned is the one the text writes. *)
Theorem DecodeArgs_exact (tx : Text) (raw : RawMessage) :
  ∃ r, DecodeArgs tx raw = Some r ∧
    ∀ m, r = Ok m ↔
      (rw_blank raw = true ∧ m = []) ∨
      (rw_blank raw = false ∧ rw_end raw = None ∧
        (rw_tokens raw = [Leaf LNull] ∧ m = [] ∨
         rw_tokens raw = tokens_of (JObj m) ∧ strict_at tx 0 (JObj m))).
Proof.
  unfold DecodeArgs. destruct (rw_blank raw); [|].
  { eexists. split; [done|]. intros m. split; [intros [= <-]; auto | by intros [[_ ->]|[? _]]]. }
  remember (default io_EOF (rw_end raw)) as stop. remember (rw_tokens raw) as toks.
  destruct (strictValue_ok tx stop (strict_fuel toks) 0 toks) as (r & Hr & Hok); [done|].
  rewrite Hr. eexists. split; [done|]. intros m. split.
  - destruct r as [[v rest]|e]; [|done]. destruct (Hok v rest eq_refl) as [Ht Hv].
    destruct rest; [|done]. simpl. destruct (rw_end raw); [done|]. simpl. rewrite app_nil_r in Ht.
    intros H. right. split; [done|]. split; [done|].
    destruct v as [[]| |m']; simplify_eq; [left | right]; done.
  - intros [[? _]|(_ & Hend & Hm)]; [done|]. destruct Hm as [[Ht ->]|[Ht Hs]].
    + rewrite Ht in Hr. injection Hr as <-. simpl. by rewrite Hend.
    + pose proof (strictValue_read tx stop (JObj m) (strict_fuel toks) 0 []) as Hread.
      rewrite app_nil_r in Hread. rewrite <- Ht in Hread.
      rewrite Hread in Hr; [|done..]. injection Hr as <-. simpl. by rewrite Hend.
Qed.

(** The object taken is one a tool's struct and the policy read alike. *)
Definition one_reading (tx : Text) (t : ToolSchema) (m : object) : Prop :=
  ∀ n, n ∈ ts_props t ∨ (ts_fixed t = true ∨ ts_props t ≠ []) ∧ n ∈ SubjectKeys → Lookup tx m n = field m n.

Lemma check_keys_kept tx t m kept dropped : check_keys tx t m = Ok (kept, dropped) →
  ∀ k, k ∈ kept.*1 → k ∈ ts_props t ∨
    ts_fixed t = false ∧ foldsToAny tx k (ts_props t) = false ∧
    (ts_props t ≠ [] → foldsToAny tx k SubjectKeys = false).
Proof.
  revert kept dropped. induction m as [|[k0 v] m IH]; intros kept dropped; simpl.
  { intros [= <- _] k Hk. by apply elem_of_nil in Hk. }
  destruct (word_in (ts_props t) k0) eqn:Ew.
  - destruct (check_keys tx t m) as [[kept' dropped']|]; [|done]. intros [= <- <-] k [->|Hk]%elem_of_cons.
    + left. by apply bool_decide_eq_true in Ew.
    + by apply (IH kept' dropped').
  - destruct (foldsToAny tx k0 (ts_props t)) eqn:Ep; [done|].
    destruct ((ts_fixed t || _) && _) eqn:Es; [done|].
    destruct (ts_fixed t) eqn:Ef; [|destruct (ts_closed t); [done|]];
      (destruct (check_keys tx t m) as [[kept' dropped']|]; [|done]); intros [= <- <-] k Hk; [by apply (IH kept' dropped')|].
    apply elem_of_cons in Hk as [->|Hk]; [|by apply (IH kept' dropped')].
    right. split; [done|]. split; [done|]. intros Hne. simpl in Es.
    destruct (ts_props t); [done|]. by simpl in Es.
Qed.

(** The arguments taken for a call have one reading: for each property of the
    tool's schema, and each argument the rules read, looking it up in any case, as
    a struct is filled, gives the argument spelled so or none; a tool of fixed
    arguments gets no others; and where the schema has text, the rules read text. *)
Theorem CanonicalArgs_one_reading (tx : Text) (t : ToolSchema) (raw : RawMessage) (m : object) (dropped : list string) :
  (∀ p n, p ∈ ts_props t → n ∈ ts_props t ∨ n ∈ SubjectKeys → same_fold tx p n = true → p = n) →
  CanonicalArgs tx t raw = Some (Ok (m, dropped)) →
  one_reading tx t m ∧ (ts_fixed t = true → ∀ k, k ∈ m.*1 → k ∈ ts_props t) ∧
  ∀ k v, k ∈ SubjectKeys → ts_type t k = "string" → field m k = Some v → v = JNull ∨ ∃ s, v = JStr s.
Proof.
  intros Hschema. unfold CanonicalArgs. destruct (DecodeArgs tx raw) as [[m0|]|]; [|done|done].
  cbn [mbind option_bind]. destruct (check_keys tx t m0) as [[kept d]|] eqn:Ek; [|done].
  destruct (find_first _ SubjectKeys) eqn:Et; [done|]. intros [= <- _].
  pose proof (check_keys_kept tx t m0 kept d Ek) as Hkept. split; [|split].
  - intros n Hn. unfold Lookup. destruct (field kept n) as [v|] eqn:Ef; [done|].
    destruct (find_first (λ p, same_fold tx (fst p) n) kept) as [[k v]|] eqn:Efold; [|done].
    exfalso. apply find_first_Some in Efold as [Hin Hfold]. simpl in Hfold.
    assert (k ≠ n) as Hne.
    { intros ->. assert (opt_some (field kept n) = false) as H%field_None by (by rewrite Ef).
      destruct H. by apply (list_elem_of_fmap_2 fst) in Hin. }
    destruct (Hkept k) as [Hp | (Hfix & Hp & Hsub)]; [by apply (list_elem_of_fmap_2 fst) in Hin| |].
    + apply Hne, Hschema; [done | tauto | done].
    + assert (∀ l, n ∈ l → foldsToAny tx k l = false → False) as Hno.
      { intros l Hl H. apply not_true_iff_false in H. apply H, existsb_exists. exists n.
        split; [by apply list_elem_of_In | done]. }
      destruct Hn as [Hn | [[?|Hpn] Hn]]; [by eapply Hno | congruence | eapply Hno; eauto].
  - intros Hfix k Hk. destruct (Hkept k Hk) as [?|[? _]]; [done | congruence].
  - intros k v Hk Hty Hf. pose proof (find_first_None _ _ Et k Hk) as H. simpl in H. apply negb_false_iff in H.
    unfold subject_typed in H. rewrite Hf, Hty in H. destruct v as [[]| |]; eauto; done.
Qed.

(** ** A concrete call *)

Definition write_schema : ToolSchema := MkSchema "write" true ["path"; "content"] true (λ _, "string").
Definition write_args : RawMessage := MkRaw false
  [OpenObj; Leaf (LStr "path"); Leaf (LStr "a.go"); Leaf (LStr "content"); Leaf (LStr "x"); Leaf (LStr "note"); Leaf LNull; CloseObj] None.
Definition written_args : object := [("path", JStr "a.go"); ("content", JStr "x")].

Lemma CanonicalArgs_one_reading_witness :
  CanonicalArgs case_text write_schema write_args = Some (Ok (written_args, ["note"])) ∧
  Lookup case_text written_args "path" = Some (JStr "a.go").
Proof.
  assert (CanonicalArgs case_text write_schema write_args = Some (Ok (written_args, ["note"]))) as H
    by (vm_compute; reflexivity).
  split; [exact H|].
  destruct (CanonicalArgs_one_reading case_text write_schema write_args written_args ["note"]) as [Hone _]; [|exact H|].
  - intros p n Hp Hn. apply list_elem_of_In in Hp. simpl in Hp.
    assert (In n ["path"; "content"] ∨ In n SubjectKeys) as [Hn'|Hn'] by (destruct Hn; [left | right]; by apply list_elem_of_In);
      simpl in Hn'; intuition subst; done.
  - rewrite (Hone "path"); [reflexivity|]. left. by left.
Defined.
