(* ===== verification/GoJson.v ===== *)
(** Package encoding/json as the redactor uses it: the string literals of a
    document, their text, and whether a document is valid. *)

From Stdlib Require Import ZArith NArith Ascii String Lia.
From stdpp Require Import base tactics list option strings.
From S2P Require Import Prelude.
From S2P Require Import GoStd.
From S2P Require Import GoNet.
From S2P Require Import GoPath.
From S2P Require Import ShellSplit.
From S2P Require Import Args.

#[local] Open Scope string_scope.
#[local] Open Scope nat_scope.

(** ** The text of a literal *)

Definition hex_value (c : ascii) : option N :=
  if in_range "0" "9" c then Some (bv c - 48)%N
  else if in_range "a" "f" c then Some (bv c - 87)%N
  else if in_range "A" "F" c then Some (bv c - 55)%N
  else None.
Definition hex4_value (a b c d : ascii) : option N :=
  match hex_value a, hex_value b, hex_value c, hex_value d with
  | Some a, Some b, Some c, Some d => Some (a * 4096 + b * 256 + c * 16 + d)%N
  | _, _, _, _ => None
  end.

(** [utf16.IsSurrogate], and [utf16.DecodeRune] of two that make a rune. *)
Definition is_surrogate (r : N) : bool := ((55296 <=? r) && (r <? 57344))%N.
Definition surrogate_pair (r r2 : N) : option N :=
  if ((55296 <=? r) && (r <? 56320) && (56320 <=? r2) && (r2 <? 57344))%N
  then Some ((r - 55296) * 1024 + (r2 - 56320) + 65536)%N else None.

(** The byte an escape of one letter stands for. *)
Definition escaped_letter (c : ascii) : option ascii :=
  if (c =c dquote) || (c =c "\") || (c =c "/") then Some c
  else if c =c "b" then Some "008"%char
  else if c =c "f" then Some "012"%char
  else if c =c "n" then Some "010"%char
  else if c =c "r" then Some "013"%char
  else if c =c "t" then Some "009"%char
  else None.

(** What a literal's text between its quotes reads as; [None] is a literal that
    is not valid. [copy] bytes belong to the rune before. *)
Fixpoint unquote (copy : nat) (s : string) : option string :=
  match s with
  | EmptyString => Some ""
  | String c s1 =>
      match copy with
      | S k => String c <$> unquote k s1
      | 0 =>
          if c =c "\" then
            match s1 with
            | EmptyString => None
            | String e s2 =>
                if e =c "u" then
                  match s2 with
                  | String h1 (String h2 (String h3 (String h4 s3))) =>
                      r ← hex4_value h1 h2 h3 h4;
                      if negb (is_surrogate r) then append (encode_rune r) <$> unquote 0 s3
                      else
                        match s3 with
                        | String b (String u (String g1 (String g2 (String g3 (String g4 s4))))) =>
                            match (if (b =c "\") && (u =c "u") then hex4_value g1 g2 g3 g4 else None) ≫= surrogate_pair r with
                            | Some x => append (encode_rune x) <$> unquote 0 s4
                            | None => append (encode_rune RuneError) <$> unquote 0 s3
                            end
                        | _ => append (encode_rune RuneError) <$> unquote 0 s3
                        end
                  | _ => None
                  end
                else match escaped_letter e with Some x => String x <$> unquote 0 s2 | None => None end
            end
          else if (c =c dquote) || (bv c <? 32)%N then None
          else match decode_rune s with
               | Some (_, w) => String c <$> unquote (pred w) s1
               | None => append (encode_rune RuneError) <$> unquote 0 s1
               end
      end
  end.

(** After an opening quote: up to the closing one, and what follows it. *)
Fixpoint literal (s : string) : option (string * string) :=
  match s with
  | EmptyString => None
  | String c s1 =>
      if c =c dquote then Some ("", s1)
      else if c =c "\" then
        match s1 with
        | EmptyString => None
        | String d s2 => '(body, rest) ← literal s2; Some (String c (String d body), rest)
        end
      else '(body, rest) ← literal s1; Some (String c body, rest)
  end.

(** ** Valid documents *)

Definition json_space (c : ascii) : bool := (c =c " ") || (c =c tab) || (c =c newline) || (c =c "013").
Fixpoint skip_space (s : string) : string :=
  match s with String c r => if json_space c then skip_space r else s | EmptyString => s end.

(** The digits at the front, and what follows. *)
Fixpoint after_digits (s : string) : string :=
  match s with String c r => if in_range "0" "9" c then after_digits r else s | EmptyString => s end.
Definition some_digits (s : string) : option string :=
  match s with String c r => if in_range "0" "9" c then Some (after_digits r) else None | EmptyString => None end.
Definition number (s : string) : option string :=
  let s := match s with String c r => if c =c "-" then r else s | _ => s end in
  s ← match s with
      | String c r => if c =c "0" then Some r else some_digits s
      | EmptyString => None
      end;
  s ← match s with String c r => if c =c "." then some_digits r else Some s | _ => Some s end;
  match s with
  | String c r =>
      if (c =c "e") || (c =c "E")
      then some_digits (match r with String d r' => if (d =c "+") || (d =c "-") then r' else r | _ => r end)
      else Some s
  | _ => Some s
  end.

(** A string literal, from its opening quote. *)
Definition valid_literal (s : string) : option string :=
  match s with
  | String c r => if c =c dquote then '(body, rest) ← literal r; if opt_some (unquote 0 body) then Some rest else None else None
  | EmptyString => None
  end.

(** What follows a value at the front; its elements and its members, past the
    first. Two rounds of [fuel] take at least a byte; [depth] is how far values may
    still nest. *)
Fixpoint value (fuel : nat) (depth : N) (s : string) : option string :=
  match fuel with
  | 0 => None
  | S fuel =>
      match skip_space s with
      | EmptyString => None
      | String c r =>
          if (c =c "{") || (c =c "[") then
            if (depth =? 0)%N then None
            else match skip_space r with
                 | String d r' =>
                     if c =c "{" then if d =c "}" then Some r' else members fuel (N.pred depth) r
                     else if d =c "]" then Some r' else items fuel (N.pred depth) r
                 | EmptyString => None
                 end
          else if c =c dquote then valid_literal (String c r)
          else if HasPrefix (String c r) "true" then Some (str_drop 4 (String c r))
          else if HasPrefix (String c r) "false" then Some (str_drop 5 (String c r))
          else if HasPrefix (String c r) "null" then Some (str_drop 4 (String c r))
          else number (String c r)
      end
  end
with items (fuel : nat) (depth : N) (s : string) : option string :=
  match fuel with
  | 0 => None
  | S fuel =>
      s ← value fuel depth s;
      match skip_space s with
      | String c r => if c =c "," then items fuel depth r else if c =c "]" then Some r else None
      | EmptyString => None
      end
  end
with members (fuel : nat) (depth : N) (s : string) : option string :=
  match fuel with
  | 0 => None
  | S fuel =>
      s ← valid_literal (skip_space s);
      match skip_space s with
      | String c r =>
          if c =c ":" then
            s ← value fuel depth r;
            match skip_space s with
            | String c r => if c =c "," then members fuel depth r else if c =c "}" then Some r else None
            | EmptyString => None
            end
          else None
      | EmptyString => None
      end
  end.

(** [json.Valid]; values nest 10000 deep at most. *)
Definition maxNestingDepth : N := 10000.
Definition Valid (s : string) : bool :=
  match value (S (2 * String.length s)) maxNestingDepth s with
  | Some rest => String.eqb (skip_space rest) ""
  | None => false
  end.

(** [json.Unmarshal] into a string. *)
Definition unmarshal_string (s : string) : option string :=
  match skip_space s with
  | String c r =>
      if c =c dquote then
        '(body, rest) ← literal r;
        if String.eqb (skip_space rest) "" then unquote 0 body else None
      else if HasPrefix (String c r) "null" && String.eqb (skip_space (str_drop 4 (String c r))) "" then Some ""
      else None
  | EmptyString => None
  end.

Example valid_document : Valid ("{ " ++ json_quote true "a" ++ ": [1, -2.5e+3, true, null], " ++ json_quote true "b" ++ " : {}}") = true.
Proof. vm_compute. reflexivity. Qed.

(** * Theorems

    What [encoding/json] writes of a text reads back as that text. *)

Lemma app_split (a b c d : string) : a ++ b = c ++ d → String.length c <= String.length a → ∃ e, a = c ++ e ∧ d = e ++ b.
Proof.
  revert c. induction a as [|x a IH]; intros c H Hl.
  - destruct c; [|cbn in Hl; lia]. exists "". split; [done|]. by rewrite H.
  - destruct c as [|y c]; [exists (String x a); split; [done|]; by rewrite H|]. rewrite !str_app_cons in H. injection H as -> H.
    cbn [String.length] in Hl. destruct (IH c H) as (e & -> & ->); [lia|]. by exists e.
Qed.

(** ** Runes *)

Lemma N_forall_below (p : N → bool) n : forallb p (map N.of_nat (seq 0 n)) = true → ∀ x, (x < N.of_nat n)%N → p x = true.
Proof. intros H x Hx. rewrite forallb_forall in H. apply H. apply in_map_iff. exists (N.to_nat x). split; [lia|]. apply in_seq. lia. Qed.

Lemma bv_below c : (bv c < 256)%N.
Proof. apply N_ascii_bounded. Qed.
Lemma of_bv c : ascii_of_N (bv c) = c.
Proof. apply ascii_N_embedding. Qed.

(** A rune of one byte is that byte; the bytes of a longer one are not ASCII, and
    nothing after them matters. *)
Lemma decode_rune_cases s r w : decode_rune s = Some (r, w) →
  (∃ c t, s = String c t ∧ w = 1 ∧ r = bv c ∧ (bv c < 128)%N) ∨
  (∃ c a t, s = String c (a ++ t) ∧ w = S (String.length a) ∧ a ≠ "" ∧ str_forall (λ c, (128 <=? bv c)%N) (String c a) = true ∧
     str_forall cont a = true ∧ ∀ u, decode_rune (String c (a ++ u)) = Some (r, w)).
Proof.
  destruct s as [|c s]; [done|]. cbn [decode_rune]. destruct (N.ltb_spec (bv c) 128) as [H|H]; [intros [= <- <-]; left; by exists c, s|].
  intros E. right. assert (Hc : (128 <=? bv c)%N = true) by (by apply N.leb_le).
  assert (Hcont : ∀ lo hi x, (128 <= lo)%N → cont_range lo hi x = true → (128 <=? bv x)%N = true).
  { intros lo hi x Hlo Hx. unfold cont_range in Hx. apply andb_true_iff in Hx as [Hx _]. apply N.leb_le in Hx. apply N.leb_le. lia. }
  assert (Hin : ∀ lo hi x, (128 <= lo)%N → (hi <= 191)%N → cont_range lo hi x = true → cont x = true).
  { intros lo hi x Hlo Hhi Hx. unfold cont, cont_range in *. apply andb_true_iff in Hx as [H1 H2]. apply N.leb_le in H1, H2. apply andb_true_iff. split; apply N.leb_le; lia. }
  destruct ((194 <=? bv c)%N && (bv c <=? 223)%N) eqn:E2.
  { destruct s as [|b s]; [done|]. destruct (cont b) eqn:Eb; [|done]. injection E as <- <-. exists c, (String b ""), s.
    split_and!; [done..|cbn [str_forall]; rewrite Hc, (Hcont 128%N 191%N b) by done; done|cbn [str_forall]; by rewrite Eb|]. intros u.
    rewrite !str_app_cons; change ("" +:+ u) with u; cbn [decode_rune]. rewrite (proj2 (N.ltb_ge _ _) H), E2, Eb. done. }
  destruct ((224 <=? bv c)%N && (bv c <=? 239)%N) eqn:E3.
  { destruct s as [|b [|d s]]; [done..|]. destruct (cont_range (fst (second3 (bv c))) (snd (second3 (bv c))) b && cont d) eqn:Eb; [|done].
    injection E as <- <-. exists c, (String b (String d "")), s. pose proof Eb as Eb'. apply andb_true_iff in Eb' as [Hb Hd].
    split_and!; [done..| | |].
    2: { cbn [str_forall]. rewrite Hd, (Hin (fst (second3 (bv c))) (snd (second3 (bv c))) b); [done| | |exact Hb]; unfold second3; by repeat case_match. }
    - cbn [str_forall]. rewrite Hc, (Hcont 128%N 191%N d) by done. rewrite (Hcont (fst (second3 (bv c))) (snd (second3 (bv c))) b); [done| |exact Hb]. unfold second3. by repeat case_match.
    - intros u. rewrite !str_app_cons; change ("" +:+ u) with u; cbn [decode_rune].
      rewrite (proj2 (N.ltb_ge _ _) H), E2, E3, Eb. done. }
  destruct ((240 <=? bv c)%N && (bv c <=? 244)%N) eqn:E4; [|done].
  destruct s as [|b [|d [|e s]]]; [done..|].
  destruct (cont_range (fst (second4 (bv c))) (snd (second4 (bv c))) b && cont d && cont e) eqn:Eb; [|done].
  injection E as <- <-. exists c, (String b (String d (String e ""))), s. pose proof Eb as Eb'. apply andb_true_iff in Eb' as [Eb' He].
  apply andb_true_iff in Eb' as [Hb Hd]. split_and!; [done..| | |].
  2: { cbn [str_forall]. rewrite Hd, He, (Hin (fst (second4 (bv c))) (snd (second4 (bv c))) b); [done| | |exact Hb]; unfold second4; by repeat case_match. }
  - cbn [str_forall]. rewrite Hc, (Hcont 128%N 191%N d), (Hcont 128%N 191%N e) by done.
    rewrite (Hcont (fst (second4 (bv c))) (snd (second4 (bv c))) b); [done| |exact Hb]. unfold second4. by repeat case_match.
  - intros u. rewrite !str_app_cons; change ("" +:+ u) with u; cbn [decode_rune].
    rewrite (proj2 (N.ltb_ge _ _) H), E2, E3, E4, Eb. done.
Qed.

(** The line and paragraph separators, the runes [json.Marshal] always escapes,
    are three bytes. *)
Definition below (n : nat) : list N := map N.of_nat (seq 0 n).
Lemma below_spec n x : (x < N.of_nat n)%N → x ∈ below n.
Proof. intros H. apply list_elem_of_In, in_map_iff. exists (N.to_nat x). split; [lia|]. apply in_seq. lia. Qed.
Lemma forall_below (p : N → bool) n x : forallb p (below n) = true → (x < N.of_nat n)%N → p x = true.
Proof. intros H Hx. rewrite forallb_forall in H. by apply H, list_elem_of_In, below_spec. Qed.

Definition separator (r : N) : bool := ((r =? 8232) || (r =? 8233))%N.
Definition bits2 (x y : N) : N := N.lor (N.shiftl x 6) y.
Definition bits3 (x y z : N) : N := N.lor (N.shiftl x 12) (bits2 y z).

Lemma land_below x k : (N.land x (N.ones k) < 2 ^ k)%N.
Proof. rewrite N.land_ones. by apply N.mod_lt, N.pow_nonzero. Qed.
Lemma low6_below c : (low6 c < 64)%N.
Proof. apply (land_below (bv c) 6). Qed.

Lemma two_no_separator x y : (x < 64)%N → (y < 64)%N → (bits2 x y < 4096)%N ∧ separator (bits2 x y) = false.
Proof.
  assert (H : forallb (λ x, forallb (λ y, (bits2 x y <? 4096) && negb (separator (bits2 x y)))%N (below 64)) (below 64) = true) by (vm_compute; reflexivity).
  intros Hx Hy. pose proof (forall_below _ 64 x H Hx) as Hx'. cbn beta in Hx'. pose proof (forall_below _ 64 y Hx' Hy) as Hy'. cbn beta in Hy'.
  apply andb_true_iff in Hy' as [H1 H2]. clear H Hx'. split; [by apply N.ltb_lt|by apply negb_true_iff].
Qed.
Lemma three_separator x y z : (x < 16)%N → (y < 64)%N → (z < 64)%N → separator (bits3 x y z) = true →
  x = 2%N ∧ y = 0%N ∧ z = (bits3 x y z - 8192)%N.
Proof.
  assert (H : forallb (λ x, forallb (λ y, forallb (λ z, implb (separator (bits3 x y z))
    ((x =? 2) && (y =? 0) && (z =? bits3 x y z - 8192))%N) (below 64)) (below 64)) (below 16) = true) by (vm_compute; reflexivity).
  intros Hx Hy Hz E. pose proof (forall_below _ 16 x H Hx) as H1. cbn beta in H1. pose proof (forall_below _ 64 y H1 Hy) as H2. cbn beta in H2.
  pose proof (forall_below _ 64 z H2 Hz) as H3. cbn beta in H3. rewrite E in H3. cbn [implb] in H3.
  apply andb_true_iff in H3 as [H3 H6]. apply andb_true_iff in H3 as [H4 H5]. clear H H1 H2. apply N.eqb_eq in H4, H5, H6. exact (conj H4 (conj H5 H6)).
Qed.

Lemma forall_ascii (p : ascii → bool) : forallb (λ n, p (ascii_of_N n)) (below 256) = true → ∀ c, p c = true.
Proof. intros H c. rewrite <- (of_bv c). apply (forall_below (λ n, p (ascii_of_N n)) 256); [done|apply bv_below]. Qed.

Lemma four_no_separator c b d e : ((240 <=? bv c) && (bv c <=? 244))%N = true →
  cont_range (fst (second4 (bv c))) (snd (second4 (bv c))) b = true →
  separator (N.lor (N.shiftl (N.land (bv c) 7) 18) (N.lor (N.shiftl (low6 b) 12) (bits2 (low6 d) (low6 e)))) = false.
Proof.
  intros E4 Hb. apply not_true_iff_false. intros Hr.
  set (x := N.land (bv c) 7) in *. set (lo := bits2 (low6 d) (low6 e)) in *.
  assert (Hs : N.shiftr (N.lor (N.shiftl x 18) (N.lor (N.shiftl (low6 b) 12) lo)) 12 = bits2 x (low6 b)).
  { unfold bits2. rewrite !N.shiftr_lor. rewrite (N.shiftr_div_pow2 lo), (N.div_small lo), N.lor_0_r.
    - rewrite (N.shiftr_shiftl_l x 18 12), (N.shiftr_shiftl_r (low6 b) 12 12) by lia. change (18 - 12)%N with 6%N. by rewrite N.sub_diag, N.shiftr_0_r.
    - apply two_no_separator; apply low6_below. }
  assert (H2 : bits2 x (low6 b) = 2%N).
  { rewrite <- Hs. unfold separator in Hr. apply orb_true_iff in Hr as [Hr|Hr]; apply N.eqb_eq in Hr; rewrite Hr; reflexivity. }
  assert (Hx0 : x = 0%N ∧ low6 b = 2%N).
  { assert (Hf : forallb (λ x, forallb (λ y, implb (bits2 x y =? 2)%N ((x =? 0) && (y =? 2))%N) (below 64)) (below 8) = true) by (vm_compute; reflexivity).
    pose proof (land_below (bv c) 3) as Hx. change (N.ones 3) with 7%N in Hx. fold x in Hx.
    pose proof (forall_below _ 8 x Hf Hx) as H3. cbn beta in H3. pose proof (forall_below _ 64 _ H3 (low6_below b)) as H5. cbn beta in H5.
    rewrite H2 in H5. cbn [N.eqb Pos.eqb implb] in H5. apply andb_true_iff in H5 as [H5 H6]. apply N.eqb_eq in H5, H6. done. }
  destruct Hx0 as [Hx0 Hb2].
  assert (Hp : implb ((240 <=? bv c)%N && (bv c <=? 244)%N && (N.land (bv c) 7 =? 0)%N) (bv c =? 240)%N = true).
  { apply (forall_ascii (λ c, implb ((240 <=? bv c)%N && (bv c <=? 244)%N && (N.land (bv c) 7 =? 0)%N) (bv c =? 240)%N)). vm_compute. reflexivity. }
  rewrite E4 in Hp. fold x in Hp. rewrite Hx0 in Hp. cbn in Hp. apply N.eqb_eq in Hp. rewrite Hp in Hb.
  change (cont_range 144 191 b = true) in Hb.
  assert (Hq : implb (cont_range 144 191 b) (negb (low6 b =? 2)%N) = true).
  { apply (forall_ascii (λ b, implb (cont_range 144 191 b) (negb (low6 b =? 2)%N))). vm_compute. reflexivity. }
  rewrite Hb, Hb2 in Hq. done.
Qed.

Lemma separator_bytes s r w : decode_rune s = Some (r, w) → separator r = true →
  ∃ d t, s = String "226" (String "128" (String d t)) ∧ w = 3 ∧ (d = "168"%char ∧ r = 8232%N ∨ d = "169"%char ∧ r = 8233%N).
Proof.
  destruct s as [|c s]; [done|]. cbn [decode_rune]. intros E Hr.
  destruct (N.ltb_spec (bv c) 128) as [H|H].
  { injection E as <- <-. unfold separator in Hr. apply orb_true_iff in Hr as [Hr|Hr]; apply N.eqb_eq in Hr; lia. }
  destruct ((194 <=? bv c)%N && (bv c <=? 223)%N) eqn:E2.
  { destruct s as [|b s]; [done|]. destruct (cont b); [|done]. injection E as <- <-.
    destruct (two_no_separator (N.land (bv c) 31) (low6 b)) as [_ Hn]; [|apply low6_below|unfold bits2 in Hn; congruence].
    pose proof (land_below (bv c) 5). change (N.ones 5) with 31%N in *. lia. }
  destruct ((224 <=? bv c)%N && (bv c <=? 239)%N) eqn:E3.
  { destruct s as [|b [|d s]]; [done..|]. destruct (cont_range (fst (second3 (bv c))) (snd (second3 (bv c))) b && cont d) eqn:Eb; [|done].
    injection E as <- <-. apply andb_true_iff in Eb as [Hb Hd]. pose proof (land_below (bv c) 4) as H4. change (N.ones 4) with 15%N in H4.
    change (separator (bits3 (N.land (bv c) 15) (low6 b) (low6 d)) = true) in Hr.
    destruct (three_separator _ _ _ H4 (low6_below b) (low6_below d) Hr) as (Hx & Hy & Hz).
    assert (Ec : c = "226"%char).
    { clear -E3 Hx. assert (Hp : implb ((224 <=? bv c)%N && (bv c <=? 239)%N && (N.land (bv c) 15 =? 2)%N) (c =c "226") = true).
      { revert c E3 Hx. intros c _ _. apply (forall_ascii (λ c, implb ((224 <=? bv c)%N && (bv c <=? 239)%N && (N.land (bv c) 15 =? 2)%N) (c =c "226"))). vm_compute. reflexivity. }
      rewrite E3, Hx in Hp. cbn in Hp. by apply Ascii.eqb_eq in Hp. }
    subst c. change (fst (second3 (bv "226"))) with 128%N in Hb. change (snd (second3 (bv "226"))) with 191%N in Hb.
    assert (Hcont : ∀ x, cont x = true → (low6 x =? 0)%N = true ∨ (low6 x =? 40)%N = true ∨ (low6 x =? 41)%N = true →
      x = "128"%char ∨ x = "168"%char ∨ x = "169"%char).
    { clear. intros x Hx Hl. assert (Hp : implb (cont x && ((low6 x =? 0)%N || (low6 x =? 40)%N || (low6 x =? 41)%N)) ((x =c "128") || (x =c "168") || (x =c "169")) = true).
      { revert x Hx Hl. intros x _ _. apply (forall_ascii (λ x, implb (cont x && ((low6 x =? 0)%N || (low6 x =? 40)%N || (low6 x =? 41)%N)) ((x =c "128") || (x =c "168") || (x =c "169")))).
        vm_compute. reflexivity. }
      rewrite Hx in Hp. assert (Ho : (low6 x =? 0)%N || (low6 x =? 40)%N || (low6 x =? 41)%N = true) by (destruct Hl as [->|[->| ->]]; by rewrite ?orb_true_r).
      rewrite Ho in Hp. cbn [andb implb] in Hp. apply orb_true_iff in Hp as [Hp|Hp]; [apply orb_true_iff in Hp as [Hp|Hp]|]; apply Ascii.eqb_eq in Hp; auto. }
    assert (Eb : b = "128"%char).
    { destruct (Hcont b Hb) as [->|[->| ->]]; [by left; rewrite Hy|done| |]; vm_compute in Hy; done. }
    subst b. exists d, s. split_and!; [done..|]. change (N.land (bv "226") 15) with 2%N in *. change (low6 "128") with 0%N in *.
    unfold separator in Hr. apply orb_true_iff in Hr as [Hr|Hr]; apply N.eqb_eq in Hr; rewrite Hr in Hz.
    - left. split; [|exact Hr]. destruct (Hcont d Hd) as [->|[->| ->]]; [right; left; by rewrite Hz| | |]; vm_compute in Hz; done.
    - right. split; [|exact Hr]. destruct (Hcont d Hd) as [->|[->| ->]]; [right; right; by rewrite Hz| | |]; vm_compute in Hz; done. }
  destruct ((240 <=? bv c)%N && (bv c <=? 244)%N) eqn:E4; [|done].
  destruct s as [|b [|d [|e s]]]; [done..|].
  destruct (cont_range (fst (second4 (bv c))) (snd (second4 (bv c))) b && cont d && cont e) eqn:Eb; [|done].
  injection E as <- <-. apply andb_true_iff in Eb as [Eb _]. apply andb_true_iff in Eb as [Hb _].
  pose proof (four_no_separator c b d e E4 Hb) as Hn. unfold bits2 in Hn. congruence.
Qed.

(** ** A text, rune by rune *)

Lemma copy_body html k s : json_string_body html k s = str_take k s ++ json_string_body html 0 (str_drop k s).
Proof. revert s. induction k as [|k IH]; intros [|c s]; try done. cbn [json_string_body str_take str_drop]. by rewrite str_app_cons, <- IH. Qed.
Lemma copy_unquote k s : unquote k s = append (str_take k s) <$> unquote 0 (str_drop k s).
Proof.
  revert s. induction k as [|k IH]; intros [|c s].
  - done.
  - cbn [str_take str_drop]. by destruct (unquote 0 (String c s)).
  - done.
  - cbn [unquote str_take str_drop]. rewrite IH. by destruct (unquote 0 (str_drop k s)).
Qed.
Lemma copy_invalid k s : invalid_from k s = invalid_from 0 (str_drop k s).
Proof. revert s. induction k as [|k IH]; intros [|c s]; try done. cbn [invalid_from str_drop]. apply IH. Qed.

Lemma take_front n s t : String.length s = n → str_take n (s ++ t) = s.
Proof. intros <-. induction s as [|c s IH]; [by destruct t|]. rewrite str_app_cons. cbn [String.length str_take]. by rewrite IH. Qed.
Lemma drop_front n s t : String.length s = n → str_drop n (s ++ t) = t.
Proof. intros <-. induction s as [|c s IH]; [by destruct t|]. rewrite str_app_cons. cbn [String.length str_drop]. done. Qed.

Lemma json_byte_app html c r rest : json_byte html c r rest = json_byte html c r "" ++ rest.
Proof. unfold json_byte. repeat case_match; rewrite ?str_app_assoc, ?str_app_cons; try done. Qed.

(** A piece of the encoding reads as a piece of the text, whatever follows. *)
Definition reads_as (seg a : string) : Prop :=
  (∀ X, unquote 0 (seg ++ X) = append a <$> unquote 0 X) ∧
  (∀ X, literal (seg ++ X) = (λ p, (seg ++ fst p, snd p)) <$> literal X).

(** What a byte of ASCII is written as. *)
Inductive ascii_form (c : ascii) : string → Prop :=
  | form_letter e : escaped_letter e = Some c → (e =c "u") = false → ascii_form c (String "\" (String e ""))
  | form_hex h1 h2 h3 h4 : hex4_value h1 h2 h3 h4 = Some (bv c) → is_surrogate (bv c) = false → encode_rune (bv c) = String c "" →
      str_forall (λ h, negb (h =c dquote) && negb (h =c "\")) (of_bytes [h1; h2; h3; h4]) = true →
      ascii_form c (String "\" (String "u" (of_bytes [h1; h2; h3; h4])))
  | form_plain : (c =c "\") = false → (c =c dquote) = false → (bv c <? 32)%N = false → ascii_form c (String c "").

Lemma is_byte c k : (bv c =? N_of_ascii k)%N = true → c = k.
Proof. intros H%N.eqb_eq. by rewrite <- (of_bv c), H, ascii_N_embedding. Qed.

Lemma hex_of c : (bv c <? 128)%N = true →
  hex4_value (hex_digit (N.shiftr (bv c) 12)) (hex_digit (N.land (N.shiftr (bv c) 8) 15)) (hex_digit (N.land (N.shiftr (bv c) 4) 15)) (hex_digit (N.land (bv c) 15))
    = Some (bv c) ∧ is_surrogate (bv c) = false ∧ encode_rune (bv c) = String c "" ∧
  str_forall (λ h, negb (h =c dquote) && negb (h =c "\")) (hex4 (bv c)) = true.
Proof.
  intros H. set (p c := implb (bv c <? 128)%N
    (bool_decide (hex4_value (hex_digit (N.shiftr (bv c) 12)) (hex_digit (N.land (N.shiftr (bv c) 8) 15)) (hex_digit (N.land (N.shiftr (bv c) 4) 15)) (hex_digit (N.land (bv c) 15)) = Some (bv c)) &&
     negb (is_surrogate (bv c)) && String.eqb (encode_rune (bv c)) (String c "") && str_forall (λ h, negb (h =c dquote) && negb (h =c "\")) (hex4 (bv c)))).
  assert (Hp : p c = true) by (apply forall_ascii; vm_compute; reflexivity). unfold p in Hp. rewrite H in Hp. cbn [implb] in Hp.
  bool_to_prop. apply String.eqb_eq in H2. done.
Qed.

Lemma ascii_forms html c : (bv c <? 128)%N = true → ascii_form c (json_byte html c (bv c) "").
Proof.
  intros H. unfold json_byte. destruct (_ || _) eqn:E1.
  { apply orb_true_iff in E1 as [E1|E1]; [apply (is_byte c dquote) in E1 as ->|apply (is_byte c "\") in E1 as ->]; by apply form_letter. }
  apply orb_false_iff in E1 as [Eq Eb].
  destruct (bv c =? 8)%N eqn:E2; [apply (is_byte c "008") in E2 as ->; by apply (form_letter _ "b")|].
  destruct (bv c =? 12)%N eqn:E3; [apply (is_byte c "012") in E3 as ->; by apply (form_letter _ "f")|].
  destruct (bv c =? 10)%N eqn:E4; [apply (is_byte c "010") in E4 as ->; by apply (form_letter _ "n")|].
  destruct (bv c =? 13)%N eqn:E5; [apply (is_byte c "013") in E5 as ->; by apply (form_letter _ "r")|].
  destruct (bv c =? 9)%N eqn:E6; [apply (is_byte c "009") in E6 as ->; by apply (form_letter _ "t")|].
  destruct (_ || _) eqn:E7.
  - rewrite str_app_nil_r. change ("\u" ++ hex4 (bv c)) with (String "\" (String "u" (hex4 (bv c)))).
    apply hex_of in H as (H1 & H2 & H3 & H4). by apply form_hex.
  - apply orb_false_iff in E7 as [E7 _]. apply form_plain; [..|done]; apply not_true_iff_false; intros E; apply Ascii.eqb_eq in E as ->; done.
Qed.

Lemma form_reads c seg : (bv c <? 128)%N = true → ascii_form c seg → reads_as seg (String c "").
Proof.
  intros Hc [e He Hu|h1 h2 h3 h4 Hh Hs Hr Hq|Hb Hq H32]; split; intros X.
  - rewrite !str_app_cons. change ("" ++ X) with X. cbn [unquote Ascii.eqb Bool.eqb]. by rewrite Hu, He.
  - rewrite !str_app_cons. change ("" ++ X) with X. cbn [literal Ascii.eqb Bool.eqb]. by destruct (literal X) as [[]|].
  - cbn [of_bytes fold_right]. rewrite !str_app_cons. change ("" ++ X) with X. cbn [unquote Ascii.eqb Bool.eqb]. rewrite Hh. cbn [mbind option_bind].
    by rewrite Hs, Hr.
  - cbn [of_bytes fold_right] in *. cbn [str_forall] in Hq. bool_to_prop. rewrite !str_app_cons. change ("" ++ X) with X.
    cbn [literal Ascii.eqb Bool.eqb]. repeat match goal with H : (_ =c _) = false |- _ => rewrite H; clear H end. by destruct (literal X) as [[]|].
  - rewrite !str_app_cons. change ("" ++ X) with X. cbn [unquote]. rewrite Hb, Hq, H32. cbn [orb decode_rune]. by rewrite Hc.
  - rewrite !str_app_cons. change ("" ++ X) with X. cbn [literal]. rewrite Hb, Hq. by destruct (literal X) as [[]|].
Qed.

(** A rune of more than one byte is not ASCII. *)
Lemma lor_ge_l x y : (x <= N.lor x y)%N.
Proof. apply N.ldiff_le, N.bits_inj. intros n. rewrite N.ldiff_spec, N.lor_spec, N.bits_0. by destruct (N.testbit x n). Qed.
Lemma lor_ge_r x y : (y <= N.lor x y)%N.
Proof. rewrite N.lor_comm. apply lor_ge_l. Qed.

Lemma shiftl_ge k b x : (b <=? x)%N = true → (N.shiftl b k <= N.shiftl x k)%N.
Proof. intros H%N.leb_le. rewrite !N.shiftl_mul_pow2. by apply N.mul_le_mono_r. Qed.

Definition lead_bits (c b : ascii) : bool :=
  implb ((194 <=? bv c) && (bv c <=? 223))%N (2 <=? N.land (bv c) 31)%N &&
  implb ((224 <=? bv c) && (bv c <=? 239) && cont_range (fst (second3 (bv c))) (snd (second3 (bv c))) b)%N
    ((1 <=? N.land (bv c) 15) || (32 <=? low6 b))%N &&
  implb ((240 <=? bv c) && (bv c <=? 244) && cont_range (fst (second4 (bv c))) (snd (second4 (bv c))) b)%N
    ((1 <=? N.land (bv c) 7) || (16 <=? low6 b))%N.
Lemma lead_bits_true c b : lead_bits c b = true.
Proof.
  assert (H : ∀ c, forallb (λ n, lead_bits c (ascii_of_N n)) (below 256) = true) by (apply forall_ascii; vm_compute; reflexivity).
  apply forall_ascii, H.
Qed.

Lemma wide_rune s r w : decode_rune s = Some (r, w) → w ≠ 1 → (128 <= r)%N.
Proof.
  destruct s as [|c s]; [done|]. cbn [decode_rune]. intros E Hw. destruct (N.ltb_spec (bv c) 128) as [H|H]; [by injection E as _ <-|].
  destruct ((194 <=? bv c)%N && (bv c <=? 223)%N) eqn:E2.
  { destruct s as [|b s]; [done|]. destruct (cont b); [|done]. injection E as <- <-.
    pose proof (lead_bits_true c b) as Hl. unfold lead_bits in Hl. rewrite E2 in Hl. cbn [implb] in Hl. bool_to_prop.
    etrans; [|apply lor_ge_l]. by apply (shiftl_ge 6 2). }
  destruct ((224 <=? bv c)%N && (bv c <=? 239)%N) eqn:E3.
  { destruct s as [|b [|d s]]; [done..|]. destruct (cont_range (fst (second3 (bv c))) (snd (second3 (bv c))) b && cont d) eqn:Eb; [|done].
    injection E as <- <-. apply andb_true_iff in Eb as [Eb _]. pose proof (lead_bits_true c b) as Hl. unfold lead_bits in Hl.
    rewrite E3, Eb in Hl. apply andb_true_iff in Hl as [Hl _]. apply andb_true_iff in Hl as [_ Hl]. cbn [andb implb] in Hl.
    apply orb_true_iff in Hl as [Hl|Hl].
    - etrans; [|apply lor_ge_l]. etrans; [|by apply (shiftl_ge 12 1)]. done.
    - etrans; [|apply lor_ge_r]. etrans; [|apply lor_ge_l]. etrans; [|by apply (shiftl_ge 6 32)]. done. }
  destruct ((240 <=? bv c)%N && (bv c <=? 244)%N) eqn:E4; [|done].
  destruct s as [|b [|d [|e s]]]; [done..|].
  destruct (cont_range (fst (second4 (bv c))) (snd (second4 (bv c))) b && cont d && cont e) eqn:Eb; [|done].
  injection E as <- <-. apply andb_true_iff in Eb as [Eb _]. apply andb_true_iff in Eb as [Eb _]. pose proof (lead_bits_true c b) as Hl. unfold lead_bits in Hl.
  rewrite E4, Eb in Hl. apply andb_true_iff in Hl as [_ Hl]. cbn [andb implb] in Hl. apply orb_true_iff in Hl as [Hl|Hl].
  - etrans; [|apply lor_ge_l]. etrans; [|by apply (shiftl_ge 18 1)]. done.
  - etrans; [|apply lor_ge_r]. etrans; [|apply lor_ge_l]. etrans; [|by apply (shiftl_ge 12 16)]. done.
Qed.

(** Bytes past ASCII are copied. *)
Lemma not_ascii c k : (128 <=? bv c)%N = true → (bv k <? 128)%N = true → (c =c k) = false.
Proof. intros Hc Hk. apply not_true_iff_false. intros E. apply Ascii.eqb_eq in E as ->. apply N.leb_le in Hc. apply N.ltb_lt in Hk. lia. Qed.

Lemma literal_copy a X : str_forall (λ c, (128 <=? bv c)%N) a = true → literal (a ++ X) = (λ p, (a ++ fst p, snd p)) <$> literal X.
Proof.
  induction a as [|c a IH]; [change ("" ++ X) with X; by destruct (literal X) as [[]|]|]. cbn [str_forall]. intros [Hc Ha]%andb_true_iff.
  rewrite str_app_cons. cbn [literal]. rewrite (IH Ha), !(not_ascii c) by done. by destruct (literal X) as [[]|].
Qed.

Lemma rune_reads c a r w : str_forall (λ c, (128 <=? bv c)%N) (String c a) = true → w = S (String.length a) →
  (∀ u, decode_rune (String c (a ++ u)) = Some (r, w)) → reads_as (String c a) (String c a).
Proof.
  intros Ha -> Hd. split; intros X; [|by apply literal_copy]. rewrite str_app_cons. pose proof Ha as Hc. cbn [str_forall] in Hc. apply andb_true_iff in Hc as [Hc _].
  cbn [unquote]. rewrite !(not_ascii c) by done. assert (H32 : (bv c <? 32)%N = false) by (apply N.leb_le in Hc; apply N.ltb_ge; lia). rewrite H32. cbn [orb].
  rewrite Hd. cbn [pred]. rewrite copy_unquote, (take_front _ a X), (drop_front _ a X) by done. by destruct (unquote 0 X).
Qed.

Lemma separator_reads d : d = "168"%char ∨ d = "169"%char →
  reads_as ("\u" ++ hex4 (if d =c "168" then 8232 else 8233)) (String "226" (String "128" (String d ""))).
Proof.
  assert (H : ∀ x r a, hex4_value "2" "0" "2" x = Some r → is_surrogate r = false → encode_rune r = a → (x =c dquote) = false → (x =c "\") = false →
    reads_as (String "\" (String "u" (String "2" (String "0" (String "2" (String x "")))))) a).
  { intros x r a Hx Hs <- Hq Hb. split; intros X; rewrite !str_app_cons; change ("" ++ X) with X.
    - cbn [unquote Ascii.eqb Bool.eqb]. rewrite Hx. cbn [mbind option_bind]. by rewrite Hs.
    - assert (Hl : ∀ c Y, (c =c dquote) = false → (c =c "\") = false → literal (String c Y) = (λ p, (String c (fst p), snd p)) <$> literal Y).
      { intros c Y E1 E2. cbn [literal]. rewrite E1, E2. by destruct (literal Y) as [[]|]. }
      assert (Hu : ∀ Y, literal (String "\" (String "u" Y)) = (λ p, (String "\" (String "u" (fst p)), snd p)) <$> literal Y).
      { intros Y. cbn [literal Ascii.eqb Bool.eqb]. by destruct (literal Y) as [[]|]. }
      rewrite Hu, !Hl by done. by destruct (literal X) as [[]|]. }
  by intros [->| ->]; [apply (H "8"%char 8232%N)|apply (H "9"%char 8233%N)].
Qed.

Lemma wide_byte html c r rest : (128 <= r)%N → (128 <=? bv c)%N = true → json_byte html c r rest = String c rest.
Proof.
  intros Hr Hc. unfold json_byte. assert (Hne : ∀ k, (k <? 128)%N = true → (r =? k)%N = false) by (intros k Hk; apply N.ltb_lt in Hk; apply N.eqb_neq; lia).
  rewrite !Hne by done. assert (H32 : (r <? 32)%N = false) by (apply N.ltb_ge; lia). rewrite H32. cbn [orb].
  assert (Hb : byte_in "<>&" c = false).
  { apply bool_decide_eq_false. intros Hin. cbn in Hin. rewrite !elem_of_cons, elem_of_nil in Hin. destruct Hin as [->|[->|[->|[]]]]; done. }
  by rewrite Hb, andb_false_r.
Qed.

(** The first rune of a text, and what it is written as. *)
Lemma quote_segment html s : s ≠ "" → invalid_from 0 s = None →
  ∃ a seg t, s = a ++ t ∧ invalid_from 0 t = None ∧ a ≠ "" ∧ json_string_body html 0 s = seg ++ json_string_body html 0 t ∧ reads_as seg a.
Proof.
  intros Hs Hv. destruct s as [|c0 s0]; [done|]. cbn [invalid_from] in Hv. destruct (decode_rune (String c0 s0)) as [[r w]|] eqn:E; [|done].
  rewrite copy_invalid in Hv. cbn [json_string_body]. rewrite E.
  destruct (decode_rune_cases _ _ _ E) as [(c & t & [= -> ->] & -> & -> & Hc)|(c & a & t & [= -> ->] & -> & Hne & Ha & _ & Hd)].
  - exists (String c ""), (json_byte html c (bv c) ""), t. cbn [pred str_drop] in *. split_and!; [done..| |].
    + assert (Hsep : ((bv c =? 8232) || (bv c =? 8233))%N = false) by (apply orb_false_iff; split; apply N.eqb_neq; lia).
      rewrite Hsep. rewrite <- json_byte_app. by destruct t as [|? []].
    + apply N.ltb_lt in Hc. by apply form_reads, ascii_forms.
  - cbn [pred] in *. rewrite (drop_front _ a t eq_refl) in Hv.
    destruct (separator r) eqn:Hr.
    + destruct (separator_bytes _ _ _ E Hr) as (d & t' & Es & Hw & Hdr). injection Es as -> Es. injection Hw as Hw.
      destruct a as [|a1 [|a2 [|? ?]]]; try done. rewrite !str_app_cons in Es. injection Es as -> -> Et. change ("" ++ t) with t in Et. subst t'.
      exists (String "226" (String "128" (String d ""))), ("\u" ++ hex4 (if d =c "168" then 8232 else 8233)), t. split_and!; [done..| |].
      * rewrite !str_app_cons. change ("" ++ t) with t. unfold separator in Hr. rewrite Hr. rewrite !str_app_assoc.
        by destruct Hdr as [[-> ->]|[-> ->]].
      * apply separator_reads. destruct Hdr as [[-> _]|[-> _]]; auto.
    + exists (String c a), (String c a), t. split_and!; [done..| |by eapply rune_reads].
      assert (Hw : (128 <= r)%N) by (eapply wide_rune; [exact E|destruct a; [done|cbn; lia]]).
      pose proof Ha as Hc. cbn [str_forall] in Hc. apply andb_true_iff in Hc as [Hc _].
      rewrite copy_body, (take_front _ a t), (drop_front _ a t), wide_byte by done. unfold separator in Hr. rewrite Hr. by destruct (a ++ t) as [|? []].
Qed.

(** The first rune of a valid text: its bytes, and what may follow them. *)
Lemma rune_split s : s ≠ "" → invalid_from 0 s = None →
  ∃ c a t, s = String c (a ++ t) ∧ cont c = false ∧ str_forall cont a = true ∧ ∀ u, invalid_from 0 (String c (a ++ u)) = invalid_from 0 u.
Proof.
  intros Hs Hv. destruct s as [|c0 s0]; [done|]. cbn [invalid_from] in Hv. destruct (decode_rune (String c0 s0)) as [[r w]|] eqn:E; [|done].
  assert (Hc0 : cont c0 = false).
  { apply not_true_iff_false. intros Hc. unfold cont, cont_range in Hc. apply andb_true_iff in Hc as [H1 H2]. apply N.leb_le in H1, H2.
    cbn [decode_rune] in E. rewrite (proj2 (N.ltb_ge _ _) H1), !(proj2 (N.leb_gt _ (bv c0))) in E by lia. done. }
  destruct (decode_rune_cases _ _ _ E) as [(c & t & [= -> ->] & -> & -> & Hc)|(c & a & t & [= -> ->] & -> & Hne & _ & Ha & Hd)].
  - exists c, "", t. split_and!; [done..|]. intros u. change ("" ++ u) with u. cbn [invalid_from decode_rune]. by rewrite (proj2 (N.ltb_lt _ _) Hc).
  - exists c, a, t. split_and!; [done..|]. intros u. cbn [invalid_from]. rewrite Hd. cbn [pred]. by rewrite copy_invalid, (drop_front _ a u).
Qed.

Lemma valid_app a b : invalid_from 0 a = None → invalid_from 0 (a ++ b) = invalid_from 0 b.
Proof.
  remember (String.length a) as n eqn:Hn. revert a Hn. induction n as [n IH] using lt_wf_ind. intros a -> Ha.
  destruct (decide (a = "")) as [->|Hne]; [done|]. destruct (rune_split a Hne Ha) as (c & x & t & -> & _ & _ & Hu).
  rewrite Hu in Ha. rewrite str_app_cons, str_app_assoc, Hu. eapply IH; [|done|done]. cbn. rewrite str_length_app. lia.
Qed.

Lemma str_at_drop raw cut c t : str_drop cut raw = String c t → str_at raw cut = Some c.
Proof. unfold str_at. revert raw. induction cut as [|cut IH]; intros [|d raw]; cbn [str_drop String.get]; try done; [by intros [= -> ->]|apply IH]. Qed.

(** A valid text cut before a byte that starts a rune. *)
Lemma valid_cut a b : invalid_from 0 (a ++ b) = None → (∀ c t, b = String c t → cont c = false) → invalid_from 0 a = None ∧ invalid_from 0 b = None.
Proof.
  remember (String.length a) as n eqn:Hn. revert a Hn. induction n as [n IH] using lt_wf_ind. intros a -> Hv Hb.
  destruct a as [|c0 a0]; [done|]. destruct (rune_split (String c0 a0 ++ b) ltac:(done) Hv) as (c & x & t & E & _ & Hx & Hu).
  rewrite str_app_cons in E. injection E as -> E. destruct (decide (String.length x <= String.length a0)) as [Hl|Hl].
  - destruct (app_split a0 b x t E Hl) as (e & -> & ->). rewrite str_app_cons, str_app_assoc, Hu in Hv. rewrite Hu.
    eapply (IH (String.length e)); [cbn; rewrite str_length_app; lia|done..].
  - destruct (app_split x t a0 b (eq_sym E) ltac:(lia)) as (e & -> & Ee). destruct e as [|y e]; [rewrite str_app_nil_r in Hl; lia|].
    exfalso. rewrite str_forall_app in Hx. cbn [str_forall] in Hx. bool_to_prop. specialize (Hb y (e ++ t)). rewrite Ee, str_app_cons in Hb. by rewrite Hb in *.
Qed.

Lemma append_length a t : a ≠ "" → String.length t < String.length (a ++ t).
Proof. intros H. rewrite str_length_app. destruct a; [done|cbn; lia]. Qed.

Lemma reads_nil : reads_as "" "".
Proof. split; intros X; change ("" ++ X) with X; [by destruct (unquote 0 X)|by destruct (literal X) as [[]|]]. Qed.

(** What [json.Marshal] writes of a text is one literal, and reads as the text. *)
Lemma quote_reads html s : invalid_from 0 s = None → reads_as (json_string_body html 0 s) s.
Proof.
  remember (String.length s) as n eqn:Hn. revert s Hn. induction n as [n IH] using lt_wf_ind. intros s -> Hv.
  destruct (decide (s = "")) as [->|Hs]; [apply reads_nil|].
  destruct (quote_segment html s Hs Hv) as (a & seg & t & -> & Hvt & Ha & -> & Hu & Hl).
  destruct (IH (String.length t) (append_length _ _ Ha) t eq_refl Hvt) as [IHu IHl]. split; intros X; rewrite str_app_assoc.
  - rewrite Hu, IHu. destruct (unquote 0 X); [|done]. cbn. by rewrite str_app_assoc.
  - rewrite Hl, IHl. destruct (literal X) as [[]|]; [|done]. cbn. by rewrite str_app_assoc.
Qed.

Lemma unquote_quote html s : invalid_from 0 s = None → unquote 0 (json_string_body html 0 s) = Some s.
Proof. intros H. destruct (quote_reads html s H) as [Hu _]. specialize (Hu ""). rewrite str_app_nil_r in Hu. rewrite Hu. cbn. by rewrite str_app_nil_r. Qed.
Lemma literal_quote html s X : invalid_from 0 s = None → literal (json_string_body html 0 s ++ String dquote X) = Some (json_string_body html 0 s, X).
Proof. intros H. destruct (quote_reads html s H) as [_ Hl]. rewrite Hl. cbn. by rewrite str_app_nil_r. Qed.

Lemma quote_cons html s X : json_quote html s ++ X = String dquote (json_string_body html 0 s ++ String dquote X).
Proof. unfold json_quote. by rewrite str_app_cons, str_app_assoc. Qed.
Lemma quote_eq html s : json_quote html s = String dquote (json_string_body html 0 s ++ String dquote "").
Proof. done. Qed.

Lemma Valid_quote html s : invalid_from 0 s = None → Valid (json_quote html s) = true.
Proof.
  intros H. unfold Valid. cbn [value]. rewrite quote_eq. cbn [skip_space json_space orb Ascii.eqb Bool.eqb dquote tab newline].
  unfold valid_literal. cbn [Ascii.eqb Bool.eqb dquote]. rewrite (literal_quote _ _ "" H). cbn [mbind option_bind]. by rewrite (unquote_quote _ _ H).
Qed.
Lemma unmarshal_quote html s : invalid_from 0 s = None → unmarshal_string (json_quote html s) = Some s.
Proof.
  intros H. unfold unmarshal_string. rewrite quote_eq. cbn [skip_space json_space orb Ascii.eqb Bool.eqb dquote tab newline].
  rewrite (literal_quote _ _ "" H). cbn [mbind option_bind]. cbn [skip_space String.eqb]. by rewrite (unquote_quote _ _ H).
Qed.
