(* ===== verification/Secrets.v ===== *)
(** The redaction of stored secrets (src/internal/secrets/store.go, and the
    fragments of src/internal/agent/loop.go): the forms a value is looked for in,
    what replaces them in a payload, and a reply redacted while it streams.

    The file of a store is what reading it gives, the names with their values in
    whatever order a map gives them; the stamp of the file is what stat gives. *)

From Stdlib Require Import ZArith NArith Ascii String Lia.
From stdpp Require Import base tactics list option gmap strings sorting.
From S2P Require Import Prelude.
From S2P Require Import GoStd.
From S2P Require Import GoNet.
From S2P Require Import GoPath.
From S2P Require Import ShellSplit.
From S2P Require Import Args.
From S2P Require Import GoJson.

#[local] Open Scope string_scope.
#[local] Open Scope nat_scope.

(** ** Encodings *)

(** A byte's bits, the highest first. *)
Definition byte_bits (c : ascii) : list bool := map (λ i, N.testbit (bv c) (N.of_nat i)) [7; 6; 5; 4; 3; 2; 1; 0].
Definition text_bits (s : string) : list bool := flat_map byte_bits (bytes s).
Definition bits_value (l : list bool) : N := foldl (λ n (b : bool), 2 * n + (if b then 1 else 0))%N 0%N l.

(** [base64.RawStdEncoding] and [RawURLEncoding], by the two characters they
    differ in: six bits a character, the last filled up with zeros. *)
Definition base64_char (c62 c63 : ascii) (n : N) : ascii :=
  if (n <? 26)%N then ascii_of_N (65 + n)
  else if (n <? 52)%N then ascii_of_N (71 + n)
  else if (n <? 62)%N then ascii_of_N (n - 4)
  else if (n =? 62)%N then c62 else c63.
Fixpoint sextets (fuel : nat) (l : list bool) : list N :=
  match fuel, l with
  | S fuel, _ :: _ => bits_value (take 6 (l ++ repeat false 5)) :: sextets fuel (drop 6 l)
  | _, _ => []
  end.
Definition base64 (c62 c63 : ascii) (s : string) : string :=
  of_bytes (map (base64_char c62 c63) (sextets (length (text_bits s)) (text_bits s))).
Definition RawStdEncoding : string → string := base64 "+" "/".
Definition RawURLEncoding : string → string := base64 "-" "_".

(** [alignedBase64]. *)
Definition zeros (n : nat) : string := of_bytes (repeat "000"%char n).
Definition aligned_start (off : nat) : nat := (8 * off + 5) / 6.
Definition aligned_end (v : string) (off : nat) : nat := 8 * (off + String.length v) / 6.
Definition alignedBase64 (enc : string → string) (v : string) (off : nat) : string :=
  let full := enc (zeros off ++ v) in
  if aligned_end v off <=? aligned_start off then ""
  else str_take (aligned_end v off - aligned_start off) (str_drop (aligned_start off) full).

(** [url.QueryEscape] and [url.PathEscape]: the bytes they leave as they are, and
    a byte escaped. *)
Definition url_unreserved (c : ascii) : bool :=
  in_range "a" "z" c || in_range "A" "Z" c || in_range "0" "9" c || byte_in "-_.~" c.
Definition upper_hex (n : N) : ascii := if (n <? 10)%N then ascii_of_N (48 + n) else ascii_of_N (55 + n).
Definition percent (c : ascii) : string := String "%" (String (upper_hex (bv c / 16)) (String (upper_hex (bv c mod 16)) "")).
Fixpoint QueryEscape (s : string) : string :=
  match s with
  | EmptyString => ""
  | String c s => (if url_unreserved c then String c "" else if c =c " " then "+" else percent c) ++ QueryEscape s
  end.
Fixpoint PathEscape (s : string) : string :=
  match s with
  | EmptyString => ""
  | String c s => (if url_unreserved c || byte_in "$&+:=@" c then String c "" else percent c) ++ PathEscape s
  end.
Fixpoint plus_as_20 (s : string) : string :=
  match s with EmptyString => "" | String c s => (if c =c "+" then "%20" else String c "") ++ plus_as_20 s end.

(** The hexadecimal text in upper case. *)
Definition hex_upper (s : string) : string := of_bytes (map (λ c, if in_range "a" "f" c then ascii_of_N (bv c - 32) else c) (bytes s)).

(** ** The redactor *)

Record pair : Type := MkPair { needle : string; label : string; short : bool; encoded : bool }.
Record Redactor : Type := MkRedactor { pairs : list pair; broken : bool }.
Definition Withholding : Redactor := MkRedactor [] true.

Definition MinLength : nat := 8.
Definition EncodedMinLength : nat := 12.
Definition PathMinLength : nat := 12.

(** [sort.SliceStable], the longest needle first. *)
Fixpoint place (p : pair) (l : list pair) : list pair :=
  match l with
  | [] => [p]
  | q :: l' => if String.length (needle q) <=? String.length (needle p) then p :: l else q :: place p l'
  end.
Definition longest_first (l : list pair) : list pair := foldr place [] l.

Section forms.
Context (tx : Text).

(** [encodedForms]. *)
Definition encodedForms (v : string) : list string :=
  if length (runes v) <? EncodedMinLength then []
  else
    [tx_lower tx v; tx_upper tx v; hex_encode (bytes v); hex_upper (hex_encode (bytes v));
     QueryEscape v; PathEscape v; plus_as_20 (QueryEscape v)] ++
    map (alignedBase64 RawStdEncoding v) [0; 1; 2] ++ map (alignedBase64 RawURLEncoding v) [0; 1; 2].

(** [escaped]. *)
Definition escaped (v : string) (html : bool) : string := json_string_body html 0 v.

(** The forms of one value, each once. *)
Definition label_of (name : string) : string := "[secret:" ++ name ++ "]".
Fixpoint fresh_forms (seen : list string) (forms : list string) : list string :=
  match forms with
  | [] => []
  | n :: forms => if bool_decide (n ∈ seen) then fresh_forms seen forms else n :: fresh_forms (n :: seen) forms
  end.
Definition value_pairs (name value : string) : list pair :=
  if String.eqb value "" then []
  else
    let short := length (runes value) <? MinLength in
    let plain := fresh_forms [] [value; escaped value true; escaped value false] in
    let enc := fresh_forms plain (List.filter (λ n, negb (String.eqb n "")) (encodedForms value)) in
    map (λ n, MkPair n (label_of name) short false) plain ++ map (λ n, MkPair n (label_of name) false true) enc.

(** [LoadRedactor], of a store that loads. *)
Definition LoadRedactor (m : list (string * string)) : Redactor :=
  MkRedactor (longest_first (flat_map (λ p, value_pairs (fst p) (snd p)) m)) false.
End forms.

(** [union]. *)
Definition union (r old : Redactor) : Redactor :=
  let have := map needle (pairs r) in
  MkRedactor (longest_first (pairs r ++ List.filter (λ p, negb (bool_decide (needle p ∈ have))) (pairs old))) false.

(** [Span] and [Names]. *)
Definition Span (r : Redactor) : nat := match pairs r with [] => 0 | p :: _ => String.length (needle p) end.
Definition Names (r : Redactor) : list string :=
  fresh_forms [] (map (λ p, TrimSuffix (TrimPrefix (label p) "[secret:") "]") (pairs r)).

(** ** Redacting *)

(** [strings.Replacer.Replace]: from the left, the first pair in order whose
    needle stands there, without overlap. [skip] bytes belong to the needle
    before. *)
Definition match_at (ps : list pair) (s : string) : option pair := find_first (λ p, HasPrefix s (needle p)) ps.
Fixpoint replace_go (ps : list pair) (skip : nat) (s : string) : string :=
  match s with
  | EmptyString => ""
  | String c s' =>
      match skip with
      | S k => replace_go ps k s'
      | 0 =>
          match match_at ps s with
          | Some p => label p ++ replace_go ps (pred (String.length (needle p))) s'
          | None => String c (replace_go ps 0 s')
          end
      end
  end.
(** [replace]; in a key a short value is left alone. *)
Definition used_pairs (r : Redactor) (key : bool) : list pair :=
  if key then List.filter (λ p, negb (short p)) (pairs r) else pairs r.
Definition replace (r : Redactor) (key : bool) (s : string) : string := replace_go (used_pairs r key) 0 s.

(** A literal of a document, and what it is replaced by; [rest] follows it. *)
Definition is_key (rest : string) : bool := match skip_space rest with String c _ => c =c ":" | EmptyString => false end.
Definition redact_literal (r : Redactor) (body rest : string) : string :=
  let same := String dquote (body ++ String dquote "") in
  match unquote 0 body with
  | None => same
  | Some text => let red := replace r (is_key rest) text in if String.eqb red text then same else json_quote true red
  end.

(** [Redact]'s walk over a document; [skip] bytes belong to the literal before. *)
Fixpoint redact_go (r : Redactor) (skip : nat) (s : string) : string :=
  match s with
  | EmptyString => ""
  | String c s' =>
      match skip with
      | S k => redact_go r k s'
      | 0 =>
          if c =c dquote then
            match literal s' with
            | None => s
            | Some (body, rest) => redact_literal r body rest ++ redact_go r (S (String.length body)) s'
            end
          else String c (redact_go r 0 s')
      end
  end.
(** [Redact]; nil is the empty payload. *)
Definition Redact (r : Redactor) (b : string) : string :=
  if broken r then ""
  else match pairs r with
       | [] => b
       | _ => if Valid b then redact_go r 0 b else replace r false b
       end.

(** ** Finding *)

(** [Find], [FindFold] and [FindInPath]: the label, [""] of a store that could not
    be loaded, when one is found. *)
Definition found_in (r : Redactor) (p : pair → bool) : option string := if broken r then Some "" else label <$> find_first p (pairs r).
Definition Find (r : Redactor) (s : string) : option string := found_in r (λ p, Contains s (needle p)).
Definition FindFold (tx : Text) (r : Redactor) (s : string) : option string :=
  found_in r (λ p, Contains (tx_lower tx s) (tx_lower tx (needle p))).
Definition FindInPath (r : Redactor) (path : string) : option string :=
  found_in r (λ p, negb (encoded p) && (PathMinLength <=? length (runes (needle p))) && Contains path (needle p)).

(** [lenientUnescape]. *)
Fixpoint lenientUnescape (s : string) : string :=
  match s with
  | String c s1 =>
      match s1 with
      | String a (String b s3) =>
          match (if c =c "%" then hex_value a else None), hex_value b with
          | Some x, Some y => String (ascii_of_N (16 * x + y)) (lenientUnescape s3)
          | _, _ => String c (lenientUnescape s1)
          end
      | _ => String c (lenientUnescape s1)
      end
  | EmptyString => ""
  end.
Fixpoint plus_as_space (s : string) : string :=
  match s with EmptyString => "" | String c s => String (if c =c "+" then " "%char else c) (plus_as_space s) end.

(** [FindSent]: the text, and what each round of decoding gives, until one changes
    nothing. *)
Definition maxDecodes : nat := 16.
Fixpoint decodings (rounds : nat) (s : string) : list string :=
  match rounds with
  | 0 => []
  | S k =>
      let next := lenientUnescape s in
      if String.eqb next s then [] else next :: plus_as_space next :: decodings k next
  end.
Definition sent_forms (text : string) : list string := text :: plus_as_space text :: decodings (maxDecodes / 2) text.
Fixpoint first_found (f : string → option string) (l : list string) : option string :=
  match l with
  | [] => None
  | s :: l => match f s with Some x => Some x | None => first_found f l end
  end.
Definition FindSent (tx : Text) (r : Redactor) (text : string) : option string := first_found (FindFold tx r) (sent_forms text).

(** ** A session's redactor *)

(** [freshStamp], and [stat] of a store's file; of a store whose values come from
    a source it is their digest. *)
Record freshStamp : Type := MkStamp {
  fs_ok : bool; fs_missing : bool; fs_mod : Z; fs_size : Z; fs_inode : Z; fs_ctime : Z; fs_mode : Z; fs_digest : string
}.
#[export] Instance freshStamp_eq_dec : EqDecision freshStamp.
Proof. solve_decision. Defined.
Inductive stat_result : Type := StatMissing | StatError | StatOf (mod_ size inode ctime mode : Z) | SourceOf (digest : option string).
Definition stamp_of (s : stat_result) : freshStamp :=
  match s with
  | StatMissing => MkStamp true true 0 0 0 0 0 ""
  | StatError => MkStamp false false 0 0 0 0 0 ""
  | StatOf m z i c o => MkStamp true false m z i c o ""
  | SourceOf (Some d) => MkStamp true false 0 0 0 0 0 d
  | SourceOf None => MkStamp false false 0 0 0 0 0 ""
  end.

Record Fresh : Type := MkFresh { fr_stamp : freshStamp; fr_red : Redactor; fr_down : bool }.
Definition NewFresh (st : freshStamp) (first : Redactor) : Fresh := MkFresh st first false.

(** [Fresh.Current]: the file as it is, and what loading it now gives. *)
Definition Current (st : freshStamp) (loaded : option Redactor) (f : Fresh) : Redactor * Fresh :=
  if fs_ok st && bool_decide (st = fr_stamp f) then (if fr_down f then Withholding else fr_red f, f)
  else
    match loaded with
    | Some r =>
        if negb (fs_ok st) then (Withholding, MkFresh st (fr_red f) true)
        else let r := if broken (fr_red f) then r else union r (fr_red f) in (r, MkFresh st r false)
    | None => (Withholding, MkFresh st (fr_red f) true)
    end.

(** [Joined.Current], of its parts as they are. *)
Fixpoint joined (r : Redactor) (parts : list Redactor) : Redactor :=
  match parts with
  | [] => r
  | c :: parts => if broken c then Withholding else joined (union r c) parts
  end.
Definition Joined_Current (parts : list Redactor) : Redactor := joined (MkRedactor [] false) parts.

(** ** What is recorded, and a reply as it streams *)

Definition Withheld : string := "[redacted: output withheld]".

(** The payload [Recorder.Record] writes. *)
Definition withheldPayload : string := "{" ++ json_quote true "withheld" ++ ":" ++ json_quote true Withheld ++ "}".
Definition recorded_payload (redact : string → string) (raw : string) : string :=
  let red := redact raw in if Valid red then red else withheldPayload.

(** [redactedText]. *)
Definition redactedText (redact : string → string) (text : string) : string :=
  default Withheld (unmarshal_string (redact (json_quote true text))).

(** [fragmentBuffer]. *)
Record fragmentBuffer : Type := MkBuffer { fb_redact : string → string; fb_span : nat; fb_carry : string }.
Definition fragments (r : option Redactor) : fragmentBuffer :=
  match r with None => MkBuffer (λ b, b) 0 "" | Some r => MkBuffer (Redact r) (Span r) "" end.

(** [utf8.RuneStart] of a byte; the nearest one down from [cut]. *)
Definition rune_start (raw : string) (i : nat) : bool := match str_at raw i with Some c => negb (cont c) | None => true end.
Fixpoint back_to_start (raw : string) (cut : nat) : nat :=
  match cut with
  | 0 => 0
  | S k => if (cut <? String.length raw) && negb (rune_start raw cut) then back_to_start raw k else cut
  end.

Section cuts.
Context (redact : string → string) (span : nat) (raw whole : string).

(** Whether splitting there changes nothing. *)
Definition safe (cut : nat) : option string :=
  let head := redactedText redact (str_take cut raw) in
  if String.eqb (head ++ redactedText redact (str_drop cut raw)) whole then Some head else None.

(** A span at a time, down; and rune by rune. *)
Fixpoint by_spans (rounds cut : nat) : option (nat * string) :=
  match rounds with
  | 0 => None
  | S k =>
      match back_to_start raw cut with
      | 0 => None
      | S c =>
          match safe (S c) with
          | Some head => Some (S c, head)
          | None => by_spans k (S c - max (span - 1) 1)
          end
      end
  end.
Fixpoint by_runes (cut : nat) : option (nat * string) :=
  match cut with
  | 0 => None
  | S k =>
      if negb (rune_start raw cut) then by_runes k
      else match safe cut with Some head => Some (cut, head) | None => by_runes k end
  end.
Definition cut_at : option (nat * string) :=
  let last := String.length raw - (span - 1) in
  match by_spans last last with
  | Some x => Some x
  | None => by_runes (String.length raw - span)
  end.
End cuts.

(** [push] and [flush]. *)
Definition carrying (carry : string) (b : fragmentBuffer) : fragmentBuffer := MkBuffer (fb_redact b) (fb_span b) carry.
Definition push (s : string) (b : fragmentBuffer) : string * fragmentBuffer :=
  if fb_span b =? 0 then (s, b)
  else
    let raw := fb_carry b ++ s in
    let whole := redactedText (fb_redact b) raw in
    if String.eqb whole raw then
      match back_to_start raw (String.length raw - (fb_span b - 1)) with
      | 0 => ("", carrying raw b)
      | cut => (str_take cut raw, carrying (str_drop cut raw) b)
      end
    else
      match cut_at (fb_redact b) (fb_span b) raw whole with
      | Some (cut, head) => (head, carrying (str_drop cut raw) b)
      | None => ("", carrying raw b)
      end.
Definition flush (b : fragmentBuffer) : string :=
  let s := fb_carry b in if (fb_span b =? 0) || String.eqb s "" then s else redactedText (fb_redact b) s.

(** A stream of fragments, and what is emitted of it in all. *)
Fixpoint pushes (fs : list string) (b : fragmentBuffer) : string * fragmentBuffer :=
  match fs with
  | [] => ("", b)
  | s :: fs => let '(out, b) := push s b in let '(rest, b) := pushes fs b in (out ++ rest, b)
  end.
Definition streamed (fs : list string) (b : fragmentBuffer) : string := let '(out, b) := pushes fs b in out ++ flush b.

(** * Theorems

    No encoding of a text that holds a stored value hides it; a payload keeps its
    structure and none of the values; a reply redacted as it streams is the reply
    redacted whole; and a session never forgets a value it has redacted. *)

(** ** Texts *)

Lemma HasPrefix_app s p : HasPrefix s p = true ↔ ∃ t, s = p ++ t.
Proof.
  unfold HasPrefix. revert s. induction p as [|c p IH]; intros s; cbn [String.prefix].
  - split; [intros _; by exists s|by destruct s].
  - destruct s as [|d s]; [split; [done|by intros [t [=]]]|]. cbn [String.prefix]. destruct (ascii_dec c d) as [->|Hne].
    + rewrite (IH s). split; intros [t Ht]; exists t; [by rewrite Ht|]. rewrite str_app_cons in Ht. by injection Ht.
    + split; [done|]. intros [t Ht]. rewrite str_app_cons in Ht. injection Ht as -> _. done.
Qed.

Lemma Contains_app s sub : Contains s sub = true ↔ ∃ a b, s = a ++ sub ++ b.
Proof.
  unfold Contains. induction s as [|c s IH].
  - cbn [Cut]. destruct (HasPrefix "" sub) eqn:E.
    + apply HasPrefix_app in E as [t Ht]. split; [intros _; by exists "", t|done].
    + split; [done|]. intros (a & b & H). destruct a; [|done]. apply not_true_iff_false in E. exfalso. apply E, HasPrefix_app. by exists b.
  - cbn [Cut]. destruct (HasPrefix (String c s) sub) eqn:E.
    + apply HasPrefix_app in E as [t Ht]. split; [intros _; by exists "", t|done].
    + destruct (Cut s sub) as [[x y]|].
      * split; [|done]. intros _. destruct (proj1 IH eq_refl) as (a & b & ->). by exists (String c a), b.
      * split; [done|]. intros (a & b & H). apply not_true_iff_false in E. destruct a as [|d a]; [exfalso; apply E, HasPrefix_app; by exists b|].
        rewrite str_app_cons in H. injection H as -> H. apply IH. by exists a, b.
Qed.

Lemma bytes_take n s : bytes (str_take n s) = take n (bytes s).
Proof. revert s. induction n as [|n IH]; intros [|c s]; try done. cbn [str_take bytes]. by rewrite IH. Qed.
Lemma bytes_drop n s : bytes (str_drop n s) = drop n (bytes s).
Proof. revert s. induction n as [|n IH]; intros [|c s]; try done. cbn [str_drop bytes drop]. apply IH. Qed.

(** ** Base64 *)

Lemma bits_length s : length (text_bits s) = 8 * String.length s.
Proof. unfold text_bits. rewrite <- bytes_length. induction (bytes s) as [|c l IH]; [done|]. cbn [flat_map]. rewrite length_app, IH. cbn. lia. Qed.
Lemma bits_app s t : text_bits (s ++ t) = (text_bits s ++ text_bits t)%list.
Proof. unfold text_bits. by rewrite bytes_app, flat_map_app. Qed.

Lemma sextets_at fuel l j : length l <= fuel → sextets fuel l !! j =
  if 6 * j <? length l then Some (bits_value (take 6 (drop (6 * j) l ++ repeat false 5))) else None.
Proof.
  revert l j. induction fuel as [|fuel IH]; intros l j Hl.
  - destruct l; [|cbn in Hl; lia]. by destruct (Nat.ltb_spec (6 * j) (@length bool [])); [cbn in *; lia|].
  - destruct l as [|b l]; [by destruct (Nat.ltb_spec (6 * j) (@length bool [])); [cbn in *; lia|]|]. destruct j as [|j]; [done|].
    cbn [sextets]. rewrite lookup_cons_ne_0 by done. cbn [Nat.pred]. rewrite IH by (rewrite length_drop; cbn in *; lia).
    rewrite drop_drop, length_drop. replace (6 + 6 * j) with (6 * S j) by lia.
    destruct (Nat.ltb_spec (6 * j) (length (b :: l) - 6)), (Nat.ltb_spec (6 * S j) (length (b :: l))); first [done|lia].
Qed.

(** A character whose bits lie in a part of the text depends on that part only. *)
Lemma bits_between (a m b : list bool) k : length a <= k → k + 6 <= length a + length m →
  take 6 (drop k (a ++ m ++ b) ++ repeat false 5) = take 6 (drop (k - length a) m).
Proof.
  intros H1 H2. rewrite drop_app_ge by done. rewrite (drop_app_le m b) by lia. rewrite <- app_assoc. rewrite take_app_le; [done|]. rewrite length_drop. lia.
Qed.

Lemma aligned_bits off n j : aligned_start off <= j → j < 8 * (off + n) / 6 → 8 * off <= 6 * j ∧ 6 * j + 6 <= 8 * off + 8 * n.
Proof.
  unfold aligned_start. intros H1 H2.
  pose proof (Nat.div_mod_eq (8 * off + 5) 6) as E1. pose proof (Nat.mod_upper_bound (8 * off + 5) 6).
  pose proof (Nat.div_mod_eq (8 * (off + n)) 6) as E2. lia.
Qed.

Definition is_base64 (enc : string → string) : Prop := ∃ c62 c63, enc = base64 c62 c63.

Lemma zeros_length n : String.length (zeros n) = n.
Proof. unfold zeros. rewrite <- bytes_length, bytes_of_bytes. apply repeat_length. Qed.

(** The character at [j] of a run of a value [off] bytes into a group. *)
Lemma base64_at c62 c63 pre v post j off q : String.length pre = 3 * q + off → aligned_start off <= j → j < aligned_end v off →
  bytes (base64 c62 c63 (pre ++ v ++ post)) !! (4 * q + j) =
  Some (base64_char c62 c63 (bits_value (take 6 (drop (6 * j - 8 * off) (text_bits v))))).
Proof.
  intros Hp H1 H2. destruct (aligned_bits off (String.length v) j H1 H2) as [Ha Hb].
  unfold base64. rewrite bytes_of_bytes, list_lookup_fmap, sextets_at by lia.
  rewrite !bits_app, !length_app, !bits_length. destruct (Nat.ltb_spec (6 * (4 * q + j)) (8 * String.length pre + (8 * String.length v + 8 * String.length post))); [|lia].
  cbn [fmap option_fmap option_map]. rewrite bits_between; rewrite !bits_length; [|lia..]. by replace (6 * (4 * q + j) - 8 * String.length pre) with (6 * j - 8 * off) by lia.
Qed.

Lemma alignedBase64_seen enc v pre post : is_base64 enc → v ≠ "" →
  ∃ a b, enc (pre ++ v ++ post) = a ++ alignedBase64 enc v (String.length pre mod 3) ++ b.
Proof.
  intros (c62 & c63 & ->) Hv. set (off := String.length pre mod 3). set (q := String.length pre / 3).
  assert (Hp : String.length pre = 3 * q + off) by (subst off q; apply Nat.div_mod_eq).
  unfold alignedBase64. destruct (Nat.leb_spec (aligned_end v off) (aligned_start off)) as [Hle|Hlt]; [by exists "", (base64 c62 c63 (pre ++ v ++ post))|].
  set (s := aligned_start off) in *. set (n := aligned_end v off - s). set (E := base64 c62 c63 (pre ++ v ++ post)). set (Z := base64 c62 c63 (zeros off ++ v)).
  assert (Hs : s = aligned_start off) by done. assert (Hn : n = aligned_end v off - s) by done. clearbody s n off q.
  assert (Heq : take n (drop (4 * q + s) (bytes E)) = take n (drop s (bytes Z))).
  { apply list_eq. intros i. destruct (decide (i < n)) as [Hi|Hi].
    - rewrite !lookup_take_lt, !lookup_drop by done. rewrite <- Nat.add_assoc. unfold E, Z. rewrite (base64_at _ _ pre v post (s + i) off q) by lia.
      rewrite <- (str_app_nil_r (zeros off ++ v)), str_app_assoc. symmetry. rewrite <- (base64_at c62 c63 (zeros off) v "" (s + i) off 0) by (rewrite ?zeros_length; lia).
      done.
    - rewrite !lookup_take_ge by lia. done. }
  exists (str_take (4 * q + s) E), (str_drop n (str_drop (4 * q + s) E)).
  rewrite <- (of_bytes_bytes (str_take n (str_drop s Z))), bytes_take, bytes_drop, <- Heq, <- bytes_drop, <- bytes_take, of_bytes_bytes.
  by rewrite !str_take_drop.
Qed.

Lemma aligned_nonempty enc v off : is_base64 enc → off < 3 → 2 <= String.length v → alignedBase64 enc v off ≠ "".
Proof.
  intros (c62 & c63 & ->) Hoff Hv H. unfold alignedBase64 in H. assert (Hlt : aligned_start off < aligned_end v off).
  { unfold aligned_start, aligned_end. apply Nat.Div0.div_lt_upper_bound. pose proof (Nat.div_mod_eq (8 * (off + String.length v)) 6) as E.
    pose proof (Nat.mod_upper_bound (8 * (off + String.length v)) 6). lia. }
  rewrite (proj2 (Nat.leb_gt _ _) Hlt) in H. pose proof (base64_at c62 c63 (zeros off) v "" (aligned_start off) off 0) as Hat.
  rewrite zeros_length, str_app_nil_r in Hat. specialize (Hat eq_refl (le_n _) Hlt). cbn [Nat.mul Nat.add] in Hat.
  apply (f_equal bytes) in H. rewrite bytes_take, bytes_drop in H. cbn [bytes] in H.
  apply (f_equal (lookup 0)) in H. rewrite lookup_take_lt, lookup_drop, Nat.add_0_r in H by lia. rewrite Hat in H. done.
Qed.

(** ** The forms of a value *)

Lemma place_elem p q l : p ∈ place q l ↔ p = q ∨ p ∈ l.
Proof.
  induction l as [|x l IH]; cbn [place]; [by rewrite list_elem_of_singleton, elem_of_nil; naive_solver|].
  destruct (_ <=? _); rewrite !elem_of_cons, ?IH; tauto.
Qed.
Lemma longest_elem p l : p ∈ longest_first l ↔ p ∈ l.
Proof. induction l as [|x l IH]; [done|]. cbn [longest_first foldr]. rewrite place_elem. fold (longest_first l). by rewrite IH, elem_of_cons. Qed.

Definition longer (p q : pair) : Prop := String.length (needle q) <= String.length (needle p).
Lemma place_sorted q l : StronglySorted longer l → StronglySorted longer (place q l).
Proof.
  induction 1 as [|x l Hl IH Hx]; cbn [place]; [repeat constructor|]. destruct (Nat.leb_spec (String.length (needle x)) (String.length (needle q))) as [Hle|Hgt].
  - constructor; [by constructor|]. constructor; [done|]. eapply Forall_impl; [exact Hx|]. unfold longer. lia.
  - constructor; [done|]. apply Forall_forall. intros y Hy. apply place_elem in Hy as [->|Hy]; [unfold longer; lia|].
    by apply (proj1 (Forall_forall _ _) Hx).
Qed.
Lemma longest_sorted l : StronglySorted longer (longest_first l).
Proof. induction l as [|x l IH]; [constructor|]. by apply place_sorted. Qed.

Lemma fresh_elem n seen forms : n ∈ fresh_forms seen forms ↔ n ∈ forms ∧ n ∉ seen.
Proof.
  revert seen. induction forms as [|x forms IH]; intros seen; cbn [fresh_forms]; [by rewrite elem_of_nil; tauto|].
  destruct (bool_decide_reflect (x ∈ seen)) as [H|H].
  - rewrite IH, elem_of_cons. split; [tauto|]. intros [[->|Hn] Hs]; [done|tauto].
  - rewrite elem_of_cons, IH, (elem_of_cons forms), (elem_of_cons seen). destruct (decide (n = x)) as [->|Hne]; tauto.
Qed.

Section store.
Context (tx : Text).

Lemma form_kept m name v n : (name, v) ∈ m → v ≠ "" → n ≠ "" → n ∈ encodedForms tx v ∨ n ∈ [v; escaped v true; escaped v false] →
  ∃ p, p ∈ pairs (LoadRedactor tx m) ∧ needle p = n ∧ label p = label_of name.
Proof.
  intros Hm Hv Hn Hf. assert (H : ∃ p, p ∈ value_pairs tx name v ∧ needle p = n ∧ label p = label_of name).
  { unfold value_pairs. destruct (String.eqb_spec v "") as [|_]; [done|]. set (plain := fresh_forms [] _).
    destruct (decide (n ∈ plain)) as [Hp|Hp].
    - eexists. split; [apply elem_of_app; left; apply list_elem_of_fmap; eexists; split; [reflexivity|exact Hp]|done].
    - destruct Hf as [Hf|Hf]; [|exfalso; apply Hp; subst plain; apply fresh_elem; set_solver].
      eexists. split; [apply elem_of_app; right; apply list_elem_of_fmap; eexists; split; [reflexivity|]|done].
      apply fresh_elem. split; [|done]. apply list_elem_of_In, filter_In. split; [by apply list_elem_of_In|]. apply negb_true_iff. by apply String.eqb_neq. }
  destruct H as (p & Hp & Hn' & Hl). exists p. split; [|done]. cbn [pairs LoadRedactor]. apply longest_elem, list_elem_of_In, in_flat_map.
  exists (name, v). split; by apply list_elem_of_In.
Qed.

Lemma runes_length s : length (runes s) <= String.length s.
Proof.
  unfold runes. assert (H : ∀ s k, length (runes_go k s) <= String.length s); [|apply H]. clear s. induction s as [|c s IH]; intros k; [done|].
  cbn [runes_go String.length]. destruct k as [|k]; [|specialize (IH k); lia].
  destruct (decode_rune (String c s)) as [[r w]|]; cbn [length]; [specialize (IH (pred w))|specialize (IH 0)]; lia.
Qed.

(** C26: Encoding a text in base64 does not hide a stored value of twelve characters
    or more in it (of a shorter one no encoded form is looked for): whatever
    stands before and after the value, and whatever surrounds the encoding, one of
    the forms the redactor looks for is there, under the value's own label, and
    the text is found to hold a stored value. *)
Theorem base64_found m name v enc pre post before after : (name, v) ∈ m → EncodedMinLength <= length (runes v) →
  enc = RawStdEncoding ∨ enc = RawURLEncoding →
  let text := before ++ enc (pre ++ v ++ post) ++ after in
  (∃ p, p ∈ pairs (LoadRedactor tx m) ∧ label p = label_of name ∧ Contains text (needle p) = true) ∧ is_Some (Find (LoadRedactor tx m) text).
Proof.
  intros Hm Hlen Henc text. pose proof (runes_length v) as Hb. assert (Hv : v ≠ "") by (intros ->; cbn in Hlen; unfold EncodedMinLength in Hlen; lia).
  set (off := String.length pre mod 3). assert (Hoff : off < 3) by (apply Nat.mod_upper_bound; lia).
  assert (Henc' : is_base64 enc) by (destruct Henc as [->| ->]; by eexists _, _).
  destruct (alignedBase64_seen enc v pre post Henc' Hv) as (a & b & E). fold off in E.
  assert (Hn : alignedBase64 enc v off ≠ "") by (apply aligned_nonempty; [done|done|unfold EncodedMinLength in Hlen; lia]).
  destruct (form_kept m name v (alignedBase64 enc v off) Hm Hv Hn) as (p & Hp & Hpn & Hl).
  { left. unfold encodedForms. rewrite (proj2 (Nat.ltb_ge _ _) Hlen). rewrite !elem_of_app.
    destruct Henc as [->| ->]; [right; left|right; right]; apply list_elem_of_fmap; exists off; (split; [done|]);
    destruct off as [|[|[|?]]]; first [lia|set_solver]. }
  assert (Hc : Contains text (needle p) = true).
  { apply Contains_app. exists (before ++ a), (b ++ after). unfold text. by rewrite E, Hpn, !str_app_assoc. }
  split; [by exists p|]. unfold Find, found_in. cbn [broken LoadRedactor]. apply fmap_is_Some. by apply (find_first_elem (λ p, Contains text (needle p)) _ p).
Qed.
End store.

(** ** What matches where *)

Lemma match_at_spec ps s p : match_at ps s = Some p → p ∈ ps ∧ ∃ t, s = needle p ++ t.
Proof. intros H. apply find_first_Some in H as [Hp H]. split; [done|]. by apply HasPrefix_app. Qed.

Lemma prefix_of_app a b p : HasPrefix a p = true → HasPrefix (a ++ b) p = true.
Proof. rewrite !HasPrefix_app. intros [t ->]. exists (t ++ b). by rewrite str_app_assoc. Qed.
Lemma prefix_within a b p : HasPrefix (a ++ b) p = true → String.length p <= String.length a → HasPrefix a p = true.
Proof. rewrite !HasPrefix_app. intros [t Ht] Hl. destruct (app_split _ _ _ _ Ht Hl) as (e & -> & _). by exists e. Qed.

Lemma match_more ps a b p : match_at ps (a ++ b) = Some p → String.length (needle p) <= String.length a → match_at ps a = Some p.
Proof.
  unfold match_at. induction ps as [|q ps IH]; [done|]. cbn [find_first]. destruct (HasPrefix (a ++ b) (needle q)) eqn:E.
  - intros [= ->] Hl. by rewrite (prefix_within _ _ _ E Hl).
  - intros H Hl. destruct (HasPrefix a (needle q)) eqn:E2; [|by apply IH]. by rewrite (prefix_of_app _ b _ E2) in E.
Qed.
Lemma match_none ps a b : match_at ps (a ++ b) = None → match_at ps a = None.
Proof.
  unfold match_at. induction ps as [|q ps IH]; [done|]. cbn [find_first]. destruct (HasPrefix (a ++ b) (needle q)) eqn:E; [done|].
  intros H. destruct (HasPrefix a (needle q)) eqn:E2; [by rewrite (prefix_of_app _ b _ E2) in E|]. by apply IH.
Qed.
Lemma match_stable ps a b : (∀ p, p ∈ ps → String.length (needle p) <= String.length a) → match_at ps (a ++ b) = match_at ps a.
Proof.
  intros H. destruct (match_at ps (a ++ b)) as [p|] eqn:E; [|symmetry; by eapply match_none].
  symmetry. eapply match_more; [done|]. apply H. by apply match_at_spec in E as [? _].
Qed.

Lemma replace_skip ps k s : replace_go ps k s = replace_go ps 0 (str_drop k s).
Proof. revert s. induction k as [|k IH]; intros [|c s]; try done. cbn [replace_go str_drop]. apply IH. Qed.
Lemma drop_exact a b : str_drop (String.length a) (a ++ b) = b.
Proof. induction a as [|c a IH]; [done|]. rewrite str_app_cons. apply IH. Qed.

(** Replacing, at a match and past a byte. *)
Lemma replace_match ps p s : match_at ps (needle p ++ s) = Some p → needle p ≠ "" →
  replace_go ps 0 (needle p ++ s) = label p ++ replace_go ps 0 s.
Proof.
  intros H Hn. destruct (needle p) as [|c n] eqn:E; [done|]. rewrite str_app_cons in *. cbn [replace_go]. rewrite H, E. cbn [String.length pred].
  by rewrite replace_skip, drop_exact.
Qed.
Lemma replace_byte ps c s : match_at ps (String c s) = None → replace_go ps 0 (String c s) = String c (replace_go ps 0 s).
Proof. intros H. cbn [replace_go]. by rewrite H. Qed.

(** ** Whatever holds a value is touched *)

(** A text cut into what was replaced and what was left. *)
Inductive piece : Type := Gap (c : ascii) | Hit (p : pair).
Definition piece_text (x : piece) : string := match x with Gap c => String c "" | Hit p => needle p end.
Definition piece_out (x : piece) : string := match x with Gap c => String c "" | Hit p => label p end.
Fixpoint text_of (l : list piece) : string := match l with [] => "" | x :: l => piece_text x ++ text_of l end.
Fixpoint out_of (l : list piece) : string := match l with [] => "" | x :: l => piece_out x ++ out_of l end.

Lemma text_of_app a b : text_of (a ++ b) = text_of a ++ text_of b.
Proof. induction a as [|x a IH]; [done|]. cbn [app text_of]. by rewrite IH, str_app_assoc. Qed.
Lemma out_of_app a b : out_of (a ++ b) = out_of a ++ out_of b.
Proof. induction a as [|x a IH]; [done|]. cbn [app out_of]. by rewrite IH, str_app_assoc. Qed.

(** No needle stands in what was left. *)
Definition untouched (ps : list pair) (l : list piece) : Prop :=
  ∀ before gaps after p, l = (before ++ map Gap gaps ++ after)%list → p ∈ ps → Contains (of_bytes gaps) (needle p) = false.
Definition cut_up (ps : list pair) (s out : string) (l : list piece) : Prop :=
  text_of l = s ∧ out_of l = out ∧ (∀ p, Hit p ∈ l → p ∈ ps) ∧ untouched ps l.

Lemma gaps_text gaps : text_of (map Gap gaps) = of_bytes gaps.
Proof. induction gaps as [|c gaps IH]; [done|]. cbn [map text_of piece_text of_bytes fold_right]. rewrite str_app_cons, IH. done. Qed.

(** The cut [replace] makes. *)
Fixpoint pieces (ps : list pair) (skip : nat) (s : string) : list piece :=
  match s with
  | EmptyString => []
  | String c s' =>
      match skip with
      | S k => pieces ps k s'
      | 0 =>
          match match_at ps s with
          | Some p => Hit p :: pieces ps (pred (String.length (needle p))) s'
          | None => Gap c :: pieces ps 0 s'
          end
      end
  end.

Lemma pieces_skip ps k s : pieces ps k s = pieces ps 0 (str_drop k s).
Proof. revert s. induction k as [|k IH]; intros [|c s]; try done. cbn [pieces str_drop]. apply IH. Qed.

Lemma pieces_out ps k s : out_of (pieces ps k s) = replace_go ps k s.
Proof.
  revert k. induction s as [|c s IH]; intros k; [done|]. destruct k as [|k]; [|apply IH]. cbn [pieces replace_go].
  destruct (match_at ps (String c s)); cbn [out_of piece_out]; by rewrite IH.
Qed.

(** The places where [replace] looks: the text from one, cut the same way. *)
Lemma pieces_tail ps before after s : (∀ p, p ∈ ps → needle p ≠ "") → pieces ps 0 s = (before ++ after)%list →
  s = text_of before ++ text_of after ∧ pieces ps 0 (text_of after) = after.
Proof.
  intros Hne. remember (String.length s) as n eqn:Hn. revert s before Hn. induction n as [n IH] using lt_wf_ind. intros s before -> H.
  assert (Hwhole : s = text_of (pieces ps 0 s)).
  { clear -Hne. remember (String.length s) as n eqn:Hn. revert s Hn. induction n as [n IH] using lt_wf_ind. intros [|c s] ->; [done|]. cbn [pieces].
    destruct (match_at ps (String c s)) as [p|] eqn:E; cbn [text_of piece_text]; [|rewrite str_app_cons; f_equal; eapply IH; [|done]; cbn; lia].
    destruct (match_at_spec _ _ _ E) as [Hp [t Ht]]. specialize (Hne p Hp). destruct (needle p) as [|d m] eqn:Em; [done|]. rewrite str_app_cons in Ht. injection Ht as -> ->.
    cbn [String.length pred]. rewrite pieces_skip, drop_exact, str_app_cons. f_equal. f_equal. eapply IH; [|done]. cbn. rewrite str_length_app. lia. }
  destruct before as [|x before].
  - cbn [app text_of] in *. rewrite <- H. rewrite <- Hwhole. done.
  - destruct s as [|c s]; [done|]. cbn [pieces] in H. destruct (match_at ps (String c s)) as [p|] eqn:E.
    + injection H as <- H. destruct (match_at_spec _ _ _ E) as [Hp [t Ht]]. specialize (Hne p Hp) as Hnp. destruct (needle p) as [|d m] eqn:Em; [done|].
      rewrite str_app_cons in Ht. injection Ht as -> ->. cbn [String.length pred] in H. rewrite pieces_skip, drop_exact in H.
      edestruct (IH (String.length t)) as [Ht Ha]; [|done|exact H|]; [cbn; rewrite str_length_app; lia|]. split; [|done].
      cbn [text_of piece_text]. rewrite Em, !str_app_cons, str_app_assoc. by rewrite <- Ht.
    + injection H as <- H. edestruct (IH (String.length s)) as [Ht Ha]; [|done|exact H|]; [cbn; lia|]. split; [|done].
      cbn [text_of piece_text]. rewrite !str_app_cons. by f_equal.
Qed.

(** Whatever holds a stored value is touched: a redacted text is the text with
    some occurrences of the forms of values, none overlapping, replaced by their
    labels and the rest left as it was; and no form of any value stands in what
    was left between two replacements, so every occurrence in the text was
    replaced or meets one that was. *)
Theorem replace_covers r key s : (∀ p, p ∈ pairs r → needle p ≠ "") → ∃ l, cut_up (used_pairs r key) s (replace r key s) l.
Proof.
  intros Hne. set (ps := used_pairs r key). assert (Hps : ∀ p, p ∈ ps → needle p ≠ "").
  { intros p Hp. apply Hne. subst ps. unfold used_pairs in Hp. destruct key; [|done]. apply list_elem_of_In, filter_In in Hp as [Hp _]. by apply list_elem_of_In. }
  exists (pieces ps 0 s). split_and!.
  - destruct (pieces_tail ps [] (pieces ps 0 s) s Hps eq_refl) as [H _]. by rewrite H at 2.
  - apply pieces_out.
  - intros p Hp. apply list_elem_of_split in Hp as (l1 & l2 & Hl). destruct (pieces_tail ps l1 (Hit p :: l2) s Hps Hl) as [_ Ha].
    destruct (text_of (Hit p :: l2)) as [|c t] eqn:Et; [done|]. cbn [pieces] in Ha. destruct (match_at ps (String c t)) as [q|] eqn:E; [|done].
    injection Ha as <- _. by apply match_at_spec in E as [? _].
  - intros before gaps after p Hl Hp. apply not_true_iff_false. intros (a & b & Hg)%Contains_app.
    assert (Hcut : gaps = (bytes a ++ bytes (needle p ++ b))%list) by (by rewrite <- bytes_app, <- Hg, bytes_of_bytes).
    rewrite Hcut, map_app, <- app_assoc, app_assoc in Hl. destruct (pieces_tail ps _ _ s Hps Hl) as [_ Ha].
    rewrite text_of_app, gaps_text, of_bytes_bytes, str_app_assoc in Ha. specialize (Hps p Hp). destruct (needle p) as [|c m] eqn:Em; [done|].
    rewrite !str_app_cons in Ha. cbn [pieces bytes map app] in Ha. destruct (match_at ps _) as [q|] eqn:E; [done|].
    pose proof (find_first_None _ _ E p Hp) as Hn. cbn beta in Hn. apply not_true_iff_false in Hn. apply Hn. rewrite Em. apply HasPrefix_app.
    exists (b ++ text_of after). by rewrite str_app_cons.
Qed.

(** ** Splitting a text where it was cut *)

(** A store's values as a stream relies on them: no form starts as a label does,
    or is longer than the first; and of the forms under one label none begins
    another. *)
Record streamable (r : Redactor) : Prop := MkStreamable {
  st_label : ∀ p, p ∈ pairs r → ∃ name, label p = label_of name ∧ str_forall (λ c, negb (c =c "]")) name = true;
  st_first : ∀ p, p ∈ pairs r → ∃ c t, needle p = String c t ∧ c ≠ "["%char;
  st_span : ∀ p, p ∈ pairs r → String.length (needle p) <= Span r;
  st_prefix : ∀ p q, p ∈ pairs r → q ∈ pairs r → label p = label q → HasPrefix (needle p) (needle q) = true → needle p = needle q
}.

Lemma labels_apart n1 n2 x y : str_forall (λ c, negb (c =c "]")) n1 = true → str_forall (λ c, negb (c =c "]")) n2 = true →
  label_of n1 ++ x = label_of n2 ++ y → n1 = n2 ∧ x = y.
Proof.
  unfold label_of. rewrite !str_app_assoc. intros H1 H2 H. assert (H' : n1 ++ "]" ++ x = n2 ++ "]" ++ y).
  { revert H. generalize (n1 ++ "]" ++ x) (n2 ++ "]" ++ y). intros a b H. rewrite !str_app_cons in H. by injection H. }
  clear H. revert n2 H2 H'. induction n1 as [|c n1 IH]; intros [|d n2] H2 H.
  - by injection H.
  - rewrite !str_app_cons in H. injection H as <- _. done.
  - rewrite !str_app_cons in H. injection H as -> _. done.
  - rewrite !(str_app_cons _ n1), !(str_app_cons _ n2) in H. injection H as <- H. cbn [str_forall] in H1, H2. bool_to_prop. destruct (IH ltac:(done) n2) as [-> ->]; done.
Qed.

Section stream.
Context (r : Redactor) (Hr : streamable r).
Abbreviation R := (replace_go (pairs r) 0).

(** A split that changes nothing of a text changes nothing of what the text grows
    into, as long as what follows the split holds all but a byte of the longest
    form. *)
Lemma split_stays a b s : Span r - 1 <= String.length b → R a ++ R b = R (a ++ b) → R ((a ++ b) ++ s) = R a ++ R (b ++ s).
Proof.
  intros Hb. remember (String.length a) as n eqn:Hn. revert a Hn. induction n as [n IH] using lt_wf_ind. intros a -> H.
  destruct a as [|c a]; [done|]. assert (Hstable : match_at (pairs r) ((String c a ++ b) ++ s) = match_at (pairs r) (String c a ++ b)).
  { apply match_stable. intros p Hp. pose proof (st_span r Hr p Hp). rewrite str_length_app. cbn [String.length]. lia. }
  destruct (match_at (pairs r) (String c a ++ b)) as [p|] eqn:E.
  - destruct (match_at_spec _ _ _ E) as [Hp [t Ht]]. destruct (st_first r Hr p Hp) as (d & m & Hm & Hd).
    destruct (st_label r Hr p Hp) as (name & Hl & Hname).
    destruct (decide (String.length (needle p) <= String.length (String c a))) as [Hfit|Hfit].
    + destruct (app_split _ _ _ _ Ht Hfit) as (e & Ea & ->). rewrite Ea in *. rewrite str_app_assoc in E, Hstable, H |- *. rewrite (str_app_assoc (needle p)) in Hstable |- *.
      pose proof (match_more _ (needle p ++ e) b p ltac:(by rewrite str_app_assoc)) as Hme. rewrite str_length_app in Hme. specialize (Hme ltac:(lia)).
      assert (Hne : needle p ≠ "") by (by rewrite Hm). rewrite replace_match in H by done. rewrite replace_match in H by done. rewrite str_app_assoc in H.
      rewrite !replace_match by done. rewrite str_app_assoc. f_equal. rewrite <- (str_app_assoc e). eapply (IH (String.length e)); [|done|].
      * rewrite str_length_app, Hm. cbn. lia.
      * clear -H. revert H. generalize (label p) as x. intros x. induction x as [|y x IHx]; [done|]. rewrite !str_app_cons. intros [= H]. by apply IHx.
    + exfalso. assert (Hhead : R (String c a ++ b) = label p ++ R t) by (rewrite Ht; apply replace_match; [by rewrite <- Ht|by rewrite Hm]).
      rewrite Hhead, Hl in H. destruct (match_at (pairs r) (String c a)) as [q|] eqn:Eq.
      * destruct (match_at_spec _ _ _ Eq) as [Hq [u Hu]]. destruct (st_first r Hr q Hq) as (d' & m' & Hm' & _). destruct (st_label r Hr q Hq) as (name' & Hl' & Hname').
        rewrite Hu in Eq, H. rewrite replace_match, Hl', str_app_assoc in H by (done || by rewrite Hm').
        destruct (labels_apart _ _ _ _ Hname' Hname H) as [<- _]. assert (Hpq : needle p = needle q).
        { apply (st_prefix r Hr); [done..|by rewrite Hl, Hl'|]. apply (prefix_within _ t); [|rewrite Hu, str_length_app in Hfit; lia].
          rewrite <- Ht, Hu, str_app_assoc. apply HasPrefix_app. by eexists. }
        rewrite Hu, str_length_app, Hpq in Hfit. lia.
      * rewrite replace_byte in H by done. unfold label_of in H. rewrite !str_app_cons in H. injection H as Hc _. rewrite Hm in Ht. rewrite !str_app_cons in Ht. injection Ht as -> _. done.
  - rewrite str_app_cons in E, H, Hstable |- *. pose proof (match_none _ (String c a) b ltac:(by rewrite str_app_cons)) as Ea.
    rewrite !str_app_cons in Hstable |- *. rewrite !replace_byte in H by done. rewrite !replace_byte by done. rewrite !str_app_cons in H |- *. injection H as H. f_equal.
    eapply (IH (String.length a)); [cbn; lia|done|done].
Qed.

(** A text that stays as it is matches nothing. *)
Lemma same_no_match s : R s = s → ∀ a b, s = a ++ b → R a = a ∧ R b = b.
Proof.
  induction s as [|c s IH]; intros H a b E; [by destruct a, b|]. destruct (match_at (pairs r) (String c s)) as [p|] eqn:Em.
  - exfalso. destruct (match_at_spec _ _ _ Em) as [Hp [t Ht]]. destruct (st_first r Hr p Hp) as (d & m & Hm & Hd). destruct (st_label r Hr p Hp) as (name & Hl & _).
    rewrite Ht in Em, H. rewrite replace_match, Hl in H by (done || by rewrite Hm). rewrite Hm in H. unfold label_of in H. rewrite !str_app_cons in H. by injection H as <- _.
  - rewrite replace_byte in H by done. injection H as H. destruct a as [|d a].
    + change ("" ++ b) with b in E. subst b. split; [done|]. by rewrite replace_byte, H.
    + rewrite str_app_cons in E. injection E as <- E. destruct (IH H a b E) as [Ha Hb]. split; [|done].
      rewrite replace_byte, Ha; [done|]. apply (match_none _ _ b). by rewrite str_app_cons, <- E.
Qed.
End stream.

(** ** A literal of a document *)

Lemma redact_skip r k s : redact_go r k s = redact_go r 0 (str_drop k s).
Proof. revert s. induction k as [|k IH]; intros [|c s]; try done. cbn [redact_go str_drop]. apply IH. Qed.
Lemma redact_past r body X : redact_go r (S (String.length body)) (body ++ String dquote X) = redact_go r 0 X.
Proof. rewrite redact_skip. f_equal. induction body as [|c body IH]; [done|]. rewrite str_app_cons. exact IH. Qed.

(** ** Text in UTF-8 *)

Definition valid (s : string) : Prop := invalid_from 0 s = None.

(** The forms and the labels of values are text. *)
Record textual (r : Redactor) : Prop := MkTextual {
  tl_loaded : broken r = false;
  tl_needle : ∀ p, p ∈ pairs r → needle p ≠ "" ∧ valid (needle p);
  tl_label : ∀ p, p ∈ pairs r → valid (label p)
}.

Section text.
Context (r : Redactor) (Ht : textual r).
Abbreviation R := (replace_go (pairs r) 0).

Lemma no_match_inside c s : cont c = true → match_at (pairs r) (String c s) = None.
Proof.
  intros Hc. destruct (match_at (pairs r) (String c s)) as [p|] eqn:E; [|done]. exfalso. destruct (match_at_spec _ _ _ E) as [Hp [t Hs]].
  destruct (tl_needle r Ht p Hp) as [Hne Hv]. destruct (rune_split _ Hne Hv) as (d & a & u & Hn & Hd & _). rewrite Hn, str_app_cons in Hs. injection Hs as -> _. by rewrite Hc in Hd.
Qed.
Lemma replace_inside a s : str_forall cont a = true → R (a ++ s) = a ++ R s.
Proof.
  induction a as [|c a IH]; [done|]. cbn [str_forall]. intros [Hc Ha]%andb_true_iff. rewrite !str_app_cons, replace_byte by (by apply no_match_inside). by rewrite IH.
Qed.

Lemma replace_valid s : valid s → valid (R s).
Proof.
  unfold valid. remember (String.length s) as n eqn:Hn. revert s Hn. induction n as [n IH] using lt_wf_ind. intros s -> Hv.
  destruct (decide (s = "")) as [->|Hs]; [done|]. destruct (match_at (pairs r) s) as [p|] eqn:E.
  - destruct (match_at_spec _ _ _ E) as [Hp [t ->]]. destruct (tl_needle r Ht p Hp) as [Hne Hnv]. rewrite replace_match by done.
    rewrite valid_app in Hv by done. rewrite valid_app by (by apply (tl_label r Ht)). eapply IH; [|done|done]. by apply append_length.
  - destruct (rune_split s Hs Hv) as (c & a & t & -> & _ & Ha & Hu). rewrite Hu in Hv. rewrite replace_byte, replace_inside, Hu by done.
    eapply IH; [|done|done]. cbn. rewrite str_length_app. lia.
Qed.

(** [redactedText] of a text is the text with its values replaced. *)
Lemma redactedText_replace s : valid s → redactedText (Redact r) s = R s.
Proof.
  intros Hv. unfold redactedText, Redact. rewrite (tl_loaded r Ht). destruct (pairs r) as [|p ps] eqn:Ep.
  - rewrite unmarshal_quote by done. cbn [default]. clear Hv. induction s as [|c s IH]; [done|]. by rewrite replace_byte, <- IH.
  - rewrite Valid_quote by done. rewrite quote_eq. cbn [redact_go Ascii.eqb Bool.eqb dquote]. rewrite (literal_quote _ _ "" Hv).
    rewrite redact_past. change (redact_go r 0 "") with "". cbn [dquote].
    unfold redact_literal. rewrite unquote_quote by done. cbn [is_key skip_space]. unfold replace, used_pairs. rewrite Ep.
    pose proof (replace_valid s Hv) as Hr. rewrite Ep in Hr.
    destruct (String.eqb_spec (replace_go (p :: ps) 0 s) s) as [He|He].
    + rewrite He. rewrite str_app_nil_r. rewrite <- quote_eq. by rewrite unmarshal_quote.
    + rewrite str_app_nil_r. by rewrite unmarshal_quote.
Qed.
End text.

(** ** A reply as it streams *)

(** A place to cut at: past the start, and where a rune starts. *)
Definition cut_place (raw : string) (cut : nat) : Prop := 0 < cut ∧ cut <= String.length raw ∧ (cut = String.length raw ∨ rune_start raw cut = true).

Lemma back_to_start_spec raw cut : cut <= String.length raw → back_to_start raw cut <= cut ∧ (back_to_start raw cut = 0 ∨ cut_place raw (back_to_start raw cut)).
Proof.
  induction cut as [|cut IH]; intros H; [split; [done|by left]|]. cbn [back_to_start].
  destruct (Nat.ltb_spec (S cut) (String.length raw)) as [Hlt|Hge]; cbn [andb].
  - destruct (rune_start raw (S cut)) eqn:E; cbn [negb]; [split; [done|]; right; split_and!; [lia|done|by right]|].
    destruct (IH ltac:(lia)) as [H1 H2]. split; [lia|done].
  - split; [done|]. right. split_and!; [lia|done|left; lia].
Qed.

Lemma by_spans_spec redact span raw whole rounds cut c h : cut <= String.length raw →
  by_spans redact span raw whole rounds cut = Some (c, h) → c <= cut ∧ cut_place raw c ∧ safe redact raw whole c = Some h.
Proof.
  revert cut. induction rounds as [|k IH]; intros cut Hc; [done|]. cbn [by_spans]. destruct (back_to_start_spec raw cut Hc) as [Hle Hp].
  destruct (back_to_start raw cut) as [|n] eqn:E; [done|]. destruct (safe redact raw whole (S n)) as [h'|] eqn:Es.
  - intros [= <- <-]. destruct Hp as [|Hp]; [done|]. done.
  - intros H. destruct (IH (S n - max (span - 1) 1) ltac:(lia) H) as (H1 & H2). split; [lia|done].
Qed.
Lemma by_runes_spec redact raw whole cut c h : cut <= String.length raw →
  by_runes redact raw whole cut = Some (c, h) → c <= cut ∧ cut_place raw c ∧ safe redact raw whole c = Some h.
Proof.
  induction cut as [|cut IH]; intros Hc; [done|]. cbn [by_runes]. destruct (rune_start raw (S cut)) eqn:E; cbn [negb].
  - destruct (safe redact raw whole (S cut)) as [h'|] eqn:Es.
    + intros [= <- <-]. split_and!; [done| |done]. split_and!; [lia|done|by right].
    + intros H. destruct (IH ltac:(lia) H) as [H1 H2]. split; [lia|done].
  - intros H. destruct (IH ltac:(lia) H) as [H1 H2]. split; [lia|done].
Qed.
Lemma cut_at_spec redact span raw whole c h : 0 < span → cut_at redact span raw whole = Some (c, h) →
  c + (span - 1) <= String.length raw ∧ cut_place raw c ∧ safe redact raw whole c = Some h.
Proof.
  intros Hs. unfold cut_at. destruct (by_spans _ _ _ _ _ _) as [[c' h']|] eqn:E.
  - intros [= <- <-]. apply by_spans_spec in E as (H1 & H2 & H3); [|lia]. split; [|done]. destruct H2 as [H2 _]. lia.
  - intros H. apply by_runes_spec in H as (H1 & H2 & H3); [|lia]. split; [|done]. destruct H2 as [H2 _]. lia.
Qed.

Lemma str_drop_length n s : String.length (str_drop n s) = String.length s - n.
Proof. revert s. induction n as [|n IH]; intros [|c s]; try done. cbn [str_drop String.length]. rewrite IH. lia. Qed.

Lemma cut_valid raw cut : valid raw → cut_place raw cut → valid (str_take cut raw) ∧ valid (str_drop cut raw).
Proof.
  intros Hv (_ & _ & Hp). apply valid_cut; [by rewrite str_take_drop|]. intros c t E. destruct Hp as [->|Hp].
  - apply (f_equal String.length) in E. rewrite str_drop_length in E. cbn in E. lia.
  - unfold rune_start in Hp. rewrite (str_at_drop _ _ _ _ E) in Hp. by apply negb_true_iff in Hp.
Qed.

Section streamed.
Context (r : Redactor) (Hr : streamable r) (Ht : textual r).
Abbreviation R := (replace_go (pairs r) 0).
Definition buffer (carry : string) : fragmentBuffer := MkBuffer (Redact r) (Span r) carry.

(** What is emitted and what is carried stand for what came, whatever comes. *)
Lemma push_stands carry s : valid carry → valid s → (Span r = 0 → carry = "") →
  ∃ out k, push s (buffer carry) = (out, buffer k) ∧ valid k ∧ (Span r = 0 → k = "") ∧ ∀ X, R ((carry ++ s) ++ X) = out ++ R (k ++ X).
Proof.
  intros Hc Hs H0. assert (Hraw : valid (carry ++ s)) by (unfold valid; by rewrite valid_app).
  unfold push. cbn [fb_span fb_redact fb_carry buffer]. destruct (Nat.eqb_spec (Span r) 0) as [Hz|Hz].
  { exists s, carry. split_and!; [done..|]. intros X. rewrite (H0 Hz). change ("" ++ s) with s. change ("" ++ X) with X.
    assert (Hp : pairs r = []).
    { destruct (pairs r) as [|p ps] eqn:E; [done|]. destruct (st_first r Hr p) as (c & t & Hn & _); [rewrite E; set_solver|]. unfold Span in Hz. by rewrite E, Hn in Hz. }
    rewrite Hp. assert (Hid : ∀ x, replace_go [] 0 x = x) by (induction x as [|c x IH]; [done|]; by rewrite replace_byte, IH). by rewrite !Hid. }
  set (raw := carry ++ s) in *. rewrite (redactedText_replace r Ht raw Hraw).
  assert (Hcut : ∀ cut, cut_place raw cut → cut + (Span r - 1) <= String.length raw → R (str_take cut raw) ++ R (str_drop cut raw) = R raw →
    valid (str_drop cut raw) ∧ ∀ X, R (raw ++ X) = R (str_take cut raw) ++ R (str_drop cut raw ++ X)).
  { intros cut Hp Hl He. split; [by apply cut_valid|]. intros X. rewrite <- (str_take_drop cut raw) at 1. apply split_stays; [done| |by rewrite str_take_drop].
    rewrite str_drop_length. lia. }
  assert (Hkeep : ∃ out k, ("", carrying raw (buffer carry)) = (out, buffer k) ∧ valid k ∧ (Span r = 0 → k = "") ∧ ∀ X, R (raw ++ X) = out ++ R (k ++ X)).
  { exists "", raw. by split_and!. }
  destruct (String.eqb_spec (R raw) raw) as [He|He].
  - destruct (back_to_start_spec raw (String.length raw - (Span r - 1)) ltac:(lia)) as [Hle Hp].
    destruct (back_to_start raw (String.length raw - (Span r - 1))) as [|n] eqn:E; [done|]. destruct Hp as [|Hp]; [done|].
    destruct (same_no_match r Hr raw He (str_take (S n) raw) (str_drop (S n) raw)) as [H1 H2]; [by rewrite str_take_drop|].
    destruct (Hcut (S n) Hp ltac:(lia)) as [Hv HX]; [by rewrite H1, H2, He, str_take_drop|].
    exists (str_take (S n) raw), (str_drop (S n) raw). split_and!; [done..|]. intros X. by rewrite HX, H1.
  - destruct (cut_at _ _ _ _) as [[cut head]|] eqn:E; [|done]. apply cut_at_spec in E as (Hl & Hp & Hsafe); [|lia].
    destruct (cut_valid raw cut Hraw Hp) as [Hv1 Hv2]. unfold safe in Hsafe.
    rewrite !(redactedText_replace r Ht) in Hsafe by done. destruct (String.eqb_spec (R (str_take cut raw) ++ R (str_drop cut raw)) (R raw)) as [Hw|]; [|done].
    injection Hsafe as <-. destruct (Hcut cut Hp Hl Hw) as [Hv HX]. exists (R (str_take cut raw)), (str_drop cut raw). by split_and!.
Qed.

Lemma pushes_stand fs : ∀ carry, Forall valid fs → valid carry → (Span r = 0 → carry = "") →
  streamed fs (buffer carry) = R (carry ++ foldr append "" fs).
Proof.
  unfold streamed. induction fs as [|s fs IH]; intros carry Hf Hc H0.
  - cbn [pushes foldr]. rewrite str_app_nil_r. change ("" ++ ?x) with x. unfold flush. cbn [fb_carry fb_span fb_redact buffer].
    destruct (Nat.eqb_spec (Span r) 0) as [Hz|Hz]; cbn [orb]; [by rewrite (H0 Hz)|]. destruct (String.eqb_spec carry "") as [->|_]; [done|].
    by apply redactedText_replace.
  - apply Forall_cons in Hf as [Hs Hf]. cbn [pushes foldr]. destruct (push_stands carry s Hc Hs H0) as (out & k & -> & Hk & Hk0 & HX).
    specialize (IH k Hf Hk Hk0). destruct (pushes fs (buffer k)) as [rest b]. rewrite str_app_assoc, IH. by rewrite <- HX, str_app_assoc.
Qed.
End streamed.

(** A reply redacted as it streams is the reply redacted whole: however it is cut
    into fragments, what is emitted of them, held back and flushed, joins up to
    the reply with every stored value in it replaced, so no value escapes by
    falling across two fragments and nothing else is changed. *)
Theorem stream_redacts_whole r fs : streamable r → textual r → Forall valid fs →
  streamed fs (fragments (Some r)) = redactedText (Redact r) (foldr append "" fs).
Proof.
  intros Hr Ht Hf. change (fragments (Some r)) with (buffer r ""). rewrite (pushes_stand r Hr Ht fs "" Hf) by done. symmetry. apply redactedText_replace; [done|].
  unfold valid. induction Hf as [|s fs Hs Hf IH]; [done|]. change (invalid_from 0 (s ++ foldr append "" fs) = None). rewrite (valid_app s _ Hs). exact IH.
Qed.

(** ** A payload

    A document is read with the white space and the escapes it was written with:
    [laid_out f v b b'] says that [b] writes [v], and that [b'] is [b] with the
    literal of each text that [f] changes, a key's or a value's, written anew, and
    every other byte as it was. *)

Definition space (w : string) : Prop := str_forall (λ c, (c =c " ") || (c =c tab) || (c =c newline) || (c =c "013")) w = true.

(** Between its quotes: no quote that no backslash is before. *)
Fixpoint escapes (body : string) : bool :=
  match body with
  | EmptyString => true
  | String c rest =>
      if c =c "\" then match rest with String _ rest => escapes rest | EmptyString => false end
      else negb (c =c dquote) && escapes rest
  end.
Definition spells (s body : string) : Prop := escapes body = true ∧ unquote 0 body = Some s.
Definition quoted (body : string) : string := String dquote (body ++ String dquote "").

Section laid_out.
Context (f : bool → string → string).

Definition retold (key : bool) (s body : string) : string :=
  if bool_decide (f key s = s) then quoted body else json_quote true (f key s).

Inductive laid_out : json → string → string → Prop :=
  | laid_null : laid_out JNull "null" "null"
  | laid_bool b (text := if b : bool then "true" else "false") : laid_out (JLeaf (LBool b)) text text
  | laid_num n : str_forall (λ c, negb (c =c dquote)) n = true → laid_out (JLeaf (LNum n)) n n
  | laid_str s body : spells s body → laid_out (JStr s) (quoted body) (retold false s body)
  | laid_arr l b b' : laid_items l b b' → laid_out (JArr l) ("[" ++ b ++ "]") ("[" ++ b' ++ "]")
  | laid_obj m b b' : laid_members m b b' → laid_out (JObj m) ("{" ++ b ++ "}") ("{" ++ b' ++ "}")
  | laid_before v w b b' : space w → laid_out v b b' → laid_out v (w ++ b) (w ++ b')
  | laid_after v w b b' : space w → laid_out v b b' → laid_out v (b ++ w) (b' ++ w)
with laid_items : list json → string → string → Prop :=
  | items_none w : space w → laid_items [] w w
  | items_last v b b' : laid_out v b b' → laid_items [v] b b'
  | items_more v l b b' c c' : l ≠ [] → laid_out v b b' → laid_items l c c' → laid_items (v :: l) (b ++ "," ++ c) (b' ++ "," ++ c')
with laid_members : object → string → string → Prop :=
  | members_none w : space w → laid_members [] w w
  | members_last p b b' : laid_member p b b' → laid_members [p] b b'
  | members_more p m b b' c c' : m ≠ [] → laid_member p b b' → laid_members m c c' → laid_members (p :: m) (b ++ "," ++ c) (b' ++ "," ++ c')
with laid_member : string * json → string → string → Prop :=
  | member_of k v before body after b b' : space before → spells k body → space after → laid_out v b b' →
      laid_member (k, v) (before ++ quoted body ++ after ++ ":" ++ b) (before ++ retold true k body ++ after ++ ":" ++ b').
End laid_out.
Scheme laid_out_mut := Minimality for laid_out Sort Prop
  with laid_items_mut := Minimality for laid_items Sort Prop
  with laid_members_mut := Minimality for laid_members Sort Prop
  with laid_member_mut := Minimality for laid_member Sort Prop.
Combined Scheme laid_all from laid_out_mut, laid_items_mut, laid_members_mut, laid_member_mut.

Section payload.
Context (r : Redactor).

Lemma redact_plain a X : str_forall (λ c, negb (c =c dquote)) a = true → redact_go r 0 (a ++ X) = a ++ redact_go r 0 X.
Proof. induction a as [|c a IH]; [done|]. cbn [str_forall]. intros [Hc Ha]%andb_true_iff. rewrite !str_app_cons. cbn [redact_go]. apply negb_true_iff in Hc. by rewrite Hc, IH. Qed.
Lemma redact_space w X : space w → redact_go r 0 (w ++ X) = w ++ redact_go r 0 X.
Proof.
  intros Hw. apply redact_plain. unfold space in Hw. induction w as [|c w IH]; [done|]. cbn [str_forall] in *. apply andb_true_iff in Hw as [Hc Hw].
  rewrite IH by done. rewrite andb_true_r. destruct (c =c dquote) eqn:E; [|done]. apply Ascii.eqb_eq in E as ->. done.
Qed.
Lemma is_key_space w X : space w → is_key (w ++ X) = is_key X.
Proof.
  unfold is_key, space. intros Hw. f_equal. induction w as [|c w IH]; [done|]. cbn [str_forall] in Hw. apply andb_true_iff in Hw as [Hc Hw].
  rewrite str_app_cons. cbn [skip_space]. unfold json_space. by rewrite Hc, IH.
Qed.

Lemma literal_escapes body X : escapes body = true → literal (body ++ String dquote X) = Some (body, X).
Proof.
  remember (String.length body) as n eqn:Hn. revert body Hn. induction n as [n IH] using lt_wf_ind. intros [|c body] -> He; [done|].
  rewrite str_app_cons. cbn [literal escapes] in *. destruct (c =c "\") eqn:Ec.
  - apply Ascii.eqb_eq in Ec as ->. destruct body as [|d body]; [done|]. rewrite str_app_cons. cbn [Ascii.eqb Bool.eqb dquote].
    by rewrite (IH (String.length body)) by (cbn; lia || done).
  - apply andb_true_iff in He as [Hq He]. apply negb_true_iff in Hq. rewrite Hq. by rewrite (IH (String.length body)) by (cbn; lia || done).
Qed.

Lemma redact_spelt s body X : spells s body → redact_go r 0 (quoted body ++ X) = retold (replace r) (is_key X) s body ++ redact_go r 0 X.
Proof.
  intros [He Hu]. assert (quoted body ++ X = String dquote (body ++ String dquote X)) as -> by (unfold quoted; by rewrite str_app_cons, str_app_assoc).
  cbn [redact_go Ascii.eqb Bool.eqb dquote]. rewrite (literal_escapes body X He). fold dquote. rewrite redact_past. f_equal. unfold redact_literal, retold. rewrite Hu.
  destruct (String.eqb_spec (replace r (is_key X) s) s); [by rewrite bool_decide_eq_true_2|by rewrite bool_decide_eq_false_2].
Qed.

(** What the walk makes of a document before what is no colon. *)
Lemma redact_laid :
  (∀ v b b', laid_out (replace r) v b b' → ∀ X, is_key X = false → redact_go r 0 (b ++ X) = b' ++ redact_go r 0 X) ∧
  (∀ l b b', laid_items (replace r) l b b' → ∀ X, is_key X = false → redact_go r 0 (b ++ X) = b' ++ redact_go r 0 X) ∧
  (∀ m b b', laid_members (replace r) m b b' → ∀ X, is_key X = false → redact_go r 0 (b ++ X) = b' ++ redact_go r 0 X) ∧
  ∀ p b b', laid_member (replace r) p b b' → ∀ X, is_key X = false → redact_go r 0 (b ++ X) = b' ++ redact_go r 0 X.
Proof.
  apply laid_all.
  - intros X _. by apply (redact_plain "null").
  - intros b text X _. apply redact_plain. by destruct b.
  - intros n Hn X _. by apply redact_plain.
  - intros s body Hs X HX. by rewrite (redact_spelt s), HX.
  - intros l b b' _ IH X HX. rewrite !str_app_assoc, (redact_plain "[") by done. rewrite IH by done. by rewrite (redact_plain "]").
  - intros m b b' _ IH X HX. rewrite !str_app_assoc, (redact_plain "{") by done. rewrite IH by done. by rewrite (redact_plain "}").
  - intros v w b b' Hw _ IH X HX. by rewrite !str_app_assoc, redact_space, IH.
  - intros v w b b' Hw _ IH X HX. rewrite !str_app_assoc, IH, redact_space; [done|done|by rewrite is_key_space].
  - intros w Hw X _. by apply redact_space.
  - intros v b b' _ IH. exact IH.
  - intros v l b b' c c' _ _ IHb _ IHc X HX. rewrite !str_app_assoc, IHb by done. by rewrite (redact_plain ","), IHc.
  - intros w Hw X _. by apply redact_space.
  - intros p b b' _ IH. exact IH.
  - intros p m b b' c c' _ _ IHb _ IHc X HX. rewrite !str_app_assoc, IHb by done. by rewrite (redact_plain ","), IHc.
  - intros k v before body after b b' Hb Hk Ha _ IH X HX. rewrite !str_app_assoc, redact_space, (redact_spelt k), is_key_space, redact_space by done.
    by rewrite (redact_plain ":"), IH.
Qed.

Lemma laid_same : (∀ key s, replace r key s = s) →
  (∀ v b b', laid_out (replace r) v b b' → b' = b) ∧ (∀ l b b', laid_items (replace r) l b b' → b' = b) ∧
  (∀ m b b', laid_members (replace r) m b b' → b' = b) ∧ ∀ p b b', laid_member (replace r) p b b' → b' = b.
Proof.
  intros Hid. apply laid_all; intros; subst; try done; unfold retold; by rewrite Hid, bool_decide_eq_true_2.
Qed.
End payload.

(** C27: A payload keeps its structure, however it is laid out and its texts escaped:
    redacting a document gives the same document with the literal of each text that
    holds a value written anew with the value replaced, a key's as a key's, in which
    the short values are left alone, and every other byte of it, white space, numbers,
    literals and brackets, as it was. *)
Theorem Redact_keeps_structure r v b b' : broken r = false → laid_out (replace r) v b b' → Valid b = true → Redact r b = b'.
Proof.
  intros Hb Hl Hv. unfold Redact. rewrite Hb, Hv. destruct (pairs r) as [|p ps] eqn:E.
  - symmetry. eapply (proj1 (laid_same r _) v); [exact Hl].
    Unshelve. intros key s. unfold replace, used_pairs. rewrite E. destruct key; cbn [List.filter]; (induction s as [|c s IH]; [done|by rewrite replace_byte, IH]).
  - pose proof (proj1 (redact_laid r) v b b' Hl "" eq_refl) as H. by rewrite !str_app_nil_r in H.
Qed.
(** ** A session *)

(** A session's readings of its store: what each call of [Current] gives. *)
Fixpoint readings (obs : list (freshStamp * option Redactor)) (f : Fresh) : list Redactor :=
  match obs with
  | [] => []
  | (st, loaded) :: obs => let '(r, f) := Current st loaded f in r :: readings obs f
  end.

(** Every form of a value that [r] looks for, [r'] does. *)
Definition covers (r r' : Redactor) : Prop := ∀ n, n ∈ map needle (pairs r) → n ∈ map needle (pairs r').

Lemma union_needles r old n : n ∈ map needle (pairs (union r old)) ↔ n ∈ map needle (pairs r) ∨ n ∈ map needle (pairs old).
Proof.
  unfold union. cbn [pairs]. rewrite !list_elem_of_fmap. split.
  - intros (p & -> & Hp). apply longest_elem, elem_of_app in Hp as [Hp|Hp]; [left; by exists p|right]. apply list_elem_of_In, filter_In in Hp as [Hp _]. exists p. split; [done|by apply list_elem_of_In].
  - intros [(p & -> & Hp)|(p & -> & Hp)]; [exists p; split; [done|]; apply longest_elem, elem_of_app; by left|].
    destruct (decide (needle p ∈ map needle (pairs r))) as [H|H].
    + apply list_elem_of_fmap in H as (q & E & Hq). exists q. split; [done|]. apply longest_elem, elem_of_app. by left.
    + exists p. split; [done|]. apply longest_elem, elem_of_app. right. apply list_elem_of_In, filter_In. split; [by apply list_elem_of_In|].
      apply negb_true_iff. by apply bool_decide_eq_false.
Qed.

(** A store that loads gives a redactor that does not withhold. *)
Definition loads (obs : list (freshStamp * option Redactor)) : Prop := Forall (λ o, ∀ r, snd o = Some r → broken r = false) obs.
Definition started (f : Fresh) : Prop := broken (fr_red f) = true → pairs (fr_red f) = [].

Lemma Current_keeps st loaded f : (∀ r, loaded = Some r → broken r = false) → started f →
  let '(r, f') := Current st loaded f in started f' ∧ covers (fr_red f) (fr_red f') ∧ (broken r = true ∧ pairs r = [] ∨ r = fr_red f').
Proof.
  intros Hl Hs. assert (Hrefl : covers (fr_red f) (fr_red f)) by (intros n Hn; exact Hn).
  unfold Current. destruct (fs_ok st && _); [destruct (fr_down f); (split; [done|split; [exact Hrefl|]]); [by left|by right]|].
  destruct loaded as [r|]; [|split; [done|split; [exact Hrefl|by left]]]. destruct (fs_ok st); cbn [negb]; [|split; [done|split; [exact Hrefl|by left]]].
  destruct (broken (fr_red f)) eqn:Eb; (split; [intros H; cbn in H|split; [intros n Hn; cbn|by right]]).
  - by rewrite (Hl r eq_refl) in H.
  - rewrite (Hs Eb) in Hn. by apply elem_of_nil in Hn.
  - done.
  - apply union_needles. by right.
Qed.

Lemma readings_keep obs : ∀ f, loads obs → started f → ∀ i r, readings obs f !! i = Some r → broken r = true ∨ covers (fr_red f) r.
Proof.
  induction obs as [|[st loaded] obs IH]; intros f Hl Hs i r H; [done|]. apply Forall_cons in Hl as [Hl1 Hl]. cbn [readings] in H.
  pose proof (Current_keeps st loaded f Hl1 Hs) as Hc. destruct (Current st loaded f) as [r1 f1]. destruct Hc as (Hs1 & Hcov & Hr1).
  destruct i as [|i].
  - injection H as <-. destruct Hr1 as [[? _]| ->]; [by left|by right].
  - destruct (IH f1 Hl Hs1 i r H) as [?|Hr]; [by left|]. right. intros n Hn. by apply Hr, Hcov.
Qed.

(** C28: A session never forgets a value it has redacted: whatever is added, rotated
    or removed in the store, and however often it cannot be read, at every moment
    of the session what is redacted holds every form that was redacted at any
    moment before, or everything is withheld. *)
Theorem Fresh_keeps obs f i j r r' : loads obs → started f → i <= j →
  readings obs f !! i = Some r → readings obs f !! j = Some r' → broken r' = true ∨ covers r r'.
Proof.
  revert f i j. induction obs as [|[st loaded] obs IH]; intros f i j Hl Hs Hij Hi Hj; [done|]. apply Forall_cons in Hl as [Hl1 Hl].
  cbn [readings] in Hi, Hj. pose proof (Current_keeps st loaded f Hl1 Hs) as Hc. destruct (Current st loaded f) as [r1 f1]. destruct Hc as (Hs1 & Hcov & Hr1).
  destruct i as [|i], j as [|j]; [| |lia|].
  - injection Hi as <-. injection Hj as <-. right. by intros n.
  - injection Hi as <-. destruct (readings_keep obs f1 Hl Hs1 j r' Hj) as [?|Hr]; [by left|]. destruct Hr1 as [[_ Hp]| ->]; [right|by right].
    intros n Hn. rewrite Hp in Hn. by apply elem_of_nil in Hn.
  - apply (IH f1 i j); [done|done|lia|done|done].
Qed.

(** ** Runs *)

(** The conditions on a redactor, computed. *)
Definition named (p : pair) : bool :=
  let name := str_take (String.length (label p) - 9) (str_drop 8 (label p)) in
  String.eqb (label p) (label_of name) && str_forall (λ c, negb (c =c "]")) name.
Definition streamable_b (r : Redactor) : bool :=
  forallb (λ p, named p && match needle p with String c _ => negb (c =c "[") | EmptyString => false end && (String.length (needle p) <=? Span r) &&
    forallb (λ q, implb (String.eqb (label p) (label q) && HasPrefix (needle p) (needle q)) (String.eqb (needle p) (needle q))) (pairs r)) (pairs r).
Definition textual_b (r : Redactor) : bool :=
  negb (broken r) && forallb (λ p, negb (opt_some (invalid_from 0 (needle p))) && negb (String.eqb (needle p) "") && negb (opt_some (invalid_from 0 (label p)))) (pairs r).

Lemma streamable_check r : streamable_b r = true → streamable r.
Proof.
  unfold streamable_b. rewrite forallb_forall. intros H. assert (H' : ∀ p, p ∈ pairs r → _) by (intros p Hp; exact (H p (proj1 (list_elem_of_In _ _) Hp))).
  clear H. split.
  - intros p Hp. specialize (H' p Hp). bool_to_prop. unfold named in *. bool_to_prop. eexists. split; [by apply String.eqb_eq|done].
  - intros p Hp. specialize (H' p Hp). bool_to_prop. destruct (needle p) as [|c t]; [done|]. exists c, t. split; [done|]. intros ->. done.
  - intros p Hp. specialize (H' p Hp). bool_to_prop. by apply Nat.leb_le.
  - intros p q Hp Hq Hl Hn. specialize (H' p Hp). bool_to_prop. match goal with H : forallb _ _ = true |- _ => rewrite forallb_forall in H; specialize (H q (proj1 (list_elem_of_In _ _) Hq)) end.
    rewrite Hl, String.eqb_refl, Hn in *. cbn [andb implb] in *. by apply String.eqb_eq.
Qed.
Lemma textual_check r : textual_b r = true → textual r.
Proof.
  unfold textual_b. intros [Hb H]%andb_true_iff. rewrite forallb_forall in H.
  assert (H' : ∀ p, p ∈ pairs r → needle p ≠ "" ∧ valid (needle p) ∧ valid (label p)).
  { intros p Hp. specialize (H p (proj1 (list_elem_of_In _ _) Hp)). bool_to_prop. split_and!; [by apply String.eqb_neq| |]; unfold valid;
      match goal with |- invalid_from 0 ?x = None => destruct (invalid_from 0 x); done end. }
  split; [by apply negb_true_iff| |]; intros p Hp; destruct (H' p Hp) as (? & ? & ?); done.
Qed.

(** A store of one value. *)
Definition a_store : list (string * string) := [("API_KEY", "k3y/with?12 chars")].
Definition a_redactor : Redactor := LoadRedactor case_text a_store.

(** The value in a reply whose fragments cut it twice. *)
Definition a_reply : list string := ["the key is k3y/wi"; "th?12"; " chars, "; "keep it"].
Example a_reply_streams : streamed a_reply (fragments (Some a_redactor)) = "the key is [secret:API_KEY], keep it".
Proof. vm_compute. reflexivity. Qed.

Lemma stream_redacts_whole_witness : streamed a_reply (fragments (Some a_redactor)) = redactedText (Redact a_redactor) "the key is k3y/with?12 chars, keep it".
Proof.
  apply (stream_redacts_whole a_redactor a_reply); [apply streamable_check; vm_compute; reflexivity|apply textual_check; vm_compute; reflexivity|].
  repeat constructor.
Defined.

Lemma base64_found_witness :
  let text := "token " ++ RawStdEncoding ("user:" ++ "k3y/with?12 chars" ++ "@host") ++ "==" in
  (∃ p, p ∈ pairs a_redactor ∧ label p = "[secret:API_KEY]" ∧ Contains text (needle p) = true) ∧ is_Some (Find a_redactor text).
Proof. apply (base64_found case_text a_store "API_KEY"); [by left|apply Nat.leb_le; vm_compute; reflexivity|by left]. Defined.

Definition short_secret : Redactor := LoadRedactor case_text [("PIN", "type")].
Definition a_payload : json := JObj [("type", JStr "the type is"); ("n", JLeaf (LNum "1.5")); ("list", JArr [JStr "type"; JNull])].
(** Written with white space, and one text with an escape. *)
Definition a_text (lit : bool → string → string → string) : string :=
  "{" ++ ((" " ++ lit true "type" "type" ++ " " ++ ":" ++ (" " ++ lit false "the type is" "the type is")) ++ "," ++
    (("" ++ lit true "n" "n" ++ "" ++ ":" ++ "1.5") ++ "," ++
     ("" ++ lit true "list" "list" ++ "" ++ ":" ++ (" " ++ ("[" ++ (lit false "type" "\u0074ype" ++ "," ++ (" " ++ ("null" ++ " "))) ++ "]"))))) ++ "}".
Lemma a_payload_laid f : laid_out f a_payload (a_text (λ _ _, quoted)) (a_text (retold f)).
Proof.
  apply laid_obj, members_more; [done| |apply members_more; [done| |apply members_last]].
  - apply (member_of f "type" _ " " "type"); [done..|]. apply laid_before; [done|]. by apply (laid_str f "the type is").
  - apply (member_of f "n" _ "" "n"); [done..|]. by apply laid_num.
  - apply (member_of f "list" _ "" "list"); [done..|]. apply laid_before; [done|]. apply laid_arr, items_more; [done| |apply items_last].
    + by apply (laid_str f "type").
    + apply laid_before; [done|]. apply laid_after; [done|]. apply laid_null.
Qed.
Lemma Redact_keeps_structure_witness :
  Redact short_secret (a_text (λ _ _, quoted)) =
  a_text (λ key s body, if key then quoted body else if String.eqb s "type" then quoted "[secret:PIN]" else quoted "the [secret:PIN] is").
Proof.
  transitivity (a_text (retold (replace short_secret))); [|vm_compute; reflexivity].
  apply (Redact_keeps_structure short_secret a_payload); [reflexivity|apply a_payload_laid|vm_compute; reflexivity].
Defined.

Lemma replace_covers_witness : ∃ l, cut_up (pairs a_redactor) "k3y/with?12 chars" (replace a_redactor false "k3y/with?12 chars") l.
Proof. apply (replace_covers a_redactor false). intros p Hp. by apply (tl_needle _ (textual_check a_redactor ltac:(vm_compute; reflexivity))). Defined.

(** A value rotated, while the store cannot be read between. *)
Definition stamp_at (t : Z) : freshStamp := stamp_of (StatOf t 2 3 4 384).
Definition a_session : list (freshStamp * option Redactor) :=
  [(stamp_at 1, Some a_redactor); (stamp_at 2, None); (stamp_at 3, Some short_secret)].
Lemma Fresh_keeps_witness : ∃ r', readings a_session (NewFresh (stamp_at 0) a_redactor) !! 2 = Some r' ∧ (broken r' = true ∨ covers a_redactor r').
Proof.
  eexists. split; [vm_compute; reflexivity|].
  apply (Fresh_keeps a_session (NewFresh (stamp_at 0) a_redactor) 0 2); [|done|lia|vm_compute; reflexivity|vm_compute; reflexivity].
  repeat constructor; cbn; by intros r [= <-].
Defined.

(** [FindSent] decodes for eight rounds, half of [maxDecodes]: a value
    percent-encoded nine times is not found. *)
Fixpoint encoded_times (n : nat) (s : string) : string := match n with 0 => s | S n => PathEscape (encoded_times n s) end.
Definition escaped_byte (rest : string) : string := "%6b" ++ rest.
Definition deep (n : nat) : string := encoded_times n (escaped_byte "3y/with?12 chars").
Example decoded_eight : FindSent case_text a_redactor (deep 7) = Some "[secret:API_KEY]".
Proof. vm_compute. reflexivity. Qed.
Example nine_encodings_pass : FindSent case_text a_redactor (deep 8) = None.
Proof. vm_compute. reflexivity. Qed.
