(* ===== verification/Kubescope.v ===== *)
(** Which Kubernetes resources live in a namespace, and the manifest an apply
    is judged by (src/internal/kubescope). *)

From Stdlib Require Import ZArith NArith Ascii String Lia.
From stdpp Require Import base tactics list option strings.
From S2P Require Import Prelude.
From S2P Require Import GoStd.
From S2P Require Import Errors.
From S2P Require Import GoNet.
From S2P Require Import GoPath.
From S2P Require Import ShellSplit.
From S2P Require Import Args.

#[local] Open Scope string_scope.
#[local] Open Scope nat_scope.
#[local] Open Scope go_scope.

(** The namespace a cluster-scoped object is judged under. *)
Definition ClusterWide : string := "-".

Definition clusterResources : list string :=
  ["nodes"; "namespaces"; "persistentvolumes"; "clusterroles"; "clusterrolebindings"; "storageclasses";
   "customresourcedefinitions"; "priorityclasses"; "validatingwebhookconfigurations"; "mutatingwebhookconfigurations";
   "validatingadmissionpolicies"; "validatingadmissionpolicybindings"; "ingressclasses"; "apiservices";
   "certificatesigningrequests"; "runtimeclasses"; "csidrivers"; "csinodes"; "volumeattachments"; "flowschemas";
   "prioritylevelconfigurations"; "componentstatuses"].

Definition ClusterScopedResource (plural : string) : bool := word_in clusterResources plural.

Definition clusterKinds : list string :=
  ["namespace"; "node"; "persistentvolume"; "clusterrole"; "clusterrolebinding"; "storageclass";
   "customresourcedefinition"; "priorityclass"; "validatingwebhookconfiguration"; "mutatingwebhookconfiguration";
   "validatingadmissionpolicy"; "validatingadmissionpolicybinding"; "ingressclass"; "apiservice";
   "certificatesigningrequest"; "runtimeclass"; "csidriver"; "csinode"; "volumeattachment"; "flowschema";
   "prioritylevelconfiguration"; "componentstatus"].

Definition namespacedKinds : list string :=
  ["pod"; "service"; "configmap"; "secret"; "serviceaccount"; "endpoints"; "persistentvolumeclaim";
   "replicationcontroller"; "event"; "limitrange"; "resourcequota"; "podtemplate"; "deployment"; "statefulset";
   "daemonset"; "replicaset"; "controllerrevision"; "job"; "cronjob"; "ingress"; "networkpolicy"; "role";
   "rolebinding"; "poddisruptionbudget"; "horizontalpodautoscaler"; "lease"; "endpointslice"; "csistoragecapacity"].

(** The bytes of a DNS label, and one: [^[a-z0-9]([-a-z0-9]*[a-z0-9])?$]. *)
Definition label_end (c : ascii) : bool := in_range "a" "z" c || in_range "0" "9" c.
Definition label (s : string) : bool :=
  match s, last_byte s with
  | String c _, Some d => label_end c && label_end d && str_forall (λ c, label_end c || (c =c "-")) s
  | _, _ => false
  end.

Definition ValidNamespace (ns : string) : bool :=
  String.eqb ns "" || String.eqb ns "*" || ((String.length ns <=? 63) && label ns).

(** Runes no name may have. *)
Definition name_rune (r : N) : bool :=
  ((r <=? 32) || (r =? 127) || ((128 <=? r) && (r <=? 159)) || (r =? 8232) || (r =? 8233) || (r =? 160))%N.
Definition ValidName (name : string) : bool :=
  negb (String.eqb name "." || Contains name ".." || ContainsAny name "/?#%\") &&
  negb (existsb name_rune (runes name)).

Definition letter (c : ascii) : bool := in_range "A" "Z" c || in_range "a" "z" c.
Definition ValidKind (kind : string) : bool :=
  match kind with
  | String c r => letter c && str_forall (λ c, letter c || in_range "0" "9" c) r
  | EmptyString => false
  end.

(** [v[0-9]+[a-z0-9]*]. *)
Definition version_word (s : string) : bool :=
  match s with
  | String v (String d r) => (v =c "v") && in_range "0" "9" d && str_forall label_end r
  | _ => false
  end.
Definition ValidAPIVersion (v : string) : bool :=
  match Cut v "/" with
  | None => version_word v
  | Some (group, v) => forallb label (Split group ".") && version_word v
  end.

Section scope.
Context (tx : Text) (lex : string → RawMessage).

(** Whether the kind is namespaced, and whether its scope is known. *)
Definition KindScope (kind : string) : bool * bool :=
  let k := tx_lower tx kind in
  if word_in namespacedKinds k then (true, true)
  else if word_in clusterKinds k then (false, true)
  else (false, false).

(** The plural of each singular and short form. *)
Definition short_forms : list (list string * string) :=
  [(["po"; "pod"], "pods"); (["deploy"; "deployment"], "deployments"); (["svc"; "service"], "services");
   (["ns"; "namespace"], "namespaces"); (["no"; "node"], "nodes"); (["cm"; "configmap"], "configmaps");
   (["sts"; "statefulset"], "statefulsets"); (["ds"; "daemonset"], "daemonsets"); (["rs"; "replicaset"], "replicasets");
   (["ing"; "ingress"], "ingresses"); (["job"], "jobs"); (["cj"; "cronjob"], "cronjobs"); (["ev"; "event"], "events");
   (["pvc"], "persistentvolumeclaims"); (["pv"], "persistentvolumes"); (["sa"], "serviceaccounts");
   (["secret"], "secrets")].

Definition Resource (r : string) : string :=
  let r := tx_lower tx (TrimSpace r) in
  default r (snd <$> find_first (λ p, word_in (fst p) r) short_forms).

(** ** Manifests *)

Record Manifest : Type := MkManifest {
  mf_Object : object; mf_Kind : string; mf_APIVersion : string; mf_Name : string; mf_Namespace : string;
  mf_Canonical : string
}.

Definition canonicalTop : list string := ["apiVersion"; "kind"; "metadata"].
Definition canonicalMeta : list string := ["name"; "namespace"].

(** The items of the JSON list the tokens write; [None] when they write none. *)
Fixpoint count_items (depth n : nat) (toks : list token) : option nat :=
  match toks with
  | [] => None
  | t :: toks =>
      let n' := if depth =? 1 then S n else n in
      match t with
      | OpenObj | OpenArr => count_items (S depth) n' toks
      | Leaf _ => count_items depth n' toks
      | CloseObj | CloseArr =>
          match depth with
          | S (S d) => count_items (S d) n toks
          | _ => if length toks =? 0 then Some n else None
          end
      end
  end.
Definition list_items (raw : RawMessage) : option nat :=
  match rw_tokens raw, rw_end raw with
  | OpenArr :: toks, None => count_items 1 0 toks
  | _, _ => None
  end.

(** A key that folds to one of the names but is not it; the first found. *)
Fixpoint exactKeys (m : object) (names : list string) (prefix : string) : option error :=
  match m with
  | [] => None
  | (k, _) :: m =>
      match find_first (λ n, negb (String.eqb k n) && same_fold tx k n) names with
      | Some n => Some (plain ("the manifest's " ++ prefix ++ Quote k ++ " must be spelled " ++ Quote n))
      | None => exactKeys m names prefix
      end
  end.

Definition stringField (m : object) (key label : string) : result string :=
  match field m key with
  | None | Some JNull => Ok ""
  | Some (JStr s) => Ok s
  | Some _ => Fail (plain ("the manifest's " ++ label ++ " must be a string"))
  end.

(** The metadata's name and namespace. *)
Definition read_metadata (m : object) : result (string * string) :=
  match field m "metadata" with
  | None | Some JNull => Ok ("", "")
  | Some (JObj meta) =>
      match exactKeys meta canonicalMeta "metadata." with
      | Some e => Fail e
      | None =>
          let? name := stringField meta "name" "metadata.name" in
          let? ns := stringField meta "namespace" "metadata.namespace" in
          Ok (name, ns)
      end
  | Some _ => Fail (plain "the manifest's metadata must be an object")
  end.

Definition DecodeManifest (s : string) : result Manifest :=
  let trimmed := TrimSpace s in
  if String.eqb trimmed "" || String.eqb trimmed "null" then Fail (plain "the manifest is empty")
  else if HasPrefix trimmed "[" then
    Fail (plain match list_items (lex trimmed) with
                | Some n => "the manifest is a JSON list of " ++ Itoa (Z.of_nat n) ++
                    " items; k8s_apply takes one object, so apply each item in its own call"
                | None => "the manifest is a JSON list; k8s_apply takes one object, so apply each item in its own call"
                end)
  else
    match decode_args tx (lex s) with
    | Fail e =>
        Fail (plain ("the manifest must be one JSON object with each key once, in any case: " ++
          TrimPrefix (e_text e) "malformed arguments: "))
    | Ok obj =>
        match exactKeys obj canonicalTop "" with
        | Some e => Fail e
        | None =>
            let? kind := stringField obj "kind" "kind" in
            let? version := stringField obj "apiVersion" "apiVersion" in
            let? (name, ns) := read_metadata obj in
            Ok (MkManifest obj kind version name ns (canonical_text obj))
        end
    end.

(** ** What is judged is what is applied *)

Lemma exactKeys_reads m names prefix : exactKeys m names prefix = None →
  ∀ n, n ∈ names → Lookup tx m n = field m n.
Proof.
  intros H n Hn. unfold Lookup. destruct (field m n) eqn:Ef; [done|].
  assert (find_first (λ p, same_fold tx (fst p) n) m = None) as ->; [|done].
  apply find_first_none_iff. intros [k v] Hin. simpl.
  assert (k ≠ n) as Hne.
  { intros ->. assert (opt_some (field m n) = false) as Hk%field_None by (by rewrite Ef).
    destruct Hk. by apply (list_elem_of_fmap_2 fst) in Hin. }
  clear Ef. induction m as [|[k0 v0] m IH]; [by apply elem_of_nil in Hin|]. simpl in H.
  destruct (find_first _ names) eqn:E; [done|]. apply elem_of_cons in Hin as [Hin|Hin]; [|by apply IH].
  simplify_eq. pose proof (find_first_None _ _ E n Hn) as Hf. simpl in Hf.
  apply andb_false_iff in Hf as [Hf|Hf]; [|done]. apply negb_false_iff, String.eqb_eq in Hf. congruence.
Qed.

(** The manifest a call is judged by is the one the API server is sent: a kind,
    version, name or namespace read in any case, as a struct reads it, is the one
    under the exact key, which is the one the manifest decodes to. *)
Theorem DecodeManifest_one_reading (s : string) (m : Manifest) :
  DecodeManifest s = Ok m →
  (∀ n, n ∈ canonicalTop → Lookup tx (mf_Object m) n = field (mf_Object m) n) ∧
  (∀ meta, field (mf_Object m) "metadata" = Some (JObj meta) →
     (∀ n, n ∈ canonicalMeta → Lookup tx meta n = field meta n) ∧
     stringField meta "name" "metadata.name" = Ok (mf_Name m) ∧
     stringField meta "namespace" "metadata.namespace" = Ok (mf_Namespace m)) ∧
  stringField (mf_Object m) "kind" "kind" = Ok (mf_Kind m) ∧
  mf_Canonical m = canonical_text (mf_Object m).
Proof.
  unfold DecodeManifest. destruct (_ || _); [done|]. destruct (HasPrefix _ _); [done|].
  destruct (decode_args tx (lex s)) as [obj|]; [|done].
  destruct (exactKeys obj canonicalTop "") eqn:Et; [done|].
  destruct (stringField obj "kind" "kind") as [kind|] eqn:Ek; [|done].
  destruct (stringField obj "apiVersion" "apiVersion") as [version|]; [|done].
  destruct (read_metadata obj) as [[name ns]|] eqn:Em; [|done]. intros [= <-]. simpl.
  split; [by eapply exactKeys_reads|]. split; [|done]. intros meta Hmeta. unfold read_metadata in Em.
  rewrite Hmeta in Em. destruct (exactKeys meta _ _) eqn:E; [done|].
  destruct (stringField meta "name" _) as [n'|] eqn:En; [|done].
  destruct (stringField meta "namespace" _) as [ns'|]; [|done]. injection Em as <- <-.
  split; [by eapply exactKeys_reads | done].
Qed.
End scope.

(** ** A concrete manifest *)

Definition pod_raw : RawMessage := MkRaw false
  [OpenObj; Leaf (LStr "kind"); Leaf (LStr "Pod"); Leaf (LStr "metadata"); OpenObj; Leaf (LStr "name");
   Leaf (LStr "web"); CloseObj; CloseObj] None.
Definition pod_object : object := [("kind", JStr "Pod"); ("metadata", JObj [("name", JStr "web")])].
Definition pod_manifest : Manifest := MkManifest pod_object "Pod" "" "web" "" (canonical_text pod_object).

Lemma DecodeManifest_one_reading_witness :
  DecodeManifest case_text (λ _, pod_raw) "{}" = Ok pod_manifest ∧
  Lookup case_text pod_object "kind" = Some (JStr "Pod").
Proof.
  assert (DecodeManifest case_text (λ _, pod_raw) "{}" = Ok pod_manifest) as H by (vm_compute; reflexivity).
  split; [exact H|].
  destruct (DecodeManifest_one_reading case_text (λ _, pod_raw) "{}" pod_manifest H) as [Hone _].
  etrans; [apply (Hone "kind"); right; left | reflexivity].
Defined.

Example cluster_wide_no_namespace : ValidNamespace ClusterWide = false. Proof. reflexivity. Qed.
Example api_versions : map ValidAPIVersion ["v1"; "apps/v1beta2"; "a..b/v1"; "v"; "apps/v1/x"] = [true; true; false; false; false].
Proof. reflexivity. Qed.
