(* ===== verification/PolicyEngine.v ===== *)
(** The permission decision (src/internal/policy: policy.go's [Engine], scope.go,
    gitscope.go): what a call is judged on, the ordered steps, and what a
    person is offered.

    The host's files (links, disk case, programs on PATH, git's fingerprint), the
    reading of scripts (script.go) and [url.Parse] are parameters, as is the
    shell parser ([Reader]). A hook is what it gives and the state of its
    context before and after it. *)

From Stdlib Require Import ZArith NArith Ascii String Lia.
From stdpp Require Import base tactics list option strings gmap.
From S2P Require Import Prelude.
From S2P Require Import GoStd.
From S2P Require Import Errors.
From S2P Require Import GoNet.
From S2P Require Import GoPath.
From S2P Require Import Glob.
From S2P Require Import ShellSplit.
From S2P Require Import PolicyRule.
From S2P Require Import Overlay.
From S2P Require Import Remote.
From S2P Require Import Args.
From S2P Require Import Kubescope.

#[local] Open Scope string_scope.
#[local] Open Scope nat_scope.
#[local] Open Scope go_scope.

(** ** Decisions *)

Definition Mode : Type := string.
Definition ModeDefault : Mode := "default".
Definition ModeAcceptEdits : Mode := "accept-edits".
Definition ModePlan : Mode := "plan".
Definition ModeAuto : Mode := "auto".
Definition ModeBypass : Mode := "bypass".

(** A hook may give a decision that is none of the three. *)
Inductive Decision : Set := Allow | Ask | Deny | OtherDecision (s : string).

#[export] Instance Decision_eq_dec : EqDecision Decision.
Proof. solve_decision. Defined.

Record Result : Type := MkResult {
  res_Decision : Decision; res_Reason : string; res_Scope : string; res_Step : string; res_Rule : string;
  res_Suggest : string; res_Layer : string; res_Guard : string
}.

(** A result with no rule. *)
Definition decided (d : Decision) (step reason : string) : Result := MkResult d reason "" step "" "" "" "".
Definition by_rule (d : Decision) (step reason : string) (r : Rule) : Result :=
  MkResult d reason "" step (pr_raw r) "" (pr_layer r) "".

Definition Offer (r : Result) : string :=
  if negb (bool_decide (res_Decision r = Ask)) || negb (String.eqb (res_Step r) "default") then "" else res_Scope r.

Definition Covers (r : Result) (scope guard : string) : bool :=
  negb (String.eqb scope "") && String.eqb scope (Offer r) && String.eqb guard (res_Guard r).

(** [managed.ConfigFile]. *)
Definition ConfigFile : string := "/etc/abhed/config.json".

(** ** The engine and its host *)

Inductive ctx_err : Set := CtxLive | CtxDeadline | CtxCanceled.
Definition ctx_done (c : ctx_err) : bool := match c with CtxLive => false | _ => true end.

(** One hook of a decision: its answer and its context around it. A hook that asks the
    engine it runs under something is taken for its answer under that engine, so two
    engines compared with the same hooks are compared on the same answers. *)
Record hook_run : Type := MkHook { hk_before : ctx_err; hk_result : option Result; hk_after : ctx_err }.
Definition Hook : Type := string → RawMessage → hook_run.

Record scriptRead : Type := MkScripts { sc_subjects : list string; sc_refuse : string; sc_ask : string }.
Definition no_scripts : scriptRead := MkScripts [] "" "".

Record Engine : Type := MkEngine {
  en_Mode : Mode; en_lists : RuleLists; en_Hooks : list Hook; en_EngineHooks : list Hook; en_ContextHooks : list Hook;
  en_Managed : bool; en_Session : Overlay; en_Roots : option (list string); en_Cwd : string;
  en_readScripts : Canonical → scriptRead;
  en_AskReadOnly : string → option (string → string);
  en_RemoteReads : list Rule; en_GitExtensions : list string
}.

Definition New (mode : Mode) : Engine :=
  MkEngine mode (MkLists [] [] []) [] [] [] false no_overlay None "" (λ _, no_scripts) (λ _, None) [] [].

Definition with_lists (l : RuleLists) (e : Engine) : Engine :=
  MkEngine (en_Mode e) l (en_Hooks e) (en_EngineHooks e) (en_ContextHooks e) (en_Managed e) (en_Session e)
    (en_Roots e) (en_Cwd e) (en_readScripts e) (en_AskReadOnly e) (en_RemoteReads e) (en_GitExtensions e).

Definition WithoutHooks (e : Engine) : Engine :=
  MkEngine (en_Mode e) (en_lists e) [] [] [] (en_Managed e) (en_Session e) (en_Roots e) (en_Cwd e)
    (en_readScripts e) (en_AskReadOnly e) (en_RemoteReads e) (en_GitExtensions e).

Definition WithReadOnlyAsk (tool : string) (askOf : string → string) (e : Engine) : Engine :=
  MkEngine (en_Mode e) (en_lists e) (en_Hooks e) (en_EngineHooks e) (en_ContextHooks e) (en_Managed e) (en_Session e)
    (en_Roots e) (en_Cwd e) (en_readScripts e)
    (λ t, if String.eqb t tool then Some askOf else en_AskReadOnly e t) (en_RemoteReads e) (en_GitExtensions e).

Definition rules (e : Engine) : RuleLists := engine_rules (en_lists e) (en_Session e).

(** What the host tells of its files, and [url.Parse]'s scheme and host. *)
Record Host : Type := MkHost {
  ho_RealPath : string → string; ho_DiskPath : string → string; ho_FoldsCaseAt : string → bool;
  ho_PATH : list string; ho_program : string → bool;    (* a file with an execute bit *)
  ho_GitFingerprint : list string → string;
  ho_url : string → option (string * string)
}.

(** ** What a call is judged on *)

Section engine.
Context (tx : Text) (reader : Reader) (lex : string → RawMessage) (host : Host).

(** The subject, the argument it is from, and the error: whether it is
    [errNonStringSubject], and its text. *)
Record subject : Type := MkSubject { su_key : string; su_text : string; su_err : option (bool * error) }.

Fixpoint subject_keys (m : object) (keys : list string) : subject :=
  match keys with
  | [] => MkSubject "" "" None
  | key :: keys =>
      match Lookup tx m key with
      | None | Some JNull => subject_keys m keys
      | Some (JStr s) => MkSubject key s None
      | Some v =>
          let text := MkSubject key (Marshal true v)
            (Some (true, malformed (plain (Quote key ++
              " is not a string or a list of strings, so a rule with a pattern cannot read it")))) in
          match v with
          | JArr l => match mapM as_string l with Some words => MkSubject key (Join words " ") None | None => text end
          | _ => text
          end
      end
  end.

Definition subjectOf (args : RawMessage) : subject :=
  match decode_args tx args with
  | Fail e => MkSubject "" "" (Some (false, e))
  | Ok m => subject_keys m SubjectKeys
  end.

(** A string argument, [""] when it is none. *)
Definition str_arg (m : object) (key : string) : string := default "" (Lookup tx m key ≫= as_string).

(** The subject of a call to a Kubernetes tool. *)
Definition clusterSubject (tool : string) (args : RawMessage) : option string :=
  if negb (String.eqb tool "k8s_login") && negb (String.eqb tool "k8s_get") && negb (String.eqb tool "k8s_apply") then None
  else
    match decode_args tx args with
    | Fail _ => None
    | Ok m =>
        let cluster := TrimSpace (str_arg m "cluster") in
        let where_ := if String.eqb cluster "" then "context:" ++ str_arg m "context" else cluster in
        let resource := Resource tx (str_arg m "resource") in
        let action := str_arg m "action" in
        if String.eqb tool "k8s_get" then
          let ns := if ClusterScopedResource resource then ClusterWide else str_arg m "namespace" in
          Some (where_ ++ "/" ++ ns ++ "/" ++ resource)
        else if String.eqb tool "k8s_apply" then
          let wide :=
            if String.eqb action "apply" then
              let kind := match DecodeManifest tx lex (str_arg m "manifest") with Ok mf => mf_Kind mf | Fail _ => "" end in
              let '(namespaced, known) := KindScope tx kind in negb namespaced || negb known
            else ClusterScopedResource resource in
          let ns := if wide then ClusterWide else str_arg m "namespace" in
          Some (where_ ++ "/" ++ ns ++ "/" ++ action)
        else Some where_
    end.

(** The subjects of the ssh tools (src/internal/remote: [Tool.PolicySubject] and
    [transferSubject]), the registered [Subjector]s. *)
Definition host_subject (args : RawMessage) (sep key : string) : option string :=
  match decode_args tx args with
  | Fail _ => None
  | Ok m =>
      let h := str_arg m "host" in
      if String.eqb h "" then None else Some (h ++ sep ++ str_arg m key)
  end.
Definition ssh_subject (args : RawMessage) : option string := host_subject args "/" "command".
Definition transferSubject (args : RawMessage) : option string := host_subject args ":" "remote_path".

Definition SubjectorFor (tool : string) : option (RawMessage → option string) :=
  if String.eqb tool "ssh" then Some ssh_subject
  else if String.eqb tool "ssh_put" || String.eqb tool "ssh_get" then Some transferSubject
  else None.

Definition toolSubject (tool : string) (args : RawMessage) : option string :=
  match clusterSubject tool args with
  | Some target => Some target
  | None => match SubjectorFor tool with Some f => f args | None => None end
  end.

Definition Subject (tool : string) (args : RawMessage) : string :=
  match toolSubject tool args with Some target => target | None => su_text (subjectOf args) end.

Definition toolchainLanguage (subject : string) : option string :=
  let '(name, version) := match Cut subject "@" with Some (n, v) => (n, Some v) | None => (subject, None) end in
  match Cut name "+" with
  | None => None
  | Some (lang, _) =>
      if String.eqb lang "" then None
      else match version with Some v => Some (lang ++ "@" ++ v) | None => Some lang end
  end.

Definition remoteCommand (tool : string) (args : RawMessage) : option (string * string) :=
  if negb (String.eqb tool "ssh") then None
  else
    match decode_args tx args with
    | Fail _ => None
    | Ok m => let h := str_arg m "host" in if String.eqb h "" then None else Some (h, str_arg m "command")
    end.

Definition carriesStdinSecret (args : RawMessage) : bool :=
  match decode_args tx args with
  | Fail _ => true
  | Ok m =>
      match Lookup tx m "stdin_secret" with
      | None | Some JNull => false
      | Some (JStr s) => negb (String.eqb s "")
      | Some _ => true
      end
  end.

(** ** Paths *)

(** [rootSpellings]; its memo keeps an answer a second at most. *)
Definition rootSpellings (root : string) : string * string :=
  let real := ho_RealPath host root in (real, ho_DiskPath host real).

Definition root_forms (root : string) : list string :=
  let '(real, disk) := rootSpellings root in
  root :: (if String.eqb real root then [] else [real]) ++ (if String.eqb disk real then [] else [disk]).

(** [relTo]: adds [a] relative to the root. *)
Definition relTo (dir root a : string) (l : list string) : list string :=
  match Rel root a with
  | Some rel => if IsLocal rel then add_new ("./" ++ rel ++ dir) (add_new (rel ++ dir) l) else l
  | None => l
  end.

(** A spelling of the path, and it relative to each root. *)
Definition add_spelling (dir : string) (roots : list string) (l : list string) (a : string) : list string :=
  fold_left (λ l root, relTo dir root a l) roots (add_new (a ++ dir) l).

Definition pathSubjects (e : Engine) (p : string) (disk : bool) : list string * list string :=
  if String.eqb p "" then ([p], [p])
  else
    let given := default [] (en_Roots e) in
    let roots := flat_map root_forms given in
    let firstReal := match given with r :: _ => fst (rootSpellings r) | [] => "" end in
    let dir := if HasSuffix p "/" then "/" else "" in
    let clean := Clean p in
    let all := if IsAbs clean then [p] else add_new (clean ++ dir) [p] in
    match IsAbs clean, roots with
    | false, [] => (all, [clean ++ dir])
    | absolute, _ =>
        let abs := if absolute then clean else JoinPath (default "" (head roots)) clean in
        let real := ho_RealPath host abs in
        let diskAbs := if disk then ho_DiskPath host abs else abs in
        let diskReal := if disk then (if String.eqb real abs then diskAbs else ho_DiskPath host real) else real in
        let all := fold_left (add_spelling dir roots) [abs; real; diskAbs; diskReal] all in
        let allow := if length roots =? 0 then [real ++ dir] else relTo dir firstReal real [real ++ dir] in
        (all, allow)
    end.

Definition rulesSeeParts (e : Engine) (tool : string) : bool :=
  patterned (rl_deny (rules e)) tool || patterned (rl_ask (rules e)) tool.
Definition pathRules (e : Engine) (tool : string) : bool :=
  patterned (rl_deny (rules e)) tool || patterned (rl_ask (rules e)) tool || patterned (rl_allow (rules e)) tool.

(** ** The reading of a call *)

Record reading : Type := MkReading {
  rd_key : string; rd_subject : string; rd_subjects : list string; rd_allow : list string;
  rd_narrow : bool; rd_complete : bool; rd_canon : Canonical; rd_scripts : scriptRead; rd_remote : option remoteRead
}.

Definition newlines : string := newline_s ++ cr_s.

(** The subject, by the tool or the path rules. *)
Definition read_subject (e : Engine) (tool key text : string) (how : readAs) : option reading :=
  if String.eqb tool "bash" then
    sr ← shellRead tx reader text how;
    let scripts := if rulesSeeParts e tool then en_readScripts e (sr_canon sr) else no_scripts in
    Some (MkReading key text (withBaseNames (sr_subjects sr ++ sc_subjects scripts)%list) (sr_allow sr)
            (sr_narrow sr) (sr_complete sr) (sr_canon sr) scripts None)
  else
    let '(subjects, allow) :=
      if String.eqb key "path" && pathRules e tool then pathSubjects e text (rulesSeeParts e tool) else ([text], [text]) in
    Some (MkReading key text subjects allow (negb (ContainsAny text newlines)) true no_canonical no_scripts None).

(** Where a Kubernetes or ssh call goes is its subject. *)
Definition read_target (target : option string) (r : reading) : reading :=
  match target with
  | None => r
  | Some target =>
      let old := rd_subject r in
      let more := if String.eqb old "" || String.eqb old target then [] else [old] in
      MkReading (rd_key r) target (target :: more) [target] (negb (ContainsAny target newlines)) (rd_complete r)
        (rd_canon r) (rd_scripts r) (rd_remote r)
  end.

Definition read_toolchain (tool : string) (r : reading) : reading :=
  match (if String.eqb tool "toolchain" then toolchainLanguage (rd_subject r) else None) with
  | None => r
  | Some lang =>
      MkReading (rd_key r) (rd_subject r) (rd_subjects r ++ [lang])%list (rd_allow r) (rd_narrow r) (rd_complete r)
        (rd_canon r) (rd_scripts r) (rd_remote r)
  end.

Definition read_remote (tool : string) (args : RawMessage) (r : reading) : option reading :=
  match remoteCommand tool args with
  | None => Some r
  | Some (h, command) =>
      rr ← readRemote tx reader h command (carriesStdinSecret args);
      Some (MkReading (rd_key r) (rd_subject r) (rr_subjects rr) (rr_allow rr) (rr_narrow rr) (rr_complete rr)
              (rr_canon rr) (rd_scripts r) (Some rr))
  end.

Definition read_call (e : Engine) (tool : string) (args : RawMessage) (how : readAs) : option reading :=
  let s := subjectOf args in
  r ← read_subject e tool (su_key s) (su_text s) how;
  read_remote tool args (read_toolchain tool (read_target (toolSubject tool args) r)).

(** Whether a deny or ask rule matches the call. *)
Definition matches (tool : string) (args : RawMessage) (c : reading) (r : Rule) : bool :=
  let subjects := rd_subjects c in
  if opt_some (clusterSubject tool args) && ContainsAny (rd_subject c) "*?" then
    matchesAny tx r tool subjects ||
    (ForTool r tool && opt_some (pr_pattern r) && default false (globsMeet (pr_glob r) (rd_subject c)))
  else
    match rd_remote c with
    | Some rr => matchesAny tx r tool subjects || matchesRemoteFlags tx r rr
    | None =>
        if String.eqb tool "bash" then matchesAny tx r tool subjects || matchesFlagsAny tx r tool subjects
        else if String.eqb (rd_key c) "path" then
          matchesPathAny tx r tool subjects ||
          (pathFoldsCase tx (ho_FoldsCaseAt host) subjects && matchesCaselessAny tx r tool subjects)
        else matchesAny tx r tool subjects
    end.

(** ** Hooks *)

Definition engine_hooks (e : Engine) : list Hook := (en_Hooks e ++ en_EngineHooks e ++ en_ContextHooks e)%list.

Definition hookLate (c : ctx_err) : Result :=
  decided Deny "hook"
    ((match c with
      | CtxCanceled => "the decision was cancelled before the policy hooks decided"
      | _ => "the policy hooks did not decide before the deadline"
      end) ++ ", so the call is refused").

Definition with_step (r : Result) : Result :=
  if String.eqb (res_Step r) ""
  then MkResult (res_Decision r) (res_Reason r) (res_Scope r) "hook" (res_Rule r) (res_Suggest r) (res_Layer r) (res_Guard r)
  else r.

(** Runs the hooks in order: a result that ends the decision, or the first ask. *)
Fixpoint run_hooks (hooks : list hook_run) (hookAsk : option Result) : Result + option Result :=
  match hooks with
  | [] => inr hookAsk
  | h :: hooks =>
      if ctx_done (hk_before h) then inl (hookLate (hk_before h))
      else
        match hk_result h with
        | None => if ctx_done (hk_after h) then inl (hookLate (hk_after h)) else run_hooks hooks hookAsk
        | Some r =>
            match res_Decision r with
            | Allow => if ctx_done (hk_after h) then inl (hookLate (hk_after h)) else run_hooks hooks hookAsk
            | Ask => run_hooks hooks (match hookAsk with None => Some (with_step r) | some => some end)
            | _ => inl (with_step r)
            end
        end
  end.

(** ** What a person is offered *)

Definition scopeTools : list (string * option (list string)) :=
  [("git", Some ["status"; "diff"; "log"; "show"; "branch"; "add"; "commit"; "switch"; "stash"; "rev-parse"; "ls-files";
     "blame"; "tag"]);
   ("ls", None); ("cat", None); ("head", None); ("tail", None); ("wc", None); ("pwd", None); ("echo", None);
   ("which", None); ("file", None); ("stat", None); ("du", None); ("df", None); ("grep", None); ("jq", None);
   ("diff", None); ("cut", None); ("tr", None); ("mkdir", None); ("touch", None); ("npm", Some ["ls"; "outdated"]);
   ("pip", Some ["list"; "show"; "freeze"]); ("pip3", Some ["list"; "show"; "freeze"]);
   ("docker", Some ["ps"; "images"; "logs"; "version"])].

Definition scopeSubs : list (string * list string) := [("git stash", ["list"; "show"])].

Definition assoc {A} (l : list (string * A)) (k : string) : option A := snd <$> find_first (λ p, String.eqb (fst p) k) l.

(** A flag that hands a program code or a command to run. *)
Definition codeFlag (a : string) (short : bool) : bool :=
  let flag := match Cut a "=" with Some (f, _) => f | None => a end in
  if String.eqb flag "--eval" || String.eqb flag "--exec" then true
  else if negb short || HasPrefix a "--" || negb (HasPrefix a "-") then false
  else ContainsAny (str_drop 1 a) "ce".

(** The words of the command a scope covers, [None] when none is offered. *)
Definition scope_words (fields : list string) : option nat :=
  match assoc scopeTools (default "" (head fields)) with
  | None => None
  | Some None => Some 1
  | Some (Some subs) =>
      if negb (word_in subs (default "" (fields !! 1))) then None
      else
        match assoc scopeSubs (Join (take 2 fields) " ") with
        | None => Some 2
        | Some next => if word_in next (default "" (fields !! 2)) then Some 3 else None
        end
  end.

Definition shell_special : string := "'" ++ String dquote "\$*?[]{}`".

Definition bashScope (fields : list string) : string :=
  if isAssignment (default "" (head fields)) then ""
  else
    match scope_words fields with
    | None => ""
    | Some n =>
        let short := match assoc scopeTools (default "" (head fields)) with Some (Some _) => true | _ => false end in
        if existsb (λ a, codeFlag a short) (drop 1 fields) then ""
        else if existsb (λ w, ContainsAny w shell_special) (take n fields) then ""
        else Join (take n fields) " "
    end.

Definition under (root p : string) : bool :=
  match Rel root p with Some rel => IsLocal rel | None => false end.

(** The search of PATH for a program outside every root. *)
Fixpoint outside_roots (roots dirs : list string) (name : string) : bool :=
  match dirs with
  | [] => true
  | dir :: dirs =>
      if String.eqb dir "" || negb (IsAbs dir) then false
      else
        let p := JoinPath dir name in
        if negb (ho_program host p) then outside_roots roots dirs name
        else negb (existsb (λ r, under r (ho_RealPath host p) || under r (Clean p)) roots)
  end.
Definition resolvesOutsideRoots (e : Engine) (name : string) : bool :=
  outside_roots (map (ho_RealPath host) (default [] (en_Roots e))) (ho_PATH host) name.

Definition suggestRule (tool subject : string) : string :=
  if negb (String.eqb tool "bash") || String.eqb subject "" || (200 <? String.length subject) ||
     hasShellControl subject || ContainsAny subject "*?" || negb (String.eqb (TrimSpace subject) subject)
  then "" else tool ++ "(" ++ subject ++ ")".

Definition suggestScope (e : Engine) (tool subject : string) : string :=
  if String.eqb subject "" then tool
  else if String.eqb tool "bash" then
    if hasShellControl subject then ""
    else
      match Fields subject with
      | [] => tool
      | f :: fs =>
          let fields := CommandName tx f :: fs in
          if negb (String.eqb (cn_GitRunsOrWrites (rd_canonical reader asCommand subject)) "") then ""
          else
            let prefix := bashScope fields in
            if String.eqb prefix "" || negb (resolvesOutsideRoots e (CommandName tx f)) then ""
            else tool ++ "(" ++ prefix ++ " *)"
      end
  else
    let command := match Cut subject "/" with Some (_, c) => c | None => "" end in
    if String.eqb tool "ssh" && (hasShellControl command || ContainsAny command "*?") then ""
    else
      let exact := tool ++ "(" ++ subject ++ ")" in
      match (if String.eqb tool "web_fetch" then ho_url host subject else None) with
      | Some (scheme, h) =>
          if negb (String.eqb scheme "") && negb (String.eqb h "")
          then tool ++ "(" ++ scheme ++ "://" ++ h ++ "/*)" else exact
      | None => exact
      end.

(** The fingerprint a git scope holds only with. *)
Definition guarded (e : Engine) (r : Result) : Result :=
  match en_Roots e with
  | None => r
  | Some dirs =>
      if negb (HasPrefix (res_Scope r) "bash(git ") then r
      else
        let dirs := if String.eqb (en_Cwd e) "" then dirs else (dirs ++ [en_Cwd e])%list in
        MkResult (res_Decision r) (res_Reason r) (res_Scope r) (res_Step r) (res_Rule r) (res_Suggest r) (res_Layer r)
          (ho_GitFingerprint host dirs)
  end.

Definition defaultAsk (e : Engine) (tool subject why : string) : Result :=
  let scope := suggestScope e tool subject in
  let suggest := if String.eqb scope "" then suggestRule tool subject else "" in
  let reason := if String.eqb suggest "" then why
                else why ++ " (to always allow exactly this, add " ++ suggest ++ " to permissions.allow)" in
  guarded e (MkResult Ask reason scope "default" "" suggest "" "").

(** ** The steps *)

Definition trustWords : list string := ["abhed_trust_workspace"; "trust-workspace"; "trust_workspace"].
Definition namesTrust (texts : list string) : bool :=
  existsb (λ t, existsb (Contains (tx_lower tx t)) trustWords) texts.

Definition sessionControl : list string := ["shell_kill"; "task_cancel"].
Definition readOnlyReason (tool : string) : string :=
  if word_in sessionControl tool then "session control tool (stops this session's own background work)"
  else if String.eqb tool "task" then "subagent tool (each call the subagent makes is decided on its own)"
  else if String.eqb tool "shell_output" || String.eqb tool "task_status"
  then "session tool (reads this session's own background work)"
  else "read-only tool".

Definition readOnlyAsk (e : Engine) (tool subject : string) : string :=
  match en_AskReadOnly e tool with Some f => f subject | None => "" end.

Definition askReason (tool : string) (mode : Mode) : string :=
  let mode := if String.eqb mode "" then ModeDefault else mode in
  let what := if String.eqb tool "bash" then "running a command"
              else if String.eqb tool "edit" || String.eqb tool "write" then "changing a file"
              else tool ++ " can make changes, so it" in
  what ++ " needs approval in " ++ mode ++ " mode".

Definition firstNonEmpty (vals : list string) : string :=
  default "" (find_first (λ v, negb (String.eqb v "")) vals).

Definition ifsReason (canon : Canonical) : string :=
  let tail := ", so the words that run cannot be checked against the deny rules" in
  if negb (String.eqb (cn_IFS canon) "") then "the command changes IFS and then expands words" ++ tail
  else if String.eqb (cn_IFSCause canon) "loop" then "the command sets IFS in a for loop and then expands words" ++ tail
  else if String.eqb (cn_IFSCause canon) "arithmetic" then "the command sets IFS by arithmetic and then expands words" ++ tail
  else if String.eqb (cn_IFSCause canon) "named"
  then "the command sets IFS to a value its text does not show and then expands words" ++ tail
  else if String.eqb (cn_IFSCause canon) "unparsed"
  then "the command cannot be parsed as the shell reads it, so where it sets IFS is not known" ++ tail
  else "the command runs text built from an expansion (given to eval, a shell's -c or a command that sets variables by name), which could set IFS and split its words" ++ tail.

Definition when (b : bool) (r : Result) : option Result := if b then Some r else None.

Definition first_some {A} (l : list (option A)) (d : A) : A :=
  fold_right (λ o r, match o with Some x => x | None => r end) d l.

Definition unless_empty (why : string) : bool := negb (String.eqb why "").

Section decision.
Context (e : Engine) (tool : string) (mutates : bool) (args : RawMessage) (c : reading).
(** The read entry an ssh call is a read by, [""] for none. *)
Context (read_entry : string).

Definition canon_of : Canonical := rd_canon c.
Definition deny_pattern : bool := patterned (rl_deny (rules e)) tool.
Definition shell_call : bool := String.eqb tool "bash" || opt_some (rd_remote c).

Definition unchecked (why : string) : string := why ++ ", so it cannot be checked against the deny rules".

(** A rule of the list that matches, as a result. *)
Definition rule_step (d : Decision) (step verb : string) (rs : list Rule) : option Result :=
  (λ r, by_rule d step (verb ++ named_rule r) r) <$> find_first (matches tool args c) rs.

Definition screens : list (option Result) :=
  [ when (cn_ProgramHidden canon_of && deny_pattern)
      (decided Deny "screen" (unchecked "the program is named by an expansion that edits its value"));
    when (unless_empty (cn_Opaque canon_of) && deny_pattern)
      (decided Deny "screen" (unchecked ("the command runs text no rule can read (" ++ cn_Opaque canon_of ++ ")")));
    when (cn_Incomplete canon_of && deny_pattern)
      (decided Deny "screen" (unchecked "the command is not complete (an open quote, block or heredoc, or a trailing | or &&)"));
    when (cn_Unparsed canon_of && deny_pattern)
      (decided Deny "screen" (unchecked "the command cannot be parsed as the shell reads it"));
    when (unless_empty (sc_refuse (rd_scripts c)) && deny_pattern)
      (decided Deny "screen" (unchecked ("the command runs a script no rule can read (" ++ sc_refuse (rd_scripts c) ++ ")")));
    when (cn_IFSSplit canon_of && deny_pattern) (decided Deny "screen" (ifsReason canon_of)) ].

Definition plan_refusal : Result := decided Deny "mode" "plan mode is read-only; no changes are applied".

Definition plan_step : option Result :=
  when (String.eqb (en_Mode e) ModePlan && mutates && (negb (opt_some (rd_remote c)) || String.eqb read_entry "")) plan_refusal.

Definition destructive : option string :=
  if shell_call then cn_Destructive canon_of (word_in (en_GitExtensions e)) else None.

Definition destructive_step : option Result :=
  (λ what,
     let what := match rd_remote c with
                 | Some rr => what ++ " on " ++ rr_host rr ++ ", a remote command with no undo" | None => what end in
     decided Ask "destructive" (what ++ " — always requires confirmation")) <$> destructive.

Definition names_trust : bool := String.eqb tool "bash" && namesTrust (rd_subjects c ++ [cn_Text canon_of]).
Definition script_doubt : string := firstNonEmpty [sc_refuse (rd_scripts c); sc_ask (rd_scripts c)].

Definition checks : list (option Result) :=
  [ destructive_step;
    when names_trust
      (decided Ask "ask" "the command names ABHED_TRUST_WORKSPACE or -trust-workspace, which would trust a workspace for a nested run — always requires confirmation");
    when (negb (rd_complete c) && rulesSeeParts e tool)
      (decided Ask "screen" "the command is too long or complex to check each part against the rules");
    when (unless_empty script_doubt)
      (decided Ask "screen" ("the command runs a script that cannot be checked in full against the rules (" ++ script_doubt ++ ")"));
    rule_step Ask "ask" "matched ask " (rl_ask (rules e));
    when (cn_Hidden canon_of && rulesSeeParts e tool)
      (decided Ask "screen" "the command builds its words with an expansion, brace list or IFS, so its parts cannot be checked against the rules") ].

(** An ssh command the operator declared a read. *)
Definition remote_read_step : option Result :=
  match rd_remote c with
  | Some rr =>
      when (negb (String.eqb (en_Mode e) ModeBypass) && unless_empty read_entry)
        (decided Allow (if String.eqb (en_Mode e) ModePlan || String.eqb (en_Mode e) ModeAuto then "mode" else "default")
           ("read command " ++ read_entry ++ " (ssh.read_commands) on " ++ rr_host rr))
  | None => None
  end.

Definition quiet_read : bool := String.eqb (readOnlyAsk e tool (rd_subject c)) "".
Definition file_edit : bool := String.eqb tool "edit" || String.eqb tool "write".

Definition mode_step : option Result :=
  if String.eqb (en_Mode e) ModePlan then
    if mutates then Some plan_refusal
    else when quiet_read (decided Allow "mode" (readOnlyReason tool ++ " in plan mode"))
  else if String.eqb (en_Mode e) ModeBypass then
    Some (if en_Managed e
          then decided Ask "mode" ("bypass mode is disabled by organization policy (" ++ ConfigFile ++ "), so this asks as in default mode")
          else decided Allow "mode" "bypass mode")
  else if String.eqb (en_Mode e) ModeAcceptEdits then
    when file_edit (decided Allow "mode" "edits auto-approved in accept-edits mode")
  else if String.eqb (en_Mode e) ModeAuto then
    if negb mutates && quiet_read then Some (decided Allow "mode" (readOnlyReason tool ++ " in auto mode"))
    else when file_edit (decided Allow "mode" "file edit auto-approved in auto mode")
  else None.

Definition git_runs : string := if shell_call then cn_GitRunsOrWrites canon_of else "".

(** An allow rule that approves the call. *)
Definition approves (r : Rule) : bool :=
  negb (unless_empty git_runs && negb (matchesEverything r) && ContainsAny (pr_glob r) "*?") &&
  (rd_narrow c || matchesEverything r) && matchesAny tx r tool (rd_allow c).

Definition allow_step : option Result :=
  (λ r, by_rule Allow "allow" ("matched allow " ++ named_rule r) r) <$> find_first approves (rl_allow (rules e)).

Definition default_step : Result :=
  let why := readOnlyAsk e tool (rd_subject c) in
  if unless_empty why && negb mutates then defaultAsk e tool (rd_subject c) why
  else if negb mutates then decided Allow "default" (readOnlyReason tool)
  else
    let why := askReason tool (en_Mode e) in
    let why := if unless_empty git_runs
               then why ++ " (" ++ git_runs ++ ", so no allow rule with a wildcard approves it)" else why in
    defaultAsk e tool (rd_subject c) why.

(** The steps after the hooks, in order; [hookAsk] is a hook's ask. *)
Definition decide_steps (hookAsk : option Result) : Result :=
  first_some
    ((rule_step Deny "deny" "denied by " (rl_deny (rules e)) :: screens) ++ [plan_step] ++ checks ++
     [hookAsk; remote_read_step; mode_step; allow_step])%list
    default_step.
End decision.

Definition remote_entry (e : Engine) (c : reading) : option string :=
  match rd_remote c with
  | Some rr => remoteReadRule tx (en_RemoteReads e) (word_in (en_GitExtensions e)) rr
  | None => Some ""
  end.

Definition refused_args (e : Engine) (tool : string) (args : RawMessage) : option error :=
  match su_err (subjectOf args) with
  | Some (nonString, err) => if negb nonString || rulesSeeParts e tool then Some err else None
  | None => None
  end.

(** [Engine.evaluate]; [None] only if the fuel of the split ran out, which it
    never does ([PolicyEngineSpec.evaluate_total]). *)
Definition evaluate (e : Engine) (tool : string) (mutates : bool) (args : RawMessage) (how : readAs) : option Result :=
  match refused_args e tool args with
  | Some err => Some (decided Deny "args" (e_text err))
  | None =>
      c ← read_call e tool args how;
      entry ← remote_entry e c;
      Some match run_hooks (map (λ h : Hook, h tool args) (engine_hooks e)) None with
           | inl r => r
           | inr hookAsk => decide_steps e tool mutates args c entry hookAsk
           end
  end.

Definition evaluateAs (e : Engine) (tool : string) (mutates : bool) (args : RawMessage) (how : readAs) : option Result :=
  res ← evaluate e tool mutates args how;
  let s := subjectOf args in
  Some (if bool_decide (res_Decision res = Ask) && String.eqb tool "bash" && negb (opt_some (su_err s)) &&
           Contains (su_text s) ("\" ++ newline_s) && cn_Joined (rd_canonical reader asCommand (su_text s))
        then MkResult (res_Decision res)
               (res_Reason res ++ " (the command continues lines with backslash-newline; it was checked joined)")
               (res_Scope res) (res_Step res) (res_Rule res) (res_Suggest res) (res_Layer res) (res_Guard res)
        else res).

Definition Evaluate (e : Engine) (tool : string) (mutates : bool) (args : RawMessage) : option Result :=
  evaluateAs e tool mutates args asCommand.
Definition EvaluateTyped (e : Engine) (tool : string) (mutates : bool) (args : RawMessage) : option Result :=
  evaluateAs e tool mutates args asTyped.
Definition EvaluateLine (e : Engine) (tool : string) (mutates : bool) (args : RawMessage) : option Result :=
  evaluateAs e tool mutates args asLine.

(** A hook or a deny rule could refuse some calls to the tool. *)
Definition Screens (e : Engine) (tool : string) : bool :=
  (0 <? length (engine_hooks e)) || existsb (λ r, ForTool r tool) (rl_deny (rules e)).

(** The entry an ssh call runs as a read by, or nothing. *)
Definition RemoteReadOf (e : Engine) (tool : string) (args : RawMessage) : option string :=
  match remoteCommand tool args with
  | None => Some ""
  | Some (h, command) =>
      rr ← readRemote tx reader h command (carriesStdinSecret args);
      remoteReadRule tx (en_RemoteReads e) (word_in (en_GitExtensions e)) rr
  end.

(** Whether any of the rules matches a call the way a deny rule would. *)
Definition MatchesCall (e : Engine) (rs : list Rule) (tool : string) (args : RawMessage) : option bool :=
  let s := subjectOf args in
  if opt_some (su_err s) then Some true
  else if String.eqb tool "bash" then
    '(subjects, complete) ← commandSegments tx (su_text s);
    Some (negb complete || existsb (λ r, matchesAny tx r tool (subjects ++ [su_text s])) rs)
  else if String.eqb (su_key s) "path" then
    Some (existsb (λ r, matchesPathAny tx r tool (fst (pathSubjects e (su_text s) true))) rs)
  else Some (existsb (λ r, matchesAny tx r tool [su_text s]) rs).
End engine.

(** ** Git extensions a person opts in to *)

Definition gitCommands : list string :=
  ["add"; "add--interactive"; "am"; "annotate"; "apply"; "archimport"; "archive"; "backfill"; "bisect";
   "bisect--helper"; "blame"; "branch"; "bugreport"; "bundle"; "cat-file"; "check-attr"; "check-ignore";
   "check-mailmap"; "check-ref-format"; "checkout"; "checkout--worker"; "checkout-index"; "cherry"; "cherry-pick";
   "citool"; "clean"; "clone"; "column"; "commit"; "commit-graph"; "commit-tree"; "config"; "count-objects";
   "credential"; "credential-cache"; "credential-cache--daemon"; "credential-osxkeychain"; "credential-store";
   "cvsexportcommit"; "cvsimport"; "cvsserver"; "daemon"; "describe"; "diagnose"; "diff"; "diff-files"; "diff-index";
   "diff-tree"; "difftool"; "difftool--helper"; "env--helper"; "fast-export"; "fast-import"; "fetch"; "fetch-pack";
   "filter-branch"; "fmt-merge-msg"; "for-each-ref"; "for-each-repo"; "format-patch"; "fsck"; "fsck-objects";
   "fsmonitor--daemon"; "gc"; "get-tar-commit-id"; "grep"; "gui"; "gui--askpass"; "hash-object"; "help"; "hook";
   "http-backend"; "http-fetch"; "http-push"; "imap-send"; "index-pack"; "init"; "init-db"; "instaweb";
   "interpret-trailers"; "last-modified"; "log"; "ls-files"; "ls-remote"; "ls-tree"; "mailinfo"; "mailsplit";
   "maintenance"; "merge"; "merge-base"; "merge-file"; "merge-index"; "merge-octopus"; "merge-one-file";
   "merge-ours"; "merge-recursive"; "merge-recursive-ours"; "merge-recursive-theirs"; "merge-resolve";
   "merge-subtree"; "merge-tree"; "mergetool"; "mktag"; "mktree"; "multi-pack-index"; "mv"; "name-rev"; "notes";
   "p4"; "pack-objects"; "pack-redundant"; "pack-refs"; "patch-id"; "pickaxe"; "prune"; "prune-packed"; "pull";
   "push"; "quiltimport"; "range-diff"; "read-tree"; "rebase"; "receive-pack"; "reflog"; "refs"; "remote";
   "remote-ext"; "remote-fd"; "remote-ftp"; "remote-ftps"; "remote-http"; "remote-https"; "repack"; "replace";
   "replay"; "repo"; "request-pull"; "rerere"; "reset"; "restore"; "rev-list"; "rev-parse"; "revert"; "rm"; "scalar";
   "send-email"; "send-pack"; "sh-i18n--envsubst"; "shell"; "shortlog"; "show"; "show-branch"; "show-index";
   "show-ref"; "sparse-checkout"; "stage"; "stash"; "status"; "stripspace"; "submodule"; "submodule--helper";
   "subtree"; "svn"; "switch"; "symbolic-ref"; "tag"; "unpack-file"; "unpack-objects"; "update-index"; "update-ref";
   "update-server-info"; "upload-archive"; "upload-archive--writer"; "upload-pack"; "var"; "verify-commit";
   "verify-pack"; "verify-tag"; "version"; "web--browse"; "whatchanged"; "worktree"; "write-tree"].

Definition extension_byte (c : ascii) : bool := in_range "a" "z" c || in_range "0" "9" c || byte_in "-_." c.

Definition GitExtensionError (name : string) : option error :=
  if String.eqb name "" || negb (str_forall extension_byte name) || HasPrefix name "-" || HasPrefix name "." then
    Some (plain ("git extension " ++ Quote name ++ ": use the subcommand's plain name, such as lfs"))
  else if word_in gitCommands name then
    Some (plain ("git extension " ++ Quote name ++ ": that is one of git's own commands, which are checked as they are"))
  else None.

(** Opts the names in, up to one that is refused. *)
Fixpoint AllowGitExtensions (names have : list string) : option error * list string :=
  match names with
  | [] => (None, have)
  | name :: names =>
      match GitExtensionError name with
      | Some e => (Some e, have)
      | None => AllowGitExtensions names (add_new name have)
      end
  end.
