(* ===== verification/PolicyEngineSpec.v ===== *)
(** What a permission decision comes to: its three-way outcome as the conditions
    of the steps, when a call is allowed, and what can only tighten it. *)

From Stdlib Require Import ZArith NArith Ascii String Lia Bool.
From stdpp Require Import base tactics list option strings gmap.
From S2P Require Import Prelude.
From S2P Require Import GoStd.
From S2P Require Import Errors.
From S2P Require Import GoNet.
From S2P Require Import GoPath.
From S2P Require Import Glob.
From S2P Require Import ShellSplit.
From S2P Require Import PolicyRule.
From S2P Require Import Overlay.
From S2P Require Import Remote.
From S2P Require Import Args.
From S2P Require Import Kubescope.
From S2P Require Import PolicyEngine.

#[local] Open Scope string_scope.
#[local] Open Scope nat_scope.
#[local] Open Scope go_scope.

(** ** The outcome of a list of steps *)

Lemma first_some_app {A} (l1 l2 : list (option A)) d : first_some (l1 ++ l2) d = first_some l1 (first_some l2 d).
Proof. unfold first_some. by rewrite fold_right_app. Qed.

(** Steps that can only decide [d]. *)
Definition all_decide (d : Decision) (l : list (option Result)) : Prop :=
  Forall (λ o, ∀ r, o = Some r → res_Decision r = d) l.

Lemma first_some_decides d l rest : all_decide d l →
  res_Decision (first_some l rest) = if existsb opt_some l then d else res_Decision rest.
Proof.
  induction 1 as [|o l Ho _ IH]; [done|]. destruct o as [r|]; [|done]. simpl. by apply Ho.
Qed.

Lemma when_decides b r d : res_Decision r = d → ∀ r', when b r = Some r' → res_Decision r' = d.
Proof. unfold when. intros <-. by destruct b; intros ? [= <-]. Qed.

Lemma opt_some_when b r : opt_some (when b r) = b. Proof. by destruct b. Qed.
Lemma opt_some_fmap {A B} (f : A → B) o : opt_some (f <$> o) = opt_some o. Proof. by destruct o. Qed.
Lemma opt_some_find {A} (f : A → bool) l : opt_some (find_first f l) = existsb f l.
Proof. induction l as [|x l IH]; [done|]. simpl. by destruct (f x). Qed.

Section spec.
Context (tx : Text) (reader : Reader) (lex : string → RawMessage) (host : Host).

Section verdict.
Context (e : Engine) (tool : string) (mutates : bool) (args : RawMessage) (c : reading) (entry : string).

(** The call is refused: a deny rule matches, a deny rule with a pattern could
    not be checked, or it changes something in plan mode. *)
Definition refused : bool :=
  existsb (matches tx lex host tool args c) (rl_deny (rules e)) ||
  (patterned (rl_deny (rules e)) tool &&
   (cn_ProgramHidden (rd_canon c) || unless_empty (cn_Opaque (rd_canon c)) || cn_Incomplete (rd_canon c) ||
    cn_Unparsed (rd_canon c) || unless_empty (sc_refuse (rd_scripts c)) || cn_IFSSplit (rd_canon c))) ||
  (String.eqb (en_Mode e) ModePlan && mutates && (negb (opt_some (rd_remote c)) || String.eqb entry "")).

(** The call is put to a person whatever the mode: it is destructive, names
    trust, could not be read in full, or an ask rule matches. *)
Definition doubted : bool :=
  opt_some (destructive e tool c) || names_trust tx tool c || (negb (rd_complete c) && rulesSeeParts e tool) ||
  unless_empty (script_doubt c) || existsb (matches tx lex host tool args c) (rl_ask (rules e)) ||
  (cn_Hidden (rd_canon c) && rulesSeeParts e tool).

(** What approves a call: a declared ssh read, the mode, an allow rule, or that
    it changes nothing and need not ask. *)
Definition mode_grants : bool :=
  if String.eqb (en_Mode e) ModePlan then negb mutates && quiet_read e tool c
  else if String.eqb (en_Mode e) ModeBypass then negb (en_Managed e)
  else if String.eqb (en_Mode e) ModeAcceptEdits then file_edit tool
  else if String.eqb (en_Mode e) ModeAuto then (negb mutates && quiet_read e tool c) || file_edit tool
  else false.

Definition granted : bool :=
  (opt_some (rd_remote c) && negb (String.eqb (en_Mode e) ModeBypass) && unless_empty entry) || mode_grants ||
  (negb (String.eqb (en_Mode e) ModeBypass) &&
   (existsb (approves tx tool c) (rl_allow (rules e)) || (negb mutates && quiet_read e tool c))).

Lemma screens_decide : all_decide Deny (screens e tool c).
Proof. repeat (constructor; [by apply when_decides|]). constructor. Qed.

Lemma rule_step_decides d step verb rs r : rule_step tx lex host tool args c d step verb rs = Some r → res_Decision r = d.
Proof. unfold rule_step. destruct (find_first _ _); [|done]. by intros [= <-]. Qed.

Lemma checks_decide : all_decide Ask (checks tx lex host e tool args c).
Proof.
  constructor; [unfold destructive_step; intros r; by destruct (destructive e tool c); intros [= <-]|].
  do 3 (constructor; [by apply when_decides|]). constructor; [apply rule_step_decides|].
  constructor; [by apply when_decides | constructor].
Qed.

Lemma guarded_decision r : res_Decision (guarded host e r) = res_Decision r.
Proof. unfold guarded. destruct (en_Roots e); [|done]. by destruct (negb _). Qed.

Lemma defaultAsk_decision subject why : res_Decision (defaultAsk tx reader host e tool subject why) = Ask.
Proof. apply guarded_decision. Qed.

Lemma default_decision : res_Decision (default_step tx reader host e tool mutates c) =
  if negb mutates && quiet_read e tool c then Allow else Ask.
Proof.
  unfold default_step, quiet_read, unless_empty.
  destruct (String.eqb (readOnlyAsk e tool (rd_subject c)) ""), mutates; try done; apply defaultAsk_decision.
Qed.

Definition plan_refuses : bool :=
  String.eqb (en_Mode e) ModePlan && mutates && (negb (opt_some (rd_remote c)) || String.eqb entry "").

(** What the mode and allow steps come to, for a call plan mode lets by. *)
Lemma tail_verdict hookAsk : (∀ r, hookAsk = Some r → res_Decision r = Ask) → plan_refuses = false →
  res_Decision (first_some [hookAsk; remote_read_step e c entry; mode_step e tool mutates c; allow_step tx e tool c]
                  (default_step tx reader host e tool mutates c)) =
  if opt_some hookAsk then Ask else if granted then Allow else Ask.
Proof.
  intros Hask Hplan. destruct hookAsk as [r|]; [by apply Hask|].
  cbn [first_some fold_right opt_some].
  assert (res_Decision (match allow_step tx e tool c with Some x => x | None => default_step tx reader host e tool mutates c end) =
    if existsb (approves tx tool c) (rl_allow (rules e)) || (negb mutates && quiet_read e tool c) then Allow else Ask) as Hlast.
  { unfold allow_step. rewrite <- opt_some_find. destruct (find_first _ _); [done|]. apply default_decision. }
  unfold granted, mode_grants, remote_read_step, mode_step, plan_refuses, unless_empty in *.
  remember (match allow_step _ _ _ _ with Some x => x | None => _ end) as last eqn:E. clear E.
  destruct (String.eqb_spec (en_Mode e) ModePlan) as [Hm|Hm].
  { rewrite Hm in *. cbn [String.eqb Ascii.eqb Bool.eqb ModePlan ModeBypass] in *.
    destruct (rd_remote c), mutates, (String.eqb entry ""), (quiet_read e tool c); simpl in *; try done;
      by rewrite Hlast, ?orb_false_r, ?orb_true_r. }
  destruct (String.eqb_spec (en_Mode e) ModeBypass) as [Hb|Hb].
  { destruct (rd_remote c), (en_Managed e); simpl; try done; by rewrite ?orb_false_r. }
  assert (∀ r reason, res_Decision match when r (decided Allow "mode" reason) with Some x => x | None => last end =
    if r || (existsb (approves tx tool c) (rl_allow (rules e)) || (negb mutates && quiet_read e tool c)) then Allow else Ask)
    as Hwhen by (by intros []).
  destruct (rd_remote c) as [rr|]; [destruct (String.eqb entry ""); [|done]|];
    cbn [opt_some negb andb orb when];
    (destruct (String.eqb (en_Mode e) ModeAcceptEdits); [apply Hwhen|];
     destruct (String.eqb (en_Mode e) ModeAuto); [|exact Hlast];
     destruct (negb mutates && quiet_read e tool c); [done | apply Hwhen]).
Qed.
(** The outcome of the steps. *)
Lemma decide_verdict hookAsk : (∀ r, hookAsk = Some r → res_Decision r = Ask) →
  res_Decision (decide_steps tx reader lex host e tool mutates args c entry hookAsk) =
  if refused then Deny else if doubted || opt_some hookAsk then Ask else if granted then Allow else Ask.
Proof.
  intros Hask. unfold decide_steps. rewrite !first_some_app, (first_some_decides Deny).
  2:{ constructor; [apply rule_step_decides | apply screens_decide]. }
  rewrite (first_some_decides Deny) by (constructor; [by apply when_decides | constructor]).
  rewrite (first_some_decides Ask) by apply checks_decide.
  unfold refused, doubted, checks, screens, plan_step, rule_step, destructive_step. cbn [existsb].
  rewrite !opt_some_when, !opt_some_fmap, !opt_some_find, !orb_false_r. fold plan_refuses.
  unfold deny_pattern, canon_of.
  assert (∀ p a1 a2 a3 a4 a5 a6 : bool, a1 && p || (a2 && p || (a3 && p || (a4 && p || (a5 && p || a6 && p)))) =
    p && (a1 || a2 || a3 || a4 || a5 || a6)) as -> by (by intros [] [] [] [] [] [] []).
  rewrite !orb_assoc. destruct (_ || _ && _); [done|]. destruct plan_refuses eqn:Hplan; [done|]. cbn [orb].
  destruct (_ || _); [done|]. cbn [orb]. by apply tail_verdict.
Qed.
End verdict.

(** ** The hooks *)

(** No hook has an opinion, in time. *)
Definition passed_hook (h : hook_run) : Prop :=
  hk_before h = CtxLive ∧ hk_after h = CtxLive ∧ (∀ r, hk_result h = Some r → res_Decision r = Allow).

Definition runs (e : Engine) (tool : string) (args : RawMessage) : list hook_run :=
  map (λ h : Hook, h tool args) (engine_hooks e).

Lemma with_step_decision r : res_Decision (with_step r) = res_Decision r.
Proof. unfold with_step. by destruct (String.eqb _ _). Qed.

Lemma run_hooks_spec hs ask :
  match run_hooks hs ask with
  | inl r => res_Decision r ≠ Allow ∧ res_Decision r ≠ Ask
  | inr None => ask = None ∧ Forall passed_hook hs
  | inr (Some r) => ask = Some r ∨ res_Decision r = Ask
  end.
Proof.
  revert ask. induction hs as [|h hs IH]; intros ask; simpl; [destruct ask; auto|].
  unfold passed_hook in *. destruct h as [before res after]. simpl.
  destruct before; simpl; try done. destruct res as [r|].
  - destruct (res_Decision r) eqn:Er.
    + destruct after; simpl; try done. specialize (IH ask). destruct (run_hooks hs ask) as [|[]]; try done.
      destruct IH as [-> IH]. split; [done|]. constructor; [|done]. split; [done|]. split; [done|]. by intros ? [= <-].
    + match goal with |- context [run_hooks hs ?a] => specialize (IH a); destruct (run_hooks hs a) as [|[r'|]] end; [done| |].
      * destruct ask as [r0|]; [done|]. destruct IH as [[= <-]|]; right; [by rewrite with_step_decision | done].
      * destruct IH as [IH _]. by destruct ask.
    + by rewrite with_step_decision, Er.
    + by rewrite with_step_decision, Er.
  - destruct after; simpl; try done. specialize (IH ask). destruct (run_hooks hs ask) as [|[]]; try done.
    destruct IH as [-> IH]. split; [done|]. by constructor.
Qed.

Lemma run_hooks_passed hs : Forall passed_hook hs → ∀ ask, run_hooks hs ask = inr ask.
Proof.
  induction 1 as [|h hs [Hb [Ha Hr]] _ IH]; intros ask; [done|]. simpl. rewrite Hb, Ha. simpl.
  destruct (hk_result h) as [r|]; [|apply IH]. rewrite (Hr r eq_refl). apply IH.
Qed.

(** ** Every call is decided *)

Lemma segments_total command : ∃ out whole, commandSegments tx command = Some (out, whole) ∧ command ∈ out.
Proof.
  unfold commandSegments. destruct (maxSplitBytes <? _)%Z.
  { exists [command], false. split; [done|]. by left. }
  destruct (add_parts_sees tx (splitControl command false ++ splitControl command true) [command])
    as (out & c & -> & Hk & _).
  exists out, c. split; [done|]. apply Hk. by left.
Qed.

Lemma more_segments_total extra subjects complete : ∃ more whole,
  more_segments tx extra subjects complete = Some (subjects ++ more, whole)%list.
Proof.
  destruct extra as [text|]; simpl; [|exists [], complete; by rewrite app_nil_r].
  destruct (segments_total text) as (out & whole & -> & _). simpl. by eexists _, _.
Qed.

Lemma shellRead_total command how : ∃ sr, shellRead tx reader command how = Some sr ∧ command ∈ sr_subjects sr.
Proof.
  unfold shellRead. destruct (segments_total command) as (out & whole & -> & Hin). cbn [mbind option_bind].
  edestruct more_segments_total as (m1 & w1 & ->). cbn [mbind option_bind].
  edestruct more_segments_total as (m2 & w2 & ->). cbn [mbind option_bind].
  eexists. split; [done|]. simpl. rewrite !elem_of_app. auto.
Qed.

Lemma readRemote_total h command stdin : ∃ rr, readRemote tx reader h command stdin = Some rr.
Proof.
  unfold readRemote. destruct (shellRead_total command asCommand) as (sr & -> & _). cbn [mbind option_bind]. by eexists.
Qed.

Lemma remoteReadRule_total reads ext rr : ∃ entry, remoteReadRule tx reads ext rr = Some entry.
Proof.
  unfold remoteReadRule. repeat case_match; try by eexists.
  all: match goal with |- context [strippedForms tx ?t] => destruct (strippedForms_exact tx t) as (f & w & -> & _) end;
    cbn [mbind option_bind]; by eexists.
Qed.

Lemma remote_entry_total e c : ∃ entry, remote_entry tx e c = Some entry.
Proof. unfold remote_entry. destruct (rd_remote c); [apply remoteReadRule_total | by eexists]. Qed.

Lemma read_call_total e tool args how : ∃ c, read_call tx reader lex host e tool args how = Some c.
Proof.
  unfold read_call, read_subject. destruct (String.eqb tool "bash").
  - destruct (shellRead_total (su_text (subjectOf tx args)) how) as (sr & -> & _). cbn [mbind option_bind].
    unfold read_remote. destruct (remoteCommand tx tool args) as [[h command]|]; [|by eexists].
    destruct (readRemote_total h command (carriesStdinSecret tx args)) as (rr & ->). by eexists.
  - destruct (if _ && _ then _ else _) as [subjects allow]. cbn [mbind option_bind].
    unfold read_remote. destruct (remoteCommand tx tool args) as [[h command]|]; [|by eexists].
    destruct (readRemote_total h command (carriesStdinSecret tx args)) as (rr & ->). by eexists.
Qed.

(** ** The outcome of a call *)

Definition outcome (e : Engine) (tool : string) (mutates : bool) (args : RawMessage) (c : reading) (entry : string) : Decision :=
  match refused_args tx e tool args with
  | Some _ => Deny
  | None =>
      match run_hooks (runs e tool args) None with
      | inl r => res_Decision r
      | inr ask =>
          if refused e tool mutates args c entry then Deny
          else if doubted e tool args c || opt_some ask then Ask
          else if granted e tool mutates c entry then Allow else Ask
      end
  end.

Lemma evaluateAs_outcome e tool mutates args how : ∃ c entry res,
  read_call tx reader lex host e tool args how = Some c ∧ remote_entry tx e c = Some entry ∧
  evaluateAs tx reader lex host e tool mutates args how = Some res ∧
  res_Decision res = outcome e tool mutates args c entry.
Proof.
  destruct (read_call_total e tool args how) as (c & Hc). destruct (remote_entry_total e c) as (entry & He).
  assert (∃ res, evaluate tx reader lex host e tool mutates args how = Some res ∧
    res_Decision res = outcome e tool mutates args c entry) as (res & Hres & Hd).
  { unfold evaluate, outcome. destruct (refused_args tx e tool args) as [err|]; [by eexists|].
    rewrite Hc. cbn [mbind option_bind]. rewrite He. cbn [mbind option_bind]. eexists. split; [done|].
    fold (runs e tool args). pose proof (run_hooks_spec (runs e tool args) None) as Hspec.
    destruct (run_hooks (runs e tool args) None) as [r|ask]; [done|]. apply decide_verdict.
    intros r ->. by destruct Hspec. }
  exists c, entry. unfold evaluateAs. rewrite Hres. cbn [mbind option_bind]. eexists. split; [done|]. split; [done|].
  split; [done|]. by destruct (_ && _).
Qed.

(** C4: Every call is decided, in every mode, and is allowed exactly when its
    arguments can be read by the rules, every hook passed it in time, no step
    refuses it or asks for it, and something approves it: a declared ssh read, the
    mode, an allow rule, or that it changes nothing. *)
Theorem allowed_exactly (e : Engine) (tool : string) (mutates : bool) (args : RawMessage) (how : readAs) :
  ∃ res, evaluateAs tx reader lex host e tool mutates args how = Some res ∧
    (res_Decision res = Allow ↔
       refused_args tx e tool args = None ∧ Forall passed_hook (runs e tool args) ∧
       ∃ c entry, read_call tx reader lex host e tool args how = Some c ∧ remote_entry tx e c = Some entry ∧
         refused e tool mutates args c entry = false ∧ doubted e tool args c = false ∧
         granted e tool mutates c entry = true).
Proof.
  destruct (evaluateAs_outcome e tool mutates args how) as (c & entry & res & Hc & He & Hres & Hd).
  exists res. split; [done|]. rewrite Hd. unfold outcome.
  pose proof (run_hooks_spec (runs e tool args) None) as Hspec. split.
  - destruct (refused_args _ _ _ _); [done|]. destruct (run_hooks _ _) as [r|ask]; [by destruct Hspec|].
    destruct (refused _ _ _ _ _ _) eqn:Er; [done|]. destruct (doubted _ _ _ _) eqn:Edb; [done|].
    destruct ask as [r|]; [done|]. destruct (granted _ _ _ _ _) eqn:Eg; [|done]. intros _.
    split; [done|]. split; [by apply Hspec|]. by exists c, entry.
  - intros (-> & Hh & c' & entry' & Hc' & He' & Hr & Hdb & Hg). rewrite Hc in Hc'. injection Hc' as <-.
    rewrite He in He'. injection He' as <-. rewrite (run_hooks_passed _ Hh), Hr, Hdb, Hg. done.
Qed.

(** Hard blocks stand in every mode and under every allow rule. A call a deny rule
    matches is neither run nor asked for; nor is a changing call in plan mode, but
    for an ssh command declared a read; and a destructive command is never run
    without asking. *)
Theorem hard_blocks_stand (e : Engine) (tool : string) (mutates : bool) (args : RawMessage) (how : readAs) :
  ∃ c entry res, read_call tx reader lex host e tool args how = Some c ∧ remote_entry tx e c = Some entry ∧
    evaluateAs tx reader lex host e tool mutates args how = Some res ∧
    (∀ r, r ∈ rl_deny (rules e) → matches tx lex host tool args c r = true →
       res_Decision res ≠ Allow ∧ res_Decision res ≠ Ask) ∧
    (en_Mode e = ModePlan → mutates = true → rd_remote c = None ∨ entry = "" →
       res_Decision res ≠ Allow ∧ res_Decision res ≠ Ask) ∧
    (destructive e tool c ≠ None → res_Decision res ≠ Allow).
Proof.
  destruct (evaluateAs_outcome e tool mutates args how) as (c & entry & res & Hc & He & Hres & Hd).
  exists c, entry, res. split; [done|]. split; [done|]. split; [done|]. rewrite Hd. unfold outcome.
  pose proof (run_hooks_spec (runs e tool args) None) as Hspec.
  assert (∀ b, refused e tool mutates args c entry = true →
    (if refused e tool mutates args c entry then Deny else b) ≠ Allow ∧
    (if refused e tool mutates args c entry then Deny else b) ≠ Ask) as Hrefused by (by intros b ->).
  destruct (refused_args _ _ _ _); [by repeat split|]. destruct (run_hooks _ _) as [r|ask].
  { destruct Hspec. by repeat split. }
  split; [|split].
  - intros r Hr Hm. apply Hrefused. unfold refused.
    assert (existsb (matches tx lex host tool args c) (rl_deny (rules e)) = true) as ->; [|done].
    apply existsb_exists. exists r. by rewrite <- list_elem_of_In.
  - intros Hmode Hmut Hread. apply Hrefused. unfold refused. rewrite Hmode, Hmut.
    assert (negb (opt_some (rd_remote c)) || String.eqb entry "" = true) as ->.
    { destruct Hread as [-> | ->]; [done|]. apply orb_true_r. }
    apply orb_true_r.
  - intros Hdes. destruct (refused _ _ _ _ _ _); [done|].
    assert (doubted e tool args c = true) as ->; [|done]. unfold doubted. by destruct (destructive e tool c).
Qed.

(** How strict a decision is. *)
Definition strictness (d : Decision) : nat := match d with Allow => 0 | Ask => 1 | _ => 2 end.

(** A hook can only tighten: without its hooks an engine is nowhere stricter. *)
Theorem hooks_only_tighten (e : Engine) (tool : string) (mutates : bool) (args : RawMessage) (how : readAs) :
  ∃ res bare, evaluateAs tx reader lex host e tool mutates args how = Some res ∧
    evaluateAs tx reader lex host (WithoutHooks e) tool mutates args how = Some bare ∧
    strictness (res_Decision bare) ≤ strictness (res_Decision res).
Proof.
  destruct (evaluateAs_outcome e tool mutates args how) as (c & entry & res & Hc & He & Hres & Hd).
  destruct (evaluateAs_outcome (WithoutHooks e) tool mutates args how) as (c' & entry' & bare & Hc' & He' & Hbare & Hd').
  exists res, bare. split; [done|]. split; [done|]. rewrite Hd, Hd'.
  change (read_call tx reader lex host (WithoutHooks e) tool args how) with (read_call tx reader lex host e tool args how) in Hc'.
  rewrite Hc in Hc'. injection Hc' as <-.
  change (remote_entry tx (WithoutHooks e) c) with (remote_entry tx e c) in He'. rewrite He in He'. injection He' as <-.
  unfold outcome. change (refused_args tx (WithoutHooks e) tool args) with (refused_args tx e tool args).
  destruct (refused_args _ _ _ _); [done|]. simpl.
  change (refused (WithoutHooks e)) with (refused e). change (doubted (WithoutHooks e)) with (doubted e).
  change (granted (WithoutHooks e)) with (granted e).
  pose proof (run_hooks_spec (runs e tool args) None) as Hspec. destruct (run_hooks _ _) as [r|ask].
  - assert (2 ≤ strictness (res_Decision r)) as H2 by (destruct (res_Decision r); simpl; naive_solver lia).
    etrans; [|exact H2]. by repeat case_match; simpl; lia.
  - destruct (refused _ _ _ _ _ _); [done|]. rewrite orb_false_r. destruct (doubted _ _ _ _); [done|]. cbn [orb].
    destruct (opt_some ask); [|done]. by destruct (granted _ _ _ _ _); simpl; lia.
Qed.
End spec.
