(* ===== verification/PolicyMonotone.v ===== *)
(** Deny and ask rules only tighten a decision, and taking allow rules away only
    tightens it: for every call, and whatever a rule brings into the reading of
    the call. *)

From Stdlib Require Import ZArith NArith Ascii String Lia Bool.
From stdpp Require Import base tactics list option strings gmap.
From S2P Require Import Prelude.
From S2P Require Import GoStd.
From S2P Require Import Errors.
From S2P Require Import GoNet.
From S2P Require Import GoPath.
From S2P Require Import Glob.
From S2P Require Import ShellSplit.
From S2P Require Import PolicyRule.
From S2P Require Import Overlay.
From S2P Require Import Remote.
From S2P Require Import Args.
From S2P Require Import Kubescope.
From S2P Require Import PolicyEngine.
From S2P Require Import PolicyEngineSpec.

#[local] Open Scope string_scope.
#[local] Open Scope nat_scope.
#[local] Open Scope go_scope.

(** Lists with every deny and ask rule of the first, and no allow rule it lacks. *)
Definition tighter (l l' : RuleLists) : Prop :=
  (∀ r, r ∈ rl_deny l → r ∈ rl_deny l') ∧ (∀ r, r ∈ rl_ask l → r ∈ rl_ask l') ∧ (∀ r, r ∈ rl_allow l' → r ∈ rl_allow l).

#[export] Instance tighter_preorder : PreOrder tighter.
Proof. split; [by intros l | intros l1 l2 l3 (A & B & C) (D & E & F); repeat split; auto]. Qed.

Lemma engine_rules_app l o : engine_rules l o =
  MkLists (rl_deny l ++ (ov_pinned o ++ ov_deny o)) (rl_ask l ++ ov_ask o) (rl_allow l ++ ov_allow o).
Proof.
  unfold engine_rules. simpl. destruct (_ =? 0) eqn:E; [|done]. apply Nat.eqb_eq in E.
  destruct (ov_pinned o ++ ov_deny o)%list, (ov_ask o), (ov_allow o); try done. rewrite !app_nil_r. by destruct l.
Qed.

Lemma tighter_rules l e : tighter (en_lists e) l → tighter (rules e) (rules (with_lists l e)).
Proof.
  intros (D & A & W). unfold rules. rewrite !engine_rules_app. simpl.
  split; [|split]; simpl; intros r; rewrite !elem_of_app; naive_solver.
Qed.

Lemma existsb_mono {A} (f g : A → bool) l l' : (∀ x, x ∈ l → f x = true → x ∈ l' ∧ g x = true) →
  existsb f l = true → existsb g l' = true.
Proof.
  rewrite !existsb_exists. intros H (x & Hx & Hf). rewrite <- list_elem_of_In in Hx.
  exists x. rewrite <- list_elem_of_In. by apply H.
Qed.

Lemma patterned_mono rs rs' tool : (∀ r, r ∈ rs → r ∈ rs') → patterned rs tool = true → patterned rs' tool = true.
Proof. intros H. apply existsb_mono. auto. Qed.

Lemma patterned_false rs tool r : patterned rs tool = false → r ∈ rs → ForTool r tool && opt_some (pr_pattern r) = false.
Proof.
  intros H Hr. apply not_true_iff_false. intros Hp. apply not_true_iff_false in H. apply H, existsb_exists.
  exists r. by rewrite <- list_elem_of_In.
Qed.

Lemma strictness_max d : strictness d ≤ strictness Deny.
Proof. destruct d; simpl; lia. Qed.

(** ** Rules with no pattern for the tool *)

Section unpatterned.
Context (tx : Text) (lex : string → RawMessage) (host : Host) (r : Rule) (tool : string).
Hypothesis unpatterned : ForTool r tool && opt_some (pr_pattern r) = false.

Lemma matchesAny_unpatterned l : l ≠ [] → matchesAny tx r tool l = ForTool r tool.
Proof.
  intros Hl. unfold matchesAny, Matches. destruct (ForTool r tool) eqn:Ef; cbn [negb].
  - destruct l as [|s l]; [done|]. simpl. destruct (pr_pattern r); [done|]. done.
  - clear Hl. by induction l.
Qed.

Lemma matches_unpatterned args c : rd_subjects c ≠ [] → (rd_remote c ≠ None → tool = "ssh") →
  matches tx lex host tool args c r = ForTool r tool.
Proof.
  intros Hs Hssh. unfold matches. rewrite !matchesAny_unpatterned by done.
  assert (matchesPathAny tx r tool (rd_subjects c) = ForTool r tool) as ->.
  { unfold matchesPathAny. rewrite matchesAny_unpatterned by done. by destruct (ForTool r tool). }
  destruct (ForTool r tool) eqn:Ef; [by repeat case_match|].
  unfold matchesCaselessAny, matchesFlagsAny. rewrite Ef. rewrite !andb_false_r. simpl.
  assert (∀ rr, rd_remote c = Some rr → matchesRemoteFlags tx r rr = false) as Hrr.
  { intros rr Hrr. unfold matchesRemoteFlags. rewrite <- Hssh by congruence. by rewrite Ef, orb_true_r. }
  destruct (opt_some _ && _); [done|]. destruct (rd_remote c) as [rr|]; [by apply Hrr|].
  destruct (String.eqb tool "bash"); [by destruct (pr_flags r)|]. destruct (String.eqb _ _); [|done].
  destruct (pr_caseless r); by rewrite ?andb_false_r.
Qed.
End unpatterned.

(** ** Readings under the two sets of rules *)

Lemma base_names_elem l seen out x : (∀ y, y ∈ seen → y ∈ out) →
  x ∈ add_base_names l seen out ↔ x ∈ out ∨ ∃ s, s ∈ l ∧ base_name s = Some x.
Proof.
  revert seen out. induction l as [|s l IH]; intros seen out Hseen; simpl.
  { split; [auto|]. intros [?|(s & Hs & _)]; [done|]. by apply elem_of_nil in Hs. }
  destruct (base_name s) as [b|] eqn:Eb; [case_bool_decide as Hb|].
  - rewrite IH by done. split; [intros [?|(t & ? & ?)]; [by left | right; exists t; split; [by right | done]]|].
    intros [?|(t & [-> |Ht]%elem_of_cons & Hx)]; [by left | | right; by exists t].
    rewrite Eb in Hx. injection Hx as <-. left. by apply Hseen.
  - rewrite IH by (intros y; rewrite elem_of_union, elem_of_app, elem_of_singleton, list_elem_of_singleton; naive_solver).
    rewrite elem_of_app, list_elem_of_singleton. split.
    + intros [[?| ->]|(t & ? & ?)]; [by left | right; exists s; split; [by left | done] | right; exists t; split; [by right | done]].
    + intros [?|(t & [-> |Ht]%elem_of_cons & Hx)]; [by left; left | rewrite Eb in Hx; injection Hx as <-; by left; right | right; by exists t].
  - rewrite IH by done. split; [intros [?|(t & ? & ?)]; [by left | right; exists t; split; [by right | done]]|].
    intros [?|(t & [-> |Ht]%elem_of_cons & Hx)]; [by left | congruence | right; by exists t].
Qed.

Lemma withBaseNames_mono l l' x : (∀ y, y ∈ l → y ∈ l') → x ∈ withBaseNames l → x ∈ withBaseNames l'.
Proof.
  unfold withBaseNames. intros H. rewrite !base_names_elem by (intros y; by rewrite elem_of_list_to_set). naive_solver.
Qed.

Lemma withBaseNames_keeps l x : x ∈ l → x ∈ withBaseNames l.
Proof. intros H. unfold withBaseNames. rewrite base_names_elem by (intros y; by rewrite elem_of_list_to_set). by left. Qed.

Lemma elem_nonempty {A} (x : A) l : x ∈ l → l ≠ [].
Proof. intros H ->. by apply elem_of_nil in H. Qed.

(** How a reading under more rules compares with one under fewer: [sees] is
    whether the fewer have a pattern for the tool, [both] whether both do. *)
Record close (tool : string) (sees both : bool) (c c' : reading) : Prop := {
  cl_key : rd_key c' = rd_key c;
  cl_subject : rd_subject c' = rd_subject c;
  cl_narrow : rd_narrow c' = rd_narrow c;
  cl_complete : rd_complete c' = rd_complete c;
  cl_canon : rd_canon c' = rd_canon c;
  cl_remote : rd_remote c' = rd_remote c;
  cl_ssh : rd_remote c ≠ None → tool = "ssh";
  cl_subjects : rd_subjects c ≠ [] ∧ rd_subjects c' ≠ [];
  cl_allows : rd_allow c ≠ [] ∧ rd_allow c' ≠ [];
  cl_same : sees = true → c' = c;
  cl_scripts : sees = false → rd_scripts c = no_scripts;
  cl_more : tool = "bash" → ∀ s, s ∈ rd_subjects c → s ∈ rd_subjects c';
  cl_allow : both = true ∨ tool = "bash" → rd_allow c' = rd_allow c
}.

Section readings.
Context (tx : Text) (reader : Reader) (lex : string → RawMessage) (host : Host).

Lemma pathSubjects_allow e p d d' : snd (pathSubjects host e p d) = snd (pathSubjects host e p d').
Proof. unfold pathSubjects. destruct (String.eqb p ""); [done|]. destruct (IsAbs _), (flat_map _ _); done. Qed.

Lemma fold_spellings_keep dir roots l ss x : x ∈ l → x ∈ fold_left (add_spelling dir roots) ss l.
Proof.
  assert (∀ s l, x ∈ l → x ∈ add_new s l) as Hnew.
  { intros s l'. unfold add_new. case_bool_decide; [done|]. intros H'. apply elem_of_app. by left. }
  assert (∀ root a l, x ∈ l → x ∈ relTo dir root a l) as Hrel.
  { intros root a l' H'. unfold relTo. destruct (Rel root a); [|done]. destruct (IsLocal _); auto. }
  revert l. induction ss as [|a ss IH]; simpl; intros l H; [done|]. apply IH. unfold add_spelling.
  apply (Hnew (a ++ dir)) in H. revert H. generalize (add_new (a ++ dir) l). clear IH.
  induction roots as [|root roots IHr]; simpl; intros l' H; [done|]. by apply IHr, Hrel.
Qed.

Lemma pathSubjects_nonempty e p d : fst (pathSubjects host e p d) ≠ [] ∧ snd (pathSubjects host e p d) ≠ [].
Proof.
  unfold pathSubjects. destruct (String.eqb p ""); [done|].
  assert (∀ s l x, x ∈ l → x ∈ add_new s l) as Hnew.
  { intros s l x H. unfold add_new. case_bool_decide; [done|]. apply elem_of_app. by left. }
  set (all := if IsAbs (Clean p) then [p] else _).
  assert (p ∈ all) as Hp by (unfold all; destruct (IsAbs _); [by left | apply Hnew; by left]).
  assert (∀ dir root a l, l ≠ [] → relTo dir root a l ≠ []) as Hrel.
  { intros dir root a l Hl. unfold relTo. destruct (Rel root a); [|done]. destruct (IsLocal _); [|done].
    destruct l as [|x l]; [done|]. apply (elem_nonempty x). apply Hnew, Hnew. by left. }
  assert (∀ dir roots ss, fold_left (add_spelling dir roots) ss all ≠ []) as Hfold.
  { intros. by apply (elem_nonempty p), fold_spellings_keep. }
  clearbody all. destruct (IsAbs (Clean p)), (flat_map (root_forms host) _) as [|root roots]; cbn [fst snd length Nat.eqb];
    (split; [|by (done || apply Hrel)]); try apply Hfold. by apply (elem_nonempty p).
Qed.

Lemma shellRead_allow text how sr : shellRead tx reader text how = Some sr → sr_allow sr ≠ [].
Proof.
  unfold shellRead. destruct (commandSegments tx text) as [[? ?]|]; [|done]. cbn [mbind option_bind].
  destruct (more_segments _ _ _ _) as [[? ?]|]; [|done]. cbn [mbind option_bind].
  destruct (more_segments _ _ _ _) as [[? ?]|]; [|done]. by intros [= <-].
Qed.

Lemma read_subject_close e l tool key text how c c' :
  let e' := with_lists l e in
  (rulesSeeParts e tool = true → rulesSeeParts e' tool = true) →
  read_subject tx reader host e tool key text how = Some c →
  read_subject tx reader host e' tool key text how = Some c' →
  close tool (rulesSeeParts e tool) (pathRules e tool && pathRules e' tool) c c'.
Proof.
  intros e' Hmono. unfold read_subject. destruct (String.eqb_spec tool "bash") as [Ht|Ht].
  - destruct (shellRead_total tx reader text how) as (sr & Hsr & Hin). rewrite Hsr. cbn [mbind option_bind].
    intros [= <-] [= <-]. split; simpl; try done.
    + split; apply (elem_nonempty text), withBaseNames_keeps, elem_of_app; by left.
    + by split; eapply shellRead_allow.
    + intros Hb. by rewrite Hb, (Hmono Hb).
    + by intros ->.
    + intros _ s. apply withBaseNames_mono. intros y. rewrite !elem_of_app. intros [?|Hy]; [by left|]. right.
      destruct (rulesSeeParts e tool) eqn:Eb; [by rewrite (Hmono eq_refl) | by apply elem_of_nil in Hy].
  - assert (∀ x : Engine, rulesSeeParts x tool = true → pathRules x tool = true) as Hpath.
    { intros x. unfold rulesSeeParts, pathRules. by intros ->. }
    change (pathSubjects host e') with (pathSubjects host e).
    pose proof (pathSubjects_allow e text (rulesSeeParts e tool) (rulesSeeParts e' tool)) as Hallow.
    pose proof (pathSubjects_nonempty e text (rulesSeeParts e tool)) as [Hn1 Hn2].
    pose proof (pathSubjects_nonempty e text (rulesSeeParts e' tool)) as [Hn3 Hn4].
    intros Hc Hc'. destruct (String.eqb key "path" && pathRules e tool) eqn:E1,
      (String.eqb key "path" && pathRules e' tool) eqn:E2.
    all: try destruct (pathSubjects host e text (rulesSeeParts e tool)) as [s1 a1] eqn:P1;
      try destruct (pathSubjects host e text (rulesSeeParts e' tool)) as [s2 a2] eqn:P2;
      injection Hc as <-; injection Hc' as <-; simpl in *.
    all: split; simpl; try done.
    all: try (intros Hb; specialize (Hmono Hb); rewrite (Hpath _ Hmono), (Hpath _ Hb) in *; congruence).
    all: try (intros Hb; specialize (Hmono Hb); rewrite Hmono, Hb in *; congruence).
    all: intros [Hpp%andb_true_iff|]; [|done]; destruct Hpp as [Hp Hp']; rewrite Hp, Hp' in *; congruence.
Qed.

Lemma read_target_close tool sees both t c c' : close tool sees both c c' →
  close tool sees both (read_target t c) (read_target t c').
Proof.
  intros [K S N C X R H U A E P M W]. destruct t as [t|]; [|by split]. unfold read_target. rewrite K, S, C, X, R.
  split; simpl; try done. intros Hs. by rewrite (E Hs).
Qed.

Lemma read_toolchain_close tool sees both c c' : close tool sees both c c' →
  close tool sees both (read_toolchain tool c) (read_toolchain tool c').
Proof.
  intros Hc. pose proof Hc as [K S N C X R H U A E P M W]. unfold read_toolchain. rewrite S.
  destruct (if String.eqb tool "toolchain" then _ else _) as [lang|]; [|done].
  rewrite K, N, C, X, R. split; simpl; try done.
  - by split; apply (elem_nonempty lang), elem_of_app; right; left.
  - intros Hs. by rewrite (E Hs).
  - intros Ht s. rewrite !elem_of_app. intros [?|?]; [left; by apply M | by right].
Qed.

Lemma read_remote_close tool args sees both c c' c1 c1' : close tool sees both c c' →
  read_remote tx reader tool args c = Some c1 → read_remote tx reader tool args c' = Some c1' →
  close tool sees both c1 c1'.
Proof.
  intros Hc. pose proof Hc as [K S N C X R H U A E P M W]. unfold read_remote.
  destruct (remoteCommand tx tool args) as [[h command]|] eqn:Er; [|by intros [= <-] [= <-]].
  assert (tool = "ssh") as Hssh.
  { unfold remoteCommand in Er. destruct (String.eqb_spec tool "ssh"); [done|]. done. }
  destruct (readRemote tx reader h command _) as [rr|] eqn:Err; [|done]. cbn [mbind option_bind].
  intros [= <-] [= <-]. rewrite K, S. 
  assert (rr_subjects rr ≠ [] ∧ rr_allow rr ≠ []) as [Hs Ha].
  { unfold readRemote in Err. destruct (shellRead tx reader command asCommand) as [sr|] eqn:Esr; [|done].
    cbn [mbind option_bind] in Err. injection Err as <-. simpl. split.
    - apply (elem_nonempty (h ++ "/" ++ command)).
      assert (∀ x, x ∈ [h ++ "/" ++ command] → ∀ l acc, (∀ y, y ∈ [h ++ "/" ++ command] → y ∈ acc) →
        x ∈ fold_left (λ l c, add_new (h ++ "/" ++ c) (add_new c l)) l acc) as Hf.
      { intros x Hx l. induction l as [|y l IH]; simpl; intros acc Hacc; [by apply Hacc|]. apply IH.
        intros z Hz. unfold add_new. repeat case_bool_decide; rewrite ?elem_of_app; auto. }
      apply Hf; [by left | done].
    - pose proof (shellRead_allow command asCommand sr Esr). by destruct (sr_allow sr). }
  split; simpl; try done. intros Hb. by rewrite (E Hb).
Qed.

Lemma read_call_close e l tool args how c c' :
  let e' := with_lists l e in
  (rulesSeeParts e tool = true → rulesSeeParts e' tool = true) →
  read_call tx reader lex host e tool args how = Some c →
  read_call tx reader lex host e' tool args how = Some c' →
  close tool (rulesSeeParts e tool) (pathRules e tool && pathRules e' tool) c c'.
Proof.
  intros e' Hmono. unfold read_call.
  destruct (read_subject tx reader host e tool _ _ how) as [c0|] eqn:E0; [|done].
  destruct (read_subject tx reader host e' tool _ _ how) as [c0'|] eqn:E0'; [|done]. cbn [mbind option_bind].
  intros H1 H2. eapply read_remote_close; [|exact H1 | exact H2].
  apply read_toolchain_close, read_target_close. by eapply read_subject_close.
Qed.

(** ** The steps under the two sets of rules *)

Section steps.
Context (e : Engine) (l : RuleLists) (tool : string) (mutates : bool) (args : RawMessage) (c c' : reading) (entry : string).
Let e' := with_lists l e.
Hypothesis Htight : tighter (rules e) (rules e').
Hypothesis Hclose : close tool (rulesSeeParts e tool) (pathRules e tool && pathRules e' tool) c c'.

Lemma seeParts_mono : rulesSeeParts e tool = true → rulesSeeParts e' tool = true.
Proof.
  destruct Htight as (D & A & _). unfold rulesSeeParts. intros [H|H]%orb_true_iff; apply orb_true_iff;
    [left | right]; by eapply patterned_mono.
Qed.

(** A deny or ask rule that matches the one reading matches the other. *)
Lemma matches_close rs r : r ∈ rs → (rulesSeeParts e tool = false → patterned rs tool = false) →
  matches tx lex host tool args c r = true → matches tx lex host tool args c' r = true.
Proof.
  intros Hr Hp. destruct Hclose as [K S N C X R H [U U'] A E P M W]. destruct (rulesSeeParts e tool) eqn:Eb; [by rewrite E|].
  pose proof (patterned_false rs tool r (Hp eq_refl) Hr) as Hun.
  rewrite !matches_unpatterned; try done. by rewrite R.
Qed.

Lemma rules_match_close (get : RuleLists → list Rule) :
  (∀ r, r ∈ get (rules e) → r ∈ get (rules e')) →
  (rulesSeeParts e tool = false → patterned (get (rules e)) tool = false) →
  existsb (matches tx lex host tool args c) (get (rules e)) = true →
  existsb (matches tx lex host tool args c') (get (rules e')) = true.
Proof.
  intros Hsub Hp. apply existsb_mono. intros r Hr Hm. split; [by apply Hsub|]. by eapply matches_close.
Qed.

Lemma no_deny_pattern : rulesSeeParts e tool = false → patterned (rl_deny (rules e)) tool = false.
Proof. by intros [? _]%orb_false_iff. Qed.
Lemma no_ask_pattern : rulesSeeParts e tool = false → patterned (rl_ask (rules e)) tool = false.
Proof. by intros [_ ?]%orb_false_iff. Qed.

Lemma refused_close : refused tx lex host e tool mutates args c entry = true →
  refused tx lex host e' tool mutates args c' entry = true.
Proof.
  pose proof Htight as (D & _ & _). unfold refused. rewrite !orb_true_iff. intros [[H|H]|H].
  - left. left. by apply (rules_match_close rl_deny D no_deny_pattern).
  - left. right. apply andb_true_iff in H as [Hp H]. apply andb_true_iff. split; [by eapply patterned_mono|].
    assert (rulesSeeParts e tool = true) as Hb by (unfold rulesSeeParts; by rewrite Hp).
    by rewrite (cl_same _ _ _ _ _ Hclose Hb).
  - right. by rewrite (cl_remote _ _ _ _ _ Hclose).
Qed.

Lemma doubted_close : doubted tx lex host e tool args c = true → doubted tx lex host e' tool args c' = true.
Proof.
  pose proof Htight as (_ & A & _). pose proof Hclose as [K S N C X R H U AL E P M W]. unfold doubted. rewrite !orb_true_iff.
  intros [[[[[Hd|Ht]|Hc]|Hs]|Ha]|Hh].
  - do 5 left. unfold destructive, shell_call, canon_of in *. by rewrite R, X.
  - do 4 left. right. unfold names_trust in *. apply andb_true_iff in Ht as [Hbash Ht]. rewrite Hbash. simpl.
    unfold namesTrust in *. revert Ht. apply existsb_mono. intros s Hs Hw. split; [|done].
    apply String.eqb_eq in Hbash. unfold canon_of in *. rewrite X. apply elem_of_app in Hs as [Hs|Hs]; apply elem_of_app;
      [left; by apply M | by right].
  - do 3 left. right. apply andb_true_iff in Hc as [Hc Hb]. rewrite C, Hc. by rewrite seeParts_mono.
  - left. left. right. destruct (rulesSeeParts e tool) eqn:Eb; [by rewrite E|].
    unfold script_doubt in Hs. by rewrite P in Hs.
  - left. right. by apply (rules_match_close rl_ask A no_ask_pattern).
  - right. apply andb_true_iff in Hh as [Hh Hb]. unfold canon_of in *. rewrite X, Hh. by rewrite seeParts_mono.
Qed.

Lemma approves_close r : r ∈ rl_allow (rules e') → approves tx tool c' r = true → approves tx tool c r = true.
Proof.
  pose proof Htight as (_ & _ & WL). pose proof Hclose as [K S N C X R H U [AL AL'] E P M W]. intros Hr.
  unfold approves, git_runs, shell_call, canon_of. rewrite R, X, N.
  assert (matchesAny tx r tool (rd_allow c') = matchesAny tx r tool (rd_allow c)) as ->; [|done].
  destruct (pathRules e tool && pathRules e' tool) eqn:Epp; [by rewrite W by auto|].
  assert (ForTool r tool && opt_some (pr_pattern r) = false) as Hun.
  { apply andb_false_iff in Epp as [Epp|Epp]; unfold pathRules in Epp; apply orb_false_iff in Epp as [_ Epp].
    - eapply patterned_false; [exact Epp | by apply WL].
    - by eapply patterned_false. }
  by rewrite !matchesAny_unpatterned.
Qed.

Lemma granted_close : granted tx e' tool mutates c' entry = true → granted tx e tool mutates c entry = true.
Proof.
  pose proof Htight as (_ & _ & WL). pose proof Hclose as [K S N C X R H U AL E P M W].
  unfold granted, mode_grants, quiet_read. rewrite R, S. simpl. rewrite !orb_true_iff, !andb_true_iff.
  intros [?|[Hm Ha]]; [by left|]. right. split; [done|]. apply orb_true_iff in Ha as [Ha|Ha]; apply orb_true_iff; [left | by right].
  revert Ha. apply existsb_mono. intros r Hr Ha. split; [by apply WL | by apply approves_close].
Qed.
End steps.

(** C5: Deny and ask rules only tighten, and so does taking allow rules away: whatever
    rules are configured, adding deny and ask rules and removing allow rules never
    makes the decision on a call less strict, although rules with a pattern also
    change what is read: scripts, the disk's spellings, arguments that are no text. *)
Theorem rules_only_tighten (e : Engine) (l : RuleLists) (tool : string) (mutates : bool) (args : RawMessage) (how : readAs) :
  tighter (en_lists e) l →
  ∃ res res', evaluateAs tx reader lex host e tool mutates args how = Some res ∧
    evaluateAs tx reader lex host (with_lists l e) tool mutates args how = Some res' ∧
    strictness (res_Decision res) ≤ strictness (res_Decision res').
Proof.
  intros Ht%tighter_rules.
  destruct (evaluateAs_outcome tx reader lex host e tool mutates args how) as (c & entry & res & Hc & He & Hres & Hd).
  destruct (evaluateAs_outcome tx reader lex host (with_lists l e) tool mutates args how)
    as (c' & entry' & res' & Hc' & He' & Hres' & Hd').
  exists res, res'. split; [done|]. split; [done|]. rewrite Hd, Hd'.
  pose proof (seeParts_mono e l tool Ht) as Hsee.
  pose proof (read_call_close e l tool args how c c' Hsee Hc Hc') as Hcl.
  assert (entry' = entry) as ->.
  { unfold remote_entry in He, He'. rewrite (cl_remote _ _ _ _ _ Hcl) in He'. simpl in He'. congruence. }
  unfold outcome. change (runs (with_lists l e) tool args) with (runs e tool args).
  assert (refused_args tx e tool args ≠ None → refused_args tx (with_lists l e) tool args ≠ None) as Hargs.
  { unfold refused_args. destruct (su_err _) as [[nonString err]|]; [|done].
    destruct nonString; simpl; [|done]. destruct (rulesSeeParts e tool); [by rewrite Hsee | done]. }
  destruct (refused_args tx e tool args); [by destruct (refused_args tx (with_lists l e) tool args); [|destruct Hargs]|].
  destruct (refused_args tx (with_lists l e) tool args); [apply strictness_max|].
  destruct (run_hooks _ _) as [r|ask]; [done|].
  pose proof (refused_close e l tool mutates args c c' entry Ht Hcl) as Hr.
  pose proof (doubted_close e l tool args c c' Ht Hcl) as Hdb.
  pose proof (granted_close e l tool mutates c c' entry Ht Hcl) as Hg.
  destruct (refused tx lex host e _ _ _ _ _); [by rewrite Hr|].
  destruct (refused tx lex host (with_lists l e) _ _ _ _ _); [by repeat case_match; simpl; lia|].
  destruct (doubted tx lex host e _ _ _); [by rewrite Hdb|].
  destruct (doubted tx lex host (with_lists l e) _ _ _); [by repeat case_match; simpl; lia|]. cbn [orb].
  destruct (opt_some ask); [done|]. destruct (granted tx (with_lists l e) _ _ _ _); [by rewrite Hg|].
  by destruct (granted tx e _ _ _ _); simpl; lia.
Qed.
End readings.

(** ** A concrete decision *)

Definition plain_host : Host := MkHost (λ p, p) (λ p, p) (λ _, false) [] (λ _, false) (λ _, "") (λ _, None).
Definition command_args (command : string) : RawMessage :=
  MkRaw false [OpenObj; Leaf (LStr "command"); Leaf (LStr command); CloseObj] None.
Definition no_args : RawMessage := MkRaw true [] None.

Definition with_allow : RuleLists := MkLists [] [] (snd (addAll ascii_text [] ["bash(ls *)"; "bash(rm *)"])).
Definition with_deny : RuleLists := MkLists (snd (addAll ascii_text [] ["bash(rm *)"])) [] (rl_allow with_allow).
Definition auto_engine : Engine := with_lists with_allow (New ModeAuto).

Definition decision_of (e : Engine) (command : string) : option Decision :=
  res_Decision <$> Evaluate ascii_text plain_reader (λ _, no_args) plain_host e "bash" true (command_args command).

Example allowed_ls : decision_of auto_engine "ls -l" = Some Allow. Proof. vm_compute. reflexivity. Qed.
Example allowed_rm : decision_of auto_engine "rm -f x" = Some Allow. Proof. vm_compute. reflexivity. Qed.
Example denied_rm : decision_of (with_lists with_deny auto_engine) "sudo -n /bin/rm -f x" = Some Deny.
Proof. vm_compute. reflexivity. Qed.
Example asked_other : decision_of auto_engine "make" = Some Ask. Proof. vm_compute. reflexivity. Qed.
Example chain_not_allowed : decision_of auto_engine "ls -l; make" = Some Ask. Proof. vm_compute. reflexivity. Qed.

Lemma rules_only_tighten_witness : decision_of auto_engine "rm -f x" = Some Allow ∧
  ∃ res res', Evaluate ascii_text plain_reader (λ _, no_args) plain_host auto_engine "bash" true (command_args "rm -f x") = Some res ∧
    Evaluate ascii_text plain_reader (λ _, no_args) plain_host (with_lists with_deny auto_engine) "bash" true
      (command_args "rm -f x") = Some res' ∧ strictness (res_Decision res) ≤ strictness (res_Decision res').
Proof.
  split; [vm_compute; reflexivity|].
  apply (rules_only_tighten ascii_text plain_reader (λ _, no_args) plain_host auto_engine with_deny "bash" true
           (command_args "rm -f x") asCommand).
  split; [|split]; intros r Hr; [by apply elem_of_nil in Hr | by apply elem_of_nil in Hr | exact Hr].
Defined.
