(* ===== verification/GoBinary.v ===== *)
(** Package encoding/binary as the program uses it: integers in network order,
    and the lengths and slices of byte strings they come with. *)

From Stdlib Require Import ZArith NArith Ascii String Lia Bool.
From stdpp Require Import base tactics list strings.
From S2P Require Import Prelude.
From S2P Require Import GoStd.

#[local] Open Scope string_scope.
#[local] Open Scope Z_scope.
#[local] Arguments String.append : simpl nomatch.

Definition str_len (s : string) : Z := Z.of_nat (String.length s).

(** ** Integers in network order *)

Definition byte_of (n : N) : ascii := ascii_of_N (N.land n 255).

(** [binary.BigEndian.Uint16], [Uint32] and [Uint64] of as many bytes. *)
Definition be_of (s : string) : N := foldl (λ acc c, (acc * 256 + bv c)%N) 0%N (bytes s).

(** [binary.BigEndian.AppendUint16] and the like: the low [k] bytes of [n]. *)
Fixpoint be_bytes (k : nat) (n : N) : string :=
  match k with
  | O => ""
  | S k => String (byte_of (N.shiftr n (8 * N.of_nat k))) (be_bytes k n)
  end.

(** ** Strings *)

Lemma str_len_app s t : str_len (s ++ t) = str_len s + str_len t.
Proof. unfold str_len. rewrite str_length_app. lia. Qed.

Lemma str_take_len n s : (n <= String.length s)%nat → String.length (str_take n s) = n.
Proof. revert s; induction n as [|n IH]; intros [|c s]; simpl; intros; [lia..|]. rewrite IH; lia. Qed.

Lemma str_take_app_len s t : str_take (String.length s) (s ++ t) = s.
Proof. induction s; simpl; [by destruct t | by rewrite IHs]. Qed.

Lemma str_drop_app_len s t : str_drop (String.length s) (s ++ t) = t.
Proof. induction s; simpl; [by destruct t | done]. Qed.

(** ** Integers *)

Lemma be_of_go s : ∀ a, foldl (λ acc c, (acc * 256 + bv c)%N) a (bytes s) =
  (a * 256 ^ N.of_nat (String.length s) + be_of s)%N.
Proof.
  unfold be_of. induction s as [|c s IH]; intros a; cbn [bytes foldl].
  - simpl. lia.
  - rewrite IH, (IH (0 * 256 + bv c)%N). cbn [String.length]. rewrite Nat2N.inj_succ, N.pow_succ_r'. lia.
Qed.

Lemma be_of_cons c s : be_of (String c s) = (bv c * 256 ^ N.of_nat (String.length s) + be_of s)%N.
Proof. unfold be_of at 1. cbn [bytes foldl]. rewrite be_of_go. lia. Qed.

Lemma bv_bound c : (bv c < 256)%N.
Proof. unfold bv. apply N_ascii_bounded. Qed.

Lemma bv_byte_of n : bv (byte_of n) = (n mod 256)%N.
Proof.
  unfold byte_of, bv. change 255%N with (N.ones 8). rewrite N.land_ones. change (2 ^ 8)%N with 256%N.
  apply N_ascii_embedding. by apply N.mod_lt.
Qed.

Lemma byte_of_bv c : byte_of (bv c) = c.
Proof.
  unfold byte_of, bv. change 255%N with (N.ones 8). rewrite N.land_ones. change (2 ^ 8)%N with 256%N.
  rewrite N.mod_small by apply N_ascii_bounded. apply ascii_N_embedding.
Qed.

Lemma be_bytes_length k n : String.length (be_bytes k n) = k.
Proof. induction k; simpl; congruence. Qed.

Lemma be_of_be_bytes k n : be_of (be_bytes k n) = (n mod 256 ^ N.of_nat k)%N.
Proof.
  induction k as [|k IH]; [by rewrite N.mod_1_r|]. cbn [be_bytes].
  rewrite be_of_cons, be_bytes_length, IH, bv_byte_of, Nat2N.inj_succ, N.pow_succ_r'.
  rewrite N.shiftr_div_pow2, N.pow_mul_r. change (2 ^ 8)%N with 256%N.
  rewrite (N.mul_comm 256), N.Div0.mod_mul_r. lia.
Qed.

Lemma be_of_bound s : (be_of s < 256 ^ N.of_nat (String.length s))%N.
Proof.
  induction s as [|c s IH]; [done|]. rewrite be_of_cons. cbn [String.length].
  rewrite Nat2N.inj_succ, N.pow_succ_r'. pose proof (bv_bound c). nia.
Qed.

Lemma be_bytes_go k : ∀ s a, String.length s = k →
  be_bytes k (a * 256 ^ N.of_nat k + be_of s) = s.
Proof.
  induction k as [|k IH]; intros s a Hs; [by destruct s|]. destruct s as [|c s]; [done|].
  injection Hs as Hs. cbn [be_bytes].
  rewrite be_of_cons, Hs, Nat2N.inj_succ, N.pow_succ_r'.
  replace (a * (256 * 256 ^ N.of_nat k) + (bv c * 256 ^ N.of_nat k + be_of s))%N
    with ((a * 256 + bv c) * 256 ^ N.of_nat k + be_of s)%N by lia.
  rewrite IH by done. f_equal.
  rewrite N.shiftr_div_pow2, N.pow_mul_r. change (2 ^ 8)%N with 256%N.
  rewrite N.div_add_l by (apply N.pow_nonzero; done).
  rewrite (N.div_small (be_of s)) by (rewrite <- Hs; apply be_of_bound). rewrite N.add_0_r.
  rewrite <- (byte_of_bv c) at 2. unfold byte_of. change 255%N with (N.ones 8). rewrite !N.land_ones.
  change (2 ^ 8)%N with 256%N. by rewrite N.add_comm, N.Div0.mod_add.
Qed.

Lemma be_bytes_be_of s : be_bytes (String.length s) (be_of s) = s.
Proof. by apply (be_bytes_go _ s 0). Qed.

