(* ===== verification/WsFrame.v ===== *)
(** WebSocket frames (src/wsconn/wsconn.go): reading one frame off a connection
    and writing one, close payloads, and the protocol errors. A connection being
    read is the bytes that will still arrive and how reading ends after them. *)

From Stdlib Require Import ZArith NArith Ascii String Lia Bool.
From stdpp Require Import base tactics list strings.
From S2P Require Import Prelude.
From S2P Require Import GoStd.
From S2P Require Import GoPath.
From S2P Require Import GoBinary.

#[local] Open Scope string_scope.
#[local] Open Scope Z_scope.

(** ** Reading *)

(** What a read ends with once no more bytes come: [io.EOF], or another error of
    the connection such as a deadline. *)
Inductive io_error : Type :=
| EOF
| UnexpectedEOF
| BrokenIO (text : string).

Record stream : Type := Stream { s_bytes : string; s_end : io_error }.

(** The errors of the package: a broken connection, a frame refused with the
    close code to send, the peer's close or this side's, a write after a close,
    and a message that may not be sent. *)
Inductive ws_error : Type :=
| IOError (e : io_error)
| protocolError (code : Z) (msg : string)
| CloseError (Code : Z) (Reason : string) (Local : bool)
| ErrClosed
| BadMessage (msg : string).

(** Reading with an early return on the first error. *)
Definition reader (A : Type) : Type := stream → (ws_error + A) * stream.
Definition read_ret {A} (a : A) : reader A := λ r, (inr a, r).
Definition read_fail {A} (e : ws_error) : reader A := λ r, (inl e, r).
Definition read_bind {A B} (m : reader A) (k : A → reader B) : reader B :=
  λ r, match m r with (inl e, r) => (inl e, r) | (inr a, r) => k a r end.
Notation "'let^' x ':=' m 'in' k" := (read_bind m (λ x, k))
  (at level 10, x pattern, m at level 100, k at level 200) : go_scope.
#[local] Open Scope go_scope.

(** [io.ReadFull] into [n] bytes. *)
Definition ReadFull (n : Z) : reader string := λ r,
  if n <=? str_len (s_bytes r) then
    (inr (str_take (Z.to_nat n) (s_bytes r)), Stream (str_drop (Z.to_nat n) (s_bytes r)) (s_end r))
  else
    (inl (IOError (match s_end r with
                   | EOF => if String.eqb (s_bytes r) "" then EOF else UnexpectedEOF
                   | e => e
                   end)), Stream "" (s_end r)).

(** [unexpected]: the end of the stream inside a frame. *)
Definition unexpected {A} (m : reader A) : reader A := λ r,
  match m r with
  | (inl (IOError EOF), r) => (inl (IOError UnexpectedEOF), r)
  | x => x
  end.

(** ** Frames *)

Definition opContinuation : N := 0.
Definition opText : N := 1.
Definition opBinary : N := 2.
Definition opClose : N := 8.
Definition opPing : N := 9.
Definition opPong : N := 10.

Definition CloseNormal : Z := 1000.
Definition CloseGoingAway : Z := 1001.
Definition CloseProtocolError : Z := 1002.
Definition CloseNoStatus : Z := 1005.
Definition CloseInvalidData : Z := 1007.
Definition CloseTooBig : Z := 1009.

Definition maxControl : Z := 125.
Definition frameChunk : Z := 65536.

Record frame : Type := Frame { fin : bool; op : N; payload : string }.

Definition known_op (o : N) : bool :=
  existsb (N.eqb o) [opContinuation; opText; opBinary; opClose; opPing; opPong].

(** [%#x] of an opcode, one hexadecimal digit. *)
Definition hex_op (o : N) : string :=
  "0x" ++ match String.get (N.to_nat o) "0123456789abcdef" with Some c => String c "" | None => "" end.

(** Exclusive or of two bytes, bit by bit. *)
Definition xor_byte (a b : ascii) : ascii :=
  match a, b with
  | Ascii a0 a1 a2 a3 a4 a5 a6 a7, Ascii b0 b1 b2 b3 b4 b5 b6 b7 =>
      Ascii (xorb a0 b0) (xorb a1 b1) (xorb a2 b2) (xorb a3 b3)
            (xorb a4 b4) (xorb a5 b5) (xorb a6 b6) (xorb a7 b7)
  end.

(** [payload\[i\] ^= mask\[i&3\]], from index [i] on. *)
Fixpoint mask_from (key : string) (i : nat) (p : string) : string :=
  match p with
  | "" => ""
  | String c p => String (xor_byte c (default zero (str_at key (Nat.land i 3)))) (mask_from key (S i) p)
  end.

(** The payload, [frameChunk] bytes at a time, until [n] are held. *)
Fixpoint read_chunks (fuel : nat) (n : Z) (held : string) : reader string :=
  match fuel with
  | O => read_ret held
  | S fuel =>
      if str_len held <? n then
        let^ c := unexpected (ReadFull (Z.min (n - str_len held) frameChunk)) in
        read_chunks fuel n (held ++ c)
      else read_ret held
  end.
Definition read_payload (n : Z) : reader string := read_chunks (S (Z.to_nat (n / frameChunk))) n "".

Definition refuse_if (b : bool) (code : Z) (msg : string) : reader unit :=
  if b then read_fail (protocolError code msg) else read_ret tt.

(** A frame's length, from the low seven bits of its second byte. *)
Definition read_length (short : N) : reader N :=
  if (short =? 126)%N then
    let^ b := unexpected (ReadFull 2) in
    let^ _ := refuse_if (be_of b <? 126)%N CloseProtocolError "a frame length was not minimally encoded" in
    read_ret (be_of b)
  else if (short =? 127)%N then
    let^ b := unexpected (ReadFull 8) in
    let^ _ := refuse_if (negb (N.shiftr (be_of b) 63 =? 0)%N) CloseProtocolError "a frame length has its top bit set" in
    let^ _ := refuse_if (be_of b <=? 65535)%N CloseProtocolError "a frame length was not minimally encoded" in
    read_ret (be_of b)
  else read_ret short.

(** The checks on a frame's head, once its length [n] is known. *)
Definition check_head (f_fin : bool) (o : N) (n : Z) (maxFrame room : Z) : reader unit :=
  let^ _ := refuse_if ((opClose <=? o)%N && negb f_fin) CloseProtocolError "a control frame was fragmented" in
  let^ _ := refuse_if ((opClose <=? o)%N && (maxControl <? n)) CloseProtocolError
              ("a control frame is longer than " ++ Itoa maxControl ++ " bytes") in
  let^ _ := refuse_if (maxFrame <? n) CloseTooBig ("a frame is larger than " ++ Itoa maxFrame ++ " bytes") in
  refuse_if ((o <? opClose)%N && (0 <=? room) && (room <? n)) CloseTooBig "a message is larger than the limit".

(** [readFrame]: [masked] is whether frames in this direction must be, [room]
    what the message may still take. *)
Definition readFrame (masked : bool) (maxFrame room : Z) : reader frame :=
  let^ h := ReadFull 2 in
  let h0 := bv (default zero (str_at h 0)) in
  let h1 := bv (default zero (str_at h 1)) in
  let f_fin := negb (N.land h0 128 =? 0)%N in
  let o := N.land h0 15 in
  let^ _ := refuse_if (negb (N.land h0 112 =? 0)%N) CloseProtocolError
              "reserved bits are set, and no extension was agreed" in
  let^ _ := refuse_if (negb (known_op o)) CloseProtocolError ("unknown opcode " ++ hex_op o) in
  let is_masked := negb (N.land h1 128 =? 0)%N in
  let^ _ := refuse_if (negb (eqb is_masked masked)) CloseProtocolError
              (if masked then "a client frame was not masked" else "a server frame was masked") in
  let^ n := read_length (N.land h1 127) in
  let^ _ := check_head f_fin o (Z.of_N n) maxFrame room in
  let^ mask := (if masked then unexpected (ReadFull 4) else read_ret "") in
  let^ p := read_payload (Z.of_N n) in
  read_ret (Frame f_fin o (if masked then mask_from mask 0 p else p)).

(** The head of a frame of [n] bytes of payload: [m] is the mask bit. *)
Definition length_bytes (m : N) (n : N) : string :=
  if (n <? 126)%N then String (byte_of (N.lor m n)) ""
  else if (n <=? 65535)%N then String (byte_of (N.lor m 126)) (be_bytes 2 n)
  else String (byte_of (N.lor m 127)) (be_bytes 8 n).

(** [appendFrame]: one frame behind [b], masked with [key] when there is one. *)
Definition appendFrame (b : string) (f_fin : bool) (o : N) (p : string) (key : option string) : string :=
  let b0 := if f_fin then N.lor o 128 else o in
  let m := match key with Some _ => 128%N | None => 0%N end in
  b ++ String (byte_of b0) (length_bytes m (N.of_nat (String.length p)) ++
    match key with
    | None => p
    | Some k => k ++ mask_from k 0 p
    end).

(** ** Close payloads *)

Definition validCloseCode (c : Z) : bool :=
  ((1000 <=? c) && (c <=? 1003)) || ((1007 <=? c) && (c <=? 1011)) || ((3000 <=? c) && (c <=? 4999)).

(** [utf8.Valid]. *)
Definition utf8_Valid (s : string) : bool := match invalid_from 0 s with None => true | Some _ => false end.

(** [checkClose]: the code and the reason of a close frame's payload. *)
Definition checkClose (p : string) : ws_error + (Z * string) :=
  match p with
  | "" => inr (CloseNoStatus, "")
  | String _ "" => inl (protocolError CloseProtocolError "a close frame carried one byte")
  | String a (String b reason) =>
      let code := Z.of_N (be_of (String a (String b ""))) in
      if negb (validCloseCode code) then
        inl (protocolError CloseProtocolError ("close code " ++ Itoa code ++ " may not be sent"))
      else if negb (utf8_Valid reason) then inl (protocolError CloseInvalidData "a close reason is not UTF-8")
      else inr (code, reason)
  end.

(** [utf8.RuneStart]. *)
Definition RuneStart (c : ascii) : bool := negb (N.land (bv c) 192 =? 128)%N.

(** [trimUTF8]: [s] cut to at most [n] bytes without splitting a character. *)
Fixpoint trim_back (n : nat) (s : string) : nat :=
  match n with
  | O => O
  | S k => match str_at s n with
           | Some c => if RuneStart c then n else trim_back k s
           | None => n
           end
  end.
Definition trimUTF8 (s : string) (n : nat) : string :=
  let n := trim_back n s in
  if (n <? String.length s)%nat then str_take n s else s.

Example frame_hello :
  appendFrame "" true opText "Hello" None = String "129" (String "005" "Hello").
Proof. reflexivity. Qed.
Example frame_hello_masked :
  readFrame true 100 100 (Stream (appendFrame "" true opText "Hello" (Some "abcd") ++ "rest") EOF)
  = (inr (Frame true opText "Hello"), Stream "rest" EOF).
Proof. vm_compute. reflexivity. Qed.
Example close_reason_cut : trimUTF8 (String "a" (String "195" (String "169" "b"))) 2 = "a".
Proof. reflexivity. Qed.

(** * Theorems

    Reading and writing WebSocket frames are inverse: a frame is read exactly
    when what arrived starts with that frame as [appendFrame] writes it and the
    frame is one the direction and the limits allow. *)

#[local] Close Scope string_scope.
#[local] Close Scope Z_scope.
#[local] Open Scope string_scope.
#[local] Open Scope Z_scope.
#[local] Open Scope go_scope.

#[local] Arguments String.append : simpl nomatch.

(** ** What a frame may be *)

(** A masking key of four bytes in the masked direction, none in the other. *)
Definition key_fits (masked : bool) (key : option string) : Prop :=
  match key with
  | Some k => masked = true ∧ String.length k = 4%nat
  | None => masked = false
  end.

(** The frames RFC 6455 and the limits allow. *)
Definition frame_allowed (maxFrame room : Z) (f : frame) : Prop :=
  known_op (op f) = true ∧
  ((opClose <= op f)%N → fin f = true ∧ str_len (payload f) <= maxControl) ∧
  str_len (payload f) <= maxFrame ∧
  ((op f < opClose)%N → 0 <= room → str_len (payload f) <= room) ∧
  str_len (payload f) < 2 ^ 63.

Definition written (f : frame) (key : option string) : string :=
  appendFrame "" (fin f) (op f) (payload f) key.

(** ** Reading *)

Lemma ReadFull_app s t e n : n = str_len s → ReadFull n (Stream (s ++ t) e) = (inr s, Stream t e).
Proof.
  intros ->. unfold ReadFull. cbn [s_bytes s_end]. rewrite str_len_app.
  destruct (Z.leb_spec (str_len s) (str_len s + str_len t)) as [_|H]; [|unfold str_len in H; lia].
  unfold str_len at 1 2. rewrite Nat2Z.id. by rewrite str_take_app_len, str_drop_app_len.
Qed.

Lemma ReadFull_inr n r s r' : 0 <= n →
  ReadFull n r = (inr s, r') → s_bytes r = s ++ s_bytes r' ∧ str_len s = n ∧ s_end r = s_end r'.
Proof.
  intros Hn. unfold ReadFull. destruct (Z.leb_spec n (str_len (s_bytes r))) as [H|_]; [|done].
  intros [= <- <-]. cbn [s_bytes s_end]. rewrite str_take_drop. split; [done|]. split; [|done].
  unfold str_len in *. rewrite str_take_len; lia.
Qed.

Lemma unexpected_inr {A} (m : reader A) r a r' : unexpected m r = (inr a, r') ↔ m r = (inr a, r').
Proof. unfold unexpected. destruct (m r) as [[[[]| | | |]|] r1]; split; intros; by simplify_eq. Qed.

Lemma read_bind_inr {A B} (m : reader A) (k : A → reader B) r b r' :
  read_bind m k r = (inr b, r') ↔ ∃ a r1, m r = (inr a, r1) ∧ k a r1 = (inr b, r').
Proof.
  unfold read_bind. destruct (m r) as [[e|a] r1]; split.
  - done.
  - intros (a & r2 & [=] & _).
  - eauto.
  - by intros (a' & r2 & [= <- <-] & Hk).
Qed.

Lemma refuse_if_inr b code msg r u r' : refuse_if b code msg r = (inr u, r') ↔ b = false ∧ r' = r.
Proof. unfold refuse_if, read_fail, read_ret. destruct b, u; split; [done | by intros [? _] | by intros [= ->] | by intros [_ ->]]. Qed.

Lemma read_ret_inr {A} (a b : A) r r' : read_ret a r = (inr b, r') ↔ b = a ∧ r' = r.
Proof. unfold read_ret. split; [by intros [= <- <-] | by intros [-> ->]]. Qed.

Lemma read_chunks_done held r s r' :
  read_ret held r = (inr s, r') ↔
  ∃ t, s = held ++ t ∧ ReadFull (str_len held - str_len held) r = (inr t, r').
Proof.
  rewrite Z.sub_diag, read_ret_inr. split.
  - intros [-> ->]. exists "". rewrite str_app_nil_r. split; [done|].
    destruct r as [br er]. apply (ReadFull_app "" br er). done.
  - intros (t & -> & Ht). apply ReadFull_inr in Ht as (Hb & Hl & He); [|lia].
    assert (t = "") as -> by (destruct t; [done | unfold str_len in Hl; simpl in Hl; lia]).
    rewrite str_app_nil_r. destruct r, r'; simpl in *; by subst.
Qed.

(** The chunks of a payload are the payload. *)
Lemma read_chunks_spec fuel : ∀ n held r s r',
  n - str_len held <= Z.of_nat fuel * frameChunk → str_len held <= n →
  read_chunks fuel n held r = (inr s, r') ↔
  ∃ t, s = held ++ t ∧ ReadFull (n - str_len held) r = (inr t, r').
Proof.
  induction fuel as [|fuel IH]; intros n held r s r' Hf Hh; cbn [read_chunks].
  { assert (n = str_len held) as -> by lia. apply read_chunks_done. }
  destruct (Z.ltb_spec (str_len held) n) as [Hlt|Hge].
  - rewrite read_bind_inr. setoid_rewrite unexpected_inr.
    set (m := Z.min (n - str_len held) frameChunk). assert (0 < m) by (unfold m, frameChunk in *; lia).
    split.
    + intros (c & r1 & Hc & Hr). apply ReadFull_inr in Hc as (Hb & Hl & He); [|lia].
      apply IH in Hr as (t & -> & Ht); rewrite ?str_len_app, ?Hl in *; [|unfold m, frameChunk in *; lia..].
      exists (c ++ t). rewrite str_app_assoc. split; [done|].
      apply ReadFull_inr in Ht as (Hb1 & Hl1 & He1); [|lia].
      destruct r as [br er], r1 as [b1 e1], r' as [b' e']; simpl in *; subst.
      rewrite <- str_app_assoc. apply ReadFull_app. rewrite str_len_app. lia.
    + intros (t & -> & Ht). apply ReadFull_inr in Ht as (Hb & Hl & He); [|lia].
      exists (str_take (Z.to_nat m) t), (Stream (str_drop (Z.to_nat m) t ++ s_bytes r') (s_end r')).
      assert (Htl : str_len (str_take (Z.to_nat m) t) = m)
        by (unfold str_len in *; rewrite str_take_len; lia).
      destruct r as [br er], r' as [b' e']; simpl in *; subst. split.
      { rewrite <- (str_take_drop (Z.to_nat m) t) at 1. rewrite str_app_assoc. by apply ReadFull_app. }
      apply IH; rewrite ?str_len_app, ?Htl; [unfold m, frameChunk in *; lia..|].
      exists (str_drop (Z.to_nat m) t). rewrite str_app_assoc, str_take_drop. split; [done|].
      apply ReadFull_app. pose proof (f_equal str_len (str_take_drop (Z.to_nat m) t)) as Hs.
      rewrite str_len_app in Hs. lia.
  - assert (n = str_len held) as -> by lia. apply read_chunks_done.
Qed.

Lemma read_payload_inr n r s r' : 0 <= n → read_payload n r = (inr s, r') ↔ ReadFull n r = (inr s, r').
Proof.
  intros Hn. unfold read_payload.
  pose proof (Z.div_mod n frameChunk ltac:(done)) as Hd.
  pose proof (Z.mod_pos_bound n frameChunk ltac:(done)).
  pose proof (Z.div_pos n frameChunk Hn ltac:(done)).
  rewrite read_chunks_spec; change (str_len "") with 0; rewrite ?Z.sub_0_r.
  - split; [intros (t & -> & Ht); done | eauto].
  - rewrite Nat2Z.inj_succ, Z2Nat.id by done. lia.
  - done.
Qed.

(** ** Heads *)

(** The sixteen bytes the first byte of a frame may be, and what is read of
    the two of its head. *)
Lemma first_byte_written o f : known_op o = true →
  let h := bv (byte_of (if f : bool then N.lor o 128 else o)) in
  negb (N.land h 128 =? 0)%N = f ∧ N.land h 15 = o ∧ N.land h 112 = 0%N.
Proof.
  unfold known_op. intros H. apply existsb_exists in H as (x & Hx & ->%N.eqb_eq).
  simpl in Hx. destruct Hx as [<-|[<-|[<-|[<-|[<-|[<-|[]]]]]]]; by destruct f.
Qed.

Lemma first_byte_read c : N.land (bv c) 112 = 0%N →
  byte_of (if negb (N.land (bv c) 128 =? 0)%N then N.lor (N.land (bv c) 15) 128 else N.land (bv c) 15) = c.
Proof. destruct c as [[] [] [] [] [] [] [] []]; vm_compute; congruence. Qed.

Lemma second_byte_written (m : bool) n : (n < 128)%N →
  let h := bv (byte_of (N.lor (if m then 128 else 0) n)) in
  negb (N.land h 128 =? 0)%N = m ∧ N.land h 127 = n.
Proof.
  intros Hn. assert (Hall : forallb (λ k, forallb (λ m : bool,
    let h := bv (byte_of (N.lor (if m then 128 else 0) (N.of_nat k))) in
    eqb (negb (N.land h 128 =? 0)%N) m && (N.land h 127 =? N.of_nat k)%N) [true; false]) (seq 0 128) = true)
    by reflexivity.
  rewrite forallb_forall in Hall. specialize (Hall (N.to_nat n)). rewrite in_seq in Hall.
  specialize (Hall ltac:(lia)). rewrite N2Nat.id in Hall. rewrite forallb_forall in Hall.
  specialize (Hall m ltac:(destruct m; simpl; tauto)).
  apply andb_true_iff in Hall as [H1%eqb_prop H2%N.eqb_eq]. done.
Qed.

Lemma second_byte_read c :
  byte_of (N.lor (if negb (N.land (bv c) 128 =? 0)%N then 128 else 0) (N.land (bv c) 127)) = c
  ∧ (N.land (bv c) 127 < 128)%N.
Proof. destruct c as [[] [] [] [] [] [] [] []]; done. Qed.

Definition mask_bit (m : bool) : N := if m then 128%N else 0%N.

Lemma length_written (m : bool) n : (n < 2 ^ 63)%N → ∃ c ext,
  length_bytes (mask_bit m) n = String c ext ∧
  negb (N.land (bv c) 128 =? 0)%N = m ∧
  ∀ t e, read_length (N.land (bv c) 127) (Stream (ext ++ t) e) = (inr n, Stream t e).
Proof.
  intros Hn. unfold length_bytes, mask_bit.
  destruct (N.ltb_spec n 126) as [Hs|Hs]; [|destruct (N.leb_spec n 65535) as [Hm|Hm]].
  - destruct (second_byte_written m n ltac:(lia)) as [H1 H2]. eexists _, "". split; [done|]. split; [done|].
    intros t e. rewrite H2. unfold read_length.
    rewrite (proj2 (N.eqb_neq n 126)), (proj2 (N.eqb_neq n 127)) by lia. done.
  - destruct (second_byte_written m 126 ltac:(lia)) as [H1 H2]. eexists _, _. split; [done|]. split; [done|].
    intros t e. rewrite H2. unfold read_length. cbn [N.eqb Pos.eqb].
    unfold read_bind, unexpected. rewrite ReadFull_app by (unfold str_len; by rewrite be_bytes_length).
    rewrite be_of_be_bytes, N.mod_small by (change (256 ^ N.of_nat 2)%N with 65536%N; lia).
    unfold refuse_if. by rewrite (proj2 (N.ltb_ge n 126)) by lia.
  - destruct (second_byte_written m 127 ltac:(lia)) as [H1 H2]. eexists _, _. split; [done|]. split; [done|].
    intros t e. rewrite H2. unfold read_length. cbn [N.eqb Pos.eqb].
    unfold read_bind, unexpected. rewrite ReadFull_app by (unfold str_len; by rewrite be_bytes_length).
    rewrite be_of_be_bytes, N.mod_small by (change (256 ^ N.of_nat 8)%N with (2 ^ 64)%N; lia).
    unfold refuse_if. rewrite N.shiftr_div_pow2, N.div_small by lia. cbn [N.eqb negb].
    unfold read_ret at 1. by rewrite (proj2 (N.leb_gt n 65535)) by lia.
Qed.

Lemma length_read c r n r' : read_length (N.land (bv c) 127) r = (inr n, r') → ∃ ext,
  s_bytes r = ext ++ s_bytes r' ∧ s_end r = s_end r' ∧ (n < 2 ^ 63)%N ∧
  length_bytes (mask_bit (negb (N.land (bv c) 128 =? 0)%N)) n = String c ext.
Proof.
  destruct (second_byte_read c) as [Hc Hlt]. unfold read_length, length_bytes, mask_bit.
  destruct (N.eqb_spec (N.land (bv c) 127) 126) as [E|N6]; [|destruct (N.eqb_spec (N.land (bv c) 127) 127) as [E|N7]].
  - rewrite read_bind_inr. intros (b & r1 & H & H2). apply unexpected_inr, ReadFull_inr in H as (Hb & Hl & He); [|lia].
    apply read_bind_inr in H2 as (u & r2 & [Hge ->]%refuse_if_inr & [-> ->]%read_ret_inr).
    apply N.ltb_ge in Hge. exists b.
    assert (String.length b = 2%nat) as Hlb by (unfold str_len in Hl; lia).
    pose proof (be_of_bound b) as Hbd. rewrite Hlb in Hbd. change (256 ^ N.of_nat 2)%N with 65536%N in Hbd.
    rewrite (proj2 (N.ltb_ge _ _)) by lia. rewrite (proj2 (N.leb_le _ _)) by lia.
    repeat split; [done|done|lia|]. rewrite <- Hlb, be_bytes_be_of. f_equal. by rewrite <- E.
  - rewrite read_bind_inr. intros (b & r1 & H & H2). apply unexpected_inr, ReadFull_inr in H as (Hb & Hl & He); [|lia].
    apply read_bind_inr in H2 as (u & r2 & [Hge ->]%refuse_if_inr & H2).
    apply read_bind_inr in H2 as (u2 & r3 & [Hge2 ->]%refuse_if_inr & [-> ->]%read_ret_inr).
    apply negb_false_iff, N.eqb_eq in Hge. apply N.leb_gt in Hge2. exists b.
    assert (String.length b = 8%nat) as Hlb by (unfold str_len in Hl; lia).
    rewrite N.shiftr_div_pow2 in Hge. apply N.div_small_iff in Hge; [|done].
    rewrite (proj2 (N.ltb_ge _ _)) by lia. rewrite (proj2 (N.leb_gt _ _)) by lia.
    repeat split; [done..|]. rewrite <- Hlb, be_bytes_be_of. f_equal. by rewrite <- E.
  - intros [-> ->]%read_ret_inr. exists "". repeat split; [lia|].
    rewrite (proj2 (N.ltb_lt _ _)) by lia. by rewrite Hc.
Qed.

Lemma xor_byte_twice a b : xor_byte (xor_byte a b) b = a.
Proof.
  destruct a as [a0 a1 a2 a3 a4 a5 a6 a7], b as [b0 b1 b2 b3 b4 b5 b6 b7]. cbn [xor_byte].
  rewrite !xorb_assoc, !xorb_nilpotent, !xorb_false_r. done.
Qed.

Lemma mask_twice k p : ∀ i, mask_from k i (mask_from k i p) = p.
Proof. induction p as [|c p IH]; intros i; [done|]. cbn [mask_from]. by rewrite xor_byte_twice, IH. Qed.

Lemma mask_length k p : ∀ i, String.length (mask_from k i p) = String.length p.
Proof. induction p as [|c p IH]; intros i; [done|]. cbn [mask_from String.length]. by rewrite IH. Qed.

Lemma check_head_inr f_fin o n maxFrame room r u r' :
  check_head f_fin o n maxFrame room r = (inr u, r') ↔
  r' = r ∧ ((opClose <= o)%N → f_fin = true ∧ n <= maxControl) ∧ n <= maxFrame ∧
  ((o < opClose)%N → 0 <= room → n <= room).
Proof.
  unfold check_head. repeat setoid_rewrite read_bind_inr. setoid_rewrite refuse_if_inr.
  rewrite ?andb_false_iff. split.
  - intros (? & ? & [H1 ->] & ? & ? & [H2 ->] & ? & ? & [H3 ->] & [H4 ->]).
    rewrite ?andb_false_iff, ?negb_false_iff, ?N.leb_gt, ?Z.ltb_ge, ?N.ltb_ge, ?Z.leb_gt in *.
    split; [done|]. split; [|split; [done|]].
    + intros Ho. destruct H1 as [?|?]; [lia|]. destruct H2; [lia|done].
    + intros Ho Hr. destruct H4 as [[?|?]|?]; lia.
  - intros (-> & H1 & H2 & H3). exists tt, r.
    repeat setoid_rewrite andb_false_iff. repeat setoid_rewrite negb_false_iff.
    setoid_rewrite N.leb_gt. setoid_rewrite Z.ltb_ge. setoid_rewrite N.ltb_ge. setoid_rewrite Z.leb_gt.
    destruct (N.le_gt_cases opClose o) as [Ho|Ho].
    + destruct (H1 Ho). split; [by auto|]. exists tt, r. split; [auto|]. exists tt, r. auto.
    + split; [auto|]. exists tt, r. split; [auto|]. exists tt, r. split; [done|]. split; [|done].
      destruct (Z.lt_ge_cases room 0); [auto|]. right. auto.
Qed.

(** ** The theorem *)

Lemma written_head f key rest : written f key ++ rest =
  String (byte_of (if fin f then N.lor (op f) 128 else op f))
    (length_bytes (mask_bit (match key with Some _ => true | None => false end))
       (N.of_nat (String.length (payload f))) ++
     (match key with None => payload f | Some k => k ++ mask_from k 0 (payload f) end) ++ rest).
Proof.
  unfold written, appendFrame. cbn [String.append]. rewrite str_app_assoc. by destruct key.
Qed.

Lemma head_bytes a b : default zero (str_at (String a (String b "")) 0) = a ∧
  default zero (str_at (String a (String b "")) 1) = b.
Proof. done. Qed.

Lemma frame_written masked maxFrame room f key rest e :
  key_fits masked key → frame_allowed maxFrame room f →
  readFrame masked maxFrame room (Stream (written f key ++ rest) e) = (inr f, Stream rest e).
Proof.
  intros Hk (Hop & Hctl & Hmax & Hroom & Hlen). rewrite written_head.
  set (n := N.of_nat (String.length (payload f))).
  assert (Z.of_N n = str_len (payload f)) as Hn by (unfold n, str_len; lia).
  assert (match key with Some _ => true | None => false end = masked) as ->
    by (destruct key as [k|]; simpl in Hk; [by destruct Hk as [-> _] | done]).
  destruct (length_written masked n ltac:(lia)) as (c & ext & -> & Hm & Hr).
  destruct (first_byte_written (op f) (fin f) Hop) as (H1 & H2 & H3).
  unfold readFrame. apply read_bind_inr. eexists _, _. split.
  { rewrite str_app_cons. eapply (ReadFull_app (String _ (String c "")) _ _ 2). done. }
  cbv zeta. rewrite (proj1 (head_bytes _ _)), (proj2 (head_bytes _ _)), H1, H2, H3, Hm, Hop, eqb_reflx. cbn [negb N.eqb].
  apply read_bind_inr. exists tt, (Stream (ext ++ (match key with None => payload f | Some k => k ++ mask_from k 0 (payload f) end) ++ rest) e).
  split; [done|]. apply read_bind_inr. eexists tt, _. split; [done|].
  apply read_bind_inr. eexists tt, _. split; [done|].
  apply read_bind_inr. eexists n, _. split; [apply Hr|].
  apply read_bind_inr. eexists tt, _. split; [apply check_head_inr; rewrite Hn; done|].
  apply read_bind_inr. destruct key as [k|]; simpl in Hk.
  - destruct Hk as [-> Hk]. eexists k, _. split.
    { apply unexpected_inr. rewrite str_app_assoc. apply ReadFull_app. unfold str_len. by rewrite Hk. }
    apply read_bind_inr. eexists (mask_from k 0 (payload f)), _. split.
    { apply read_payload_inr; [lia|]. apply ReadFull_app. unfold str_len. by rewrite mask_length. }
    rewrite mask_twice. by destruct f.
  - subst masked. eexists "", _. split; [done|]. apply read_bind_inr. eexists _, _. split.
    { apply read_payload_inr; [lia|]. by apply ReadFull_app. }
    by destruct f.
Qed.

Lemma two_bytes_at h : str_len h = 2 →
  h = String (default zero (str_at h 0)) (String (default zero (str_at h 1)) "").
Proof. destruct h as [|a [|b [|c h]]]; unfold str_len; simpl; intros; [lia..|done|lia]. Qed.

Lemma frame_read masked maxFrame room r f r' :
  readFrame masked maxFrame room r = (inr f, r') →
  frame_allowed maxFrame room f ∧ s_end r = s_end r' ∧
  ∃ key, key_fits masked key ∧ s_bytes r = written f key ++ s_bytes r'.
Proof.
  unfold readFrame. intros (h & r1 & Hh & H)%read_bind_inr.
  apply ReadFull_inr in Hh as (Hb & Hl & He); [|lia]. apply two_bytes_at in Hl.
  revert Hl H. generalize (default zero (str_at h 0)) (default zero (str_at h 1)). intros a c Hl H.
  apply read_bind_inr in H as (? & ? & [Hres ->]%refuse_if_inr & H).
  apply read_bind_inr in H as (? & ? & [Hop ->]%refuse_if_inr & H).
  apply read_bind_inr in H as (? & ? & [Hmask ->]%refuse_if_inr & H).
  apply read_bind_inr in H as (n & r2 & Hlen & H).
  apply read_bind_inr in H as (? & ? & (-> & Hctl & Hmax & Hroom)%check_head_inr & H).
  apply read_bind_inr in H as (mask & r3 & Hkey & H).
  apply read_bind_inr in H as (p & r4 & Hp & [-> ->]%read_ret_inr).
  apply negb_false_iff in Hres, Hop, Hmask. apply N.eqb_eq in Hres. apply eqb_prop in Hmask.
  apply length_read in Hlen as (ext & Hb2 & He2 & Hn & Hlb).
  apply read_payload_inr, ReadFull_inr in Hp as (Hb4 & Hl4 & He4); [|lia..].
  set (f := Frame _ _ _). assert (str_len (payload f) = Z.of_N n) as Hpl.
  { unfold f, str_len in *. cbn [payload]. destruct masked; rewrite ?mask_length; done. }
  assert (N.of_nat (String.length (payload f)) = n) as Hpn by (unfold str_len in Hpl; lia).
  split. { unfold frame_allowed. rewrite Hpl. cbn [op fin f] in *. split_and!; [done..| |lia].
    intros Ho. by apply Hroom. }
  assert (Hkeyspec : s_end r2 = s_end r3 ∧ s_bytes r2 = mask ++ s_bytes r3 ∧
    if masked then String.length mask = 4%nat else mask = "").
  { destruct masked.
    - apply unexpected_inr, ReadFull_inr in Hkey as (? & ? & ?); [|lia]. unfold str_len in *. repeat split; [done..|lia].
    - apply read_ret_inr in Hkey as [-> ->]. done. }
  destruct Hkeyspec as (He3 & Hb3 & Hk). split; [congruence|].
  exists (if masked then Some mask else None). split; [by destruct masked|].
  rewrite written_head, Hb, Hl, Hb2, Hb3, Hb4, Hpn. cbn [op fin f payload].
  rewrite (first_byte_read a Hres). rewrite !str_app_cons. cbn [String.append]. f_equal.
  replace (match (if masked then Some mask else None) with Some _ => true | None => false end)
    with (negb (N.land (bv c) 128 =? 0)%N) by (rewrite Hmask; by destruct masked).
  rewrite Hlb, str_app_cons. f_equal. destruct masked.
  - by rewrite mask_twice, !str_app_assoc.
  - by rewrite Hk.
Qed.

(** Reading one frame and writing one are inverse, whatever arrives: the reader
    takes a frame exactly when the bytes start with that frame as
    [appendFrame] writes it, masked for this direction, of a length encoded in
    the fewest bytes, and within what the protocol and the limits allow; it
    takes no byte past it. *)
Theorem readFrame_exact masked maxFrame room r f r' :
  readFrame masked maxFrame room r = (inr f, r') ↔
  frame_allowed maxFrame room f ∧ s_end r = s_end r' ∧
  ∃ key, key_fits masked key ∧ s_bytes r = written f key ++ s_bytes r'.
Proof.
  split; [apply frame_read|]. intros (Ha & He & key & Hk & Hb).
  destruct r as [b e], r' as [b' e']. cbn [s_bytes s_end] in *. subst. by apply frame_written.
Qed.
