(* ===== verification/WsConn.v ===== *)
(** A WebSocket connection (src/wsconn/wsconn.go [Conn]): reading messages,
    writing them, the close handshake. The network is a parameter: what each
    write of a frame came to, and the masking keys drawn. Every operation is a
    function of the connection; each holds the write lock over one frame, so a
    run of several goroutines is a sequence of these operations and of turns of
    the reader's loop. *)

From Stdlib Require Import ZArith NArith Ascii String Lia Bool.
From stdpp Require Import base tactics list strings.
From S2P Require Import Prelude.
From S2P Require Import GoStd.
From S2P Require Import GoPath.
From S2P Require Import GoBinary.
From S2P Require Import GoJson.
From S2P Require Import WsFrame.

#[local] Open Scope string_scope.
#[local] Open Scope Z_scope.
#[local] Open Scope go_scope.

Inductive MessageType : Type := Text | Binary.

Definition type_op (t : MessageType) : N := match t with Text => opText | Binary => opBinary end.

(** [Limits]; [WriteTimeout] is a deadline on the network's writes. *)
Record Limits : Type := MkLimits { MaxFrame : Z; MaxMessage : Z }.

Definition DefaultMaxFrame : Z := 1048576.
Definition DefaultMaxMessage : Z := 1048576.

Definition orDefault (l : Limits) : Limits :=
  MkLimits (if MaxFrame l <=? 0 then DefaultMaxFrame else MaxFrame l)
           (if MaxMessage l <=? 0 then DefaultMaxMessage else MaxMessage l).

(** What a write to the network came to: all of it went, or this many bytes before
    it failed; a timeout means the peer stopped reading. *)
Inductive write_outcome : Type := Written | WriteFailed (sent : nat) (e : io_error) (timeout : bool).

Record Network : Type := MkNetwork {
  n_write : nat → write_outcome;        (* of the k-th frame handed over *)
  n_rand : nat → option string          (* the k-th masking key, four bytes *)
}.

(** The connection: what will still arrive, the frames handed to the network in
    order with the bytes of each that went, and the fields of [Conn]. *)
Record Conn : Type := MkConn {
  c_in : stream;
  c_out : list (frame * string);
  c_draws : nat;
  client : bool;
  limits : Limits;
  sentClose : bool;
  closed : bool;
  gotClose : bool;
  peerClose : option (Z * string)
}.

Definition newConn (r : stream) (client : bool) (l : Limits) : Conn :=
  MkConn r [] 0 client (orDefault l) false false false None.

Definition with_in (r : stream) (c : Conn) : Conn :=
  MkConn r (c_out c) (c_draws c) (client c) (limits c) (sentClose c) (closed c) (gotClose c) (peerClose c).
Definition with_out (o : list (frame * string)) (c : Conn) : Conn :=
  MkConn (c_in c) o (c_draws c) (client c) (limits c) (sentClose c) (closed c) (gotClose c) (peerClose c).
Definition with_draws (n : nat) (c : Conn) : Conn :=
  MkConn (c_in c) (c_out c) n (client c) (limits c) (sentClose c) (closed c) (gotClose c) (peerClose c).
Definition with_sentClose (b : bool) (c : Conn) : Conn :=
  MkConn (c_in c) (c_out c) (c_draws c) (client c) (limits c) b (closed c) (gotClose c) (peerClose c).
Definition with_closed (b : bool) (c : Conn) : Conn :=
  MkConn (c_in c) (c_out c) (c_draws c) (client c) (limits c) (sentClose c) b (gotClose c) (peerClose c).
Definition with_gotClose (b : bool) (c : Conn) : Conn :=
  MkConn (c_in c) (c_out c) (c_draws c) (client c) (limits c) (sentClose c) (closed c) b (peerClose c).
Definition with_peerClose (p : Z * string) (c : Conn) : Conn :=
  MkConn (c_in c) (c_out c) (c_draws c) (client c) (limits c) (sentClose c) (closed c) (gotClose c) (Some p).

(** [finish]: the underlying connection closed, once. *)
Definition finish (c : Conn) : Conn := with_closed true c.

(** [ended]: what a read returns once the connection is closed. *)
Definition ended (c : Conn) : ws_error :=
  match peerClose c with Some (code, reason) => CloseError code reason false | None => ErrClosed end.

Section conn.
Context (net : Network).

(** [writeLocked]: one frame, masked by a client with a fresh key. *)
Definition writeLocked (o : N) (p : string) (c : Conn) : option ws_error * Conn :=
  let send (key : option string) (c : Conn) :=
    let buf := appendFrame "" true o p key in
    let went b := with_out (c_out c ++ [(Frame true o p, b)]) c in
    match n_write net (length (c_out c)) with
    | Written => (None, went buf)
    | WriteFailed sent e timeout => let c := went (str_take sent buf) in (Some (IOError e), if timeout then finish c else c)
    end in
  if client c then
    match n_rand net (c_draws c) with
    | None => (Some (IOError (BrokenIO "rand")), with_draws (S (c_draws c)) c)
    | Some key => send (Some key) (with_draws (S (c_draws c)) c)
    end
  else send None c.

(** [write]. *)
Definition conn_write (o : N) (p : string) (c : Conn) : option ws_error * Conn :=
  if sentClose c || closed c then (Some ErrClosed, c) else writeLocked o p c.

(** [WriteMessage]. *)
Definition WriteMessage (t : MessageType) (p : string) (c : Conn) : option ws_error * Conn :=
  match t with
  | Text => if negb (utf8_Valid p) then (Some (BadMessage "websocket: a text message must be UTF-8"), c)
            else conn_write (type_op t) p c
  | Binary => conn_write (type_op t) p c
  end.

(** [Ping]. *)
Definition Ping (c : Conn) : option ws_error * Conn := conn_write opPing "" c.

(** [sendClose]: a close frame, once. *)
Definition sendClose (code : Z) (reason : string) (c : Conn) : option ws_error * Conn :=
  if sentClose c || closed c then (None, c)
  else
    let c := with_sentClose true c in
    let reason := if (maxControl - 2 <? str_len reason) then trimUTF8 reason (Z.to_nat (maxControl - 2)) else reason in
    writeLocked opClose (be_bytes 2 (Z.to_N code) ++ reason) c.

(** [fail]: the connection closed for an error, and what the read returns. *)
Definition fail_conn (e : ws_error) (c : Conn) : ws_error * Conn :=
  match e with
  | protocolError code msg => (CloseError code msg true, finish (snd (sendClose code msg c)))
  | _ =>
      if closed c then (ended c, c)
      else (match e with IOError EOF => IOError UnexpectedEOF | e => e end, finish c)
  end.

(** ** Reading messages *)

(** The message begun: its type and the bytes so far. *)
Definition message : Type := option (MessageType * string).

Definition held (m : message) : string := match m with Some (_, b) => b | None => "" end.

(** What a turn of the loop leaves: another turn with this much of the message,
    the message, or the error returned. *)
Inductive turn : Type :=
| Again (m : message)
| Got (t : MessageType) (p : string)
| Stop (e : ws_error).

(** A failed turn. *)
Definition failing (e : ws_error) (c : Conn) : turn * Conn :=
  let '(e, c) := fail_conn e c in (Stop e, c).

(** A data frame taken into the message. *)
Definition take_data (t : MessageType) (m : string) (f : frame) (c : Conn) : turn * Conn :=
  if MaxMessage (limits c) <? str_len m + str_len (payload f) then
    failing (protocolError CloseTooBig ("a message is larger than " ++ Itoa (MaxMessage (limits c)) ++ " bytes")) c
  else
    let m := m ++ payload f in
    if negb (fin f) then (Again (Some (t, m)), c)
    else match t with
         | Text => if negb (utf8_Valid m) then failing (protocolError CloseInvalidData "a text message is not UTF-8") c
                   else (Got t m, c)
         | Binary => (Got t m, c)
         end.

(** A close frame: its code echoed, the connection closed. *)
Definition take_close (f : frame) (c : Conn) : turn * Conn :=
  match checkClose (payload f) with
  | inl e => failing e c
  | inr (code, reason) =>
      let c := with_peerClose (code, reason) (with_gotClose true c) in
      let echo := if code =? CloseNoStatus then CloseNormal else code in
      (Stop (CloseError code reason false), finish (snd (sendClose echo "" c)))
  end.

(** The frame of a turn. *)
Definition take_frame (m : message) (f : frame) (c : Conn) : turn * Conn :=
  if (op f =? opPing)%N then
    match conn_write opPong (payload f) c with
    | (Some ErrClosed, c) | (None, c) => (Again m, c)
    | (Some e, c) => failing e c
    end
  else if (op f =? opPong)%N then (Again m, c)
  else if (op f =? opClose)%N then take_close f c
  else if (op f =? opText)%N || (op f =? opBinary)%N then
    match m with
    | Some _ => failing (protocolError CloseProtocolError "a message began inside another") c
    | None => take_data (if (op f =? opText)%N then Text else Binary) "" f c
    end
  else
    match m with
    | None => failing (protocolError CloseProtocolError "a continuation frame began no message") c
    | Some (t, b) => take_data t b f c
    end.

(** One turn of [ReadMessage]'s loop. *)
Definition read_turn (m : message) (c : Conn) : turn * Conn :=
  match readFrame (negb (client c)) (MaxFrame (limits c)) (MaxMessage (limits c) - str_len (held m)) (c_in c) with
  | (inl e, r) => failing e (with_in r c)
  | (inr f, r) => take_frame m f (with_in r c)
  end.

(** The loop; [None] when [fuel] turns are not enough. *)
Fixpoint read_loop (fuel : nat) (m : message) (c : Conn)
    : option ((ws_error + (MessageType * string)) * Conn) :=
  match fuel with
  | O => None
  | S fuel =>
      match read_turn m c with
      | (Again m, c) => read_loop fuel m c
      | (Got t p, c) => Some (inr (t, p), c)
      | (Stop e, c) => Some (inl e, c)
      end
  end.

(** [ReadMessage]. Every turn takes a frame, of two bytes at least. *)
Definition ReadMessage (c : Conn) : option ((ws_error + (MessageType * string)) * Conn) :=
  if closed c then Some (inl (ended c), c)
  else read_loop (S (String.length (s_bytes (c_in c)))) None c.

(** ** Closing *)

(** [CloseWith]: up to where it leaves the wait for the peer's close to a
    goroutine; [reading] is whether a reader holds the connection. The result
    says whether that goroutine was started. *)
Definition CloseWith (code : Z) (reason : string) (reading : bool) (c : Conn) : option ws_error * bool * Conn :=
  if closed c then (None, false, c)
  else match sendClose code reason c with
       | (Some e, c) => (Some e, false, finish c)
       | (None, c) => if gotClose c then (None, false, finish c) else (None, negb reading, c)
       end.

(** The goroutine of [CloseWith]: frames are read and dropped up to the peer's
    close or an error; then the connection is closed. *)
Fixpoint close_wait (fuel : nat) (c : Conn) : option Conn :=
  match fuel with
  | O => None
  | S fuel =>
      match readFrame (negb (client c)) (MaxFrame (limits c)) (-1) (c_in c) with
      | (inl _, r) => Some (finish (with_in r c))
      | (inr f, r) =>
          let c := with_in r c in
          if (op f =? opClose)%N then
            Some (finish (match checkClose (payload f) with
                          | inr p => with_peerClose p (with_gotClose true c)
                          | inl _ => c
                          end))
          else close_wait fuel c
      end
  end.

(** [Close] and [Abort]. *)
Definition Close (reading : bool) (c : Conn) : option ws_error * bool * Conn := CloseWith CloseNormal "" reading c.
Definition Abort_conn (c : Conn) : Conn := finish c.
End conn.

(** [IsClose]: a close of the connection, with one of the codes. *)
Definition IsClose (e : ws_error) (codes : list Z) : bool :=
  match e with
  | CloseError code _ _ =>
      existsb (Z.eqb code) (match codes with [] => [CloseNormal; CloseGoingAway; CloseNoStatus] | l => l end)
  | _ => false
  end.

(** A network that takes every frame. *)
Definition good_network : Network := MkNetwork (λ _, Written) (λ _, Some "KEY!").

Definition wire (c : Conn) : string := String.concat "" (map snd (c_out c)).

Example echo :
  let c := newConn (Stream "" EOF) true (MkLimits 0 0) in
  let c := snd (WriteMessage good_network Text "hi" (snd (Ping good_network c))) in
  let s := newConn (Stream (wire c) EOF) false (MkLimits 0 0) in
  option_map fst (ReadMessage good_network s) = Some (inr (Text, "hi")) ∧
  option_map (λ x, map fst (c_out (snd x))) (ReadMessage good_network s) = Some [Frame true opPong ""].
Proof. split; vm_compute; reflexivity. Qed.

(** * Theorems

    What a WebSocket connection guarantees: reading a message always ends and
    gives what the frames hold, whatever the goroutines do the frames sent are
    whole and none follows the close, and what one side writes the other reads. *)

#[local] Close Scope string_scope.
#[local] Close Scope Z_scope.
#[local] Close Scope go_scope.
#[local] Open Scope string_scope.
#[local] Open Scope Z_scope.

#[local] Arguments String.append : simpl nomatch.

(** ** What writing leaves alone *)

(** Two states of a connection between which only frames were written. *)
Definition same_side (c c' : Conn) : Prop :=
  c_in c' = c_in c ∧ client c' = client c ∧ limits c' = limits c.

#[local] Instance same_side_refl : Reflexive same_side.
Proof. by split. Qed.
#[local] Instance same_side_trans : Transitive same_side.
Proof. intros a b c (H1 & H2 & H3) (H4 & H5 & H6). split_and!; congruence. Qed.

Section writes.
Context (net : Network).

Lemma writeLocked_side o p c : same_side c (snd (writeLocked net o p c)).
Proof.
  unfold writeLocked. destruct (client c) eqn:E; [destruct (n_rand net (c_draws c))|];
    cbn; repeat case_match; cbn; split_and!; done.
Qed.

Lemma conn_write_side o p c : same_side c (snd (conn_write net o p c)).
Proof. unfold conn_write. case_match; [done | apply writeLocked_side]. Qed.

Lemma sendClose_side code reason c : same_side c (snd (sendClose net code reason c)).
Proof.
  unfold sendClose. case_match; [done|].
  etransitivity; [|apply writeLocked_side]. done.
Qed.

Lemma fail_conn_side e c : same_side c (snd (fail_conn net e c)).
Proof.
  destruct e; cbn [fail_conn]; try (destruct (closed c); done).
  destruct (sendClose_side code msg c) as (H1 & H2 & H3). done.
Qed.

Lemma failing_side e c : same_side c (snd (failing net e c)).
Proof. unfold failing. pose proof (fail_conn_side e c). by destruct (fail_conn net e c). Qed.

Lemma take_data_side t m f c : same_side c (snd (take_data net t m f c)).
Proof. unfold take_data. repeat case_match; try done; apply failing_side. Qed.

Lemma take_close_side f c : same_side c (snd (take_close net f c)).
Proof.
  unfold take_close. destruct (checkClose (payload f)) as [e|[code reason]]; [apply failing_side|]. cbv zeta.
  destruct (sendClose_side (if code =? CloseNoStatus then CloseNormal else code) ""
    (with_peerClose (code, reason) (with_gotClose true c))) as (H1 & H2 & H3). done.
Qed.

Lemma take_frame_side m f c : same_side c (snd (take_frame net m f c)).
Proof.
  unfold take_frame. destruct (op f =? opPing)%N.
  - pose proof (conn_write_side opPong (payload f) c) as Hs.
    destruct (conn_write net opPong (payload f) c) as [[[]|] d]; try done;
      (etransitivity; [exact Hs | apply failing_side]).
  - destruct (op f =? opPong)%N; [done|]. destruct (op f =? opClose)%N; [apply take_close_side|].
    destruct (_ || _), m as [[t b]|]; first [apply failing_side | apply take_data_side].
Qed.

(** ** Reading ends *)

Lemma written_length f key : (2 <= String.length (written f key))%nat.
Proof.
  unfold written, appendFrame, length_bytes. cbn [String.append String.length].
  rewrite str_length_app. repeat case_match; cbn [String.length]; lia.
Qed.

Lemma read_turn_again m c m' c' : read_turn net m c = (Again m', c') →
  ∃ f key, frame_allowed (MaxFrame (limits c)) (MaxMessage (limits c) - str_len (held m)) f ∧
    key_fits (negb (client c)) key ∧
    s_bytes (c_in c) = written f key ++ s_bytes (c_in c') ∧ client c' = client c ∧ limits c' = limits c ∧
    take_frame net m f (with_in (c_in c') c) = (Again m', c').
Proof.
  unfold read_turn. destruct (readFrame _ _ _ _) as [[e|f] r] eqn:E.
  - intros H. unfold failing in H. by destruct (fail_conn net e (with_in r c)).
  - intros H. apply readFrame_exact in E as (Ha & _ & key & Hk & Hb).
    pose proof (take_frame_side m f (with_in r c)) as (H1 & H2 & H3). rewrite H in H1, H2, H3. cbn in H1, H2, H3.
    exists f, key. rewrite H1. split_and!; done.
Qed.

Lemma read_loop_S fuel m c : read_loop net (S fuel) m c =
  match read_turn net m c with
  | (Again m, c) => read_loop net fuel m c
  | (Got t p, c) => Some (inr (t, p), c)
  | (Stop e, c) => Some (inl e, c)
  end.
Proof. done. Qed.

Lemma read_loop_total fuel : ∀ m c,
  (String.length (s_bytes (c_in c)) < fuel)%nat → is_Some (read_loop net fuel m c).
Proof.
  induction fuel as [|fuel IH]; intros m c Hf; [lia|]. cbn [read_loop].
  destruct (read_turn net m c) as [[m'|t p|e] c'] eqn:E; [|eauto..].
  apply read_turn_again in E as (f & key & _ & _ & Hb & _). apply IH.
  rewrite Hb, str_length_app in Hf. pose proof (written_length f key). lia.
Qed.

Lemma read_loop_more fuel fuel' : ∀ m c x,
  read_loop net fuel m c = Some x → (fuel <= fuel')%nat → read_loop net fuel' m c = Some x.
Proof.
  revert fuel'; induction fuel as [|fuel IH]; intros fuel' m c x H Hle; [done|].
  destruct fuel' as [|fuel']; [lia|]. cbn [read_loop] in *.
  destruct (read_turn net m c) as [[m'|t p|e] c']; [apply IH; [done|lia] | done..].
Qed.

Lemma read_loop_enough fuel fuel' m c :
  (String.length (s_bytes (c_in c)) < fuel)%nat → (String.length (s_bytes (c_in c)) < fuel')%nat →
  read_loop net fuel m c = read_loop net fuel' m c.
Proof.
  intros H1 H2. destruct (read_loop_total fuel m c H1) as [x Hx], (read_loop_total fuel' m c H2) as [y Hy].
  rewrite Hx, Hy. destruct (Nat.le_ge_cases fuel fuel') as [Hle|Hle].
  - by rewrite <- Hy, (read_loop_more _ _ _ _ _ Hx Hle).
  - by rewrite <- Hx, (read_loop_more _ _ _ _ _ Hy Hle).
Qed.
End writes.

(** ** What a message is made of *)

(** The frames [fs], control frames among them, carry on the message [m] begun
    to a message of type [t] and bytes [p]. *)
Inductive assembles : message → list frame → MessageType → string → Prop :=
| asm_control m f fs t p :
    op f = opPing ∨ op f = opPong → assembles m fs t p → assembles m (f :: fs) t p
| asm_begin f fs t p :
    op f = type_op t → fin f = false →
    assembles (Some (t, payload f)) fs t p → assembles None (f :: fs) t p
| asm_only f t : op f = type_op t → fin f = true → assembles None [f] t (payload f)
| asm_more f fs t b p :
    op f = opContinuation → fin f = false →
    assembles (Some (t, b ++ payload f)) fs t p → assembles (Some (t, b)) (f :: fs) t p
| asm_last f t b : op f = opContinuation → fin f = true → assembles (Some (t, b)) [f] t (b ++ payload f).

Lemma assembles_type m fs t p : assembles m fs t p → ∀ t0 b, m = Some (t0, b) → t = t0.
Proof. induction 1; intros t0 b0 Hm; [by eapply IHassembles | done | done | injection Hm as -> ->; by eapply IHassembles | congruence]. Qed.

Lemma known_op_data o : known_op o = true → o ≠ opPing → o ≠ opPong → o ≠ opClose →
  o ≠ opText → o ≠ opBinary → o = opContinuation.
Proof.
  unfold known_op. intros (x & Hx & ->%N.eqb_eq)%existsb_exists. simpl in Hx.
  by destruct Hx as [<-|[<-|[<-|[<-|[<-|[<-|[]]]]]]].
Qed.

(** The bytes of several frames, each with its key. *)
Definition frames_wire (fs : list (frame * option string)) : string :=
  String.concat "" (map (λ x, written (fst x) (snd x)) fs).

Lemma concat_cons s l : String.concat "" (s :: l) = s ++ String.concat "" l.
Proof. destruct l; simpl; [by rewrite str_app_nil_r | done]. Qed.

Lemma frames_wire_cons x fs : frames_wire (x :: fs) = written (fst x) (snd x) ++ frames_wire fs.
Proof. apply concat_cons. Qed.

(** What a message that was read satisfies. *)
Definition message_ok (l : Limits) (t : MessageType) (p : string) : Prop :=
  str_len p <= MaxMessage l ∧ (t = Text → utf8_Valid p = true).

Section reads.
Context (net : Network).

Lemma failing_stops e c : ∃ e' c', failing net e c = (Stop e', c').
Proof. unfold failing. destruct (fail_conn net e c). eauto. Qed.

Ltac failed H := match type of H with failing net ?e ?c = _ =>
  let He := fresh in destruct (failing_stops e c) as (? & ? & He); rewrite He in H; done end.

Lemma take_data_again t b f c m c' : take_data net t b f c = (Again m, c') →
  m = Some (t, b ++ payload f) ∧ fin f = false.
Proof.
  unfold take_data. destruct (_ <? _) eqn:E; [intros H; failed H|]. destruct (fin f) eqn:Ef; cbn [negb].
  - destruct t; [|done]. destruct (utf8_Valid _); cbn [negb]; [done|intros H; failed H].
  - by intros [= <- <-].
Qed.

Lemma take_data_got t b f c t' p c' : take_data net t b f c = (Got t' p, c') →
  t' = t ∧ p = b ++ payload f ∧ fin f = true ∧ message_ok (limits c) t p.
Proof.
  unfold take_data, message_ok. destruct (_ <? _) eqn:E; [intros H; failed H|].
  apply Z.ltb_ge in E. rewrite <- str_len_app in E. destruct (fin f) eqn:Ef; cbn [negb]; [|done].
  destruct t; [|by intros [= <- <- <-]].
  destruct (utf8_Valid _) eqn:Eu; cbn [negb]; [by intros [= <- <- <-] | intros H; failed H].
Qed.

(** A turn that goes on keeps what assembles. *)
Lemma take_frame_again m f c m' c' fs t p : known_op (op f) = true →
  take_frame net m f c = (Again m', c') → assembles m' fs t p → assembles m (f :: fs) t p.
Proof.
  intros Hop H Ha. unfold take_frame in H.
  destruct (N.eqb_spec (op f) opPing) as [Ep|Np].
  { destruct (conn_write _ _ _ _) as [[[]|] d]; try failed H; injection H as <- <-; apply asm_control; auto. }
  destruct (N.eqb_spec (op f) opPong) as [Eg|Ng]; [injection H as <- <-; apply asm_control; auto|].
  destruct (N.eqb_spec (op f) opClose) as [Ec|Nc].
  { unfold take_close in H. destruct (checkClose _) as [e|[code reason]]; [failed H | done]. }
  destruct ((op f =? opText)%N || (op f =? opBinary)%N) eqn:Ed.
  - destruct m as [[t0 b]|]; [failed H|]. apply take_data_again in H as [-> Hf].
    assert (t = (if (op f =? opText)%N then Text else Binary)) as ->
      by (by eapply assembles_type).
    apply asm_begin; [|done..]. apply orb_true_iff in Ed. destruct (N.eqb_spec (op f) opText); [done|].
    by destruct Ed as [|?%N.eqb_eq].
  - apply orb_false_iff in Ed as [E1%N.eqb_neq E2%N.eqb_neq]. destruct m as [[t0 b]|]; [|failed H].
    apply take_data_again in H as [-> Hf].
    assert (t = t0) as -> by (by eapply assembles_type). apply asm_more; [|done..].
    by apply known_op_data.
Qed.

Lemma take_frame_got m f c t p c' : known_op (op f) = true →
  take_frame net m f c = (Got t p, c') → assembles m [f] t p ∧ message_ok (limits c) t p.
Proof.
  intros Hop H. unfold take_frame in H.
  destruct (N.eqb_spec (op f) opPing) as [Ep|Np].
  { destruct (conn_write _ _ _ _) as [[[]|] d]; first [failed H | done]. }
  destruct (N.eqb_spec (op f) opPong) as [Eg|Ng]; [done|].
  destruct (N.eqb_spec (op f) opClose) as [Ec|Nc].
  { unfold take_close in H. destruct (checkClose _) as [e|[code reason]]; [failed H | done]. }
  destruct ((op f =? opText)%N || (op f =? opBinary)%N) eqn:Ed.
  - destruct m as [[t0 b]|]; [failed H|]. apply take_data_got in H as (-> & -> & Hf & Hok). split; [|done].
    apply asm_only; [|done]. apply orb_true_iff in Ed. destruct (N.eqb_spec (op f) opText); [done|].
    by destruct Ed as [|?%N.eqb_eq].
  - apply orb_false_iff in Ed as [E1%N.eqb_neq E2%N.eqb_neq]. destruct m as [[t0 b]|]; [|failed H].
    apply take_data_got in H as (-> & -> & Hf & Hok). split; [|done]. apply asm_last; [|done].
    by apply known_op_data.
Qed.

Lemma read_loop_spec fuel : ∀ m c t p c', read_loop net fuel m c = Some (inr (t, p), c') →
  ∃ fs, s_bytes (c_in c) = frames_wire fs ++ s_bytes (c_in c') ∧
    Forall (λ x, key_fits (negb (client c)) (snd x) ∧ str_len (payload (fst x)) <= MaxFrame (limits c)) fs ∧
    assembles m (map fst fs) t p ∧ message_ok (limits c) t p.
Proof.
  induction fuel as [|fuel IH]; intros m c t p c'; [done|]. cbn [read_loop].
  destruct (read_turn net m c) as [[m'|t' p'|e] c1] eqn:E; [| |done].
  - intros H. apply read_turn_again in E as (f & key & Ha & Hk & Hb & Hcl & Hl & Ht).
    apply IH in H as (fs & Hfs & Hall & Has & Hok). rewrite Hcl, Hl in *.
    exists ((f, key) :: fs). rewrite frames_wire_cons, str_app_assoc. split; [cbn [fst snd]; congruence|].
    destruct Ha as (Hop & _ & Hmax & _). split; [by constructor|]. split; [|done].
    cbn [map fst]. by eapply take_frame_again.
  - intros [= <- <- <-]. unfold read_turn in E. destruct (readFrame _ _ _ _) as [[e|f] r] eqn:Er; [failed E|].
    apply readFrame_exact in Er as ((Hop & _ & Hmax & _) & _ & key & Hk & Hb).
    pose proof (take_frame_side net m f (with_in r c)) as (H1 & _ & _). rewrite E in H1. cbn in H1.
    apply take_frame_got in E as [Has Hok]; [|done].
    exists [(f, key)]. rewrite frames_wire_cons. cbn [fst snd frames_wire map String.concat].
    rewrite str_app_nil_r, H1. split_and!; [done|by repeat constructor|done..].
Qed.
End reads.

(** [ReadMessage] always ends, and a message it returns is what the data frames
    at the front of the stream hold, joined in order, with nothing but pings
    and pongs between them: each frame whole, masked for this direction and
    within the frame limit, the message within the message limit, and UTF-8
    when it is text. *)
Theorem ReadMessage_spec net c : is_Some (ReadMessage net c) ∧
  ∀ t p c', ReadMessage net c = Some (inr (t, p), c') →
  ∃ fs, s_bytes (c_in c) = frames_wire fs ++ s_bytes (c_in c') ∧
    Forall (λ x, key_fits (negb (client c)) (snd x) ∧ str_len (payload (fst x)) <= MaxFrame (limits c)) fs ∧
    assembles None (map fst fs) t p ∧ message_ok (limits c) t p.
Proof.
  unfold ReadMessage. split.
  - destruct (closed c); [eauto|]. apply read_loop_total. lia.
  - intros t p c' H. destruct (closed c); [done|]. by eapply read_loop_spec.
Qed.

(** ** What is sent, however the goroutines interleave *)

(** The steps goroutines take on one connection, each under its lock: writing a
    message or a ping, a turn of a reader holding part of a message, starting a
    close, the goroutine that waits for the peer's, closing at once. *)
Inductive conn_step : Type :=
| DoWrite (t : MessageType) (p : string)
| DoPing
| DoTurn (m : message)
| DoClose (code : Z) (reason : string) (reading : bool)
| DoWait (fuel : nat)
| DoFinish.

Definition run_step (net : Network) (s : conn_step) (c : Conn) : Conn :=
  match s with
  | DoWrite t p => snd (WriteMessage net t p c)
  | DoPing => snd (Ping net c)
  | DoTurn m => snd (read_turn net m c)
  | DoClose code reason reading => snd (CloseWith net code reason reading c)
  | DoWait fuel => default c (close_wait fuel c)
  | DoFinish => finish c
  end.

Definition run_steps (net : Network) (ss : list conn_step) (c : Conn) : Conn :=
  foldl (λ c s, run_step net s c) c ss.

(** A close payload the protocol allows: a code that may be sent, and a reason in
    UTF-8. *)
Definition close_code (code : Z) : Prop := 1000 <= code <= 1003 ∨ 1007 <= code <= 1011 ∨ 3000 <= code <= 4999.
Definition legal_close (p : string) : Prop :=
  ∃ code reason, p = be_bytes 2 (Z.to_N code) ++ reason ∧ close_code code ∧ utf8_Valid reason = true.

(** A frame this side may send: unfragmented, a control frame short, text in UTF-8, a
    close one the protocol allows. *)
Definition sendable (f : frame) : Prop :=
  fin f = true ∧ (op f = opText ∨ op f = opBinary ∨ op f = opClose ∨ op f = opPing ∨ op f = opPong) ∧
  ((opClose <= op f)%N → str_len (payload f) <= maxControl) ∧
  (op f = opText → utf8_Valid (payload f) = true) ∧
  (op f = opClose → legal_close (payload f)).

(** Masking keys are four bytes, as [rand.Read] fills them. *)
Definition keys_of_four (net : Network) : Prop :=
  ∀ k key, n_rand net k = Some key → String.length key = 4%nat.

(** What of the [k]-th frame went: the whole of it as it is written for this
    direction, or when its write failed the front of it; after a timeout the
    connection is closed and no frame follows. *)
Definition went (net : Network) (c : Conn) (k : nat) (f : frame) (b : string) : Prop :=
  ∃ key, key_fits (client c) key ∧
    match n_write net k with
    | Written => b = written f key
    | WriteFailed sent _ timeout => b = str_take sent (written f key) ∧ (timeout = true → S k = length (c_out c) ∧ closed c = true)
    end.

(** What was handed to the network: sendable frames, whole unless the network cut
    them short, and none behind a close. *)
Definition sent_well (net : Network) (c : Conn) : Prop :=
  (∀ k f b, c_out c !! k = Some (f, b) → sendable f ∧ went net c k f b) ∧
  ∃ before after, c_out c = (before ++ after)%list ∧ Forall (λ x, op (fst x) ≠ opClose) before ∧
    (after = [] ∨ sentClose c = true ∧ ∃ x, after = [x] ∧ op (fst x) = opClose).

(** The closes asked for have a code and a reason that may be sent. *)
Definition closes_legally (s : conn_step) : Prop :=
  match s with DoClose code reason _ => close_code code ∧ utf8_Valid reason = true | _ => True end.

(** *** The errors this side closes for *)

Definition plain_text (s : string) : Prop := hasNonASCII s = false.
Definition fair_error (e : ws_error) : Prop :=
  match e with protocolError code msg => close_code code ∧ plain_text msg | _ => True end.
Definition fails_fair {A} (m : reader A) : Prop := ∀ r e r', m r = (inl e, r') → fair_error e.

Lemma plain_app a b : plain_text a → plain_text b → plain_text (a ++ b).
Proof. unfold plain_text, hasNonASCII, str_exists. rewrite !negb_false_iff, str_forall_app. by intros -> ->. Qed.
Lemma plain_valid s : plain_text s → utf8_Valid s = true.
Proof. intros H. unfold utf8_Valid. by rewrite invalid_ascii. Qed.

Lemma plain_digits fuel : ∀ n acc, plain_text acc → plain_text (digits_go fuel n acc).
Proof.
  assert (∀ d acc, (d < 10)%N → plain_text acc → plain_text (String (digit_byte d) acc)) as Hone.
  { intros d acc Hd Ha. unfold plain_text, hasNonASCII, str_exists in *. rewrite negb_false_iff in *. cbn [str_forall]. rewrite Ha, andb_true_r.
    rewrite digit_byte_bv by done. apply negb_true_iff, N.leb_gt. lia. }
  induction fuel as [|fuel IH]; intros n acc Ha; [done|]. cbn [digits_go].
  destruct (N.ltb_spec n 10); [by apply Hone|]. apply IH, Hone; [|done]. apply N.mod_lt. lia.
Qed.
Lemma plain_Itoa z : plain_text (Itoa z).
Proof. destruct z; [done|by apply plain_digits|]. apply (plain_app "-"); [done|by apply plain_digits]. Qed.
Lemma plain_hex o : plain_text (hex_op o).
Proof.
  apply plain_app; [done|]. destruct (String.get _ _) as [c|] eqn:E; [|done].
  revert E. generalize (N.to_nat o). intros n. do 16 (destruct n as [|n]; [by intros [= <-]|]). by destruct n.
Qed.

Lemma bind_fair {A B} (m : reader A) (k : A → reader B) : fails_fair m → (∀ a, fails_fair (k a)) → fails_fair (read_bind m k).
Proof. intros Hm Hk r e r'. unfold read_bind. destruct (m r) as [[e'|a] r1] eqn:E; [intros [= <- <-]; by eapply Hm|apply Hk]. Qed.
Lemma ret_fair {A} (a : A) : fails_fair (read_ret a).
Proof. done. Qed.
Lemma full_fair n : fails_fair (ReadFull n).
Proof. intros r e r'. unfold ReadFull. destruct (_ <=? _); intros [= <- <-]; done. Qed.
Lemma unexpected_fair {A} (m : reader A) : fails_fair m → fails_fair (unexpected m).
Proof.
  intros Hm r e r'. unfold unexpected. destruct (m r) as [[e1|a] r1] eqn:E; [|done]. destruct e1 as [[]| | | |]; intros [= <- <-]; first [done|by eapply Hm].
Qed.
Lemma refuse_fair b code msg : close_code code → plain_text msg → fails_fair (refuse_if b code msg).
Proof. intros Hc Hp r e r'. unfold refuse_if. destruct b; [intros [= <- <-]; by split|done]. Qed.

Ltac plain_msg := repeat match goal with
  | |- plain_text (Itoa _) => apply plain_Itoa
  | |- plain_text (hex_op _) => apply plain_hex
  | |- plain_text (if ?b then _ else _) => destruct b
  | |- plain_text (_ ++ _) => apply plain_app
  | |- plain_text (String ?c ?s) => apply (plain_app (String c "") s); [vm_compute; reflexivity|]
  | |- plain_text _ => vm_compute; reflexivity
  end.
Ltac fair := repeat first
  [ apply bind_fair; [|intros ?] | apply ret_fair | apply full_fair | apply unexpected_fair
  | apply refuse_fair; [unfold close_code, CloseProtocolError, CloseTooBig; lia|plain_msg]
  | match goal with |- fails_fair (if ?b then _ else _) => destruct b end ].

Lemma readFrame_fair masked maxFrame room : fails_fair (readFrame masked maxFrame room).
Proof.
  assert (∀ fuel n held, fails_fair (read_chunks fuel n held)) as Hchunks.
  { induction fuel as [|fuel IH]; intros n held; cbn [read_chunks]; fair. apply IH. }
  unfold readFrame, read_payload, check_head, read_length. fair; try apply Hchunks; by intros r e r'.
Qed.

Lemma checkClose_fair p e : checkClose p = inl e → fair_error e.
Proof.
  assert (close_code CloseProtocolError ∧ close_code CloseInvalidData) as [Hp Hi] by (unfold close_code, CloseProtocolError, CloseInvalidData; lia).
  unfold checkClose. destruct p as [|a [|b reason]]; [done|by intros [= <-]|]. destruct (negb (validCloseCode _)); [intros [= <-]; split; [done|plain_msg]|].
  destruct (negb (utf8_Valid reason)); [intros [= <-]; by split|done].
Qed.
Lemma validCloseCode_code code : validCloseCode code = true ↔ close_code code.
Proof. unfold validCloseCode, close_code. rewrite !orb_true_iff, !andb_true_iff, !Z.leb_le. lia. Qed.
Lemma checkClose_code p code reason : checkClose p = inr (code, reason) → code = CloseNoStatus ∨ close_code code.
Proof.
  unfold checkClose. destruct p as [|a [|b r]]; [intros [= <- <-]; by left|done|]. destruct (validCloseCode _) eqn:E; cbn [negb]; [|done].
  destruct (negb (utf8_Valid r)); [done|]. intros [= <- <-]. right. by apply validCloseCode_code.
Qed.

(** *** A reason cut short *)

Lemma start_cont c : RuneStart c = true → cont c = false.
Proof. destruct c as [[] [] [] [] [] [] [] []]; vm_compute; congruence. Qed.
Lemma trim_back_start n s : trim_back n s = O ∨ ∀ c, str_at s (trim_back n s) = Some c → RuneStart c = true.
Proof.
  induction n as [|n IH]; [by left|]. cbn [trim_back]. destruct (str_at s (S n)) as [c|] eqn:E; [|right; intros c; by rewrite E].
  destruct (RuneStart c) eqn:Er; [|done]. right. intros d. rewrite E. by intros [= <-].
Qed.
Lemma trimUTF8_valid s n : utf8_Valid s = true → utf8_Valid (trimUTF8 s n) = true.
Proof.
  unfold trimUTF8. intros Hv. destruct (Nat.ltb_spec (trim_back n s) (String.length s)) as [Hl|]; [|done].
  destruct (trim_back_start n s) as [->|Hst]; [by destruct s|]. unfold utf8_Valid in *. destruct (invalid_from 0 s) eqn:E; [done|].
  rewrite <- (str_take_drop (trim_back n s) s) in E. apply valid_cut in E as [-> _]; [done|]. intros c t Ht. apply start_cont, Hst. by apply (str_at_drop _ _ _ t).
Qed.

Section sent.
Context (net : Network) (Hkeys : keys_of_four net).
#[local] Abbreviation sent_well := (sent_well net).

Lemma writeLocked_sent o p c : sent_well c → sendable (Frame true o p) → closed c = false →
  (if (o =? opClose)%N then sentClose c = true else sentClose c = false) →
  Forall (λ x, op (fst x) ≠ opClose) (c_out c) →
  sent_well (snd (writeLocked net o p c)).
Proof.
  intros [Hall _] Hs Hcl Ho Hno. set (f := Frame true o p).
  assert (Hgo : ∀ d key b, c_out d = c_out c → client d = client c → sentClose d = sentClose c → key_fits (client c) key →
    (match n_write net (length (c_out c)) with
     | Written => b = written f key
     | WriteFailed sent _ timeout => b = str_take sent (written f key) ∧ (timeout = true → closed d = true)
     end) → sent_well (with_out (c_out d ++ [(f, b)]) d)).
  { intros d key b H1 H2 H3 Hk Hb. split.
    - cbn [with_out c_out client]. rewrite H1. intros k g x [Hx|[Hk' Hx]]%lookup_app_Some.
      + destruct (Hall k g x Hx) as (Hg & key' & Hkey & Hw). split; [done|]. exists key'. cbn [with_out client]. rewrite H2. split; [done|].
        destruct (n_write net k) as [|n e t]; [done|]. destruct Hw as [-> Ht]. split; [done|]. intros E. destruct (Ht E) as [_ Hc]. congruence.
      + apply list_lookup_singleton_Some in Hx as [Ek [= <- <-]]. assert (k = length (c_out c)) as -> by lia. split; [done|]. exists key.
        cbn [with_out client c_out closed]. rewrite H2. split; [done|]. destruct (n_write net _) as [|n e t]; [done|]. destruct Hb as [-> Ht].
        split; [done|]. intros E. split; [rewrite length_app; cbn; lia|by apply Ht].
    - cbn [with_out c_out sentClose]. rewrite H1, H3. destruct (N.eqb_spec o opClose) as [->|Hne].
      + exists (c_out c), [(f, b)]. split_and!; [done|done|]. right. split; [done|]. eexists. done.
      + eexists (c_out c ++ [_])%list, []. rewrite app_nil_r. split_and!; [done| |by left].
        apply Forall_app_2; [done|]. by repeat constructor. }
  assert (Hsend : ∀ key d, c_out d = c_out c → client d = client c → sentClose d = sentClose c → key_fits (client c) key →
    sent_well (snd (match n_write net (length (c_out c)) with
      | Written => (None : option ws_error, with_out (c_out d ++ [(f, appendFrame "" true o p key)]) d)
      | WriteFailed sent e timeout => let c := with_out (c_out d ++ [(f, str_take sent (appendFrame "" true o p key))]) d in
          (Some (IOError e), if timeout then finish c else c)
      end))).
  { intros key d H1 H2 H3 Hk. destruct (n_write net (length (c_out c))) as [|n e []] eqn:En; cbn [snd].
    - by apply (Hgo d key).
    - by apply (Hgo (finish d) key).
    - by apply (Hgo d key). }
  unfold writeLocked. destruct (client c) eqn:Ec.
  - destruct (n_rand net (c_draws c)) as [key|] eqn:Er.
    + apply (Hsend (Some key) (with_draws (S (c_draws c)) c)); [done|done|done|]. split; [done|exact (Hkeys _ _ Er)].
    + cbn [snd]. split; [|exists (c_out c), []; rewrite app_nil_r; eauto]. intros k g x Hx. destruct (Hall k g x Hx) as (Hg & key & Hkey & Hw).
      split; [done|]. by exists key.
  - by apply (Hsend None c).
Qed.

(** Before a close is sent no frame sent is one. *)
Lemma sent_open c : sent_well c → sentClose c = false → Forall (λ x, op (fst x) ≠ opClose) (c_out c).
Proof.
  intros (_ & before & after & -> & Hb & [->|(Hs & _)]) Ho; [by rewrite app_nil_r|congruence].
Qed.

Lemma conn_write_sent o p c : sent_well c → o ≠ opClose → sendable (Frame true o p) →
  sent_well (snd (conn_write net o p c)).
Proof.
  intros Hc Ho Hs. unfold conn_write. destruct (sentClose c) eqn:E; [done|]. destruct (closed c) eqn:Ecl; [done|].
  cbn [orb]. apply writeLocked_sent; [done..| |by apply sent_open].
  by rewrite (proj2 (N.eqb_neq _ _) Ho).
Qed.

Lemma trim_back_le n s : (trim_back n s <= n)%nat.
Proof. induction n as [|n IH]; cbn [trim_back]; [done|]. repeat case_match; lia. Qed.

Lemma trimUTF8_len s n : (n < String.length s)%nat → (String.length (trimUTF8 s n) <= n)%nat.
Proof.
  intros Hn. unfold trimUTF8. pose proof (trim_back_le n s).
  rewrite (proj2 (Nat.ltb_lt _ _)) by lia. rewrite str_take_len; lia.
Qed.

Lemma sent_well_ext c d : sent_well c → c_out d = c_out c → client d = client c →
  (sentClose c = true → sentClose d = true) → (closed c = true → closed d = true) → sent_well d.
Proof.
  intros (H1 & b & a & H2 & H3 & H4) Ho Hc Hs Hcl. split.
  - intros k f x. rewrite Ho. intros Hx. destruct (H1 k f x Hx) as (Hf & key & Hk & Hw). split; [done|]. exists key. rewrite Hc, Ho. split; [done|].
    destruct (n_write net k) as [|n e t]; [done|]. destruct Hw as [-> Ht]. split; [done|]. intros E. destruct (Ht E). auto.
  - exists b, a. rewrite Ho. split_and!; [done..|]. destruct H4 as [?|[? ?]]; auto.
Qed.

Lemma sendClose_sent code reason c : close_code code → utf8_Valid reason = true → sent_well c → sent_well (snd (sendClose net code reason c)).
Proof.
  intros Hcode Hr Hc. unfold sendClose. destruct (sentClose c) eqn:E; [done|]. destruct (closed c) eqn:Ecl; [done|]. cbn [orb].
  pose proof (sent_open c Hc E) as Hno. set (cut := if _ <? _ then _ else reason).
  assert (utf8_Valid cut = true ∧ str_len cut <= maxControl - 2) as [Hv Hl].
  { unfold cut. destruct (Z.ltb_spec (maxControl - 2) (str_len reason)) as [Hl|Hl]; [|done]. split; [by apply trimUTF8_valid|].
    pose proof (trimUTF8_len reason (Z.to_nat (maxControl - 2))) as Ht. unfold str_len, maxControl in *. lia. }
  apply writeLocked_sent; [by eapply sent_well_ext| |done|done|done].
  split_and!; [done|cbn [op]; tauto| |done|intros _; by exists code, cut]. intros _. cbn [payload]. rewrite str_len_app.
  change (str_len (be_bytes 2 (Z.to_N code))) with 2. lia.
Qed.

Lemma failing_sent e c : fair_error e → sent_well c → sent_well (snd (failing net e c)).
Proof.
  intros He Hc. unfold failing. destruct e; cbn [fail_conn]; try (destruct (closed c); cbn [snd]; eapply sent_well_ext; done).
  destruct He as [Hcode Hm%plain_valid]. eapply sent_well_ext; [by apply (sendClose_sent code msg)|done..].
Qed.

Lemma conn_write_fair o p c e : fst (conn_write net o p c) = Some e → fair_error e.
Proof.
  unfold conn_write, writeLocked. destruct (_ || _); [by intros [= <-]|].
  destruct (client c); [destruct (n_rand net _) as [key|]; [|by intros [= <-]]|]; destruct (n_write net _) as [|n e' []]; cbn; try done; by intros [= <-].
Qed.

Lemma take_frame_sent m f c : sent_well c → frame_allowed (MaxFrame (limits c)) (MaxMessage (limits c) - str_len (held m)) f →
  sent_well (snd (take_frame net m f c)).
Proof.
  assert (close_code CloseProtocolError ∧ close_code CloseInvalidData ∧ close_code CloseTooBig ∧ close_code CloseNormal) as (Hcp & Hci & Hct & Hcn).
  { unfold close_code, CloseProtocolError, CloseInvalidData, CloseTooBig, CloseNormal. lia. }
  assert (Hdata : ∀ t b f c, sent_well c → sent_well (snd (take_data net t b f c))).
  { intros t b g d Hd. unfold take_data. repeat case_match; try done; (apply failing_sent; [|done]); (split; [done|plain_msg]). }
  intros Hc (Hop & Hctl & _). unfold take_frame. destruct (N.eqb_spec (op f) opPing) as [Ep|Np].
  - pose proof (conn_write_sent opPong (payload f) c Hc ltac:(done)) as Hs. pose proof (conn_write_fair opPong (payload f) c) as Hf.
    destruct (conn_write net opPong (payload f) c) as [e d]. cbn [fst] in Hf.
    assert (Hd : sent_well d).
    { apply Hs. split_and!; [done|cbn; tauto| |done|done]. intros _. apply Hctl. rewrite Ep. done. }
    destruct e as [e|]; [|done]. specialize (Hf e eq_refl). destruct e; cbn [snd]; try done; by apply failing_sent.
  - destruct (op f =? opPong)%N; [done|]. destruct (op f =? opClose)%N.
    + unfold take_close. destruct (checkClose (payload f)) as [e|[code reason]] eqn:Ec; [apply failing_sent; [by eapply checkClose_fair|done]|].
      eapply sent_well_ext; [apply sendClose_sent|done..]; [|done|by eapply sent_well_ext].
      apply checkClose_code in Ec as [->|Hcode]; [done|]. destruct (code =? CloseNoStatus); done.
    + destruct (_ || _), m as [[t b]|]; try (by apply Hdata); (apply failing_sent; [by split|done]).
Qed.

Lemma close_wait_sent fuel : ∀ c c', sent_well c → close_wait fuel c = Some c' → sent_well c'.
Proof.
  induction fuel as [|fuel IH]; intros c c' Hc; [done|]. cbn [close_wait].
  destruct (readFrame _ _ _ _) as [[e|f] r].
  - intros [= <-]. by eapply sent_well_ext.
  - destruct (op f =? opClose)%N.
    + intros [= <-]. destruct (checkClose (payload f)) as [e|pc]; by eapply sent_well_ext.
    + apply IH. by eapply sent_well_ext.
Qed.

Lemma run_step_sent s c : closes_legally s → sent_well c → sent_well (run_step net s c).
Proof.
  intros Hs Hc. destruct s as [t p| |m|code reason reading|fuel|]; cbn [run_step].
  - destruct t; cbn [WriteMessage]; [destruct (utf8_Valid p) eqn:Eu; cbn [negb]; [|done]|];
      (apply conn_write_sent; [done..|]; split_and!; cbn; [done|tauto| |done|done]; by intros []).
  - apply conn_write_sent; [done..|]. split_and!; cbn; [done|tauto|done|done|done].
  - unfold read_turn. destruct (readFrame _ _ _ _) as [[e|f] r] eqn:E.
    + apply failing_sent; [by eapply readFrame_fair|]. by eapply sent_well_ext.
    + apply readFrame_exact in E as (Ha & _). apply take_frame_sent; [by eapply sent_well_ext|done].
  - destruct Hs as [Hcode Hr]. unfold CloseWith. destruct (closed c); [done|]. pose proof (sendClose_sent code reason c Hcode Hr Hc) as Hs.
    destruct (sendClose net code reason c) as [[e|] d]; cbn [snd] in *; [by eapply sent_well_ext|].
    destruct (gotClose d); cbn [snd]; [by eapply sent_well_ext | done].
  - destruct (close_wait fuel c) as [c'|] eqn:E; [by eapply close_wait_sent | done].
  - by eapply sent_well_ext.
Qed.

(** C33: Whatever goroutines do with a connection in whatever order, and whatever
    the peer sends and the network answers, as long as each close this side asks for
    has a code and a reason that may be sent: every frame handed to the network is one
    the protocol allows, masked exactly by a client, text in UTF-8, control frames
    short, a close with a code that may be sent and a reason in UTF-8; it goes whole
    unless its write fails, and after a write that timed out partway nothing follows;
    and nothing is sent behind the close frame, which is sent at most once. *)
Theorem nothing_after_close ss r is_client l : Forall closes_legally ss →
  sent_well (run_steps net ss (newConn r is_client l)).
Proof.
  assert (H0 : sent_well (newConn r is_client l)).
  { split; [by intros [|k]|]. exists [], []. auto. }
  revert H0. generalize (newConn r is_client l). unfold run_steps. induction ss as [|s ss IH]; intros c Hc Hss; [done|].
  apply Forall_cons in Hss as [Hs Hss]. cbn [foldl]. apply IH; [by apply run_step_sent|done].
Qed.
End sent.

(** ** A conversation *)

(** What one side sends, and the messages among it. *)
Inductive sending : Type := SendMessage (t : MessageType) (p : string) | SendPing.

Definition send (net : Network) (s : sending) (c : Conn) : Conn :=
  snd (match s with SendMessage t p => WriteMessage net t p c | SendPing => Ping net c end).
Definition send_all (net : Network) (ss : list sending) (c : Conn) : Conn := foldl (λ c s, send net s c) c ss.

Definition messages (ss : list sending) : list (MessageType * string) :=
  omap (λ s, match s with SendMessage t p => Some (t, p) | SendPing => None end) ss.

Lemma messages_cons s ss : messages (s :: ss) =
  match s with SendMessage t p => (t, p) :: messages ss | SendPing => messages ss end.
Proof. by destruct s. Qed.

Definition frame_of (s : sending) : frame :=
  match s with SendMessage t p => Frame true (type_op t) p | SendPing => Frame true opPing "" end.

(** Within the reader's limits, and UTF-8 when it is text. *)
Definition fits (l : Limits) (s : sending) : Prop :=
  match s with
  | SendMessage t p => str_len p <= MaxFrame l ∧ message_ok l t p ∧ str_len p < 2 ^ 63
  | SendPing => True
  end.

(** The next [n] messages. *)
Fixpoint read_messages (net : Network) (n : nat) (c : Conn) : option (list (MessageType * string)) :=
  match n with
  | O => Some []
  | S n =>
      match ReadMessage net c with
      | Some (inr m, c) => cons m <$> read_messages net n c
      | _ => None
      end
  end.

(** A network that takes every frame and draws keys. *)
Definition carries (net : Network) : Prop :=
  (∀ k, n_write net k = Written) ∧ (∀ k, ∃ key, n_rand net k = Some key ∧ String.length key = 4%nat).

Definition open_conn (c : Conn) : Prop := sentClose c = false ∧ closed c = false.

Section conversation.
Context (net : Network) (Hnet : carries net).

Lemma conn_write_carried o p c : open_conn c → ∃ key d,
  conn_write net o p c = (None, d) ∧ open_conn d ∧ same_side c d ∧ key_fits (client c) key ∧
  c_out d = (c_out c ++ [(Frame true o p, written (Frame true o p) key)])%list.
Proof.
  intros [H1 H2]. destruct Hnet as [Hw Hr]. unfold conn_write. rewrite H1, H2. cbn [orb].
  unfold writeLocked. destruct (client c) eqn:Ec.
  - destruct (Hr (c_draws c)) as (key & -> & Hl). rewrite Hw.
    exists (Some key). eexists. split; [done|]. split; [done|]. split; [by rewrite <- Ec|]. done.
  - rewrite Hw. exists None. eexists. done.
Qed.

Lemma send_carried l s c : open_conn c → fits l s → ∃ key,
  open_conn (send net s c) ∧ client (send net s c) = client c ∧ key_fits (client c) key ∧
  wire (send net s c) = wire c ++ written (frame_of s) key.
Proof.
  intros Hc Hf. assert (∃ key d, send net s c = d ∧ open_conn d ∧ same_side c d ∧ key_fits (client c) key ∧
    c_out d = (c_out c ++ [(frame_of s, written (frame_of s) key)])%list) as (key & d & -> & Ho & (_ & Hcl & _) & Hk & Hd).
  { unfold send. destruct s as [[] p|]; cbn [WriteMessage Ping frame_of type_op].
    - destruct Hf as (_ & (_ & Hu) & _). rewrite Hu by done. cbn [negb].
      destruct (conn_write_carried opText p c Hc) as (key & d & -> & H). eauto.
    - destruct (conn_write_carried opBinary p c Hc) as (key & d & -> & H). eauto.
    - destruct (conn_write_carried opPing "" c Hc) as (key & d & Hw & H). unfold Ping. rewrite Hw. eauto. }
  exists key. split_and!; [done..|]. unfold wire. rewrite Hd, map_app. cbn [map snd].
  generalize (map snd (c_out c)). intros ws. induction ws as [|w ws IH]; [done|].
  cbn [app]. by rewrite !concat_cons, IH, str_app_assoc.
Qed.

Lemma send_all_carried l ss : ∀ c, open_conn c → Forall (fits l) ss → ∃ fs,
  map fst fs = map frame_of ss ∧ Forall (λ x, key_fits (client c) (snd x)) fs ∧
  wire (send_all net ss c) = wire c ++ frames_wire fs.
Proof.
  induction ss as [|s ss IH]; intros c Hc Hf.
  - exists []. split_and!; [done|done|]. cbn. by rewrite str_app_nil_r.
  - apply Forall_cons in Hf as [Hs Hf]. destruct (send_carried l s c Hc Hs) as (key & Ho & Hcl & Hk & Hw).
    destruct (IH _ Ho Hf) as (fs & H1 & H2 & H3). exists ((frame_of s, key) :: fs).
    cbn [map fst]. rewrite H1. rewrite Hcl in H2. split_and!; [done|by constructor|].
    unfold send_all in *. cbn [foldl]. rewrite H3, Hw, frames_wire_cons, str_app_assoc. done.
Qed.

(** The turn that reads a frame sent. *)
Lemma read_sent s c key rest e : open_conn c → fits (limits c) s → 0 <= MaxFrame (limits c) →
  key_fits (negb (client c)) key → c_in c = Stream (written (frame_of s) key ++ rest) e →
  ∃ d, read_turn net None c = (match s with SendMessage t p => Got t p | SendPing => Again None end, d) ∧
    open_conn d ∧ c_in d = Stream rest e ∧ client d = client c ∧ limits d = limits c.
Proof.
  intros Hc Hf Hpos Hk Hin. unfold read_turn. cbn [held]. change (str_len "") with 0. rewrite Z.sub_0_r.
  assert (Ha : frame_allowed (MaxFrame (limits c)) (MaxMessage (limits c)) (frame_of s)).
  { destruct s as [t p|]; cbn [frame_of] in *.
    - destruct Hf as (H1 & (H2 & _) & H3). unfold frame_allowed. cbn [op payload fin].
      split_and!; [by destruct t | intros Ho; exfalso; by destruct t | done | done | done].
    - unfold frame_allowed. cbn [op payload fin]. unfold opPing, opClose, str_len, maxControl.
      cbn [String.length Z.of_nat]. split_and!; [done|done|lia|lia|lia]. }
  rewrite Hin, (frame_written _ _ _ _ key); [|done..].
  set (c' := with_in (Stream rest e) c). assert (open_conn c') as Hc' by done.
  destruct s as [t p|]; cbn [frame_of].
  - destruct Hf as (H1 & (H2 & Hu) & H3). exists c'. split; [|done].
    unfold take_frame. cbn [op]. destruct t; cbn [type_op N.eqb Pos.eqb orb opText opBinary opPing opPong opClose].
    + unfold take_data. cbn [limits c' with_in payload fin negb String.append]. change (str_len "") with 0.
      rewrite (proj2 (Z.ltb_ge _ _)) by lia. by rewrite Hu.
    + unfold take_data. cbn [limits c' with_in payload fin negb String.append]. change (str_len "") with 0.
      by rewrite (proj2 (Z.ltb_ge _ _)) by lia.
  - unfold take_frame. cbn [op payload N.eqb Pos.eqb opPing].
    destruct (conn_write_carried opPong "" c' Hc') as (k & d & -> & Ho & (Hi & Hcl & Hl) & _).
    exists d. split; [done|]. split; [done|]. split_and!; done.
Qed.

Lemma read_all_sent ss : ∀ fs c rest e, open_conn c → Forall (fits (limits c)) ss → 0 <= MaxFrame (limits c) →
  map fst fs = map frame_of ss → Forall (λ x, key_fits (negb (client c)) (snd x)) fs →
  c_in c = Stream (frames_wire fs ++ rest) e →
  read_messages net (length (messages ss)) c = Some (messages ss).
Proof.
  induction ss as [|s ss IH]; intros [|[f key] fs] c rest e Hc Hf Hpos Hm Hk Hin; try done.
  cbn [map fst] in Hm. injection Hm as -> Hm. apply Forall_cons in Hf as [Hs Hf]. apply Forall_cons in Hk as [Hk1 Hk].
  rewrite frames_wire_cons, str_app_assoc in Hin. cbn [fst snd] in *.
  destruct (read_sent s c key _ e Hc Hs Hpos Hk1 Hin) as (d & Ht & Ho & Hi & Hcl & Hl).
  rewrite <- Hl in Hf, Hpos. rewrite <- Hcl in Hk. specialize (IH fs d rest e Ho Hf Hpos Hm Hk Hi).
  assert (Hr : ReadMessage net c = match s with SendMessage t p => Some (inr (t, p), d) | SendPing => ReadMessage net d end).
  { unfold ReadMessage. rewrite (proj2 Hc), (proj2 Ho), read_loop_S, Ht.
    destruct s as [t p|]; [done|]. apply read_loop_enough; [|lia]. rewrite Hin, Hi. cbn [s_bytes].
    rewrite (str_length_app (written _ _)). pose proof (written_length (frame_of SendPing) key). lia. }
  rewrite messages_cons. destruct s as [t p|].
  - cbn [length read_messages]. by rewrite Hr, IH.
  - destruct (length (messages ss)) as [|n]; [done|]. cbn [read_messages] in *. by rewrite Hr.
Qed.
End conversation.

(** C32: Two connections over a network that carries what it is given: the messages
    one side writes, with pings between them and whatever comes behind, are the
    messages the other side reads, byte for byte and in order, as long as each is
    within the reader's limits. *)
Theorem messages_arrive net net' ss is_client l l' rest e :
  carries net → carries net' → Forall (fits (orDefault l')) ss →
  let sender := send_all net ss (newConn (Stream "" EOF) is_client l) in
  let receiver := newConn (Stream (wire sender ++ rest) e) (negb is_client) l' in
  read_messages net' (length (messages ss)) receiver = Some (messages ss).
Proof.
  intros Hn Hn' Hf sender receiver.
  destruct (send_all_carried net Hn (orDefault l') ss (newConn (Stream "" EOF) is_client l) ltac:(done) Hf)
    as (fs & Hm & Hk & Hw).
  apply (read_all_sent net' Hn' ss fs receiver rest e); [done|done| |done| |].
  - unfold receiver, newConn, orDefault. cbn [limits MaxFrame]. destruct (Z.leb_spec (MaxFrame l') 0); [done|lia].
  - unfold receiver. cbn [newConn client] in *. by rewrite negb_involutive.
  - unfold receiver, sender. cbn [newConn c_in]. by rewrite Hw.
Qed.

(** ** Witnesses *)

Lemma good_network_carries : carries good_network.
Proof. split; [done|]. by exists "KEY!". Qed.

Lemma messages_arrive_witness :
  let ss := [SendMessage Text "hi"; SendPing; SendMessage Binary "there"] in
  let sender := send_all good_network ss (newConn (Stream "" EOF) true (MkLimits 0 0)) in
  read_messages good_network 2 (newConn (Stream (wire sender ++ "tail") EOF) false (MkLimits 16 0))
  = Some [(Text, "hi"); (Binary, "there")].
Proof.
  apply (messages_arrive good_network good_network
    [SendMessage Text "hi"; SendPing; SendMessage Binary "there"] true (MkLimits 0 0) (MkLimits 16 0) "tail" EOF).
  - apply good_network_carries.
  - apply good_network_carries.
  - repeat constructor; vm_compute; done.
Defined.

Lemma nothing_after_close_witness :
  let c := run_steps good_network
    [DoWrite Text "hi"; DoTurn None; DoClose 1000 "bye" false; DoPing; DoTurn None]
    (newConn (Stream (written (Frame true opPing "x") None) EOF) true (MkLimits 0 0)) in
  sent_well good_network c ∧ map fst (c_out c) = [Frame true opText "hi"; Frame true opPong "x";
    Frame true opClose (String "003" (String "232" "bye"))].
Proof.
  split; [|vm_compute; reflexivity].
  apply (nothing_after_close good_network); [intros k key [= <-]; done|]. repeat constructor; vm_compute; (discriminate || reflexivity || (left; split; discriminate)).
Defined.

(** [CloseWith] checks neither: asked for a code that may not be sent it sends it,
    and a peer refuses the frame. *)
Example close_not_checked :
  let c := snd (CloseWith good_network CloseNoStatus "" false (newConn (Stream "" EOF) false (MkLimits 0 0))) in
  match map (λ x, checkClose (payload (fst x))) (c_out c) with [inl (protocolError code _)] => code = CloseProtocolError | _ => False end.
Proof. vm_compute. reflexivity. Qed.

(** A write that fails for something other than its deadline leaves the connection
    open: what is sent next follows the front of a frame that went. *)
Example cut_short_goes_on :
  let net := MkNetwork (λ k, if (k =? 0)%nat then WriteFailed 1 (BrokenIO "reset") false else Written) (λ _, None) in
  let c := snd (WriteMessage net Binary "there" (snd (WriteMessage net Binary "hi" (newConn (Stream "" EOF) false (MkLimits 0 0))))) in
  map snd (c_out c) = [str_take 1 (written (Frame true opBinary "hi") None); written (Frame true opBinary "there") None].
Proof. vm_compute. reflexivity. Qed.
