(* ===== verification/EgressRecord.v ===== *)
(** What the egress proxy puts on the record (src/internal/egress/proxy.go
    [Event], limit.go): decisions one by one at first, then counted per kind and
    summarised, so that a loop cannot grow the record without end. The limiter's
    mutex makes [record] and [flush] steps of one state. *)

From Stdlib Require Import ZArith String Lia Ascii.
From stdpp Require Import base tactics list gmap strings.
From S2P Require Import Prelude.
From S2P Require Import GoStd.
From S2P Require Import Egress.

#[local] Open Scope string_scope.
#[local] Open Scope Z_scope.

(** ** Events *)

Record Event : Type := MkEvent {
  CallID : string; Kind : string; Host : string; Port : Z; IP : string;
  Method : string; Path : string; ev_Decision : Decision; ev_Rule : string; Reason : string;
  BytesIn : Z; BytesOut : Z;
  Synthetic : string; Upstream : string; Resolved : string;
  Repeats : Z
}.

Definition Decision_text (d : Decision) : string :=
  match d with Allow => "allow" | Deny => "deny" | WouldDeny => "would_deny" end.

(** [Event.Payload]: a JSON object of texts and numbers. *)
Inductive payload_value : Type := PText (s : string) | PInt (z : Z).

Definition Payload (e : Event) : gmap string payload_value :=
  let add_text (cond : bool) (k v : string) (m : gmap string payload_value) := if cond then <[k := PText v]> m else m in
  let m : gmap string payload_value := list_to_map [
    ("call_id", PText (CallID e)); ("kind", PText (Kind e)); ("host", PText (Host e)); ("port", PInt (Port e));
    ("decision", PText (Decision_text (ev_Decision e))); ("rule", PText (ev_Rule e)); ("reason", PText (Reason e));
    ("bytes_in", PInt (BytesIn e)); ("bytes_out", PInt (BytesOut e))] in
  let m := add_text (str_nonempty (IP e)) "ip" (IP e) m in
  let seen := String.eqb (Kind e) "http" || String.eqb (Kind e) "https" in
  let m := add_text seen "path" (Path e) (add_text seen "method" (Method e) m) in
  let m := if 0 <? Repeats e then <["repeats" := PInt (Repeats e)]> m else m in
  let m := add_text (str_nonempty (Synthetic e)) "synthetic" (Synthetic e) m in
  let m := add_text (str_nonempty (Upstream e)) "upstream" (Upstream e) m in
  add_text (str_nonempty (Resolved e)) "resolved" (Resolved e) m.

(** The proxy's [record]: paths are kept only when the policy says so. *)
Definition without_path (record_paths : bool) (e : Event) : Event :=
  if record_paths then e
  else MkEvent (CallID e) (Kind e) (Host e) (Port e) (IP e) (Method e) "" (ev_Decision e) (ev_Rule e) (Reason e)
         (BytesIn e) (BytesOut e) (Synthetic e) (Upstream e) (Resolved e) (Repeats e).

(** ** The limiter *)

Definition defaultBurst : Z := 10.
Definition defaultInterval : Z := 60000000000.
Definition maxPerInterval : Z := 100.
Definition defaultAllowBudget : Z := 200.
Definition maxKinds : Z := 512.

Record tally : Type := MkTally {
  recorded : Z; suppressed : Z; t_bytesIn : Z; t_bytesOut : Z; sample : Event
}.

Record limiter : Type := MkLimiter {
  burst : Z; allowBudget : Z; interval : Z;
  kinds : gmap string tally; order : list string;
  heldAllow : Z; heldDeny : Z; total : Z; allowed : Z
}.

(** [newLimiter]: the ticker only decides when [flush] is called. *)
Definition newLimiter (b budget ival : Z) : limiter :=
  MkLimiter (if b <=? 0 then defaultBurst else b) (if budget <=? 0 then defaultAllowBudget else budget)
    (if ival <=? 0 then defaultInterval else ival) ∅ [] 0 0 0 0.

(** [kindKey]. *)
Definition kindKey (e : Event) : string :=
  Kind e ++ "|" ++ Decision_text (ev_Decision e) ++ "|" ++ ev_Rule e ++ "|" ++ Host e ++ "|" ++ Itoa (Port e).

Definition is_allow (e : Event) : bool := bool_decide (ev_Decision e = Allow).

(** What a kind keeps of its first decision. *)
Definition sample_of (e : Event) : Event :=
  MkEvent "" (Kind e) (Host e) (Port e) "" "" "" (ev_Decision e) (ev_Rule e) (Reason e)
    0 0 (Synthetic e) (Upstream e) (Resolved e) (Repeats e).

Definition overflow_key (d : Decision) : string := "overflow|" ++ Decision_text d.

Definition overflow_sample (d : Decision) : Event :=
  MkEvent "" "summary" "" 0 "" "" "" d "rate"
    ((if bool_decide (d = Allow) then "allowed connections" else "denials") ++ " of many kinds") 0 0 "" "" "" 0.

Definition add_kind (key : string) (t : tally) (l : limiter) : limiter :=
  MkLimiter (burst l) (allowBudget l) (interval l) (<[key := t]> (kinds l)) (order l ++ [key])
    (heldAllow l) (heldDeny l) (total l) (allowed l).

Definition hold (allow : bool) (l : limiter) : limiter :=
  MkLimiter (burst l) (allowBudget l) (interval l) (kinds l) (order l)
    (if allow then heldAllow l + 1 else heldAllow l) (if allow then heldDeny l else heldDeny l + 1)
    (total l) (allowed l).

(** [tallyFor]: the key of the count [e] falls in, begun if need be. *)
Definition tallyFor (e : Event) (l : limiter) : string * limiter :=
  match kinds l !! kindKey e with
  | Some _ => (kindKey e, l)
  | None =>
      let held := if is_allow e then heldAllow l else heldDeny l in
      if maxKinds <=? held then
        let key := overflow_key (ev_Decision e) in
        match kinds l !! key with
        | Some _ => (key, l)
        | None => (key, add_kind key (MkTally (burst l) 0 0 0 (overflow_sample (ev_Decision e))) l)
        end
      else (kindKey e, add_kind (kindKey e) (MkTally 0 0 0 0 (sample_of e)) (hold (is_allow e) l))
  end.

(** The count under a key, changed in place. *)
Definition set_kinds (m : gmap string tally) (l : limiter) : limiter :=
  MkLimiter (burst l) (allowBudget l) (interval l) m (order l) (heldAllow l) (heldDeny l) (total l) (allowed l).
Definition set_total (n : Z) (l : limiter) : limiter :=
  MkLimiter (burst l) (allowBudget l) (interval l) (kinds l) (order l) (heldAllow l) (heldDeny l) n (allowed l).
Definition set_allowed (n : Z) (l : limiter) : limiter :=
  MkLimiter (burst l) (allowBudget l) (interval l) (kinds l) (order l) (heldAllow l) (heldDeny l) (total l) n.

Definition alter_tally (f : tally → tally) (key : string) (l : limiter) : limiter :=
  set_kinds (alter f key (kinds l)) l.

Definition one_recorded (t : tally) : tally :=
  MkTally (recorded t + 1) (suppressed t) (t_bytesIn t) (t_bytesOut t) (sample t).

Definition suppress (e : Event) (t : tally) : tally :=
  MkTally (recorded t) (wrap64 (suppressed t + 1)) (wrap64 (t_bytesIn t + BytesIn e))
    (wrap64 (t_bytesOut t + BytesOut e)) (sample t).

(** [limiter.record]: what is emitted, and the limiter after it. *)
Definition limiter_record (e : Event) (l : limiter) : list Event * limiter :=
  if is_allow e then
    if allowed l <? allowBudget l then ([e], set_allowed (allowed l + 1) l)
    else let '(key, l) := tallyFor e l in ([], alter_tally (suppress e) key l)
  else
    let '(key, l) := tallyFor e l in
    match kinds l !! key with
    | None => ([], l)
    | Some t =>
        if (recorded t <? burst l) && (total l <? maxPerInterval) then
          ([e], set_total (total l + 1) (alter_tally one_recorded key l))
        else ([], alter_tally (suppress e) key l)
    end.

(** The summary of a kind. *)
Definition summary (l : limiter) (t : tally) : Event :=
  let s := sample t in
  MkEvent (CallID s) (Kind s) (Host s) (Port s) (IP s) (Method s) (Path s) (ev_Decision s) (ev_Rule s)
    (if is_allow s
     then Itoa (suppressed t) ++ " more allowed within " ++ duration_text (interval l) ++ ", over the " ++ Itoa (allowBudget l)
          ++ " recorded one by one"
     else Itoa (suppressed t) ++ " more like this within " ++ duration_text (interval l)
          ++ ", not recorded one by one; the first: " ++ Reason s)
    (t_bytesIn t) (t_bytesOut t) (Synthetic s) (Upstream s) (Resolved s) (suppressed t).

(** [flush]: the summaries, in the order the kinds began, and a new interval. *)
Definition flush (l : limiter) : list Event * limiter :=
  (omap (λ k, t ← kinds l !! k; if suppressed t =? 0 then None else Some (summary l t)) (order l),
   MkLimiter (burst l) (allowBudget l) (interval l) ∅ [] 0 0 0 0).

(** A session's decisions and the ticks of the interval between them; [stop]
    flushes a last time. *)
Inductive limit_step : Type := Decided (e : Event) | Tick.

Definition limit_run_step (s : limit_step) (l : limiter) : list Event * limiter :=
  match s with Decided e => limiter_record e l | Tick => flush l end.

Fixpoint limit_run (ss : list limit_step) (l : limiter) : list Event * limiter :=
  match ss with
  | [] => ([], l)
  | s :: ss =>
      let '(out, l) := limit_run_step s l in
      let '(out', l) := limit_run ss l in ((out ++ out')%list, l)
  end.

(** Everything the record takes of a session. *)
Definition session_record (ss : list limit_step) (l : limiter) : list Event :=
  fst (limit_run (ss ++ [Tick]) l).

Definition test_denial (host : string) : Event :=
  MkEvent "c1" "connect" host 443 "" "" "" Deny "default" "no rule matches this host" 3 4 "" "" "" 0.

Example burst_then_counted :
  let l := newLimiter 2 0 0 in
  map (λ e, (Reason e, Repeats e, BytesIn e)) (session_record (repeat (Decided (test_denial "a.org")) 5) l)
  = [("no rule matches this host", 0, 3); ("no rule matches this host", 0, 3);
     ("3 more like this within 1m0s, not recorded one by one; the first: no rule matches this host", 3, 9)].
Proof. vm_compute. reflexivity. Qed.

(** * Theorems

    The egress record loses nothing and stays small: every decision is either on
    the record or counted in a summary, and what an interval adds is bounded. *)

#[local] Arguments String.append : simpl nomatch.

(** ** Keys of kinds *)

(** Kinds are words of the program, without the separator of keys. *)
Definition no_bar (s : string) : Prop := str_forall (λ c, negb (c =c "|"%char)) s = true.

Lemma no_bar_split a b s t : no_bar a → no_bar b → a ++ String "|" s = b ++ String "|" t → a = b ∧ s = t.
Proof.
  unfold no_bar. revert b; induction a as [|c a IH]; intros [|d b] Ha Hb H; simpl in *.
  - by injection H as ->.
  - injection H as <- H. by rewrite Ascii.eqb_refl in Hb.
  - injection H as -> H. by rewrite Ascii.eqb_refl in Ha.
  - injection H as -> H. apply andb_true_iff in Ha as [_ Ha], Hb as [_ Hb].
    destruct (IH b Ha Hb H) as [-> ->]. done.
Qed.

Lemma Decision_text_bar d : no_bar (Decision_text d).
Proof. by destruct d. Qed.

Lemma Decision_text_inj : Inj (=) (=) Decision_text.
Proof. by intros [] []. Qed.

Lemma kindKey_decision e f : no_bar (Kind e) → no_bar (Kind f) → kindKey e = kindKey f → ev_Decision e = ev_Decision f.
Proof.
  unfold kindKey. intros He Hf H. apply no_bar_split in H as [_ H]; [|done..].
  apply no_bar_split in H as [H _]; [|apply Decision_text_bar..]. by apply Decision_text_inj.
Qed.

Lemma kindKey_overflow e d : no_bar (Kind e) → kindKey e ≠ overflow_key d.
Proof.
  unfold kindKey, overflow_key. intros He H. apply (no_bar_split _ "overflow") in H as [_ H]; [|done..].
  destruct (ev_Decision e), d; discriminate.
Qed.

Lemma overflow_key_inj : Inj (=) (=) overflow_key.
Proof. by intros [] []. Qed.

(** ** Sums *)

Definition sum_over {A} (f : A → Z) (l : list A) : Z := foldr (λ x a, f x + a) 0 l.

Lemma sum_over_app {A} (f : A → Z) l k : sum_over f (l ++ k) = sum_over f l + sum_over f k.
Proof. induction l; simpl; lia. Qed.

Lemma sum_over_cons {A} (f : A → Z) x l : sum_over f (x :: l) = f x + sum_over f l.
Proof. done. Qed.

Lemma sum_over_ext {A} (f g : A → Z) l : (∀ x, x ∈ l → f x = g x) → sum_over f l = sum_over g l.
Proof.
  induction l as [|x l IH]; intros H; [done|]. simpl. rewrite (H x) by left. rewrite IH; [done|].
  intros y Hy. apply H. by right.
Qed.

Lemma sum_over_zero {A} (f : A → Z) l : (∀ x, x ∈ l → f x = 0) → sum_over f l = 0.
Proof. induction l as [|x l IH]; intros H; [done|]. simpl. rewrite (H x), IH; [done| |left]. intros y Hy. apply H. by right. Qed.

(** One element of a list without repeats counts differently. *)
Lemma sum_over_change {A} (f g : A → Z) x l : NoDup l → x ∈ l → (∀ y, y ≠ x → f y = g y) →
  sum_over g l = sum_over f l + (g x - f x).
Proof.
  induction 1 as [|y l Hy Hn IH]; intros Hx Hfg; [by apply elem_of_nil in Hx|]. simpl.
  apply elem_of_cons in Hx as [->|Hx].
  - rewrite (sum_over_ext f g l); [lia|]. intros z Hz. apply Hfg. congruence.
  - rewrite (IH Hx Hfg), (Hfg y); [lia|]. congruence.
Qed.

(** ** What the limiter's counts mean *)

(** A count belongs to its key, has not wrapped, and holds bytes only for
    decisions it counted. *)
Definition tally_ok (n : Z) (k : string) (t : tally) : Prop :=
  (no_bar (Kind (sample t)) ∧ k = kindKey (sample t) ∨ k = overflow_key (ev_Decision (sample t))) ∧
  0 <= suppressed t <= n ∧
  (suppressed t = 0 → t_bytesIn t = 0 ∧ t_bytesOut t = 0).

Definition limiter_ok (n : Z) (l : limiter) : Prop :=
  NoDup (order l) ∧ (∀ k, k ∈ order l ↔ is_Some (kinds l !! k)) ∧
  ∀ k t, kinds l !! k = Some t → tally_ok n k t.

Lemma tally_ok_mono n m k t : n <= m → tally_ok n k t → tally_ok m k t.
Proof. intros ? (H1 & H2 & H3). split_and!; [done|lia|lia|done]. Qed.

Lemma limiter_ok_mono n m l : n <= m → limiter_ok n l → limiter_ok m l.
Proof. intros ? (H1 & H2 & H3). split_and!; [done..|]. intros k t Ht. eapply tally_ok_mono; eauto. Qed.

Lemma empty_ok n l : kinds l = ∅ → order l = [] → limiter_ok n l.
Proof.
  intros Hk Ho. split_and!; rewrite ?Ho, ?Hk.
  - constructor.
  - intros k. rewrite ?Ho, lookup_empty. split; [by intros ?%elem_of_nil | by intros []].
  - intros k t. by rewrite lookup_empty.
Qed.

Lemma add_kind_ok n k t l : limiter_ok n l → kinds l !! k = None → tally_ok n k t → limiter_ok n (add_kind k t l).
Proof.
  intros (H1 & H2 & H3) Hk Ht. split_and!; cbn [add_kind kinds order].
  - apply NoDup_app. split_and!; [done| |apply NoDup_singleton].
    intros x Hx ->%list_elem_of_singleton. apply H2 in Hx. rewrite Hk in Hx. by destruct Hx.
  - intros x. rewrite elem_of_app, list_elem_of_singleton, H2, lookup_insert_is_Some'.
    split; [intros [?| ->]; auto | intros [?|?]; auto].
  - intros x u. rewrite lookup_insert_Some. intros [[<- <-]|[_ Hu]]; eauto.
Qed.

Lemma hold_ok n a l : limiter_ok n l → limiter_ok n (hold a l).
Proof. done. Qed.

(** The count an event falls in is there, and of its decision. *)
Lemma tallyFor_ok n e l : 0 <= n → limiter_ok n l → no_bar (Kind e) →
  limiter_ok n (snd (tallyFor e l)) ∧
  ∃ t, kinds (snd (tallyFor e l)) !! fst (tallyFor e l) = Some t ∧ ev_Decision (sample t) = ev_Decision e.
Proof.
  intros Hn Hl He. unfold tallyFor. destruct (kinds l !! kindKey e) as [t|] eqn:Ek.
  { split; [done|]. exists t. split; [done|]. destruct Hl as (_ & _ & H3).
    destruct (H3 _ _ Ek) as ([[Hb Hk]|Hk] & _); [symmetry; by apply kindKey_decision|].
    by apply kindKey_overflow in Hk. }
  case_match; [|].
  - destruct (kinds l !! overflow_key (ev_Decision e)) as [t|] eqn:Eo.
    + split; [done|]. exists t. split; [done|]. destruct Hl as (_ & _ & H3).
      destruct (H3 _ _ Eo) as ([[Hb Hk]|Hk] & _); [by apply eq_sym, kindKey_overflow in Hk|].
      by apply overflow_key_inj in Hk.
    + cbn [fst snd]. split.
      * apply add_kind_ok; [done..|]. split_and!; cbn; [by right|lia|lia|done].
      * eexists. cbn [add_kind kinds]. by rewrite lookup_insert_eq.
  - cbn [fst snd]. split.
    + apply add_kind_ok; [done..|]. split_and!; cbn; [left; by split|lia|lia|done].
    + eexists. cbn [add_kind kinds]. by rewrite lookup_insert_eq.
Qed.

Lemma alter_tally_ok n f k l : limiter_ok n l → (∀ t, tally_ok n k t → tally_ok n k (f t)) →
  limiter_ok n (alter_tally f k l).
Proof.
  intros (H1 & H2 & H3) Hf. split_and!; cbn [alter_tally set_kinds kinds order]; [done| |].
  - intros x. rewrite H2. destruct (decide (x = k)) as [->|Hx].
    + rewrite lookup_alter_eq. by rewrite fmap_is_Some.
    + by rewrite lookup_alter_ne.
  - intros x t. rewrite lookup_alter_Some. intros [(-> & u & Hu & ->)|[_ Ht]]; eauto.
Qed.

Lemma suppressed_next n t e : 0 <= suppressed t <= n → n < int64_max →
  suppressed (suppress e t) = suppressed t + 1.
Proof. intros H1 H2. cbn [suppress suppressed]. apply wrap64_succ. lia. Qed.

Lemma suppress_ok n e k t : n < int64_max → tally_ok n k t → tally_ok (n + 1) k (suppress e t).
Proof.
  intros Hn (H1 & H2 & H3). pose proof (suppressed_next n t e H2 Hn) as Hs.
  split_and!; [done|lia..|]. rewrite Hs. lia.
Qed.

Lemma limiter_record_ok n e l : 0 <= n < int64_max → no_bar (Kind e) → limiter_ok n l →
  limiter_ok (n + 1) (snd (limiter_record e l)).
Proof.
  intros Hn He Hl. pose proof (limiter_ok_mono n (n + 1) l ltac:(lia) Hl) as Hl'.
  unfold limiter_record. destruct (tallyFor_ok n e l ltac:(lia) Hl He) as (Ht & t & Hk & _).
  destruct (tallyFor e l) as [key l1]. cbn [fst snd] in *.
  assert (Hsup : limiter_ok (n + 1) (alter_tally (suppress e) key l1)).
  { destruct Ht as (H1 & H2 & H3). split_and!; cbn [alter_tally set_kinds kinds order]; [done| |].
    - intros x. rewrite H2. destruct (decide (x = key)) as [->|Hx]; [by rewrite lookup_alter_eq, fmap_is_Some | by rewrite lookup_alter_ne].
    - intros x u. rewrite lookup_alter_Some. intros [(-> & v & Hv & ->)|[_ Hu]].
      + apply suppress_ok; [lia|eauto].
      + eapply tally_ok_mono; [|eauto]. lia. }
  destruct (is_allow e).
  - destruct (allowed l <? allowBudget l); [done|]. done.
  - rewrite Hk. destruct (_ && _); cbn [snd]; [|done].
    apply (limiter_ok_mono n); [lia|]. exact (alter_tally_ok n one_recorded key l1 Ht (λ t Ht, Ht)).
Qed.

(** ** Nothing is lost *)

(** The decisions of a session. *)
Definition decided (ss : list limit_step) : list Event :=
  omap (λ s, match s with Decided e => Some e | Tick => None end) ss.

(** What a list of events adds up to, of one decision. *)
Definition of_decision (d : Decision) (m : Event → Z) (e : Event) : Z :=
  if bool_decide (ev_Decision e = d) then m e else 0.
Definition adds_up (d : Decision) (m : Event → Z) (es : list Event) : Z := sum_over (of_decision d m) es.

(** The same of what the counts hold back. *)
Definition held_at (d : Decision) (m : tally → Z) (ks : gmap string tally) (k : string) : Z :=
  match ks !! k with
  | Some t => if bool_decide (ev_Decision (sample t) = d) then m t else 0
  | None => 0
  end.
Definition held_back (d : Decision) (m : tally → Z) (l : limiter) : Z := sum_over (held_at d m (kinds l)) (order l).

(** A decision as it comes to the limiter. *)
Definition incoming (e : Event) : Prop := no_bar (Kind e) ∧ Repeats e = 0.

#[local] Instance incoming_dec e : base.Decision (incoming e).
Proof. unfold incoming, no_bar. apply _. Defined.

Section conserved.
Context (R : relation Z) (HR : Equivalence R) (Radd : Proper (R ==> R ==> R) Z.add).
Context (me : Event → Z) (mt : tally → Z).
Context (mt_new : ∀ b s, mt (MkTally b 0 0 0 s) = 0) (mt_one : ∀ t, mt (one_recorded t) = mt t).
Context (mt_suppress : ∀ n t e, 0 <= suppressed t <= n → n < int64_max → incoming e →
  R (mt (suppress e t)) (mt t + me e)).
Context (me_summary : ∀ l t, suppressed t ≠ 0 → me (summary l t) = mt t).
Context (mt_zero : ∀ t, suppressed t = 0 → t_bytesIn t = 0 → t_bytesOut t = 0 → mt t = 0).

Lemma add_kind_held n d k t l : limiter_ok n l → kinds l !! k = None → mt t = 0 →
  held_back d mt (add_kind k t l) = held_back d mt l.
Proof.
  intros (_ & H2 & _) Hk Ht. unfold held_back. cbn [add_kind order kinds]. rewrite sum_over_app.
  rewrite (sum_over_ext _ (held_at d mt (kinds l))).
  - cbn [sum_over foldr]. unfold held_at at 2. rewrite lookup_insert_eq, Ht. case_match; lia.
  - intros x Hx. unfold held_at. rewrite lookup_insert_ne; [done|].
    intros ->. apply H2 in Hx. rewrite Hk in Hx. by destruct Hx.
Qed.

Lemma tallyFor_held n d e l : limiter_ok n l →
  held_back d mt (snd (tallyFor e l)) = held_back d mt l.
Proof.
  intros Hl. unfold tallyFor. destruct (kinds l !! kindKey e) eqn:Ek; [done|]. case_match.
  - destruct (kinds l !! overflow_key (ev_Decision e)) eqn:Eo; [done|]. by eapply add_kind_held.
  - exact (add_kind_held n d _ _ (hold (is_allow e) l) Hl Ek (mt_new _ _)).
Qed.

Lemma alter_held n d f k t l : limiter_ok n l → kinds l !! k = Some t → sample (f t) = sample t →
  held_back d mt (alter_tally f k l) =
  held_back d mt l + (if bool_decide (ev_Decision (sample t) = d) then mt (f t) - mt t else 0).
Proof.
  intros (H1 & H2 & _) Hk Hs. unfold held_back. cbn [alter_tally set_kinds order kinds].
  rewrite (sum_over_change (held_at d mt (kinds l)) _ k); [|done|by apply H2; eexists|].
  - unfold held_at. rewrite lookup_alter_eq, Hk. cbn [fmap option_fmap option_map]. rewrite Hs. case_match; lia.
  - intros y Hy. unfold held_at. by rewrite lookup_alter_ne.
Qed.

Lemma flush_adds_up n d l : limiter_ok n l → adds_up d me (fst (flush l)) = held_back d mt l.
Proof.
  intros (_ & H2 & H3). unfold flush, adds_up, held_back. cbn [fst].
  assert (Hall : ∀ k, k ∈ order l → is_Some (kinds l !! k)) by (intros k; apply H2).
  clear H2. induction (order l) as [|k ks IH]; [done|].
  destruct (Hall k) as [t Ht]; [by left|]. rewrite sum_over_cons, <- IH by (intros; apply Hall; by right).
  cbn [omap list_omap]. unfold held_at. rewrite Ht. cbn [mbind option_bind].
  destruct (Z.eqb_spec (suppressed t) 0) as [Hz|Hz].
  - destruct (H3 _ _ Ht) as (_ & _ & Hb). destruct (Hb Hz) as [Hi Ho].
    rewrite (mt_zero t Hz Hi Ho). by case_match.
  - rewrite sum_over_cons. f_equal. unfold of_decision. cbn [summary ev_Decision].
    by rewrite me_summary.
Qed.

Lemma limiter_record_adds_up n d e l : 0 <= n < int64_max → incoming e → limiter_ok n l →
  R (adds_up d me (fst (limiter_record e l)) + held_back d mt (snd (limiter_record e l)))
    (of_decision d me e + held_back d mt l).
Proof.
  intros Hn He Hl. unfold limiter_record.
  destruct (tallyFor_ok n e l ltac:(lia) Hl (proj1 He)) as (Ht & t & Hk & Hd).
  pose proof (tallyFor_held n d e l Hl) as Hh.
  destruct (tallyFor e l) as [key l1]. cbn [fst snd] in *.
  assert (Hsup : R (adds_up d me [] + held_back d mt (alter_tally (suppress e) key l1))
                   (of_decision d me e + held_back d mt l)).
  { rewrite (alter_held n d (suppress e) key t l1 Ht Hk eq_refl), Hh, Hd. cbn. unfold of_decision.
    destruct (bool_decide _).
    - destruct Ht as (_ & _ & H3). destruct (H3 _ _ Hk) as (_ & Hs & _).
      pose proof (mt_suppress n t e Hs ltac:(lia) He) as Hm.
      replace (held_back d mt l + (mt (suppress e t) - mt t)) with (mt (suppress e t) + (held_back d mt l - mt t)) by lia.
      replace (me e + held_back d mt l) with (mt t + me e + (held_back d mt l - mt t)) by lia.
      by rewrite Hm.
    - by rewrite Z.add_0_r. }
  destruct (is_allow e).
  - destruct (allowed l <? allowBudget l); [|done]. cbn [fst snd adds_up sum_over foldr].
    by rewrite Z.add_0_r.
  - rewrite Hk. destruct (_ && _); cbn [fst snd]; [|done].
    change (held_back d mt (set_total (total l1 + 1) (alter_tally one_recorded key l1)))
      with (held_back d mt (alter_tally one_recorded key l1)).
    rewrite (alter_held n d one_recorded key t l1 Ht Hk eq_refl), Hh, mt_one.
    cbn [adds_up sum_over foldr]. rewrite Z.add_0_r, Z.sub_diag. case_match; by rewrite Z.add_0_r.
Qed.

Lemma adds_up_app d es fs : adds_up d me (es ++ fs) = adds_up d me es + adds_up d me fs.
Proof. apply sum_over_app. Qed.

Lemma adds_up_cons d e es : adds_up d me (e :: es) = of_decision d me e + adds_up d me es.
Proof. done. Qed.

Lemma limit_run_adds_up d ss : ∀ n l, limiter_ok n l → 0 <= n → n + Z.of_nat (length ss) <= int64_max →
  Forall incoming (decided ss) →
  R (adds_up d me (session_record ss l)) (adds_up d me (decided ss) + held_back d mt l).
Proof.
  unfold session_record. induction ss as [|s ss IH]; intros n l Hl Hn Hlen Hin.
  - cbn [app limit_run limit_run_step]. pose proof (flush_adds_up n d l Hl) as Hf.
    destruct (flush l) as [out l']. cbn [fst] in *. rewrite app_nil_r, Hf. done.
  - cbn [app limit_run]. cbn [length] in Hlen. destruct s as [e|].
    + change (decided (Decided e :: ss)) with (e :: decided ss) in *. apply Forall_cons in Hin as [He Hin].
      pose proof (limiter_record_adds_up n d e l ltac:(lia) He Hl) as Hr.
      pose proof (limiter_record_ok n e l ltac:(lia) (proj1 He) Hl) as Hok.
      cbn [limit_run_step]. destruct (limiter_record e l) as [out l1]. cbn [fst snd] in *.
      specialize (IH (n + 1) l1 Hok ltac:(lia) ltac:(lia) Hin).
      destruct (limit_run (ss ++ [Tick]) l1) as [out' l2]. cbn [fst] in *.
      rewrite adds_up_app, IH, adds_up_cons.
      replace (adds_up d me out + (adds_up d me (decided ss) + held_back d mt l1))
        with (adds_up d me out + held_back d mt l1 + adds_up d me (decided ss)) by lia.
      rewrite Hr. replace (of_decision d me e + adds_up d me (decided ss) + held_back d mt l)
        with (of_decision d me e + held_back d mt l + adds_up d me (decided ss)) by lia. done.
    + change (decided (Tick :: ss)) with (decided ss) in *. pose proof (flush_adds_up n d l Hl) as Hf.
      assert (Hok : limiter_ok n (snd (flush l))) by by apply empty_ok. cbn [limit_run_step].
      destruct (flush l) as [out l1] eqn:Efl. cbn [fst snd] in *.
      specialize (IH n l1 Hok Hn ltac:(lia) Hin).
      destruct (limit_run (ss ++ [Tick]) l1) as [out' l2]. cbn [fst] in *.
      rewrite adds_up_app, IH, Hf.
      assert (held_back d mt l1 = 0) as -> by (unfold flush in Efl; by injection Efl as _ <-).
      rewrite Z.add_0_r. by rewrite Z.add_comm.
Qed.
End conserved.

(** How many decisions an event of the record stands for. *)
Definition stands_for (e : Event) : Z := if Repeats e =? 0 then 1 else Repeats e.

#[local] Instance wrap_equiv : Equivalence (λ a b, wrap64 a = wrap64 b).
Proof. split; [by intros ?| by intros ? ? ->| by intros ? ? ? -> ->]. Qed.

Lemma wrap64_add a b : wrap64 (wrap64 a + b) = wrap64 (a + b).
Proof.
  unfold wrap64. f_equal.
  set (M := 18446744073709551616). set (h := 9223372036854775808).
  replace ((a + h) mod M - h + b + h) with ((a + h) mod M + b) by lia.
  rewrite Z.add_mod_idemp_l by done. f_equal. lia.
Qed.

#[local] Instance wrap_add : Proper ((λ a b, wrap64 a = wrap64 b) ==> (λ a b, wrap64 a = wrap64 b) ==> (λ a b, wrap64 a = wrap64 b)) Z.add.
Proof.
  intros a a' Ha b b' Hb. rewrite <- (wrap64_add a b), Ha, wrap64_add, Z.add_comm, <- (wrap64_add b a'), Hb, wrap64_add.
  by rewrite Z.add_comm.
Qed.

(** C36: However decisions and ticks of the interval interleave, and however a flood
    varies them: the record of a session stands for exactly the decisions made,
    allowed, denied and let through in audit mode each counted apart, and
    carries their bytes, modulo the width of the counters. *)
Theorem record_loses_nothing ss b budget ival d :
  Forall incoming (decided ss) → Z.of_nat (length ss) <= int64_max →
  let rec := session_record ss (newLimiter b budget ival) in
  adds_up d stands_for rec = adds_up d (λ _, 1) (decided ss) ∧
  wrap64 (adds_up d BytesIn rec) = wrap64 (adds_up d BytesIn (decided ss)) ∧
  wrap64 (adds_up d BytesOut rec) = wrap64 (adds_up d BytesOut (decided ss)).
Proof.
  intros Hin Hlen. cbv zeta.
  assert (Hok : limiter_ok 0 (newLimiter b budget ival)) by by apply empty_ok.
  assert (Hheld : ∀ m, held_back d m (newLimiter b budget ival) = 0) by done.
  split_and!.
  - pose proof (limit_run_adds_up (=) _ _ stands_for suppressed) as H.
    rewrite (H ltac:(done) ltac:(done)) with (n := 0).
    + rewrite Hheld, Z.add_0_r. apply sum_over_ext. intros e He.
      rewrite Forall_forall in Hin. destruct (Hin e He) as [_ Hr]. unfold of_decision, stands_for. by rewrite Hr.
    + intros n t e Hs Hn [_ Hr]. rewrite (suppressed_next n) by done. unfold stands_for. by rewrite Hr.
    + intros l t Ht. unfold stands_for. cbn [summary Repeats]. by rewrite (proj2 (Z.eqb_neq _ _) Ht).
    + done.
    + done.
    + done.
    + lia.
    + done.
  - pose proof (limit_run_adds_up _ wrap_equiv wrap_add BytesIn t_bytesIn) as H.
    rewrite (H ltac:(done) ltac:(done)) with (n := 0) (l := newLimiter b budget ival);
      [by rewrite Hheld, Z.add_0_r| |done..|lia|done].
    intros n t e _ _ _. cbn [suppress t_bytesIn]. apply wrap64_id, wrap64_range.
  - pose proof (limit_run_adds_up _ wrap_equiv wrap_add BytesOut t_bytesOut) as H.
    rewrite (H ltac:(done) ltac:(done)) with (n := 0) (l := newLimiter b budget ival);
      [by rewrite Hheld, Z.add_0_r| |done..|lia|done].
    intros n t e _ _ _. cbn [suppress t_bytesOut]. apply wrap64_id, wrap64_range.
Qed.

(** ** The record stays small *)

Definition overflow_keys : list string := map overflow_key [Allow; Deny; WouldDeny].

(** What the interval has taken of its allowances. *)
Definition spent (l : limiter) : Z := total l + allowed l.

Definition overflowing (l : limiter) : Z := Z.of_nat (length (filter (λ k, k ∈ order l) overflow_keys)).

Definition bounded (l : limiter) : Prop :=
  0 <= total l <= maxPerInterval ∧ 0 <= allowed l <= allowBudget l ∧
  0 <= heldAllow l <= maxKinds ∧ 0 <= heldDeny l <= maxKinds ∧
  (∀ k, k ∈ order l ↔ is_Some (kinds l !! k)) ∧
  Z.of_nat (length (order l)) <= heldAllow l + heldDeny l + overflowing l.

Lemma overflowing_le l : 0 <= overflowing l <= 3.
Proof. unfold overflowing. pose proof (length_filter (λ k, k ∈ order l) overflow_keys) as H. simpl in H. lia. Qed.

Lemma filter_length_le {A} (P Q : A → Prop) `{!∀ x, base.Decision (P x), !∀ x, base.Decision (Q x)} l :
  (∀ x, P x → Q x) → (length (filter P l) <= length (filter Q l))%nat.
Proof.
  intros Hpq. induction l as [|x l IH]; [done|]. rewrite !filter_cons.
  destruct (decide (P x)), (decide (Q x)); simpl; try lia. naive_solver.
Qed.

Lemma filter_length_lt {A} (P Q : A → Prop) `{!∀ x, base.Decision (P x), !∀ x, base.Decision (Q x)} l y :
  (∀ x, P x → Q x) → y ∈ l → ¬ P y → Q y → (S (length (filter P l)) <= length (filter Q l))%nat.
Proof.
  intros Hpq Hy HP HQ. induction l as [|x l IH]; [by apply elem_of_nil in Hy|]. rewrite !filter_cons.
  pose proof (filter_length_le P Q l Hpq). apply elem_of_cons in Hy as [->|Hy].
  - rewrite decide_False, decide_True by done. simpl. lia.
  - specialize (IH Hy). destruct (decide (P x)), (decide (Q x)); simpl; try lia. naive_solver.
Qed.

Lemma overflow_key_in d : overflow_key d ∈ overflow_keys.
Proof. apply list_elem_of_fmap. exists d. split; [done|]. destruct d; set_solver. Qed.

Lemma add_kind_keys k t l : (∀ x, x ∈ order l ↔ is_Some (kinds l !! x)) →
  ∀ x, x ∈ order (add_kind k t l) ↔ is_Some (kinds (add_kind k t l) !! x).
Proof.
  intros H x. cbn [add_kind order kinds]. rewrite elem_of_app, list_elem_of_singleton, H, lookup_insert_is_Some'.
  split; [intros [?| ->]; auto | intros [?|?]; auto].
Qed.

Lemma tallyFor_bounded e l : bounded l →
  bounded (snd (tallyFor e l)) ∧ spent (snd (tallyFor e l)) = spent l ∧
  allowBudget (snd (tallyFor e l)) = allowBudget l ∧ total (snd (tallyFor e l)) = total l ∧
  allowed (snd (tallyFor e l)) = allowed l.
Proof.
  intros (H1 & H2 & H3 & H4 & H5 & H6). unfold tallyFor. destruct (kinds l !! kindKey e) eqn:Ek; [done|].
  destruct (Z.leb_spec maxKinds (if is_allow e then heldAllow l else heldDeny l)) as [Hm|Hm].
  - destruct (kinds l !! overflow_key (ev_Decision e)) eqn:Eo; [done|]. cbn [snd]. split; [|done].
    do 4 (split; [done|]). split; [by apply add_kind_keys|]. cbn [add_kind order heldAllow heldDeny].
    rewrite length_app. cbn [length]. enough (overflowing l + 1 <= overflowing (add_kind (overflow_key (ev_Decision e))
      (MkTally (burst l) 0 0 0 (overflow_sample (ev_Decision e))) l)) by lia.
    unfold overflowing. cbn [add_kind order].
    pose proof (filter_length_lt (λ k, k ∈ order l) (λ k, k ∈ (order l ++ [overflow_key (ev_Decision e)])%list)
      overflow_keys (overflow_key (ev_Decision e))) as Hl.
    enough (S (length (filter (λ k, k ∈ order l) overflow_keys)) <=
      length (filter (λ k, k ∈ (order l ++ [overflow_key (ev_Decision e)])%list) overflow_keys))%nat by lia.
    apply Hl; [intros x; rewrite elem_of_app; auto|apply overflow_key_in| |].
    + intros Hx%H5. rewrite Eo in Hx. by destruct Hx.
    + rewrite elem_of_app, list_elem_of_singleton. auto.
  - cbn [snd]. split; [|done]. unfold bounded, hold, add_kind.
    cbn [total allowed allowBudget heldAllow heldDeny order kinds].
    do 2 (split; [done|]). split; [destruct (is_allow e); lia|]. split; [destruct (is_allow e); lia|]. split.
    + exact (add_kind_keys (kindKey e) _ l H5).
    + rewrite length_app. cbn [length]. unfold overflowing in *. cbn [order].
      pose proof (filter_length_le (λ k, k ∈ order l) (λ k, k ∈ (order l ++ [kindKey e])%list) overflow_keys) as Hl.
      specialize (Hl ltac:(intros x; rewrite elem_of_app; auto)). destruct (is_allow e); lia.
Qed.

Lemma alter_tally_bounded f k l : bounded l → bounded (alter_tally f k l).
Proof.
  intros (H1 & H2 & H3 & H4 & H5 & H6). do 4 (split; [done|]). split; [|done]. intros x.
  cbn [alter_tally set_kinds order kinds]. rewrite H5. destruct (decide (x = k)) as [->|Hx].
  - by rewrite lookup_alter_eq, fmap_is_Some.
  - by rewrite lookup_alter_ne.
Qed.

Lemma limiter_record_bounded e l : bounded l →
  bounded (snd (limiter_record e l)) ∧ allowBudget (snd (limiter_record e l)) = allowBudget l ∧
  Z.of_nat (length (fst (limiter_record e l))) + spent l = spent (snd (limiter_record e l)).
Proof.
  intros Hl. unfold limiter_record.
  destruct (tallyFor_bounded e l Hl) as (Hb & Hs & Ha & Ht & Hal).
  destruct (tallyFor e l) as [key l1]. cbn [fst snd] in *.
  assert (Hsup : bounded (alter_tally (suppress e) key l1) ∧ allowBudget (alter_tally (suppress e) key l1) = allowBudget l ∧
    0 + spent l = spent (alter_tally (suppress e) key l1)).
  { split; [by apply alter_tally_bounded|]. split; [done|]. rewrite <- Hs. done. }
  destruct (is_allow e).
  - destruct (Z.ltb_spec (allowed l) (allowBudget l)) as [Hlt|]; [|done].
    destruct Hl as (H1 & H2 & H3 & H4 & H5 & H6). unfold bounded, spent. cbn [fst snd length]. cbn [set_allowed total allowed allowBudget heldAllow heldDeny order kinds].
    split; [|split; [done|lia]]. split; [done|]. split; [lia|]. by do 3 (split; [done|]).
  - destruct (kinds l1 !! key) as [t|]; [|split; [done|split; [done|cbn [length fst snd]; lia]]].
    destruct (_ <? burst l1); [|done]. destruct (Z.ltb_spec (total l1) maxPerInterval) as [Hlt|]; [|done].
    cbn [andb fst snd length]. pose proof (alter_tally_bounded one_recorded key l1 Hb) as (H1 & H2 & H3 & H4 & H5 & H6).
    change (total (alter_tally one_recorded key l1)) with (total l1) in H1.
    unfold bounded, spent. cbn [set_total total allowed allowBudget heldAllow heldDeny order kinds].
    split; [|split; [done|unfold spent in *; cbn [alter_tally set_kinds allowed] in *; lia]].
    split; [lia|]. by do 4 (split; [done|]).
Qed.

Lemma flush_bounded l : bounded l →
  Z.of_nat (length (fst (flush l))) <= 2 * maxKinds + 3 ∧ bounded (snd (flush l)) ∧ spent (snd (flush l)) = 0 ∧
  allowBudget (snd (flush l)) = allowBudget l.
Proof.
  intros (H1 & H2 & H3 & H4 & H5 & H6). unfold flush. cbn [fst snd]. split; [|split; [|done]].
  - pose proof (overflowing_le l).
    assert (Hle : ∀ (f : string → option Event) ks, (length (omap f ks) <= length ks)%nat).
    { intros f ks. induction ks as [|k ks IH]; [done|]. cbn [omap list_omap length]. destruct (f k); cbn [length]; unfold omap in *; lia. }
    specialize (Hle (λ k, t ← kinds l !! k; if suppressed t =? 0 then None else Some (summary l t)) (order l)). lia.
  - unfold bounded. cbn [total allowed allowBudget heldAllow heldDeny order kinds length].
    split; [done|]. split; [lia|]. do 2 (split; [done|]). split; [|done].
    intros k. rewrite lookup_empty. split; [by intros ?%elem_of_nil | by intros []].
Qed.

Lemma newLimiter_bounded b budget ival : bounded (newLimiter b budget ival).
Proof.
  unfold bounded, newLimiter. cbn [total allowed allowBudget heldAllow heldDeny order kinds length].
  unfold defaultAllowBudget. split; [done|]. split; [destruct (Z.leb_spec budget 0); lia|].
  do 2 (split; [done|]). split; [|done]. intros k. rewrite lookup_empty. split; [by intros ?%elem_of_nil | by intros []].
Qed.

Lemma limit_run_bounded ss : ∀ l, bounded l → bounded (snd (limit_run ss l)) ∧ allowBudget (snd (limit_run ss l)) = allowBudget l.
Proof.
  induction ss as [|s ss IH]; intros l Hl; [done|]. cbn [limit_run].
  assert (bounded (snd (limit_run_step s l)) ∧ allowBudget (snd (limit_run_step s l)) = allowBudget l) as [H1 H2].
  { destruct s as [e|]; cbn [limit_run_step]; [by destruct (limiter_record_bounded e l Hl) as (? & ? & _)|by destruct (flush_bounded l Hl) as (_ & ? & _ & ?)]. }
  destruct (limit_run_step s l) as [out l1]. cbn [snd] in *. destruct (IH l1 H1) as [H3 H4]. destruct (limit_run ss l1). cbn [snd] in *. by rewrite H4.
Qed.

(** What decisions add up to the tick that ends their interval, with what it had
    already taken. *)
Lemma interval_bounded es : ∀ l, bounded l →
  Z.of_nat (length (session_record (map Decided es) l)) + spent l <= maxPerInterval + allowBudget l + 2 * maxKinds + 3.
Proof.
  unfold session_record. induction es as [|e es IH]; intros l Hl; cbn [map app limit_run limit_run_step].
  - destruct (flush_bounded l Hl) as (Hf & _). destruct (flush l) as [out l']. cbn [fst] in *. rewrite app_nil_r.
    destruct Hl as (H1 & H2 & _). unfold spent. lia.
  - destruct (limiter_record_bounded e l Hl) as (H1 & H2 & H3). destruct (limiter_record e l) as [out l1]. cbn [fst snd] in *.
    specialize (IH l1 H1). destruct (limit_run _ l1) as [out' l2]. cbn [fst] in *. rewrite length_app. lia.
Qed.

(** C37: Whatever a session decided before, and whatever it decides up to the next
    tick of the interval or its end, that interval adds no more to the record than a
    fixed number of events: the denials and the allowed decisions recorded one by one,
    and one summary per kind counted. Nothing an earlier interval left unused is added
    to it. *)
Theorem record_is_bounded before es b budget ival :
  let l := newLimiter b budget ival in
  Z.of_nat (length (session_record (map Decided es) (snd (limit_run before l)))) <= maxPerInterval + allowBudget l + 2 * maxKinds + 3.
Proof.
  cbv zeta. set (l := newLimiter b budget ival). destruct (limit_run_bounded before l (newLimiter_bounded _ _ _)) as [Hl <-].
  pose proof (interval_bounded es _ Hl). destruct Hl as (H1 & H2 & _). unfold spent in *. lia.
Qed.

(** A flood of denials that varies its target. *)
Definition flood : list limit_step :=
  map (λ n, Decided (test_denial (Itoa (Z.of_nat n) ++ ".org"))) (seq 0 150).

Lemma record_loses_nothing_witness :
  Forall incoming (decided flood) ∧
  adds_up Deny stands_for (session_record flood (newLimiter 0 0 0)) = 150 ∧
  length (filter (λ e, Repeats e = 0) (session_record flood (newLimiter 0 0 0))) = 100%nat.
Proof.
  assert (Forall incoming (decided flood)) by (apply (bool_decide_eq_true_1 _); vm_compute; reflexivity).
  split; [done|]. split; [|vm_compute; reflexivity].
  rewrite (proj1 (record_loses_nothing flood 0 0 0 Deny ltac:(done) ltac:(vm_compute; discriminate))).
  vm_compute. reflexivity.
Defined.
