(* ===== verification/EgressCalls.v ===== *)
(** The credentials of calls (src/internal/egress/calltoken.go): each call gets a
    token of its own when it is issued, and until it ends the token is the only
    proof of its call id. The proxy's mutex makes every operation one step.
    SHA-256, base64 and the random token are parameters. *)

From Stdlib Require Import ZArith Ascii String Lia.
From stdpp Require Import base tactics list gmap strings.
From S2P Require Import Prelude.
From S2P Require Import GoStd.
From S2P Require Import GoNet.

#[local] Open Scope string_scope.

Definition maxEnded : nat := 1024.

(** Connections are known by a number; a cancel function goes with each. *)
Record credential : Type := MkCredential {
  callID : string; ended : bool; conns : gset nat
}.

(** The part of [Proxy] that keeps credentials, by the hash of their token. *)
Record Creds : Type := MkCreds { creds : gmap string credential; ended_order : list string }.

Inductive auth_error : Type := errNoCredential | errCallEnded.

#[export] Instance auth_error_eq_dec : EqDecision auth_error.
Proof. solve_decision. Defined.

Definition auth_error_text (e : auth_error) : string :=
  match e with
  | errNoCredential => "missing or wrong proxy credentials"
  | errCallEnded => "the call this credential was issued to has ended"
  end.

Definition NoCreds : Creds := MkCreds ∅ [].

(** [Issue], of the token with this key. *)
Definition Issue (key id : string) (p : Creds) : Creds :=
  MkCreds (<[key := MkCredential id false ∅]> (creds p)) (ended_order p).

(** The first ended calls forgotten, once more than [maxEnded] are kept. *)
Definition forget_oldest (p : Creds) : Creds :=
  if (maxEnded <? length (ended_order p))%nat then
    match ended_order p with
    | k :: ks => MkCreds (delete k (creds p)) ks
    | [] => p
    end
  else p.

(** [Call.End], run once: the connections it cancels and closes. *)
Definition End (key : string) (p : Creds) : gset nat * Creds :=
  match creds p !! key with
  | None => (∅, p)
  | Some cr =>
      (conns cr,
       forget_oldest (MkCreds (<[key := MkCredential (callID cr) true ∅]> (creds p)) (ended_order p ++ [key])))
  end.

(** [authorizeKey]: the call id, or the error with the id it names. *)
Definition authorizeKey (key : string) (p : Creds) : (string * auth_error) + string :=
  match creds p !! key with
  | None => inl ("", errNoCredential)
  | Some cr => if ended cr then inl (callID cr, errCallEnded) else inr (callID cr)
  end.

(** [bind] and [unbind]. *)
Definition bind (key : string) (c : nat) (p : Creds) : bool * Creds :=
  match creds p !! key with
  | None => (false, p)
  | Some cr =>
      if ended cr then (false, p)
      else (true, MkCreds (<[key := MkCredential (callID cr) false ({[c]} ∪ conns cr)]> (creds p)) (ended_order p))
  end.

Definition unbind (key : string) (c : nat) (p : Creds) : Creds :=
  match creds p !! key with
  | None => p
  | Some cr => MkCreds (<[key := MkCredential (callID cr) (ended cr) (conns cr ∖ {[c]})]> (creds p)) (ended_order p)
  end.

Section header.
Context (sha256 : string → string) (DecodeBase64 : string → option string) (TrimSpace : string → string).

Definition tokenKey (token : string) : string := sha256 token.

(** [authorize]: a Proxy-Authorization header; the key is that of its password,
    whatever user name was sent. *)
Definition authorize (h : string) (p : Creds) : ((string * auth_error) + string) * string :=
  match Cut h " " with
  | None => (inl ("", errNoCredential), "")
  | Some (scheme, enc) =>
      if negb (EqualFold scheme "basic") then (inl ("", errNoCredential), "")
      else match DecodeBase64 (TrimSpace enc) with
           | None => (inl ("", errNoCredential), "")
           | Some raw =>
               match Cut raw ":" with
               | None => (inl ("", errNoCredential), "")
               | Some (_, pass) => (authorizeKey (tokenKey pass) p, tokenKey pass)
               end
           end
  end.
End header.

(** ** What the credentials promise *)

Inductive call_op : Type :=
| OIssue (key id : string)
| OEnd (key : string)
| OBind (key : string) (c : nat)
| OUnbind (key : string) (c : nat).

Definition call_step (o : call_op) (p : Creds) : Creds :=
  match o with
  | OIssue key id => Issue key id p
  | OEnd key => snd (End key p)
  | OBind key c => snd (bind key c p)
  | OUnbind key c => unbind key c p
  end.

Definition calls_after (ops : list call_op) : Creds := foldl (λ p o, call_step o p) NoCreds ops.

Definition issued (ops : list call_op) : list (string * string) :=
  omap (λ o, match o with OIssue k id => Some (k, id) | _ => None end) ops.
Definition ends (ops : list call_op) : list string :=
  omap (λ o, match o with OEnd k => Some k | _ => None end) ops.

(** Tokens are drawn once, and a call ends after it was issued. *)
Fixpoint calls_wf (keys : list string) (ops : list call_op) : Prop :=
  match ops with
  | [] => True
  | OIssue k _ :: ops => k ∉ keys ∧ calls_wf (k :: keys) ops
  | OEnd k :: ops => k ∈ keys ∧ calls_wf keys ops
  | _ :: ops => calls_wf keys ops
  end.

(** What each key stands for, by what was issued and what has ended. *)
Definition creds_mean (iss : list (string * string)) (over : list string) (p : Creds) : Prop :=
  (∀ k id, (k, id) ∈ iss → k ∉ over →
     ∃ cs, creds p !! k = Some (MkCredential id false cs)) ∧
  (∀ k cr, creds p !! k = Some cr →
     (k, callID cr) ∈ iss ∧ (ended cr = true → k ∈ over ∧ conns cr = ∅) ∧ (ended cr = false → k ∉ over)) ∧
  (∀ k, k ∈ ended_order p → k ∈ over).

Lemma creds_mean_none iss over p k : creds_mean iss over p →
  k ∉ map fst iss → creds p !! k = None.
Proof.
  intros (_ & H & _) Hk. destruct (creds p !! k) as [cr|] eqn:E; [|done].
  destruct Hk. apply list_elem_of_fmap. exists (k, callID cr). split; [done|]. by apply (H k cr).
Qed.

Lemma Issue_means iss over p k id : creds_mean iss over p → k ∉ map fst iss → k ∉ over →
  creds_mean ((k, id) :: iss) over (Issue k id p).
Proof.
  intros (H1 & H2 & H3) Hk Hd. unfold Issue. split_and!; cbn [creds ended_order].
  - intros k' id' [[= -> ->]|Hi]%elem_of_cons Hn; [rewrite lookup_insert_eq; eauto|].
    rewrite lookup_insert_ne; [eauto|]. intros <-. destruct Hk. apply list_elem_of_fmap. by exists (k, id').
  - intros k' cr. rewrite lookup_insert_Some. intros [[<- <-]|[Hne Hc]]; cbn.
    + split; [by left|done].
    + destruct (H2 k' cr Hc) as (H4 & H5 & H6). split; [by right|done].
  - done.
Qed.

Lemma End_means iss over p k : creds_mean iss over p → k ∈ map fst iss →
  creds_mean iss (k :: over) (snd (End k p)).
Proof.
  intros (H1 & H2 & H3) Hk. unfold End. destruct (creds p !! k) as [cr|] eqn:E; cbn [snd].
  - set (q := MkCreds _ _). assert (Hq : creds_mean iss (k :: over) q).
    { split_and!; cbn [q creds ended_order].
      - intros k' id Hi [Hne Hn]%not_elem_of_cons. rewrite lookup_insert_ne by done. eauto.
      - intros k' c. rewrite lookup_insert_Some. intros [[<- <-]|[Hne Hc]]; cbn.
        + split; [by apply (H2 k cr)|]. split; [|done]. intros _. split; [by left|done].
        + destruct (H2 k' c Hc) as (H4 & H5 & H6). split; [done|]. split.
          * intros He. destruct (H5 He). split; [by right|done].
          * intros He. apply not_elem_of_cons. auto.
      - intros k' [Hk'|Hk']%elem_of_app; [right; auto|]. apply list_elem_of_singleton in Hk' as ->. by left. }
    unfold forget_oldest. destruct (_ <? _)%nat; [|done]. destruct (ended_order q) as [|k0 ks] eqn:Eo; [done|].
    destruct Hq as (Q1 & Q2 & Q3). rewrite Eo in Q3. assert (k0 ∈ k :: over) as Hd by (apply Q3; by left).
    split_and!; cbn [creds ended_order].
    + intros k' id Hi Hn. rewrite lookup_delete_ne; [eauto|]. congruence.
    + intros k' c [Hne Hc]%lookup_delete_Some. eauto.
    + intros k' Hk'. apply Q3. by right.
  - split_and!.
    + intros k' id Hi [Hne Hn]%not_elem_of_cons. eauto.
    + intros k' c Hc. destruct (H2 k' c Hc) as (H4 & H5 & H6). split; [done|]. split.
      * intros He. destruct (H5 He). split; [by right|done].
      * intros He. apply not_elem_of_cons. split; [congruence|auto].
    + intros k' Hk'. right. auto.
Qed.

(** Changing only the connections of a credential. *)
Lemma conns_means iss over p k cr cs : creds_mean iss over p → creds p !! k = Some cr →
  (ended cr = true → cs = ∅) →
  creds_mean iss over (MkCreds (<[k := MkCredential (callID cr) (ended cr) cs]> (creds p)) (ended_order p)).
Proof.
  intros (H1 & H2 & H3) E Hcs. split_and!; cbn [creds ended_order]; [| |done].
  - intros k' id Hi Hn. destruct (H1 k' id Hi Hn) as [cs' Hc]. destruct (decide (k = k')) as [<-|Hne].
    + rewrite lookup_insert_eq. rewrite E in Hc. injection Hc as ->. cbn. eauto.
    + rewrite lookup_insert_ne by done. eauto.
  - intros k' c. rewrite lookup_insert_Some. intros [[<- <-]|[Hne Hc]]; [|by apply H2]. cbn.
    destruct (H2 k cr E) as (H4 & H5 & H6). split; [done|]. split; [|done].
    intros He. split; [by apply H5 | by apply Hcs].
Qed.

Lemma call_step_means iss over p o : creds_mean iss over p →
  (match o with OIssue k _ => k ∉ map fst iss ∧ k ∉ over | OEnd k => k ∈ map fst iss | _ => True end) →
  creds_mean (issued [o] ++ iss) (ends [o] ++ over) (call_step o p).
Proof.
  intros Hp Ho. destruct o as [k id|k|k c|k c]; cbn [call_step issued ends omap list_omap app].
  - destruct Ho. by apply Issue_means.
  - by apply End_means.
  - unfold bind. destruct (creds p !! k) as [cr|] eqn:E; [|done]. destruct (ended cr) eqn:Ee; [done|].
    cbn [snd]. rewrite <- Ee. apply conns_means; [done..|congruence].
  - unfold unbind. destruct (creds p !! k) as [cr|] eqn:E; [|done]. apply conns_means; [done..|].
    intros He. destruct Hp as (_ & H2 & _). destruct (H2 k cr E) as (_ & H5 & _). destruct (H5 He) as [_ ->].
    by rewrite difference_empty_L || set_solver.
Qed.

Lemma calls_mean ops : ∀ keys iss over p,
  creds_mean iss over p → (∀ k, k ∈ keys ↔ k ∈ map fst iss) → (∀ k, k ∈ over → k ∈ keys) →
  calls_wf keys ops →
  creds_mean (reverse (issued ops) ++ iss) (reverse (ends ops) ++ over) (foldl (λ p o, call_step o p) p ops).
Proof.
  induction ops as [|o ops IH]; intros keys iss over p Hp Hkeys Hdone Hwf; [done|]. cbn [foldl].
  assert (Hstep : match o with OIssue k _ => k ∉ map fst iss ∧ k ∉ over | OEnd k => k ∈ map fst iss | _ => True end).
  { destruct o; cbn in Hwf; [|apply Hkeys, Hwf|done|done]. destruct Hwf as [Hk _].
    split; [by rewrite <- Hkeys | intros ?%Hdone; done]. }
  pose proof (call_step_means iss over p o Hp Hstep) as Hn.
  change (o :: ops) with ([o] ++ ops)%list. unfold issued, ends in *. rewrite !omap_app, !reverse_app, <- !app_assoc.
  assert (Hr : ∀ A (f : call_op → option A), reverse (omap f [o]) = omap f [o]) by (intros A f; cbn; by destruct (f o)).
  rewrite !Hr. destruct o as [k id|k|k c|k c]; cbn in Hwf.
  - apply (IH (k :: keys)); [done| |intros x Hx; right; auto|apply Hwf].
    intros x. cbn. rewrite !elem_of_cons, Hkeys. done.
  - apply (IH keys); [done..| |apply Hwf]. intros x. cbn. rewrite elem_of_cons. intros [->|Hx]; [apply Hwf|auto].
  - by apply (IH keys).
  - by apply (IH keys).
Qed.

(** Whatever calls are issued, used and ended in whatever order, a token is taken
    for a call exactly when it was issued to that call and the call has not
    ended, also once so many calls have ended that the oldest are forgotten;
    and an ended call has no connection left. *)
Theorem authorized_exactly ops key id : calls_wf [] ops →
  (authorizeKey key (calls_after ops) = inr id ↔ (key, id) ∈ issued ops ∧ key ∉ ends ops) ∧
  (∀ cr, creds (calls_after ops) !! key = Some cr → key ∈ ends ops → conns cr = ∅).
Proof.
  intros Hwf. assert (creds_mean (issued ops) (ends ops) (calls_after ops)) as (H1 & H2 & _).
  { assert (H0 : creds_mean [] [] NoCreds).
    { split_and!; [by intros ? ? ?%elem_of_nil | intros k cr; cbn; by rewrite lookup_empty | by intros ? ?%elem_of_nil]. }
    pose proof (calls_mean ops [] [] [] NoCreds H0 ltac:(done) ltac:(done) Hwf) as (A & B & C).
    rewrite !app_nil_r in *. split_and!.
    - intros k i Hi Hd. apply A; by rewrite elem_of_reverse.
    - intros k cr Hc. destruct (B k cr Hc) as (B1 & B2 & B3). rewrite !elem_of_reverse in *. done.
    - intros k Hk. specialize (C k Hk). by rewrite elem_of_reverse in C. }
  split.
  - unfold authorizeKey. split.
    + destruct (creds (calls_after ops) !! key) as [cr|] eqn:E; [|done]. destruct (ended cr) eqn:Ee; [done|].
      intros [= <-]. destruct (H2 key cr E) as (H3 & _ & H4). auto.
    + intros [Hi Hd]. destruct (H1 key id Hi Hd) as [cs ->]. done.
  - intros cr E Hd. destruct (H2 key cr E) as (_ & H3 & H4). destruct (ended cr) eqn:Ee; [by apply H3|].
    by destruct (H4 eq_refl).
Qed.

Lemma authorized_exactly_witness :
  let ops := [OIssue "k1" "c1"; OIssue "k2" "c2"; OBind "k1" 7; OEnd "k1"; OBind "k1" 8] in
  authorizeKey "k2" (calls_after ops) = inr "c2" ∧ authorizeKey "k1" (calls_after ops) ≠ inr "c1".
Proof.
  cbv zeta. split.
  - apply (authorized_exactly [OIssue "k1" "c1"; OIssue "k2" "c2"; OBind "k1" 7; OEnd "k1"; OBind "k1" 8] "k2" "c2");
      cbn; repeat split; set_solver.
  - intros H. apply (authorized_exactly [OIssue "k1" "c1"; OIssue "k2" "c2"; OBind "k1" 7; OEnd "k1"; OBind "k1" 8] "k1" "c1") in H;
      [set_solver | cbn; repeat split; set_solver].
Defined.
