(* ===== verification/EgressSynth.v ===== *)
(** Synthetic addresses (src/internal/egress/synth.go): the in-sandbox resolver
    gives allowed names addresses of a range that is never routed, and the proxy
    reads an address back to its name. Entries are shared by the two maps and
    changed in place, so they live in a heap and the maps hold their places; the
    pool's mutex makes each operation one step at one time. *)

From Stdlib Require Import ZArith String Lia.
From stdpp Require Import base tactics list gmap strings.
From S2P Require Import Prelude.
From S2P Require Import AddrSpec.
From S2P Require Import GoNet.

#[local] Open Scope string_scope.
#[local] Open Scope Z_scope.

(** [SynthPrefix], 198.18.0.0/15, and the times of a mapping in nanoseconds. *)
Definition SynthPrefix : Prefix := MkPrefix (V4 (198 * 2 ^ 24 + 18 * 2 ^ 16)) 15.
Definition SynthTTL : Z := 30000000000.
Definition synthTTLSeconds : Z := 30.
Definition synthHold : Z := 300000000000.
Definition synthSize : Z := 2 ^ 17 - 2.

Record synthEntry : Type := MkSynthEntry { se_name : string; se_addr : Z; se_until : Z }.

(** IPv4 addresses by their number. *)
Record synthPool : Type := MkSynthPool {
  heap : gmap nat synthEntry;
  byName : gmap string nat;
  byAddr : gmap Z nat;
  next : Z;
  size : Z;
  hold_for : Z;
  fresh_at : nat
}.

Definition newSynthPool : synthPool := MkSynthPool ∅ ∅ ∅ 1 synthSize synthHold 0.

(** [offsetAddr]: a uint32 sum. *)
Definition offsetAddr (off : Z) : Z := (198 * 2 ^ 24 + 18 * 2 ^ 16 + off) mod 2 ^ 32.

Definition with_maps (h : gmap nat synthEntry) (n : gmap string nat) (a : gmap Z nat) (p : synthPool) : synthPool :=
  MkSynthPool h n a (next p) (size p) (hold_for p) (fresh_at p).
Definition with_next (n : Z) (p : synthPool) : synthPool :=
  MkSynthPool (heap p) (byName p) (byAddr p) n (size p) (hold_for p) (fresh_at p).
Definition with_fresh (n : nat) (p : synthPool) : synthPool :=
  MkSynthPool (heap p) (byName p) (byAddr p) (next p) (size p) (hold_for p) n.

(** [drop]: the maps let go of this entry, where they hold it. *)
Definition drop (i : nat) (p : synthPool) : synthPool :=
  match heap p !! i with
  | None => p
  | Some e =>
      with_maps (heap p)
        (if bool_decide (byName p !! se_name e = Some i) then delete (se_name e) (byName p) else byName p)
        (if bool_decide (byAddr p !! se_addr e = Some i) then delete (se_addr e) (byAddr p) else byAddr p) p
  end.

Definition expired (now : Z) (p : synthPool) (i : nat) : bool :=
  match heap p !! i with Some e => negb (now <? se_until e) | None => false end.

(** [sweep]: the expired entries of [byAddr] dropped, in the map's order. *)
Definition sweep (now : Z) (p : synthPool) : synthPool :=
  fold_left (λ p i, if expired now p i then drop i p else p) (map snd (map_to_list (byAddr p))) p.

(** A new mapping at [a], in place of what the name had. *)
Definition place (now : Z) (name : string) (a : Z) (p : synthPool) : synthPool :=
  let p := match byName p !! name with Some old => drop old p | None => p end in
  let i := fresh_at p in
  with_fresh (S i)
    (with_maps (<[i := MkSynthEntry name a (now + hold_for p)]> (heap p)) (<[name := i]> (byName p))
       (<[a := i]> (byAddr p)) p).

(** The loop over the pool's addresses, [tries] times. *)
Fixpoint assign_loop (tries : nat) (now : Z) (name : string) (p : synthPool) : option Z * synthPool :=
  match tries with
  | O => (None, p)
  | S tries =>
      let off := next p in
      let p := with_next (next p mod size p + 1) p in
      let a := offsetAddr off in
      match byAddr p !! a with
      | Some i =>
          if expired now p i then (Some a, place now name a (drop i p))
          else assign_loop tries now name p
      | None => (Some a, place now name a p)
      end
  end.

(** [assign]: the address, whether it is new, or [None] when every address is
    held. *)
Definition assign (now : Z) (name : string) (p : synthPool) : option (Z * bool) * synthPool :=
  let held := match byName p !! name with
              | Some i => match heap p !! i with
                          | Some e => if now <? se_until e then Some (i, e) else None
                          | None => None
                          end
              | None => None
              end in
  match held with
  | Some (i, e) =>
      (Some (se_addr e, false),
       with_maps (<[i := MkSynthEntry (se_name e) (se_addr e) (now + hold_for p)]> (heap p)) (byName p) (byAddr p) p)
  | None =>
      let full p := size p <=? Z.of_nat (map_size (byAddr p)) in
      let p := if full p then sweep now p else p in
      if full p then (None, p)
      else match assign_loop (Z.to_nat (size p)) now name p with
           | (Some a, p) => (Some (a, true), p)
           | (None, p) => (None, p)
           end
  end.

(** [lookup], of an address already unmapped. *)
Definition synth_lookup (now : Z) (a : Z) (p : synthPool) : option string * synthPool :=
  match byAddr p !! a with
  | None => (None, p)
  | Some i =>
      match heap p !! i with
      | None => (None, p)
      | Some e => if negb (now <? se_until e) then (None, drop i p) else (Some (se_name e), p)
      end
  end.

Example assigned_and_read :
  let '(r, p) := assign 0 "a.org" newSynthPool in
  r = Some (offsetAddr 1, true) ∧ fst (synth_lookup 5 (offsetAddr 1) p) = Some "a.org" ∧
  fst (synth_lookup synthHold (offsetAddr 1) p) = None ∧
  fst (assign 7 "b.org" p) = Some (offsetAddr 2, true).
Proof. vm_compute. done. Qed.

(** * Theorems

    Synthetic addresses are faithful: what the resolver gave a name is read back
    to that name and no other, and no live name loses its address. *)

(** ** What the pool promises *)

(** The name an address is read back to at a time. *)
Definition live (now : Z) (p : synthPool) (a : Z) : option string :=
  match byAddr p !! a with
  | None => None
  | Some i => match heap p !! i with
              | None => None
              | Some e => if now <? se_until e then Some (se_name e) else None
              end
  end.

Record pool_ok (p : synthPool) : Prop := MkPoolOk {
  ok_name : ∀ n i, byName p !! n = Some i →
    ∃ e, heap p !! i = Some e ∧ se_name e = n ∧ byAddr p !! se_addr e = Some i;
  ok_addr : ∀ a i, byAddr p !! a = Some i →
    ∃ e, heap p !! i = Some e ∧ se_addr e = a ∧ byName p !! se_name e = Some i;
  ok_heap : ∀ i e, heap p !! i = Some e → (i < fresh_at p)%nat;
  ok_range : ∀ a i, byAddr p !! a = Some i → ∃ off, 1 <= off <= size p ∧ a = offsetAddr off;
  ok_next : 1 <= next p <= size p;
  ok_size : size p <= synthSize;
  ok_hold : 0 < hold_for p
}.

Lemma newSynthPool_ok : pool_ok newSynthPool.
Proof.
  split; cbn; try (intros ? ?; rewrite lookup_empty; done); unfold synthSize, synthHold; lia.
Qed.

Lemma lookup_live now a p : fst (synth_lookup now a p) = live now p a.
Proof. unfold synth_lookup, live. destruct (byAddr p !! a); [|done]. destruct (heap p !! _); [|done]. by destruct (now <? _). Qed.

Lemma live_some now p a n : live now p a = Some n → ∃ i e,
  byAddr p !! a = Some i ∧ heap p !! i = Some e ∧ now < se_until e ∧ se_name e = n.
Proof.
  unfold live. destruct (byAddr p !! a) as [i|] eqn:E; [|done]. destruct (heap p !! i) as [e|] eqn:E2; [|done].
  destruct (Z.ltb_spec now (se_until e)); [|done]. intros [= <-]. eauto 10.
Qed.

(** What letting go of an entry leaves of the two maps. *)
Lemma drop_maps p i e : pool_ok p → heap p !! i = Some e →
  byName p !! se_name e = Some i ∧ byAddr p !! se_addr e = Some i ∧
    drop i p = with_maps (heap p) (delete (se_name e) (byName p)) (delete (se_addr e) (byAddr p)) p ∨
  (∀ n, byName p !! n ≠ Some i) ∧ (∀ a, byAddr p !! a ≠ Some i) ∧ drop i p = p.
Proof.
  intros Hp He. unfold drop. rewrite He. destruct (decide (byName p !! se_name e = Some i)) as [Hn|Hn].
  - left. destruct (ok_name p Hp _ _ Hn) as (e' & He' & _ & Ha). rewrite He in He'. injection He' as <-.
    by rewrite (bool_decide_eq_true_2 _ Hn), (bool_decide_eq_true_2 _ Ha).
  - right. assert (byAddr p !! se_addr e ≠ Some i) as Ha.
    { intros Ha. destruct (ok_addr p Hp _ _ Ha) as (e' & He' & _ & Hn'). rewrite He in He'. by injection He' as <-. }
    rewrite (bool_decide_eq_false_2 _ Hn), (bool_decide_eq_false_2 _ Ha). split_and!.
    + intros n Hc. destruct (ok_name p Hp _ _ Hc) as (e' & He' & <- & _). rewrite He in He'. by injection He' as <-.
    + intros a Hc. destruct (ok_addr p Hp _ _ Hc) as (e' & He' & <- & _). rewrite He in He'. by injection He' as <-.
    + by destruct p.
Qed.

Lemma drop_ok p i : pool_ok p → pool_ok (drop i p).
Proof.
  intros Hp. destruct (heap p !! i) as [e|] eqn:He; [|by unfold drop; rewrite He].
  destruct (drop_maps p i e Hp He) as [(Hn & Ha & ->)|(_ & _ & ->)]; [|done].
  split; cbn; try apply Hp.
  - intros n j [Hne Hj]%lookup_delete_Some. destruct (ok_name p Hp _ _ Hj) as (e' & He' & Hn' & Ha').
    exists e'. split_and!; [done..|]. rewrite lookup_delete_ne; [done|]. congruence.
  - intros a j [Hne Hj]%lookup_delete_Some. destruct (ok_addr p Hp _ _ Hj) as (e' & He' & Ha' & Hn').
    exists e'. split_and!; [done..|]. rewrite lookup_delete_ne; [done|]. congruence.
  - intros a j [_ Hj]%lookup_delete_Some. by apply (ok_range p Hp a j).
Qed.

Lemma drop_live now p i : pool_ok p → expired now p i = true → ∀ a, live now (drop i p) a = live now p a.
Proof.
  intros Hp Hx a. unfold expired in Hx. destruct (heap p !! i) as [e|] eqn:He; [|done].
  destruct (drop_maps p i e Hp He) as [(Hn & Ha & ->)|(_ & _ & ->)]; [|done].
  unfold live. cbn. destruct (decide (se_addr e = a)) as [<-|Hne].
  - rewrite lookup_delete_eq, Ha, He. by destruct (now <? se_until e).
  - by rewrite lookup_delete_ne.
Qed.

Lemma drop_heap i p : heap (drop i p) = heap p.
Proof. unfold drop. by destruct (heap p !! i). Qed.

Lemma drop_rest i p : size (drop i p) = size p ∧ hold_for (drop i p) = hold_for p ∧
  next (drop i p) = next p ∧ fresh_at (drop i p) = fresh_at p.
Proof. unfold drop. by destruct (heap p !! i). Qed.

Lemma drop_byAddr i p a j : pool_ok p → byAddr (drop i p) !! a = Some j → byAddr p !! a = Some j ∧ j ≠ i.
Proof.
  intros Hp. destruct (heap p !! i) as [e|] eqn:He.
  - destruct (drop_maps p i e Hp He) as [(Hn & Ha & ->)|(_ & Hno & ->)].
    + cbn. intros [Hne Hj]%lookup_delete_Some. split; [done|]. intros ->.
      destruct (ok_addr p Hp _ _ Hj) as (e' & He' & <- & _). rewrite He in He'. by injection He' as <-.
    + intros Hj. split; [done|]. intros ->. by apply (Hno a).
  - unfold drop. rewrite He. intros Hj. split; [done|]. intros ->.
    destruct (ok_addr p Hp _ _ Hj) as (e' & He' & _). congruence.
Qed.

Lemma drop_byName i p n j : pool_ok p → byName (drop i p) !! n = Some j → byName p !! n = Some j ∧ j ≠ i.
Proof.
  intros Hp. destruct (heap p !! i) as [e|] eqn:He.
  - destruct (drop_maps p i e Hp He) as [(Hn & Ha & ->)|(Hno & _ & ->)].
    + cbn. intros [Hne Hj]%lookup_delete_Some. split; [done|]. intros ->.
      destruct (ok_name p Hp _ _ Hj) as (e' & He' & <- & _). rewrite He in He'. by injection He' as <-.
    + intros Hj. split; [done|]. intros ->. by apply (Hno n).
  - unfold drop. rewrite He. intros Hj. split; [done|]. intros ->.
    destruct (ok_name p Hp _ _ Hj) as (e' & He' & _). congruence.
Qed.

(** Sweeping changes no name read and leaves only live entries. *)
Lemma sweep_go now l : ∀ p, pool_ok p →
  let q := fold_left (λ p i, if expired now p i then drop i p else p) l p in
  pool_ok q ∧ (∀ a, live now q a = live now p a) ∧ heap q = heap p ∧
  (size q = size p ∧ hold_for q = hold_for p ∧ next q = next p ∧ fresh_at q = fresh_at p) ∧
  (∀ a i, byAddr q !! a = Some i → byAddr p !! a = Some i ∧ (i ∈ l → expired now p i = false)) ∧
  (∀ n i, byName q !! n = Some i → byName p !! n = Some i).
Proof.
  induction l as [|i l IH]; intros p Hp; cbn [fold_left].
  - split_and!; try done. intros a j Hj. split; [done|]. by intros ?%elem_of_nil.
  - set (p1 := if expired now p i then drop i p else p).
    assert (pool_ok p1 ∧ (∀ a, live now p1 a = live now p a) ∧ heap p1 = heap p ∧
      (size p1 = size p ∧ hold_for p1 = hold_for p ∧ next p1 = next p ∧ fresh_at p1 = fresh_at p) ∧
      (∀ a j, byAddr p1 !! a = Some j → byAddr p !! a = Some j ∧ (j = i → expired now p j = false)) ∧
      (∀ n j, byName p1 !! n = Some j → byName p !! n = Some j)) as (H1 & H2 & H3 & H4 & H5 & H6).
    { unfold p1. destruct (expired now p i) eqn:Hx.
      - split_and!; [by apply drop_ok|by apply drop_live|apply drop_heap|apply drop_rest..| |].
        + intros a j [Hj Hne]%drop_byAddr; [|done]. split; [done|]. by intros ->.
        + intros n j [Hj Hne]%drop_byName; [|done]. done.
      - split_and!; try done. intros a j Hj. split; [done|]. by intros ->. }
    destruct (IH p1 H1) as (K1 & K2 & K3 & (K4 & K5 & K6 & K7) & K8 & K9). destruct H4 as (L4 & L5 & L6 & L7).
    split; [done|]. split; [|split; [congruence|split; [split_and!; congruence|split]]].
    + intros a. by rewrite K2.
    + intros a j Hj. destruct (K8 a j Hj) as [Hj1 Hl]. destruct (H5 a j Hj1) as [Hj2 Hi]. split; [done|].
      intros [->|Hin]%elem_of_cons; [by apply Hi|]. specialize (Hl Hin). unfold expired in *. by rewrite H3 in Hl.
    + intros n j Hj. by apply H6, K9.
Qed.

Lemma sweep_ok now p : pool_ok p → pool_ok (sweep now p).
Proof. intros Hp. by apply sweep_go. Qed.

Lemma sweep_live now p a : pool_ok p → live now (sweep now p) a = live now p a.
Proof. intros Hp. by apply (sweep_go now (map snd (map_to_list (byAddr p))) p Hp). Qed.

Lemma sweep_fresh now p a i : pool_ok p → byAddr (sweep now p) !! a = Some i → is_Some (live now (sweep now p) a).
Proof.
  intros Hp Hi. destruct (sweep_go now (map snd (map_to_list (byAddr p))) p Hp) as (Hq & _ & Hh & _ & Ha & _).
  destruct (Ha a i Hi) as [Hi0 Hx]. destruct (ok_addr _ Hq _ _ Hi) as (e & He & _ & _).
  unfold live. unfold sweep in *. rewrite Hi, He. unfold expired in Hx. rewrite Hh in He. rewrite He in Hx.
  rewrite negb_false_iff in Hx. rewrite Hx; [eauto|].
  apply list_elem_of_fmap. exists (a, i). split; [done|]. by apply elem_of_map_to_list.
Qed.

Lemma sweep_rest now p : pool_ok p → size (sweep now p) = size p ∧ hold_for (sweep now p) = hold_for p ∧
  next (sweep now p) = next p ∧ fresh_at (sweep now p) = fresh_at p.
Proof. intros Hp. by apply (sweep_go now (map snd (map_to_list (byAddr p))) p Hp). Qed.

Lemma sweep_byName now p n i : pool_ok p → byName (sweep now p) !! n = Some i →
  byName p !! n = Some i ∧ heap (sweep now p) = heap p.
Proof.
  intros Hp Hi. destruct (sweep_go now (map snd (map_to_list (byAddr p))) p Hp) as (_ & _ & Hh & _ & _ & Hn). auto.
Qed.

(** The name has no live mapping. *)
Definition unheld (now : Z) (name : string) (p : synthPool) : Prop :=
  ∀ i, byName p !! name = Some i → expired now p i = true.

(** A new mapping at a free address of the pool. *)
Lemma place_spec now name off p : pool_ok p → unheld now name p → 1 <= off <= size p →
  byAddr p !! offsetAddr off = None →
  let q := place now name (offsetAddr off) p in
  pool_ok q ∧ live now q (offsetAddr off) = Some name ∧ (∀ b, b ≠ offsetAddr off → live now q b = live now p b).
Proof.
  intros Hp Hu Hoff Hfree. cbv zeta. unfold place.
  set (p1 := match byName p !! name with Some old => drop old p | None => p end).
  assert (pool_ok p1 ∧ (∀ a, live now p1 a = live now p a) ∧ byName p1 !! name = None ∧
    byAddr p1 !! offsetAddr off = None ∧ size p1 = size p) as (H1 & H2 & H3 & H4 & H5).
  { unfold p1. destruct (byName p !! name) as [old|] eqn:E; [|by split_and!].
    split_and!; [by apply drop_ok|by apply drop_live; [|apply Hu]| | |apply drop_rest].
    - destruct (byName (drop old p) !! name) as [j|] eqn:Ej; [|done].
      apply drop_byName in Ej as [Ej Hne]; [|done]. congruence.
    - destruct (byAddr (drop old p) !! offsetAddr off) as [j|] eqn:Ej; [|done].
      apply drop_byAddr in Ej as [Ej Hne]; [|done]. congruence. }
  clearbody p1. set (a := offsetAddr off) in *. set (i := fresh_at p1).
  assert (heap p1 !! i = None) as Hi.
  { destruct (heap p1 !! i) as [e|] eqn:E; [|done]. apply (ok_heap p1 H1) in E. unfold i in E. lia. }
  assert (Hold : ∀ j e, heap p1 !! j = Some e → j ≠ i) by (intros j e Hj ->; congruence).
  split; [|split].
  - split; cbn [with_fresh with_maps heap byName byAddr next size hold_for fresh_at]; try apply H1.
    + intros n j. rewrite lookup_insert_Some. intros [[<- <-]|[Hne Hj]].
      * eexists. rewrite lookup_insert_eq. split; [done|]. cbn. split; [done|]. by rewrite lookup_insert_eq.
      * destruct (ok_name p1 H1 _ _ Hj) as (e & He & Hn & Ha). exists e.
        rewrite lookup_insert_ne by (apply not_eq_sym; eauto). split_and!; [done..|].
        rewrite lookup_insert_ne; [done|]. intros Hc. rewrite <- Hc in Ha. congruence.
    + intros b j. rewrite lookup_insert_Some. intros [[<- <-]|[Hne Hj]].
      * eexists. rewrite lookup_insert_eq. split; [done|]. cbn. split; [done|]. by rewrite lookup_insert_eq.
      * destruct (ok_addr p1 H1 _ _ Hj) as (e & He & Hb & Hn). exists e.
        rewrite lookup_insert_ne by (apply not_eq_sym; eauto). split_and!; [done..|].
        rewrite lookup_insert_ne; [done|]. intros Hc. rewrite <- Hc in Hn. congruence.
    + intros j e. rewrite lookup_insert_Some. intros [[<- _]|[_ He]]; [unfold i; lia|].
      apply (ok_heap p1 H1) in He. lia.
    + intros b j. rewrite lookup_insert_Some. intros [[<- <-]|[_ Hj]].
      * exists off. rewrite H5. done.
      * by apply (ok_range p1 H1 b j).
  - unfold live. cbn. rewrite !lookup_insert_eq. cbn. pose proof (ok_hold p1 H1).
    by destruct (Z.ltb_spec now (now + hold_for p1)); [|lia].
  - intros b Hb. rewrite <- H2. unfold live. cbn. rewrite lookup_insert_ne by done.
    destruct (byAddr p1 !! b) as [j|] eqn:Ej; [|done]. destruct (ok_addr p1 H1 _ _ Ej) as (e & He & _).
    rewrite lookup_insert_ne by (apply not_eq_sym; eauto). done.
Qed.

Lemma with_next_ok n p : pool_ok p → 1 <= n <= size p → pool_ok (with_next n p).
Proof. intros [] Hn. by split. Qed.

(** The place of the pool's round [k] steps ahead. *)
Definition ahead (p : synthPool) (k : Z) : Z := (next p - 1 + k) mod size p + 1.

Lemma ahead_next p k : 1 <= next p <= size p → 0 <= k →
  ahead (with_next (next p mod size p + 1) p) k = ahead p (k + 1).
Proof.
  intros Hn Hk. unfold ahead. cbn. f_equal.
  replace (next p mod size p + 1 - 1 + k) with (next p mod size p + k) by lia.
  rewrite Z.add_mod_idemp_l by lia. f_equal. lia.
Qed.

Lemma assign_loop_spec tries now name : ∀ p, pool_ok p → unheld now name p →
  match assign_loop tries now name p with
  | (Some a, q) => pool_ok q ∧ live now q a = Some name ∧ live now p a = None ∧
      (∃ off, 1 <= off <= size p ∧ a = offsetAddr off) ∧ ∀ b, b ≠ a → live now q b = live now p b
  | (None, q) => pool_ok q ∧ (∀ b, live now q b = live now p b) ∧
      ∀ k, 0 <= k < Z.of_nat tries → is_Some (live now p (offsetAddr (ahead p k)))
  end.
Proof.
  induction tries as [|tries IH]; intros p Hp Hu; cbn [assign_loop].
  { split_and!; [done..|]. intros k Hk. lia. }
  pose proof (ok_next p Hp) as Hnext. pose proof (Z.mod_pos_bound (next p) (size p) ltac:(lia)) as Hmod.
  set (p1 := with_next (next p mod size p + 1) p).
  assert (pool_ok p1) as H1 by (apply with_next_ok; [done|lia]).
  assert (unheld now name p1) as Hu1 by done.
  change (byAddr p1) with (byAddr p). destruct (byAddr p !! offsetAddr (next p)) as [i|] eqn:Ei.
  - destruct (expired now p1 i) eqn:Hx.
    + assert (Hd : byAddr (drop i p1) !! offsetAddr (next p) = None).
      { destruct (byAddr (drop i p1) !! offsetAddr (next p)) as [j|] eqn:Ej; [|done].
        apply drop_byAddr in Ej as [Ej Hne]; [|done]. cbn in Ej. congruence. }
      assert (Hud : unheld now name (drop i p1)).
      { intros j [Hj _]%drop_byName; [|done]. unfold expired. rewrite drop_heap. by apply Hu1. }
      destruct (drop_rest i p1) as (Hs & _).
      destruct (place_spec now name (next p) (drop i p1) (drop_ok p1 i H1) Hud) as (K1 & K2 & K3);
        [rewrite Hs; cbn; lia | done |].
      split_and!; [done|done| |by exists (next p)|].
      * unfold live. rewrite Ei. unfold expired in Hx. cbn in Hx. destruct (heap p !! i); [|done].
        by destruct (now <? _).
      * intros b Hb. rewrite K3, drop_live by done. done.
    + specialize (IH p1 H1 Hu1). destruct (assign_loop tries now name p1) as [[a|] q].
      * destruct IH as (K1 & K2 & K3 & K4 & K5). by split_and!.
      * destruct IH as (K1 & K2 & K3). split_and!; [done..|]. intros k Hk.
        destruct (Z.eq_dec k 0) as [->|Hk0].
        -- unfold ahead. rewrite Z.add_0_r, Z.mod_small by lia. rewrite Z.sub_add.
           destruct (ok_addr p Hp _ _ Ei) as (e & He & _). unfold live. rewrite Ei, He.
           unfold expired in Hx. cbn in Hx. rewrite He in Hx. rewrite negb_false_iff in Hx. rewrite Hx. eauto.
        -- specialize (K3 (k - 1) ltac:(lia)). unfold p1 in K3. rewrite ahead_next in K3 by lia.
           by replace (k - 1 + 1) with k in K3 by lia.
  - destruct (place_spec now name (next p) p1 H1 Hu1) as (K1 & K2 & K3); [cbn; lia|done|].
    split_and!; [done|done| |by exists (next p)|done]. unfold live. by rewrite Ei.
Qed.

Lemma offsetAddr_small off : 1 <= off <= synthSize → offsetAddr off = 198 * 2 ^ 24 + 18 * 2 ^ 16 + off.
Proof. unfold offsetAddr, synthSize. intros H. apply Z.mod_small. lia. Qed.

Lemma offsetAddr_in_prefix off : 1 <= off <= synthSize → PrefixContains SynthPrefix (V4 (offsetAddr off)) = true.
Proof.
  intros H. rewrite offsetAddr_small by done. unfold synthSize in H. unfold PrefixContains, SynthPrefix.
  cbn [pf_addr pf_bits]. rewrite contains_interval by done. apply andb_true_iff.
  rewrite Z.leb_le, Z.ltb_lt. lia.
Qed.

Lemma list_set_size (l : list Z) : (base.size (list_to_set (C := gset Z) l) <= length l)%nat.
Proof.
  induction l as [|x l IH]; [done|]. cbn [list_to_set length]. rewrite size_union_alt, size_singleton.
  assert (base.size (list_to_set (C := gset Z) l ∖ {[x]}) <= base.size (list_to_set (C := gset Z) l))%nat
    by (apply subseteq_size; set_solver). lia.
Qed.

(** A full pool that was swept holds a live mapping at each of its addresses. *)
Lemma full_pool p : pool_ok p → size p <= Z.of_nat (map_size (byAddr p)) →
  ∀ off, 1 <= off <= size p → is_Some (byAddr p !! offsetAddr off).
Proof.
  intros Hp Hfull off Hoff. pose proof (ok_size p Hp) as Hs.
  set (all := list_to_set (C := gset Z) (map (λ k, offsetAddr (Z.of_nat k + 1)) (seq 0 (Z.to_nat (size p))))).
  assert (Hall : ∀ o, 1 <= o <= size p → offsetAddr o ∈ all).
  { intros o Ho. apply elem_of_list_to_set, list_elem_of_fmap. exists (Z.to_nat (o - 1)). split.
    - f_equal. lia.
    - apply elem_of_seq. lia. }
  assert (Hsub : dom (byAddr p) ⊆ all).
  { intros a [i Hi]%elem_of_dom. destruct (ok_range p Hp a i Hi) as (o & Ho & ->). by apply Hall. }
  assert (base.size all <= base.size (dom (byAddr p)))%nat as Hle.
  { rewrite size_dom. etransitivity; [apply list_set_size|]. rewrite length_map, length_seq.
    change (base.size (byAddr p)) with (map_size (byAddr p)). lia. }
  assert (dom (byAddr p) ≡ all) as Heq by (by apply set_subseteq_size_equiv).
  apply elem_of_dom. rewrite Heq. by apply Hall.
Qed.

Definition held_elsewhere (now : Z) (name : string) (p : synthPool) (a : Z) : Prop :=
  ∃ n, live now p a = Some n ∧ n ≠ name.

Lemma unheld_live now name p a : pool_ok p → unheld now name p → live now p a ≠ Some name.
Proof.
  intros Hp Hu (i & e & Hi & He & Hlt & Hn)%live_some.
  destruct (ok_addr p Hp _ _ Hi) as (e' & He' & _ & Hb). rewrite He in He'. injection He' as <-.
  rewrite Hn in Hb. specialize (Hu i Hb). unfold expired in Hu. rewrite He in Hu.
  by rewrite (proj2 (Z.ltb_lt _ _) Hlt) in Hu.
Qed.

Lemma ahead_onto p off : 1 <= next p <= size p → 1 <= off <= size p →
  ∃ k, 0 <= k < size p ∧ ahead p k = off.
Proof.
  intros Hn Ho. exists ((off - next p) mod size p). split; [apply Z.mod_pos_bound; lia|].
  unfold ahead. rewrite Z.add_mod_idemp_r by lia. replace (next p - 1 + (off - next p)) with (off - 1) by lia.
  rewrite Z.mod_small by lia. lia.
Qed.

Lemma assign_new now name p : pool_ok p → unheld now name p →
  match assign_loop (Z.to_nat (size p)) now name p with
  | (Some a, q) => pool_ok q ∧ live now q a = Some name ∧ live now p a = None ∧
      (∃ off, 1 <= off <= size p ∧ a = offsetAddr off) ∧ ∀ b, b ≠ a → live now q b = live now p b
  | (None, q) => pool_ok q ∧ (∀ b, live now q b = live now p b) ∧
      ∀ off, 1 <= off <= size p → held_elsewhere now name p (offsetAddr off)
  end.
Proof.
  intros Hp Hu. pose proof (assign_loop_spec (Z.to_nat (size p)) now name p Hp Hu) as H.
  destruct (assign_loop _ now name p) as [[a|] q]; [done|]. destruct H as (H1 & H2 & H3). split_and!; [done..|].
  intros off Hoff. pose proof (ok_next p Hp). destruct (ahead_onto p off) as (k & Hk & <-); [lia|lia|].
  destruct (H3 k ltac:(lia)) as [n Hn]. exists n. split; [done|]. intros ->. by apply (unheld_live now name p _ Hp Hu) in Hn.
Qed.

Definition synth_assigned (now : Z) (name : string) (p : synthPool) (r : option (Z * bool) * synthPool) : Prop :=
  pool_ok (snd r) ∧
  match fst r with
  | Some (a, is_new) =>
      live now (snd r) a = Some name ∧ (∀ b, b ≠ a → live now (snd r) b = live now p b) ∧
      live now p a = (if is_new then None else Some name) ∧
      PrefixContains SynthPrefix (V4 a) = true
  | None =>
      (∀ b, live now (snd r) b = live now p b) ∧
      ∀ off, 1 <= off <= size p → held_elsewhere now name p (offsetAddr off)
  end.

Lemma assign_spec now name p : pool_ok p → synth_assigned now name p (assign now name p).
Proof.
  intros Hp. unfold assign.
  destruct (match byName p !! name with Some i => _ | None => None end) as [[i e]|] eqn:Eh.
  - destruct (byName p !! name) as [i'|] eqn:En; [|done]. destruct (heap p !! i') as [e'|] eqn:Ee; [|done].
    destruct (Z.ltb_spec now (se_until e')) as [Hlt|]; [|done]. injection Eh as -> ->.
    destruct (ok_name p Hp _ _ En) as (e1 & He1 & Hname & Ha). rewrite Ee in He1. injection He1 as <-.
    set (q := with_maps _ _ _ p). pose proof (ok_hold p Hp) as Hh.
    assert (Hq : pool_ok q).
    { split; cbn [q with_maps heap byName byAddr next size hold_for fresh_at]; try apply Hp.
      - intros n j Hj. destruct (ok_name p Hp _ _ Hj) as (e2 & He2 & Hn2 & Ha2). destruct (decide (i = j)) as [<-|Hne].
        + rewrite Ee in He2. injection He2 as <-. eexists. rewrite lookup_insert_eq. by split_and!.
        + exists e2. by rewrite lookup_insert_ne.
      - intros a j Hj. destruct (ok_addr p Hp _ _ Hj) as (e2 & He2 & Hn2 & Ha2). destruct (decide (i = j)) as [<-|Hne].
        + rewrite Ee in He2. injection He2 as <-. eexists. rewrite lookup_insert_eq. by split_and!.
        + exists e2. by rewrite lookup_insert_ne.
      - intros j e2. rewrite lookup_insert_Some. intros [[<- _]|[_ He2]]; by eapply ok_heap. }
    split; [done|]. cbn [fst snd]. split_and!.
    + unfold live. cbn. rewrite Ha, lookup_insert_eq. cbn. destruct (Z.ltb_spec now (now + hold_for p)); [by rewrite Hname|lia].
    + intros b Hb. unfold live. cbn. destruct (byAddr p !! b) as [j|] eqn:Ej; [|done].
      rewrite lookup_insert_ne; [done|]. intros <-. destruct (ok_addr p Hp _ _ Ej) as (e2 & He2 & Hb2 & _).
      rewrite Ee in He2. injection He2 as <-. done.
    + unfold live. rewrite Ha, Ee, (proj2 (Z.ltb_lt _ _) Hlt). by rewrite Hname.
    + destruct (ok_range p Hp _ _ Ha) as (off & Hoff & ->). apply offsetAddr_in_prefix.
      pose proof (ok_size p Hp). lia.
  - assert (Hu : unheld now name p).
    { intros i Hi. rewrite Hi in Eh. unfold expired. destruct (ok_name p Hp _ _ Hi) as (e & He & _). rewrite He in *.
      destruct (now <? se_until e); [done|]. done. }
    cbv zeta. set (full := λ p, size p <=? Z.of_nat (map_size (byAddr p))).
    set (p1 := if full p then sweep now p else p).
    assert (pool_ok p1 ∧ unheld now name p1 ∧ (∀ a, live now p1 a = live now p a) ∧ size p1 = size p) as (H1 & H2 & H3 & H4).
    { unfold p1. destruct (full p); [|by split_and!]. split_and!; [by apply sweep_ok| |by intros; apply sweep_live|by apply sweep_rest].
      intros i [Hi Hh]%sweep_byName; [|done]. unfold expired. rewrite Hh. by apply Hu. }
    change (synth_assigned now name p (if full p1 then (None, p1) else
      match assign_loop (Z.to_nat (size p1)) now name p1 with
      | (Some a, q) => (Some (a, true), q) | (None, q) => (None, q) end)).
    destruct (full p1) eqn:Ef.
    + split; [done|]. cbn [fst snd]. split; [done|]. intros off Hoff. rewrite <- H4 in Hoff.
      unfold full in Ef. apply Z.leb_le in Ef. destruct (full_pool p1 H1 Ef off Hoff) as [i Hi].
      assert (is_Some (live now p1 (offsetAddr off))) as [n Hn].
      { unfold p1 in *. destruct (full p) eqn:Ep; [by eapply sweep_fresh|].
        unfold full in Ep. apply Z.leb_gt in Ep. lia. }
      exists n. rewrite <- H3. split; [done|]. intros ->. by apply (unheld_live now name p1 _ H1 H2) in Hn.
    + pose proof (assign_new now name p1 H1 H2) as Ha. 
      destruct (assign_loop _ now name p1) as [[a|] q].
      * destruct Ha as (K1 & K2 & K3 & (off & Hoff & ->) & K5). split; [done|]. cbn [fst snd]. split_and!; [done| | |].
        -- intros b Hb. by rewrite K5, H3.
        -- by rewrite <- H3.
        -- apply offsetAddr_in_prefix. pose proof (ok_size p1 H1). lia.
      * destruct Ha as (K1 & K2 & K3). split; [done|]. cbn [fst snd]. split; [intros b; by rewrite K2|].
        intros off Hoff. rewrite <- H4 in Hoff. destruct (K3 off Hoff) as (n & Hn & Hne). exists n. by rewrite <- H3.
Qed.

(** A session's lookups of names and reads of addresses. *)
Inductive synth_op : Type := SAssign (now : Z) (name : string) | SLookup (now : Z) (a : Z).

Definition synth_step (o : synth_op) (p : synthPool) : synthPool :=
  match o with
  | SAssign now name => snd (assign now name p)
  | SLookup now a => snd (synth_lookup now a p)
  end.
Definition pool_after (ops : list synth_op) : synthPool := foldl (λ p o, synth_step o p) newSynthPool ops.

Lemma synth_step_ok o p : pool_ok p → pool_ok (synth_step o p).
Proof.
  intros Hp. destruct o as [now name|now a]; cbn [synth_step]; [by apply assign_spec|].
  unfold synth_lookup. destruct (byAddr p !! a) as [i|]; [|done]. destruct (heap p !! i); [|done].
  destruct (now <? _); [done | by apply drop_ok].
Qed.

Lemma pool_after_ok ops : pool_ok (pool_after ops).
Proof.
  unfold pool_after. generalize newSynthPool_ok. generalize newSynthPool.
  induction ops as [|o ops IH]; intros p Hp; [done|]. cbn [foldl]. by apply IH, synth_step_ok.
Qed.

(** After any lookups and reads at any times: giving a name an address makes
    that address, one of the synthetic range, read back to that name and leaves
    every other address reading back as before; the address was free or already
    the name's, so no live name ever loses its address to another; and a name is
    refused an address only when every address of the pool is live for another. *)
Theorem synthetic_addresses_faithful ops now name :
  let p := pool_after ops in synth_assigned now name p (assign now name p).
Proof. apply assign_spec, pool_after_ok. Qed.
