(* ===== verification/EgressDns.v ===== *)
(** The in-sandbox resolver (src/internal/egress/dns.go): queries and replies as
    bytes, and what a query of a command is answered. A lookup changes only the
    pool of synthetic addresses and adds events to the record. *)

From Stdlib Require Import ZArith NArith Ascii String Lia Bool.
From stdpp Require Import base tactics list gmap strings.
From S2P Require Import Prelude.
From S2P Require Import GoStd.
From S2P Require Import Errors.
From S2P Require Import GoNet.
From S2P Require Import GoBinary.
From S2P Require Import WsFrame.
From S2P Require Import Egress.
From S2P Require Import EgressRecord.
From S2P Require Import EgressCalls.
From S2P Require Import EgressSynth.

#[local] Open Scope string_scope.
#[local] Open Scope Z_scope.

(** ** Messages *)

Definition dnsTypeA : N := 1.
Definition dnsTypeAAAA : N := 28.
Definition dnsTypeANY : N := 255.
Definition dnsClassIN : N := 1.

Definition rcodeOK : N := 0.
Definition rcodeFormErr : N := 1.
Definition rcodeServFail : N := 2.
Definition rcodeNXDomain : N := 3.
Definition rcodeNotImp : N := 4.
Definition rcodeRefused : N := 5.

Definition maxDNSMessage : Z := 4096.
Definition maxCredential : Z := 512.
Definition maxDNSInFlight : Z := 64.

(** [dnsQuery]; no question is [None]. *)
Record dnsQuery : Type := MkQuery {
  q_id : N; q_flags : N; q_name : string; q_type : N; q_class : N; q_question : option string
}.

(** The 16-bit field at [i]. *)
Definition u16_at (m : string) (i : nat) : N := be_of (str_take 2 (str_drop i m)).

(** A label with a space, a control, a dot or a byte outside ASCII is not plain. *)
Definition plain_label (l : string) : bool :=
  str_forall (λ c, negb ((bv c <=? 32)%N || (127 <=? bv c)%N || (c =c "."%char))) l.

(** The labels of a name that starts at the front of [m], with [used] bytes of
    it before: the labels, the bytes they and the last zero take; [None] when it
    is malformed. *)
Fixpoint read_labels (fuel : nat) (used : nat) (m : string) : option (list string * nat) :=
  match fuel with
  | O => None
  | S fuel =>
      match m with
      | "" => None
      | String c rest =>
          let n := N.to_nat (bv c) in
          if (n =? 0)%nat then Some ([], S used)
          else if (63 <? n)%nat || (String.length m <? 1 + n)%nat || (254 <? used + 1 + n)%nat then None
          else match read_labels fuel (used + 1 + n) (str_drop n rest) with
               | None => None
               | Some (ls, k) => Some (ToLower (str_take n rest) :: ls, k)
               end
      end
  end.

(** [parseQuery]: [None] is [errNotQuery]. The name is at most 255 bytes, so
    256 turns are enough. *)
Definition parseQuery (m : string) : option (dnsQuery * N) :=
  if (String.length m <? 12)%nat then None
  else
    let id := u16_at m 0 in
    let flags := u16_at m 2 in
    let bare := MkQuery id flags "" 0 0 None in
    if negb (N.land flags 32768 =? 0)%N then None
    else if negb (N.land (N.shiftr flags 11) 15 =? 0)%N then Some (bare, rcodeNotImp)
    else if negb (u16_at m 4 =? 1)%N then Some (bare, rcodeFormErr)
    else match read_labels 256 0 (str_drop 12 m) with
         | None => Some (bare, rcodeFormErr)
         | Some (labels, k) =>
             let i := (12 + k)%nat in
             if (String.length m <? i + 4)%nat then Some (bare, rcodeFormErr)
             else Some (MkQuery id flags (if forallb plain_label labels then Join labels "." else "")
                          (u16_at m i) (u16_at m (i + 2)) (Some (str_take (k + 4) (str_drop 12 m))), rcodeOK)
         end.

(** The bytes of an address, [Addr.AsSlice]. *)
Definition addr_bytes (a : Addr) : string :=
  match a with
  | V4 n => be_bytes 4 (Z.to_N n)
  | V6 n _ => be_bytes 16 (Z.to_N n)
  | NoAddr => ""
  end.

Definition is6 (a : Addr) : bool := match a with V6 _ _ => true | _ => false end.

Definition answer_bytes (ttl : N) (a : Addr) : string :=
  String (byte_of 192) (String (byte_of 12) "") ++
  be_bytes 2 (if is6 a then dnsTypeAAAA else dnsTypeA) ++ be_bytes 2 dnsClassIN ++
  be_bytes 4 (N.min ttl (Z.to_N synthTTLSeconds)) ++
  be_bytes 2 (N.of_nat (String.length (addr_bytes a))) ++ addr_bytes a.

(** [dnsReply]. *)
Definition dnsReply (q : dnsQuery) (rcode : N) (answers : list Addr) (ttl : N) : string :=
  let flags := N.lor (N.lor (N.lor (N.lor 32768 (N.land (q_flags q) 30976)) 1024) 128) (N.land rcode 15) in
  be_bytes 2 (q_id q) ++ be_bytes 2 flags ++
  be_bytes 2 (match q_question q with Some _ => 1 | None => 0 end) ++
  be_bytes 2 (N.of_nat (length answers)) ++ be_bytes 4 0 ++
  default "" (q_question q) ++
  String.concat "" (map (answer_bytes ttl) answers).

(** [pick]. *)
Definition pick (qtype : N) (v4 v6 : Addr) : list Addr :=
  if (qtype =? dnsTypeA)%N || (qtype =? dnsTypeANY)%N then [v4]
  else if (qtype =? dnsTypeAAAA)%N && IsValid v6 then [v6]
  else [].

(** ** Answers *)

Definition dns_event (call host : string) (d : Decision) (rule reason ip : string) : Event :=
  MkEvent call "dns" host 0 ip "" "" d rule reason 0 0 "" "" "" 0.

Definition localhost_v4 : Addr := V4 (127 * 2 ^ 24 + 1).
Definition localhost_v6 : Addr := V6 1 "".

Section resolver.
Context (ParseAddr : string → option Addr) (AddrString : Addr → string).
Context (p_policy : Policy).

(** [answerDNS]: the reply, if any, what is recorded, and the pool after it. *)
Definition answerDNS (now : Z) (call : string) (m : string) (pool : synthPool)
    : option string * list Event * synthPool :=
  match parseQuery m with
  | None => (None, [], pool)
  | Some (q, rc) =>
      if negb (rc =? rcodeOK)%N then (Some (dnsReply q rc [] 0), [], pool)
      else
        let refuse (host : string) (rcode : N) (rule why : string) (pool : synthPool) :=
          (Some (dnsReply q rcode [] 0), [dns_event call host Deny rule why ""], pool) in
        let ttl := Z.to_N synthTTLSeconds in
        let name := q_name q in
        if String.eqb name "" then
          refuse "(not a plain name)" rcodeNXDomain "dns" "the name has a label that is not plain" pool
        else if negb (q_class q =? dnsClassIN)%N then
          refuse name rcodeRefused "dns" "only class IN is answered" pool
        else if String.eqb name "localhost" || HasSuffix name ".localhost" then
          (Some (dnsReply q rcodeOK (pick (q_type q) localhost_v4 localhost_v6) ttl), [], pool)
        else
          match CanonicalHost ParseAddr AddrString name with
          | Fail _ => refuse name rcodeNXDomain "dns" "not a host name a rule could name" pool
          | Ok canonical =>
              if negb (String.eqb canonical name) then
                refuse name rcodeNXDomain "dns" "not a host name a rule could name" pool
              else if opt_some (ParseAddr name) then
                refuse name rcodeNXDomain "dns" "an address is not looked up" pool
              else
                let v := DecideName p_policy name in
                if negb (Allowed v) then refuse name rcodeNXDomain (vd_Rule v) (vd_Reason v) pool
                else
                  match assign now name pool with
                  | (None, pool) =>
                      refuse name rcodeServFail "dns" "every synthetic address of this session is in use" pool
                  | (Some (a, is_new), pool) =>
                      (Some (dnsReply q rcodeOK (pick (q_type q) (V4 a) NoAddr) ttl),
                       (if is_new || negb (bool_decide (vd_Decision v = Allow))
                        then [dns_event call name (vd_Decision v) (vd_Rule v) (vd_Reason v) (AddrString (V4 a))]
                        else []), pool)
                  end
          end
  end.

(** [readFrame] and [writeFrame] of dns.go: a two-byte length before a message. *)
Definition read_message (limit : Z) : reader string :=
  read_bind (ReadFull 2) (λ n,
    let size := Z.of_N (be_of n) in
    if limit <? size then read_fail (BadMessage ("a " ++ Itoa size ++ "-byte message is over " ++ Itoa limit))
    else ReadFull size).

Definition write_message (b : string) : option string :=
  if 65535 <? str_len b then None else Some (be_bytes 2 (N.of_nat (String.length b)) ++ b).

Context (sha256 : string → string) (DecodeBase64 : string → option string) (TrimSpace : string → string).

(** [handleDNS]: one exchange on the resolver's socket. [slot] is whether one of
    its slots was free; the result is what is written back. *)
Definition handleDNS (slot : bool) (now : Z) (c : stream) (p : Creds) (pool : synthPool)
    : option string * list Event * synthPool :=
  if negb slot then
    (None, [dns_event "" "" Deny "cap" ("refused before it was read: " ++ Itoa maxDNSInFlight ++
      " lookups are in flight, the most one session's resolver serves") ""], pool)
  else
    match read_message maxCredential c with
    | (inl _, _) => (None, [], pool)
    | (inr cred, c) =>
        match read_message maxDNSMessage c with
        | (inl _, _) => (None, [], pool)
        | (inr m, _) =>
            match fst (authorize sha256 DecodeBase64 TrimSpace cred p) with
            | inl (call, e) =>
                (match parseQuery m with
                 | None => None
                 | Some (q, _) => write_message (dnsReply q rcodeRefused [] 0)
                 end, [dns_event call "" Deny "auth" (auth_error_text e) ""], pool)
            | inr call =>
                let '(out, evs, pool) := answerDNS now call m pool in
                (match out with None => None | Some b => write_message b end, evs, pool)
            end
        end
    end.
End resolver.

Definition test_query (labels : list string) : string :=
  be_bytes 2 7 ++ be_bytes 2 256 ++ be_bytes 2 1 ++ be_bytes 6 0 ++
  String.concat "" (map (λ l, String (byte_of (N.of_nat (String.length l))) l) labels) ++
  String zero "" ++ be_bytes 2 dnsTypeA ++ be_bytes 2 dnsClassIN.

Example query_read : option_map (λ x, (q_id (fst x), q_name (fst x), snd x)) (parseQuery (test_query ["Api"; "example"; "org"]))
  = Some (7%N, "api.example.org", rcodeOK).
Proof. vm_compute. reflexivity. Qed.

(** A label outside ASCII whose lower case is an ASCII letter, as the Kelvin
    sign's is, is taken for the plain label of that letter. *)
Example kelvin_label_is_plain :
  let kelvin := of_bytes ["226"%char; "132"%char; "170"%char] in
  option_map (λ x, q_name (fst x)) (parseQuery (test_query [kelvin; "org"])) = Some "k.org".
Proof. vm_compute. reflexivity. Qed.

(** * Theorems

    Queries are read exactly as they are written, and the resolver gives an
    address only to a name the policy lets be looked up. *)

#[local] Arguments String.append : simpl nomatch.

(** ** The form of a query *)

(** A name: each label behind its length, and a zero. *)
Fixpoint dns_name (labels : list string) : string :=
  match labels with
  | [] => String zero ""
  | l :: ls => String (byte_of (N.of_nat (String.length l))) l ++ dns_name ls
  end.

Definition labels_ok (labels : list string) : Prop :=
  Forall (λ l, (1 <= String.length l <= 63)%nat) labels.

(** Labels of at most 254 bytes with their lengths. *)
Definition name_bytes (labels : list string) : nat := foldr (λ l n, (1 + String.length l + n)%nat) 0%nat labels.

Definition query_bytes (id flags : N) (counts : string) (labels : list string) (qtype qclass : N) (rest : string) : string :=
  be_bytes 2 id ++ be_bytes 2 flags ++ be_bytes 2 1 ++ counts ++ dns_name labels ++
  be_bytes 2 qtype ++ be_bytes 2 qclass ++ rest.

Lemma dns_name_length labels : String.length (dns_name labels) = S (name_bytes labels).
Proof.
  induction labels as [|l ls IH]; [done|]. cbn [dns_name name_bytes foldr String.append String.length].
  rewrite str_length_app, IH. unfold name_bytes. lia.
Qed.

Lemma byte_of_small n : (n < 256)%N → bv (byte_of n) = n.
Proof. intros H. rewrite bv_byte_of. by apply N.mod_small. Qed.

Lemma str_drop_app n s t : String.length s = n → str_drop n (s ++ t) = t.
Proof. intros <-. apply str_drop_app_len. Qed.
Lemma str_take_exact n s t : String.length s = n → str_take n (s ++ t) = s.
Proof. intros <-. apply str_take_app_len. Qed.

Lemma zero_byte c : bv c = 0%N → c = zero.
Proof. intros H. rewrite <- (byte_of_bv c), H. done. Qed.

Lemma read_labels_written labels : ∀ fuel used t, labels_ok labels → (used + name_bytes labels <= 254)%nat →
  (length labels < fuel)%nat →
  read_labels fuel used (dns_name labels ++ t) = Some (map ToLower labels, (used + S (name_bytes labels))%nat).
Proof.
  induction labels as [|l ls IH]; intros fuel used t Hok Hlen Hf; (destruct fuel as [|fuel]; [cbn in Hf; lia|]).
  - cbn. do 2 f_equal. lia.
  - apply Forall_cons in Hok as [Hl Hok]. cbn [name_bytes foldr] in *. fold (name_bytes ls) in *.
    cbn [dns_name]. rewrite !str_app_cons, str_app_assoc.
    cbn [read_labels]. rewrite byte_of_small, Nat2N.id by lia.
    destruct (Nat.eqb_spec (String.length l) 0); [lia|]. rewrite (proj2 (Nat.ltb_ge _ _)) by lia.
    cbn [orb]. cbn [String.length]. rewrite str_length_app, str_length_app, (proj2 (Nat.ltb_ge _ _)) by lia.
    rewrite (proj2 (Nat.ltb_ge _ _)) by lia. cbn [orb].
    rewrite str_drop_app_len, str_take_app_len. cbn [length] in Hf.
    rewrite IH by (done || lia). cbn [map]. do 2 f_equal. lia.
Qed.

Lemma read_labels_read fuel : ∀ used m ls k, read_labels fuel used m = Some (ls, k) → (used <= 254)%nat →
  ∃ labels t, m = dns_name labels ++ t ∧ ls = map ToLower labels ∧ labels_ok labels ∧
    (used + name_bytes labels <= 254)%nat ∧ k = (used + S (name_bytes labels))%nat.
Proof.
  induction fuel as [|fuel IH]; intros used m ls k H Hu; [done|]. cbn [read_labels] in H.
  destruct m as [|c rest]; [done|]. destruct (Nat.eqb_spec (N.to_nat (bv c)) 0) as [Hz|Hz].
  - injection H as <- <-. assert (c = zero) as -> by (apply zero_byte; lia).
    exists [], rest. split_and!; [done|done|constructor|cbn; lia|cbn; lia].
  - set (n := N.to_nat (bv c)) in *. destruct (Nat.ltb_spec 63 n) as [|H1]; [done|].
    destruct (Nat.ltb_spec (String.length (String c rest)) (1 + n)) as [|H2]; [done|].
    destruct (Nat.ltb_spec 254 (used + 1 + n)) as [|H3]; [done|]. cbn [orb String.length] in *.
    destruct (read_labels fuel (used + 1 + n) (str_drop n rest)) as [[ls' k']|] eqn:E; [|done].
    injection H as <- <-. apply IH in E as (labels & t & Ht & -> & Hok & Hlen & ->); [|lia].
    assert (String.length (str_take n rest) = n) as Hl by (apply str_take_len; lia).
    exists (str_take n rest :: labels), t. cbn [name_bytes foldr map]. fold (name_bytes labels).
    split_and!; [|done|constructor; [lia|done]|lia|lia].
    cbn [dns_name]. rewrite Hl. assert (byte_of (N.of_nat n) = c) as ->.
    { unfold n. rewrite N2Nat.id. apply byte_of_bv. }
    rewrite !str_app_cons, str_app_assoc. f_equal. rewrite <- Ht. symmetry. apply str_take_drop.
Qed.

(** What the flags of a standard query are. *)
Definition standard_query (flags : N) : Prop :=
  N.land flags 32768 = 0%N ∧ N.land (N.shiftr flags 11) 15 = 0%N.

Definition query_of (id flags : N) (labels : list string) (qtype qclass : N) : dnsQuery :=
  let names := map ToLower labels in
  MkQuery id flags (if forallb plain_label names then Join names "." else "") qtype qclass
    (Some (dns_name labels ++ be_bytes 2 qtype ++ be_bytes 2 qclass)).

Definition is_u16 (n : N) : Prop := (n < 65536)%N.

Lemma be2 n : is_u16 n → be_of (be_bytes 2 n) = n.
Proof. intros H. rewrite be_of_be_bytes. by apply N.mod_small. Qed.

Lemma u16_read (a b c : string) (n : N) : is_u16 n → String.length a = String.length b →
  u16_at (b ++ be_bytes 2 n ++ c) (String.length a) = n.
Proof.
  intros Hn Hl. unfold u16_at. rewrite Hl, str_drop_app_len.
  rewrite (str_take_exact 2) by apply be_bytes_length. by apply be2.
Qed.

Lemma name_labels_count labels : labels_ok labels → (2 * length labels <= name_bytes labels)%nat.
Proof. induction 1 as [|l ls Hl Hls IH]; [done|]. cbn [length name_bytes foldr]. fold (name_bytes ls). lia. Qed.

Lemma parse_written id flags counts labels qtype qclass rest :
  is_u16 id → is_u16 flags → is_u16 qtype → is_u16 qclass → standard_query flags →
  String.length counts = 6%nat → labels_ok labels → (name_bytes labels <= 254)%nat →
  parseQuery (query_bytes id flags counts labels qtype qclass rest) = Some (query_of id flags labels qtype qclass, rcodeOK).
Proof.
  intros Hid Hfl Ht Hc [Hq Hop] Hcounts Hok Hlen. set (m := query_bytes _ _ _ _ _ _ _).
  set (n := dns_name labels). set (k := S (name_bytes labels)).
  assert (Hk : String.length n = k) by apply dns_name_length.
  set (tail := be_bytes 2 qtype ++ be_bytes 2 qclass ++ rest).
  assert (Hm : m = (be_bytes 2 id ++ be_bytes 2 flags ++ be_bytes 2 1 ++ counts) ++ n ++ tail).
  { unfold m, query_bytes. by rewrite !str_app_assoc. }
  assert (Hml : String.length m = (12 + k + 4 + String.length rest)%nat).
  { rewrite Hm. unfold tail. rewrite !str_length_app, !be_bytes_length, Hcounts, Hk. lia. }
  assert (Hd : str_drop 12 m = n ++ tail).
  { rewrite Hm. apply str_drop_app. by rewrite !str_length_app, !be_bytes_length, Hcounts. }
  unfold parseQuery. rewrite Hml, (proj2 (Nat.ltb_ge _ _)) by lia.
  assert (u16_at m 0 = id) as -> by (by apply (u16_read "" "")).
  assert (u16_at m 2 = flags) as -> by (by apply (u16_read "ab" (be_bytes 2 id))).
  assert (u16_at m 4 = 1%N) as ->.
  { unfold m, query_bytes. rewrite <- (str_app_assoc (be_bytes 2 id)). by apply (u16_read "abcd" (be_bytes 2 id ++ be_bytes 2 flags)). }
  rewrite Hq, Hop, Hd. cbn [N.eqb Pos.eqb negb].
  pose proof (name_labels_count labels Hok).
  pose proof (read_labels_written labels 256 0 tail Hok ltac:(lia) ltac:(lia)) as HR. fold n in HR. rewrite HR.
  fold k. cbn [Nat.add]. rewrite (proj2 (Nat.ltb_ge _ _)) by lia. unfold query_of. do 3 f_equal.
  - change (S (S (S (S (S (S (S (S (S (S (S (S k)))))))))))) with (12 + k)%nat.
    assert (String.length ((be_bytes 2 id ++ be_bytes 2 flags ++ be_bytes 2 1 ++ counts) ++ n) = (12 + k)%nat) as <-.
    { rewrite !str_length_app, !be_bytes_length, Hcounts, Hk. lia. }
    rewrite Hm, <- str_app_assoc. by apply u16_read.
  - change (S (S (S (S (S (S (S (S (S (S (S (S (k + 2))))))))))))) with (12 + (k + 2))%nat.
    assert (String.length (((be_bytes 2 id ++ be_bytes 2 flags ++ be_bytes 2 1 ++ counts) ++ n) ++ be_bytes 2 qtype) = (12 + (k + 2))%nat) as <-.
    { rewrite !str_length_app, !be_bytes_length, Hcounts, Hk. lia. }
    rewrite Hm. unfold tail. rewrite <- (str_app_assoc _ n), <- (str_app_assoc _ (be_bytes 2 qtype)). by apply u16_read.
  - fold n. f_equal. unfold tail. rewrite <- (str_app_assoc (be_bytes 2 qtype)), <- (str_app_assoc n).
    apply str_take_exact. rewrite !str_length_app, !be_bytes_length, Hk. lia.
Qed.

Lemma take_be (n : nat) s : (n <= String.length s)%nat → be_bytes n (be_of (str_take n s)) = str_take n s.
Proof. intros H. rewrite <- (str_take_len n s H) at 1. apply be_bytes_be_of. Qed.

Lemma take_u16 s : (2 <= String.length s)%nat → is_u16 (be_of (str_take 2 s)).
Proof. intros H. pose proof (be_of_bound (str_take 2 s)) as Hb. by rewrite str_take_len in Hb. Qed.

Lemma str_drop_drop a b s : str_drop a (str_drop b s) = str_drop (b + a) s.
Proof. revert s; induction b as [|b IH]; intros [|c s]; [by destruct a|done|by destruct a|]. apply IH. Qed.

Lemma str_drop_len n s : String.length (str_drop n s) = (String.length s - n)%nat.
Proof. revert s; induction n as [|n IH]; intros [|c s]; simpl; [done..|apply IH]. Qed.

(** The string cut at a place and two bytes on. *)
Lemma cut_u16 m i : (i + 2 <= String.length m)%nat →
  str_drop i m = be_bytes 2 (u16_at m i) ++ str_drop (i + 2) m ∧ is_u16 (u16_at m i).
Proof.
  intros H. unfold u16_at. split; [|apply take_u16; rewrite str_drop_len; lia].
  rewrite take_be by (rewrite str_drop_len; lia). rewrite <- str_drop_drop. symmetry. apply str_take_drop.
Qed.

(** A message is read as a query exactly when it is one as RFC 1035 writes it:
    a standard query with one question, whose labels are of 1 to 63 bytes and
    whose name is of at most 255; and the query read is that one, its name in
    lower case when every label is plain. *)
Theorem parseQuery_exact m q :
  parseQuery m = Some (q, rcodeOK) ↔
  ∃ id flags counts labels qtype qclass rest,
    is_u16 id ∧ is_u16 flags ∧ is_u16 qtype ∧ is_u16 qclass ∧ standard_query flags ∧
    String.length counts = 6%nat ∧ labels_ok labels ∧ (name_bytes labels <= 254)%nat ∧
    m = query_bytes id flags counts labels qtype qclass rest ∧ q = query_of id flags labels qtype qclass.
Proof.
  split.
  - unfold parseQuery. destruct (Nat.ltb_spec (String.length m) 12) as [|Hm]; [done|].
    destruct (cut_u16 m 0 ltac:(lia)) as [C0 U0]. destruct (cut_u16 m 2 ltac:(lia)) as [C2 U2].
    destruct (cut_u16 m 4 ltac:(lia)) as [C4 U4]. cbn [Nat.add str_drop] in C0.
    destruct (N.eqb_spec (N.land (u16_at m 2) 32768) 0) as [Hq|]; [|done]. cbn [negb].
    destruct (N.eqb_spec (N.land (N.shiftr (u16_at m 2) 11) 15) 0) as [Hop|]; [|done]. cbn [negb].
    destruct (N.eqb_spec (u16_at m 4) 1) as [H1|]; [|done]. cbn [negb].
    destruct (read_labels 256 0 (str_drop 12 m)) as [[ls k]|] eqn:El; [|done].
    apply read_labels_read in El as (labels & t & Ht & -> & Hok & Hlen & ->); [|lia].
    set (k := (0 + S (name_bytes labels))%nat) in *.
    destruct (Nat.ltb_spec (String.length m) (12 + k + 4)) as [|Hl]; [done|]. intros [= <-].
    destruct (cut_u16 m (12 + k) ltac:(lia)) as [Ct Ut]. destruct (cut_u16 m (12 + k + 2) ltac:(lia)) as [Cc Uc].
    assert (Hkn : String.length (dns_name labels) = k) by apply dns_name_length.
    assert (Htail : t = str_drop (12 + k) m).
    { rewrite <- str_drop_drop, Ht. symmetry. by apply str_drop_app. }
    exists (u16_at m 0), (u16_at m 2), (str_take 6 (str_drop 6 m)), labels, (u16_at m (12 + k)), (u16_at m (12 + k + 2)),
      (str_drop (12 + k + 2 + 2) m).
    split_and!; try done.
    + apply str_take_len. rewrite str_drop_len. lia.
    + unfold query_bytes. rewrite <- Cc, <- Ct, <- Htail, <- Ht.
      etrans; [exact C0|]. f_equal. etrans; [exact C2|]. f_equal. etrans; [exact C4|]. rewrite H1. f_equal.
      change (str_drop 12 m) with (str_drop (6 + 6) m). rewrite <- (str_drop_drop 6 6). symmetry. apply str_take_drop.
    + unfold query_of. f_equal. f_equal. change (str_take (k + 4) (str_drop 12 m) = dns_name labels ++
        be_bytes 2 (u16_at m (12 + k)) ++ be_bytes 2 (u16_at m (12 + k + 2))). rewrite Ht, Htail, Ct, Cc, <- (str_app_assoc (be_bytes 2 _)), <- (str_app_assoc (dns_name labels)).
      apply str_take_exact. rewrite !str_length_app, !be_bytes_length, Hkn. lia.
  - intros (id & flags & counts & labels & qtype & qclass & rest & H1 & H2 & H3 & H4 & H5 & H6 & H7 & H8 & -> & ->).
    by apply parse_written.
Qed.
