(* ===== verification/EgressTarget.v ===== *)
(** What a client of the proxy asks for (src/internal/egress/target.go): the
    method and target of a request, as a CONNECT authority or an absolute URL.

    [url.Parse] and [URL.EscapedPath] are parameters; [URL.Hostname] and
    [URL.Port] are written out, since what is judged is what they give. *)

From Stdlib Require Import ZArith NArith Ascii String Lia Bool.
From stdpp Require Import base tactics list option strings.
From S2P Require Import Prelude.
From S2P Require Import GoBinary.
From S2P Require Import EgressSpec.
From S2P Require Import GoStd.
From S2P Require Import Errors.
From S2P Require Import GoNet.
From S2P Require Import Egress.

#[local] Open Scope string_scope.
#[local] Open Scope Z_scope.
#[local] Open Scope go_scope.

(** ** Package net/url *)

(** The fields of [url.URL] the code reads. *)
Record URL : Type := MkURL {
  u_Scheme : string; u_Opaque : string; u_User : bool; u_Host : string;
  u_Path : string; u_RawPath : string; u_RawQuery : string; u_Fragment : string
}.

(** [validOptionalPort]: nothing, or a colon and digits. *)
Definition validOptionalPort (p : string) : bool :=
  match p with
  | "" => true
  | String c p => (c =c ":") && str_forall (in_range "0" "9") p
  end.

Definition strip_brackets (host : string) : string :=
  if HasPrefix host "[" && HasSuffix host "]" then str_take (String.length host - 2) (str_drop 1 host) else host.

(** [net/url]'s [splitHostPort]: the port is what is behind the last colon. *)
Definition url_split (hostPort : string) : string * string :=
  let '(host, port) :=
    match last_index hostPort ":" with
    | Some i =>
        if validOptionalPort (str_drop i hostPort) then (str_take i hostPort, str_drop (i + 1) hostPort)
        else (hostPort, "")
    | None => (hostPort, "")
    end in
  (strip_brackets host, port).

Definition Hostname (u : URL) : string := fst (url_split (u_Host u)).
Definition URL_Port (u : URL) : string := snd (url_split (u_Host u)).

Definition set_host (h : string) (u : URL) : URL :=
  MkURL (u_Scheme u) (u_Opaque u) (u_User u) h (u_Path u) (u_RawPath u) (u_RawQuery u) (u_Fragment u).

(** [net.JoinHostPort]. *)
Definition JoinHostPort (host port : string) : string :=
  if opt_some (IndexByte host ":") then "[" ++ host ++ "]:" ++ port else host ++ ":" ++ port.

(** ** Targets *)

Record Target : Type := MkTarget {
  t_Host : string; t_Port : Z; t_Tunnel : bool; t_Method : string; t_Path : string; t_URL : option URL
}.

(** [Target.Request]. *)
Definition target_request (t : Target) : Request :=
  MkRequest (t_Host t) (t_Port t) (t_Tunnel t) (t_Method t) (t_Path t).

(** [Target.WithHost]. *)
Definition WithHost (host : string) (t : Target) : Target :=
  MkTarget host (t_Port t) (t_Tunnel t) (t_Method t) (t_Path t)
    (set_host (if t_Port t =? 80 then host else JoinHostPort host (Itoa (t_Port t))) <$> t_URL t).

(** [Target.Authority]. *)
Definition Authority (t : Target) : string := JoinHostPort (t_Host t) (Itoa (t_Port t)).

Definition maxTarget : nat := 8192.

(** A byte a request target may not have. *)
Definition bad_target_byte (c : ascii) : bool := (bv c <=? 0x20)%N || (0x7f <=? bv c)%N.

Section parse.
Context (ParseAddr : string → option Addr) (AddrString : Addr → string).
Context (ParseURL : string → option URL) (EscapedPath : URL → string).

Definition parseAuthority (a : string) : result Target :=
  match SplitHostPort a with
  | None => Fail (plain "CONNECT needs host:port")
  | Some (host, portStr) =>
      let? h := CanonicalHost ParseAddr AddrString host in
      let? port := parsePort portStr in
      Ok (MkTarget h port true "CONNECT" "" None)
  end.

(** The port of a URL: 80 when it names none. *)
Definition url_port (u : URL) : result Z :=
  if negb (String.eqb (URL_Port u) "") then parsePort (URL_Port u)
  else if HasSuffix (u_Host u) ":" then Fail (plain "the URL has an empty port")
  else Ok 80.

Definition encoded_separator (escaped : string) : bool :=
  let lower := ToLower escaped in
  Contains lower "%2f" || Contains lower "%5c" || Contains lower "%2e" || Contains lower "%00".

(** The host of the URL sent on. *)
Definition sent_host (h : string) (port : Z) : string :=
  if port =? 80 then (if Contains h ":" then "[" ++ h ++ "]" else h) else JoinHostPort h (Itoa port).

Definition parseAbsolute (method raw : string) : result Target :=
  match ParseURL raw with
  | None => Fail (plain "the request target is not a URL")
  | Some u =>
      if negb (EqualFold (u_Scheme u) "http") then
        if EqualFold (u_Scheme u) "https" then
          Fail (plain "send https through CONNECT, not as an absolute https:// URL")
        else Fail (plain "a forward proxy request needs an absolute http:// URL")
      else if negb (String.eqb (u_Opaque u) "") || u_User u || negb (String.eqb (u_Fragment u) "") || String.eqb (u_Host u) "" then
        Fail (plain "the URL must be http://host[:port]/path, without user info or fragment")
      else
        let? h := CanonicalHost ParseAddr AddrString (Hostname u) in
        let? port := url_port u in
        if encoded_separator (EscapedPath u) then
          Fail (plain "the path has an encoded slash, backslash, dot or NUL")
        else
          let path := if String.eqb (u_Path u) "" then "/" else u_Path u in
          match plainPath path with
          | Some e => Fail e
          | None =>
              Ok (MkTarget h port false method path
                    (Some (MkURL "http" "" false (sent_host h port) (u_Path u) (u_RawPath u) (u_RawQuery u) "")))
          end
  end.

Definition ParseTarget (method target : string) : result Target :=
  if String.eqb method "" || negb (String.eqb (Trim method upper_letters) "") then
    Fail (plain "the method is not an upper-case method name")
  else if String.eqb target "" || (maxTarget <? String.length target)%nat then
    Fail (plain "the request target is empty or too long")
  else if str_exists bad_target_byte target then
    Fail (plain "the request target has a space, control or non-ASCII character")
  else if String.eqb method "CONNECT" then parseAuthority target
  else parseAbsolute method target.

(** [ParseRequestLine]. *)
Definition ParseRequestLine (line : string) : result Target :=
  let line := TrimSuffix (TrimSuffix line (String "010" "")) (String "013" "") in
  match Cut line " " with
  | None => Fail (plain "malformed request line")
  | Some (method, rest) =>
      match Cut rest " " with
      | None => Fail (plain "malformed request line")
      | Some (target, proto) =>
          if negb (String.eqb proto "HTTP/1.1") && negb (String.eqb proto "HTTP/1.0") then
            Fail (plain ("unsupported protocol " ++ Quote proto))
          else ParseTarget method target
      end
  end.
End parse.

Example authority_parsed :
  parseAuthority (λ _, None) (λ _, "") "Example.ORG.:443" = Ok (MkTarget "example.org" 443 true "CONNECT" "" None).
Proof. vm_compute. reflexivity. Qed.
Example authority_refused : ∃ e, parseAuthority (λ _, None) (λ _, "") "example.org:0443" = Fail e.
Proof. eexists. vm_compute. reflexivity. Qed.
Example url_halves : (url_split "[::1]:80", url_split "a.b", url_split "a.b:", url_split "a.b:x")
  = (("::1", "80"), ("a.b", ""), ("a.b", ""), ("a.b:x", "")).
Proof. vm_compute. reflexivity. Qed.

(** * Theorems

    What a parsed target promises: the host is in its one spelling, and the URL
    sent on names the very host, port and path the policy judges. *)

#[local] Arguments String.append : simpl nomatch.

(** An address without a zone is written without brackets: in decimal digits and
    dots, or in hexadecimal digits, colons and dots. *)
Class NetipPlain (AddrString : Addr → string) : Prop :=
  printed_plain a : Zone a = "" → str_forall (λ c, negb (c =c "[") && negb (c =c "]")) (AddrString a) = true.

(** The escaped path of a URL is made of its path and of how it was written. *)
Class PathEscapes (EscapedPath : URL → string) : Prop :=
  escaped_of u v : u_Path u = u_Path v → u_RawPath u = u_RawPath v → EscapedPath u = EscapedPath v.

(** ** Paths

    A path no server rewrites: its segments, behind the first slash, are neither
    empty nor only dots and blanks, but for an empty last one; no byte of it is a
    semicolon, a backslash or a control; and nothing in it is written as an escape
    of a slash, a backslash, a dot or a NUL. *)
Definition plain_segment (seg : string) : Prop := ∃ c, c ∈ bytes seg ∧ c ≠ "."%char ∧ c ≠ " "%char.
Definition plain_path (p : string) : Prop :=
  (∀ c, c ∈ bytes p → c ≠ ";"%char ∧ c ≠ "\"%char ∧ control c = false) ∧
  ∃ rest, p = "/" ++ rest ∧ ∀ i seg, Split rest "/" !! i = Some seg → plain_segment seg ∨ seg = "" ∧ S i = length (Split rest "/").
Definition hides_nothing (escaped : string) : Prop :=
  ∀ enc, enc ∈ ["%2f"; "%5c"; "%2e"; "%00"] → Contains (ToLower escaped) enc = false.


(** ** Hosts and ports in a URL *)

Lemma last_index_none s c : str_forall (λ d, negb (c =c d)) s = true → last_index s c = None.
Proof.
  induction s as [|d s IH]; [done|]. cbn. intros [Hd Hs]%andb_true_iff. rewrite IH by done.
  by apply negb_true_iff in Hd as ->.
Qed.

Lemma last_index_last a b c : str_forall (λ d, negb (c =c d)) b = true →
  last_index (a ++ String c b) c = Some (String.length a).
Proof.
  intros Hb. induction a as [|d a IH]; cbn.
  - by rewrite last_index_none, Ascii.eqb_refl.
  - by rewrite IH.
Qed.

Lemma IndexByte_none s c : opt_some (IndexByte s c) = false ↔ str_forall (λ d, negb (c =c d)) s = true.
Proof.
  induction s as [|d s IH]; [done|]. cbn. destruct (c =c d); [done|]. cbn. rewrite <- IH.
  by destruct (IndexByte s c).
Qed.

Lemma Contains_byte s c : Contains s (String c "") = opt_some (IndexByte s c).
Proof.
  unfold Contains. induction s as [|d s IH]; [done|]. cbn. unfold HasPrefix. cbn.
  destruct (ascii_dec c d) as [->|Hne].
  - rewrite Ascii.eqb_refl. cbn. by destruct s.
  - destruct (Ascii.eqb_spec c d); [done|]. destruct (Cut s (String c "")) as [[x y]|]; cbn in *;
      by destruct (IndexByte s c).
Qed.

Lemma str_forall_weaken (f g : ascii → bool) s : (∀ c, f c = true → g c = true) →
  str_forall f s = true → str_forall g s = true.
Proof. rewrite !str_forall_spec. eauto. Qed.

(** The bytes of a host written plainly: no bracket. *)
Definition unbracketed (h : string) : Prop := str_forall (λ c, negb (c =c "[") && negb (c =c "]")) h = true.

Lemma unbracketed_bracket h : unbracketed h → HasPrefix h "[" = false.
Proof.
  unfold unbracketed. destruct h as [|c h]; [done|]. cbn [str_forall]. intros [[Hc _]%andb_true_iff _]%andb_true_iff.
  apply not_true_iff_false. intros (t & Ht)%prefix_app. injection Ht as -> _. done.
Qed.

Lemma strip_bracketed h : strip_brackets ("[" ++ h ++ "]") = h.
Proof.
  unfold strip_brackets. rewrite (proj2 (prefix_app "[" _)) by (by exists (h ++ "]")).
  rewrite (proj2 (suffix_app _ "]")) by (exists ("[" ++ h); by rewrite str_app_assoc). cbn [andb].
  rewrite str_app_cons. cbn [String.append str_drop String.length]. rewrite str_length_app. cbn [String.length].
  replace (S (String.length h + 1) - 2)%nat with (String.length h) by lia. apply str_take_app_len.
Qed.

Lemma strip_plain h : unbracketed h → strip_brackets h = h.
Proof. intros H. unfold strip_brackets. by rewrite unbracketed_bracket. Qed.

Definition digits (p : string) : Prop := str_forall (in_range "0" "9") p = true.

Lemma digits_no_colon p : digits p → str_forall (λ d, negb (":"%char =c d)) p = true.
Proof.
  apply str_forall_weaken. intros c Hc. apply negb_true_iff, Ascii.eqb_neq. intros <-. done.
Qed.

Lemma digits_go_digits fuel : ∀ n acc, digits acc → digits (digits_go fuel n acc).
Proof.
  assert (∀ d acc, (d < 10)%N → digits acc → digits (String (digit_byte d) acc)) as Hone.
  { intros d acc Hd Ha. unfold digits. cbn [str_forall]. rewrite Ha, andb_true_r. unfold in_range.
    rewrite digit_byte_bv by done. apply andb_true_iff. split; apply N.leb_le; [change (bv "0") with 48%N | change (bv "9") with 57%N]; lia. }
  induction fuel as [|fuel IH]; intros n acc Ha; [done|]. cbn [digits_go].
  destruct (N.ltb_spec n 10); [by apply Hone|]. apply IH, Hone; [|done]. apply N.mod_lt. lia.
Qed.

Lemma Itoa_digits n : 1 <= n → digits (Itoa n).
Proof. destruct n; [done| |lia]. intros _. by apply digits_go_digits. Qed.

(** A host and a port joined are read back. *)
Lemma url_split_join h p : unbracketed h → digits p → url_split (JoinHostPort h p) = (h, p).
Proof.
  intros Hh Hp. unfold JoinHostPort, url_split. set (x := if opt_some (IndexByte h ":") then "[" ++ h ++ "]" else h).
  assert ((if opt_some (IndexByte h ":") then "[" ++ h ++ "]:" ++ p else h ++ ":" ++ p) = x ++ String ":" p) as ->.
  { unfold x. destruct (opt_some _); [|done]. by rewrite !str_app_assoc. }
  rewrite last_index_last by (by apply digits_no_colon). rewrite str_drop_app_len. cbn [validOptionalPort].
  rewrite Ascii.eqb_refl, Hp. cbn [andb]. rewrite str_take_app_len.
  replace (x ++ String ":" p) with ((x ++ ":") ++ p) by (by rewrite str_app_assoc).
  replace (String.length x + 1)%nat with (String.length (x ++ ":")) by (rewrite str_length_app; done).
  rewrite str_drop_app_len. f_equal. unfold x. destruct (opt_some _); [apply strip_bracketed | by apply strip_plain].
Qed.

Lemma str_drop_app_le n a b : (n <= String.length a)%nat → str_drop n (a ++ b) = str_drop n a ++ b.
Proof. revert a; induction n as [|n IH]; intros [|c a] H; cbn in *; [done..|lia|]. apply IH. lia. Qed.

Lemma last_index_lt s c i : last_index s c = Some i → (i < String.length s)%nat.
Proof.
  revert i. induction s as [|d s IH]; intros i; [done|]. cbn. destruct (last_index s c).
  - intros [= <-]. pose proof (IH _ eq_refl). lia.
  - destruct (c =c d); [|done]. intros [= <-]. lia.
Qed.

Lemma bracket_no_port t : validOptionalPort (t ++ "]") = false.
Proof.
  destruct t as [|c t]; [done|]. cbn [String.append validOptionalPort]. destruct (c =c ":"); [|done]. cbn [andb].
  rewrite str_forall_app. by destruct (str_forall _ t).
Qed.

(** A host that is written without a port has none. *)
Lemma url_split_host h : unbracketed h → url_split (if Contains h ":" then "[" ++ h ++ "]" else h) = (h, "").
Proof.
  intros Hh. rewrite Contains_byte. destruct (opt_some (IndexByte h ":")) eqn:E.
  - unfold url_split. destruct (last_index _ ":") as [i|] eqn:Ei; [|f_equal; apply strip_bracketed].
    apply last_index_lt in Ei. rewrite <- str_app_assoc in *. rewrite str_length_app in Ei. cbn [String.length] in Ei.
    rewrite str_drop_app_le by lia. rewrite bracket_no_port, str_app_assoc. f_equal. apply strip_bracketed.
  - apply IndexByte_none in E. unfold url_split. rewrite last_index_none by done. f_equal. by apply strip_plain.
Qed.

(** ** Plain paths *)

Lemma plain_segment_trim seg : String.eqb (Trim seg ". ") "" = false → plain_segment seg.
Proof.
  rewrite Trim_empty. intros H. destruct (existsb (λ c, negb (byte_in ". " c)) (bytes seg)) eqn:E.
  - apply existsb_exists in E as (c & Hin & Hc). exists c. split; [by apply list_elem_of_In|].
    unfold byte_in in Hc. apply negb_true_iff, bool_decide_eq_false in Hc. split; intros ->; apply Hc; [left|right; left].
  - apply not_true_iff_false in H. destruct H. apply str_forall_spec. intros c Hc. apply not_false_iff_true. intros Hb.
    apply not_true_iff_false in E. apply E, existsb_exists. exists c. split; [by apply list_elem_of_In|]. by rewrite Hb.
Qed.

Lemma segments_plain_spec segs : segments_plain segs = true →
  ∀ i seg, segs !! i = Some seg → plain_segment seg ∨ seg = "" ∧ S i = length segs.
Proof.
  induction segs as [|x segs IH]; [done|]. destruct segs as [|y segs].
  - cbn [segments_plain]. intros H [|i] seg; [|done]. intros [= <-]. apply orb_true_iff in H as [H%String.eqb_eq|H%negb_true_iff]; [by right|left].
    by apply plain_segment_trim.
  - change (segments_plain (x :: y :: segs)) with (negb (String.eqb x "") && negb (String.eqb (Trim x ". ") "") && segments_plain (y :: segs)).
    intros [[_ Hx%negb_true_iff]%andb_true_iff H]%andb_true_iff [|i] seg Hi; cbn in Hi.
    + injection Hi as <-. left. by apply plain_segment_trim.
    + destruct (IH H i seg Hi) as [?|[-> Hl]]; [by left|right]. split; [done|]. cbn [length] in *. lia.
Qed.

Lemma plainPath_plain p : plainPath p = None → plain_path p.
Proof.
  unfold plainPath. destruct (HasPrefix p "/") eqn:Ep; cbn [negb]; [|done]. apply prefix_app in Ep as [rest ->].
  rewrite Contains_byte. destruct (opt_some _) eqn:Es; [done|]. apply IndexByte_none in Es.
  destruct (_ || _) eqn:Eb; [done|]. apply orb_false_iff in Eb as [Eb Ec]. intros H. split.
  - intros c Hc. split_and!.
    + intros ->. rewrite str_forall_spec in Es. by specialize (Es _ Hc).
    + intros ->. apply not_true_iff_false in Eb. apply Eb, str_exists_spec. eexists. split; [exact Hc|]. apply bool_decide_eq_true. by left.
    + apply not_true_iff_false in Ec. apply not_true_iff_false. intros Hx. apply Ec, str_exists_spec. by exists c.
  - exists rest. split; [done|]. destruct (String.eqb_spec ("/" ++ rest) "/") as [E|_].
    + destruct rest; [|done]. intros [|i] seg; [|done]. intros [= <-]. by right.
    + apply segments_plain_spec. unfold fail_if in H. change (str_drop 1 ("/" ++ rest)) with rest in H. destruct (segments_plain _); [done|discriminate].
Qed.

Lemma encoded_separator_none escaped : encoded_separator escaped = false → hides_nothing escaped.
Proof.
  unfold encoded_separator. intros H. repeat (apply orb_false_iff in H as [H ?]). intros enc Henc.
  by repeat (apply elem_of_cons in Henc as [->|Henc]; [done|]); apply elem_of_nil in Henc.
Qed.

Lemma parsePort_ok p n : parsePort p = Ok n → 1 <= n <= 65535 ∧ p = Itoa n ∧ digits (Itoa n).
Proof.
  unfold parsePort. destruct (ParseInt p) as [z|]; [|done].
  destruct (Z.ltb_spec z 1); [done|]. destruct (Z.ltb_spec 65535 z); [done|]. rewrite Trim_empty.
  destruct (str_forall _ p) eqn:Ep; [|done]. destruct (String.eqb_spec (Itoa z) p) as [<-|]; [|done]. intros [= <-].
  split; [lia|]. split; [done|]. revert Ep. apply str_forall_weaken. intros c Hc.
  unfold byte_in, decimal in Hc. apply bool_decide_eq_true in Hc.
  repeat (apply elem_of_cons in Hc as [->|Hc]; [done|]). by apply elem_of_nil in Hc.
Qed.

Section parse.
Context (ParseAddr : string → option Addr) (AddrString : Addr → string).
Context (ParseURL : string → option URL) (EscapedPath : URL → string).
Context {TextLaws : NetipText ParseAddr AddrString} {Plain : NetipPlain AddrString} {Escapes : PathEscapes EscapedPath}.

Lemma canonical_unbracketed host h : CanonicalHost ParseAddr AddrString host = Ok h → unbracketed h.
Proof.
  unfold CanonicalHost. destruct (_ || _); [done|]. destruct (ParseAddr _) as [a|].
  - destruct (String.eqb_spec (Zone a) "") as [Hz|]; [|done]. cbn [negb]. destruct (Is4In6 a); [done|]. intros [= <-]. by apply printed_plain.
  - destruct (first_error _ _) eqn:E; [done|]. destruct (_ || _); [done|]. intros [= <-].
    apply first_error_Forall in E.
    assert (str_forall (λ d, host_byte d || (d =c ".")) (ToLower (TrimSuffix host ".")) = true) as Hb.
    { apply Split_forall. eapply Forall_impl; [exact E|]. intros l. unfold label_error, fail_if.
      destruct (String.eqb l "" || _); [done|]. destruct (str_forall host_byte l); cbn; congruence. }
    revert Hb. apply str_forall_weaken. intros c Hc. apply andb_true_iff.
    split; apply negb_true_iff, Ascii.eqb_neq; intros ->; discriminate.
Qed.

(** What is judged, and what is sent on. *)
Record target_ok (method : string) (t : Target) : Prop := MkTargetOk {
  to_host : CanonicalHost ParseAddr AddrString (t_Host t) = Ok (t_Host t);
  to_port : 1 <= t_Port t <= 65535;
  to_method : t_Method t = method ∧ str_forall (byte_in upper_letters) method = true;
  to_tunnel : t_Tunnel t = String.eqb method "CONNECT";
  to_url : match t_URL t with
           | None => t_Tunnel t = true ∧ t_Path t = ""
           | Some u => t_Tunnel t = false ∧ u_Scheme u = "http" ∧ u_User u = false ∧
               Hostname u = t_Host t ∧
               (URL_Port u = Itoa (t_Port t) ∨ URL_Port u = "" ∧ t_Port t = 80) ∧
               plain_path (t_Path t) ∧
               (u_Path u = t_Path t ∨ u_Path u = "" ∧ t_Path t = "/")
           end
}.

Lemma url_port_ok u n : url_port u = Ok n → 1 <= n <= 65535 ∧ digits (Itoa n).
Proof.
  unfold url_port. destruct (negb _); [intros H; by apply parsePort_ok in H as (? & _ & ?)|].
  destruct (HasSuffix _ _); [done|]. intros [= <-]. split; [lia|done].
Qed.

(** C31: A target that is accepted names its host in the one spelling the rules are
    compared with and a port of 1 to 65535, and what is sent on is what is
    judged: the URL of a plain request reads back as that very host, that port
    and that path; the path has no segment a server would rewrite, and the URL sent
    on writes none of it as an escape of a slash, a backslash, a dot or a NUL. *)
Theorem ParseTarget_sound method target t :
  ParseTarget ParseAddr AddrString ParseURL EscapedPath method target = Ok t →
  target_ok method t ∧ ∀ u, t_URL t = Some u → hides_nothing (EscapedPath u).
Proof.
  unfold ParseTarget. rewrite Trim_empty. destruct (String.eqb method "") eqn:Em; [done|].
  destruct (str_forall _ method) eqn:Eu; [|done]. cbn [orb negb].
  destruct (_ || _); [done|]. destruct (str_exists _ _); [done|].
  destruct (String.eqb_spec method "CONNECT") as [->|Hm].
  - unfold parseAuthority. destruct (SplitHostPort target) as [[host ps]|]; [|done].
    destruct (CanonicalHost _ _ host) as [h|] eqn:Eh; [|done]. destruct (parsePort ps) as [port|] eqn:Ep; [|done].
    intros [= <-]. apply CanonicalHost_idem in Eh; [|done]. apply parsePort_ok in Ep as (Hp & _ & _). split; [by split|done].
  - unfold parseAbsolute. destruct (ParseURL target) as [u|]; [|done].
    destruct (EqualFold _ "http"); cbn [negb]; [|by destruct (EqualFold _ _)]. destruct (_ || _); [done|].
    destruct (CanonicalHost _ _ (Hostname u)) as [h|] eqn:Eh; [|done]. destruct (url_port u) as [port|] eqn:Ep; [|done].
    destruct (encoded_separator _) eqn:Eenc; [done|]. destruct (plainPath _) eqn:Epath; [done|]. intros [= <-].
    pose proof (canonical_unbracketed _ _ Eh) as Hb. apply CanonicalHost_idem in Eh; [|done].
    apply url_port_ok in Ep as (Hp & Hd). split.
    2:{ cbn [t_URL]. intros u' [= <-]. rewrite (escaped_of _ u) by done. by apply encoded_separator_none. }
    split; cbn [t_Host t_Port t_Method t_Tunnel t_URL t_Path]; try done.
    + by apply String.eqb_neq in Hm.
    + cbn [u_Scheme u_User u_Path]. unfold Hostname, URL_Port. cbn [u_Host]. unfold sent_host. split_and!; try done.
      * destruct (Z.eqb_spec port 80); [by rewrite url_split_host | by rewrite url_split_join].
      * destruct (Z.eqb_spec port 80); [rewrite url_split_host by done; by right|rewrite url_split_join by done; by left].
      * by apply plainPath_plain.
      * destruct (String.eqb_spec (u_Path u) ""); auto.
Qed.
End parse.

(** ** A concrete target *)

#[export] Instance two_plain : NetipPlain print_two.
Proof. by intros a. Qed.
#[export] Instance path_escapes : PathEscapes u_Path.
Proof. by intros u v H _. Qed.

Definition one_url (raw : string) : option URL :=
  if String.eqb raw "HTTP://Example.COM:8080/x" then Some (MkURL "http" "" false "Example.COM:8080" "/x" "" "" "") else None.

Lemma ParseTarget_sound_witness :
  let t := MkTarget "example.com" 8080 false "GET" "/x" (Some (MkURL "http" "" false "example.com:8080" "/x" "" "" "")) in
  ParseTarget parse_two print_two one_url u_Path "GET" "HTTP://Example.COM:8080/x" = Ok t ∧
  target_ok parse_two print_two "GET" t ∧ ∀ u, t_URL t = Some u → hides_nothing (u_Path u).
Proof.
  cbv zeta. split; [vm_compute; reflexivity|].
  apply (ParseTarget_sound parse_two print_two one_url u_Path "GET" "HTTP://Example.COM:8080/x").
  vm_compute. reflexivity.
Defined.
