(* ===== verification/EgressUpstream.v ===== *)
(** The corporate proxy connections are chained through
    (src/internal/egress/upstream.go): what is reached directly, the check made
    of a name before it is chained, and the bytes sent to the proxy.

    The network is parameters: what a connection to the proxy, a handshake, a
    write and an answer come to. The store of credentials is another. *)

From Stdlib Require Import ZArith NArith Ascii String Lia.
From stdpp Require Import base tactics list option strings.
From S2P Require Import Prelude.
From S2P Require Import GoStd.
From S2P Require Import Errors.
From S2P Require Import GoNet.
From S2P Require Import Egress.
From S2P Require Import EgressTarget.

#[local] Open Scope string_scope.
#[local] Open Scope Z_scope.

(** [Upstream]. [Credentials] is [None] when the field is nil; the store gives
    an error, nothing, or a user and a password. *)
Record Upstream : Type := MkUpstream {
  up_URL : URL;
  up_Credentials : option (string + option (string * string));
  up_NoProxy : list string;
  up_ResolveViaProxy : bool
}.

(** [Upstream.Authority]. *)
Definition up_Authority (u : Upstream) : string :=
  if negb (String.eqb (URL_Port (up_URL u)) "") then u_Host (up_URL u)
  else if String.eqb (u_Scheme (up_URL u)) "https" then JoinHostPort (Hostname (up_URL u)) "443"
  else JoinHostPort (Hostname (up_URL u)) "80".

(** ** The process's choice *)

(** [upstreamUsed] and [upstream]: the key of the choice made, and the proxy. *)
Record upstream_state : Type := MkUpstreamState { used_key : option string; current : option Upstream }.

Definition no_choice : upstream_state := MkUpstreamState None None.

(** [UseUpstream]; [false] is [ErrUpstreamConflict]. *)
Definition UseUpstream (u : option Upstream) (key : string) (s : upstream_state) : bool * upstream_state :=
  match used_key s with
  | Some k => (String.eqb key k, s)
  | None => (true, MkUpstreamState (Some key) u)
  end.

(** ** What is reached directly *)

(** One resolver failure: whether the name was not found, and the reason. *)
Record resolve_error : Type := MkResolveError { re_notFound : bool; re_why : string; re_text : string }.

Definition text_refusal (host msg : string) : refusal := MkRefusal host NoAddr "" msg.

Section netip.
Context (ParseAddr : string → option Addr) (ParsePrefix : string → option Prefix).

(** One entry of NoProxy against a host, an address when [a] is one. *)
Definition bypass_entry (h : string) (a : option Addr) (entry : string) : bool :=
  let e := ToLower (TrimSpace entry) in
  if String.eqb e "" then false
  else
    match a with
    | Some a =>
        if Contains e "/" then
          match ParsePrefix e with Some p => PrefixContains p (Unmap a) | None => false end
        else match ParseAddr e with Some b => bool_decide (Unmap b = Unmap a) | None => false end
    | None =>
        if HasPrefix e "*." then
          let d := str_drop 1 e in String.eqb h (str_drop 1 d) || HasSuffix h d
        else if HasPrefix e "." then String.eqb h (str_drop 1 e) || HasSuffix h e
        else String.eqb h e
    end.

(** [Upstream.Bypass]. *)
Definition Bypass (u : Upstream) (host : string) : bool :=
  let h := ToLower (TrimSuffix (Trim host "[]") ".") in
  if String.eqb h "localhost" || HasSuffix h ".localhost" then true
  else
    let a := ParseAddr h in
    if match a with Some a => IsLoopback (Unmap a) | None => false end then true
    else existsb (bypass_entry h a) (up_NoProxy u).

(** [Upstream.precheck]: the addresses the name has here, or that only the proxy
    is to resolve it. *)
Definition precheck (u : Upstream) (resolve : string → resolve_error + list Addr) (host : string) (anchored : bool)
    : refusal + (list Addr * bool) :=
  match ParseAddr (Trim host "[]") with
  | Some a => inr ([a], false)
  | None =>
      match resolve host with
      | inr [] => inl (text_refusal host (host ++ " has no address here, so it is not sent to the upstream proxy"))
      | inr addrs => inr (addrs, false)
      | inl e =>
          if negb (re_notFound e) then
            inl (text_refusal host (host ++ " could not be resolved here (" ++ re_why e ++
              "), so its address cannot be checked; it is not sent to the upstream proxy"))
          else if negb (up_ResolveViaProxy u) then
            inl (text_refusal host (host ++ " does not resolve here, so its address cannot be checked; it is not sent to the upstream proxy unless network.upstream_proxy.resolve_via_proxy is on"))
          else if negb anchored then
            inl (text_refusal host (host ++ " does not resolve here; resolve_via_proxy passes such a name only for a host an allow rule (or, for web_fetch outside the allowlist, the managed allowed_hosts) names exactly, not by a wildcard or the default"))
          else inr ([], true)
      end
  end.
End netip.

(** ** Connecting to the proxy *)

Section chain.
Context (EncodeBase64 : string → string).
Context (StatusText : Z → string).

(** [Upstream.authorization]: an error's text, or the header's value. *)
Definition authorization (u : Upstream) : string + string :=
  match up_Credentials u with
  | None => inr ""
  | Some (inl e) => inl ("abhed egress: the upstream proxy's credentials could not be read: " ++ e)
  | Some (inr None) => inr ""
  | Some (inr (Some (user, pass))) => inr ("Basic " ++ EncodeBase64 (user ++ ":" ++ pass))
  end.

(** What the network makes of a connection to the proxy, of its TLS handshake,
    of a write, and the answer to what was written: its status, or an error. *)
Record ProxyNet : Type := MkProxyNet {
  pn_connect : string → option string;
  pn_handshake : option string;
  pn_write : option string;
  pn_answer : string → string + Z
}.

Inductive up_error : Type :=
  | UpFailed (text : string)
  | UpRefused (target : string) (status : Z).

Definition up_error_text (u : Upstream) (e : up_error) : string :=
  match e with
  | UpFailed t => t
  | UpRefused target status =>
      "the upstream proxy " ++ up_Authority u ++ " refused " ++ target ++ ": " ++ Itoa status ++ " " ++ StatusText status
  end.

Definition up_said (u : Upstream) (text : string) : up_error :=
  UpFailed ("the upstream proxy " ++ up_Authority u ++ text).

(** [dialProxy]: the address dialled is the proxy's own. *)
Definition dialProxy (u : Upstream) (net : ProxyNet) : option up_error :=
  match pn_connect net (up_Authority u) with
  | Some e => Some (up_said u (": " ++ e))
  | None =>
      if negb (String.eqb (u_Scheme (up_URL u)) "https") then None
      else match pn_handshake net with Some e => Some (up_said u (": " ++ e)) | None => None end
  end.

Definition crlf : string := String "013" (String "010" "").

(** The CONNECT request. *)
Definition connect_request (authority auth : string) : string :=
  "CONNECT " ++ authority ++ " HTTP/1.1" ++ crlf ++ "Host: " ++ authority ++ crlf ++
  (if String.eqb auth "" then "" else "Proxy-Authorization: " ++ auth ++ crlf) ++ crlf.

(** [DialTunnel]: whether the proxy was dialled, what was written to it, and
    the error, if any. *)
Definition DialTunnel (u : Upstream) (net : ProxyNet) (authority : string) : bool * option string * option up_error :=
  if String.eqb authority "" || ContainsAny authority (String "013" (String "010" (String " " (String "009" "")))) then
    (false, None, Some (UpFailed ("abhed egress: " ++ Quote authority ++ " is not a host and port to tunnel to")))
  else
    match authorization u with
    | inl e => (false, None, Some (UpFailed e))
    | inr auth =>
        match dialProxy u net with
        | Some e => (true, None, Some e)
        | None =>
            let req := connect_request authority auth in
            match pn_write net with
            | Some e => (true, Some req, Some (up_said u (": " ++ e)))
            | None =>
                match pn_answer net req with
                | inl e => (true, Some req, Some (up_said u (" did not answer the CONNECT: " ++ e)))
                | inr status =>
                    if negb (status =? 200) then (true, Some req, Some (UpRefused authority status))
                    else (true, Some req, None)
                end
            end
        end
    end.

(** [DialForward] and [ForwardHeader]. *)
Definition DialForward (u : Upstream) (net : ProxyNet) : bool * option string * option up_error :=
  (true, None, dialProxy u net).
Definition ForwardHeader (u : Upstream) : string + string := authorization u.
End chain.
