(* ===== verification/EgressInspect.v ===== *)
(** Looking inside a tunnel (src/internal/egress/inspect.go): what a client of an
    inspected CONNECT speaks, and the verdict on each request inside.

    The handshakes and the exchanges with the server are what the network makes
    of them; the certificates are not modelled. *)

From Stdlib Require Import ZArith NArith Ascii String Lia.
From stdpp Require Import base tactics list option strings.
From S2P Require Import Prelude.
From S2P Require Import GoStd.
From S2P Require Import Errors.
From S2P Require Import GoNet.
From S2P Require Import Egress.
From S2P Require Import EgressRecord.
From S2P Require Import EgressTarget.

#[local] Open Scope string_scope.
#[local] Open Scope Z_scope.

(** ** Events, changed as a handler changes them *)

Definition set_verdict (d : Decision) (rule reason : string) (e : Event) : Event :=
  MkEvent (CallID e) (Kind e) (Host e) (Port e) (IP e) (Method e) (Path e)
    d rule reason (BytesIn e) (BytesOut e) (Synthetic e) (Upstream e) (Resolved e) (Repeats e).

Definition add_reason (s : string) (e : Event) : Event :=
  set_verdict (ev_Decision e) (ev_Rule e) (Reason e ++ s) e.

Definition set_path (path : string) (e : Event) : Event :=
  MkEvent (CallID e) (Kind e) (Host e) (Port e) (IP e) (Method e) path
    (ev_Decision e) (ev_Rule e) (Reason e) (BytesIn e) (BytesOut e) (Synthetic e) (Upstream e)
    (Resolved e) (Repeats e).

(** ** One request inside *)

(** What became of a request sent on: the write failed, the client's connection
    broke, the answer was malformed, or it was relayed and the server closes. *)
Inductive exchange : Type := SendFailed | Broken | Malformed | Relayed (closes : bool).

Record ireq : Type := MkIreq {
  iq_URI : string; iq_Method : string; iq_Host : string; iq_Upgrade : string; iq_Close : bool; iq_exchange : exchange
}.

(** The outcome of [inspectOne]: the event recorded, the status the client is
    answered by the proxy, the path of the request when it was sent on, and
    whether the connection goes on. *)
Record judged : Type := MkJudged { jd_event : Event; jd_status : option Z; jd_sent : option string; jd_on : bool }.

(** The host a request names, its port left off. *)
Definition named_host (h : string) : string := match SplitHostPort h with Some (h', _) => h' | None => h end.

Section inspect.
Context (ParseAddr : string → option Addr) (AddrString : Addr → string).
Context (ParseURL : string → option URL) (EscapedPath : URL → string).
Context (p_policy : Policy).

Definition inside_event (callID : string) (t : Target) (method : string) : Event :=
  MkEvent callID "https" (t_Host t) (t_Port t) "" method "" Deny "" "" 0 0 "" "" "" 0.

Definition inspectOne (r : ireq) (t : Target) (authority callID : string) : judged :=
  let e := inside_event callID t (iq_Method r) in
  let refuse (code : Z) (rule why : string) := MkJudged (set_verdict Deny rule why e) (Some code) None false in
  if negb (HasPrefix (iq_URI r) "/") then
    refuse 400 "parse" ("a request inside the tunnel needs a path, not " ++ iq_URI r)
  else if negb (EqualFold (TrimSuffix (Trim (named_host (iq_Host r)) "[]") ".") (t_Host t)) then
    refuse 403 "host" ("the request names the host " ++ iq_Host r ++ ", not the tunnel's " ++ t_Host t)
  else if negb (String.eqb (iq_Upgrade r) "") then
    refuse 403 "upgrade" "a protocol upgrade cannot be inspected"
  else
    match parseAbsolute ParseAddr AddrString ParseURL EscapedPath (iq_Method r) ("http://" ++ authority ++ iq_URI r) with
    | Fail err => refuse 400 "parse" (e_text err)
    | Ok inner =>
        let v := Decide p_policy (MkRequest (t_Host t) (t_Port t) false (iq_Method r) (t_Path inner)) in
        let e := set_verdict (vd_Decision v) (vd_Rule v) (vd_Reason v) (set_path (t_Path inner) e) in
        if negb (Allowed v) then MkJudged e (Some 403) None false
        else
          let sent := Some (t_Path inner) in
          match iq_exchange r with
          | SendFailed => MkJudged e (Some 502) sent false
          | Broken => MkJudged e None sent false
          | Malformed => MkJudged e (Some 502) sent false
          | Relayed closes => MkJudged e None sent (negb closes)
          end
    end.

(** The loop of [inspectTunnel] over the requests a client sends: what is
    recorded, and the requests sent on with the paths judged. *)
Fixpoint inspect_loop (rs : list ireq) (t : Target) (authority callID : string) : list Event * list (ireq * string) :=
  match rs with
  | [] => ([], [])
  | r :: rs =>
      let j := inspectOne r t authority callID in
      let sent := match jd_sent j with Some path => [(r, path)] | None => [] end in
      if negb (jd_on j) || iq_Close r then ([jd_event j], sent)
      else let '(evs, more) := inspect_loop rs t authority callID in (jd_event j :: evs, (sent ++ more)%list)
  end.

(** ** The tunnel *)

(** What the client does first: it goes away, waits for the server, or speaks. *)
Inductive hello : Type := Gone | Silent | Spoke (first : ascii).

Record tunnel_io : Type := MkTunnelIO {
  ti_answered : bool;               (* the 200 could be written *)
  ti_hello : hello;
  ti_client : option string;        (* the client's handshake, when it fails *)
  ti_ServerName : string;
  ti_server : option string;        (* the server's handshake, when it fails *)
  ti_requests : list ireq
}.

(** What is recorded while the tunnel is open, the tunnel's own event as it is
    recorded at its end, whether bytes were copied uninspected, and the requests
    sent on. *)
Record inspected : Type := MkInspected {
  in_events : list Event; in_ev : Event; in_through : bool; in_sent : list (ireq * string)
}.

Definition tls_event (callID : string) (t : Target) (why : string) : Event :=
  set_verdict Deny "tls" why (inside_event callID t "").

(** [GetCertificate]'s refusal of another name. *)
Definition wrong_name (server_name : string) (t : Target) : option string :=
  if negb (String.eqb server_name "") && negb (EqualFold (TrimSuffix server_name ".") (t_Host t))
  then Some ("the TLS name " ++ Quote server_name ++ " is not the tunnel's host") else None.

Definition serverFirstWait_text : string := "1.5s".

(** A tunnel that does not carry TLS is judged by host and port. *)
Definition not_tls (t : Target) (ev : Event) (why : string) : inspected :=
  let v := Decide p_policy (target_request t) in
  if negb (Allowed v) then
    MkInspected [] (set_verdict (vd_Decision v) (vd_Rule v) (vd_Reason v ++ "; " ++ why ++ ", so it is judged by host and port") ev) false []
  else MkInspected [] (add_reason ("; " ++ why ++ ", passed through as a tunnel") ev) true [].

Definition inspectTunnel (io : tunnel_io) (t : Target) (callID : string) (ev : Event) : inspected :=
  if negb (ti_answered io) then MkInspected [] ev false []
  else
    match ti_hello io with
    | Gone => MkInspected [] ev false []
    | Silent => not_tls t ev ("the client sent nothing for " ++ serverFirstWait_text ++ ", so the tunnel is not TLS")
    | Spoke c =>
        if negb (bv c =? 0x16)%N then not_tls t ev "the tunnel does not carry TLS"
        else
          let ev := add_reason "; TLS inspected" ev in
          match match ti_client io with Some e => Some e | None => wrong_name (ti_ServerName io) t end with
          | Some e =>
              MkInspected [tls_event callID t ("the client's TLS handshake failed (does it trust the session's CA?): " ++ e)] ev false []
          | None =>
              match ti_server io with
              | Some e => MkInspected [tls_event callID t ("the server's certificate could not be verified: " ++ e)] ev false []
              | None =>
                  let '(evs, sent) := inspect_loop (ti_requests io) t (Authority t) callID in
                  MkInspected evs ev false sent
              end
          end
    end.
End inspect.
