(* ===== verification/EgressProxy.v ===== *)
(** The session's forward proxy (src/internal/egress/proxy.go): the dial of what a
    verdict allows, direct or through the corporate proxy, and the handler of
    one connection, from its request's head to its record.

    A handler runs against the credentials and the synthetic addresses as they
    are when it looks; what other goroutines do meanwhile that it can see (its
    call ended, the proxy closing) is input. *)

From Stdlib Require Import ZArith NArith Ascii String Lia Bool.
From stdpp Require Import base tactics list option gmap strings.
From S2P Require Import Prelude.
From S2P Require Import AddrSpec.
From S2P Require Import GoStd.
From S2P Require Import Errors.
From S2P Require Import GoNet.
From S2P Require Import Egress.
From S2P Require Import EgressRecord.
From S2P Require Import EgressCalls.
From S2P Require Import EgressSynth.
From S2P Require Import EgressTarget.
From S2P Require Import EgressUpstream.
From S2P Require Import EgressInspect.

#[local] Open Scope string_scope.
#[local] Open Scope Z_scope.

(** ** Dialling *)

(** A connection made, or tried: to an address, or to the corporate proxy with
    what was written to it before the connection was handed over. *)
Inductive attempt : Type :=
  | ToAddr (a : Addr) (port : Z)
  | ToUpstream (sent : option string).

Inductive dial_error : Type :=
  | DRefused (r : refusal)
  | DUpstream (u : Upstream) (e : up_error)
  | DFailed (text : string).

Record dial_outcome : Type := MkDial {
  do_tried : list attempt; do_conn : option attempt; do_ip : string;
  do_via : option Upstream; do_byProxy : bool; do_err : option dial_error
}.

(** The machine the proxy runs on: its own address, the resolver, the network,
    and the corporate proxy in force. [net_connect] is an error or a connection. *)
Record host_env : Type := MkEnv {
  en_own : Addr * Z;
  en_lookup : string → resolve_error + list Addr;
  net_connect : Addr → option string;
  en_upstream : option Upstream;
  en_proxy : ProxyNet
}.

(** [kindOf]. *)
Definition kindOf (method : string) : string := if String.eqb method "CONNECT" then "connect" else "http".

Section proxy.
Context (ParseAddr : string → option Addr) (AddrString : Addr → string) (ParsePrefix : string → option Prefix).
Context (ParseURL : string → option URL) (EscapedPath : URL → string).
Context (sha256 : string → string) (DecodeBase64 : string → option string) (EncodeBase64 : string → string).
Context (StatusText : Z → string) (DurationText : Z → string).
Context (env : host_env) (p_policy : Policy) (opt_idle : Z).

(** [Proxy.resolve]. *)
Definition resolve (host : string) : resolve_error + list Addr :=
  match ParseAddr host with Some a => inr [a] | None => en_lookup env host end.

Definition resolve_result (host : string) : result (list Addr) :=
  match resolve host with inl e => Fail (plain (re_text e)) | inr l => Ok l end.

Definition connects (a : Addr) : bool := negb (opt_some (net_connect env a)).

(** [Proxy.dialDirect]. *)
Definition dial_direct (t : Target) (v : Verdict) : dial_outcome :=
  let failed tried ip e := MkDial tried None ip None false (Some e) in
  match dialDirect (en_own env) resolve_result connects (t_Host t) (t_Port t) v with
  | resolve_failed e => failed [] "" (DFailed (e_text e))
  | no_address => failed [] "" (DFailed (t_Host t ++ " has no address"))
  | dial_refused r => failed [] (AddrString (rf_addr r)) (DRefused r)
  | dialled tried (Some a) =>
      MkDial (map (λ a, ToAddr a (t_Port t)) tried) (Some (ToAddr a (t_Port t))) (AddrString a) None false None
  | dialled tried None =>
      failed (map (λ a, ToAddr a (t_Port t)) tried) (default "" (AddrString <$> head tried))
        (DFailed (default "" (last tried ≫= net_connect env)))
  end.

(** The connection to the corporate proxy, for what [t] asks. *)
Definition dial_up (u : Upstream) (t : Target) : bool * option string * option up_error :=
  if t_Tunnel t then DialTunnel EncodeBase64 u (en_proxy env) (Authority t) else DialForward u (en_proxy env).

(** [Proxy.dial]. *)
Definition dial (t : Target) (v : Verdict) : dial_outcome :=
  match en_upstream env with
  | Some u =>
      if Bypass ParseAddr ParsePrefix u (t_Host t) then dial_direct t v
      else
        match precheck ParseAddr u resolve (t_Host t) (vd_Exact v && bool_decide (vd_Decision v = Allow)) with
        | inl r => MkDial [] None "" None false (Some (DRefused r))
        | inr (addrs, byProxy) =>
            match first_refusal (en_own env) (t_Host t) (t_Port t) (vd_AllowIPs v) addrs with
            | Some r => MkDial [] None (AddrString (rf_addr r)) None false (Some (DRefused r))
            | None =>
                let '(made, sent, err) := dial_up u t in
                MkDial (if (made : bool) then [ToUpstream sent] else [])
                  (match err with Some _ => None | None => Some (ToUpstream sent) end)
                  "" (Some u) byProxy (DUpstream u <$> err)
            end
        end
  | None => dial_direct t v
  end.

(** [Error] of what a dial comes to. *)
Definition dial_error_text (e : dial_error) : string :=
  match e with
  | DRefused r => refusal_Error AddrString r
  | DUpstream u e => up_error_text StatusText u e
  | DFailed t => t
  end.

(** ** One connection *)

(** What is read of a connection's head: nothing, something malformed, or a
    request with its method, its target and its Proxy-Authorization header. *)
Inductive request_head : Type :=
  | HeadEnds
  | HeadBad (text : string)
  | Head (method target auth : string).

(** What the handler sees of the rest of the world: the clock, its call ended
    while it dialled, the proxy closing, the bytes of the connection, whether
    it was closed for silence, what a tunnel's client does, and what becomes of a
    plain request sent on: not written whole, answered with something malformed,
    or answered. *)
Inductive forward_io : Type := NotWritten | BadResponse | CopiedBack.
Record conn_io : Type := MkConnIO {
  io_now : Z; io_over : bool; io_closing : bool; io_in : Z; io_out : Z; io_idled : bool; io_tunnel : tunnel_io; io_forward : forward_io
}.

(** What the handler uses of the proxy's state. *)
Record proxy_state : Type := MkProxyState { px_creds : Creds; px_pool : option synthPool }.

(** Every event recorded, the status answered by the proxy itself, every
    connection tried, the one made, whether something of the request itself went on
    (a plain request written to the connection, a tunnel's bytes copied unseen), and
    the requests an inspected tunnel sent on. *)
Record handled : Type := MkHandled {
  hd_events : list Event; hd_status : option (Z * string); hd_tried : list attempt; hd_conn : option attempt;
  hd_through : bool; hd_sent : list (ireq * string)
}.

Definition answered (evs : list Event) (code : Z) (body : string) : handled :=
  MkHandled evs (Some (code, "abhed egress: " ++ body ++ String newline "")) [] None false [].

Definition request_event (callID kind : string) (rule reason : string) : Event :=
  MkEvent callID kind "" 0 "" "" "" Deny rule reason 0 0 "" "" "" 0.

(** The credential a connection is served under: the call's own listener, or
    the header. *)
Definition authenticate (bound : option string) (auth : string) (p : Creds) : ((string * auth_error) + string) * string :=
  match bound with
  | Some token => (authorizeKey (tokenKey sha256 token) p, tokenKey sha256 token)
  | None => authorize sha256 DecodeBase64 TrimSpace auth p
  end.

(** The event of a request with its target. *)
Definition target_event (callID : string) (t : Target) : Event :=
  MkEvent callID (kindOf (t_Method t)) (t_Host t) (t_Port t) "" "" "" Allow "" "" 0 0 "" "" "" 0.

Definition set_synthetic (host synthetic : string) (e : Event) : Event :=
  MkEvent (CallID e) (Kind e) host (Port e) (IP e) (Method e) (Path e)
    (ev_Decision e) (ev_Rule e) (Reason e) (BytesIn e) (BytesOut e) synthetic (EgressRecord.Upstream e)
    (Resolved e) (Repeats e).

Definition set_request (method path : string) (e : Event) : Event :=
  MkEvent (CallID e) (Kind e) (Host e) (Port e) (IP e) method path
    (ev_Decision e) (ev_Rule e) (Reason e) (BytesIn e) (BytesOut e) (Synthetic e) (EgressRecord.Upstream e)
    (Resolved e) (Repeats e).

Definition set_route (ip upstream resolved : string) (e : Event) : Event :=
  MkEvent (CallID e) (Kind e) (Host e) (Port e) ip (Method e) (Path e)
    (ev_Decision e) (ev_Rule e) (Reason e) (BytesIn e) (BytesOut e) (Synthetic e) upstream
    resolved (Repeats e).

Definition set_bytes (i o : Z) (e : Event) : Event :=
  MkEvent (CallID e) (Kind e) (Host e) (Port e) (IP e) (Method e) (Path e)
    (ev_Decision e) (ev_Rule e) (Reason e) i o (Synthetic e) (EgressRecord.Upstream e)
    (Resolved e) (Repeats e).

(** A resolver's address stands for its name: the target aimed at the name, or
    the address that stands for none. *)
Definition aim (now : Z) (t : Target) (pool : option synthPool) : (Addr + (Target * string)) * option synthPool :=
  match pool with
  | None => (inr (t, ""), None)
  | Some sp =>
      match Unmap <$> ParseAddr (t_Host t) with
      | Some (V4 n) =>
          if PrefixContains SynthPrefix (V4 n) then
            match synth_lookup now n sp with
            | (None, sp) => (inl (V4 n), Some sp)
            | (Some name, sp) => (inr (WithHost name t, AddrString (V4 n)), Some sp)
            end
          else (inr (t, ""), pool)
      | _ => (inr (t, ""), pool)
      end
  end.

(** The verdict on a target, and whether its tunnel is inspected. *)
Definition judge (t : Target) : Verdict * bool :=
  if t_Tunnel t && pl_inspect p_policy then (DecideHost p_policy (target_request t), true)
  else (Decide p_policy (target_request t), false).

Definition idle_time : Z := if opt_idle <=? 0 then Idle p_policy else opt_idle.

(** [Proxy.tunnel], which copies once its 200 is written: whether it did. *)
Definition tunnel (io : tunnel_io) : bool := ti_answered io.

(** [Proxy.forward]: whether the request was written on, and the status the proxy
    answers itself when it comes to nothing. *)
Definition forward (io : forward_io) (via : option Upstream) : bool * option (Z * string) :=
  let failed (body : string) := Some (502, "abhed egress: " ++ body ++ String newline "") in
  let written :=
    match io with
    | NotWritten => failed "sending the request failed"
    | BadResponse => failed "the upstream response was malformed"
    | CopiedBack => None
    end in
  match via with
  | Some u =>
      match ForwardHeader EncodeBase64 u with
      | inl _ => (false, failed "the upstream proxy's credentials could not be read")
      | inr _ => (true, written)
      end
  | None => (true, written)
  end.

(** A connection that was made: what is copied, and its event at its end. *)
Definition serve_conn (io : conn_io) (t : Target) (inspect : bool) (callID : string) (ev : Event)
    (tried : list attempt) (c : attempt) (via : option Upstream) : handled :=
  if io_closing io then MkHandled [] None tried (Some c) false []
  else
    let '(r, status) :=
      if inspect then (inspectTunnel ParseAddr AddrString ParseURL EscapedPath p_policy (io_tunnel io) t callID ev, None)
      else if t_Tunnel t then (MkInspected [] ev (tunnel (io_tunnel io)) [], None)
      else let '(through, status) := forward (io_forward io) via in (MkInspected [] ev through [], status) in
    let ev := in_ev r in
    let ev := if io_idled io then add_reason ("; closed after " ++ DurationText idle_time ++ " with no bytes either way") ev else ev in
    MkHandled (in_events r ++ [set_bytes (io_in io) (io_out io) ev])%list status tried (Some c) (in_through r) (in_sent r).

(** A request whose verdict lets it through: dialled, and served or refused. *)
Definition connect (io : conn_io) (t : Target) (v : Verdict) (inspect : bool) (callID : string) (ev : Event) : handled :=
  let d := dial t v in
  let ev := set_route (do_ip d) (match do_via d with Some u => up_Authority u | None => "" end)
              (if do_byProxy d then "proxy" else "") ev in
  let stop ev code body :=
    MkHandled [ev] (Some (code, "abhed egress: " ++ body ++ String newline "")) (do_tried d) None false [] in
  match do_err d, do_conn d with
  | None, Some c => serve_conn io t inspect callID ev (do_tried d) c (do_via d)
  | None, None => MkHandled [] None (do_tried d) None false []    (* no dial ends so *)
  | Some e, _ =>
      if io_over io then
        stop (set_verdict Deny (ev_Rule ev) (auth_error_text errCallEnded) ev) 407 (auth_error_text errCallEnded)
      else
        match e with
        | DRefused r =>
            stop (set_verdict Deny (ev_Rule ev) (refusal_Error AddrString r) ev) 403 (refusal_Error AddrString r)
        | e =>
            stop (set_verdict (ev_Decision ev) (ev_Rule ev) (vd_Reason v ++ "; dial failed: " ++ dial_error_text e) ev) 502
              (match e with
               | DUpstream u (UpRefused target status) => up_error_text StatusText u (UpRefused target status)
               | _ => "could not reach " ++ Authority t
               end)
        end
  end.

(** A request of an authorised connection. *)
Definition handle_request (io : conn_io) (method target callID : string) (pool : option synthPool)
    : handled * option synthPool :=
  match ParseTarget ParseAddr AddrString ParseURL EscapedPath method target with
  | Fail e => (answered [request_event callID (kindOf method) "parse" (e_text e)] 400 (e_text e), pool)
  | Ok t0 =>
      let ev0 := target_event callID t0 in
      match aim (io_now io) t0 pool with
      | (inl a, pool) =>
          let why := AddrString a ++ " was not given out by this session's resolver, or its mapping has expired" in
          (answered [set_verdict Deny "dns" why ev0] 403 why, pool)
      | (inr (t, synthetic), pool) =>
          let ev := set_synthetic (t_Host t) synthetic ev0 in
          let ev := if t_Tunnel t then ev else set_request (t_Method t) (t_Path t) ev in
          let '(v, inspect) := judge t in
          let ev := set_verdict (vd_Decision v) (vd_Rule v) (vd_Reason v) ev in
          if negb (Allowed v) then
            (answered [ev] 403 (Authority t ++ " refused by " ++ vd_Rule v ++ ": " ++ vd_Reason v), pool)
          else (connect io t v inspect callID ev, pool)
      end
  end.

(** [handleAs]: connection [c], of a call's own listener when [bound] is its
    token. *)
Definition handleAs (io : conn_io) (c : nat) (bound : option string) (h : request_head) (s : proxy_state)
    : handled * proxy_state :=
  match h with
  | HeadEnds => (answered [] 400 "malformed request", s)
  | HeadBad e => (answered [request_event "" "request" "parse" ("refused before it was read: " ++ e)] 400 "malformed request", s)
  | Head method target auth =>
      let refuse callID e :=
        (answered [request_event callID "auth" "auth" (auth_error_text e)] 407 (auth_error_text e), s) in
      match authenticate bound auth (px_creds s) with
      | (inl (callID, e), _) => refuse callID e
      | (inr callID, key) =>
          match bind key c (px_creds s) with
          | (false, _) => refuse callID errCallEnded
          | (true, creds) =>
              let '(r, pool) := handle_request io method target callID (px_pool s) in
              (r, MkProxyState (unbind key c creds) pool)
          end
      end
  end.
End proxy.

(** * Theorems

    The proxy connects only where it decided to: every connection tried is of an
    open call, to an allowed target, and to an address checked here; and what is
    recorded of a request is what was done with it. *)

Section proxy.
Context (ParseAddr : string → option Addr) (AddrString : Addr → string) (ParsePrefix : string → option Prefix).
Context (ParseURL : string → option URL) (EscapedPath : URL → string).
Context (sha256 : string → string) (DecodeBase64 : string → option string) (EncodeBase64 : string → string).
Context (StatusText : Z → string) (DurationText : Z → string).
Context (env : host_env) (p_policy : Policy) (opt_idle : Z).

#[local] Abbreviation ParseTarget := (ParseTarget ParseAddr AddrString ParseURL EscapedPath).
#[local] Abbreviation aim := (aim ParseAddr AddrString).
#[local] Abbreviation resolve := (resolve ParseAddr env).
#[local] Abbreviation dial := (dial ParseAddr AddrString ParsePrefix EncodeBase64 env).
#[local] Abbreviation connect := (connect ParseAddr AddrString ParsePrefix ParseURL EscapedPath EncodeBase64 StatusText DurationText env p_policy opt_idle).
#[local] Abbreviation handle_request := (handle_request ParseAddr AddrString ParsePrefix ParseURL EscapedPath EncodeBase64 StatusText DurationText env p_policy opt_idle).
#[local] Abbreviation handleAs := (handleAs ParseAddr AddrString ParsePrefix ParseURL EscapedPath sha256 DecodeBase64 EncodeBase64 StatusText DurationText env p_policy opt_idle).
#[local] Abbreviation authenticate := (authenticate sha256 DecodeBase64).

(** ** Dials *)

(** An address the verdict reaches: not the proxy itself, and named in
    allow_ips or on the public internet. *)
Definition reaches (v : Verdict) (port : Z) (a : Addr) : Prop :=
  self (en_own env) (Unmap a) port = false ∧
  (named (vd_AllowIPs v) (Unmap a) = true ∨ AddrRefusal (Unmap a) = "").

Lemma check_addr_reaches host port v a : check_addr (en_own env) host port (vd_AllowIPs v) a = None → reaches v port a.
Proof.
  unfold check_addr, reaches. destruct (self _ _ _); [done|]. destruct (named _ _); [auto|].
  destruct (String.eqb_spec (AddrRefusal (Unmap a)) ""); [auto|done].
Qed.

(** What a connection tried for [t] under [v] is: an address the name has here,
    every one of which the verdict reaches; or the corporate proxy, for a name
    that is not reached directly, whose addresses here, if it has any, are
    reached as well, and that only the proxy resolves when it has none. *)
Definition attempt_ok (t : Target) (v : Verdict) (x : attempt) : Prop :=
  match x with
  | ToAddr a port =>
      port = t_Port t ∧ ∃ addrs, resolve (t_Host t) = inr addrs ∧ Forall (reaches v port) addrs ∧ a ∈ map Unmap addrs
  | ToUpstream _ =>
      ∃ u, en_upstream env = Some u ∧ Bypass ParseAddr ParsePrefix u (t_Host t) = false ∧
        ∃ addrs byProxy, precheck ParseAddr u resolve (t_Host t) (vd_Exact v && bool_decide (vd_Decision v = Allow)) = inr (addrs, byProxy) ∧
          Forall (reaches v (t_Port t)) addrs ∧
          (addrs = [] → byProxy = true ∧ up_ResolveViaProxy u = true ∧ vd_Exact v = true ∧ vd_Decision v = Allow)
  end.

Lemma precheck_via u host anchored addrs b : precheck ParseAddr u resolve host anchored = inr (addrs, b) →
  addrs = [] → b = true ∧ up_ResolveViaProxy u = true ∧ anchored = true.
Proof.
  unfold precheck. destruct (ParseAddr _); [intros [= <- <-]; done|]. destruct (resolve host) as [e|[|a l]]; [|done|by intros [= <- <-]].
  destruct (re_notFound e); [|done]. destruct (up_ResolveViaProxy u); [|done]. destruct anchored; [|done]. by intros [= <- <-].
Qed.

Lemma dial_direct_ok t v : Forall (attempt_ok t v) (do_tried (dial_direct ParseAddr AddrString env t v)).
Proof.
  unfold dial_direct. set (R := dialDirect _ _ _ _ _ _).
  assert (match R with dialled tried _ => Forall (attempt_ok t v) (map (λ a, ToAddr a (t_Port t)) tried) | _ => True end) as H.
  { unfold R, dialDirect, resolve_result. destruct (resolve (t_Host t)) as [|[|x l]] eqn:Er; [done..|].
    destruct (first_refusal _ _ _ _ _) eqn:Ef; [done|]. destruct (dial_each _ _) as [tried c] eqn:Ed.
    rewrite Forall_forall. intros y (a & -> & Ha)%list_elem_of_fmap. split; [done|]. exists (x :: l). split_and!; [done| |].
    - apply Forall_forall. intros b Hb. eapply check_addr_reaches, first_refusal_None; [exact Ef|done].
    - destruct (dial_each_tried (connects env) (x :: l) a) as (b & Hb & ->); [by rewrite Ed|].
      apply (list_elem_of_fmap_2 Unmap). done. }
  destruct R as [| | |tried [a|]]; cbn [do_tried]; [constructor..|done|done].
Qed.

Lemma dial_ok t v : Forall (attempt_ok t v) (do_tried (dial t v)).
Proof.
  unfold dial. destruct (en_upstream env) as [u|] eqn:Eu; [|apply dial_direct_ok].
  destruct (Bypass _ _ u _) eqn:Eb; [apply dial_direct_ok|].
  destruct (precheck _ _ _ _ _) as [r|[addrs b]] eqn:Ep; [constructor|].
  destruct (first_refusal _ _ _ _ _) eqn:Ef; [constructor|].
  destruct (dial_up _ _ _ _) as [[made sent] err]. cbn [do_tried]. destruct made; [|constructor].
  constructor; [|constructor]. exists u. split_and!; [done..|]. exists addrs, b. split_and!; [done| |].
  - apply Forall_forall. intros a Ha. eapply check_addr_reaches, first_refusal_None; done.
  - intros ->. destruct (precheck_via _ _ _ _ _ Ep eq_refl) as (-> & -> & Ha).
    apply andb_true_iff in Ha as [-> Hd%bool_decide_eq_true]. done.
Qed.

(** ** Requests *)

(** The requests an inspected tunnel of [t] sent on. *)
Definition sent_ok (t : Target) (x : ireq * string) : Prop :=
  EqualFold (TrimSuffix (Trim (named_host (iq_Host x.1)) "[]") ".") (t_Host t) = true ∧
  plainPath x.2 = None ∧
  Allowed (Decide p_policy (MkRequest (t_Host t) (t_Port t) false (iq_Method x.1) x.2)) = true.

#[local] Abbreviation inspectOne := (inspectOne ParseAddr AddrString ParseURL EscapedPath p_policy).
#[local] Abbreviation inspect_loop := (inspect_loop ParseAddr AddrString ParseURL EscapedPath p_policy).
#[local] Abbreviation inspectTunnel := (inspectTunnel ParseAddr AddrString ParseURL EscapedPath p_policy).

Lemma parseAbsolute_path m raw t : parseAbsolute ParseAddr AddrString ParseURL EscapedPath m raw = Ok t → plainPath (t_Path t) = None.
Proof.
  unfold parseAbsolute. destruct (ParseURL raw) as [u|]; [|done].
  destruct (negb _); [by destruct (EqualFold _ _)|]. destruct (_ || _); [done|].
  destruct (CanonicalHost _ _ _); [|done]. destruct (url_port u); [|done]. destruct (encoded_separator _); [done|].
  destruct (plainPath _) eqn:E; [done|]. by intros [= <-].
Qed.

Lemma inspectOne_sent r t auth call path : jd_sent (inspectOne r t auth call) = Some path →
  sent_ok t (r, path) ∧ Path (jd_event (inspectOne r t auth call)) = path ∧ ev_Decision (jd_event (inspectOne r t auth call)) ≠ Deny.
Proof.
  unfold inspectOne, EgressInspect.inspectOne. destruct (HasPrefix _ _); [|done].
  destruct (EqualFold _ _) eqn:Eh; [|done]. destruct (String.eqb _ _); [|done]. cbn [negb].
  destruct (parseAbsolute _ _ _ _ _ _) as [inner|] eqn:Ep; [|done].
  destruct (Allowed _) eqn:Ea; [|done]. cbn [negb].
  assert (vd_Decision (Decide p_policy (MkRequest (t_Host t) (t_Port t) false (iq_Method r) (t_Path inner))) ≠ Deny) as Hd.
  { unfold Allowed in Ea. by apply negb_true_iff, bool_decide_eq_false in Ea. }
  intros H. assert (path = t_Path inner) as -> by (destruct (iq_exchange r); by injection H as <-).
  split_and!; [split_and!; [done|by eapply parseAbsolute_path|done] | |]; destruct (iq_exchange r); done.
Qed.

Lemma inspect_loop_sent rs t auth call : Forall (sent_ok t) (snd (inspect_loop rs t auth call)).
Proof.
  induction rs as [|r rs IH]; [constructor|]. cbn [EgressInspect.inspect_loop].
  assert (Forall (sent_ok t) (match jd_sent (inspectOne r t auth call) with Some path => [(r, path)] | None => [] end)) as Hs.
  { destruct (jd_sent _) as [path|] eqn:E; [|constructor]. constructor; [|constructor]. by eapply inspectOne_sent. }
  destruct (negb _ || _); [done|]. destruct (inspect_loop rs t auth call) as [evs more]. by apply Forall_app.
Qed.

Lemma not_tls_ok t ev why : let r := not_tls p_policy t ev why in
  in_sent r = [] ∧ in_events r = [] ∧
  (in_through r = true → Allowed (Decide p_policy (target_request t)) = true ∧ ev_Decision (in_ev r) = ev_Decision ev) ∧
  (in_through r = false → ev_Decision (in_ev r) = Deny).
Proof.
  unfold not_tls. destruct (Allowed _) eqn:E; cbn; split_and!; try done.
  intros _. unfold Allowed in E. by apply negb_false_iff, bool_decide_eq_true in E.
Qed.

(** What a tunnel that is looked into lets through. *)
Lemma inspectTunnel_ok io t call ev : let r := inspectTunnel io t call ev in
  Forall (sent_ok t) (in_sent r) ∧
  (in_through r = true → Allowed (Decide p_policy (target_request t)) = true) ∧
  (ev_Decision ev ≠ Deny → ev_Decision (in_ev r) = Deny → in_through r = false ∧ in_sent r = []).
Proof.
  unfold inspectTunnel, EgressInspect.inspectTunnel. destruct (ti_answered io); cbn [negb]; [|by repeat split].
  assert (∀ why, let r := not_tls p_policy t ev why in Forall (sent_ok t) (in_sent r) ∧
    (in_through r = true → Allowed (Decide p_policy (target_request t)) = true) ∧
    (ev_Decision ev ≠ Deny → ev_Decision (in_ev r) = Deny → in_through r = false ∧ in_sent r = [])) as Hnot.
  { intros why. destruct (not_tls_ok t ev why) as (H1 & H2 & H3 & H4). cbv zeta. rewrite H1. split_and!; [constructor|tauto|].
    intros Hd Hd'. split; [|done]. destruct (in_through _); [|done]. destruct H3 as [_ H3]; [done|]. congruence. }
  destruct (ti_hello io) as [| |c]; [by repeat split|apply Hnot|]. destruct (_ =? _)%N; cbn [negb]; [|apply Hnot].
  destruct (match ti_client io with Some e => _ | None => _ end); [by repeat split|].
  destruct (ti_server io); [by repeat split|]. pose proof (inspect_loop_sent (ti_requests io) t (Authority t) call) as Hs.
  destruct (inspect_loop _ _ _ _) as [evs sent]. cbn in *. split_and!; [done|done|]. by intros.
Qed.

(** Everything done for a request aimed at [t] under verdict [v]. *)
Definition done_ok (t : Target) (v : Verdict) (r : handled) : Prop :=
  Forall (attempt_ok t v) (hd_tried r) ∧ Forall (sent_ok t) (hd_sent r) ∧
  (hd_through r = true → Allowed (Decide p_policy (target_request t)) = true).

Lemma connect_ok io t callID ev : let '(v, inspect) := judge p_policy t in
  Allowed v = true → done_ok t v (connect io t v inspect callID ev).
Proof.
  destruct (judge p_policy t) as [v inspect] eqn:Ej. intros Hv. unfold connect, EgressProxy.connect.
  pose proof (dial_ok t v) as Hd. set (d := dial t v) in *. set (ev' := set_route _ _ _ ev).
  assert (∀ evs st, done_ok t v (MkHandled evs st (do_tried d) None false [])) as Hstop.
  { intros. split_and!; [done|constructor|done]. }
  destruct (do_err d) as [e|]; [destruct (io_over io); [apply Hstop|destruct e; apply Hstop]|].
  destruct (do_conn d) as [c|]; [|apply Hstop]. unfold serve_conn. destruct (io_closing io).
  { split_and!; [done|constructor|done]. }
  destruct inspect.
  - destruct (inspectTunnel_ok (io_tunnel io) t callID ev') as (H1 & H2 & _). by split_and!.
  - assert (Allowed (Decide p_policy (target_request t)) = true) as Ha.
    { unfold judge in Ej. destruct (t_Tunnel t && pl_inspect p_policy); congruence. }
    destruct (t_Tunnel t); [by split_and!|]. destruct (forward _ _ _) as [through status]. by split_and!.
Qed.

(** C3: Whatever connection comes, of whatever call and with whatever bytes: a
    connection is tried only for a request of a credential that an open call
    holds, that parses and whose target the policy allows; and then every
    address dialled is one of the host's, all of which are the public internet's
    or named by the rules that allow it and none the proxy itself. The corporate
    proxy is dialled only for a host whose addresses here pass the same check,
    or that has none here and an allow rule names exactly. In a tunnel that is
    looked into, only requests the policy allows are sent on, and a plain request is
    forwarded, or bytes are copied unseen, only when it allows the request itself. *)
Theorem connects_only_where_allowed io c bound h s :
  let r := fst (handleAs io c bound h s) in
  hd_tried r ≠ [] ∨ hd_conn r ≠ None ∨ hd_through r = true ∨ hd_sent r ≠ [] →
  ∃ method target auth callID key t0 t synthetic pool v inspect,
    h = Head method target auth ∧
    authenticate bound auth (px_creds s) = (inr callID, key) ∧ fst (bind key c (px_creds s)) = true ∧
    ParseTarget method target = Ok t0 ∧ aim (io_now io) t0 (px_pool s) = (inr (t, synthetic), pool) ∧
    judge p_policy t = (v, inspect) ∧ Allowed v = true ∧ done_ok t v r.
Proof.
  unfold handleAs, EgressProxy.handleAs. intros Hr. destruct h as [|e|method target auth]; cbn in Hr; [naive_solver..|].
  destruct (authenticate bound auth (px_creds s)) as [[[callID e]|callID] key] eqn:Ea; cbn in Hr; [naive_solver|].
  destruct (bind key c (px_creds s)) as [[] creds] eqn:Eb; cbn in Hr; [|naive_solver].
  unfold EgressProxy.handle_request in *. destruct (ParseTarget method target) as [t0|e] eqn:Et; cbn in Hr; [|naive_solver].
  destruct (aim (io_now io) t0 (px_pool s)) as [[a|[t syn]] pool] eqn:Em; cbn in Hr; [naive_solver|].
  set (ev := if t_Tunnel t then _ else _) in *. destruct (judge p_policy t) as [v inspect] eqn:Ej.
  destruct (Allowed v) eqn:Ev; cbn in Hr; [|naive_solver].
  exists method, target, auth, callID, key, t0, t, syn, pool, v, inspect. rewrite Eb. split_and!; [done..|].
  cbn [negb]. pose proof (connect_ok io t callID (set_verdict (vd_Decision v) (vd_Rule v) (vd_Reason v) ev)) as H.
  rewrite Ej in H. by apply H.
Qed.
(** ** The record *)

(** The event of a request sent on inside a tunnel. *)
Definition event_of (callID : string) (x : ireq * string) (e : Event) : Prop :=
  CallID e = callID ∧ Kind e = "https" ∧ Method e = iq_Method x.1 ∧ Path e = x.2 ∧ ev_Decision e ≠ Deny.

Definition inside_ok (callID : string) (evs : list Event) (sent : list (ireq * string)) : Prop :=
  Forall (λ e, CallID e = callID ∧ Kind e = "https") evs ∧
  sublist (map snd sent) (map Path evs) ∧ ∀ x, x ∈ sent → ∃ e, e ∈ evs ∧ event_of callID x e.

Lemma inspectOne_event r t auth call : let e := jd_event (inspectOne r t auth call) in
  CallID e = call ∧ Kind e = "https" ∧ Method e = iq_Method r.
Proof.
  unfold inspectOne, EgressInspect.inspectOne. destruct (negb (HasPrefix _ _)); [done|].
  destruct (negb (EqualFold _ _)); [done|]. destruct (negb (String.eqb _ _)); [done|].
  destruct (parseAbsolute _ _ _ _ _ _); [|done]. destruct (negb _); [done|]. by destruct (iq_exchange r).
Qed.

Lemma inspect_loop_events rs t auth call : let r := inspect_loop rs t auth call in inside_ok call r.1 r.2.
Proof.
  induction rs as [|r rs IH]; [split; [constructor|split; [constructor|by intros ? ?%elem_of_nil]]|].
  cbn [EgressInspect.inspect_loop]. set (j := inspectOne r t auth call) in *.
  destruct (inspectOne_event r t auth call) as (Hc & Hk & Hm). fold j in Hc, Hk, Hm.
  set (sent := match jd_sent j with Some path => [(r, path)] | None => [] end).
  assert (∀ path, jd_sent j = Some path → event_of call (r, path) (jd_event j)) as Hev.
  { intros path Hp. destruct (inspectOne_sent r t auth call path Hp) as (_ & Hpath & Hd). by split_and!. }
  assert (sublist (map snd sent) [Path (jd_event j)] ∧ ∀ x, x ∈ sent → event_of call x (jd_event j)) as [Hsub Hin].
  { unfold sent. destruct (jd_sent j) as [path|] eqn:E; [|split; [apply sublist_nil_l|by intros ? ?%elem_of_nil]].
    pose proof (Hev _ eq_refl) as He. split; [destruct He as (_ & _ & _ & -> & _); done|].
    by intros x ->%list_elem_of_singleton. }
  destruct (negb _ || _).
  - split; [by constructor|]. split; [done|]. intros x Hx. exists (jd_event j). split; [by left|auto].
  - destruct (inspect_loop rs t auth call) as [evs more]. destruct IH as (H1 & H2 & H3). cbn [fst snd] in *. split; [by constructor|].
    split; [rewrite map_app; change (map Path (jd_event j :: evs)) with ([Path (jd_event j)] ++ map Path evs)%list; by apply sublist_app|].
    intros x [Hx|Hx]%elem_of_app; [exists (jd_event j); split; [by left|auto]|].
    destruct (H3 x Hx) as (e & He & ?). exists e. split; [by right|done].
Qed.

Lemma inspectTunnel_events io t call ev : let r := inspectTunnel io t call ev in
  inside_ok call (in_events r) (in_sent r) ∧ CallID (in_ev r) = CallID ev ∧ Host (in_ev r) = Host ev.
Proof.
  assert (∀ evs ev', Forall (λ e, CallID e = call ∧ Kind e = "https") evs → CallID ev' = CallID ev → Host ev' = Host ev →
    let r := MkInspected evs ev' false [] in inside_ok call (in_events r) (in_sent r) ∧ CallID (in_ev r) = CallID ev ∧ Host (in_ev r) = Host ev) as Hnone.
  { intros evs ev' He Hc. split; [split; [done|split; [apply sublist_nil_l|by intros ? ?%elem_of_nil]]|done]. }
  assert (∀ why, let r := not_tls p_policy t ev why in
    inside_ok call (in_events r) (in_sent r) ∧ CallID (in_ev r) = CallID ev ∧ Host (in_ev r) = Host ev) as Hnot.
  { intros why. unfold not_tls. destruct (negb _); [by apply Hnone|].
    split; [split; [done|split; [constructor|by intros ? ?%elem_of_nil]]|done]. }
  unfold inspectTunnel, EgressInspect.inspectTunnel. destruct (negb _); [by apply Hnone|].
  destruct (ti_hello io) as [| |c]; [by apply Hnone|apply Hnot|]. destruct (negb _); [apply Hnot|].
  destruct (match ti_client io with Some e => _ | None => _ end); [apply Hnone; [by repeat constructor|done..]|].
  destruct (ti_server io); [apply Hnone; [by repeat constructor|done..]|].
  pose proof (inspect_loop_events (ti_requests io) t (Authority t) call) as Hl.
  destruct (inspect_loop _ _ _ _) as [evs sent]. by split.
Qed.

(** What is recorded of a connection: one event of its own, last, and inside a
    tunnel the requests' events; a denial says that no byte went on. *)
Definition recorded (callID : string) (r : handled) : Prop :=
  ∃ inner ev, hd_events r = (inner ++ [ev])%list ∧ inside_ok callID inner (hd_sent r) ∧ CallID ev = callID ∧
    (ev_Decision ev = Deny → hd_through r = false ∧ hd_sent r = []) ∧
    (hd_conn r = None → inner = [] ∧ BytesIn ev = 0 ∧ BytesOut ev = 0 ∧ hd_status r ≠ None).

Lemma recorded_one callID ev code body tried : CallID ev = callID → BytesIn ev = 0 → BytesOut ev = 0 →
  recorded callID (MkHandled [ev] (Some (code, body)) tried None false []).
Proof.
  intros Hc Hi Ho. exists [], ev. split_and!; try done.
  split; [done|split; [constructor|by intros ? ?%elem_of_nil]].
Qed.

Lemma connect_recorded io t v inspect callID ev : io_closing io = false → ev_Decision ev ≠ Deny →
  CallID ev = callID → BytesIn ev = 0 → BytesOut ev = 0 → do_err (dial t v) = None → do_conn (dial t v) ≠ None →
  recorded callID (connect io t v inspect callID ev).
Proof.
  intros Hc Hd Hid Hi Ho He Hn. unfold connect, EgressProxy.connect. rewrite He.
  destruct (do_conn _) as [c|]; [|done]. unfold serve_conn. rewrite Hc. set (ev' := set_route _ _ _ ev).
  set (x := if inspect then _ else _).
  assert (inside_ok callID (in_events (fst x)) (in_sent (fst x)) ∧ CallID (in_ev (fst x)) = callID ∧
    (ev_Decision (in_ev (fst x)) = Deny → in_through (fst x) = false ∧ in_sent (fst x) = [])) as (H1 & H2 & H3).
  { assert (∀ through, let r := MkInspected [] ev' through [] in inside_ok callID (in_events r) (in_sent r) ∧ CallID (in_ev r) = callID ∧
      (ev_Decision (in_ev r) = Deny → in_through r = false ∧ in_sent r = [])) as Hself.
    { intros through. split_and!; [split; [done|split; [constructor|by intros ? ?%elem_of_nil]]|done|done]. }
    unfold x. destruct inspect; [|destruct (t_Tunnel t); [apply Hself|destruct (forward _ _ _); apply Hself]].
    destruct (inspectTunnel_events (io_tunnel io) t callID ev') as (K1 & K2 & _).
    destruct (inspectTunnel_ok (io_tunnel io) t callID ev') as (_ & _ & K3). cbn [fst]. split_and!; [done|by rewrite K2|by apply K3]. }
  destruct x as [r status]. cbn [fst] in H1, H2, H3.
  destruct (io_idled io); (eexists _, _; split_and!; [reflexivity|done|done|done|done]).
Qed.

Lemma dial_direct_conn t v : do_err (dial_direct ParseAddr AddrString env t v) = None →
  do_conn (dial_direct ParseAddr AddrString env t v) ≠ None.
Proof. unfold dial_direct. by destruct (dialDirect _ _ _ _ _ _) as [| | |tried [a|]]. Qed.

(** A dial gives a connection or an error. *)
Lemma dial_conn t v : do_err (dial t v) = None → do_conn (dial t v) ≠ None.
Proof.
  unfold dial. destruct (en_upstream env) as [u|]; [|apply dial_direct_conn].
  destruct (Bypass _ _ u _); [apply dial_direct_conn|]. destruct (precheck _ _ _ _ _) as [r|[addrs b]]; [done|].
  destruct (first_refusal _ _ _ _ _); [done|]. destruct (dial_up _ _ _ _) as [[made sent] [e|]]; done.
Qed.

End proxy.

(** ** A concrete connection *)

Definition one_policy : Policy :=
  match Compile (λ _, None) (λ _, "") (λ _, None)
          (MkConfig [MkRule "example.org" [443] [] [] "allow" []] "" "enforce" None 0 false) with
  | Ok p => p
  | Fail _ => MkPolicy [] [] false false false false 0
  end.
Definition one_env : host_env :=
  MkEnv (V4 0x7f000001, 3128) (λ _, inr [V4 0x08080808]) (λ _, None) None
    (MkProxyNet (λ _, None) None None (λ _, inr 200)).
Definition one_io : conn_io := MkConnIO 0 false false 12 34 false (MkTunnelIO true Gone None "" None []) CopiedBack.
Definition one_state : proxy_state := MkProxyState (Issue "tok" "call-1" NoCreds) None.
Definition one_handled (target : string) : handled :=
  fst (handleAs (λ _, None) (λ _, "8.8.8.8") (λ _, None) (λ _, None) u_Path (λ s, s) (λ _, None) (λ s, s) (λ _, "") (λ _, "")
    one_env one_policy 0 one_io 1 (Some "tok") (Head "CONNECT" target "") one_state).

Example one_refused : hd_tried (one_handled "example.net:443") = [] ∧ option_map fst (hd_status (one_handled "example.net:443")) = Some 403.
Proof. by vm_compute. Qed.

Lemma connects_only_where_allowed_witness :
  hd_tried (one_handled "Example.org.:443") = [ToAddr (V4 0x08080808) 443] ∧
  ∃ t v, t_Host t = "example.org" ∧ Allowed v = true ∧
    done_ok (λ _, None) (λ _, None) one_env one_policy t v (one_handled "Example.org.:443").
Proof.
  split; [vm_compute; reflexivity|].
  destruct (connects_only_where_allowed (λ _, None) (λ _, "8.8.8.8") (λ _, None) (λ _, None) u_Path (λ s, s) (λ _, None) (λ s, s)
    (λ _, "") (λ _, "") one_env one_policy 0 one_io 1%nat (Some "tok") (Head "CONNECT" "Example.org.:443" "") one_state)
    as (method & target & auth & callID & key & t0 & t & syn & pool & v & inspect & Hh & _ & _ & Ht & Ha & _ & Hv & Hd).
  { left. vm_compute. discriminate. }
  injection Hh as <- <- <-. exists t, v. split; [|split; [exact Hv|exact Hd]].
  vm_compute in Ht. injection Ht as <-. injection Ha as <- _ _. reflexivity.
Defined.

