(* ===== verification/EgressSession.v ===== *)
(** The resolver and the proxy of a session together: an address the resolver
    gave out stands, at the proxy, for a name the policy let be looked up, and a
    request to it is handled as a request to that name is. *)

From Stdlib Require Import ZArith NArith Ascii String Lia Bool.
From stdpp Require Import base tactics list option gmap strings.
From S2P Require Import Prelude.
From S2P Require Import GoStd.
From S2P Require Import Errors.
From S2P Require Import GoNet.
From S2P Require Import Egress.
From S2P Require Import EgressSpec.
From S2P Require Import GoBinary.
From S2P Require Import EgressRecord.
From S2P Require Import EgressCalls.
From S2P Require Import EgressSynth.
From S2P Require Import EgressDns.
From S2P Require Import EgressTarget.
From S2P Require Import EgressUpstream.
From S2P Require Import EgressInspect.
From S2P Require Import EgressProxy.

#[local] Open Scope string_scope.
#[local] Open Scope Z_scope.

(** ** The names of a pool *)

(** Every mapping the pool ever made is of a name with [P]. *)
Definition names_in (P : string → Prop) (p : synthPool) : Prop := ∀ i e, heap p !! i = Some e → P (se_name e).

Section names.
Context (P : string → Prop).

Lemma drop_names i p : names_in P p → names_in P (drop i p).
Proof. unfold names_in. by rewrite drop_heap. Qed.

Lemma sweep_names now p : names_in P p → names_in P (sweep now p).
Proof.
  unfold sweep. generalize (map snd (map_to_list (byAddr p))). intros l. revert p.
  induction l as [|i l IH]; intros p Hp; [done|]. cbn [fold_left]. apply IH. destruct (expired now p i); [by apply drop_names|done].
Qed.

Lemma place_names now name a p : P name → names_in P p → names_in P (place now name a p).
Proof.
  intros Hn Hp. unfold place. set (q := match byName p !! name with Some old => drop old p | None => p end).
  assert (names_in P q) as Hq by (unfold q; destruct (byName p !! name); [by apply drop_names|done]).
  intros i e. cbn. rewrite lookup_insert_Some. intros [[_ <-]|[_ He]]; [done|by apply (Hq i e)].
Qed.

Lemma assign_loop_names tries now name : P name → ∀ p, names_in P p → names_in P (snd (assign_loop tries now name p)).
Proof.
  intros Hn. induction tries as [|tries IH]; intros p Hp; cbn [assign_loop]; [done|].
  set (p1 := with_next _ p). assert (names_in P p1) as H1 by done. clearbody p1.
  destruct (byAddr p1 !! _) as [i|]; [destruct (expired now p1 i)|].
  - by apply place_names, drop_names.
  - by apply IH.
  - by apply place_names.
Qed.

Lemma assign_names now name p : P name → names_in P p → names_in P (snd (assign now name p)).
Proof.
  intros Hn Hp. unfold assign.
  destruct (match byName p !! name with Some i => _ | None => None end) as [[i e]|] eqn:E.
  - destruct (byName p !! name) as [i'|]; [|done]. destruct (heap p !! i') as [e'|] eqn:He; [|done].
    destruct (now <? se_until e'); [|done]. injection E as -> ->. intros j e2. cbn.
    rewrite lookup_insert_Some. intros [[_ <-]|[_ H2]]; [by apply (Hp i e)|by apply (Hp j e2)].
  - set (full := λ p, size p <=? Z.of_nat (map_size (byAddr p))). set (p1 := if full p then sweep now p else p).
    assert (names_in P p1) as H1 by (unfold p1; destruct (full p); [by apply sweep_names|done]).
    change (names_in P (snd (if full p1 then (None, p1) else
      match assign_loop (Z.to_nat (size p1)) now name p1 with
      | (Some a, q) => (Some (a, true), q) | (None, q) => (None, q) end))).
    destruct (full p1); [done|]. pose proof (assign_loop_names (Z.to_nat (size p1)) now name Hn p1 H1) as H.
    by destruct (assign_loop _ now name p1) as [[a|] q].
Qed.

Lemma synth_lookup_names now a p : names_in P p → names_in P (snd (synth_lookup now a p)).
Proof.
  intros Hp. unfold synth_lookup. destruct (byAddr p !! a) as [i|]; [|done]. destruct (heap p !! i); [|done].
  destruct (negb _); [by apply drop_names|done].
Qed.

Lemma synth_lookup_name now a p n : names_in P p → fst (synth_lookup now a p) = Some n → P n.
Proof. intros Hp. rewrite lookup_live. intros (i & e & _ & He & _ & Hn)%live_some. rewrite <- Hn. by apply (Hp i e). Qed.
End names.

Section session.
Context (ParseAddr : string → option Addr) (AddrString : Addr → string) (ParsePrefix : string → option Prefix).
Context (ParseURL : string → option URL) (EscapedPath : URL → string).
Context (sha256 : string → string) (DecodeBase64 : string → option string) (EncodeBase64 : string → string).
Context (StatusText : Z → string) (DurationText : Z → string).
Context (env : host_env) (p_policy : Policy) (opt_idle : Z).

#[local] Abbreviation CanonicalHost := (CanonicalHost ParseAddr AddrString).
#[local] Abbreviation aim := (aim ParseAddr AddrString).
#[local] Abbreviation answerDNS := (answerDNS ParseAddr AddrString p_policy).
#[local] Abbreviation handleDNS := (handleDNS ParseAddr AddrString p_policy sha256 DecodeBase64 TrimSpace).
#[local] Abbreviation connect := (connect ParseAddr AddrString ParsePrefix ParseURL EscapedPath EncodeBase64 StatusText DurationText env p_policy opt_idle).
#[local] Abbreviation handle_request := (handle_request ParseAddr AddrString ParsePrefix ParseURL EscapedPath EncodeBase64 StatusText DurationText env p_policy opt_idle).
#[local] Abbreviation handleAs := (handleAs ParseAddr AddrString ParsePrefix ParseURL EscapedPath sha256 DecodeBase64 EncodeBase64 StatusText DurationText env p_policy opt_idle).

(** ** What the resolver gives an address to *)

(** A name in its one spelling, no address, that the policy lets be looked up. *)
Definition permitted (name : string) : Prop :=
  CanonicalHost name = Ok name ∧ ParseAddr name = None ∧ Allowed (DecideName p_policy name) = true.

Lemma answerDNS_pool now call m pool : let pool' := snd (answerDNS now call m pool) in
  pool' = pool ∨ ∃ name, permitted name ∧ pool' = snd (assign now name pool).
Proof.
  unfold answerDNS, EgressDns.answerDNS. destruct (parseQuery m) as [[q rc]|]; [|by left].
  destruct (negb _); [by left|]. destruct (String.eqb _ _); [by left|]. destruct (negb _); [by left|].
  destruct (_ || _); [by left|]. destruct (CanonicalHost (q_name q)) as [canonical|] eqn:Ec; [|by left].
  destruct (String.eqb_spec canonical (q_name q)) as [->|]; [|by left]. cbn [negb].
  destruct (ParseAddr (q_name q)) eqn:Ea; cbn [opt_some]; [by left|].
  destruct (Allowed _) eqn:Ev; cbn [negb]; [|by left]. right. exists (q_name q). split; [done|].
  by destruct (assign now (q_name q) pool) as [[[a b]|] pool'].
Qed.

Lemma handleDNS_pool slot now c creds pool : let pool' := snd (handleDNS slot now c creds pool) in
  pool' = pool ∨ ∃ name, permitted name ∧ pool' = snd (assign now name pool).
Proof.
  unfold handleDNS, EgressDns.handleDNS. destruct slot; cbn [negb]; [|by left].
  destruct (read_message _ c) as [[|cred] c1]; [by left|]. destruct (read_message _ c1) as [[|m] c2]; [by left|].
  destruct (fst _) as [[call e]|call]; [by left|]. pose proof (answerDNS_pool now call m pool) as H.
  by destruct (answerDNS now call m pool) as [[out evs] pool'].
Qed.

(** ** A session *)

Inductive session_op : Type :=
  | Resolve (slot : bool) (now : Z) (c : WsFrame.stream)
  | Serve (io : conn_io) (c : nat) (bound : option string) (h : request_head)
  | Calls (o : call_op).

Definition session_step (s : proxy_state) (o : session_op) : proxy_state :=
  match o with
  | Resolve slot now c =>
      match px_pool s with
      | None => s
      | Some pool => MkProxyState (px_creds s) (Some (snd (handleDNS slot now c (px_creds s) pool)))
      end
  | Serve io c bound h => snd (handleAs io c bound h s)
  | Calls o => MkProxyState (call_step o (px_creds s)) (px_pool s)
  end.

(** The proxy with its resolver started, and after [ops]. *)
Definition session_after (ops : list session_op) : proxy_state :=
  foldl session_step (MkProxyState NoCreds (Some newSynthPool)) ops.

Definition pool_fine (s : proxy_state) : Prop :=
  match px_pool s with Some p => pool_ok p ∧ names_in permitted p | None => False end.

Lemma synth_lookup_ok now a p : pool_ok p → pool_ok (snd (synth_lookup now a p)).
Proof. apply (synth_step_ok (SLookup now a)). Qed.

Lemma aim_fine now t p : pool_ok p → names_in permitted p →
  ∃ p', snd (aim now t (Some p)) = Some p' ∧ pool_ok p' ∧ names_in permitted p'.
Proof.
  intros Hp Hn. unfold aim, EgressProxy.aim. destruct (Unmap <$> ParseAddr (t_Host t)) as [[|n|n z]|]; try (by exists p).
  destruct (PrefixContains SynthPrefix (V4 n)); [|by exists p].
  pose proof (synth_lookup_ok now n p Hp). pose proof (synth_lookup_names permitted now n p Hn).
  destruct (synth_lookup now n p) as [[name|] p']; by exists p'.
Qed.

Lemma handle_request_fine io method target callID p : pool_ok p → names_in permitted p →
  ∃ p', snd (handle_request io method target callID (Some p)) = Some p' ∧ pool_ok p' ∧ names_in permitted p'.
Proof.
  intros Hp Hn. unfold handle_request, EgressProxy.handle_request. destruct (ParseTarget _ _ _ _ _ _) as [t0|e]; [|by exists p].
  destruct (aim_fine (io_now io) t0 p Hp Hn) as (p' & Hs & H1 & H2).
  destruct (aim _ t0 (Some p)) as [[a|[t syn]] pool]; cbn in Hs; subst pool; [by exists p'|].
  destruct (judge p_policy t) as [v inspect]. destruct (negb _); by exists p'.
Qed.

Lemma session_step_fine s o : pool_fine s → pool_fine (session_step s o).
Proof.
  unfold pool_fine. destruct (px_pool s) as [p|] eqn:Es; [|done]. intros [Hp Hn].
  destruct o as [slot now c|io c bound h|o]; cbn [session_step].
  - rewrite Es. cbn [px_pool]. destruct (handleDNS_pool slot now c (px_creds s) p) as [->|(name & Hm & ->)]; [done|].
    split; [by apply assign_spec|by apply assign_names].
  - unfold handleAs, EgressProxy.handleAs. destruct h as [|e|method target auth]; cbn [snd]; [by rewrite Es..|].
    destruct (authenticate _ _ _ _ _) as [[[callID e]|callID] key]; cbn [snd]; [by rewrite Es|].
    destruct (bind key c (px_creds s)) as [[] creds]; cbn [snd]; [|by rewrite Es]. rewrite Es.
    destruct (handle_request_fine io method target callID p Hp Hn) as (p' & Hs & H1 & H2).
    destruct (handle_request _ _ _ _ _) as [r pool]. cbn in *. by subst pool.
  - cbn [px_pool]. by rewrite Es.
Qed.

Lemma session_after_fine ops : pool_fine (session_after ops).
Proof.
  unfold session_after. assert (pool_fine (MkProxyState NoCreds (Some newSynthPool))) as H.
  { split; [apply newSynthPool_ok|]. intros i e. cbn. by rewrite lookup_empty. }
  revert H. generalize (MkProxyState NoCreds (Some newSynthPool)).
  induction ops as [|o ops IH]; intros s Hs; [done|]. cbn [foldl]. by apply IH, session_step_fine.
Qed.

(** ** Aiming at a name *)

Context {TextLaws : NetipText ParseAddr AddrString} {Plain : NetipPlain AddrString}.

Lemma host_byte_plain l : str_forall (λ d, host_byte d || (d =c ".")) l = true → Contains l ":" = false.
Proof.
  intros H. rewrite Contains_byte. apply IndexByte_none. revert H. apply str_forall_weaken.
  intros c Hc. apply negb_true_iff, Ascii.eqb_neq. intros <-. discriminate.
Qed.

(** A name has no colon. *)
Lemma canonical_name_plain n : CanonicalHost n = Ok n → ParseAddr n = None → Contains n ":" = false.
Proof.
  unfold CanonicalHost, Egress.CanonicalHost. destruct (_ || _); [done|]. destruct (ParseAddr (ToLower _)) as [a|] eqn:Ea.
  - destruct (String.eqb_spec (Zone a) "") as [Hz|]; [|done]. cbn [negb]. destruct (Is4In6 a) eqn:H4; [done|].
    intros [= <-] H. by rewrite (printed_reparses _ _ Ea Hz H4) in H.
  - destruct (first_error _ _) eqn:E; [done|]. destruct (_ || _); [done|]. intros [= Hn] _. rewrite Hn in E.
    apply first_error_Forall in E. apply host_byte_plain, Split_forall. eapply Forall_impl; [exact E|].
    intros l. unfold label_error, fail_if. destruct (String.eqb l "" || _); [done|]. destruct (str_forall host_byte l); cbn; congruence.
Qed.

Lemma WithHost_ok method t n : target_ok ParseAddr AddrString method t → CanonicalHost n = Ok n → ParseAddr n = None →
  target_ok ParseAddr AddrString method (WithHost n t).
Proof.
  intros [H1 H2 H3 H4 H5] Hc Ha. split; cbn [WithHost t_Host t_Port t_Method t_Tunnel t_Path t_URL]; [done..|].
  destruct (t_URL t) as [u|]; cbn [fmap option_fmap option_map]; [|done]. destruct H5 as (K1 & K2 & K3 & K4 & K5 & K6 & K7).
  pose proof (canonical_unbracketed ParseAddr AddrString n n Hc) as Hb.
  assert (url_split (u_Host (set_host (if t_Port t =? 80 then n else JoinHostPort n (Itoa (t_Port t))) u)) =
    (n, if t_Port t =? 80 then "" else Itoa (t_Port t))) as Hs.
  { cbn [set_host u_Host]. destruct (Z.eqb_spec (t_Port t) 80); [|by apply url_split_join, Itoa_digits; [|lia]].
    pose proof (url_split_host n Hb) as Hs. by rewrite (canonical_name_plain n Hc Ha) in Hs. }
  unfold Hostname, URL_Port. rewrite Hs. split_and!; [done|done|done|done| |done|done].
  cbn [snd]. destruct (Z.eqb_spec (t_Port t) 80); auto.
Qed.

(** After any lookups, connections and calls of a session: a target whose host
    is not one of the resolver's addresses is taken as it is, and one whose host
    is such an address is either refused or aimed at the very name the address
    reads back to, a name in its one spelling that the policy lets be looked up;
    and the URL then sent on names that host. *)
Theorem aimed_at_permitted ops now method t0 t syn pool' : target_ok ParseAddr AddrString method t0 →
  aim now t0 (px_pool (session_after ops)) = (inr (t, syn), pool') →
  target_ok ParseAddr AddrString method t ∧
  match Unmap <$> ParseAddr (t_Host t0) with
  | Some (V4 n) =>
      if PrefixContains SynthPrefix (V4 n) then
        ∃ p, px_pool (session_after ops) = Some p ∧ live now p n = Some (t_Host t) ∧ permitted (t_Host t) ∧
          t = WithHost (t_Host t) t0 ∧ syn = AddrString (V4 n)
      else t = t0 ∧ syn = ""
  | _ => t = t0 ∧ syn = ""
  end.
Proof.
  intros Ht H. pose proof (session_after_fine ops) as Hf. unfold pool_fine in Hf.
  destruct (px_pool (session_after ops)) as [p|]; [|done]. destruct Hf as [Hp Hn].
  unfold aim, EgressProxy.aim in H. destruct (Unmap <$> ParseAddr (t_Host t0)) as [[|n|n z]|]; [by injection H as <- <- _| |by injection H as <- <- _..].
  destruct (PrefixContains SynthPrefix (V4 n)); [|by injection H as <- <- _].
  destruct (synth_lookup now n p) as [[name|] p'] eqn:El; [|done]. injection H as <- <- _.
  assert (fst (synth_lookup now n p) = Some name) as Hl by (by rewrite El).
  pose proof (synth_lookup_name permitted now n p name Hn Hl) as (Hc & Ha & Hv).
  split; [by apply WithHost_ok|]. exists p. cbn [WithHost t_Host]. rewrite lookup_live in Hl. by split_and!.
Qed.

(** ** Handled as its name is *)

(** What is left of what was done when the address asked for is forgotten. *)
Definition forget_synthetic (r : handled) : handled :=
  MkHandled (map (λ e, set_synthetic (Host e) "" e) (hd_events r)) (hd_status r) (hd_tried r) (hd_conn r) (hd_through r) (hd_sent r).

Definition inspected_synthetic (s : string) (r : inspected) : inspected :=
  MkInspected (in_events r) (set_synthetic (Host (in_ev r)) s (in_ev r)) (in_through r) (in_sent r).

Lemma inspectTunnel_synthetic io t call h s ev : Host ev = h →
  inspectTunnel ParseAddr AddrString ParseURL EscapedPath p_policy io t call (set_synthetic h s ev) =
  inspected_synthetic s (inspectTunnel ParseAddr AddrString ParseURL EscapedPath p_policy io t call ev).
Proof.
  intros <-. unfold inspectTunnel, not_tls. destruct (negb (ti_answered io)); [done|].
  destruct (ti_hello io) as [| |c]; [done|by destruct (negb _)|]. destruct (negb (bv c =? 22)%N); [by destruct (negb _)|].
  destruct (match ti_client io with Some e => _ | None => _ end); [done|]. destruct (ti_server io); [done|].
  by destruct (inspect_loop _ _ _ _ _ _ _ _ _).
Qed.

Lemma connect_synthetic io t v inspect call h s ev : Host ev = h →
  forget_synthetic (connect io t v inspect call (set_synthetic h s ev)) =
  forget_synthetic (connect io t v inspect call (set_synthetic h "" ev)).
Proof.
  intros Hh. unfold connect, EgressProxy.connect. set (d := dial _ _ _ _ _ _ _).
  destruct (do_err d) as [e|]; [destruct (io_over io); [done|by destruct e]|].
  destruct (do_conn d) as [c|]; [|done]. unfold serve_conn. destruct (io_closing io); [done|].
  destruct inspect; [|destruct (t_Tunnel t); [|destruct (forward _ _ _)]; by destruct (io_idled io)].
  set (ev0 := set_route (do_ip d) (match do_via d with Some u => up_Authority u | None => "" end) (if do_byProxy d then "proxy" else "") ev).
  assert (∀ s, inspectTunnel ParseAddr AddrString ParseURL EscapedPath p_policy (io_tunnel io) t call
    (set_route (do_ip d) (match do_via d with Some u => up_Authority u | None => "" end) (if do_byProxy d then "proxy" else "") (set_synthetic h s ev)) =
    inspected_synthetic s (inspectTunnel ParseAddr AddrString ParseURL EscapedPath p_policy (io_tunnel io) t call ev0)) as Hs.
  { intros s'. rewrite <- (inspectTunnel_synthetic _ _ _ h) by done. done. }
  rewrite !Hs. unfold forget_synthetic. cbn [hd_events hd_status hd_tried hd_conn hd_through hd_sent]. rewrite !map_app.
  by destruct (io_idled io).
Qed.

(** C20: A request to an address the resolver gave out, while it stands for its name,
    is handled as the same request to that name: judged by the same rules,
    dialled to the same addresses, answered and recorded alike, but for the
    address the record keeps beside the name. *)
Theorem synthetic_handled_as_name io method target target' callID pool t n name :
  ParseTarget ParseAddr AddrString ParseURL EscapedPath method target = Ok t →
  Unmap <$> ParseAddr (t_Host t) = Some (V4 n) → PrefixContains SynthPrefix (V4 n) = true →
  live (io_now io) pool n = Some name → ParseAddr name = None →
  ParseTarget ParseAddr AddrString ParseURL EscapedPath method target' = Ok (WithHost name t) →
  forget_synthetic (fst (handle_request io method target callID (Some pool))) =
  forget_synthetic (fst (handle_request io method target' callID (Some pool))).
Proof.
  intros Ht Ha Hs Hl Hn Ht'. unfold handle_request, EgressProxy.handle_request. rewrite Ht, Ht'.
  assert (aim (io_now io) (WithHost name t) (Some pool) = (inr (WithHost name t, ""), Some pool)) as ->.
  { unfold aim, EgressProxy.aim. cbn [WithHost t_Host]. by rewrite Hn. }
  rewrite <- lookup_live in Hl. unfold aim, EgressProxy.aim. rewrite Ha, Hs.
  destruct (synth_lookup (io_now io) n pool) as [r p']. cbn in Hl. subst r.
  set (t' := WithHost name t). destruct (judge p_policy t') as [v inspect].
  set (base := if t_Tunnel t' then target_event callID t' else set_request (t_Method t') (t_Path t') (target_event callID t')).
  assert (∀ s t0, t_Method t0 = t_Method t → t_Port t0 = t_Port t →
    (if t_Tunnel t' then set_synthetic (t_Host t') s (target_event callID t0)
     else set_request (t_Method t') (t_Path t') (set_synthetic (t_Host t') s (target_event callID t0))) =
    set_synthetic (t_Host t') s base) as Hev.
  { intros s t0 Hm Hp. unfold base, target_event. rewrite Hm, Hp. by destruct (t_Tunnel t'). }
  rewrite !Hev by done. destruct (Allowed v); cbn [negb fst]; [|done].
  apply (connect_synthetic io t' v inspect callID (t_Host t') _ (set_verdict (vd_Decision v) (vd_Rule v) (vd_Reason v) base)).
  unfold base. by destruct (t_Tunnel t').
Qed.
End session.

(** ** A concrete session *)

Definition parse_first (s : string) : option Addr := if String.eqb s "198.18.0.1" then Some (V4 (offsetAddr 1)) else None.
Definition print_first (a : Addr) : string := "198.18.0.1".

#[export] Instance first_text : NetipText parse_first print_first.
Proof.
  split; intros s a H _ _; unfold parse_first in H; destruct (String.eqb s _); try discriminate; injection H as <-; [done|].
  split_and!; [done..|]. cbn. lia.
Qed.

#[export] Instance first_plain : NetipPlain print_first.
Proof. by intros a. Qed.

Definition allow_org : Policy :=
  match Compile parse_first print_first (λ _, None)
          (MkConfig [MkRule "*.example.org" [443] [] [] "allow" []] "" "enforce" None 0 false) with
  | Ok p => p
  | Fail _ => MkPolicy [] [] false false false false 0
  end.

Definition message (s : string) : string := be_bytes 2 (N.of_nat (String.length s)) ++ s.
Definition org_lookup : WsFrame.stream :=
  WsFrame.Stream (message "Basic x:tok" ++ message (test_query ["api"; "Example"; "org"])) WsFrame.EOF.
Definition org_ops : list session_op := [Calls (OIssue "tok" "call-1"); Resolve true 0 org_lookup].
Definition org_env : host_env :=
  MkEnv (V4 0x7f000001, 3128) (λ _, inr [V4 0x08080808]) (λ _, None) None (MkProxyNet (λ _, None) None None (λ _, inr 200)).

Definition org_after : proxy_state :=
  session_after parse_first print_first (λ _, None) (λ _, None) u_Path (λ s, s) (λ s, Some s) (λ s, s) (λ _, "") (λ _, "")
    org_env allow_org 0 org_ops.

Lemma aimed_at_permitted_witness :
  let t := MkTarget "api.example.org" 443 true "CONNECT" "" None in
  fst (aim parse_first print_first 5 (MkTarget "198.18.0.1" 443 true "CONNECT" "" None) (px_pool org_after)) = inr (t, "198.18.0.1") ∧
  target_ok parse_first print_first "CONNECT" t.
Proof.
  cbv zeta. set (t0 := MkTarget "198.18.0.1" 443 true "CONNECT" "" None). set (t := MkTarget _ _ _ _ _ _).
  assert (target_ok parse_first print_first "CONNECT" t0) as H0.
  { split; [vm_compute; reflexivity|cbn; lia|split; vm_compute; reflexivity|reflexivity|split; reflexivity]. }
  assert (aim parse_first print_first 5 t0 (px_pool org_after) = (inr (t, "198.18.0.1"), px_pool org_after)) as Ha by (vm_compute; reflexivity).
  split; [by rewrite Ha|].
  exact (proj1 (aimed_at_permitted parse_first print_first (λ _, None) (λ _, None) u_Path (λ s, s) (λ s, Some s) (λ s, s) (λ _, "") (λ _, "")
    org_env allow_org 0 org_ops 5 "CONNECT" t0 t "198.18.0.1" (px_pool org_after) H0 Ha)).
Defined.

Lemma synthetic_handled_as_name_witness :
  let pool := snd (assign 0 "api.example.org" newSynthPool) in
  let run target := fst (handle_request parse_first print_first (λ _, None) (λ _, None) u_Path (λ s, s) (λ _, "") (λ _, "")
    org_env allow_org 0 (MkConnIO 5 false false 1 2 false (MkTunnelIO true Gone None "" None []) CopiedBack) "CONNECT" target "call-1" (Some pool)) in
  hd_tried (run "198.18.0.1:443") = [ToAddr (V4 0x08080808) 443] ∧
  forget_synthetic (run "198.18.0.1:443") = forget_synthetic (run "api.example.org:443").
Proof.
  cbv zeta. split; [vm_compute; reflexivity|].
  apply (synthetic_handled_as_name parse_first print_first (λ _, None) (λ _, None) u_Path (λ s, s) (λ _, "") (λ _, "")
    org_env allow_org 0 _ "CONNECT" "198.18.0.1:443" "api.example.org:443" "call-1" _
    (MkTarget "198.18.0.1" 443 true "CONNECT" "" None) (offsetAddr 1) "api.example.org"); vm_compute; reflexivity.
Defined.
