(* ===== verification/Monitor.v ===== *)
(** The supervisor's guard (src/monitor/monitor.go) and the judges it runs: a
    chain of them, and the verdict text of a model judge (src/monitor/model.go).

    A judge answers, fails or panics; which is its own affair. A confidence is a
    rational. The clock of a judgement, [LatencyMS], is not kept. *)

From Stdlib Require Import ZArith QArith Ascii String Lia Bool.
From stdpp Require Import base tactics list option strings.
From S2P Require Import Prelude.
From S2P Require Import GoStd.
From S2P Require Import Errors.
From S2P Require Import GoNet.
From S2P Require Import PolicyEngine.

#[local] Open Scope string_scope.
#[local] Open Scope Z_scope.

(** ** Cases and verdicts *)

Record Provenance : Type := MkProvenance { pv_Token : string; pv_UserNamed : bool; pv_Observed : bool }.

(** The fields of [Case] the guard reads; [cs_Rest] is what only a judge does. *)
Record Case : Type := MkCase {
  cs_Tool : string; cs_Args : string; cs_Mutates : bool; cs_Provisional : Result;
  cs_Provenance : list Provenance; cs_Rest : list string
}.

Record Verdict : Type := MkVerdict {
  vt_Decision : Decision; vt_Code : string; vt_Confidence : Q;
  vt_Rationale : string; vt_Advice : string; vt_Version : string
}.

(** What a judge comes to; a panic is recovered. *)
Inductive judgement : Type := Answered (v : Verdict) | JudgeFails (text : string) | Panics.
Definition Judge : Type := Case → judgement.

Definition CodeOK : string := "ok".
Definition CodeHoneytoken : string := "honeytoken".
Definition HoneytokenVersion : string := "honeytoken-v1".
Definition SkippedBudget : string := "turn budget spent".
Definition ErrUnavailable : string := "monitor unavailable".

(** [known]. *)
Definition known (d : Decision) : bool :=
  match d with Allow | Ask | Deny => true | OtherDecision _ => false end.

(** [rank], 0 for a decision it does not list. *)
Definition rank (d : Decision) : Z :=
  match d with Allow => 0 | Ask => 1 | Deny => 2 | OtherDecision _ => 0 end.

(** [tighten]. *)
Definition tighten (before verdict : Decision) : Decision :=
  if rank before <? rank verdict then verdict else before.

(** [judge]: a nil monitor and a panic are errors. *)
Definition judge (m : option Judge) (c : Case) : string + Verdict :=
  match m with
  | None => inl ErrUnavailable
  | Some m => match m c with Answered v => inr v | JudgeFails e => inl e | Panics => inl ErrUnavailable end
  end.

(** ** The guard *)

Record Guard : Type := MkGuard {
  gd_Monitor : option Judge; gd_OnUnavailable : Decision; gd_MaxPerTurn : Z;
  gd_Honeytokens : list string; gd_Unattended : bool
}.

(** Its state: the turn, and the judgements used in it. *)
Record guard_state : Type := MkGuardState { gs_turn : Z; gs_used : Z }.

Definition fresh_guard : guard_state := MkGuardState 0 0.

Record Outcome : Type := MkOutcome {
  oc_Verdict : Verdict; oc_Before : Decision; oc_After : Decision;
  oc_Tightened : bool; oc_Unavailable : bool; oc_Skipped : string
}.

Definition no_verdict : Verdict := MkVerdict (OtherDecision "") "" 0 "" "" "".

(** [BeginTurn] and [Child]: a child has the same judge and a budget of its own. *)
Definition BeginTurn (s : guard_state) : guard_state := MkGuardState (gs_turn s + 1) 0.
Definition Child (g : Guard) : Guard * guard_state := (g, fresh_guard).

Definition minHoneytoken : nat := 8.

(** [planted]. *)
Definition planted (g : Guard) (args : string) : bool :=
  existsb (λ t, (minHoneytoken <=? String.length t)%nat && Contains args t) (gd_Honeytokens g).

(** [NeedsReview]: whether, and why not. *)
Definition NeedsReview (c : Case) : bool * string :=
  let d := res_Decision (cs_Provisional c) in
  if bool_decide (d = Deny) then (false, "already denied")
  else
    let borrowed := existsb (λ p, negb (pv_UserNamed p)) (cs_Provenance c) in
    if negb (cs_Mutates c) && negb borrowed && bool_decide (d = Allow) && String.eqb (res_Step (cs_Provisional c)) "allow"
    then (false, "read allowed by rule, names all the user's")
    else (true, "").

(** What a call gets when the judge gives no usable answer. *)
Definition fallback (g : Guard) : Decision :=
  if gd_Unattended g then Deny
  else match gd_OnUnavailable g with Deny => Deny | _ => Ask end.

(** The verdict of a review: the judge's, or the fallback's, and whether it was
    unavailable. *)
Definition settle (g : Guard) (answer : string + Verdict) : Verdict * bool :=
  match answer with
  | inl e => (MkVerdict (fallback g) "unavailable" 0 e "" "", true)
  | inr v =>
      if negb (known (vt_Decision v)) then
        (MkVerdict (fallback g) "unavailable" (vt_Confidence v) "the judge returned no decision" (vt_Advice v) (vt_Version v), true)
      else if bool_decide (vt_Decision v = Ask) && gd_Unattended g then
        (MkVerdict Deny (vt_Code v) (vt_Confidence v)
           (TrimSuffix (TrimSpace (vt_Rationale v ++ "; nobody is here to approve it")) ";") (vt_Advice v) (vt_Version v), false)
      else (v, false)
  end.

Definition honeytoken_verdict : Verdict :=
  MkVerdict Deny CodeHoneytoken 1 "the arguments carry a planted honeytoken, a value no task needs"
    "stop and tell the person what led you to this value; do not send it anywhere" HoneytokenVersion.

(** [Review]. *)
Definition Review (g : Guard) (c : Case) (s : guard_state) : Outcome * guard_state :=
  let before := res_Decision (cs_Provisional c) in
  let skip why := MkOutcome no_verdict before before false false why in
  if negb (bool_decide (before = Deny)) && planted g (cs_Args c) then
    (MkOutcome honeytoken_verdict before Deny true false "", s)
  else
    match NeedsReview c with
    | (false, why) => (skip why, s)
    | (true, _) =>
        if (0 <? gd_MaxPerTurn g) && (gd_MaxPerTurn g <=? gs_used s) then (skip SkippedBudget, s)
        else
          let s := if 0 <? gd_MaxPerTurn g then MkGuardState (gs_turn s) (gs_used s + 1) else s in
          let '(v, unavailable) := settle g (judge (gd_Monitor g) c) in
          let after := tighten before (vt_Decision v) in
          (MkOutcome v before after (negb (bool_decide (after = before))) unavailable "", s)
    end.

(** [Correction]. *)
Definition Correction (v : Verdict) : string :=
  let sentence s := str_rev (trim_left_set "." (str_rev (TrimSpace s))) in
  let s := "Supervisor: " ++ vt_Code v ++ "." in
  let r := sentence (vt_Rationale v) in
  let s := if String.eqb r "" then s else s ++ " " ++ r ++ "." in
  let a := sentence (vt_Advice v) in
  if String.eqb a "" then s else s ++ " Do this instead: " ++ a ++ ".".

(** ** A chain of judges *)

Fixpoint chain_from (ms : list (option Judge)) (c : Case) (best : Verdict) : string + Verdict :=
  match ms with
  | [] => inr best
  | m :: ms =>
      match judge m c with
      | inl e => inl e
      | inr v =>
          if negb (known (vt_Decision v)) then inl ErrUnavailable
          else
            let best := if rank (vt_Decision best) <=? rank (vt_Decision v) then v else best in
            if bool_decide (vt_Decision best = Deny) then inr best else chain_from ms c best
      end
  end.

Definition chain_start : Verdict := MkVerdict Allow CodeOK 0 "" "" "".

(** [Chain.Judge]. *)
Definition Chain (ms : list (option Judge)) : Judge :=
  λ c, match chain_from ms c chain_start with inl e => JudgeFails e | inr v => Answered v end.

(** ** The text of a model judge's verdict *)

Record raw_verdict : Type := MkRaw {
  rv_Decision : string; rv_Code : string; rv_Confidence : Q; rv_Rationale : string; rv_Advice : string
}.

Section verdict_text.
(** The decoder of one object with no unknown field, and whether more follows;
    and [clip] to a number of runes. *)
Context (decode : string → string + (raw_verdict * bool)).
Context (clip : string → nat → string).

Definition fence : string := "```".

(** [parseVerdict]. *)
Definition parseVerdict (text : string) : string + Verdict :=
  let text := TrimSpace text in
  let text := TrimPrefix text (fence ++ "json") in
  let text := TrimPrefix text fence in
  let text := TrimSuffix (TrimSpace text) fence in
  match decode text with
  | inl e => inl ("monitor model: the verdict does not fit the schema: " ++ e)
  | inr (raw, more) =>
      if more : bool then inl "monitor model: more than one verdict"
      else
        let word := ToLower (TrimSpace (rv_Decision raw)) in
        let d := if String.eqb word "allow" then Allow else if String.eqb word "ask" then Ask
                 else if String.eqb word "deny" then Deny else OtherDecision word in
        if negb (known d) then inl ("monitor model: unknown decision " ++ Quote (rv_Decision raw))
        else
          let code := TrimSpace (rv_Code raw) in
          let code := if String.eqb code "" then (if bool_decide (d = Allow) then CodeOK else "model") else code in
          let conf := if Qle_bool 0 (rv_Confidence raw) && Qle_bool (rv_Confidence raw) 1 then rv_Confidence raw else 0%Q in
          inr (MkVerdict d (clip code 40%nat) conf (clip (rv_Rationale raw) 300%nat) (clip (rv_Advice raw) 300%nat) "")
  end.
End verdict_text.

(** * Theorems

    A supervisor only ever tightens, and its absence is not consent. *)

(** ** Strictness *)

Definition no_looser (a b : Decision) : Prop := rank a <= rank b.

#[export] Instance no_looser_preorder : PreOrder no_looser.
Proof. split; [intros a; unfold no_looser; lia|intros a b c; unfold no_looser; lia]. Qed.

Lemma tighten_spec a b : no_looser a (tighten a b) ∧ no_looser b (tighten a b) ∧ (tighten a b = a ∨ tighten a b = b).
Proof. unfold no_looser, tighten. destruct (Z.ltb_spec (rank a) (rank b)); split_and!; auto; lia. Qed.

Lemma rank_fallback g : 1 <= rank (fallback g) ∧ (gd_Unattended g = true → fallback g = Deny) ∧ known (fallback g) = true.
Proof. unfold fallback. destruct (gd_Unattended g); [done|]. by destruct (gd_OnUnavailable g). Qed.

Lemma settle_spec g a v u : settle g a = (v, u) →
  known (vt_Decision v) = true ∧ (u = true → 1 <= rank (vt_Decision v)) ∧
  (gd_Unattended g = true → vt_Decision v ≠ Ask) ∧
  match a with
  | inl _ => u = true
  | inr w => if known (vt_Decision w) then u = false ∧ no_looser (vt_Decision w) (vt_Decision v) else u = true
  end.
Proof.
  unfold settle. destruct (rank_fallback g) as (H1 & H2 & H3). destruct a as [e|w].
  - intros [= <- <-]. cbn. split_and!; try done. intros Hu. by rewrite H2.
  - destruct (known (vt_Decision w)) eqn:Hk; cbn [negb].
    + destruct (bool_decide (vt_Decision w = Ask)) eqn:Ha; [destruct (gd_Unattended g) eqn:Hu|]; intros [= <- <-]; cbn.
      * apply bool_decide_eq_true in Ha. rewrite Ha. split_and!; try done.
      * by split_and!.
      * apply bool_decide_eq_false in Ha. by split_and!.
    + intros [= <- <-]. cbn. split_and!; try done. intros Hu. by rewrite H2.
Qed.

(** ** Reviews *)

(** What a supervisor promises the loop that consults it. *)
Class OnlyTightens {S : Type} (review : Case → S → Outcome * S) : Prop :=
  only_tightens c s : oc_Before (fst (review c s)) = res_Decision (cs_Provisional c) ∧
    no_looser (oc_Before (fst (review c s))) (oc_After (fst (review c s))) ∧
    (oc_Tightened (fst (review c s)) = false → oc_After (fst (review c s)) = oc_Before (fst (review c s))) ∧
    (oc_Skipped (fst (review c s)) ≠ "" → oc_Tightened (fst (review c s)) = false).

#[export] Instance Review_only_tightens g : OnlyTightens (Review g).
Proof.
  intros c s. unfold Review. set (before := res_Decision (cs_Provisional c)).
  destruct (negb (bool_decide (before = Deny)) && planted g (cs_Args c)) eqn:E.
  { cbn. split_and!; try done. unfold no_looser. cbn. destruct before; cbn; lia. }
  destruct (NeedsReview c) as [[] why]; [|by split_and!].
  destruct ((0 <? gd_MaxPerTurn g) && _); [by split_and!|]. destruct (settle g _) as [v u]. cbn. destruct (tighten_spec before (vt_Decision v)) as (H1 & _).
  split; [done|]. split; [done|]. split; [|done]. intros H. by apply negb_false_iff, bool_decide_eq_true in H.
Qed.

(** A call reviewed: neither planted nor on the fast path, and within the
    turn's budget. *)
Definition reviewed (g : Guard) (c : Case) (s : guard_state) : Prop :=
  planted g (cs_Args c) = false ∧ fst (NeedsReview c) = true ∧ ¬ (0 < gd_MaxPerTurn g <= gs_used s).

(** C15: A decision reviewed is at least as strict as before and as the verdict; a
    judge that is missing, fails, panics or gives no decision never leaves a
    call allowed, and denies it where nobody is there to ask; a value planted
    is denied whatever the judge, the budget and the fast path say; and a call
    passed over keeps exactly the decision the policy made. *)
Theorem review_tightens g c s :
  let r := fst (Review g c s) in
  oc_Before r = res_Decision (cs_Provisional c) ∧ no_looser (oc_Before r) (oc_After r) ∧
  (planted g (cs_Args c) = true → oc_After r = Deny) ∧
  (planted g (cs_Args c) = false → ¬ reviewed g c s → oc_After r = oc_Before r ∧ oc_Skipped r ≠ "") ∧
  (reviewed g c s → match judge (gd_Monitor g) c with
     | inr v => if known (vt_Decision v) then no_looser (vt_Decision v) (oc_After r) ∧ oc_Unavailable r = false
                else 1 <= rank (oc_After r) ∧ oc_Unavailable r = true ∧ (gd_Unattended g = true → oc_After r = Deny)
     | inl _ => 1 <= rank (oc_After r) ∧ oc_Unavailable r = true ∧ (gd_Unattended g = true → oc_After r = Deny)
     end).
Proof.
  cbv zeta. destruct (only_tightens (review := Review g) c s) as (H1 & H2 & _). split; [done|]. split; [done|].
  clear H1 H2. unfold reviewed, Review. set (before := res_Decision (cs_Provisional c)).
  destruct (planted g (cs_Args c)) eqn:Ep.
  { split_and!; [|done|by intros (? & _)]. intros _. destruct (bool_decide (before = Deny)) eqn:Ed; cbn [negb andb]; [|done].
    unfold NeedsReview. fold before. rewrite Ed. cbn. by apply bool_decide_eq_true in Ed. }
  rewrite andb_false_r. split; [done|]. destruct (NeedsReview c) as [[] why] eqn:En; cbn [fst].
  2:{ split; [|by intros (_ & ? & _)]. intros _ _. split; [done|]. unfold NeedsReview in En. cbn.
      destruct (bool_decide _); [by simplify_eq|]. destruct (_ && _); by simplify_eq. }
  destruct ((0 <? gd_MaxPerTurn g) && (gd_MaxPerTurn g <=? gs_used s)) eqn:Eb.
  { split; [done|]. intros (_ & _ & Hn). exfalso. apply Hn. lia. }
  split; [intros _ Hn; exfalso; apply Hn; split_and!; [done|done|lia]|]. intros _.
  destruct (settle g (judge (gd_Monitor g) c)) as [v u] eqn:Es. destruct (settle_spec g _ v u Es) as (K1 & K2 & K3 & K4).
  cbn [fst oc_After oc_Unavailable]. destruct (tighten_spec before (vt_Decision v)) as (T1 & T2 & T3).
  assert (u = true → 1 <= rank (tighten before (vt_Decision v)) ∧
    (gd_Unattended g = true → tighten before (vt_Decision v) = Deny)) as Hun.
  { intros ->. unfold no_looser in T2. specialize (K2 eq_refl). split; [lia|]. intros Hu. specialize (K3 Hu).
    assert (vt_Decision v = Deny) as Hd by (destruct (vt_Decision v); cbn in *; [lia|done|done|lia]).
    rewrite Hd in *. unfold tighten. destruct before; done. }
  destruct (judge (gd_Monitor g) c) as [e|w]; [subst u; by destruct (Hun eq_refl)|].
  destruct (known (vt_Decision w)); [|subst u; by destruct (Hun eq_refl)].
  destruct K4 as [-> K4]. split; [|done]. by transitivity (vt_Decision v).
Qed.

(** ** The turn's budget *)

Inductive guard_op : Type := OTurn | OReview (c : Case).

(** The judgements asked for, turn by turn, the last turn first. *)
Definition guard_step (g : Guard) (x : guard_state * list Z) (o : guard_op) : guard_state * list Z :=
  let '(s, turns) := x in
  match o with
  | OTurn => (BeginTurn s, 0 :: turns)
  | OReview c =>
      let '(r, s') := Review g c s in
      (s', match turns with
           | n :: rest => (if String.eqb (oc_Skipped r) "" && negb (planted g (cs_Args c)) then n + 1 else n) :: rest
           | [] => []
           end)
  end.

(** The judge is asked at most MaxPerTurn times in any turn. *)
Theorem budget_holds g ops : 0 < gd_MaxPerTurn g →
  Forall (λ n, n <= gd_MaxPerTurn g) (snd (foldl (guard_step g) (fresh_guard, [0]) ops)).
Proof.
  intros Hm. assert (Hinv : ∀ x, (∃ n rest, snd x = n :: rest ∧ n <= gs_used (fst x) ∧ gs_used (fst x) <= gd_MaxPerTurn g ∧
      Forall (λ n, n <= gd_MaxPerTurn g) rest) →
    Forall (λ n, n <= gd_MaxPerTurn g) (snd (foldl (guard_step g) x ops))).
  { induction ops as [|o ops IH]; intros [s turns] (n & rest & E & Hn & Hu & Hr); cbn [fst snd] in *.
    - rewrite E. cbn. constructor; [lia|done].
    - cbn [foldl]. apply IH. rewrite E. destruct o as [|c]; cbn [guard_step].
      + exists 0, (n :: rest). cbn. split_and!; [done|lia|lia|]. constructor; [lia|done].
      + destruct (Review g c s) as [r s'] eqn:Er. cbn [fst snd]. eexists _, rest. split; [reflexivity|].
        unfold Review in Er. set (before := res_Decision _) in *.
        destruct (planted g (cs_Args c)) eqn:Ep.
        { rewrite andb_false_r. assert (s' = s) as ->; [|by split_and!]. rewrite andb_true_r in Er.
          destruct (bool_decide (before = Deny)) eqn:Ed; cbn [negb] in Er; [|by injection Er].
          unfold NeedsReview in Er. fold before in Er. rewrite Ed in Er. by injection Er. }
        rewrite andb_false_r in Er. rewrite andb_true_r. destruct (NeedsReview c) as [[] why] eqn:En.
        2:{ injection Er as <- <-. cbn. split_and!; [|done|done]. destruct (String.eqb why "") eqn:Ew; [|lia].
            exfalso. apply String.eqb_eq in Ew as ->. unfold NeedsReview in En. destruct (bool_decide _); [done|]. by destruct (_ && _). }
        rewrite (proj2 (Z.ltb_lt _ _) Hm) in Er. cbn [andb] in Er. destruct (Z.leb_spec (gd_MaxPerTurn g) (gs_used s)).
        * injection Er as <- <-. cbn. split_and!; [lia|done|done].
        * destruct (settle g _) as [v u]. injection Er as <- <-. cbn. split_and!; [lia|lia|done]. }
  apply Hinv. exists 0, []. cbn. split_and!; [done|lia|lia|constructor].
Qed.

(** ** Chains *)

Lemma chain_from_spec ms c : ∀ best, known (vt_Decision best) = true →
  match chain_from ms c best with
  | inr v => known (vt_Decision v) = true ∧ no_looser (vt_Decision best) (vt_Decision v)
  | inl _ => True
  end.
Proof.
  induction ms as [|m ms IH]; intros best Hb; cbn [chain_from]; [split; [done|reflexivity]|].
  destruct (judge m c) as [e|v]; [done|]. destruct (known (vt_Decision v)) eqn:Hk; [|done]. cbn [negb].
  set (b := if _ <=? _ then v else best).
  assert (known (vt_Decision b) = true ∧ no_looser (vt_Decision best) (vt_Decision b)) as [H1 H2].
  { unfold b, no_looser. destruct (Z.leb_spec (rank (vt_Decision best)) (rank (vt_Decision v))); [done|]. split; [done|lia]. }
  destruct (bool_decide _); [done|]. specialize (IH b H1). destruct (chain_from ms c b); [done|].
  split; [apply IH|]. transitivity (vt_Decision b); [done|apply IH].
Qed.

Lemma chain_from_app ms more c : ∀ best, vt_Decision best ≠ Deny → chain_from (ms ++ more)%list c best =
  match chain_from ms c best with
  | inl e => inl e
  | inr v => if bool_decide (vt_Decision v = Deny) then inr v else chain_from more c v
  end.
Proof.
  induction ms as [|m ms IH]; intros best Hb; cbn [app chain_from].
  - by rewrite bool_decide_eq_false_2.
  - destruct (judge m c) as [e|v]; [done|]. destruct (negb _); [done|]. set (b := if _ <=? _ then v else best).
    destruct (bool_decide (vt_Decision b = Deny)) eqn:Ed; [by rewrite Ed|]. apply bool_decide_eq_false in Ed. by apply IH.
Qed.

Section more.
Context (g1 g2 : Guard) (Hu : gd_Unattended g1 = gd_Unattended g2).

Lemma settle_mono v w : known (vt_Decision v) = true → known (vt_Decision w) = true → no_looser (vt_Decision v) (vt_Decision w) →
  no_looser (vt_Decision (fst (settle g1 (inr v)))) (vt_Decision (fst (settle g2 (inr w)))).
Proof using Hu.
  unfold settle. intros -> ->. rewrite Hu. unfold no_looser. cbn [negb].
  destruct (gd_Unattended g2), (bool_decide_reflect (vt_Decision v = Ask)) as [E1|E1], (bool_decide_reflect (vt_Decision w = Ask)) as [E2|E2];
    cbn [andb fst vt_Decision rank]; rewrite ?E1, ?E2; cbn [rank]; try lia.
  destruct (vt_Decision w); cbn in *; lia || done.
Qed.

Lemma settle_failing v e : known (vt_Decision v) = true → vt_Decision v ≠ Deny →
  no_looser (vt_Decision (fst (settle g1 (inr v)))) (vt_Decision (fst (settle g2 (inl e)))).
Proof using Hu.
  intros Hv Hd. destruct (rank_fallback g2) as (Hr & Hf & _). unfold settle. rewrite Hv, Hu. unfold no_looser. cbn [negb fst vt_Decision].
  destruct (gd_Unattended g2); [rewrite Hf by done; cbn; destruct (bool_decide _); cbn [fst vt_Decision andb rank]; [lia|]|rewrite andb_false_r; cbn [fst]];
    destruct (vt_Decision v); cbn in *; lia || done.
Qed.
End more.

(** A guard with judges added behind those it has never decides more loosely:
    neither a verdict of theirs, nor their failing, loosens anything. *)
Theorem more_judges_no_looser g ms more c s :
  let with_judges l := MkGuard (Some (Chain l)) (gd_OnUnavailable g) (gd_MaxPerTurn g) (gd_Honeytokens g) (gd_Unattended g) in
  no_looser (oc_After (fst (Review (with_judges ms) c s))) (oc_After (fst (Review (with_judges (ms ++ more)%list) c s))).
Proof.
  cbv zeta. unfold Review. cbn [gd_Monitor gd_OnUnavailable gd_MaxPerTurn gd_Honeytokens gd_Unattended judge].
  set (before := res_Decision _). unfold planted. cbn [gd_Honeytokens].
  destruct (_ && existsb _ _); [reflexivity|]. destruct (NeedsReview c) as [[] why]; [|reflexivity].
  destruct (_ && _); [reflexivity|]. unfold Chain.
  set (g1 := MkGuard (Some _) _ _ _ _). set (g2 := MkGuard (Some _) _ _ _ _).
  assert (∀ a b : string + Verdict, no_looser (vt_Decision (fst (settle g1 a))) (vt_Decision (fst (settle g2 b))) →
    no_looser (oc_After (fst (let '(v, u) := settle g1 a in let after := tighten before (vt_Decision v) in
        (MkOutcome v before after (negb (bool_decide (after = before))) u "", if 0 <? gd_MaxPerTurn g then MkGuardState (gs_turn s) (gs_used s + 1) else s))))
      (oc_After (fst (let '(v, u) := settle g2 b in let after := tighten before (vt_Decision v) in
        (MkOutcome v before after (negb (bool_decide (after = before))) u "", if 0 <? gd_MaxPerTurn g then MkGuardState (gs_turn s) (gs_used s + 1) else s))))) as Hgo.
  { intros a b. destruct (settle g1 a) as [v1 u1], (settle g2 b) as [v2 u2]. cbn. unfold no_looser, tighten.
    destruct (Z.ltb_spec (rank before) (rank (vt_Decision v1))), (Z.ltb_spec (rank before) (rank (vt_Decision v2))); lia. }
  pose proof (chain_from_spec ms c chain_start eq_refl) as Hs. rewrite chain_from_app by done.
  destruct (chain_from ms c chain_start) as [e|v]; [apply Hgo; reflexivity|]. destruct Hs as [Hv _].
  destruct (bool_decide_reflect (vt_Decision v = Deny)) as [|Hd]; [apply Hgo, settle_mono; done|].
  pose proof (chain_from_spec more c v Hv) as Hm. destruct (chain_from more c v) as [e|w].
  - apply Hgo, settle_failing; done.
  - destruct Hm as [Hw Hm]. apply Hgo, settle_mono; done.
Qed.

(** ** A concrete guard *)

Definition strict_judge : Judge := λ c, Answered (MkVerdict Deny "out-of-remit" 1 "no" "stop" "v").
Definition two_a_turn : Guard := MkGuard (Some (Chain [Some (λ _, Answered (MkVerdict Ask "x" 1 "" "" "v")); Some strict_judge])) Ask 2 ["sk-planted-1"] false.
Definition a_write : Case := MkCase "write" "{}" true (decided Allow "allow" "") [] [].

Example third_is_passed_over : map oc_After
  [fst (Review two_a_turn a_write (MkGuardState 0 1)); fst (Review two_a_turn a_write (MkGuardState 0 2))] = [Deny; Allow].
Proof. reflexivity. Qed.

Lemma budget_holds_witness :
  let run := foldl (guard_step two_a_turn) (fresh_guard, [0]) [OReview a_write; OReview a_write; OReview a_write; OTurn; OReview a_write] in
  snd run = [1; 2] ∧ Forall (λ n, n <= 2) (snd run).
Proof.
  cbv zeta. split; [reflexivity|].
  apply (budget_holds two_a_turn [OReview a_write; OReview a_write; OReview a_write; OTurn; OReview a_write]). reflexivity.
Defined.
