(* ===== verification/AgentTools.v ===== *)
(** What the agent loop knows of a tool and of a call (src/internal/tools/tool.go,
    src/internal/agent/loop.go): the methods of the tool interface and of the
    optional interfaces a tool may have, and the form a call is given before
    policy reads it (src/internal/agent/runbook.go, [canonicalCall]). *)

From Stdlib Require Import ZArith Ascii String Lia.
From stdpp Require Import base tactics list option strings.
From S2P Require Import Prelude.
From S2P Require Import GoStd.
From S2P Require Import Errors.

#[local] Open Scope string_scope.

(** A call of the model; its arguments are JSON text. *)
Record ToolCall : Type := MkCall { tc_ID : string; tc_Name : string; tc_Args : string }.

(** [tools.Result], the parts the loop reads; [tr_Events] are the payloads of the
    events it asks to have recorded. *)
Record ToolResult : Type := MkToolResult { tr_Content : string; tr_IsError : bool; tr_Final : bool; tr_Events : list string }.

Definition refusal (content : string) : ToolResult := MkToolResult content true false [].

Inductive tool_kind : Set := EditTool | WriteTool | OtherTool.

(** A tool. An optional interface it does not have is [None], or the answer a
    caller falls back to. [tl_Canonical] is [CanonicalArgs] with its schema. *)
Record Tool : Type := MkTool {
  tl_Name : string;
  tl_kind : tool_kind;
  tl_OnlyInMode : option string;                              (* ModeScoped *)
  tl_Canonical : string → string + (string * list string);
  tl_Withhold : string → string;                              (* WithholdSecretValues *)
  tl_Resolve : option (string → string + option (string * list string));   (* ArgResolver *)
  tl_AlwaysMutates : bool;                                    (* Mutates *)
  tl_CallMutates : option (string → bool);                    (* CallMutator *)
  tl_Precheck : string → option string;
  tl_Target : option (string → string);                       (* Targeter *)
  tl_Files : option ((string → list string) * (string → list string));    (* FileArgs *)
  tl_SecretNames : string → list string;
  tl_SecretArgs : bool                                        (* SecretArgs *)
}.

(** [MutatesCall]. *)
Definition MutatesCall (t : Tool) (args : string) : bool :=
  if tl_AlwaysMutates t then true
  else match tl_CallMutates t with Some m => m args | None => false end.

(** The arguments with their destination resolved, when the tool does that: what
    it resolved, or why it cannot. *)
Definition resolve_args (t : Tool) (canon : string) : option string * string * list string :=
  match tl_Resolve t with
  | None => (None, canon, [])
  | Some r =>
      match r canon with
      | inl e => (Some e, canon, [])
      | inr None => (None, canon, [])
      | inr (Some (out, which)) =>
          match tl_Canonical t out with
          | inr (again, _) => (None, again, which)
          | inl _ => (None, canon, [])
          end
      end
  end.

(** [canonicalCall]. *)
Definition canonicalCall (t : Tool) (raw : string) : string + string :=
  match tl_Canonical t raw with
  | inl e => inl e
  | inr (canon, _) =>
      match resolve_args t (tl_Withhold t canon) with
      | (Some e, _, _) => inl e
      | (None, canon, _) => inr canon
      end
  end.
