(* ===== verification/Runbook.v ===== *)
(** Plans and their runbooks (src/internal/agent/planmode.go, runbook.go): a
    proposed plan's steps in their canonical form and the hash that names them,
    the person's answer, and the calls that are held to an accepted runbook.

    SHA-256 and its hexadecimal text are parameters, as are the readers of JSON
    text. A bound runbook is known by a number, as the code knows it by its
    pointer. *)

From Stdlib Require Import ZArith NArith Ascii String Lia Bool.
From stdpp Require Import base tactics list option strings.
From S2P Require Import Prelude.
From S2P Require Import GoBinary.
From S2P Require Import EgressTarget.
From S2P Require Import GoStd.
From S2P Require Import GoNet.
From S2P Require Import Errors.
From S2P Require Import Args.
From S2P Require Import PolicyEngine.
From S2P Require Import AgentTools.

#[local] Open Scope string_scope.

(** ** Runbooks *)

(** A proposed step, [tools.RunbookStep]. *)
Record PlanStepIn : Type := MkStepIn {
  si_Tool : string; si_Target : string; si_Command : string; si_Manifest : string; si_Args : string; si_Note : string
}.

Record RunbookStep : Type := MkStep {
  rs_Index : nat; rs_Tool : string; rs_Target : string; rs_Args : string;
  rs_Hash : string; rs_Note : string; rs_Destructive : string
}.

Record Runbook : Type := MkRunbook { rb_Hash : string; rb_Steps : list RunbookStep }.

Definition maxRunbookSteps : nat := 200.
Definition runbookTools : list string := ["ssh"; "k8s_apply"; "bash"; "edit"; "write"].

(** [writeField]: a field behind its length. *)
Definition writeField (s : string) : string := Itoa (Z.of_nat (String.length s)) ++ ":" ++ s ++ ";".
Definition fields_text (l : list string) : string := String.concat "" (map writeField l).

(** [argStr]. *)
Definition argStr (m : object) (k : string) : string := default "" (field m k ≫= as_string).

Definition set_field (k v : string) (m : object) : object :=
  match field m k with
  | Some _ => map (λ p, if String.eqb (fst p) k then (k, JStr v) else p) m
  | None => (m ++ [(k, JStr v)])%list
  end.

(** [set] of [stepArgs]: the arguments with [v] under [k], or as they were with
    the error. *)
Definition set_arg (k v : string) (x : object * list string) : object * list string :=
  let '(m, errs) := x in
  if String.eqb v "" then x
  else match field m k with
       | Some (JStr old) => if String.eqb old v then (set_field k v m, errs) else (m, (errs ++ [(k ++ " is given twice, differently")%string])%list)
       | Some _ => (m, (errs ++ [(k ++ " is given twice, differently")%string])%list)
       | None => (set_field k v m, errs)
       end.

Section runbook.
Context (sha256hex : string → string).
Context (unmarshal : string → string + object) (decode : string → option object).
(** [CanonicalCommand(c).DestructiveWith] of a command. *)
Context (DestructiveWith : string → option string).

(** [planTextHash]. *)
Definition plan_fields (text : string) (step_hashes : list string) : string :=
  fields_text ("abhed-plan-v1" :: text :: step_hashes).
Definition planTextHash (text : string) : string := sha256hex (plan_fields text []).

Definition step_hash (name canon : string) : string := sha256hex (fields_text [name; canon]).

(** [stepArgs]. *)
Definition stepArgs (tool : string) (s : PlanStepIn) : string + string :=
  let t := TrimSpace (si_Args s) in
  match (if String.eqb t "" || String.eqb t "null" then inr [] else unmarshal t) with
  | inl e => inl ("args is not a JSON object: " ++ e)
  | inr args =>
      let target := TrimSpace (si_Target s) in
      let finish (x : object * list string) :=
        match snd x with [] => inr (Marshal true (JObj (fst x))) | errs => inl (Join errs (String newline "")) end in
      if String.eqb tool "ssh" then
        let x := set_arg "command" (si_Command s) (set_arg "host" target (args, [])) in
        if String.eqb (argStr (fst x) "host") "" then inl "an ssh step names its host in target" else finish x
      else if String.eqb tool "k8s_apply" then
        let x :=
          if String.eqb target "" then (args, [])
          else let '(cluster, ns) := default (target, "") (Cut target "/") in
               set_arg "namespace" ns (set_arg "cluster" cluster (args, [])) in
        let '(m, errs) := set_arg "manifest" (si_Manifest s) x in
        let m := match field m "action" with
                 | None => if String.eqb (si_Manifest s) "" then m else set_field "action" "apply" m
                 | Some _ => m
                 end in
        if String.eqb (argStr m "cluster") "" && String.eqb (argStr m "context") "" then
          inl "a k8s_apply step names its cluster in target (cluster/namespace)"
        else finish (m, errs)
      else if String.eqb tool "bash" then
        if String.eqb target "" then finish (set_arg "command" (si_Command s) (args, []))
        else inl "a bash step runs in the session's sandbox and takes no target"
      else if String.eqb tool "edit" || String.eqb tool "write" then finish (set_arg "path" target (args, []))
      else finish (args, [])
  end.

(** [stepTarget]. *)
Definition stepTarget (tool canon : string) : string :=
  match decode canon with
  | None => ""
  | Some m =>
      if String.eqb tool "ssh" then argStr m "host"
      else if String.eqb tool "k8s_apply" then
        let c := if String.eqb (argStr m "cluster") "" then argStr m "context" else argStr m "cluster" in
        Trim (c ++ "/" ++ argStr m "namespace") "/"
      else if String.eqb tool "edit" || String.eqb tool "write" then argStr m "path"
      else ""
  end.

(** [remoteDestructive]. *)
Definition remoteDestructive (tool canon : string) : string :=
  match decode canon with
  | None => ""
  | Some m =>
      if String.eqb tool "ssh" then
        match DestructiveWith (argStr m "command") with Some what => what ++ " on " ++ argStr m "host" | None => "" end
      else if String.eqb tool "k8s_apply" && String.eqb (argStr m "action") "delete" then
        "deletes " ++ argStr m "resource" ++ " " ++ argStr m "name" ++ " from the cluster"
      else ""
  end.

(** The session's tools, and its policy outside plan mode and without hooks. *)
Context (Get : string → option Tool) (dry : option (string → bool → string → Result)).

(** [prepareStep]. *)
Definition prepareStep (s : PlanStepIn) : string + RunbookStep :=
  let name := TrimSpace (si_Tool s) in
  if negb (bool_decide (name ∈ runbookTools)) then
    inl ("a runbook step calls ssh, k8s_apply, bash, edit or write, not " ++ Quote (si_Tool s))
  else
    match Get name with
    | None => inl ("the tool " ++ name ++ " is not available in this session")
    | Some tool =>
        match stepArgs name s with
        | inl e => inl e
        | inr raw =>
            match canonicalCall tool raw with
            | inl e => inl e
            | inr canon =>
                let step d := MkStep 0 name (stepTarget name canon) canon (step_hash name canon) (TrimSpace (si_Note s)) d in
                match dry with
                | None => inr (step "")
                | Some evaluate =>
                    let r := evaluate name (MutatesCall tool canon) canon in
                    if bool_decide (res_Decision r = Deny) then inl ("the policy refuses it (" ++ res_Reason r ++ ")")
                    else
                      let d := if bool_decide (res_Decision r = Ask) && String.eqb (res_Step r) "destructive"
                               then TrimSuffix (res_Reason r) " — always requires confirmation" else "" in
                      inr (step (if String.eqb d "" then remoteDestructive name canon else d))
                end
            end
        end
    end.

Fixpoint prepare_steps (i : nat) (l : list PlanStepIn) : string + list RunbookStep :=
  match l with
  | [] => inr []
  | s :: l =>
      match prepareStep s with
      | inl e => inl ("step " ++ Itoa (Z.of_nat (i + 1)) ++ ": " ++ e)
      | inr st =>
          match prepare_steps (i + 1) l with
          | inl e => inl e
          | inr sts => inr (MkStep (i + 1) (rs_Tool st) (rs_Target st) (rs_Args st) (rs_Hash st) (rs_Note st) (rs_Destructive st) :: sts)
          end
      end
  end.

Definition ErrRunbooksOff : string :=
  "runbooks are turned off here (plan.runbooks: false); present the plan without one, and each call will ask".

(** [prepareRunbook]; [None] for a plan without steps. *)
Definition prepareRunbook (off : bool) (text : string) (steps : list PlanStepIn) : string + option Runbook :=
  match steps with
  | [] => inr None
  | _ =>
      if off then inl ErrRunbooksOff
      else if (maxRunbookSteps <? length steps)%nat then
        inl ("the runbook has " ++ Itoa (Z.of_nat (length steps)) ++ " steps; at most " ++ Itoa (Z.of_nat maxRunbookSteps) ++ " are allowed")
      else match prepare_steps 0 steps with
           | inl e => inl e
           | inr sts => inr (Some (MkRunbook (sha256hex (plan_fields text (map rs_Hash sts))) sts))
           end
  end.

(** ** Plans *)

Record PlanProposed : Type := MkProposed { pp_Text : string; pp_Runbook : option Runbook; pp_Hash : string }.

(** [boundPlan], by its number. *)
Record boundPlan : Type := MkBound { bp_id : nat; bp_rb : Runbook; bp_done : list bool }.

(** [planState]. *)
Record planState : Type := MkPlans {
  pl_pending : option PlanProposed; pl_offered : option Runbook; pl_bound : option boundPlan; pl_off : bool; pl_ids : nat
}.

Definition no_plans : planState := MkPlans None None None false 0.

Definition bind_runbook (rb : Runbook) (s : planState) : planState :=
  MkPlans (pl_pending s) None (Some (MkBound (pl_ids s) rb (repeat false (length (rb_Steps rb))))) (pl_off s) (S (pl_ids s)).

(** [proposePlan], whose event could be recorded or not. *)
Definition proposePlan (recorded : bool) (text : string) (steps : list PlanStepIn) (s : planState) : option string * planState :=
  match prepareRunbook (pl_off s) text steps with
  | inl e => (Some ("the runbook was refused: " ++ e), s)
  | inr rb =>
      if negb recorded then (Some "not recorded", s)
      else (None, MkPlans (Some (MkProposed text rb (match rb with Some rb => rb_Hash rb | None => planTextHash text end)))
                    rb None (pl_off s) (pl_ids s))
  end.

(** [TakePlan] and [ReofferPlan]. *)
Definition TakePlan (s : planState) : option PlanProposed * planState :=
  (pl_pending s, MkPlans None (pl_offered s) (pl_bound s) (pl_off s) (pl_ids s)).
Definition ReofferPlan (p : PlanProposed) (s : planState) : planState :=
  match pl_pending s with
  | None => MkPlans (Some p) (pl_offered s) (pl_bound s) (pl_off s) (pl_ids s)
  | Some _ => s
  end.

(** [PlanOffered]: why the plan cannot be accepted. *)
Definition PlanOffered (p : PlanProposed) (s : planState) : option string :=
  match pp_Runbook p with
  | None => None
  | Some rb =>
      if pl_off s then Some ErrRunbooksOff
      else match pl_offered s with
           | Some o => if String.eqb (rb_Hash o) (rb_Hash rb) then None else Some "the plan accepted is not the one proposed"
           | None => Some "the plan accepted is not the one proposed"
           end
  end.

Definition unbind (s : planState) : planState := MkPlans (pl_pending s) (pl_offered s) None (pl_off s) (pl_ids s).

(** [AcceptPlan]. *)
Definition AcceptPlan (p : PlanProposed) (s : planState) : option string * planState :=
  let s := unbind s in
  match PlanOffered p s with
  | Some e => (Some e, s)
  | None =>
      (None, match pp_Runbook p, pl_offered s with Some _, Some rb => bind_runbook rb s | _, _ => s end)
  end.

(** [UnbindPlan] and [DisableRunbooks]. *)
Definition UnbindPlan (s : planState) : planState := unbind s.
Definition DisableRunbooks (s : planState) : planState := MkPlans (pl_pending s) None None true (pl_ids s).

(** [BindRunbook], whose two events could be recorded or not. *)
Definition BindRunbook (recorded : bool) (text : string) (steps : list PlanStepIn) (want : string) (s : planState)
    : (string + Runbook) * planState :=
  match steps with
  | [] => (inl "the runbook has no steps", s)
  | _ =>
      match prepareRunbook (pl_off s) text steps with
      | inl e => (inl e, s)
      | inr None => (inl "the runbook has no steps", s)
      | inr (Some rb) =>
          let want := ToLower (TrimSpace want) in
          if negb (String.eqb want "") && negb (String.eqb want (rb_Hash rb)) then
            (inl ("the runbook's plan hash is " ++ rb_Hash rb ++ ", not the " ++ want ++ " approved"), s)
          else if negb recorded then (inl "not recorded", s)
          else (inr rb, bind_runbook rb s)
      end
  end.
End runbook.

(** ** Calls held to a runbook *)

(** [next] and [find]: the first step not yet run, and the first one not yet
    run that is exactly this call. *)
Fixpoint first_step (f : RunbookStep → bool) (steps : list RunbookStep) (dn : list bool) (i : nat) : option nat :=
  match steps, dn with
  | st :: steps, d :: dn => if negb d && f st then Some i else first_step f steps dn (S i)
  | _, _ => None
  end.

Definition plan_next (b : boundPlan) : option nat := first_step (λ _, true) (rb_Steps (bp_rb b)) (bp_done b) 0.
Definition plan_find (tool args : string) (b : boundPlan) : option nat :=
  first_step (λ st, String.eqb (rs_Tool st) tool && String.eqb (rs_Args st) args) (rb_Steps (bp_rb b)) (bp_done b) 0.

(** [planHit]: the plan's number, the step, and whether the plan's approval
    stood in for the ask. *)
Record planHit : Type := MkHit { ht_plan : nat; ht_rb : Runbook; ht_index : nat; ht_replaced : bool }.

(** [planReplaces]. *)
Definition planReplaces (step : string) : bool := bool_decide (step ∈ ["default"; "mode"; "ask"; "destructive"]).

(** [keepsAsk]; [KeepAsk] is the policy's, when it has one. *)
Definition keepsAsk (KeepAsk : option (Result → bool)) (d : Result) : bool :=
  if negb (String.eqb (res_Step d) "ask") then false
  else String.eqb (res_Rule d) "" || negb (String.eqb (res_Layer d) "") ||
       match KeepAsk with Some k => k d | None => false end.

Definition shortHash (h : string) : string := if (12 <? String.length h)%nat then str_take 12 h else h.

(** [notInPlan]. *)
Definition notInPlan (d : Result) (why : string) : Result :=
  let reason := "not in the approved plan (" ++ why ++ ")" in
  if bool_decide (res_Decision d = Allow) then
    MkResult Ask (reason ++ "; the policy alone would allow it: " ++ res_Reason d) "" "plan" "" "" "" ""
  else MkResult (res_Decision d) (reason ++ "; " ++ res_Reason d) "" (res_Step d) (res_Rule d) "" (res_Layer d) "".

Definition with_reason (r : string) (d : Result) : Result :=
  MkResult (res_Decision d) r (res_Scope d) (res_Step d) (res_Rule d) (res_Suggest d) (res_Layer d) (res_Guard d).

(** [planBind]. [child] is a subagent spawned under a bound runbook; [hook] is
    [PermissionRequested]'s refusal, asked only where the plan answers an ask. *)
Definition planBind (KeepAsk : option (Result → bool)) (hook : string → option string) (child mutates : bool)
    (bound : option boundPlan) (tool args : string) (d : Result) : Result * option planHit :=
  if bool_decide (res_Decision d = Deny) then (d, None)
  else
    match bound with
    | None =>
        if mutates && child then (notInPlan d "a subagent's call is never a step of the approved plan", None) else (d, None)
    | Some b =>
        let step_of (i : nat) := Itoa (Z.of_nat (i + 1)) in
        let of_ := Itoa (Z.of_nat (length (rb_Steps (bp_rb b)))) in
        match plan_find tool args b with
        | None =>
            if negb mutates then (d, None)
            else (notInPlan d (match plan_next b with
                               | Some n => "step " ++ step_of n ++ " of " ++ of_ ++ " is next"
                               | None => "the plan's steps have all run"
                               end), None)
        | Some i =>
            let hit replaced := Some (MkHit (bp_id b) (bp_rb b) i replaced) in
            let label := "step " ++ step_of i ++ " of " ++ of_ ++ " in the approved plan " ++ shortHash (rb_Hash (bp_rb b)) in
            match plan_next b with
            | Some n =>
                if negb (Nat.eqb i n) then
                  (notInPlan d ("it is step " ++ step_of i ++ ", out of order: step " ++ step_of n ++ " is next"), hit false)
                else if bool_decide (res_Decision d = Allow) then
                  (with_reason (TrimPrefix (res_Reason d ++ "; " ++ label) "; ") d, hit false)
                else if negb (planReplaces (res_Step d)) || keepsAsk KeepAsk d then
                  (with_reason (label ++ ", asked again: " ++ res_Reason d) d, hit false)
                else
                  match hook label with
                  | Some why => (MkResult Deny why "" "hook" "" "" "" "", None)
                  | None => (MkResult Allow (label ++ " (approved with the plan; was: " ++ res_Reason d ++ ")") "" "plan" "" "" "" "", hit true)
                  end
            | None => (d, None)                  (* a step found is a step not yet run *)
            end
        end
    end.

Definition set_done (i : nat) (b : boundPlan) : boundPlan := MkBound (bp_id b) (bp_rb b) (<[i := true]> (bp_done b)).

(** The claim of [planClaim]: whether the step was free, and the plan with it
    marked. *)
Definition plan_claim (hit : planHit) (s : planState) : bool * planState :=
  match pl_bound s with
  | Some b =>
      if Nat.eqb (bp_id b) (ht_plan hit) && negb (nth (ht_index hit) (bp_done b) true) then
        (true, MkPlans (pl_pending s) (pl_offered s) (Some (set_done (ht_index hit) b)) (pl_off s) (pl_ids s))
      else (false, s)
  | None => (false, s)
  end.

(** * Theorems

    A runbook's approval answers only for its own next step, each step is
    claimed once, and a plan's hash names its text and every call in it. *)

(** ** The plan and the ask *)

Lemma first_step_some f steps : ∀ dn i k, first_step f steps dn i = Some k →
  ∃ j st, k = (i + j)%nat ∧ steps !! j = Some st ∧ dn !! j = Some false ∧ f st = true ∧
    ∀ j' st', (j' < j)%nat → steps !! j' = Some st' → dn !! j' = Some true ∨ f st' = false.
Proof.
  induction steps as [|st steps IH]; intros dn i k; [done|]. destruct dn as [|d dn]; [done|]. cbn [first_step].
  destruct (negb d && f st) eqn:E.
  - intros [= <-]. apply andb_true_iff in E as [Hd Hf]. apply negb_true_iff in Hd as ->.
    exists 0%nat, st. split_and!; [lia|done|done|done|]. intros j' ? Hj. lia.
  - intros H. apply IH in H as (j & st' & -> & H1 & H2 & H3 & H4). exists (S j), st'. split_and!; [lia|done|done|done|].
    intros [|j'] st'' Hj Hs; [|by apply H4; [lia|]]. injection Hs as <-.
    apply andb_false_iff in E as [Hd%negb_false_iff|Hf]; [left; by subst|by right].
Qed.

(** Every step before [k] has run, and [k] has not. *)
Definition is_next (b : boundPlan) (k : nat) : Prop :=
  bp_done b !! k = Some false ∧ ∀ j, (j < k)%nat → is_Some (rb_Steps (bp_rb b) !! j) → bp_done b !! j = Some true.

Lemma plan_next_spec b k : plan_next b = Some k → is_next b k.
Proof.
  intros H. apply first_step_some in H as (j & st & -> & H1 & H2 & _ & H4). split; [done|].
  intros i Hi [st' Hs]. by destruct (H4 i st' Hi Hs).
Qed.

Lemma plan_find_spec tool args b k : plan_find tool args b = Some k →
  ∃ st, rb_Steps (bp_rb b) !! k = Some st ∧ rs_Tool st = tool ∧ rs_Args st = args ∧ bp_done b !! k = Some false.
Proof.
  intros H. apply first_step_some in H as (j & st & -> & H1 & H2 & H3 & _).
  apply andb_true_iff in H3 as [Ht%String.eqb_eq Ha%String.eqb_eq]. by exists st.
Qed.

Lemma notInPlan_decision d why : res_Decision d ≠ Allow → res_Decision (notInPlan d why) = res_Decision d.
Proof. intros H. unfold notInPlan. by rewrite bool_decide_eq_false_2. Qed.
Lemma notInPlan_not_allow d why : res_Decision (notInPlan d why) ≠ Allow.
Proof. unfold notInPlan. by destruct (bool_decide_reflect (res_Decision d = Allow)). Qed.

(** The call is exactly the next step of the plan. *)
Definition next_call (b : boundPlan) (tool args : string) (k : nat) : Prop :=
  is_next b k ∧ ∃ st, rb_Steps (bp_rb b) !! k = Some st ∧ rs_Tool st = tool ∧ rs_Args st = args.

(** What a plan makes of a decision [d]: the decision [r], and the step hit. *)
Definition plan_answers (KeepAsk : option (Result → bool)) (hook : string → option string) (child mutates : bool)
    (bound : option boundPlan) (tool args : string) (d r : Result) (hit : option planHit) : Prop :=
  (res_Decision d = Deny → r = d ∧ hit = None) ∧
  (res_Decision r = Allow → mutates = true → (bound ≠ None ∨ child = true) →
     ∃ b k, bound = Some b ∧ next_call b tool args k ∧ ∃ rep, hit = Some (MkHit (bp_id b) (bp_rb b) k rep)) ∧
  (res_Decision r = Allow → res_Decision d ≠ Allow →
     ∃ b k, bound = Some b ∧ next_call b tool args k ∧ hit = Some (MkHit (bp_id b) (bp_rb b) k true) ∧
       planReplaces (res_Step d) = true ∧ keepsAsk KeepAsk d = false ∧ ∃ label, hook label = None) ∧
  (∀ h, hit = Some h → ∃ b, bound = Some b ∧ ht_plan h = bp_id b ∧
     ∃ st, rb_Steps (bp_rb b) !! ht_index h = Some st ∧ rs_Tool st = tool ∧ rs_Args st = args) ∧
  (∀ h, hit = Some h → ht_replaced h = true → res_Decision r = Allow ∧ res_Decision d ≠ Allow).

(** C12: A plan never touches a denial. Where one is bound, a call that can change
    things is let through without a person only when it is, argument for
    argument, the next step not yet run; and the plan answers an ask only there,
    only an ask of the mode, of a rule that a person may answer for all, or of
    what cannot be undone, and only when no hook refuses it. *)
Theorem planBind_exact KeepAsk hook child mutates bound tool args d :
  let '(r, hit) := planBind KeepAsk hook child mutates bound tool args d in
  plan_answers KeepAsk hook child mutates bound tool args d r hit.
Proof.
  destruct (planBind KeepAsk hook child mutates bound tool args d) as [r hit] eqn:E. revert E. unfold planBind.
  destruct (bool_decide_reflect (res_Decision d = Deny)) as [Hd|Hd].
  { intros [= <- <-]. unfold plan_answers. rewrite Hd. by split_and!. }
  assert (∀ why : string, (notInPlan d why, None) = (r, hit) → plan_answers KeepAsk hook child mutates bound tool args d r hit) as Hnot.
  { intros why [= <- <-]. pose proof (notInPlan_not_allow d why). by split_and!. }
  destruct bound as [b|].
  2:{ destruct (mutates && child) eqn:E; [by apply Hnot|]. intros [= <- <-]. split_and!; try done.
      intros _ -> [?| ->]; [done|]. done. }
  destruct (plan_find tool args b) as [i|] eqn:Ef.
  2:{ destruct mutates; cbn [negb]; [by apply Hnot|]. intros [= <- <-]. by split_and!. }
  apply plan_find_spec in Ef as (st & Hst & Ht & Ha & Hdn).
  assert (Hhit : ∀ rep h, Some (MkHit (bp_id b) (bp_rb b) i rep) = Some h → ∃ b0, Some b = Some b0 ∧ ht_plan h = bp_id b0 ∧
     ∃ st, rb_Steps (bp_rb b0) !! ht_index h = Some st ∧ rs_Tool st = tool ∧ rs_Args st = args).
  { intros rep h [= <-]. exists b. split_and!; [done|done|]. by exists st. }
  destruct (plan_next b) as [n|] eqn:En.
  2:{ exfalso. clear Hnot. unfold plan_next in En. assert (∀ steps dn i k st, steps !! i = Some st → dn !! i = Some false →
        first_step (λ _, true) steps dn k ≠ None) as Hs; [|by eapply (Hs _ _ _ 0%nat st Hst Hdn)].
      clear. induction steps as [|s steps IH]; intros [|d dn] [|i] k st; cbn; try done; [by intros _ [= ->]|].
      intros H1 H2. destruct (negb d && true); [done|]. by eapply IH. }
  apply plan_next_spec in En.
  destruct (Nat.eqb_spec i n) as [<-|Hne]; cbn [negb].
  2:{ intros [= <- <-]. match goal with |- context [notInPlan d ?w] => pose proof (notInPlan_not_allow d w) end. split_and!; try done.
      - apply Hhit.
      - intros h [= <-]. done. }
  assert (next_call b tool args i) as Hnext by (split; [done|by exists st]).
  destruct (bool_decide_reflect (res_Decision d = Allow)) as [Hal|Hal].
  { intros [= <- <-]. cbn. split_and!; try done.
    - intros _ _ _. exists b, i. split_and!; [done|done|]. by exists false.
    - apply Hhit.
    - intros h [= <-]. done. }
  destruct (planReplaces (res_Step d)) eqn:Ep; cbn [negb orb].
  2:{ intros [= <- <-]. cbn. split_and!; try done; [apply Hhit|]. intros h [= <-]. done. }
  destruct (keepsAsk KeepAsk d) eqn:Ek.
  { intros [= <- <-]. cbn. split_and!; try done; [apply Hhit|]. intros h [= <-]. done. }
  destruct (hook _) as [why|] eqn:Eh.
  { intros [= <- <-]. cbn. by split_and!. }
  intros [= <- <-]. cbn. split_and!; try done.
  - intros _ _ _. exists b, i. split_and!; [done|done|]. by exists true.
  - intros _ _. exists b, i. split_and!; try done. by eexists.
  - apply Hhit.
Qed.

(** ** Each step once *)

(** What happens to a session's plans: proposals and answers, the operator's
    runbooks, and calls matched and claimed, in any order and by any of the
    goroutines that judge calls. *)
Inductive plan_op : Type :=
  | PPropose (p : PlanProposed)
  | PTake
  | PReoffer (p : PlanProposed)
  | PAccept (p : PlanProposed)
  | POperator (rb : Runbook)
  | PUnbind
  | PDisable
  | PClaim (hit : planHit).

(** The state, and the steps claimed, by plan and index, the last first. *)
Definition plan_step (x : planState * list (nat * nat)) (o : plan_op) : planState * list (nat * nat) :=
  let '(s, claimed) := x in
  match o with
  | PPropose p => (MkPlans (Some p) (pp_Runbook p) None (pl_off s) (pl_ids s), claimed)
  | PTake => (snd (TakePlan s), claimed)
  | PReoffer p => (ReofferPlan p s, claimed)
  | PAccept p => (snd (AcceptPlan p s), claimed)
  | POperator rb => (bind_runbook rb s, claimed)
  | PUnbind => (UnbindPlan s, claimed)
  | PDisable => (DisableRunbooks s, claimed)
  | PClaim hit =>
      match plan_claim hit s with
      | (true, s) => (s, (ht_plan hit, ht_index hit) :: claimed)
      | (false, s) => (s, claimed)
      end
  end.

Definition plans_after (ops : list plan_op) : planState * list (nat * nat) := foldl plan_step (no_plans, []) ops.

(** Every claim is of a plan bound before, and of the one bound now the steps
    claimed are exactly those marked. *)
Record claims_ok (s : planState) (claimed : list (nat * nat)) : Prop := MkClaimsOk {
  co_nodup : NoDup claimed;
  co_old : ∀ p i, (p, i) ∈ claimed → (p < pl_ids s)%nat;
  co_bound : ∀ b, pl_bound s = Some b → (bp_id b < pl_ids s)%nat ∧
    ∀ i, (bp_id b, i) ∈ claimed → bp_done b !! i = Some true
}.

Lemma claims_unbound s s' claimed : claims_ok s claimed → pl_ids s' = pl_ids s →
  (pl_bound s' = None ∨ pl_bound s' = pl_bound s) → claims_ok s' claimed.
Proof.
  intros [H1 H2 H3] Hi Hb. split; [done|by rewrite Hi|]. intros b E.
  destruct Hb as [Hb|Hb]; rewrite Hb in E; [done|]. rewrite Hi. by apply H3.
Qed.

Lemma claims_bind rb s claimed : claims_ok s claimed → claims_ok (bind_runbook rb s) claimed.
Proof.
  intros [H1 H2 H3]. split; [done| |].
  - intros p i Hp. cbn. apply H2 in Hp. lia.
  - intros b [= <-]. cbn. split; [lia|]. intros i Hi. apply H2 in Hi. lia.
Qed.

Lemma claims_claim hit s claimed : claims_ok s claimed →
  let '(ok, s') := plan_claim hit s in claims_ok s' (if ok then (ht_plan hit, ht_index hit) :: claimed else claimed).
Proof.
  intros H. pose proof H as [H1 H2 H3]. unfold plan_claim. destruct (pl_bound s) as [b|] eqn:Eb; [|done].
  destruct (Nat.eqb_spec (bp_id b) (ht_plan hit)) as [Hp|]; [|done].
  destruct (nth (ht_index hit) (bp_done b) true) eqn:En; [done|]. cbn [andb negb].
  destruct (H3 b eq_refl) as [Hlt Hall]. assert (Hd : bp_done b !! ht_index hit = Some false).
  { rewrite nth_lookup in En. destruct (bp_done b !! ht_index hit); [by cbn in En; subst|done]. }
  split.
  - constructor; [|done]. rewrite <- Hp. intros Hin. apply Hall in Hin. congruence.
  - intros p i [[= -> ->]|Hin]%elem_of_cons; [cbn; lia|by apply (H2 p i)].
  - intros b' [= <-]. cbn. split; [done|]. intros i [[= _ ->]|Hin]%elem_of_cons.
    + subst. apply list_lookup_insert_eq. by eapply lookup_lt_Some.
    + apply Hall in Hin. destruct (decide (i = ht_index hit)) as [->|]; [|by rewrite list_lookup_insert_ne].
      apply list_lookup_insert_eq. by eapply lookup_lt_Some.
Qed.

Lemma claims_step x o : claims_ok x.1 x.2 → claims_ok (plan_step x o).1 (plan_step x o).2.
Proof.
  destruct x as [s claimed]. cbn [fst snd]. intros H. destruct o as [p| |p|p|rb| | |hit]; cbn [plan_step fst snd].
  - eapply claims_unbound; [exact H|done|by left].
  - eapply claims_unbound; [exact H|done|by right].
  - eapply claims_unbound; [exact H|by unfold ReofferPlan; destruct (pl_pending s)|right; by unfold ReofferPlan; destruct (pl_pending s)].
  - assert (claims_ok (unbind s) claimed) as Hu by (eapply claims_unbound; [exact H|done|by left]).
    unfold AcceptPlan. destruct (PlanOffered p (unbind s)); [done|].
    destruct (pp_Runbook p); [|done]. destruct (pl_offered (unbind s)); [|done]. by apply claims_bind.
  - by apply claims_bind.
  - eapply claims_unbound; [exact H|done|by left].
  - eapply claims_unbound; [exact H|done|by left].
  - pose proof (claims_claim hit s claimed H) as Hc. by destruct (plan_claim hit s) as [[] s'].
Qed.

(** Whatever is proposed, accepted, taken over, let go and matched, in any
    order: no step of an accepted plan is claimed twice, also not when the same
    runbook is accepted again meanwhile; and a step is claimed only of the plan
    bound at that moment. *)
Theorem each_step_once ops : NoDup (snd (plans_after ops)) ∧
  ∀ hit, fst (plan_claim hit (fst (plans_after ops))) = true →
    (ht_plan hit, ht_index hit) ∉ snd (plans_after ops) ∧
    ∃ b, pl_bound (fst (plans_after ops)) = Some b ∧ bp_id b = ht_plan hit.
Proof.
  assert (Hall : ∀ ops x, claims_ok x.1 x.2 → claims_ok (foldl plan_step x ops).1 (foldl plan_step x ops).2).
  { clear. induction ops as [|o ops IH]; intros x Hx; [done|]. cbn [foldl]. by apply IH, claims_step. }
  assert (claims_ok (plans_after ops).1 (plans_after ops).2) as [H1 H2 H3].
  { apply Hall. split; [constructor|by intros ? ? ?%elem_of_nil|done]. }
  split; [done|]. intros hit. unfold plan_claim. destruct (pl_bound (fst (plans_after ops))) as [b|]; [|done].
  destruct (Nat.eqb_spec (bp_id b) (ht_plan hit)) as [Hp|]; [|done].
  destruct (nth (ht_index hit) (bp_done b) true) eqn:En; [done|]. intros _. split; [|by exists b].
  rewrite <- Hp. intros Hin. apply (H3 b eq_refl) in Hin. by rewrite nth_lookup, Hin in En.
Qed.

(** ** What a plan's hash names *)

Lemma no_colon_split a b x y : str_forall (λ d, negb (":"%char =c d)) a = true → str_forall (λ d, negb (":"%char =c d)) b = true →
  a ++ String ":" x = b ++ String ":" y → a = b ∧ x = y.
Proof.
  revert b. induction a as [|c a IH]; intros [|d b]; cbn; intros Ha Hb.
  - by intros [= ->].
  - intros [= <- _]. done.
  - intros [= -> _]. done.
  - apply andb_true_iff in Ha as [_ Ha], Hb as [_ Hb]. intros [= -> H]. by destruct (IH b Ha Hb H) as [-> ->].
Qed.

Lemma Itoa_nat_inj n m : Itoa (Z.of_nat n) = Itoa (Z.of_nat m) → n = m.
Proof.
  assert (∀ k, parse_digits 0 (Itoa (Z.of_nat k)) = Some (N.of_nat k)) as H.
  { intros [|k]; [done|]. change (Itoa (Z.of_nat (S k))) with (itoaN (N.pos (Pos.of_succ_nat k))). by rewrite parse_itoaN. }
  intros E. pose proof (H n) as H1. rewrite E, H in H1. injection H1. lia.
Qed.

Lemma Itoa_no_colon n : str_forall (λ d, negb (":"%char =c d)) (Itoa (Z.of_nat n)) = true.
Proof. destruct n; [done|]. apply digits_no_colon, Itoa_digits. lia. Qed.

Lemma writeField_inj s t x y : writeField s ++ x = writeField t ++ y → s = t ∧ x = y.
Proof.
  unfold writeField. rewrite !str_app_assoc. intros H.
  apply no_colon_split in H as [Hn H]; [|apply Itoa_no_colon..]. apply Itoa_nat_inj in Hn.
  assert (s = t) as ->.
  { pose proof (str_take_app_len s (";" ++ x)) as E1. rewrite H, Hn in E1. by rewrite str_take_app_len in E1. }
  split; [done|]. pose proof (str_drop_app_len t (";" ++ x)) as E1. rewrite H, str_drop_app_len in E1. by injection E1.
Qed.

Lemma fields_text_inj l : ∀ l', fields_text l = fields_text l' → l = l'.
Proof.
  assert (Hcons : ∀ s l, fields_text (s :: l) = writeField s ++ fields_text l).
  { intros s [|t l']; [cbn; by rewrite str_app_nil_r|done]. }
  assert (Hne : ∀ s l, fields_text (s :: l) ≠ "").
  { intros s l' E. rewrite Hcons in E. apply (f_equal String.length) in E. unfold writeField in E.
    rewrite !str_length_app in E. cbn in E. lia. }
  induction l as [|s l IH]; intros [|t l']; [done| | |].
  - intros E. symmetry in E. by apply Hne in E.
  - intros E. by apply Hne in E.
  - rewrite !Hcons. intros [-> H]%writeField_inj. by rewrite (IH l').
Qed.

Section hash.
Context (sha256hex : string → string).

(** Two different inputs with the same hash. *)
Definition sha_collision : Prop := ∃ a b, a ≠ b ∧ sha256hex a = sha256hex b.

Lemma sha_same a b : sha256hex a = sha256hex b → a = b ∨ sha_collision.
Proof. intros H. destruct (decide (a = b)) as [|Hne]; [by left|right; by exists a, b]. Qed.

(** A runbook whose hashes are what its parts hash to. *)
Definition hashed (text : string) (rb : Runbook) : Prop :=
  rb_Hash rb = sha256hex (plan_fields text (map rs_Hash (rb_Steps rb))) ∧
  Forall (λ st, rs_Hash st = step_hash sha256hex (rs_Tool st) (rs_Args st)) (rb_Steps rb).

Definition calls_of (rb : Runbook) : list (string * string) := map (λ st, (rs_Tool st, rs_Args st)) (rb_Steps rb).

Lemma step_hashes_same l : ∀ l', map rs_Hash l = map rs_Hash l' →
  Forall (λ st, rs_Hash st = step_hash sha256hex (rs_Tool st) (rs_Args st)) l →
  Forall (λ st, rs_Hash st = step_hash sha256hex (rs_Tool st) (rs_Args st)) l' →
  map (λ st, (rs_Tool st, rs_Args st)) l = map (λ st, (rs_Tool st, rs_Args st)) l' ∨ sha_collision.
Proof.
  induction l as [|st l IH]; intros [|st' l'] H Hl Hl'; [by left|done|done|]. injection H as Hs H.
  inversion Hl as [|? ? E1 Hl1]; subst. inversion Hl' as [|? ? E2 Hl2]; subst. rewrite E1, E2 in Hs. unfold step_hash in Hs.
  apply sha_same in Hs as [Hs|]; [|by right]. apply fields_text_inj in Hs as [= H1 H2].
  destruct (IH l' H Hl1 Hl2) as [IHl|]; [|by right]. left. cbn. by rewrite H1, H2, IHl.
Qed.

Lemma hashed_same text text' rb rb' : hashed text rb → hashed text' rb' → rb_Hash rb = rb_Hash rb' →
  (text = text' ∧ calls_of rb = calls_of rb') ∨ sha_collision.
Proof.
  intros [H1 H2] [H3 H4] H. rewrite H1, H3 in H. apply sha_same in H as [H|]; [|by right].
  apply fields_text_inj in H. injection H as -> Hs. destruct (step_hashes_same _ _ Hs H2 H4); auto.
Qed.

Context (unmarshal : string → string + object) (decode : string → option object) (DestructiveWith : string → option string).
Context (Get : string → option Tool) (dry : option (string → bool → string → Result)).

Lemma prepareStep_hashed s st : prepareStep sha256hex unmarshal decode DestructiveWith Get dry s = inr st →
  rs_Hash st = step_hash sha256hex (rs_Tool st) (rs_Args st).
Proof.
  unfold prepareStep. destruct (negb _); [done|]. destruct (Get _); [|done]. destruct (stepArgs _ _ _); [done|].
  destruct (canonicalCall _ _); [done|]. destruct dry; [|by intros [= <-]]. destruct (bool_decide _); [done|]. by intros [= <-].
Qed.

Lemma prepare_steps_hashed l : ∀ i sts, prepare_steps sha256hex unmarshal decode DestructiveWith Get dry i l = inr sts →
  Forall (λ st, rs_Hash st = step_hash sha256hex (rs_Tool st) (rs_Args st)) sts ∧ map rs_Index sts = seq (S i) (length l).
Proof.
  induction l as [|s l IH]; intros i sts; cbn [prepare_steps]; [by intros [= <-]|].
  destruct (prepareStep _ _ _ _ _ _ s) as [e|st] eqn:Es; [done|]. apply prepareStep_hashed in Es.
  destruct (prepare_steps _ _ _ _ _ _ (i + 1) l) as [e|sts'] eqn:El; [done|]. intros [= <-]. apply IH in El as [H1 H2].
  split; [by constructor|]. cbn. rewrite H2. f_equal; [lia|]. f_equal. lia.
Qed.

Lemma prepareRunbook_hashed off text steps rb :
  prepareRunbook sha256hex unmarshal decode DestructiveWith Get dry off text steps = inr (Some rb) → hashed text rb.
Proof.
  unfold prepareRunbook. destruct steps as [|s l]; [done|]. destruct off; [done|]. destruct (_ <? _)%nat; [done|].
  destruct (prepare_steps _ _ _ _ _ _ 0 (s :: l)) as [e|sts] eqn:E; [done|]. intros [= <-]. split; [done|].
  by apply prepare_steps_hashed in E as [H _].
Qed.

(** The plan an operator approves by its hash is the plan that is bound: two
    proposals whose hashes agree have the same text and the same calls in the
    same order, down to their arguments, or two inputs of SHA-256 that collide. *)
Theorem plan_hash_names_calls off off' text text' steps steps' rb rb' :
  prepareRunbook sha256hex unmarshal decode DestructiveWith Get dry off text steps = inr (Some rb) →
  prepareRunbook sha256hex unmarshal decode DestructiveWith Get dry off' text' steps' = inr (Some rb') →
  rb_Hash rb = rb_Hash rb' →
  (text = text' ∧ calls_of rb = calls_of rb') ∨ sha_collision.
Proof. intros H1%prepareRunbook_hashed H2%prepareRunbook_hashed. by apply hashed_same. Qed.
End hash.

(** ** A concrete runbook *)

Definition plain_tool (name : string) : Tool :=
  MkTool name OtherTool None (λ a, inr (a, [])) (λ a, a) None true None (λ _, None) None None (λ _, []) false.
Definition prepare_two (note : string) : string + option Runbook :=
  prepareRunbook (λ s, s) (λ _, inr []) (λ _, None) (λ _, None) (λ n, Some (plain_tool n)) None false "do it"
    [MkStepIn "bash" "" "ls" "" "" note; MkStepIn "write" "a.txt" "" "" "" ""].

Lemma plan_hash_names_calls_witness :
  ∃ rb rb', prepare_two "look" = inr (Some rb) ∧ prepare_two "" = inr (Some rb') ∧ rb_Hash rb = rb_Hash rb' ∧
    (("do it" = "do it" ∧ calls_of rb = calls_of rb') ∨ sha_collision (λ s, s)).
Proof.
  destruct (prepare_two "look") as [e|[rb|]] eqn:E1; [vm_compute in E1; discriminate|
    |vm_compute in E1; discriminate]. exists rb.
  destruct (prepare_two "") as [e|[rb'|]] eqn:E2; [vm_compute in E2; discriminate| |vm_compute in E2; discriminate]. exists rb'.
  assert (rb_Hash rb = rb_Hash rb') as H by (vm_compute in E1, E2; injection E1 as <-; injection E2 as <-; reflexivity).
  split; [done|]. split; [done|]. split; [exact H|].
  exact (plan_hash_names_calls (λ s, s) (λ _, inr []) (λ _, None) (λ _, None) (λ n, Some (plain_tool n)) None
    false false "do it" "do it" _ _ rb rb' E1 E2 H).
Defined.

(** The second step is asked about while the first has not run, and the first
    runs on the plan's approval. *)
Example in_order :
  match prepare_two "" with
  | inr (Some rb) =>
      let b := MkBound 0 rb [false; false] in
      let ask := decided Ask "default" "no rule" in
      (res_Decision (fst (planBind None (λ _, None) false true (Some b) "bash" (Marshal true (JObj [("command", JStr "ls")])) ask)),
       res_Decision (fst (planBind None (λ _, None) false true (Some b) "write" (Marshal true (JObj [("path", JStr "a.txt")])) ask)),
       res_Decision (fst (planBind None (λ _, None) false true (Some b) "bash" "{}" (decided Allow "allow" "")))) = (Allow, Ask, Ask)
  | _ => False
  end.
Proof. vm_compute. reflexivity. Qed.
