(* ===== verification/AgentLoop.v ===== *)
(** The agent loop's state and record (src/internal/agent/loop.go, event.go): what
    is recorded of a call, the session and the people a loop works with, and the
    checks it makes of a call before anyone is asked.

    Everything a loop consults is an interface: the tools, the policy, the
    supervisor's judge, the approver, the hooks, the record's store, the session's
    files. They are fields of one record, each free to answer differently every
    time it is asked, so they take the loop's count of questions. *)

From Stdlib Require Import ZArith NArith Ascii String Lia.
From stdpp Require Import base tactics list option gmap strings.
From S2P Require Import Prelude.
From S2P Require Import GoStd.
From S2P Require Import GoNet.
From S2P Require Import Errors.
From S2P Require Import GoPath.
From S2P Require Import ShellSplit.
From S2P Require Import Args.
From S2P Require Import PolicyRule.
From S2P Require Import PolicyEngine.
From S2P Require Import Monitor.
From S2P Require Import AgentTools.
From S2P Require Import Runbook.

#[local] Open Scope string_scope.
#[local] Open Scope Z_scope.

(** ** The record *)

Definition ByPolicy : string := "policy".
Definition ByReviewer : string := "reviewer".
Definition ByUser : string := "user".
Definition BySessionScope : string := "session-scope".
Definition ByWorkspaceGrant : string := "workspace-grant".
Definition ByHeadless : string := "headless".
Definition ByCarried : string := "carried".
Definition BySystem : string := "system".
Definition ByPlan : string := "plan".

Record requested : Type := MkRequested {
  rqd_CallID : string; rqd_Tool : string; rqd_Args : string; rqd_RawArgs : string;
  rqd_RequiresApproval : bool; rqd_Reason : string; rqd_Scope : string;
  rqd_Dropped : list string; rqd_Resolved : list string; rqd_Target : string
}.

(** The payload of an approval or a denial; [a_plan] is the plan's hash and the
    step it was. *)
Record outcome_payload : Type := MkPayload {
  a_CallID : string; a_Reason : string; a_Step : string; a_By : string; a_Rule : string; a_Layer : string;
  a_Approver : string; a_Scope : string; a_Granted : string; a_Carried : string; a_plan : option (string * nat)
}.

(** What a run records around the calls of its turns, by its fields the code reads
    or a client relies on. *)
Inductive run_event : Type :=
  | EvUserMessage (text queueID clientID : string) (steered : bool) (secretsWithheld : string)
  | EvMessageDropped (queueID clientID text reason : string)
  | EvSubagentNotice (taskID callID content delivery wake : string)
  | EvAgentDelta (text : string) (seq : nat)
  | EvAgentReasoningDelta (text : string) (seq : nat)
  | EvAgentReasoning (text : string) (turn : Z)
  | EvModelCall (turn tokensIn tokensOut : Z) (toolCalls : nat) (cutOff estimated : bool) (error : string) (retryable : bool)
  | EvAgentMessage (text : string)
  | EvContextOffloaded (callIDs : list string) (charsBefore charsAfter beforeTokens afterTokens : Z)
  | EvCompactStarted (beforeTokens : Z) (trigger : string)
  | EvCompactDone (error skipped summary trigger : string) (beforeTokens afterTokens : Z)
  | EvAnswerVerdict (outcome : bool) (revision : string)
  | EvSessionWoken (by_ : string) (taskIDs : list string)
  | EvSessionEnded (reason : string) (turns tokensIn tokensOut compactions contextTokens : Z) (background : nat) (suggesting : bool) (detail : string).

Inductive event : Type :=
  | EvOfRun (e : run_event)
  | EvActionRequested (r : requested)
  | EvActionDenied (p : outcome_payload)
  | EvActionApproved (p : outcome_payload)
  | EvObservation (callID tool content : string) (isError notRun : bool)
  | EvMonitorVerdict (callID : string) (before after : Decision) (v : Verdict) (unavailable : bool) (skipped : string)
  | EvSupervisorCorrection (callID code text : string) (d : Decision)
  | EvSupervisorReplan (failures : Z) (text : string)
  | EvPlanStep (callID : string) (hash : string) (step of_ : nat) (by_ : string)
  | EvStartupTrusted (digest : string)
  | EvOfTool (payload : string).

(** What a loop has done: an event written, or the run of a call started or
    ended. *)
Inductive entry : Type := Recorded (e : event) | Started (c : ToolCall) | Ended (c : ToolCall).

(** [actorFor]: whether the decision is the user's. *)
Definition actorFor (by_ : string) : bool := String.eqb by_ ByReviewer || String.eqb by_ ByUser.

(** ** The people and things a loop works with *)

(** [Answer], and the values of By that [NoteAnswer] takes. *)
Record Answer : Type := MkAnswer {
  an_By : string; an_Scope : string; an_Reason : string; an_Approver : string; an_Granted : string; an_Held : bool
}.
Definition no_answer : Answer := MkAnswer "" "" "" "" "" false.
Definition NoteAnswer (a : Answer) : Answer :=
  if bool_decide (an_By a ∈ [""; ByPolicy; ByReviewer; ByUser; BySessionScope; ByWorkspaceGrant; ByHeadless; BySystem])
  then a else no_answer.

(** Why a context ended. *)
Inductive cause : Set := StoppedFor (reason : string) | Shutdown | HandOver | DeadlinePassed | OtherCause.

(** What an approver comes to: an answer, or an error, of a context that ended
    or of its own. *)
Inductive approval : Type :=
  | Approval (yes : bool) (a : Answer)
  | ApprovalFails (ended : option cause) (text : string) (a : Answer).

Inductive file_state : Set := Missing | StatFailed | Directory | File.

(** The session, when there is one. *)
Record Session : Type := MkSession {
  ss_Resolve : string → option string;
  ss_Stat : nat → string → file_state;
  ss_WasRead : nat → string → bool;
  ss_Changed : nat → string → bool
}.

(** What the redactor of the record can do: nothing, find a secret in a path
    (an empty label is a store it could not read), or only redact. *)
Inductive redactor : Type := NoRedactor | FindsInPath (f : string → option string) | Redacts (f : string → option string).

Record Loop : Type := MkLoop {
  Tools_Get : string → option Tool;
  Tools_Names : list string;
  Mode : string;
  Evaluate : string → bool → string → Result;
  Evaluate_rules : string → bool → string → Result;    (* WithoutHooks *)
  DenyRules : list Rule;
  AllowRules : list Rule;
  KeepAsk : option (Result → bool);
  lp_text : Text;
  Hooks : option (nat → ToolCall → string → string);   (* PermissionRequested *)
  Supervisor : option Guard;
  case_of : nat → ToolCall → list Provenance * list string;
  Approve : nat → ToolCall → Result → approval;
  owner_gone : nat → bool;
  Append : nat → event → bool;                         (* the store took the event *)
  append_error : string;
  payload_withheld : event → bool;
  lp_redactor : redactor;
  redact_result : string → string;
  lp_session : option Session;
  unknown_outcome : string → string → bool;            (* unknown.has *)
  previewing : bool;
  child_of_plan : bool;                                (* planBoundKey *)
  is_subagent : bool;                                  (* the record has a parent *)
  depth : nat;
  Run : nat → ToolCall → ToolResult;
  FoldKey : string → string;                           (* tools.FoldKey *)
  (* the readers of the arguments' JSON *)
  arg_secrets : string → list string;
  arg_path : string → option string;
  arg_edit : string → option (string * option string);
  arg_carry : string → option (string * string * string * bool * string);
  arg_background : string → bool;
  sha256 : string → string;
  trusted_startup : option (nat → string);             (* the start-up files the policy's baseline trusts *)
  ContextWindow : Z
}.

(** ** State *)

Record loop_state : Type := MkLoopState {
  trace : list entry;
  tick : nat;
  broken : bool;                                       (* recordErr *)
  plans : planState;
  guard : guard_state;
  verdicts : gmap string Verdict;
  reviewedCalls : gset string;
  carried : gmap string string;
  ignored : gmap string (list string);
  streak : Z;
  failures : gmap string Z;
  successes : gmap string (Z * string);                (* how often, and the answer's hash *)
  startup_noted : string
}.

Abbreviation M A := (Prelude.M loop_state A).
#[local] Open Scope go_scope.

Definition set_trace (t : list entry) (s : loop_state) : loop_state :=
  MkLoopState t (tick s) (broken s) (plans s) (guard s) (verdicts s) (reviewedCalls s) (carried s) (ignored s) (streak s) (failures s) (successes s) (startup_noted s).
Definition set_broken (b : bool) (s : loop_state) : loop_state :=
  MkLoopState (trace s) (tick s) b (plans s) (guard s) (verdicts s) (reviewedCalls s) (carried s) (ignored s) (streak s) (failures s) (successes s) (startup_noted s).
Definition set_tick (n : nat) (s : loop_state) : loop_state :=
  MkLoopState (trace s) n (broken s) (plans s) (guard s) (verdicts s) (reviewedCalls s) (carried s) (ignored s) (streak s) (failures s) (successes s) (startup_noted s).
Definition set_plans (p : planState) (s : loop_state) : loop_state :=
  MkLoopState (trace s) (tick s) (broken s) p (guard s) (verdicts s) (reviewedCalls s) (carried s) (ignored s) (streak s) (failures s) (successes s) (startup_noted s).
Definition set_guard (g : guard_state) (s : loop_state) : loop_state :=
  MkLoopState (trace s) (tick s) (broken s) (plans s) g (verdicts s) (reviewedCalls s) (carried s) (ignored s) (streak s) (failures s) (successes s) (startup_noted s).
Definition set_verdicts (v : gmap string Verdict) (s : loop_state) : loop_state :=
  MkLoopState (trace s) (tick s) (broken s) (plans s) (guard s) v (reviewedCalls s) (carried s) (ignored s) (streak s) (failures s) (successes s) (startup_noted s).
Definition set_carry (r : gset string) (c : gmap string string) (s : loop_state) : loop_state :=
  MkLoopState (trace s) (tick s) (broken s) (plans s) (guard s) (verdicts s) r c (ignored s) (streak s) (failures s) (successes s) (startup_noted s).
Definition set_ignored (i : gmap string (list string)) (s : loop_state) : loop_state :=
  MkLoopState (trace s) (tick s) (broken s) (plans s) (guard s) (verdicts s) (reviewedCalls s) (carried s) i (streak s) (failures s) (successes s) (startup_noted s).
Definition set_counts (n : Z) (f : gmap string Z) (g : gmap string (Z * string)) (s : loop_state) : loop_state :=
  MkLoopState (trace s) (tick s) (broken s) (plans s) (guard s) (verdicts s) (reviewedCalls s) (carried s) (ignored s) n f g (startup_noted s).

Definition fresh_loop : loop_state := MkLoopState [] 0 false no_plans fresh_guard ∅ ∅ ∅ ∅ 0 ∅ ∅ "".

Definition set_noted (k : string) (s : loop_state) : loop_state :=
  MkLoopState (trace s) (tick s) (broken s) (plans s) (guard s) (verdicts s) (reviewedCalls s) (carried s) (ignored s) (streak s) (failures s) (successes s) k.

(** The number of the next question. *)
Definition ask_tick : M nat := λ s, (tick s, set_tick (S (tick s)) s).

Section loop.
Context (l : Loop).

(** [Recorder.Record] of one event: whether the store took it. *)
Definition Record_event (e : event) : M bool :=
  let! n := ask_tick in
  if Append l n e then mmodify (λ s, set_trace (trace s ++ [Recorded e]) s) ;;; mreturn true
  else mreturn false.

(** [noteRecordErr] and [record]. *)
Definition noteRecordErr : M unit := mmodify (set_broken true).
Definition record (e : event) : M unit :=
  let! ok := Record_event e in if ok : bool then mreturn tt else noteRecordErr.

(** A denial or an approval with no more than a reason. *)
Definition payload (callID reason step by_ : string) : outcome_payload :=
  MkPayload callID reason step by_ "" "" "" "" "" "" None.

(** [withRule]. *)
Definition withRule (d : Result) (p : outcome_payload) : outcome_payload :=
  MkPayload (a_CallID p) (a_Reason p) (a_Step p) (a_By p) (res_Rule d) (res_Layer d) (a_Approver p) (a_Scope p)
    (a_Granted p) (a_Carried p) (a_plan p).

(** ** Checks *)

(** [offered]. *)
Definition offered (t : Tool) : bool :=
  match tl_OnlyInMode t with None => true | Some m => String.eqb (Mode l) m end.

(** [offeredNames]. *)
Definition offeredNames : list string :=
  List.filter (λ n, match Tools_Get l n with Some t => offered t | None => true end) (Tools_Names l).

(** [boundKeys]; [clip] a key to 64 runes. *)
Definition maxIgnoredKeys : nat := 32.
Definition clip_key (k : string) : string :=
  if (64 <? length (runes k))%nat then of_runes (take 64 (runes k)) ++ "…" else k.
Definition boundKeys (keys : list string) : list string :=
  let kept := map clip_key (take maxIgnoredKeys keys) in
  if (maxIgnoredKeys <? length keys)%nat
  then (kept ++ [("+" ++ Itoa (Z.of_nat (length keys - maxIgnoredKeys)) ++ " more")%string])%list else kept.

(** [unqualified]. *)
Fixpoint last_at (sep s : string) (i : nat) : option nat :=
  match s with
  | EmptyString => None
  | String _ r =>
      match last_at sep r (S i) with
      | Some k => Some k
      | None => if HasPrefix s sep then Some i else None
      end
  end.
Definition unqualified (name : string) : string :=
  let cut := fold_left (λ cut sep,
    match last_at sep name 0 with
    | Some i => Nat.max cut (i + String.length sep)
    | None => cut
    end) ["."; "/"; ":"; "__"] O in
  str_drop cut name.

(** [withinOneEdit], of runes. *)
Fixpoint common_prefix (a b : list N) : nat :=
  match a, b with
  | x :: a, y :: b => if (x =? y)%N then S (common_prefix a b) else O
  | _, _ => O
  end.
Definition withinOneEdit (a b : list N) : bool :=
  let '(a, b) := if (length b <? length a)%nat then (b, a) else (a, b) in
  if (1 <? length b - length a)%nat then false
  else
    let i := common_prefix a b in
    if (length a =? length b)%nat then bool_decide (drop (i + Nat.min 1 (length a - i)) a = drop (i + Nat.min 1 (length b - i)) b)
    else bool_decide (drop i a = drop (i + 1) b).

(** [nearCredentialTool]. *)
Definition credentialTools : list string := ["k8s_login"; "ssh_connect"].
Definition nearCredentialTool (name : string) : bool :=
  let names := (credentialTools ++ List.filter (λ n, match Tools_Get l n with Some t => tl_SecretArgs t | None => false end) (Tools_Names l))%list in
  let folded := FoldKey l name in
  existsb (λ got, existsb (λ n, let n := FoldKey l n in Contains got n || withinOneEdit (runes got) (runes n)) names)
    [folded; unqualified folded].

Definition WithheldLookalikeArgs : string := "[withheld: unknown credential tool]".
Definition WithheldSecretArg : string := "[withheld: not a secret name]".

(** [secretsRefused]: the first secret of the call that no rule allows. *)
Definition secret_refused (name : string) : option string :=
  match find_first (λ r, Matches (lp_text l) r "secret" name) (DenyRules l) with
  | Some r => Some ("secret " ++ name ++ " is denied by rule " ++ pr_raw r)
  | None =>
      if existsb (λ r, Matches (lp_text l) r "secret" name) (AllowRules l) then None
      else Some ("secret " ++ name ++ " is not permitted: a secret needs its own allow rule, secret(" ++ name ++ "), in every mode")
  end.
Fixpoint first_refused (names : list string) : string :=
  match names with
  | [] => ""
  | n :: names => match secret_refused n with Some why => why | None => first_refused names end
  end.
Definition secretsRefused (t : Tool) (c : ToolCall) : string :=
  first_refused (arg_secrets l (tc_Args c) ++ tl_SecretNames t (tc_Args c)).

(** [pathHoldsSecret] and [pathSecretRefused]. *)
Definition path_prefix : string := "refused by the check that keeps stored secrets out of file names: ".
Definition path_unreadable : string := path_prefix ++ "the secrets store could not be read, so the path cannot be checked".
Definition pathHoldsSecret (path : string) : string :=
  if String.eqb path "" then ""
  else
    match lp_redactor l with
    | NoRedactor => ""
    | FindsInPath f =>
        match f path with
        | None => ""
        | Some label => if String.eqb label "" then path_unreadable
                        else path_prefix ++ "the path contains the stored secret " ++ label
        end
    | Redacts f =>
        let quoted := json_quote true path in
        match f quoted with
        | None => path_unreadable
        | Some out => if String.eqb out quoted then "" else path_prefix ++ "the path contains a stored secret"
        end
    end.
Definition pathSecretRefused (c : ToolCall) : string :=
  if negb (String.eqb (tc_Name c) "write") && negb (String.eqb (tc_Name c) "edit") then ""
  else match arg_path l (tc_Args c) with Some p => pathHoldsSecret p | None => "" end.

(** [filesJudged]. The decision [judge] gives of one file, when it changes
    anything. *)
Definition path_args (p : string) : string := Marshal true (JObj [("path", JStr p)]).
Definition judge_file (as_ : string) (mutates : bool) (path : string) (d : Result) : option Result :=
  let r := Evaluate_rules l as_ mutates (path_args path) in
  let said := "the file " ++ path ++ " it would " ++ as_ ++ ": " ++ res_Reason r in
  if bool_decide (res_Decision r = Deny) && negb (String.eqb (res_Step r) "mode") then
    Some (MkResult Deny said "" "deny" (res_Rule r) "" (res_Layer r) "")
  else if bool_decide (res_Decision r = Ask) && (String.eqb (res_Step r) "ask" || String.eqb (res_Step r) "destructive") &&
          bool_decide (res_Decision d = Allow) then
    Some (MkResult Ask said "" (res_Step r) (res_Rule r) "" (res_Layer r) "")
  else None.

Fixpoint judge_files (as_ : string) (mutates written : bool) (paths : list string) (d : Result) : Result :=
  match paths with
  | [] => d
  | p :: paths =>
      let why := if written then pathHoldsSecret p else "" in
      if negb (String.eqb why "") then decided Deny "deny" why
      else match judge_file as_ mutates p d with
           | Some r => if bool_decide (res_Decision r = Deny) then r else judge_files as_ mutates written paths r
           | None => judge_files as_ mutates written paths d
           end
  end.

Definition filesJudged (t : Tool) (c : ToolCall) (d : Result) : Result :=
  match tl_Files t with
  | None => d
  | Some (reads, writes) =>
      if bool_decide (res_Decision d = Deny) then d
      else
        let d := judge_files "read" false false (reads (tc_Args c)) d in
        if bool_decide (res_Decision d = Deny) then d
        else judge_files "write" true true (writes (tc_Args c)) d
  end.

(** [noBackground]. *)
Definition noBackground (c : ToolCall) : string :=
  if negb (String.eqb (tc_Name c) "bash") || negb (arg_background l (tc_Args c)) then ""
  else if (0 <? depth l)%nat then
    "Could not start the command in the background: a subagent cannot start a background command; run it without run_in_background"
  else "".

(** [readFirst], of the call at [index] of the turn's [calls]. *)
Definition names_file (s : Session) (path : string) (o : ToolCall) : bool :=
  match arg_path l (tc_Args o) with
  | Some p => negb (String.eqb p "") && bool_decide (ss_Resolve s p = Some path)
  | None => false
  end.
Fixpoint left_to_tool (s : Session) (path : string) (i index : nat) (calls : list ToolCall) : bool :=
  match calls with
  | [] => false
  | o :: calls =>
      if (i =? index)%nat then left_to_tool s path (S i) index calls
      else ((i <? index)%nat && String.eqb (tc_Name o) "bash") || names_file s path o || left_to_tool s path (S i) index calls
  end.
Definition readFirst (n : nat) (calls : list ToolCall) (index : nat) (t : Tool) (c : ToolCall) : string :=
  match tl_kind t, lp_session l, arg_edit l (tc_Args c) with
  | OtherTool, _, _ | _, None, _ | _, _, None => ""
  | kind, Some s, Some (p, old) =>
      match ss_Resolve s p with
      | None => ""
      | Some path =>
          if left_to_tool s path 0 index calls then ""
          else
            let is_edit := match kind with EditTool => true | _ => false end in
            match ss_Stat s n path with
            | Missing =>
                if is_edit && match old with Some o => negb (String.eqb o "") | None => false end
                then "File not found: " ++ p ++ ". Use glob to locate it, or write() to create it" else ""
            | StatFailed | Directory => ""
            | File =>
                if negb (ss_WasRead s n path) then
                  "Refusing to " ++ tc_Name c ++ " " ++ p ++ ": it has not been read this session. Call read(" ++ Quote p ++ ") first, then " ++ tc_Name c ++ " it"
                else if is_edit && ss_Changed s n path then
                  p ++ " changed on disk since you read it. Re-read it before editing"
                else ""
            end
      end
  end.

(** [carryKey]: [""] for a call that carries no approval. *)
Definition zero_byte : string := String "000" "".
Definition trim_line (s : string) : string := str_rev (trim_left_set (String " " (String "009" (String "013" ""))) (str_rev s)).
Fixpoint trim_lines (lines : list string) : list string :=
  match lines with
  | [] => []
  | [x] => [x]
  | x :: rest => trim_line x :: trim_lines rest
  end.
Definition carryKey (c : ToolCall) : string :=
  match lp_session l with
  | None => ""
  | Some s =>
      if negb (String.eqb (tc_Name c) "edit") && negb (String.eqb (tc_Name c) "write") then ""
      else match arg_carry l (tc_Args c) with
           | None => ""
           | Some (p, old, new, all, content) =>
               if String.eqb p "" then ""
               else match ss_Resolve s p with
                    | None => ""
                    | Some path =>
                        if String.eqb (tc_Name c) "write" then "write" ++ zero_byte ++ path ++ zero_byte ++ content
                        else "edit" ++ zero_byte ++ path ++ zero_byte ++
                             Join (trim_lines (Split old newline)) (String newline "") ++ zero_byte ++
                             (if all : bool then "true" else "false") ++ zero_byte ++ new
                    end
           end
  end.

(** [takeCarried]. *)
Definition takeCarried (c : ToolCall) : M string :=
  let key := carryKey c in
  if String.eqb key "" then mreturn ""
  else λ s, (default "" (carried s !! key), set_carry (reviewedCalls s) (delete key (carried s)) s).

(** [noteReviewed] and [noteOutcome]. *)
Definition noteReviewed (callID : string) : M unit := mmodify (λ s, set_carry ({[callID]} ∪ reviewedCalls s) (carried s) s).
Definition noteOutcome (c : ToolCall) (failed : bool) : M unit :=
  mmodify (λ s,
    let reviewed := bool_decide (tc_ID c ∈ reviewedCalls s) in
    let s := set_carry (reviewedCalls s ∖ {[tc_ID c]}) (carried s) s in
    if negb reviewed || negb failed then s
    else let key := carryKey c in
         if String.eqb key "" then s else set_carry (reviewedCalls s) (<[key := tc_ID c]> (carried s)) s).

(** [noteTrustedStartup]: whether the record holds what is to be noted. *)
Definition noteTrustedStartup : M bool :=
  match trusted_startup l with
  | None => mreturn true
  | Some files =>
      let! n := ask_tick in
      let! s := mget in
      if String.eqb (files n) (startup_noted s) then mreturn true
      else mmodify (set_noted (files n)) ;;; Record_event (EvStartupTrusted (files n))
  end.

(** [fitResult] and [resultLimitChars]. *)
Definition resultLimitChars : Z := if ContextWindow l <=? 0 then 0 else ContextWindow l ÷ 4 * 36 ÷ 10.
Definition fitResult (content : string) : string :=
  let len := Z.of_nat (String.length content) in
  let limit := resultLimitChars in
  if (limit <=? 0) || (len <=? limit) then content
  else
    let half := limit ÷ 2 in
    str_take (Z.to_nat half) content ++ String newline (String newline "") ++ "[... " ++ Itoa (len - limit) ++
      " characters elided to fit the context window. Re-read with an offset to see this part. ...]" ++
      String newline (String newline "") ++ str_drop (Z.to_nat (len - half)) content.

(** ** The supervisor *)

(** [noteVerdict], [clearVerdicts] and [correction]. *)
Definition noteVerdict (callID : string) (v : Verdict) : M unit := mmodify (λ s, set_verdicts (<[callID := v]> (verdicts s)) s).
Definition clearVerdicts : M unit := mmodify (set_verdicts ∅).
Definition correction (callID : string) (d : Decision) : M string :=
  let! s := mget in
  match verdicts s !! callID with
  | None => mreturn ""
  | Some v =>
      if String.eqb (vt_Code v) "" || String.eqb (vt_Code v) CodeOK then mreturn ""
      else
        let text := Correction v in
        record (EvSupervisorCorrection callID (vt_Code v) text d) ;;; mreturn text
  end.

(** [reviewed]: the decision after the supervisor. *)
Definition supervisor_said (v : Verdict) : string :=
  if String.eqb (vt_Rationale v) "" then vt_Code v else vt_Code v ++ " — " ++ vt_Rationale v.
Definition reviewed (g : Guard) (c : ToolCall) (mutates : bool) (before : Result) : M Result :=
  let! n := ask_tick in
  let! s := mget in
  let '(provenance, rest) := case_of l n c in
  let '(out, gs) := Review g (MkCase (tc_Name c) (tc_Args c) mutates before provenance rest) (guard s) in
  mmodify (set_guard gs) ;;;
  if String.eqb (oc_Skipped out) SkippedBudget then
    record (EvMonitorVerdict (tc_ID c) (res_Decision before) (res_Decision before) no_verdict false (oc_Skipped out)) ;;;
    mreturn (with_reason (TrimPrefix (res_Reason before ++ "; supervisor: not reviewed (" ++ oc_Skipped out ++ ")") "; ") before)
  else if negb (String.eqb (oc_Skipped out) "") then mreturn before
  else
    noteVerdict (tc_ID c) (oc_Verdict out) ;;;
    record (EvMonitorVerdict (tc_ID c) (oc_Before out) (oc_After out) (oc_Verdict out) (oc_Unavailable out) "") ;;;
    let concern := negb (bool_decide (vt_Decision (oc_Verdict out) = Allow)) && negb (String.eqb (vt_Code (oc_Verdict out)) CodeOK) in
    if negb (oc_Tightened out) && (negb concern || negb (bool_decide (res_Decision before = Ask))) then mreturn before
    else mreturn (MkResult (oc_After out) ("supervisor: " ++ supervisor_said (oc_Verdict out)) (res_Scope before) "monitor" "" "" "" "").
End loop.
