(* ===== verification/AgentCalls.v ===== *)
(** A turn's calls (src/internal/agent/loop.go, [authorizeCall], [invoke] and
    [runCalls]): each call put through policy, supervisor, plan and approver, one
    at a time; then the approved ones run, those that only read together, those
    that change things alone and last; then one answer to each, in call order.

    The reads run concurrently: a schedule says when each starts and ends. *)

From Stdlib Require Import ZArith NArith Ascii String Lia.
From stdpp Require Import base tactics list option gmap strings.
From S2P Require Import Prelude.
From S2P Require Import GoStd.
From S2P Require Import Errors.
From S2P Require Import PolicyEngine.
From S2P Require Import Monitor.
From S2P Require Import AgentTools.
From S2P Require Import Runbook.
From S2P Require Import AgentLoop.

#[local] Open Scope string_scope.
#[local] Open Scope Z_scope.
#[local] Open Scope go_scope.

(** ** Authorisation *)

Definition TermError : string := "error".
Definition TermOwnerInactive : string := "owner_inactive".
Definition TermHandedOver : string := "handed_over".
Definition TermCompleted : string := "completed".

(** What [authorizeCall] comes to: the call runs, or its answer, and why the
    run ends, when it does. *)
Inductive verdict_on : Type := Go | Stop (answer : ToolResult) (terminal : string).

Definition with_args (args : string) (c : ToolCall) : ToolCall := MkCall (tc_ID c) (tc_Name c) args.

(** [terminalForCancel]. *)
Definition terminalForCancel (why : cause) : string :=
  match why with
  | StoppedFor r => r
  | Shutdown => "shutdown"
  | HandOver => TermHandedOver
  | DeadlinePassed => "deadline"
  | OtherCause => "user_interrupt"
  end.

(** [unanswered]. *)
Definition unanswered (why : cause) (held : bool) : string :=
  let what := if held then "before the answer was applied" else "before an answer" in
  match why with
  | Shutdown | HandOver => "server shut down " ++ what
  | DeadlinePassed => "deadline passed " ++ what
  | _ => "interrupted " ++ what
  end.

Definition withheldAsk : string :=
  "the request's record was withheld (redaction could not run), so it was not put to anyone".
Definition ownerGoneReason : string := "the session's owner no longer has access".
Definition notRecorded : string := "Not run: the session's record could not be written, so the call was not run.".

Section loop.
Context (l : Loop).

Definition bare_request (c : ToolCall) (args raw reason : string) : event :=
  EvActionRequested (MkRequested (tc_ID c) (tc_Name c) args raw false reason "" [] [] "").

(** A call refused before policy reads it: its request and its denial. *)
Definition refuse_unread (c : ToolCall) (args raw reason step content : string) : M verdict_on :=
  let! ok := Record_event l (bare_request c args raw reason) in
  if negb ok then mreturn (Stop (refusal (append_error l)) TermError)
  else
    record l (EvActionDenied (payload (tc_ID c) reason step BySystem)) ;;;
    mreturn (Stop (refusal content) "").

(** [refuseArgs] and [refuseUnresolvable]. *)
Definition refuseArgs (t : Tool) (c : ToolCall) (why : string) : M verdict_on :=
  refuse_unread c "{}" (if tl_SecretArgs t then WithheldSecretArg else tc_Args c) why "args"
    ("Refused: " ++ why ++ ". Nothing was run. Send one JSON object with each argument once, spelled exactly as in the tool's schema.").
Definition refuseUnresolvable (c : ToolCall) (why : string) : M verdict_on :=
  refuse_unread c (tc_Args c) "" why "args" ("Refused: " ++ why ++ ". Nothing was run.").

(** A call of a tool the model was not offered. *)
Definition refuse_unknown (c : ToolCall) : M (ToolCall * verdict_on) :=
  let why := "unknown tool " ++ Quote (tc_Name c) in
  let near := nearCredentialTool l (tc_Name c) in
  let c' := if near then with_args "{}" c else c in
  let! v := refuse_unread c (tc_Args c') (if near then WithheldLookalikeArgs else "") why "unknown"
              ("Unknown tool " ++ Quote (tc_Name c) ++ ". Available tools: " ++ Join (offeredNames l) ", " ++ ".") in
  mreturn (c', v).

(** What the policy, the secrets' rules, a hand-over, the files the call touches
    and the person's wish to preview make of a call, in that order. *)
Definition policy_decision (t : Tool) (c : ToolCall) : Result :=
  let d := Evaluate l (tc_Name c) (MutatesCall t (tc_Args c)) (tc_Args c) in
  let d :=
    if negb (String.eqb (secretsRefused l t c) "") then decided Deny "deny" (secretsRefused l t c)
    else if negb (String.eqb (pathSecretRefused l c) "") then decided Deny "deny" (pathSecretRefused l c)
    else if bool_decide (res_Decision d = Allow) && unknown_outcome l (tc_Name c) (tc_Args c) then
      decided Ask "handover" "this call may already have run on a process that stopped before recording its result"
    else d in
  let d := filesJudged l t c d in
  if negb (bool_decide (res_Decision d = Deny)) && (String.eqb (tc_Name c) "edit" || String.eqb (tc_Name c) "write") && previewing l then
    let why := "the person asked to preview each change before it is written" in
    let why := if bool_decide (res_Decision d = Ask) && negb (String.eqb (res_Reason d) "") then why ++ "; " ++ res_Reason d else why in
    MkResult Ask why "" "preview" (res_Rule d) "" (res_Layer d) ""
  else d.

(** Why a call that would be let through or asked about could not succeed. *)
Definition doomed_why (n : nat) (calls : list ToolCall) (index : nat) (t : Tool) (c : ToolCall) (d : Result) : option string :=
  match (if bool_decide (res_Decision d = Deny) then None else tl_Precheck t (tc_Args c)) with
  | Some e => Some e
  | None =>
      if negb (bool_decide (res_Decision d = Ask)) then None
      else
        let why := readFirst l n calls index t c in
        if negb (String.eqb why "") then Some why
        else let why := noBackground l c in if negb (String.eqb why "") then Some why else None
  end.

(** [PermissionRequested]'s refusal. *)
Definition hook_refuses (n : nat) (c : ToolCall) (reason : string) : option string :=
  match Hooks l with
  | None => None
  | Some h => let why := h n c reason in if String.eqb why "" then None else Some why
  end.

(** The decision a call is recorded with: the policy's, the supervisor's and the
    plan's, with where a credential goes. *)
Definition final_decision (t : Tool) (c : ToolCall) (doomed : option string) (d : Result) : M (Result * option planHit * string) :=
  let mutates := MutatesCall t (tc_Args c) in
  let d := match doomed with Some _ => with_reason "refused before approval: the call could not succeed" d | None => d end in
  let! d :=
    match Supervisor l, doomed with
    | Some g, None => reviewed l g c mutates d
    | _, _ => mreturn d
    end in
  let target := match tl_Target t with Some f => f (tc_Args c) | None => "" end in
  let d := if String.eqb target "" then d else with_reason (TrimPrefix (res_Reason d ++ "; " ++ target) "; ") d in
  match doomed with
  | Some _ => mreturn (d, None, target)
  | None =>
      let! n := ask_tick in
      let! s := mget in
      let '(d, hit) := planBind (KeepAsk l) (hook_refuses n c) (child_of_plan l) mutates (pl_bound (plans s)) (tc_Name c) (tc_Args c) d in
      mreturn (d, hit, target)
  end.

(** [deniedOwnerGone]. *)
Definition deniedOwnerGone (callID : string) : M verdict_on :=
  record l (EvActionDenied (payload callID ownerGoneReason "owner" BySystem)) ;;;
  mreturn (Stop (refusal ("Denied: " ++ ownerGoneReason ++ ".")) TermOwnerInactive).

Definition ownerGone : M bool := let! n := ask_tick in mreturn (owner_gone l n).

Definition choose_another (why : string) : ToolResult := refusal ("Denied: " ++ why ++ ". Choose a different approach.").

(** A denied call's answer. *)
Definition deny_call (c : ToolCall) (d : Result) : M verdict_on :=
  record l (EvActionDenied (withRule d (payload (tc_ID c) (res_Reason d) (res_Step d) ByPolicy))) ;;;
  if String.eqb (res_Step d) "monitor" then
    let! fix_ := correction l (tc_ID c) (res_Decision d) in
    if String.eqb fix_ "" then mreturn (Stop (choose_another (res_Reason d)) "")
    else mreturn (Stop (refusal ("Denied. " ++ fix_)) "")
  else mreturn (Stop (choose_another (res_Reason d)) "").

(** A call a person, or what stands in for one, did not approve. *)
Definition decline_call (c : ToolCall) (d : Result) (a : Answer) : M verdict_on :=
  let by_ := if String.eqb (an_By a) "" then ByReviewer else an_By a in
  let why := if negb (String.eqb (an_By a) "") && negb (String.eqb (an_Reason a) "")
             then an_Reason a ++ ": " ++ res_Reason d else "rejected: " ++ res_Reason d in
  let step := if String.eqb by_ BySystem then "unanswered" else res_Step d in
  let p := withRule d (payload (tc_ID c) why step by_) in
  record l (EvActionDenied (MkPayload (a_CallID p) (a_Reason p) (a_Step p) (a_By p) (a_Rule p) (a_Layer p) (an_Approver a) "" "" "" None)) ;;;
  let msg := "This action was not approved" ++ (if String.eqb (res_Reason d) "" then "" else " (" ++ res_Reason d ++ ")") ++ "." ++ String newline "" in
  let msg := if String.eqb (res_Scope d) "" then msg
             else msg ++ "It would be permitted by the rule " ++ res_Scope d ++ ", which is not configured." ++ String newline "" in
  let! fix_ := correction l (tc_ID c) Deny in
  mreturn (Stop (refusal (if String.eqb fix_ "" then
    msg ++ "Do not retry this call or a re-worded version of it. Use a different tool, or explain what you need and stop." else msg ++ fix_)) "").

(** An ask put to the approver: approved, by whom and on what earlier call, or
    the call's end. *)
Definition put_to_approver (c : ToolCall) (d : Result) : M ((Answer * string) + verdict_on) :=
  let! from := (if String.eqb (res_Step d) "default" || String.eqb (res_Step d) "mode" then takeCarried l c else mreturn "") in
  if negb (String.eqb from "") then mreturn (inl (MkAnswer ByCarried "" "" "" "" false, from))
  else
    let! n := ask_tick in
    match Approve l n c d with
    | Approval true a => mreturn (inl (NoteAnswer a, ""))
    | Approval false a => let! v := decline_call c d (NoteAnswer a) in mreturn (inr v)
    | ApprovalFails ended text a =>
        match ended with
        | Some why =>
            if (match why with HandOver => true | _ => false end) && negb (is_subagent l) then
              mreturn (inr (Stop (refusal "Interrupted.") TermHandedOver))
            else
              record l (EvActionDenied (payload (tc_ID c) (unanswered why (an_Held (NoteAnswer a))) "interrupted" BySystem)) ;;;
              mreturn (inr (Stop (refusal "Interrupted.") (terminalForCancel why)))
        | None =>
            record l (EvActionDenied (payload (tc_ID c) ("approval failed: " ++ text) "unanswered" BySystem)) ;;;
            mreturn (inr (Stop (refusal text) TermError))
        end
    end.

(** An ask: refused for its record or by a hook, or put to the approver. *)
Definition ask_call (c : ToolCall) (asked : event) (d : Result) : M ((Answer * string) + verdict_on) :=
  if payload_withheld l asked then
    record l (EvActionDenied (payload (tc_ID c) withheldAsk "withheld" BySystem)) ;;;
    mreturn (inr (Stop (refusal ("Denied: " ++ withheldAsk ++ ". The call was not run.")) ""))
  else
    let! n := ask_tick in
    match hook_refuses n c (res_Reason d) with
    | Some why =>
        record l (EvActionDenied (payload (tc_ID c) why "hook" ByPolicy)) ;;;
        mreturn (inr (Stop (choose_another why) ""))
    | None => put_to_approver c d
    end.

(** The approval of a call that is let through: the step of the plan it is
    claimed, and the approval on record before it runs. *)
Definition approve_call (c : ToolCall) (d : Result) (hit : option planHit) (a : Answer) (from : string) : M verdict_on :=
  let asked := bool_decide (res_Decision d = Ask) in
  let by_ := if negb asked then ByPolicy else if String.eqb (an_By a) "" then ByReviewer else an_By a in
  let p := withRule d (payload (tc_ID c) (res_Reason d) (res_Step d) by_) in
  let p := if asked then MkPayload (a_CallID p) (a_Reason p) (a_Step p) (a_By p) (a_Rule p) (a_Layer p)
                           (an_Approver a) (an_Scope a) (an_Granted a) from None else p in
  (if asked && String.eqb by_ ByReviewer then noteReviewed (tc_ID c) else mreturn tt) ;;;
  let! claimed :=
    match hit with
    | None => mreturn true
    | Some h => λ s, let '(ok, ps) := plan_claim h (plans s) in (ok, set_plans ps s)
    end in
  match hit, claimed with
  | Some h, false =>
      let why := "step " ++ Itoa (Z.of_nat (ht_index h) + 1) ++ " of the approved plan has already run, or the plan was let go" in
      record l (EvActionDenied (payload (tc_ID c) why "plan" BySystem)) ;;;
      mreturn (Stop (refusal ("Denied: " ++ why ++ ".")) "")
  | _, _ =>
      let p := match hit with
               | None => p
               | Some h => MkPayload (a_CallID p) (a_Reason p) (a_Step p) (if ht_replaced h then ByPlan else a_By p) (a_Rule p) (a_Layer p)
                             (a_Approver p) (a_Scope p) (a_Granted p) (a_Carried p) (Some (rb_Hash (ht_rb h), S (ht_index h)))
               end in
      let! ok := Record_event l (EvActionApproved p) in
      if negb ok then noteRecordErr ;;; mreturn (Stop (refusal notRecorded) "")
      else
        match hit with
        | None => mreturn Go
        | Some h =>
            record l (EvPlanStep (tc_ID c) (rb_Hash (ht_rb h)) (S (ht_index h)) (length (rb_Steps (ht_rb h))) (a_By p)) ;;;
            mreturn Go
        end
  end.

(** A call in its canonical form, judged. *)
Definition judge_call (calls : list ToolCall) (index : nat) (t : Tool) (c : ToolCall) (dropped resolved : list string) : M verdict_on :=
  (if String.eqb (tc_Name c) "bash" then let! _ := noteTrustedStartup l in mreturn tt else mreturn tt) ;;;
  let d := policy_decision t c in
  let! n := ask_tick in
  let doomed := doomed_why n calls index t c d in
  let! (d, hit, target) := final_decision t c doomed d in
  let request := EvActionRequested (MkRequested (tc_ID c) (tc_Name c) (tc_Args c) ""
    (bool_decide (res_Decision d = Ask) && negb (opt_some doomed)) (res_Reason d) (Offer d) dropped resolved target) in
  let! ok := Record_event l request in
  if negb ok then mreturn (Stop (refusal (append_error l)) TermError)
  else
    match doomed with
    | Some why =>
        record l (EvActionDenied (payload (tc_ID c) why "precheck" BySystem)) ;;;
        mreturn (Stop (refusal why) "")
    | None =>
        if bool_decide (res_Decision d = Deny) then deny_call c d
        else
          let! gone := ownerGone in
          if gone : bool then deniedOwnerGone (tc_ID c)
          else if bool_decide (res_Decision d = Ask) then
            let! r := ask_call c request d in
            match r with
            | inr v => mreturn v
            | inl (a, from) =>
                let! gone := ownerGone in
                if gone : bool then deniedOwnerGone (tc_ID c) else approve_call c d hit a from
            end
          else approve_call c d hit no_answer ""
    end.

(** [authorizeCall] of the call at [index] of [calls]: the call with its
    arguments in the one form that is judged, recorded and run. *)
Definition authorizeCall (calls : list ToolCall) (index : nat) (c : ToolCall) : M (ToolCall * verdict_on) :=
  match (match Tools_Get l (tc_Name c) with Some t => if offered l t then Some t else None | None => None end) with
  | None => refuse_unknown c
  | Some t =>
      match tl_Canonical t (tc_Args c) with
      | inl e => let! v := refuseArgs t c e in mreturn (with_args "{}" c, v)
      | inr (canon, dropped) =>
          let dropped := boundKeys dropped in
          (match dropped with [] => mreturn tt | _ => mmodify (λ s, set_ignored (<[tc_ID c := dropped]> (ignored s)) s) end) ;;;
          let '(unresolvable, canon, resolved) := resolve_args t (tl_Withhold t canon) in
          let c := with_args canon c in
          let! v := match unresolvable with
                    | Some e => refuseUnresolvable c e
                    | None => judge_call calls index t c dropped resolved
                    end in
          mreturn (c, v)
      end
  end.

(** ** Running *)

Definition call_key (c : ToolCall) : string := tc_Name c ++ tc_Args c.
Definition repeatedFailureLimit : Z := 3.
Definition repeatedSuccessLimit : Z := 3.

Definition two_newlines : string := String newline (String newline "").
Definition add_note (note : string) (r : ToolResult) : ToolResult :=
  MkToolResult (tr_Content r ++ two_newlines ++ "[" ++ note ++ "]") (tr_IsError r) (tr_Final r) (tr_Events r).

(** The count of identical failures, and of identical answers with nothing
    changed in between: the result with a note past the limit. *)
Definition count_outcome (t : Tool) (c : ToolCall) (r : ToolResult) : M ToolResult := λ s,
  let key := call_key c in
  if tr_IsError r then
    let n := default 0 (failures s !! key) + 1 in
    ((if repeatedFailureLimit <=? n
      then add_note ("This exact call has now failed " ++ Itoa n ++ " times. Repeating it will not work. Read the error above and do something different — or explain what is blocking you and stop.") r
      else r), set_counts (streak s) (<[key := n]> (failures s)) (successes s) s)
  else
    let s := set_counts (streak s) (delete key (failures s)) (successes s) s in
    if MutatesCall t (tc_Args c) then (r, set_counts (streak s) (failures s) ∅ s)
    else if String.eqb (tc_Name c) "task_status" then (r, s)
    else
      let sum := sha256 l (tr_Content r) in
      let n := match successes s !! key with
               | Some (k, prev) => if String.eqb prev sum then k + 1 else 1
               | None => 1
               end in
      ((if repeatedSuccessLimit <=? n
        then add_note ("You have made this exact call " ++ Itoa n ++ " times and had the same answer each time, with nothing changed in between. Use what it returned and move on, or explain what you are looking for and stop.") r
        else r), set_counts (streak s) (failures s) (<[key := (n, sum)]> (successes s)) s).

(** A tool's run, from its end on: [invoke] after [Run]. *)
Definition finish_invoke (t : Tool) (c : ToolCall) (r : ToolResult) : M (ToolResult * string) :=
  let r := MkToolResult (redact_result l (tr_Content r)) (tr_IsError r) (tr_Final r) (tr_Events r) in
  let! keys := (λ s, (ignored s !! tc_ID c, set_ignored (delete (tc_ID c) (ignored s)) s)) in
  let r := match keys with
           | Some keys => add_note ("ignored: " ++ Join keys ", " ++ " (not arguments of " ++ tc_Name c ++ ")") r
           | None => r
           end in
  noteOutcome l c (tr_IsError r) ;;;
  let! r := count_outcome t c r in
  let! ok := Record_event l (EvObservation (tc_ID c) (tc_Name c) (tr_Content r) (tr_IsError r) false) in
  if negb ok then mreturn (r, TermError)
  else
    foldr (λ e m, record l (EvOfTool e) ;;; m) (mreturn tt) (tr_Events r) ;;;
    mreturn (r, "").

Definition disappeared : ToolResult := refusal "tool disappeared between authorization and execution".

(** ** A turn *)

(** [callOutcome], when it is set. *)
Record callOutcome : Type := MkOutcomeOf { co_result : ToolResult; co_terminal : string }.
Abbreviation outcomes := (list (option callOutcome)).

(** The first phase: the calls in order, each in its canonical form, with the
    answers of those that do not run, and why the run ends, when it does. *)
Fixpoint authorize_from (todo : nat) (i : nat) (calls : list ToolCall) (results : outcomes) (approved : list bool)
    : M (list ToolCall * outcomes * list bool * option (string * nat)) :=
  match todo with
  | O => mreturn (calls, results, approved, None)
  | S todo =>
      match calls !! i with
      | None => mreturn (calls, results, approved, None)
      | Some c =>
          let! (c, v) := authorizeCall calls i c in
          let calls := <[i := c]> calls in
          match v with
          | Stop r term =>
              let results := <[i := Some (MkOutcomeOf r term)]> results in
              if negb (String.eqb term "") then mreturn (calls, results, approved, Some (term, S i))
              else authorize_from todo (S i) calls results approved
          | Go => authorize_from todo (S i) calls results (<[i := true]> approved)
          end
      end
  end.

(** The approved calls that only read, and those that change things. *)
Definition mutating (c : ToolCall) : bool :=
  match Tools_Get l (tc_Name c) with Some t => MutatesCall t (tc_Args c) | None => false end.
Definition select (want : bool) (calls : list ToolCall) (approved : list bool) : list nat :=
  List.filter (λ i, match calls !! i, approved !! i with Some c, Some true => Bool.eqb (mutating c) want | _, _ => false end)
    (seq 0 (length calls)).

(** A read starts, or ends. *)
Inductive sched : Type := Launch (i : nat) | Finish (i : nat).

Definition launches (ss : list sched) : list nat := omap (λ x, match x with Launch i => Some i | Finish _ => None end) ss.

(** Reads start in call order, each once, and each ends once after it starts.
    [open] are those that run. *)
Fixpoint runs (open : list nat) (ss : list sched) : bool :=
  match ss with
  | [] => match open with [] => true | _ => false end
  | Launch i :: ss => runs (i :: open) ss
  | Finish i :: ss => bool_decide (i ∈ open) && runs (List.filter (λ j, negb (j =? i)%nat) open) ss
  end.
Definition schedule_ok (reads : list nat) (ss : list sched) : Prop := launches ss = reads ∧ runs [] ss = true.

(** A call not run for want of a record, or started. *)
Definition launch (i : nat) (c : ToolCall) (results : outcomes) : M outcomes :=
  let! s := mget in
  if broken s then mreturn (<[i := Some (MkOutcomeOf (refusal notRecorded) "")]> results)
  else mmodify (λ s, set_trace (trace s ++ [Started c]) s) ;;; mreturn results.

(** A call that was started, run to its end. *)
Definition invoke_end (c : ToolCall) : M callOutcome :=
  match Tools_Get l (tc_Name c) with
  | None => mreturn (MkOutcomeOf disappeared TermError)
  | Some t =>
      let! n := ask_tick in
      let! (r, term) := finish_invoke t c (Run l n c) in
      mreturn (MkOutcomeOf r term)
  end.
Definition finish (i : nat) (c : ToolCall) (results : outcomes) : M outcomes :=
  match results !! i with
  | Some None =>
      let! o := invoke_end c in
      mmodify (λ s, set_trace (trace s ++ [Ended c]) s) ;;;
      mreturn (<[i := Some o]> results)
  | _ => mreturn results
  end.

Fixpoint run_reads (ss : list sched) (calls : list ToolCall) (results : outcomes) : M outcomes :=
  match ss with
  | [] => mreturn results
  | x :: ss =>
      let! results :=
        match x with
        | Launch i => match calls !! i with Some c => launch i c results | None => mreturn results end
        | Finish i => match calls !! i with Some c => finish i c results | None => mreturn results end
        end in
      run_reads ss calls results
  end.

(** The calls that change things, one after another, until one ends the run. *)
Fixpoint run_changes (is_ : list nat) (calls : list ToolCall) (results : outcomes) : M (outcomes * option string) :=
  match is_ with
  | [] => mreturn (results, None)
  | i :: is_ =>
      match calls !! i with
      | None => run_changes is_ calls results
      | Some c =>
          let! results := launch i c results in
          let! results := finish i c results in
          match results !! i with
          | Some (Some o) => if String.eqb (co_terminal o) "" then run_changes is_ calls results else mreturn (results, Some (co_terminal o))
          | _ => run_changes is_ calls results
          end
      end
  end.

(** [replan]: a note after every third refused or failed call in a row. *)
Definition replanAfter : Z := 3.
Fixpoint replan (remit plan : string) (results : outcomes) : M outcomes :=
  match results with
  | [] => mreturn []
  | None :: results => let! rest := replan remit plan results in mreturn (None :: rest)
  | Some o :: results =>
      let! s := mget in
      if negb (tr_IsError (co_result o)) then
        mmodify (λ s, set_counts 0 (failures s) (successes s) s) ;;;
        let! rest := replan remit plan results in mreturn (Some o :: rest)
      else
        let n := streak s + 1 in
        mmodify (λ s, set_counts n (failures s) (successes s) s) ;;;
        if negb (Z.rem n replanAfter =? 0) then let! rest := replan remit plan results in mreturn (Some o :: rest)
        else
          let note := "Supervisor: the last " ++ Itoa n ++ " calls were refused or failed. Stop and plan again from the task. The task: " ++ Quote remit ++ "." ++
            (if String.eqb plan "" then "" else " The approved plan: " ++ Quote plan ++ ".") ++
            " Inspect before you change anything, pick the next step from the task, or say what is blocking you and stop." in
          record l (EvSupervisorReplan n note) ;;;
          let! rest := replan remit plan results in
          mreturn (Some (MkOutcomeOf (add_note note (co_result o)) (co_terminal o)) :: rest)
  end.

(** The message a call is answered with. *)
Record tool_message : Type := MkMessage { tm_CallID : string; tm_Content : string; tm_IsError : bool }.

(** [appendResults]. A result that is not set has no content. *)
Definition message_of (c : ToolCall) (o : option callOutcome) : tool_message :=
  match o with
  | Some o => MkMessage (tc_ID c) (fitResult l (tr_Content (co_result o))) (tr_IsError (co_result o))
  | None => MkMessage (tc_ID c) (fitResult l "") false
  end.
Definition appendResults (calls : list ToolCall) (results : outcomes) : list tool_message := zip_with message_of calls results.

(** [appendEnded]: every call of a turn that ended early is answered. *)
Definition ended_answer (reason : string) : ToolResult := refusal ("Not run: the turn ended (" ++ reason ++ ") before this call ran.").
Fixpoint fill_ended (reason : string) (requested i : nat) (calls : list ToolCall) (results : outcomes) : M outcomes :=
  match calls, results with
  | c :: calls, None :: results =>
      (if (i <? requested)%nat
       then record l (EvObservation (tc_ID c) (tc_Name c) (tr_Content (ended_answer reason)) true true)
       else mreturn tt) ;;;
      let! rest := fill_ended reason requested (S i) calls results in
      mreturn (Some (MkOutcomeOf (ended_answer reason) "") :: rest)
  | _ :: calls, o :: results =>
      let! rest := fill_ended reason requested (S i) calls results in mreturn (o :: rest)
  | _, _ => mreturn results
  end.

(** The terminal reason of a turn whose calls all ran. *)
Definition turn_terminal (results : outcomes) : string :=
  match find_first (λ o, match o with Some o => negb (String.eqb (co_terminal o) "") | None => false end) results with
  | Some (Some o) => co_terminal o
  | _ => if existsb (λ o, match o with Some o => tr_Final (co_result o) | None => false end) results then TermCompleted else ""
  end.

(** [runCalls]. [reads] is how the concurrent reads interleave; [remit] and
    [plan] are the task and the approved plan of the re-plan note. What comes of it
    is the calls in the form they were judged in, which the history holds from then
    on, their answers, and why the run ends, when it does. *)
Definition runCalls (reads : list nat → list sched) (remit plan : string) (calls : list ToolCall) : M ((list ToolCall * list tool_message) * string) :=
  mmodify (set_ignored ∅) ;;;
  clearVerdicts ;;;
  let! (calls, results, approved, ended) := authorize_from (length calls) 0 calls (map (λ _, None) calls) (map (λ _, false) calls) in
  match ended with
  | Some (term, requested) =>
      let! results := fill_ended term requested 0 calls results in
      mreturn ((calls, appendResults calls results), term)
  | None =>
      let! results := run_reads (reads (select false calls approved)) calls results in
      let! (results, ended) := run_changes (select true calls approved) calls results in
      match ended with
      | Some term =>
          let! results := fill_ended term (length calls) 0 calls results in
          mreturn ((calls, appendResults calls results), term)
      | None =>
          let! results := match Supervisor l with Some _ => replan remit plan results | None => mreturn results end in
          mreturn ((calls, appendResults calls results), turn_terminal results)
      end
  end.
End loop.
