(* ===== verification/AgentCallsSpec.v ===== *)
(** What the record and the run of a turn's calls promise (file AgentCalls): a
    call that runs has been asked for, let through and recorded; every request has
    one outcome; every call has one answer; and what changes things runs alone. *)

From Stdlib Require Import ZArith NArith Ascii String Lia.
From stdpp Require Import base tactics list option gmap strings.
From S2P Require Import Prelude.
From S2P Require Import GoStd.
From S2P Require Import Errors.
From S2P Require Import PolicyEngine.
From S2P Require Import Monitor.
From S2P Require Import AgentTools.
From S2P Require Import Runbook.
From S2P Require Import AgentLoop.
From S2P Require Import AgentCalls.

#[local] Open Scope string_scope.
#[local] Open Scope Z_scope.
#[local] Open Scope list_scope.
#[local] Open Scope go_scope.

(** ** What a computation adds to the trace

    [says m Q]: from any state, [m] adds entries that with its answer satisfy [Q];
    [writes m Q]: they are events. *)

Definition says {A} (m : M A) (Q : A → list entry → Prop) : Prop :=
  ∀ s, ∃ e, trace (snd (m s)) = trace s ++ e ∧ Q (fst (m s)) e.
Definition writes {A} (m : M A) (Q : A → list event → Prop) : Prop :=
  says m (λ a e, ∃ es, e = map Recorded es ∧ Q a es).

Lemma says_ret {A} (a : A) (Q : A → list entry → Prop) : Q a [] → says (mreturn a) Q.
Proof. intros H s. exists []. by rewrite app_nil_r. Qed.

Lemma says_bind {A B} (m : M A) (k : A → M B) (R : A → list entry → Prop) (Q : B → list entry → Prop) :
  says m R → (∀ a e, R a e → says (k a) (λ b e', Q b (e ++ e'))) → says (mthen m k) Q.
Proof.
  intros Hm Hk s. unfold mthen. destruct (Hm s) as (e & E & H). destruct (m s) as [a s']. cbn [fst snd] in *.
  destruct (Hk a e H s') as (e' & E' & H'). exists (e ++ e'). by rewrite E', E, app_assoc.
Qed.

Lemma says_conseq {A} (m : M A) (R Q : A → list entry → Prop) : says m R → (∀ a e, R a e → Q a e) → says m Q.
Proof. intros Hm H s. destruct (Hm s) as (e & E & He). exists e. auto. Qed.

Lemma writes_ret {A} (a : A) (Q : A → list event → Prop) : Q a [] → writes (mreturn a) Q.
Proof. intros H. apply says_ret. by exists []. Qed.

Lemma writes_bind {A B} (m : M A) (k : A → M B) (R : A → list event → Prop) (Q : B → list event → Prop) :
  writes m R → (∀ a es, R a es → writes (k a) (λ b es', Q b (es ++ es'))) → writes (mthen m k) Q.
Proof.
  intros Hm Hk. eapply says_bind; [exact Hm|]. intros a e (es & -> & H). eapply says_conseq; [exact (Hk a es H)|].
  intros b e' (es' & -> & H'). exists (es ++ es'). by rewrite map_app.
Qed.

Lemma writes_conseq {A} (m : M A) (R Q : A → list event → Prop) : writes m R → (∀ a es, R a es → Q a es) → writes m Q.
Proof. intros Hm H. eapply says_conseq; [exact Hm|]. intros a e (es & -> & He). eauto. Qed.

Lemma writes_quiet {A} (m : M A) (Q : A → list event → Prop) :
  (∀ s, trace (snd (m s)) = trace s ∧ Q (fst (m s)) []) → writes m Q.
Proof. intros H s. destruct (H s) as [E HQ]. exists []. rewrite app_nil_r. split; [done|]. by exists []. Qed.

(** A computation that leaves the trace as it is. *)
Definition quiet {A} (m : M A) : Prop := ∀ s, trace (snd (m s)) = trace s.

Lemma quiet_then {A B} (m : M A) (k : A → M B) (Q : B → list event → Prop) : quiet m → (∀ a, writes (k a) Q) → writes (mthen m k) Q.
Proof.
  intros Hm Hk. eapply writes_bind; [apply (writes_quiet m (λ _ es, es = [])); intros s; split; [apply Hm|done]|].
  intros a es ->. apply Hk.
Qed.

(** Past a question, or a change of state that writes nothing. *)
Ltac pass := eapply quiet_then; [done|].

(** ** The record *)

(** The store took nothing, once. *)
Definition store_fails (l : Loop) : Prop := ∃ n e, Append l n e = false.

Section record.
Context (l : Loop).

Lemma writes_Record e : writes (Record_event l e) (λ ok es,
  if ok : bool then es = [e] else es = [] ∧ store_fails l).
Proof.
  unfold Record_event. pass. intros n.
  destruct (Append l n e) eqn:E.
  - intros s. exists [Recorded e]. split; [reflexivity|]. by exists [e].
  - apply writes_ret. split; [done|]. by exists n, e.
Qed.

Lemma writes_record e : writes (record l e) (λ _ es, es = [e] ∨ es = [] ∧ store_fails l).
Proof.
  unfold record. eapply writes_bind; [apply writes_Record|]. intros [] es H; [apply writes_ret; rewrite app_nil_r; by left|].
  destruct H as [-> H]. apply writes_quiet. intros s. split; [done|by right].
Qed.
End record.

(** The requests and their outcomes. *)
Definition decision (e : event) : bool :=
  match e with EvActionRequested _ | EvActionDenied _ | EvActionApproved _ => true | _ => false end.
Definition decisions (es : list event) : list event := List.filter decision es.

Lemma decisions_app a b : decisions (a ++ b) = decisions a ++ decisions b.
Proof. apply List.filter_app. Qed.

(** ** The ruling on one call *)

Section call.
Context (l : Loop).

(** A request names a call, in the one form it is judged and run in. *)
Definition about (r : requested) (c : ToolCall) : Prop :=
  rqd_CallID r = tc_ID c ∧ rqd_Tool r = tc_Name c ∧ rqd_Args r = tc_Args c.

(** Who let a call through: the policy or the plan, where no person was needed;
    otherwise the approver, of this very call, or an approval it carries. *)
Definition let_in (c : ToolCall) (r : requested) (p : outcome_payload) : Prop :=
  if rqd_RequiresApproval r
  then (∃ n d a, Approve l n c d = Approval true a) ∨ carryKey l c ≠ "" ∧ a_Carried p ≠ ""
  else a_By p = ByPolicy ∨ a_By p = ByPlan.

(** No supervisor's verdict among [es] is a denial. *)
Definition no_denial (es : list event) : Prop :=
  ∀ id before after v u w, EvMonitorVerdict id before after v u w ∈ es → after ≠ Deny.

(** A call that may run, by what was recorded of it. *)
Definition cleared (c : ToolCall) (es : list event) : Prop :=
  ∃ t r p, Tools_Get l (tc_Name c) = Some t ∧ offered l t = true ∧
    res_Decision (policy_decision l t c) ≠ Deny ∧ no_denial es ∧
    (∃ n, owner_gone l n = false) ∧
    about r c ∧ a_CallID p = tc_ID c ∧ decisions es = [EvActionRequested r; EvActionApproved p] ∧ let_in c r p.

(** A call that is not run: one denial, unless the turn is left to the process
    that takes it over, or the store failed. *)
Definition refused (c : ToolCall) (terminal : string) (es : list event) : Prop :=
  store_fails l ∨ ∃ r, about r c ∧
    ((∃ p, a_CallID p = tc_ID c ∧ decisions es = [EvActionRequested r; EvActionDenied p]) ∨
     decisions es = [EvActionRequested r] ∧ terminal = TermHandedOver ∧ is_subagent l = false).

Definition ruling (c : ToolCall) (v : verdict_on) (es : list event) : Prop :=
  match v with Go => cleared c es | Stop _ term => refused c term es end.

(** The rest of a ruling on a call whose request [r] is the last event written. *)
Definition denied_next (c : ToolCall) (v : verdict_on) (es : list event) : Prop :=
  match v with
  | Go => False
  | Stop _ term => store_fails l ∨ (∃ p, a_CallID p = tc_ID c ∧ decisions es = [EvActionDenied p]) ∨
                   decisions es = [] ∧ term = TermHandedOver ∧ is_subagent l = false
  end.

(** A denial, and the answer. *)
Lemma writes_deny c (p : outcome_payload) (m : M verdict_on) : a_CallID p = tc_ID c →
  writes m (λ v es, (∃ r term, v = Stop r term) ∧ decisions es = []) →
  writes (record l (EvActionDenied p) ;;; m) (denied_next c).
Proof.
  intros Hp Hm. eapply writes_bind; [apply writes_record|]. intros [] es H. eapply writes_conseq; [exact Hm|].
  intros v es' ((r & term & ->) & E). unfold denied_next. rewrite decisions_app, E, app_nil_r.
  destruct H as [-> | [-> H]]; [right; left; by exists p|by left].
Qed.

Lemma writes_stop (r : ToolResult) (term : string) :
  writes (mreturn (Stop r term) : M verdict_on) (λ v es, (∃ r term, v = Stop r term) ∧ decisions es = []).
Proof. apply writes_ret. split; [by exists r, term|done]. Qed.

(** A refusal after its request. *)
Lemma denied_after c r v es es' : about r c → decisions es = [EvActionRequested r] → denied_next c v es' → ruling c v (es ++ es').
Proof.
  intros Hr E H. destruct v as [|a term]; cbn in *; [done|]. destruct H as [H|H]; [by left|]. right. exists r. split; [done|].
  rewrite decisions_app, E. destruct H as [(p & Hp & ->)|(-> & H)]; [left; by exists p|by right].
Qed.

(** A call refused before policy reads it. *)
Lemma writes_unread c args raw reason step content :
  writes (refuse_unread l c args raw reason step content) (ruling (with_args args c)).
Proof.
  unfold refuse_unread. eapply writes_bind; [apply writes_Record|]. intros [] es H; cbn [negb].
  - subst es. eapply writes_conseq; [apply (writes_deny c); [done|apply writes_stop]|]. intros v es H.
    eapply denied_after; [|reflexivity|by destruct v]. done.
  - apply writes_ret. left. apply H.
Qed.

Lemma no_denial_nil : no_denial [].
Proof. intros id b a v u w H. by apply not_elem_of_nil in H. Qed.
Lemma no_denial_one e : (∀ id b a v u w, e = EvMonitorVerdict id b a v u w → a ≠ Deny) → no_denial [e].
Proof. intros H id b a v u w E. apply list_elem_of_singleton in E. by eapply H. Qed.
Lemma no_denial_app es es' : no_denial es → no_denial es' → no_denial (es ++ es').
Proof. intros H H' id b a v u w E. apply elem_of_app in E as [E|E]; [by eapply H|by eapply H']. Qed.

(** ** The decision *)

(** A denied call is not reviewed, and what is not tightened is as it was. *)
Lemma Review_not_deny g c s : let out := fst (Review g c s) in
  oc_Skipped out = "" →
  res_Decision (cs_Provisional c) ≠ Deny ∧ (oc_Tightened out = false → res_Decision (cs_Provisional c) = oc_After out).
Proof.
  cbv zeta. unfold Review, NeedsReview. set (b := res_Decision (cs_Provisional c)).
  destruct (negb (bool_decide (b = Deny)) && planted g (cs_Args c)) eqn:Ep.
  { intros _. cbn. split; [|done]. intros E. by rewrite (bool_decide_eq_true_2 _ E) in Ep. }
  destruct (bool_decide_reflect (b = Deny)) as [E|E]; [done|].
  destruct (negb (cs_Mutates c) && _ && _ && _); [done|]. destruct ((0 <? gd_MaxPerTurn g) && (gd_MaxPerTurn g <=? gs_used s)); [done|]. destruct (settle _ _) as [v u]. cbn [fst oc_Tightened oc_After oc_Skipped].
  intros _. split; [done|]. intros H. apply negb_false_iff, bool_decide_eq_true in H. by rewrite H.
Qed.

Lemma writes_reviewed g c mutates before : writes (reviewed l g c mutates before) (λ d es,
  decisions es = [] ∧ (res_Decision d ≠ Deny → res_Decision before ≠ Deny ∧ no_denial es)).
Proof.
  unfold reviewed. pass. intros n. pass. intros s.
  destruct (case_of l n c) as [prov rest]. set (cs := MkCase _ _ _ _ _ _).
  pose proof (Review_not_deny g cs (guard s)) as HR. destruct (Review g cs (guard s)) as [out gs]. cbn [fst cs_Provisional cs] in HR.
  pass. intros [].
  destruct (String.eqb_spec (oc_Skipped out) SkippedBudget) as [Eb|_].
  { eapply writes_bind; [apply writes_record|]. intros [] es H. apply writes_ret. rewrite app_nil_r.
    destruct H as [-> | [-> _]]; (split; [done|]); cbn; intros Hd; (split; [done|]); [|apply no_denial_nil].
    apply no_denial_one. by intros id b a v u w [= <- <- <- <- <- <-]. }
  destruct (String.eqb_spec (oc_Skipped out) "") as [Es|Es]; cbn [negb].
  2:{ apply writes_ret. split; [done|]. intros Hd. split; [done|apply no_denial_nil]. }
  specialize (HR Es). pass. intros [].
  eapply writes_bind; [apply writes_record|]. intros [] es H.
  assert (decisions es = [] ∧ (oc_After out ≠ Deny → no_denial es)) as [Hes Hno].
  { destruct H as [-> | [-> _]]; (split; [done|]); intros Hd; [|apply no_denial_nil].
    apply no_denial_one. by intros id b a v u w [= <- <- <- <- <- <-]. }
  set (concern := _ && negb _). destruct (negb (oc_Tightened out) && _) eqn:Et; apply writes_ret; rewrite app_nil_r; (split; [done|]).
  - intros Hd. split; [done|]. apply Hno. apply andb_true_iff in Et as [Et _]. apply negb_true_iff in Et.
    by rewrite <- (proj2 HR Et).
  - cbn. intros Hd. split; [by apply HR|by apply Hno].
Qed.

Lemma planBind_deny K hook child mutates bound tool args d : res_Decision d = Deny →
  planBind K hook child mutates bound tool args d = (d, None).
Proof. intros H. unfold planBind. by rewrite (bool_decide_eq_true_2 _ H). Qed.

Lemma with_reason_decision why d : res_Decision (with_reason why d) = res_Decision d.
Proof. done. Qed.

(** A denial of the policy's, or of the supervisor's, is the decision. *)
Lemma writes_final t c doomed d : writes (final_decision l t c doomed d) (λ x es,
  decisions es = [] ∧ (res_Decision (fst (fst x)) ≠ Deny → res_Decision d ≠ Deny ∧ no_denial es)).
Proof.
  unfold final_decision. set (d0 := match doomed with Some _ => _ | None => _ end).
  assert (E0 : res_Decision d0 = res_Decision d) by (unfold d0; by destruct doomed).
  eapply (writes_bind _ _ (λ d' es, decisions es = [] ∧ (res_Decision d' ≠ Deny → res_Decision d ≠ Deny ∧ no_denial es))).
  { rewrite <- E0. destruct (Supervisor l) as [g|], doomed; try (by apply writes_ret; split_and!; [|intros ?; split; [|apply no_denial_nil]]).
    apply writes_reviewed. }
  clearbody d0. intros d1 es [Hes Hd]. set (d2 := if String.eqb _ _ then _ else _).
  assert (E2 : res_Decision d2 = res_Decision d1) by (unfold d2; by destruct (String.eqb _ _)).
  destruct doomed; [apply writes_ret; rewrite app_nil_r; cbn [fst]; by rewrite E2|].
  pass. intros n. pass. intros s.
  destruct (planBind _ _ _ _ _ _ _ d2) as [d3 hit] eqn:E. apply writes_ret. rewrite app_nil_r. split; [done|]. cbn [fst].
  intros H. apply Hd. intros Hd1. rewrite <- E2 in Hd1. rewrite planBind_deny in E by done. by injection E as <- <-.
Qed.

(** ** What follows the request *)

Lemma writes_correction id d : writes (correction l id d) (λ _ es, decisions es = []).
Proof.
  unfold correction. pass. intros s. destruct (verdicts s !! id) as [v|]; [|by apply writes_ret].
  destruct (_ || _); [by apply writes_ret|]. eapply writes_bind; [apply writes_record|]. intros [] es H. apply writes_ret.
  by destruct H as [-> | [-> _]].
Qed.

(** The answer that follows a denial, which may be the supervisor's correction. *)
Lemma writes_corrected id d (k : string → M verdict_on) : (∀ fix_, ∃ r term, k fix_ = mreturn (Stop r term)) →
  writes (mthen (correction l id d) k) (λ v es, (∃ r term, v = Stop r term) ∧ decisions es = []).
Proof.
  intros Hk. eapply writes_bind; [apply writes_correction|]. intros fix_ es H. destruct (Hk fix_) as (r & term & ->).
  apply writes_ret. rewrite app_nil_r. split; [by exists r, term|done].
Qed.

Lemma writes_deny_call c d : writes (deny_call l c d) (denied_next c).
Proof.
  unfold deny_call. apply writes_deny; [done|]. destruct (String.eqb _ _); [|apply writes_stop].
  apply writes_corrected. intros fix_. destruct (String.eqb _ _); by eexists _, _.
Qed.

Lemma writes_decline c d a : writes (decline_call l c d a) (denied_next c).
Proof. unfold decline_call. apply writes_deny; [done|]. apply writes_corrected. intros fix_. by eexists _, _. Qed.

Lemma writes_owner_gone c : writes (deniedOwnerGone l (tc_ID c)) (denied_next c).
Proof. unfold deniedOwnerGone. apply writes_deny; [done|]. apply writes_stop. Qed.

(** An ask that was answered yes: by the approver, of this call, or by an
    approval the call carries. *)
Definition said_yes (c : ToolCall) (from : string) : Prop :=
  (∃ n d a, Approve l n c d = Approval true a) ∨ carryKey l c ≠ "" ∧ from ≠ "".
Definition asked_next (c : ToolCall) (r : (Answer * string) + verdict_on) (es : list event) : Prop :=
  match r with inl (_, from) => es = [] ∧ said_yes c from | inr v => denied_next c v es end.

(** What ends an ask, denied. *)
Lemma writes_inr c (m : M verdict_on) : writes m (denied_next c) →
  writes (let! v := m in mreturn (inr v) : M ((Answer * string) + verdict_on)) (asked_next c).
Proof. intros H. eapply writes_bind; [exact H|]. intros v es Hv. apply writes_ret. by rewrite app_nil_r. Qed.

Lemma writes_deny_inr c (p : outcome_payload) r term : a_CallID p = tc_ID c →
  writes (record l (EvActionDenied p) ;;; mreturn (inr (Stop r term)) : M ((Answer * string) + verdict_on)) (asked_next c).
Proof.
  intros Hp. eapply writes_bind; [apply writes_record|]. intros [] es H. apply writes_ret. cbn. rewrite app_nil_r.
  destruct H as [-> | [-> H]]; [right; left; by exists p|by left].
Qed.

Lemma writes_put c d : writes (put_to_approver l c d) (asked_next c).
Proof.
  unfold put_to_approver.
  eapply (writes_bind _ _ (λ from es, es = [] ∧ (from ≠ "" → carryKey l c ≠ ""))).
  { destruct (_ || _); [|by apply writes_ret]. apply writes_quiet. unfold takeCarried.
    destruct (String.eqb_spec (carryKey l c) ""); intros s; by split. }
  intros from es [-> Hfrom]. cbn [app]. destruct (String.eqb_spec from "") as [_|Hne]; cbn [negb].
  2:{ apply writes_ret. split; [done|]. right. auto. }
  pass. intros n. destruct (Approve l n c d) as [[] a|[why|] text a] eqn:E.
  - apply writes_ret. split; [done|]. left. by exists n, d, a.
  - apply writes_inr, writes_decline.
  - destruct (match why with HandOver => true | _ => false end && negb (is_subagent l)) eqn:Eh; [|by apply writes_deny_inr].
    apply andb_true_iff in Eh as [_ Eh]. apply negb_true_iff in Eh. apply writes_ret. cbn. by right; right.
  - by apply writes_deny_inr.
Qed.

Lemma writes_ask c asked d : writes (ask_call l c asked d) (asked_next c).
Proof.
  unfold ask_call. destruct (payload_withheld l asked); [by apply writes_deny_inr|]. pass. intros n.
  destruct (hook_refuses l n c (res_Reason d)) as [why|]; [by apply writes_deny_inr|apply writes_put].
Qed.

(** The approval, on record. *)
Definition approved_next (c : ToolCall) (d : Result) (from : string) (v : verdict_on) (es : list event) : Prop :=
  match v with
  | Go => ∃ p, a_CallID p = tc_ID c ∧ decisions es = [EvActionApproved p] ∧ no_denial es ∧
               (if bool_decide (res_Decision d = Ask) then a_Carried p = from else a_By p = ByPolicy ∨ a_By p = ByPlan)
  | Stop _ _ => denied_next c v es
  end.

Lemma writes_approve c d hit a from : writes (approve_call l c d hit a from) (approved_next c d from).
Proof.
  unfold approve_call. set (by_ := if negb _ then ByPolicy else _). set (p0 := withRule _ _). set (p1 := if (_ : bool) then MkPayload _ _ _ _ _ _ _ _ _ _ _ else p0).
  assert (H1 : a_CallID p1 = tc_ID c ∧ if bool_decide (res_Decision d = Ask) then a_Carried p1 = from else a_By p1 = ByPolicy).
  { unfold p1, p0, by_. by destruct (bool_decide _). }
  clearbody p1. eapply quiet_then; [by destruct (_ && _)|]. intros [].
  eapply quiet_then. { destruct hit as [h|]; [|done]. intros s0. cbn. by destruct (plan_claim h (plans s0)). } intros claimed.
  set (p2 := match hit with None => p1 | Some _ => _ end).
  assert (H2 : a_CallID p2 = tc_ID c ∧ if bool_decide (res_Decision d = Ask) then a_Carried p2 = from else a_By p2 = ByPolicy ∨ a_By p2 = ByPlan).
  { unfold p2. destruct H1 as [H0 H1]. destruct hit as [h|]; cbn; (split; [done|]); destruct (bool_decide _); auto. destruct (ht_replaced h); auto. }
  clearbody p2. clear H1 p1 p0 by_.
  assert (Hgo : ∀ m : M verdict_on, writes m (λ v es, v = Go ∧ decisions es = [] ∧ no_denial es) →
    writes (let! ok := Record_event l (EvActionApproved p2) in
            if negb ok then noteRecordErr ;;; mreturn (Stop (refusal notRecorded) "") else m) (approved_next c d from)).
  { intros m Hm. eapply writes_bind; [apply writes_Record|]. intros [] es H; cbn [negb].
    - subst es. eapply writes_conseq; [exact Hm|]. intros v es (-> & E & Hno). exists p2. rewrite decisions_app, E. split_and!; try apply H2; try done.
      by apply no_denial_app; [apply no_denial_one|].
    - pass. intros []. apply writes_ret. left. apply H. }
  destruct hit as [h|]; [|apply Hgo, writes_ret; split_and!; try done; apply no_denial_nil].
  destruct claimed.
  - apply Hgo. eapply writes_bind; [apply writes_record|]. intros [] es H. apply writes_ret. rewrite app_nil_r.
    destruct H as [-> | [-> _]]; split_and!; try done; [by apply no_denial_one|apply no_denial_nil].
  - eapply writes_conseq; [apply (writes_deny c); [done|apply writes_stop]|]. by intros [].
Qed.

(** ** The ruling *)

Lemma writes_startup : writes (noteTrustedStartup l) (λ _ es, decisions es = [] ∧ no_denial es).
Proof.
  assert (Hnil : decisions [] = [] ∧ no_denial []) by (split; [done|apply no_denial_nil]).
  unfold noteTrustedStartup. destruct (trusted_startup l); [|by apply writes_ret].
  pass. intros n. pass. intros s0. destruct (String.eqb _ _); [by apply writes_ret|].
  pass. intros []. eapply writes_conseq; [apply writes_Record|]. intros [] es H.
  - subst es. split; [done|by apply no_denial_one].
  - by destruct H as [-> _].
Qed.

Section judged.
Context (t : Tool) (c : ToolCall) (Ht : Tools_Get l (tc_Name c) = Some t) (Hoff : offered l t = true).

Lemma writes_judge calls index dropped resolved : writes (judge_call l calls index t c dropped resolved) (ruling c).
Proof using Ht Hoff.
  unfold judge_call. eapply (writes_bind _ _ (λ _ es, decisions es = [] ∧ no_denial es)).
  { destruct (String.eqb _ _); [|apply writes_ret; split; [done|apply no_denial_nil]].
    eapply writes_bind; [apply writes_startup|]. intros ok es H. apply writes_ret. by rewrite app_nil_r. }
  intros [] es1 [Hd1 Hn1]. pass. intros n. set (doomed := doomed_why _ _ _ _ _ _ _).
  eapply writes_bind; [apply writes_final|]. intros [[d hit] target] es2 [Hd2 Hn2]. cbn [fst] in Hn2.
  set (r := MkRequested _ _ _ _ _ _ _ _ _ _). eapply writes_bind; [apply writes_Record|].
  intros [] es3 H3; cbn [negb]; [subst es3|apply writes_ret; left; apply H3].
  assert (Hr : about r c) by done.
  assert (Hes : decisions (es1 ++ (es2 ++ [EvActionRequested r])) = [EvActionRequested r]) by by rewrite !decisions_app, Hd1, Hd2.
  eapply writes_conseq; [|intros v es H; rewrite !app_assoc, <- (app_assoc es1); exact H].
  assert (Hstop : ∀ v es, denied_next c v es → ruling c v ((es1 ++ (es2 ++ [EvActionRequested r])) ++ es)).
  { intros v es. by apply denied_after with r. }
  destruct doomed as [why|] eqn:Edoom.
  { eapply writes_conseq; [apply (writes_deny c); [done|apply writes_stop]|exact Hstop]. }
  destruct (bool_decide_reflect (res_Decision d = Deny)) as [Ed|Ed]; [eapply writes_conseq; [apply writes_deny_call|exact Hstop]|].
  destruct (Hn2 Ed) as [Hpol Hnd].
  assert (Hgo : ∀ from v es, (∃ m, owner_gone l m = false) →
     (res_Decision d = Ask → said_yes c from) → approved_next c d from v es →
     ruling c v ((es1 ++ (es2 ++ [EvActionRequested r])) ++ es)).
  { intros from v es Hown Hyes H. destruct v as [|a term]; [|by apply Hstop]. destruct H as (p & Hp & Hdec & Hno & Hby).
    exists t, r, p. split_and!; try done.
    - repeat apply no_denial_app; try done. by apply no_denial_one.
    - by rewrite decisions_app, Hes, Hdec.
    - unfold let_in. cbn [rqd_RequiresApproval r opt_some negb]. rewrite andb_true_r.
      destruct (bool_decide_reflect (res_Decision d = Ask)) as [Ea|]; [|done]. rewrite Hby. by apply Hyes. }
  unfold ownerGone. eapply (writes_bind _ _ (λ g es, es = [] ∧ (g = false → ∃ m, owner_gone l m = false))).
  { pass. intros m. apply writes_ret. split; [done|]. by exists m. }
  intros gone es [-> Hown]. cbn [app]. destruct gone; [eapply writes_conseq; [apply writes_owner_gone|exact Hstop]|]. specialize (Hown eq_refl).
  destruct (bool_decide_reflect (res_Decision d = Ask)) as [Ea|Ea].
  2:{ eapply writes_conseq; [apply writes_approve|]. intros v es. by apply Hgo. }
  eapply writes_bind; [apply writes_ask|]. intros [[a from]|v] es H; [|apply writes_ret; rewrite app_nil_r; by apply Hstop].
  destruct H as [-> Hyes]. cbn [app]. pass. intros gone. destruct gone; [eapply writes_conseq; [apply writes_owner_gone|exact Hstop]|].
  eapply writes_conseq; [apply writes_approve|]. intros v es. by apply Hgo.
Qed.
End judged.

Lemma writes_authorize calls index c : writes (authorizeCall l calls index c) (λ x es,
  tc_ID (fst x) = tc_ID c ∧ ruling (fst x) (snd x) es).
Proof.
  unfold authorizeCall. destruct (match Tools_Get l (tc_Name c) with Some t => _ | None => None end) as [t|] eqn:Et.
  - destruct (Tools_Get l (tc_Name c)) as [t'|] eqn:Eg; [|done]. destruct (offered l t') eqn:Eo; [|done]. injection Et as ->.
    destruct (tl_Canonical t (tc_Args c)) as [e|[canon dropped]].
    + eapply writes_bind; [apply writes_unread|]. intros v es H. apply writes_ret. by rewrite app_nil_r.
    + eapply quiet_then; [by destruct (boundKeys dropped)|]. intros [].
      destruct (resolve_args t _) as [[unres canon'] resolved].
      eapply (writes_bind _ _ (ruling (with_args canon' c))).
      * destruct unres as [e|]; [apply (writes_unread (with_args canon' c) canon')|by apply writes_judge].
      * intros v es H. apply writes_ret. by rewrite app_nil_r.
  - unfold refuse_unknown. eapply writes_bind; [apply writes_unread|]. intros v es H. apply writes_ret. rewrite app_nil_r. cbn [fst snd].
    destruct (nearCredentialTool _ _); by destruct c.
Qed.
End call.

(** ** The calls of a turn, ruled on *)

Section turn.
Context (l : Loop).

(** A call cleared somewhere in [es]. *)
Definition clear_in (c : ToolCall) (es : list event) : Prop := ∃ a es' b, es = a ++ es' ++ b ∧ cleared l c es'.

Lemma clear_in_app c a es b : clear_in c es → clear_in c (a ++ es ++ b).
Proof. intros (x & es' & y & -> & H). exists (a ++ x), es', (y ++ b). split; [by rewrite <- !app_assoc|done]. Qed.

(** The answers and approvals once the calls before [i] are ruled on. *)
Record ruled (i : nat) (calls : list ToolCall) (results : list (option callOutcome)) (approved : list bool) (es : list event) : Prop := {
  ru_results : length results = length calls;
  ru_approved : length approved = length calls;
  ru_clear : ∀ j, approved !! j = Some true → results !! j = Some None ∧ ∃ c, calls !! j = Some c ∧ clear_in c es;
  ru_answered : ∀ j, (j < i)%nat → (j < length calls)%nat → approved !! j = Some true ∨ ∃ o, results !! j = Some (Some o);
  ru_rest : ∀ j, (i <= j)%nat → (j < length calls)%nat → results !! j = Some None ∧ approved !! j = Some false
}.

Lemma ruled_go i calls results approved es c c' es' : ruled i calls results approved es → calls !! i = Some c → cleared l c' es' →
  ruled (S i) (<[i := c']> calls) results (<[i := true]> approved) (es ++ es').
Proof.
  intros [H1 H2 H3 H4 H5] Hc Hcl. pose proof (lookup_lt_Some _ _ _ Hc) as Hi. destruct (H5 i) as [R A]; [lia|done|].
  split; rewrite ?length_insert; try done.
  - intros j. destruct (decide (j = i)) as [->|Hne].
    + intros _. split; [done|]. exists c'. split; [by apply list_lookup_insert_eq|]. exists es, es', []. by rewrite app_nil_r.
    + rewrite !list_lookup_insert_ne by done. intros Hj. destruct (H3 j Hj) as (Hr & d & Hd & Hcd). split; [done|].
      exists d. split; [done|]. by apply (clear_in_app d [] es es').
  - intros j Hj Hl. destruct (decide (j = i)) as [->|Hne]; [left; apply list_lookup_insert_eq; lia|].
    rewrite list_lookup_insert_ne by done. apply H4; lia.
  - intros j Hj Hl. rewrite list_lookup_insert_ne by lia. apply H5; [lia|done].
Qed.

Lemma ruled_stop i calls results approved es c c' o es' : ruled i calls results approved es → calls !! i = Some c →
  ruled (S i) (<[i := c']> calls) (<[i := Some o]> results) approved (es ++ es').
Proof.
  intros [H1 H2 H3 H4 H5] Hc. pose proof (lookup_lt_Some _ _ _ Hc) as Hi. destruct (H5 i) as [R A]; [lia|done|].
  split; rewrite ?length_insert; try done.
  - intros j Hj. assert (j ≠ i) by congruence. rewrite !list_lookup_insert_ne by done.
    destruct (H3 j Hj) as (Hr & d & Hd & Hcd). split; [done|]. exists d. split; [done|]. by apply (clear_in_app d [] es es').
  - intros j Hj Hl. destruct (decide (j = i)) as [->|Hne]; [right; exists o; apply list_lookup_insert_eq; lia|].
    rewrite list_lookup_insert_ne by done. apply H4; lia.
  - intros j Hj Hl. rewrite list_lookup_insert_ne by lia. apply H5; [lia|done].
Qed.

Lemma writes_authorize_from todo : ∀ i calls results approved es0, ruled i calls results approved es0 → (i + todo = length calls)%nat →
  writes (authorize_from l todo i calls results approved) (λ x es,
    let '(calls', results', approved', ended) := x in
    map tc_ID calls' = map tc_ID calls ∧
    match ended with
    | Some _ => length results' = length calls
    | None => ruled (length calls) calls' results' approved' (es0 ++ es)
    end).
Proof.
  induction todo as [|todo IH]; intros i calls results approved es0 Hr Hi; cbn [authorize_from].
  { apply writes_ret. split; [done|]. rewrite app_nil_r. by replace (length calls) with i by lia. }
  destruct (lookup_lt_is_Some_2 calls i) as [c Hc]; [lia|]. rewrite Hc.
  eapply writes_bind; [apply writes_authorize|]. intros [c' v] es [Hid Hv]. cbn [fst snd] in *.
  assert (Hids : map tc_ID (<[i := c']> calls) = map tc_ID calls).
  { apply list_eq. intros j. rewrite !list_lookup_fmap. destruct (decide (i = j)) as [<-|Hne]; [|by rewrite list_lookup_insert_ne].
    rewrite list_lookup_insert_eq, Hc by lia. cbn. by rewrite Hid. }
  pose proof (length_insert calls i c') as Hlen. destruct v as [|r term].
  - eapply writes_conseq; [eapply IH; [by eapply ruled_go|lia]|]. intros [[[calls' results'] approved'] ended] es' [H1 H2].
    split; [by rewrite H1|]. rewrite Hlen, <- app_assoc in H2. done.
  - pose proof (ruled_stop i calls results approved es0 c c' (MkOutcomeOf r term) es Hr Hc) as Hr'.
    destruct (negb (String.eqb term "")).
    + apply writes_ret. split; [done|]. by rewrite length_insert, (ru_results _ _ _ _ _ Hr).
    + eapply writes_conseq; [eapply IH; [exact Hr'|lia]|]. intros [[[calls' results'] approved'] ended] es' [H1 H2].
      split; [by rewrite H1|]. rewrite Hlen, <- app_assoc in H2. done.
Qed.
End turn.

(** ** What runs, and alone *)

Definition ran (e : list entry) : list ToolCall := omap (λ x, match x with Started c => Some c | _ => None end) e.
Definition over (e : list entry) : list ToolCall := omap (λ x, match x with Ended c => Some c | _ => None end) e.

(** Every call started has ended, and no other. *)
Definition balanced (e : list entry) : Prop := ran e ≡ₚ over e.

(** A call that changes things starts when nothing runs, and nothing else starts
    or ends until it ends. *)
Definition alone (l : Loop) (e : list entry) : Prop :=
  ∀ pre c post, e = pre ++ Started c :: post → mutating l c = true →
    balanced pre ∧ ∃ mid post', post = mid ++ Ended c :: post' ∧ ran mid = [] ∧ over mid = [].

Lemma ran_app a b : ran (a ++ b) = ran a ++ ran b.
Proof. apply omap_app. Qed.
Lemma over_app a b : over (a ++ b) = over a ++ over b.
Proof. apply omap_app. Qed.
Lemma ran_events es : ran (map Recorded es) = [].
Proof. by induction es. Qed.
Lemma over_events es : over (map Recorded es) = [].
Proof. by induction es. Qed.

Lemma balanced_app a b : balanced a → balanced b → balanced (a ++ b).
Proof. unfold balanced. rewrite ran_app, over_app. by intros -> ->. Qed.
Lemma balanced_events es : balanced (map Recorded es).
Proof. unfold balanced. by rewrite ran_events, over_events. Qed.

Lemma alone_none l e : (∀ c, c ∈ ran e → mutating l c = false) → alone l e.
Proof.
  intros H pre c post -> Hm. rewrite H in Hm; [done|]. rewrite ran_app. apply elem_of_app. right. cbn. by left.
Qed.
Lemma alone_events l es : alone l (map Recorded es).
Proof. apply alone_none. intros c. rewrite ran_events. intros H. by apply not_elem_of_nil in H. Qed.

Lemma alone_app l a b : balanced a → alone l a → alone l b → alone l (a ++ b).
Proof.
  intros Hbal Ha Hb pre c post E Hm. apply app_eq_app in E as (k & [[E1 E2] | [E1 E2]]).
  - destruct k as [|x k]; cbn in E2.
    + rewrite app_nil_r in E1. subst. destruct (Hb [] c post eq_refl Hm) as [_ H]. done.
    + injection E2 as <- ->. destruct (Ha pre c k E1 Hm) as (Hp & mid & post' & -> & H). split; [done|].
      exists mid, (post' ++ b). by rewrite <- app_assoc.
  - subst. destruct (Hb k c post eq_refl Hm) as [Hk H]. split; [by apply balanced_app|done].
Qed.

(** One call, run to its end. *)
Definition block (c : ToolCall) (es : list event) : list entry := [Started c] ++ map Recorded es ++ [Ended c].

Lemma block_balanced c es : balanced (block c es).
Proof. unfold balanced, block. by rewrite !ran_app, !over_app, ran_events, over_events. Qed.
Lemma block_ran c es : ran (block c es) = [c].
Proof. unfold block. by rewrite !ran_app, ran_events. Qed.
Lemma block_alone l c es : alone l (block c es).
Proof.
  intros [|x pre] d post E Hm; cbn in E.
  - injection E as <- <-. split; [apply (balanced_events [])|]. exists (map Recorded es), []. by rewrite ran_events, over_events.
  - injection E as <- E. exfalso. assert (H : ran (map Recorded es ++ [Ended c]) = []) by by rewrite ran_app, ran_events.
    rewrite E, ran_app in H. cbn in H. by apply app_eq_nil in H as [_ ?].
Qed.

Section running.
Context (l : Loop).

Lemma writes_foldr (es : list string) : writes (foldr (λ e m, record l (EvOfTool e) ;;; m) (mreturn tt : M unit) es) (λ _ _, True).
Proof. induction es as [|e es IH]; cbn; [by apply writes_ret|]. eapply writes_bind; [apply writes_record|]. intros [] x _. exact IH. Qed.

Lemma writes_invoke c : writes (invoke_end l c) (λ _ _, True).
Proof.
  unfold invoke_end. destruct (Tools_Get l (tc_Name c)) as [t|]; [|by apply writes_ret]. pass. intros n.
  eapply (writes_bind _ _ (λ _ _, True)); [|by intros [r term] es _; apply writes_ret].
  unfold finish_invoke. pass. intros keys. eapply quiet_then. { intros s. unfold noteOutcome. cbn. destruct (_ || _); [done|]. by destruct (String.eqb _ _). }
  intros []. eapply quiet_then. { intros s. unfold count_outcome. cbn. destruct (tr_IsError _); [done|]. destruct (MutatesCall _ _); [done|]. by destruct (String.eqb _ _). }
  intros r. eapply writes_bind; [apply writes_Record|]. intros [] es _; cbn [negb]; [|by apply writes_ret].
  eapply writes_bind; [apply writes_foldr|]. intros [] es' _. by apply writes_ret.
Qed.

(** A launch: the call started, or answered that it was not run. *)
Lemma says_launch i c results : says (launch i c results) (λ results' e,
  (results' = results ∧ e = [Started c]) ∨ ((∃ o, results' = <[i := Some o]> results) ∧ e = [])).
Proof.
  intros s. unfold launch, mthen, mget. destruct (broken s).
  - exists []. rewrite app_nil_r. split; [done|]. right. split; [by eexists|done].
  - exists [Started c]. split; [done|by left].
Qed.

Lemma says_finish i c results : says (finish l i c results) (λ results' e,
  match results !! i with
  | Some None => (∃ o, results' = <[i := Some o]> results) ∧ ∃ es, e = map Recorded es ++ [Ended c]
  | _ => results' = results ∧ e = []
  end).
Proof.
  unfold finish. destruct (results !! i) as [[o|]|] eqn:E; try by apply says_ret.
  eapply says_bind; [apply writes_invoke|]. intros o e (es & -> & _) s. exists [Ended c]. split; [done|].
  split; [by exists o|by exists es].
Qed.

(** The calls of [open] that run. *)
Definition waiting (calls : list ToolCall) (results : list (option callOutcome)) (open : list nat) : list ToolCall :=
  omap (λ i, match results !! i with Some None => calls !! i | _ => None end) open.

Lemma waiting_other calls results open i o : i ∉ open → waiting calls (<[i := o]> results) open = waiting calls results open.
Proof.
  unfold waiting. induction open as [|j open IH]; [done|]. intros H. apply not_elem_of_cons in H as [H1 H2]. cbn.
  rewrite list_lookup_insert_ne by done. by rewrite IH.
Qed.

Lemma open_take i open : NoDup open → i ∈ open → open ≡ₚ i :: List.filter (λ j, negb (j =? i)%nat) open.
Proof.
  induction 1 as [|j open Hj Hnd IH]; intros Hi; [by apply not_elem_of_nil in Hi|]. cbn [List.filter].
  destruct (Nat.eqb_spec j i) as [->|Hne]; cbn [negb].
  - f_equiv. clear IH Hi Hnd. induction open as [|k open IH]; [done|]. apply not_elem_of_cons in Hj as [H1 H2]. cbn.
    destruct (Nat.eqb_spec k i) as [->|]; [done|]. cbn. f_equiv. by apply IH.
  - apply elem_of_cons in Hi as [->|Hi]; [done|]. etransitivity; [apply perm_skip, IH, Hi|]. apply perm_swap.
Qed.

(** Reads that start and end by a schedule: each has an answer in the end, and
    each that started has ended. *)
Definition reads_post (calls : list ToolCall) (open todo : list nat) (results results' : list (option callOutcome)) (e : list entry) : Prop :=
  length results' = length results ∧
  (∀ i, i ∈ open ++ todo → ∃ o, results' !! i = Some (Some o)) ∧
  (∀ i, i ∉ open ++ todo → results' !! i = results !! i) ∧
  waiting calls results open ++ ran e ≡ₚ over e ∧
  ∀ c, c ∈ ran e → ∃ i, i ∈ todo ∧ calls !! i = Some c.

Section reads.
Context (calls : list ToolCall) (open todo : list nat) (i : nat) (c : ToolCall) (Hc : calls !! i = Some c).

(** A read that starts. *)
Lemma reads_started results r e : results !! i = Some None →
  reads_post calls (i :: open) todo results r e → reads_post calls open (i :: todo) results r ([Started c] ++ e).
Proof using Hc.
  intros Hi (H1 & H2 & H3 & H4 & H5). assert (Hp : i :: open ++ todo ≡ₚ open ++ i :: todo) by apply Permutation_middle. split_and!.
  - done.
  - intros j Hj. apply H2. cbn. by rewrite Hp.
  - intros j Hj. apply H3. cbn. by rewrite Hp.
  - cbn in H4. rewrite Hi, Hc in H4. cbn [ran omap list_omap app over]. rewrite <- Permutation_middle. exact H4.
  - cbn. intros d [->|Hd]%elem_of_cons; [exists i; split; [by left|done]|].
    destruct (H5 d Hd) as (j & Hj & Hd'). exists j. split; [by right|done].
Qed.

(** A read that is answered in place of its start. *)
Lemma reads_refused results r e o : (i < length results)%nat → i ∉ open ++ todo →
  reads_post calls (i :: open) todo (<[i := Some o]> results) r e → reads_post calls open (i :: todo) results r e.
Proof using Hc.
  intros Hlt Hni (H1 & H2 & H3 & H4 & H5). assert (Hp : i :: open ++ todo ≡ₚ open ++ i :: todo) by apply Permutation_middle.
  rewrite length_insert in H1. split_and!.
  - done.
  - intros j Hj. apply H2. cbn. by rewrite Hp.
  - intros j Hj. rewrite <- (list_lookup_insert_ne results i j (Some o)) by set_solver. apply H3. cbn. by rewrite Hp.
  - unfold waiting in H4. cbn in H4. rewrite list_lookup_insert_eq in H4 by done.
    fold (waiting calls (<[i:=Some o]> results) open) in H4. rewrite waiting_other in H4 by set_solver. exact H4.
  - intros d Hd. destruct (H5 d Hd) as (j & Hj & Hd'). exists j. split; [by right|done].
Qed.

(** The end of [i], of those that are open. *)
Context (opened : list nat) (Hp : opened ≡ₚ i :: open) (Hni : i ∉ open ++ todo).

Lemma waiting_opened results : waiting calls results opened ≡ₚ
  match results !! i with Some None => c :: waiting calls results open | _ => waiting calls results open end.
Proof using Hc Hp. unfold waiting at 1. rewrite Hp. cbn. rewrite Hc. by destruct (results !! i) as [[]|]. Qed.

Lemma reads_over results r e o : results !! i = Some (Some o) →
  reads_post calls open todo results r e → reads_post calls opened todo results r e.
Proof using Hc Hp Hni.
  intros Hi (H1 & H2 & H3 & H4 & H5). split_and!; try done.
  - intros j Hj. rewrite Hp in Hj. apply elem_of_cons in Hj as [->|Hj]; [exists o; by rewrite H3|by apply H2].
  - intros j. rewrite Hp. intros Hj. apply H3. set_solver.
  - rewrite waiting_opened, Hi. exact H4.
Qed.

Lemma reads_ended results r e o es : results !! i = Some None →
  reads_post calls open todo (<[i := Some o]> results) r e →
  reads_post calls opened todo results r ((map Recorded es ++ [Ended c]) ++ e).
Proof using Hc Hp Hni.
  intros Hi (H1 & H2 & H3 & H4 & H5). pose proof (lookup_lt_Some _ _ _ Hi) as Hlt. rewrite length_insert in H1. split_and!.
  - done.
  - intros j Hj. rewrite Hp in Hj. apply elem_of_cons in Hj as [->|Hj]; [|by apply H2].
    exists o. rewrite H3 by done. by apply list_lookup_insert_eq.
  - intros j. rewrite Hp. intros Hj. rewrite H3 by set_solver. apply list_lookup_insert_ne. set_solver.
  - rewrite waiting_other in H4 by set_solver. rewrite waiting_opened, Hi, !ran_app, !over_app, ran_events, over_events. cbn. by rewrite H4.
  - intros d. rewrite ran_app, ran_app, ran_events. cbn. apply H5.
Qed.
End reads.

Lemma says_reads calls ss : ∀ open results, runs open ss = true → NoDup (open ++ launches ss) →
  (∀ i, i ∈ launches ss → results !! i = Some None) →
  (∀ i, i ∈ open ++ launches ss → is_Some (calls !! i) ∧ is_Some (results !! i)) →
  says (run_reads l ss calls results) (reads_post calls open (launches ss) results).
Proof.
  induction ss as [|[i|i] ss IH]; intros open results Hrun Hnd Hnone Hin; cbn [run_reads runs launches omap list_omap] in *.
  - destruct open; [|done]. apply says_ret. split_and!; try done; intros i Hi; by apply not_elem_of_nil in Hi.
  - destruct (Hin i) as [[c Hc] _]; [set_solver|]. rewrite Hc. eapply says_bind; [apply says_launch|].
    fold (launches ss) in *. assert (Hp : i :: open ++ launches ss ≡ₚ open ++ i :: launches ss) by apply Permutation_middle.
    rewrite <- Hp in Hnd. pose proof Hnd as Hni. apply NoDup_cons in Hni as [Hni _].
    assert (Hi : results !! i = Some None) by (apply Hnone; set_solver). pose proof (lookup_lt_Some _ _ _ Hi) as Hlt.
    assert (Hin' : ∀ j, j ∈ (i :: open) ++ launches ss → is_Some (calls !! j) ∧ is_Some (results !! j)) by (intros j Hj; apply Hin; rewrite <- Hp; done).
    intros results' e [[-> ->]|[[o ->] ->]]; (eapply says_conseq; [apply (IH (i :: open)); try done|]).
    + intros j Hj. apply Hnone. set_solver.
    + intros r e. by apply reads_started.
    + intros j Hj. rewrite list_lookup_insert_ne by set_solver. apply Hnone. set_solver.
    + intros j Hj. rewrite list_lookup_insert_is_Some. by apply Hin'.
    + intros r e. by eapply reads_refused.
  - apply andb_true_iff in Hrun as [Hi Hrun]. apply bool_decide_eq_true in Hi. fold (launches ss) in *.
    set (open' := List.filter _ open) in *. assert (Hp : open ≡ₚ i :: open') by (apply open_take; [by apply NoDup_app in Hnd as [? _]|done]).
    destruct (Hin i) as [[c Hc] [ro Hri]]; [set_solver|]. rewrite Hc. rewrite Hp in Hnd. apply NoDup_cons in Hnd as [Hni Hnd].
    assert (Hin' : ∀ j, j ∈ open' ++ launches ss → is_Some (calls !! j) ∧ is_Some (results !! j)) by (intros j Hj; apply Hin; rewrite Hp; set_solver).
    eapply says_bind; [apply says_finish|]. rewrite Hri. destruct ro as [o|]; intros results' e.
    + intros [-> ->]. eapply says_conseq; [by apply (IH open')|]. intros r e. by eapply reads_over.
    + intros [[o ->] [es ->]]. eapply says_conseq; [apply (IH open'); try done|].
      * intros j Hj. rewrite list_lookup_insert_ne by set_solver. by apply Hnone.
      * intros j Hj. rewrite list_lookup_insert_is_Some. by apply Hin'.
      * intros r e. by eapply reads_ended.
Qed.

(** Calls run one after another: each alone, and answered unless the run ends. *)
Lemma says_changes calls is_ : ∀ results, NoDup is_ → (∀ i, i ∈ is_ → results !! i = Some None ∧ is_Some (calls !! i)) →
  says (run_changes l is_ calls results) (λ x e, length (fst x) = length results ∧
    (∀ i, i ∉ is_ → fst x !! i = results !! i) ∧
    (snd x = None → ∀ i, i ∈ is_ → ∃ o, fst x !! i = Some (Some o)) ∧
    balanced e ∧ alone l e ∧ ∀ c, c ∈ ran e → ∃ i, i ∈ is_ ∧ calls !! i = Some c).
Proof.
  assert (Hnil : balanced [] ∧ alone l [] ∧ ∀ (is_ : list nat) c, c ∈ ran [] → ∃ i, i ∈ is_ ∧ calls !! i = Some c).
  { split_and!; [apply (balanced_events [])|apply (alone_events l [])|]. intros k c Hc. by apply not_elem_of_nil in Hc. }
  induction is_ as [|i is_ IH]; intros results Hnd Hin; cbn [run_changes].
  { apply says_ret. split_and!; try done; try apply Hnil. intros _ j Hj. by apply not_elem_of_nil in Hj. }
  apply NoDup_cons in Hnd as [Hi Hnd]. destruct (Hin i) as [Hr [c Hc]]; [by left|]. rewrite Hc. pose proof (lookup_lt_Some _ _ _ Hr) as Hlt.
  (* one block, then the rest *)
  eapply (says_bind _ _ (λ results' e, results' = results ∧ e = [Started c] ∨ (∃ o, results' = <[i := Some o]> results) ∧ e = [])).
  { eapply says_conseq; [apply says_launch|]. done. }
  intros r1 e1 H1. eapply (says_bind _ _ (λ results' e, (∃ o, results' = <[i := Some o]> results) ∧
      (e1 ++ e = [] ∨ ∃ es, e1 ++ e = block c es))).
  { eapply says_conseq; [apply says_finish|]. intros r e He. destruct H1 as [[-> ->]|[[o ->] ->]].
    - rewrite Hr in He. destruct He as [Ho [es ->]]. split; [done|]. right. by exists es.
    - rewrite list_lookup_insert_eq in He by done. destruct He as [-> ->]. split; [by exists o|by left]. }
  intros r2 e2 [[o ->] He]. rewrite list_lookup_insert_eq by done.
  assert (Hblock : balanced (e1 ++ e2) ∧ alone l (e1 ++ e2) ∧ ∀ d, d ∈ ran (e1 ++ e2) → d = c).
  { destruct He as [->|[es ->]]; split_and!; try apply Hnil; [|apply block_balanced|apply block_alone|].
    - intros d Hd. by apply not_elem_of_nil in Hd.
    - intros d. rewrite block_ran. apply list_elem_of_singleton. }
  destruct Hblock as (Hb & Ha & Hrun). destruct (String.eqb (co_terminal o) "").
  - eapply says_conseq; [apply IH; [done|]|].
    + intros j Hj. rewrite list_lookup_insert_ne by set_solver. apply Hin. by right.
    + intros x e (G1 & G2 & G3 & G4 & G5 & G6). rewrite length_insert in G1. rewrite (app_assoc e1 e2 e). split_and!; try done.
      * intros j Hj. rewrite G2 by set_solver. apply list_lookup_insert_ne. set_solver.
      * intros Hx j Hj. apply elem_of_cons in Hj as [->|Hj]; [|by apply G3]. exists o. rewrite G2 by done. by apply list_lookup_insert_eq.
      * by apply balanced_app.
      * by apply alone_app.
      * intros d. rewrite ran_app. intros [Hd|Hd]%elem_of_app; [exists i; rewrite (Hrun d Hd); split; [by left|done]|].
        destruct (G6 d Hd) as (j & Hj & Hd'). exists j. split; [by right|done].
  - apply says_ret. cbn [fst snd]. rewrite app_nil_r, length_insert. split_and!; try done.
    + intros j Hj. apply list_lookup_insert_ne. set_solver.
    + intros d Hd. exists i. rewrite (Hrun d Hd). split; [by left|done].
Qed.

(** ** The answers *)

Lemma writes_fill reason requested calls : ∀ i results, length results = length calls →
  writes (fill_ended l reason requested i calls results) (λ r _, ∃ outs, r = map Some outs ∧ length outs = length calls).
Proof.
  induction calls as [|c calls IH]; intros i [|o results] Hl; cbn [fill_ended] in *; try done; [apply writes_ret; by exists []|].
  injection Hl as Hl. destruct o as [o|].
  - eapply writes_bind; [by apply IH|]. intros r es (outs & -> & H). apply writes_ret. exists (o :: outs). cbn. by rewrite H.
  - eapply (writes_bind _ _ (λ _ _, True)).
    { destruct (_ <? _)%nat; [|by apply writes_ret]. eapply writes_conseq; [apply writes_record|]. done. }
    intros [] es0 _. eapply writes_bind; [by apply IH|]. intros r es (outs & -> & H). apply writes_ret.
    exists (MkOutcomeOf (ended_answer reason) "" :: outs). cbn. by rewrite H.
Qed.

Lemma writes_replan remit plan outs : writes (replan l remit plan (map Some outs)) (λ r _, ∃ outs', r = map Some outs' ∧ length outs' = length outs).
Proof.
  induction outs as [|o outs IH]; cbn [replan map]; [apply writes_ret; by exists []|].
  assert (Hrest : ∀ o', writes (let! rest := replan l remit plan (map Some outs) in mreturn (Some o' :: rest))
    (λ r _, ∃ outs', r = map Some outs' ∧ length outs' = S (length outs))).
  { intros o'. eapply writes_bind; [exact IH|]. intros r es (outs' & -> & H). apply writes_ret. exists (o' :: outs'). cbn. by rewrite H. }
  pass. intros s. destruct (negb (tr_IsError _)); [pass; intros []; apply Hrest|]. pass. intros []. destruct (negb _); [apply Hrest|].
  eapply writes_bind; [apply writes_record|]. intros [] es _. eapply writes_conseq; [apply Hrest|]. done.
Qed.

Lemma all_set (results : list (option callOutcome)) :
  (∀ j, (j < length results)%nat → ∃ o, results !! j = Some (Some o)) → ∃ outs, results = map Some outs.
Proof.
  induction results as [|o results IH]; intros H; [by exists []|]. destruct (H 0%nat) as [o' Ho]; [cbn; lia|]. injection Ho as ->.
  destruct IH as [outs ->]; [intros j Hj; apply (H (S j)); cbn; lia|]. by exists (o' :: outs).
Qed.
End running.

(** ** A turn *)

Section whole.
Context (l : Loop) (reads : list nat → list sched) (remit plan : string) (calls : list ToolCall).
Context (Hsched : ∀ rs, NoDup rs → schedule_ok rs (reads rs)).

(** What a turn comes to: the rulings, then the runs, then one answer per call. *)
Definition turn_post (x : (list ToolCall * list tool_message) * string) (e : list entry) : Prop :=
  (∃ es e', e = map Recorded es ++ e' ∧ (∀ c, c ∈ ran e' → clear_in l c es) ∧ balanced e' ∧ alone l e') ∧
  ∃ calls' outs, map tc_ID calls' = map tc_ID calls ∧ length outs = length calls ∧ fst x = (calls', appendResults l calls' (map Some outs)).

(** The answers after a run, or after a turn that ended early. *)
Lemma writes_ended reason requested calls' results : length results = length calls → map tc_ID calls' = map tc_ID calls →
  writes (let! results := fill_ended l reason requested 0 calls' results in mreturn ((calls', appendResults l calls' results), reason))
    (λ x _, ∃ calls' outs, map tc_ID calls' = map tc_ID calls ∧ length outs = length calls ∧ fst x = (calls', appendResults l calls' (map Some outs))).
Proof using.
  intros Hl Hid. assert (Hl' : length calls' = length calls) by (by rewrite <- (length_map tc_ID calls'), Hid, length_map).
  eapply writes_bind; [apply writes_fill; by rewrite Hl'|]. intros r es (outs & -> & H). apply writes_ret.
  exists calls', outs. split_and!; try done. by rewrite H.
Qed.

Lemma writes_answers calls' results : length results = length calls → map tc_ID calls' = map tc_ID calls →
  (∀ j, (j < length calls)%nat → ∃ o, results !! j = Some (Some o)) →
  writes (let! results := match Supervisor l with Some _ => replan l remit plan results | None => mreturn results end in
          mreturn ((calls', appendResults l calls' results), turn_terminal results))
    (λ x _, ∃ calls' outs, map tc_ID calls' = map tc_ID calls ∧ length outs = length calls ∧ fst x = (calls', appendResults l calls' (map Some outs))).
Proof using.
  intros Hl Hid Hset. destruct (all_set results) as [outs ->]; [by rewrite Hl|]. rewrite length_map in Hl.
  eapply (writes_bind _ _ (λ r _, ∃ outs', r = map Some outs' ∧ length outs' = length outs)).
  { destruct (Supervisor l); [apply writes_replan|apply writes_ret; by exists outs]. }
  intros r es (outs' & -> & H). apply writes_ret. exists calls', outs'. split_and!; try done. by rewrite H.
Qed.

Lemma ruled_start : ruled l 0 calls (map (λ _, None) calls) (map (λ _, false) calls) [].
Proof using.
  split; rewrite ?length_map; try done.
  - intros j. rewrite list_lookup_fmap. by destruct (calls !! j).
  - intros; lia.
  - intros j _ Hj. rewrite !list_lookup_fmap. by destruct (lookup_lt_is_Some_2 calls j Hj) as [c ->].
Qed.

Lemma select_spec want calls' approved i : i ∈ select l want calls' approved →
  approved !! i = Some true ∧ ∃ c, calls' !! i = Some c ∧ mutating l c = want.
Proof using.
  unfold select. rewrite list_elem_of_In, List.filter_In. intros [_ H]. destruct (calls' !! i) as [c|]; [|done].
  destruct (approved !! i) as [[]|]; try done. apply eqb_prop in H. eauto.
Qed.
Lemma select_NoDup want calls' approved : NoDup (select l want calls' approved).
Proof using. apply NoDup_ListNoDup, List.NoDup_filter, List.seq_NoDup. Qed.
Lemma select_in calls' approved i c : approved !! i = Some true → calls' !! i = Some c → i ∈ select l (mutating l c) calls' approved.
Proof using.
  intros Ha Hc. unfold select. rewrite list_elem_of_In, List.filter_In. split.
  - apply in_seq. apply lookup_lt_Some in Hc. lia.
  - rewrite Hc, Ha. apply eqb_reflx.
Qed.

(** Every call approved has an answer after the runs: the reads', or the changes'. *)
Lemma says_runs calls' results approved es : ruled l (length calls) calls' results approved es → map tc_ID calls' = map tc_ID calls →
  says (let! results := run_reads l (reads (select l false calls' approved)) calls' results in
        run_changes l (select l true calls' approved) calls' results)
    (λ x e, length (fst x) = length calls ∧ (snd x = None → ∀ j, (j < length calls)%nat → ∃ o, fst x !! j = Some (Some o)) ∧
       balanced e ∧ alone l e ∧ ∀ c, c ∈ ran e → clear_in l c es).
Proof using Hsched.
  intros Hr Hid. assert (Hl' : length calls' = length calls) by (by rewrite <- (length_map tc_ID calls'), Hid, length_map).
  destruct (Hsched (select l false calls' approved)) as [Hlaunch Hruns]; [apply select_NoDup|]. set (R := select l false calls' approved) in *. set (C := select l true calls' approved).
  assert (Happ : ∀ want j, j ∈ select l want calls' approved → results !! j = Some None ∧ ∃ c, calls' !! j = Some c ∧ mutating l c = want ∧ clear_in l c es).
  { intros want j Hj. apply select_spec in Hj as (Ha & c & Hc & Hm). destruct (ru_clear _ _ _ _ _ _ Hr j Ha) as (H & d & Hd & Hcl).
    split; [done|]. exists c. split_and!; try done. congruence. }
  assert (Hdisj : ∀ j, j ∈ C → j ∉ R). { intros j H1 H2. apply Happ in H1 as (_ & c & Hc & Hm & _). apply Happ in H2 as (_ & d & Hd & Hm' & _). congruence. }
  eapply says_bind.
  { apply (says_reads l calls' (reads R) [] results); rewrite ?Hlaunch; cbn [app]; try done; [apply select_NoDup|intros i Hi; by apply Happ in Hi as [H _]|].
    intros i Hi. apply Happ in Hi as (H & c & Hc & _). by rewrite H, Hc. }
  intros r1 e1 (H1 & H2 & H3 & H4 & H5). rewrite Hlaunch in *. cbn [app waiting omap list_omap] in *.
  eapply says_conseq; [apply says_changes; [apply select_NoDup|]|].
  { intros i Hi. rewrite H3 by by apply Hdisj. destruct (Happ true i Hi) as (H & c & Hc & _). by rewrite H, Hc. }
  intros [r2 ended] e2 (G1 & G2 & G3 & G4 & G5 & G6). cbn [fst snd] in *. split_and!.
  - rewrite G1, H1. by rewrite (ru_results _ _ _ _ _ _ Hr).
  - intros He j Hj. destruct (decide (j ∈ C)) as [Hc|Hc]; [by apply G3|]. rewrite G2 by done.
    destruct (decide (j ∈ R)) as [HR|HR]; [by apply H2|]. rewrite H3 by done.
    destruct (ru_answered _ _ _ _ _ _ Hr j Hj) as [Ha|Ho]; [lia| |done]. destruct (ru_clear _ _ _ _ _ _ Hr j Ha) as (_ & c & Hcj & _).
    exfalso. pose proof (select_in calls' approved j c Ha Hcj) as Hsel. destruct (mutating l c); [by apply Hc|by apply HR].
  - by apply balanced_app.
  - apply alone_app; [done| |done]. apply alone_none. intros c Hc. destruct (H5 c Hc) as (i & Hi & Hci).
    apply Happ in Hi as (_ & d & Hd & Hm & _). congruence.
  - intros c. rewrite ran_app. intros [Hc|Hc]%elem_of_app; [destruct (H5 c Hc) as (i & Hi & Hci)|destruct (G6 c Hc) as (i & Hi & Hci)];
      apply Happ in Hi as (_ & d & Hd & _ & Hcl); congruence.
Qed.

Lemma says_turn : says (runCalls l reads remit plan calls) turn_post.
Proof using Hsched.
  unfold runCalls. apply (says_bind _ _ (λ _ e, e = [])); [intros s; exists []; by rewrite app_nil_r|]. intros [] ? ->.
  apply (says_bind _ _ (λ _ e, e = [])); [intros s; exists []; by rewrite app_nil_r|]. intros [] ? ->. cbn [app].
  eapply says_bind; [apply writes_authorize_from; [apply ruled_start|done]|].
  intros [[[calls' results] approved] ended] e (es & -> & Hid & Hpost). destruct ended as [[term requested]|].
  - eapply says_conseq; [by apply writes_ended|]. intros x e (es' & -> & Hx). split; [|done]. exists es, (map Recorded es').
    split_and!; [done|intros c; rewrite ran_events; intros H; by apply not_elem_of_nil in H|apply balanced_events|apply alone_events].
  - cbn [app] in Hpost. intros s. destruct (says_runs calls' results approved es Hpost Hid s) as (e & E & Hruns).
    unfold mthen in *. destruct (run_reads _ _ _ _ s) as [r1 s1]. destruct (run_changes _ _ _ _ s1) as [[r2 ended] s2]. cbn [fst snd] in *.
    destruct Hruns as (Hlen & Hset & Hbal & Hal & Hrun).
    assert (Hlast : ∀ x e', (∃ es', e' = map Recorded es' ∧
        ∃ calls' outs, map tc_ID calls' = map tc_ID calls ∧ length outs = length calls ∧ fst x = (calls', appendResults l calls' (map Some outs))) →
      turn_post x (map Recorded es ++ (e ++ e'))).
    { intros x e' (es' & -> & Hx). split; [|done]. exists es, (e ++ map Recorded es'). split_and!; [done| | |].
      - intros c. rewrite ran_app, ran_events, app_nil_r. apply Hrun.
      - by apply balanced_app, balanced_events.
      - apply alone_app; [done|done|apply alone_events]. }
    assert (Hend : ∀ m, writes m (λ x _, ∃ calls' outs, map tc_ID calls' = map tc_ID calls ∧ length outs = length calls ∧ fst x = (calls', appendResults l calls' (map Some outs))) →
      ∃ e', trace (snd (m s2)) = trace s ++ e' ∧ turn_post (fst (m s2)) (map Recorded es ++ e')).
    { intros m Hm. destruct (Hm s2) as (e' & E' & Hx). exists (e ++ e'). rewrite E', E, app_assoc. split; [done|by apply Hlast]. }
    destruct ended as [term|].
    + apply (Hend (let! r := fill_ended l term (length calls') 0 calls' r2 in mreturn ((calls', appendResults l calls' r), term))). by apply writes_ended.
    + apply (Hend (let! r := match Supervisor l with Some _ => replan l remit plan r2 | None => mreturn r2 end in
                   mreturn ((calls', appendResults l calls' r), turn_terminal r))). apply writes_answers; auto.
Qed.
End whole.

(** ** What a turn promises *)


(** C11: A call that changes things runs alone, however the reads interleave: when it
    starts, every call started before it has ended, and no other starts or ends
    until it does. *)
Theorem changes_run_alone l reads remit plan calls s : (∀ rs, NoDup rs → schedule_ok rs (reads rs)) →
  ∃ e, trace (snd (runCalls l reads remit plan calls s)) = trace s ++ e ∧ alone l e ∧ balanced e.
Proof.
  intros Hsched. destruct (says_turn l reads remit plan calls Hsched s) as (e & E & (es & e' & -> & _ & Hb & Ha) & _).
  eexists. split; [exact E|]. split; [apply alone_app; [apply balanced_events|apply alone_events|done]|].
  apply balanced_app; [apply balanced_events|done].
Qed.

(** Every call of a turn is answered, once and in its order, with an outcome of
    its own, whether it ran, was refused, or the turn ended before it. *)
Theorem every_call_answered l reads remit plan calls s : (∀ rs, NoDup rs → schedule_ok rs (reads rs)) →
  ∃ calls' outs, map tc_ID calls' = map tc_ID calls ∧ length outs = length calls ∧
    fst (fst (runCalls l reads remit plan calls s)) = (calls', appendResults l calls' (map Some outs)).
Proof. intros Hsched. by destruct (says_turn l reads remit plan calls Hsched s) as (e & E & _ & H). Qed.

(** C21: While the store takes what it is given, a call's request has exactly one
    outcome, and it names that call: approved when the call may run, denied when
    it may not; the one request left open is that of a turn another process takes
    over. *)
Theorem one_outcome_each l calls index c s : (∀ n e, Append l n e = true) →
  let '((c', v), s') := authorizeCall l calls index c s in
  ∃ es r, trace s' = trace s ++ map Recorded es ∧ tc_ID c' = tc_ID c ∧ about r c' ∧
    match v with
    | Go => ∃ p, a_CallID p = tc_ID c ∧ decisions es = [EvActionRequested r; EvActionApproved p]
    | Stop _ term =>
        (∃ p, a_CallID p = tc_ID c ∧ decisions es = [EvActionRequested r; EvActionDenied p]) ∨
        decisions es = [EvActionRequested r] ∧ term = TermHandedOver ∧ is_subagent l = false
    end.
Proof.
  intros Happ. destruct (writes_authorize l calls index c s) as (e & E & es & -> & Hid & Hrul).
  destruct (authorizeCall l calls index c s) as [[c' v] s']. cbn [fst snd] in *. exists es. destruct v as [|a term]; cbn in Hrul.
  - destruct Hrul as (t & r & p & _ & _ & _ & _ & _ & Hr & Hp & Hd & _). exists r. split_and!; try done; try apply Hr. exists p. by rewrite <- Hid.
  - destruct Hrul as [(n & e & H)|(r & Hr & H)]; [by rewrite Happ in H|]. exists r. split_and!; try done; try apply Hr. by rewrite <- Hid.
Qed.

(** ** A turn on concrete calls *)

(** A loop with a tool that reads and one that writes: reading is allowed, a write
    is asked for and the approver says yes but to one file, and nothing deletes. *)
Definition plain_tool (name : string) (mutates : bool) : Tool :=
  MkTool name OtherTool None (λ args, inr (args, [])) (λ args, args) None mutates None (λ _, None) None None (λ _, []) false.
Definition small_loop (store : bool) : Loop :=
  MkLoop (λ n, if String.eqb n "read" then Some (plain_tool n false) else if String.eqb n "put" || String.eqb n "delete" then Some (plain_tool n true) else None)
    ["read"; "put"; "delete"] "default"
    (λ n m a, if String.eqb n "read" then decided Allow "mode" "reading" else if String.eqb n "put" then decided Ask "mode" "a write" else decided Deny "deny" "no deleting")
    (λ n m a, decided Allow "mode" "") [] [] None ShellSplit.ascii_text None None (λ _ _, ([], []))
    (λ _ c _, Approval (negb (String.eqb (tc_Args c) "secret")) no_answer) (λ _, false) (λ _ _, store) "the store is full" (λ _, false)
    NoRedactor (λ s, s) None (λ _ _, false) false false false 0 (λ _ c, MkToolResult (tc_Args c) false false [])
    (λ s, s) (λ _, []) (λ _, None) (λ _, None) (λ _, None) (λ _, false) (λ s, s) None 0.

(** Reads that all start before any ends. *)
Definition together (reads : list nat) : list sched := map Launch reads ++ map Finish reads.

Lemma runs_launched rs : ∀ open ss, runs open (map Launch rs ++ ss) = runs (rev rs ++ open) ss.
Proof. induction rs as [|i rs IH]; intros open ss; cbn; [done|]. by rewrite IH, <- app_assoc. Qed.

Lemma filter_other i rs : i ∉ rs → List.filter (λ j, negb (j =? i)%nat) rs = rs.
Proof.
  induction rs as [|j rs IH]; intros H; [done|]. apply not_elem_of_cons in H as [H1 H2]. cbn.
  destruct (Nat.eqb_spec j i) as [->|]; [done|]. cbn. by rewrite IH.
Qed.

Lemma runs_finished rs : NoDup rs → runs (rev rs) (map Finish rs) = true.
Proof.
  induction 1 as [|i rs Hi Hnd IH]; [done|]. cbn [rev map runs]. rewrite List.filter_app. cbn. rewrite Nat.eqb_refl. cbn.
  rewrite filter_other, app_nil_r, IH, andb_true_r; [|by rewrite list_elem_of_In, <- in_rev, <- list_elem_of_In].
  apply bool_decide_eq_true. apply elem_of_app. right. by left.
Qed.

Lemma together_ok rs : NoDup rs → schedule_ok rs (together rs).
Proof.
  intros Hnd. unfold together. split.
  - unfold launches. rewrite omap_app. transitivity (rs ++ []); [|apply app_nil_r]. clear Hnd. f_equal; by induction rs as [|i rs IH]; cbn; rewrite ?IH.
  - rewrite <- (app_nil_r (map Finish rs)), runs_launched, !app_nil_r. by apply runs_finished.
Qed.

Definition a_turn : list ToolCall :=
  [MkCall "1" "put" "a"; MkCall "2" "read" "b"; MkCall "3" "delete" "c"; MkCall "4" "read" "d"; MkCall "5" "put" "secret"; MkCall "6" "put" "e"].
Definition a_run := runCalls (small_loop true) together "" "" a_turn fresh_loop.

Example a_run_order : ran (trace (snd a_run)) = [MkCall "2" "read" "b"; MkCall "4" "read" "d"; MkCall "1" "put" "a"; MkCall "6" "put" "e"].
Proof. vm_compute. reflexivity. Qed.
Example a_run_answers : map tm_Content (snd (fst (fst a_run))) =
  ["a"; "b"; "Denied: no deleting. Choose a different approach."; "d";
   "This action was not approved (a write)." ++ String "010" "Do not retry this call or a re-worded version of it. Use a different tool, or explain what you need and stop."; "e"]%string.
Proof. vm_compute. reflexivity. Qed.

Lemma changes_run_alone_witness : ∃ e, trace (snd a_run) = trace fresh_loop ++ e ∧ alone (small_loop true) e ∧ balanced e.
Proof. exact (changes_run_alone (small_loop true) together "" "" a_turn fresh_loop together_ok). Defined.
Lemma every_call_answered_witness : ∃ calls' outs, map tc_ID calls' = map tc_ID a_turn ∧ length outs = length a_turn ∧
    fst (fst a_run) = (calls', appendResults (small_loop true) calls' (map Some outs)).
Proof. exact (every_call_answered (small_loop true) together "" "" a_turn fresh_loop together_ok). Defined.
Lemma one_outcome_each_witness :
  let '((c', v), s') := authorizeCall (small_loop true) a_turn 4 (MkCall "5" "put" "secret") fresh_loop in
  ∃ es r, trace s' = trace fresh_loop ++ map Recorded es ∧ tc_ID c' = "5" ∧ about r c' ∧
    match v with
    | Go => ∃ p, a_CallID p = "5" ∧ decisions es = [EvActionRequested r; EvActionApproved p]
    | Stop _ term =>
        (∃ p, a_CallID p = "5" ∧ decisions es = [EvActionRequested r; EvActionDenied p]) ∨
        decisions es = [EvActionRequested r] ∧ term = TermHandedOver ∧ is_subagent (small_loop true) = false
    end.
Proof. exact (one_outcome_each (small_loop true) a_turn 4 (MkCall "5" "put" "secret") fresh_loop (λ _ _, eq_refl)). Defined.
