(* ===== verification/SessionRecord.v ===== *)
(** A session's record (src/internal/agent/event.go): its events, the in-memory
    store that holds them, and the recorder that numbers them.

    An event's payload is what reading it as its type gives; [None] is a payload
    that does not read so, which every reader of the record passes over. *)

From Stdlib Require Import ZArith Ascii String Lia.
From stdpp Require Import base tactics list option gmap strings.
From S2P Require Import Prelude.
From S2P Require Import GoStd.

#[local] Open Scope Z_scope.

(** ** Events *)

Inductive Actor : Set := ActorUser | ActorAgent | ActorSystem | ActorTool.

#[export] Instance Actor_eq_dec : EqDecision Actor.
Proof. solve_decision. Defined.

Record action : Type := MkAction { ac_CallID : string; ac_Tool : string; ac_Args : string; ac_Via : string }.
Record observation : Type := MkObservation {
  ob_CallID : string; ob_Tool : string; ob_Content : string; ob_IsError : bool; ob_OutcomeUnknown : bool
}.
Record notice : Type := MkNotice { nt_TaskID : string; nt_CallID : string; nt_Content : string }.
Record session_end : Type := MkEnd {
  en_Reason : string; en_Turns : Z; en_TokensIn : Z; en_TokensOut : Z; en_Background : Z;
  en_Settled : bool; en_Suggesting : bool; en_Recovered : bool
}.
(** What a spawn, a move to the background and a return say of a child. *)
Record child_note : Type := MkChild {
  ch_Background : bool; ch_TaskID : string; ch_Session : string; ch_TokensIn : Z; ch_TokensOut : Z;
  ch_Reason : string; ch_EndSeq : option Z
}.
Record checkpoint_saved : Type := MkSaved { sv_Path : string; sv_SHA256 : string; sv_Turn : Z; sv_Mode : Z; sv_Skipped : string }.
Record file_restored : Type := MkRestored { rs_Path : string; rs_Before : string; rs_After : string; rs_Checkpoint : string }.

Inductive body : Type :=
  | UserMessage (text : option string)
  | AgentMessage (text : option string)
  | Requested (a : option action)
  | Approved (callID : option string)
  | Denied (d : option (string * string))               (* the call, and why *)
  | Observed (o : option observation)
  | ModelCalled (suggestion : bool)
  | Judged (revision : option string)                    (* answer.verdict *)
  | Noticed (n : option notice)
  | Forked (through : option Z)
  | SessionEnded (e : option session_end)
  | SessionWoken
  | Spawned (c : option child_note)
  | Backgrounded (c : option child_note)
  | Returned (c : option child_note)
  | Checkpointed (c : option checkpoint_saved)
  | Restored (r : option file_restored)
  | SessionStarted (through : option Z)
  | SessionResumed (through : option Z)
  | Fragment                                             (* a delta of the reply or the reasoning *)
  | Named
  | OtherEvent (type : string).

Record event : Type := MkEvent {
  ev_ID : string; ev_Session : string; ev_Parent : string; ev_Seq : Z; ev_Actor : Actor; ev_At : Z; ev_Body : body
}.

(** ** The in-memory store *)

Abbreviation MemStore := (gmap string (list event)).

Definition session_events (m : MemStore) (id : string) : list event := default [] (m !! id).

(** The event a store holds at a step, looked for from the end while the steps
    are not below it. *)
Fixpoint held_at (seq : Z) (newest_first : list event) : option event :=
  match newest_first with
  | [] => None
  | h :: rest => if ev_Seq h <? seq then None else if ev_Seq h =? seq then Some h else held_at seq rest
  end.

(** [Append]: whether the store took the event, and not [ErrStepTaken]. *)
Definition Append (e : event) (m : MemStore) : bool * MemStore :=
  let held := session_events m (ev_Session e) in
  match (if 0 <? ev_Seq e then held_at (ev_Seq e) (reverse held) else None) with
  | Some h => (String.eqb (ev_ID h) (ev_ID e), m)
  | None => (true, <[ev_Session e := held ++ [e]]> m)
  end.

(** [Since] and [LastAt]. *)
Definition Since (m : MemStore) (id : string) (seq : Z) : list event :=
  List.filter (λ e, seq <? ev_Seq e) (session_events m id).
Definition Conversational (e : event) : bool :=
  match ev_Body e with
  | UserMessage _ | AgentMessage _ => true
  | Requested _ => bool_decide (ev_Actor e = ActorAgent)
  | _ => false
  end.
Definition LastAt (m : MemStore) (id : string) : option Z :=
  ev_At <$> find_first Conversational (reverse (session_events m id)).

(** ** The recorder *)

Record Recorder : Type := MkRecorder {
  rc_session : string; rc_parent : string; rc_root : string; rc_seq : Z; rc_appended : Z; rc_endSealed : bool
}.
Definition NewRecorder (session parent : string) : Recorder := MkRecorder session parent "" 0 0 false.

Definition Root (r : Recorder) : string :=
  if negb (String.eqb (rc_root r) "") then rc_root r
  else if negb (String.eqb (rc_parent r) "") then rc_parent r else rc_session r.

Definition SealEnd (r : Recorder) : Recorder :=
  MkRecorder (rc_session r) (rc_parent r) (rc_root r) (rc_seq r) (rc_appended r) true.

Definition Advance (seq : Z) (r : Recorder) : Recorder :=
  MkRecorder (rc_session r) (rc_parent r) (rc_root r) (Z.max (rc_seq r) seq) (Z.max (rc_appended r) seq) (rc_endSealed r).

(** What came of a record: nothing was to be written, the gate refused, or the
    event and whether the store took it. *)
Inductive recorded : Type := Sealed | Gated | Wrote (e : event) (ok : bool).

Definition is_end (b : body) : bool := match b with SessionEnded _ => true | _ => false end.

(** [Recorder.Record], of a payload already redacted: [gate] is what the gate
    answered, [id] and [at_] the new event's id and time. The lock it holds from
    taking a number to the store's answer makes it one step. *)
Definition Record (gate : bool) (id : string) (at_ : Z) (actor : Actor) (b : body) (r : Recorder) (m : MemStore)
    : recorded * Recorder * MemStore :=
  if negb gate then (Gated, r, m)
  else if is_end b && rc_endSealed r then (Sealed, r, m)
  else
    let seq := wrap64 (rc_seq r + 1) in
    let e := MkEvent id (rc_session r) (rc_parent r) seq actor at_ b in
    let '(ok, m) := Append e m in
    let appended := if ok && (rc_appended r <? seq) then seq else rc_appended r in
    (Wrote e ok, MkRecorder (rc_session r) (rc_parent r) (rc_root r) seq appended (rc_endSealed r), m).

(** * Theorems

    What the store and the recorders of a session promise together: steps numbered from one without a gap, each taken once,
    however many writers continue the same session. *)

(** ** Steps without a gap *)

Definition gapless (es : list event) : Prop := ∀ i e, es !! i = Some e → ev_Seq e = Z.of_nat i + 1.

Lemma gapless_snoc es e : gapless es → ev_Seq e = Z.of_nat (length es) + 1 → gapless (es ++ [e]).
Proof.
  intros H He i x. rewrite lookup_app_Some. intros [Hx|[Hi Hx]]; [by apply H|].
  apply list_lookup_singleton_Some in Hx as [Hi' <-]. rewrite He. lia.
Qed.

Lemma gapless_app_l es es' : gapless (es ++ es') → gapless es.
Proof. intros H i e He. apply H. by apply lookup_app_l_Some. Qed.

(** The search from the end finds the step it is asked for. *)
Lemma held_at_spec es seq : gapless es → 0 < seq →
  held_at seq (reverse es) = if decide (seq <= Z.of_nat (length es)) then es !! Z.to_nat (seq - 1) else None.
Proof.
  induction es as [|e es IH] using rev_ind; intros Hg Hs.
  - cbn. destruct (decide _); [|done]. by rewrite lookup_nil.
  - rewrite reverse_snoc, length_app. cbn [held_at length].
    assert (He : ev_Seq e = Z.of_nat (length es) + 1) by (apply (Hg (length es)); by apply list_lookup_middle).
    destruct (Z.ltb_spec (ev_Seq e) seq) as [H|H]; [by rewrite decide_False by lia|].
    destruct (Z.eqb_spec (ev_Seq e) seq) as [<-|Hne].
    + rewrite decide_True by lia. symmetry. apply list_lookup_middle. lia.
    + rewrite IH by first [done|by eapply gapless_app_l]. rewrite decide_True by lia. rewrite decide_True by lia.
      symmetry. apply lookup_app_l. lia.
Qed.

(** A recorder at or past the record's last step writes the next one. *)
Definition behind (seq : Z) (es : list event) : Prop := Forall (λ e, ev_Seq e <= seq) es.

Lemma held_at_ahead es seq : behind (seq - 1) es → held_at seq (reverse es) = None.
Proof.
  intros H. destruct es as [|e es _] using rev_ind; [done|]. rewrite reverse_snoc. cbn. apply Forall_app in H as [_ H].
  apply Forall_inv in H. destruct (Z.ltb_spec (ev_Seq e) seq); [done|lia].
Qed.

Lemma record_next id at_ actor b r m : let es := session_events m (rc_session r) in
  behind (rc_seq r) es → 0 <= rc_seq r < int64_max → is_end b && rc_endSealed r = false →
  let e := MkEvent id (rc_session r) (rc_parent r) (rc_seq r + 1) actor at_ b in
  ∃ r', SessionRecord.Record true id at_ actor b r m = (Wrote e true, r', <[rc_session r := es ++ [e]]> m) ∧
    rc_session r' = rc_session r ∧ rc_parent r' = rc_parent r ∧ rc_seq r' = rc_seq r + 1 ∧ rc_endSealed r' = rc_endSealed r.
Proof.
  intros es Hb Hr He e. unfold SessionRecord.Record. cbn [negb]. rewrite He.
  rewrite wrap64_succ by done. fold e. unfold Append. cbn [ev_Seq ev_Session e]. fold es. destruct (Z.ltb_spec 0 (rc_seq r + 1)); [|lia].
  rewrite held_at_ahead by (by replace (rc_seq r + 1 - 1) with (rc_seq r) by lia). by eexists.
Qed.

(** ** Writers of one session

    Writers are recorders of the session [sid], in one process or several. Each
    records, or is advanced past the first [j] events it read of the record. *)
Inductive writer_op : Type :=
  | WRecord (k : nat) (gate : bool) (id : string) (at_ : Z) (actor : Actor) (b : body)
  | WAdvance (k j : nat)
  | WSeal (k : nat)
  | WJoin (parent : string).

(** The writers, the store, and what each record came to. *)
Record writing : Type := MkWriting { wr_recs : list Recorder; wr_store : MemStore; wr_said : list (event * bool) }.

Definition write_step (sid : string) (w : writing) (o : writer_op) : writing :=
  match o with
  | WJoin parent => MkWriting (wr_recs w ++ [NewRecorder sid parent]) (wr_store w) (wr_said w)
  | WSeal k => MkWriting (alter SealEnd k (wr_recs w)) (wr_store w) (wr_said w)
  | WAdvance k j =>
      match session_events (wr_store w) sid !! j with
      | Some e => MkWriting (alter (Advance (ev_Seq e)) k (wr_recs w)) (wr_store w) (wr_said w)
      | None => w
      end
  | WRecord k gate id at_ actor b =>
      match wr_recs w !! k with
      | None => w
      | Some r =>
          let '(out, r, m) := SessionRecord.Record gate id at_ actor b r (wr_store w) in
          MkWriting (<[k := r]> (wr_recs w)) m
            (match out with Wrote e ok => wr_said w ++ [(e, ok)] | _ => wr_said w end)
      end
  end.
Definition writes_after (sid : string) (m : MemStore) (ops : list writer_op) : writing :=
  foldl (write_step sid) (MkWriting [] m []) ops.

Section writers.
Context (sid : string).

(** What holds between steps: [n] more steps fit. *)
Record wf_writing (old : list event) (n : nat) (w : writing) : Prop := {
  ww_gapless : gapless (session_events (wr_store w) sid);
  ww_old : old `prefix_of` session_events (wr_store w) sid;
  ww_room : Z.of_nat (length (session_events (wr_store w) sid)) + Z.of_nat n < int64_max;
  ww_recs : Forall (λ r, rc_session r = sid ∧ 0 <= rc_seq r <= Z.of_nat (length (session_events (wr_store w) sid)) ∧
              rc_appended r <= rc_seq r) (wr_recs w);
  ww_said : Forall (λ x, ∃ h, session_events (wr_store w) sid !! Z.to_nat (ev_Seq (fst x) - 1) = Some h ∧
              ev_Seq h = ev_Seq (fst x) ∧ snd x = String.eqb (ev_ID h) (ev_ID (fst x))) (wr_said w)
}.

Lemma session_events_insert m es : session_events (<[sid := es]> m) sid = es.
Proof. unfold session_events. by rewrite lookup_insert_eq. Qed.

(** One append at most a step past the end of the record. *)
Lemma append_next e m : let held := session_events m sid in
  gapless held → ev_Session e = sid → 1 <= ev_Seq e <= Z.of_nat (length held) + 1 →
  let '(ok, m') := Append e m in
  ∃ h, session_events m' sid !! Z.to_nat (ev_Seq e - 1) = Some h ∧ ev_Seq h = ev_Seq e ∧ ok = String.eqb (ev_ID h) (ev_ID e) ∧
    (session_events m' sid = held ∨ session_events m' sid = held ++ [e] ∧ ev_Seq e = Z.of_nat (length held) + 1).
Proof.
  cbv zeta. intros Hg Hs Hr. unfold Append. rewrite Hs. destruct (Z.ltb_spec 0 (ev_Seq e)); [|lia].
  rewrite held_at_spec by done. destruct (decide _) as [Hle|Hgt].
  - destruct (lookup_lt_is_Some_2 (session_events m sid) (Z.to_nat (ev_Seq e - 1))) as [h Hh]; [lia|].
    rewrite Hh. exists h. split_and!; [done|rewrite (Hg _ _ Hh); lia|done|by left].
  - rewrite session_events_insert. exists e. split_and!; [|done|by rewrite String.eqb_refl|right; split; [done|lia]].
    apply list_lookup_middle. lia.
Qed.

Lemma wf_mono old n es es' w m : gapless es' → es `prefix_of` es' → Z.of_nat (length es') + Z.of_nat n < int64_max →
  session_events (wr_store w) sid = es → session_events m sid = es' →
  wf_writing old (S n) w → wf_writing old n (MkWriting (wr_recs w) m (wr_said w)).
Proof.
  intros Hg Hp Hroom <- <- [H1 H2 H3 H4 H5]. split; cbn; try done.
  - by etrans.
  - apply prefix_length in Hp. eapply Forall_impl; [exact H4|]. intros r (A & B & C). split_and!; done || lia.
  - eapply Forall_impl; [exact H5|]. cbn. intros x (h & Hh & E). exists h. split; [|done]. by eapply prefix_lookup_Some.
Qed.

Lemma write_step_wf old n w o : wf_writing old (S n) w → wf_writing old n (write_step sid w o).
Proof.
  intros Hw. pose proof Hw as [H1 H2 H3 H4 H5]. set (es := session_events (wr_store w) sid) in *.
  destruct o as [k gate id at_ actor b|k j|k|parent]; cbn [write_step].
  - destruct (wr_recs w !! k) as [r|] eqn:Ek; [|by split; try done; fold es; lia].
    pose proof (Forall_lookup_1 _ _ _ _ H4 Ek) as (Hsid & Hseq & Happ).
    unfold SessionRecord.Record. destruct gate; cbn [negb]; [|split; cbn; fold es; try done; [lia|by rewrite list_insert_id]].
    destruct (is_end b && rc_endSealed r); [split; cbn; fold es; try done; [lia|by rewrite list_insert_id]|].
    rewrite wrap64_succ by lia. set (e := MkEvent id (rc_session r) (rc_parent r) (rc_seq r + 1) actor at_ b).
    pose proof (append_next e (wr_store w)) as Ha. cbv zeta in Ha. fold es in Ha.
    specialize (Ha H1 Hsid ltac:(cbn; lia)). destruct (Append e (wr_store w)) as [ok m]. destruct Ha as (h & Hh & Es & -> & Hm).
    assert (Hp : es `prefix_of` session_events m sid) by (destruct Hm as [->|[-> _]]; [done|by apply prefix_app_r]).
    assert (Hlen : Z.of_nat (length es) <= Z.of_nat (length (session_events m sid)) <= Z.of_nat (length es) + 1)
      by (destruct Hm as [->|[-> _]]; rewrite ?length_app; cbn; lia).
    assert (Hge : rc_seq r + 1 <= Z.of_nat (length (session_events m sid))) by (apply lookup_lt_Some in Hh; cbn in Hh; lia).
    assert (Hg : gapless (session_events m sid)) by (destruct Hm as [->|[-> E]]; [done|by apply gapless_snoc]).
    destruct (wf_mono old n es (session_events m sid) w m Hg Hp ltac:(lia) eq_refl eq_refl Hw) as [G1 G2 G3 G4 G5]. cbn in *.
    split; cbn; try done.
    + apply Forall_insert; [done|]. cbn. destruct (_ && _); split_and!; done || lia.
    + apply Forall_app_2; [done|]. apply Forall_singleton. by exists h.
  - fold es. destruct (es !! j) as [e|] eqn:Ej; [|by split; try done; fold es; lia].
    split; cbn; fold es; try done; [lia|]. apply Forall_alter; [done|]. intros r Hr (Hs & Hq & Ha).
    apply lookup_lt_Some in Ej as Hj. rewrite (H1 _ _ Ej). cbn. split_and!; done || lia.
  - split; cbn; fold es; try done; [lia|]. apply Forall_alter; [done|]. by intros r Hr.
  - split; cbn; fold es; try done; [lia|]. apply Forall_app_2; [done|]. apply Forall_singleton. cbn. split_and!; done || lia.
Qed.
End writers.

(** C18: However many writers continue a session, in whatever order they read,
    number and write, and whichever of them fall behind: the record keeps every
    event it had, in place; its steps are 1, 2, 3 and on without a gap, each one
    event; and a writer is told its event was taken exactly when the event at that
    step is the one with its id. *)
Theorem record_gapless sid m ops :
  gapless (session_events m sid) → Z.of_nat (length (session_events m sid)) + Z.of_nat (length ops) < int64_max →
  let w := writes_after sid m ops in
  gapless (session_events (wr_store w) sid) ∧
  session_events m sid `prefix_of` session_events (wr_store w) sid ∧
  Forall (λ x, ∃ h, session_events (wr_store w) sid !! Z.to_nat (ev_Seq (fst x) - 1) = Some h ∧
              ev_Seq h = ev_Seq (fst x) ∧ snd x = String.eqb (ev_ID h) (ev_ID (fst x))) (wr_said w).
Proof.
  intros Hg Hroom. cbv zeta. assert (H : ∀ w, wf_writing sid (session_events m sid) (length ops) w →
    wf_writing sid (session_events m sid) 0 (foldl (write_step sid) w ops)).
  { clear Hg Hroom. induction ops as [|o ops IH]; intros w Hw; [done|]. cbn. apply IH. by apply write_step_wf. }
  destruct (H (MkWriting [] m [])) as [H1 H2 H3 H4 H5]; [|done]. split; cbn; done || lia.
Qed.

(** Two writers continue one session; the second has not seen the first's event. *)
Definition race : list writer_op :=
  [WJoin ""; WJoin ""; WRecord 0 true "a" 1 ActorUser (UserMessage (Some "hello"%string));
   WRecord 1 true "b" 2 ActorAgent (AgentMessage (Some "hi"%string)); WAdvance 1 0; WRecord 1 true "c" 3 ActorSystem SessionWoken].

Lemma record_gapless_witness :
  let w := writes_after "s" ∅ race in
  map (λ x, (ev_ID (fst x), ev_Seq (fst x), snd x)) (wr_said w) = [("a", 1, true); ("b", 1, false); ("c", 2, true)]%string ∧
  gapless (session_events (wr_store w) "s").
Proof.
  cbv zeta. split; [vm_compute; reflexivity|].
  refine (proj1 (record_gapless "s" ∅ race _ _)); [intros i e H; vm_compute in H; destruct i; discriminate H|vm_compute; reflexivity].
Defined.

(** The store looks for a step from the end while steps are not below it, so one
    taken out of order, by a recorder that outlived its session's deletion, hides
    a step held before it, which is then taken twice. *)
Example step_taken_twice :
  let ev id seq := MkEvent id "s" "" seq ActorAgent 0 SessionWoken in
  let m := foldl (λ m e, snd (Append e m)) ∅ [ev "a" 2; ev "b" 1]%string in
  fst (Append (ev "c"%string 2) m) = true.
Proof. vm_compute. reflexivity. Qed.
