(* ===== verification/Transcript.v ===== *)
(** The conversation a session's record holds (src/internal/agent/fork.go,
    rewind.go, recover.go, handover.go): the record as it stands after forks, the
    messages rebuilt from it, the calls a stopped run left open, and what a branch
    of a session copies. *)

From Stdlib Require Import ZArith Ascii String Lia.
From stdpp Require Import base tactics list option gmap strings sorting.
From S2P Require Import Prelude.
From S2P Require Import GoStd.
From S2P Require Import Errors.
From S2P Require Import ShellSplit.
From S2P Require Import Args.
From S2P Require Import AgentTools.
From S2P Require Import SessionRecord.

#[local] Open Scope string_scope.
#[local] Open Scope Z_scope.
#[local] Open Scope list_scope.

(** ** Messages *)

Inductive Role : Set := RoleUser | RoleAssistant | RoleTool.
#[export] Instance Role_eq_dec : EqDecision Role.
Proof. solve_decision. Defined.

Record message : Type := MkMsg {
  m_Role : Role; m_Content : string; m_ToolCalls : list ToolCall; m_ToolCallID : string; m_IsError : bool
}.
Definition user_message (text : string) : message := MkMsg RoleUser text [] "" false.
Definition assistant_message (text : string) (calls : list ToolCall) : message := MkMsg RoleAssistant text calls "" false.
Definition tool_message (id text : string) (isError : bool) : message := MkMsg RoleTool text [] id isError.

Definition is_tool (m : message) : bool := bool_decide (m_Role m = RoleTool).

(** ** The record as it stands *)

(** The events up to a step, from the end of what is kept. *)
Fixpoint drop_after (through : Z) (newest_first : list event) : list event :=
  match newest_first with
  | [] => []
  | e :: rest => if through <? ev_Seq e then drop_after through rest else newest_first
  end.

(** [Live]: each fork marker drops the branch it abandoned. *)
Definition live_step (out : list event) (e : event) : list event :=
  match ev_Body e with
  | Forked (Some through) => reverse (drop_after through (reverse out))
  | Forked None => out
  | _ => out ++ [e]
  end.
Definition Live (events : list event) : list event := foldl live_step [] events.

(** [LastEnd], [lastEndSeq] and [lastRunSeq]. *)
Definition ended_body (e : event) : option session_end := match ev_Body e with SessionEnded (Some x) => Some x | _ => None end.
Definition LastEnd (events : list event) : option session_end :=
  match omap ended_body (reverse events) with x :: _ => Some x | [] => None end.
Definition is_ended (e : event) : bool := match ev_Body e with SessionEnded _ => true | _ => false end.
Definition lastEndSeq (events : list event) : Z :=
  match find_first is_ended (reverse events) with Some e => ev_Seq e | None => 0 end.
Definition run_event (e : event) : bool :=
  match ev_Body e with
  | ModelCalled suggestion => negb suggestion
  | UserMessage _ | AgentMessage _ | Requested _ | Observed _ | SessionWoken => true
  | _ => false
  end.
Definition lastRunSeq (events : list event) : Z :=
  match find_first run_event (reverse events) with Some e => ev_Seq e | None => 0 end.

Section rebuild.
(** The tokens of a call's arguments. *)
Context (tx : Text) (lex : string → RawMessage).

(** [objectOr]. *)
Definition objectOr (args : string) : string :=
  match DecodeArgs tx (lex args) with
  | Some (Ok _) => if String.eqb (TrimSpace args) "" || String.eqb (TrimSpace args) "null" then "{}" else args
  | _ => "{}"
  end.

Definition noticeMessages (n : notice) : list message :=
  [assistant_message "" [MkCall (nt_CallID n) "task_status" (Marshal true (JObj [("task_id", JStr (nt_TaskID n))]))];
   tool_message (nt_CallID n) (nt_Content n) false].

(** ** The messages of a record *)

(** A rebuild under way: the messages, whether the last of them is the assistant
    turn that calls are added to, the calls without a result, and why calls
    were refused. *)
Record rebuilt : Type := MkRebuilt {
  rb_msgs : list message; rb_open : bool; rb_pending : gmap string ToolCall; rb_denied : gmap string string
}.

Definition say (m : message) (opens : bool) (s : rebuilt) : rebuilt :=
  MkRebuilt (rb_msgs s ++ [m]) opens (rb_pending s) (rb_denied s).

(** A call added to the last message. *)
Fixpoint call_last (c : ToolCall) (msgs : list message) : list message :=
  match msgs with
  | [] => []
  | [m] => [MkMsg (m_Role m) (m_Content m) (m_ToolCalls m ++ [c]) (m_ToolCallID m) (m_IsError m)]
  | m :: msgs => m :: call_last c msgs
  end.

Definition add_call (c : ToolCall) (s : rebuilt) : rebuilt :=
  let s := if rb_open s then s else say (assistant_message "" []) true s in
  MkRebuilt (call_last c (rb_msgs s)) true (<[tc_ID c := c]> (rb_pending s)) (rb_denied s).

Definition call_of (a : action) : ToolCall := MkCall (ac_CallID a) (ac_Tool a) (objectOr (ac_Args a)).

Definition rebuild_step (s : rebuilt) (e : event) : rebuilt :=
  match ev_Body e with
  | UserMessage (Some text) => say (user_message text) false s
  | AgentMessage (Some text) => say (assistant_message text []) true s
  | Requested (Some a) =>
      if bool_decide (ev_Actor e = ActorUser) then s
      else if negb (String.eqb (ac_Via a) "") then s else add_call (call_of a) s
  | Denied (Some (id, why)) => MkRebuilt (rb_msgs s) (rb_open s) (delete id (rb_pending s)) (<[id := why]> (rb_denied s))
  | ModelCalled _ => MkRebuilt (rb_msgs s) false (rb_pending s) (rb_denied s)
  | Judged (Some revision) => if String.eqb revision "" then s else say (user_message revision) false s
  | Noticed (Some n) =>
      if String.eqb (nt_CallID n) "" then s
      else MkRebuilt (rb_msgs s ++ noticeMessages n) false (rb_pending s) (rb_denied s)
  | Observed (Some o) =>
      match rb_pending s !! ob_CallID o with
      | None => s
      | Some _ => MkRebuilt (rb_msgs s ++ [tool_message (ob_CallID o) (ob_Content o) (ob_IsError o)]) false
                    (delete (ob_CallID o) (rb_pending s)) (rb_denied s)
      end
  | _ => s
  end.

(** The calls answered past the cut. *)
Definition past (through : Z) (e : event) : bool := (0 <? through) && (through <? ev_Seq e).
Definition answer_of (e : event) : option string :=
  match ev_Body e with
  | Observed (Some o) => Some (ob_CallID o)
  | Denied (Some (id, _)) => Some id
  | _ => None
  end.
Definition answeredLater (through : Z) (events : list event) : gset string :=
  list_to_set (omap answer_of (List.filter (past through) events)).

(** The events before the first past the cut. *)
Fixpoint up_to (through : Z) (events : list event) : list event :=
  match events with
  | [] => []
  | e :: rest => if past through e then [] else e :: up_to through rest
  end.

(** [truncateAt], of the ids whose turn is dropped. *)
Fixpoint truncateAt (cut : gset string) (msgs : list message) : list message :=
  match msgs with
  | [] => []
  | m :: rest => if existsb (λ c, bool_decide (tc_ID c ∈ cut)) (m_ToolCalls m) then [] else m :: truncateAt cut rest
  end.

(** [answerAll]: the results of a turn's calls, the first of each id taken once. *)
Definition lost_text : string := "No result was recorded; it may have run.".
Definition denied_text (why : string) : string := "Not run: denied — " ++ why.
Fixpoint answers (denied : gmap string string) (results : gmap string message) (calls : list ToolCall) : list message :=
  match calls with
  | [] => []
  | c :: calls =>
      match results !! tc_ID c with
      | Some r => r :: answers denied (delete (tc_ID c) results) calls
      | None =>
          let text := match denied !! tc_ID c with Some why => denied_text why | None => lost_text end in
          tool_message (tc_ID c) text true :: answers denied results calls
      end
  end.
Fixpoint tools_ahead (msgs : list message) : list message :=
  match msgs with m :: rest => if is_tool m then m :: tools_ahead rest else [] | [] => [] end.
Definition first_results (msgs : list message) : gmap string message :=
  foldr (λ m res, <[m_ToolCallID m := m]> res) ∅ msgs.

(** A turn's own results are passed over with every other result. *)
Fixpoint answerAll (denied : gmap string string) (msgs : list message) : list message :=
  match msgs with
  | [] => []
  | m :: rest =>
      if is_tool m then answerAll denied rest
      else if negb (bool_decide (m_Role m = RoleAssistant)) || match m_ToolCalls m with [] => true | _ => false end
           then m :: answerAll denied rest
           else m :: answers denied (first_results (tools_ahead rest)) (m_ToolCalls m) ++ answerAll denied rest
  end.

(** [Fork]. *)
Definition rebuild_all (events : list event) : rebuilt := foldl rebuild_step (MkRebuilt [] false ∅ ∅) events.
Definition Fork (events : list event) (through : Z) : option (list message) :=
  let events := Live events in
  let s := rebuild_all (up_to through events) in
  let cut := answeredLater through events ∩ dom (rb_pending s) in
  match answerAll (rb_denied s) (truncateAt cut (rb_msgs s)) with
  | [] => None
  | msgs => Some msgs
  end.

(** [forkPoint] and [CheckForkPoint]: whether a step is one to fork at. *)
Definition forkPoint (live : list event) (seq : Z) : option (list message) :=
  if existsb (λ e, ev_Seq e =? seq) live then Fork live seq else None.
Definition CheckForkPoint (events : list event) (seq : Z) : bool :=
  if seq <=? 0 then true else opt_some (forkPoint (Live events) seq).

(** [RewindPoints], and the step [ForkBefore] forks through: the last before the
    prompt, and whether the model saw anything by then. *)
Definition RewindPoints (events : list event) : list (Z * string) :=
  omap (λ e, match ev_Body e with UserMessage (Some t) => Some (ev_Seq e, t) | _ => None end) (Live events).
Definition model_saw (e : event) : bool :=
  match ev_Body e with UserMessage _ | AgentMessage _ | Observed _ | Noticed _ => true | _ => false end.
Fixpoint before_prompt (seq : Z) (live : list event) : list event :=
  match live with
  | [] => []
  | e :: rest => if seq <=? ev_Seq e then [] else e :: before_prompt seq rest
  end.
Definition ForkBefore (events : list event) (seq : Z) : option Z :=
  let kept := before_prompt seq (Live events) in
  if existsb model_saw kept then Some (match last kept with Some e => ev_Seq e | None => 0 end) else None.

(** ** The calls left open *)

Record OpenCall : Type := MkOpen { oc_Request : event; oc_Call : ToolCall; oc_Approved : bool }.
Record OpenTurn : Type := MkOpenTurn { ot_ThroughSeq : Z; ot_Calls : list OpenCall; ot_Others : list OpenCall }.

(** A run read for its calls: every call asked, where each id was last asked, and
    those settled. *)
Record in_flight : Type := MkInFlight { if_all : list OpenCall; if_others : gmap string bool; if_byID : gmap string nat; if_settled : gset string }.

Definition set_approved (o : OpenCall) : OpenCall := MkOpen (oc_Request o) (oc_Call o) true.
Definition settle_id (id : string) (s : in_flight) : in_flight :=
  match if_byID s !! id with
  | None => s
  | Some _ => MkInFlight (if_all s) (if_others s) (if_byID s) ({[id]} ∪ if_settled s)
  end.

Definition flight_step (s : in_flight) (e : event) : in_flight :=
  match ev_Body e with
  | Requested (Some a) =>
      let other := bool_decide (ev_Actor e = ActorUser) || negb (String.eqb (ac_Via a) "") in
      MkInFlight (if_all s ++ [MkOpen e (call_of a) false]) (<[ac_CallID a := other]> (if_others s))
        (<[ac_CallID a := length (if_all s)]> (if_byID s)) (if_settled s)
  | Approved (Some id) =>
      match if_byID s !! id with
      | Some i => MkInFlight (alter set_approved i (if_all s)) (if_others s) (if_byID s) (if_settled s)
      | None => s
      end
  | Denied (Some (id, _)) => settle_id id s
  | Observed (Some o) => settle_id (ob_CallID o) s
  | _ => s
  end.

Definition run_events (events : list event) : list event := List.filter (λ e, lastEndSeq events <? ev_Seq e) events.

(** [InFlight]. *)
Definition InFlight (events : list event) : option OpenTurn :=
  let events := Live events in
  match last events with
  | None => None
  | Some newest =>
      if lastRunSeq events <=? lastEndSeq events then None
      else
        let s := foldl flight_step (MkInFlight [] ∅ ∅ ∅) (run_events events) in
        let open := List.filter (λ o, negb (bool_decide (tc_ID (oc_Call o) ∈ if_settled s))) (if_all s) in
        let other (o : OpenCall) := default false (if_others s !! tc_ID (oc_Call o)) in
        Some (MkOpenTurn (ev_Seq newest) (List.filter (λ o, negb (other o)) open) (List.filter other open))
  end.
End rebuild.

(** * Theorems

    What a rebuilt conversation promises: every call in it is
    answered, in its turn and in order; and the record as it stands is the record
    less what forks abandoned. *)

(** ** Conversations whose calls are answered *)

Inductive paired : list message → Prop :=
  | paired_nil : paired []
  | paired_said m ms : m_Role m ≠ RoleTool → m_ToolCalls m = [] → paired ms → paired (m :: ms)
  | paired_turn m rs ms : m_Role m = RoleAssistant → map m_ToolCallID rs = map tc_ID (m_ToolCalls m) →
      Forall (λ r, m_Role r = RoleTool) rs → paired ms → paired (m :: rs ++ ms).

(** Only an assistant's message carries calls. *)
Definition shaped (m : message) : Prop := m_Role m = RoleAssistant ∨ m_ToolCalls m = [].

Definition results_wf (results : gmap string message) : Prop :=
  ∀ id r, results !! id = Some r → m_ToolCallID r = id ∧ m_Role r = RoleTool.

Lemma first_results_wf msgs : Forall (λ r, is_tool r = true) msgs → results_wf (first_results msgs).
Proof.
  induction 1 as [|m msgs Hm _ IH]; intros id r H; cbn in H; [by rewrite lookup_empty in H|].
  destruct (decide (m_ToolCallID m = id)) as [<-|Hne].
  - rewrite lookup_insert_eq in H. injection H as <-. by apply bool_decide_eq_true in Hm.
  - rewrite lookup_insert_ne in H by done. by apply IH.
Qed.

Lemma results_wf_delete id results : results_wf results → results_wf (delete id results).
Proof.
  intros H k r Hk. destruct (decide (id = k)) as [->|Hne]; [by rewrite lookup_delete_eq in Hk|].
  rewrite lookup_delete_ne in Hk by done. by apply H.
Qed.

Lemma tools_ahead_tools msgs : Forall (λ r, is_tool r = true) (tools_ahead msgs).
Proof. induction msgs as [|m msgs IH]; cbn; [done|]. destruct (is_tool m) eqn:E; [by constructor|done]. Qed.

Lemma answers_paired denied calls : ∀ results, results_wf results →
  map m_ToolCallID (answers denied results calls) = map tc_ID calls ∧
  Forall (λ r, m_Role r = RoleTool) (answers denied results calls).
Proof.
  induction calls as [|c calls IH]; intros results Hwf; cbn [answers map]; [done|].
  destruct (results !! tc_ID c) as [r|] eqn:E; cbn [map].
  - destruct (Hwf _ _ E) as [Hid Hr]. destruct (IH (delete (tc_ID c) results)) as [H1 H2]; [by apply results_wf_delete|].
    rewrite Hid, H1. by split; [|constructor].
  - destruct (IH results Hwf) as [H1 H2]. rewrite H1. by split; [|constructor].
Qed.

Lemma answerAll_paired denied msgs : Forall shaped msgs → paired (answerAll denied msgs).
Proof.
  induction 1 as [|m msgs Hm _ IH]; cbn [answerAll]; [constructor|]. destruct (is_tool m) eqn:Et; [done|].
  apply bool_decide_eq_false in Et. destruct (bool_decide_reflect (m_Role m = RoleAssistant)) as [Ea|Ea]; cbn [negb orb].
  - destruct (m_ToolCalls m) as [|c calls] eqn:Ec; [by constructor|]. rewrite <- Ec.
    destruct (answers_paired denied (m_ToolCalls m) (first_results (tools_ahead msgs))) as [H1 H2];
      [apply first_results_wf, tools_ahead_tools|]. by apply paired_turn.
  - destruct Hm as [?|Hm]; [done|]. by constructor.
Qed.

Lemma truncateAt_shaped cut msgs : Forall shaped msgs → Forall shaped (truncateAt cut msgs).
Proof. induction 1 as [|m msgs Hm _ IH]; cbn; [done|]. destruct (existsb _ _); [done|by constructor]. Qed.

Lemma truncateAt_none msgs : truncateAt ∅ msgs = msgs.
Proof.
  assert (H : ∀ calls : list ToolCall, existsb (λ c, bool_decide (tc_ID c ∈ (∅ : gset string))) calls = false).
  { intros calls. apply not_true_iff_false. rewrite existsb_exists. intros (c & _ & Hc). apply bool_decide_eq_true in Hc. set_solver. }
  induction msgs as [|m msgs IH]; [done|]. cbn [truncateAt]. by rewrite H, IH.
Qed.

Section rebuild.
Context (tx : Text) (lex : string → RawMessage).

(** What holds while the messages are rebuilt: calls are an assistant's, and the
    turn they are added to is the last message. *)
Definition rebuild_wf (s : rebuilt) : Prop :=
  Forall shaped (rb_msgs s) ∧ (rb_open s = true → ∃ ms m, rb_msgs s = ms ++ [m] ∧ m_Role m = RoleAssistant).

Lemma call_last_snoc c ms m : call_last c (ms ++ [m]) =
  ms ++ [MkMsg (m_Role m) (m_Content m) (m_ToolCalls m ++ [c]) (m_ToolCallID m) (m_IsError m)].
Proof. induction ms as [|x ms IH]; [done|]. cbn. rewrite IH. by destruct ms. Qed.

Lemma rebuild_step_wf s e : rebuild_wf s → rebuild_wf (rebuild_step tx lex s e).
Proof.
  intros [Hs Ho]. unfold rebuild_step, say.
  assert (Hclosed : ∀ ms, Forall shaped ms → ∀ p d, rebuild_wf (MkRebuilt ms false p d)) by done.
  destruct (ev_Body e) as [[t|]|[t|]|[a|]|c|[[id why]|]|[o|]|sg|[rev|]|[n|]|t|x| |c|c|c|c|r|t|t| | |t]; try done.
  - apply Hclosed, Forall_app_2; [done|]. apply Forall_singleton. by right.
  - split; cbn; [apply Forall_app_2; [done|]; apply Forall_singleton; by left|]. intros _. by eexists _, _.
  - destruct (bool_decide _); [done|]. destruct (negb _); [done|].
    assert (H : ∃ ms m, rb_msgs (if rb_open s then s else say (assistant_message "" []) true s) = ms ++ [m] ∧ m_Role m = RoleAssistant ∧ Forall shaped ms).
    { destruct (rb_open s) eqn:E; [|cbn; by eexists _, _]. destruct (Ho eq_refl) as (ms & m & Em & Hm). exists ms, m. split_and!; [done|done|].
      rewrite Em in Hs. by apply Forall_app in Hs as [? _]. }
    destruct H as (ms & m & Em & Hm & Hms). unfold add_call. split; cbn [rb_msgs rb_open]; rewrite Em, call_last_snoc.
    + apply Forall_app_2; [done|]. apply Forall_singleton. by left.
    + intros _. by eexists _, _.
  - destruct (rb_pending s !! _); [|done]. apply Hclosed, Forall_app_2; [done|]. apply Forall_singleton. by right.
  - destruct (String.eqb _ _); [done|]. apply Hclosed, Forall_app_2; [done|]. apply Forall_singleton. by right.
  - destruct (String.eqb _ _); [done|]. apply Hclosed, Forall_app_2; [done|]. apply Forall_cons_2; [by left|]. apply Forall_singleton. by right.
Qed.

Lemma rebuild_all_wf events : rebuild_wf (rebuild_all tx lex events).
Proof.
  unfold rebuild_all. assert (H : ∀ s, rebuild_wf s → rebuild_wf (foldl (rebuild_step tx lex) s events)).
  { induction events as [|e events IH]; intros s Hs; [done|]. cbn. by apply IH, rebuild_step_wf. }
  by apply H.
Qed.

(** Whatever a record holds and wherever it is cut, a conversation rebuilt from it
    can be sent to a model: each turn's calls are followed by their answers, one
    each and in call order, and no answer stands anywhere else. *)
Theorem Fork_paired events through msgs : Fork tx lex events through = Some msgs → paired msgs ∧ msgs ≠ [].
Proof.
  unfold Fork. set (s := rebuild_all _ _ _). destruct (answerAll _ _) as [|m ms] eqn:E; [done|]. intros [= <-]. split; [|done].
  rewrite <- E. apply answerAll_paired, truncateAt_shaped. apply (rebuild_all_wf).
Qed.
End rebuild.

(** ** The record as it stands *)

Definition marker (e : event) : option Z := match ev_Body e with Forked (Some t) => Some t | _ => None end.
Definition is_forked (e : event) : bool := match ev_Body e with Forked _ => true | _ => false end.

(** An event stands when no later fork goes on from a step before it. *)
Definition outlives (later : list event) (e : event) : bool := forallb (λ t, ev_Seq e <=? t) (omap marker later).
Fixpoint stands (events : list event) : list event :=
  match events with
  | [] => []
  | e :: later => if negb (is_forked e) && outlives later e then e :: stands later else stands later
  end.

Definition in_order (events : list event) : Prop := StronglySorted Z.lt (map ev_Seq events).

Lemma in_order_app a b : in_order (a ++ b) ↔ in_order a ∧ in_order b ∧ ∀ x y, x ∈ a → y ∈ b → ev_Seq x < ev_Seq y.
Proof.
  unfold in_order. rewrite map_app. split.
  - intros H. split_and!; [by eapply StronglySorted_app_1_l|by eapply StronglySorted_app_1_r|]. intros x y Hx Hy.
    eapply StronglySorted_app_1_elem_of; [exact H| |]; by apply list_elem_of_fmap_2.
  - intros (Ha & Hb & H). apply StronglySorted_app_2; [|done|done]. intros x y Hx Hy. apply list_elem_of_fmap in Hx as (e & -> & He).
    apply list_elem_of_fmap in Hy as (f & -> & Hf). by apply H.
Qed.

Lemma in_order_sublist a b : a `sublist_of` b → in_order b → in_order a.
Proof.
  unfold in_order. induction 1 as [|x a b Hs IH|x a b Hs IH]; intros H; [done| |].
  - apply StronglySorted_inv in H as [H Hx]. constructor; [by apply IH|]. rewrite Forall_forall in Hx |- *. intros y Hy. apply Hx.
    apply list_elem_of_fmap in Hy as (e & -> & He). apply list_elem_of_fmap_2. by eapply elem_of_sublist.
  - apply StronglySorted_inv in H as [H _]. by apply IH.
Qed.

(** What a fork keeps of steps in order. *)
Lemma drop_after_filter t out : in_order out → reverse (drop_after t (reverse out)) = List.filter (λ e, ev_Seq e <=? t) out.
Proof.
  induction out as [|e out IH] using rev_ind; intros Hs; [done|]. apply in_order_app in Hs as (Hs & _ & Hlt).
  rewrite reverse_snoc, List.filter_app. cbn [drop_after List.filter]. destruct (Z.ltb_spec t (ev_Seq e)) as [H|H].
  - rewrite IH by done. destruct (Z.leb_spec (ev_Seq e) t); [lia|]. by rewrite app_nil_r.
  - destruct (Z.leb_spec (ev_Seq e) t); [|lia]. rewrite reverse_cons, reverse_involutive. f_equal.
    clear IH Hs. induction out as [|x out IH]; [done|]. cbn. pose proof (Hlt x e ltac:(by left) ltac:(by left)).
    destruct (Z.leb_spec (ev_Seq x) t); [|lia]. f_equal. apply IH. intros y z Hy. apply Hlt. by right.
Qed.

Lemma filter_filter {A} (p q : A → bool) l : List.filter p (List.filter q l) = List.filter (λ x, q x && p x) l.
Proof. induction l as [|x l IH]; [done|]. cbn. destruct (q x); cbn; [destruct (p x); by rewrite IH|done]. Qed.

Lemma in_order_filter p l : in_order l → in_order (List.filter p l).
Proof.
  induction l as [|x l IH]; [done|]. intros H. apply (in_order_app [x]) in H as (_ & H & Hlt). specialize (IH H). cbn.
  destruct (p x); [|done]. apply (in_order_app [x]). split_and!; [repeat constructor|done|]. intros a b Ha Hb. apply Hlt; [done|].
  apply list_elem_of_In in Hb. apply List.filter_In in Hb as [Hb _]. by apply list_elem_of_In.
Qed.

(** With no marker a record stands whole. *)
Lemma live_unforked events : forallb (λ e, negb (is_forked e)) events = true → Live events = events.
Proof.
  assert (Hgen : ∀ out, forallb (λ e, negb (is_forked e)) events = true → foldl live_step out events = out ++ events); [|by apply Hgen].
  induction events as [|e events IH]; intros out H; cbn [foldl].
  - by rewrite app_nil_r.
  - cbn in H. apply andb_true_iff in H as [He H]. assert (Hstep : live_step out e = out ++ [e]) by (unfold live_step, is_forked in *; by destruct (ev_Body e)).
    rewrite Hstep, IH by done. by rewrite <- app_assoc.
Qed.

Lemma stands_no_marker events : forallb (λ e, negb (is_forked e)) (stands events) = true.
Proof.
  induction events as [|e events IH]; [done|]. cbn [stands]. destruct (is_forked e) eqn:E; cbn [negb andb]; [done|].
  destruct (outlives events e); [|done]. cbn [forallb]. by rewrite E.
Qed.
Lemma stands_sublist events : stands events `sublist_of` events.
Proof. induction events as [|e events IH]; [constructor|]. cbn. destruct (_ && _); by constructor. Qed.

Lemma live_stands events : ∀ out, in_order (out ++ events) →
  foldl live_step out events = List.filter (outlives events) out ++ stands events.
Proof.
  induction events as [|e events IH]; intros out Hs; cbn [foldl stands].
  { rewrite app_nil_r. symmetry. clear. induction out as [|x out IH]; [done|]. cbn. by rewrite IH. }
  assert (Hsort : ∀ keep, in_order (List.filter keep out ++ events)).
  { intros keep. apply in_order_app in Hs as (Ho & He & Hlt). apply (in_order_app [e]) in He as (_ & He & _).
    apply in_order_app. split_and!; [by apply in_order_filter|done|]. intros x y Hx Hy. apply Hlt; [|by right].
    apply list_elem_of_In in Hx. apply List.filter_In in Hx as [Hx _]. by apply list_elem_of_In. }
  pose proof (proj1 (proj1 (in_order_app _ _) Hs)) as Ho.
  destruct (is_forked e) eqn:Ef; cbn [negb andb].
  - unfold is_forked in Ef. destruct (ev_Body e) as [| | | | | | | | |[t|]| | | | | | | | | | | | ] eqn:Eb; try done.
    + unfold live_step. rewrite Eb, drop_after_filter by done. rewrite IH by apply Hsort. rewrite filter_filter.
      f_equal. apply List.filter_ext. intros x. unfold outlives. cbn. unfold marker at 2. by rewrite Eb.
    + unfold live_step. rewrite Eb. rewrite IH. 2:{ specialize (Hsort (λ _, true)). by rewrite List.filter_true in Hsort. }
      f_equal. apply List.filter_ext. intros x. unfold outlives. cbn. unfold marker at 2. by rewrite Eb.
  - assert (Hm : marker e = None) by (unfold marker, is_forked in *; by destruct (ev_Body e)).
    assert (Hstep : live_step out e = out ++ [e]) by (unfold live_step, is_forked in *; by destruct (ev_Body e)).
    rewrite Hstep, IH by (by rewrite <- app_assoc). rewrite List.filter_app, <- app_assoc. f_equal.
    + apply List.filter_ext. intros x. unfold outlives. cbn. by rewrite Hm.
    + cbn. by destruct (outlives events e).
Qed.

(** [Live] of a record in order, and of what it gives. *)
Lemma live_is_stands events : in_order events → Live events = stands events.
Proof. intros H. unfold Live. by rewrite live_stands. Qed.
Lemma live_in_order events : in_order events → in_order (Live events).
Proof.
  intros H. rewrite live_is_stands by done. eapply in_order_sublist; [apply stands_sublist|done].
Qed.
Lemma live_live events : in_order events → Live (Live events) = Live events.
Proof. intros H. apply live_unforked. rewrite live_is_stands by done. apply stands_no_marker. Qed.

(** The record as it stands is exactly the events no fork abandoned: those with no
    later fork that goes on from a step before theirs. *)
Theorem Live_exact events : in_order events → Live events = stands events.
Proof. apply live_is_stands. Qed.

Lemma stands_unforked events : forallb (λ e, negb (is_forked e)) events = true → stands events = events.
Proof.
  induction events as [|e events IH]; [done|]. cbn. intros H. apply andb_true_iff in H as [-> H]. rewrite IH by done.
  assert (omap marker events = []) as Hm.
  { clear -H. induction events as [|x events IH]; [done|]. cbn in *. apply andb_true_iff in H as [Hx H]. rewrite IH by done.
    unfold marker, is_forked in *. by destruct (ev_Body x). }
  unfold outlives. by rewrite Hm.
Qed.

(** A session gone back on: what was said after step 2 is abandoned, and another
    answer is given. *)
Definition a_gone_back : list event :=
  let ev seq b := MkEvent "" "s" "" seq ActorAgent 0 b in
  [ev 1 (UserMessage (Some "hello")); ev 2 (AgentMessage (Some "hi")); ev 3 (UserMessage (Some "delete it"));
   ev 4 (Requested (Some (MkAction "c" "bash" "{}" ""))); ev 5 (Forked (Some 2));
   ev 6 (Requested (Some (MkAction "d" "read" "{}" "")))].

Lemma Live_exact_witness : map ev_Seq (Live a_gone_back) = [1; 2; 6] ∧ Live a_gone_back = stands a_gone_back.
Proof. split; [reflexivity|]. refine (Live_exact a_gone_back _). unfold in_order. cbn. repeat constructor. Defined.

Lemma Fork_paired_witness : ∃ msgs, length msgs = 3%nat ∧ paired msgs ∧ msgs ≠ [].
Proof.
  eexists. split; [|refine (Fork_paired ascii_text (λ _, MkRaw true [] None) a_gone_back 0 _ _); vm_compute; reflexivity]. reflexivity.
Defined.

(** * Theorems

    Rebuilding a conversation from its record gives that
    conversation back. A conversation is a list of exchanges; each writes its
    events, the results of a reply's calls in whatever order they come, and among
    them stands whatever else a record holds. *)

(** ** Exchanges *)

(** What came of a call: its result, a refusal, or nothing that was recorded. *)
Inductive fate : Type := Ran (content : string) (isError : bool) | Refused (why : string) | Lost.
Record asked : Type := MkAsked { as_call : ToolCall; as_fate : fate }.
Definition as_id (a : asked) : string := tc_ID (as_call a).

Inductive exchange : Type :=
  | Prompt (text : string)
  | Reply (text : string) (calls : list asked)
  | Told (n : notice)
  | Revised (text : string)     (* the check of an answer asks for another *)
  | Unanswered.                 (* a request to the model that came to nothing *)

(** The messages of an exchange. *)
Definition reply_of (a : asked) : message :=
  match as_fate a with
  | Ran content isError => tool_message (as_id a) content isError
  | Refused why => tool_message (as_id a) (denied_text why) true
  | Lost => tool_message (as_id a) lost_text true
  end.
Definition messages_of (x : exchange) : list message :=
  match x with
  | Prompt t => [user_message t]
  | Reply t calls => assistant_message t (map as_call calls) :: map reply_of calls
  | Told n => noticeMessages n
  | Revised t => [user_message t]
  | Unanswered => []
  end.
Definition conversation (xs : list exchange) : list message := concat (map messages_of xs).

Definition ids_of (x : exchange) : list string := match x with Reply _ calls => map as_id calls | _ => [] end.
Definition all_ids (xs : list exchange) : list string := concat (map ids_of xs).

Definition ran_body (a : asked) : option body :=
  match as_fate a with
  | Ran content isError => Some (Observed (Some (MkObservation (as_id a) (tc_Name (as_call a)) content isError false)))
  | _ => None
  end.

Section round.
Context (tx : Text) (lex : string → RawMessage).

(** ** What an exchange writes *)

(** A call's request, and its refusal. *)
Definition asked_as (a : asked) (es : list event) : Prop :=
  ∃ r act decided, es = r :: decided ∧ ev_Body r = Requested (Some act) ∧ ev_Actor r ≠ ActorUser ∧ ac_Via act = "" ∧
    call_of tx lex act = as_call a ∧
    match as_fate a with
    | Refused why => ∃ d, decided = [d] ∧ ev_Body d = Denied (Some (as_id a, why))
    | _ => decided = []
    end.

(** The model's answer, its text when there is some, each call put to the policy
    in order, and the results as they come. *)
Inductive written : exchange → list event → Prop :=
  | written_prompt t e : ev_Body e = UserMessage (Some t) → written (Prompt t) [e]
  | written_told n e : ev_Body e = Noticed (Some n) → nt_CallID n ≠ "" → written (Told n) [e]
  | written_revised t e : ev_Body e = Judged (Some t) → t ≠ "" → written (Revised t) [e]
  | written_unanswered sg e : ev_Body e = ModelCalled sg → written Unanswered [e]
  | written_reply t calls m txt asks runs :
      ev_Body m = ModelCalled false →
      (if String.eqb t "" then txt = [] ∧ calls ≠ [] else ∃ e, txt = [e] ∧ ev_Body e = AgentMessage (Some t)) →
      Forall2 asked_as calls asks →
      map ev_Body runs ≡ₚ omap ran_body calls →
      written (Reply t calls) (m :: txt ++ concat asks ++ runs).

(** ** The rebuild, exchange by exchange *)

Definition pend (P : gmap string ToolCall) (a : asked) : gmap string ToolCall :=
  match as_fate a with Refused _ => delete (as_id a) P | _ => <[as_id a := as_call a]> P end.
Definition deny (D : gmap string string) (a : asked) : gmap string string :=
  match as_fate a with Refused why => <[as_id a := why]> D | _ => D end.

Lemma rebuild_asked a es s : asked_as a es →
  foldl (rebuild_step tx lex) s es =
  let s' := add_call (as_call a) s in MkRebuilt (rb_msgs s') true (pend (rb_pending s) a) (deny (rb_denied s) a).
Proof.
  intros (r & act & decided & -> & Hr & Hu & Hv & Hc & Hd). cbn [foldl].
  assert (H1 : rebuild_step tx lex s r = add_call (as_call a) s).
  { unfold rebuild_step. rewrite Hr, bool_decide_eq_false_2 by done. rewrite Hv. cbn. by rewrite Hc. }
  rewrite H1. cbv zeta. unfold pend, deny, as_id. destruct (as_fate a) as [c b|why|].
  - subst decided. unfold add_call. by destruct (rb_open s).
  - destruct Hd as (d & -> & Ed). cbn [foldl]. unfold rebuild_step. rewrite Ed. unfold add_call. cbn.
    rewrite delete_insert_eq. by destruct (rb_open s).
  - subst decided. unfold add_call. by destruct (rb_open s).
Qed.

Lemma rebuild_asks calls : ∀ asks ms t cs P D, Forall2 asked_as calls asks →
  foldl (rebuild_step tx lex) (MkRebuilt (ms ++ [assistant_message t cs]) true P D) (concat asks) =
  MkRebuilt (ms ++ [assistant_message t (cs ++ map as_call calls)]) true (foldl pend P calls) (foldl deny D calls).
Proof.
  induction calls as [|a calls IH]; intros asks ms t cs P D H; inversion H as [|? es ? asks' Ha Hrest]; subst; cbn [concat foldl map].
  - by rewrite app_nil_r.
  - rewrite foldl_app, (rebuild_asked a es _ Ha). cbn [rb_pending rb_denied add_call rb_open rb_msgs].
    rewrite call_last_snoc. cbn [m_Role m_Content m_ToolCalls m_ToolCallID m_IsError assistant_message].
    change (MkMsg RoleAssistant t (cs ++ [as_call a]) "" false) with (assistant_message t (cs ++ [as_call a])).
    rewrite IH by done. by rewrite <- app_assoc.
Qed.

(** Results: each is taken, for its call waits for it. *)
Definition obs_msg (b : body) : list message := match b with Observed (Some o) => [tool_message (ob_CallID o) (ob_Content o) (ob_IsError o)] | _ => [] end.
Definition obs_id (b : body) : option string := match b with Observed (Some o) => Some (ob_CallID o) | _ => None end.

Lemma rebuild_runs runs : ∀ s, Forall (λ e, is_Some (obs_id (ev_Body e))) runs → NoDup (omap obs_id (map ev_Body runs)) →
  (∀ id, id ∈ omap obs_id (map ev_Body runs) → is_Some (rb_pending s !! id)) →
  ∃ o, foldl (rebuild_step tx lex) s runs =
  MkRebuilt (rb_msgs s ++ concat (map obs_msg (map ev_Body runs))) o
    (foldr delete (rb_pending s) (reverse (omap obs_id (map ev_Body runs)))) (rb_denied s).
Proof.
  induction runs as [|e runs IH]; intros s Hall Hnd Hp; cbn [foldl map].
  { exists (rb_open s). cbn. rewrite app_nil_r. by destruct s. }
  apply Forall_cons in Hall as [He Hall]. destruct (ev_Body e) as [| | | | |[o|]| | | | | | | | | | | | | | | | ] eqn:Eb; try (by destruct He).
  cbn [map omap list_omap] in Hnd, Hp |- *. rewrite Eb in Hnd, Hp. cbn [obs_id] in Hnd, Hp |- *. apply NoDup_cons in Hnd as [Hni Hnd].
  assert (Hstep : rebuild_step tx lex s e = MkRebuilt (rb_msgs s ++ [tool_message (ob_CallID o) (ob_Content o) (ob_IsError o)]) false
                    (delete (ob_CallID o) (rb_pending s)) (rb_denied s)).
  { unfold rebuild_step. rewrite Eb. destruct (Hp (ob_CallID o)) as [x ->]; [by left|done]. }
  rewrite Hstep. destruct (IH (MkRebuilt (rb_msgs s ++ [tool_message (ob_CallID o) (ob_Content o) (ob_IsError o)]) false
                    (delete (ob_CallID o) (rb_pending s)) (rb_denied s)) Hall Hnd) as [op E].
  { intros id Hid. cbn. rewrite lookup_delete_ne; [apply Hp; by right|]. intros E. by rewrite <- E in Hid. }
  exists op. cbn [foldl]. rewrite E. cbn [rb_msgs rb_pending rb_denied concat obs_msg].
  rewrite <- app_assoc. f_equal. rewrite reverse_cons, foldr_app. done.
Qed.

(** *** One exchange *)

Definition ran_msg (a : asked) : option message := match as_fate a with Ran _ _ => Some (reply_of a) | _ => None end.

(** The messages of an exchange before its answers are put in order. *)
Definition raw (x : exchange) (r : list message) : Prop :=
  match x with
  | Reply t calls => ∃ rs, rs ≡ₚ omap ran_msg calls ∧ r = assistant_message t (map as_call calls) :: rs
  | _ => r = messages_of x
  end.
Definition asked_of (x : exchange) : list asked := match x with Reply _ calls => calls | _ => [] end.

Lemma ran_ids calls : omap obs_id (omap ran_body calls) `sublist_of` map as_id calls.
Proof.
  induction calls as [|a calls IH]; [constructor|]. cbn. unfold ran_body at 1. destruct (as_fate a); cbn; by constructor.
Qed.
Lemma ran_msgs calls : concat (map obs_msg (omap ran_body calls)) = omap ran_msg calls.
Proof.
  induction calls as [|a calls IH]; [done|]. cbn. unfold ran_body at 1, ran_msg at 1, reply_of. destruct (as_fate a); cbn; by rewrite IH.
Qed.

Lemma pend_other calls : ∀ P id, id ∉ map as_id calls → foldl pend P calls !! id = P !! id.
Proof.
  induction calls as [|a calls IH]; intros P id H; [done|]. cbn in *. apply not_elem_of_cons in H as [H1 H2]. rewrite IH by done.
  unfold pend. destruct (as_fate a); by rewrite ?lookup_insert_ne, ?lookup_delete_ne.
Qed.
Lemma pend_ran calls : ∀ P id, NoDup (map as_id calls) → id ∈ omap obs_id (omap ran_body calls) → is_Some (foldl pend P calls !! id).
Proof.
  induction calls as [|a calls IH]; intros P id Hnd H; [by apply not_elem_of_nil in H|]. cbn in Hnd. apply NoDup_cons in Hnd as [Hni Hnd].
  cbn [foldl]. cbn in H. unfold ran_body at 1 in H. destruct (as_fate a) as [c b|why|] eqn:Ef; cbn in H; try by apply IH.
  apply elem_of_cons in H as [->|H]; [|by apply IH]. rewrite pend_other by done. unfold pend. rewrite Ef, lookup_insert_eq. by eexists.
Qed.
Lemma pend_dom calls : ∀ P, dom (foldl pend P calls) ⊆ dom P ∪ list_to_set (map as_id calls).
Proof.
  induction calls as [|a calls IH]; intros P; [set_solver|]. cbn. etrans; [apply IH|]. unfold pend.
  destruct (as_fate a); rewrite ?dom_insert, ?dom_delete; set_solver.
Qed.
Lemma delete_all_dom {A} ids (P : gmap string A) : dom (foldr delete P ids) ⊆ dom P.
Proof. induction ids as [|id ids IH]; [done|]. cbn. rewrite dom_delete. set_solver. Qed.

(** The calls of a reply, whether its text opened the turn or its first call did. *)
Lemma rebuild_turn t calls m txt asks s : ev_Body m = ModelCalled false →
  (if String.eqb t "" then txt = [] ∧ calls ≠ [] else ∃ e, txt = [e] ∧ ev_Body e = AgentMessage (Some t)) →
  Forall2 asked_as calls asks →
  foldl (rebuild_step tx lex) s (m :: txt ++ concat asks) =
  MkRebuilt (rb_msgs s ++ [assistant_message t (map as_call calls)]) true (foldl pend (rb_pending s) calls) (foldl deny (rb_denied s) calls).
Proof.
  intros Hm Ht Ha. cbn [foldl]. unfold rebuild_step at 2. rewrite Hm. destruct (String.eqb_spec t "") as [->|Hne].
  - destruct Ht as [-> Hc]. inversion Ha as [|a es calls' asks' Ha1 Ha']; subst; [done|]. cbn [app concat].
    rewrite foldl_app, (rebuild_asked a es _ Ha1). cbn [add_call rb_open rb_msgs rb_pending rb_denied say]. rewrite call_last_snoc.
    change (MkMsg _ _ _ _ _) with (assistant_message "" ([] ++ [as_call a])). by rewrite (rebuild_asks calls' asks' _ _ _ _ _ Ha').
  - destruct Ht as (e & -> & He). cbn [app foldl]. unfold rebuild_step at 2. rewrite He. unfold say. cbn [rb_msgs rb_pending rb_denied].
    by rewrite (rebuild_asks calls asks _ _ _ _ _ Ha).
Qed.

Lemma rebuild_exchange x es s : written x es → NoDup (ids_of x) →
  ∃ r o P, foldl (rebuild_step tx lex) s es = MkRebuilt (rb_msgs s ++ r) o P (foldl deny (rb_denied s) (asked_of x)) ∧ raw x r ∧
    dom P ⊆ dom (rb_pending s) ∪ list_to_set (ids_of x).
Proof.
  intros Hw Hnd. destruct Hw as [t e He|n e He Hn|t e He Hn|sg e He|t calls m txt asks runs Hm Ht Ha Hr]; cbn [ids_of asked_of foldl] in *.
  - exists [user_message t], false, (rb_pending s). unfold rebuild_step. rewrite He. split_and!; [done|done|set_solver].
  - exists (noticeMessages n), false, (rb_pending s). unfold rebuild_step. rewrite He. destruct (String.eqb_spec (nt_CallID n) ""); [done|].
    split_and!; [done|done|set_solver].
  - exists [user_message t], false, (rb_pending s). unfold rebuild_step. rewrite He. destruct (String.eqb_spec t ""); [done|].
    split_and!; [done|done|set_solver].
  - exists [], false, (rb_pending s). unfold rebuild_step. rewrite He, app_nil_r. split_and!; [done|done|set_solver].
  - change (foldl _ (rebuild_step tx lex s m) (txt ++ concat asks ++ runs)) with (foldl (rebuild_step tx lex) s (m :: txt ++ concat asks ++ runs)).
    replace (m :: txt ++ concat asks ++ runs) with ((m :: txt ++ concat asks) ++ runs) by (cbn; by rewrite app_assoc).
    rewrite foldl_app, (rebuild_turn t calls m txt asks s Hm Ht Ha). set (s1 := MkRebuilt _ _ _ _).
    assert (Hperm : omap obs_id (map ev_Body runs) ≡ₚ omap obs_id (omap ran_body calls)) by (by rewrite Hr).
    destruct (rebuild_runs runs s1) as [o E].
    + apply Forall_forall. intros e He. assert (ev_Body e ∈ omap ran_body calls) as Hb by (rewrite <- Hr; by apply list_elem_of_fmap_2).
      apply list_elem_of_omap in Hb as (a & _ & Hb). unfold ran_body in Hb. destruct (as_fate a); try done. injection Hb as <-. by eexists.
    + rewrite Hperm. eapply sublist_NoDup; [done|apply ran_ids].
    + intros id. rewrite Hperm. by apply pend_ran.
    + rewrite E. cbn [rb_msgs rb_pending rb_denied s1]. eexists _, o, _. rewrite <- app_assoc. split_and!; [reflexivity| |].
      * eexists. split; [|reflexivity]. rewrite Hr. by rewrite ran_msgs.
      * etrans; [apply delete_all_dom|]. apply pend_dom.
Qed.

Lemma rebuild_record xs : ∀ ess s, Forall2 written xs ess → NoDup (all_ids xs) →
  ∃ rs o P, foldl (rebuild_step tx lex) s (concat ess) =
      MkRebuilt (rb_msgs s ++ concat rs) o P (foldl deny (rb_denied s) (concat (map asked_of xs))) ∧ Forall2 raw xs rs ∧
    dom P ⊆ dom (rb_pending s) ∪ list_to_set (all_ids xs).
Proof.
  induction xs as [|x xs IH]; intros ess s Hw Hnd; inversion Hw as [|? es ? ess' Hx Hxs]; subst; cbn [concat map foldl all_ids].
  - exists [], (rb_open s), (rb_pending s). cbn. rewrite app_nil_r. split_and!; [by destruct s|constructor|set_solver].
  - unfold all_ids in *. cbn in Hnd. apply NoDup_app in Hnd as (Hnd1 & _ & Hnd2).
    destruct (rebuild_exchange x es s Hx Hnd1) as (r & o & P & E & Hr & HP). rewrite foldl_app, E.
    destruct (IH ess' (MkRebuilt (rb_msgs s ++ r) o P (foldl deny (rb_denied s) (asked_of x))) Hxs Hnd2) as (rs & o' & P' & E' & Hrs & HP').
    exists (r :: rs), o', P'. rewrite E'. cbn [rb_msgs rb_pending rb_denied concat] in *. rewrite <- app_assoc, foldl_app. split_and!.
    + done.
    + by constructor.
    + set_solver.
Qed.

(** ** The answers, put in order *)

Lemma first_results_in rs r : NoDup (map m_ToolCallID rs) → r ∈ rs → first_results rs !! m_ToolCallID r = Some r.
Proof.
  induction rs as [|x rs IH]; intros Hnd Hr; [by apply not_elem_of_nil in Hr|]. cbn in *. apply NoDup_cons in Hnd as [Hx Hnd].
  apply elem_of_cons in Hr as [->|Hr]; [apply lookup_insert_eq|]. rewrite lookup_insert_ne; [by apply IH|].
  intros E. apply Hx. rewrite E. by apply list_elem_of_fmap_2.
Qed.
Lemma first_results_out rs id : id ∉ map m_ToolCallID rs → first_results rs !! id = None.
Proof.
  induction rs as [|x rs IH]; intros H; [apply lookup_empty|]. cbn in *. apply not_elem_of_cons in H as [H1 H2].
  rewrite lookup_insert_ne by done. by apply IH.
Qed.

Lemma ran_msg_ids calls : map m_ToolCallID (omap ran_msg calls) `sublist_of` map as_id calls.
Proof.
  induction calls as [|a calls IH]; [constructor|]. cbn. unfold ran_msg at 1, reply_of. destruct (as_fate a) eqn:E; cbn; by constructor.
Qed.

(** What the results and the refusals say of each call. *)
Definition told (D : gmap string string) (results : gmap string message) (a : asked) : Prop :=
  match as_fate a with
  | Ran _ _ => results !! as_id a = Some (reply_of a)
  | Refused why => results !! as_id a = None ∧ D !! as_id a = Some why
  | Lost => results !! as_id a = None ∧ D !! as_id a = None
  end.

Lemma answers_told D calls : ∀ results, NoDup (map as_id calls) → Forall (told D results) calls →
  answers D results (map as_call calls) = map reply_of calls.
Proof.
  induction calls as [|a calls IH]; intros results Hnd Hall; [done|]. cbn in Hnd. apply NoDup_cons in Hnd as [Hni Hnd].
  apply Forall_cons in Hall as [Ha Hall]. cbn [map answers]. fold (as_id a). unfold told in Ha. unfold reply_of at 1.
  assert (Hdel : Forall (told D (delete (as_id a) results)) calls).
  { apply Forall_forall. intros b Hb. pose proof (proj1 (Forall_forall _ _) Hall b Hb) as Hob. unfold told in *.
    assert (as_id a ≠ as_id b) by (intros E; apply Hni; rewrite E; by apply list_elem_of_fmap_2).
    by rewrite lookup_delete_ne. }
  destruct (as_fate a) as [c b|why|] eqn:Ef.
  - rewrite Ha. f_equal; [unfold reply_of; by rewrite Ef|]. by apply IH.
  - destruct Ha as [-> ->]. f_equal. by apply IH.
  - destruct Ha as [-> ->]. f_equal. by apply IH.
Qed.

Definition opens_plain (msgs : list message) : Prop := tools_ahead msgs = [].

Lemma raw_opens xs rs : Forall2 raw xs rs → opens_plain (concat rs).
Proof. induction 1 as [|x r xs rs Hx _ IH]; [done|]. destruct x; cbn in Hx |- *; [by subst|by destruct Hx as (rs' & _ & ->)|by subst..]. Qed.

Lemma tools_ahead_app rs rest : Forall (λ r, is_tool r = true) rs → opens_plain rest → tools_ahead (rs ++ rest) = rs.
Proof. induction 1 as [|r rs Hr _ IH]; intros Hrest; [done|]. cbn. rewrite Hr. by rewrite IH. Qed.
Lemma answerAll_tools D rs rest : Forall (λ r, is_tool r = true) rs → answerAll D (rs ++ rest) = answerAll D rest.
Proof. induction 1 as [|r rs Hr _ IH]; [done|]. cbn. by rewrite Hr. Qed.

Lemma ran_tools rs calls : rs ≡ₚ omap ran_msg calls → Forall (λ r, is_tool r = true) rs.
Proof.
  intros Hp. apply Forall_forall. intros r. rewrite Hp, list_elem_of_omap. intros (a & _ & Ha). unfold ran_msg, reply_of in Ha.
  destruct (as_fate a); by simplify_eq.
Qed.

Lemma as_id_inj calls a b : NoDup (map as_id calls) → a ∈ calls → b ∈ calls → as_id a = as_id b → a = b.
Proof.
  induction calls as [|x calls IH]; intros Hnd Ha Hb E; [by apply not_elem_of_nil in Ha|]. cbn in Hnd. apply NoDup_cons in Hnd as [Hx Hnd].
  apply elem_of_cons in Ha as [->|Ha], Hb as [Hb|Hb]; subst; [done| | |by apply IH]; exfalso; apply Hx.
  - rewrite E. by apply list_elem_of_fmap_2.
  - rewrite <- E. by apply list_elem_of_fmap_2.
Qed.

(** A call without a result has none among the results. *)
Lemma no_result rs calls a : NoDup (map as_id calls) → rs ≡ₚ omap ran_msg calls → a ∈ calls → ran_msg a = None →
  first_results rs !! as_id a = None.
Proof.
  intros Hnd Hp Ha Hran. apply first_results_out. assert (Hids : map m_ToolCallID rs ≡ₚ map m_ToolCallID (omap ran_msg calls)) by (by rewrite Hp).
  rewrite Hids. intros Hin. apply list_elem_of_fmap in Hin as (r & E & Hr). apply list_elem_of_omap in Hr as (b & Hb & Er).
  assert (a = b) as ->; [|by rewrite Hran in Er]. apply (as_id_inj calls); try done. rewrite E. unfold ran_msg, reply_of in Er.
  destruct (as_fate b); by simplify_eq.
Qed.

(** Whether each call of an exchange was refused, as [D] has it. *)
Definition denials (D : gmap string string) (a : asked) : Prop :=
  match as_fate a with Ran _ _ => True | Refused why => D !! as_id a = Some why | Lost => D !! as_id a = None end.

Lemma raw_told D rs calls : NoDup (map as_id calls) → rs ≡ₚ omap ran_msg calls → Forall (denials D) calls →
  Forall (told D (first_results rs)) calls.
Proof.
  intros Hnd Hp Hd. assert (Hids : map m_ToolCallID rs ≡ₚ map m_ToolCallID (omap ran_msg calls)) by (by rewrite Hp).
  assert (Hnd' : NoDup (map m_ToolCallID rs)) by (rewrite Hids; eapply sublist_NoDup; [done|apply ran_msg_ids]).
  apply Forall_forall. intros a Ha. pose proof (proj1 (Forall_forall _ _) Hd a Ha) as Hda. unfold told, denials in *.
  destruct (as_fate a) as [c b|why|] eqn:Ef.
  - replace (as_id a) with (m_ToolCallID (reply_of a)) by (unfold reply_of; by rewrite Ef). apply first_results_in; [done|].
    rewrite Hp. apply list_elem_of_omap. exists a. split; [done|]. unfold ran_msg. by rewrite Ef.
  - split; [|done]. apply (no_result rs calls); try done. unfold ran_msg. by rewrite Ef.
  - split; [|done]. apply (no_result rs calls); try done. unfold ran_msg. by rewrite Ef.
Qed.

Lemma answerAll_turn D t cs ms : cs ≠ [] → answerAll D (assistant_message t cs :: ms) =
  assistant_message t cs :: answers D (first_results (tools_ahead ms)) cs ++ answerAll D ms.
Proof. by destruct cs. Qed.

Lemma answerAll_raw D x r rest : raw x r → NoDup (ids_of x) → Forall (denials D) (asked_of x) → opens_plain rest →
  answerAll D (r ++ rest) = messages_of x ++ answerAll D rest.
Proof.
  intros Hr Hnd Hd Hrest. destruct x as [t|t calls|n|t|]; cbn in Hr, Hnd, Hd.
  - by subst.
  - destruct Hr as (rs & Hp & ->). pose proof (ran_tools rs calls Hp) as Ht. destruct calls as [|a calls].
    + cbn in Hp. apply Permutation_nil_r in Hp as ->. done.
    + cbn [app messages_of]. rewrite answerAll_turn, tools_ahead_app, answerAll_tools by done.
      by rewrite (answers_told D (a :: calls)) by first [done|by apply raw_told].
  - subst r. cbn [messages_of noticeMessages app]. rewrite answerAll_turn by done. set (r := tool_message _ _ _).
    change (r :: rest) with ([r] ++ rest).
    rewrite tools_ahead_app, answerAll_tools by first [done|by repeat constructor]. subst r. cbn [first_results foldr answers tc_ID m_ToolCallID tool_message].
    by rewrite lookup_insert_eq.
  - by subst.
  - by subst.
Qed.

Lemma answerAll_record D xs : ∀ rs, Forall2 raw xs rs → NoDup (all_ids xs) → Forall (denials D) (concat (map asked_of xs)) →
  answerAll D (concat rs) = conversation xs.
Proof.
  induction xs as [|x xs IH]; intros rs Hr Hnd Hd; inversion Hr as [|? r ? rs' Hx Hxs]; subst; [done|].
  unfold all_ids in *. cbn [map concat] in *. apply NoDup_app in Hnd as (Hnd1 & _ & Hnd2). apply Forall_app in Hd as [Hd1 Hd2].
  rewrite (answerAll_raw D x) by first [done|by eapply raw_opens].
  unfold conversation. cbn. f_equal. by apply IH.
Qed.

(** The refusals of a whole record are those of its calls. *)
Lemma deny_other calls : ∀ D id, id ∉ map as_id calls → foldl deny D calls !! id = D !! id.
Proof.
  induction calls as [|a calls IH]; intros D id H; [done|]. cbn in *. apply not_elem_of_cons in H as [H1 H2]. rewrite IH by done.
  unfold deny. destruct (as_fate a); by rewrite ?lookup_insert_ne.
Qed.
Lemma deny_all calls : ∀ D, NoDup (map as_id calls) → (∀ a, a ∈ calls → D !! as_id a = None) → Forall (denials (foldl deny D calls)) calls.
Proof.
  induction calls as [|a calls IH]; intros D Hnd HD; [constructor|]. cbn in Hnd. apply NoDup_cons in Hnd as [Hni Hnd]. constructor.
  - cbn [foldl]. unfold denials. rewrite deny_other by done. unfold deny. pose proof (HD a ltac:(by left)) as Ha.
    destruct (as_fate a); [done|apply lookup_insert_eq|done].
  - cbn [foldl]. apply IH; [done|]. intros b Hb. assert (as_id a ≠ as_id b) by (intros E; apply Hni; rewrite E; by apply list_elem_of_fmap_2).
    unfold deny. destruct (as_fate a); rewrite ?lookup_insert_ne by done; apply HD; by right.
Qed.
Lemma all_ids_asked xs : all_ids xs = map as_id (concat (map asked_of xs)).
Proof. unfold all_ids. rewrite concat_map, map_map. f_equal. apply map_ext. by intros []. Qed.
End round.

(** ** A conversation and its record *)

Section fork.
Context (tx : Text) (lex : string → RawMessage).

(** An exchange's answers are to its own calls. *)
Lemma written_answers x es id : written tx lex x es → id ∈ omap answer_of es → id ∈ ids_of x.
Proof.
  intros Hw. rewrite list_elem_of_omap. intros (e & He & Ha). unfold answer_of in Ha.
  destruct Hw as [t e' Hb|n e' Hb Hn|t e' Hb Hn|sg e' Hb|t calls m txt asks runs Hm Ht Hf Hr].
  - apply list_elem_of_singleton in He as ->. by rewrite Hb in Ha.
  - apply list_elem_of_singleton in He as ->. by rewrite Hb in Ha.
  - apply list_elem_of_singleton in He as ->. by rewrite Hb in Ha.
  - apply list_elem_of_singleton in He as ->. by rewrite Hb in Ha.
  - cbn [ids_of]. apply elem_of_cons in He as [->|He]; [by rewrite Hm in Ha|]. repeat apply elem_of_app in He as [He|He].
    + destruct (String.eqb t ""); [by destruct Ht as [-> _]; apply not_elem_of_nil in He|]. destruct Ht as (e' & -> & Hb).
      apply list_elem_of_singleton in He as ->. by rewrite Hb in Ha.
    + apply list_elem_of_In, in_concat in He as (l & Hl & He). clear Ht Hr. induction Hf as [|a l' calls asks Hal Hf IH]; [done|].
      apply elem_of_cons. destruct Hl as [->|Hl]; [left|right; by apply IH]. destruct Hal as (r & act & decided & -> & Hreq & _ & _ & _ & Hd).
      destruct He as [<-|He]; [by rewrite Hreq in Ha|]. apply list_elem_of_In in He.
      destruct (as_fate a); [subst decided|destruct Hd as (d & -> & Hb)|subst decided];
        try (by apply not_elem_of_nil in He); apply list_elem_of_singleton in He as ->; rewrite Hb in Ha; by simplify_eq.
    + assert (ev_Body e ∈ omap ran_body calls) as Hb by (rewrite <- Hr; by apply list_elem_of_fmap_2).
      apply list_elem_of_omap in Hb as (a & Hin & Hb). unfold ran_body in Hb.
      destruct (as_fate a); try done. injection Hb as Hb. rewrite <- Hb in Ha. injection Ha as <-. by apply list_elem_of_fmap_2.
Qed.

Lemma record_answers xs ess id : Forall2 (written tx lex) xs ess → id ∈ omap answer_of (concat ess) → id ∈ all_ids xs.
Proof.
  induction 1 as [|x es xs ess Hx Hxs IH]; [done|]. unfold all_ids in *. cbn. rewrite omap_app, !elem_of_app.
  intros [H|H]; [left; by eapply written_answers|right; by apply IH].
Qed.

Lemma up_to_cut through es1 es2 : Forall (λ e, past through e = false) es1 → Forall (λ e, past through e = true) es2 →
  up_to through (es1 ++ es2) = es1 ∧ List.filter (past through) (es1 ++ es2) = es2.
Proof.
  intros H1 H2. rewrite List.filter_app. induction H1 as [|e es1 He H1 [IH1 IH2]]; cbn.
  - split; [destruct H2 as [|e es2 He H2]; [done|cbn; by rewrite He]|]. induction H2 as [|e es2 He H2 IH]; [done|]. cbn. by rewrite He, IH.
  - rewrite He. by rewrite IH1.
Qed.

(** ** The conversation in a record

    A record holds much else: the session's own events, the deltas of a reply as it
    streamed, what a person did at the workbench, verdicts that asked for nothing. *)

(** What of a record says something in the conversation whose calls are [ids]. *)
Definition heard (ids : list string) (e : event) : bool :=
  match ev_Body e with
  | UserMessage (Some _) | AgentMessage (Some _) | ModelCalled _ => true
  | Judged (Some revision) => negb (String.eqb revision "")
  | Noticed (Some n) => negb (String.eqb (nt_CallID n) "")
  | Requested (Some a) => negb (bool_decide (ev_Actor e = ActorUser)) && String.eqb (ac_Via a) ""
  | Denied (Some (id, _)) => bool_decide (id ∈ ids)
  | Observed (Some o) => bool_decide (ob_CallID o ∈ ids)
  | _ => false
  end.

(** Rebuilds that agree on the conversation. *)
Definition alike (ids : list string) (s s' : rebuilt) : Prop :=
  rb_msgs s = rb_msgs s' ∧ rb_open s = rb_open s' ∧ rb_pending s = rb_pending s' ∧
  (∀ id, is_Some (rb_pending s !! id) → id ∈ ids) ∧ ∀ id, id ∈ ids → rb_denied s !! id = rb_denied s' !! id.
Definition asks_in (ids : list string) (e : event) : Prop :=
  ∀ a, ev_Body e = Requested (Some a) → heard ids e = true → ac_CallID a ∈ ids.

Lemma unheard_alike ids s s' e : heard ids e = false → alike ids s s' → alike ids (rebuild_step tx lex s e) s'.
Proof.
  intros He (Hm & Ho & Hp & Hin & Hd). unfold rebuild_step, heard in *.
  destruct (ev_Body e) as [[t|]|[t|]|[a|]|c|[[id why]|]|[o|]|sg|[rev|]|[n|]|t|x| |c|c|c|c|r|t|t| | |t]; try done.
  - destruct (bool_decide _); [done|]. cbn in He. by rewrite He.
  - apply bool_decide_eq_false in He. split_and!; cbn; [done|done| | |].
    + rewrite delete_id; [done|]. apply eq_None_not_Some. by intros ?%Hin.
    + intros j [x Hj]. apply Hin. apply lookup_delete_Some in Hj as [_ Hj]. by eexists.
    + intros j Hj. rewrite lookup_insert_ne; [by apply Hd|]. by intros ->.
  - apply bool_decide_eq_false in He. destruct (rb_pending s !! ob_CallID o) eqn:E; [|done]. exfalso. by apply He, Hin.
  - apply negb_false_iff in He. by rewrite He.
  - apply negb_false_iff in He. by rewrite He.
Qed.

Lemma heard_alike ids s s' e : asks_in ids e → heard ids e = true → alike ids s s' →
  alike ids (rebuild_step tx lex s e) (rebuild_step tx lex s' e).
Proof.
  intros Ha He (Hm & Ho & Hp & Hin & Hd). unfold rebuild_step, asks_in, heard in *. destruct s as [m o P D], s' as [m' o' P' D']. cbn in *. subst m' o' P'.
  destruct (ev_Body e) as [[t|]|[t|]|[a|]|c|[[id why]|]|[ob|]|sg|[rev|]|[n|]|t|x| |c|c|c|c|r|t|t| | |t]; try done.
  - pose proof (Ha a eq_refl He) as Hin'. apply andb_true_iff in He as [He1 He2]. apply negb_true_iff in He1. rewrite He1. cbn. rewrite He2. cbn.
    unfold add_call. destruct o; cbn; (split_and!; [done..| |done]);
      intros j [x Hj]; cbn in Hj; apply lookup_insert_Some in Hj as [[<- _]|[_ Hj]]; try done; apply Hin; by eexists.
  - split_and!; cbn; [done..| |].
    + intros j [x Hj]. cbn in Hj. apply lookup_delete_Some in Hj as [_ Hj]. apply Hin. by eexists.
    + intros j Hj. destruct (decide (id = j)) as [->|Hne]; [by rewrite !lookup_insert_eq|]. rewrite !lookup_insert_ne by done. by apply Hd.
  - destruct (P !! ob_CallID ob); [|done]. split_and!; cbn; [done..| |done]. intros j [x Hj]. cbn in Hj. apply lookup_delete_Some in Hj as [_ Hj]. apply Hin. by eexists.
  - by destruct (String.eqb rev "").
  - by destruct (String.eqb (nt_CallID n) "").
Qed.

Lemma rebuild_heard ids es : ∀ s s', Forall (asks_in ids) es → alike ids s s' →
  alike ids (foldl (rebuild_step tx lex) s es) (foldl (rebuild_step tx lex) s' (List.filter (heard ids) es)).
Proof.
  induction es as [|e es IH]; intros s s' Hall Hs; [done|]. apply Forall_cons in Hall as [He Hall]. cbn.
  destruct (heard ids e) eqn:E; cbn; apply IH; [done|by apply heard_alike|done|by apply unheard_alike].
Qed.

(** The calls an exchange asks are its own. *)
Lemma written_asks x es e a : written tx lex x es → e ∈ es → ev_Body e = Requested (Some a) → ac_CallID a ∈ ids_of x.
Proof.
  intros Hw He Hb. destruct Hw as [t e' H|n e' H Hn|t e' H Hn|sg e' H|t calls m txt asks runs Hm Ht Hf Hr];
    try (apply list_elem_of_singleton in He as ->; by rewrite Hb in H).
  cbn [ids_of]. apply elem_of_cons in He as [->|He]; [by rewrite Hm in Hb|]. repeat apply elem_of_app in He as [He|He].
  - destruct (String.eqb t ""); [by destruct Ht as [-> _]; apply not_elem_of_nil in He|]. destruct Ht as (e' & -> & H).
    apply list_elem_of_singleton in He as ->. by rewrite H in Hb.
  - apply list_elem_of_In, in_concat in He as (l & Hl & He). clear Ht Hr. induction Hf as [|b l' calls asks Hal Hf IH]; [done|].
    apply elem_of_cons. destruct Hl as [->|Hl]; [left|right; by apply IH]. destruct Hal as (r & act & decided & -> & Hreq & _ & _ & Hc & Hd).
    destruct He as [<-|He]; [rewrite Hreq in Hb; injection Hb as ->; unfold as_id; by rewrite <- Hc|]. apply list_elem_of_In in He.
    destruct (as_fate b); [subst decided|destruct Hd as (d & -> & H)|subst decided];
      try (by apply not_elem_of_nil in He); apply list_elem_of_singleton in He as ->; by rewrite H in Hb.
  - assert (ev_Body e ∈ omap ran_body calls) as H by (rewrite <- Hr; by apply list_elem_of_fmap_2).
    rewrite Hb in H. apply list_elem_of_omap in H as (b & _ & H). unfold ran_body in H. by destruct (as_fate b).
Qed.
Lemma record_asks xs ess (ids : list string) e a : Forall2 (written tx lex) xs ess → (∀ id, id ∈ all_ids xs → id ∈ ids) → e ∈ concat ess →
  ev_Body e = Requested (Some a) → ac_CallID a ∈ ids.
Proof.
  intros H Hids He Hb. apply Hids. clear Hids. induction H as [|x es xs ess Hx Hxs IH]; [by apply not_elem_of_nil in He|].
  unfold all_ids in *. cbn in *. apply elem_of_app in He as [He|He]; apply elem_of_app; [left; by eapply written_asks|right; by apply IH].
Qed.

Lemma filter_drops {A} (p : A → bool) l : (∀ x, x ∈ l → p x = false) → List.filter p l = [].
Proof. induction l as [|x l IH]; intros H; [done|]. cbn. rewrite (H x) by (by left). apply IH. intros y Hy. apply H. by right. Qed.
(** A record in order, cut at a step: what is up to it, and what is past it. *)
Lemma up_to_sorted through es : in_order es → up_to through es = List.filter (λ e, negb (past through e)) es.
Proof.
  induction es as [|e es IH]; [done|]. intros H. apply (in_order_app [e]) in H as (_ & Hs & Hlt). cbn. destruct (past through e) eqn:E; cbn; [|by rewrite IH].
  symmetry. apply filter_drops. intros x Hx. apply negb_false_iff. specialize (Hlt e x ltac:(by left) Hx).
  unfold past in *. apply andb_true_iff in E as [-> E]. cbn. lia.
Qed.
Lemma filter_swap {A} (p q : A → bool) l : List.filter p (List.filter q l) = List.filter q (List.filter p l).
Proof. rewrite !filter_filter. apply List.filter_ext. intros x. apply andb_comm. Qed.
Lemma filter_parts {A} (p : A → bool) l1 l2 : Forall (λ x, p x = false) l1 → Forall (λ x, p x = true) l2 →
  List.filter p (l1 ++ l2) = l2 ∧ List.filter (λ x, negb (p x)) (l1 ++ l2) = l1.
Proof.
  intros H1 H2. induction H1 as [|x l1 Hx H1 [IH1 IH2]]; cbn.
  - induction H2 as [|x l2 Hx H2 [IH1 IH2]]; [done|]. cbn. rewrite Hx. cbn. by rewrite IH1.
  - rewrite Hx. cbn. by rewrite IH2.
Qed.

End fork.

(** ** A record *)

Definition at_step (seq : Z) (actor : Actor) (b : body) : event := MkEvent "" "s" "" seq actor 0 b.
Definition a_request (id tool : string) : body := Requested (Some (MkAction id tool "{}" "")).
(** No arguments: every call reads as [{}]. *)
Definition no_lex (_ : string) : RawMessage := MkRaw true [] None.

Definition two_calls : list asked :=
  [MkAsked (MkCall "c1" "read" "{}") (Ran "text" false); MkAsked (MkCall "c2" "bash" "{}") (Refused "no");
   MkAsked (MkCall "c3" "grep" "{}") (Ran "line" false)].
Definition first_part : list exchange := [Prompt "fix it"; Reply "" two_calls].
Definition later_part : list exchange := [Prompt "go on"].

Definition reply_asks : list (list event) :=
  [[at_step 5 ActorAgent (a_request "c1" "read")];
   [at_step 7 ActorAgent (a_request "c2" "bash"); at_step 8 ActorSystem (Denied (Some ("c2", "no")))];
   [at_step 9 ActorAgent (a_request "c3" "grep")]].
Definition reply_runs : list event :=
  [at_step 11 ActorTool (Observed (Some (MkObservation "c3" "grep" "line" false false)));
   at_step 12 ActorTool (Observed (Some (MkObservation "c1" "read" "text" false false)))].
Definition reply_events : list event := at_step 3 ActorSystem (ModelCalled false) :: [] ++ concat reply_asks ++ reply_runs.
Definition first_events : list (list event) := [[at_step 2 ActorUser (UserMessage (Some "fix it"))]; reply_events].
Definition later_events : list (list event) := [[at_step 17 ActorUser (UserMessage (Some "go on"))]].

(** All of the record: the session's start, a delta, approvals, a person's own call
    and its result, and a prompt that was gone back on. *)
Definition all_events : list event :=
  [at_step 1 ActorSystem (SessionStarted None); at_step 2 ActorUser (UserMessage (Some "fix it")); at_step 3 ActorSystem (ModelCalled false);
   at_step 4 ActorAgent Fragment; at_step 5 ActorAgent (a_request "c1" "read"); at_step 6 ActorSystem (Approved (Some "c1"));
   at_step 7 ActorAgent (a_request "c2" "bash"); at_step 8 ActorSystem (Denied (Some ("c2", "no"))); at_step 9 ActorAgent (a_request "c3" "grep");
   at_step 10 ActorUser (a_request "u1" "bash"); at_step 11 ActorTool (Observed (Some (MkObservation "c3" "grep" "line" false false)));
   at_step 12 ActorTool (Observed (Some (MkObservation "c1" "read" "text" false false)));
   at_step 13 ActorTool (Observed (Some (MkObservation "u1" "bash" "mine" false false))); at_step 14 ActorSystem (SessionEnded None);
   at_step 15 ActorUser (UserMessage (Some "never mind")); at_step 16 ActorSystem (Forked (Some 14)); at_step 17 ActorUser (UserMessage (Some "go on"))].

Lemma a_record_written : Forall2 (written ascii_text no_lex) first_part first_events.
Proof.
  constructor; [by constructor|]. constructor; [|constructor]. refine (written_reply ascii_text no_lex "" two_calls (at_step 3 ActorSystem (ModelCalled false)) [] reply_asks
    reply_runs eq_refl _ _ _).
  - done.
  - constructor; [|constructor; [|constructor; [|constructor]]]; eexists _, _, _; (split; [reflexivity|]); split_and!; try reflexivity; try done.
    by eexists.
  - cbn. apply Permutation_swap.
Defined.

