(* ===== verification/Undo.v ===== *)
(** The undo log of a session (src/internal/agent/undo.go): what each file held
    just before the agent changed it, taken back a turn at a time, or read again
    from the session's record. The log is one that is not nil; its functions on
    files, on the blob store and on the record are arguments, as the code has
    them. *)

From Stdlib Require Import ZArith Ascii String Lia.
From stdpp Require Import base tactics list option gmap strings sorting.
From S2P Require Import Prelude.
From S2P Require Import GoStd.
From S2P Require Import GoPath.
From S2P Require Import SessionRecord.

#[local] Open Scope string_scope.
#[local] Open Scope Z_scope.
#[local] Open Scope list_scope.

(** ** Checkpoints *)

(** [cp_Before] is [None] for nil bytes; [cp_load] is the hash [load] reads. *)
Record Checkpoint : Type := MkCheckpoint {
  cp_Path : string; cp_Before : option string; cp_Existed : bool; cp_Turn : Z; cp_At : Z;
  cp_Seq : Z; cp_Blob : string; cp_Mode : Z; cp_Skipped : string; cp_load : option string
}.

Record UndoLog : Type := MkUndoLog { u_stack : list Checkpoint; u_turn : Z; u_KeepFirst : bool }.

Definition NewUndoLog : UndoLog := MkUndoLog [] 0 false.
Definition with_stack (stack : list Checkpoint) (u : UndoLog) : UndoLog := MkUndoLog stack (u_turn u) (u_KeepFirst u).

Definition BeginTurn (u : UndoLog) : UndoLog := MkUndoLog (u_stack u) (u_turn u + 1) (u_KeepFirst u).

(** ** Recording *)

(** [record] up to what it hands to [Persist]; [None] when the path is held. *)
Definition push (now : Z) (cp : Checkpoint) (u : UndoLog) : option Checkpoint * UndoLog :=
  if u_KeepFirst u && existsb (λ held, String.eqb (cp_Path held) (cp_Path cp)) (u_stack u) then (None, u)
  else
    let cp := MkCheckpoint (cp_Path cp) (cp_Before cp) (cp_Existed cp) (u_turn u) now (cp_Seq cp) (cp_Blob cp) (cp_Mode cp)
                (cp_Skipped cp) (cp_load cp) in
    (Some cp, with_stack (u_stack u ++ [cp]) u).

(** What it writes back once the checkpoint is kept. *)
Definition kept_as (saved held : Checkpoint) : Checkpoint :=
  let skip := negb (String.eqb (cp_Skipped saved) "") in
  MkCheckpoint (cp_Path held) (if skip then None else cp_Before held) (cp_Existed held) (cp_Turn held) (cp_At held)
    (cp_Seq saved) (cp_Blob saved) (cp_Mode saved) (if skip then cp_Skipped saved else cp_Skipped held) (cp_load held).
Definition waits_for (cp held : Checkpoint) : bool :=
  String.eqb (cp_Path held) (cp_Path cp) && (cp_At held =? cp_At cp) && (cp_Seq held =? 0).
Fixpoint update_first {A} (p : A → bool) (f : A → A) (l : list A) : list A :=
  match l with [] => [] | x :: l => if p x then f x :: l else x :: update_first p f l end.
Definition settle (cp saved : Checkpoint) (u : UndoLog) : UndoLog :=
  with_stack (reverse (update_first (waits_for cp) (kept_as saved) (reverse (u_stack u)))) u.

(** [record]. [Persist] gives the checkpoint with its step and blob, or fails;
    [None] is a log without it. *)
Definition record (persist : option (Checkpoint → option Checkpoint)) (now : Z) (cp : Checkpoint) (u : UndoLog) : UndoLog :=
  match push now cp u with
  | (None, u) => u
  | (Some cp, u) =>
      match persist with
      | None => u
      | Some persist => match persist cp with None => u | Some saved => settle cp saved u end
      end
  end.

(** [Record], and [RecordBefore] of a file a command changed. *)
Definition checkpoint_of (path : string) (before : option string) (existed : bool) : Checkpoint :=
  MkCheckpoint path before existed 0 0 0 "" 0 "" None.
Definition Record persist now path before existed := record persist now (checkpoint_of path before existed).

Record FileBefore : Type := MkFileBefore { fb_Path : string; fb_Before : option string; fb_Existed : bool; fb_Mode : Z; fb_Skipped : string }.
Definition RecordBefore persist now (f : FileBefore) : UndoLog → UndoLog :=
  let skip := negb (String.eqb (fb_Skipped f) "") in
  record persist now (MkCheckpoint (fb_Path f) (if skip then None else fb_Before f) (skip || fb_Existed f) 0 0 0 ""
                        (fb_Mode f) (fb_Skipped f) None).

(** ** The log a record holds *)

(** The stack less the checkpoints at or after a step, from its end. *)
Fixpoint drop_from (used : Z) (newest_first : list Checkpoint) : list Checkpoint :=
  match newest_first with
  | [] => []
  | cp :: rest => if used <=? cp_Seq cp then drop_from used rest else newest_first
  end.

Definition saved_checkpoint (get : bool) (e : event) (c : checkpoint_saved) : Checkpoint :=
  MkCheckpoint (sv_Path c) None (negb (String.eqb (sv_SHA256 c) "") || negb (String.eqb (sv_Skipped c) "")) (sv_Turn c) (ev_At e)
    (ev_Seq e) (sv_SHA256 c) (Z.land (sv_Mode c) 511) (sv_Skipped c)
    (if negb (String.eqb (sv_SHA256 c) "") && get then Some (sv_SHA256 c) else None).

Definition rebuild_event (get : bool) (s : list Checkpoint * Z) (e : event) : list Checkpoint * Z :=
  let '(stack, turn) := s in
  match ev_Body e with
  | Checkpointed (Some c) => (stack ++ [saved_checkpoint get e c], Z.max turn (sv_Turn c))
  | Restored (Some r) =>
      match ParseInt (rs_Checkpoint r) with
      | Some used => (reverse (drop_from used (reverse stack)), turn)
      | None => s
      end
  | _ => s
  end.
(** [Rebuild]; [get] tells whether contents can be read. *)
Definition Rebuild (get : bool) (events : list event) (u : UndoLog) : UndoLog :=
  let '(stack, turn) := foldl (rebuild_event get) ([], 0) events in MkUndoLog stack turn (u_KeepFirst u).

(** ** Reading the log *)

(** The newest checkpoints a step or a turn takes, newest first, and the rest. *)
Fixpoint span_while {A} (p : A → bool) (l : list A) : list A * list A :=
  match l with
  | [] => ([], [])
  | x :: rest => if p x then let '(a, b) := span_while p rest in (x :: a, b) else ([], l)
  end.

(** For each path the checkpoint met first, or met last. *)
Definition first_of (cps : list Checkpoint) : gmap string Checkpoint := foldr (λ cp m, <[cp_Path cp := cp]> m) ∅ cps.
Definition last_of (cps : list Checkpoint) : gmap string Checkpoint := foldl (λ m cp, <[cp_Path cp := cp]> m) ∅ cps.
Definition by_path (m : gmap string Checkpoint) : list Checkpoint := omap (λ p, m !! p) (sorted_keys m).

(** [Since] takes what it returns off the log. *)
Definition Since (seq : Z) (u : UndoLog) : list Checkpoint * UndoLog :=
  let '(taken, rest) := span_while (λ cp, seq <? cp_Seq cp) (reverse (u_stack u)) in
  (by_path (first_of (reverse taken)), with_stack (reverse rest) u).

Definition Peek (seq : Z) (u : UndoLog) : nat := length (List.filter (λ cp, seq <? cp_Seq cp) (u_stack u)).

Definition LastTurnStart (u : UndoLog) : option Z :=
  match last (u_stack u) with
  | None => None
  | Some newest =>
      let turn := fst (span_while (λ cp, cp_Turn cp =? cp_Turn newest) (reverse (u_stack u))) in
      if existsb (λ cp, cp_Seq cp =? 0) turn then None
      else match last turn with Some cp => Some (wrap64 (cp_Seq cp - 1)) | None => None end
  end.

Definition Pending (u : UndoLog) : nat := size (list_to_set (map cp_Turn (u_stack u)) : gset Z).
Definition Changed (u : UndoLog) : list string := sort_strings (base.elements (list_to_set (map cp_Path (u_stack u)) : gset string)).

Definition at_path (path : string) (cp : Checkpoint) : bool := String.eqb (cp_Path cp) path.
Definition accept_as (content : string) (cp : Checkpoint) : Checkpoint :=
  MkCheckpoint (cp_Path cp) (Some content) true (cp_Turn cp) (cp_At cp) (cp_Seq cp) (cp_Blob cp) (cp_Mode cp) (cp_Skipped cp) (cp_load cp).
Definition Accept (path content : string) (u : UndoLog) : bool * UndoLog :=
  (existsb (at_path path) (u_stack u), with_stack (update_first (at_path path) (accept_as content) (u_stack u)) u).

Section files.
(** The blob store's reads, and the session's file functions: what [RestoreFile]
    and [RemoveFile] do to the files [W], and how they fail. *)
Context {W : Type} (get : string → string + string).

(** [content]: nil bytes read as none. *)
Definition content (cp : Checkpoint) : string + string :=
  match cp_Before cp, cp_load cp with
  | Some b, _ => inr b
  | None, Some sha => if cp_Existed cp then get sha else inr ""
  | None, None => inr ""
  end.

Definition Original (path : string) (u : UndoLog) : option string * bool * bool :=
  match find_first (at_path path) (u_stack u) with
  | None => (None, false, false)
  | Some cp =>
      if negb (String.eqb (cp_Skipped cp) "") then (None, true, false)
      else match content cp with
           | inl _ => (None, cp_Existed cp, false)
           | inr data => (Some data, cp_Existed cp, true)
           end
  end.

(** A removal fails with an error, and whether it says there is no such file. *)
Record Files : Type := MkFiles {
  f_write : option (string → string → W → option string * W);
  f_remove : option (string → W → option (string * bool) * W)
}.
Context (fs : Files).

Definition write (path data : string) (w : W) : option string * W :=
  match f_write fs with Some f => f path data w | None => (Some "undo has no way to write files", w) end.
Definition remove (path : string) (w : W) : option (string * bool) * W :=
  match f_remove fs with Some f => f path w | None => (Some ("undo has no way to remove files", false), w) end.

(** ** Undo *)

(** One file put back: what was done, or why not. *)
Definition undo_one (cp : Checkpoint) (w : W) : (string + string) * W :=
  let path := cp_Path cp in
  if negb (String.eqb (cp_Skipped cp) "") then
    (inl (path ++ ": no copy was kept before the change (" ++ cp_Skipped cp ++ ")")%string, w)
  else if negb (cp_Existed cp) then
    match remove path w with
    | (Some (err, false), w) => (inl (path ++ ": " ++ err)%string, w)
    | (_, w) => (inr ("removed " ++ Base path)%string, w)
    end
  else
    match content cp with
    | inl err => (inl (path ++ ": " ++ err)%string, w)
    | inr before =>
        match write path before w with
        | (Some err, w) => (inl (path ++ ": " ++ err)%string, w)
        | (None, w) => (inr ("restored " ++ Base path)%string, w)
        end
    end.

Fixpoint undo_each (cps : list Checkpoint) (w : W) : list (string + string) * W :=
  match cps with
  | [] => ([], w)
  | cp :: cps => let '(r, w) := undo_one cp w in let '(rs, w) := undo_each cps w in (r :: rs, w)
  end.
Definition failure (r : string + string) : option string := match r with inl f => Some f | inr _ => None end.
Definition restored (r : string + string) : option string := match r with inl _ => None | inr x => Some x end.

(** [Undo]: the lines of what was put back, and the error. *)
Definition Undo (u : UndoLog) (w : W) : list string * option string * UndoLog * W :=
  match last (u_stack u) with
  | None => ([], Some "nothing to undo", u, w)
  | Some newest =>
      let '(batch, rest) := span_while (λ cp, cp_Turn cp =? cp_Turn newest) (reverse (u_stack u)) in
      let '(rs, w) := undo_each (by_path (last_of batch)) w in
      let err := match omap failure rs with
                 | [] => None
                 | fs => Some ("some files could not be reverted: " ++ Join fs "; ")%string
                 end in
      (omap restored rs, err, with_stack (reverse rest) u, w)
  end.
End files.

(** * Theorems

    What the undo log promises: a turn undone leaves the files as they
    were when the turn began, and the log as it was. *)

(** ** Which checkpoint of a path counts *)

Lemma first_of_lookup cps p : first_of cps !! p = find_first (at_path p) cps.
Proof.
  induction cps as [|cp cps IH]; [apply lookup_empty|]. cbn. unfold at_path at 1. destruct (String.eqb_spec (cp_Path cp) p) as [->|Hne].
  - apply lookup_insert_eq.
  - by rewrite lookup_insert_ne.
Qed.

Lemma last_of_reverse cps : last_of (reverse cps) = first_of cps.
Proof.
  unfold last_of, first_of. induction cps as [|cp cps IH]; [done|]. by rewrite reverse_cons, foldl_app, IH.
Qed.

Lemma find_first_app {A} (p : A → bool) a b :
  find_first p (a ++ b) = match find_first p a with Some x => Some x | None => find_first p b end.
Proof. induction a as [|x a IH]; [done|]. cbn. by destruct (p x). Qed.

Lemma span_while_app {A} (p : A → bool) a b : Forall (λ x, p x = true) a → Forall (λ x, p x = false) b → span_while p (a ++ b) = (a, b).
Proof.
  induction 1 as [|x a Hx _ IH]; intros Hb; cbn.
  - destruct Hb as [|y b Hy _]; [done|]. cbn. by rewrite Hy.
  - by rewrite Hx, (IH Hb).
Qed.

(** The checkpoints put back: one a path, the path's own. *)
Definition keyed (m : gmap string Checkpoint) : Prop := ∀ p cp, m !! p = Some cp → cp_Path cp = p.

Lemma find_first_path p cps cp : find_first (at_path p) cps = Some cp → cp_Path cp = p ∧ cp ∈ cps.
Proof.
  induction cps as [|x cps IH]; [done|]. cbn. unfold at_path at 1. destruct (String.eqb_spec (cp_Path x) p) as [<-|Hne].
  - intros [= <-]. split; [done|by left].
  - intros H. destruct (IH H). split; [done|by right].
Qed.

Lemma first_of_keyed cps : keyed (first_of cps).
Proof. intros p cp. rewrite first_of_lookup. intros H. by apply find_first_path in H as [? _]. Qed.

Lemma sorted_keys_NoDup {V} (m : gmap string V) : NoDup (sorted_keys m).
Proof. unfold sorted_keys. rewrite sort_strings_perm. apply NoDup_fst_map_to_list. Qed.

Lemma by_path_in m cp : keyed m → cp ∈ by_path m ↔ m !! cp_Path cp = Some cp.
Proof.
  intros Hk. unfold by_path. rewrite list_elem_of_omap. split.
  - intros (p & _ & H). by rewrite (Hk _ _ H).
  - intros H. exists (cp_Path cp). split; [|done]. apply elem_of_sorted_keys. by eexists.
Qed.

Lemma by_path_NoDup m : keyed m → NoDup (map cp_Path (by_path m)).
Proof.
  intros Hk. unfold by_path. pose proof (sorted_keys_NoDup m) as Hnd. induction (sorted_keys m) as [|p ps IH]; [constructor|].
  apply NoDup_cons in Hnd as [Hp Hnd]. cbn. destruct (m !! p) as [cp|] eqn:E; [|by apply IH]. cbn. apply NoDup_cons. split; [|by apply IH].
  intros Hin. apply list_elem_of_fmap in Hin as (cp' & Ep & Hin). apply list_elem_of_omap in Hin as (q & Hq & Eq).
  rewrite (Hk _ _ E), (Hk _ _ Eq) in Ep. by subst.
Qed.

(** ** Files a map of contents *)

(** The session's functions on the files of its workspace. *)
Definition map_files : Files (W := gmap string string) := MkFiles
  (Some (λ p data w, (None, <[p := data]> w)))
  (Some (λ p w, (match w !! p with Some _ => None | None => Some ("no such file or directory", true) end, delete p w))).

(** What a checkpoint says its file held, when it says so. *)
Definition held (cp : Checkpoint) : option string := if cp_Existed cp then cp_Before cp else None.
Definition restorable (cp : Checkpoint) : Prop := cp_Skipped cp = "" ∧ (cp_Existed cp = true → is_Some (cp_Before cp)).
Definition put_back (p : string) (c : option string) (w : gmap string string) : gmap string string :=
  match c with Some data => <[p := data]> w | None => delete p w end.

Section undo.
Context (get : string → string + string).

Lemma undo_one_held cp w : restorable cp → ∃ line, undo_one get map_files cp w = (inr line, put_back (cp_Path cp) (held cp) w).
Proof.
  intros [Hs Hb]. unfold undo_one, held. rewrite Hs. cbn. destruct (cp_Existed cp) eqn:Ee; cbn.
  - destruct (Hb eq_refl) as [b Eb]. unfold content. rewrite Eb. cbn. by eexists.
  - destruct (w !! cp_Path cp); cbn; by eexists.
Qed.

Lemma undo_each_held cps : ∀ w, NoDup (map cp_Path cps) → Forall restorable cps →
  ∃ lines w', undo_each get map_files cps w = (map inr lines, w') ∧
    (∀ cp, cp ∈ cps → w' !! cp_Path cp = held cp) ∧ (∀ p, p ∉ map cp_Path cps → w' !! p = w !! p).
Proof.
  induction cps as [|cp cps IH]; intros w Hnd Hall; cbn [undo_each map].
  - exists [], w. split_and!; [done| |done]. by intros cp H%not_elem_of_nil.
  - cbn in Hnd. apply NoDup_cons in Hnd as [Hni Hnd]. apply Forall_cons in Hall as [Hcp Hall]. destruct (undo_one_held cp w Hcp) as [line ->].
    destruct (IH (put_back (cp_Path cp) (held cp) w) Hnd Hall) as (lines & w' & -> & Hin & Hout). exists (line :: lines), w'.
    assert (Hput : ∀ p, put_back (cp_Path cp) (held cp) w !! p = if bool_decide (cp_Path cp = p) then held cp else w !! p).
    { intros p. unfold put_back. case_bool_decide as E; [subst; destruct (held cp); [apply lookup_insert_eq|apply lookup_delete_eq]|].
      destruct (held cp); [by apply lookup_insert_ne|by apply lookup_delete_ne]. }
    split_and!; [done| |].
    + intros x [->|Hx]%elem_of_cons; [|by apply Hin]. rewrite Hout by done. rewrite Hput. by rewrite bool_decide_eq_true_2.
    + intros p Hp. cbn in Hp. apply not_elem_of_cons in Hp as [H1 H2]. rewrite Hout, Hput by done. by rewrite bool_decide_eq_false_2 by done.
Qed.

(** ** A turn of edits *)

(** The agent changes a file: it is recorded as it is, then written or removed. *)
Record edit : Type := MkEdit { ed_At : Z; ed_Path : string; ed_New : option string }.
Context (persist : option (Checkpoint → option Checkpoint)).
Definition run_edit (s : UndoLog * gmap string string) (e : edit) : UndoLog * gmap string string :=
  let '(u, w) := s in
  (Record persist (ed_At e) (ed_Path e) (w !! ed_Path e) (bool_decide (is_Some (w !! ed_Path e))) u, put_back (ed_Path e) (ed_New e) w).

Definition never_skips : Prop := ∀ f cp saved, persist = Some f → f cp = Some saved → cp_Skipped saved = "".

Lemma record_appends now cp u : never_skips → u_KeepFirst u = false → cp_Seq cp = 0 →
  ∃ cp', record persist now cp u = with_stack (u_stack u ++ [cp']) u ∧ cp_Path cp' = cp_Path cp ∧ cp_Turn cp' = u_turn u ∧
    cp_Existed cp' = cp_Existed cp ∧ cp_Before cp' = cp_Before cp ∧ cp_Skipped cp' = cp_Skipped cp.
Proof.
  intros Hns Hk Hseq. unfold record, push. rewrite Hk. cbn [andb]. set (new := MkCheckpoint _ _ _ _ _ _ _ _ _ _).
  destruct persist as [f|] eqn:Ep; [|by exists new]. destruct (f new) as [saved|] eqn:Ef; [|by exists new].
  exists (kept_as saved new). pose proof (Hns f new saved Ep Ef) as Hs. split.
  - unfold settle, with_stack. cbn [u_stack u_turn u_KeepFirst]. rewrite reverse_snoc. cbn [update_first]. unfold waits_for at 1.
    subst new. cbn [cp_Path cp_At cp_Seq]. rewrite String.eqb_refl, Z.eqb_refl, Hseq. cbn [andb Z.eqb]. by rewrite reverse_cons, reverse_involutive.
  - unfold kept_as. rewrite Hs. by split_and!.
Qed.

(** The checkpoints of the turn so far, and what they say of each file. *)
Definition turn_held (base : list Checkpoint) (turn : Z) (w0 : gmap string string) (s : UndoLog * gmap string string) (n : nat) : Prop :=
  ∃ cps, u_stack (fst s) = base ++ cps ∧ u_turn (fst s) = turn ∧ u_KeepFirst (fst s) = false ∧ length cps = n ∧
    Forall (λ cp, cp_Turn cp = turn ∧ restorable cp) cps ∧
    ∀ p, match find_first (at_path p) cps with Some cp => held cp = w0 !! p | None => snd s !! p = w0 !! p end.

Lemma run_edit_held base turn w0 s n e : never_skips → turn_held base turn w0 s n → turn_held base turn w0 (run_edit s e) (S n).
Proof.
  intros Hns (cps & Hst & Ht & Hk & Hn & Hall & Hp). destruct s as [u w]. cbn [fst snd] in *. unfold run_edit, Record.
  set (before := w !! ed_Path e). destruct (record_appends (ed_At e) (checkpoint_of (ed_Path e) before (bool_decide (is_Some before))) u Hns Hk eq_refl)
    as (cp & -> & Hpath & Hturn & Hex & Hbe & Hsk). cbn [checkpoint_of cp_Path cp_Existed cp_Before cp_Skipped] in *.
  assert (Hheld : held cp = before).
  { unfold held. rewrite Hex, Hbe. case_bool_decide as E; [done|]. by apply eq_None_not_Some in E. }
  exists (cps ++ [cp]). cbn [fst snd u_stack u_turn u_KeepFirst with_stack]. rewrite Hst, <- app_assoc. split_and!; try done.
  - rewrite length_app. cbn. lia.
  - apply Forall_app_2; [done|]. apply Forall_singleton. split; [by rewrite Hturn|]. split; [done|]. rewrite Hex, Hbe. by intros H%bool_decide_eq_true.
  - intros p. rewrite find_first_app. specialize (Hp p). destruct (find_first (at_path p) cps) as [x|]; [done|]. cbn. unfold at_path.
    destruct (String.eqb_spec (cp_Path cp) p) as [<-|Hne]; [by rewrite Hheld, Hpath in *|]. rewrite Hpath in Hne.
    unfold put_back. destruct (ed_New e); by rewrite ?lookup_insert_ne, ?lookup_delete_ne.
Qed.

Lemma run_edits_held base turn w0 es : ∀ s n, never_skips → turn_held base turn w0 s n → turn_held base turn w0 (foldl run_edit s es) (length es + n).
Proof.
  induction es as [|e es IH]; intros s n Hns H; [done|]. cbn [foldl length]. replace (S (length es) + n)%nat with (length es + S n)%nat by lia.
  apply IH; [done|]. by apply run_edit_held.
Qed.

(** C24: However a turn changed the files, several times over, creating, rewriting and
    removing them, undoing it restores every file to what it held when the turn
    began, without an error, and takes exactly the turn's checkpoints off the log;
    another undo goes on to the turn before. *)
Theorem Undo_restores es u w : never_skips → u_KeepFirst u = false → Forall (λ cp, cp_Turn cp <= u_turn u) (u_stack u) → es ≠ [] →
  let '(u1, w1) := foldl run_edit (BeginTurn u, w) es in
  let '(lines, err, u2, w2) := Undo get map_files u1 w1 in
  w2 = w ∧ err = None ∧ u_stack u2 = u_stack u.
Proof.
  intros Hns Hk Hold Hne. destruct (foldl run_edit (BeginTurn u, w) es) as [u1 w1] eqn:Er.
  assert (Hh : turn_held (u_stack u) (u_turn u + 1) w (u1, w1) (length es)).
  { rewrite <- Er. replace (length es) with (length es + 0)%nat by lia. apply run_edits_held; [done|]. exists []. cbn. rewrite app_nil_r. by split_and!. }
  destruct Hh as (cps & Hst & Ht & _ & Hn & Hall & Hp). cbn [fst snd] in *.
  assert (Hcps : ∃ front newest, cps = front ++ [newest]).
  { destruct cps as [|x l] using rev_ind; [by destruct es|]. by eexists _, _. }
  destruct Hcps as (front & newest & Ecps). assert (Hnew : cp_Turn newest = u_turn u + 1).
  { apply Forall_forall with (x := newest) in Hall as [H _]; [done|]. rewrite Ecps. apply elem_of_app. right. by left. }
  unfold Undo. rewrite Hst. assert (Hlast : last (u_stack u ++ cps) = Some newest) by (by rewrite Ecps, app_assoc, last_snoc).
  rewrite Hlast, reverse_app, (span_while_app _ (reverse cps)).
  2:{ apply Forall_reverse. eapply Forall_impl; [exact Hall|]. cbn. intros cp [-> _]. rewrite Hnew. apply Z.eqb_refl. }
  2:{ apply Forall_reverse. eapply Forall_impl; [exact Hold|]. cbn. intros cp Hle. apply Z.eqb_neq. lia. }
  rewrite last_of_reverse. destruct (undo_each_held (by_path (first_of cps)) w1) as (lines & w' & -> & Hin & Hout).
  { apply by_path_NoDup, first_of_keyed. }
  { apply Forall_forall. intros cp Hcp. apply by_path_in in Hcp; [|apply first_of_keyed]. rewrite first_of_lookup in Hcp.
    apply find_first_path in Hcp as [_ Hcp]. by apply Forall_forall with (x := cp) in Hall as [_ ?]. }
  assert (Hfail : ∀ ls : list string, omap failure (map inr ls) = []) by (by induction ls). rewrite Hfail. split_and!; [|done|].
  - apply map_eq. intros p. specialize (Hp p). destruct (find_first (at_path p) cps) as [cp|] eqn:Ef.
    + destruct (find_first_path _ _ _ Ef) as [Epath _]. rewrite <- Hp, <- Epath. apply Hin. apply by_path_in; [apply first_of_keyed|].
      by rewrite first_of_lookup, Epath.
    + rewrite <- Hp. apply Hout. intros Hmem. apply list_elem_of_fmap in Hmem as (cp & -> & Hcp). apply by_path_in in Hcp; [|apply first_of_keyed].
      by rewrite first_of_lookup, Ef in Hcp.
  - cbn. by rewrite reverse_involutive.
Qed.
End undo.

(** A turn that rewrites a file twice, removes one and makes one, each checkpoint
    kept in the record as it is taken. *)
Definition kept_at_step (cp : Checkpoint) : option Checkpoint :=
  Some (MkCheckpoint (cp_Path cp) (cp_Before cp) (cp_Existed cp) (cp_Turn cp) (cp_At cp) (10 + cp_At cp) "sha" 420 "" None).
Definition a_tree : gmap string string := <["/w/a" := "one"]> (<["/w/b" := "two"]> ∅).
Definition a_turn : list edit :=
  [MkEdit 1 "/w/a" (Some "1"); MkEdit 2 "/w/c" (Some "new"); MkEdit 3 "/w/a" (Some "uno"); MkEdit 4 "/w/b" None].

Definition turned : UndoLog * gmap string string := foldl (run_edit (Some kept_at_step)) (BeginTurn NewUndoLog, a_tree) a_turn.

Lemma Undo_restores_witness :
  (let '(u1, w1) := turned in
   map (λ cp, (cp_Path cp, cp_Seq cp)) (u_stack u1) = [("/w/a", 11); ("/w/c", 12); ("/w/a", 13); ("/w/b", 14)] ∧
   fst (fst (fst (Undo inr map_files u1 w1))) = ["restored a"; "restored b"; "removed c"]) ∧
  (let '(u1, w1) := turned in
   let '(lines, err, u2, w2) := Undo inr map_files u1 w1 in w2 = a_tree ∧ err = None ∧ u_stack u2 = []).
Proof.
  split; [vm_compute; by split|]. apply (Undo_restores inr (Some kept_at_step) a_turn NewUndoLog a_tree).
  - intros f cp saved [= <-] [= <-]. reflexivity.
  - reflexivity.
  - constructor.
  - discriminate.
Defined.
