(* ===== verification/Branch.v ===== *)
(** Going back in a session and branching it (src/internal/agent/fork.go,
    rewind.go): the loop's forks, which leave the abandoned part in the record
    behind a marker, and the events a branch of a session starts from. *)

From Stdlib Require Import ZArith Ascii String Lia.
From stdpp Require Import base tactics list option gmap strings sorting.
From S2P Require Import Prelude.
From S2P Require Import Undo.
From S2P Require Import GoStd.
From S2P Require Import ShellSplit.
From S2P Require Import Args.
From S2P Require Import AgentTools.
From S2P Require Import SessionRecord.
From S2P Require Import Transcript.

#[local] Open Scope string_scope.
#[local] Open Scope Z_scope.
#[local] Open Scope list_scope.

(** ** Forks of a loop *)

Section fork.
Context (tx : Text) (lex : string → RawMessage).

(** What a fork does to the session's scoped values: those taken after a time are
    forgotten, or all of them. *)
Inductive scope_call : Set := ForgetScopedAfter (t : Z) | ResetScoped.

(** What a fork reads and changes of a loop with no suggestion running: its
    messages, its recorder and store, the calls it makes on the session's scoped
    values, whether the supervisor's reading of the conversation is loaded, and
    whether a runbook is bound. *)
Record forking : Type := MkForking {
  fk_messages : list message; fk_recorder : Recorder; fk_store : MemStore;
  fk_scoped : list scope_call; fk_loaded : bool; fk_bound : bool
}.

Inductive fork_refusal : Type := NotAStep | NothingToFork | TasksRunning (running : list string) | NotRecorded.

(** One marker recorded: whether it was, and the loop after. *)
Definition record_fork (gate : bool) (id : string) (now : Z) (through : Z) (l : forking) : bool * forking :=
  let '(r, rec, m) := Record gate id now ActorUser (Forked (Some through)) (fk_recorder l) (fk_store l) in
  let l := MkForking (fk_messages l) rec m (fk_scoped l) (fk_loaded l) (fk_bound l) in
  (match r with Wrote _ ok => ok | Sealed => true | Gated => false end, l).

(** [forkTime]. *)
Definition forkTime (live : list event) (seq : Z) : Z :=
  match find_first (λ e, ev_Seq e =? seq) live with Some e => ev_At e | None => 0 end.

(** The messages a fork goes on from. *)
Definition fork_messages (live : list event) (seq : Z) (empty : bool) : fork_refusal + list message :=
  if negb (existsb (λ e, ev_Seq e =? seq) live) then inl NotAStep
  else match Fork tx lex live seq with
       | Some msgs => inr msgs
       | None => if empty then inr [] else inl NothingToFork
       end.

(** The step a fork asks for: 0 is the last live one. *)
Definition fork_step (live : list event) (seq : Z) : Z :=
  if (seq <=? 0) then match last live with Some e => ev_Seq e | None => seq end else seq.

(** [forkTo]: how many messages were kept and the step recorded. [running] names
    the background tasks still running; [gate], [id] and [now] are as for
    [Record]. *)
Definition forkTo (running : list string) (gate : bool) (id : string) (now : Z) (events : list event) (seq : Z) (empty : bool)
    (l : forking) : (fork_refusal + nat * Z) * forking :=
  let live := Live events in
  let seq := fork_step live seq in
  match fork_messages live seq empty with
  | inl r => (inl r, l)
  | inr msgs =>
      match running with
      | _ :: _ => (inl (TasksRunning running), l)
      | [] =>
          match record_fork gate id now seq l with
          | (false, l) => (inl NotRecorded, l)
          | (true, l) =>
              (inr (length msgs, seq),
               MkForking msgs (fk_recorder l) (fk_store l) (fk_scoped l ++ [ForgetScopedAfter (forkTime live seq)]) false false)
          end
      end
  end.
Definition ForkTo running gate id now events seq := forkTo running gate id now events seq false.

(** [ForkBefore], a whole rewind to just before a prompt. *)
Definition RewindTo (running : list string) (gate : bool) (id : string) (now : Z) (events : list event) (seq : Z)
    (l : forking) : (fork_refusal + nat * Z) * forking :=
  match ForkBefore events seq with
  | Some through => forkTo running gate id now events through true l
  | None =>
      match running with
      | _ :: _ => (inl (TasksRunning running), l)
      | [] =>
          match record_fork gate id now 0 l with
          | (false, l) => (inl NotRecorded, l)
          | (true, l) => (inr (0%nat, 0), MkForking [] (fk_recorder l) (fk_store l) (fk_scoped l ++ [ResetScoped]) false (fk_bound l))
          end
      end
  end.

(** [Restore]. *)
Definition Restore (msgs : list message) (l : forking) : forking :=
  MkForking msgs (fk_recorder l) (fk_store l) (fk_scoped l) false (fk_bound l).
End fork.

(** ** Branches *)

(** [BlobRefs]. *)
Definition blob_refs (e : event) : list string :=
  match ev_Body e with
  | Checkpointed (Some c) => List.filter (λ h, negb (String.eqb h "")) [sv_SHA256 c]
  | Restored (Some r) => List.filter (λ h, negb (String.eqb h "")) [rs_Before r; rs_After r]
  | _ => []
  end.
Definition BlobRefs (events : list event) : list string := concat (map blob_refs events).

(** [sort.SliceStable] by step. *)
Fixpoint insert_step (e : event) (l : list event) : list event :=
  match l with
  | [] => [e]
  | x :: rest => if ev_Seq e <=? ev_Seq x then e :: l else x :: insert_step e rest
  end.
Definition by_step (l : list event) : list event := foldr insert_step [] l.

(** What a branch does not copy though it stands, and what it copies though it
    does not. *)
Definition left_behind (b : body) : bool := match b with Fragment | Forked _ | Named => true | _ => false end.
Definition always_copied (b : body) : bool := match b with Checkpointed _ | Restored _ => true | _ => false end.
Definition picks (live : gset Z) (through : Z) (e : event) : bool :=
  negb (past through e) && negb (left_behind (ev_Body e)) && (bool_decide (ev_Seq e ∈ live) || always_copied (ev_Body e)).

Definition picked (events : list event) (through : Z) : list event :=
  by_step (List.filter (picks (list_to_set (map ev_Seq (Live events))) through) events).

(** The first copied step at or after one of the source's; the steps are sorted. *)
Fixpoint steps_below (seq : Z) (old : list Z) : Z :=
  match old with s :: rest => if s <? seq then 1 + steps_below seq rest else 0 | [] => 0 end.
Definition renumber (first : Z) (old : list Z) (seq : Z) : Z := wrap64 (first + steps_below seq old).

Definition renumberThrough (renum : Z → Z) (through : option Z) : option Z :=
  match through with Some t => if 0 <? t then Some (renum t) else through | None => None end.

Definition copied_body (renum : Z → Z) (b : body) : body :=
  match b with
  | SessionStarted t => SessionStarted (renumberThrough renum t)
  | SessionResumed t => SessionResumed (renumberThrough renum t)
  | Restored (Some r) =>
      match ParseInt (rs_Checkpoint r) with
      | Some used => Restored (Some (MkRestored (rs_Path r) (rs_Before r) (rs_After r) (Itoa (renum used))))
      | None => b
      end
  | _ => b
  end.

(** [BranchCopy]; [newID] gives the ids, one a copy. *)
Definition BranchCopy (newID : nat → string) (events : list event) (through : Z) (sessionID : string) (first : Z) : list event :=
  let from := picked events through in
  let renum := renumber first (map ev_Seq from) in
  imap (λ i e, MkEvent (newID i) sessionID "" (wrap64 (first + Z.of_nat i)) (ev_Actor e) (ev_At e) (copied_body renum (ev_Body e))) from.

(** * Theorems

    What going back and branching keep: the record a fork leaves
    rebuilds to the conversation the loop goes on with, and a branch has its
    source's conversation and its undo log. *)

Definition positive (es : list event) : Prop := Forall (λ e, 0 < ev_Seq e) es.

(** The events of a record in order up to a step. *)
Lemma up_to_filter through es : in_order es → up_to through es = List.filter (λ e, negb (past through e)) es.
Proof.
  induction es as [|e es IH]; intros H; [done|]. cbn. apply (in_order_app [e]) in H as (_ & H & Hlt). rewrite IH by done.
  destruct (past through e) eqn:Ep; cbn; [|done]. symmetry. unfold past in Ep. apply andb_true_iff in Ep as [E1 E2].
  clear IH. induction es as [|x es IH]; [done|]. apply (in_order_app [x]) in H as (_ & H & _). cbn. assert (past through x = true) as ->.
  { unfold past. rewrite E1. pose proof (Hlt e x ltac:(by left) ltac:(by left)). apply Z.ltb_lt in E2. apply Z.ltb_lt. lia. }
  apply IH; [done|]. intros y z Hy Hz. apply Hlt; [done|by right].
Qed.

Lemma up_to_all es : up_to 0 es = es.
Proof. induction es as [|e es IH]; [done|]. cbn. by rewrite IH. Qed.
Lemma answered_none es : answeredLater 0 es = ∅.
Proof. unfold answeredLater. by induction es. Qed.

Section rebuild.
Context (tx : Text) (lex : string → RawMessage).

(** What a cut leaves open that is answered past it: the turn of such a call is
    dropped. *)
Definition cut_calls (events : list event) (through : Z) : gset string :=
  answeredLater through (Live events) ∩ dom (rb_pending (rebuild_all tx lex (up_to through (Live events)))).

(** The conversation of events with nothing cut. *)
Definition told (events : list event) : option (list message) :=
  let s := rebuild_all tx lex events in
  match answerAll (rb_denied s) (rb_msgs s) with [] => None | msgs => Some msgs end.

Lemma Fork_told events through : cut_calls events through = ∅ → Fork tx lex events through = told (up_to through (Live events)).
Proof. unfold cut_calls, Fork, told. intros ->. by rewrite truncateAt_none. Qed.
Lemma Fork_whole events : Fork tx lex events 0 = told (Live events).
Proof. rewrite Fork_told; [by rewrite up_to_all|]. unfold cut_calls. rewrite answered_none. set_solver. Qed.
Lemma told_some events msgs : told events = Some msgs ↔ msgs ≠ [] ∧ let s := rebuild_all tx lex events in answerAll (rb_denied s) (rb_msgs s) = msgs.
Proof. unfold told. cbv zeta. destruct (answerAll _ _); [|naive_solver]. split; [done|]. by intros [? <-]. Qed.

(** ** A fork and its record *)

(** The record's events up to a step of it, once a marker says so. *)
Lemma Live_marked es e through : in_order (es ++ [e]) → ev_Body e = Forked (Some through) →
  Live (es ++ [e]) = List.filter (λ x, ev_Seq x <=? through) (Live es).
Proof.
  intros Ho He. assert (Hin : in_order es) by (by apply in_order_app in Ho as [? _]). unfold Live at 1. rewrite foldl_app. cbn. unfold live_step.
  rewrite He. fold (Live es). by rewrite drop_after_filter by (by apply live_in_order).
Qed.

Lemma in_order_next es e : in_order es → behind (ev_Seq e - 1) es → in_order (es ++ [e]).
Proof.
  intros Ho Hb. apply in_order_app. split_and!; [done|repeat constructor|]. intros x y Hx Hy. apply list_elem_of_singleton in Hy as ->.
  apply Forall_forall with (x := x) in Hb; [|done]. cbn in Hb. lia.
Qed.

(** A session as one process holds it: its record in order, and its recorder at
    the end of it. *)
Definition at_end (r : Recorder) (m : MemStore) : Prop :=
  let es := session_events m (rc_session r) in
  in_order es ∧ positive es ∧ behind (rc_seq r) es ∧ 0 <= rc_seq r < int64_max.

Lemma record_fork_at_end id now through l : at_end (fk_recorder l) (fk_store l) →
  ∃ e rec, record_fork true id now through l =
    (true, MkForking (fk_messages l) rec (<[rc_session (fk_recorder l) := session_events (fk_store l) (rc_session (fk_recorder l)) ++ [e]]> (fk_store l))
             (fk_scoped l) (fk_loaded l) (fk_bound l)) ∧
    ev_Body e = Forked (Some through) ∧ rc_session rec = rc_session (fk_recorder l) ∧
    in_order (session_events (fk_store l) (rc_session (fk_recorder l)) ++ [e]).
Proof.
  intros (Ho & Hp & Hb & Hr). destruct (record_next id now ActorUser (Forked (Some through)) (fk_recorder l) (fk_store l) Hb Hr eq_refl)
    as (r' & E & Hs & _). unfold record_fork. rewrite E. eexists _, r'. split_and!; [done|done|done|]. apply in_order_next; [done|].
  cbn. by replace (rc_seq (fk_recorder l) + 1 - 1) with (rc_seq (fk_recorder l)) by lia.
Qed.

Lemma live_positive events : in_order events → positive events → positive (Live events).
Proof.
  intros Ho Hp. rewrite live_is_stands by done. apply Forall_forall. intros e He. apply Forall_forall with (x := e) in Hp; [done|].
  eapply elem_of_sublist; [exact He|apply stands_sublist].
Qed.

(** What a resume makes of messages. *)
Definition resumed (msgs : list message) : option (list message) := match msgs with [] => None | _ => Some msgs end.

Lemma marked_told events e through : in_order (events ++ [e]) → positive events → ev_Body e = Forked (Some through) → 0 < through →
  told (Live (events ++ [e])) = told (up_to through (Live events)).
Proof.
  intros Ho Hp He Ht. assert (Hin : in_order events) by (by apply in_order_app in Ho as [? _]).
  rewrite (Live_marked _ _ through) by done. rewrite up_to_filter by (by apply live_in_order). f_equal. apply List.filter_ext.
  intros x. unfold past. destruct (Z.ltb_spec 0 through); [|lia]. cbn. rewrite Z.ltb_antisym. by rewrite negb_involutive.
Qed.

Lemma fork_messages_told events s empty msgs : in_order events → positive events → cut_calls events s = ∅ →
  fork_messages tx lex (Live events) s empty = inr msgs → told (up_to s (Live events)) = resumed msgs ∧ 0 < s.
Proof.
  intros Ho Hp Hcut. unfold fork_messages. destruct (existsb _ _) eqn:Ex; cbn [negb]; [|done].
  assert (Hs : 0 < s).
  { apply existsb_exists in Ex as (e & He & Es%Z.eqb_eq). apply list_elem_of_In in He.
    pose proof (live_positive _ Ho Hp) as Hlp. apply Forall_forall with (x := e) in Hlp; [|done]. cbn in Hlp. lia. }
  rewrite Fork_told by (unfold cut_calls in *; by rewrite live_live). rewrite live_live by done.
  destruct (told _) as [ms|] eqn:E; [intros [= <-]|destruct empty; [intros [= <-]|done]]; split; try done.
  apply told_some in E as [Hne _]. by destruct ms.
Qed.

Lemma forkTo_marks running gate id now events seq empty l n at_ l' :
  events = session_events (fk_store l) (rc_session (fk_recorder l)) → at_end (fk_recorder l) (fk_store l) →
  cut_calls events (fork_step (Live events) seq) = ∅ →
  forkTo tx lex running gate id now events seq empty l = (inr (n, at_), l') →
  ∃ e, session_events (fk_store l') (rc_session (fk_recorder l')) = events ++ [e] ∧ ev_Body e = Forked (Some at_) ∧
    at_ = fork_step (Live events) seq ∧ in_order (events ++ [e]) ∧
    n = length (fk_messages l') ∧ fk_bound l' = false ∧ told (Live (events ++ [e])) = resumed (fk_messages l').
Proof.
  intros Eev Hend Hcut. unfold forkTo. destruct (fork_messages _ _ _ _ _) as [r|msgs] eqn:Em; [done|].
  destruct (fork_messages_told events _ empty msgs ltac:(subst events; apply Hend) ltac:(subst events; apply Hend) Hcut Em) as [Et Hs].
  destruct running; [|done]. destruct gate; [|done].
  destruct (record_fork_at_end id now (fork_step (Live events) seq) l Hend) as (e & rec & -> & Hb & Hsess & Ho). intros [= <- <- <-].
  exists e. cbn [fk_store fk_recorder fk_messages fk_bound]. rewrite Hsess, session_events_insert. subst events. split_and!; try done.
  rewrite <- Et. apply marked_told; try done. by apply Hend.
Qed.

(** What stands of a record before a prompt. *)
Definition standing_before (events : list event) (seq : Z) : list event := List.filter (λ x, ev_Seq x <? seq) (stands events).

Lemma before_prompt_filter seq live : in_order live → before_prompt seq live = List.filter (λ x, ev_Seq x <? seq) live.
Proof.
  induction live as [|x live IH]; [done|]. intros Ho. apply (in_order_app [x]) in Ho as (_ & Ho & Hlt). cbn. rewrite Z.leb_antisym.
  destruct (Z.ltb_spec (ev_Seq x) seq) as [|Hge]; cbn [negb]; [by rewrite IH|]. symmetry. rewrite <- IH by done. destruct live as [|y live]; [done|]. cbn.
  specialize (Hlt x y ltac:(by left) ltac:(by left)). by destruct (Z.leb_spec seq (ev_Seq y)); [|lia].
Qed.

(** The step a rewind goes back to keeps what stands before the prompt. *)
Lemma ForkBefore_keeps events seq : in_order events → positive events →
  List.filter (λ x, ev_Seq x <=? default 0 (ForkBefore events seq)) (stands events) =
    (if existsb model_saw (standing_before events seq) then standing_before events seq else []) ∧
  (is_Some (ForkBefore events seq) → 0 < default 0 (ForkBefore events seq)).
Proof.
  intros Ho Hp. unfold ForkBefore, standing_before. pose proof (live_in_order _ Ho) as HoL. pose proof (live_positive _ Ho Hp) as HpL.
  rewrite before_prompt_filter by done. rewrite live_is_stands in * by done. set (L := stands events) in *.
  destruct (existsb model_saw _) eqn:Es; cbn [default].
  2:{ split; [|by intros [? ?]]. clear -HpL. induction HpL as [|x es Hx _ IH]; [done|]. cbn. by destruct (Z.leb_spec (ev_Seq x) 0); [lia|]. }
  destruct (last _) as [e|] eqn:El; [|by apply last_None in El; rewrite El in Es].
  apply last_Some in El as [l El]. assert (He : e ∈ List.filter (λ x, ev_Seq x <? seq) L) by (rewrite El; apply elem_of_app; right; by left).
  apply list_elem_of_In, List.filter_In in He as [HeL Hlt%Z.ltb_lt]. apply list_elem_of_In in HeL. cbn [default from_option id]. split.
  - apply List.filter_ext_in. intros x Hx. apply list_elem_of_In in Hx. destruct (Z.ltb_spec (ev_Seq x) seq) as [Hxs|Hxs].
    + apply Z.leb_le. assert (Hin : x ∈ l ++ [e]).
      { rewrite <- El. apply list_elem_of_In, List.filter_In. split; [by apply list_elem_of_In|by apply Z.ltb_lt]. }
      apply elem_of_app in Hin as [Hin|Hin]; [|apply list_elem_of_singleton in Hin as ->; done].
      assert (Hol : in_order (l ++ [e])) by (rewrite <- El; by apply in_order_filter).
      apply in_order_app in Hol as (_ & _ & Hol). specialize (Hol x e Hin ltac:(by left)). cbn in Hol. lia.
    + apply Z.leb_gt. lia.
  - intros _. apply Forall_forall with (x := e) in HpL; [cbn in HpL; lia|done].
Qed.

(** C19: Going back to just before a prompt: the record keeps all it had and gains one
    marker; what stands of it then is exactly what stood before the prompt, or nothing
    when the model had seen nothing by then; and the messages the loop goes on with are
    the ones a resume of that record in another process rebuilds. No call asked before
    the prompt is answered after it. *)
Theorem Rewind_resumes running gate id now events seq l n at_ l' :
  events = session_events (fk_store l) (rc_session (fk_recorder l)) → at_end (fk_recorder l) (fk_store l) →
  cut_calls events (fork_step (Live events) (default 0 (ForkBefore events seq))) = ∅ →
  RewindTo tx lex running gate id now events seq l = (inr (n, at_), l') →
  ∃ e, session_events (fk_store l') (rc_session (fk_recorder l')) = events ++ [e] ∧ ev_Body e = Forked (Some at_) ∧
    stands (events ++ [e]) = (if existsb model_saw (standing_before events seq) then standing_before events seq else []) ∧
    Fork tx lex (events ++ [e]) 0 = resumed (fk_messages l') ∧ n = length (fk_messages l').
Proof.
  intros Eev Hend Hcut Hrun. assert (Hin : in_order events) by (subst events; apply Hend). assert (Hp : positive events) by (subst events; apply Hend).
  assert (∃ e, session_events (fk_store l') (rc_session (fk_recorder l')) = events ++ [e] ∧ ev_Body e = Forked (Some at_) ∧
    in_order (events ++ [e]) ∧ at_ = default 0 (ForkBefore events seq) ∧
    Fork tx lex (events ++ [e]) 0 = resumed (fk_messages l') ∧ n = length (fk_messages l')) as (e & He & Hb & Ho & Hat & Hf & Hn).
  2:{ exists e. split_and!; [done|done| |done|done]. rewrite <- (live_is_stands (events ++ [e])) by done. rewrite (Live_marked _ _ at_) by done. rewrite live_is_stands, Hat by done. by apply ForkBefore_keeps. }
  revert Hrun. unfold RewindTo. pose proof (proj2 (ForkBefore_keeps events seq Hin Hp)) as Hpos. destruct (ForkBefore events seq) as [through|].
  - cbn in Hcut, Hpos. specialize (Hpos ltac:(by eexists)). intros H.
    destruct (forkTo_marks _ _ _ _ _ _ _ _ _ _ _ Eev Hend Hcut H) as (e & He & Hb & Hat & Ho & Hn & _ & Ht). exists e.
    split_and!; [done|done|done| |by rewrite Fork_whole|done]. unfold fork_step in Hat. by destruct (Z.leb_spec through 0); [lia|].
  - destruct running; [|done]. destruct gate; [|done]. destruct (record_fork_at_end id now 0 l Hend) as (e & rec & -> & Hb & Hsess & Ho).
    intros [= <- <- <-]. exists e. cbn [fk_store fk_recorder fk_messages]. rewrite Hsess, session_events_insert. subst events. split_and!; try done.
    rewrite Fork_whole, (Live_marked _ _ 0) by done. replace (List.filter _ _) with (@nil event); [done|].
    pose proof (live_positive _ Hin Hp) as Hlp. clear -Hlp. symmetry.
    induction Hlp as [|x es Hx _ IH]; [done|]. cbn. by destruct (Z.leb_spec (ev_Seq x) 0); [lia|].
Qed.
End rebuild.

(** ** The events a branch copies *)

Lemma sublist_filter_key {A} (f : A → Z) (a b : list A) : a `sublist_of` b → NoDup (map f b) →
  List.filter (λ x, bool_decide (f x ∈ (list_to_set (map f a) : gset Z))) b = a.
Proof.
  induction 1 as [|x a b Hs IH|x a b Hs IH]; intros Hnd; [done| |]; cbn in Hnd; apply NoDup_cons in Hnd as [Hx Hnd]; cbn [List.filter].
  - rewrite bool_decide_eq_true_2 by (cbn; set_solver). f_equal. etrans; [|by apply IH]. apply List.filter_ext_in. intros y Hy.
    apply bool_decide_ext. cbn. rewrite elem_of_union, elem_of_singleton. split; [|by right]. intros [E|H]; [|done]. exfalso. apply Hx. rewrite <- E.
    apply list_elem_of_fmap_2. by apply list_elem_of_In.
  - rewrite bool_decide_eq_false_2; [by apply IH|]. rewrite elem_of_list_to_set. intros Hin. apply Hx.
    apply list_elem_of_fmap in Hin as (y & -> & Hy). apply list_elem_of_fmap_2. by eapply elem_of_sublist.
Qed.

Lemma in_order_NoDup es : in_order es → NoDup (map ev_Seq es).
Proof.
  unfold in_order. induction (map ev_Seq es) as [|s l IH]; intros H; [constructor|]. apply StronglySorted_inv in H as [H Hs].
  apply NoDup_cons. split; [|by apply IH]. intros Hin. apply Forall_forall with (x := s) in Hs; [lia|done].
Qed.

Lemma live_filter es : in_order es → List.filter (λ e, bool_decide (ev_Seq e ∈ (list_to_set (map ev_Seq (Live es)) : gset Z))) es = Live es.
Proof. intros H. rewrite live_is_stands by done. apply sublist_filter_key; [apply stands_sublist|by apply in_order_NoDup]. Qed.

Lemma by_step_in_order es : in_order es → by_step es = es.
Proof.
  induction es as [|e es IH]; intros H; [done|]. apply (in_order_app [e]) in H as (_ & H & Hlt). change (by_step (e :: es)) with (insert_step e (by_step es)).
  rewrite IH by done. destruct es as [|x es]; [done|]. cbn. pose proof (Hlt e x ltac:(by left) ltac:(by left)). destruct (Z.leb_spec (ev_Seq e) (ev_Seq x)); [done|lia].
Qed.

(** Two selections of the events agree when what only one keeps changes nothing. *)
Lemma foldl_filter_agree {A B} (f : A → B → A) (p q : B → bool) l : ∀ s,
  (∀ s x, x ∈ l → p x ≠ q x → f s x = s) → foldl f s (List.filter p l) = foldl f s (List.filter q l).
Proof.
  induction l as [|x l IH]; intros s H; [done|]. assert (IH' := λ s, IH s (λ s y Hy, H s y (list_elem_of_further _ _ _ Hy))).
  cbn. destruct (p x) eqn:Ep, (q x) eqn:Eq; cbn; try apply IH'; rewrite H by (first [by left|congruence]); apply IH'.
Qed.

Lemma foldl_imap {A B} (f : A → B → A) l : ∀ (g : nat → B → B) s, (∀ s i x, f s (g i x) = f s x) → foldl f s (imap g l) = foldl f s l.
Proof.
  induction l as [|x l IH]; intros g s H; [done|]. rewrite imap_cons. cbn [foldl]. rewrite H. apply (IH (g ∘ S)). intros. apply H.
Qed.

Section branch.
Context (tx : Text) (lex : string → RawMessage).

Lemma rebuild_skips s e : left_behind (ev_Body e) = true ∨ always_copied (ev_Body e) = true → rebuild_step tx lex s e = s.
Proof. unfold rebuild_step. destruct (ev_Body e) as [| | | | | | | | | | | | | | | | | | | | | ]; intros [H|H]; done. Qed.

Lemma rebuild_copied s id sid parent seq at_ renum e :
  rebuild_step tx lex s (MkEvent id sid parent seq (ev_Actor e) at_ (copied_body renum (ev_Body e))) = rebuild_step tx lex s e.
Proof.
  unfold rebuild_step. cbn [ev_Body ev_Actor]. destruct (ev_Body e) as [| | | | | | | | | | | | | | | |[r|]| | | | | ]; try done.
  cbn. by destruct (ParseInt _).
Qed.

Lemma picked_in_order events through : in_order events → 
  picked events through = List.filter (picks (list_to_set (map ev_Seq (Live events))) through) events ∧ in_order (picked events through).
Proof.
  intros H. unfold picked. assert (Hf : in_order (List.filter (picks (list_to_set (map ev_Seq (Live events))) through) events)) by (by apply in_order_filter).
  by rewrite by_step_in_order.
Qed.

Lemma copied_unforked newID events through sid first :
  forallb (λ e, negb (is_forked e)) (BranchCopy newID events through sid first) = true.
Proof.
  apply forallb_forall. intros e He. apply list_elem_of_In in He. unfold BranchCopy in He. apply elem_of_lookup_imap_1 in He as (i & x & -> & Hx).
  apply list_elem_of_lookup_2 in Hx. assert (Hin : ∀ l, x ∈ by_step l → x ∈ l).
  { clear. induction l as [|y l IH]; [done|]. cbn. assert (Hi : ∀ l', x ∈ insert_step y l' → x = y ∨ x ∈ l').
    { induction l' as [|z l' IHl]; cbn; [intros [->|?]%elem_of_cons; first [by left|by right]|]. destruct (_ <=? _); intros [->|Hx]%elem_of_cons.
      - by left. - by right. - right. by left. - destruct (IHl Hx); [by left|]. right. by right. }
    intros Hx. destruct (Hi _ Hx) as [->|Hx']; [by left|]. right. by apply IH. }
  apply Hin in Hx. apply list_elem_of_In, List.filter_In in Hx as [_ Hp]. unfold picks in Hp. apply andb_true_iff in Hp as [Hp _].
  apply andb_true_iff in Hp as [_ Hl]. unfold is_forked. cbn. destruct (ev_Body x) as [| | | | | | | | | | | | | | | |[r|]| | | | | ]; try done.
  cbn. by destruct (ParseInt _).
Qed.

(** A branch of a session, through any of its steps, has the conversation the
    session has there, forks applied, whatever else its record holds. *)
Lemma BranchCopy_conversation newID events through sid first :
  in_order events → cut_calls tx lex events through = ∅ →
  Fork tx lex (BranchCopy newID events through sid first) 0 = Fork tx lex events through.
Proof.
  intros Ho Hcut. rewrite Fork_whole, Fork_told by done. rewrite live_unforked by apply copied_unforked.
  assert (E : rebuild_all tx lex (BranchCopy newID events through sid first) = rebuild_all tx lex (up_to through (Live events))); [|unfold told; by rewrite E].
  unfold rebuild_all, BranchCopy. rewrite foldl_imap by (intros; apply rebuild_copied).
  destruct (picked_in_order events through Ho) as [-> _]. rewrite up_to_filter by (by apply live_in_order).
  rewrite <- (live_filter events) at 2 by done. rewrite filter_filter. apply foldl_filter_agree. intros s e _ Hne. apply rebuild_skips.
  unfold picks in Hne. destruct (past through e), (left_behind (ev_Body e)), (bool_decide _), (always_copied (ev_Body e)); cbn in Hne; try done; first [by left|by right].
Qed.
End branch.

(** *** Its undo log *)

(** Steps in order are renumbered in order. *)
Lemma steps_below_range s old : 0 <= steps_below s old <= Z.of_nat (length old).
Proof. induction old as [|x old IH]; cbn -[Z.add Z.of_nat]; [lia|]. destruct (x <? s); lia. Qed.

Lemma steps_below_at old i s : StronglySorted Z.lt old → old !! i = Some s → steps_below s old = Z.of_nat i.
Proof.
  revert i. induction old as [|x old IH]; intros i Hs Hi; [done|]. apply StronglySorted_inv in Hs as [Hs Hx]. cbn -[Z.add]. destruct i as [|i]; cbn in Hi.
  - injection Hi as <-. by rewrite Z.ltb_irrefl.
  - apply list_elem_of_lookup_2 in Hi as Hin. apply Forall_forall with (x := s) in Hx; [|done]. destruct (Z.ltb_spec x s); [|lia].
    rewrite (IH i) by done. lia.
Qed.

Lemma steps_below_le old u s : StronglySorted Z.lt old → s ∈ old → (u <= s ↔ steps_below u old <= steps_below s old).
Proof.
  induction old as [|x old IH]; intros Hs Hin; [by apply not_elem_of_nil in Hin|]. apply StronglySorted_inv in Hs as [Hs Hx]. cbn -[Z.add].
  pose proof (steps_below_range u old). pose proof (steps_below_range s old). apply elem_of_cons in Hin as [->|Hin].
  - rewrite Z.ltb_irrefl. destruct (Z.ltb_spec x u); lia.
  - specialize (IH Hs Hin). apply Forall_forall with (x := s) in Hx; [|done]. destruct (Z.ltb_spec x s); [|lia]. destruct (Z.ltb_spec x u); lia.
Qed.

Section undo.
Context (get : bool) (renum : Z → Z) (old : list Z).
Context (Hmono : ∀ u s, s ∈ old → (u <= s ↔ renum u <= renum s)) (Hint : ∀ s, in_int64 (renum s)).

(** A checkpoint as the branch holds it: at its own step. *)
Definition moved (cp : Checkpoint) : Checkpoint :=
  MkCheckpoint (cp_Path cp) (cp_Before cp) (cp_Existed cp) (cp_Turn cp) (cp_At cp) (renum (cp_Seq cp)) (cp_Blob cp) (cp_Mode cp)
    (cp_Skipped cp) (cp_load cp).

Definition copied_from (cps : list Checkpoint) : Prop := Forall (λ cp, cp_Seq cp ∈ old) cps.

Lemma drop_from_moved used cps : copied_from cps → drop_from (renum used) (map moved cps) = map moved (drop_from used cps).
Proof using Hmono.
  induction 1 as [|cp cps Hcp _ IH]; [done|]. cbn. pose proof (Hmono used (cp_Seq cp) Hcp) as Hm.
  destruct (Z.leb_spec used (cp_Seq cp)), (Z.leb_spec (renum used) (renum (cp_Seq cp))); try done; lia.
Qed.
Lemma drop_from_in used cps : copied_from cps → copied_from (drop_from used cps).
Proof using. induction 1 as [|cp cps Hcp H IH]; [constructor|]. cbn. destruct (_ <=? _); [done|by constructor]. Qed.
Lemma map_reverse' {A B} (f : A → B) l : map f (reverse l) = reverse (map f l).
Proof using. apply fmap_reverse. Qed.

(** One copied event does to the branch's log what its source did. *)
Lemma rebuild_event_moved e id sid stack turn : copied_from stack → ev_Seq e ∈ old →
  let e' := MkEvent id sid "" (renum (ev_Seq e)) (ev_Actor e) (ev_At e) (copied_body renum (ev_Body e)) in
  let '(stack', turn') := rebuild_event get (stack, turn) e in
  rebuild_event get (map moved stack, turn) e' = (map moved stack', turn') ∧ copied_from stack'.
Proof using Hmono Hint.
  intros Hst He e'. unfold rebuild_event. cbn [ev_Body e']. destruct (ev_Body e) as [| | | | | | | | | | | | | | |[c|]|[r|]| | | | | ]; try done.
  - cbn [copied_body]. rewrite map_app. split; [done|]. apply Forall_app_2; [done|]. by apply Forall_singleton.
  - cbn [copied_body]. destruct (ParseInt (rs_Checkpoint r)) as [used|] eqn:Ep.
    + cbn [rs_Checkpoint]. rewrite ParseInt_Itoa by apply Hint. split; [|by apply Forall_reverse, drop_from_in, Forall_reverse].
      rewrite <- map_reverse', drop_from_moved by (by apply Forall_reverse). by rewrite map_reverse'.
    + by rewrite Ep.
Qed.

Lemma rebuild_moved newID sid es : ∀ (h : nat → Z) stack turn, copied_from stack → Forall (λ e, ev_Seq e ∈ old) es →
  (∀ i e, es !! i = Some e → h i = renum (ev_Seq e)) →
  let '(stack', turn') := foldl (rebuild_event get) (stack, turn) es in
  foldl (rebuild_event get) (map moved stack, turn)
    (imap (λ i e, MkEvent (newID i) sid "" (h i) (ev_Actor e) (ev_At e) (copied_body renum (ev_Body e))) es) = (map moved stack', turn').
Proof using Hmono Hint.
  revert newID. induction es as [|e es IH]; intros newID h stack turn Hst Hes Hh; [done|]. apply Forall_cons in Hes as [He Hes].
  rewrite imap_cons. cbn [foldl]. rewrite (Hh 0%nat e eq_refl).
  pose proof (rebuild_event_moved e (newID 0%nat) sid stack turn Hst He) as H. destruct (rebuild_event get (stack, turn) e) as [stack1 turn1].
  destruct H as [-> Hst1]. apply (IH (newID ∘ S) (h ∘ S) stack1 turn1 Hst1 Hes). intros i x Hx. by apply (Hh (S i)).
Qed.
End undo.

(** The branch's undo log is the source's, each checkpoint at its copy's step: the
    same files, the same contents, the same turns, with the checkpoints its
    restores used already off it. *)
Lemma BranchCopy_undo newID events through sid first get u :
  in_order events → 0 <= first → first + Z.of_nat (length events) < int64_max →
  let old := map ev_Seq (picked events through) in
  Rebuild get (BranchCopy newID events through sid first) u =
  let l := Rebuild get (List.filter (λ e, negb (past through e)) events) u in with_stack (map (moved (renumber first old)) (u_stack l)) l.
Proof.
  intros Ho Hf Hlen old. destruct (picked_in_order events through Ho) as [Ep Hp]. assert (Hlen' : Z.of_nat (length old) <= Z.of_nat (length events)).
  { unfold old. rewrite length_map, Ep. pose proof (List.filter_length_le (picks (list_to_set (map ev_Seq (Live events))) through) events). lia. }
  assert (Hrenum : ∀ s, renumber first old s = first + steps_below s old).
  { intros s. unfold renumber. apply wrap64_id. unfold in_int64. pose proof (steps_below_range s old). unfold int64_min. lia. }
  assert (Hint : ∀ s, in_int64 (renumber first old s)) by (intros s; apply wrap64_range).
  assert (Hmono : ∀ v s, s ∈ old → (v <= s ↔ renumber first old v <= renumber first old s)).
  { intros v s Hs. rewrite !Hrenum. pose proof (steps_below_le old v s Hp Hs). lia. }
  pose proof (rebuild_moved get (renumber first old) old Hmono Hint newID sid (picked events through) (λ i, wrap64 (first + Z.of_nat i)) [] 0
    ltac:(constructor)) as H.
  unfold Rebuild, BranchCopy. fold old.
  assert (Hsame : foldl (rebuild_event get) ([], 0) (picked events through) =
                  foldl (rebuild_event get) ([], 0) (List.filter (λ e, negb (past through e)) events)).
  { rewrite Ep. apply foldl_filter_agree. intros s e _ Hne. unfold picks in Hne. unfold rebuild_event. destruct s as [stack turn].
    destruct (ev_Body e) as [| | | | | | | | | | | | | | |[c|]|[r|]| | | | | ]; try done; cbn in Hne; rewrite orb_true_r, !andb_true_r in Hne; done. }
  rewrite Hsame in H. destruct (foldl _ _ _) as [stack turn]. cbn [map] in H. rewrite H; [done| |].
  - apply Forall_forall. intros e He. by apply list_elem_of_fmap_2.
  - intros i e He. unfold renumber. f_equal. f_equal. symmetry. apply steps_below_at; [done|]. unfold old. by rewrite list_lookup_fmap, He.
Qed.

(** C23: A branch of a session, through any step no call asked by then is answered
    after, has the source's conversation there, forks applied, and its undo log: the
    same files, contents and turns, each checkpoint at its copy's step, abandoned
    branches included, and the checkpoints its restores used already off it. At a step
    inside a turn the source drops the turn where the copy shows its calls as lost
    ([fork_inside_turn_differs]). *)
Theorem BranchCopy_keeps tx lex newID events through sid first get u :
  in_order events → cut_calls tx lex events through = ∅ → 0 <= first → first + Z.of_nat (length events) < int64_max →
  let copy := BranchCopy newID events through sid first in
  let source := List.filter (λ e, negb (past through e)) events in
  Fork tx lex copy 0 = Fork tx lex events through ∧
  Rebuild get copy u =
    let l := Rebuild get source u in with_stack (map (moved (renumber first (map ev_Seq (picked events through)))) (u_stack l)) l.
Proof. intros Ho Hcut Hf Hlen. cbv zeta. split; [by apply BranchCopy_conversation|by apply BranchCopy_undo]. Qed.

(** ** A session branched, gone back on and rewound *)

Definition step_event (seq : Z) (actor : Actor) (b : body) : event := MkEvent "" "s" "" seq actor seq b.
Definition no_args (_ : string) : RawMessage := MkRaw true [] None.

(** Two files are changed, one put back, and the conversation taken back past the
    change of a third. *)
Definition a_session : list event :=
  [step_event 1 ActorUser (UserMessage (Some "one")); step_event 2 ActorAgent Fragment;
   step_event 3 ActorSystem (Checkpointed (Some (MkSaved "/w/a" "h1" 1 420 ""))); step_event 4 ActorAgent Fragment;
   step_event 5 ActorSystem (Checkpointed (Some (MkSaved "/w/b" "h2" 1 420 "")));
   step_event 6 ActorUser (Restored (Some (MkRestored "/w/b" "h9" "h2" "5"))); step_event 7 ActorUser (UserMessage (Some "two"));
   step_event 8 ActorSystem (Checkpointed (Some (MkSaved "/w/c" "h3" 2 420 ""))); step_event 9 ActorUser (Forked (Some 6));
   step_event 10 ActorUser (UserMessage (Some "three"))].
Definition a_branch : list event := BranchCopy (λ _, "new") a_session 0 "b" 2.

Lemma BranchCopy_keeps_witness :
  Fork ascii_text no_args a_branch 0 = Some [user_message "one"; user_message "three"] ∧
  map (λ cp, (cp_Path cp, cp_Seq cp, cp_Blob cp)) (u_stack (Rebuild true a_branch NewUndoLog)) = [("/w/a", 3, "h1"); ("/w/c", 6, "h3")] ∧
  Fork ascii_text no_args a_branch 0 = Fork ascii_text no_args a_session 0 ∧
  Rebuild true a_branch NewUndoLog =
    let l := Rebuild true (List.filter (λ e, negb (past 0 e)) a_session) NewUndoLog in
    with_stack (map (moved (renumber 2 (map ev_Seq (picked a_session 0)))) (u_stack l)) l.
Proof.
  split; [vm_compute; reflexivity|]. split; [vm_compute; reflexivity|].
  apply (BranchCopy_keeps ascii_text no_args (λ _, "new") a_session 0 "b" 2 true NewUndoLog).
  - unfold in_order. cbn. repeat constructor.
  - vm_compute. reflexivity.
  - discriminate.
  - vm_compute. reflexivity.
Defined.

(** A session of two prompts, taken back to before the second. *)
Definition two_prompts : list event :=
  [step_event 1 ActorUser (UserMessage (Some "one")); step_event 2 ActorSystem (ModelCalled false);
   step_event 3 ActorAgent (Requested (Some (MkAction "c1" "read" "" ""))); 
   step_event 4 ActorTool (Observed (Some (MkObservation "c1" "read" "text" false false)));
   step_event 5 ActorUser (UserMessage (Some "two"))].
Definition running_loop (es : list event) (bound : bool) : forking :=
  MkForking [] (Advance (Z.of_nat (length es)) (NewRecorder "s" "")) (<["s" := es]> ∅) [] true bound.

Definition rewound (seq : Z) (bound : bool) : (fork_refusal + nat * Z) * forking :=
  RewindTo ascii_text no_args [] true "m" 9 two_prompts seq (running_loop two_prompts bound).

Lemma running_at_end bound : at_end (fk_recorder (running_loop two_prompts bound)) (fk_store (running_loop two_prompts bound)).
Proof. unfold at_end. split_and!; cbn; try done; unfold in_order, positive, behind; cbn; repeat constructor; discriminate. Defined.

Lemma Rewind_resumes_witness : ∃ l', rewound 5 false = (inr (3%nat, 4), l') ∧
  ∃ e, session_events (fk_store l') (rc_session (fk_recorder l')) = two_prompts ++ [e] ∧ ev_Body e = Forked (Some 4) ∧
    stands (two_prompts ++ [e]) = (if existsb model_saw (standing_before two_prompts 5) then standing_before two_prompts 5 else []) ∧
    Fork ascii_text no_args (two_prompts ++ [e]) 0 = resumed (fk_messages l') ∧ 3%nat = length (fk_messages l').
Proof.
  eexists. split; [vm_compute; reflexivity|]. eapply (Rewind_resumes ascii_text no_args [] true "m" 9 two_prompts 5 (running_loop two_prompts false)).
  - reflexivity.
  - apply running_at_end.
  - vm_compute. reflexivity.
  - vm_compute. reflexivity.
Defined.

(** A fork inside a turn, at a call answered past it, does not resume: the loop
    drops the turn, and the record it leaves says the call was asked, so another
    process sees it as one whose result was lost, and as a turn still going. *)
Example fork_inside_turn_differs :
  let '(r, l) := ForkTo ascii_text no_args [] true "m" 9 two_prompts 3 (running_loop two_prompts false) in
  let es := session_events (fk_store l) "s" in
  fk_messages l = [user_message "one"] ∧
  Fork ascii_text no_args es 0 =
    Some [user_message "one"; assistant_message "" [MkCall "c1" "read" "{}"]; tool_message "c1" lost_text true] ∧
  match InFlight ascii_text no_args es with Some open => map oc_Call (ot_Calls open) = [MkCall "c1" "read" "{}"] | None => False end.
Proof. vm_compute. by split_and!. Qed.

(** Going back to a later prompt lets go of the bound runbook; going back to before
    the first does not. *)
Example rewind_to_start_keeps_plan :
  fk_bound (snd (rewound 5 true)) = false ∧ fk_bound (snd (rewound 1 true)) = true ∧ fk_messages (snd (rewound 1 true)) = [].
Proof. vm_compute. by split_and!. Qed.
