(* ===== verification/Recover.v ===== *)
(** What is done with a record a process left open (src/internal/agent/recover.go,
    handover.go): whether it was left so, the calls it leaves settled with one
    outcome each, its lost background children closed, and its end written. *)

From Stdlib Require Import ZArith Ascii String Lia.
From stdpp Require Import base tactics list option gmap strings.
From S2P Require Import Prelude.
From S2P Require Import Branch.
From S2P Require Import GoStd.
From S2P Require Import ShellSplit.
From S2P Require Import Args.
From S2P Require Import AgentTools.
From S2P Require Import SessionRecord.
From S2P Require Import Transcript.

#[local] Open Scope string_scope.
#[local] Open Scope Z_scope.
#[local] Open Scope list_scope.

(** ** What a session has spent *)

Definition spawned_count (events : list event) : Z :=
  Z.of_nat (length (List.filter (λ e, match ev_Body e with Spawned _ => true | _ => false end) events)).

(** The tokens of each child's last return; one that names no session counts on
    its own, under its place in the record. *)
Definition child_spend (i : nat) (e : event) (children : gmap string Z) : gmap string Z :=
  match ev_Body e with
  | Returned (Some c) =>
      let key := if String.eqb (ch_Session c) "" then ("#" ++ Itoa (Z.of_nat i))%string else ch_Session c in
      <[key := wrap64 (ch_TokensIn c + ch_TokensOut c)]> children
  | _ => children
  end.
Fixpoint children_spend (i : nat) (events : list event) (children : gmap string Z) : gmap string Z :=
  match events with [] => children | e :: events => children_spend (S i) events (child_spend i e children) end.

Definition CarriedSpend (events : list event) : Z * Z :=
  let events := Live events in
  let own := match LastEnd events with Some e => wrap64 (en_TokensIn e + en_TokensOut e) | None => 0 end in
  (foldr (λ n t, wrap64 (t + n)) own (map_to_list (children_spend 0 events ∅)).*2, spawned_count events).

(** ** Whether a record was left open *)

(** The background children with no return: in the order of their spawns, and
    whether each is open. *)
Record children : Type := MkChildren { cd_order : list string; cd_open : gset string }.

Definition in_background (c : child_note) : bool := ch_Background c && negb (String.eqb (ch_TaskID c) "").
Definition child_event (s : children) (e : event) : children :=
  match ev_Body e with
  | Spawned (Some c) | Backgrounded (Some c) =>
      if in_background c then
        MkChildren (if bool_decide (ch_TaskID c ∈ cd_open s) then cd_order s else cd_order s ++ [ch_TaskID c]) ({[ch_TaskID c]} ∪ cd_open s)
      else s
  | Returned (Some c) => if in_background c then MkChildren (cd_order s) (cd_open s ∖ {[ch_TaskID c]}) else s
  | _ => s
  end.
Definition unreturned (events : list event) : list string :=
  let s := foldl child_event (MkChildren [] ∅) events in
  List.filter (λ id, bool_decide (id ∈ cd_open s)) (cd_order s).

Definition ends_now (events : list event) : bool := match last events with Some e => is_ended e | None => false end.

Definition Orphaned (events : list event) : bool :=
  match events with
  | [] => false
  | _ =>
      match LastEnd events with
      | None => true
      | Some e =>
          (negb (ends_now events) && (lastEndSeq events <? lastRunSeq events)) || (0 <? en_Background e) || negb (match unreturned events with [] => true | _ => false end)
      end
  end.

(** [runEndSeq]. *)
Definition run_end_step (s : Z) (e : event) : Z :=
  match ev_Body e with Spawned _ => 0 | SessionEnded _ => ev_Seq e | _ => s end.
Definition runEndSeq (events : list event) : Z := foldl run_end_step 0 events.

(** ** Settling calls *)

(** The store, and how many events were made: each has its id and time. *)
Record recovery : Type := MkRecovery { rv_store : MemStore; rv_made : nat }.

Section recover.
Context (tx : Text) (lex : string → RawMessage) (newID : nat → string) (now : nat → Z).

(** One event recorded by a recorder that no gate stops: the event, when it was
    taken. *)
Definition write_event (actor : Actor) (b : body) (r : Recorder) (v : recovery) : option event * Recorder * recovery :=
  let '(out, r, m) := Record true (newID (rv_made v)) (now (rv_made v)) actor b r (rv_store v) in
  (match out with Wrote e true => Some e | _ => None end, r, MkRecovery m (S (rv_made v))).

Definition notRunStopped : string := "Not run: the process asking for it stopped.".
Definition unknownOutcome : string :=
  "Outcome unknown: the process running this call stopped before its result was recorded, so it may have run, in part or in full. It was not run again. Check its effect before repeating it; the same call again is asked of a person first.".

Definition settle_body (c : OpenCall) : body :=
  if oc_Approved c then Observed (Some (MkObservation (tc_ID (oc_Call c)) (tc_Name (oc_Call c)) unknownOutcome true true))
  else Denied (Some (tc_ID (oc_Call c), notRunStopped)).

(** [settleOpenCalls]: false when an outcome was not recorded. *)
Fixpoint settleOpenCalls (calls : list OpenCall) (r : Recorder) (v : recovery) : bool * Recorder * recovery :=
  match calls with
  | [] => (true, r, v)
  | c :: calls =>
      match write_event ActorSystem (settle_body c) r v with
      | (None, r, v) => (false, r, v)
      | (Some _, r, v) => settleOpenCalls calls r v
      end
  end.

(** The calls a record leaves open, to be settled. *)
Definition left_open (events : list event) : list OpenCall :=
  match InFlight tx lex events with Some t => ot_Calls t ++ ot_Others t | None => [] end.

Definition last_seq (events : list event) : Z := match last events with Some e => ev_Seq e | None => 0 end.

(** ** Closing children *)

Definition shutdown_end (turns tin tout : Z) (settled recovered : bool) : session_end := MkEnd "shutdown" turns tin tout 0 settled false recovered.
Definition lost_return (id : string) (endSeq : option Z) : body := Returned (Some (MkChild true id id 0 0 "lost" endSeq)).

(** The end of a lost child's run, written when it is not there: its step. *)
Definition close_child (id parent : string) (v : recovery) : option (option Z) * recovery :=
  match session_events (rv_store v) id with
  | [] => (Some None, v)
  | evs =>
      let child := Advance (last_seq evs) (NewRecorder id parent) in
      let endSeq := runEndSeq evs in
      if endSeq =? 0 then
        match settleOpenCalls (left_open evs) child v with
        | (false, _, v) => (None, v)
        | (true, child, v) =>
            match write_event ActorSystem (SessionEnded (Some (shutdown_end 0 0 0 false true))) child v with
            | (None, _, v) => (None, v)
            | (Some e, _, v) => (Some (Some (ev_Seq e)), v)
            end
        end
      else (Some (Some endSeq), v)
  end.

Fixpoint close_children (ids : list string) (sessionID : string) (parent : Recorder) (v : recovery) : bool * Recorder * recovery :=
  match ids with
  | [] => (true, parent, v)
  | id :: ids =>
      match close_child id sessionID v with
      | (None, v) => (false, parent, v)
      | (Some endSeq, v) =>
          match write_event ActorSystem (lost_return id endSeq) parent v with
          | (None, parent, v) => (false, parent, v)
          | (Some _, parent, v) => close_children ids sessionID parent v
          end
      end
  end.
Definition reconcileChildren (parent : Recorder) (sessionID : string) (events : list event) (v : recovery) : bool * Recorder * recovery :=
  close_children (unreturned events) sessionID parent v.

(** ** Closing a record *)

(** The end a closed record gets. *)
Definition closing_end (events : list event) : session_end :=
  let e := default (MkEnd "" 0 0 0 0 false false false) (LastEnd events) in
  let settled := (0 <? en_Background e) || negb (match unreturned events with [] => true | _ => false end) in
  let e := if negb (opt_some (LastEnd events)) || (lastEndSeq events <? lastRunSeq events)
           then shutdown_end (en_Turns e) (en_TokensIn e) (en_TokensOut e) false false else e in
  MkEnd (en_Reason e) (en_Turns e) (en_TokensIn e) (en_TokensOut e) 0 settled false true.

(** [Reconcile] of the events read from the store. *)
Definition Reconcile (sessionID : string) (events : list event) (v : recovery) : bool * recovery :=
  if negb (Orphaned events) then (true, v)
  else
    let parent := Advance (last_seq events) (NewRecorder sessionID "") in
    match reconcileChildren parent sessionID events v with
    | (false, _, v) => (false, v)
    | (true, parent, v) =>
        match settleOpenCalls (left_open events) parent v with
        | (false, _, v) => (false, v)
        | (true, parent, v) =>
            let '(e, _, v) := write_event ActorSystem (SessionEnded (Some (closing_end events))) parent v in (opt_some e, v)
        end
    end.

(** [ReconcileChildren]. *)
Definition ReconcileChildren (sessionID : string) (events : list event) (v : recovery) : bool * recovery :=
  match events with
  | [] => (true, v)
  | _ => let '(ok, _, v) := reconcileChildren (Advance (last_seq events) (NewRecorder sessionID "")) sessionID events v in (ok, v)
  end.
End recover.

(** * Theorems

    What closing an orphaned record promises: every call it left
    open gets one outcome and none is run again, every lost child is returned and
    closed, and the record is then one nothing is left to close in. *)

(** ** Writing at the end of a record *)

(** A recorder at the end of its session's record, with room for [n] more steps. *)
Definition writer (n : Z) (r : Recorder) (m : MemStore) : Prop :=
  at_end r m ∧ 0 <= n ∧ rc_seq r + n < int64_max ∧ rc_endSealed r = false.

(** One session's record grew by events of these bodies; the others did not. *)
Definition wrote (sid : string) (bs : list body) (m m' : MemStore) : Prop :=
  ∃ new, session_events m' sid = session_events m sid ++ new ∧ map ev_Body new = bs ∧
    ∀ id, id ≠ sid → session_events m' id = session_events m id.

Lemma wrote_nil sid m : wrote sid [] m m.
Proof. exists []. by rewrite app_nil_r. Qed.
Lemma wrote_trans sid bs bs' m m' m'' : wrote sid bs m m' → wrote sid bs' m' m'' → wrote sid (bs ++ bs') m m''.
Proof.
  intros (new & E & Eb & Ho) (new' & E' & Eb' & Ho'). exists (new ++ new'). split_and!.
  - by rewrite E', E, app_assoc.
  - by rewrite map_app, Eb, Eb'.
  - intros id Hid. by rewrite Ho', Ho.
Qed.

Lemma last_seq_behind es : in_order es → behind (last_seq es) es.
Proof.
  intros H. unfold last_seq. destruct es as [|e es _] using rev_ind; [constructor|]. rewrite last_snoc. apply in_order_app in H as (_ & _ & H).
  apply Forall_app_2; [|by repeat constructor]. apply Forall_forall. intros x Hx. specialize (H x e Hx ltac:(by left)). cbn. lia.
Qed.
Lemma last_seq_bound es b : behind b es → 0 <= b → last_seq es <= b.
Proof.
  intros H Hb. unfold last_seq. destruct es as [|e es _] using rev_ind; [done|]. rewrite last_snoc. by apply Forall_app in H as [_ H%Forall_inv].
Qed.
Lemma last_seq_pos es : positive es → 0 <= last_seq es.
Proof.
  intros H. unfold last_seq. destruct es as [|e es _] using rev_ind; [done|]. rewrite last_snoc. apply Forall_app in H as [_ H%Forall_inv]. lia.
Qed.

(** A recorder brought to the end of a record. *)
Lemma writer_new id parent m n : in_order (session_events m id) → positive (session_events m id) →
  0 <= n → last_seq (session_events m id) + n < int64_max → writer n (Advance (last_seq (session_events m id)) (NewRecorder id parent)) m.
Proof.
  intros Ho Hp Hn Hr. pose proof (last_seq_pos _ Hp) as Hl. set (r := Advance _ _).
  assert (E : rc_seq r = last_seq (session_events m id)) by (subst r; cbn; lia). unfold writer, at_end. rewrite E.
  split_and!; try done; try lia. by apply last_seq_behind.
Qed.

Section recover.
Context (tx : Text) (lex : string → RawMessage) (newID : nat → string) (now : nat → Z).

Lemma write_event_next actor b r v n : writer (1 + n) r (rv_store v) → 0 <= n →
  ∃ e r' v', write_event newID now actor b r v = (Some e, r', v') ∧ ev_Body e = b ∧ ev_Seq e = rc_seq r + 1 ∧ rc_session r' = rc_session r ∧
    session_events (rv_store v') (rc_session r) = session_events (rv_store v) (rc_session r) ++ [e] ∧
    wrote (rc_session r) [b] (rv_store v) (rv_store v') ∧ writer n r' (rv_store v').
Proof.
  intros ((Ho & Hp & Hb & Hr) & _ & Hroom & Hs) Hn. unfold write_event.
  destruct (record_next (newID (rv_made v)) (now (rv_made v)) actor b r (rv_store v) Hb Hr ltac:(rewrite Hs; apply andb_false_r))
    as (r' & -> & Es & _ & Eq & Esl).
  set (e := MkEvent _ _ _ _ _ _ _). set (es := session_events (rv_store v) (rc_session r)) in *. eexists e, r', _.
  assert (Hev : session_events (<[rc_session r := es ++ [e]]> (rv_store v)) (rc_session r) = es ++ [e]) by apply session_events_insert.
  split_and!; try done.
  - exists [e]. cbn [rv_store]. rewrite Hev. split_and!; [done|done|]. intros id Hid. unfold session_events. by rewrite lookup_insert_ne.
  - unfold writer, at_end. cbn [rv_store]. rewrite Es, Hev, Eq, Esl. split_and!; try done; try lia.
    + apply in_order_next; [done|]. cbn. by replace (rc_seq r + 1 - 1) with (rc_seq r) by lia.
    + apply Forall_app_2; [done|]. apply Forall_singleton. cbn. lia.
    + apply Forall_app_2; [|apply Forall_singleton; cbn; lia]. eapply Forall_impl; [exact Hb|]. cbn. intros x Hx. lia.
Qed.

(** ** Calls settled *)

Lemma settle_all calls : ∀ r v n, writer (Z.of_nat (length calls) + n) r (rv_store v) → 0 <= n →
  ∃ r' v', settleOpenCalls newID now calls r v = (true, r', v') ∧ rc_session r' = rc_session r ∧
    wrote (rc_session r) (map settle_body calls) (rv_store v) (rv_store v') ∧ writer n r' (rv_store v').
Proof.
  induction calls as [|c calls IH]; intros r v n Hw Hn; cbn [settleOpenCalls map].
  - exists r, v. split_and!; [done|done|apply wrote_nil|done].
  - destruct (write_event_next ActorSystem (settle_body c) r v (Z.of_nat (length calls) + n)) as (e & r1 & v1 & -> & _ & _ & Es & _ & Hw1 & Hr1).
    { cbn [length] in Hw. by replace (1 + (Z.of_nat (length calls) + n)) with (Z.of_nat (S (length calls)) + n) by lia. }
    { lia. }
    destruct (IH r1 v1 n Hr1 Hn) as (r2 & v2 & -> & Es2 & Hw2 & Hr2). exists r2, v2. split_and!; [done|congruence| |done].
    rewrite Es in Hw2. by apply (wrote_trans _ [settle_body c] _ _ (rv_store v1)).
Qed.

(** ** Children closed *)

(** A child's record that can be closed, if it is not. *)
Definition child_ok (m : MemStore) (id : string) : Prop :=
  let es := session_events m id in in_order es ∧ positive es ∧
  (runEndSeq es = 0 → last_seq es + Z.of_nat (length (left_open tx lex es)) + 1 < int64_max).
Definition closed (m : MemStore) (id : string) : Prop := session_events m id ≠ [] → runEndSeq (session_events m id) ≠ 0.
Definition grew (m m' : MemStore) : Prop := ∀ id, session_events m id `prefix_of` session_events m' id.

Lemma wrote_grew sid bs m m' : wrote sid bs m m' → grew m m'.
Proof.
  intros (new & E & _ & Ho) id. destruct (decide (id = sid)) as [->|Hne]; [rewrite E; by apply prefix_app_r|by rewrite Ho].
Qed.

Lemma close_child_closes id parent v : child_ok (rv_store v) id →
  ∃ res v', close_child tx lex newID now id parent v = (Some res, v') ∧ closed (rv_store v') id ∧ child_ok (rv_store v') id ∧
    ∃ bs, wrote id bs (rv_store v) (rv_store v').
Proof.
  intros (Ho & Hp & Hroom). unfold close_child, closed, child_ok. destruct (session_events (rv_store v) id) as [|x xs] eqn:Ees.
  { exists None, v. split_and!; try done; try (by rewrite Ees). exists []. apply wrote_nil. }
  rewrite <- Ees in *. destruct (Z.eqb_spec (runEndSeq (session_events (rv_store v) id)) 0) as [E0|Hn0].
  2:{ eexists _, v. split_and!; try done. exists []. apply wrote_nil. }
  destruct (settle_all (left_open tx lex (session_events (rv_store v) id)) (Advance (last_seq (session_events (rv_store v) id)) (NewRecorder id parent)) v 1)
    as (r1 & v1 & -> & Es1 & Hw1 & Hr1); [apply writer_new; (done || lia)|lia|]. cbn [rc_session Advance NewRecorder] in Es1, Hw1.
  destruct (write_event_next ActorSystem (SessionEnded (Some (shutdown_end 0 0 0 false true))) r1 v1 0 Hr1 ltac:(lia))
    as (e & r2 & v2 & -> & Eb & Eseq & Es2 & Hev & Hw2 & Hr2). rewrite Es1 in Hev, Hw2.
  assert (Hend : runEndSeq (session_events (rv_store v2) id) = ev_Seq e).
  { rewrite Hev. unfold runEndSeq. rewrite foldl_app. cbn. unfold run_end_step. by rewrite Eb. }
  assert (Hpos : 0 < ev_Seq e) by (rewrite Eseq; destruct Hr1 as ((_ & _ & _ & ?) & _); lia).
  destruct Hr2 as ((Ho2 & Hp2 & _) & _). rewrite Es2, Es1 in Ho2, Hp2.
  eexists _, v2. split_and!; try done; try lia.
  eexists. by eapply wrote_trans.
Qed.

Lemma child_ok_same m m' id : session_events m' id = session_events m id → child_ok m id → child_ok m' id.
Proof. unfold child_ok. by intros ->. Qed.

Definition lost (id : string) (b : body) : Prop := ∃ endSeq, b = lost_return id endSeq.

Lemma close_all ids sid : ∀ parent v n, rc_session parent = sid → writer (Z.of_nat (length ids) + n) parent (rv_store v) → 0 <= n →
  Forall (λ id, id ≠ sid ∧ child_ok (rv_store v) id) ids →
  ∃ parent' v' new, close_children tx lex newID now ids sid parent v = (true, parent', v') ∧ rc_session parent' = sid ∧
    session_events (rv_store v') sid = session_events (rv_store v) sid ++ new ∧ Forall2 lost ids (map ev_Body new) ∧ writer n parent' (rv_store v') ∧
    Forall (closed (rv_store v')) ids ∧ (∀ id, id ≠ sid → closed (rv_store v) id → closed (rv_store v') id) ∧ grew (rv_store v) (rv_store v').
Proof.
  induction ids as [|id ids IH]; intros parent v n Hs Hw Hn Hall; cbn [close_children].
  { exists parent, v, []. rewrite app_nil_r. split_and!; [done|done|done|constructor|done|constructor|done|by intros id]. }
  apply Forall_cons in Hall as [[Hne Hok] Hall]. destruct (close_child_closes id sid v Hok) as (res & v1 & -> & Hc & Hok1 & bs1 & Hw1).
  assert (Hsame1 : session_events (rv_store v1) sid = session_events (rv_store v) sid) by (destruct Hw1 as (_ & _ & _ & H); by apply H).
  assert (Hwr1 : writer (1 + (Z.of_nat (length ids) + n)) parent (rv_store v1)).
  { cbn [length] in Hw. replace (1 + (Z.of_nat (length ids) + n)) with (Z.of_nat (S (length ids)) + n) by lia.
    unfold writer, at_end in *. rewrite Hs in *. by rewrite Hsame1. }
  destruct (write_event_next ActorSystem (lost_return id res) parent v1 _ Hwr1 ltac:(lia)) as (e & p1 & v2 & -> & Eb & _ & Es1 & Hev & Hw2 & Hwr2).
  rewrite Hs in *. destruct (IH p1 v2 n Es1 Hwr2 Hn) as (p2 & v3 & new & -> & Es2 & Hev3 & Hbs & Hwr3 & Hcl & Hkeep & Hg3).
  { eapply Forall_impl; [exact Hall|]. cbn. intros id' [Hne' Hok']. split; [done|]. destruct Hw2 as (_ & _ & _ & Ho2). destruct Hw1 as (_ & _ & _ & Ho1).
    apply (child_ok_same (rv_store v1)); [by apply Ho2|]. destruct (decide (id' = id)) as [->|Hd]; [done|]. by apply (child_ok_same (rv_store v)); [apply Ho1|]. }
  exists p2, v3, (e :: new). split_and!; try done.
  - by rewrite Hev3, Hev, Hsame1, <- app_assoc.
  - cbn. constructor; [|done]. exists res. by rewrite Eb.
  - constructor; [|done]. apply Hkeep; [done|]. destruct Hw2 as (_ & _ & _ & Ho2). unfold closed. by rewrite Ho2.
  - intros id' Hne' Hc'. apply Hkeep; [done|]. destruct Hw2 as (_ & _ & _ & Ho2). unfold closed. rewrite Ho2 by done.
    destruct (decide (id' = id)) as [->|Hd]; [done|]. destruct Hw1 as (_ & _ & _ & Ho1). by rewrite Ho1.
  - intros id'. etrans; [by eapply wrote_grew|]. etrans; [by eapply wrote_grew|]. apply Hg3.
Qed.

(** ** The record closed *)

Lemma LastEnd_snoc es e x : ev_Body e = SessionEnded (Some x) → LastEnd (es ++ [e]) = Some x.
Proof. intros E. unfold LastEnd. rewrite reverse_snoc. cbn. unfold ended_body at 1. by rewrite E. Qed.
Lemma lastEndSeq_snoc es e x : ev_Body e = SessionEnded x → lastEndSeq (es ++ [e]) = ev_Seq e.
Proof. intros E. unfold lastEndSeq. rewrite reverse_snoc. cbn. unfold is_ended at 1. by rewrite E. Qed.

Lemma find_first_in {A} (p : A → bool) l x : find_first p l = Some x → x ∈ l.
Proof. induction l as [|y l IH]; [done|]. cbn. destruct (p y); [intros [= <-]; by left|]. intros H. right. by apply IH. Qed.

Lemma ended_not_going es e x : in_order (es ++ [e]) → positive (es ++ [e]) → ev_Body e = SessionEnded x → InFlight tx lex (es ++ [e]) = None.
Proof.
  intros Ho Hp He. assert (El : Live (es ++ [e]) = Live es ++ [e]).
  { unfold Live. rewrite foldl_app. cbn. unfold live_step. by rewrite He. }
  unfold InFlight. rewrite El, last_snoc, (lastEndSeq_snoc _ _ x) by done. unfold lastRunSeq.
  destruct (find_first run_event _) as [y|] eqn:Ef.
  2:{ apply Forall_app in Hp as [_ Hp%Forall_inv]. by destruct (Z.leb_spec 0 (ev_Seq e)); [|lia]. }
  apply find_first_in in Ef. rewrite elem_of_reverse in Ef. apply elem_of_app in Ef as [Hy|Hy].
  - destruct (Z.leb_spec (ev_Seq y) (ev_Seq e)) as [|Hgt]; [done|]. apply in_order_app in Ho as (Hin & _ & Hlt). rewrite live_is_stands in Hy by done.
    assert (y ∈ es) by (eapply elem_of_sublist; [exact Hy|apply stands_sublist]). specialize (Hlt y e ltac:(done) ltac:(by left)). lia.
  - apply list_elem_of_singleton in Hy as ->. by rewrite Z.leb_refl.
Qed.

(** Children that were open, once each is returned. *)
Lemma child_order_named es : ∀ s, Forall (λ id, id ≠ "") (cd_order s) → Forall (λ id, id ≠ "") (cd_order (foldl child_event s es)).
Proof.
  induction es as [|e es IH]; intros s H; [done|]. cbn. apply IH. unfold child_event.
  destruct (ev_Body e) as [| | | | | | | | | | | |[c|]|[c|]|[c|]| | | | | | | ]; try done; unfold in_background;
    destruct (ch_Background c); cbn; try done; destruct (String.eqb_spec (ch_TaskID c) ""); cbn; try done;
    destruct (bool_decide _); try done; apply Forall_app_2; try done; by apply Forall_singleton.
Qed.

Lemma returns_close ids : ∀ new s, Forall2 lost ids (map ev_Body new) → Forall (λ id, id ≠ "") ids →
  foldl child_event s new = MkChildren (cd_order s) (cd_open s ∖ list_to_set ids).
Proof.
  induction ids as [|id ids IH]; intros new s H Hne; inversion H as [|? b ? bs Hb Hbs Eb Emap]; subst.
  - destruct new; [|done]. cbn. destruct s as [o p]. f_equal. cbn. set_solver.
  - destruct new as [|e new]; [done|]. injection Emap as Ee Emap. subst. apply Forall_cons in Hne as [Hid Hne]. cbn [foldl].
    assert (Estep : child_event s e = MkChildren (cd_order s) (cd_open s ∖ {[id]})).
    { destruct Hb as [endSeq Hb]. unfold child_event. rewrite Hb. unfold lost_return, in_background. cbn. by destruct (String.eqb_spec id ""). }
    rewrite Estep, (IH new) by done. cbn. f_equal. set_solver.
Qed.

Lemma no_children es s : Forall (λ b, match b with Spawned _ | Backgrounded _ | Returned _ => False | _ => True end) (map ev_Body es) →
  foldl child_event s es = s.
Proof.
  revert s. induction es as [|e es IH]; intros s H; [done|]. cbn in *. apply Forall_cons in H as [He H]. rewrite IH by done.
  unfold child_event. by destruct (ev_Body e) as [| | | | | | | | | | | |[c|]|[c|]|[c|]| | | | | | | ].
Qed.

Lemma unreturned_named es : Forall (λ id, id ≠ "") (unreturned es).
Proof.
  unfold unreturned. apply Forall_forall. intros id Hid. apply list_elem_of_In, List.filter_In in Hid as [Hid _]. apply list_elem_of_In in Hid.
  pose proof (child_order_named es (MkChildren [] ∅) ltac:(constructor)) as H. by eapply (proj1 (Forall_forall _ _) H).
Qed.

Lemma filter_none {A} (p : A → bool) l : (∀ x, In x l → p x = false) → List.filter p l = [].
Proof. induction l as [|x l IH]; intros H; [done|]. cbn. rewrite H by (by left). apply IH. intros y Hy. apply H. by right. Qed.

Lemma unreturned_closed es new1 new2 : Forall2 lost (unreturned es) (map ev_Body new1) →
  Forall (λ b, match b with Spawned _ | Backgrounded _ | Returned _ => False | _ => True end) (map ev_Body new2) →
  unreturned (es ++ new1 ++ new2) = [].
Proof.
  intros H1 H2. pose proof (unreturned_named es) as Hne. unfold unreturned in *. rewrite !foldl_app.
  set (s := foldl child_event (MkChildren [] ∅) es) in *. set (ids := List.filter _ _) in *.
  rewrite (returns_close ids new1 s H1 Hne), no_children by done. apply filter_none.
  cbn. intros id Hin. apply bool_decide_eq_false. rewrite elem_of_difference, elem_of_list_to_set. intros [Hopen Hnot]. apply Hnot.
  apply list_elem_of_In, List.filter_In. split; [done|]. by apply bool_decide_eq_true.
Qed.


Lemma ended_not_orphaned es e x : ev_Body e = SessionEnded (Some x) → en_Background x = 0 → unreturned (es ++ [e]) = [] → Orphaned (es ++ [e]) = false.
Proof.
  intros He Hx Hu. unfold Orphaned. rewrite (LastEnd_snoc _ _ x), Hu, Hx by done. unfold ends_now. rewrite last_snoc. unfold is_ended. rewrite He.
  by destruct es.
Qed.

(** ** What is owed

    The calls a record leaves open, said of its events: in the run that never ended,
    each request no event after it settles; and the children it leaves open, each
    started in the background with no return after. *)

Definition settles (id : string) (e : event) : bool :=
  match ev_Body e with
  | Denied (Some (id', _)) => String.eqb id' id
  | Observed (Some o) => String.eqb (ob_CallID o) id
  | _ => false
  end.
Definition approves (id : string) (e : event) : bool := match ev_Body e with Approved (Some id') => String.eqb id' id | _ => false end.

(** A person's own call and a pipeline's step are not the model's. *)
Record owed_call : Type := MkOwed { ow_ID : string; ow_Tool : string; ow_Other : bool; ow_Approved : bool }.
Fixpoint owes (run : list event) : list owed_call :=
  match run with
  | [] => []
  | e :: later =>
      match ev_Body e with
      | Requested (Some a) =>
          if existsb (settles (ac_CallID a)) later then owes later
          else MkOwed (ac_CallID a) (ac_Tool a) (bool_decide (ev_Actor e = ActorUser) || negb (String.eqb (ac_Via a) ""))
                 (existsb (approves (ac_CallID a)) later) :: owes later
      | _ => owes later
      end
  end.
Definition asked_ids (run : list event) : list string :=
  omap (λ e, match ev_Body e with Requested (Some a) => Some (ac_CallID a) | _ => None end) run.

(** What follows the last end of a record: a run, if a run wrote there. *)
Fixpoint last_run (events : list event) : list event :=
  match events with [] => [] | e :: later => if existsb is_ended (e :: later) then last_run later else e :: later end.
Definition left_owed (events : list event) : list owed_call :=
  let run := last_run (stands events) in if existsb run_event run then owes run else [].

(** The model's calls first, then the others': a call that was approved may have run. *)
Definition outcome (c : owed_call) : body :=
  if ow_Approved c then Observed (Some (MkObservation (ow_ID c) (ow_Tool c) unknownOutcome true true))
  else Denied (Some (ow_ID c, notRunStopped)).
Definition outcomes (cs : list owed_call) : list body :=
  map outcome (List.filter (λ c, negb (ow_Other c)) cs) ++ map outcome (List.filter ow_Other cs).

Definition starts_child (id : string) (e : event) : bool :=
  match ev_Body e with Spawned (Some c) | Backgrounded (Some c) => in_background c && String.eqb (ch_TaskID c) id | _ => false end.
Definition returns_child (id : string) (e : event) : bool :=
  match ev_Body e with Returned (Some c) => in_background c && String.eqb (ch_TaskID c) id | _ => false end.
Definition running_child (events : list event) (id : string) : Prop :=
  ∃ before e later, events = before ++ e :: later ∧ starts_child id e = true ∧ existsb (returns_child id) later = false.

Lemma running_snoc es e id : running_child (es ++ [e]) id ↔ starts_child id e = true ∨ (running_child es id ∧ returns_child id e = false).
Proof.
  split.
  - intros (b & x & l & E & Hs & Hr). destruct l as [|y l _] using rev_ind.
    + apply app_inj_tail in E as [-> ->]. by left.
    + rewrite app_comm_cons, app_assoc in E. apply app_inj_tail in E as [-> ->]. rewrite existsb_app in Hr. apply orb_false_iff in Hr as [Hr Hy].
      cbn in Hy. rewrite orb_false_r in Hy. right. split; [by exists b, x, l|done].
  - intros [Hs|[(b & x & l & -> & Hs & Hr) He]]; [by exists es, e, []|]. exists b, x, (l ++ [e]). rewrite <- app_assoc. split_and!; [done|done|].
    rewrite existsb_app, Hr. cbn. by rewrite He.
Qed.
Lemma children_open es : let s := foldl child_event (MkChildren [] ∅) es in
  (∀ id, id ∈ cd_open s ↔ running_child es id) ∧ ∀ id, id ∈ cd_open s → id ∈ cd_order s.
Proof.
  induction es as [|e es [IH1 IH2]] using rev_ind; cbn zeta in *.
  { cbn. split; intros id; [|set_solver]. split; [set_solver|]. intros (b & x & l & E & _). by destruct b. }
  rewrite foldl_app. cbn [foldl]. set (s := foldl child_event _ es) in *.
  assert (Hstart : ∀ c, (∀ id, starts_child id e = in_background c && String.eqb (ch_TaskID c) id) → (∀ id, returns_child id e = false) →
    let s' := if in_background c then MkChildren (if bool_decide (ch_TaskID c ∈ cd_open s) then cd_order s else cd_order s ++ [ch_TaskID c])
                ({[ch_TaskID c]} ∪ cd_open s) else s in
    (∀ id, id ∈ cd_open s' ↔ running_child (es ++ [e]) id) ∧ ∀ id, id ∈ cd_open s' → id ∈ cd_order s').
  { intros c Hs Hr. split; intros id; [rewrite running_snoc, Hs, Hr, <- IH1|]; destruct (in_background c); cbn; [|by naive_solver| |by apply IH2].
    - rewrite elem_of_union, elem_of_singleton. destruct (String.eqb_spec (ch_TaskID c) id); naive_solver.
    - rewrite elem_of_union, elem_of_singleton. case_bool_decide as Ho.
      + intros [->|H]; by apply IH2.
      + rewrite elem_of_app, list_elem_of_singleton. naive_solver. }
  assert (Hquiet : child_event s e = s → (∀ id, starts_child id e = false) → (∀ id, returns_child id e = false) →
    (∀ id, id ∈ cd_open (child_event s e) ↔ running_child (es ++ [e]) id) ∧ ∀ id, id ∈ cd_open (child_event s e) → id ∈ cd_order (child_event s e)).
  { intros -> Hs Hr. split; [|done]. intros id. rewrite running_snoc, Hs, Hr, <- IH1. naive_solver. }
  assert (Hback : ∀ c, (∀ id, starts_child id e = false) → (∀ id, returns_child id e = in_background c && String.eqb (ch_TaskID c) id) →
    let s' := if in_background c then MkChildren (cd_order s) (cd_open s ∖ {[ch_TaskID c]}) else s in
    (∀ id, id ∈ cd_open s' ↔ running_child (es ++ [e]) id) ∧ ∀ id, id ∈ cd_open s' → id ∈ cd_order s').
  { intros c Hs Hr. split; intros id; [rewrite running_snoc, Hs, Hr, <- IH1|]; destruct (in_background c); cbn; [|by naive_solver| |by apply IH2].
    - rewrite elem_of_difference, elem_of_singleton. destruct (String.eqb_spec (ch_TaskID c) id); naive_solver.
    - rewrite elem_of_difference. intros [H _]. by apply IH2. }
  unfold child_event, starts_child, returns_child in *.
  destruct (ev_Body e) as [| | | | | | | | | | | |[c|]|[c|]|[c|]| | | | | | | ]; first [by apply Hquiet|by apply Hstart|by apply Hback].
Qed.
Lemma unreturned_exact es id : id ∈ unreturned es ↔ running_child es id.
Proof.
  unfold unreturned. destruct (children_open es) as [H1 H2]. cbn zeta in *. rewrite <- H1, list_elem_of_In, List.filter_In, bool_decide_eq_true, <- list_elem_of_In.
  naive_solver.
Qed.

(** The run that never ended, as its events are read for calls. *)
Lemma last_of {A} (p : A → bool) l : existsb p l = true → ∃ pre x post, l = pre ++ x :: post ∧ p x = true ∧ existsb p post = false.
Proof.
  induction l as [|x l IH] using rev_ind; [done|]. rewrite existsb_app. cbn. rewrite orb_false_r. destruct (p x) eqn:E.
  - intros _. by exists l, x, [].
  - rewrite orb_false_r. intros H. destruct (IH H) as (pre & y & post & -> & Hy & Hp). exists pre, y, (post ++ [x]).
    rewrite <- app_assoc, existsb_app, Hp. cbn. by rewrite E.
Qed.
Lemma find_first_last {A} (p : A → bool) pre x post : p x = true → existsb p post = false → find_first p (reverse (pre ++ x :: post)) = Some x.
Proof.
  intros Hx. induction post as [|y post IH] using rev_ind; intros Hp.
  - rewrite reverse_snoc. cbn. by rewrite Hx.
  - rewrite existsb_app in Hp. apply orb_false_iff in Hp as [Hp Hy]. cbn in Hy. rewrite orb_false_r in Hy.
    rewrite app_comm_cons, app_assoc, reverse_snoc. cbn. rewrite Hy. by apply IH.
Qed.
Lemma find_first_no {A} (p : A → bool) l : existsb p l = false → find_first p (reverse l) = None.
Proof.
  induction l as [|x l IH] using rev_ind; [done|]. rewrite existsb_app, reverse_snoc. cbn. rewrite orb_false_r. intros [H ->]%orb_false_iff. by apply IH.
Qed.
Lemma last_run_none l : existsb is_ended l = false → last_run l = l.
Proof. destruct l as [|e l]; [done|]. intros H. cbn [last_run]. by rewrite H. Qed.
Lemma last_run_app pre e post : is_ended e = true → existsb is_ended post = false → last_run (pre ++ e :: post) = post.
Proof.
  intros He Hp. induction pre as [|x pre IH]; cbn [app last_run existsb].
  - rewrite He. cbn. by apply last_run_none.
  - rewrite existsb_app. cbn. by rewrite He, orb_true_r, orb_true_r.
Qed.

Lemma last_run_read es : in_order es → positive es → run_events es = last_run es ∧
  (lastRunSeq es <=? lastEndSeq es) = negb (existsb run_event (last_run es)).
Proof.
  intros Ho Hp. unfold run_events, lastEndSeq, lastRunSeq. destruct (existsb is_ended es) eqn:Ee.
  - destruct (last_of _ _ Ee) as (pre & e & post & -> & He & Hno). rewrite (find_first_last _ _ _ _ He Hno), (last_run_app _ _ _ He Hno).
    apply in_order_app in Ho as (_ & Ho & Hpre). apply (in_order_app [e]) in Ho as (_ & _ & Hpost).
    assert (Hlow : List.filter (λ x, ev_Seq e <? ev_Seq x) (pre ++ [e]) = []).
    { apply filter_drops. intros x Hx. apply Z.ltb_ge. apply elem_of_app in Hx as [Hx|Hx]; [|apply list_elem_of_singleton in Hx as ->; lia].
      specialize (Hpre x e Hx ltac:(by left)). lia. }
    assert (Hhigh : List.filter (λ x, ev_Seq e <? ev_Seq x) post = post).
    { clear -Hpost. induction post as [|x post IH]; [done|]. cbn. specialize (Hpost e x ltac:(by left) ltac:(by left)) as Hx.
      destruct (Z.ltb_spec (ev_Seq e) (ev_Seq x)); [|lia]. f_equal. apply IH. intros y z Hy Hz. apply Hpost; [done|by right]. }
    split; [change (e :: post) with ([e] ++ post); rewrite app_assoc, List.filter_app, Hlow; exact Hhigh|].
    destruct (existsb run_event post) eqn:Er.
    + destruct (last_of _ _ Er) as (p1 & y & p2 & -> & Hy & Hn). change (e :: p1 ++ y :: p2) with ((e :: p1) ++ y :: p2).
      rewrite app_assoc, (find_first_last _ _ _ _ Hy Hn). apply Z.leb_gt. apply Hpost; [by left|]. apply elem_of_app. right. by left.
    + apply Z.leb_le. destruct (find_first run_event _) as [y|] eqn:Ef.
      2:{ apply Forall_app in Hp as [_ Hp%Forall_inv]. lia. }
      destruct (existsb run_event (pre ++ [e])) eqn:Er'.
      * assert (y ∈ pre ++ [e]) as Hy.
        { destruct (last_of _ _ Er') as (p1 & z & p2 & E & Hz & Hn). change (e :: post) with ([e] ++ post) in Ef. rewrite app_assoc, E, <- app_assoc in Ef. cbn in Ef.
          rewrite (find_first_last _ _ _ _ Hz) in Ef; [injection Ef as <-; rewrite E; apply elem_of_app; right; by left|].
          rewrite existsb_app, Hn. done. }
        apply elem_of_app in Hy as [Hy|Hy]; [|apply list_elem_of_singleton in Hy as ->; lia]. specialize (Hpre y e Hy ltac:(by left)). lia.
      * rewrite find_first_no in Ef; [done|]. change (e :: post) with ([e] ++ post). rewrite app_assoc, existsb_app, Er'. done.
  - rewrite (find_first_no _ _ Ee), (last_run_none _ Ee). split.
    + clear -Hp. induction Hp as [|x es Hx Hp IH]; [done|]. cbn. destruct (Z.ltb_spec 0 (ev_Seq x)); [|lia]. by rewrite IH.
    + destruct (existsb run_event es) eqn:Er; cbn.
      * destruct (last_of _ _ Er) as (pre & y & post & -> & Hy & Hn). rewrite (find_first_last _ _ _ _ Hy Hn).
        apply Forall_app in Hp as [_ Hp%Forall_inv]. by apply Z.leb_gt.
      * by rewrite (find_first_no _ _ Er).
Qed.

(** The calls a run asks, as they are read: with whether each is settled. *)
Definition is_other (e : event) : bool :=
  match ev_Body e with Requested (Some a) => bool_decide (ev_Actor e = ActorUser) || negb (String.eqb (ac_Via a) "") | _ => false end.
Fixpoint asked_in (run : list event) : list (OpenCall * bool) :=
  match run with
  | [] => []
  | e :: later =>
      match ev_Body e with
      | Requested (Some a) => (MkOpen e (call_of tx lex a) (existsb (approves (ac_CallID a)) later), existsb (settles (ac_CallID a)) later) :: asked_in later
      | _ => asked_in later
      end
  end.
Abbreviation id_of o := (tc_ID (oc_Call o)).
Definition with_approvals (later : list event) (o : OpenCall) : OpenCall :=
  MkOpen (oc_Request o) (oc_Call o) (oc_Approved o || existsb (approves (id_of o)) later).

(** Every call asked is found by its id, and only such are settled. *)
Definition by_id (s : in_flight) : Prop :=
  (∀ i o, if_all s !! i = Some o → if_byID s !! id_of o = Some i) ∧ (∀ id i, if_byID s !! id = Some i → ∃ o, if_all s !! i = Some o ∧ id_of o = id) ∧
  ∀ id, id ∈ if_settled s → is_Some (if_byID s !! id).

Lemma asked_in_ids run o b : (o, b) ∈ asked_in run → id_of o ∈ asked_ids run.
Proof.
  induction run as [|e run IH]; [intros H; by apply not_elem_of_nil in H|]. cbn. destruct (ev_Body e) as [| |[a|]| | | | | | | | | | | | | | | | | | |]; try done.
  intros [[= -> ->]|H]%elem_of_cons; [by left|]. right. by apply IH.
Qed.

Lemma settle_flight id e s : by_id s → (∀ i, settles i e = String.eqb id i) → (∀ i, approves i e = false) → flight_step tx lex s e = settle_id id s →
  by_id (flight_step tx lex s e) ∧ if_all (flight_step tx lex s e) = map (with_approvals [e]) (if_all s) ∧ if_byID (flight_step tx lex s e) = if_byID s ∧
  if_others (flight_step tx lex s e) = if_others s ∧
  ∀ i, is_Some (if_byID s !! i) → (i ∈ if_settled (flight_step tx lex s e) ↔ i ∈ if_settled s ∨ settles i e = true).
Proof.
  intros (H1 & H2 & H3) Hs Ha ->.
  assert (Hall : map (with_approvals [e]) (if_all s) = if_all s).
  { rewrite <- (map_id (if_all s)) at 2. apply map_ext. intros [q c ap]. unfold with_approvals. cbn. by rewrite Ha, !orb_false_r. }
  unfold settle_id. destruct (if_byID s !! id) as [i|] eqn:E; cbn; rewrite Hall.
  - split; [split_and!; [done|done|]|split_and!; try done].
    + cbn. intros j [->%elem_of_singleton|Hj]%elem_of_union; [by eexists|by apply H3].
    + intros j _. rewrite elem_of_union, elem_of_singleton, Hs. destruct (String.eqb_spec id j); naive_solver.
  - split_and!; try done. intros j [x Hj]. rewrite Hs. destruct (String.eqb_spec id j) as [->|]; [by rewrite E in Hj|]. naive_solver.
Qed.

(** An event that asks nothing: what it approves and what it settles. *)
Lemma flight_other e s : by_id s → (∀ a, ev_Body e ≠ Requested (Some a)) →
  by_id (flight_step tx lex s e) ∧ if_all (flight_step tx lex s e) = map (with_approvals [e]) (if_all s) ∧ if_byID (flight_step tx lex s e) = if_byID s ∧
  if_others (flight_step tx lex s e) = if_others s ∧
  ∀ i, is_Some (if_byID s !! i) → (i ∈ if_settled (flight_step tx lex s e) ↔ i ∈ if_settled s ∨ settles i e = true).
Proof.
  intros Hid Hreq. assert (Hno : (∀ i, settles i e = false) → (∀ i, approves i e = false) → flight_step tx lex s e = s →
    by_id (flight_step tx lex s e) ∧ if_all (flight_step tx lex s e) = map (with_approvals [e]) (if_all s) ∧ if_byID (flight_step tx lex s e) = if_byID s ∧
    if_others (flight_step tx lex s e) = if_others s ∧
    ∀ i, is_Some (if_byID s !! i) → (i ∈ if_settled (flight_step tx lex s e) ↔ i ∈ if_settled s ∨ settles i e = true)).
  { intros Hs Ha ->. split; [done|]. split_and!; [|done|done|intros i _; rewrite Hs; naive_solver].
    rewrite <- (map_id (if_all s)) at 1. apply map_ext. intros [q c ap]. unfold with_approvals. cbn. by rewrite Ha, !orb_false_r. }
  destruct (ev_Body e) as [| |[a|]|[id|]|[[id why]|]|[ob|]| | | | | | | | | | | | | | | |] eqn:Eb;
    try (apply Hno; intros; unfold settles, approves, flight_step; by rewrite Eb).
  - by destruct (Hreq a).
  - destruct Hid as (H1 & H2 & H3). unfold flight_step. rewrite Eb. destruct (if_byID s !! id) as [i|] eqn:E.
    + assert (Hall : alter set_approved i (if_all s) = map (with_approvals [e]) (if_all s)).
      { apply list_eq. intros j. rewrite list_lookup_fmap. destruct (decide (i = j)) as [<-|Hne]; [rewrite list_lookup_alter_eq|rewrite list_lookup_alter_ne by done];
          destruct (if_all s !! _) as [o|] eqn:Eo; cbn; try done; f_equal; unfold with_approvals, set_approved, approves; cbn; rewrite Eb.
        - destruct (H2 id i E) as (o' & Eo' & <-). rewrite Eo in Eo'. injection Eo' as ->. by rewrite String.eqb_refl, orb_true_r.
        - destruct (String.eqb_spec id (id_of o)) as [->|]; [exfalso; apply Hne; rewrite (H1 j o Eo) in E; by injection E|].
          destruct o; cbn. by rewrite !orb_false_r. }
      split; [split_and!; cbn|split_and!; [done|done|done|]].
      * intros j o Hj. rewrite Hall, list_lookup_fmap in Hj. destruct (if_all s !! j) as [o'|] eqn:Eo; [|done]. injection Hj as <-. by apply (H1 j o').
      * intros j k Hj. destruct (H2 j k Hj) as (o & Eo & <-). rewrite Hall, list_lookup_fmap, Eo. by eexists.
      * done.
      * intros j _. cbn. unfold settles. rewrite Eb. naive_solver.
    + split; [done|]. split_and!; [|done|done|intros i _; unfold settles; rewrite Eb; naive_solver].
      rewrite <- (map_id (if_all s)) at 1. apply map_ext_in. intros [q c ap] Hin. unfold with_approvals, approves. cbn. rewrite Eb.
      destruct (String.eqb_spec id (tc_ID c)) as [->|]; [|by rewrite !orb_false_r]. exfalso. apply list_elem_of_In, list_elem_of_lookup in Hin as [j Hj].
      specialize (H1 j _ Hj). cbn in H1. by rewrite E in H1.
  - apply (settle_flight id); [done| | |unfold flight_step; by rewrite Eb]; intros i; unfold settles, approves; by rewrite Eb.
  - apply (settle_flight (ob_CallID ob)); [done| | |unfold flight_step; by rewrite Eb]; intros i; unfold settles, approves; by rewrite Eb.
Qed.

(** A request: a call more, found by its id. *)
Lemma flight_asks e a s : by_id s → ev_Body e = Requested (Some a) → if_byID s !! ac_CallID a = None →
  let s' := flight_step tx lex s e in
  by_id s' ∧ if_all s' = if_all s ++ [MkOpen e (call_of tx lex a) false] ∧ if_byID s' = <[ac_CallID a := length (if_all s)]> (if_byID s) ∧
  if_others s' = <[ac_CallID a := is_other e]> (if_others s) ∧ if_settled s' = if_settled s.
Proof.
  intros (H1 & H2 & H3) Eb Hnew. cbn zeta. unfold flight_step, is_other. rewrite Eb. split_and!; try done. split_and!; cbn.
  - intros i o [Hi|[Hi Ho]]%lookup_app_Some.
    + pose proof (H1 i o Hi) as E. rewrite lookup_insert_ne; [done|]. intros Hid. by rewrite Hid, E in Hnew.
    + apply list_lookup_singleton_Some in Ho as [Ei <-]. cbn. rewrite lookup_insert_eq. f_equal. lia.
  - intros id i [[<- <-]|[_ Hi]]%lookup_insert_Some.
    + eexists. rewrite lookup_app_r, Nat.sub_diag by done. done.
    + destruct (H2 id i Hi) as (o & Ho & <-). exists o. split; [by apply lookup_app_l_Some|done].
  - intros id [i Hi]%H3. destruct (decide (ac_CallID a = id)) as [<-|Hne]; [by rewrite Hi in Hnew|]. rewrite lookup_insert_ne by done. by eexists.
Qed.
Lemma with_approvals_cons e later o : with_approvals (e :: later) o = with_approvals later (with_approvals [e] o).
Proof. unfold with_approvals. cbn. by rewrite orb_false_r, orb_assoc. Qed.

(** A run read through: every call it asks with its approvals, settled when an event
    after it settles it. *)
Lemma flight_run R : ∀ s, by_id s → (∀ id, id ∈ asked_ids R → if_byID s !! id = None) → NoDup (asked_ids R) →
  let f := foldl (flight_step tx lex) s R in
  if_all f = map (with_approvals R) (if_all s) ++ map fst (asked_in R) ∧
  (∀ id, is_Some (if_byID s !! id) → (id ∈ if_settled f ↔ id ∈ if_settled s ∨ existsb (settles id) R = true) ∧ if_others f !! id = if_others s !! id) ∧
  ∀ o b, (o, b) ∈ asked_in R → (id_of o ∈ if_settled f ↔ b = true) ∧ if_others f !! id_of o = Some (is_other (oc_Request o)).
Proof.
  induction R as [|e R IH]; intros s Hs Hnew Hnd; cbn zeta.
  { cbn. split_and!; [|intros id _; split; [|done]; naive_solver|by intros o b H%not_elem_of_nil].
    rewrite app_nil_r, <- (map_id (if_all s)) at 1. apply map_ext. intros [q c ap]. unfold with_approvals. cbn. by rewrite orb_false_r. }
  cbn [foldl]. assert (Hmap : ∀ l, map (with_approvals (e :: R)) l = map (with_approvals R) (map (with_approvals [e]) l)).
  { intros l. rewrite map_map. apply map_ext, with_approvals_cons. }
  assert (Hreq : (∃ a, ev_Body e = Requested (Some a)) ∨ ∀ a, ev_Body e ≠ Requested (Some a)).
  { destruct (ev_Body e) as [| |[a|]| | | | | | | | | | | | | | | | | | |]; try (by right). left. by eexists. }
  destruct Hreq as [[a Ea]|Hno].
  - cbn [asked_ids omap list_omap] in Hnew, Hnd. unfold asked_ids in Hnew, Hnd. cbn in Hnew, Hnd. rewrite Ea in Hnew, Hnd.
    apply NoDup_cons in Hnd as [Hna Hnd].
    destruct (flight_asks e a s Hs Ea (Hnew _ ltac:(by left))) as (Hs' & Hall & Hby & Hoth & Hset).
    destruct (IH _ Hs') as (IHall & IHold & IHnew); [|done|].
    { intros id Hid. rewrite Hby, lookup_insert_ne by (intros <-; by apply Hna). apply Hnew. by right. }
    assert (Hq : ∀ l, map (with_approvals [e]) l = l).
    { intros l. rewrite <- (map_id l) at 2. apply map_ext. intros [q c ap]. unfold with_approvals, approves. cbn. by rewrite Ea, !orb_false_r. }
    assert (Hfresh : ac_CallID a ∉ if_settled s).
    { destruct Hs as (_ & _ & H3). intros Hin. apply H3 in Hin as [i Hi]. by rewrite (Hnew _ ltac:(by left)) in Hi. }
    split_and!.
    + rewrite IHall, Hall, Hmap, Hq, map_app. cbn. rewrite Ea. cbn. by rewrite <- app_assoc.
    + intros id Hid. assert (Hne : ac_CallID a ≠ id) by (intros <-; rewrite (Hnew _ ltac:(by left)) in Hid; by destruct Hid).
      destruct (IHold id) as [IH1 IH2]; [rewrite Hby, lookup_insert_ne by done; done|]. rewrite IH1, IH2, Hset, Hoth, lookup_insert_ne by done. split; [|done].
      cbn. unfold settles at 2. by rewrite Ea.
    + intros o b. cbn. rewrite Ea. intros [[= -> ->]|Hin]%elem_of_cons; [|by apply IHnew]. cbn.
      destruct (IHold (ac_CallID a)) as [IH1 IH2]; [rewrite Hby, lookup_insert_eq; by eexists|].
      rewrite IH1, IH2, Hset, Hoth, lookup_insert_eq. split; [naive_solver|done].
  - destruct (flight_other e s Hs Hno) as (Hs' & Hall & Hby & Hoth & Hset).
    assert (Hids : asked_ids (e :: R) = asked_ids R ∧ asked_in (e :: R) = asked_in R).
    { unfold asked_ids. cbn. destruct (ev_Body e) as [| |[a|]| | | | | | | | | | | | | | | | | | |]; try done. by destruct (Hno a). }
    destruct Hids as [Eid Ein]. rewrite Eid in Hnew, Hnd. rewrite Ein. destruct (IH _ Hs') as (IHall & IHold & IHnew); [by rewrite Hby|done|].
    split_and!; [by rewrite IHall, Hall, Hmap| |done]. intros id Hid. destruct (IHold id) as [IH1 IH2]; [by rewrite Hby|].
    rewrite IH1, IH2, Hoth, (Hset id Hid). cbn. split; [|done]. destruct (settles id e); naive_solver.
Qed.

(** What is owed, as it is read. *)
Definition owed_of (x : OpenCall * bool) : owed_call :=
  MkOwed (id_of (fst x)) (tc_Name (oc_Call (fst x))) (is_other (oc_Request (fst x))) (oc_Approved (fst x)).
Lemma owes_asked run : owes run = map owed_of (List.filter (λ x, negb (snd x)) (asked_in run)).
Proof.
  induction run as [|e run IH]; [done|]. cbn. destruct (ev_Body e) as [| |[a|]| | | | | | | | | | | | | | | | | | |] eqn:Ea; try done. cbn.
  destruct (existsb (settles _) run); cbn; [done|]. rewrite IH. unfold owed_of, is_other. cbn. by rewrite Ea.
Qed.
Lemma filter_map {A B} (f : A → B) p l : List.filter p (map f l) = map f (List.filter (λ x, p (f x)) l).
Proof. induction l as [|x l IH]; [done|]. cbn. destruct (p (f x)); cbn; by rewrite IH. Qed.
Lemma filter_in {A} (p q : A → bool) l : (∀ x, x ∈ l → p x = q x) → List.filter p l = List.filter q l.
Proof.
  induction l as [|x l IH]; [done|]. intros H. cbn. rewrite (H x) by by left. rewrite IH; [done|]. intros y Hy. apply H. by right.
Qed.
Lemma settle_outcome x : settle_body (fst x) = outcome (owed_of x).
Proof. unfold settle_body, outcome, owed_of. cbn. by destruct (oc_Approved _). Qed.

(** The calls a closed record settles are those it owes. *)
Lemma left_open_owed es : in_order es → positive es → NoDup (asked_ids (last_run (stands es))) →
  map settle_body (left_open tx lex es) = outcomes (left_owed es).
Proof.
  intros Ho Hp Hnd. pose proof (in_order_sublist _ _ (stands_sublist es) Ho) as HoL.
  assert (HpL : positive (stands es)) by (apply Forall_forall; intros x Hx; eapply Forall_forall in Hp; [exact Hp|]; eapply elem_of_sublist; [exact Hx|apply stands_sublist]).
  destruct (last_run_read (stands es) HoL HpL) as [Er El]. unfold left_open, left_owed, InFlight. rewrite live_is_stands, Er, El by done.
  set (R := last_run (stands es)) in *. destruct (last (stands es)) as [newest|] eqn:Elast.
  2:{ apply last_None in Elast. unfold R. by rewrite Elast. }
  destruct (existsb run_event R); [|done]. cbn [negb ot_Calls ot_Others].
  destruct (flight_run R (MkInFlight [] ∅ ∅ ∅)) as (Hall & _ & Hin); [split_and!; cbn; [by intros i o Hi|by intros id i Hi|set_solver]|by intros|done|].
  cbn zeta in *. set (f := foldl _ _ R) in *. cbn in Hall. rewrite Hall, map_app. unfold outcomes. rewrite owes_asked, !filter_map, !filter_filter.
  rewrite !map_map.
  f_equal; (erewrite map_ext; [|apply settle_outcome]); f_equal; apply filter_in; intros [o b] Hx; cbn;
    destruct (Hin o b Hx) as [Hset ->]; cbn; rewrite (bool_decide_ext _ (b = true)) by done; by destruct b.
Qed.

(** C14: A record a process left open, closed: each child started in the background
    with no return after is returned, and its own record ended; then each request of
    the run that never ended which no event after it settles gets one outcome, the
    unknown one when an approval of it stands after it and it may have run, a refusal
    when none does, and no other call gets one; then the record's end is written, and
    nothing else is. The ids the run's calls were asked under are each used once. No
    call is in flight any more, and closing the record again does nothing. *)
Theorem Reconcile_closes sid v : let es := session_events (rv_store v) sid in
  in_order es → positive es →
  NoDup (asked_ids (last_run (stands es))) →
  last_seq es + Z.of_nat (length (unreturned es)) + Z.of_nat (length (outcomes (left_owed es))) + 1 < int64_max →
  Forall (λ id, id ≠ sid ∧ child_ok (rv_store v) id) (unreturned es) → Orphaned es = true →
  ∃ v' new returns, Reconcile tx lex newID now sid es v = (true, v') ∧ session_events (rv_store v') sid = es ++ new ∧
    map ev_Body new = returns ++ outcomes (left_owed es) ++ [SessionEnded (Some (closing_end es))] ∧
    Forall2 lost (unreturned es) returns ∧ (∀ id, id ∈ unreturned es ↔ running_child es id) ∧ Forall (closed (rv_store v')) (unreturned es) ∧ grew (rv_store v) (rv_store v') ∧
    InFlight tx lex (es ++ new) = None ∧ Reconcile tx lex newID now sid (es ++ new) v' = (true, v').
Proof.
  intros es Ho Hp Hids Hroom Hch Horph. pose proof (left_open_owed es Ho Hp Hids) as Howed. rewrite <- Howed, length_map in *. unfold Reconcile at 1. rewrite Horph. cbn [negb].
  pose proof (writer_new sid "" (rv_store v) (Z.of_nat (length (unreturned es)) + (Z.of_nat (length (left_open tx lex es)) + 1)) Ho Hp ltac:(lia)
    ltac:(fold es; lia)) as Hw. fold es in Hw.
  destruct (close_all (unreturned es) sid (Advance (last_seq es) (NewRecorder sid "")) v (Z.of_nat (length (left_open tx lex es)) + 1) eq_refl Hw ltac:(lia) Hch)
    as (p1 & v1 & new1 & E1 & Es1 & Hev1 & Hlost & Hw1 & Hcl & _ & Hg1). unfold reconcileChildren. rewrite E1.
  destruct (settle_all (left_open tx lex es) p1 v1 1 Hw1 ltac:(lia)) as (p2 & v2 & -> & Es2 & Hwr2 & Hw2).
  destruct (write_event_next ActorSystem (SessionEnded (Some (closing_end es))) p2 v2 0 Hw2 ltac:(lia))
    as (e & p3 & v3 & -> & Eb & _ & Es3 & Hev3 & Hwr3 & Hw3). rewrite Es2, Es1 in *.
  pose proof (wrote_grew _ _ _ _ Hwr2) as Hg2. pose proof (wrote_grew _ _ _ _ Hwr3) as Hg3.
  destruct Hwr2 as (new2 & Hev2 & Hb2 & Ho2). destruct Hwr3 as (_ & _ & _ & Ho3).
  assert (Hev : session_events (rv_store v3) sid = es ++ (new1 ++ new2 ++ [e])) by (by rewrite Hev3, Hev2, Hev1, <- !app_assoc).
  destruct Hw3 as ((Hin & Hpos & _) & _). rewrite Es3, Hev in Hin, Hpos.
  assert (Hsplit : es ++ new1 ++ new2 ++ [e] = (es ++ new1 ++ new2) ++ [e]) by (by rewrite <- !app_assoc).
  exists v3, (new1 ++ new2 ++ [e]), (map ev_Body new1). split_and!; try done.
  - rewrite !map_app, Hb2. cbn. by rewrite Eb.
  - apply unreturned_exact.
  - assert (Hne : Forall (λ id, id ≠ sid) (unreturned es)) by (eapply Forall_impl; [exact Hch|]; by intros id [? _]).
    apply Forall_forall. intros id Hid. unfold closed. rewrite Forall_forall in Hne, Hcl. rewrite Ho3, Ho2 by (by apply Hne). by apply Hcl.
  - intros id. etrans; [apply Hg1|]. etrans; [apply Hg2|apply Hg3].
  - rewrite Hsplit in *. by eapply ended_not_going.
  - unfold Reconcile. rewrite Hsplit. rewrite (ended_not_orphaned _ e (closing_end es)); try done. rewrite <- Hsplit. apply unreturned_closed; [done|].
    rewrite map_app, Hb2. apply Forall_app_2; [|cbn; rewrite Eb; by apply Forall_singleton]. apply Forall_forall. intros b Hb.
    apply list_elem_of_fmap in Hb as (c & -> & _). unfold settle_body. by destruct (oc_Approved c).
Qed.
End recover.

(** ** A process that went away *)

Definition child_of (id : string) : option child_note := Some (MkChild true id id 0 0 "" None).
Definition crashed : list event :=
  [step_event 1 ActorUser (UserMessage (Some "go")); step_event 2 ActorSystem (ModelCalled false);
   step_event 3 ActorAgent (Requested (Some (MkAction "c1" "bash" "" ""))); step_event 4 ActorSystem (Approved (Some "c1"));
   step_event 5 ActorAgent (Requested (Some (MkAction "c2" "write" "" ""))); step_event 6 ActorAgent (Spawned (child_of "k"))].
Definition crashed_child : list event :=
  [step_event 1 ActorAgent (Spawned (child_of "k")); step_event 2 ActorUser (UserMessage (Some "look"));
   step_event 3 ActorAgent (Requested (Some (MkAction "d1" "read" "" "")))].
Definition crashed_store : recovery := MkRecovery (<["k" := crashed_child]> (<["s" := crashed]> ∅)) 0.
Definition closed_record : bool * recovery := Reconcile ascii_text no_args (λ _, "n") Z.of_nat "s" crashed crashed_store.

Lemma Reconcile_closes_witness :
  map ev_Body (drop 6 (session_events (rv_store (snd closed_record)) "s")) =
    [lost_return "k" (Some 5);
     Observed (Some (MkObservation "c1" "bash" unknownOutcome true true)); Denied (Some ("c2", notRunStopped));
     SessionEnded (Some (MkEnd "shutdown" 0 0 0 0 true false true))] ∧
  map ev_Body (drop 3 (session_events (rv_store (snd closed_record)) "k")) =
    [Denied (Some ("d1", notRunStopped)); SessionEnded (Some (shutdown_end 0 0 0 false true))] ∧
  ∃ v' new returns, closed_record = (true, v') ∧ session_events (rv_store v') "s" = crashed ++ new ∧
    map ev_Body new = returns ++ outcomes (left_owed crashed) ++ [SessionEnded (Some (closing_end crashed))] ∧
    Forall2 lost (unreturned crashed) returns ∧ (∀ id, id ∈ unreturned crashed ↔ running_child crashed id) ∧ Forall (closed (rv_store v')) (unreturned crashed) ∧
    grew (rv_store crashed_store) (rv_store v') ∧ InFlight ascii_text no_args (crashed ++ new) = None ∧
    Reconcile ascii_text no_args (λ _, "n") Z.of_nat "s" (crashed ++ new) v' = (true, v').
Proof.
  split; [vm_compute; reflexivity|]. split; [vm_compute; reflexivity|].
  apply (Reconcile_closes ascii_text no_args (λ _, "n") Z.of_nat "s" crashed_store).
  - unfold in_order. vm_compute. repeat constructor.
  - unfold positive. change (session_events _ _) with crashed. repeat constructor.
  - apply (bool_decide_unpack _). vm_compute. exact I.
  - vm_compute. reflexivity.
  - change (unreturned _) with ["k"]. constructor; [|constructor]. split; [discriminate|]. unfold child_ok. change (session_events _ _) with crashed_child.
    split; [unfold in_order; cbn; repeat constructor|]. split; [unfold positive; repeat constructor|]. intros _. vm_compute. reflexivity.
  - vm_compute. reflexivity.
Defined.

(** A background task that returned and was resumed is one task left open, and is
    listed twice. *)
Example resumed_child_listed_twice :
  unreturned [step_event 1 ActorAgent (Spawned (child_of "k")); step_event 2 ActorAgent (Returned (child_of "k"));
              step_event 3 ActorAgent (Spawned (child_of "k"))] = ["k"; "k"].
Proof. reflexivity. Qed.
