(* ===== verification/Compact.v ===== *)
(** Compaction (src/internal/agent/compact.go, loop.go): the history replaced by a
    summary and its most recent exchanges. Token counts, the model that writes the
    summary and the hooks are arguments; whether to compact, a comparison of
    floating-point numbers, is not modelled. *)

From Stdlib Require Import ZArith Ascii String Lia.
From stdpp Require Import base tactics list option strings.
From S2P Require Import Prelude.
From S2P Require Import GoStd.
From S2P Require Import GoPath.
From S2P Require Import Args.
From S2P Require Import AgentTools.
From S2P Require Import Transcript.

#[local] Open Scope string_scope.
#[local] Open Scope list_scope.

(** ** Where the history is split *)

(** [boundaryBefore], of the messages from the last one back: the place of one is
    the number of those after it. *)
Fixpoint boundary_go (keep seen : nat) (newest_first : list message) : nat :=
  match newest_first with
  | [] => 0
  | m :: older =>
      if bool_decide (m_Role m = RoleAssistant) then
        if (keep <=? S seen)%nat then
          match older with
          | p :: _ => if bool_decide (m_Role p = RoleUser) then pred (length older) else length older
          | [] => 0
          end
        else boundary_go keep (S seen) older
      else boundary_go keep seen older
  end.
Definition boundaryBefore (messages : list message) (keep : nat) : nat := boundary_go (max 1 keep) 0 (reverse messages).

Definition nl : string := String newline "".

Section adapter.
(** The model's window and its count of the tokens of messages under the system
    prompt; a count that fails is [None]. *)
Context (window : Z) (CountTokens : list message → option Z).

(** As many exchanges as fit in half the window, from [k] down; [split] is the
    split until then. *)
Fixpoint fit (messages : list message) (k split : nat) : nat :=
  match k with
  | 0 => split
  | S k' =>
      let at_ := boundaryBefore messages k in
      if (at_ =? 0)%nat && (1 <? k)%nat then fit messages k' split
      else match CountTokens (drop at_ messages) with
           | None => at_
           | Some used => if (used <=? window / 2)%Z then at_ else fit messages k' at_
           end
  end.
Definition split_at (KeepRecentTurns : Z) (messages : list message) : nat :=
  let keep := Z.to_nat (Z.max 1 KeepRecentTurns) in
  let split := boundaryBefore messages keep in
  if (0 <? window)%Z then fit messages keep split else split.

(** ** The summary *)

Definition summaryHead : string :=
  ("[Earlier conversation was compacted to stay within the context window. Summary of what happened:]" ++ nl ++ nl)%string.
Definition firstRequestMark : string := (nl ++ nl ++ "[The person's first message, word for word:]" ++ nl)%string.
Definition firstRequestMax : nat := 4000.

(** [firstRequest]. *)
Definition first_user (older : list message) : option message := find_first (λ m, bool_decide (m_Role m = RoleUser)) older.
Definition firstRequest (older : list message) : string :=
  match first_user older with
  | None => ""
  | Some m =>
      if HasPrefix (m_Content m) summaryHead then
        match Cut (m_Content m) firstRequestMark with Some (_, kept) => kept | None => "" end
      else let r := runes (m_Content m) in
           if (firstRequestMax <? length r)%nat then (of_runes (take firstRequestMax r) ++ "…")%string else m_Content m
  end.

(** [summarize]: the transcript the model is asked to summarise, and its answer. *)
Definition truncate (s : string) (n : nat) : string := if (String.length s <=? n)%nat then s else (str_take n s ++ "…")%string.
Definition call_line (tc : ToolCall) : string :=
  ("ASSISTANT called " ++ tc_Name tc ++ "(" ++ truncate (tc_Args tc) 200 ++ ")" ++ nl)%string.
Definition transcript_of (m : message) : string :=
  match m_Role m with
  | RoleUser => "USER: " ++ m_Content m ++ nl ++ nl
  | RoleAssistant =>
      (if String.eqb (m_Content m) "" then "" else "ASSISTANT: " ++ m_Content m ++ nl) ++
      String.concat "" (map call_line (m_ToolCalls m)) ++ nl
  | RoleTool => "TOOL " ++ (if m_IsError m then "ERROR" else "result") ++ ": " ++ truncate (m_Content m) 400 ++ nl ++ nl
  end%string.
Definition summaryPrompt : string :=
  "Summarize the conversation so far so that another engineer could pick up exactly where it left off.

Preserve, in this order:
1. The user's original goal, stated verbatim if short.
2. What has been done: files created or modified, with paths.
3. What was learned about the codebase that is not obvious from reading it.
4. Current state: what works, what is broken, what was just attempted.
5. The immediate next step.

Omit: tool call mechanics, file contents already written to disk, and reasoning
that led nowhere. Be specific about paths and identifiers — a vague summary
forces the work to be redone.

Write it as notes to a colleague, not prose.".
Definition focusLine (focus : string) : string :=
  if String.eqb focus "" then "" else (nl ++ nl ++ "The person asked this summary to keep, above all else: " ++ focus)%string.
Definition summary_request (older : list message) (focus : string) : string :=
  (summaryPrompt ++ focusLine focus ++ nl ++ nl ++ "---" ++ nl ++ nl ++ String.concat "" (map transcript_of older))%string.

Inductive chunk : Type := ChunkText (text : string) | ChunkError (err : string) | ChunkOther.
Fixpoint stream_text (out : string) (chunks : list chunk) : string + string :=
  match chunks with
  | [] => inr out
  | ChunkText t :: chunks => stream_text (out ++ t)%string chunks
  | ChunkError e :: _ => inl ("summarization failed: " ++ e)%string
  | ChunkOther :: chunks => stream_text out chunks
  end.
Context (Complete : string → string + list chunk).
Definition summarize (older : list message) (focus : string) : string + string :=
  match Complete (summary_request older focus) with
  | inl e => inl ("summarization failed: " ++ e)%string
  | inr chunks =>
      match stream_text "" chunks with
      | inl e => inl e
      | inr out => if String.eqb (TrimSpace out) "" then inl "summarization produced no output" else inr (TrimSpace out)
      end
  end.

(** ** Compaction *)

(** [Compactor]: the hooks a deployment sets, and what it keeps. *)
Record Compactor : Type := MkCompactor {
  cm_KeepRecentTurns : Z; cm_focus : string;
  cm_PreCompact : option (string → list message → option string);
  cm_Summarizer : option (list message → string * bool)
}.
Record Compaction : Type := MkCompaction { cn_BeforeTokens : Z; cn_AfterTokens : Z; cn_Summary : string; cn_Trigger : string }.
Definition no_compaction : Compaction := MkCompaction 0 0 "" "".

Definition SetFocus (focus : string) (c : Compactor) : Compactor :=
  MkCompactor (cm_KeepRecentTurns c) (TrimSpace focus) (cm_PreCompact c) (cm_Summarizer c).
(** A manual compaction takes the focus. *)
Definition takeFocus (trigger : string) (c : Compactor) : string * Compactor :=
  if String.eqb trigger "manual" then (cm_focus c, SetFocus "" c) else ("", c).

Definition summary_message (summary : string) (older : list message) : message :=
  let first := firstRequest older in
  user_message (summaryHead ++ summary ++ (if String.eqb first "" then "" else firstRequestMark ++ first))%string.

(** The summary to use: the hook's, unless it cancels, or the model's. *)
Definition summary_of (c : Compactor) (older : list message) (focus : string) : option (string + string) :=
  let '(s, cancel) := match cm_Summarizer c with Some f => f older | None => ("", false) end in
  if cancel : bool then None else Some (if String.eqb s "" then summarize older focus else inr s).

(** [CompactWith]: the messages, what is recorded of it, and why it failed. *)
Definition CompactWith (trigger : string) (messages : list message) (beforeTokens : Z) (c : Compactor)
    : list message * Compaction * option string * Compactor :=
  let '(focus, c) := takeFocus trigger c in
  match match cm_PreCompact c with Some f => f trigger messages | None => None end with
  | Some err => (messages, no_compaction, Some ("pre-compact hook: " ++ err)%string, c)
  | None =>
      let split := split_at (cm_KeepRecentTurns c) messages in
      let older := take split messages in
      if (length older <? 2)%nat then (messages, no_compaction, None, c)
      else match summary_of c older focus with
           | None => (messages, no_compaction, None, c)
           | Some (inl err) => (messages, no_compaction, Some err, c)
           | Some (inr summary) =>
               let compacted := summary_message summary older :: drop split messages in
               (compacted, MkCompaction beforeTokens (default 0%Z (CountTokens compacted)) summary trigger, None, c)
           end
  end.

(** Whether [CompactWith] says it has started: there is something to summarise,
    and no hook stopped it. *)
Definition begins (trigger : string) (messages : list message) (c : Compactor) : bool :=
  match cm_PreCompact c with Some f => match f trigger messages with Some _ => false | None => true end | None => true end &&
  let older := take (split_at (cm_KeepRecentTurns c) messages) messages in
  negb (length older <? 2)%nat && match cm_Summarizer c with Some f => negb (snd (f older)) | None => true end.

(** The loop's [Compact], for the command: what it makes the history, what it
    records, and how many compactions it counts. *)
Inductive compacted : Type := CompactFailed (err : string) | NothingToCompact | CompactedTo (info : Compaction).
Definition CompactNow (messages : list message) (c : Compactor) : compacted * list message * Compactor :=
  let used := default 0%Z (CountTokens messages) in
  match CompactWith "manual" messages used c with
  | (_, _, Some err, c) => (CompactFailed err, messages, c)
  | (msgs, info, None, c) => if (length msgs =? length messages)%nat then (NothingToCompact, messages, c) else (CompactedTo info, msgs, c)
  end.
End adapter.

(** * Theorems

    What compaction keeps: no call is parted from its result, the
    recent exchanges are kept as they are, the history gets shorter, and the
    person's first message goes with it word for word. *)

#[local] Close Scope string_scope.
#[local] Close Scope list_scope.
#[local] Open Scope string_scope.
#[local] Open Scope nat_scope.
#[local] Open Scope list_scope.

(** ** The split *)

Lemma paired_drop msgs i m : paired msgs → msgs !! i = Some m → m_Role m ≠ RoleTool → paired (drop i msgs).
Proof.
  intros Hp. revert i. induction Hp as [|x ms Hx Hc Hp IH|x rs ms Hx Hids Hrs Hp IH]; intros i Hi Hm.
  - by rewrite drop_nil.
  - destruct i as [|i]; [by constructor|]. by apply IH.
  - destruct i as [|i]; [by constructor|]. rewrite lookup_cons_ne_0 in Hi by done. cbn [Nat.pred drop] in *. destruct (decide (i < length rs)) as [Hlt|Hge].
    + rewrite lookup_app_l in Hi by done. apply list_elem_of_lookup_2 in Hi. exfalso. apply Hm. by eapply (proj1 (Forall_forall _ _) Hrs).
    + rewrite lookup_app_r in Hi by lia. rewrite drop_app_ge by lia. by apply IH.
Qed.

(** It falls at the start, or at a message that answers no call. *)
Definition clean_cut (msgs : list message) (i : nat) : Prop := i = 0 ∨ ∃ m, msgs !! i = Some m ∧ m_Role m ≠ RoleTool.

Lemma boundary_clean keep msgs : clean_cut msgs (boundaryBefore msgs keep).
Proof.
  unfold boundaryBefore. generalize (max 1 keep) as k. intros k. assert (H : ∀ rest front seen, msgs = reverse rest ++ front →
    clean_cut msgs (boundary_go k seen rest)); [|apply (H _ []); by rewrite reverse_involutive, app_nil_r].
  induction rest as [|m rest IH]; intros front seen E; cbn [boundary_go]; [by left|].
  assert (Hm : msgs !! length rest = Some m).
  { rewrite E, reverse_cons, <- app_assoc, lookup_app_r; rewrite length_reverse; [|lia]. by rewrite Nat.sub_diag. }
  assert (E' : msgs = reverse rest ++ m :: front) by (by rewrite E, reverse_cons, <- app_assoc).
  destruct (bool_decide_reflect (m_Role m = RoleAssistant)) as [Ha|Ha]; [|by eapply IH]. destruct (k <=? S seen); [|by eapply IH].
  destruct rest as [|p rest]; [by left|]. destruct (bool_decide_reflect (m_Role p = RoleUser)) as [Hu|Hu]; right.
  - exists p. split; [|by rewrite Hu]. cbn [length Nat.pred]. rewrite E', reverse_cons, <- app_assoc, lookup_app_r; rewrite length_reverse; [|lia].
    by rewrite Nat.sub_diag.
  - exists m. split; [done|by rewrite Ha].
Qed.

Section adapter.
Context (window : Z) (CountTokens : list message → option Z) (Complete : string → string + list chunk).

Lemma fit_clean msgs k : ∀ split, clean_cut msgs split → clean_cut msgs (fit window CountTokens msgs k split).
Proof.
  induction k as [|k IH]; intros split H; [done|]. cbn [fit]. pose proof (boundary_clean (S k) msgs) as Hb.
  destruct (_ && _); [by apply IH|]. destruct (CountTokens _) as [used|]; [|done]. destruct (used <=? _)%Z; [done|by apply IH].
Qed.
Lemma split_clean keep msgs : clean_cut msgs (split_at window CountTokens keep msgs).
Proof. unfold split_at. destruct (0 <? window)%Z; [apply fit_clean|]; apply boundary_clean. Qed.

(** What a compaction that replaces the history does. *)
Lemma CompactWith_cases trigger msgs before c out info err c' :
  CompactWith window CountTokens Complete trigger msgs before c = (out, info, err, c') →
  out = msgs ∧ info = no_compaction ∨
  ∃ at_ summary, clean_cut msgs at_ ∧ 2 <= at_ ∧ at_ <= length msgs ∧ err = None ∧ cn_Summary info = summary ∧ cn_Trigger info = trigger ∧
    out = summary_message summary (take at_ msgs) :: drop at_ msgs.
Proof.
  unfold CompactWith. destruct (takeFocus trigger c) as [focus c1].
  destruct (match cm_PreCompact c1 with Some f => f trigger msgs | None => None end); [intros [= <- <- <- <-]; by left|].
  set (at_ := split_at _ _ _ _). destruct (Nat.ltb_spec (length (take at_ msgs)) 2) as [Hlt|Hge]; [intros [= <- <- <- <-]; by left|].
  rewrite length_take in Hge. destruct (summary_of _ _ _ _) as [[e|summary]|]; [intros [= <- <- <- <-]; by left| |intros [= <- <- <- <-]; by left].
  intros [= <- <- <- <-]. right. pose proof (split_clean (cm_KeepRecentTurns c1) msgs) as Hc. fold at_ in Hc.
  destruct (decide (at_ <= length msgs)); [exists at_, summary; split_and!; first [done|lia]|].
  destruct Hc as [->|(m & Hm & _)]; [lia|]. apply lookup_lt_Some in Hm. lia.
Qed.

Lemma CompactWith_paired trigger msgs before c out info err c' :
  CompactWith window CountTokens Complete trigger msgs before c = (out, info, err, c') → paired msgs → paired out.
Proof.
  intros E Hp. destruct (CompactWith_cases _ _ _ _ _ _ _ _ E) as [[-> _]|(at_ & summary & Hc & H2 & Hlen & _ & _ & _ & ->)]; [done|].
  constructor; [done|done|]. destruct Hc as [->|(m & Hm & Hr)]; [lia|]. by eapply paired_drop.
Qed.

(** Compaction keeps a conversation one a model can be sent: every call it leaves
    is followed by its answer, and no answer is left without its call. Whatever
    it keeps is the end of the history unchanged, after one message; whenever it
    replaces anything the history is shorter, and otherwise it is untouched. *)
Theorem Compact_paired trigger msgs before c : paired msgs →
  let '(out, info, err, _) := CompactWith window CountTokens Complete trigger msgs before c in
  paired out ∧
  (out = msgs ∨ err = None ∧ length out < length msgs ∧ ∃ m older recent, msgs = older ++ recent ∧ out = m :: recent ∧ m_Role m = RoleUser).
Proof.
  intros Hp. destruct (CompactWith _ _ _ _ _ _ _) as [[[out info] err] c'] eqn:E. split; [by eapply CompactWith_paired|].
  destruct (CompactWith_cases _ _ _ _ _ _ _ _ E) as [[-> _]|(at_ & summary & Hc & H2 & Hlen & -> & _ & _ & ->)]; [by left|].
  right. split_and!; [done|cbn; rewrite length_drop; lia|]. eexists _, (take at_ msgs), (drop at_ msgs). by rewrite take_drop.
Qed.

(** ** The first message *)

Lemma prefix_app_short s t sep : String.length sep <= String.length s → HasPrefix (s ++ t)%string sep = HasPrefix s sep.
Proof.
  unfold HasPrefix. revert s. induction sep as [|c sep IH]; intros s H; [by destruct s, t|]. destruct s as [|d s]; [cbn in H; lia|].
  change (String d s +:+ t) with (String d (s +:+ t)). cbn [String.prefix String.length] in *. destruct (ascii_dec c d); [apply IH; lia|done].
Qed.

Lemma prefix_length s p : HasPrefix s p = true → String.length p <= String.length s.
Proof. unfold HasPrefix. revert s. induction p as [|c p IH]; intros s H; cbn; [lia|]. destruct s as [|d s]; cbn in *; [done|].
  destruct (ascii_dec c d); [|done]. apply IH in H. lia. Qed.

Lemma drop_app_str n s t : n <= String.length s → str_drop n (s ++ t)%string = (str_drop n s ++ t)%string.
Proof. revert s. induction n as [|n IH]; intros [|c s] H; cbn in *; try done; try lia. apply IH. lia. Qed.

Lemma Cut_length s sep a b : Cut s sep = Some (a, b) → String.length sep <= String.length s.
Proof.
  revert a b. induction s as [|c s IH]; intros a b; cbn [Cut].
  - destruct (HasPrefix "" sep) eqn:E; [|done]. intros _. by apply (prefix_length "" sep).
  - destruct (HasPrefix (String c s) sep) eqn:E; [intros _; by apply (prefix_length (String c s) sep)|].
    destruct (Cut s sep) as [[a' b']|] eqn:Ec; [|done]. intros _. specialize (IH _ _ eq_refl). cbn. lia.
Qed.

(** What follows a text does not change where it is cut. *)
Lemma Cut_app s t sep a b : Cut s sep = Some (a, b) → Cut (s ++ t)%string sep = Some (a, (b ++ t)%string).
Proof.
  revert a b. induction s as [|c s IH]; intros a b H.
  - cbn [Cut] in H. destruct (HasPrefix "" sep) eqn:E; [|done]. injection H as <- <-. destruct sep; [|done]. by destruct t.
  - pose proof (Cut_length _ _ _ _ H) as Hl. cbn [Cut] in H. change ((String c s ++ t)%string) with (String c (s ++ t)). cbn [Cut].
    change (String c (s ++ t)) with ((String c s ++ t)%string). rewrite prefix_app_short by done.
    destruct (HasPrefix (String c s) sep) eqn:E; [injection H as <- <-; by rewrite drop_app_str|].
    destruct (Cut s sep) as [[a' b']|] eqn:Ec; [|done]. injection H as <- <-. by rewrite (IH _ _ eq_refl).
Qed.

(** A summary in which the mark of the first message stands nowhere else. *)
Definition marks_once (summary : string) : Prop := Cut (summaryHead ++ summary ++ firstRequestMark) firstRequestMark = Some ((summaryHead ++ summary)%string, "").

(** The person's first message goes with every compaction: what would be kept of
    the history before it is what would be kept of the history after, so however
    many times a session is compacted it is still there word for word. *)
Theorem Compact_keeps_first trigger msgs before c first older out info err c' :
  msgs = first :: older → m_Role first = RoleUser → firstRequest msgs ≠ "" →
  CompactWith window CountTokens Complete trigger msgs before c = (out, info, err, c') → marks_once (cn_Summary info) →
  firstRequest out = firstRequest msgs ∧ ∃ m rest, out = m :: rest ∧ m_Role m = RoleUser.
Proof.
  intros -> Hr Hne H Hm. destruct (CompactWith_cases _ _ _ _ _ _ _ _ H) as [[-> _]|(at_ & summary & Hc & H2 & Hlen & -> & Es & _ & ->)].
  { split; [done|]. by eexists _, _. }
  rewrite Es in Hm. assert (Hold : firstRequest (take at_ (first :: older)) = firstRequest (first :: older)).
  { destruct at_; [lia|]. unfold firstRequest, first_user. cbn. by rewrite bool_decide_eq_true_2. }
  split; [|by eexists _, _]. unfold firstRequest at 1, first_user. cbn [find_first summary_message user_message m_Role]. rewrite bool_decide_eq_true_2 by done.
  unfold summary_message. rewrite Hold. destruct (String.eqb_spec (firstRequest (first :: older)) ""); [done|]. cbn [user_message m_Content].
  assert (Hpre : ∀ s, HasPrefix (summaryHead ++ s) summaryHead = true) by (intros s; rewrite prefix_app_short by done; reflexivity). rewrite Hpre.
  unfold marks_once in Hm. set (f := firstRequest _).
  replace (summaryHead +:+ summary +:+ firstRequestMark +:+ f) with ((summaryHead +:+ summary +:+ firstRequestMark) +:+ f) by (by rewrite !str_app_assoc).
  by rewrite (Cut_app _ _ _ _ _ Hm).
Qed.
End adapter.

(** A history of an instruction and four exchanges, in a window of a hundred with
    ten tokens a message. *)
Definition exchange_of (id : string) : list message := [assistant_message "" [MkCall id "read" "{}"]; tool_message id "text" false].
Definition long_history : list message :=
  user_message "fix the build" :: concat (map exchange_of ["a"; "b"; "c"; "d"]).
Definition ten_each (msgs : list message) : option Z := Some (10 * Z.of_nat (length msgs))%Z.
Definition a_compactor : Compactor := MkCompactor 4 "" None (Some (λ _, ("did things", false))).
Definition compact_once (msgs : list message) : list message * Compaction * option string * Compactor :=
  CompactWith 100 ten_each (λ _, inl "down") "auto" msgs 90 a_compactor.

Lemma long_history_paired : paired long_history.
Proof.
  constructor; [done|done|]. cbn. repeat (apply (paired_turn (assistant_message _ _) [tool_message _ _ _]); [done|done|by constructor|]). constructor.
Qed.

Lemma Compact_paired_witness :
  (let '(out, info, err, _) := compact_once long_history in
   paired out ∧ (out = long_history ∨ err = None ∧ length out < length long_history ∧
     ∃ m older recent, long_history = older ++ recent ∧ out = m :: recent ∧ m_Role m = RoleUser)) ∧
  length (fst (fst (fst (compact_once long_history)))) = 5.
Proof. split; [apply (Compact_paired 100 ten_each (λ _, inl "down") "auto" long_history 90 a_compactor), long_history_paired|reflexivity]. Defined.

Lemma Compact_keeps_first_witness : ∃ out info err c',
  compact_once long_history = (out, info, err, c') ∧ out ≠ long_history ∧
  firstRequest out = "fix the build" ∧ ∃ m rest, out = m :: rest ∧ m_Role m = RoleUser.
Proof.
  eexists _, _, _, _. split; [vm_compute; reflexivity|]. split; [discriminate|].
  refine (Compact_keeps_first 100 ten_each (λ _, inl "down") "auto" long_history 90 a_compactor _ _ _ _ _ _ _ _ _ _ _); [reflexivity|reflexivity|discriminate|vm_compute; reflexivity|vm_compute; reflexivity].
Defined.
