(* ===== verification/AgentRun.v ===== *)
(** A run of the agent (src/internal/agent/loop.go, background.go, offload.go,
    verify.go): prompts and queued messages, the rounds of the loop, what the model
    is asked, its reply as it streams, and how a run ends, around the calls of a
    turn (AgentCalls).

    What other goroutines do while a run goes on, queueing messages, ending
    background children, stopping the run, is a list of batches; the loop looks
    at the next one wherever it reads what they share. A run that returns meets
    finitely many. When the list is at its end nothing more arrives, and joined
    children, whose lifetime is bounded, have ended. *)

From Stdlib Require Import ZArith NArith Ascii String Lia.
From stdpp Require Import base tactics list option gmap strings.
From S2P Require Import Prelude.
From S2P Require Import GoStd.
From S2P Require Import GoPath.
From S2P Require Import ShellSplit.
From S2P Require Import Args.
From S2P Require Import PolicyRule.
From S2P Require Import PolicyEngine.
From S2P Require Import Monitor.
From S2P Require Import AgentTools.
From S2P Require Import Runbook.
From S2P Require Import GoJson.
From S2P Require Import Secrets.
From S2P Require Import Transcript.
From S2P Require Import Compact.
From S2P Require Import AgentLoop.
From S2P Require Import AgentCalls.

#[local] Open Scope string_scope.
#[local] Open Scope Z_scope.

(** ** What others do during a run *)

Record QueuedMessage : Type := MkQueued { qm_ID : string; qm_Text : string; qm_ClientID : string; qm_Steered : bool }.
Record Notice : Type := MkNotice { no_TaskID : string; no_CallID : string; no_Content : string }.

(** Messages queued and taken back, results that arrive, the joined children that
    run after it, all the children that do with a wake being started counted as one
    more, and a stop with the detail an [Interrupt] carries. *)
Record batch : Type := MkBatch {
  bt_queued : list QueuedMessage; bt_unqueued : list string; bt_notices : list Notice;
  bt_joined : nat; bt_live : nat; bt_stop : option (cause * string)
}.

(** What the loop shares with them. *)
Record shared : Type := MkShared {
  steer : list QueuedMessage; notices : list Notice; deferred : list Notice;
  joinedLive : nat; live : nat; stop : option (cause * string); future : list batch
}.

(** ** State *)

(** [Usage], and what was spent of the budget. *)
Record usage : Type := MkUsage {
  InputTokens : Z; OutputTokens : Z; CachedTokens : Z; ColdPrefillTokens : Z; Compactions : Z; spent : Z
}.

(** A run woken for background results: the turn it stops at, and how its first
    delivery is recorded. *)
Record woken : Type := MkWoken { wakeCap : Z; wakeDelivery : string }.

(** What is said of an end: of a call repeated too often, the detail the end is
    recorded with, and that of the last end. *)
Record details : Type := MkDetails { stuckDetail : string; endDetail : string; lastDetail : string }.

Record run_state : Type := MkRunState {
  core : loop_state;
  others : shared;
  messages : list message;
  turns : Z;
  MaxTurns : Z;
  wake : woken;
  prompt : string;
  emptyTurns : Z;
  dropEffort : bool;
  detail : details;
  refused : string;
  revised : bool;
  used : usage;
  compactor : option Compactor;
  justCompacted : bool;
  sent : list (list message)                            (* the requests the model was sent *)
}.

Abbreviation R A := (Prelude.M run_state A).
#[local] Open Scope go_scope.

Definition set_core (x : loop_state) (s : run_state) : run_state :=
  MkRunState x (others s) (messages s) (turns s) (MaxTurns s) (wake s) (prompt s) (emptyTurns s) (dropEffort s) (detail s) (refused s) (revised s) (used s) (compactor s) (justCompacted s) (sent s).
Definition set_others (x : shared) (s : run_state) : run_state :=
  MkRunState (core s) x (messages s) (turns s) (MaxTurns s) (wake s) (prompt s) (emptyTurns s) (dropEffort s) (detail s) (refused s) (revised s) (used s) (compactor s) (justCompacted s) (sent s).
Definition set_messages (x : list message) (s : run_state) : run_state :=
  MkRunState (core s) (others s) x (turns s) (MaxTurns s) (wake s) (prompt s) (emptyTurns s) (dropEffort s) (detail s) (refused s) (revised s) (used s) (compactor s) (justCompacted s) (sent s).
Definition set_turns (t m : Z) (s : run_state) : run_state :=
  MkRunState (core s) (others s) (messages s) t m (wake s) (prompt s) (emptyTurns s) (dropEffort s) (detail s) (refused s) (revised s) (used s) (compactor s) (justCompacted s) (sent s).
Definition set_wake (x : woken) (s : run_state) : run_state :=
  MkRunState (core s) (others s) (messages s) (turns s) (MaxTurns s) x (prompt s) (emptyTurns s) (dropEffort s) (detail s) (refused s) (revised s) (used s) (compactor s) (justCompacted s) (sent s).
Definition setPrompt (x : string) (s : run_state) : run_state :=
  MkRunState (core s) (others s) (messages s) (turns s) (MaxTurns s) (wake s) x (emptyTurns s) (dropEffort s) (detail s) (refused s) (revised s) (used s) (compactor s) (justCompacted s) (sent s).
Definition set_empty (n : Z) (d : bool) (s : run_state) : run_state :=
  MkRunState (core s) (others s) (messages s) (turns s) (MaxTurns s) (wake s) (prompt s) n d (detail s) (refused s) (revised s) (used s) (compactor s) (justCompacted s) (sent s).
Definition set_detail (x : details) (s : run_state) : run_state :=
  MkRunState (core s) (others s) (messages s) (turns s) (MaxTurns s) (wake s) (prompt s) (emptyTurns s) (dropEffort s) x (refused s) (revised s) (used s) (compactor s) (justCompacted s) (sent s).
Definition setRefused (x : string) (s : run_state) : run_state :=
  MkRunState (core s) (others s) (messages s) (turns s) (MaxTurns s) (wake s) (prompt s) (emptyTurns s) (dropEffort s) (detail s) x (revised s) (used s) (compactor s) (justCompacted s) (sent s).
Definition set_revised (x : bool) (s : run_state) : run_state :=
  MkRunState (core s) (others s) (messages s) (turns s) (MaxTurns s) (wake s) (prompt s) (emptyTurns s) (dropEffort s) (detail s) (refused s) x (used s) (compactor s) (justCompacted s) (sent s).
Definition set_used (x : usage) (s : run_state) : run_state :=
  MkRunState (core s) (others s) (messages s) (turns s) (MaxTurns s) (wake s) (prompt s) (emptyTurns s) (dropEffort s) (detail s) (refused s) (revised s) x (compactor s) (justCompacted s) (sent s).
Definition set_compactor (c : option Compactor) (just : bool) (s : run_state) : run_state :=
  MkRunState (core s) (others s) (messages s) (turns s) (MaxTurns s) (wake s) (prompt s) (emptyTurns s) (dropEffort s) (detail s) (refused s) (revised s) (used s) c just (sent s).
Definition add_sent (x : list message) (s : run_state) : run_state :=
  MkRunState (core s) (others s) (messages s) (turns s) (MaxTurns s) (wake s) (prompt s) (emptyTurns s) (dropEffort s) (detail s) (refused s) (revised s) (used s) (compactor s) (justCompacted s) (sent s ++ [x])%list.

Definition say (ms : list message) : R unit := mmodify (λ s, set_messages (messages s ++ ms)%list s).

(** ** What a run works with *)

(** What the model sends, and the usage it reports: tokens in, out and cached. *)
Inductive part : Type :=
  | PartText (text : string) | PartReasoning (text : string) | PartToolCall (c : ToolCall)
  | PartError (err : string) (timedOut : bool) | PartDone (u : option (Z * Z * Z)).
Inductive reply : Type := CallFails (err : string) (timedOut : bool) | Streamed (parts : list part).

(** What the check of an answer finds: whether its claims were verified, or that it is
    worth a revision, asked for in a note, and whether without one it may stand. *)
Inductive checked : Type := AnswerStands (verified : bool) | AnswerRevise (note : string) (gated : bool).

(** Answers with the loop's count of questions, as [Loop]'s fields do. *)
Record Runner : Type := MkRunner {
  rn_loop : Loop;
  rn_reads : nat → list nat → list sched;              (* how a turn's reads interleave *)
  rn_task : nat → string * string;                     (* the task and the plan of a re-plan note *)
  rn_PromptSubmitted : option (nat → string → string); (* the hooks on a person's message *)
  rn_redactor : option Redactor;
  rn_CountTokens : list message → option Z;            (* of a request with its tools *)
  rn_CountMessages : list message → option Z;          (* of messages under the system prompt *)
  rn_Complete : nat → list message → reply;
  rn_MaxTokens : Z;
  rn_late : nat → bool;                                (* the time since the last fragment is up *)
  rn_newID : nat → string;
  rn_should : nat → bool → list message → string + bool * Z;   (* ShouldCompact, ShouldCompactNow *)
  rn_summarize : nat → string → string + list chunk;   (* the model asked for a summary *)
  rn_offload : option (nat → list message → bool);     (* an offloader, its threshold reached *)
  rn_KeepRecent : nat;
  rn_MinChars : nat;
  rn_MaxBudget : Z;
  rn_Verify : option (bool * (nat → option string) * (nat → string → checked));
                                                       (* a contract, an answer given by a tool, the check *)
  rn_suggests : nat → bool;
  rn_TurnsPerMessage : Z
}.

Definition TermMaxTurns : string := "max_turns".
Definition TermMaxBudget : string := "max_budget".
Definition TermWakeLimit : string := "wake_limit".
Definition TermPromptRefused : string := "prompt_refused".
Definition TermRetryExhausted : string := "retry_exhausted".
Definition TermStalled : string := "stalled".
Definition TermShutdown : string := "shutdown".
Definition TermUserInterrupt : string := "user_interrupt".
Definition TermUnverified : string := "unverified".

Section run.
Context (r : Runner).
Abbreviation l := (rn_loop r).

Definition lift {A} (m : AgentLoop.M A) : R A := λ s, let '(a, c) := m (core s) in (a, set_core c s).
Definition ask : R nat := lift ask_tick.
Definition note (e : run_event) : R unit := lift (record l (EvOfRun e)).
Definition try_record (e : run_event) : R bool := lift (Record_event l (EvOfRun e)).

(** ** Looking at what others did *)

Definition apply_batch (b : batch) (rest : list batch) (o : shared) : shared :=
  MkShared (List.filter (λ q, negb (bool_decide (qm_ID q ∈ bt_unqueued b))) (steer o ++ bt_queued b))
    (notices o ++ bt_notices b) (deferred o) (bt_joined b) (bt_live b)
    (match stop o with Some x => Some x | None => bt_stop b end) rest.
Definition look : R unit := mmodify (λ s,
  match future (others s) with
  | [] => s
  | b :: rest => set_others (apply_batch b rest (others s)) s
  end).

Definition with_steer (q : list QueuedMessage) (o : shared) : shared :=
  MkShared q (notices o) (deferred o) (joinedLive o) (live o) (stop o) (future o).
Definition with_notices (n d : list Notice) (o : shared) : shared :=
  MkShared (steer o) n d (joinedLive o) (live o) (stop o) (future o).
Definition no_joined (o : shared) : shared :=
  MkShared (steer o) (notices o) (deferred o) 0 (live o) (stop o) (future o).

(** [ctx.Err]. *)
Definition ctx_stop : R (option (cause * string)) := look ;;; let! s := mget in mreturn (stop (others s)).
(** [takeSteering] and [takeNotices]. *)
Definition takeSteering : R (list QueuedMessage) :=
  look ;;; (λ s, (steer (others s), set_others (with_steer [] (others s)) s)).
Definition takeNotices : R (list Notice) :=
  look ;;; (λ s, (notices (others s), set_others (with_notices [] (deferred (others s)) (others s)) s)).
(** [hasWork]. *)
Definition hasWork : R bool :=
  look ;;; let! s := mget in
  mreturn (match steer (others s), notices (others s) with [], [] => false | _, _ => true end).

(** ** Messages *)

(** The names of the secrets a text shows the placeholders of: [secretLabel]. *)
Definition upper (c : ascii) : bool := in_range "A" "Z" c.
Definition name_char (c : ascii) : bool := upper c || in_range "0" "9" c || (c =c "_").
Fixpoint span_of (p : ascii → bool) (s : string) : string * string :=
  match s with
  | EmptyString => ("", "")
  | String c s' => if p c then let '(a, b) := span_of p s' in (String c a, b) else ("", s)
  end.
Definition label_at (s : string) : option string :=
  if negb (HasPrefix s "[secret:") then None
  else match str_drop 8 s with
       | String c s' =>
           if upper c then
             match span_of name_char s' with
             | (n, String e _) => if e =c "]" then Some (String c n) else None
             | _ => None
             end
           else None
       | EmptyString => None
       end.
Fixpoint labels_in (s : string) : list string :=
  match s with
  | EmptyString => []
  | String _ s' => match label_at s with Some n => n :: labels_in s' | None => labels_in s' end
  end.
(** [strings.Count] of a placeholder, which overlaps no other. *)
Fixpoint count_of (s sub : string) : nat :=
  match s with
  | EmptyString => 0%nat
  | String _ s' => ((if HasPrefix s sub then 1 else 0) + count_of s' sub)%nat
  end.
Definition withheld_names (out text : string) : list string :=
  fold_left (λ names n, if negb (bool_decide (n ∈ names)) && (count_of text (label_of n) <? count_of out (label_of n))%nat then (names ++ [n])%list else names)
    (labels_in out) [].

(** [withholdSecrets]. *)
Definition withholdSecrets (text : string) : string * string :=
  match rn_redactor r with
  | None => (text, "")
  | Some red =>
      let out := redactedText (Redact red) text in
      if String.eqb out text then (text, "") else (out, Join (withheld_names out text) ",")
  end.

(** [promptRefused]: [""] lets a message through. *)
Definition promptRefused (text : string) : R string :=
  match rn_PromptSubmitted r with
  | None => mreturn ""
  | Some f => let! n := ask in mreturn (f n text)
  end.

(** [deliverQueuedCount]: how many were delivered, and whether the record took
    every one it was given. *)
Fixpoint deliver (qs : list QueuedMessage) : R (nat * bool) :=
  match qs with
  | [] => mreturn (0%nat, true)
  | q :: qs =>
      let! why := promptRefused (qm_Text q) in
      if negb (String.eqb why "") then
        note (EvMessageDropped (qm_ID q) (qm_ClientID q) (qm_Text q) why) ;;; deliver qs
      else
        let '(text, withheld) := withholdSecrets (qm_Text q) in
        let! ok := try_record (EvUserMessage text (qm_ID q) (qm_ClientID q) (qm_Steered q) withheld) in
        if negb ok then mreturn (0%nat, false)
        else
          say [user_message text] ;;; mmodify (setPrompt text) ;;;
          mmodify (λ s, set_wake (MkWoken 0 (wakeDelivery (wake s))) s) ;;;
          let! (n, ok) := deliver qs in mreturn (S n, ok)
  end.
Definition deliverQueuedCount : R (nat * bool) := let! qs := takeSteering in deliver qs.

(** [noticeMessages], and [deliverNotices]: a notice the record refused goes back
    with those after it. *)
Definition noticeMessages (n : Notice) : list message :=
  [assistant_message "" [MkCall (no_CallID n) "task_status" (Marshal true (JObj [("task_id", JStr (no_TaskID n))]))];
   Transcript.tool_message (no_CallID n) (no_Content n) false].
Fixpoint deliver_notices (delivery woken : string) (ns : list Notice) : R bool :=
  match ns with
  | [] => mreturn true
  | n :: rest =>
      let! ok := try_record (EvSubagentNotice (no_TaskID n) (no_CallID n) (no_Content n) delivery woken) in
      if ok : bool then say (noticeMessages n) ;;; deliver_notices delivery woken rest
      else mmodify (λ s, set_others (with_notices (ns ++ notices (others s))%list (deferred (others s)) (others s)) s) ;;; mreturn false
  end.
Definition deliverNotices (delivery woken : string) : R bool := let! ns := takeNotices in deliver_notices delivery woken ns.

(** [moreForTheModel]: whether there is something new for the model, and whether
    the record failed. Every round but the last meets a batch. *)
Fixpoint more (fuel : nat) : R (bool * bool) :=
  look ;;; let! s := mget in
  match notices (others s), steer (others s), fuel with
  | _ :: _, _, _ => mreturn (true, true)
  | [], [], _ => mreturn (false, true)
  | [], _, S fuel =>
      let! (n, ok) := deliverQueuedCount in
      if negb ok then mreturn (false, false) else if (0 <? n)%nat then mreturn (true, true) else more fuel
  | [], _, O => mreturn (false, true)
  end.
Definition moreForTheModel : R (bool * bool) := λ s, more (S (length (future (others s)))) s.

(** [waitBackground]: whether there is work for another turn. *)
Fixpoint wait_work (fuel : nat) : R bool :=
  let! work := hasWork in
  let! s := mget in
  if work : bool then mreturn true
  else match joinedLive (others s), stop (others s), fuel with
       | O, _, _ | _, Some _, _ => mreturn false
       | _, _, S fuel => wait_work fuel
       | _, _, O => mmodify (λ s, set_others (no_joined (others s)) s) ;;; mreturn false
       end.
Definition waitBackground : R bool := λ s, wait_work (length (future (others s))) s.

(** ** Ends *)

(** [Budget.Spend] and [Exhausted], and the totals of a session. *)
Definition Spend (n : Z) (u : usage) : usage :=
  MkUsage (InputTokens u) (OutputTokens u) (CachedTokens u) (ColdPrefillTokens u) (Compactions u) (wrap64 (spent u + n)).
Definition Exhausted (u : usage) : bool := (0 <? rn_MaxBudget r) && (rn_MaxBudget r <=? spent u).
Definition used_tokens (inn out cached : Z) (u : usage) : usage :=
  MkUsage (InputTokens u + inn) (OutputTokens u + out) (CachedTokens u + cached) (ColdPrefillTokens u + (inn - cached)) (Compactions u) (spent u).
Definition one_compaction (u : usage) : usage :=
  MkUsage (InputTokens u) (OutputTokens u) (CachedTokens u) (ColdPrefillTokens u) (Compactions u + 1) (spent u).

(** Messages still queued when the loop lets them go. *)
Fixpoint drop_queued (why : string) (qs : list QueuedMessage) : R unit :=
  match qs with
  | [] => mreturn tt
  | q :: qs => note (EvMessageDropped (qm_ID q) (qm_ClientID q) (qm_Text q) why) ;;; drop_queued why qs
  end.

(** [endPayload], of the state at an end. *)
Definition Owed (o : shared) : nat := live o + length (notices o).
Definition endPayload (reason : string) (suggesting : bool) (s : run_state) : run_event :=
  EvSessionEnded reason (turns s) (InputTokens (used s)) (OutputTokens (used s)) (Compactions (used s))
    (default 0 (rn_CountTokens r (messages s))) (Owed (others s)) suggesting (endDetail (detail s)).

(** [finish]; [onRunEnd] stops children, whose ends are others' doing. *)
Definition set_details (stuck end_ last : string) : R unit := mmodify (set_detail (MkDetails stuck end_ last)).
Definition finish_as (suggesting : bool) (reason : string) : R string :=
  (if String.eqb reason TermShutdown then let! qs := takeSteering in drop_queued "server shut down before it was delivered" qs else mreturn tt) ;;;
  look ;;;
  let! s := mget in
  let d := detail s in
  let stuck := String.eqb reason TermRetryExhausted && negb (String.eqb (stuckDetail d) "") && String.eqb (endDetail d) "" in
  let said := if stuck then stuckDetail d else endDetail d in
  set_details "" said (lastDetail d) ;;;
  let! s := mget in
  set_details "" said said ;;;
  note (endPayload reason suggesting s) ;;;
  set_details "" (if stuck then "" else said) said ;;;
  mreturn reason.
Definition finish : string → R string := finish_as false.

(** [handedOver] and [finishStopped]. *)
Definition handedOver : R string :=
  let! qs := takeSteering in
  drop_queued "the session moved to another process before it was delivered; send it again" qs ;;; mreturn TermHandedOver.
Definition with_end (end_ : string) : R unit := mmodify (λ s, set_detail (MkDetails (stuckDetail (detail s)) end_ (lastDetail (detail s))) s).
Definition finishStopped (reason : string) : R string :=
  let! s := mget in
  let handing := match stop (others s) with Some (HandOver, _) => negb (is_subagent l) | _ => false end in
  if String.eqb reason TermHandedOver && handing then handedOver
  else
    let reason := if String.eqb reason TermHandedOver then TermShutdown else reason in
    match stop (others s) with
    | Some (OtherCause, d) =>
        if String.eqb reason TermUserInterrupt && negb (String.eqb d "")
        then with_end d ;;; let! x := finish reason in with_end "" ;;; mreturn x
        else finish reason
    | _ => finish reason
    end.

(** [finishSuggesting]; the suggestion is made off the run. *)
Definition finishSuggesting : R string := let! n := ask in finish_as (rn_suggests r n) TermCompleted.

(** ** Making room *)

(** [clipRunes] and [oneLine]. *)
Fixpoint rune_cut (s : string) (n : nat) : nat :=
  match n with O => O | S k => if rune_start s n then n else rune_cut s k end.
Definition clipRunes (s : string) (n : nat) : string :=
  if (String.length s <=? n)%nat then s else str_take (rune_cut s n) s ++ "…".
Definition oneLine (s : string) : string := Join (Fields s) " ".

(** [toolFor] and [offloadStub]. *)
Definition offloadMark : string := "[offloaded to the session record".
Definition stubHead : nat := 240.
Definition toolFor (ms : list message) (callID : string) : string :=
  match find_first (λ c, String.eqb (tc_ID c) callID) (concat (map m_ToolCalls ms)) with
  | Some c => tc_Name c ++ " " ++ clipRunes (oneLine (tc_Args c)) 120
  | None => "a tool call"
  end.
Definition offloadStub (callID content what : string) : string :=
  offloadMark ++ ": the result of " ++ what ++ " — " ++ Itoa (Z.of_nat (String.length content)) ++ " characters. It began:" ++ nl ++
  clipRunes content stubHead ++ nl ++ "Nothing was lost. If you need it again, call recall with call_id " ++ Quote callID ++
  ", or recall with a query to search this session.]".

(** One pass of [offloadIfNeeded], of the messages from the last one back;
    [recent] results were left as they are. What is replaced, newest first. *)
Fixpoint offload_pass (all : list message) (recent : nat) (newest_first : list message) : list message * list (message * string) :=
  match newest_first with
  | [] => ([], [])
  | m :: older =>
      if negb (is_tool m) then let '(o, i) := offload_pass all recent older in (m :: o, i)
      else if (recent <? rn_KeepRecent r)%nat then let '(o, i) := offload_pass all (S recent) older in (m :: o, i)
      else if (String.length (m_Content m) <? rn_MinChars r)%nat || HasPrefix (m_Content m) offloadMark
      then let '(o, i) := offload_pass all recent older in (m :: o, i)
      else
        let stub := offloadStub (m_ToolCallID m) (m_Content m) (toolFor all (m_ToolCallID m)) in
        let '(o, i) := offload_pass all recent older in
        (MkMsg (m_Role m) stub (m_ToolCalls m) (m_ToolCallID m) (m_IsError m) :: o, (m, stub) :: i)
  end.
(** [forgetAnswers]. *)
Definition forgetAnswers : R unit := lift (mmodify (λ c, set_counts (streak c) (failures c) ∅ c)).
Definition lengths (l : list string) : Z := foldr (λ s n, Z.of_nat (String.length s) + n) 0 l.
Definition offloadIfNeeded : R unit :=
  match rn_offload r with
  | None => mreturn tt
  | Some reached =>
      let! n := ask in
      let! s := mget in
      if negb (reached n (messages s)) then mreturn tt
      else
        let '(ms, info) := offload_pass (messages s) 0 (reverse (messages s)) in
        match info with
        | [] => mreturn tt
        | _ =>
            mmodify (set_messages (reverse ms)) ;;;
            forgetAnswers ;;;
            note (EvContextOffloaded (map (λ x, m_ToolCallID (fst x)) info) (lengths (map (λ x, m_Content (fst x)) info)) (lengths (map snd info))
                    (default 0 (rn_CountTokens r (messages s))) (default 0 (rn_CountTokens r (reverse ms))))
        end
  end.

(** [compactIfNeeded], with [maybeCompact] and [compactNow]; a failure is recorded
    by the caller. *)
Definition failed_compaction (e : string) : run_event := EvCompactDone e "" "" "" 0 0.
Definition compact_done (i : Compaction) : run_event := EvCompactDone "" "" (cn_Summary i) (cn_Trigger i) (cn_BeforeTokens i) (cn_AfterTokens i).
Definition compactIfNeeded (reserve : bool) : R unit :=
  let! s := mget in
  match compactor s with
  | None => mreturn tt
  | Some c =>
      let! n := ask in
      mmodify (set_compactor (Some c) false) ;;;
      match rn_should r n (reserve && negb (justCompacted s)) (messages s) with
      | inl e => note (failed_compaction e)
      | inr (false, _) => mreturn tt
      | inr (true, tokens) =>
          let '(out, info, err, c) := CompactWith (ContextWindow l) (rn_CountMessages r) (rn_summarize r n) "auto" (messages s) tokens c in
          let begun := begins (ContextWindow l) (rn_CountMessages r) "auto" (messages s) c in
          (if begun then note (EvCompactStarted tokens "auto") else mreturn tt) ;;;
          match err with
          | Some e => note (failed_compaction e)
          | None =>
              if (length out =? length (messages s))%nat then
                (if begun then note (EvCompactDone "" "no change" "" "auto" 0 0) else mreturn tt)
              else
                mmodify (set_messages out) ;;;
                mmodify (λ s, set_used (one_compaction (used s)) s) ;;;
                mmodify (set_compactor (Some c) true) ;;;
                forgetAnswers ;;;
                note (compact_done info)
          end
      end
  end.

(** ** One turn *)

(** [withCallID]. *)
Definition withCallID (c : ToolCall) (prior : list ToolCall) : R ToolCall :=
  if String.eqb (tc_ID c) "" || existsb (λ p, String.eqb (tc_ID p) (tc_ID c)) prior
  then let! n := ask in mreturn (MkCall ("call_" ++ rn_newID r n) (tc_Name c) (tc_Args c))
  else mreturn c.

(** [flushable]. *)
Fixpoint last_char (s : string) : option ascii :=
  match s with EmptyString => None | String c "" => Some c | String _ s => last_char s end.
Definition space_char (c : ascii) : bool := (c =c " ") || (c =c "010") || (c =c "009").
Definition flushable (s : string) : bool :=
  match s, last_char s with
  | String c _, Some d =>
      (12 <=? String.length s)%nat || space_char c || space_char d ||
      existsb (λ x, d =c x) ["."%char; ","%char; ":"%char; ";"%char; "!"%char; "?"%char; ")"%char; "]"%char; "}"%char]
  | _, _ => false
  end.

(** What a turn has heard of the reply. *)
Record heard : Type := MkHeard {
  h_text : string; h_reasoning : string;
  h_pending : string; h_deltas : fragmentBuffer; h_deltaN : nat;
  h_thinking : string; h_thoughts : fragmentBuffer; h_thinkN : nat;
  h_calls : list ToolCall; h_err : option (string * bool); h_usage : Z * Z * Z
}.
Definition nothing_heard : heard :=
  let b := fragments (rn_redactor r) in MkHeard "" "" "" b 0 "" b 0 [] None (0, 0, 0).

(** A fragment of the reply is let out; of the reasoning: [flushThinking]. *)
Definition emit_delta (out : string) (h : heard) : R heard :=
  if String.eqb out "" then mreturn h
  else note (EvAgentDelta out (S (h_deltaN h))) ;;;
    mreturn (MkHeard (h_text h) (h_reasoning h) (h_pending h) (h_deltas h) (S (h_deltaN h)) (h_thinking h) (h_thoughts h) (h_thinkN h) (h_calls h) (h_err h) (h_usage h)).
Definition push_pending (final : bool) (h : heard) : R heard :=
  let '(out, b) := Secrets.push (h_pending h) (h_deltas h) in
  let out := if final then out ++ Secrets.flush b else out in
  emit_delta out (MkHeard (h_text h) (h_reasoning h) "" b (h_deltaN h) (h_thinking h) (h_thoughts h) (h_thinkN h) (h_calls h) (h_err h) (h_usage h)).
Definition flushThinking (final : bool) (h : heard) : R heard :=
  let '(out, b) := Secrets.push (h_thinking h) (h_thoughts h) in
  let out := if final then out ++ Secrets.flush b else out in
  let k := if String.eqb out "" then h_thinkN h else S (h_thinkN h) in
  (if String.eqb out "" then mreturn tt else note (EvAgentReasoningDelta out k)) ;;;
  mreturn (MkHeard (h_text h) (h_reasoning h) (h_pending h) (h_deltas h) (h_deltaN h) "" b k (h_calls h) (h_err h) (h_usage h)).

(** A chunk of the stream. *)
Definition hear (p : part) (h : heard) : R heard :=
  match p with
  | PartText t =>
      let! h := if String.eqb (h_thinking h) "" then mreturn h else flushThinking false h in
      let h := MkHeard (h_text h ++ t) (h_reasoning h) (h_pending h ++ t) (h_deltas h) (h_deltaN h) (h_thinking h) (h_thoughts h) (h_thinkN h) (h_calls h) (h_err h) (h_usage h) in
      let! n := ask in
      if flushable (h_pending h) || rn_late r n then push_pending false h else mreturn h
  | PartReasoning t =>
      let h := MkHeard (h_text h) (h_reasoning h ++ t) (h_pending h) (h_deltas h) (h_deltaN h) (h_thinking h ++ t) (h_thoughts h) (h_thinkN h) (h_calls h) (h_err h) (h_usage h) in
      let! n := ask in
      if (160 <=? String.length (h_thinking h))%nat || rn_late r n then flushThinking false h else mreturn h
  | PartToolCall c =>
      let! c := withCallID c (h_calls h) in
      mreturn (MkHeard (h_text h) (h_reasoning h) (h_pending h) (h_deltas h) (h_deltaN h) (h_thinking h) (h_thoughts h) (h_thinkN h) (h_calls h ++ [c])%list (h_err h) (h_usage h))
  | PartError e timed =>
      mreturn (MkHeard (h_text h) (h_reasoning h) (h_pending h) (h_deltas h) (h_deltaN h) (h_thinking h) (h_thoughts h) (h_thinkN h) (h_calls h) (Some (e, timed)) (h_usage h))
  | PartDone None => mreturn h
  | PartDone (Some (inn, out, cached)) =>
      mmodify (λ s, set_used (Spend (inn + out) (used_tokens inn out cached (used s))) s) ;;;
      mreturn (MkHeard (h_text h) (h_reasoning h) (h_pending h) (h_deltas h) (h_deltaN h) (h_thinking h) (h_thoughts h) (h_thinkN h) (h_calls h) (h_err h) (inn, out, cached))
  end.
Fixpoint hear_all (ps : list part) (h : heard) : R heard :=
  match ps with [] => mreturn h | p :: ps => let! h := hear p h in hear_all ps h end.

(** The stream from its start to what is let out when it has ended. The redactor is
    one reading of the store: what a [Fresh] one reads again meanwhile, and the
    redaction [Record] does of each payload once more, are not part of it. *)
Definition listen (ps : list part) : R heard :=
  let! h := hear_all ps nothing_heard in
  let! h := flushThinking true h in
  push_pending true h.

(** What a turn comes to: another, an end, or a failure. *)
Inductive turned : Type := Again | Done (reason : string) | Failed (err : string).

Definition emptyTurnRetries : Z := 2.
Definition nudge_of (cutOff : bool) : string :=
  if cutOff then "Your reply was cut off at the output limit before you acted. Keep the thinking short and reply with the tool call you intended, or with the answer itself in a few sentences."
  else "You produced no answer and called no tool. Continue: either call the tool you intended, or write the answer itself.".
Definition retry_note (err : string) : string :=
  "Your previous response could not be parsed: " ++ err ++ nl ++ "Please retry with valid tool arguments.".

(** [truncateKey]; a call that failed, or gave its answer, too often. *)
Definition repeatedFailureAbort : Z := 6.
Definition repeatedSuccessAbort : Z := 6.
Definition truncateKey (k : string) : string := if (80 <? String.length k)%nat then str_take 80 k ++ "…" else k.
Definition worstRepeatedFailure (c : loop_state) : option (string * Z) :=
  find_first (λ x, repeatedFailureAbort <=? snd x) (map_to_list (failures c)).
Definition worstRepeatedSuccess (c : loop_state) : option (string * Z) :=
  find_first (λ x, repeatedSuccessAbort <=? snd x) (map (λ x, (fst x, fst (snd x))) (map_to_list (successes c))).
Definition repeated_failing (n : Z) : string :=
  "the same call failed " ++ Itoa n ++ " times without adaptation".
Definition repeated_same (n : Z) : string :=
  "the same call gave the same answer " ++ Itoa n ++ " times with nothing changed in between".
Definition stuck_on (what key : string) : R turned :=
  say [user_message ("Stopping: " ++ what ++ " (" ++ truncateKey key ++ ").")] ;;;
  mmodify (λ s, set_detail (MkDetails (what ++ ": " ++ truncateKey key) (endDetail (detail s)) (lastDetail (detail s))) s) ;;;
  mreturn (Done TermRetryExhausted).

(** The messages a turn's results are: [appendResults]. *)
Definition result_message (m : AgentCalls.tool_message) : message := Transcript.tool_message (tm_CallID m) (tm_Content m) (tm_IsError m).

(** The calls of a reply, answered. The reply is in the history from before they
    run, in the form they were judged in; no one reads it meanwhile. *)
Definition answer_calls (text : string) (calls : list ToolCall) : R string :=
  let! n := ask in
  let '(remit, plan) := rn_task r n in
  let! ((calls, results), terminal) := lift (runCalls l (rn_reads r n) remit plan calls) in
  say (assistant_message text calls :: map result_message results) ;;; mreturn terminal.

(** A reply with calls, to the end of the turn. *)
Definition run_turn_calls (text : string) (calls : list ToolCall) : R turned :=
  mmodify (λ s, set_empty 0 (dropEffort s) s) ;;;
  let! terminal := answer_calls text calls in
  if negb (String.eqb terminal "") then mreturn (Done terminal)
  else
    compactIfNeeded false ;;;
    let! s := mget in
    match worstRepeatedFailure (core s), worstRepeatedSuccess (core s) with
    | Some (k, n), _ => stuck_on (repeated_failing n) k
    | None, Some (k, n) => stuck_on (repeated_same n) k
    | None, None => mreturn Again
    end.

(** The reply without calls. *)
Definition answer_turn (text : string) (cutOff : bool) : R turned :=
  if String.eqb (TrimSpace text) "" || cutOff then
    mmodify (λ s, set_empty (emptyTurns s + 1) (dropEffort s || cutOff) s) ;;;
    let! s := mget in
    if emptyTurns s <=? emptyTurnRetries then say [user_message (nudge_of cutOff)] ;;; mreturn Again
    else mreturn (Done TermStalled)
  else
    mmodify (λ s, set_empty 0 (dropEffort s) s) ;;;
    say [assistant_message text []] ;;;
    mreturn (Done TermCompleted).

(** What a stopped reply is taken to have cost. *)
Definition produced (h : heard) : Z :=
  Z.of_nat (String.length (h_text h) + String.length (h_reasoning h)) + lengths (map (λ c, tc_Name c ++ tc_Args c) (h_calls h)).
Definition estimate (req : list message) (h : heard) : Z * Z := (default 0 (rn_CountTokens r req), (produced h + 3) / 4).
Definition is_stopped (st : option (cause * string)) : bool := match st with Some _ => true | None => false end.

(** The model.call of a reply that has ended; whether it was cut off, and whether it
    timed out. *)
Definition record_call (req : list message) (h : heard) : R (bool * bool) :=
  let '(inn, out, cached) := h_usage h in
  let cutOff := (0 <? rn_MaxTokens r) && (rn_MaxTokens r <=? out) in
  let! s := mget in
  let! st := ctx_stop in
  let '(ein, eout) := estimate req h in
  let estimated := is_stopped st && (inn =? 0) && (out =? 0) && ((0 <? ein) || (0 <? eout)) in
  (if estimated then mmodify (λ s, set_used (Spend (ein + eout) (used_tokens ein eout 0 (used s))) s) else mreturn tt) ;;;
  let! st := ctx_stop in
  let '(err, timed) := match h_err h with Some x => if is_stopped st then ("", false) else x | None => ("", false) end in
  note (EvModelCall (turns s) (if estimated then ein else inn) (if estimated then eout else out) (length (h_calls h)) cutOff estimated err timed) ;;;
  mreturn (cutOff, timed).

(** The request, and the turn it is of. *)
Definition send : R (nat * list message * Z) :=
  let! n := ask in
  mmodify (λ s, add_sent (messages s) s) ;;;
  let! s := mget in mreturn (n, messages s, turns s).

(** [turn], from the request on. *)
Definition heed (n : nat) (req : list message) (now : Z) : R turned :=
  match rn_Complete r n req with
  | CallFails e timed =>
      let! st := ctx_stop in
      match st with
      | Some (why, _) =>
          note (EvModelCall now 0 0 0 false false "" false) ;;; mreturn (Done (terminalForCancel why))
      | None =>
          note (EvModelCall now 0 0 0 false false e timed) ;;; mreturn (Failed ("model call failed: " ++ e))
      end
  | Streamed ps =>
      let! h := listen ps in
      let! (cutOff, timed) := record_call req h in
      (let think := TrimSpace (h_reasoning h) in
       if String.eqb think "" then mreturn tt else note (EvAgentReasoning think now)) ;;;
      let! st := ctx_stop in
      match st with
      | Some (why, _) => mreturn (Done (terminalForCancel why))
      | None =>
          if timed then mreturn (Failed ("model call failed: " ++ match h_err h with Some (e, _) => e | None => "" end))
          else
            match h_err h, h_calls h, h_text h with
            | Some (e, _), [], EmptyString => say [user_message (retry_note e)] ;;; mreturn Again
            | _, calls, text =>
                let! ok := if String.eqb text "" then mreturn true else try_record (EvAgentMessage text) in
                if negb ok then mreturn (Failed (append_error l))
                else match calls with [] => answer_turn text cutOff | _ => run_turn_calls text calls end
            end
      end
  end.

Definition turn : R turned := let! (n, req, now) := send in heed n req now.

(** ** Answers that are checked *)

(** [checkAnswer]: whether a turn is left to revise the answer, or how the run
    ends. What the check finds of the answer is the argument's. *)
Definition given_answer (text : string) : R unit :=
  note (EvAgentDelta text 1) ;;; note (EvAgentMessage text) ;;; say [assistant_message text []].
Definition replied (ms : list message) : option string :=
  match reverse ms with
  | m :: _ => if bool_decide (m_Role m = RoleAssistant) && match m_ToolCalls m with [] => true | _ => false end then Some (m_Content m) else None
  | [] => None
  end.
Definition checkAnswer : R (bool * string) :=
  match rn_Verify r with
  | None => mreturn (false, TermCompleted)
  | Some (contract, given, check) =>
      if (0 <? depth l)%nat then mreturn (false, TermCompleted)
      else
        let! n := ask in
        let! source := match given n with
                       | Some text => given_answer text ;;; mreturn (Some text)
                       | None => let! s := mget in mreturn (replied (messages s))
                       end in
        let! st := ctx_stop in
        match source with
        | None => mreturn (false, TermCompleted)
        | Some text =>
            if (match given n with None => String.eqb (TrimSpace text) "" && negb contract | Some _ => false end) || is_stopped st
            then mreturn (false, TermCompleted)
            else
              let! s := mget in
              let verdict := check n text in
              let left := negb (revised s) && (turns s <? MaxTurns s) && negb (Exhausted (used s)) in
              match verdict with
              | AnswerStands verified => note (EvAnswerVerdict verified "") ;;; mreturn (false, TermCompleted)
              | AnswerRevise how gated =>
                  if left && negb (String.eqb how "") then
                    mmodify (set_revised true) ;;; note (EvAnswerVerdict false how) ;;; say [user_message how] ;;; mreturn (true, "")
                  else note (EvAnswerVerdict false "") ;;; mreturn (false, if gated : bool then TermUnverified else TermCompleted)
              end
        end
  end.

(** ** The rounds of a run *)

(** Why a run ended, and whether with an error. *)
Abbreviation ending := (string * bool)%type.
Definition ended (m : R string) : R (option ending + unit) := let! x := m in mreturn (inl (Some (x, false))).
Definition failed : R (option ending + unit) := mreturn (inl (Some (TermError, true))).
Definition fails_after_finish : R (option ending + unit) := finish TermError ;;; failed.
Definition again : R (option ending + unit) := mreturn (inr tt).

(** A joined child is waited for: [None] when there is nothing more for the model. *)
Fixpoint wait_rounds (fuel : nat) : R (option (option ending + unit)) :=
  match fuel with
  | O => mreturn None
  | S fuel =>
      let! work := waitBackground in
      if negb work then mreturn None
      else
        let! (got, ok) := moreForTheModel in
        if negb ok then let! x := fails_after_finish in mreturn (Some x)
        else if got : bool then let! x := again in mreturn (Some x)
        else wait_rounds fuel
  end.
Definition wait_joined : R (option (option ending + unit)) := λ s, wait_rounds (S (S (length (future (others s))))) s.

(** A turn that was done. *)
Definition settle_answer (reason : string) : R (option ending + unit) :=
  if String.eqb reason TermCompleted then
    let! (revise, end_) := checkAnswer in
    if revise : bool then again
    else if String.eqb end_ TermCompleted then ended finishSuggesting else ended (finishStopped end_)
  else ended (finishStopped reason).
Definition wait_then_settle (reason : string) : R (option ending + unit) :=
  let! s := mget in
  if String.eqb reason TermCompleted && (0 <? joinedLive (others s))%nat then
    let! x := wait_joined in
    match x with
    | Some x => mreturn x
    | None =>
        let! st := ctx_stop in
        if is_stopped st then again else settle_answer reason
    end
  else settle_answer reason.
Definition turn_done (reason : string) : R (option ending + unit) :=
  let! work := if String.eqb reason TermCompleted then hasWork else mreturn false in
  if work : bool then
    let! (got, ok) := moreForTheModel in
    if negb ok then fails_after_finish else if got : bool then again else wait_then_settle reason
  else wait_then_settle reason.

(** One round of the loop. *)
Definition take_delivery : R (string * string) :=
  let! s := mget in
  let w := wake s in
  if String.eqb (wakeDelivery w) "" then mreturn ("boundary", "")
  else mmodify (set_wake (MkWoken (wakeCap w) "")) ;;; mreturn ("wake", wakeDelivery w).
Definition begin_turn : R (option ending + unit) :=
  mmodify (λ s, set_turns (turns s + 1) (MaxTurns s) s) ;;;
  offloadIfNeeded ;;;
  compactIfNeeded true ;;;
  let! t := turn in
  match t with
  | Failed _ => fails_after_finish
  | Again => again
  | Done reason => turn_done reason
  end.
Definition round : R (option ending + unit) :=
  let! st := ctx_stop in
  match st with
  | Some (why, _) => ended (finishStopped (terminalForCancel why))
  | None =>
      let! s := mget in
      if broken (core s) then failed
      else if MaxTurns s <=? turns s then ended (finish TermMaxTurns)
      else
        look ;;; let! s := mget in
        if (0 <? wakeCap (wake s)) && (wakeCap (wake s) <=? turns s) && match steer (others s) with [] => true | _ => false end
        then ended (finish TermWakeLimit)
        else if Exhausted (used s) then ended (finish TermMaxBudget)
        else
          let! (delivery, woken) := take_delivery in
          let! ok := deliverNotices delivery woken in
          if negb ok then failed
          else
            let! (_, ok) := deliverQueuedCount in
            if negb ok then failed
            else
              let! gone := lift (ownerGone l) in
              if gone : bool then ended (finish TermOwnerInactive) else begin_turn
  end.

(** [run]: rounds until one ends it; [None] is a bound that was short. *)
Fixpoint rounds (fuel : nat) : R (option ending) :=
  match fuel with
  | O => mreturn None
  | S fuel => let! x := round in match x with inl e => mreturn e | inr _ => rounds fuel end
  end.
(** Each round but the last takes a turn, and a stop met while children are waited
    for is met again by one more. *)
Definition round_bound (s : run_state) : nat := S (S (Z.to_nat (MaxTurns s - turns s))).
Definition run : R (option ending) :=
  mmodify (λ s, set_others (with_notices (deferred (others s) ++ notices (others s))%list [] (others s)) s) ;;;
  mmodify (set_revised false) ;;;
  (λ s, rounds (round_bound s) s).

(** [startMessage]. *)
Definition startMessage : R unit :=
  mmodify (λ s, if 0 <? rn_TurnsPerMessage r then set_turns (turns s) (turns s + rn_TurnsPerMessage r) s else s) ;;;
  lift (mmodify (λ c, set_counts (streak c) ∅ ∅ (set_carry ∅ ∅ c))).

(** [RunMessage]; a message's images, held in memory only, are not modelled. *)
Definition RunMessage (text clientID : string) : R (option ending) :=
  let! (delivered, ok) := deliverQueuedCount in
  if negb ok then mreturn (Some (TermError, true))
  else
    mmodify (setRefused "") ;;;
    let! why := promptRefused text in
    let! st := ctx_stop in
    match String.eqb why "", rn_PromptSubmitted r, st with
    | true, Some _, Some (c, _) =>
        note (EvMessageDropped "" clientID text "stopped before it was screened") ;;;
        let! x := finishStopped (terminalForCancel c) in mreturn (Some (x, false))
    | false, _, _ =>
        note (EvMessageDropped "" clientID text why) ;;;
        mmodify (setRefused why) ;;;
        if (delivered =? 0)%nat then mreturn (Some (TermPromptRefused, false)) else startMessage ;;; run
    | true, _, _ =>
        let! ok := lift (noteTrustedStartup l) in
        if negb ok then mreturn (Some (TermError, true))
        else
          let '(text, withheld) := withholdSecrets text in
          let! ok := try_record (EvUserMessage text "" clientID false withheld) in
          if negb ok then mreturn (Some (TermError, true))
          else say [user_message text] ;;; mmodify (setPrompt text) ;;; startMessage ;;; run
    end.

(** [RunQueued], and [EndRefused]. *)
Definition RunQueued : R (option ending) :=
  let! work := hasWork in
  if negb work then mreturn (Some (TermCompleted, false))
  else
    let! (got, ok) := moreForTheModel in
    if negb ok then mreturn (Some (TermError, true))
    else if negb got then mreturn (Some (TermPromptRefused, false)) else startMessage ;;; run.
Definition EndRefused : R unit := let! s := mget in note (endPayload TermPromptRefused false s).

(** [RunWoken], once there is something to wake for and the session's record says
    so: at most [most] turns, its first results delivered as a wake's. *)
Definition RunWoken (by_ : string) (taskIDs : list string) (most : Z) : R (option ending) :=
  let! ok := try_record (EvSessionWoken by_ taskIDs) in
  if negb ok then mreturn (Some (TermError, true))
  else
    mmodify (λ s, set_wake (MkWoken (Z.min (MaxTurns s) (turns s + (if most <=? 0 then 8 else most))) (if String.eqb by_ "policy" then "auto" else "caller")) s) ;;;
    let! x := run in
    mmodify (set_wake (MkWoken 0 "")) ;;; mreturn x.
End run.
