(* ===== verification/AgentRunSpec.v ===== *)
(** What a run of the agent promises (AgentRun): every request the model is sent is
    a conversation whose calls are answered, every run ends, within its turns and
    with its end recorded last and once, every queued message is settled once and
    in order, and a reply that streams shows what the whole of it, redacted, shows. *)

From Stdlib Require Import ZArith NArith Ascii String Lia.
From stdpp Require Import base tactics list option gmap strings.
From S2P Require Import Prelude.
From S2P Require Import GoStd.
From S2P Require Import Args.
From S2P Require Import PolicyRule.
From S2P Require Import PolicyEngine.
From S2P Require Import Monitor.
From S2P Require Import AgentTools.
From S2P Require Import Runbook.
From S2P Require Import GoJson.
From S2P Require Import Secrets.
From S2P Require Import Transcript.
From S2P Require Import Compact.
From S2P Require Import AgentLoop.
From S2P Require Import AgentCalls.
From S2P Require Import AgentCallsSpec.
From S2P Require Import AgentRun.

#[local] Open Scope string_scope.
#[local] Open Scope list_scope.

(** ** Walking a computation

    A property that each step of a computation keeps, the whole keeps: [walk] takes
    the computation apart down to the steps the database knows. *)

Lemma walk_bind {W A B} (Q : W → W → Prop) `{HQ : !PreOrder Q} (m : Prelude.M W A) (k : A → Prelude.M W B) :
  preserves Q m → (∀ a, preserves Q (k a)) → preserves Q (mthen m k).
Proof. intros. apply preserves_bind; [apply _|done|done]. Qed.

Create HintDb walks.
Create HintDb steady.
Create HintDb how.
Create HintDb closing.
Ltac walk :=
  cbn beta zeta;
  lazymatch goal with
  | |- ∀ _, _ => intros ?; walk
  | |- preserves _ (mthen _ _) => refine (walk_bind _ _ _ _ _); [walk|intros ?; walk]
  | |- preserves _ (match ?x with _ => _ end) => destruct x; walk
  | |- _ => auto with walks
  end.

(** ** What a turn's calls record

    The loop's own account of a run is not theirs to write. *)

Definition of_calls (x : entry) : Prop := ∀ e, x ≠ Recorded (EvOfRun e).
Definition adds (P : entry → Prop) (c c' : loop_state) : Prop := ∃ es, trace c' = trace c ++ es ∧ Forall P es.
#[export] Instance adds_pre P : PreOrder (adds P).
Proof.
  split; [intros c; exists []; by rewrite app_nil_r|]. intros a b c (e1 & H1 & F1) (e2 & H2 & F2). exists (e1 ++ e2).
  rewrite H2, H1, app_assoc. split; [done|by apply Forall_app].
Qed.

Section calls.
Context (l : Loop).
Abbreviation quietly := (preserves (adds of_calls)).

Lemma same_trace {A} (m : M A) : (∀ s, trace (snd (m s)) = trace s) → quietly m.
Proof. intros H s. exists []. by rewrite H, app_nil_r. Qed.
Lemma one_entry x (f : loop_state → loop_state) : of_calls x → (∀ s, trace (f s) = trace s ++ [x]) → quietly (mmodify f).
Proof. intros Hx H s. exists [x]. rewrite <- H. by split; [|constructor]. Qed.

Lemma inert_Record e : (∀ x, e ≠ EvOfRun x) → quietly (Record_event l e).
Proof.
  intros He. unfold Record_event. refine (walk_bind _ _ _ _ _); [by apply same_trace|]. intros n. destruct (Append l n e); [|by apply same_trace].
  refine (walk_bind _ _ _ _ _); [|intros; by apply same_trace]. apply (one_entry (Recorded e)); [intros x [= ->]; by apply (He x)|done].
Qed.
Lemma inert_record e : (∀ x, e ≠ EvOfRun x) → quietly (record l e).
Proof. intros He. unfold record. refine (walk_bind _ _ _ _ _); [by apply inert_Record|]. intros []; by apply same_trace. Qed.
Lemma inert_tools (es : list string) : quietly (foldr (λ e m, record l (EvOfTool e) ;;; m)%go (mreturn tt : M unit) es).
Proof. induction es as [|e es IH]; cbn; [by apply same_trace|]. refine (walk_bind _ _ _ _ _); [by apply inert_record|done]. Qed.

#[local] Hint Resolve inert_tools : walks.
#[local] Hint Extern 1 (preserves (adds of_calls) (Record_event _ _)) => apply inert_Record; discriminate : walks.
#[local] Hint Extern 1 (preserves (adds of_calls) (record _ _)) => apply inert_record; discriminate : walks.
#[local] Hint Extern 2 (preserves (adds of_calls) _) => apply same_trace; intros ?; reflexivity : walks.
Lemma inert_add x : of_calls x → quietly (mmodify (λ s, set_trace (trace s ++ [x]) s)).
Proof. intros Hx. by apply (one_entry x). Qed.
#[local] Hint Extern 3 (preserves (adds of_calls) (mmodify _)) => apply inert_add; intros ? ?; discriminate : walks.

Lemma inert_startup : quietly (noteTrustedStartup l).
Proof. unfold noteTrustedStartup. walk. Qed.
Lemma inert_carried c : quietly (takeCarried l c).
Proof. unfold takeCarried. walk. Qed.
Lemma inert_outcome c failed : quietly (noteOutcome l c failed).
Proof. unfold noteOutcome. apply same_trace. intros s. cbn. repeat case_match; done. Qed.
Lemma inert_correction id d : quietly (correction l id d).
Proof. unfold correction. walk. Qed.
Lemma inert_reviewed g c m d : quietly (reviewed l g c m d).
Proof. unfold reviewed, noteVerdict. walk. Qed.
#[local] Hint Resolve inert_startup inert_carried inert_outcome inert_correction inert_reviewed : walks.

Lemma inert_unread c args raw reason step content : quietly (refuse_unread l c args raw reason step content).
Proof. unfold refuse_unread. walk. Qed.
#[local] Hint Resolve inert_unread : walks.
Lemma inert_unknown c : quietly (refuse_unknown l c).
Proof. unfold refuse_unknown. walk. Qed.
Lemma inert_decision t c doomed d : quietly (final_decision l t c doomed d).
Proof. unfold final_decision. walk. Qed.
Lemma inert_gone id : quietly (deniedOwnerGone l id).
Proof. unfold deniedOwnerGone. walk. Qed.
Lemma inert_owner : quietly (ownerGone l).
Proof. unfold ownerGone. walk. Qed.
Lemma inert_deny c d : quietly (deny_call l c d).
Proof. unfold deny_call. walk. Qed.
Lemma inert_decline c d a : quietly (decline_call l c d a).
Proof. unfold decline_call. walk. Qed.
#[local] Hint Resolve inert_unknown inert_decision inert_gone inert_owner inert_deny inert_decline : walks.
Lemma inert_put c d : quietly (put_to_approver l c d).
Proof. unfold put_to_approver. walk. Qed.
#[local] Hint Resolve inert_put : walks.
Lemma inert_ask c asked d : quietly (ask_call l c asked d).
Proof. unfold ask_call. walk. Qed.
Lemma inert_claim h : quietly (λ s, let '(ok, ps) := plan_claim h (plans s) in (ok, set_plans ps s)).
Proof. apply same_trace. intros s. by destruct (plan_claim h (plans s)). Qed.
#[local] Hint Resolve inert_ask inert_claim : walks.
Lemma inert_approve c d hit a from : quietly (approve_call l c d hit a from).
Proof. unfold approve_call, noteReviewed, noteRecordErr. walk. Qed.
#[local] Hint Resolve inert_approve : walks.
Lemma inert_judge calls index t c dropped resolved : quietly (judge_call l calls index t c dropped resolved).
Proof. unfold judge_call. walk. Qed.
#[local] Hint Resolve inert_judge : walks.
Lemma inert_authorize calls index c : quietly (authorizeCall l calls index c).
Proof. unfold authorizeCall, refuseArgs, refuseUnresolvable. walk. Qed.
#[local] Hint Resolve inert_authorize : walks.

Lemma inert_authorize_from todo : ∀ i calls results approved, quietly (authorize_from l todo i calls results approved).
Proof. induction todo as [|todo IH]; intros; cbn [authorize_from]; walk. Qed.
Lemma inert_count t c res : quietly (count_outcome l t c res).
Proof. unfold count_outcome. apply same_trace. intros s. cbn. repeat case_match; done. Qed.
#[local] Hint Resolve inert_count : walks.
Lemma inert_invoke t c res : quietly (finish_invoke l t c res).
Proof. unfold finish_invoke. walk. Qed.
#[local] Hint Resolve inert_invoke : walks.
Lemma inert_launch i c results : quietly (launch i c results).
Proof. unfold launch. walk. Qed.
Lemma inert_finish i c results : quietly (AgentCalls.finish l i c results).
Proof. unfold AgentCalls.finish, invoke_end. walk. Qed.
#[local] Hint Resolve inert_launch inert_finish : walks.
Lemma inert_reads ss calls : ∀ results, quietly (run_reads l ss calls results).
Proof. induction ss as [|x ss IH]; intros; cbn [run_reads]; walk. Qed.
Lemma inert_changes is_ calls : ∀ results, quietly (run_changes l is_ calls results).
Proof. induction is_ as [|i is_ IH]; intros; cbn [run_changes]; walk. Qed.
Lemma inert_replan remit plan results : quietly (replan l remit plan results).
Proof. induction results as [|[o|] results IH]; cbn [replan]; walk. Qed.
Lemma inert_fill reason requested calls : ∀ i results, quietly (fill_ended l reason requested i calls results).
Proof. induction calls as [|c calls IH]; intros i [|[o|] results]; cbn [fill_ended]; walk. Qed.
#[local] Hint Resolve inert_authorize_from inert_reads inert_changes inert_replan inert_fill : walks.

Lemma inert_runCalls reads remit plan calls : quietly (runCalls l reads remit plan calls).
Proof. unfold runCalls, clearVerdicts. walk. Qed.
End calls.

(** ** Walking a run

    What the steps of a run read and change of the state, but for counters and
    marks of the loop's own. *)

Definition view (s : run_state) : list entry * shared * list message * (Z * Z) * list (list message) :=
  (trace (core s), others s, messages s, (turns s, MaxTurns s), sent s).

(** The events written around turns, but for people's messages and ends. *)
Definition plain (e : run_event) : bool :=
  match e with
  | EvUserMessage _ _ _ _ _ | EvMessageDropped _ _ _ _ | EvSessionEnded _ _ _ _ _ _ _ _ _ => false
  | _ => true
  end.
Definition of_run (P : run_event → bool) (x : entry) : Prop := match x with Recorded (EvOfRun e) => P e = true | _ => True end.

(** A relation of states that every step of a run keeps, people's messages and ends
    apart; the events it bears are [P]. *)
Class Walks (P : run_event → bool) (Q : run_state → run_state → Prop) : Prop := {
  wk_pre :: PreOrder Q;
  wk_plain e : plain e = true → P e = true;
  wk_view s s' : view s' = view s → Q s s';
  wk_core s c : adds (of_run P) (core s) c → Q s (set_core c s);
  wk_look s : Q s (snd (look s));
  wk_say s ms : paired ms → Q s (set_messages (messages s ++ ms) s);
  wk_messages s ms : (paired (messages s) → paired ms) → Q s (set_messages ms s);
  wk_notices s n d : Q s (set_others (with_notices n d (others s)) s);
  wk_joined s : Q s (set_others (no_joined (others s)) s)
}.

(** ** Conversations whose calls are answered *)

Lemma paired_app a b : paired a → paired b → paired (a ++ b).
Proof.
  intros Ha Hb. induction Ha as [|m ms Hm Hc Ha IH|m rs ms Hm Hids Hrs Ha IH]; [done| |].
  - rewrite <- app_comm_cons. by constructor.
  - rewrite <- app_comm_cons, <- app_assoc. by constructor.
Qed.
Lemma paired_user text : paired [user_message text].
Proof. by repeat constructor. Qed.
Lemma paired_reply text : paired [assistant_message text []].
Proof. by repeat constructor. Qed.
Lemma paired_notice n : paired (noticeMessages n).
Proof. apply (paired_turn (assistant_message _ _) [Transcript.tool_message _ _ _] []); by repeat constructor. Qed.
Lemma paired_answered text calls ms : map tm_CallID ms = map tc_ID calls → paired (assistant_message text calls :: map result_message ms).
Proof.
  intros H. rewrite <- (app_nil_r (map _ ms)). constructor; [done| | |constructor].
  - rewrite map_map. exact H.
  - apply Forall_forall. intros m (x & -> & _)%list_elem_of_fmap. done.
Qed.

(** Replacing the content of results. *)
Definition same_shape (m m' : message) : Prop :=
  m_Role m' = m_Role m ∧ m_ToolCalls m' = m_ToolCalls m ∧ m_ToolCallID m' = m_ToolCallID m.
Lemma paired_shape ms : ∀ ms', Forall2 same_shape ms ms' → paired ms → paired ms'.
Proof.
  intros ms' H Hp. revert ms' H. induction Hp as [|m ms Hm Hc Hp IH|m rs ms Hm Hids Hrs Hp IH]; intros ms' H.
  - apply Forall2_nil_inv_l in H as ->. constructor.
  - apply Forall2_cons_inv_l in H as (m' & t & (E1 & E2 & _) & Ht & ->). apply paired_said; [by rewrite E1|by rewrite E2|by apply IH].
  - apply Forall2_cons_inv_l in H as (m' & t & (E1 & E2 & _) & Ht & ->). apply Forall2_app_inv_l in Ht as (rs' & ms2 & Hr & Hm2 & ->).
    apply paired_turn; [by rewrite E1| | |by apply IH].
    + rewrite E2, <- Hids. clear - Hr. induction Hr as [|x y rs rs' (_ & _ & E) Hr IH]; cbn; [done|]. by rewrite E, IH.
    + clear - Hr Hrs. induction Hr as [|x y rs rs' (E & _) Hr IH]; [constructor|]. apply Forall_cons in Hrs as [Hx Hrs].
      constructor; [by rewrite E|by apply IH].
Qed.
Lemma offload_shape r all : ∀ ms recent, Forall2 same_shape ms (fst (offload_pass r all recent ms)).
Proof.
  induction ms as [|m ms IH]; intros recent; cbn [offload_pass]; [constructor|].
  destruct (negb (is_tool m)); [specialize (IH recent); destruct (offload_pass r all recent ms); by constructor|].
  destruct (recent <? rn_KeepRecent r)%nat; [specialize (IH (S recent)); destruct (offload_pass r all (S recent) ms); by constructor|].
  specialize (IH recent). destruct (offload_pass r all recent ms). destruct (_ || _); by constructor.
Qed.

(** ** The steps around the queue *)

Section walks.
Context (r : Runner) (Hsched : ∀ n rs, NoDup rs → schedule_ok rs (rn_reads r n rs)).
Context {P : run_event → bool} {Q : run_state → run_state → Prop} `{HW : !Walks P Q}.
Abbreviation keeps := (preserves Q).

Lemma keeps_lift {A} (m : AgentLoop.M A) : preserves (adds (of_run P)) m → keeps (lift m).
Proof using HW. intros H s. unfold lift. specialize (H (core s)). destruct (m (core s)) as [a c]. by apply wk_core. Qed.
Lemma of_calls_run c c' : adds of_calls c c' → adds (of_run P) c c'.
Proof. intros (es & E & H). exists es. split; [done|]. eapply Forall_impl; [exact H|]. intros [[e| | | | | | | | | |]|c0|c0] Hx; try done. by destruct (Hx e). Qed.
Lemma keeps_calls {A} (m : AgentLoop.M A) : preserves (adds of_calls) m → keeps (lift m).
Proof using HW. intros H. apply keeps_lift. intros s. apply of_calls_run, H. Qed.
Lemma keeps_try e : P e = true → keeps (try_record r e).
Proof using HW.
  intros He. apply keeps_lift. unfold Record_event. refine (walk_bind _ _ _ _ _); [intros s; exists []; by rewrite app_nil_r|].
  intros n s. destruct (Append _ n _); [exists [Recorded (EvOfRun e)]|exists []]; [|by rewrite app_nil_r]. split; [done|by repeat constructor].
Qed.
Lemma keeps_note e : P e = true → keeps (note r e).
Proof using HW.
  intros He. apply keeps_lift. unfold record, Record_event. refine (walk_bind _ _ _ _ _).
  - refine (walk_bind _ _ _ _ _); [intros s; exists []; by rewrite app_nil_r|].
    intros n s. destruct (Append _ n _); [exists [Recorded (EvOfRun e)]|exists []]; [|by rewrite app_nil_r]. split; [done|by repeat constructor].
  - intros [] s; exists []; by rewrite app_nil_r.
Qed.
Lemma keeps_plain e : plain e = true → keeps (note r e).
Proof using HW. intros He. by apply keeps_note, wk_plain. Qed.
Lemma keeps_same f : (∀ s, view (f s) = view s) → keeps (mmodify f).
Proof using HW. intros H s. apply wk_view, H. Qed.
Lemma keeps_ret {A} (a : A) : keeps (mreturn a).
Proof using HW. intros s. by apply wk_view. Qed.
Lemma keeps_get : keeps mget.
Proof using HW. intros s. by apply wk_view. Qed.
Lemma keeps_ask : keeps ask.
Proof using HW. apply keeps_calls. apply same_trace. done. Qed.
Lemma keeps_look : keeps look.
Proof using HW. intros s. apply wk_look. Qed.
Lemma keeps_say ms : paired ms → keeps (say ms).
Proof using HW. intros H s. by apply wk_say. Qed.
Hint Resolve keeps_ret keeps_get keeps_ask keeps_look keeps_say paired_user paired_reply paired_notice : walks.
Hint Extern 1 (preserves _ (note _ _)) => apply keeps_plain; reflexivity : walks.
Hint Extern 1 (preserves _ (mmodify _)) => apply keeps_same; intros ?; reflexivity : walks.

Lemma keeps_stop : keeps ctx_stop.
Proof using HW. unfold ctx_stop. walk. Qed.
Lemma keeps_work : keeps hasWork.
Proof using HW. unfold hasWork. walk. Qed.
Lemma keeps_take_notices : keeps takeNotices.
Proof using HW. unfold takeNotices. walk. intros s. apply wk_notices. Qed.
Hint Resolve keeps_stop keeps_work keeps_take_notices : walks.
Lemma keeps_notices delivery woken ns : keeps (deliver_notices r delivery woken ns).
Proof using HW.
  induction ns as [|n ns IH]; cbn [deliver_notices]; [walk|]. refine (walk_bind _ _ _ _ _); [by apply keeps_try, wk_plain|].
  intros []; [walk|]. refine (walk_bind _ _ _ _ _); [intros s; apply wk_notices|walk].
Qed.
Hint Resolve keeps_notices : walks.
Lemma keeps_wait fuel : keeps (wait_work fuel).
Proof using HW.
  induction fuel as [|fuel IH]; cbn [wait_work]; walk. intros s. apply wk_joined.
Qed.
Lemma keeps_waitBackground : keeps waitBackground.
Proof using HW. intros s. apply keeps_wait. Qed.
Hint Resolve keeps_waitBackground : walks.

(** ** Making room *)

Lemma keeps_forget : keeps forgetAnswers.
Proof using HW. apply keeps_calls, same_trace. done. Qed.
Hint Resolve keeps_forget : walks.

(** A step that reads the messages and goes on with others: [same] steps leave
    them, and then they are replaced. *)
Definition leaves (s s' : run_state) : Prop := Q s s' ∧ messages s' = messages s.
Lemma leaves_then {A B} (m : R A) (k : A → R B) s0 s : leaves s0 s → leaves s (snd (m s)) →
  (∀ a s', leaves s0 s' → Q s0 (snd (k a s'))) → Q s0 (snd (mthen m k s)).
Proof using HW.
  intros [H1 E1] [H2 E2] Hk. unfold mthen. destruct (m s) as [a s']. apply Hk. cbn [snd] in *. split; [by etransitivity|by rewrite E2].
Qed.
Lemma leaves_keeps {A} (m : R A) s : keeps m → (∀ s, messages (snd (m s)) = messages s) → leaves s (snd (m s)).
Proof. intros H E. by split. Qed.
Lemma leaves_refl s : leaves s s.
Proof using HW. by split. Qed.
Lemma lift_messages {A} (m : AgentLoop.M A) s : messages (snd (lift m s)) = messages s.
Proof. unfold lift. by destruct (m (core s)). Qed.

Lemma keeps_offload : keeps (offloadIfNeeded r).
Proof using HW.
  unfold offloadIfNeeded. destruct (rn_offload r) as [reached|]; [|walk]. refine (walk_bind _ _ _ _ _); [walk|]. intros n s.
  unfold mthen at 1, mget. destruct (negb (reached n (messages s))); [by apply wk_view|].
  pose proof (offload_shape r (messages s) (reverse (messages s)) 0) as Hs.
  destruct (offload_pass r (messages s) 0 (reverse (messages s))) as [ms [|i info]]; [by apply wk_view|]. cbn [fst] in Hs.
  etransitivity; [apply (wk_messages s (reverse ms)); apply paired_shape|].
  { rewrite <- (reverse_involutive (messages s)). by apply Forall2_reverse. }
  unfold mthen at 1. cbn [mmodify snd fst]. revert s Hs. intros s _. generalize (set_messages (reverse ms) s). intros s'.
  assert (Hk : keeps (let! _ := forgetAnswers in note r (EvContextOffloaded (map (λ x, m_ToolCallID (fst x)) (i :: info))
    (lengths (map (λ x, m_Content (fst x)) (i :: info))) (lengths (map snd (i :: info))) (default 0 (rn_CountTokens r (messages s))) (default 0 (rn_CountTokens r (reverse ms)))))%go%Z) by walk.
  exact (Hk s').
Qed.

Lemma keeps_compact reserve : keeps (compactIfNeeded r reserve).
Proof using HW.
  intros s. unfold compactIfNeeded, mthen at 1, mget. destruct (compactor s) as [c|]; [|by apply wk_view].
  apply (leaves_then _ _ s); [apply leaves_refl|apply leaves_keeps; [walk|intros; apply lift_messages]|]. intros n s1 H1.
  apply (leaves_then _ _ s); [done|by apply leaves_keeps; [walk|]|]. intros [] s2 H2.
  destruct (rn_should r n _ _) as [e|[[] tokens]]; [etransitivity; [apply H2|by apply keeps_plain]| |apply H2].
  destruct (CompactWith _ _ _ _ _ _ _) as [[[out info] err] c'] eqn:E.
  apply (leaves_then _ _ s); [done|apply leaves_keeps; [walk|intros; by destruct (begins _ _ _ _ _); [apply lift_messages|]]|]. intros [] s3 H3.
  destruct err as [e|]; [etransitivity; [apply H3|by apply keeps_plain]|].
  destruct (_ =? _)%nat; [destruct (begins _ _ _ _ _); [etransitivity; [apply H3|by apply keeps_plain]|apply H3]|].
  destruct H3 as [H3 E3]. etransitivity; [exact H3|].
  etransitivity; [apply (wk_messages s3 out); rewrite E3; by eapply CompactWith_paired|].
  unfold mthen at 1. cbn [mmodify]. generalize (set_messages out s3). intros s4. revert s4.
  change (keeps (mmodify (λ s, set_used (one_compaction (used s)) s) ;;; mmodify (set_compactor (Some c') true) ;;; forgetAnswers ;;; note r (compact_done info))%go).
  walk.
Qed.

(** ** A turn *)

Lemma keeps_callID c prior : keeps (withCallID r c prior).
Proof using HW. unfold withCallID. walk. Qed.
Hint Resolve keeps_offload keeps_compact keeps_callID : walks.
Lemma keeps_emit out h : keeps (emit_delta r out h).
Proof using HW. unfold emit_delta. walk. Qed.
Lemma keeps_thinking final h : keeps (flushThinking r final h).
Proof using HW. unfold flushThinking. walk. Qed.
Hint Resolve keeps_emit keeps_thinking : walks.
Lemma keeps_pending final h : keeps (push_pending r final h).
Proof using HW. unfold push_pending. walk. Qed.
Hint Resolve keeps_pending : walks.
Lemma keeps_hear p h : keeps (hear r p h).
Proof using HW. unfold hear. walk. Qed.
Hint Resolve keeps_hear : walks.
Lemma keeps_hear_all ps : ∀ h, keeps (hear_all r ps h).
Proof using HW. induction ps as [|p ps IH]; intros h; cbn [hear_all]; walk. Qed.
Hint Resolve keeps_hear_all : walks.
Lemma keeps_listen ps : keeps (listen r ps).
Proof using HW. unfold listen. walk. Qed.
Lemma keeps_call req h : keeps (record_call r req h).
Proof using HW. unfold record_call. walk. Qed.
Lemma keeps_stuck what key : keeps (stuck_on what key).
Proof using HW. unfold stuck_on. walk. Qed.
Lemma keeps_answer_turn text cutOff : keeps (answer_turn text cutOff).
Proof using HW. unfold answer_turn. walk. Qed.
Hint Resolve keeps_listen keeps_call keeps_stuck keeps_answer_turn : walks.

Lemma keeps_answer_calls text calls : keeps (answer_calls r text calls).
Proof using HW Hsched.
  unfold answer_calls. refine (walk_bind _ _ _ _ _); [walk|]. intros n. destruct (rn_task r n) as [remit plan]. intros s.
  destruct (says_turn (rn_loop r) (rn_reads r n) remit plan calls (Hsched n) (core s)) as (e & _ & _ & calls' & outs & Hids & Hlen & E).
  pose proof (keeps_calls _ (inert_runCalls (rn_loop r) (rn_reads r n) remit plan calls) s) as Hk.
  unfold mthen at 1. unfold lift in *. destruct (runCalls _ _ _ _ _ _) as [[x terminal] c]. cbn [fst snd] in *. subst x.
  etransitivity; [exact Hk|]. refine ((_ : keeps _) _). apply walk_bind; [apply wk_pre| |walk]. apply keeps_say, paired_answered.
  clear - Hids Hlen. unfold appendResults. assert (Hl : length calls' = length outs) by (rewrite <- (length_map tc_ID), Hids, length_map; lia).
  clear Hids Hlen. revert outs Hl. induction calls' as [|c calls' IH]; intros [|o outs] Hl; try done. cbn. f_equal. apply IH. by injection Hl.
Qed.
Hint Resolve keeps_answer_calls : walks.
Lemma keeps_turn_calls text calls : keeps (run_turn_calls r text calls).
Proof using HW Hsched. unfold run_turn_calls. walk. Qed.
Hint Resolve keeps_turn_calls : walks.
Hint Extern 1 (preserves _ (try_record _ _)) => apply keeps_try, wk_plain; reflexivity : walks.
Lemma keeps_heed n req now : keeps (heed r n req now).
Proof using HW Hsched. unfold heed. walk. Qed.
Hint Resolve keeps_heed : walks.
Lemma keeps_given text : keeps (given_answer r text).
Proof using HW. unfold given_answer. walk. Qed.
Hint Resolve keeps_given : walks.
Lemma keeps_check : keeps (checkAnswer r).
Proof using HW. unfold checkAnswer. walk. Qed.
Hint Resolve keeps_check : walks.

(** ** The rounds *)

(** Taking the queue, where nothing is said of it. *)
Section taken.
Context (Hsteer : ∀ s q, Q s (set_others (with_steer q (others s)) s)) (Huser : ∀ e, match e with EvSessionEnded _ _ _ _ _ _ _ _ _ => True | _ => P e = true end).
Lemma taken_steering : keeps takeSteering.
Proof using HW Hsteer. unfold takeSteering. walk. intros s. apply Hsteer. Qed.
Lemma taken_refused text : keeps (promptRefused r text).
Proof using HW. unfold promptRefused. walk. Qed.
Hint Resolve taken_steering taken_refused : walks.
Lemma taken_deliver : keeps (deliverQueuedCount r).
Proof using HW Hsteer Huser.
  unfold deliverQueuedCount. walk. rename a into qs. induction qs as [|q qs IH]; cbn [deliver]; walk; try apply keeps_note, (Huser (EvMessageDropped _ _ _ _)).
  apply keeps_try, (Huser (EvUserMessage _ _ _ _ _)).
Qed.
Lemma taken_drop why : keeps (let! qs := takeSteering in drop_queued r why qs)%go.
Proof using HW Hsteer Huser.
  walk. rename a into qs. induction qs as [|q qs IH]; cbn [drop_queued]; walk. apply keeps_note, (Huser (EvMessageDropped _ _ _ _)).
Qed.
End taken.

Context (Hdeliver : keeps (deliverQueuedCount r)) (Hdrop : ∀ why, keeps (let! qs := takeSteering in drop_queued r why qs)%go).
Hint Resolve Hdeliver Hdrop : walks.

Lemma keeps_more fuel : keeps (more r fuel).
Proof using HW Hdeliver. induction fuel as [|fuel IH]; cbn [more]; walk. Qed.
Lemma keeps_moreForTheModel : keeps (moreForTheModel r).
Proof using HW Hdeliver. intros s. apply keeps_more. Qed.
Hint Resolve keeps_moreForTheModel : walks.
Lemma walk_assoc {A B C} (m : R A) (f : A → R B) (g : B → R C) : keeps (mthen (mthen m f) g) → keeps (mthen m (λ a, mthen (f a) g)).
Proof. intros H s. specialize (H s). unfold mthen in *. by destruct (m s). Qed.

(** With what keeps an end. *)
Section ends.
Context (Hend : ∀ reason suggesting s, keeps (note r (endPayload r reason suggesting s))).
Hint Resolve Hend : walks.
Lemma keeps_drop why : keeps (let! qs := takeSteering in drop_queued r why qs)%go.
Proof using Hdrop. apply Hdrop. Qed.
Hint Resolve keeps_drop : walks.
Lemma keeps_handedOver : keeps (handedOver r).
Proof using HW Hdrop. unfold handedOver. apply walk_assoc. refine (walk_bind _ _ _ _ _); [apply Hdrop|walk]. Qed.
Lemma keeps_finish_as suggesting reason : keeps (finish_as r suggesting reason).
Proof using HW Hdrop Hend.
  unfold finish_as, set_details. refine (walk_bind _ _ _ _ _); [destruct (String.eqb _ _); [apply Hdrop|walk]|]. walk.
Qed.
Lemma keeps_finish reason : keeps (AgentRun.finish r reason).
Proof using HW Hdrop Hend. apply keeps_finish_as. Qed.
Hint Resolve keeps_handedOver keeps_finish_as keeps_finish : walks.
Lemma keeps_finishStopped reason : keeps (finishStopped r reason).
Proof using HW Hdrop Hend. unfold finishStopped, with_end. walk. Qed.
Lemma keeps_finishSuggesting : keeps (finishSuggesting r).
Proof using HW Hdrop Hend. unfold finishSuggesting. walk. Qed.
Hint Resolve keeps_finishStopped keeps_finishSuggesting : walks.
Lemma keeps_ended m : keeps m → keeps (ended m).
Proof using HW. intros H. unfold ended. walk. Qed.
Lemma keeps_failed : keeps failed.
Proof using HW. unfold failed. walk. Qed.
Lemma keeps_again : keeps again.
Proof using HW. unfold again. walk. Qed.
Hint Resolve keeps_ended keeps_failed keeps_again : walks.
Lemma keeps_fails : keeps (fails_after_finish r).
Proof using HW Hdrop Hend. unfold fails_after_finish. walk. Qed.
Hint Resolve keeps_fails : walks.
Lemma keeps_wait_rounds fuel : keeps (wait_rounds r fuel).
Proof using HW Hdeliver Hdrop Hend. induction fuel as [|fuel IH]; cbn [wait_rounds]; walk. Qed.
Lemma keeps_wait_joined : keeps (wait_joined r).
Proof using HW Hdeliver Hdrop Hend. intros s. apply keeps_wait_rounds. Qed.
Lemma keeps_settle reason : keeps (settle_answer r reason).
Proof using HW Hdrop Hend. unfold settle_answer. walk. Qed.
Hint Resolve keeps_wait_joined keeps_settle : walks.
Lemma keeps_wait_then reason : keeps (wait_then_settle r reason).
Proof using HW Hdeliver Hdrop Hend. unfold wait_then_settle. walk. Qed.
Hint Resolve keeps_wait_then : walks.
Lemma keeps_turn_done reason : keeps (turn_done r reason).
Proof using HW Hdeliver Hdrop Hend. unfold turn_done. walk. Qed.
Lemma keeps_delivery : keeps take_delivery.
Proof using HW. unfold take_delivery. walk. Qed.
Lemma keeps_owner : keeps (lift (ownerGone (rn_loop r))).
Proof using HW. apply keeps_calls, inert_owner. Qed.
Hint Resolve keeps_turn_done keeps_delivery keeps_owner : walks.

(** With what keeps a request. *)
Context (Hsent : ∀ s, Q s (add_sent (messages s) s)).
Lemma keeps_send : keeps send.
Proof using r HW Hsent. unfold send. walk. Qed.
Hint Resolve keeps_send : walks.
Lemma keeps_turn : keeps (turn r).
Proof using HW Hsched Hsent. unfold turn. walk. Qed.
Hint Resolve keeps_turn : walks.

(** With what keeps the count of turns. *)
Context (Hturns : ∀ s t m, Q s (set_turns t m s)).
Lemma keeps_begin_turn : keeps (begin_turn r).
Proof using HW Hsched Hsent Hdeliver Hdrop Hend Hturns. unfold begin_turn. walk. intros s. apply Hturns. Qed.
Lemma keeps_deliverNotices delivery woken : keeps (deliverNotices r delivery woken).
Proof using HW. unfold deliverNotices. walk. Qed.
Hint Resolve keeps_begin_turn keeps_deliverNotices : walks.
Lemma keeps_round : keeps (round r).
Proof using HW Hsched Hsent Hdeliver Hdrop Hend Hturns. unfold round. walk. Qed.
Hint Resolve keeps_round : walks.
Lemma keeps_rounds fuel : keeps (rounds r fuel).
Proof using HW Hsched Hsent Hdeliver Hdrop Hend Hturns. induction fuel as [|fuel IH]; cbn [rounds]; walk. Qed.
Lemma keeps_run : keeps (run r).
Proof using HW Hsched Hsent Hdeliver Hdrop Hend Hturns.
  unfold run. refine (walk_bind _ _ _ _ _); [intros s; apply wk_notices|]. walk. intros s. apply keeps_rounds.
Qed.
Lemma keeps_start : keeps (startMessage r).
Proof using HW Hturns.
  unfold startMessage. refine (walk_bind _ _ _ _ _); [|intros ?; apply keeps_calls, same_trace; done].
  intros s. cbn. destruct (0 <? rn_TurnsPerMessage r)%Z; [apply Hturns|by apply wk_view].
Qed.
Hint Resolve keeps_run keeps_start : walks.
Context (Hprompt : ∀ text clientID withheld, P (EvUserMessage text "" clientID false withheld) = true)
  (Hdropped : ∀ clientID text why, P (EvMessageDropped "" clientID text why) = true).
Hint Extern 1 (preserves _ (note _ (EvMessageDropped "" _ _ _))) => apply keeps_note, Hdropped : walks.
Hint Extern 1 (preserves _ (try_record _ (EvUserMessage _ "" _ _ _))) => apply keeps_try, Hprompt : walks.
Lemma keeps_refused text : keeps (promptRefused r text).
Proof using HW. unfold promptRefused. walk. Qed.
Lemma keeps_startup : keeps (lift (noteTrustedStartup (rn_loop r))).
Proof using HW. apply keeps_calls, inert_startup. Qed.
Hint Resolve keeps_refused keeps_startup : walks.
Lemma keeps_RunMessage text clientID : keeps (RunMessage r text clientID).
Proof using HW Hsched Hsent Hdeliver Hdrop Hend Hturns Hprompt Hdropped. unfold RunMessage. walk. Qed.
Lemma keeps_RunQueued : keeps (RunQueued r).
Proof using HW Hsched Hsent Hdeliver Hdrop Hend Hturns. unfold RunQueued. walk. Qed.
Lemma keeps_RunWoken by_ ids most : keeps (RunWoken r by_ ids most).
Proof using HW Hsched Hsent Hdeliver Hdrop Hend Hturns. unfold RunWoken. walk. Qed.
End ends.
End walks.

(** ** What starts a run *)

Inductive starting : Type := Prompted (text clientID : string) | FromQueue | Woken (by_ : string) (taskIDs : list string) (most : Z).
Definition start (r : Runner) (x : starting) : R (option (string * bool)) :=
  match x with
  | Prompted text clientID => RunMessage r text clientID
  | FromQueue => RunQueued r
  | Woken by_ ids most => RunWoken r by_ ids most
  end.

Definition schedules_ok (r : Runner) : Prop := ∀ n rs, NoDup rs → schedule_ok rs (rn_reads r n rs).

(** A relation that takes every event and does not look at the queue. *)
Section unminding.
Context (r : Runner) (Hsched : schedules_ok r) {Q : run_state → run_state → Prop} `{HW : !Walks (λ _, true) Q}.
Context (Hsteer : ∀ s q, Q s (set_others (with_steer q (others s)) s)).
Lemma unminding_end reason suggesting s : preserves Q (note r (endPayload r reason suggesting s)).
Proof using HW. by apply (keeps_note r (HW := HW)). Qed.
Lemma unminding_user e : match e with EvSessionEnded _ _ _ _ _ _ _ _ _ => True | _ => true = true end.
Proof. by destruct e. Qed.
Lemma unminding_start x : (∀ s, Q s (add_sent (messages s) s)) → (∀ s t m, Q s (set_turns t m s)) → preserves Q (start r x).
Proof using HW Hsched Hsteer.
  intros Hsent Hturns. pose proof (taken_deliver r (HW := HW) Hsteer unminding_user) as Hd. pose proof (taken_drop r (HW := HW) Hsteer unminding_user) as Hq.
  destruct x; cbn [start]; [apply (keeps_RunMessage r Hsched (HW := HW))|apply (keeps_RunQueued r Hsched (HW := HW))|apply (keeps_RunWoken r Hsched (HW := HW))];
    auto using unminding_end.
Qed.
End unminding.

(** ** Requests *)

Definition asks_well (s s' : run_state) : Prop :=
  paired (messages s) → paired (messages s') ∧ ∃ new, sent s' = sent s ++ new ∧ Forall paired new.
#[export] Instance asks_well_walks : Walks (λ _, true) asks_well.
Proof.
  assert (Hsame : ∀ s s', messages s' = messages s → sent s' = sent s → asks_well s s').
  { intros s s' Em Es Hp. rewrite Em, Es. split; [done|]. exists []. by rewrite app_nil_r. }
  split; [split| | | | | | | |]; try done.
  - intros s. by apply Hsame.
  - intros a b c Hab Hbc Ha. destruct (Hab Ha) as (Hb & n1 & E1 & F1). destruct (Hbc Hb) as (Hc & n2 & E2 & F2). split; [done|].
    exists (n1 ++ n2). rewrite E2, E1, app_assoc. split; [done|by apply Forall_app].
  - intros s s' E. injection E as _ _ Em _ _ Es. by apply Hsame.
  - intros s c _. by apply Hsame.
  - intros s. unfold look. cbn. destruct (future (others s)); by apply Hsame.
  - intros s ms Hms Hp. cbn. split; [by apply paired_app|]. exists []. by rewrite app_nil_r.
  - intros s ms Hms Hp. cbn. split; [auto|]. exists []. by rewrite app_nil_r.
  - intros s n d. by apply Hsame.
  - intros s. by apply Hsame.
Qed.

(** C6: Every request a run sends the model is a conversation it can be sent: each
    call in it is followed by its own answer, in order, and no answer stands
    without its call. So is the history the run leaves, however it started,
    whatever the model, the tools, the hooks and the record do, wherever it was
    stopped, and through every compaction and offloading on the way. *)
Theorem requests_answered r x s : schedules_ok r → paired (messages s) →
  ∃ new, sent (snd (start r x s)) = sent s ++ new ∧ Forall paired new ∧ paired (messages (snd (start r x s))).
Proof.
  intros Hsched Hp. assert (H : asks_well s (snd (start r x s))).
  { apply (unminding_start (Q := asks_well) r Hsched).
    - intros s' q Hq. split; [done|]. exists []. by rewrite app_nil_r.
    - intros s' Hq. cbn. split; [done|]. exists [messages s']. split; [done|by constructor].
    - intros s' t m Hq. split; [done|]. exists []. by rewrite app_nil_r. }
  destruct (H Hp) as (Hm & new & E & F). by exists new.
Qed.

(** ** How a run ends *)

Definition same_turns (s s' : run_state) : Prop := turns s' = turns s ∧ MaxTurns s' = MaxTurns s ∧ length (sent s') = length (sent s).
#[export] Instance same_turns_walks : Walks (λ _, true) same_turns.
Proof.
  split; [split| | | | | | | |]; try done.
  - intros a b c (H1 & H2 & H3) (H4 & H5 & H6). unfold same_turns. by rewrite H4, H5, H6.
  - intros s s' E. injection E as _ _ _ Et Em Es. unfold same_turns. by rewrite Et, Em, Es.
  - intros s. unfold look. cbn. by destruct (future (others s)).
Qed.

(** A step after which [k] more turns were taken, and as many requests sent. *)
Definition further (k : nat) (s s' : run_state) : Prop :=
  turns s' = (turns s + Z.of_nat k)%Z ∧ MaxTurns s' = MaxTurns s ∧ length (sent s') = (length (sent s) + k)%nat.
Lemma further_trans a b s1 s2 s3 : further a s1 s2 → further b s2 s3 → further (a + b) s1 s3.
Proof. unfold further. intros (E1 & E2 & E3) (E4 & E5 & E6). rewrite E4, E5, E6, E1, E2, E3. split_and!; lia. Qed.
Lemma same_further s s' : same_turns s s' → further 0 s s'.
Proof. unfold same_turns, further. intros (-> & -> & ->). split_and!; lia. Qed.

(** What a part of a round does: it ends the run, or another round follows it after a
    turn. *)
Definition advances (m : R (option (string * bool) + unit)) : Prop :=
  ∀ s, (turns s < MaxTurns s)%Z → ∃ k, (k ≤ 1)%nat ∧ further k s (snd (m s)) ∧
    match fst (m s) with inr _ => k = 1%nat | inl x => x ≠ None end.
Lemma advances_bind {A} (m : R A) k : preserves same_turns m → (∀ a, advances (k a)) → advances (mthen m k).
Proof.
  intros Hm Hk s Hs. unfold mthen. pose proof (same_further _ _ (Hm s)) as H. destruct (m s) as [a s1]. cbn [snd] in H.
  destruct (Hk a s1) as (j & Hj & Hf & Hr); [destruct H as (-> & -> & _); lia|]. exists j. split_and!; [done| |done]. by apply (further_trans 0 j s s1).
Qed.
Lemma advances_end m : preserves same_turns m → advances (ended m).
Proof.
  intros Hm s _. unfold ended, mthen. pose proof (same_further _ _ (Hm s)) as H. destruct (m s) as [a s1]. exists 0%nat.
  split_and!; [lia|exact H|done].
Qed.
Lemma advances_failed : advances failed.
Proof. intros s _. exists 0%nat. split_and!; [lia|by apply same_further|done]. Qed.

Section ending.
Context (r : Runner) (Hsched : schedules_ok r).
Abbreviation steady := (preserves same_turns).
Lemma steady_deliver : steady (deliverQueuedCount r).
Proof using. apply (taken_deliver r (HW := same_turns_walks)); [done|by intros []]. Qed.
Lemma steady_drop why : steady (let! qs := takeSteering in drop_queued r why qs)%go.
Proof using. apply (taken_drop r (HW := same_turns_walks)); [done|by intros []]. Qed.
Lemma steady_end reason suggesting s : steady (note r (endPayload r reason suggesting s)).
Proof using. by apply (keeps_note r (HW := same_turns_walks)). Qed.
#[local] Hint Resolve steady_deliver steady_drop steady_end : steady.
Lemma steady_finish reason : steady (AgentRun.finish r reason).
Proof using. apply (keeps_finish r (HW := same_turns_walks)); auto with steady. Qed.
Lemma steady_stopped reason : steady (finishStopped r reason).
Proof using. apply (keeps_finishStopped r (HW := same_turns_walks)); auto with steady. Qed.

(** A turn that is done always says how the run goes on. *)
Definition says_how (m : R (option (string * bool) + unit)) : Prop := yields m (λ x, x ≠ inl None).
Lemma how_bind {A} (m : R A) k : (∀ a, says_how (k a)) → says_how (mthen m k).
Proof. intros H. apply (yields_bind m k (λ _, True)); [done|]. intros a _. apply H. Qed.
Lemma how_ended m : says_how (ended m).
Proof. by apply how_bind. Qed.
Lemma how_failed : says_how failed.
Proof. done. Qed.
Lemma how_again : says_how again.
Proof. done. Qed.
Lemma how_fails : says_how (fails_after_finish r).
Proof. apply how_bind. intros _. apply how_failed. Qed.
#[local] Hint Resolve how_ended how_failed how_again how_fails : how.
Lemma how_settle reason : says_how (settle_answer r reason).
Proof. unfold settle_answer. destruct (String.eqb _ _); [|auto with how]. apply how_bind. intros [revise end_]. destruct revise; [apply how_again|]. destruct (String.eqb end_ TermCompleted); auto with how. Qed.
Lemma how_wait fuel : yields (wait_rounds r fuel) (λ x, x ≠ Some (inl None)).
Proof.
  induction fuel as [|fuel IH]; cbn [wait_rounds]; [by apply yields_ret|]. apply (yields_bind _ _ (λ _, True)); [done|]. intros work _.
  destruct (negb work); [by apply yields_ret|]. apply (yields_bind _ _ (λ _, True)); [done|]. intros [got ok] _.
  destruct (negb ok); [apply (yields_bind _ _ (λ x, x ≠ inl None)); [apply how_fails|intros x Hx; apply yields_ret; congruence]|].
  destruct got; [apply (yields_bind _ _ (λ x, x ≠ inl None)); [apply how_again|intros x Hx; apply yields_ret; congruence]|done].
Qed.
Lemma how_wait_then reason : says_how (wait_then_settle r reason).
Proof.
  unfold wait_then_settle. apply how_bind. intros s. destruct (_ && _); [|apply how_settle].
  apply (yields_bind _ _ (λ x, x ≠ Some (inl None))); [intros s'; apply how_wait|]. intros [x|] Hx; [apply yields_ret; congruence|].
  apply how_bind. intros st. destruct (is_stopped st); [apply how_again|apply how_settle].
Qed.
Lemma how_turn_done reason : says_how (turn_done r reason).
Proof.
  unfold turn_done. apply how_bind. intros []; [|apply how_wait_then]. apply how_bind. intros [got ok].
  destruct (negb ok); [apply how_fails|]. destruct got; [apply how_again|apply how_wait_then].
Qed.

(** A turn sends one request. *)
Lemma turn_sends s : turns (snd (turn r s)) = turns s ∧ MaxTurns (snd (turn r s)) = MaxTurns s ∧ length (sent (snd (turn r s))) = S (length (sent s)).
Proof using Hsched.
  assert (Hs : ∃ x s1, send s = (x, s1) ∧ turns s1 = turns s ∧ MaxTurns s1 = MaxTurns s ∧ length (sent s1) = S (length (sent s))).
  { eexists _, _. split_and!; [reflexivity..|]. cbn. rewrite length_app. cbn. lia. }
  destruct Hs as (x & s1 & E & <- & <- & <-). unfold turn. rewrite (mthen_run _ _ _ _ _ E). destruct x as [[n req] now].
  apply (keeps_heed r Hsched (HW := same_turns_walks)).
Qed.

(** What sends one request and takes no turn more. *)
Definition sends_one (m : R (option (string * bool) + unit)) : Prop := ∀ s, fst (m s) ≠ inl None ∧
  let s' := snd (m s) in turns s' = turns s ∧ MaxTurns s' = MaxTurns s ∧ length (sent s') = S (length (sent s)).
Lemma one_after {A} (m : R A) k : steady m → (∀ a, sends_one (k a)) → sends_one (mthen m k).
Proof.
  intros Hm Hk s. unfold mthen. destruct (Hm s) as (E1 & E2 & E3). destruct (m s) as [a s1]. cbn [snd] in *.
  destruct (Hk a s1) as (H & H1 & H2 & H3). cbn zeta. by rewrite H1, H2, H3, E1, E2, E3.
Qed.
Lemma one_turn (k : turned → R (option (string * bool) + unit)) : (∀ t, steady (k t) ∧ says_how (k t)) → sends_one (mthen (turn r) k).
Proof using Hsched.
  intros Hk s. unfold mthen. destruct (turn_sends s) as (E1 & E2 & E3). destruct (turn r s) as [t s1]. cbn [snd] in *.
  destruct (Hk t) as [H H']. specialize (H' s1). destruct (H s1) as (H1 & H2 & H3). cbn zeta. by rewrite H1, H2, H3, E1, E2, E3.
Qed.
Lemma steady_done reason : steady (turn_done r reason).
Proof using. apply (keeps_turn_done r (HW := same_turns_walks)); auto with steady. Qed.
Lemma advances_begin : advances (begin_turn r).
Proof using Hsched.
  intros s Hs. unfold begin_turn. set (s1 := set_turns (turns s + 1) (MaxTurns s) s). rewrite !(mthen_run (mmodify (λ s, set_turns (turns s + 1) (MaxTurns s) s)) _ s tt s1 eq_refl).
  match goal with |- context [snd (?m s1)] => assert (H : sends_one m) end.
  { apply one_after; [apply (keeps_offload r (HW := same_turns_walks))|]. intros _.
    apply one_after; [apply (keeps_compact r (HW := same_turns_walks))|]. intros _. apply one_turn. intros [|reason|err].
    - split; [by apply keeps_again|apply how_again].
    - split; [apply steady_done|apply how_turn_done].
    - split; [apply (keeps_fails r (HW := same_turns_walks)); auto with steady|apply how_fails]. }
  destruct (H s1) as (Hn & H1 & H2 & H3). exists 1%nat. split_and!; [lia| |destruct (fst _); [congruence|done]].
  split_and!; [rewrite H1; unfold s1; cbn; lia|by rewrite H2|rewrite H3; unfold s1; cbn; lia].
Qed.

Lemma advances_round s : ∃ k, (k ≤ 1)%nat ∧ further k s (snd (round r s)) ∧ (k = 1%nat → (turns s < MaxTurns s)%Z) ∧
  match fst (round r s) with inr _ => k = 1%nat | inl x => x ≠ None end.
Proof using Hsched.
  unfold round. pose proof (same_further _ _ (keeps_stop (HW := same_turns_walks) s)) as H0. destruct (ctx_stop s) as [st s1] eqn:E. cbn [snd] in H0.
  rewrite !(mthen_run _ _ _ _ _ E).
  assert (Hend : ∀ m : R string, steady m → ∃ k, (k ≤ 1)%nat ∧ further k s (snd (ended m s1)) ∧ (k = 1%nat → (turns s < MaxTurns s)%Z) ∧
    match fst (ended m s1) with inr _ => k = 1%nat | inl x => x ≠ None end).
  { intros m Hm. unfold ended, mthen. pose proof (same_further _ _ (Hm s1)) as H. destruct (m s1) as [a s2]. exists 0%nat.
    split_and!; [lia|by apply (further_trans 0 0 s s1)|done|done]. }
  destruct st as [[why d]|]; [apply Hend, steady_stopped|]. rewrite !(mthen_run mget _ s1 s1 s1 eq_refl). destruct (broken (core s1)).
  { exists 0%nat. by split_and!; [lia| | |]. }
  destruct (Z.leb_spec (MaxTurns s1) (turns s1)) as [_|Hlt]; [apply Hend, steady_finish|].
  match goal with |- context [snd (?m s1)] => assert (H : advances m) end.
  { apply advances_bind; [apply (keeps_look (HW := same_turns_walks))|]. intros _. apply advances_bind; [by apply (keeps_get (HW := same_turns_walks))|]. intros s2.
    destruct (_ && _); [apply advances_end, steady_finish|]. destruct (Exhausted _ _); [apply advances_end, steady_finish|].
    apply advances_bind; [apply (keeps_delivery (HW := same_turns_walks))|]. intros [delivery woken].
    apply advances_bind; [apply (keeps_deliverNotices r (HW := same_turns_walks))|]. intros ok. destruct (negb ok); [apply advances_failed|].
    apply advances_bind; [apply steady_deliver|]. intros [n ok']. destruct (negb ok'); [apply advances_failed|].
    apply advances_bind; [apply (keeps_owner r (HW := same_turns_walks))|]. intros []; [apply advances_end, steady_finish|apply advances_begin]. }
  destruct (H s1 Hlt) as (k & Hk & Hf & Hr). exists k. split_and!; [done|by apply (further_trans 0 k s s1)| |done].
  intros _. destruct H0 as (E1 & E2 & _). lia.
Qed.

Lemma rounds_end fuel : ∀ s, (Z.to_nat (MaxTurns s - turns s) < fuel)%nat → ∃ k x, fst (rounds r fuel s) = Some x ∧
  further k s (snd (rounds r fuel s)) ∧ (turns s + Z.of_nat k ≤ Z.max (turns s) (MaxTurns s))%Z.
Proof using Hsched.
  induction fuel as [|fuel IH]; intros s Hf; [lia|]. cbn [rounds]. destruct (advances_round s) as (j & Hj & H1 & Hlt & Hr).
  unfold mthen. destruct (round r s) as [[x|u] s1]; cbn [fst snd] in *.
  - destruct x as [x|]; [|done]. exists j, x. split_and!; [done..|]. destruct j; [lia|]. specialize (Hlt ltac:(lia)). lia.
  - subst j. specialize (Hlt eq_refl). destruct H1 as (E1 & E2 & E3). destruct (IH s1) as (k & x & Ex & Hx & Hle); [lia|].
    exists (S k), x. split_and!; [done|by apply (further_trans 1 k s s1)|lia].
Qed.
End ending.

(** The record of an end. *)
Definition not_ended (e : run_event) : bool := match e with EvSessionEnded _ _ _ _ _ _ _ _ _ => false | _ => true end.
Definition end_of (e : run_event) : option (string * Z) := match e with EvSessionEnded reason n _ _ _ _ _ _ _ => Some (reason, n) | _ => None end.
Definition records (P : run_event → bool) (s s' : run_state) : Prop := adds (of_run P) (core s) (core s').
Lemma records_same P s s' : trace (core s') = trace (core s) → records P s s'.
Proof. intros E. exists []. by rewrite E, app_nil_r. Qed.
Lemma records_walks P : (∀ e, plain e = true → P e = true) → Walks P (records P).
Proof.
  intros HP. split; [split| | | | | | | |]; try done.
  - intros s. by apply records_same.
  - intros a b c H1 H2. unfold records in *. by etransitivity.
  - intros s s' E. injection E as Et _ _ _ _ _. by apply records_same.
  - intros s. unfold look. cbn. destruct (future (others s)); by apply records_same.
  - intros s ms _. by apply records_same.
  - intros s ms _. by apply records_same.
  - intros s n d. by apply records_same.
  - intros s. by apply records_same.
Qed.
Definition unended : run_state → run_state → Prop := records not_ended.
#[export] Instance unended_walks : Walks not_ended unended.
Proof. apply records_walks. by intros []. Qed.
Definition extends : run_state → run_state → Prop := records (λ _, true).
#[export] Instance extends_walks : Walks (λ _, true) extends.
Proof. by apply records_walks. Qed.

Definition ends_with (reason : string) (s s' : run_state) : Prop :=
  ∃ es e, trace (core s') = trace (core s) ++ es ++ [Recorded (EvOfRun e)] ∧ Forall (of_run not_ended) es ∧ end_of e = Some (reason, turns s').
Lemma unended_then reason s s1 s2 : unended s s1 → ends_with reason s1 s2 → ends_with reason s s2.
Proof.
  intros (es & E & F) (es' & e & E' & F' & He). exists (es ++ es'), e. rewrite E', E, !app_assoc. split_and!; [done|by apply Forall_app|done].
Qed.

(** Of how a run ended, what is recorded last. *)
Definition closes (x : string * bool) (s s' : run_state) : Prop :=
  let '(reason, failed) := x in
  if failed then reason = TermError ∧ (unended s s' ∨ ends_with TermError s s')
  else if String.eqb reason TermHandedOver then unended s s' else ends_with reason s s'.
Definition closing (m : R (option (string * bool) + unit)) : Prop :=
  ∀ s, match fst (m s) with inr _ => unended s (snd (m s)) | inl (Some x) => closes x s (snd (m s)) | inl None => True end.
Lemma unended_closes x s s1 s2 : unended s s1 → closes x s1 s2 → closes x s s2.
Proof.
  intros H. destruct x as [reason []]; cbn.
  - intros [-> [H1|H1]]; (split; [done|]); [left; by etransitivity|right; by eapply unended_then].
  - destruct (String.eqb _ _); [intros H1; by etransitivity|by apply unended_then].
Qed.
Lemma closing_bind {A} (m : R A) k : preserves unended m → (∀ a, closing (k a)) → closing (mthen m k).
Proof.
  intros Hm Hk s. unfold mthen. specialize (Hm s). destruct (m s) as [a s1]. cbn [snd] in Hm. specialize (Hk a s1).
  destruct (fst (k a s1)) as [[x|]|]; [by eapply unended_closes|done|by etransitivity].
Qed.

Section recorded.
Context (r : Runner) (Hsched : schedules_ok r) (Hstore : ∀ n e, Append (rn_loop r) n e = true).
Abbreviation open := (preserves unended).

(** A computation that ends the run for the reason it gives. *)
Definition finishes (m : R string) : Prop := ∀ s, closes (fst (m s), false) s (snd (m s)).
Definition finishes_as (reason : string) (m : R string) : Prop := ∀ s, fst (m s) = reason ∧ ends_with reason s (snd (m s)).
Lemma as_bind {A} reason (m : R A) k : open m → (∀ a, finishes_as reason (k a)) → finishes_as reason (mthen m k).
Proof.
  intros Hm Hk s. unfold mthen. specialize (Hm s). destruct (m s) as [a s1]. destruct (Hk a s1) as [E H]. split; [done|].
  by eapply unended_then.
Qed.
Lemma open_drop why : open (let! qs := takeSteering in drop_queued r why qs)%go.
Proof using. apply (taken_drop r (HW := unended_walks)); [intros s q; exists []; by rewrite app_nil_r|by intros []]. Qed.
Lemma open_deliver : open (deliverQueuedCount r).
Proof using. apply (taken_deliver r (HW := unended_walks)); [intros s q; exists []; by rewrite app_nil_r|by intros []]. Qed.
Lemma open_same f : (∀ s, trace (core (f s)) = trace (core s)) → open (mmodify f).
Proof. intros H s. exists []. cbn. by rewrite H, app_nil_r. Qed.

Lemma finishes_finish_as suggesting reason : finishes_as reason (finish_as r suggesting reason).
Proof using Hstore.
  unfold finish_as. apply as_bind; [destruct (String.eqb _ _); [apply open_drop|by apply (keeps_ret (HW := unended_walks))]|]. intros _.
  apply as_bind; [apply (keeps_look (HW := unended_walks))|]. intros _. apply as_bind; [by apply (keeps_get (HW := unended_walks))|]. intros s0.
  apply as_bind; [by apply open_same|]. intros _ s.
  unfold mthen, mget, set_details, mmodify, note, lift, record, Record_event, mthen, ask_tick. cbn. rewrite Hstore. cbn.
  split; [done|]. exists []. eexists. split_and!; [reflexivity|done|done].
Qed.
Lemma finishes_finish reason : reason ≠ TermHandedOver → finishes (AgentRun.finish r reason).
Proof using Hstore.
  intros Hr s. destruct (finishes_finish_as false reason s) as [E H]. unfold AgentRun.finish, closes. rewrite E. by destruct (String.eqb_spec reason TermHandedOver).
Qed.
Lemma finishes_bind {A} (m : R A) k : open m → (∀ a, finishes (k a)) → finishes (mthen m k).
Proof.
  intros Hm Hk s. unfold mthen. specialize (Hm s). destruct (m s) as [a s1]. eapply unended_closes; [exact Hm|apply Hk].
Qed.
Lemma finishes_handed : finishes (handedOver r).
Proof using.
  intros s. assert (E : fst (handedOver r s) = TermHandedOver).
  { unfold handedOver, mthen. destruct (takeSteering s) as [qs s1]. by destruct (drop_queued r _ qs s1). }
  rewrite E. apply (keeps_handedOver r (HW := unended_walks)), open_drop.
Qed.
Lemma finishes_stopped reason : finishes (finishStopped r reason).
Proof using Hstore.
  unfold finishStopped. apply finishes_bind; [by apply (keeps_get (HW := unended_walks))|]. intros s0.
  set (handing := match _ with Some _ => _ | None => _ end). destruct (String.eqb reason TermHandedOver && handing); [apply finishes_handed|].
  assert (Hr : (if String.eqb reason TermHandedOver then TermShutdown else reason) ≠ TermHandedOver) by (by destruct (String.eqb_spec reason TermHandedOver)).
  revert Hr. generalize (if String.eqb reason TermHandedOver then TermShutdown else reason) as reason'. intros reason' Hr.
  destruct (stop (others s0)) as [[why d]|]; [|by apply finishes_finish]. destruct why; try by apply finishes_finish.
  destruct (_ && _); [|by apply finishes_finish]. unfold with_end. apply finishes_bind; [by apply open_same|]. intros _ s.
  unfold mthen. pose proof (finishes_finish reason' Hr s) as H. destruct (AgentRun.finish r reason' s) as [x s1]. cbn [fst snd] in *. exact H.
Qed.
Lemma finishes_suggesting : finishes (finishSuggesting r).
Proof using Hstore.
  unfold finishSuggesting. apply finishes_bind; [apply (keeps_ask (HW := unended_walks))|]. intros n s.
  destruct (finishes_finish_as (rn_suggests r n) TermCompleted s) as [E H]. unfold closes. by rewrite E.
Qed.

Lemma closing_ended m : finishes m → closing (ended m).
Proof. intros H s. unfold ended, mthen. specialize (H s). by destruct (m s). Qed.
Lemma closing_failed : closing failed.
Proof. intros s. split; [done|]. left. exists []. by rewrite app_nil_r. Qed.
Lemma closing_again : closing again.
Proof. intros s. exists []. by rewrite app_nil_r. Qed.
Lemma closing_fails : closing (fails_after_finish r).
Proof using Hstore.
  intros s. unfold fails_after_finish, mthen. destruct (finishes_finish_as false TermError s) as [_ H]. unfold AgentRun.finish.
  destruct (finish_as r false TermError s) as [x s1]. split; [done|]. by right.
Qed.
Hint Resolve finishes_stopped finishes_suggesting closing_ended closing_failed closing_again closing_fails : closing.

Lemma closing_settle reason : closing (settle_answer r reason).
Proof using Hstore.
  unfold settle_answer. destruct (String.eqb _ _); [|auto with closing]. apply closing_bind; [apply (keeps_check r (HW := unended_walks))|].
  intros [revise end_]. destruct revise; [auto with closing|]. destruct (String.eqb end_ _); auto with closing.
Qed.
(** Waiting: the run goes on with what there is, ends, or there is nothing more. *)
Definition waiting_for (m : R (option (option (string * bool) + unit))) : Prop :=
  ∀ s, match fst (m s) with Some (inl (Some x)) => closes x s (snd (m s)) | Some (inl None) => True | _ => unended s (snd (m s)) end.
Lemma waiting_bind {A} (m : R A) k : open m → (∀ a, waiting_for (k a)) → waiting_for (mthen m k).
Proof.
  intros Hm Hk s. unfold mthen. specialize (Hm s). destruct (m s) as [a s1]. cbn [snd] in Hm. specialize (Hk a s1).
  destruct (fst (k a s1)) as [[[x|]|]|]; [by eapply unended_closes|done|by etransitivity|by etransitivity].
Qed.
Lemma waiting_some m : closing m → waiting_for (let! x := m in mreturn (Some x))%go.
Proof. intros H s. unfold mthen. specialize (H s). by destruct (m s) as [[[x|]|] s1]. Qed.
Lemma waiting_rounds fuel : waiting_for (wait_rounds r fuel).
Proof using Hstore.
  induction fuel as [|fuel IH]; cbn [wait_rounds]; [intros s; exists []; by rewrite app_nil_r|].
  apply waiting_bind; [apply (keeps_waitBackground (HW := unended_walks))|]. intros work. destruct (negb work); [intros s; exists []; by rewrite app_nil_r|].
  apply waiting_bind; [apply (keeps_moreForTheModel r (HW := unended_walks)), open_deliver|]. intros [got ok].
  destruct (negb ok); [apply waiting_some, closing_fails|]. destruct got; [apply waiting_some, closing_again|done].
Qed.
Lemma closing_wait_then reason : closing (wait_then_settle r reason).
Proof using Hstore.
  unfold wait_then_settle. apply closing_bind; [by apply (keeps_get (HW := unended_walks))|]. intros s0. destruct (_ && _); [|apply closing_settle].
  intros s. unfold mthen. pose proof (waiting_rounds (S (S (length (future (others s))))) s) as H. unfold wait_joined.
  destruct (wait_rounds r _ s) as [[[[x|]|]|] s1]; cbn [fst snd] in *; try done.
  pose proof (keeps_stop (HW := unended_walks) s1) as H1. destruct (ctx_stop s1) as [st s2]. cbn [snd] in H1.
  destruct (is_stopped st); [cbn; by etransitivity|]. pose proof (closing_settle reason s2) as H2.
  destruct (settle_answer r reason s2) as [[[x|]|] s3]; cbn [fst snd] in *; [|done|]; [eapply unended_closes; [|exact H2]|etransitivity; [|exact H2]]; by etransitivity.
Qed.
Lemma closing_turn_done reason : closing (turn_done r reason).
Proof using Hstore.
  unfold turn_done. apply closing_bind; [destruct (String.eqb _ _); [apply (keeps_work (HW := unended_walks))|by apply (keeps_ret (HW := unended_walks))]|].
  intros []; [|apply closing_wait_then]. apply closing_bind; [apply (keeps_moreForTheModel r (HW := unended_walks)), open_deliver|].
  intros [got ok]. destruct (negb ok); [apply closing_fails|]. destruct got; [apply closing_again|apply closing_wait_then].
Qed.
Lemma closing_begin : closing (begin_turn r).
Proof using Hstore Hsched.
  unfold begin_turn. apply closing_bind; [by apply open_same|]. intros _. apply closing_bind; [apply (keeps_offload r (HW := unended_walks))|]. intros _.
  apply closing_bind; [apply (keeps_compact r (HW := unended_walks))|]. intros _.
  apply closing_bind; [apply (keeps_turn r Hsched (HW := unended_walks)); intros s; exists []; by rewrite app_nil_r|].
  intros [|reason|err]; [apply closing_again|apply closing_turn_done|apply closing_fails].
Qed.
Lemma closing_finish reason : String.eqb reason TermHandedOver = false → closing (ended (AgentRun.finish r reason)).
Proof using Hstore. intros H. apply closing_ended, finishes_finish. by apply String.eqb_neq. Qed.
Lemma closing_round : closing (round r).
Proof using Hstore Hsched.
  unfold round. apply closing_bind; [apply (keeps_stop (HW := unended_walks))|]. intros [[why d]|]; [auto with closing|].
  apply closing_bind; [by apply (keeps_get (HW := unended_walks))|]. intros s0. destruct (broken (core s0)); [apply closing_failed|].
  destruct (_ <=? _)%Z; [by apply closing_finish|]. apply closing_bind; [apply (keeps_look (HW := unended_walks))|]. intros _.
  apply closing_bind; [by apply (keeps_get (HW := unended_walks))|]. intros s1. destruct (_ && _); [by apply closing_finish|].
  destruct (Exhausted _ _); [by apply closing_finish|]. apply closing_bind; [apply (keeps_delivery (HW := unended_walks))|]. intros [delivery woken].
  apply closing_bind; [apply (keeps_deliverNotices r (HW := unended_walks))|]. intros ok. destruct (negb ok); [apply closing_failed|].
  apply closing_bind; [apply open_deliver|]. intros [n ok']. destruct (negb ok'); [apply closing_failed|].
  apply closing_bind; [apply (keeps_owner r (HW := unended_walks))|]. intros []; [by apply closing_finish|apply closing_begin].
Qed.
Lemma closing_rounds fuel : ∀ s, match fst (rounds r fuel s) with Some x => closes x s (snd (rounds r fuel s)) | None => True end.
Proof using Hstore Hsched.
  induction fuel as [|fuel IH]; intros s; cbn [rounds]; [done|]. unfold mthen. pose proof (closing_round s) as H.
  destruct (round r s) as [[[x|]|] s1]; cbn [fst snd] in *; [done|done|]. specialize (IH s1). destruct (fst (rounds r fuel s1)); [by eapply unended_closes|done].
Qed.
End recorded.

(** C7: A run ends, whatever the model answers and whatever comes in while it goes on:
    it returns a reason, after no more turns than it has left, one request a
    turn. While the store takes every event, session.ended with that reason and the
    turns taken is recorded once, last of all, except that a run that moves to another
    process records no end, and one that fails ends as an error or without an end. *)
Theorem run_ends r s : schedules_ok r →
  ∃ k x, fst (run r s) = Some x ∧ further k s (snd (run r s)) ∧ (turns s + Z.of_nat k ≤ Z.max (turns s) (MaxTurns s))%Z ∧
    ((∀ n e, Append (rn_loop r) n e = true) → closes x s (snd (run r s))).
Proof.
  intros Hsched. set (s1 := set_revised false (set_others (with_notices (deferred (others s) ++ notices (others s)) [] (others s)) s)).
  assert (E0 : run r s = rounds r (round_bound s1) s1) by reflexivity. rewrite E0.
  destruct (rounds_end r Hsched (round_bound s1) s1) as (k & x & E & Hk & Hle).
  { unfold round_bound. lia. }
  exists k, x. split_and!; [done|exact Hk|exact Hle|]. intros Hstore. pose proof (closing_rounds r Hsched Hstore (round_bound s1) s1) as H. rewrite E in H. exact H.
Qed.

(** ** Queued messages *)

(** The queued messages a record settles, as delivered or dropped; a prompt of a
    run's own has no id. *)
Definition settles (e : run_event) : option string :=
  match e with
  | EvUserMessage _ id _ _ _ | EvMessageDropped id _ _ _ => if String.eqb id "" then None else Some id
  | _ => None
  end.
Definition settled_ids (t : list entry) : list string := omap (λ x, match x with Recorded (EvOfRun e) => settles e | _ => None end) t.
(** Those queued and not yet taken, and those that are queued while the run goes on. *)
Definition waiting (o : shared) : list string := map qm_ID (steer o ++ concat (map bt_queued (future o))).

(** No message is taken back, and each has an id, as [QueueMessage] gives it. *)
Definition queue_ok (o : shared) : Prop := Forall (λ b, bt_unqueued b = []) (future o) ∧ Forall (λ id, id ≠ "") (waiting o).

Definition conserves (s s' : run_state) : Prop := queue_ok (others s) →
  queue_ok (others s') ∧ settled_ids (trace (core s')) ++ waiting (others s') = settled_ids (trace (core s)) ++ waiting (others s).
Definition unsettling (e : run_event) : bool := negb (opt_some (settles e)).

Lemma settled_app a b : settled_ids (a ++ b) = settled_ids a ++ settled_ids b.
Proof. apply omap_app. Qed.
Lemma conserves_same s s' : settled_ids (trace (core s')) = settled_ids (trace (core s)) → waiting (others s') = waiting (others s) →
  future (others s') = future (others s) → conserves s s'.
Proof. intros Et Ew Ef [H1 H2]. unfold queue_ok. by rewrite Et, Ew, Ef. Qed.

Lemma filter_keeps_all {A} (p : A → bool) l : (∀ x, p x = true) → List.filter p l = l.
Proof. intros H. induction l as [|x l IH]; cbn; [done|]. by rewrite H, IH. Qed.
#[export] Instance conserves_walks : Walks unsettling conserves.
Proof.
  split; [split| | | | | | | |]; try done.
  - intros a b c H1 H2 Ha. destruct (H1 Ha) as [Hb E1]. destruct (H2 Hb) as [Hc E2]. split; [done|by rewrite E2].
  - by intros [].
  - intros s s' E. injection E as Et Eo _ _ _ _. apply conserves_same; by rewrite ?Et, ?Eo.
  - intros s c (es & E & F). apply conserves_same; [|done..]. cbn. rewrite E, settled_app. replace (settled_ids es) with (@nil string); [apply app_nil_r|].
    symmetry. clear E. unfold settled_ids. induction F as [|x es Hx F IH]; [done|]. destruct x as [[e| | | | | | | | | |]| |]; cbn; try exact IH.
    cbn in Hx. unfold unsettling in Hx. by destruct (settles e).
  - intros s. unfold look. cbn. destruct (future (others s)) as [|b rest] eqn:E; [by apply conserves_same|]. intros [H1 H2].
    rewrite E in H1. apply Forall_cons in H1 as [Hb H1]. cbn [set_others others core].
    assert (Ew : waiting (apply_batch b rest (others s)) = waiting (others s)).
    { unfold waiting. cbn. rewrite E, Hb, filter_keeps_all by done. cbn. by rewrite <- app_assoc. }
    rewrite Ew. split; [|done]. split; [exact H1|by rewrite Ew].
Qed.

Section queue.
Context (r : Runner) (Hsched : schedules_ok r) (Hstore : ∀ n e, Append (rn_loop r) n e = true).

(** A computation that settles just these messages and leaves the queue. *)
Definition settling {A} (qs : list QueuedMessage) (m : R A) : Prop :=
  ∀ s, others (snd (m s)) = others s ∧ settled_ids (trace (core (snd (m s)))) = settled_ids (trace (core s)) ++ map qm_ID qs.
Lemma settling_bind {A B} qs qs' (m : R A) (k : A → R B) : settling qs m → (∀ a, settling qs' (k a)) → settling (qs ++ qs') (mthen m k).
Proof.
  intros Hm Hk s. unfold mthen. destruct (Hm s) as [E1 E2]. destruct (m s) as [a s1]. cbn [snd] in *. destruct (Hk a s1) as [E3 E4].
  by rewrite E3, E4, E1, E2, map_app, app_assoc.
Qed.
Lemma settling_none {A} (m : R A) : (∀ s, others (snd (m s)) = others s ∧ trace (core (snd (m s))) = trace (core s)) → settling [] m.
Proof. intros H s. destruct (H s) as [-> ->]. by rewrite app_nil_r. Qed.
Lemma settling_after {A B} qs (m : R A) (k : A → R B) : settling [] m → (∀ a, settling qs (k a)) → settling qs (mthen m k).
Proof. apply (settling_bind [] qs). Qed.
Lemma settling_before {A B} qs (m : R A) (k : A → R B) : settling qs m → (∀ a, settling [] (k a)) → settling qs (mthen m k).
Proof. intros Hm Hk. rewrite <- (app_nil_r qs). by apply settling_bind. Qed.
Lemma settling_note q e : settles e = Some (qm_ID q) → settling [q] (note r e).
Proof using Hstore.
  intros He s. unfold note, lift, record, Record_event, mthen, ask_tick. rewrite Hstore. cbn. split; [done|]. by rewrite settled_app; cbn; rewrite He.
Qed.
Lemma settling_try q e : settles e = Some (qm_ID q) → ∀ s, fst (try_record r e s) = true ∧
  others (snd (try_record r e s)) = others s ∧ settled_ids (trace (core (snd (try_record r e s)))) = settled_ids (trace (core s)) ++ [qm_ID q].
Proof using Hstore.
  intros He s. unfold try_record, lift, Record_event, mthen, ask_tick. rewrite Hstore. cbn. split_and!; [done..|]. by rewrite settled_app; cbn; rewrite He.
Qed.
Lemma settles_named id a b c d : id ≠ "" → settles (EvUserMessage a id b c d) = Some id ∧ settles (EvMessageDropped id a b d) = Some id.
Proof. intros H. cbn. by destruct (String.eqb_spec id ""). Qed.

Lemma settling_deliver qs : Forall (λ q, qm_ID q ≠ "") qs → settling qs (deliver r qs).
Proof using Hstore.
  induction 1 as [|q qs Hq Hqs IH]; cbn [deliver]; [by apply settling_none|]. apply settling_after.
  { unfold promptRefused. destruct (rn_PromptSubmitted r); by apply settling_none. }
  intros why. destruct (negb (String.eqb why "")).
  { apply (settling_bind [q] qs); [apply settling_note, (settles_named _ _ _ false _), Hq|done]. }
  destruct (withholdSecrets r (qm_Text q)) as [text withheld]. intros s.
  destruct (settling_try q (EvUserMessage text (qm_ID q) (qm_ClientID q) (qm_Steered q) withheld) (proj1 (settles_named _ _ _ _ _ Hq)) s) as (E1 & E2 & E3).
  destruct (try_record r _ s) as [ok s1] eqn:Et. rewrite !(mthen_run _ _ _ _ _ Et). cbn [fst snd] in *. subst ok. cbn [negb].
  match goal with |- others (snd (?m s1)) = _ ∧ _ => assert (H : settling qs m) end.
  { apply settling_after; [by apply settling_none|]. intros _. apply settling_after; [by apply settling_none|]. intros _.
    apply settling_after; [by apply settling_none|]. intros _. apply settling_before; [done|]. intros [n ok]. by apply settling_none. }
  destruct (H s1) as [E4 E5]. split; [etransitivity; [exact E4|exact E2]|]. etransitivity; [exact E5|]. rewrite E3. cbn. by rewrite <- app_assoc.
Qed.
Lemma settling_drop why qs : Forall (λ q, qm_ID q ≠ "") qs → settling qs (drop_queued r why qs).
Proof using Hstore.
  induction 1 as [|q qs Hq Hqs IH]; cbn [drop_queued]; [by apply settling_none|].
  apply (settling_bind [q] qs); [apply settling_note, (settles_named _ _ _ false _), Hq|done].
Qed.

(** Taking the queue and settling all of it. *)
Lemma conserves_taken {A} (k : list QueuedMessage → R A) : (∀ qs, Forall (λ q, qm_ID q ≠ "") qs → settling qs (k qs)) →
  preserves conserves (mthen takeSteering k).
Proof.
  intros Hk. change (preserves conserves (mthen look (λ _ s1, k (steer (others s1)) (set_others (with_steer [] (others s1)) s1)))).
  refine (walk_bind _ _ _ _ _); [apply (keeps_look (HW := conserves_walks))|]. intros _ s1 [H1 H2].
  set (s2 := set_others _ s1). unfold waiting in H2. rewrite map_app in H2. apply Forall_app in H2 as [Hs Hf].
  destruct (Hk (steer (others s1))) with (s := s2) as [E1 E2]; [clear - Hs; induction (steer (others s1)) as [|q qs IH]; [constructor|]; apply Forall_cons in Hs as [Hq Hs]; constructor; auto|]. rewrite E1, E2.
  split; [split; [exact H1|exact Hf]|]. unfold s2, waiting. cbn. by rewrite map_app, <- app_assoc.
Qed.
Lemma conserves_start x : preserves conserves (start r x).
Proof using Hsched Hstore.
  assert (Hd : preserves conserves (deliverQueuedCount r)) by (apply conserves_taken, settling_deliver).
  assert (Hq : ∀ why, preserves conserves (let! qs := takeSteering in drop_queued r why qs)%go) by (intros why; apply conserves_taken, settling_drop).
  assert (He : ∀ reason suggesting s, preserves conserves (note r (endPayload r reason suggesting s))) by (intros; by apply (keeps_note r (HW := conserves_walks))).
  destruct x; cbn [start]; [apply (keeps_RunMessage r Hsched (HW := conserves_walks))|apply (keeps_RunQueued r Hsched (HW := conserves_walks))
    |apply (keeps_RunWoken r Hsched (HW := conserves_walks))]; try done; intros; by apply conserves_same.
Qed.
End queue.

(** C8: While the store takes every event and no message is withdrawn, no message a
    person queues is lost, doubled or reordered, however a run starts, goes on and
    ends: those the record settles, as delivered or dropped, and then those that still
    wait, are those it had settled and those that were waiting or were queued
    meanwhile, in the order they were queued. When the store refuses a delivery a
    message can be lost ([failed_delivery_loses_queue]). *)
Theorem queue_settled_in_order r x s : schedules_ok r → (∀ n e, Append (rn_loop r) n e = true) → queue_ok (others s) →
  ∃ told, settled_ids (trace (core (snd (start r x s)))) = settled_ids (trace (core s)) ++ told ∧
    told ++ waiting (others (snd (start r x s))) = waiting (others s).
Proof.
  intros Hsched Hstore Hok. destruct (conserves_start r Hsched Hstore x s Hok) as [_ H].
  assert (Hmore : ∃ es, trace (core (snd (start r x s))) = trace (core s) ++ es).
  { destruct (unminding_start (Q := extends) r Hsched) with (x := x) (w := s) as (es & E & _); [..|by exists es]; intros; by apply records_same. }
  destruct Hmore as (es & E). exists (settled_ids es). rewrite E, settled_app in *. split; [done|]. rewrite <- app_assoc in H. by apply app_inv_head in H.
Qed.

(** ** A reply as it streams *)

(** The text let out of a reply, and of its reasoning. *)
Definition said_of (x : entry) : string := match x with Recorded (EvOfRun (EvAgentDelta t _)) => t | _ => "" end.
Definition thought_of (x : entry) : string := match x with Recorded (EvOfRun (EvAgentReasoningDelta t _)) => t | _ => "" end.
Definition joined_up (f : entry → string) (t : list entry) : string := foldr (λ x out, (f x ++ out)%string) "" t.
Lemma joined_snoc f t x : joined_up f (t ++ [x]) = (joined_up f t ++ f x)%string.
Proof. unfold joined_up. induction t as [|y t IH]; cbn; [apply str_app_nil_r|]. by rewrite IH, str_app_assoc. Qed.

(** The text of a reply, and of its reasoning. *)
Definition text_part (p : part) : string := match p with PartText t => t | _ => "" end.
Definition reasoning_part (p : part) : string := match p with PartReasoning t => t | _ => "" end.
Definition whole (f : part → string) (ps : list part) : string := foldr (λ p out, (f p ++ out)%string) "" ps.

Section stream.
Context (r : Runner) (red : Redactor) (Hred : rn_redactor r = Some red) (Hs : streamable red) (Ht : textual red).
Context (Hstore : ∀ n e, Append (rn_loop r) n e = true).
Abbreviation plainly := (replace_go (pairs red) 0).

(** A buffer with what waits to be pushed stands, with what was let out, for the
    whole that came. *)
Definition stands (b : fragmentBuffer) (pending came out : string) : Prop :=
  ∃ carry, b = buffer red carry ∧ valid carry ∧ (Span red = 0%nat → carry = "") ∧ valid pending ∧ valid came ∧
    ∀ X, plainly (came ++ X)%string = (out ++ plainly (carry ++ pending ++ X))%string.
Lemma stands_start : stands (fragments (Some red)) "" "" "".
Proof. exists "". by split_and!. Qed.
Lemma stands_more b pending came out t : valid t → stands b pending came out → stands b (pending ++ t) (came ++ t) out.
Proof.
  intros Hv (carry & -> & Hc & H0 & Hp & Hw & HX). exists carry. split_and!; [done..| | |].
  - unfold valid. by rewrite valid_app.
  - unfold valid. by rewrite valid_app.
  - intros X. by rewrite !str_app_assoc, HX.
Qed.
Lemma stands_push b pending came out : stands b pending came out →
  stands (snd (Secrets.push pending b)) "" came (out ++ fst (Secrets.push pending b)).
Proof using Hs Ht.
  intros (carry & -> & Hc & H0 & Hp & Hw & HX). destruct (push_stands red Hs Ht carry pending Hc Hp H0) as (x & k & -> & Hk & Hk0 & HX').
  exists k. split_and!; [done..|]. intros X. rewrite HX, str_app_assoc. by rewrite <- HX', str_app_assoc.
Qed.
Lemma stands_flush b came out : stands b "" came out → (out ++ Secrets.flush b)%string = redactedText (Redact red) came.
Proof using Hs Ht.
  intros (carry & -> & Hc & H0 & _ & Hw & HX). rewrite redactedText_replace by done. specialize (HX ""). rewrite str_app_nil_r in HX. rewrite HX. f_equal.
  change ("" ++ "")%string with "". rewrite str_app_nil_r.
  pose proof (pushes_stand red Hs Ht [] carry (Forall_nil_2 _) Hc H0) as E. cbn in E. by rewrite str_app_nil_r in E.
Qed.

Lemma note_state e s : others (snd (note r e s)) = others s ∧ trace (core (snd (note r e s))) = trace (core s) ++ [Recorded (EvOfRun e)].
Proof using Hstore. unfold note, lift, record, Record_event, mthen, ask_tick. by rewrite Hstore. Qed.

(** What was heard, and what the record shows of it since [base]. *)
Definition shown (base : list entry) (h : heard) (s : run_state) : Prop :=
  ∃ es, trace (core s) = base ++ es ∧ stands (h_deltas h) (h_pending h) (h_text h) (joined_up said_of es) ∧
    stands (h_thoughts h) (h_thinking h) (h_reasoning h) (joined_up thought_of es).
Definition shows (base : list entry) (h : heard) (m : R heard) : Prop := ∀ s, shown base h s → shown base (fst (m s)) (snd (m s)).
Lemma shows_pending base h : shows base h (push_pending r false h).
Proof using Hs Ht Hstore.
  intros s (es & E & H1 & H2). unfold push_pending. pose proof (stands_push _ _ _ _ H1) as H. destruct (Secrets.push (h_pending h) (h_deltas h)) as [out b].
  cbn [fst snd] in H. unfold emit_delta. destruct (String.eqb_spec out "") as [->|_].
  - exists es. rewrite str_app_nil_r in H. by split_and!.
  - unfold mthen. set (e := EvAgentDelta _ _). destruct (note_state e s) as [_ E']. destruct (note r e s) as [u s1]. unfold mreturn. cbn [fst snd] in *.
    exists (es ++ [Recorded (EvOfRun e)]). rewrite E', E, app_assoc, !joined_snoc. cbn. rewrite str_app_nil_r. by split_and!.
Qed.
Lemma shows_thinking base h : shows base h (flushThinking r false h).
Proof using Hs Ht Hstore.
  intros s (es & E & H1 & H2). unfold flushThinking. pose proof (stands_push _ _ _ _ H2) as H. destruct (Secrets.push (h_thinking h) (h_thoughts h)) as [out b].
  cbn [fst snd] in H. destruct (String.eqb_spec out "") as [->|_].
  - exists es. rewrite str_app_nil_r in H. by split_and!.
  - unfold mthen. set (e := EvAgentReasoningDelta _ _). destruct (note_state e s) as [_ E']. destruct (note r e s) as [u s1]. unfold mreturn. cbn [fst snd] in *.
    exists (es ++ [Recorded (EvOfRun e)]). rewrite E', E, app_assoc, !joined_snoc. cbn. rewrite str_app_nil_r. by split_and!.
Qed.
Lemma shown_same base h s s' : trace (core s') = trace (core s) → shown base h s → shown base h s'.
Proof. intros E (es & E' & H). exists es. by rewrite E. Qed.
Lemma heard_thinking final h s : let h' := fst (flushThinking r final h s) in
  h_text h' = h_text h ∧ h_pending h' = h_pending h ∧ h_deltas h' = h_deltas h ∧ h_reasoning h' = h_reasoning h.
Proof. unfold flushThinking. destruct (Secrets.push _ _) as [out b]. unfold mthen. by destruct (String.eqb _ _); [|destruct (note r _ s)]. Qed.
Lemma heard_pending final h s : let h' := fst (push_pending r final h s) in h_text h' = h_text h ∧ h_reasoning h' = h_reasoning h.
Proof. unfold push_pending, emit_delta. destruct (Secrets.push _ _) as [out b]. unfold mthen. by destruct (String.eqb _ _); [|destruct (note r _ s)]. Qed.

(** A computation after which [w] of the reply and [v] of the reasoning were heard,
    and what is shown stands for them. *)
Definition tells (base : list entry) (w v : string) (h : heard) (s : run_state) : Prop := shown base h s ∧ h_text h = w ∧ h_reasoning h = v.
Definition leads (base : list entry) (Pre : run_state → Prop) (m : R heard) (w v : string) : Prop :=
  ∀ s, Pre s → tells base w v (fst (m s)) (snd (m s)).
Lemma leads_bind base Pre m k w v w' v' : leads base Pre m w v → (∀ h, leads base (tells base w v h) (k h) w' v') → leads base Pre (mthen m k) w' v'.
Proof. intros Hm Hk s H. unfold mthen. specialize (Hm s H). destruct (m s) as [h s1]. by apply Hk. Qed.
Lemma leads_after {A} base (m : R A) k h w v w' v' : (∀ s, trace (core (snd (m s))) = trace (core s)) →
  (∀ a, leads base (tells base w v h) (k a) w' v') → leads base (tells base w v h) (mthen m k) w' v'.
Proof.
  intros Hm Hk s (H & E1 & E2). unfold mthen. specialize (Hm s). destruct (m s) as [a s1]. apply Hk. split_and!; [by eapply shown_same|done..].
Qed.
Lemma leads_ret base h w v : leads base (tells base w v h) (mreturn h) w v.
Proof. by intros s H. Qed.
Lemma leads_pending base h w v : leads base (tells base w v h) (push_pending r false h) w v.
Proof using Hs Ht Hstore.
  intros s (H & <- & <-). destruct (heard_pending false h s) as [E1 E2]. split_and!; [by apply shows_pending|done..].
Qed.
Lemma leads_thinking base h w v : leads base (tells base w v h) (flushThinking r false h) w v.
Proof using Hs Ht Hstore.
  intros s (H & <- & <-). destruct (heard_thinking false h s) as (E1 & _ & _ & E2). split_and!; [by apply shows_thinking|done..].
Qed.

Lemma leads_hear base p h w v : valid (text_part p) → valid (reasoning_part p) →
  leads base (tells base w v h) (hear r p h) (w ++ text_part p) (v ++ reasoning_part p).
Proof using Hs Ht Hstore.
  intros Hv1 Hv2. destruct p as [t|t|c|e timed|[[[inn out] cached]|]]; cbn [hear text_part reasoning_part] in *; rewrite ?str_app_nil_r.
  - eapply leads_bind; [destruct (String.eqb _ _); [apply leads_ret|apply leads_thinking]|]. intros g s ((es & E & H1 & H2) & <- & <-).
    set (g' := MkHeard _ _ _ _ _ _ _ _ _ _ _). refine ((_ : leads base (tells base (h_text g') (h_reasoning g) g') _ _ _) s _).
    + apply leads_after; [done|]. intros n. destruct (_ || _); [apply leads_pending|apply leads_ret].
    + split_and!; [|done|done]. exists es. split_and!; [done|by apply stands_more|done].
  - set (g' := MkHeard _ _ _ _ _ _ _ _ _ _ _). intros s ((es & E & H1 & H2) & <- & <-).
    refine ((_ : leads base (tells base (h_text h) (h_reasoning g') g') _ _ _) s _).
    + apply leads_after; [done|]. intros n. destruct (_ || _); [apply leads_thinking|apply leads_ret].
    + split_and!; [|done|done]. exists es. split_and!; [done|done|by apply stands_more].
  - apply leads_after; [intros s; unfold withCallID; by destruct (_ || _)|]. intros c'. intros s (H & <- & <-). by split_and!.
  - intros s (H & <- & <-). by split_and!.
  - apply leads_after; [done|]. intros _ s (H & <- & <-). by split_and!.
  - apply leads_ret.
Qed.
Lemma leads_hear_all base ps : ∀ h w v, Forall (λ p, valid (text_part p) ∧ valid (reasoning_part p)) ps →
  leads base (tells base w v h) (hear_all r ps h) (w ++ whole text_part ps) (v ++ whole reasoning_part ps).
Proof using Hs Ht Hstore.
  induction ps as [|p ps IH]; intros h w v Hv; cbn [hear_all whole foldr].
  - rewrite !str_app_nil_r. apply leads_ret.
  - apply Forall_cons in Hv as [[H1 H2] Hv]. eapply leads_bind; [by apply leads_hear|]. intros g. rewrite <- !str_app_assoc. by apply IH.
Qed.

(** The end of the stream: what was held back is let out. *)
Lemma shown_ends base h s : shown base h s → let x := (let! h := flushThinking r true h in push_pending r true h)%go s in
  ∃ es, trace (core (snd x)) = base ++ es ∧ joined_up said_of es = redactedText (Redact red) (h_text h) ∧
    joined_up thought_of es = redactedText (Redact red) (h_reasoning h).
Proof using Hs Ht Hstore.
  intros (es & E & H1 & H2). cbn zeta.
  assert (Hq : ∃ g s1 es1, flushThinking r true h s = (g, s1) ∧ trace (core s1) = base ++ es1 ∧ h_text g = h_text h ∧ h_pending g = h_pending h ∧ h_deltas g = h_deltas h ∧
    joined_up said_of es1 = joined_up said_of es ∧ joined_up thought_of es1 = redactedText (Redact red) (h_reasoning h)).
  { unfold flushThinking. pose proof (stands_push _ _ _ _ H2) as H. destruct (Secrets.push (h_thinking h) (h_thoughts h)) as [out b]. cbn [fst snd] in H.
    pose proof (stands_flush _ _ _ H) as Hf. rewrite str_app_assoc in Hf. destruct (String.eqb_spec (out ++ Secrets.flush b) "") as [E0|_].
    - eexists _, _, es. split_and!; [reflexivity|done..|]. by rewrite E0, str_app_nil_r in Hf.
    - unfold mthen. set (e := EvAgentReasoningDelta _ _). destruct (note_state e s) as [_ E']. destruct (note r e s) as [u s1]. cbn [fst snd] in E'.
      eexists _, s1, (es ++ [Recorded (EvOfRun e)]). split_and!; [reflexivity|by rewrite E', E, app_assoc|done..|by rewrite joined_snoc; cbn; rewrite str_app_nil_r|].
      by rewrite joined_snoc. }
  destruct Hq as (g & s1 & es1 & Eq & E1 & Et & Ep & Ed & Es & Eth). rewrite (mthen_run _ _ _ _ _ Eq). unfold push_pending. rewrite Ep, Ed.
  pose proof (stands_push _ _ _ _ H1) as H. destruct (Secrets.push (h_pending h) (h_deltas h)) as [out b]. cbn [fst snd] in H.
  pose proof (stands_flush _ _ _ H) as Hf. rewrite str_app_assoc in Hf. unfold emit_delta. destruct (String.eqb_spec (out ++ Secrets.flush b) "") as [E0|_].
  - exists es1. split_and!; [done| |done]. by rewrite E0, str_app_nil_r, <- Es in Hf.
  - unfold mthen. set (e := EvAgentDelta _ _). destruct (note_state e s1) as [_ E']. destruct (note r e s1) as [u s2]. cbn [fst snd] in E'.
    exists (es1 ++ [Recorded (EvOfRun e)]). split_and!; [unfold mreturn; cbn [snd]; by rewrite E', E1, app_assoc|by rewrite joined_snoc, Es|].
    rewrite joined_snoc. cbn. by rewrite str_app_nil_r.
Qed.
End stream.

(** C25: With one redactor for the turn whose values are [streamable] (no form looked
    for starts with a bracket, is longer than the first one or begins another form of
    its own value) and [textual], parts in UTF-8 and a store that takes every delta: a
    reply as it streams shows, fragment after fragment, exactly what the whole reply
    shows when it is redacted whole, and so does its reasoning, however the model splits
    them, when the clock lets a fragment out and wherever such a value falls across
    parts: the deltas the record holds of the turn join up to the redacted texts. *)
Theorem reply_streams_redacted r red ps s : rn_redactor r = Some red → streamable red → textual red →
  (∀ n e, Append (rn_loop r) n e = true) → Forall (λ p, valid (text_part p) ∧ valid (reasoning_part p)) ps →
  ∃ es, trace (core (snd (listen r ps s))) = trace (core s) ++ es ∧
    joined_up said_of es = redactedText (Redact red) (whole text_part ps) ∧
    joined_up thought_of es = redactedText (Redact red) (whole reasoning_part ps).
Proof.
  intros Hred Hs Ht Hstore Hv. assert (H0 : shown red (trace (core s)) (nothing_heard r) s).
  { exists []. rewrite app_nil_r. unfold nothing_heard. rewrite Hred. split_and!; [done|by apply stands_start..]. }
  unfold listen. pose proof (leads_hear_all r red Hs Ht Hstore (trace (core s)) ps (nothing_heard r) "" "" Hv s) as H.
  destruct H as (H & E1 & E2); [split_and!; [done|by unfold nothing_heard..]|].
  unfold mthen at 1. destruct (hear_all r ps (nothing_heard r) s) as [h s1]. cbn [fst snd] in *.
  destruct (shown_ends r red Hs Ht Hstore _ _ _ H) as (es & E & Es & Eth). exists es. rewrite Es, Eth, E1, E2. by split_and!.
Qed.

(** ** The bounds of the inner loops

    Each round but the last takes a batch, so the bounds they are run with are
    never short: more rounds come to the same. *)

Section bounds.
Context (r : Runner).
Abbreviation ahead s := (length (future (others s))).
Definition idle (s : run_state) : Prop := steer (others s) = [] ∧ notices (others s) = [].

Lemma look_at_end s : future (others s) = [] → snd (look s) = s.
Proof. intros E. unfold look. cbn. by rewrite E. Qed.
Lemma look_ahead s : ahead (snd (look s)) = pred (ahead s).
Proof. unfold look. cbn. destruct (future (others s)) eqn:E; cbn; by rewrite ?E. Qed.
Lemma note_others e s : others (snd (note r e s)) = others s.
Proof. unfold note, lift. by destruct (record _ _ _). Qed.
Lemma refused_others text s : others (snd (promptRefused r text s)) = others s.
Proof. unfold promptRefused. by destruct (rn_PromptSubmitted r). Qed.
Lemma deliver_others qs : ∀ s, others (snd (deliver r qs s)) = others s.
Proof.
  induction qs as [|q qs IH]; intros s; cbn [deliver]; [done|]. unfold mthen at 1. pose proof (refused_others (qm_Text q) s) as E1.
  destruct (promptRefused r (qm_Text q) s) as [why s1]. cbn [snd] in E1. destruct (negb (String.eqb why "")).
  - unfold mthen. set (e := EvMessageDropped _ _ _ _). pose proof (note_others e s1) as E2. destruct (note r e s1) as [u s2]. cbn [snd] in E2. by rewrite IH, E2.
  - destruct (withholdSecrets r (qm_Text q)) as [text withheld]. unfold mthen. set (e := EvUserMessage _ _ _ _ _).
    assert (E2 : others (snd (try_record r e s1)) = others s1) by (unfold try_record, lift; by destruct (Record_event _ _ _)).
    destruct (try_record r e s1) as [[] s2]; cbn [snd negb] in *; [|by rewrite <- E1, <- E2].
    unfold say, mmodify. match goal with |- context [deliver r qs ?s3] => specialize (IH s3); destruct (deliver r qs s3) as [[n ok] s4] end.
    etransitivity; [exact IH|]. etransitivity; [exact E2|exact E1].
Qed.
Lemma queue_taken s : let s' := snd (deliverQueuedCount r s) in
  others s' = with_steer [] (others (snd (look s))).
Proof. cbn zeta. etransitivity; [apply (deliver_others (steer (others (snd (look s)))) (set_others (with_steer [] (others (snd (look s)))) (snd (look s))))|done]. Qed.

Lemma more_step f s : more r (S f) s =
  let s1 := snd (look s) in
  match notices (others s1), steer (others s1) with
  | _ :: _, _ => ((true, true), s1)
  | [], [] => ((false, true), s1)
  | [], _ => let '((n, ok), s2) := deliverQueuedCount r s1 in
             if negb ok then ((false, false), s2) else if (0 <? n)%nat then ((true, true), s2) else more r f s2
  end.
Proof.
  cbn [more]. unfold mthen at 1, look, mmodify. unfold mthen at 1, mget. cbn zeta. cbn [snd]. destruct (notices _); [|done]. destruct (steer _); [done|].
  unfold mthen. destruct (deliverQueuedCount r _) as [[n ok] s2]. destruct ok; [|done]. by destruct n.
Qed.
Lemma more_idle f s : idle s → future (others s) = [] → more r f s = ((false, true), s).
Proof.
  intros [E1 E2] E. destruct f; [|rewrite more_step, look_at_end by done; cbn zeta; by rewrite E1, E2].
  cbn [more]. unfold mthen, look, mmodify, mget. by rewrite E, E1, E2.
Qed.
Lemma more_enough f : ∀ g s, (ahead s < f)%nat → (ahead s < g)%nat → more r f s = more r g s.
Proof.
  induction f as [|f IH]; intros [|g] s Hf Hg; try lia. rewrite !more_step. pose proof (look_ahead s) as Hl. cbn zeta.
  set (s1 := snd (look s)) in *. destruct (notices (others s1)) eqn:En; [|done]. destruct (steer (others s1)); [done|].
  pose proof (queue_taken s1) as Hq. cbn zeta in Hq. pose proof (look_ahead s1) as Hl1.
  destruct (deliverQueuedCount r s1) as [[n ok] s2]. cbn [snd] in Hq. destruct (negb ok); [done|]. destruct (0 <? n)%nat; [done|].
  assert (Ha : ahead s2 = pred (pred (ahead s))) by (rewrite Hq, <- Hl; exact Hl1).
  destruct (future (others s)) as [|b rest] eqn:Ef; [|apply IH; cbn in *; lia].
  assert (Hs1 : s1 = s) by (by apply look_at_end). rewrite Hs1, (look_at_end s Ef) in Hq. rewrite Hs1 in En.
  assert (Hi : idle s2 ∧ future (others s2) = []) by (unfold idle; rewrite Hq; by split). destruct Hi as [Hi Hf2]. by rewrite !more_idle.
Qed.

Lemma wait_end s : wait_work 0 s =
  let s1 := snd (look s) in
  match steer (others s1), notices (others s1) with
  | [], [] => match joinedLive (others s1), stop (others s1) with
              | O, _ | _, Some _ => (false, s1)
              | _, _ => (false, set_others (no_joined (others s1)) s1)
              end
  | _, _ => (true, s1)
  end.
Proof.
  cbn [wait_work]. assert (E : hasWork s = (match steer (others (snd (look s))), notices (others (snd (look s))) with [], [] => false | _, _ => true end, snd (look s))) by reflexivity.
  rewrite (mthen_run _ _ _ _ _ E), (mthen_run mget _ _ _ _ eq_refl). cbn zeta.
  destruct (steer _); [|done]. destruct (notices _); [|done]. destruct (joinedLive _); [done|]. by destruct (stop _).
Qed.
Lemma wait_step f s : wait_work (S f) s =
  let s1 := snd (look s) in
  match steer (others s1), notices (others s1) with
  | [], [] => match joinedLive (others s1), stop (others s1) with
              | O, _ | _, Some _ => (false, s1)
              | _, _ => wait_work f s1
              end
  | _, _ => (true, s1)
  end.
Proof.
  cbn [wait_work]. assert (E : hasWork s = (match steer (others (snd (look s))), notices (others (snd (look s))) with [], [] => false | _, _ => true end, snd (look s))) by reflexivity.
  rewrite (mthen_run _ _ _ _ _ E), (mthen_run mget _ _ _ _ eq_refl). cbn zeta.
  destruct (steer _); [|done]. destruct (notices _); [|done]. destruct (joinedLive _); [done|]. by destruct (stop _).
Qed.
Lemma wait_enough f : ∀ g s, (ahead s <= f)%nat → (ahead s <= g)%nat → wait_work f s = wait_work g s.
Proof.
  assert (Hid : ∀ f s, future (others s) = [] → wait_work f s = wait_work 0 s).
  { induction f0 as [|f0 IH]; intros s E; [done|]. rewrite wait_step, wait_end, look_at_end by done. cbn zeta.
    rewrite (IH s E), wait_end, look_at_end by done. cbn zeta. destruct (steer _); [|done]. destruct (notices _); [|done]. destruct (joinedLive _); [done|]. by destruct (stop _). }
  induction f as [|f IH]; intros [|g] s Hf Hg; [done| | |].
  - symmetry. apply Hid. by apply length_zero_iff_nil; lia.
  - apply Hid. by apply length_zero_iff_nil; lia.
  - rewrite !wait_step. cbn zeta. pose proof (look_ahead s). destruct (steer _); [|done]. destruct (notices _); [|done]. destruct (joinedLive _); [done|].
    destruct (stop _); [done|]. apply IH; lia.
Qed.

(** Where there is work, a batch brought it or it was there before; where there is
    none for the model, none is left. *)
Lemma wait_takes f : ∀ s, fst (wait_work f s) = true → (ahead (snd (wait_work f s)) ≤ ahead s)%nat ∧
  (idle s → ahead (snd (wait_work f s)) < ahead s)%nat.
Proof.
  assert (Hl : ∀ s, (ahead (snd (look s)) ≤ ahead s)%nat ∧ (idle s → idle (snd (look s)) ∨ (ahead (snd (look s)) < ahead s)%nat)).
  { intros s. rewrite look_ahead. split; [lia|]. intros Hi. destruct (future (others s)) eqn:E; [left; by rewrite look_at_end|right; cbn; lia]. }
  induction f as [|f IH]; intros s.
  - rewrite wait_end. cbn zeta. destruct (Hl s) as [H1 H2]. set (s1 := snd (look s)) in *.
    destruct (steer (others s1)) eqn:E1, (notices (others s1)) eqn:E2;
      try (intros _; split; [exact H1|intros Hi; destruct (H2 Hi) as [[? ?]|]; [congruence|done]]).
    destruct (joinedLive _); [done|]. by destruct (stop _).
  - rewrite wait_step. cbn zeta. destruct (Hl s) as [H1 H2]. set (s1 := snd (look s)) in *.
    destruct (steer (others s1)) eqn:E1, (notices (others s1)) eqn:E2;
      try (intros _; split; [exact H1|intros Hi; destruct (H2 Hi) as [[? ?]|]; [congruence|done]]).
    destruct (joinedLive _); [done|]. destruct (stop _); [done|]. intros H. destruct (IH s1 H) as [H3 H4]. split; [lia|]. intros _.
    specialize (H4 (conj E1 E2)). lia.
Qed.
Lemma more_none f : ∀ s, (ahead s < f)%nat → fst (more r f s) = (false, true) → idle (snd (more r f s)) ∧ (ahead (snd (more r f s)) ≤ ahead s)%nat.
Proof.
  induction f as [|f IH]; intros s Hf; [lia|]. rewrite more_step. cbn zeta. pose proof (look_ahead s) as Hl. set (s1 := snd (look s)) in *.
  destruct (notices (others s1)) eqn:En; [|done]. destruct (steer (others s1)) eqn:Es; [intros _; split; [by split|cbn [snd]; lia]|].
  pose proof (queue_taken s1) as Hq. cbn zeta in Hq. pose proof (look_ahead s1) as Hl1.
  destruct (deliverQueuedCount r s1) as [[n ok] s2]. cbn [snd] in Hq. destruct (negb ok); [done|]. destruct (0 <? n)%nat; [done|].
  assert (Ha : ahead s2 = pred (pred (ahead s))) by (rewrite Hq, <- Hl; exact Hl1).
  destruct (future (others s)) as [|b rest] eqn:Ef; [|intros H; destruct (IH s2) as [H1 H2]; [cbn [length] in *; lia|exact H|split; [done|lia]]].
  assert (Hs1 : s1 = s) by (by apply look_at_end). rewrite Hs1, (look_at_end s Ef) in Hq. rewrite Hs1 in En.
  assert (Hi : idle s2 ∧ future (others s2) = []) by (unfold idle; rewrite Hq; by split). destruct Hi as [Hi Hf2]. rewrite more_idle by done. cbn. rewrite Hf2. by split; [|cbn; lia].
Qed.
Lemma rounds_enough f : ∀ g s, (ahead s < f)%nat → (ahead s < g)%nat → (¬ idle s → (S (ahead s) < f)%nat ∧ (S (ahead s) < g)%nat) →
  wait_rounds r f s = wait_rounds r g s.
Proof.
  induction f as [|f IH]; intros [|g] s Hf Hg Hn; try lia. cbn [wait_rounds]. unfold mthen. unfold waitBackground.
  pose proof (wait_takes (ahead s) s) as Hw. destruct (wait_work (ahead s) s) as [[] s1]; [|done]. cbn [negb fst snd] in *. destruct (Hw eq_refl) as [H1 H2].
  unfold moreForTheModel. pose proof (more_none (S (ahead s1)) s1 ltac:(lia)) as Hm. destruct (more r (S (ahead s1)) s1) as [[got ok] s2].
  cbn [fst snd] in Hm. destruct ok; [|done]. destruct got; [done|]. destruct (Hm eq_refl) as [Hi Ha]. cbn [negb].
  assert (Hs : (ahead s2 < f)%nat ∧ (ahead s2 < g)%nat).
  { destruct (decide (steer (others s) = [] ∧ notices (others s) = [])) as [Hs|Hs]; [specialize (H2 Hs); lia|specialize (Hn Hs); lia]. }
  apply IH; [apply Hs|apply Hs|done].
Qed.
End bounds.

(** ** A run on a concrete session *)

(** A model that reads, puts and then answers; the answer spells a stored value out
    across two parts. A message is queued while the first turn runs, another while
    the last is made, and a hook turns away one that says no. *)
Definition scripted (req : list message) : reply :=
  match length req with
  | 1%nat | 2%nat => Streamed [PartReasoning "look first"; PartToolCall (MkCall "" "read" "a"); PartToolCall (MkCall "c" "put" "b"); PartDone (Some (10, 5, 0)%Z)]
  | 5%nat | 6%nat => Streamed [PartText "the key is k3y/wi"; PartText "th?12 chars, "; PartText "done"; PartDone (Some (20, 5, 0)%Z)]
  | _ => Streamed [PartText "and that too."; PartDone (Some (20, 5, 0)%Z)]
  end.
Definition queued (id text : string) : QueuedMessage := MkQueued id text "" false.
Definition arrives (q : list QueuedMessage) : batch := MkBatch q [] [] 0 0 None.
Definition some_batches : list batch :=
  [arrives []; arrives []; arrives [queued "q1" "also the tests"; queued "q2" "no"]] ++ repeat (arrives []) 12 ++ [arrives [queued "q3" "thanks"]].
Definition runner (store : nat → event → bool) (shown : list message → reply) : Runner :=
  MkRunner (MkLoop (Tools_Get (small_loop true)) ["read"; "put"; "delete"] "default" (Evaluate (small_loop true)) (Evaluate_rules (small_loop true)) [] [] None
      ShellSplit.ascii_text None None (λ _ _, ([], [])) (Approve (small_loop true)) (λ _, false) store "the store is full" (λ _, false)
      NoRedactor (λ s, s) None (λ _ _, false) false false false 0 (λ _ c, MkToolResult (tc_Args c) false false [])
      (λ s, s) (λ _, []) (λ _, None) (λ _, None) (λ _, None) (λ _, false) (λ s, s) None 0)
    (λ _, together) (λ _, ("", "")) (Some (λ _ text, if String.eqb text "no" then "not now" else "")) (Some a_redactor)
    (λ ms, Some (Z.of_nat (length ms))) (λ ms, Some (Z.of_nat (length ms))) (λ _, shown) 0 (λ _, false) (λ n, Itoa (Z.of_nat n))
    (λ _ _ _, inr (false, 0%Z)) (λ _ _, inl "no model") None 4 2000 0 None (λ _, false) 0.
Definition fresh_run (future : list batch) : run_state :=
  MkRunState fresh_loop (MkShared [] [] [] 0 0 None future) [] 0 5 (MkWoken 0 "") "" 0 false (MkDetails "" "" "") "" false
    (MkUsage 0 0 0 0 0 0) None false [].
Definition a_runner : Runner := runner (λ _ _, true) scripted.
Definition a_session : option (string * bool) * run_state := start a_runner (Prompted "do it" "") (fresh_run some_batches).

Example a_session_ends : fst a_session = Some ("completed", false) ∧ turns (snd a_session) = 3%Z ∧ map length (sent (snd a_session)) = [2; 5; 7]%nat.
Proof. vm_compute. by split_and!. Qed.
Example a_session_settles : settled_ids (trace (core (snd a_session))) = ["q1"; "q2"; "q3"].
Proof. vm_compute. reflexivity. Qed.

Lemma a_runner_schedules : schedules_ok a_runner.
Proof. intros n rs H. by apply together_ok. Qed.
Lemma requests_answered_witness : ∃ new, sent (snd a_session) = [] ++ new ∧ Forall paired new ∧ paired (messages (snd a_session)).
Proof. exact (requests_answered a_runner (Prompted "do it" "") (fresh_run some_batches) a_runner_schedules paired_nil). Defined.
Lemma run_ends_witness : ∃ k x, fst (run a_runner (fresh_run some_batches)) = Some x ∧
  further k (fresh_run some_batches) (snd (run a_runner (fresh_run some_batches))) ∧ (0 + Z.of_nat k ≤ Z.max 0 5)%Z ∧
  ((∀ n e, Append (rn_loop a_runner) n e = true) → closes x (fresh_run some_batches) (snd (run a_runner (fresh_run some_batches)))).
Proof. exact (run_ends a_runner (fresh_run some_batches) a_runner_schedules). Defined.
Lemma queue_settled_in_order_witness : ∃ told, settled_ids (trace (core (snd a_session))) = [] ++ told ∧
  told ++ waiting (others (snd a_session)) = ["q1"; "q2"; "q3"].
Proof.
  refine (queue_settled_in_order a_runner (Prompted "do it" "") (fresh_run some_batches) a_runner_schedules (λ _ _, eq_refl) _).
  split; [cbn; by repeat constructor|cbn; by repeat constructor].
Defined.
Definition some_parts : list part :=
  [PartReasoning "use k3y/with?12"; PartText "the key is k3y/wi"; PartReasoning " chars"; PartText "th?12 chars, done"].
Lemma reply_streams_redacted_witness :
  ∃ es, trace (core (snd (listen a_runner some_parts (fresh_run [])))) = [] ++ es ∧
    joined_up said_of es = redactedText (Redact a_redactor) "the key is k3y/with?12 chars, done" ∧
    joined_up thought_of es = redactedText (Redact a_redactor) "use k3y/with?12 chars".
Proof.
  refine (reply_streams_redacted a_runner a_redactor some_parts (fresh_run []) eq_refl _ _ (λ _ _, eq_refl) _).
  - apply streamable_check. vm_compute. reflexivity.
  - apply textual_check. vm_compute. reflexivity.
  - by repeat constructor.
Defined.

(** A queued message behind one the record refuses is lost: it is taken from the
    queue and neither delivered, kept nor recorded as dropped. *)
Definition full_runner : Runner := runner (λ n _, negb (n =? 1)%nat) scripted.
Example failed_delivery_loses_queue :
  let x := deliverQueuedCount full_runner (set_others (MkShared [queued "q1" "first"; queued "q2" "second"] [] [] 0 0 None []) (fresh_run [])) in
  fst x = (0%nat, false) ∧ steer (others (snd x)) = [] ∧ trace (core (snd x)) = [].
Proof. vm_compute. by split_and!. Qed.
