(* ===== verification/Background.v ===== *)
(** The manager of a session's background work (src/internal/agent/background.go,
    background_shells.go, subagent.go): the live children and the slots they take,
    the results they leave, how a result reaches the conversation while a run is
    live or idle, when it may wake the session, stops, the closing end, and what a
    record owes after a crash.

    An operation under the manager's mutex is a function on [Background]. The
    goroutines that use it are threads of [system], whose every step is one hold of
    the mutex, or one event recorded; [runMu] is the [lock]. A few steps take two in
    a row at once: an event recorded next to a hold ([RunWoken], [ShellRecord],
    [Settle], [RunEnded]), and the mode and the count of stops as a spawn begins or
    a child is moved. A task is written only
    by the goroutine that started it, which holds its id until it has ended, so a
    task is found by its id. *)

From Stdlib Require Import ZArith Ascii String Lia.
From coqutil Require Import Datatypes.RecordSetters.
From stdpp Require Import base tactics list option gmap strings.
From S2P Require Import Prelude.
From S2P Require Import GoStd.
From S2P Require Import Secrets.
From S2P Require Import AgentLoop.
From S2P Require Import AgentCalls.
From S2P Require Import AgentRun.
From S2P Require Import SessionRecord.
From S2P Require Import Transcript.
From S2P Require Import Compact.

Import TriangleBracketNotations.
#[local] Open Scope string_scope.
#[local] Open Scope Z_scope.

(** ** Wake modes *)

Abbreviation WakeMode := string.
Definition WakeOff : WakeMode := "off".
Definition WakeNotify : WakeMode := "notify".
Definition WakeAuto : WakeMode := "auto".

Definition wakeRank (m : WakeMode) : Z := if String.eqb m WakeNotify then 1 else if String.eqb m WakeAuto then 2 else 0.

(** [ParseWakeMode]; [None] is an error. *)
Definition ParseWakeMode (s : string) : option WakeMode :=
  if String.eqb s "" then Some WakeAuto
  else if String.eqb s WakeOff || String.eqb s WakeNotify || String.eqb s WakeAuto then Some s
  else None.

Definition Tighter (m o : WakeMode) : WakeMode := if wakeRank o <? wakeRank m then o else m.

(** ** Reasons and kinds *)

Definition TermCancelledByParent : string := "cancelled_by_parent".
Definition TermSessionDeleted : string := "session_deleted".
Definition TermSessionClosed : string := "session_closed".
Definition TermOwnerRevoked : string := "owner_revoked".
Definition TermLost : string := "lost".
Definition TermLeaseLost : string := "lease_lost".

Definition KindTask : string := "task".
Definition KindShell : string := "shell".

(** The one-word outcome a notice names. *)
Definition noticeStatus (r : string) : string :=
  if String.eqb r TermCompleted then "completed"
  else if String.eqb r TermError || String.eqb r TermRetryExhausted then "failed"
  else if existsb (String.eqb r) [TermUserInterrupt; TermCancelledByParent; TermSessionDeleted; TermSessionClosed;
       TermOwnerInactive; TermOwnerRevoked; TermShutdown; TermLost; TermLeaseLost] then "cancelled"
  else r.

(** ** State *)

(** [BackgroundPolicy], but for the mode, which changes, and its times. *)
Record BackgroundPolicy : Type := MkPolicy {
  MaxLive : Z; Ceiling : WakeMode; MaxWakesPerHour : Z; WakeMaxTurns : Z; MaxShells : Z; idleRetries : Z
}.
Definition maxLive (p : BackgroundPolicy) : Z := Z.max (MaxLive p) 0.
Definition maxShells (p : BackgroundPolicy) : Z := Z.max (MaxShells p) 0.

Record bgTask : Type := MkTask { t_Kind : string; t_joined : bool; t_ended : bool; t_reason : string; t_summary : string }.

(** A result as the conversation receives it. What only a surface shows of it is
    left out: its description, turns and model. *)
Record Notice : Type := MkNotice {
  n_TaskID : string; n_Kind : string; n_Session : string; n_Status : string; n_Reason : string;
  n_TokensIn : Z; n_TokensOut : Z; n_CallID : string; n_Content : string
}.

Record Background : Type := MkBackground {
  tasks : gmap string bgTask; order : list string; reserved : Z; shellsReserved : Z;   (* live children, and slots held *)
  notices : list Notice; deferred : list Notice; unacted : Z; idleFailures : Z; armed : bool;   (* results *)
  mode : WakeMode; wakes : list Z; waking : bool; wakeEpoch : Z;
  lastReason : string; lastEnd : option session_end; owed : bool;
  closed : bool; epoch : Z; stopReason : string; stopped : bool
}.

Definition NewBackground (wake : WakeMode) : Background :=
  MkBackground ∅ [] 0 0 [] [] 0 0 false wake [] false 0 "" None false false 0 "" false.

(** ** Counting what is live *)

Definition is_shell (t : bgTask) : bool := String.eqb (t_Kind t) KindShell.
Definition live_any (t : bgTask) : bool := negb (t_ended t).
Definition live_task (t : bgTask) : bool := negb (t_ended t) && negb (is_shell t).
Definition live_shell (t : bgTask) : bool := negb (t_ended t) && is_shell t.
Definition live_joined (t : bgTask) : bool := negb (t_ended t) && t_joined t.

(** A sum over the values of a map. *)
Definition sum_map {K A} `{Countable K} (f : A → Z) (m : gmap K A) : Z := map_fold (λ _ a n, f a + n) 0 m.
Definition count_map {K A} `{Countable K} (p : A → bool) (m : gmap K A) : Z := sum_map (λ a, if p a then 1 else 0) m.

Definition liveLocked (b : Background) : Z := count_map live_any (tasks b).
Definition liveTasksLocked (b : Background) : Z := count_map live_task (tasks b).
Definition liveShellsLocked (b : Background) : Z := count_map live_shell (tasks b).
Definition joinedLive (b : Background) : Z := count_map live_joined (tasks b).

(** [Owed]. *)
Definition Owed (b : Background) : Z := liveLocked b + Z.of_nat (length (notices b)) + if waking b then 1 else 0.

Definition recentWakesLocked (now : Z) (b : Background) : Z :=
  Z.of_nat (length (List.filter (λ t, now - 3600000000000 <? t) (wakes b))).

(** [Task], as far as [Status] running; [running] names what still runs. *)
Definition task_running (b : Background) (id : string) : bool :=
  match tasks b !! id with Some t => negb (t_ended t) | None => false end.
Definition running (b : Background) : list string := List.filter (task_running b) (order b).

(** ** Slots *)

Section policy.
Context (pol : BackgroundPolicy).

(** [reserve] holds a slot; [reserveN] holds [n], or none. *)
Definition reserve (b : Background) : bool * Background :=
  if closed b then (false, b)
  else if maxLive pol <=? liveTasksLocked b + reserved b then (false, b)
  else (true, b <| reserved ::= Z.add 1 |>).
Definition reserveN (n : nat) (b : Background) : bool * Background :=
  if closed b then (false, b)
  else if maxLive pol - liveTasksLocked b - reserved b <? Z.of_nat n then (false, b)
  else (true, b <| reserved ::= Z.add (Z.of_nat n) |>).

(** [slots.take] of slots with [spare] to give, and [slots.release]. *)
Definition take (spare : nat) (b : Background) : option nat :=
  if closed b then None else match spare with O => None | S spare => Some spare end.
Definition release (spare : nat) (b : Background) : Background := b <| reserved ::= Z.add (- Z.of_nat spare) |>.
Definition unreserve (b : Background) : Background := b <| reserved ::= Z.add (-1) |>.

(** A child becomes live, and the slot it held is given back in the same hold; one
    moved from the foreground held none. *)
Definition register (id kind : string) (joined held : bool) (b : Background) : Background :=
  b <| order := match tasks b !! id with Some _ => order b | None => (order b ++ [id])%list end |>
    <| tasks ::= insert id (MkTask kind joined false "" "") |>
    <| reserved ::= Z.add (if held then -1 else 0) |>.
(** The reason of a stop made since a spawn began. *)
Definition stopped_since (e : Z) (b : Background) : option string :=
  if epoch b =? e then None else Some (stopReason b).

(** [StartShell]: a shell's slot, and a shell that was never recorded. *)
Definition reserve_shell (planMode : bool) (b : Background) : bool * Background :=
  if planMode then (false, b)
  else if closed b then (false, b)
  else if maxShells pol <=? liveShellsLocked b + shellsReserved b then (false, b)
  else (true, b <| shellsReserved ::= Z.add 1 |>).
Definition unreserve_shell (b : Background) : Background := b <| shellsReserved ::= Z.add (-1) |>.
Definition forget (id : string) (b : Background) : Background :=
  b <| tasks ::= delete id |> <| order ::= List.filter (λ o, negb (String.eqb o id)) |>.

(** ** Ends and results *)

Definition end_task (reason summary : string) (t : bgTask) : bgTask := MkTask (t_Kind t) (t_joined t) true reason summary.

(** [push], before it kicks. *)
Definition push (n : Notice) (b : Background) : Background := b <| notices ::= (λ ns, ns ++ [n])%list |>.

(** [settleTask]: the end and the notice land in one step. *)
Definition settleTask (n : option Notice) (id reason summary : string) (b : Background) : Background :=
  let b := b <| tasks ::= alter (end_task reason summary) id |> in
  match n with Some n => push n b | None => b end.

(** [kick]: whether it schedules an idle delivery. *)
Definition kick (b : Background) : bool * Background :=
  if armed b || closed b then (false, b) else (true, b <| armed := true |>).

(** [takeNotices] and [requeue]. *)
Definition takeNotices (b : Background) : list Notice * Background := (notices b, b <| notices := [] |>).
Definition requeue (ns : list Notice) (b : Background) : Background := b <| notices ::= app ns |>.

(** [QueueNotices]: of what the record owes, what does not wait already. *)
Definition counted (id : string) (m : gmap string nat) : nat := default O (m !! id).
Definition count_one (id : string) (m : gmap string nat) : gmap string nat := <[id := S (counted id m)]> m.
Definition waiting_counts (ns : list Notice) : gmap string nat := foldl (λ m n, count_one (n_TaskID n) m) ∅ ns.
Fixpoint queue_missing (waiting : gmap string nat) (ns : list Notice) (b : Background) : Background :=
  match ns with
  | [] => b
  | n :: ns =>
      match counted (n_TaskID n) waiting with
      | S k => queue_missing (<[n_TaskID n := k]> waiting) ns b
      | O => queue_missing waiting ns (snd (kick (push n b)))
      end
  end.
Definition QueueNotices (ns : list Notice) (b : Background) : Background := queue_missing (waiting_counts (notices b)) ns b.

(** ** Stops *)

Definition markStop (reason : string) (b : Background) : Background :=
  b <| epoch ::= Z.add 1 |> <| stopReason := reason |> <| stopped := true |>.

(** [Cancel], until the child is told: whether it runs, and what its stop holds. *)
Definition Cancel (id reason : string) (b : Background) : bool * Background :=
  let runs := task_running b id in
  (runs, if runs && String.eqb reason TermUserInterrupt then b <| stopped := true |> else b).
(** [cancelWhere]: who is told. *)
Definition cancelWhere (which : bgTask → bool) (b : Background) : list string :=
  List.filter (λ id, match tasks b !! id with Some t => negb (t_ended t) && which t | None => false end) (order b).
(** [CancelAll]: told after the stop is counted. *)
Definition CancelAll (reason : string) (b : Background) : list string * Background :=
  let b := markStop reason b in (cancelWhere (λ _, true) b, b).

(** [onRunEnd]: which children an end takes with it. *)
Definition onRunEnd (reason : string) (b : Background) : list string * Background :=
  if String.eqb reason TermCompleted || String.eqb reason TermWakeLimit then ([], b)
  else if existsb (String.eqb reason) [TermError; TermMaxTurns; TermMaxBudget; TermShutdown; TermOwnerInactive; TermOwnerRevoked]
  then CancelAll reason b
  else (cancelWhere t_joined b, b).

(** [Close]: what it does first, and once it holds the conversation; [None] when
    it was closed before. *)
Definition close_first (reason : string) (b : Background) : option Background :=
  if closed b then None else Some (b <| closed := true |> <| epoch ::= Z.add 1 |> <| stopReason := reason |>).
Definition close_clear (b : Background) : Background := b <| notices := [] |> <| waking := false |>.

(** ** Ends of runs *)

Definition noteEnd (e : session_end) (b : Background) : Background :=
  b <| lastReason := en_Reason e |> <| lastEnd := Some e |> <| owed := 0 <? en_Background e |>.

(** [settleIfDue]: the closing end, if one is due. *)
Definition closing_end (e : session_end) : session_end :=
  MkEnd (en_Reason e) (en_Turns e) (en_TokensIn e) (en_TokensOut e) 0 true false (en_Recovered e).
Definition settle_due (b : Background) : bool :=
  owed b && (liveLocked b =? 0) && (length (notices b) =? 0)%nat && negb (waking b).
Definition settleIfDue (b : Background) : option session_end * Background :=
  if settle_due b then (closing_end <$> lastEnd b, b <| owed := false |>) else (None, b).

(** What [run] does as it starts, and what [unlockRun] finds due. *)
Definition run_head (b : Background) : Background :=
  b <| unacted := 0 |> <| stopped := false |> <| notices := (deferred b ++ notices b)%list |> <| deferred := [] |>.
Definition unlock_due (b : Background) : bool := negb (length (notices b) =? 0)%nat || owed b.

(** ** Wakes *)

Definition orNone (s : string) : string := if String.eqb s "" then "none" else s.

(** [canWake]: [None] when it may wake. The budget, the turns and the surface's own
    answer ([None]: it has no say) are given. *)
Definition canWake (now : Z) (exhausted turnsOut : bool) (can : option (bool * string)) (b : Background) : option string :=
  if stopped b then Some "stopped"
  else if negb (String.eqb (lastReason b) TermCompleted) && negb (String.eqb (lastReason b) TermWakeLimit)
  then Some ("last_run_" ++ orNone (lastReason b))
  else if exhausted then Some "budget"
  else if turnsOut then Some "max_turns"
  else if MaxWakesPerHour pol <=? recentWakesLocked now b then Some "wake_limit"
  else match can with
       | None => Some "host"
       | Some (true, _) => None
       | Some (false, why) => Some why
       end.

(** A wake decided, and one the surface could not start. *)
Definition begin_waking (b : Background) : Background := b <| waking := true |> <| wakeEpoch := epoch b |>.
Definition fail_waking (b : Background) : Background := b <| waking := false |>.

(** The start of [RunWoken]: whether it goes on. *)
Definition woken_head (byPolicy : bool) (now : Z) (b : Background) : bool * Background :=
  let b := fail_waking b in
  if byPolicy && (stopped b || negb (epoch b =? wakeEpoch b)) then (false, b)
  else if (length (notices b) =? 0)%nat && (unacted b =? 0) then (false, b)
  else (true, if byPolicy then b <| wakes ::= (λ ws, ws ++ [now])%list |> else b).

(** [RunWoken]'s cap on the turns of its run. *)
Definition wake_cap (maxTurns turns : Z) : Z :=
  Z.min maxTurns (turns + if WakeMaxTurns pol <=? 0 then 8 else WakeMaxTurns pol).

(** [SetWake]: refused above the ceiling; the mode changes once recorded. *)
Definition SetMode (m : WakeMode) (b : Background) : Background := b <| mode := m |>.
Definition wake_allowed (m : WakeMode) : bool :=
  match ParseWakeMode m with
  | None => false
  | Some _ => negb (String.eqb m "") && (String.eqb (Ceiling pol) "" || String.eqb (Tighter m (Ceiling pol)) m)
  end.
Definition SetWake (m : WakeMode) (recorded : bool) (b : Background) : bool * Background :=
  if wake_allowed m && recorded then (true, SetMode m b) else (false, b).

(** ** Idle delivery *)

(** A refused idle delivery: tried again, or given up on; whether it is. *)
Definition idle_refused (b : Background) : bool * Background :=
  let tries := idleFailures b + 1 in
  if idleRetries pol <? tries
  then (true, b <| deferred ::= (λ ds, ds ++ notices b)%list |> <| notices := [] |> <| idleFailures := 0 |>)
  else (false, b <| idleFailures := tries |>).
Definition idle_delivered (pendingNow : Z) (b : Background) : Background :=
  b <| idleFailures := 0 |> <| unacted ::= Z.add pendingNow |>.

End policy.

(** ** What a record owes *)

Definition MaxSummaryChars : nat := 8000.
Definition truncateSummary (s : string) : string :=
  if (String.length s <=? MaxSummaryChars)%nat then s else str_take (rune_cut s MaxSummaryChars) s ++ nl ++ nl ++ "[summary truncated]".

(** An event's answer, when it has one. *)
Definition answer_of (e : event) : option string :=
  match ev_Body e with
  | AgentMessage (Some text) => if String.eqb (TrimSpace text) "" then None else Some text
  | _ => None
  end.
(** [lastAgentMessage]; [answerThrough] an end; [answerOfRun], of an old record. *)
Definition lastAgentMessage (evs : list event) : string := default "" (last (omap answer_of evs)).
Fixpoint answer_through (seq : Z) (last : string) (evs : list event) : string :=
  match evs with
  | [] => last
  | e :: evs =>
      if seq <? ev_Seq e then last
      else
        let last := match ev_Body e with Spawned _ => "" | _ => last end in
        answer_through seq (default last (answer_of e)) evs
  end.
Definition answerThrough (evs : list event) (seq : Z) : string := answer_through seq "" evs.
Fixpoint answer_of_run (all : list event) (n ends_ : nat) (last : string) (evs : list event) : string :=
  match evs with
  | [] => lastAgentMessage all
  | e :: evs =>
      match ev_Body e with
      | AgentMessage _ => answer_of_run all n ends_ (default last (answer_of e)) evs
      | SessionEnded _ => if (S ends_ =? n)%nat then last else answer_of_run all n (S ends_) last evs
      | _ => answer_of_run all n ends_ last evs
      end
  end.
Definition answerOfRun (evs : list event) (n : nat) : string := answer_of_run evs n 0 "" evs.

(** How many notices of each task were delivered. *)
Definition delivered_step (m : gmap string nat) (b : body) : gmap string nat :=
  match b with Noticed (Some n) => count_one (nt_TaskID n) m | _ => m end.
Definition delivered_counts (bs : list body) : gmap string nat := foldl delivered_step ∅ bs.

(** A return a background task owes for. *)
Definition owing (c : child_note) : bool := ch_Background c && negb (String.eqb (ch_TaskID c) "").

Section pending.
Context (child : string → option (list event)) (newID : nat → string).

(** The result of a return: [runs] returns of its session were recorded by then. *)
Definition owed_content (runs : nat) (c : child_note) : string :=
  let content :=
    match child (ch_Session c) with
    | Some evs => match ch_EndSeq c with
                  | Some seq => if 0 <? seq then answerThrough evs seq else answerOfRun evs runs
                  | None => answerOfRun evs runs
                  end
    | None => ""
    end in
  let content := if String.eqb (TrimSpace content) "" then "(subagent ended with " ++ ch_Reason c ++ " and produced no summary)" else content in
  let content := truncateSummary content in
  if String.eqb (ch_Reason c) TermCompleted then content
  else content ++ nl ++ nl ++ "[subagent ended early: " ++ ch_Reason c ++ "]".
Definition owed_notice (id : nat) (runs : nat) (c : child_note) : Notice :=
  MkNotice (ch_TaskID c) "" (ch_Session c) (noticeStatus (ch_Reason c)) (ch_Reason c) (ch_TokensIn c) (ch_TokensOut c)
    ("bgn_" ++ newID id) (owed_content runs c).

(** The returns in turn, each paired with the notices delivered of its task. *)
Fixpoint pending (delivered returned runs : gmap string nat) (ids : nat) (bs : list body) : list Notice :=
  match bs with
  | [] => []
  | Returned (Some c) :: bs =>
      let runs := if String.eqb (ch_Session c) "" then runs else count_one (ch_Session c) runs in
      if negb (owing c) then pending delivered returned runs ids bs
      else
        let returned := count_one (ch_TaskID c) returned in
        if (counted (ch_TaskID c) returned <=? counted (ch_TaskID c) delivered)%nat
        then pending delivered returned runs ids bs
        else owed_notice ids (counted (ch_Session c) runs) c :: pending delivered returned runs (S ids) bs
  | _ :: bs => pending delivered returned runs ids bs
  end.
Definition PendingBodies (bs : list body) : list Notice := pending (delivered_counts bs) ∅ ∅ 0 bs.
Definition PendingNotices (events : list event) : list Notice := PendingBodies (map ev_Body (Live events)).
End pending.

(** ** The goroutines *)

(** A spawn: [SpawnBackground], from its start until its child is live. One of a
    tasks call takes a slot of those the call holds. *)
Record spawning : Type := MkSpawning { sp_id : string; sp_joined : bool; sp_epoch : Z; sp_slots : option nat; sp_held : bool }.
(** The slots a tasks call has to give, and the stops it began under. *)
Record slots : Type := MkSlots { left : nat; began : Z }.
(** A shell being started: its slot held, live and not yet recorded, refused by the
    record, and done with. *)
Inductive starting_shell : Type := ShellHeld (joined : bool) | ShellUp (id : string) | ShellRefused (id : string) | ShellDone.
(** A child: running, a shell running; its return recorded; a shell that ended, with a notice or none. *)
Inductive kid : Type := Runs (moved : bool) | RunsShell | Back (moved : bool) (c : child_note) | Over (quiet : bool).

(** Who holds the conversation ([runMu]), and how far it is. A run: before or after
    its rounds, in them with what [deliverNotices] has taken, about to record its
    end, and done. An idle delivery: it found results, in mode auto, may wake, is to
    deliver, has counted, has taken, was refused. [Settling]: [settleIfDue] is next. *)
Inductive holder : Type :=
  | Free | Held | InRun (hand : list Notice) | Ending (e : session_end) | RunOver
  | IdleLooked | IdleAuto | IdleDecided | IdleDeliver | IdleCounted (n : Z) | IdleHanding (n : Z) (hand : list Notice) | IdleRefused
  | Settling.

Record system : Type := MkSystem {
  bg : Background;
  rec : list body;                       (* the parent's record *)
  clock : Z;
  lock : holder;
  spawns : gmap nat spawning; calls : gmap nat slots; shells : gmap nat starting_shell; kids : gmap string kid;
  kicks : nat; dues : nat;               (* ends about to kick, unlocks about to look *)
  timers : nat; waiters : nat;           (* idle deliveries scheduled, and waiting for the conversation *)
  asked : nat; again : nat;              (* asking the surface for a wake, and refused one *)
  coming : nat; closings : nat;          (* wake runs started, and closings waiting for the conversation *)
  (* what happened, as no code keeps it: wakes by a caller, the results made and
     told, and whether a task's returns and results may have parted *)
  callers : Z; made : list Notice; told : list Notice; lapse : bool
}.

Inductive label : Type :=
  | Tick (d : Z) | Record_other (b : body)
  | SetWakeMode (m : WakeMode) (recorded : bool) | StopAll (reason : string) | StopOne (id reason : string)
  | CloseFirst (reason : string) | CloseHold
  | TasksBegin (s : nat) (n : nat) | TasksEnd (s : nat)
  | SpawnBegin (c : nat) (id : string) (from : option nat) | SpawnReserve (c : nat) | SpawnDrop (c : nat) | SpawnRegister (c : nat)
  | MoveChild (id : string) (already : option child_note)
  | ChildReturns (id : string) (c : child_note) (recorded : bool) | ChildSettles (id callID content : string)
  | ShellReserve (c : nat) (planMode : bool) | ShellFails (c : nat) | ShellStarts (c : nat) (id : string)
  | ShellRecord (c : nat) (recorded : bool) | ShellForget (c : nat) | ShellRelease (c : nat)
  | ShellExits (id : string) (quiet : bool) | ShellSettles (id state reason callID content : string)
  | Kick | Due | TimerFires
  | IdleTake | IdleMode | IdleAsk (exhausted turnsOut : bool) (can : option (bool * string)) | IdleWake | IdleAnswer (started : bool) | IdleAgain
  | IdleCount | IdleGrab | IdleRecord (recorded : bool) | IdleFails | IdleDone | Settle
  | RunLock | RunWoken (byPolicy recorded : bool) | RunHead | RunTake | RunRecord (recorded : bool)
  | RunStop (reason : string) | RunOwed (reason : string) (turns tokensIn tokensOut : Z) (suggesting : bool) | RunEnded | RunUnlock.

(** A task's id: a subagent's, never a shell's. *)
Definition task_id (id : string) : bool := negb (String.eqb id "") && negb (HasPrefix id "sh_").
(** An id no child has now, and none is being spawned with: a new one is unique, and
    a resume is refused of a task that runs or is being resumed. *)
Definition not_spawning (id : string) (s : system) : bool :=
  bool_decide (map_Forall (λ _ sp, sp_id sp ≠ id) (spawns s)).
Definition id_free (id : string) (s : system) : bool :=
  negb (task_running (bg s) id) && bool_decide (kids s !! id = None) && not_spawning id s.
Definition busy (s : system) (n : Notice) : bool :=
  negb (bool_decide (kids s !! n_TaskID n = None) && not_spawning (n_TaskID n) s).

Definition notice_of (c : child_note) (callID content : string) : Notice :=
  MkNotice (ch_TaskID c) "" (ch_Session c) (noticeStatus (ch_Reason c)) (ch_Reason c) (ch_TokensIn c) (ch_TokensOut c) callID content.
Definition noticed (n : Notice) : body := Noticed (Some (SessionRecord.MkNotice (n_TaskID n) (n_CallID n) (n_Content n))).
(** Events that bear on no background task's results. *)
Definition other_event (b : body) : bool :=
  match b with Noticed _ | Forked _ => false | Returned (Some c) => negb (owing c) | _ => true end.

Definition dec (n : nat) : option nat := match n with O => None | S n => Some n end.

Section steps.
Context (pol : BackgroundPolicy).

Definition on_bg (f : Background → Background) (s : system) : system := s <| bg ::= f |>.
Definition recorded (b : body) (s : system) : system := s <| rec ::= (λ bs, bs ++ [b])%list |>.

(** [SpawnBackground] and [slots]. *)
Definition spawn_step (l : label) (s : system) : option system :=
  match l with
  | TasksBegin c n =>
      match calls s !! c with
      | Some _ => None
      | None =>
          let '(ok, b) := reserveN pol n (bg s) in
          Some (if ok : bool then s <| bg := b |> <| calls ::= insert c (MkSlots n (epoch (bg s))) |> else s)
      end
  | TasksEnd c =>
      match calls s !! c with
      | Some x => Some (on_bg (release (left x)) s <| calls ::= delete c |>)
      | None => None
      end
  | SpawnBegin c id from =>
      match spawns s !! c, lock s with
      | None, InRun _ =>
          if task_id id && id_free id s then
            match from with
            | None => Some (s <| spawns ::= insert c (MkSpawning id (String.eqb (mode (bg s)) WakeOff) (epoch (bg s)) None false) |>)
            | Some k =>
                match calls s !! k with
                | Some x => Some (s <| spawns ::= insert c (MkSpawning id (String.eqb (mode (bg s)) WakeOff) (began x) (Some k) false) |>)
                | None => None
                end
            end
          else None
      | _, _ => None
      end
  | SpawnReserve c =>
      match spawns s !! c with
      | Some (MkSpawning id joined e from false) =>
          let refused := Some (s <| spawns ::= delete c |>) in
          let held := s <| spawns ::= insert c (MkSpawning id joined e from true) |> in
          if negb (epoch (bg s) =? e) then refused
          else
            match from with
            | None => let '(ok, b) := reserve pol (bg s) in if ok : bool then Some (held <| bg := b |>) else refused
            | Some k =>
                match calls s !! k with
                | Some x => match take (left x) (bg s) with
                            | Some n => Some (held <| calls ::= insert k (MkSlots n (began x)) |>)
                            | None => refused
                            end
                | None => None
                end
            end
      | _ => None
      end
  | SpawnDrop c =>
      match spawns s !! c with
      | Some sp => Some (on_bg (if sp_held sp then unreserve else id) s <| spawns ::= delete c |>)
      | None => None
      end
  | SpawnRegister c =>
      match spawns s !! c with
      | Some (MkSpawning id joined _ _ true) =>
          Some (on_bg (register id KindTask joined true) s <| spawns ::= delete c |> <| kids ::= insert id (Runs false) |>)
      | _ => None
      end
  | MoveChild id already =>
      match lock s with
      | InRun _ =>
          if task_id id && id_free id s then
            let s := on_bg (register id KindTask (String.eqb (mode (bg s)) WakeOff) false) s in
            match already with
            | None => Some (s <| kids ::= insert id (Runs true) |>)
            | Some c =>
                if String.eqb (ch_TaskID c) id && owing c
                then Some (s <| kids ::= insert id (Back true c) |> <| lapse := true |>) else None
            end
          else None
      | _ => None
      end
  | _ => None
  end.

(** The ends of children: a return recorded, then the end and its notice. *)
Definition settled (n : option Notice) (id reason summary : string) (s : system) : system :=
  on_bg (settleTask n id reason summary) s <| kids ::= delete id |> <| kicks ::= S |>
    <| made ::= (λ ns, ns ++ option_list n)%list |>.
Definition child_step (l : label) (s : system) : option system :=
  match l with
  | ChildReturns id c ok =>
      match kids s !! id with
      | Some (Runs moved) =>
          if String.eqb (ch_TaskID c) id && owing c then
            let s := s <| kids ::= insert id (Back moved c) |> in
            Some (if ok : bool then recorded (Returned (Some c)) s else s <| lapse := true |>)
          else None
      | _ => None
      end
  | ChildSettles id callID content =>
      match kids s !! id with
      | Some (Back _ c) => Some (settled (Some (notice_of c callID content)) id (ch_Reason c) content s)
      | _ => None
      end
  | _ => None
  end.

(** [StartShell] and [watchShell]. *)
Definition shell_step (l : label) (s : system) : option system :=
  match l with
  | ShellReserve c plan =>
      match shells s !! c, lock s with
      | None, InRun _ =>
          let '(ok, b) := reserve_shell pol plan (bg s) in
          Some (if ok : bool then s <| bg := b |> <| shells ::= insert c (ShellHeld (String.eqb (mode (bg s)) WakeOff)) |> else s)
      | _, _ => None
      end
  | ShellFails c =>
      match shells s !! c with Some (ShellHeld _) => Some (s <| shells ::= insert c ShellDone |>) | _ => None end
  | ShellStarts c id =>
      match shells s !! c, tasks (bg s) !! id with
      | Some (ShellHeld joined), None =>
          if HasPrefix id "sh_" && bool_decide (kids s !! id = None)
          then Some (on_bg (register id KindShell joined false) s <| shells ::= insert c (ShellUp id) |>) else None
      | _, _ => None
      end
  | ShellRecord c ok =>
      match shells s !! c with
      | Some (ShellUp id) =>
          Some (if ok : bool
                then recorded (OtherEvent "shell.started") s <| kids ::= insert id RunsShell |> <| shells ::= insert c ShellDone |>
                else on_bg (λ b, b <| tasks ::= alter (end_task "" "") id |>) s <| shells ::= insert c (ShellRefused id) |>)
      | _ => None
      end
  | ShellForget c =>
      match shells s !! c with
      | Some (ShellRefused id) => Some (on_bg (forget id) s <| shells ::= insert c ShellDone |>)
      | _ => None
      end
  | ShellRelease c =>
      match shells s !! c with
      | Some ShellDone => Some (on_bg unreserve_shell s <| shells ::= delete c |>)
      | _ => None
      end
  | ShellExits id quiet =>
      match kids s !! id with
      | Some RunsShell => Some (recorded (OtherEvent "shell.ended") s <| kids ::= insert id (Over (quiet || closed (bg s))) |>)
      | _ => None
      end
  | ShellSettles id state reason callID content =>
      match kids s !! id with
      | Some (Over quiet) =>
          Some (settled (if quiet then None else Some (MkNotice id KindShell "" state reason 0 0 callID content)) id reason "" s)
      | _ => None
      end
  | _ => None
  end.

(** One notice recorded, or refused and put back with those after it. *)
Definition hand_over (ok : bool) (hand : list Notice) (going : list Notice → holder) (refused : holder) (s : system) : option system :=
  match hand with
  | [] => None
  | n :: rest =>
      Some (if ok then recorded (noticed n) s <| lock := going rest |> <| told ::= (λ ns, ns ++ [n])%list |>
            else on_bg (requeue hand) s <| lock := refused |>)
  end.

(** [deliverIdle]. *)
Definition idle_step (l : label) (s : system) : option system :=
  match l, lock s with
  | Kick, _ =>
      match dec (kicks s) with
      | None => None
      | Some k => let '(ok, b) := kick (bg s) in Some (s <| bg := b |> <| kicks := k |> <| timers ::= if ok : bool then S else id |>)
      end
  | Due, _ =>
      match dec (dues s) with
      | None => None
      | Some k => Some (s <| dues := k |> <| kicks ::= if unlock_due (bg s) then S else id |>)
      end
  | TimerFires, _ =>
      match dec (timers s) with
      | None => None
      | Some k => Some (s <| bg ::= (λ b, b <| armed := false |>) |> <| timers := k |> <| waiters ::= if closed (bg s) then id else S |>)
      end
  | IdleTake, Free =>
      match dec (waiters s) with
      | None => None
      | Some k => Some (s <| waiters := k |>
          <| lock := if (length (notices (bg s)) =? 0)%nat || waking (bg s) then Settling else IdleLooked |>)
      end
  | IdleMode, IdleLooked => Some (s <| lock := if String.eqb (mode (bg s)) WakeAuto then IdleAuto else IdleDeliver |>)
  | IdleAsk exhausted turnsOut can, IdleAuto =>
      Some (s <| lock := match canWake pol (clock s) exhausted turnsOut can (bg s) with None => IdleDecided | Some _ => IdleDeliver end |>)
  | IdleWake, IdleDecided => Some (on_bg begin_waking s <| lock := Free |> <| asked ::= S |>)
  | IdleAnswer started, _ =>
      match dec (asked s) with
      | None => None
      | Some k => Some (if started : bool then s <| asked := k |> <| coming ::= S |>
                        else on_bg fail_waking s <| asked := k |> <| again ::= S |>)
      end
  | IdleAgain, Free =>
      match dec (again s) with None => None | Some k => Some (s <| again := k |> <| lock := IdleDeliver |>) end
  | IdleCount, IdleDeliver => Some (s <| lock := IdleCounted (Z.of_nat (length (notices (bg s)))) |>)
  | IdleGrab, IdleCounted n => let '(ns, b) := takeNotices (bg s) in Some (s <| bg := b |> <| lock := IdleHanding n ns |>)
  | IdleRecord ok, IdleHanding n hand => hand_over ok hand (IdleHanding n) IdleRefused s
  | IdleFails, IdleRefused =>
      let '(given_up, b) := idle_refused pol (bg s) in
      Some (if given_up : bool then s <| bg := b |> <| lock := Settling |> <| lapse ::= orb (existsb (busy s) (notices (bg s))) |>
            else s <| bg := b |> <| lock := Free |> <| timers ::= S |>)
  | IdleDone, IdleHanding n [] => Some (on_bg (idle_delivered n) s <| lock := Settling |>)
  | Settle, Settling =>
      let '(end_, b) := settleIfDue (bg s) in
      let s := s <| bg := b |> <| lock := Free |> in
      Some (match end_ with Some e => recorded (SessionEnded (Some e)) s | None => s end)
  | _, _ => None
  end.

(** Runs, as far as they touch the manager. *)
Definition run_step (l : label) (s : system) : option system :=
  match l, lock s with
  | RunLock, Free => Some (s <| lock := Held |>)
  | RunWoken byPolicy ok, Free =>
      match (if byPolicy then dec (coming s) else Some (coming s)) with
      | None => None
      | Some k =>
          let '(go, b) := woken_head byPolicy (clock s) (bg s) in
          let s := s <| bg := b |> <| coming := k |> <| callers ::= if byPolicy then id else Z.add 1 |> in
          Some (if go && ok then recorded SessionWoken s <| lock := Held |> else s <| lock := RunOver |>)
      end
  | RunHead, Held => Some (on_bg run_head s <| lock := InRun [] |>)
  | RunTake, InRun [] => let '(ns, b) := takeNotices (bg s) in Some (s <| bg := b |> <| lock := InRun ns |>)
  | RunRecord ok, InRun hand => hand_over ok hand InRun RunOver s
  | RunStop reason, InRun [] => Some (on_bg (λ b, snd (onRunEnd reason b)) s)
  | RunOwed reason turns tin tout suggesting, InRun [] =>
      Some (s <| lock := Ending (MkEnd reason turns tin tout (Owed (bg s)) false suggesting false) |>)
  | RunEnded, Ending e => Some (on_bg (noteEnd e) (recorded (SessionEnded (Some e)) s) <| lock := RunOver |>)
  | RunUnlock, (Held | InRun [] | RunOver) => Some (s <| lock := Free |> <| dues ::= S |>)
  | _, _ => None
  end.

(** The clock, the surface, stops and closing. *)
Definition surface_step (l : label) (s : system) : option system :=
  match l, lock s with
  | Tick d, _ => if 0 <=? d then Some (s <| clock ::= Z.add d |>) else None
  | Record_other b, _ => if other_event b then Some (recorded b s) else None
  | SetWakeMode m ok, _ => Some (on_bg (λ b, snd (SetWake pol m ok b)) s)
  | StopAll reason, _ => Some (on_bg (λ b, snd (CancelAll reason b)) s)
  | StopOne id reason, _ => Some (on_bg (λ b, snd (Cancel id reason b)) s)
  | CloseFirst reason, _ =>
      Some (match close_first reason (bg s) with Some b => s <| bg := b |> <| closings ::= S |> | None => s end)
  | CloseHold, Free =>
      match dec (closings s) with None => None | Some k => Some (on_bg close_clear s <| closings := k |> <| lock := Settling |>) end
  | _, _ => None
  end.

Definition step (l : label) (s : system) : option system :=
  match spawn_step l s, child_step l s, shell_step l s, idle_step l s, run_step l s with
  | Some s, _, _, _, _ | _, Some s, _, _, _ | _, _, Some s, _, _ | _, _, _, Some s, _ | _, _, _, _, Some s => Some s
  | _, _, _, _, _ => surface_step l s
  end.
Fixpoint steps (ls : list label) (s : system) : option system :=
  match ls with [] => Some s | l :: ls => match step l s with Some s => steps ls s | None => None end end.

(** A session opened on a record, its manager new, with what the record owes. *)
Definition open_session (child : string → option (list event)) (newID : nat → string) (wake : WakeMode) (now : Z) (bs : list body) : system :=
  let ns := PendingBodies child newID bs in
  let b := QueueNotices ns (NewBackground wake) in
  MkSystem b bs now Free ∅ ∅ ∅ ∅ 0 0 (if armed b then 1 else 0) 0 0 0 0 0 0 ns [] false.

Inductive reachable (child : string → option (list event)) (newID : nat → string) : system → Prop :=
  | reach_open wake now bs : reachable child newID (open_session child newID wake now bs)
  | reach_step l s s' : reachable child newID s → step l s = Some s' → reachable child newID s'.

End steps.
