(* ===== verification/BackgroundSpec.v ===== *)
(** What a session's background work promises (Background): its slots are held and
    given back, its own wakes keep to their limit and to a stop, and no result is
    lost or told twice, in memory or by what the record owes after a crash. *)

From Stdlib Require Import ZArith Ascii String Lia.
From coqutil Require Import Datatypes.RecordSetters.
From stdpp Require Import base tactics list option gmap strings.
From S2P Require Import Prelude.
From S2P Require Import GoStd.
From S2P Require Import SessionRecord.
From S2P Require Import Background.

Import TriangleBracketNotations.
#[local] Open Scope string_scope.
#[local] Open Scope list_scope.
#[local] Open Scope Z_scope.

(** ** Sums over maps *)

Section sums.
Context {K A : Type} `{Countable K}.
Implicit Types (m : gmap K A) (f : A → Z) (p : A → bool).

Definition at_key f m k : Z := from_option f 0 (m !! k).
Definition one p (a : A) : Z := if p a then 1 else 0.

Lemma sum_insert_new f m k a : m !! k = None → sum_map f (<[k:=a]> m) = f a + sum_map f m.
Proof. intros Hk. unfold sum_map. rewrite map_fold_insert_L; [done| |done]. intros. lia. Qed.
Lemma sum_delete f m k : sum_map f (delete k m) = sum_map f m - at_key f m k.
Proof.
  unfold at_key. destruct (m !! k) as [a|] eqn:E; cbn; [|rewrite delete_id by done; lia].
  rewrite <- (insert_delete_id m k a E) at 2. rewrite sum_insert_new by apply lookup_delete_eq. lia.
Qed.
Lemma sum_insert f m k a : sum_map f (<[k:=a]> m) = sum_map f m - at_key f m k + f a.
Proof. rewrite <- insert_delete_eq, sum_insert_new, sum_delete by apply lookup_delete_eq. lia. Qed.
Lemma sum_alter f g m k : sum_map f (alter g k m) = sum_map f m - at_key f m k + at_key (f ∘ g) m k.
Proof.
  unfold at_key. destruct (m !! k) as [a|] eqn:E; cbn.
  - replace (alter g k m) with (<[k:=g a]> m); [rewrite sum_insert; unfold at_key; rewrite E; done|].
    apply map_eq. intros j. destruct (decide (k = j)) as [<-|Hj]; simplify_map_eq; done.
  - replace (alter g k m) with m; [lia|]. apply map_eq. intros j.
    destruct (decide (k = j)) as [<-|Hj]; [by rewrite lookup_alter_eq, E|by rewrite lookup_alter_ne].
Qed.
Lemma sum_nonneg f m : (∀ a, 0 <= f a) → 0 <= sum_map f m.
Proof.
  intros Hf. induction m as [|k a m Hk IH] using map_ind; [done|]. rewrite sum_insert_new by done. specialize (Hf a). lia.
Qed.
Lemma sum_empty f : sum_map f (∅ : gmap K A) = 0.
Proof. apply map_fold_empty. Qed.
Lemma count_empty p : count_map p (∅ : gmap K A) = 0.
Proof. apply sum_empty. Qed.
Lemma count_nonneg p m : 0 <= count_map p m.
Proof. apply sum_nonneg. intros a. by destruct (p a). Qed.
Lemma count_insert p m k a : count_map p (<[k:=a]> m) = count_map p m - at_key (one p) m k + one p a.
Proof. apply sum_insert. Qed.
Lemma count_delete p m k : count_map p (delete k m) = count_map p m - at_key (one p) m k.
Proof. apply sum_delete. Qed.
Lemma count_alter p g m k : count_map p (alter g k m) = count_map p m - at_key (one p) m k + at_key (one p ∘ g) m k.
Proof. apply sum_alter. Qed.
Lemma count_le p q m : (∀ a, p a = true → q a = true) → count_map p m <= count_map q m.
Proof.
  intros Hpq. unfold count_map. induction m as [|k a m Hk IH] using map_ind; [done|]. rewrite !sum_insert_new by done.
  specialize (Hpq a). destruct (p a), (q a); try lia; by discriminate Hpq.
Qed.
Lemma at_key_eq f m k a : m !! k = Some a → at_key f m k = f a.
Proof. unfold at_key. by intros ->. Qed.
Lemma at_key_none f m k : m !! k = None → at_key f m k = 0.
Proof. unfold at_key. by intros ->. Qed.
Lemma at_key_one p m k : 0 <= at_key (one p) m k <= 1.
Proof. unfold at_key, one. destruct (m !! k) as [a|]; cbn; [destruct (p a)|]; lia. Qed.
End sums.

(** ** Steps, one at a time *)

Section spec.
Context (pol : BackgroundPolicy).

Lemma step_cases l s s' : step pol l s = Some s' →
  spawn_step pol l s = Some s' ∨ child_step l s = Some s' ∨ shell_step pol l s = Some s' ∨
  idle_step pol l s = Some s' ∨ run_step l s = Some s' ∨ surface_step pol l s = Some s'.
Proof.
  unfold step. intros Hs.
  destruct (spawn_step pol l s); [by left|]. destruct (child_step l s); [by right; left|].
  destruct (shell_step pol l s); [by do 2 right; left|]. destruct (idle_step pol l s); [by do 3 right; left|].
  destruct (run_step l s); [by do 4 right; left|]. by do 5 right.
Qed.

(** An invariant of every step is one of every run of steps. *)
Lemma steps_invariant (P : system → Prop) : (∀ l s s', P s → step pol l s = Some s' → P s') →
  ∀ ls s s', P s → steps pol ls s = Some s' → P s'.
Proof.
  intros Hstep ls. induction ls as [|l ls IH]; cbn; intros s s' Hs Hrun; [by simplify_eq|].
  destruct (step pol l s) as [s1|] eqn:E; [|done]. eapply IH; [by eapply Hstep|done].
Qed.
End spec.

(** Cases of a step that was made: what each field is after it. *)
Ltac cases_in H := repeat (case_match; try discriminate); simplify_eq/=; repeat (case_match; simplify_eq/=).

(** ** What is live *)

Definition kid_shell (k : kid) : bool := match k with Runs _ | Back _ _ => false | RunsShell | Over _ => true end.
Definition kid_moved (k : kid) : bool := match k with Runs moved | Back moved _ => moved | RunsShell | Over _ => false end.
Definition shell_held (x : starting_shell) : bool := match x with ShellHeld _ => true | _ => false end.
Definition shell_at (x : starting_shell) : option (string * bool) :=
  match x with ShellUp id => Some (id, true) | ShellRefused id => Some (id, false) | _ => None end.
Definition any {A} (_ : A) : bool := true.
Definition shell_id (id : string) : Prop := HasPrefix id "sh_" = true.

(** A child is a live task of its kind; an id being spawned with names none, nor
    another spawn; a shell being started is a task no child has yet. *)
Section named.
Implicit Types (T : gmap string bgTask) (S : gmap nat spawning) (X : gmap nat starting_shell) (K : gmap string kid).

Definition kid_named T id k : Prop :=
  (if kid_shell k then shell_id id else task_id id = true) ∧ ∃ t, T !! id = Some t ∧ t_ended t = false ∧ is_shell t = kid_shell k.
Definition idle_id T K id : Prop := K !! id = None ∧ ∀ t, T !! id = Some t → t_ended t = true.
Definition shell_named T K x id up : Prop :=
  shell_at x = Some (id, up) → shell_id id ∧ K !! id = None ∧ ∃ t, T !! id = Some t ∧ t_ended t = negb up ∧ is_shell t = true.
Record named T S X K : Prop := {
  nm_kid id k : K !! id = Some k → kid_named T id k;
  nm_spawn c sp : S !! c = Some sp → task_id (sp_id sp) = true ∧ idle_id T K (sp_id sp);
  nm_apart c c' sp sp' : S !! c = Some sp → S !! c' = Some sp' → sp_id sp = sp_id sp' → c = c';
  nm_shell c x id up : X !! c = Some x → shell_named T K x id up;
  nm_shells c c' x x' id up up' : X !! c = Some x → X !! c' = Some x' →
    shell_at x = Some (id, up) → shell_at x' = Some (id, up') → c = c'
}.

Lemma shell_not_task id : shell_id id → task_id id = true → False.
Proof. unfold shell_id, task_id. intros ->. by rewrite andb_false_r. Qed.

(** A look at a changed map. *)
Ltac looked :=
  repeat match goal with
  | H : <[_:=_]> _ !! _ = Some _ |- _ => apply lookup_insert_Some in H as [[? ?]|[? H]]; subst
  | H : delete _ _ !! _ = Some _ |- _ => apply lookup_delete_Some in H as [? H]
  end.

(** A change of the tasks and children at one id leaves the rest named. *)
Lemma named_change T T' S X K K' id : named T S X K →
  (∀ j, j ≠ id → T' !! j = T !! j ∧ K' !! j = K !! j) →
  (∀ c sp, S !! c = Some sp → sp_id sp ≠ id) → (∀ c x up, X !! c = Some x → shell_at x ≠ Some (id, up)) →
  (∀ k, K' !! id = Some k → kid_named T' id k) → named T' S X K'.
Proof.
  intros [H1 H2 H3 H4 H5] Hj HS HX HK. split; try done.
  - intros j k Hk. destruct (decide (j = id)) as [->|Hne]; [by apply HK|].
    destruct (Hj j Hne) as [E1 E2]. rewrite E2 in Hk. unfold kid_named. rewrite E1. by apply H1.
  - intros c sp Hc. destruct (Hj (sp_id sp) (HS c sp Hc)) as [E1 E2]. unfold idle_id. rewrite E1, E2. by eapply H2.
  - intros c x j up Hc Hx. assert (Hne : j ≠ id) by (intros ->; by eapply HX).
    destruct (Hj j Hne) as [E1 E2]. rewrite E1, E2. by eapply H4.
Qed.

Lemma named_spawn T S X K c sp : named T S X K → task_id (sp_id sp) = true → idle_id T K (sp_id sp) →
  (∀ c' sp', S !! c' = Some sp' → sp_id sp' = sp_id sp → c' = c) → named T (<[c := sp]> S) X K.
Proof.
  intros [H1 H2 H3 H4 H5] Ht Hi Ha. split; try done.
  - intros c' sp' H. looked; [done|by eapply H2].
  - intros c1 c2 sp1 sp2 Hc1 Hc2 E. looked; [done| | |by eapply H3].
    + first [by eapply Ha|symmetry; by eapply Ha].
    + first [by eapply Ha|symmetry; by eapply Ha].
Qed.
Lemma named_unspawn T S X K c : named T S X K → named T (delete c S) X K.
Proof.
  intros [H1 H2 H3 H4 H5]. split; try done.
  - intros c' sp' H. looked. by eapply H2.
  - intros c1 c2 sp1 sp2 Hc1 Hc2. looked. by eapply H3.
Qed.
Lemma named_shell T S X K c x : named T S X K → (∀ id up, shell_named T K x id up) →
  (∀ c' x' id up up', X !! c' = Some x' → shell_at x' = Some (id, up') → shell_at x = Some (id, up) → c' = c) →
  named T S (<[c := x]> X) K.
Proof.
  intros [H1 H2 H3 H4 H5] Hx Ha. split; try done.
  - intros c' x' id up H. looked; [done|by eapply H4].
  - intros c1 c2 x1 x2 id up up' Hc1 Hc2 E1 E2. looked; [done| | |by eapply H5].
    + first [by eapply Ha|symmetry; by eapply Ha].
    + first [by eapply Ha|symmetry; by eapply Ha].
Qed.
Lemma named_unshell T S X K c : named T S X K → named T S (delete c X) K.
Proof.
  intros [H1 H2 H3 H4 H5]. split; try done.
  - intros c' x' id up H. looked. by eapply H4.
  - intros c1 c2 x1 x2 id up up' Hc1 Hc2. looked. by eapply H5.
Qed.

(** A child's id is no spawn's and no starting shell's. *)
Lemma kid_not_spawning T S X K id k c sp : named T S X K → K !! id = Some k → S !! c = Some sp → sp_id sp ≠ id.
Proof. intros H Hk Hc <-. destruct (nm_spawn _ _ _ _ H c sp Hc) as (_ & Hn & _). by rewrite Hk in Hn. Qed.
Lemma kid_not_starting T S X K id k c x up : named T S X K → K !! id = Some k → X !! c = Some x → shell_at x ≠ Some (id, up).
Proof. intros H Hk Hc E. destruct (nm_shell _ _ _ _ H c x id up Hc E) as (_ & Hn & _). by rewrite Hk in Hn. Qed.
Lemma task_not_starting T S X K id c x up : named T S X K → task_id id = true → X !! c = Some x → shell_at x ≠ Some (id, up).
Proof. intros H Ht Hc E. destruct (nm_shell _ _ _ _ H c x id up Hc E) as (Hs & _). by eapply shell_not_task. Qed.
Lemma shell_not_spawning T S X K id c sp : named T S X K → shell_id id → S !! c = Some sp → sp_id sp ≠ id.
Proof. intros H Hs Hc <-. destruct (nm_spawn _ _ _ _ H c sp Hc) as (Ht & _). by eapply shell_not_task. Qed.
End named.
Definition well_named (s : system) : Prop := named (tasks (bg s)) (spawns s) (shells s) (kids s).

(** The slots held are the spawns' and the calls', and with the live they fit. *)
Record slots_fit (pol : BackgroundPolicy) (s : system) : Prop := {
  sf_held : reserved (bg s) = count_map sp_held (spawns s) + sum_map (λ x, Z.of_nat (left x)) (calls s);
  sf_live : liveTasksLocked (bg s) + reserved (bg s) <= maxLive pol + count_map kid_moved (kids s);
  sf_shells : shellsReserved (bg s) = count_map any (shells s);
  sf_live_shells : liveShellsLocked (bg s) + count_map shell_held (shells s) <= maxShells pol
}.

(** Steps that leave what is live, and what starts, alone. *)
Definition same_work (s s' : system) : Prop :=
  tasks (bg s') = tasks (bg s) ∧ reserved (bg s') = reserved (bg s) ∧ shellsReserved (bg s') = shellsReserved (bg s) ∧
  spawns s' = spawns s ∧ calls s' = calls s ∧ shells s' = shells s ∧ kids s' = kids s.
Lemma same_work_named s s' : same_work s s' → well_named s → well_named s'.
Proof. unfold well_named. by intros (-> & _ & _ & -> & _ & -> & ->). Qed.
Lemma same_work_fit pol s s' : same_work s s' → slots_fit pol s → slots_fit pol s'.
Proof.
  intros (Et & Er & Eh & Es & Ec & Ex & Ek) [H1 H2 H3 H4].
  split; unfold liveTasksLocked, liveShellsLocked in *; by rewrite ?Ek, ?Es, ?Ex, ?Et, ?Er, ?Eh, ?Ec.
Qed.

Lemma idle_same_work pol l s s' : idle_step pol l s = Some s' → same_work s s'.
Proof.
  intros H. unfold idle_step, hand_over, kick, takeNotices, idle_refused, settleIfDue, same_work in *. by cases_in H.
Qed.
Lemma run_same_work l s s' : run_step l s = Some s' → same_work s s'.
Proof.
  intros H. unfold run_step, hand_over, takeNotices, woken_head, onRunEnd, CancelAll, same_work in *. by cases_in H.
Qed.
Lemma surface_same_work pol l s s' : surface_step pol l s = Some s' → same_work s s'.
Proof.
  intros H. unfold surface_step, SetWake, CancelAll, Cancel, close_first, same_work in *. by cases_in H.
Qed.

Lemma id_free_spec id s : id_free id s = true →
  idle_id (tasks (bg s)) (kids s) id ∧ ∀ c sp, spawns s !! c = Some sp → sp_id sp ≠ id.
Proof.
  unfold id_free, not_spawning, task_running, idle_id. rewrite !andb_true_iff, !bool_decide_eq_true. intros [[Ht Hk] Hs].
  split_and!; [done| |exact Hs]. intros t E. rewrite E in Ht. by destruct (t_ended t).
Qed.

(** A task that starts: nothing of its id runs, and no spawn but its own has it. *)
Lemma named_start T S X K id kind joined k : named T S X K → task_id id = true → kind = KindTask → kid_shell k = false →
  (∀ c sp, S !! c = Some sp → sp_id sp ≠ id) →
  named (<[id := MkTask kind joined false "" ""]> T) S X (<[id := k]> K).
Proof.
  intros H Ht -> Hk Hs. apply (named_change _ _ _ _ _ _ id H); [| done | |].
  - intros j Hj. by rewrite !lookup_insert_ne.
  - intros c x up Hc. by eapply task_not_starting.
  - intros k' E. rewrite lookup_insert_eq in E. injection E as <-. unfold kid_named. rewrite Hk. split; [done|].
    eexists. rewrite lookup_insert_eq. by split_and!.
Qed.
(** A child's own change: it goes on as the task it is, or it ends. *)
Lemma named_goes_on T S X K id k k' : named T S X K → K !! id = Some k → kid_shell k' = kid_shell k → named T S X (<[id := k']> K).
Proof.
  intros H Hk E. apply (named_change _ _ _ _ _ _ id H).
  - intros j Hj. by rewrite lookup_insert_ne.
  - intros c sp Hc. by eapply kid_not_spawning.
  - intros c x up Hc. by eapply kid_not_starting.
  - intros k1 E1. rewrite lookup_insert_eq in E1. injection E1 as <-. pose proof (nm_kid _ _ _ _ H id k Hk) as Hn. unfold kid_named in *. by rewrite E.
Qed.
Lemma named_ends T S X K id k f : named T S X K → K !! id = Some k → named (alter f id T) S X (delete id K).
Proof.
  intros H Hk. apply (named_change _ _ _ _ _ _ id H).
  - intros j Hj. by rewrite lookup_alter_ne, lookup_delete_ne.
  - intros c sp Hc. by eapply kid_not_spawning.
  - intros c x up Hc. by eapply kid_not_starting.
  - intros k1 E1. by rewrite lookup_delete_eq in E1.
Qed.

(** A spawn that goes on as it is, and one whose child is live. *)
Lemma named_same_id T S X K c sp sp' : named T S X K → S !! c = Some sp → sp_id sp' = sp_id sp → named T (<[c := sp']> S) X K.
Proof.
  intros H Hc E. destruct (nm_spawn _ _ _ _ H c sp Hc) as [Ht Hi]. apply named_spawn; [done|by rewrite E|by rewrite E|].
  intros c' sp1 Hc' E'. rewrite E in E'. by eapply (nm_apart _ _ _ _ H).
Qed.
Lemma named_spawned T S X K c sp k joined : named T S X K → S !! c = Some sp → kid_shell k = false →
  named (<[sp_id sp := MkTask KindTask joined false "" ""]> T) (delete c S) X (<[sp_id sp := k]> K).
Proof.
  intros H Hc Hk. destruct (nm_spawn _ _ _ _ H c sp Hc) as [Ht Hi]. apply named_start; [by apply named_unspawn|done..|].
  intros c' sp' Hc' E. apply lookup_delete_Some in Hc' as [Hne Hc']. apply Hne. by eapply (nm_apart _ _ _ _ H).
Qed.

Lemma spawn_named pol l s s' : spawn_step pol l s = Some s' → well_named s → well_named s'.
Proof.
  unfold well_named. intros H Hn. destruct l; try done; cbn in H; unfold reserveN, reserve in H; cases_in H; try done.
  all: try match goal with E : task_id _ && id_free _ _ = true |- _ =>
    apply andb_true_iff in E as [? E]; apply id_free_spec in E as [? ?] end; cbn in *.
  all: first [by apply named_unspawn|by eapply named_same_id|by eapply (named_spawned _ _ _ _ _ (MkSpawning _ _ _ _ _))|by apply named_start|idtac].
  all: apply named_spawn; [done..|]; intros ? ? Hc ?; exfalso; naive_solver.
Qed.

Lemma child_named l s s' : child_step l s = Some s' → well_named s → well_named s'.
Proof.
  unfold well_named. intros H Hn. destruct l; try done; cbn in H; unfold settled, settleTask, push in H; cases_in H.
  all: first [by eapply named_goes_on|by eapply named_ends].
Qed.

(** A shell being started: not yet live, or done with. *)
Lemma named_no_shell T S X K c x : named T S X K → shell_at x = None → named T S (<[c := x]> X) K.
Proof. intros H Hx. apply named_shell; [done| |]; intros ?; unfold shell_named; rewrite Hx; naive_solver. Qed.
(** The task of a starting shell is its own: it may be changed once the call that
    starts it is done with it. *)
Lemma named_shell_change T T' S X K K' c x id up : named T S X K → X !! c = Some x → shell_at x = Some (id, up) →
  (∀ j, j ≠ id → T' !! j = T !! j ∧ K' !! j = K !! j) → (∀ k, K' !! id = Some k → kid_named T' id k) →
  named T' S (<[c := ShellDone]> X) K'.
Proof.
  intros H Hc Hx Hj HK. destruct (nm_shell _ _ _ _ H c x id up Hc Hx) as (Hs & _ & _).
  apply (named_change T T' S _ K K' id); [by apply named_no_shell|done| | |done].
  - intros c' sp Hc'. by eapply shell_not_spawning.
  - intros c' x' up' Hc' E. apply lookup_insert_Some in Hc' as [[_ <-]|[Hne Hc']]; [done|]. apply Hne. by eapply (nm_shells _ _ _ _ H).
Qed.
Lemma named_shell_up T S X K c id joined : named T S X K → shell_id id → T !! id = None → K !! id = None →
  named (<[id := MkTask KindShell joined false "" ""]> T) S (<[c := ShellUp id]> X) K.
Proof.
  intros H Hs HT HK. assert (Hno : ∀ c x up, X !! c = Some x → shell_at x ≠ Some (id, up)).
  { intros c' x up Hc E. destruct (nm_shell _ _ _ _ H c' x id up Hc E) as (_ & _ & t & Ht & _). by rewrite HT in Ht. }
  apply named_shell.
  - apply (named_change _ _ _ _ _ _ id H); [|by intros c' sp Hc; eapply shell_not_spawning|by eauto|by rewrite HK].
    intros j Hj. by rewrite lookup_insert_ne.
  - intros j up E. injection E as <- <-. split_and!; [done|done|]. eexists. rewrite lookup_insert_eq. by split_and!.
  - intros c' x' j up up' Hc E E'. injection E' as <- <-. exfalso. by eapply Hno.
Qed.
Lemma named_shell_refused T S X K c id f : named T S X K → X !! c = Some (ShellUp id) → (∀ t, t_ended (f t) = true ∧ is_shell (f t) = is_shell t) →
  named (alter f id T) S (<[c := ShellRefused id]> X) K.
Proof.
  intros H Hc Hf. destruct (nm_shell _ _ _ _ H c _ id true Hc eq_refl) as (Hs & HK & t & Ht & _ & Hsh).
  rewrite <- (insert_insert_eq X c (ShellRefused id) ShellDone). apply named_shell.
  - apply (named_shell_change _ _ _ _ _ _ _ _ _ _ H Hc eq_refl); [|by rewrite HK]. intros j Hj. by rewrite lookup_alter_ne.
  - intros j up E. injection E as <- <-. split_and!; [done|done|]. exists (f t). rewrite lookup_alter_eq, Ht. cbn. destruct (Hf t) as [-> ->]. done.
  - intros c' x' j up up' Hc' E E'. injection E' as <- <-. apply lookup_insert_Some in Hc' as [[_ <-]|[Hne Hc']]; [done|].
    by eapply (nm_shells _ _ _ _ H).
Qed.

Lemma shell_named_step pol l s s' : shell_step pol l s = Some s' → well_named s → well_named s'.
Proof.
  unfold well_named. intros H Hn. destruct l; try done; cbn in H; unfold reserve_shell, settled, settleTask, push in H; cases_in H; try done.
  all: try match goal with E : HasPrefix _ _ && _ = true |- _ => apply andb_true_iff in E as [? E%bool_decide_eq_true] end; cbn in *.
  all: first [by apply named_no_shell|by apply named_shell_up|by apply named_shell_refused|by apply named_unshell|by eapply named_goes_on|by eapply named_ends|idtac].
  - destruct (nm_shell _ _ _ _ Hn c _ id true ltac:(eassumption) eq_refl) as (Hs & _ & Ht).
    eapply (named_shell_change _ _ _ _ _ _ c); [done..| |].
    + intros j Hj. by rewrite lookup_insert_ne.
    + intros k E. rewrite lookup_insert_eq in E. by injection E as <-.
  - destruct (nm_shell _ _ _ _ Hn c _ id false ltac:(eassumption) eq_refl) as (_ & HK & _).
    eapply (named_shell_change _ _ _ _ _ _ c); [done..| |].
    + intros j Hj. by rewrite lookup_delete_ne.
    + intros k E. by rewrite HK in E.
Qed.

Lemma well_named_step pol l s s' : well_named s → step pol l s = Some s' → well_named s'.
Proof.
  intros Hn Hs. apply step_cases in Hs as [H|[H|[H|[H|[H|H]]]]].
  - by eapply spawn_named.
  - by eapply child_named.
  - by eapply shell_named_step.
  - eapply same_work_named; [by eapply idle_same_work|done].
  - eapply same_work_named; [by eapply run_same_work|done].
  - eapply same_work_named; [by eapply surface_same_work|done].
Qed.

(** ** Slots *)

(** Sums after a change, from what each changed key held. *)
Ltac tally :=
  rewrite ?count_insert, ?count_delete, ?count_alter, ?sum_insert, ?sum_delete in *;
  repeat match goal with
  | H : at_key ?f ?m ?k = _ |- context [at_key ?f ?m ?k] => rewrite H
  | H : ?m !! ?k = None |- context [at_key ?f ?m ?k] => rewrite (at_key_none f m k H)
  end;
  repeat match goal with
  | H : ?m !! ?k = Some _ |- context [at_key ?f ?m ?k] => rewrite (at_key_eq f m k _ H)
  end;
  unfold one, any in *; cbn in *; rewrite ?Z.leb_gt, ?Z.ltb_ge in *;
  repeat match goal with H : ?b = true |- context [if ?b then _ else _] => rewrite H | H : ?b = false |- context [if ?b then _ else _] => rewrite H
  | |- context [if ?b then _ else _] => is_var b; destruct b end; try lia.

Lemma idle_not_live T K id : idle_id T K id →
  at_key (one live_task) T id = 0 ∧ at_key (one live_shell) T id = 0 ∧ at_key (one kid_moved) K id = 0.
Proof.
  intros [HK HT]. unfold at_key, one, live_task, live_shell. rewrite HK. destruct (T !! id) as [t|] eqn:E; cbn; [|done].
  by rewrite (HT t eq_refl).
Qed.
Lemma spawn_not_live T S X K c sp : named T S X K → S !! c = Some sp →
  at_key (one live_task) T (sp_id sp) = 0 ∧ at_key (one live_shell) T (sp_id sp) = 0 ∧ at_key (one kid_moved) K (sp_id sp) = 0.
Proof. intros H Hc. apply idle_not_live. by eapply nm_spawn. Qed.

Lemma spawn_fits pol l s s' : spawn_step pol l s = Some s' → well_named s → slots_fit pol s → slots_fit pol s'.
Proof.
  unfold well_named. intros H Hn [H1 H2 H3 H4]. unfold liveTasksLocked, liveShellsLocked in *.
  destruct l; try done; cbn in H; unfold reserveN, reserve, liveTasksLocked, take in H; cases_in H; try done.
  all: try match goal with E : task_id _ && id_free _ _ = true |- _ =>
    apply andb_true_iff in E as [? E]; apply id_free_spec in E as [E _]; apply idle_not_live in E as (? & ? & ?) end; cbn in *.
  all: try match goal with E : _ !! _ = Some (MkSpawning _ _ _ _ true) |- _ => destruct (spawn_not_live _ _ _ _ _ _ Hn E) as (? & ? & ?) end; cbn in *.
  all: repeat match goal with b : Background |- _ => destruct b; cbn in * end.
  all: pose proof (count_nonneg kid_moved kids).
  all: split; unfold liveTasksLocked, liveShellsLocked; cbn in *; tally.
Qed.

(** A child that ends: a live task of its kind no more. *)
Lemma kid_live T S X K id k : named T S X K → K !! id = Some k →
  at_key (one live_task) T id = (if kid_shell k then 0 else 1) ∧ at_key (one live_shell) T id = (if kid_shell k then 1 else 0).
Proof.
  intros H Hk. destruct (nm_kid _ _ _ _ H id k Hk) as (_ & t & Ht & E1 & E2).
  rewrite !(at_key_eq _ _ _ _ Ht). unfold one, live_task, live_shell. rewrite E1, E2. by destruct (kid_shell k).
Qed.
Lemma ended_not_live (T : gmap string bgTask) id reason summary :
  at_key (one live_task ∘ end_task reason summary) T id = 0 ∧ at_key (one live_shell ∘ end_task reason summary) T id = 0.
Proof. unfold at_key. by destruct (T !! id). Qed.

Lemma child_fits pol l s s' : child_step l s = Some s' → well_named s → slots_fit pol s → slots_fit pol s'.
Proof.
  unfold well_named. intros H Hn [H1 H2 H3 H4]. unfold liveTasksLocked, liveShellsLocked in *.
  destruct l; try done; cbn in H; unfold settled, settleTask, push in H; cases_in H.
  all: match goal with E : _ !! ?id = Some _ |- _ => destruct (kid_live _ _ _ _ _ _ Hn E) as [? ?] end; cbn in *.
  all: repeat match goal with b : Background |- _ => destruct b; cbn in * end.
  all: try match goal with |- context [alter (end_task ?r ?m) ?id ?T] => destruct (ended_not_live T id r m) as [? ?] end.
  all: split; unfold liveTasksLocked, liveShellsLocked; cbn in *; tally.
Qed.

Lemma shell_fits pol l s s' : shell_step pol l s = Some s' → well_named s → slots_fit pol s → slots_fit pol s'.
Proof.
  unfold well_named. intros H Hn [H1 H2 H3 H4]. unfold liveTasksLocked, liveShellsLocked in *.
  destruct l; try done; cbn in H; unfold settled, settleTask, push, reserve_shell, liveShellsLocked in H; cases_in H; try done.
  all: try match goal with
    | E : _ !! ?id = Some (Over _) |- _ => destruct (kid_live _ _ _ _ _ _ Hn E) as [? ?]
    | E : _ !! _ = Some (ShellUp _) |- _ => destruct (nm_shell _ _ _ _ Hn _ _ _ _ E eq_refl) as (_ & ? & _) end; cbn in *.
  all: repeat match goal with b : Background |- _ => destruct b; cbn in * end.
  all: try match goal with |- context [alter (end_task ?r ?m) ?id ?T] => destruct (ended_not_live T id r m) as [? ?] end.
  all: try match goal with
    | |- context [alter _ ?id ?T] => pose proof (at_key_one live_task T id); pose proof (at_key_one live_shell T id)
    | |- context [delete ?id ?T] => pose proof (at_key_one live_task T id); pose proof (at_key_one live_shell T id) end.
  all: pose proof (count_le shell_held any shells (λ _ _, eq_refl)).
  all: split; unfold liveTasksLocked, liveShellsLocked; cbn in *; tally.
Qed.

Lemma slots_fit_step pol l s s' : well_named s → slots_fit pol s → step pol l s = Some s' → slots_fit pol s'.
Proof.
  intros Hn Hf Hs. apply step_cases in Hs as [H|[H|[H|[H|[H|H]]]]].
  - by eapply spawn_fits.
  - by eapply child_fits.
  - by eapply shell_fits.
  - eapply same_work_fit; [by eapply idle_same_work|done].
  - eapply same_work_fit; [by eapply run_same_work|done].
  - eapply same_work_fit; [by eapply surface_same_work|done].
Qed.

(** A session as it is opened: its manager new, but for what the record owes. *)
Lemma queue_fresh wake ns : ∀ ms a, ∃ a', queue_missing ∅ ns ((NewBackground wake) <| notices := ms |> <| armed := a |>) =
  (NewBackground wake) <| notices := ms ++ ns |> <| armed := a' |>.
Proof.
  induction ns as [|n ns IH]; intros ms a; cbn [queue_missing].
  - exists a. by rewrite app_nil_r.
  - unfold counted. rewrite lookup_empty. cbn [default]. destruct (IH (ms ++ [n]) true) as [a' E]. exists a'.
    rewrite <- app_assoc in E. cbn [app] in E. rewrite <- E. by destruct a.
Qed.
Lemma opened child newID wake now bs : ∃ a k, let ns := PendingBodies child newID bs in
  open_session child newID wake now bs =
  MkSystem ((NewBackground wake) <| notices := ns |> <| armed := a |>) bs now Free ∅ ∅ ∅ ∅ 0 0 k 0 0 0 0 0 0 ns [] false.
Proof.
  destruct (queue_fresh wake (PendingBodies child newID bs) [] false) as [a E]. exists a, (if a then 1 else 0)%nat.
  unfold open_session, QueueNotices. cbn [waiting_counts foldl notices NewBackground]. change (NewBackground wake) with ((NewBackground wake) <| notices := [] |> <| armed := false |>).
  rewrite E. done.
Qed.
Lemma opened_fit pol child newID wake now bs : let s := open_session child newID wake now bs in well_named s ∧ slots_fit pol s.
Proof.
  destruct (opened child newID wake now bs) as (a & k & E). cbn zeta in *. rewrite E. split.
  - by split.
  - split; unfold liveTasksLocked, liveShellsLocked, maxLive, maxShells; cbn; rewrite ?count_empty, ?sum_empty; lia.
Qed.
Lemma reached_fit pol child newID wake now bs ls s :
  steps pol ls (open_session child newID wake now bs) = Some s → well_named s ∧ slots_fit pol s.
Proof.
  apply (steps_invariant pol (λ s, well_named s ∧ slots_fit pol s)); [|apply opened_fit].
  intros l s1 s2 [Hn Hf] Hs. split; [by eapply well_named_step|by eapply slots_fit_step].
Qed.

(** However spawns, tasks calls, shells, moves, ends and stops interleave, no
    more subagents are live or held a slot for than the session allows, but for
    those a person moved from the foreground, and no more shells; and no slot is
    lost: with no spawn and no tasks call under way none is held. *)
Theorem slots_kept pol child newID wake now bs ls s :
  steps pol ls (open_session child newID wake now bs) = Some s →
  0 <= reserved (bg s) ∧ liveTasksLocked (bg s) + reserved (bg s) <= maxLive pol + count_map kid_moved (kids s) ∧
  liveShellsLocked (bg s) <= maxShells pol ∧
  (spawns s = ∅ → calls s = ∅ → reserved (bg s) = 0) ∧ (shells s = ∅ → shellsReserved (bg s) = 0).
Proof.
  intros H. apply reached_fit in H as [_ [H1 H2 H3 H4]].
  pose proof (count_nonneg sp_held (spawns s)). pose proof (count_nonneg shell_held (shells s)).
  pose proof (sum_nonneg (λ x, Z.of_nat (left x)) (calls s) ltac:(intros; cbn; lia)).
  split_and!; [lia|done|lia| |].
  - intros E1 E2. by rewrite H1, E1, E2, count_empty, sum_empty.
  - intros E. by rewrite H3, E, count_empty.
Qed.
